(* ===== verification/_CoqProject ===== *)
-Q . S2P
Prelude.v
Bytes.v
Crc32c.v
Reading.v
WalCodec.v
PosixIo.v
DiskFacts.v
WalPaths.v
WalScan.v
WalHistory.v
WalDiscovery.v
WalSound.v
WalScanTheorems.v
WalWriter.v
WalWriterFacts.v
WalWriterFailure.v
WalWriterTheorems.v
WalRecovery.v
WalRecoveryTheorems.v
WalReclaim.v
WalReclaimTheorems.v
WalCommit.v
WalCommitFacts.v
WalCommitInvariant.v
WalCommitSteps.v
WalCommitWriter.v
WalCommitRuns.v
WalCommitTheorems.v
RaftTypes.v
RaftMembership.v
RaftNode.v
RaftFacts.v
RaftInvariant.v
RaftTheorems.v
RaftElection.v
RaftCluster.v
RaftLinks.v
RaftLogMatching.v
RaftTransport.v
RaftTransportCodec.v
RaftTransportStream.v
OrderedMap.v
RaftLogCodec.v
RaftLogRecord.v
RaftLogFiles.v
RaftLogFileFacts.v
RaftPersistentLog.v
RaftLogHistory.v
RaftLogSegments.v
RaftLogDirectory.v
RaftLogOpen.v
RaftLogLive.v
RaftLogCheckpoint.v
RaftLogLives.v
RaftLogGuarantees.v
MultiRaft.v
DurableRuntime.v
RaftRestart.v
MultiRaftFacts.v
DurableRestore.v
DurableFacts.v
DurableGuarantees.v
Schema.v
SchemaTheorems.v
Metadata.v
MetadataFacts.v
CatalogRecovery.v
MetadataTheorems.v
MetadataCodec.v
MetadataCodecFacts.v
SchemaCodec.v
MetadataCodecTheorems.v
MetadataSnapshot.v
MetadataSnapshotFacts.v
MetadataStorage.v
MetadataStorageFacts.v
MetadataStorageTheorems.v
MetadataRuntime.v
MetadataRuntimeFacts.v
MetadataRuntimeTheorems.v
