(* ===== verification/Prelude.v ===== *)
(** * Verification of the storage and consensus core of ChronosDB

    ChronosDB is a distributed time-series database in C++23.  This library models
    the parts on which its durability, its agreement and its catalog rest, and proves
    what they promise:

    - the write-ahead log (src/wal), which turns application entries into
      checksummed records in segment files, survives crashes, is scanned and
      replayed at start-up, repaired, reopened and reclaimed;
    - the Raft core (src/raft), which replicates a log of entries among the nodes
      of a group, changes its membership and answers read barriers, with the codec
      that carries its messages over byte streams, the persistent log in which the
      groups of a server share their states, and the durable runtime that lets no
      message out before the state behind it is on disk;
    - the catalog (src/schema and the metadata group of src/raft): schemas and their
      lineages, the metadata machine that applies committed commands, the codecs of its
      log entries, the snapshots to which the metadata group is compacted, the owner that
      applies, compacts and recovers the group, and the projection from which a service
      reopens its tables.

    All are built on the bounds-checked byte cursors and the CRC32C of src/common.
    Producers hand entries to the commit coordinator, whose worker appends them to
    the WAL writer and synchronises once for a window of them.  Proposals and
    messages reach the groups of a durable runtime in batches: a node returns a transition
    that names the state to persist and the messages to send; the runtime appends the
    states to the persistent log, synchronises it and releases the messages; the transport
    codec frames those messages; the frame reader of the peer decodes them and the peer's
    node receives them.  The owner of the metadata group reads the committed entries of
    its group from the durable runtime, decodes them, applies them to the metadata machine
    and marks them applied; it installs an application snapshot in a directory of its own
    before it asks the runtime to compact the group.

    ** Files and sources

    - [Prelude]: status codes and results (common/status.hpp, common/result.hpp),
      machine integers, the notations [let?], [check!] and [fail_if] for the early
      returns of the sources, the tactics every file uses.
    - [Bytes]: little-endian loads and stores, [ByteReader] and [ByteWriter]
      (common/byte_reader.cpp, common/byte_writer.cpp) and scripts of fields;
      [Reading] the parsers in which the decoders are proved exact.
    - [Crc32c]: common/crc32c.cpp, with a bit-serial reference.
    - [WalCodec]: wal/codec.cpp and wal/application.cpp: records, segment headers,
      application envelopes.  [WalPaths]: wal/wal_paths.cpp.
    - [PosixIo]: the interface of include/chronos/io/posix_io.hpp as a class
      [PosixIo] of operations with the laws [PosixLaws] they are documented to
      satisfy, and [Memory], an executable file system with a schedule of faults
      that satisfies them.  Both logs are written and proved against the class.
      [DiskFacts] holds the rules for programs over it (a weakest precondition for
      results and errors) and the facts about crashes.
    - [WalScan]: wal/wal_scan.cpp.  [WalHistory], [WalDiscovery], [WalSound] hold
      the abstract log (a history of records lying in segments), what the discovery
      of the segments returns, and what a completed scan has checked;
      [WalScanTheorems] the claims.
    - [WalWriter]: wal/wal_writer.cpp and wal/wal_segment.cpp; [WalWriterFacts] the
      relation between a writer and the disk, [WalWriterFailure] the failing runs,
      [WalWriterTheorems] the claims.
    - [WalRecovery]: wal/wal_recovery.cpp and wal/wal_reopen.cpp; [WalReclaim]: the
      reclamation and the replay-checkpoint resolution of wal/wal_writer.cpp; each
      with its file of theorems.
    - [WalCommit]: wal/wal_commit_coordinator.cpp, the group-commit coordinator, against
      the class [CommitWriter] of what it calls.  [WalCommitFacts] keeps its books,
      [WalCommitInvariant] and [WalCommitSteps] prove its invariant against the laws
      [CommitWriterLaws], [WalCommitWriter] shows that the log writer satisfies them,
      [WalCommitRuns] defines the runs, and [WalCommitTheorems] has the claims.
    - [RaftTypes]: raft/types.hpp, common/checked_math.hpp and
      raft/persistent_state_budget.hpp.  [RaftMembership]: raft/membership.cpp.
    - [RaftNode]: raft/node.cpp, every operation of [RaftNode::Impl].  [RaftFacts]
      and [RaftInvariant] prove the invariant call by call, [RaftTheorems] states
      what a node guarantees.
    - [RaftElection], [RaftCluster]: what one call does to votes, and a cluster of
      nodes with election safety.  [RaftLinks], [RaftLogMatching]: what one call
      does to the log, and log matching over the histories of a cluster.
    - [RaftTransport]: raft/transport_codec.cpp; [RaftTransportCodec] proves the
      codec exact, [RaftTransportStream] the stream reader and the write cursor.
    - [OrderedMap]: std::map as an ordered list.  [RaftLogCodec]:
      raft/multiplexed_log.cpp, proved exact in [RaftLogRecord].  [RaftLogFiles]: the
      file formats of raft/persistent_log.cpp, with [RaftLogFileFacts];
      [RaftPersistentLog]: its operations.  [RaftLogHistory], [RaftLogSegments],
      [RaftLogDirectory], [RaftLogOpen], [RaftLogLive], [RaftLogCheckpoint] and [RaftLogLives] relate a log to its directory through
      appends, crashes, reopenings and checkpoints; [RaftLogGuarantees] has the claims.
    - [MultiRaft]: raft/multi_raft.cpp.  [DurableRuntime]: raft/durable_runtime.cpp and
      raft/durable_batch_admission.hpp.  [RaftRestart], [MultiRaftFacts],
      [DurableRestore] and [DurableFacts] relate the groups to the log;
      [DurableGuarantees] has the claims.
    - [Schema]: src/schema (identities, logical types, UTF-8, columns, tables, lineages and
      projections), with [SchemaTheorems].
    - [Metadata]: raft/metadata.cpp; [MetadataFacts] its invariant; [CatalogRecovery]: the
      catalog projections of service/single_node_database.cpp and
      service/replicated_ingest_database.cpp; [MetadataTheorems] has the claims.
    - [MetadataCodec]: raft/metadata_codec.cpp and raft/tablet_group_binding_codec.cpp;
      [SchemaCodec]: raft/schema_definition_codec.cpp; proved exact in
      [MetadataCodecFacts] and [MetadataCodecTheorems].
    - [MetadataSnapshot]: raft/metadata_snapshot.cpp, proved exact in
      [MetadataSnapshotFacts].  [MetadataStorage]: raft/metadata_snapshot_storage.cpp, the
      directory of snapshots, against [PosixIo]; [MetadataStorageFacts] relates it to the
      disk, [MetadataStorageTheorems] has the claims.
    - [MetadataRuntime]: raft/metadata_runtime.cpp, the owner, over a durable runtime and a
      snapshot directory; the SHA-256 of OpenSSL is a parameter.  [MetadataRuntimeFacts]
      compares snapshots with logs, [MetadataRuntimeTheorems] has the claims.

    ** How code becomes definitions

    A function is a function, a class is a record of its members with one
    definition per method that returns the result and the new record, and an
    early return is an [Err] of the [result] type.  Unsigned integers are values of
    [Z] with [wrap] where the code may wrap.  A [Status] is its code: the diagnostic
    text is left out.  Code that calls the file system runs in a state monad over a
    world [W] with the operations of [PosixIo].  Loops that are not structural have
    fuel: the record loop of a scan takes the size of the file, and every record
    advances it ([scan_loop_terminates] shows that this is enough for every file); [union_fits_loop] the lengths of the two vectors, of which each
    round consumes one element; the search for a commit index takes the distance
    from the commit index to the last index, and the search for the start of a
    conflicting term the index it walks down from; the record loop of the persistent
    Raft log takes the size of the segment.  A thread is a step function: the worker
    of the commit coordinator has a program counter, every section that holds the
    mutex and every call of the writer is one step, and a run interleaves the steps
    of producers, worker and shutdown in any order.

    ** Models of the environment

    - Crash: a crash keeps the names of the files whose directory was synchronised
      and cuts each file to a prefix that covers its synchronised bytes; nothing is
      assumed of the rest.  Every operation may fail at any call unless a theorem
      says that the files do not fail.
    - Cluster: nodes join, make calls, receive any message that was ever sent (so
      messages may be lost, repeated and reordered) and restart from the state they
      returned for persistence.  Messages carry values of their types, which is what
      the decoder of [RaftTransport] establishes.

    ** What the theorems show

    - Durability: every entry whose append and synchronisation returned survives a
      crash and is replayed in order; a crashed log is repaired to a prefix that
      covers the synchronised records and can be appended to again; reclamation removes only segments covered
      by the checkpoint; scanning accepts only consecutive
      well-formed records, whatever the files hold, and terminates.
    - Group commit: in every interleaving the books of the coordinator balance and its
      limits hold, the log reads as the appended payloads in admission order (and at most
      one more, whose append failed), each acknowledgement names the record of its own
      request with the durability it asked for, a LOCAL_SYNC acknowledgement survives a
      crash as long as the writer has not failed, and a shutdown ends after a bounded number
      of turns of the worker with a result for every request.
    - Consensus: the invariant of a node in every reachable state, forward evolution
      of the persistent state, read barriers that complete only on the confirmation of a
      quorum of the configuration they began in, at most one leader per term under one
      configuration, and log matching.
    - Durable consensus: over any life of the persistent Raft log with creations,
      appends, checkpoints, crashes and reopenings, what is recovered is the latest
      state of every group in a prefix that covers the durable position; a checkpoint
      reclaims only what it covers.  A durable runtime comes back from a crash with every completed
      batch, its messages are released only when their states are durable, and a
      quorum receipt outlives the crash; the states of its groups always fit a segment, and
      a failure sticks.
    - Catalog: an entry applied to the metadata machine is refused whole or writes only
      the records it names, and never rewrites a definition, a binding or a history;
      placements, bindings and policies stay coherent; reopening returns exactly the
      finished tables with their lineages, or fails because one is not local or reuses a
      column name; a projection between schemas of a lineage is exact.
    - Metadata snapshots: installing one is all or nothing and a new file survives a crash;
      reclamation spares the authoritative file; replaying the entries that a compaction
      collects is applying the log it collected them from; a recovery has the state of the
      whole committed log and persists the applied index it reached; Raft is compacted only behind an installed snapshot.
    - Formats: transport frames, the records of the Raft log, metadata commands, schema
      definitions and metadata snapshots are encoded to one canonical byte string, and
      each decoder accepts exactly the canonical ones; the table-driven checksum is the
      CRC32C.
    - Transport: what is sent is delivered in order for every way the stream is cut.
    - Three findings.  A follower bounds the leader's commit index by the end of its own
      log ([append_commits_unverified_suffix]).  The metadata machine commits a schema that
      reuses the name of a renamed column, after which the catalog cannot be reopened
      ([reused_name_blocks_recovery]).  A snapshot that an interrupted process left behind
      is adopted without a synchronisation of its directory, so a crash can lose it after
      Raft was compacted to it ([adopted_snapshot_lost]).

    Theorems that are proved on the way and are not among the main claims (failed appends,
    the limits and failures of the persistent Raft log, the commit rule, the safety of
    decoded messages, UTF-8, the catalog lookup) stand in the files of their components.

    ** Not modelled

    Allocation failure, thread creation and moved-from handles; the system calls below
    [PosixIo] (io/posix_io.cpp) and the random log identities (an argument of
    creation); a crash inside a call that also failed, and faults while a log is
    reopened, in the claims that reopen one; timers and the asynchronous runtime of
    Raft, and the plans that move tablets between nodes; and the subsystems above the core:
    columnar batches, CSEG parts, mutable head, ingest, live queries, manifest and
    compaction, query engine, network, cluster, tiering, runtime, interop, tools, and all
    of service but the projection of the catalog.  The SHA-256 digest of OpenSSL is a
    parameter, of which nothing is assumed. *)
From stdpp Require Export base tactics numbers list gmap strings.
From Stdlib Require Export ZArith Lia.
From Stdlib.Strings Require Export Byte.
#[global] Open Scope Z_scope.

(** * Status codes and results *)

(** [common::StatusCode].  A [common::Status] is its code; the diagnostic text
    it also carries is not modelled. *)
Inductive StatusCode :=
| kOk | kCancelled | kInvalidArgument | kOutOfRange | kNotFound | kAlreadyExists
| kCorruption | kIoError | kResourceExhausted | kUnavailable | kNotSupported
| kUnauthenticated | kInternal.

#[global] Instance StatusCode_eq_dec : EqDecision StatusCode.
Proof. solve_decision. Defined.

(** [Status::is_ok]. *)
Definition is_ok (s : StatusCode) : bool := bool_decide (s = kOk).

(** [common::Result<T>], that is [std::expected<T, Status>]. *)
Inductive result (A : Type) := Ok (a : A) | Err (s : StatusCode).
Arguments Ok {A} a.
Arguments Err {A} s.

#[global] Instance result_eq_dec `{EqDecision A} : EqDecision (result A).
Proof. solve_decision. Defined.

(** [make_unexpected]: an error result never carries the success status. *)
Definition make_unexpected {A} (s : StatusCode) : result A :=
  Err (if is_ok s then kInternal else s).

(** The status a result would report: the error, or success. *)
Definition status_of {A} (r : result A) : StatusCode :=
  match r with Ok _ => kOk | Err s => s end.

Definition rbind {A B} (r : result A) (k : A -> result B) : result B :=
  match r with Ok a => k a | Err s => make_unexpected s end.

(** [check s k]: the idiom [if (!s.is_ok()) return make_unexpected(s); k]. *)
Definition check {B} (s : StatusCode) (k : result B) : result B :=
  if is_ok s then k else make_unexpected s.

Declare Scope chronos_scope.
Delimit Scope chronos_scope with chronos.
Notation "'let?' x ':=' c 'in' k" := (rbind c (fun x => k))
  (at level 10, x pattern, c at level 100, k at level 200) : chronos_scope.
Notation "'check!' s ';' k" := (check s k)
  (at level 10, s at level 100, k at level 200) : chronos_scope.
Notation "'fail_if' b 'with' s ';' k" := (if b then Err s else k)
  (at level 10, b at level 100, s at level 100, k at level 200) : chronos_scope.
#[global] Open Scope chronos_scope.

Lemma rbind_Ok {A B} (r : result A) (k : A -> result B) b :
  rbind r k = Ok b <-> exists a, r = Ok a /\ k a = Ok b.
Proof.
  destruct r as [a|s]; simpl.
  { split; [eauto|]. by intros (? & [= <-] & ?). }
  split; [discriminate|]. intros (? & ? & _); discriminate.
Qed.

Lemma check_kOk {B} (k : result B) : check kOk k = k.
Proof. reflexivity. Qed.

Lemma make_unexpected_not_ok {A} s : exists s', @make_unexpected A s = Err s' /\ s' <> kOk.
Proof.
  unfold make_unexpected, is_ok. case_bool_decide; eexists; split; eauto; discriminate.
Qed.

(** * Machine integers

    Unsigned integers are values of [Z] in range, with the wrap-around of the
    unsigned types written out where the code computes with them. *)
Definition wrap (w x : Z) : Z := x mod 2 ^ w.
Abbreviation u8 := (wrap 8).
Abbreviation u16 := (wrap 16).
Abbreviation u32 := (wrap 32).
Abbreviation u64 := (wrap 64).
Abbreviation max_u16 := 65535.
Abbreviation max_u32 := 4294967295.
Abbreviation max_u64 := 18446744073709551615.
Definition in_width (w x : Z) : Prop := 0 <= x < 2 ^ w.
#[global] Instance in_width_dec w x : Decision (in_width w x).
Proof. unfold in_width. apply _. Defined.

Lemma wrap_in_width w x : 0 <= w -> in_width w (wrap w x).
Proof. intros. apply Z.mod_pos_bound. lia. Qed.
Lemma wrap_small w x : in_width w x -> wrap w x = x.
Proof. apply Z.mod_small. Qed.
Lemma wrap_idem w x : wrap w (wrap w x) = wrap w x.
Proof. unfold wrap. apply Zmod_mod. Qed.

Lemma pow2_8 : 2 ^ 8 = 256. Proof. reflexivity. Qed.
Lemma pow2_16 : 2 ^ 16 = 65536. Proof. reflexivity. Qed.
Lemma pow2_32 : 2 ^ 32 = 4294967296. Proof. reflexivity. Qed.
Lemma pow2_64 : 2 ^ 64 = 18446744073709551616. Proof. reflexivity. Qed.

(** [width_lia] is [lia] on goals about [in_width] and [wrap] at the widths of
    the program. *)
Ltac width_unfold :=
  unfold in_width, wrap in *;
  change (2 ^ 8) with 256 in *; change (2 ^ 16) with 65536 in *;
  change (2 ^ 32) with 4294967296 in *;
  change (2 ^ 64) with 18446744073709551616 in *.
Ltac width_lia := width_unfold; Z.to_euclidean_division_equations; lia.

(** * Proof automation *)
Create HintDb chronos.
#[export] Hint Resolve wrap_in_width : chronos.

(** Split the guards of a computation that is known to have returned. *)
Ltac run_guards H :=
  repeat match type of H with
  | (if ?b then _ else _) = _ => let E := fresh "E" in destruct b eqn:E; try discriminate H
  | check ?s _ = _ => unfold check in H
  | rbind _ _ = Ok _ => apply rbind_Ok in H; destruct H as (? & ? & H)
  | context [match ?x with _ => _ end] =>
      let E := fresh "E" in destruct x eqn:E; try discriminate H
  end.

(** Turn boolean comparisons in the context into propositions. *)
Ltac bool_prop :=
  repeat match goal with
  | H : _ && _ = true |- _ => apply andb_true_iff in H; destruct H
  | H : _ || _ = false |- _ => apply orb_false_iff in H; destruct H
  | H : negb _ = true |- _ => apply negb_true_iff in H
  | H : negb _ = false |- _ => apply negb_false_iff in H
  | H : (_ =? _) = true |- _ => apply Z.eqb_eq in H
  | H : (_ =? _) = false |- _ => apply Z.eqb_neq in H
  | H : (_ <? _) = true |- _ => apply Z.ltb_lt in H
  | H : (_ <? _) = false |- _ => apply Z.ltb_ge in H
  | H : (_ <=? _) = true |- _ => apply Z.leb_le in H
  | H : (_ <=? _) = false |- _ => apply Z.leb_gt in H
  | H : bool_decide _ = true |- _ => apply bool_decide_eq_true in H
  | H : bool_decide _ = false |- _ => apply bool_decide_eq_false in H
  end.
