(* ===== verification/Bytes.v ===== *)
(** Byte buffers: the little-endian loads and stores every format of the
    program is built from, and the bounds-checked cursors [ByteReader]
    (src/common/byte_reader.cpp) and [ByteWriter] (src/common/byte_writer.cpp).
    A span of [std::byte] is a [list byte]; offsets and sizes are [Z]. *)
From S2P Require Import Prelude.

(** * Bytes and integers *)

(** [std::to_integer] of a byte. *)
Definition byte_to_Z (b : byte) : Z := Z.of_N (Byte.to_N b).

(** [static_cast<std::byte>(v & 0xffU)]. *)
Definition byte_of_Z (v : Z) : byte :=
  match Byte.of_N (Z.to_N (Z.land v 255)) with Some b => b | None => x00 end.

#[global] Instance byte_eq_dec : EqDecision byte := Byte.byte_eq_dec.

(** The size of a span. *)
Abbreviation blen bs := (Z.of_nat (length bs)).

(** [bytes.subspan(offset, count)] and [bytes.first(count)]. *)
Definition subspan {A} (bs : list A) (offset count : Z) : list A :=
  take (Z.to_nat count) (drop (Z.to_nat offset) bs).
Definition first {A} (bs : list A) (count : Z) : list A := take (Z.to_nat count) bs.

(** [bytes[index]]; the source never indexes out of range. *)
Definition byte_at (bs : list byte) (index : Z) : byte :=
  default x00 (bs !! Z.to_nat index).

(** ** Loads and stores, as the loops of the sources *)

Fixpoint load_loop (bs : list byte) (offset index : Z) (width : nat) (value : Z) : Z :=
  match width with
  | O => value
  | S width =>
      load_loop bs offset (index + 1) width
        (Z.lor value (Z.shiftl (byte_to_Z (byte_at bs (offset + index))) (index * 8)))
  end.
Definition load_le (width : nat) (bs : list byte) (offset : Z) : Z :=
  load_loop bs offset 0 width 0.
Abbreviation load_u16_le := (load_le 2).
Abbreviation load_u32_le := (load_le 4).
Abbreviation load_u64_le := (load_le 8).

Fixpoint store_loop (bs : list byte) (offset index : Z) (width : nat) (value : Z) : list byte :=
  match width with
  | O => bs
  | S width =>
      store_loop (<[Z.to_nat (offset + index) := byte_of_Z (Z.shiftr value (index * 8))]> bs)
        offset (index + 1) width value
  end.
Definition store_le (width : nat) (bs : list byte) (offset value : Z) : list byte :=
  store_loop bs offset 0 width value.
Abbreviation store_u16_le := (store_le 2).
Abbreviation store_u32_le := (store_le 4).
Abbreviation store_u64_le := (store_le 8).

(** [std::copy] / [memmove] of [src] into [bs] at [offset]. *)
Definition copy_at (bs : list byte) (offset : Z) (src : list byte) : list byte :=
  take (Z.to_nat offset) bs ++ src ++ drop (Z.to_nat offset + length src) bs.

#[global] Arguments load_le : simpl never.
#[global] Arguments store_le : simpl never.
#[global] Arguments copy_at : simpl never.

(** ** Reference codec: [le_bytes] and [le_val] *)

Fixpoint le_bytes (width : nat) (v : Z) : list byte :=
  match width with
  | O => []
  | S width => byte_of_Z v :: le_bytes width (v / 256)
  end.
Fixpoint le_val (bs : list byte) : Z :=
  match bs with [] => 0 | b :: bs => byte_to_Z b + 256 * le_val bs end.

Lemma byte_to_Z_range b : 0 <= byte_to_Z b < 256.
Proof. unfold byte_to_Z. pose proof (Byte.to_N_bounded b). lia. Qed.

Lemma land_255 v : Z.land v 255 = v mod 256.
Proof. change 255 with (Z.ones 8). rewrite Z.land_ones by lia. reflexivity. Qed.

Lemma byte_of_to_Z b : byte_of_Z (byte_to_Z b) = b.
Proof.
  unfold byte_of_Z. rewrite land_255, Z.mod_small by apply byte_to_Z_range.
  unfold byte_to_Z. rewrite N2Z.id, Byte.of_to_N. reflexivity.
Qed.

Lemma byte_to_of_Z v : byte_to_Z (byte_of_Z v) = v mod 256.
Proof.
  unfold byte_of_Z. rewrite land_255.
  pose proof (Z.mod_pos_bound v 256 ltac:(lia)) as Hb.
  destruct (Byte.of_N (Z.to_N (v mod 256))) as [b|] eqn:E.
  - apply Byte.to_of_N in E. unfold byte_to_Z. rewrite E. lia.
  - apply Byte.of_N_None_iff in E. lia.
Qed.

Lemma byte_to_Z_inj a b : byte_to_Z a = byte_to_Z b -> a = b.
Proof. intros E. rewrite <- (byte_of_to_Z a), <- (byte_of_to_Z b). by rewrite E. Qed.

Lemma length_le_bytes w v : length (le_bytes w v) = w.
Proof. revert v. induction w; intros; simpl; auto. Qed.

Lemma le_val_bound bs : 0 <= le_val bs < 256 ^ blen bs.
Proof.
  induction bs as [|b bs IH]; [simpl; lia|].
  cbn [le_val length]. pose proof (byte_to_Z_range b).
  rewrite Nat2Z.inj_succ, Z.pow_succ_r by lia. lia.
Qed.

Lemma le_val_le_bytes w v : le_val (le_bytes w v) = v mod 256 ^ Z.of_nat w.
Proof.
  revert v. induction w as [|w IH]; intros v.
  - simpl. rewrite Z.mod_1_r. reflexivity.
  - cbn [le_bytes le_val]. rewrite IH, byte_to_of_Z, Nat2Z.inj_succ, Z.pow_succ_r by lia.
    rewrite Z.rem_mul_r by lia. reflexivity.
Qed.

Lemma le_bytes_le_val bs : le_bytes (length bs) (le_val bs) = bs.
Proof.
  induction bs as [|b bs IH]; [reflexivity|].
  cbn [le_bytes le_val length]. pose proof (byte_to_Z_range b). f_equal.
  - apply byte_to_Z_inj. rewrite byte_to_of_Z.
    rewrite (Z.mul_comm 256), Z_mod_plus_full, Z.mod_small by lia. reflexivity.
  - replace ((byte_to_Z b + 256 * le_val bs) / 256) with (le_val bs); [done|].
    rewrite (Z.mul_comm 256), Z.div_add, Z.div_small by lia. lia.
Qed.

Lemma le_bytes_wrap w n v :
  (w <= n)%nat -> le_bytes w (v mod 256 ^ Z.of_nat n) = le_bytes w v.
Proof.
  revert n v. induction w as [|w IH]; intros n v Hn; [done|].
  destruct n as [|n]; [lia|]. cbn [le_bytes].
  rewrite Nat2Z.inj_succ, Z.pow_succ_r, Z.rem_mul_r by lia. f_equal.
  - apply byte_to_Z_inj. rewrite !byte_to_of_Z.
    rewrite (Z.mul_comm 256), Z_mod_plus_full, Z.mod_mod by lia. reflexivity.
  - rewrite (Z.mul_comm 256), Z.div_add, (Z.div_small (v mod 256)) by
      (try apply Z.mod_pos_bound; lia).
    simpl. apply IH. lia.
Qed.

Lemma le_val_inj a b : length a = length b -> le_val a = le_val b -> a = b.
Proof.
  intros Hl Hv. rewrite <- (le_bytes_le_val a), <- (le_bytes_le_val b), Hl, Hv. done.
Qed.

(** ** The loops agree with the reference codec *)

Lemma length_subspan {A} (bs : list A) off n :
  0 <= off -> 0 <= n -> off + n <= blen bs -> length (subspan bs off n) = Z.to_nat n.
Proof. intros. unfold subspan. rewrite length_take, length_drop. lia. Qed.

Lemma lor_shiftl_disjoint acc b i :
  0 <= i -> 0 <= acc < 256 ^ i -> Z.lor acc (Z.shiftl b (i * 8)) = acc + 256 ^ i * b.
Proof.
  intros Hi Hacc. rewrite Z.shiftl_mul_pow2 by lia.
  replace (256 ^ i) with (2 ^ (i * 8)) in *
    by (rewrite Z.mul_comm, Z.pow_mul_r by lia; done).
  pose proof (Z.add_lor_land acc (b * 2 ^ (i * 8))) as Hsum.
  enough (Z.land acc (b * 2 ^ (i * 8)) = 0) by lia. clear Hsum.
  apply Z.bits_inj'. intros n Hn. rewrite Z.land_spec, Z.bits_0.
  destruct (Z.lt_ge_cases n (i * 8)).
  - rewrite Z.mul_pow2_bits_low by lia. apply andb_false_r.
  - replace (Z.testbit acc n) with false; [done|].
    symmetry. destruct (decide (acc = 0)) as [->|]; [apply Z.bits_0|].
    apply Z.bits_above_log2; [lia|].
    apply Z.lt_le_trans with (i * 8); [apply Z.log2_lt_pow2; lia|lia].
Qed.

Lemma drop_byte_at bs k :
  0 <= k < blen bs ->
  drop (Z.to_nat k) bs = byte_at bs k :: drop (Z.to_nat (k + 1)) bs.
Proof.
  intros Hk. replace (Z.to_nat (k + 1)) with (S (Z.to_nat k)) by lia.
  unfold byte_at. destruct (lookup_lt_is_Some_2 bs (Z.to_nat k)) as [b Hb]; [lia|].
  rewrite Hb. simpl. by apply drop_S.
Qed.

Lemma load_loop_spec bs off w : forall i acc,
  0 <= off -> 0 <= i -> 0 <= acc < 256 ^ i -> off + i + Z.of_nat w <= blen bs ->
  load_loop bs off i w acc = acc + 256 ^ i * le_val (subspan bs (off + i) (Z.of_nat w)).
Proof.
  induction w as [|w IH]; intros i acc Hoff Hi Hacc Hlen.
  - cbn. unfold subspan. simpl. lia.
  - cbn [load_loop]. rewrite lor_shiftl_disjoint by lia.
    pose proof (byte_to_Z_range (byte_at bs (off + i))) as Hbr.
    rewrite IH; [| lia | lia | | lia].
    + unfold subspan. rewrite (drop_byte_at bs (off + i)) by lia.
      rewrite !Nat2Z.id, (Z.add_assoc off i 1). cbn [take le_val].
      rewrite (Z.pow_add_r 256 i 1) by lia. lia.
    + rewrite Z.pow_add_r by lia. nia.
Qed.

Lemma load_le_spec w bs off :
  0 <= off -> off + Z.of_nat w <= blen bs ->
  load_le w bs off = le_val (subspan bs off (Z.of_nat w)).
Proof.
  intros. unfold load_le. rewrite load_loop_spec by (simpl; lia).
  rewrite Z.add_0_r. simpl. lia.
Qed.

Lemma load_le_bound w bs off :
  0 <= off -> off + Z.of_nat w <= blen bs -> 0 <= load_le w bs off < 256 ^ Z.of_nat w.
Proof.
  intros. rewrite load_le_spec by lia.
  pose proof (le_val_bound (subspan bs off (Z.of_nat w))) as Hb.
  rewrite length_subspan, Nat2Z.id in Hb by lia. done.
Qed.

Lemma length_copy_at bs off src :
  0 <= off -> off + blen src <= blen bs -> length (copy_at bs off src) = length bs.
Proof. intros. unfold copy_at. rewrite !length_app, length_take, length_drop. lia. Qed.

Lemma copy_at_insert bs k b src :
  0 <= k < blen bs ->
  copy_at (<[Z.to_nat k := b]> bs) (k + 1) src = copy_at bs k (b :: src).
Proof.
  intros Hk. unfold copy_at.
  replace (Z.to_nat (k + 1)) with (S (Z.to_nat k)) by lia.
  erewrite take_S_r by (apply list_lookup_insert_eq; lia).
  rewrite take_insert_ge, drop_insert_lt by lia.
  rewrite <- app_assoc. cbn [app length].
  by replace (Z.to_nat k + S (length src))%nat with (S (Z.to_nat k) + length src)%nat by lia.
Qed.

Lemma byte_of_Z_shiftr v i :
  0 <= i -> byte_of_Z (Z.shiftr v (i * 8)) = byte_of_Z (v / 256 ^ i).
Proof.
  intros. rewrite Z.shiftr_div_pow2 by lia.
  rewrite Z.mul_comm, Z.pow_mul_r by lia. done.
Qed.

Lemma store_loop_spec w : forall bs off i v,
  0 <= off -> 0 <= i -> off + i + Z.of_nat w <= blen bs ->
  store_loop bs off i w v = copy_at bs (off + i) (le_bytes w (v / 256 ^ i)).
Proof.
  induction w as [|w IH]; intros bs off i v Hoff Hi Hlen; cbn [store_loop le_bytes].
  - unfold copy_at. cbn [app length]. rewrite Nat.add_0_r. by rewrite take_drop.
  - rewrite IH by (rewrite ?length_insert; lia).
    rewrite Z.add_assoc, copy_at_insert by lia.
    rewrite byte_of_Z_shiftr by lia.
    rewrite Z.pow_add_r, <- Z.div_div by lia. done.
Qed.

Lemma store_le_spec w bs off v :
  0 <= off -> off + Z.of_nat w <= blen bs ->
  store_le w bs off v = copy_at bs off (le_bytes w v).
Proof.
  intros. unfold store_le. rewrite store_loop_spec by lia.
  rewrite Z.add_0_r, Z.pow_0_r, Z.div_1_r. done.
Qed.

Lemma length_store_le w bs off v :
  0 <= off -> off + Z.of_nat w <= blen bs -> length (store_le w bs off v) = length bs.
Proof.
  intros. rewrite store_le_spec by lia.
  apply length_copy_at; rewrite ?length_le_bytes; lia.
Qed.

Lemma subspan_copy_at bs off src :
  0 <= off -> off + blen src <= blen bs -> subspan (copy_at bs off src) off (blen src) = src.
Proof.
  intros. unfold subspan, copy_at. rewrite Nat2Z.id.
  rewrite drop_app_le, drop_ge by (rewrite length_take; lia). simpl.
  by rewrite take_app_length.
Qed.

Lemma load_store_le w bs off v :
  0 <= off -> off + Z.of_nat w <= blen bs ->
  load_le w (store_le w bs off v) off = v mod 256 ^ Z.of_nat w.
Proof.
  intros. rewrite load_le_spec by (rewrite ?length_store_le; lia).
  rewrite store_le_spec by lia.
  rewrite <- (length_le_bytes w v) at 2.
  rewrite subspan_copy_at, le_val_le_bytes by (rewrite ?length_le_bytes; lia). done.
Qed.

(** ** Fields at fixed offsets *)

(** * Byte-level pieces *)

Lemma le_bytes_2 v : le_bytes 2 v = [byte_of_Z (Z.shiftr v (0 * 8)); byte_of_Z (Z.shiftr v (1 * 8))].
Proof. rewrite !byte_of_Z_shiftr by lia. cbn. by rewrite Z.div_1_r. Qed.

Lemma le_bytes_4 v :
  le_bytes 4 v = [byte_of_Z (Z.shiftr v (0 * 8)); byte_of_Z (Z.shiftr v (1 * 8));
                  byte_of_Z (Z.shiftr v (2 * 8)); byte_of_Z (Z.shiftr v (3 * 8))].
Proof.
  rewrite !byte_of_Z_shiftr by lia. cbn [le_bytes]. rewrite !Z.div_div by lia.
  change (256 ^ 0) with 1. by rewrite Z.div_1_r.
Qed.

Lemma le_bytes_8 v :
  le_bytes 8 v = [byte_of_Z (Z.shiftr v (0 * 8)); byte_of_Z (Z.shiftr v (1 * 8));
                  byte_of_Z (Z.shiftr v (2 * 8)); byte_of_Z (Z.shiftr v (3 * 8));
                  byte_of_Z (Z.shiftr v (4 * 8)); byte_of_Z (Z.shiftr v (5 * 8));
                  byte_of_Z (Z.shiftr v (6 * 8)); byte_of_Z (Z.shiftr v (7 * 8))].
Proof.
  rewrite !byte_of_Z_shiftr by lia. cbn [le_bytes]. rewrite !Z.div_div by lia.
  change (256 ^ 0) with 1. by rewrite Z.div_1_r.
Qed.

(** [sized w fields]: the concatenation of byte fields is cut back into the
    field at a given offset by computation. *)
Lemma load_field w bs off v :
  0 <= off -> off + Z.of_nat w <= blen bs -> in_width (8 * Z.of_nat w) v ->
  subspan bs off (Z.of_nat w) = le_bytes w v -> load_le w bs off = v.
Proof.
  intros Ho Hl Hv E. rewrite load_le_spec, E, le_val_le_bytes by done.
  apply Z.mod_small. unfold in_width in Hv. rewrite Z.pow_mul_r in Hv by lia. done.
Qed.

Lemma field_of_load w bs off :
  0 <= off -> off + Z.of_nat w <= blen bs ->
  subspan bs off (Z.of_nat w) = le_bytes w (load_le w bs off).
Proof.
  intros. rewrite load_le_spec by done.
  rewrite <- (le_bytes_le_val (subspan bs off (Z.of_nat w))) at 1.
  rewrite length_subspan by lia. by rewrite Nat2Z.id.
Qed.

Lemma load_in_width w bs off :
  0 <= off -> off + Z.of_nat w <= blen bs -> in_width (8 * Z.of_nat w) (load_le w bs off).
Proof.
  intros. pose proof (load_le_bound w bs off ltac:(done) ltac:(done)).
  unfold in_width. rewrite Z.pow_mul_r by lia. done.
Qed.

Lemma subspan_split {A} (bs : list A) off n m :
  0 <= off -> 0 <= n -> 0 <= m ->
  subspan bs off (n + m) = subspan bs off n ++ subspan bs (off + n) m.
Proof.
  intros. unfold subspan. rewrite !Z2Nat.inj_add by lia.
  by rewrite <- drop_drop, take_take_drop.
Qed.

Lemma subspan_all {A} (bs : list A) n : n = blen bs -> subspan bs 0 n = bs.
Proof. intros ->. unfold subspan. rewrite Nat2Z.id. simpl. apply firstn_all. Qed.

Lemma first_app {A} (a b : list A) n : n = blen a -> first (a ++ b) n = a.
Proof. intros ->. unfold first. by rewrite Nat2Z.id, take_app_length. Qed.

Lemma subspan_app_l {A} (a b c : list A) off n :
  off = blen a -> n = blen b -> subspan (a ++ b ++ c) off n = b.
Proof.
  intros -> ->. unfold subspan. by rewrite !Nat2Z.id, drop_app_length, take_app_length.
Qed.

Lemma copy_at_middle a b c b' off :
  off = blen a -> length b = length b' -> copy_at (a ++ b ++ c) off b' = a ++ b' ++ c.
Proof.
  intros -> E. unfold copy_at. rewrite Nat2Z.id, take_app_length. do 2 f_equal.
  by rewrite drop_app_add, <- E, drop_app_length.
Qed.

Lemma copy_at_front b c b' : length b = length b' -> copy_at (b ++ c) 0 b' = b' ++ c.
Proof. intros. by apply (copy_at_middle [] b). Qed.

Lemma store_middle w a b c off v :
  off = blen a -> length b = w -> store_le w (a ++ b ++ c) off v = a ++ le_bytes w v ++ c.
Proof.
  intros -> Hb. rewrite store_le_spec by (rewrite ?length_app; lia).
  apply copy_at_middle; [done|]. by rewrite length_le_bytes.
Qed.

Lemma store_front w b c v : length b = w -> store_le w (b ++ c) 0 v = le_bytes w v ++ c.
Proof. intros. by apply (store_middle w [] b). Qed.

(** The destination of an encoder, cut where the encoder writes. *)
Lemma cut3 {A} (l : list A) n1 n2 n3 :
  (n1 + n2 + n3 <= length l)%nat ->
  exists a b c, l = a ++ b ++ c ++ drop (n1 + n2 + n3) l /\
    length a = n1 /\ length b = n2 /\ length c = n3.
Proof.
  intros Hl. exists (take n1 l), (take n2 (drop n1 l)), (take n3 (drop (n1 + n2) l)).
  rewrite !length_take, !length_drop. split_and!; [|lia..].
  rewrite <- (drop_drop l n3 (n1 + n2)), take_drop, <- (drop_drop l n2 n1), !take_drop. done.
Qed.

Lemma replicate_zero_check n :
  existsb (fun b => bool_decide (b <> x00)) (replicate n x00) = false.
Proof. by induction n. Qed.

Lemma zero_check_replicate bs :
  existsb (fun b => bool_decide (b <> x00)) bs = false -> bs = replicate (length bs) x00.
Proof.
  induction bs as [|b bs IH]; intros H; [done|]. cbn in H.
  apply orb_false_iff in H as [H1 H2]. apply bool_decide_eq_false in H1.
  cbn. f_equal; [|auto]. destruct (decide (b = x00)); [done|]. by destruct H1.
Qed.

(** * ByteReader *)
Record ByteReader := { reader_bytes : list byte; reader_offset : Z }.

Definition ByteReader_new (bs : list byte) : ByteReader :=
  {| reader_bytes := bs; reader_offset := 0 |}.
Definition reader_remaining (r : ByteReader) : Z := blen (reader_bytes r) - reader_offset r.
Definition reader_empty (r : ByteReader) : bool := reader_remaining r =? 0.
Definition reader_advance (r : ByteReader) (n : Z) : ByteReader :=
  {| reader_bytes := reader_bytes r; reader_offset := reader_offset r + n |}.

Definition read_unsigned_le (width : nat) (r : ByteReader) : result Z * ByteReader :=
  if Z.of_nat width >? reader_remaining r then (Err kOutOfRange, r)
  else (Ok (load_le width (reader_bytes r) (reader_offset r)),
        reader_advance r (Z.of_nat width)).

Definition read_u8 (r : ByteReader) : result Z * ByteReader := read_unsigned_le 1 r.
Definition read_u16_le (r : ByteReader) : result Z * ByteReader := read_unsigned_le 2 r.
Definition read_u32_le (r : ByteReader) : result Z * ByteReader := read_unsigned_le 4 r.
Definition read_u64_le (r : ByteReader) : result Z * ByteReader := read_unsigned_le 8 r.

(** [std::bit_cast] between the unsigned and the signed integer of [w] bits
    (two's complement). *)
Definition signed_of (w v : Z) : Z := if v <? 2 ^ (w - 1) then v else v - 2 ^ w.
Definition unsigned_of (w v : Z) : Z := v mod 2 ^ w.

Definition map_result {A B} (f : A -> B) (p : result A * ByteReader) : result B * ByteReader :=
  match p with
  | (Ok a, r) => (Ok (f a), r)
  | (Err s, r) => (make_unexpected s, r)
  end.
Definition read_i8 (r : ByteReader) : result Z * ByteReader :=
  map_result (signed_of 8) (read_u8 r).
Definition read_i16_le (r : ByteReader) : result Z * ByteReader :=
  map_result (signed_of 16) (read_u16_le r).
Definition read_i32_le (r : ByteReader) : result Z * ByteReader :=
  map_result (signed_of 32) (read_u32_le r).
Definition read_i64_le (r : ByteReader) : result Z * ByteReader :=
  map_result (signed_of 64) (read_u64_le r).

Definition peek_exact (n : Z) (r : ByteReader) : result (list byte) :=
  if n >? reader_remaining r then Err kOutOfRange
  else Ok (subspan (reader_bytes r) (reader_offset r) n).
Definition read_exact (n : Z) (r : ByteReader) : result (list byte) * ByteReader :=
  match peek_exact n r with
  | Ok bs => (Ok bs, reader_advance r n)
  | Err s => (make_unexpected s, r)
  end.
Definition reader_skip (n : Z) (r : ByteReader) : StatusCode * ByteReader :=
  if n >? reader_remaining r then (kOutOfRange, r) else (kOk, reader_advance r n).
Definition read_subreader (n : Z) (r : ByteReader) : result ByteReader * ByteReader :=
  map_result ByteReader_new (read_exact n r).

(** * ByteWriter *)
Record ByteWriter := { writer_bytes : list byte; writer_offset : Z }.

Definition ByteWriter_new (bs : list byte) : ByteWriter :=
  {| writer_bytes := bs; writer_offset := 0 |}.
Definition writer_remaining (w : ByteWriter) : Z := blen (writer_bytes w) - writer_offset w.
Definition writer_full (w : ByteWriter) : bool := writer_remaining w =? 0.

Definition write_unsigned_le (width : nat) (value : Z) (w : ByteWriter) : StatusCode * ByteWriter :=
  if Z.of_nat width >? writer_remaining w then (kOutOfRange, w)
  else (kOk, {| writer_bytes := store_le width (writer_bytes w) (writer_offset w) value;
                writer_offset := writer_offset w + Z.of_nat width |}).
Definition write_u8 (v : Z) (w : ByteWriter) : StatusCode * ByteWriter := write_unsigned_le 1 v w.
Definition write_u16_le (v : Z) (w : ByteWriter) : StatusCode * ByteWriter := write_unsigned_le 2 v w.
Definition write_u32_le (v : Z) (w : ByteWriter) : StatusCode * ByteWriter := write_unsigned_le 4 v w.
Definition write_u64_le (v : Z) (w : ByteWriter) : StatusCode * ByteWriter := write_unsigned_le 8 v w.
Definition write_i8 (v : Z) (w : ByteWriter) : StatusCode * ByteWriter :=
  write_u8 (unsigned_of 8 v) w.
Definition write_i16_le (v : Z) (w : ByteWriter) : StatusCode * ByteWriter :=
  write_u16_le (unsigned_of 16 v) w.
Definition write_i32_le (v : Z) (w : ByteWriter) : StatusCode * ByteWriter :=
  write_u32_le (unsigned_of 32 v) w.
Definition write_i64_le (v : Z) (w : ByteWriter) : StatusCode * ByteWriter :=
  write_u64_le (unsigned_of 64 v) w.
Definition write_exact (src : list byte) (w : ByteWriter) : StatusCode * ByteWriter :=
  if blen src >? writer_remaining w then (kOutOfRange, w)
  else (kOk, {| writer_bytes := copy_at (writer_bytes w) (writer_offset w) src;
                writer_offset := writer_offset w + blen src |}).
Definition zero_fill (n : Z) (w : ByteWriter) : StatusCode * ByteWriter :=
  if n >? writer_remaining w then (kOutOfRange, w)
  else (kOk, {| writer_bytes := copy_at (writer_bytes w) (writer_offset w)
                                  (replicate (Z.to_nat n) x00);
                writer_offset := writer_offset w + n |}).

(** A [float] or [double] is modelled by its bit pattern: the reads and writes
    are bit casts of the integer ones. *)
Definition read_float32_le (r : ByteReader) : result Z * ByteReader :=
  map_result id (read_u32_le r).
Definition read_float64_le (r : ByteReader) : result Z * ByteReader :=
  map_result id (read_u64_le r).
Definition write_float32_le (bits : Z) (w : ByteWriter) : StatusCode * ByteWriter :=
  write_u32_le bits w.
Definition write_float64_le (bits : Z) (w : ByteWriter) : StatusCode * ByteWriter :=
  write_u64_le bits w.

(** * Field scripts

    A format of the program is written by a sequence of writer calls and read
    back by the same sequence of reader calls.  [Field] names one call with its
    value, so that a format is a list of fields. *)
Inductive Field :=
| FU8 (v : Z) | FU16 (v : Z) | FU32 (v : Z) | FU64 (v : Z)
| FI8 (v : Z) | FI16 (v : Z) | FI32 (v : Z) | FI64 (v : Z)
| FF32 (bits : Z) | FF64 (bits : Z) | FBytes (bs : list byte).

Definition signed_range (w v : Z) : Prop := - 2 ^ (w - 1) <= v < 2 ^ (w - 1).

Definition field_ok (f : Field) : Prop :=
  match f with
  | FU8 v => in_width 8 v | FU16 v => in_width 16 v
  | FU32 v | FF32 v => in_width 32 v | FU64 v | FF64 v => in_width 64 v
  | FI8 v => signed_range 8 v | FI16 v => signed_range 16 v
  | FI32 v => signed_range 32 v | FI64 v => signed_range 64 v
  | FBytes _ => True
  end.

Definition field_size (f : Field) : Z :=
  match f with
  | FU8 _ | FI8 _ => 1 | FU16 _ | FI16 _ => 2
  | FU32 _ | FI32 _ | FF32 _ => 4 | FU64 _ | FI64 _ | FF64 _ => 8
  | FBytes bs => blen bs
  end.

Definition write_field (f : Field) : ByteWriter -> StatusCode * ByteWriter :=
  match f with
  | FU8 v => write_u8 v | FU16 v => write_u16_le v
  | FU32 v => write_u32_le v | FU64 v => write_u64_le v
  | FI8 v => write_i8 v | FI16 v => write_i16_le v
  | FI32 v => write_i32_le v | FI64 v => write_i64_le v
  | FF32 v => write_float32_le v | FF64 v => write_float64_le v
  | FBytes bs => write_exact bs
  end.

(** Reading back the kind of field [f] is. *)
Definition read_field (f : Field) (r : ByteReader) : result Field * ByteReader :=
  match f with
  | FU8 _ => map_result FU8 (read_u8 r) | FU16 _ => map_result FU16 (read_u16_le r)
  | FU32 _ => map_result FU32 (read_u32_le r) | FU64 _ => map_result FU64 (read_u64_le r)
  | FI8 _ => map_result FI8 (read_i8 r) | FI16 _ => map_result FI16 (read_i16_le r)
  | FI32 _ => map_result FI32 (read_i32_le r) | FI64 _ => map_result FI64 (read_i64_le r)
  | FF32 _ => map_result FF32 (read_float32_le r) | FF64 _ => map_result FF64 (read_float64_le r)
  | FBytes bs => map_result FBytes (read_exact (blen bs) r)
  end.

(** Stop at the first failing call, as the callers do. *)
Fixpoint write_fields (fs : list Field) (w : ByteWriter) : StatusCode * ByteWriter :=
  match fs with
  | [] => (kOk, w)
  | f :: fs => match write_field f w with
               | (kOk, w') => write_fields fs w'
               | (s, w') => (s, w')
               end
  end.
Fixpoint read_fields (fs : list Field) (r : ByteReader) : result (list Field) * ByteReader :=
  match fs with
  | [] => (Ok [], r)
  | f :: fs => match read_field f r with
               | (Ok v, r') => map_result (cons v) (read_fields fs r')
               | (Err s, r') => (make_unexpected s, r')
               end
  end.

(** The bytes of a field. *)
Definition field_bytes (f : Field) : list byte :=
  match f with
  | FU8 v | FI8 v => le_bytes 1 v
  | FU16 v | FI16 v => le_bytes 2 v
  | FU32 v | FI32 v | FF32 v => le_bytes 4 v
  | FU64 v | FI64 v | FF64 v => le_bytes 8 v
  | FBytes bs => bs
  end.
Definition fields_bytes (fs : list Field) : list byte := concat (field_bytes <$> fs).

Definition writer_ok (w : ByteWriter) : Prop :=
  0 <= writer_offset w <= blen (writer_bytes w).
Definition reader_ok (r : ByteReader) : Prop :=
  0 <= reader_offset r <= blen (reader_bytes r).

(** The writer after [bs] has been written at its cursor. *)
Definition writer_put (w : ByteWriter) (bs : list byte) : ByteWriter :=
  {| writer_bytes := copy_at (writer_bytes w) (writer_offset w) bs;
     writer_offset := writer_offset w + blen bs |}.

Lemma length_field_bytes f : blen (field_bytes f) = field_size f.
Proof. destruct f; simpl; rewrite ?length_le_bytes; reflexivity. Qed.

Lemma write_unsigned_le_spec width v w :
  writer_ok w ->
  write_unsigned_le width v w =
    if Z.of_nat width >? writer_remaining w then (kOutOfRange, w)
    else (kOk, writer_put w (le_bytes width v)).
Proof.
  intros Hw. unfold write_unsigned_le, writer_put, writer_ok, writer_remaining in *.
  destruct (Z.gtb_spec (Z.of_nat width) (blen (writer_bytes w) - writer_offset w)); [done|].
  rewrite store_le_spec, length_le_bytes by lia. done.
Qed.

Lemma le_bytes_unsigned_of w v :
  le_bytes w (unsigned_of (8 * Z.of_nat w) v) = le_bytes w v.
Proof.
  unfold unsigned_of. rewrite Z.pow_mul_r by lia. change (2 ^ 8) with 256.
  by apply le_bytes_wrap.
Qed.

(** One call: it writes the field's bytes at the cursor, or fails for lack of
    room and changes nothing. *)
Lemma write_field_spec f w :
  writer_ok w ->
  write_field f w =
    if field_size f >? writer_remaining w then (kOutOfRange, w)
    else (kOk, writer_put w (field_bytes f)).
Proof.
  intros Hw. destruct f; cbn [write_field field_size field_bytes];
    unfold write_u8, write_u16_le, write_u32_le, write_u64_le, write_i8, write_i16_le,
      write_i32_le, write_i64_le, write_float32_le, write_float64_le,
      write_u8, write_u16_le, write_u32_le, write_u64_le;
    try (rewrite write_unsigned_le_spec by done); try reflexivity.
  - by rewrite <- (le_bytes_unsigned_of 1 v).
  - by rewrite <- (le_bytes_unsigned_of 2 v).
  - by rewrite <- (le_bytes_unsigned_of 4 v).
  - by rewrite <- (le_bytes_unsigned_of 8 v).
Qed.

Lemma writer_put_ok w bs :
  writer_ok w -> blen bs <= writer_remaining w -> writer_ok (writer_put w bs).
Proof.
  unfold writer_ok, writer_put, writer_remaining. intros Hw Hb.
  cbn [writer_bytes writer_offset]. rewrite length_copy_at by lia. lia.
Qed.

Lemma writer_put_remaining w bs :
  writer_ok w -> blen bs <= writer_remaining w ->
  writer_remaining (writer_put w bs) = writer_remaining w - blen bs.
Proof.
  unfold writer_ok, writer_put, writer_remaining. intros Hw Hb.
  cbn [writer_bytes writer_offset]. rewrite length_copy_at by lia. lia.
Qed.

Lemma copy_at_app bs off a b :
  0 <= off -> off + blen a + blen b <= blen bs ->
  copy_at (copy_at bs off a) (off + blen a) b = copy_at bs off (a ++ b).
Proof.
  intros. unfold copy_at. rewrite length_app.
  rewrite !take_app, !drop_app, !length_take.
  rewrite (take_ge (take _ _)) by (rewrite length_take; lia).
  rewrite (take_ge a) by lia.
  rewrite (drop_ge (take _ _)) by (rewrite length_take; lia).
  rewrite (drop_ge a) by lia.
  replace (Z.to_nat (off + blen a) - Z.to_nat off `min` length bs - length a)%nat
    with 0%nat by lia.
  rewrite take_0, app_nil_r, <- !app_assoc, drop_drop. cbn [app].
  do 3 f_equal. f_equal. lia.
Qed.

Lemma writer_put_app w a b :
  writer_ok w -> blen (a ++ b) <= writer_remaining w ->
  writer_put (writer_put w a) b = writer_put w (a ++ b).
Proof.
  unfold writer_ok, writer_remaining. rewrite length_app. intros Hw Hb. unfold writer_put.
  cbn [writer_bytes writer_offset]. rewrite copy_at_app by lia.
  f_equal. rewrite length_app. lia.
Qed.

Lemma fields_bytes_cons f fs : fields_bytes (f :: fs) = field_bytes f ++ fields_bytes fs.
Proof. reflexivity. Qed.

Lemma write_fields_fit fs : forall w,
  writer_ok w -> blen (fields_bytes fs) <= writer_remaining w ->
  write_fields fs w = (kOk, writer_put w (fields_bytes fs)).
Proof.
  induction fs as [|f fs IH]; intros w Hw Hb.
  - destruct w as [bs off]. unfold writer_put, copy_at. cbn in *.
    rewrite Nat.add_0_r, take_drop, Z.add_0_r. done.
  - rewrite fields_bytes_cons, length_app in Hb. cbn [write_fields].
    rewrite write_field_spec by done.
    pose proof (length_field_bytes f).
    destruct (Z.gtb_spec (field_size f) (writer_remaining w)); [lia|].
    rewrite IH.
    + rewrite writer_put_app; [done|done|]. rewrite length_app. lia.
    + apply writer_put_ok; [done|lia].
    + rewrite writer_put_remaining by (try done; lia). lia.
Qed.

Lemma signed_unsigned w v :
  0 < w -> signed_range w v -> signed_of w (v mod 2 ^ w) = v.
Proof.
  intros Hw Hv. unfold signed_range, signed_of in *.
  assert (2 ^ w = 2 * 2 ^ (w - 1)) as E.
  { rewrite <- Z.pow_succ_r by lia. f_equal. lia. }
  rewrite E. generalize dependent (2 ^ (w - 1)). intros h Hv E.
  destruct (Z.le_gt_cases 0 v).
  - rewrite Z.mod_small by lia. destruct (Z.ltb_spec v h); lia.
  - rewrite <- (Z_mod_plus_full v 1), Z.mod_small by lia.
    destruct (Z.ltb_spec (v + 1 * (2 * h)) h); lia.
Qed.

(** Reading back what stands at the cursor. *)
Lemma read_unsigned_le_at width v r rest :
  reader_ok r -> drop (Z.to_nat (reader_offset r)) (reader_bytes r) = le_bytes width v ++ rest ->
  read_unsigned_le width r =
    (Ok (v mod 256 ^ Z.of_nat width), reader_advance r (Z.of_nat width)).
Proof.
  unfold reader_ok. intros Hr Hd. pose proof (f_equal length Hd) as Hl.
  rewrite length_drop, length_app, length_le_bytes in Hl.
  unfold read_unsigned_le, reader_remaining.
  destruct (Z.gtb_spec (Z.of_nat width) (blen (reader_bytes r) - reader_offset r)); [lia|].
  do 2 f_equal. rewrite load_le_spec by lia. unfold subspan.
  rewrite Hd, Nat2Z.id, take_app_length' by (rewrite length_le_bytes; done).
  apply le_val_le_bytes.
Qed.

Lemma read_exact_at bs r rest :
  reader_ok r -> drop (Z.to_nat (reader_offset r)) (reader_bytes r) = bs ++ rest ->
  read_exact (blen bs) r = (Ok bs, reader_advance r (blen bs)).
Proof.
  unfold reader_ok. intros Hr Hd. pose proof (f_equal length Hd) as Hl.
  rewrite length_drop, length_app in Hl.
  unfold read_exact, peek_exact, reader_remaining.
  destruct (Z.gtb_spec (blen bs) (blen (reader_bytes r) - reader_offset r)); [lia|].
  unfold subspan. rewrite Hd, Nat2Z.id, take_app_length. done.
Qed.

Lemma read_field_at f r rest :
  reader_ok r -> field_ok f ->
  drop (Z.to_nat (reader_offset r)) (reader_bytes r) = field_bytes f ++ rest ->
  read_field f r = (Ok f, reader_advance r (field_size f)).
Proof.
  intros Hr Hf Hd. destruct f; cbn [field_bytes field_ok field_size read_field] in *;
    try (erewrite read_exact_at by eauto; reflexivity);
    unfold read_i8, read_i16_le, read_i32_le, read_i64_le, read_float32_le, read_float64_le,
      read_u8, read_u16_le, read_u32_le, read_u64_le;
    (erewrite read_unsigned_le_at by eauto); cbn [map_result];
    try (rewrite Z.mod_small by exact Hf; reflexivity).
  - change (256 ^ Z.of_nat 1) with (2 ^ 8). by rewrite signed_unsigned by (try done; lia).
  - change (256 ^ Z.of_nat 2) with (2 ^ 16). by rewrite signed_unsigned by (try done; lia).
  - change (256 ^ Z.of_nat 4) with (2 ^ 32). by rewrite signed_unsigned by (try done; lia).
  - change (256 ^ Z.of_nat 8) with (2 ^ 64). by rewrite signed_unsigned by (try done; lia).
Qed.

Lemma read_fields_at fs : forall r rest,
  reader_ok r -> Forall field_ok fs ->
  drop (Z.to_nat (reader_offset r)) (reader_bytes r) = fields_bytes fs ++ rest ->
  read_fields fs r = (Ok fs, reader_advance r (blen (fields_bytes fs))).
Proof.
  induction fs as [|f fs IH]; intros r rest Hr Hfs Hd.
  - destruct r as [bs off]. cbn. unfold reader_advance. cbn. by rewrite Z.add_0_r.
  - apply Forall_cons in Hfs as [Hf Hfs]. rewrite fields_bytes_cons in *.
    rewrite <- app_assoc in Hd. pose proof (f_equal length Hd) as Hl.
    rewrite length_drop, length_app in Hl. pose proof (length_field_bytes f) as Hs.
    cbn [read_fields]. erewrite read_field_at by eauto.
    unfold reader_ok in Hr. rewrite (IH _ rest); [| | done |].
    + cbn [map_result]. unfold reader_advance. cbn. do 2 f_equal. rewrite length_app. lia.
    + unfold reader_ok, reader_advance. cbn. lia.
    + unfold reader_advance. cbn [reader_offset reader_bytes].
      replace (Z.to_nat (reader_offset r + field_size f))
        with (Z.to_nat (reader_offset r) + length (field_bytes f))%nat by lia.
      rewrite <- drop_drop, Hd, drop_app_length. done.
Qed.

(** Round trip of the byte cursors: a sequence of [ByteWriter] calls whose
    values are in range and which fits in the destination succeeds, changes
    exactly the bytes it covers, and the same sequence of [ByteReader] calls over
    the buffer returns every value and stops where the writer stopped. *)
Theorem fields_roundtrip (fs : list Field) (w : ByteWriter)
  (Hw : writer_ok w) (Hfs : Forall field_ok fs)
  (Hfit : blen (fields_bytes fs) <= writer_remaining w) :
  write_fields fs w = (kOk, writer_put w (fields_bytes fs)) /\
  read_fields fs {| reader_bytes := writer_bytes (writer_put w (fields_bytes fs));
                    reader_offset := writer_offset w |} =
    (Ok fs, {| reader_bytes := writer_bytes (writer_put w (fields_bytes fs));
               reader_offset := writer_offset (writer_put w (fields_bytes fs)) |}).
Proof.
  split; [by apply write_fields_fit|].
  unfold writer_ok, writer_remaining in *.
  rewrite (read_fields_at fs _ (drop (Z.to_nat (writer_offset w) + length (fields_bytes fs))
             (writer_bytes w))); [done| |done|].
  - unfold reader_ok, writer_put. cbn [reader_offset reader_bytes writer_bytes].
    rewrite length_copy_at by lia. lia.
  - cbn [reader_offset reader_bytes writer_put writer_bytes]. unfold copy_at.
    rewrite drop_app_le, drop_ge by (rewrite length_take; lia). done.
Qed.

Definition sample_fields : list Field :=
  [FU8 200; FI16 (-2); FU32 4000000000; FBytes [x01; x02]; FI64 (-5)].
Definition sample_writer : ByteWriter := ByteWriter_new (replicate 20 xff).

Lemma fields_roundtrip_witness :
  write_fields sample_fields sample_writer =
    (kOk, writer_put sample_writer (fields_bytes sample_fields)).
Proof.
  apply (fields_roundtrip sample_fields sample_writer).
  - vm_compute. split; discriminate.
  - unfold sample_fields. repeat constructor; vm_compute; done.
  - vm_compute. discriminate.
Defined.
