(* ===== verification/Crc32c.v ===== *)
(** CRC32C (src/common/crc32c.cpp): the 256-entry table, the table-driven state
    update and its streaming interface, proved equal to the bit-serial division
    by the Castagnoli polynomial, to be independent of chunking, and to detect
    every corruption confined to one byte. *)
From S2P Require Import Prelude Bytes.

(** * Definitions of the source *)

Definition kReversedCastagnoliPolynomial : Z := 0x82f63b78.

(** One turn of the inner loop of [make_crc32c_table]. *)
Definition table_step (remainder : Z) : Z :=
  let mask := u32 (0 - Z.land remainder 1) in
  Z.lxor (Z.shiftr remainder 1) (Z.land kReversedCastagnoliPolynomial mask).

Definition make_crc32c_table : list Z :=
  (fun index => Nat.iter 8 table_step (Z.of_nat index)) <$> seq 0 256.

Definition kCrc32cTable : list Z := Eval vm_compute in make_crc32c_table.

(** The body of the loop of [extend_state]. *)
Definition extend_byte (state : Z) (b : byte) : Z :=
  let index := u8 (Z.lxor state (byte_to_Z b)) in
  Z.lxor (nth (Z.to_nat index) kCrc32cTable 0) (Z.shiftr state 8).

Definition extend_state (state : Z) (bytes : list byte) : Z :=
  fold_left extend_byte bytes state.

Record Crc32c := { crc_state : Z }.
Definition Crc32c_new : Crc32c := {| crc_state := 0xffffffff |}.
Definition Crc32c_extend (c : Crc32c) (bytes : list byte) : Crc32c :=
  {| crc_state := extend_state (crc_state c) bytes |}.
Definition Crc32c_reset (c : Crc32c) : Crc32c := {| crc_state := 0xffffffff |}.
Definition Crc32c_value (c : Crc32c) : Z := Z.lxor (crc_state c) 0xffffffff.

Definition crc32c (bytes : list byte) : Z :=
  Crc32c_value (Crc32c_extend Crc32c_new bytes).

Definition extend_crc32c (checksum : Z) (bytes : list byte) : Z :=
  let state := Z.lxor checksum 0xffffffff in
  Z.lxor (extend_state state bytes) 0xffffffff.

(** * Reference: bit-serial division *)

Definition poly : Z := kReversedCastagnoliPolynomial.
(** Shift one bit out; subtract the polynomial when it was set. *)
Definition bit_step (s : Z) : Z :=
  Z.lxor (Z.shiftr s 1) (if Z.testbit s 0 then poly else 0).
Fixpoint bit_steps (n : nat) (s : Z) : Z :=
  match n with O => s | S n => bit_step (bit_steps n s) end.
Definition byte_step (s : Z) (b : byte) : Z := bit_steps 8 (Z.lxor s (byte_to_Z b)).
Definition crc32c_spec (bytes : list byte) : Z :=
  Z.lxor (fold_left byte_step bytes 0xffffffff) 0xffffffff.

(** ** Linearity of the division step *)

Lemma bit_step_lxor a b : bit_step (Z.lxor a b) = Z.lxor (bit_step a) (bit_step b).
Proof.
  unfold bit_step. rewrite Z.shiftr_lxor, Z.lxor_spec.
  destruct (Z.testbit a 0), (Z.testbit b 0); simpl; apply Z.bits_inj'; intros n Hn;
    rewrite !Z.lxor_spec, ?Z.bits_0;
    destruct (Z.testbit (Z.shiftr a 1) n), (Z.testbit (Z.shiftr b 1) n), (Z.testbit poly n);
    reflexivity.
Qed.

Lemma bit_steps_lxor n a b :
  bit_steps n (Z.lxor a b) = Z.lxor (bit_steps n a) (bit_steps n b).
Proof. induction n as [|n IH]; simpl; [done|]. rewrite IH. apply bit_step_lxor. Qed.

Lemma bit_step_even a : bit_step (Z.shiftl a 1) = a.
Proof.
  unfold bit_step. rewrite Z.shiftr_shiftl_l by lia.
  rewrite Z.shiftl_spec_low by lia. simpl. apply Z.lxor_0_r.
Qed.

Lemma bit_steps_shifted n a : bit_steps n (Z.shiftl a (Z.of_nat n)) = a.
Proof.
  revert a. induction n as [|n IH]; intros a; [apply Z.shiftl_0_r|].
  cbn [bit_steps]. rewrite Nat2Z.inj_succ, <- Z.add_1_l, <- Z.shiftl_shiftl by lia.
  rewrite IH. apply bit_step_even.
Qed.

Lemma table_step_bit_step s : table_step s = bit_step s.
Proof.
  unfold table_step, bit_step, poly. f_equal.
  change 1 with (Z.ones 1) at 1. rewrite Z.land_ones by lia.
  change (2 ^ 1) with 2. rewrite Zmod_odd, Z.bit0_odd.
  destruct (Z.odd s); reflexivity.
Qed.

Lemma table_steps_bit_steps n i : Nat.iter n table_step i = bit_steps n i.
Proof.
  induction n as [|n IH]; [done|].
  rewrite Nat.iter_succ, IH, table_step_bit_step. done.
Qed.

Lemma nth_crc_table i : 0 <= i < 256 -> nth (Z.to_nat i) kCrc32cTable 0 = bit_steps 8 i.
Proof.
  intros Hi.
  assert (E : kCrc32cTable = make_crc32c_table) by (vm_compute; reflexivity).
  rewrite E. unfold make_crc32c_table.
  rewrite nth_lookup, list_lookup_fmap, lookup_seq_lt by lia. simpl Nat.add.
  cbn [fmap option_fmap option_map default]. rewrite Z2Nat.id by lia.
  apply table_steps_bit_steps.
Qed.

(** ** The table-driven step is eight division steps *)

Lemma split_low8 s : s = Z.lxor (s mod 256) (Z.shiftl (Z.shiftr s 8) 8).
Proof.
  apply Z.bits_inj'. intros n Hn. rewrite Z.lxor_spec. change 256 with (2 ^ 8).
  destruct (Z.lt_ge_cases n 8).
  - rewrite Z.mod_pow2_bits_low, Z.shiftl_spec_low by lia. by rewrite xorb_false_r.
  - rewrite Z.mod_pow2_bits_high, Z.shiftl_spec, Z.shiftr_spec by lia.
    rewrite xorb_false_l. f_equal. lia.
Qed.

Lemma shiftr8_byte b : Z.shiftr (byte_to_Z b) 8 = 0.
Proof.
  rewrite Z.shiftr_div_pow2 by lia. apply Z.div_small. apply byte_to_Z_range.
Qed.

Lemma extend_byte_step s b : extend_byte s b = byte_step s b.
Proof.
  unfold extend_byte, byte_step, wrap. cbv zeta. change (2 ^ 8) with 256.
  rewrite nth_crc_table by (apply Z.mod_pos_bound; lia).
  rewrite (split_low8 (Z.lxor s (byte_to_Z b))) at 2.
  rewrite bit_steps_lxor, (bit_steps_shifted 8), Z.shiftr_lxor, shiftr8_byte, Z.lxor_0_r.
  done.
Qed.

Lemma byte_step_eq s b : byte_step s b = bit_steps 8 (Z.lxor s (byte_to_Z b)).
Proof. reflexivity. Qed.
#[global] Opaque byte_step extend_byte.

(** Rewriting with this equation keeps the kernel from evaluating a step
    symbolically when it compares two folds. *)
Lemma fold_left_cons {A B} (f : A -> B -> A) x l s :
  fold_left f (x :: l) s = fold_left f l (f s x).
Proof. reflexivity. Qed.

Lemma extend_state_byte_steps s bytes : extend_state s bytes = fold_left byte_step bytes s.
Proof.
  revert s. induction bytes as [|b bytes IH]; intros s; [done|].
  unfold extend_state in *. rewrite !fold_left_cons, <- extend_byte_step. apply IH.
Qed.

Lemma extend_state_app s a b : extend_state s (a ++ b) = extend_state (extend_state s a) b.
Proof. unfold extend_state. apply fold_left_app. Qed.

Lemma lxor_twice a m : Z.lxor (Z.lxor a m) m = a.
Proof. by rewrite Z.lxor_assoc, Z.lxor_nilpotent, Z.lxor_0_r. Qed.

(** ** The state stays a 32-bit word *)

Lemma in_width_testbit w x :
  0 <= w -> in_width w x <-> 0 <= x /\ forall n, w <= n -> Z.testbit x n = false.
Proof.
  intros Hw. split.
  - intros [Hx Hlt]. split; [done|]. intros n Hn.
    destruct (decide (x = 0)) as [->|]; [apply Z.bits_0|].
    apply Z.bits_above_log2; [lia|]. apply Z.lt_le_trans with w; [|done].
    apply Z.log2_lt_pow2; lia.
  - intros [Hx Hb]. split; [done|]. destruct (decide (x = 0)) as [->|]; [lia|].
    destruct (Z.lt_ge_cases x (2 ^ w)) as [|Hge]; [done|].
    assert (w <= Z.log2 x) by (apply Z.log2_le_pow2; lia).
    pose proof (Hb (Z.log2 x) ltac:(done)) as Hf.
    rewrite Z.bit_log2 in Hf by lia. done.
Qed.

Lemma in_width_lxor w a b : 0 <= w -> in_width w a -> in_width w b -> in_width w (Z.lxor a b).
Proof.
  intros Hw Ha Hb. apply in_width_testbit in Ha as [Ha Ha'], Hb as [Hb Hb']; [|done..].
  apply in_width_testbit; [done|]. split; [by apply Z.lxor_nonneg|].
  intros n Hn. rewrite Z.lxor_spec, Ha', Hb' by done. done.
Qed.

Lemma bit_step_range s : in_width 32 s -> in_width 32 (bit_step s).
Proof.
  intros Hs. unfold bit_step. apply in_width_lxor; [lia| |].
  - rewrite Z.shiftr_div_pow2 by lia. width_lia.
  - destruct (Z.testbit s 0); unfold in_width, poly, kReversedCastagnoliPolynomial; lia.
Qed.

Lemma bit_steps_range n s : in_width 32 s -> in_width 32 (bit_steps n s).
Proof.
  intros Hs. induction n as [|n IH]; [done|]. by apply bit_step_range.
Qed.

(** The polynomial has its top bit set, so one division step can be undone. *)
Lemma bit_step_inj a b : in_width 32 a -> in_width 32 b -> bit_step a = bit_step b -> a = b.
Proof.
  intros Ha Hb E.
  assert (Hz : bit_step (Z.lxor a b) = 0) by (rewrite bit_step_lxor, E; apply Z.lxor_nilpotent).
  assert (Hx : in_width 32 (Z.lxor a b)) by (apply in_width_lxor; [lia|done|done]).
  revert Hz Hx. generalize (Z.lxor a b) as x, (Z.lxor_eq a b). intros x Heq Hz Hx.
  apply Heq. unfold bit_step in Hz.
  destruct (Z.testbit x 0) eqn:E0.
  - apply Z.lxor_eq in Hz. rewrite Z.shiftr_div_pow2 in Hz by lia.
    unfold poly, kReversedCastagnoliPolynomial in Hz. exfalso. width_lia.
  - rewrite Z.lxor_0_r, Z.shiftr_div_pow2 in Hz by lia.
    rewrite Z.bit0_odd, <- Z.negb_even in E0. apply negb_false_iff, Z.even_spec in E0.
    destruct E0 as [k ->]. width_lia.
Qed.

Lemma bit_steps_inj n : forall a b,
  in_width 32 a -> in_width 32 b -> bit_steps n a = bit_steps n b -> a = b.
Proof.
  induction n as [|n IH]; intros a b Ha Hb E; [done|].
  cbn [bit_steps] in E. apply bit_step_inj in E; auto using bit_steps_range.
Qed.

Lemma byte_step_range s b : in_width 32 s -> in_width 32 (byte_step s b).
Proof.
  intros Hs. rewrite byte_step_eq.
  assert (H : in_width 32 (Z.lxor s (byte_to_Z b))).
  { apply in_width_lxor; [lia|done|]. pose proof (byte_to_Z_range b). width_lia. }
  by apply bit_steps_range.
Qed.

Lemma byte_steps_range bytes : forall s,
  in_width 32 s -> in_width 32 (fold_left byte_step bytes s).
Proof.
  induction bytes as [|b bytes IH]; intros s Hs; [done|].
  rewrite fold_left_cons. apply IH, byte_step_range, Hs.
Qed.

Lemma crc32c_range bytes : in_width 32 (crc32c bytes).
Proof.
  unfold crc32c, Crc32c_value, Crc32c_extend. cbn [crc_state Crc32c_new].
  rewrite extend_state_byte_steps.
  apply in_width_lxor; [lia | apply byte_steps_range |]; width_lia.
Qed.

(** ** Injectivity of the state update *)

Lemma byte_step_inj_byte s a b : in_width 32 s -> byte_step s a = byte_step s b -> a = b.
Proof.
  intros Hs E. pose proof (byte_to_Z_range a). pose proof (byte_to_Z_range b).
  rewrite !byte_step_eq in E. apply bit_steps_inj in E; [|apply in_width_lxor; [lia|done|width_lia]..].
  apply byte_to_Z_inj. apply (f_equal (Z.lxor s)) in E.
  by rewrite <- !Z.lxor_assoc, Z.lxor_nilpotent, !Z.lxor_0_l in E.
Qed.

Lemma byte_step_inj_state s t b :
  in_width 32 s -> in_width 32 t -> byte_step s b = byte_step t b -> s = t.
Proof.
  intros Hs Ht E. pose proof (byte_to_Z_range b).
  rewrite !byte_step_eq in E. apply bit_steps_inj in E; [|apply in_width_lxor; [lia|done|width_lia]..].
  apply (f_equal (fun z => Z.lxor z (byte_to_Z b))) in E. by rewrite !lxor_twice in E.
Qed.

Lemma byte_steps_inj bytes : forall s t,
  in_width 32 s -> in_width 32 t ->
  fold_left byte_step bytes s = fold_left byte_step bytes t -> s = t.
Proof.
  induction bytes as [|b bytes IH]; intros s t Hs Ht E; [done|].
  rewrite !fold_left_cons in E. apply IH in E; [|by apply byte_step_range..].
  exact (byte_step_inj_state _ _ _ Hs Ht E).
Qed.

Lemma crc32c_bit_serial bytes : crc32c bytes = crc32c_spec bytes.
Proof.
  unfold crc32c, Crc32c_value, Crc32c_extend, crc32c_spec. cbn [crc_state Crc32c_new].
  by rewrite extend_state_byte_steps.
Qed.

(** Two byte strings that differ in exactly one byte have different checksums. *)
Lemma crc32c_one_byte pre x y suf :
  x <> y -> crc32c (pre ++ x :: suf) <> crc32c (pre ++ y :: suf).
Proof.
  rewrite !crc32c_bit_serial. unfold crc32c_spec. intros Hne E. apply Hne.
  apply (f_equal (fun z => Z.lxor z 0xffffffff)) in E. rewrite !lxor_twice in E.
  rewrite !fold_left_app, !fold_left_cons in E.
  assert (Hs : in_width 32 (fold_left byte_step pre 0xffffffff))
    by (apply byte_steps_range; width_lia).
  apply byte_steps_inj in E; [|by apply byte_step_range..].
  exact (byte_step_inj_byte _ _ _ Hs E).
Qed.

(** ** Properties *)

(** * Sealed byte strings: a body followed by its CRC32C *)

Definition with_crc (body : list byte) : list byte := body ++ le_bytes 4 (crc32c body).

Lemma length_seal body : length (with_crc body) = (length body + 4)%nat.
Proof. unfold with_crc. by rewrite length_app, length_le_bytes. Qed.

(** The checksum comparison of the decoders. *)
Lemma crc_check_seal bs n :
  0 <= n -> blen bs = n + 4 ->
  crc32c (first bs n) = load_u32_le bs n <-> bs = with_crc (first bs n).
Proof.
  intros Hn Hl. unfold with_crc.
  assert (Hs : bs = first bs n ++ le_bytes 4 (load_u32_le bs n)).
  { rewrite <- field_of_load by lia. unfold first, subspan.
    rewrite (take_ge (drop _ _)) by (rewrite length_drop; lia). by rewrite take_drop. }
  split; intros E.
  - rewrite E. exact Hs.
  - rewrite Hs in E at 1. apply app_inv_head in E. symmetry.
    apply (f_equal le_val) in E. rewrite !le_val_le_bytes in E.
    pose proof (load_in_width 4 bs n Hn ltac:(lia)). pose proof (crc32c_range (first bs n)).
    change (256 ^ Z.of_nat 4) with 4294967296 in E. width_unfold.
    change (8 * Z.of_nat 4) with 32 in *. rewrite !Z.mod_small in E by lia. done.
Qed.

(** No sealed string is at Hamming distance one of another. *)
Lemma seal_one_byte body body' i a b :
  with_crc body !! i = Some a -> a <> b -> <[i := b]> (with_crc body) <> with_crc body'.
Proof.
  intros Hi Hne E.
  assert (Hl : length body = length body').
  { apply (f_equal length) in E. rewrite length_insert, !length_seal in E. lia. }
  unfold with_crc in *. destruct (decide (i < length body)%nat) as [Hlt|Hge].
  - rewrite insert_app_l in E by done. rewrite lookup_app_l in Hi by done.
    apply app_inj_1 in E as [E1 E2]; [|by rewrite length_insert].
    apply (f_equal le_val) in E2. rewrite !le_val_le_bytes in E2.
    pose proof (crc32c_range body). pose proof (crc32c_range body').
    change (256 ^ Z.of_nat 4) with (2 ^ 32) in E2. rewrite !Z.mod_small in E2 by done.
    rewrite <- E1 in E2. rewrite <- (take_drop_middle body i a Hi) in E2 at 1.
    rewrite insert_take_drop in E2 by done. by apply crc32c_one_byte in E2.
  - rewrite insert_app_r_alt in E by lia. rewrite lookup_app_r in Hi by lia.
    apply app_inj_1 in E as [-> E2]; [|done].
    apply (f_equal (fun l => l !! (i - length body')%nat)) in E2.
    rewrite Hi, list_lookup_insert_eq in E2 by (eapply lookup_lt_Some; exact Hi). congruence.
Qed.

Lemma load_seal body n : n = blen body -> load_u32_le (with_crc body) n = crc32c body.
Proof.
  intros ->. apply load_field; [lia | rewrite length_seal; lia | apply crc32c_range |].
  unfold with_crc. rewrite <- (app_nil_r (le_bytes 4 _)) at 1. by apply subspan_app_l.
Qed.

(** C35.  The table-driven checksum of any byte string is the bit-serial CRC32C:
    division by the reversed Castagnoli polynomial, one bit at a time, with
    all-ones initial and final values. *)
Theorem crc32c_is_bit_serial (bytes : list byte) : crc32c bytes = crc32c_spec bytes.
Proof. apply crc32c_bit_serial. Qed.

(** Chunking is invisible: extending the finished checksum of a prefix, or
    feeding a running [Crc32c] object chunk by chunk, gives the checksum of the
    whole byte string. *)
Theorem crc32c_chunking (chunks : list (list byte)) (a : list byte) :
  fold_left extend_crc32c chunks (crc32c a) = crc32c (a ++ concat chunks) /\
  Crc32c_value (fold_left Crc32c_extend chunks (Crc32c_extend Crc32c_new a))
    = crc32c (a ++ concat chunks).
Proof.
  revert a. induction chunks as [|c chunks IH]; intros a.
  - cbn. rewrite app_nil_r. done.
  - rewrite !fold_left_cons. cbn [concat]. rewrite app_assoc.
    replace (extend_crc32c (crc32c a) c) with (crc32c (a ++ c)).
    2:{ unfold crc32c, extend_crc32c, Crc32c_value, Crc32c_extend. cbn [crc_state].
        by rewrite lxor_twice, extend_state_app. }
    replace (Crc32c_extend (Crc32c_extend Crc32c_new a) c)
      with (Crc32c_extend Crc32c_new (a ++ c)).
    2:{ unfold Crc32c_extend. cbn [crc_state]. by rewrite extend_state_app. }
    apply IH.
Qed.
