(* ===== verification/Reading.v ===== *)
(** Following a [ByteReader] through a decoder: the reader stands before the bytes
    that are left, a read cuts its bytes off the front, and tactics run a decoder
    forwards over known bytes or invert one that returned.  The record formats of
    the program are proved with them. *)
From S2P Require Import Prelude Bytes.
#[local] Open Scope Z_scope.

(** * Reading from the front of what is left *)

(** The reader [r] stands before [rest]. *)
Definition stands (r : ByteReader) (rest : list byte) : Prop :=
  reader_ok r /\ drop (Z.to_nat (reader_offset r)) (reader_bytes r) = rest.

Lemma stands_new bs : stands (ByteReader_new bs) bs.
Proof. split; [unfold reader_ok; cbn; lia|done]. Qed.

Lemma stands_remaining r rest : stands r rest -> reader_remaining r = blen rest.
Proof.
  intros [Hr <-]. unfold reader_ok, reader_remaining in *. rewrite length_drop. lia.
Qed.

Lemma stands_empty r rest : stands r rest -> reader_empty r = true <-> rest = [].
Proof.
  intros Hs. unfold reader_empty. rewrite Z.eqb_eq, (stands_remaining r rest) by done.
  destruct rest; cbn; split; intros; try done; lia.
Qed.

Lemma stands_advance r a rest :
  stands r (a ++ rest) -> stands (reader_advance r (blen a)) rest.
Proof.
  intros Hs. pose proof (stands_remaining _ _ Hs) as Hl. rewrite length_app in Hl.
  destruct Hs as [Hr Hd]. unfold stands, reader_ok, reader_advance, reader_remaining in *.
  cbn [reader_bytes reader_offset]. split; [lia|].
  rewrite Z2Nat.inj_add, Nat2Z.id by lia. by rewrite <- drop_drop, Hd, drop_app_length.
Qed.

(** A read returns the value that stands there, when there is one. *)
Lemma read_unsigned_stands w r v rest :
  stands r (le_bytes w v ++ rest) -> in_width (8 * Z.of_nat w) v ->
  exists r', read_unsigned_le w r = (Ok v, r') /\ stands r' rest.
Proof.
  intros Hs Hv. exists (reader_advance r (Z.of_nat w)). split.
  - destruct Hs as [Hr Hd]. rewrite (read_unsigned_le_at w v r rest) by done.
    rewrite Z.mod_small; [done|]. unfold in_width in Hv. by rewrite Z.pow_mul_r in Hv by lia.
  - rewrite <- (length_le_bytes w v) at 1. by apply stands_advance.
Qed.

Lemma read_exact_stands n r bs rest :
  stands r (bs ++ rest) -> n = blen bs ->
  exists r', read_exact n r = (Ok bs, r') /\ stands r' rest.
Proof.
  intros Hs ->. exists (reader_advance r (blen bs)).
  split; [by apply read_exact_at with rest; destruct Hs | by apply stands_advance].
Qed.

(** A read that succeeds found its value there. *)
Lemma read_unsigned_inv w r rest v r' :
  stands r rest -> read_unsigned_le w r = (Ok v, r') ->
  exists rest', rest = le_bytes w v ++ rest' /\ in_width (8 * Z.of_nat w) v /\ stands r' rest'.
Proof.
  intros Hs H. pose proof (stands_remaining _ _ Hs) as Hl.
  unfold read_unsigned_le in H. rewrite Hl in H.
  destruct (Z.gtb_spec (Z.of_nat w) (blen rest)) as [|Hle]; [done|]. injection H as <- <-.
  assert (Hd : rest = take w rest ++ drop w rest) by (by rewrite take_drop).
  assert (He : take w rest = le_bytes w (load_le w (reader_bytes r) (reader_offset r))).
  { destruct Hs as [Hr <-]. unfold reader_ok, reader_remaining in *.
    rewrite <- field_of_load by lia. unfold subspan. by rewrite Nat2Z.id. }
  exists (drop w rest). rewrite <- He. split_and!; [done| |].
  - destruct Hs as [Hr _]. unfold reader_ok, reader_remaining in *. apply load_in_width; lia.
  - rewrite Hd in Hs. apply stands_advance in Hs. by rewrite length_take_le in Hs by lia.
Qed.

Lemma read_exact_inv n r rest bs r' :
  0 <= n -> stands r rest -> read_exact n r = (Ok bs, r') ->
  exists rest', rest = bs ++ rest' /\ blen bs = n /\ stands r' rest'.
Proof.
  intros Hn Hs H. pose proof (stands_remaining _ _ Hs) as Hl.
  unfold read_exact, peek_exact in H. rewrite Hl in H.
  destruct (Z.gtb_spec n (blen rest)) as [|Hle]; [by destruct (make_unexpected_not_ok (A := list byte) kOutOfRange)|].
  injection H as <- <-.
  assert (He : subspan (reader_bytes r) (reader_offset r) n = take (Z.to_nat n) rest).
  { destruct Hs as [Hr <-]. done. }
  exists (drop (Z.to_nat n) rest). rewrite He, length_take_le by lia.
  split_and!; [by rewrite take_drop | lia |].
  rewrite <- (take_drop (Z.to_nat n) rest) in Hs. apply stands_advance in Hs.
  rewrite length_take_le in Hs by lia. by rewrite Z2Nat.id in Hs.
Qed.

(** A read that has the bytes it needs succeeds. *)
Lemma read_unsigned_total w r rest :
  stands r rest -> Z.of_nat w <= blen rest ->
  exists v r' rest', read_unsigned_le w r = (Ok v, r') /\ rest = le_bytes w v ++ rest' /\
    in_width (8 * Z.of_nat w) v /\ stands r' rest'.
Proof.
  intros Hs Hl. pose proof (stands_remaining _ _ Hs) as Hr.
  destruct (read_unsigned_le w r) as [[v|st] r'] eqn:E.
  - destruct (read_unsigned_inv _ _ _ _ _ Hs E) as (rest' & ? & ? & ?). eauto 10.
  - unfold read_unsigned_le in E. rewrite Hr in E.
    by destruct (Z.gtb_spec (Z.of_nat w) (blen rest)); [lia|].
Qed.
Lemma read_exact_total n r rest :
  stands r rest -> 0 <= n <= blen rest ->
  exists bs r' rest', read_exact n r = (Ok bs, r') /\ rest = bs ++ rest' /\ blen bs = n /\
    stands r' rest'.
Proof.
  intros Hs Hl. pose proof (stands_remaining _ _ Hs) as Hr.
  destruct (read_exact n r) as [[v|st] r'] eqn:E.
  - destruct (read_exact_inv n r rest v r' ltac:(lia) Hs E) as (rest' & ? & ? & ?). eauto 10.
  - unfold read_exact, peek_exact in E. rewrite Hr in E.
    by destruct (Z.gtb_spec n (blen rest)); [lia|].
Qed.

Lemma nonzero_reserved bs n :
  blen bs = n -> existsb (fun b => bool_decide (b <> x00)) bs = false ->
  bs = replicate (Z.to_nat n) x00.
Proof. intros <- H. rewrite Nat2Z.id. by apply zero_check_replicate. Qed.

(** A call [writer.zero_fill(n)] of a script of fields. *)
Definition zero_field (n : nat) : Field := FBytes (replicate n x00).

Lemma fields_bytes_app a b : fields_bytes (a ++ b) = fields_bytes a ++ fields_bytes b.
Proof. unfold fields_bytes. by rewrite fmap_app, concat_app. Qed.

Lemma fields_bytes_nil : fields_bytes [] = [].
Proof. done. Qed.

(** Put the bytes of a script in the form of a right-nested concatenation. *)
Ltac fields_normal :=
  rewrite ?fields_bytes_cons, ?fields_bytes_app, ?fields_bytes_cons, ?fields_bytes_nil, <- ?app_assoc;
  cbn [field_bytes zero_field app].

Ltac fields_normal_in H :=
  rewrite ?fields_bytes_cons, ?fields_bytes_app, ?fields_bytes_cons, ?fields_bytes_nil, <- ?app_assoc in H;
  cbn [field_bytes zero_field app] in H.

Lemma gtb_false a b : a <= b -> (a >? b) = false.
Proof. intros. rewrite Z.gtb_ltb. by apply Z.ltb_ge. Qed.

Lemma first_app_le {A} (a b : list A) n : n <= blen a -> first (a ++ b) n = first a n.
Proof. intros. unfold first. rewrite take_app_le by lia. done. Qed.
Lemma first_all {A} (a : list A) n : blen a <= n -> first a n = a.
Proof. intros. unfold first. apply take_ge. lia. Qed.
Lemma subspan_rest {A} (bs : list A) k :
  0 <= k <= blen bs -> subspan bs k (blen bs - k) = drop (Z.to_nat k) bs.
Proof. intros. unfold subspan. apply take_ge. rewrite length_drop. lia. Qed.

Lemma writer_put_new n bs :
  n = length bs -> writer_put (ByteWriter_new (replicate n x00)) bs =
    {| writer_bytes := bs; writer_offset := blen bs |}.
Proof.
  intros ->. unfold writer_put, ByteWriter_new, copy_at. cbn. f_equal.
  rewrite drop_ge, app_nil_r by (rewrite length_replicate; lia). done.
Qed.

(** ** Automation

    [read_inv H] follows a decoder that returned: each read that appears in [H]
    cuts its bytes off the front of what is left.  [read_run] follows a decoder
    over bytes that are known. *)
Ltac width_norm :=
  change (8 * Z.of_nat 8) with 64 in *; change (8 * Z.of_nat 4) with 32 in *;
  change (8 * Z.of_nat 2) with 16 in *; change (8 * Z.of_nat 1) with 8 in *.
Ltac read_inv1 H :=
  match type of H with
  | match ?e with (_, _) => _ end = _ =>
      let E := fresh "E" in destruct e as [[?|?] ?] eqn:E;
      [|exfalso; clear -H; repeat case_match; discriminate]
  end;
  match goal with
  | E : read_unsigned_le _ ?r = (Ok _, _), S : stands ?r _ |- _ =>
      apply (read_unsigned_inv _ _ _ _ _ S) in E; clear S;
      destruct E as (? & -> & ? & ?); width_norm
  | E : read_exact ?n ?r = (Ok _, _), S : stands ?r _ |- _ =>
      apply (read_exact_inv n _ _ _ _ ltac:(width_lia) S) in E; clear S;
      destruct E as (? & -> & ? & ?)
  end.
(** The next read in [H] has the bytes it needs: [L] bounds what is left. *)
Ltac read_have H L :=
  match type of H with
  | match read_unsigned_le ?w ?r with (_, _) => _ end = _ =>
      let v := fresh "a" in let r' := fresh "b" in let rest := fresh "rest" in
      let E := fresh "E" in
      match goal with S : stands r _ |- _ =>
        destruct (read_unsigned_total w r _ S ltac:(cbn [Z.of_nat]; lia))
          as (v & r' & rest & E & -> & ? & ?); rewrite E in H; clear E S; width_norm;
        rewrite length_app, length_le_bytes in L; cbn beta iota in H
      end
  | match read_exact ?n ?r with (_, _) => _ end = _ =>
      let v := fresh "a" in let r' := fresh "b" in let rest := fresh "rest" in
      let E := fresh "E" in
      match goal with S : stands r _ |- _ =>
        destruct (read_exact_total n r _ S ltac:(lia))
          as (v & r' & rest & E & -> & ? & ?); rewrite E in H; clear E S;
        rewrite length_app in L; cbn beta iota in H
      end
  end.
Ltac read_unfold :=
  unfold read_u8, read_u16_le, read_u32_le, read_u64_le in *.
Ltac read_inv H := read_unfold; repeat read_inv1 H.

Ltac guard_inv H :=
  repeat match type of H with
  | (if ?b then Err _ else _) = Ok _ =>
      let G := fresh "G" in destruct b eqn:G; [discriminate H|]
  end;
  bool_prop;
  repeat match goal with
  | G : (_ >? _) = false |- _ => rewrite Z.gtb_ltb in G; apply Z.ltb_ge in G
  end.
Ltac reserved_inv :=
  repeat match goal with
  | H : existsb _ ?bs = false, L : blen ?bs = ?n |- _ =>
      apply (nonzero_reserved bs n L) in H; clear L; subst bs
  end.

Ltac read_run1 :=
  match goal with
  | S : stands ?r _ |- context [read_unsigned_le ?w ?r] =>
      let r' := fresh "r" in
      destruct (read_unsigned_stands w r _ _ S) as (r' & -> & ?);
      [width_norm; (done || solve [eauto with chronos] || width_lia)|]; cbv beta iota
  | S : stands ?r _ |- context [read_exact ?n ?r] =>
      let r' := fresh "r" in
      destruct (read_exact_stands n r _ _ S) as (r' & -> & ?);
      [rewrite ?length_replicate; (done || lia)|]; cbv beta iota
  end.
Ltac read_run := read_unfold; repeat read_run1; rewrite ?replicate_zero_check; cbn [negb orb andb].

Ltac remaining :=
  match goal with
  | S : stands ?r _ |- context [reader_remaining ?r] => rewrite (stands_remaining _ _ S)
  end.
