(* ===== verification/WalCodec.v ===== *)
(** The WAL v1 byte format: include/chronos/wal/types.hpp, src/wal/application.cpp
    and src/wal/codec.cpp.  Segment headers, record frames and application
    envelopes are encoded and decoded; the decoders are proved to invert the
    encoders, to accept only canonical bytes and to reject every one-byte
    corruption of a record. *)
From S2P Require Import Prelude Bytes Crc32c.

(** * Constants and data of types.hpp *)

Definition kWalIdSize : Z := 16.
Definition kSegmentHeaderSize : Z := 64.
Definition kSegmentSizeLimit : Z := 67108864.
Definition kRecordHeaderSize : Z := 40.
Definition kRecordTrailerSize : Z := 4.
Definition kMinimumRecordLength : Z := 48.
Definition kMaximumRecordLength : Z := 16777216.
Definition kMaximumPayloadLength : Z := 16777172.
Definition kSegmentFormatMajor : Z := 1.
Definition kSegmentFormatMinor : Z := 0.
Definition kRecordFormat : Z := 1.
Definition kApplicationEntryRecordType : Z := 1.
Definition kApplicationEnvelopeSize : Z := 16.
Definition kFirstSegmentNumber : Z := 1.
Definition kFirstRecordSequence : Z := 1.
Definition kSegmentMagic : list byte := [x43; x48; x52; x4e; x57; x41; x4c; x00].
Definition kRecordMagic : list byte := [x52; x45; x43; x31].
Definition kSegmentHeaderCrcOffset : Z := 60.
Definition kRecordHeaderCrcOffset : Z := 36.

(** [WalId]: sixteen bytes; [wal_id_wf] is the length its array type fixes. *)
Definition WalId : Type := list byte.
Definition wal_id_wf (id : WalId) : Prop := length id = 16%nat.
Definition WalId_is_valid (id : WalId) : bool := existsb (fun b => bool_decide (b <> x00)) id.

Record PhysicalWalPosition := {
  pos_wal_id : WalId; pos_segment_number : Z; pos_byte_offset : Z }.
Record WalReplayCheckpoint := {
  ckpt_wal_id : WalId; ckpt_record_sequence : Z;
  ckpt_segment_number : Z; ckpt_byte_offset : Z }.
Record SegmentHeader := {
  seg_wal_id : WalId; seg_number : Z; seg_first_record_sequence : Z }.
Record RecordLayout := {
  layout_payload_length : Z; layout_padding_length : Z; layout_total_length : Z }.
Record RecordHeaderInput := {
  input_record_type : Z; input_record_sequence : Z; input_payload_length : Z }.
Record RecordHeader := {
  total_length : Z; record_format : Z; record_type : Z;
  record_flags : Z; record_sequence : Z; payload_length : Z }.
Record DecodedRecord := {
  rec_header : RecordHeader; rec_payload : list byte; rec_crc32c : Z }.
Record ApplicationEnvelope := {
  application_format : Z; application_kind : Z;
  application_flags : Z; application_body : list byte }.

#[global] Instance PhysicalWalPosition_eq_dec : EqDecision PhysicalWalPosition.
Proof. solve_decision. Defined.
#[global] Instance WalReplayCheckpoint_eq_dec : EqDecision WalReplayCheckpoint.
Proof. solve_decision. Defined.
#[global] Instance SegmentHeader_eq_dec : EqDecision SegmentHeader.
Proof. solve_decision. Defined.
#[global] Instance RecordHeader_eq_dec : EqDecision RecordHeader.
Proof. solve_decision. Defined.

(** * application.cpp *)

Definition kApplicationFormatOffset : Z := 0.
Definition kApplicationKindOffset : Z := 4.
Definition kApplicationFlagsOffset : Z := 8.
Definition kApplicationBodyOffset : Z := 16.

Definition encode_application_payload (input : ApplicationEnvelope) : result (list byte) :=
  fail_if (application_format input =? 0) || (application_kind input =? 0)
    with kInvalidArgument;
  fail_if blen (application_body input) >? kMaximumPayloadLength - kApplicationEnvelopeSize
    with kOutOfRange;
  let bytes := replicate (Z.to_nat kApplicationEnvelopeSize + length (application_body input)) x00 in
  let bytes := store_u32_le bytes kApplicationFormatOffset (application_format input) in
  let bytes := store_u32_le bytes kApplicationKindOffset (application_kind input) in
  let bytes := store_u64_le bytes kApplicationFlagsOffset (application_flags input) in
  Ok (copy_at bytes kApplicationBodyOffset (application_body input)).

Definition decode_application_payload (bytes : list byte) : result ApplicationEnvelope :=
  fail_if blen bytes <? kApplicationEnvelopeSize with kCorruption;
  fail_if blen bytes >? kMaximumPayloadLength with kCorruption;
  let format := load_u32_le bytes kApplicationFormatOffset in
  let kind := load_u32_le bytes kApplicationKindOffset in
  fail_if (format =? 0) || (kind =? 0) with kCorruption;
  Ok {| application_format := format; application_kind := kind;
        application_flags := load_u64_le bytes kApplicationFlagsOffset;
        application_body := drop (Z.to_nat kApplicationBodyOffset) bytes |}.

(** * codec.cpp *)

Definition bytes_equal (bytes : list byte) (offset : Z) (expected : list byte) : bool :=
  bool_decide (subspan bytes offset (blen expected) = expected).

Definition calculate_record_layout (payload_size : Z) : result RecordLayout :=
  fail_if (payload_size >? kMaximumPayloadLength) || (payload_size >? max_u32) with kOutOfRange;
  let payload := u32 payload_size in
  let padding := u32 (4 - payload mod 8) mod 8 in
  let total := u64 (kRecordHeaderSize + payload + padding + kRecordTrailerSize) in
  fail_if (total <? kMinimumRecordLength) || (total >? kMaximumRecordLength) with kOutOfRange;
  Ok {| layout_payload_length := payload; layout_padding_length := padding;
        layout_total_length := u32 total |}.

Definition validate_segment_header_for_encoding (h : SegmentHeader) : StatusCode :=
  if negb (WalId_is_valid (seg_wal_id h)) then kInvalidArgument
  else if seg_number h =? 0 then kInvalidArgument
  else if seg_first_record_sequence h =? 0 then kInvalidArgument
  else if (seg_number h =? kFirstSegmentNumber)
          && negb (seg_first_record_sequence h =? kFirstRecordSequence) then kInvalidArgument
  else kOk.

Definition parse_record_header (encoded : list byte) : result RecordHeader :=
  fail_if blen encoded <? kRecordHeaderSize with kOutOfRange;
  let bytes := first encoded kRecordHeaderSize in
  fail_if negb (bytes_equal bytes 8 kRecordMagic) with kCorruption;
  let stored_header_crc := load_u32_le bytes kRecordHeaderCrcOffset in
  fail_if negb (crc32c (first bytes kRecordHeaderCrcOffset) =? stored_header_crc)
    with kCorruption;
  let header := {| total_length := load_u32_le bytes 0;
                   record_format := load_u16_le bytes 12;
                   record_type := load_u16_le bytes 14;
                   record_flags := load_u32_le bytes 16;
                   record_sequence := load_u64_le bytes 24;
                   payload_length := load_u32_le bytes 32 |} in
  fail_if negb (Z.lxor (total_length header) (load_u32_le bytes 4) =? max_u32) with kCorruption;
  fail_if negb (load_u32_le bytes 20 =? kRecordHeaderSize) with kCorruption;
  fail_if record_format header =? 0 with kCorruption;
  fail_if record_type header =? 0 with kCorruption;
  fail_if record_sequence header =? 0 with kCorruption;
  match calculate_record_layout (payload_length header) with
  | Err _ => Err kCorruption
  | Ok layout =>
      fail_if negb (total_length header =? layout_total_length layout) with kCorruption;
      Ok header
  end.

Definition validate_segment_size (segment_size : Z) : StatusCode :=
  if segment_size <? kSegmentHeaderSize then kOutOfRange
  else if segment_size >? kSegmentSizeLimit then kOutOfRange
  else kOk.

Definition validate_physical_wal_position (p : PhysicalWalPosition) : StatusCode :=
  if negb (WalId_is_valid (pos_wal_id p)) then kInvalidArgument
  else if pos_segment_number p =? 0 then kInvalidArgument
  else if (pos_byte_offset p <? kSegmentHeaderSize) || (pos_byte_offset p >? kSegmentSizeLimit)
  then kOutOfRange
  else if negb (pos_byte_offset p mod 8 =? 0) then kInvalidArgument
  else kOk.

Definition advance_physical_wal_position (p : PhysicalWalPosition) (record_length : Z)
  : result PhysicalWalPosition :=
  check! validate_physical_wal_position p;
  fail_if (record_length <? kMinimumRecordLength) || (record_length >? kMaximumRecordLength)
          || negb (record_length mod 8 =? 0) with kInvalidArgument;
  fail_if record_length >? kSegmentSizeLimit - pos_byte_offset p with kOutOfRange;
  Ok {| pos_wal_id := pos_wal_id p; pos_segment_number := pos_segment_number p;
        pos_byte_offset := u64 (pos_byte_offset p + record_length) |}.

Definition encode_segment_header (h : SegmentHeader) : result (list byte) :=
  check! validate_segment_header_for_encoding h;
  let bytes := replicate (Z.to_nat kSegmentHeaderSize) x00 in
  let bytes := copy_at bytes 0 kSegmentMagic in
  let bytes := store_u16_le bytes 8 kSegmentFormatMajor in
  let bytes := store_u16_le bytes 10 kSegmentFormatMinor in
  let bytes := store_u32_le bytes 12 kSegmentHeaderSize in
  let bytes := copy_at bytes 16 (seg_wal_id h) in
  let bytes := store_u64_le bytes 32 (seg_number h) in
  let bytes := store_u64_le bytes 40 (seg_first_record_sequence h) in
  let bytes := store_u64_le bytes 48 kSegmentSizeLimit in
  let bytes := store_u32_le bytes 56 0 in
  Ok (store_u32_le bytes kSegmentHeaderCrcOffset
        (crc32c (first bytes kSegmentHeaderCrcOffset))).

Definition decode_segment_header (encoded : list byte) : result SegmentHeader :=
  fail_if blen encoded <? kSegmentHeaderSize with kOutOfRange;
  let bytes := first encoded kSegmentHeaderSize in
  fail_if negb (bytes_equal bytes 0 kSegmentMagic) with kCorruption;
  let stored_crc := load_u32_le bytes kSegmentHeaderCrcOffset in
  fail_if negb (crc32c (first bytes kSegmentHeaderCrcOffset) =? stored_crc) with kCorruption;
  let major := load_u16_le bytes 8 in
  let minor := load_u16_le bytes 10 in
  fail_if major =? 0 with kCorruption;
  fail_if negb (major =? kSegmentFormatMajor) || negb (minor =? kSegmentFormatMinor)
    with kNotSupported;
  fail_if negb (load_u32_le bytes 12 =? kSegmentHeaderSize) with kCorruption;
  fail_if negb (load_u32_le bytes 56 =? 0) with kNotSupported;
  let header := {| seg_wal_id := subspan bytes 16 kWalIdSize;
                   seg_number := load_u64_le bytes 32;
                   seg_first_record_sequence := load_u64_le bytes 40 |} in
  fail_if negb (WalId_is_valid (seg_wal_id header)) with kCorruption;
  fail_if seg_number header =? 0 with kCorruption;
  fail_if seg_first_record_sequence header =? 0 with kCorruption;
  fail_if (seg_number header =? kFirstSegmentNumber)
          && negb (seg_first_record_sequence header =? kFirstRecordSequence) with kCorruption;
  fail_if negb (load_u64_le bytes 48 =? kSegmentSizeLimit) with kCorruption;
  Ok header.

Definition make_record_header (input : RecordHeaderInput) : result RecordHeader :=
  fail_if input_record_type input =? 0 with kInvalidArgument;
  fail_if input_record_sequence input =? 0 with kInvalidArgument;
  let? layout := calculate_record_layout (input_payload_length input) in
  Ok {| total_length := layout_total_length layout; record_format := kRecordFormat;
        record_type := input_record_type input; record_flags := 0;
        record_sequence := input_record_sequence input;
        payload_length := layout_payload_length layout |}.

Definition encode_record_header (h : RecordHeader) : result (list byte) :=
  fail_if negb (record_format h =? kRecordFormat) with kNotSupported;
  fail_if negb (record_flags h =? 0) with kNotSupported;
  fail_if (record_type h =? 0) || (record_sequence h =? 0) with kInvalidArgument;
  let? layout := calculate_record_layout (payload_length h) in
  fail_if negb (total_length h =? layout_total_length layout) with kInvalidArgument;
  let bytes := replicate (Z.to_nat kRecordHeaderSize) x00 in
  let bytes := store_u32_le bytes 0 (total_length h) in
  let bytes := store_u32_le bytes 4 (Z.lxor (total_length h) max_u32) in
  let bytes := copy_at bytes 8 kRecordMagic in
  let bytes := store_u16_le bytes 12 (record_format h) in
  let bytes := store_u16_le bytes 14 (record_type h) in
  let bytes := store_u32_le bytes 16 (record_flags h) in
  let bytes := store_u32_le bytes 20 kRecordHeaderSize in
  let bytes := store_u64_le bytes 24 (record_sequence h) in
  let bytes := store_u32_le bytes 32 (payload_length h) in
  Ok (store_u32_le bytes kRecordHeaderCrcOffset
        (crc32c (first bytes kRecordHeaderCrcOffset))).

Definition decode_record_header_for_physical_scan (encoded : list byte) : result RecordHeader :=
  parse_record_header encoded.

Definition decode_record_header (encoded : list byte) : result RecordHeader :=
  match decode_record_header_for_physical_scan encoded with
  | Err s => Err s
  | Ok header =>
      fail_if negb (record_flags header =? 0) with kNotSupported;
      Ok header
  end.

(** [encode_record]: the returned size and the destination afterwards.  The
    payload is copied before anything else is written, so a payload that aliases
    the destination contributes the bytes it had at the call. *)
Definition encode_record (h : RecordHeader) (payload destination : list byte)
  : result Z * list byte :=
  match encode_record_header h with
  | Err s => (make_unexpected s, destination)
  | Ok encoded_header =>
      if negb (blen payload =? payload_length h) then (Err kInvalidArgument, destination)
      else if (record_type h =? kApplicationEntryRecordType)
              && (match decode_application_payload payload with Ok _ => false | Err _ => true end)
      then (Err kInvalidArgument, destination)
      else if blen destination <? total_length h then (Err kOutOfRange, destination)
      else
        match calculate_record_layout (blen payload) with
        | Err s => (make_unexpected s, destination)
        | Ok layout =>
            let dst := copy_at destination kRecordHeaderSize payload in
            let dst := copy_at dst 0 encoded_header in
            let padding_start := kRecordHeaderSize + blen payload in
            let dst := copy_at dst padding_start
                         (replicate (Z.to_nat (layout_padding_length layout)) x00) in
            let trailer_offset := total_length h - kRecordTrailerSize in
            let checksum := crc32c (first dst trailer_offset) in
            (Ok (total_length h), store_u32_le dst trailer_offset checksum)
        end
  end.

Definition decode_record (encoded : list byte) : result DecodedRecord :=
  let? header := parse_record_header encoded in
  if blen encoded <? total_length header then
    fail_if negb (record_flags header =? 0) with kNotSupported;
    Err kOutOfRange
  else
  match calculate_record_layout (payload_length header) with
  | Err _ => Err kCorruption
  | Ok layout =>
      let record := first encoded (total_length header) in
      let payload := subspan record kRecordHeaderSize (payload_length header) in
      let padding_start := kRecordHeaderSize + payload_length header in
      let padding := subspan record padding_start (layout_padding_length layout) in
      fail_if existsb (fun b => bool_decide (b <> x00)) padding with kCorruption;
      let trailer_offset := total_length header - kRecordTrailerSize in
      let stored_crc := load_u32_le record trailer_offset in
      fail_if negb (crc32c (first record trailer_offset) =? stored_crc) with kCorruption;
      fail_if negb (record_flags header =? 0) with kNotSupported;
      if record_type header =? kApplicationEntryRecordType then
        let? _ := decode_application_payload payload in
        Ok {| rec_header := header; rec_payload := payload; rec_crc32c := stored_crc |}
      else Ok {| rec_header := header; rec_payload := payload; rec_crc32c := stored_crc |}
  end.

(** * Record layout *)

(** Padding to the next multiple of eight of the frame, and the frame length. *)
Definition pad (n : Z) : Z := (4 - n) mod 8.
Definition frame_length (n : Z) : Z := 44 + n + pad n.

Lemma calculate_record_layout_spec n :
  0 <= n ->
  calculate_record_layout n =
    if n >? kMaximumPayloadLength then Err kOutOfRange
    else Ok {| layout_payload_length := n; layout_padding_length := pad n;
               layout_total_length := frame_length n |}.
Proof.
  intros Hn. unfold calculate_record_layout, kMaximumPayloadLength.
  destruct (Z.gtb_spec n 16777172); [done|].
  destruct (Z.gtb_spec n max_u32); [lia|]. cbn [orb].
  rewrite (wrap_small 32 n) by width_lia.
  assert (Hp : u32 (4 - n mod 8) mod 8 = pad n) by (unfold pad; width_lia).
  rewrite Hp. unfold kRecordHeaderSize, kRecordTrailerSize, kMinimumRecordLength,
    kMaximumRecordLength, frame_length.
  assert (Hb : 48 <= 44 + n + pad n <= 16777216) by (unfold pad; width_lia).
  rewrite (wrap_small 64) by width_lia.
  replace (40 + n + pad n + 4) with (44 + n + pad n) by lia.
  rewrite (wrap_small 32) by width_lia.
  destruct (Z.ltb_spec (44 + n + pad n) 48); [lia|].
  destruct (Z.gtb_spec (44 + n + pad n) 16777216); [lia|]. done.
Qed.

Lemma frame_length_bounds n :
  0 <= n <= kMaximumPayloadLength ->
  48 <= frame_length n <= kMaximumRecordLength /\ frame_length n mod 8 = 0 /\
  40 + n + 4 <= frame_length n < 40 + n + 12.
Proof.
  unfold frame_length, pad, kMaximumPayloadLength, kMaximumRecordLength. intros.
  width_lia.
Qed.

Lemma lxor_max_complement a b : Z.lxor a b = max_u32 <-> b = Z.lxor a max_u32.
Proof.
  split; intros E.
  - by rewrite <- E, <- Z.lxor_assoc, Z.lxor_nilpotent, Z.lxor_0_l.
  - by rewrite E, <- Z.lxor_assoc, Z.lxor_nilpotent, Z.lxor_0_l.
Qed.

(** * Record headers *)

Record record_header_wf (h : RecordHeader) : Prop := {
  rhw_format : in_width 16 (record_format h); rhw_format0 : record_format h <> 0;
  rhw_type : in_width 16 (record_type h); rhw_type0 : record_type h <> 0;
  rhw_flags : in_width 32 (record_flags h);
  rhw_sequence : in_width 64 (record_sequence h); rhw_sequence0 : record_sequence h <> 0;
  rhw_payload : 0 <= payload_length h <= kMaximumPayloadLength;
  rhw_total : total_length h = frame_length (payload_length h) }.

Lemma total_in_width h : record_header_wf h -> in_width 32 (total_length h).
Proof.
  intros [? ? ? ? ? ? ? Hp ->]. pose proof (frame_length_bounds _ Hp).
  unfold kMaximumRecordLength in *. width_lia.
Qed.

(** The canonical forty bytes of a header. *)
Definition record_header_prefix (h : RecordHeader) : list byte :=
  le_bytes 4 (total_length h) ++ le_bytes 4 (Z.lxor (total_length h) max_u32)
  ++ kRecordMagic ++ le_bytes 2 (record_format h) ++ le_bytes 2 (record_type h)
  ++ le_bytes 4 (record_flags h) ++ le_bytes 4 kRecordHeaderSize
  ++ le_bytes 8 (record_sequence h) ++ le_bytes 4 (payload_length h).
Definition record_header_bytes (h : RecordHeader) : list byte :=
  record_header_prefix h ++ le_bytes 4 (crc32c (record_header_prefix h)).

Lemma length_record_header_prefix h : length (record_header_prefix h) = 36%nat.
Proof. reflexivity. Qed.
Lemma length_record_header_bytes h : length (record_header_bytes h) = 40%nat.
Proof. reflexivity. Qed.

Lemma store_crc prefix n off c :
  off = blen prefix ->
  store_u32_le (prefix ++ replicate (4 + n) x00) off c = prefix ++ le_bytes 4 c ++ replicate n x00.
Proof.
  intros ->. rewrite store_le_spec by (rewrite ?length_app, ?length_replicate; lia).
  unfold copy_at. rewrite Nat2Z.id, take_app_length, length_le_bytes.
  by rewrite drop_app_add.
Qed.

Lemma encode_record_header_ok h :
  record_header_wf h -> record_format h = kRecordFormat -> record_flags h = 0 ->
  encode_record_header h = Ok (record_header_bytes h).
Proof.
  intros Hwf Hf Hg. unfold encode_record_header.
  destruct Hwf as [_ _ _ Ht _ _ Hs Hp Hl].
  rewrite Hf, Hg at 1. rewrite (proj2 (Z.eqb_neq _ _) Ht), (proj2 (Z.eqb_neq _ _) Hs).
  cbn [negb orb Z.eqb kRecordFormat Pos.eqb].
  rewrite calculate_record_layout_spec by lia.
  destruct (Z.gtb_spec (payload_length h) kMaximumPayloadLength); [lia|].
  cbn [rbind layout_total_length]. rewrite Hl, Z.eqb_refl, <- Hl. cbn [negb].
  set (b := store_u32_le _ 32 _).
  assert (Hb : b = record_header_prefix h ++ replicate (4 + 0) x00).
  { subst b. unfold record_header_prefix. rewrite !le_bytes_2, !le_bytes_4, !le_bytes_8.
    reflexivity. }
  cbv zeta. rewrite Hb, first_app, store_crc by done. by rewrite app_nil_r.
Qed.

Lemma encode_record_header_inv h bs :
  encode_record_header h = Ok bs ->
  record_format h = kRecordFormat /\ record_flags h = 0 /\ record_type h <> 0 /\
  record_sequence h <> 0 /\
  (0 <= payload_length h ->
   payload_length h <= kMaximumPayloadLength /\ total_length h = frame_length (payload_length h)).
Proof.
  unfold encode_record_header. intros H. run_guards H. bool_prop.
  split_and!; try done. intros Hp.
  match goal with E : calculate_record_layout _ = Ok _ |- _ =>
    rewrite calculate_record_layout_spec in E by done;
    destruct (Z.gtb_spec (payload_length h) kMaximumPayloadLength); [done|];
    injection E as <- end.
  cbn in *. split; done.
Qed.

(** Cut a field out of an explicit concatenation of fields by computation. *)
Ltac cut_field :=
  apply load_field; [lia | cbn; lia | | reflexivity].

Lemma parse_record_header_complete h rest :
  record_header_wf h -> parse_record_header (record_header_bytes h ++ rest) = Ok h.
Proof.
  intros Hwf. pose proof (total_in_width h Hwf) as Htot.
  destruct Hwf as [Hf Hf0 Ht Ht0 Hg Hs Hs0 Hp Hl].
  unfold parse_record_header, kRecordHeaderSize.
  destruct (Z.ltb_spec (blen (record_header_bytes h ++ rest)) 40) as [Hlt|_].
  { rewrite length_app, length_record_header_bytes in Hlt. lia. }
  rewrite (first_app (record_header_bytes h)) by reflexivity.
  unfold bytes_equal. rewrite bool_decide_eq_true_2 by reflexivity. cbn [negb].
  assert (Hcrc : load_u32_le (record_header_bytes h) kRecordHeaderCrcOffset
                 = crc32c (record_header_prefix h)).
  { unfold kRecordHeaderCrcOffset. cut_field. apply crc32c_range. }
  rewrite Hcrc. unfold record_header_bytes at 1.
  rewrite (first_app (record_header_prefix h)), Z.eqb_refl by reflexivity. cbn [negb].
  assert (E0 : load_u32_le (record_header_bytes h) 0 = total_length h) by (cut_field; done).
  assert (E4 : load_u32_le (record_header_bytes h) 4 = Z.lxor (total_length h) max_u32)
    by (cut_field; apply in_width_lxor; [lia | done | width_lia]).
  assert (E12 : load_u16_le (record_header_bytes h) 12 = record_format h) by (cut_field; done).
  assert (E14 : load_u16_le (record_header_bytes h) 14 = record_type h) by (cut_field; done).
  assert (E16 : load_u32_le (record_header_bytes h) 16 = record_flags h) by (cut_field; done).
  assert (E20 : load_u32_le (record_header_bytes h) 20 = 40)
    by (apply (load_field 4); [lia | cbn; lia | width_lia | reflexivity]).
  assert (E24 : load_u64_le (record_header_bytes h) 24 = record_sequence h) by (cut_field; done).
  assert (E32 : load_u32_le (record_header_bytes h) 32 = payload_length h).
  { cut_field. unfold kMaximumPayloadLength in Hp. width_lia. }
  rewrite E0, E4, E12, E14, E16, E20, E24, E32. clear E0 E4 E12 E14 E16 E20 E24 E32.
  cbn [total_length record_format record_type record_sequence payload_length].
  rewrite (proj2 (lxor_max_complement _ _)) by done.
  rewrite (proj2 (Z.eqb_neq _ 0) Hf0), (proj2 (Z.eqb_neq _ 0) Ht0),
    (proj2 (Z.eqb_neq _ 0) Hs0), calculate_record_layout_spec by lia.
  destruct (Z.gtb_spec (payload_length h) kMaximumPayloadLength); [lia|].
  cbn [layout_total_length]. rewrite Hl, !Z.eqb_refl, <- Hl. destruct h; done.
Qed.

(** Forty bytes are their ten fields. *)
Lemma record_header_fields bs :
  blen bs = 40 ->
  bs = (le_bytes 4 (load_u32_le bs 0) ++ le_bytes 4 (load_u32_le bs 4)
        ++ subspan bs 8 4 ++ le_bytes 2 (load_u16_le bs 12) ++ le_bytes 2 (load_u16_le bs 14)
        ++ le_bytes 4 (load_u32_le bs 16) ++ le_bytes 4 (load_u32_le bs 20)
        ++ le_bytes 8 (load_u64_le bs 24) ++ le_bytes 4 (load_u32_le bs 32))
       ++ le_bytes 4 (load_u32_le bs 36).
Proof.
  intros Hl. rewrite <- !field_of_load by (cbn; lia). cbn [Z.of_nat Pos.of_succ_nat Pos.succ].
  rewrite <- !app_assoc, <- !subspan_split by lia. symmetry. by apply subspan_all.
Qed.

Lemma parse_record_header_sound encoded h :
  parse_record_header encoded = Ok h ->
  record_header_wf h /\ exists rest, encoded = record_header_bytes h ++ rest.
Proof.
  unfold parse_record_header, kRecordHeaderSize, kRecordHeaderCrcOffset. intros H.
  destruct (Z.ltb_spec (blen encoded) 40) as [|Hlen]; [done|].
  set (bs := first encoded 40) in *.
  assert (Hbs : blen bs = 40) by (unfold bs, first; rewrite length_take; lia).
  assert (Henc : encoded = bs ++ drop 40 encoded) by (symmetry; apply take_drop).
  clearbody bs.
  destruct (calculate_record_layout _) as [layout|] eqn:El in H; run_guards H; bool_prop.
  injection H as <-. cbn [total_length record_format record_type record_flags
    record_sequence payload_length] in *.
  pose proof (load_in_width 4 bs 32 ltac:(lia) ltac:(lia)) as Hp.
  rewrite calculate_record_layout_spec in El by apply Hp.
  destruct (Z.gtb_spec (load_u32_le bs 32) kMaximumPayloadLength) as [|Hmax]; [done|].
  injection El as <-. cbn [layout_total_length] in *.
  split.
  { pose proof (load_in_width 2 bs 12 ltac:(lia) ltac:(lia)).
    pose proof (load_in_width 2 bs 14 ltac:(lia) ltac:(lia)).
    pose proof (load_in_width 4 bs 16 ltac:(lia) ltac:(lia)).
    pose proof (load_in_width 8 bs 24 ltac:(lia) ltac:(lia)).
    split; cbn [record_format record_type record_flags record_sequence payload_length
      total_length]; try assumption. split; [apply Hp|lia]. }
  exists (drop 40 encoded). rewrite Henc at 1. f_equal.
  pose proof (record_header_fields bs Hbs) as Hf.
  assert (Em : subspan bs 8 4 = kRecordMagic) by by apply bool_decide_eq_true in E.
  apply lxor_max_complement in E1.
  rewrite Em, E1, E2, <- E0 in Hf.
  set (h := {| total_length := _ |}).
  change (bs = record_header_prefix h ++ le_bytes 4 (crc32c (first bs 36))) in Hf.
  assert (Hpre : first bs 36 = record_header_prefix h)
    by (rewrite Hf; apply first_app; reflexivity).
  rewrite Hpre in Hf. exact Hf.
Qed.

Lemma record_header_bytes_seal h : record_header_bytes h = with_crc (record_header_prefix h).
Proof. reflexivity. Qed.

(** * Records *)

(** The canonical bytes of a record. *)
Definition record_body (h : RecordHeader) (payload : list byte) : list byte :=
  record_header_bytes h ++ payload ++ replicate (Z.to_nat (pad (blen payload))) x00.
Definition record_bytes (h : RecordHeader) (payload : list byte) : list byte :=
  with_crc (record_body h payload).

(** A payload fits its header, and is an application envelope where the record
    type says so. *)
Definition payload_ok (h : RecordHeader) (payload : list byte) : Prop :=
  blen payload = payload_length h /\
  (record_type h = kApplicationEntryRecordType ->
   exists env, decode_application_payload payload = Ok env).

(** A record the decoder accepts. *)
Definition record_ok (h : RecordHeader) (payload : list byte) : Prop :=
  record_header_wf h /\ record_flags h = 0 /\ payload_ok h payload.

Lemma pad_range n : 0 <= pad n < 8.
Proof. unfold pad. apply Z.mod_pos_bound. lia. Qed.

Lemma length_record_body h payload :
  blen (record_body h payload) = frame_length (blen payload) - 4.
Proof.
  unfold record_body, frame_length. pose proof (pad_range (blen payload)).
  rewrite !length_app, length_record_header_bytes, length_replicate. lia.
Qed.

Lemma length_record_bytes h payload :
  blen (record_bytes h payload) = frame_length (blen payload).
Proof.
  unfold record_bytes. rewrite length_seal. pose proof (length_record_body h payload). lia.
Qed.

Lemma length_record_ok h payload :
  record_ok h payload -> blen (record_bytes h payload) = total_length h.
Proof.
  intros (Hwf & _ & Hp & _). by rewrite length_record_bytes, Hp, (rhw_total h Hwf).
Qed.

(** [encode_record] writes the canonical bytes in front of the destination. *)
Lemma encode_record_ok h payload dst :
  record_ok h payload -> record_format h = kRecordFormat ->
  total_length h <= blen dst ->
  encode_record h payload dst =
    (Ok (total_length h), record_bytes h payload ++ drop (Z.to_nat (total_length h)) dst).
Proof.
  intros Hok Hf Hroom. pose proof (length_record_ok _ _ Hok) as Hlen.
  destruct Hok as (Hwf & Hg & Hp & Ha).
  unfold encode_record. rewrite encode_record_header_ok by done.
  rewrite Hp, Z.eqb_refl. cbn [negb].
  rewrite (proj2 (andb_false_iff _ _)); cycle 1.
  { destruct (Z.eqb_spec (record_type h) kApplicationEntryRecordType) as [E|]; [right|by left].
    by destruct (Ha E) as [env ->]. }
  destruct (Z.ltb_spec (blen dst) (total_length h)); [lia|].
  destruct (rhw_payload h Hwf) as [Hp0 Hpm].
  rewrite calculate_record_layout_spec by done.
  destruct (Z.gtb_spec (payload_length h) kMaximumPayloadLength); [lia|]. cbn [layout_padding_length].
  set (t := total_length h) in *. rewrite <- Hp. rewrite length_record_bytes in Hlen.
  pose proof (pad_range (blen payload)) as Hpad. pose proof (length_record_body h payload) as Hbl.
  destruct (cut3 dst 40 (length payload) (Z.to_nat (pad (blen payload)) + 4))
    as (d1 & d2 & d3 & Hd & L1 & L2 & L3); [unfold frame_length in *; lia|].
  destruct (cut3 d3 (Z.to_nat (pad (blen payload))) 4 0) as (p1 & p2 & p3 & Hd3 & M1 & M2 & M3); [lia|].
  rewrite (nil_length_inv _ M3), drop_ge, !app_nil_r in Hd3 by lia.
  replace (40 + length payload + (Z.to_nat (pad (blen payload)) + 4))%nat with (Z.to_nat t) in Hd
    by (unfold frame_length in *; lia).
  set (rest := drop (Z.to_nat t) dst) in *. rewrite Hd, Hd3.
  cbv zeta. unfold kRecordHeaderSize, kRecordTrailerSize.
  rewrite copy_at_middle by (rewrite ?L1; lia).
  rewrite copy_at_front by (rewrite ?length_record_header_bytes; done).
  rewrite <- app_assoc, (app_assoc (record_header_bytes h)).
  rewrite copy_at_middle by (rewrite ?length_app, ?length_record_header_bytes, ?length_replicate; lia).
  rewrite <- !app_assoc.
  rewrite (app_assoc payload), (app_assoc (record_header_bytes h)). fold (record_body h payload).
  rewrite first_app by lia. f_equal.
  rewrite store_le_spec by (rewrite ?length_app, ?M2; lia).
  rewrite copy_at_middle by (rewrite ?length_le_bytes; lia).
  unfold record_bytes, with_crc. by rewrite <- app_assoc.
Qed.

Lemma parse_record_bytes h payload rest :
  record_header_wf h -> parse_record_header (record_bytes h payload ++ rest) = Ok h.
Proof.
  intros Hwf. unfold record_bytes, with_crc, record_body. rewrite <- !app_assoc.
  by apply parse_record_header_complete.
Qed.

Lemma decode_record_complete h payload rest :
  record_ok h payload ->
  decode_record (record_bytes h payload ++ rest) =
    Ok {| rec_header := h; rec_payload := payload;
          rec_crc32c := crc32c (record_body h payload) |}.
Proof.
  intros Hok. pose proof (length_record_ok _ _ Hok) as Hlen.
  destruct Hok as (Hwf & Hg & Hp & Ha). unfold decode_record.
  rewrite parse_record_bytes by done. cbn [rbind].
  destruct (Z.ltb_spec (blen (record_bytes h payload ++ rest)) (total_length h)) as [Hlt|_].
  { rewrite length_app in Hlt. lia. }
  destruct (rhw_payload h Hwf) as [Hp0 Hpm].
  rewrite calculate_record_layout_spec by done.
  destruct (Z.gtb_spec (payload_length h) kMaximumPayloadLength); [lia|].
  cbn [layout_padding_length]. rewrite first_app by lia.
  pose proof (length_record_body h payload) as Hbl. pose proof (pad_range (blen payload)).
  rewrite length_record_bytes in Hlen.
  assert (Htr : total_length h - kRecordTrailerSize = blen (record_body h payload))
    by (unfold kRecordTrailerSize; lia).
  rewrite Htr. unfold record_bytes. rewrite load_seal by done.
  unfold with_crc. rewrite first_app, Z.eqb_refl by done. rewrite <- Hp.
  assert (Epay : subspan (record_body h payload ++ le_bytes 4 (crc32c (record_body h payload)))
                   kRecordHeaderSize (blen payload) = payload).
  { unfold record_body at 1. rewrite <- !app_assoc.
    apply subspan_app_l; [by rewrite length_record_header_bytes | done]. }
  rewrite Epay. unfold record_body at 1.
  rewrite <- !app_assoc, (app_assoc (record_header_bytes h)), (subspan_app_l _ (replicate _ _));
    [| rewrite length_app, length_record_header_bytes; unfold kRecordHeaderSize; lia
     | rewrite length_replicate; lia].
  rewrite replicate_zero_check, Hg. cbn [negb Z.eqb].
  destruct (Z.eqb_spec (record_type h) kApplicationEntryRecordType) as [E|]; [|done].
  by destruct (Ha E) as [env ->].
Qed.

(** The frame of a record whose header has been accepted. *)
Lemma record_frame_split h record :
  record_header_wf h -> blen record = total_length h ->
  (exists tl, record = record_header_bytes h ++ tl) ->
  first record (total_length h - 4) =
    record_header_bytes h ++ subspan record 40 (payload_length h)
    ++ subspan record (40 + payload_length h) (pad (payload_length h)).
Proof.
  intros Hwf Hl [tl ->]. pose proof (rhw_payload h Hwf). pose proof (pad_range (payload_length h)).
  rewrite (rhw_total h Hwf). unfold frame_length.
  change (first ?l ?n) with (subspan l 0 n).
  replace (44 + payload_length h + pad (payload_length h) - 4)
    with (40 + (payload_length h + pad (payload_length h))) by lia.
  rewrite !subspan_split by lia. f_equal.
Qed.

Lemma decode_record_sound encoded r :
  decode_record encoded = Ok r ->
  record_ok (rec_header r) (rec_payload r) /\
  rec_crc32c r = crc32c (record_body (rec_header r) (rec_payload r)) /\
  exists rest, encoded = record_bytes (rec_header r) (rec_payload r) ++ rest.
Proof.
  unfold decode_record. intros H. apply rbind_Ok in H as (h & Hh & H).
  apply parse_record_header_sound in Hh as [Hwf [tail Ht]].
  destruct (Z.ltb_spec (blen encoded) (total_length h)) as [|Hlen]; [by run_guards H|].
  pose proof (rhw_payload h Hwf) as [Hp0 Hpm]. pose proof (frame_length_bounds _ (conj Hp0 Hpm)) as Hfb.
  pose proof (rhw_total h Hwf) as Htot. pose proof (pad_range (payload_length h)) as Hpad.
  rewrite calculate_record_layout_spec in H by done.
  destruct (Z.gtb_spec (payload_length h) kMaximumPayloadLength); [lia|]. cbn [layout_padding_length] in H.
  set (record := first encoded (total_length h)) in *.
  assert (Hrl : blen record = total_length h) by (unfold record, first; rewrite length_take; lia).
  assert (Hrt : exists tl, record = record_header_bytes h ++ tl).
  { exists (take (Z.to_nat (total_length h) - 40) tail). unfold record, first.
    rewrite Ht, take_app_ge, length_record_header_bytes; [done|]. rewrite length_record_header_bytes. lia. }
  pose proof (record_frame_split h record Hwf Hrl Hrt) as Hbody.
  assert (Henc : encoded = record ++ drop (Z.to_nat (total_length h)) encoded)
    by (symmetry; apply take_drop). clearbody record.
  unfold kRecordTrailerSize, kRecordHeaderSize in H.
  set (payload := subspan record 40 (payload_length h)) in *.
  assert (Hpl : blen payload = payload_length h)
    by (unfold payload; rewrite length_subspan; unfold frame_length in *; lia).
  run_guards H; bool_prop;
    match goal with E : existsb _ _ = false |- _ => apply zero_check_replicate in E;
      rewrite length_subspan in E by (unfold frame_length in *; lia); rewrite E, <- Hpl in Hbody end;
    fold (record_body h payload) in Hbody;
    match goal with E : crc32c _ = _ |- _ => rename E into Hcrc end;
    pose proof (proj1 (crc_check_seal record (total_length h - 4) ltac:(lia) ltac:(lia)) Hcrc) as Hseal; rewrite Hbody in Hseal, Hcrc;
    injection H as <-; cbn [rec_header rec_payload rec_crc32c];
    (split; [split; [exact Hwf|split; [assumption|split; [exact Hpl|]]] |
       split; [by symmetry | eexists; rewrite Henc at 1; f_equal; exact Hseal]]);
    eauto; congruence.
Qed.

(** ** One changed byte *)

Lemma parse_header_corrupted h i a b rest :
  record_header_wf h -> record_header_bytes h !! i = Some a -> a <> b ->
  parse_record_header (<[i := b]> (record_header_bytes h) ++ rest) = Err kCorruption.
Proof.
  intros Hwf Hi Hne. unfold parse_record_header, kRecordHeaderSize, kRecordHeaderCrcOffset.
  set (bs := <[i := b]> (record_header_bytes h)).
  assert (Hbs : blen bs = 40) by (unfold bs; rewrite length_insert, length_record_header_bytes; done).
  destruct (Z.ltb_spec (blen (bs ++ rest)) 40) as [Hlt|_]; [rewrite length_app in Hlt; lia|].
  rewrite first_app by lia. destruct (bytes_equal bs 8 kRecordMagic); [|done]. cbn [negb].
  destruct (Z.eqb_spec (crc32c (first bs 36)) (load_u32_le bs 36)) as [E|]; [|done].
  apply (crc_check_seal bs 36 ltac:(lia) ltac:(lia)) in E. exfalso.
  unfold bs in E at 1. rewrite record_header_bytes_seal in E, Hi.
  exact (seal_one_byte _ _ _ _ _ Hi Hne E).
Qed.

Lemma decode_frame_corrupted h payload i a b rest :
  record_ok h payload -> (40 <= i)%nat -> record_bytes h payload !! i = Some a -> a <> b ->
  decode_record (<[i := b]> (record_bytes h payload) ++ rest) = Err kCorruption.
Proof.
  intros Hok Hi40 Hi Hne. pose proof (length_record_ok _ _ Hok) as Hlen.
  destruct Hok as (Hwf & Hg & Hp & Ha). unfold decode_record.
  set (bs := <[i := b]> (record_bytes h payload)).
  assert (Hbs : blen bs = total_length h) by (unfold bs; by rewrite length_insert).
  assert (Hparse : parse_record_header (bs ++ rest) = Ok h).
  { unfold bs, record_bytes, with_crc, record_body. rewrite <- !app_assoc, insert_app_r_alt, <- app_assoc
      by (rewrite length_record_header_bytes; lia). by apply parse_record_header_complete. }
  rewrite Hparse. cbn [rbind].
  destruct (Z.ltb_spec (blen (bs ++ rest)) (total_length h)) as [Hlt|_];
    [rewrite length_app in Hlt; lia|].
  pose proof (rhw_payload h Hwf) as [Hp0 Hpm].
  pose proof (frame_length_bounds _ (conj Hp0 Hpm)). pose proof (rhw_total h Hwf).
  rewrite calculate_record_layout_spec by done.
  destruct (Z.gtb_spec (payload_length h) kMaximumPayloadLength); [lia|].
  rewrite first_app by lia. destruct (existsb _ _); [done|]. unfold kRecordTrailerSize.
  destruct (Z.eqb_spec (crc32c (first bs (total_length h - 4))) (load_u32_le bs (total_length h - 4)))
    as [E|]; [|done].
  apply (crc_check_seal bs (total_length h - 4) ltac:(lia) ltac:(lia)) in E. exfalso.
  unfold bs in E at 1. exact (seal_one_byte _ _ _ _ _ Hi Hne E).
Qed.

(** * Record claims *)

(**  Round trip of records: a well-formed record of the current format that
    fits is encoded into exactly its length, leaves the rest of the destination
    alone, and decodes back to the same header and payload, whatever follows. *)
Theorem record_roundtrip (h : RecordHeader) (payload dst : list byte)
  (Hok : record_ok h payload) (Hformat : record_format h = kRecordFormat)
  (Hroom : total_length h <= blen dst) :
  exists encoded,
    encode_record h payload dst =
      (Ok (total_length h), encoded ++ drop (Z.to_nat (total_length h)) dst) /\
    blen encoded = total_length h /\
    forall rest, exists crc, decode_record (encoded ++ rest) =
      Ok {| rec_header := h; rec_payload := payload; rec_crc32c := crc |}.
Proof.
  exists (record_bytes h payload). split; [by apply encode_record_ok|].
  split; [by apply length_record_ok|]. intros rest. eexists. by apply decode_record_complete.
Qed.

(** Canonicity of records: the decoder accepts a byte string exactly when it
    starts with the canonical frame (header, payload, zero padding, both
    checksums) of the record it returns, and that record is well formed. *)
Theorem decode_record_iff (encoded : list byte) (r : DecodedRecord) :
  decode_record encoded = Ok r <->
  record_ok (rec_header r) (rec_payload r) /\
  rec_crc32c r = crc32c (record_body (rec_header r) (rec_payload r)) /\
  exists rest, encoded = record_bytes (rec_header r) (rec_payload r) ++ rest.
Proof.
  split; [apply decode_record_sound|].
  intros (Hok & Hc & [rest ->]). rewrite decode_record_complete by done.
  destruct r as [h p c]. cbn in *. by rewrite Hc.
Qed.

(** Any one-byte corruption of a valid record, wherever it falls, is
    reported as corruption and never as another record. *)
Theorem record_corruption_detected (h : RecordHeader) (payload : list byte)
  (i : nat) (old new : byte) (rest : list byte)
  (Hok : record_ok h payload) (Hold : record_bytes h payload !! i = Some old)
  (Hne : old <> new) :
  decode_record (<[i := new]> (record_bytes h payload) ++ rest) = Err kCorruption.
Proof.
  destruct (decide (i < 40)%nat) as [Hlt|]; [|by eapply decode_frame_corrupted; eauto; lia].
  pose proof (proj1 Hok) as Hwf.
  unfold decode_record, record_bytes, with_crc, record_body in *.
  assert (Hh : (i < length (record_header_bytes h))%nat) by (by rewrite length_record_header_bytes).
  rewrite <- !app_assoc, insert_app_l, <- app_assoc by done.
  rewrite <- !app_assoc, lookup_app_l in Hold by done.
  by erewrite parse_header_corrupted by eauto.
Qed.

(** ** Segment headers *)

Record segment_header_wf (h : SegmentHeader) : Prop := {
  shw_id : wal_id_wf (seg_wal_id h); shw_valid : WalId_is_valid (seg_wal_id h) = true;
  shw_number : in_width 64 (seg_number h); shw_number0 : seg_number h <> 0;
  shw_sequence : in_width 64 (seg_first_record_sequence h);
  shw_sequence0 : seg_first_record_sequence h <> 0;
  shw_first : seg_number h = kFirstSegmentNumber ->
              seg_first_record_sequence h = kFirstRecordSequence }.

Definition segment_header_prefix (h : SegmentHeader) : list byte :=
  kSegmentMagic ++ le_bytes 2 kSegmentFormatMajor ++ le_bytes 2 kSegmentFormatMinor
  ++ le_bytes 4 kSegmentHeaderSize ++ seg_wal_id h ++ le_bytes 8 (seg_number h)
  ++ le_bytes 8 (seg_first_record_sequence h) ++ le_bytes 8 kSegmentSizeLimit ++ le_bytes 4 0.
Definition segment_header_bytes (h : SegmentHeader) : list byte := with_crc (segment_header_prefix h).

Lemma length_segment_header_bytes h :
  wal_id_wf (seg_wal_id h) -> blen (segment_header_bytes h) = 64.
Proof.
  intros Hid. unfold segment_header_bytes. rewrite length_seal. unfold segment_header_prefix.
  rewrite !length_app, !length_le_bytes, Hid. reflexivity.
Qed.

Lemma wal_id_cases (id : WalId) :
  wal_id_wf id -> exists b0 b1 b2 b3 b4 b5 b6 b7 b8 b9 b10 b11 b12 b13 b14 b15,
    id = [b0; b1; b2; b3; b4; b5; b6; b7; b8; b9; b10; b11; b12; b13; b14; b15].
Proof.
  unfold wal_id_wf. intros H. do 16 (destruct id as [|? id]; [discriminate H|]).
  destruct id; [|discriminate H]. repeat eexists.
Qed.

Lemma encode_segment_header_ok h :
  segment_header_wf h -> encode_segment_header h = Ok (segment_header_bytes h).
Proof.
  intros [Hid Hv _ Hn _ Hs Hf]. unfold encode_segment_header, check.
  replace (is_ok _) with true; cycle 1.
  { unfold validate_segment_header_for_encoding. rewrite Hv. cbn [negb].
    rewrite (proj2 (Z.eqb_neq _ _) Hn), (proj2 (Z.eqb_neq _ _) Hs).
    destruct (Z.eqb_spec (seg_number h) kFirstSegmentNumber) as [E|]; [|done].
    by rewrite (Hf E). }
  set (b := store_u32_le _ 56 0).
  assert (Hb : b = segment_header_prefix h ++ replicate (4 + 0) x00).
  { subst b. unfold segment_header_prefix. rewrite !le_bytes_2, !le_bytes_4, !le_bytes_8.
    destruct (wal_id_cases _ Hid) as (?&?&?&?&?&?&?&?&?&?&?&?&?&?&?&?&->). reflexivity. }
  assert (Hl : blen (segment_header_prefix h) = 60).
  { unfold segment_header_prefix. rewrite !length_app, !length_le_bytes, Hid. reflexivity. }
  cbv zeta. rewrite Hb. rewrite first_app, store_crc by (rewrite Hl; done).
  by rewrite app_nil_r.
Qed.

(** The fields of sixty-four bytes. *)
Lemma segment_header_fields bs :
  blen bs = 64 ->
  first bs 60 = subspan bs 0 8 ++ le_bytes 2 (load_u16_le bs 8) ++ le_bytes 2 (load_u16_le bs 10)
        ++ le_bytes 4 (load_u32_le bs 12) ++ subspan bs 16 16 ++ le_bytes 8 (load_u64_le bs 32)
        ++ le_bytes 8 (load_u64_le bs 40) ++ le_bytes 8 (load_u64_le bs 48)
        ++ le_bytes 4 (load_u32_le bs 56).
Proof.
  intros Hl. rewrite <- !field_of_load by (cbn; lia). cbn [Z.of_nat Pos.of_succ_nat Pos.succ].
  rewrite <- !subspan_split by lia. reflexivity.
Qed.

Ltac segment_field bs Hids :=
  apply load_field; [lia | lia | | unfold bs; rewrite ?Hids; reflexivity].

Lemma decode_segment_header_complete h rest :
  segment_header_wf h -> decode_segment_header (segment_header_bytes h ++ rest) = Ok h.
Proof.
  intros [Hid Hv Hn Hn0 Hs Hs0 Hf]. unfold decode_segment_header, kSegmentHeaderSize.
  pose proof (length_segment_header_bytes h Hid) as Hlen.
  destruct (Z.ltb_spec (blen (segment_header_bytes h ++ rest)) 64) as [Hlt|_].
  { rewrite length_app in Hlt. lia. }
  rewrite first_app by lia.
  assert (Hl : 60 = blen (segment_header_prefix h)).
  { unfold segment_header_prefix. rewrite !length_app, !length_le_bytes, Hid. reflexivity. }
  unfold kSegmentHeaderCrcOffset, segment_header_bytes.
  rewrite (load_seal _ 60 Hl). unfold with_crc at 2. rewrite first_app, Z.eqb_refl by done.
  unfold bytes_equal. rewrite bool_decide_eq_true_2 by reflexivity. cbn [negb].
  destruct h as [id n s]. cbn [seg_wal_id seg_number seg_first_record_sequence] in *.
  destruct (wal_id_cases _ Hid) as (?&?&?&?&?&?&?&?&?&?&?&?&?&?&?&?&Hids).
  set (bs := with_crc _) in *. change (blen bs = 64) in Hlen.
  assert (E8 : load_u16_le bs 8 = 1) by (segment_field bs Hids; by vm_compute).
  assert (E10 : load_u16_le bs 10 = 0) by (segment_field bs Hids; by vm_compute).
  assert (E12 : load_u32_le bs 12 = 64) by (segment_field bs Hids; by vm_compute).
  assert (E16 : subspan bs 16 kWalIdSize = id) by (unfold bs; rewrite Hids; reflexivity).
  assert (E32 : load_u64_le bs 32 = n) by (segment_field bs Hids; done).
  assert (E40 : load_u64_le bs 40 = s) by (segment_field bs Hids; done).
  assert (E48 : load_u64_le bs 48 = kSegmentSizeLimit)
    by (segment_field bs Hids; by vm_compute).
  assert (E56 : load_u32_le bs 56 = 0) by (segment_field bs Hids; by vm_compute).
  rewrite E8, E10, E12, E16, E32, E40, E48, E56.
  cbn [Z.eqb Pos.eqb negb orb kSegmentFormatMajor kSegmentFormatMinor
       seg_wal_id seg_number seg_first_record_sequence].
  rewrite Hv. cbn [negb].
  rewrite (proj2 (Z.eqb_neq _ _) Hn0), (proj2 (Z.eqb_neq _ _) Hs0), Z.eqb_refl.
  destruct (Z.eqb_spec n kFirstSegmentNumber) as [E|]; [|done]. by rewrite (Hf E).
Qed.

Lemma decode_segment_header_sound encoded h :
  decode_segment_header encoded = Ok h ->
  segment_header_wf h /\ exists rest, encoded = segment_header_bytes h ++ rest.
Proof.
  unfold decode_segment_header, kSegmentHeaderSize, kSegmentHeaderCrcOffset. intros H.
  destruct (Z.ltb_spec (blen encoded) 64) as [|Hlen]; [done|].
  set (bs := first encoded 64) in *.
  assert (Hbs : blen bs = 64) by (unfold bs, first; rewrite length_take; lia).
  assert (Henc : encoded = bs ++ drop 64 encoded) by (symmetry; apply take_drop).
  clearbody bs.
  destruct (bytes_equal bs 0 kSegmentMagic) eqn:Em; [|done]. cbn [negb] in H.
  destruct (Z.eqb_spec (crc32c (first bs 60)) (load_u32_le bs 60)) as [Hcrc|]; [|done].
  destruct (_ && _) eqn:Ef in H; run_guards H; bool_prop; injection H as <-.
  cbn [seg_wal_id seg_number seg_first_record_sequence] in *.
  pose proof (load_in_width 8 bs 32 ltac:(lia) ltac:(lia)).
  pose proof (load_in_width 8 bs 40 ltac:(lia) ltac:(lia)).
  split.
  { split; cbn [seg_wal_id seg_number seg_first_record_sequence]; try assumption.
    - unfold wal_id_wf, kWalIdSize. rewrite length_subspan; lia.
    - intros E'. rewrite E', Z.eqb_refl in Ef. cbn in Ef. by bool_prop. }
  exists (drop 64 encoded). rewrite Henc at 1. f_equal.
  apply (crc_check_seal bs 60 ltac:(lia) ltac:(lia)) in Hcrc. rewrite Hcrc at 1.
  unfold segment_header_bytes. f_equal.
  rewrite segment_header_fields by done. unfold segment_header_prefix.
  apply bool_decide_eq_true in Em. change (blen kSegmentMagic) with 8 in Em.
  cbn [seg_wal_id seg_number seg_first_record_sequence]. unfold kWalIdSize, kSegmentHeaderSize. congruence.
Qed.

(**  Segment headers: a well-formed header encodes to the canonical sixty-four
    bytes, and the decoder accepts a byte string exactly when it starts with the
    canonical bytes of a well-formed header, which it returns. *)
Theorem segment_header_codec (h : SegmentHeader) :
  (segment_header_wf h -> encode_segment_header h = Ok (segment_header_bytes h)) /\
  forall encoded, decode_segment_header encoded = Ok h <->
    segment_header_wf h /\ exists rest, encoded = segment_header_bytes h ++ rest.
Proof.
  split; [apply encode_segment_header_ok|]. intros encoded.
  split; [apply decode_segment_header_sound|].
  intros (Hwf & [rest ->]). by apply decode_segment_header_complete.
Qed.

(** ** Application envelopes *)

Definition application_ok (e : ApplicationEnvelope) : Prop :=
  in_width 32 (application_format e) /\ application_format e <> 0 /\
  in_width 32 (application_kind e) /\ application_kind e <> 0 /\
  in_width 64 (application_flags e) /\
  blen (application_body e) <= kMaximumPayloadLength - kApplicationEnvelopeSize.
Definition application_bytes (e : ApplicationEnvelope) : list byte :=
  le_bytes 4 (application_format e) ++ le_bytes 4 (application_kind e)
  ++ le_bytes 8 (application_flags e) ++ application_body e.

Lemma encode_application_ok e :
  application_ok e -> encode_application_payload e = Ok (application_bytes e).
Proof.
  intros (_ & Hf & _ & Hk & _ & Hb). unfold encode_application_payload.
  rewrite (proj2 (Z.eqb_neq _ _) Hf), (proj2 (Z.eqb_neq _ _) Hk). cbn [orb].
  destruct (Z.gtb_spec (blen (application_body e)) (kMaximumPayloadLength - kApplicationEnvelopeSize)); [lia|].
  cbv zeta. f_equal. unfold kApplicationEnvelopeSize.
  rewrite replicate_add.
  unfold kApplicationFormatOffset, kApplicationKindOffset, kApplicationFlagsOffset, kApplicationBodyOffset.
  set (z := replicate (length (application_body e)) x00).
  assert (Hz : length z = length (application_body e)) by apply length_replicate.
  change (replicate (Z.to_nat 16) x00 ++ z) with
    (replicate 4 x00 ++ replicate 4 x00 ++ replicate 8 x00 ++ z).
  rewrite store_front, store_middle by (by rewrite ?length_le_bytes).
  rewrite (app_assoc (le_bytes 4 _)), store_middle by (by rewrite ?length_app, ?length_le_bytes).
  rewrite (app_assoc (_ ++ _)), <- (app_nil_r z).
  rewrite copy_at_middle by (rewrite ?length_app, ?length_le_bytes; done).
  unfold application_bytes. by rewrite app_nil_r, <- !app_assoc.
Qed.

Lemma decode_application_complete e :
  application_ok e -> decode_application_payload (application_bytes e) = Ok e.
Proof.
  intros (Hf & Hf0 & Hk & Hk0 & Hg & Hb). unfold decode_application_payload.
  assert (Hl : blen (application_bytes e) = 16 + blen (application_body e)).
  { unfold application_bytes. rewrite !length_app, !length_le_bytes. lia. }
  rewrite Hl. unfold kApplicationEnvelopeSize in *.
  destruct (Z.ltb_spec (16 + blen (application_body e)) 16); [lia|].
  destruct (Z.gtb_spec (16 + blen (application_body e)) kMaximumPayloadLength); [lia|].
  assert (E0 : load_u32_le (application_bytes e) 0 = application_format e)
    by (apply load_field; [lia|lia|done|reflexivity]).
  assert (E4 : load_u32_le (application_bytes e) 4 = application_kind e)
    by (apply load_field; [lia|lia|done|reflexivity]).
  assert (E8 : load_u64_le (application_bytes e) 8 = application_flags e)
    by (apply load_field; [lia|lia|done|reflexivity]).
  unfold kApplicationFormatOffset, kApplicationKindOffset, kApplicationFlagsOffset.
  rewrite E0, E4, E8, (proj2 (Z.eqb_neq _ _) Hf0), (proj2 (Z.eqb_neq _ _) Hk0). cbn [orb].
  destruct e. reflexivity.
Qed.

Lemma decode_application_sound bs e :
  decode_application_payload bs = Ok e -> application_ok e /\ bs = application_bytes e.
Proof.
  unfold decode_application_payload, kApplicationEnvelopeSize. intros H.
  run_guards H. injection H as <-. bool_prop. apply Z.gtb_ltb in E0 || rewrite Z.gtb_ltb in E0.
  bool_prop. unfold kApplicationFormatOffset, kApplicationKindOffset, kApplicationFlagsOffset in *.
  pose proof (load_in_width 4 bs 0 ltac:(lia) ltac:(lia)).
  pose proof (load_in_width 4 bs 4 ltac:(lia) ltac:(lia)).
  pose proof (load_in_width 8 bs 8 ltac:(lia) ltac:(lia)). split.
  - split_and!; cbn [application_format application_kind application_flags application_body];
      try assumption. rewrite length_drop. unfold kApplicationBodyOffset, kApplicationEnvelopeSize. lia.
  - unfold application_bytes.
    cbn [application_format application_kind application_flags application_body].
    rewrite <- !field_of_load by lia. rewrite !app_assoc, <- !subspan_split by lia.
    symmetry. apply take_drop.
Qed.

(**  Application envelopes: encoding and decoding are inverse to each other on
    well-formed envelopes, and the decoder accepts nothing else. *)
Theorem application_codec (e : ApplicationEnvelope) :
  (application_ok e -> encode_application_payload e = Ok (application_bytes e)) /\
  forall bs, decode_application_payload bs = Ok e <-> application_ok e /\ bs = application_bytes e.
Proof.
  split; [apply encode_application_ok|]. intros bs. split; [apply decode_application_sound|].
  intros [Hok ->]. by apply decode_application_complete.
Qed.

(** * Concrete instances *)

Definition sample_envelope : ApplicationEnvelope :=
  {| application_format := 1; application_kind := 7; application_flags := 0;
     application_body := [x01; x02; x03] |}.
Definition sample_payload : list byte := application_bytes sample_envelope.
Definition sample_record_header : RecordHeader :=
  {| total_length := 64; record_format := 1; record_type := 1; record_flags := 0;
     record_sequence := 5; payload_length := 19 |}.
Definition sample_wal_id : WalId := replicate 16 x2a.
Definition sample_segment_header : SegmentHeader :=
  {| seg_wal_id := sample_wal_id; seg_number := 1; seg_first_record_sequence := 1 |}.

Lemma sample_envelope_ok : application_ok sample_envelope.
Proof. vm_compute. intuition discriminate. Qed.

Lemma sample_record_ok : record_ok sample_record_header sample_payload.
Proof.
  split; [|split; [reflexivity|split; [reflexivity|]]].
  - split; vm_compute; intuition discriminate.
  - intros _. exists sample_envelope. vm_compute. reflexivity.
Qed.

Lemma sample_segment_header_wf : segment_header_wf sample_segment_header.
Proof. split; vm_compute; intuition discriminate. Qed.

Lemma record_roundtrip_witness :
  exists encoded,
    encode_record sample_record_header sample_payload (replicate 70 xff) =
      (Ok 64, encoded ++ replicate 6 xff) /\ blen encoded = 64.
Proof.
  destruct (record_roundtrip sample_record_header sample_payload (replicate 70 xff)
              sample_record_ok eq_refl ltac:(vm_compute; discriminate)) as (e & He & Hl & _).
  exists e. split; [exact He | exact Hl].
Defined.

Lemma decode_record_iff_witness :
  exists r, decode_record (record_bytes sample_record_header sample_payload) = Ok r.
Proof.
  exists {| rec_header := sample_record_header; rec_payload := sample_payload;
            rec_crc32c := crc32c (record_body sample_record_header sample_payload) |}.
  apply decode_record_iff. split; [exact sample_record_ok|]. split; [reflexivity|].
  exists []. by rewrite app_nil_r.
Defined.

Lemma record_corruption_detected_witness :
  decode_record (<[50%nat := xff]> (record_bytes sample_record_header sample_payload) ++ [])
    = Err kCorruption.
Proof.
  apply (record_corruption_detected sample_record_header sample_payload 50%nat x00 xff []
           sample_record_ok); [vm_compute; reflexivity | discriminate].
Defined.

Lemma segment_header_codec_witness :
  encode_segment_header sample_segment_header = Ok (segment_header_bytes sample_segment_header).
Proof. apply segment_header_codec. exact sample_segment_header_wf. Defined.

Lemma application_codec_witness :
  decode_application_payload (application_bytes sample_envelope) = Ok sample_envelope.
Proof. apply application_codec. split; [exact sample_envelope_ok | reflexivity]. Defined.
