(* ===== verification/PosixIo.v ===== *)
(** The file operations the write-ahead log is built on: the public interface of
    include/chronos/io/posix_io.hpp as a type class over a world [W], what its
    documentation promises as a second class of laws over an abstract disk, and
    an in-memory world with injected faults that satisfies the laws.  The system
    calls below the interface are not modelled. *)
From S2P Require Import Prelude Bytes.

(** * A state-and-error monad *)

(** A computation of the program: a result, and the world it leaves. *)
Definition IO (W A : Type) : Type := W -> result A * W.
Definition io_ret {W A} (a : A) : IO W A := fun w => (Ok a, w).
Definition io_fail {W A} (s : StatusCode) : IO W A := fun w => (Err s, w).
Definition io_bind {W A B} (c : IO W A) (k : A -> IO W B) : IO W B := fun w =>
  match c w with
  | (Ok a, w') => k a w'
  | (Err s, w') => (make_unexpected s, w')
  end.
(** A result computed without the world. *)
Definition io_pure {W A} (r : result A) : IO W A := fun w => (r, w).
(** A status computed without the world: the idiom
    [if (!s.is_ok()) return make_unexpected(s)]. *)
Definition io_check {W} (s : StatusCode) : IO W unit := fun w =>
  (if is_ok s then Ok tt else make_unexpected s, w).

Notation "'let*' x ':=' c 'in' k" := (io_bind c (fun x => k))
  (at level 10, x pattern, c at level 100, k at level 200) : chronos_scope.
Notation "'do*' c ';' k" := (io_bind c (fun _ => k))
  (at level 10, c at level 100, k at level 200) : chronos_scope.
Notation "'stop_if' b 'with' s ';' k" := (if b then io_fail s else k)
  (at level 10, b at level 100, s at level 100, k at level 200) : chronos_scope.

Lemma io_bind_Ok {W A B} (c : IO W A) (k : A -> IO W B) w b w' :
  io_bind c k w = (Ok b, w') <-> exists a w1, c w = (Ok a, w1) /\ k a w1 = (Ok b, w').
Proof.
  unfold io_bind. destruct (c w) as [[a|s] w1] eqn:E.
  - split; [eauto|]. by intros (? & ? & [= <- <-] & ?).
  - split; [|by intros (? & ? & ? & _)].
    destruct (@make_unexpected_not_ok B s) as (s' & -> & _). discriminate.
Qed.

Lemma io_bind_step {W A B} (c : IO W A) (k : A -> IO W B) w a w1 :
  c w = (Ok a, w1) -> io_bind c k w = k a w1.
Proof. unfold io_bind. by intros ->. Qed.

(** * Data of posix_io.hpp *)

Definition FileName : Type := list byte.
Inductive FileOpenMode := kReadOnly | kReadWrite.
Inductive DirectoryEntryType := kRegularFile | kDirectory | kSymlink | kOther.
Record DirectoryEntry := { entry_name : FileName; entry_type : DirectoryEntryType }.

#[global] Instance DirectoryEntryType_eq_dec : EqDecision DirectoryEntryType.
Proof. solve_decision. Defined.
#[global] Instance byte_countable : Countable byte.
Proof.
  refine (inj_countable Byte.to_N Byte.of_N _). intros b. apply Byte.of_to_N.
Defined.

(** The bytes of a string literal of the source. *)
Definition chars (s : string) : FileName := String.list_byte_of_string s.

(** An open [PosixFile] is the file it refers to: renaming or removing the name
    it was opened under does not change that. *)
Abbreviation PosixFile := positive.

(** [PosixDirectory], [PosixFile] and [PosixAdvisoryLock] for one directory.
    A [common::Status] result is the result of a computation of [unit];
    [read_at] returns the bytes it transferred instead of their count. *)
Class PosixIo (W : Type) := {
  open_directory : list byte -> IO W unit;
  list_entries : IO W (list DirectoryEntry);
  open_regular_file : FileName -> FileOpenMode -> IO W PosixFile;
  create_exclusive_regular_file : FileName -> Z -> IO W PosixFile;
  acquire_exclusive_lock : FileName -> Z -> IO W unit;
  acquire_existing_exclusive_lock : FileName -> IO W unit;
  remove_file : FileName -> IO W unit;
  rename_no_replace : FileName -> FileName -> IO W unit;
  directory_sync : IO W unit;
  read_at : PosixFile -> Z -> Z -> IO W (list byte);
  write_all_at : PosixFile -> Z -> list byte -> IO W unit;
  file_size : PosixFile -> IO W Z;
  truncate : PosixFile -> Z -> IO W unit;
  sync_data : PosixFile -> IO W unit;
  sync_all : PosixFile -> IO W unit;
  close_file : PosixFile -> IO W unit;
  close_lock : IO W unit;
  close_directory : IO W unit }.

(** * The abstract disk *)

(** Names and file contents as the process sees them, and as they were at the
    last successful synchronisation, which is what a crash is known to keep. *)
Record Disk := {
  d_names : gmap FileName (DirectoryEntryType * PosixFile);
  d_data : gmap PosixFile (list byte);
  d_synced_names : gmap FileName (DirectoryEntryType * PosixFile);
  d_synced : gmap PosixFile (list byte) }.

Definition listing (d : Disk) : list DirectoryEntry :=
  (fun p => {| entry_name := p.1; entry_type := p.2.1 |}) <$> map_to_list (d_names d).

(** Bytes written at an offset; a gap before it reads as zero. *)
Definition overlay (bs : list byte) (off : Z) (src : list byte) : list byte :=
  take (Z.to_nat off) (bs ++ replicate (Z.to_nat off - length bs) x00) ++ src
  ++ drop (Z.to_nat off + length src) bs.

Definition write_disk (f : PosixFile) (off : Z) (src : list byte) (d : Disk) : Disk :=
  {| d_names := d_names d; d_data := alter (fun bs => overlay bs off src) f (d_data d);
     d_synced_names := d_synced_names d; d_synced := d_synced d |}.
Definition truncate_disk (f : PosixFile) (n : Z) (d : Disk) : Disk :=
  {| d_names := d_names d; d_data := alter (take (Z.to_nat n)) f (d_data d);
     d_synced_names := d_synced_names d; d_synced := d_synced d |}.
Definition sync_disk (f : PosixFile) (d : Disk) : Disk :=
  {| d_names := d_names d; d_data := d_data d; d_synced_names := d_synced_names d;
     d_synced := match d_data d !! f with Some bs => <[f := bs]> (d_synced d) | None => d_synced d end |}.
Definition set_names (names : gmap FileName (DirectoryEntryType * PosixFile)) (d : Disk) : Disk :=
  {| d_names := names; d_data := d_data d;
     d_synced_names := d_synced_names d; d_synced := d_synced d |}.
Definition sync_names (d : Disk) : Disk :=
  {| d_names := d_names d; d_data := d_data d;
     d_synced_names := d_names d; d_synced := d_synced d |}.
Definition create_disk (name : FileName) (f : PosixFile) (d : Disk) : Disk :=
  {| d_names := <[name := (kRegularFile, f)]> (d_names d); d_data := <[f := []]> (d_data d);
     d_synced_names := d_synced_names d; d_synced := d_synced d |}.

(** A fresh name bound to a fresh file. *)
Definition created (name : FileName) (f : PosixFile) (d d' : Disk) : Prop :=
  d_names d !! name = None /\ d_data d !! f = None /\ d' = create_disk name f d.

(** * The promises of the interface *)

Section laws.
Context {W : Type} (disk : W -> Disk) (reliable : W -> Prop).

(** A call that succeeds has the effect [post]; one that fails leaves what
    [fails] allows; a call in a world with no more environmental faults
    succeeds when it is [enabled]. *)
Definition implements {A} (c : IO W A) (enabled : Disk -> Prop)
    (post : Disk -> A -> Disk -> Prop) (fails : Disk -> Disk -> Prop) : Prop :=
  forall w r w', c w = (r, w') ->
    match r with
    | Ok a => post (disk w) a (disk w')
    | Err s => s <> kOk /\ fails (disk w) (disk w')
    end /\
    (reliable w -> reliable w' /\ (enabled (disk w) -> exists a, r = Ok a)).
End laws.

Class PosixLaws (W : Type) `{PosixIo W} := {
  disk : W -> Disk;
  reliable : W -> Prop;
  law_open_directory path : implements disk reliable (open_directory path)
    (fun _ => True) (fun d _ d' => d' = d) (fun d d' => d' = d);
  law_list_entries : implements disk reliable list_entries
    (fun _ => True) (fun d es d' => d' = d /\ es ≡ₚ listing d) (fun d d' => d' = d);
  law_open name mode : implements disk reliable (open_regular_file name mode)
    (fun d => exists f, d_names d !! name = Some (kRegularFile, f))
    (fun d f d' => d' = d /\ d_names d !! name = Some (kRegularFile, f)) (fun d d' => d' = d);
  law_create name permissions :
    implements disk reliable (create_exclusive_regular_file name permissions)
    (fun d => d_names d !! name = None /\ Z.land permissions (Z.lnot 511) = 0)
    (fun d f d' => created name f d d') (fun d d' => d' = d \/ exists f, created name f d d');
  law_lock name permissions : implements disk reliable (acquire_exclusive_lock name permissions)
    (fun d => Z.land permissions (Z.lnot 511) = 0 /\
       (d_names d !! name = None \/ exists f, d_names d !! name = Some (kRegularFile, f)))
    (fun d _ d' => (d' = d /\ exists f, d_names d !! name = Some (kRegularFile, f)) \/
       exists f, created name f d d')
    (fun d d' => d' = d \/ exists f, created name f d d');
  law_existing_lock name : implements disk reliable (acquire_existing_exclusive_lock name)
    (fun d => exists f, d_names d !! name = Some (kRegularFile, f))
    (fun d _ d' => d' = d /\ exists f, d_names d !! name = Some (kRegularFile, f))
    (fun d d' => d' = d);
  law_remove name : implements disk reliable (remove_file name)
    (fun d => exists f, d_names d !! name = Some (kRegularFile, f))
    (fun d _ d' => is_Some (d_names d !! name) /\ d' = set_names (delete name (d_names d)) d)
    (fun d d' => d' = d);
  law_rename old new : implements disk reliable (rename_no_replace old new)
    (fun d => is_Some (d_names d !! old) /\ d_names d !! new = None)
    (fun d _ d' => exists e, d_names d !! old = Some e /\ d_names d !! new = None /\
       d' = set_names (<[new := e]> (delete old (d_names d))) d)
    (fun d d' => d' = d);
  law_directory_sync : implements disk reliable directory_sync
    (fun _ => True) (fun d _ d' => d' = sync_names d) (fun d d' => d' = d);
  law_read f off n : implements disk reliable (read_at f off n)
    (fun d => is_Some (d_data d !! f) /\ 0 <= off /\ 0 <= n /\ off + n < 2 ^ 63)
    (fun d bs d' => d' = d /\ exists data, d_data d !! f = Some data /\ bs = subspan data off n)
    (fun d d' => d' = d);
  law_write f off src : implements disk reliable (write_all_at f off src)
    (fun d => is_Some (d_data d !! f) /\ 0 <= off /\ off + blen src < 2 ^ 63)
    (fun d _ d' => d' = write_disk f off src d)
    (fun d d' => d' = d \/ exists k, d' = write_disk f off (take k src) d);
  law_size f : implements disk reliable (file_size f)
    (fun d => is_Some (d_data d !! f))
    (fun d n d' => d' = d /\ exists data, d_data d !! f = Some data /\ n = blen data)
    (fun d d' => d' = d);
  law_truncate f n : implements disk reliable (truncate f n)
    (fun d => exists data, d_data d !! f = Some data /\ 0 <= n <= blen data)
    (fun d _ d' => d' = truncate_disk f n d) (fun d d' => d' = d);
  law_sync_data f : implements disk reliable (sync_data f)
    (fun d => is_Some (d_data d !! f)) (fun d _ d' => d' = sync_disk f d) (fun d d' => d' = d);
  law_sync_all f : implements disk reliable (sync_all f)
    (fun d => is_Some (d_data d !! f)) (fun d _ d' => d' = sync_disk f d) (fun d d' => d' = d);
  law_close_file f : implements disk reliable (close_file f)
    (fun _ => True) (fun d _ d' => d' = d) (fun d d' => d' = d);
  law_close_lock : implements disk reliable close_lock
    (fun _ => True) (fun d _ d' => d' = d) (fun d d' => d' = d);
  law_close_directory : implements disk reliable close_directory
    (fun _ => True) (fun d _ d' => d' = d) (fun d d' => d' = d) }.

(** What a client uses of a law: the effect of a call that succeeded, and that a
    call succeeds. *)
Lemma implements_Ok {W A} (dk : W -> Disk) (rl : W -> Prop) (c : IO W A) en post fails w a w' :
  implements dk rl c en post fails -> c w = (Ok a, w') ->
  post (dk w) a (dk w') /\ (rl w -> rl w').
Proof. intros Hi E. destruct (Hi _ _ _ E) as [Hp Hr]. split; [done|]. intros; by apply Hr. Qed.

Lemma implements_enabled {W A} (dk : W -> Disk) (rl : W -> Prop) (c : IO W A) en post fails w :
  implements dk rl c en post fails -> rl w -> en (dk w) ->
  exists a w', c w = (Ok a, w') /\ post (dk w) a (dk w') /\ rl w'.
Proof.
  intros Hi Hr He. destruct (c w) as [r w'] eqn:E.
  destruct (Hi _ _ _ E) as [Hp Hrel]. destruct (Hrel Hr) as [Hr' Hex].
  destruct (Hex He) as [a ->]. eauto.
Qed.

Lemma implements_Err {W A} (dk : W -> Disk) (rl : W -> Prop) (c : IO W A) en post fails w s w' :
  implements dk rl c en post fails -> c w = (Err s, w') -> s <> kOk /\ fails (dk w) (dk w').
Proof. intros Hi E. by destruct (Hi _ _ _ E) as [Hp _]. Qed.

(** * An in-memory world *)

(** A world in memory: a disk, and a schedule that says for each coming call
    whether it fails, with which status and after how much progress. *)
Record Memory := { mem_disk : Disk; mem_faults : list (option (StatusCode * nat)) }.

Definition mem_op {A} (act : Disk -> result A * Disk) (partial : nat -> Disk -> Disk)
  : IO Memory A := fun w =>
  match mem_faults w with
  | Some (s, k) :: rest =>
      (Err (if is_ok s then kIoError else s), {| mem_disk := partial k (mem_disk w); mem_faults := rest |})
  | faults =>
      let (r, d) := act (mem_disk w) in (r, {| mem_disk := d; mem_faults := tail faults |})
  end.

Definition untouched (k : nat) (d : Disk) : Disk := d.
Definition fresh_file (d : Disk) : PosixFile :=
  Pos.succ (foldr Pos.max 1%positive ((map_to_list (d_data d)).*1)).
Definition regular (d : Disk) (name : FileName) : option PosixFile :=
  match d_names d !! name with Some (kRegularFile, f) => Some f | _ => None end.
Definition mem_create (name : FileName) (d : Disk) : result PosixFile * Disk :=
  match d_names d !! name with
  | Some _ => (Err kAlreadyExists, d)
  | None => (Ok (fresh_file d), create_disk name (fresh_file d) d)
  end.
Definition mem_lock (name : FileName) (permissions : Z) (d : Disk) : result unit * Disk :=
  if negb (Z.land permissions (Z.lnot 511) =? 0) then (Err kInvalidArgument, d)
  else match d_names d !! name with
  | Some (kRegularFile, _) => (Ok tt, d)
  | Some _ => (Err kInvalidArgument, d)
  | None => (Ok tt, create_disk name (fresh_file d) d)
  end.

#[global] Instance Memory_PosixIo : PosixIo Memory := {
  open_directory _ := mem_op (fun d => (Ok tt, d)) untouched;
  list_entries := mem_op (fun d => (Ok (listing d), d)) untouched;
  open_regular_file name _ := mem_op (fun d =>
    (match regular d name with Some f => Ok f | None => Err kNotFound end, d)) untouched;
  create_exclusive_regular_file name permissions := mem_op (fun d =>
    if negb (Z.land permissions (Z.lnot 511) =? 0) then (Err kInvalidArgument, d)
    else mem_create name d) untouched;
  acquire_exclusive_lock name permissions := mem_op (mem_lock name permissions) untouched;
  acquire_existing_exclusive_lock name := mem_op (fun d =>
    (match regular d name with Some _ => Ok tt | None => Err kNotFound end, d)) untouched;
  remove_file name := mem_op (fun d =>
    match d_names d !! name with
    | Some _ => (Ok tt, set_names (delete name (d_names d)) d)
    | None => (Err kNotFound, d)
    end) untouched;
  rename_no_replace old new := mem_op (fun d =>
    match d_names d !! old, d_names d !! new with
    | Some e, None => (Ok tt, set_names (<[new := e]> (delete old (d_names d))) d)
    | Some _, Some _ => (Err kAlreadyExists, d)
    | None, _ => (Err kNotFound, d)
    end) untouched;
  directory_sync := mem_op (fun d => (Ok tt, sync_names d)) untouched;
  read_at f off n := mem_op (fun d =>
    (match d_data d !! f with Some data => Ok (subspan data off n) | None => Err kIoError end, d))
    untouched;
  write_all_at f off src := mem_op (fun d => (Ok tt, write_disk f off src d))
    (fun k d => write_disk f off (take k src) d);
  file_size f := mem_op (fun d =>
    (match d_data d !! f with Some data => Ok (blen data) | None => Err kIoError end, d)) untouched;
  truncate f n := mem_op (fun d =>
    match d_data d !! f with
    | Some data => if n <=? blen data then (Ok tt, truncate_disk f n d) else (Err kInvalidArgument, d)
    | None => (Err kIoError, d)
    end) untouched;
  sync_data f := mem_op (fun d => (Ok tt, sync_disk f d)) untouched;
  sync_all f := mem_op (fun d => (Ok tt, sync_disk f d)) untouched;
  close_file _ := mem_op (fun d => (Ok tt, d)) untouched;
  close_lock := mem_op (fun d => (Ok tt, d)) untouched;
  close_directory := mem_op (fun d => (Ok tt, d)) untouched }.

Definition mem_reliable (w : Memory) : Prop := mem_faults w = [].

Lemma fresh_file_fresh d : d_data d !! fresh_file d = None.
Proof.
  apply eq_None_not_Some. intros [bs Hb]. apply elem_of_map_to_list in Hb.
  assert (Hin : fresh_file d ∈ (map_to_list (d_data d)).*1) by (apply list_elem_of_fmap; eexists; split; [|exact Hb]; done).
  assert (Hmax : forall l x, x ∈ l -> (x <= foldr Pos.max 1 l)%positive).
  { induction l as [|y l IH]; intros x Hx; [by apply elem_of_nil in Hx|].
    apply elem_of_cons in Hx as [->|Hx]; cbn; [lia|]. specialize (IH _ Hx). lia. }
  apply Hmax in Hin. unfold fresh_file in Hin at 1. lia.
Qed.

Lemma mem_op_implements {A} (act : Disk -> result A * Disk) partial en post fails :
  (forall d r d', act d = (r, d') ->
     match r with Ok a => post d a d' | Err s => s <> kOk /\ fails d d' end /\
     (en d -> exists a, r = Ok a)) ->
  (forall k d, fails d (partial k d)) ->
  implements mem_disk mem_reliable (mem_op act partial) en post fails.
Proof.
  intros Hact Hpart w r w'. unfold mem_op, mem_reliable.
  assert (Hnorm : forall rest, (let (r0, d) := act (mem_disk w) in
     (r0, {| mem_disk := d; mem_faults := rest |})) = (r, w') ->
     match r with Ok a => post (mem_disk w) a (mem_disk w')
                | Err s => s <> kOk /\ fails (mem_disk w) (mem_disk w') end /\
     mem_faults w' = rest /\ (en (mem_disk w) -> exists a, r = Ok a)).
  { intros rest. destruct (act (mem_disk w)) as [r0 d] eqn:E. intros [= <- <-]. cbn.
    destruct (Hact _ _ _ E) as [? ?]. done. }
  destruct (mem_faults w) as [|[[s k]|] rest]; cbn [tail].
  - intros H. destruct (Hnorm _ H) as (? & ? & ?). split; [done|]. done.
  - intros [= <- <-]. cbn. split; [split; [|apply Hpart]|discriminate].
    unfold is_ok. case_bool_decide; [discriminate|done].
  - intros H. destruct (Hnorm _ H) as (? & ? & ?). split; [done|discriminate].
Qed.

(** Discharge a law of the in-memory world from the definition of its call. *)
Ltac mem_law :=
  apply mem_op_implements; [|unfold untouched; naive_solver];
  intros d r d'; unfold mem_create, mem_lock, regular;
  repeat case_match; intros; simplify_eq; bool_prop; cbn;
  split; try done; try naive_solver lia.

#[local] Set Warnings "-clear-no-such-hyp".
#[global] Program Instance Memory_laws : PosixLaws Memory :=
  {| disk := mem_disk; reliable := mem_reliable |}.
Solve Obligations with (try (intros; mem_law; fail)).
Next Obligation.
  intros; mem_law. unfold created. split_and!; try done. apply fresh_file_fresh.
Qed.
Next Obligation.
  intros; mem_law. right. eexists. split_and!; [done|apply fresh_file_fresh|done].
Qed.
