(* ===== verification/DiskFacts.v ===== *)
(** What the clients of the file interface share: a calculus of triples for
    computations over a world, facts on directory listings and file contents, the
    disk after a file is installed, and what a crash may leave of a disk. *)
From S2P Require Import Prelude Bytes PosixIo.
#[local] Open Scope Z_scope.

(** * Computations that returned *)

Lemma io_pure_bind {W A B} (r : result A) (k : A -> IO W B) (w : W) b w' :
  io_bind (io_pure r) k w = (Ok b, w') <-> exists a, r = Ok a /\ k a w = (Ok b, w').
Proof.
  rewrite io_bind_Ok. unfold io_pure. split.
  - intros (a & w1 & [= -> ->] & H). eauto.
  - intros (a & -> & H). eauto.
Qed.

Lemma io_bind_Err {W A B} (c : IO W A) (k : A -> IO W B) w s w' :
  io_bind c k w = (Err s, w') ->
  (exists s', c w = (Err s', w')) \/ (exists a w1, c w = (Ok a, w1) /\ k a w1 = (Err s, w')).
Proof.
  unfold io_bind. destruct (c w) as [[a|s'] w1]; [by right; eauto|]. intros H. left.
  destruct (@make_unexpected_not_ok B s') as (s'' & E & _). rewrite E in H. injection H as _ <-. eauto.
Qed.

Lemma io_bind_not_ok {W A B} (c : IO W A) (k : A -> IO W B) w s w' :
  (forall a w1 s' w2, k a w1 = (Err s', w2) -> s' <> kOk) ->
  io_bind c k w = (Err s, w') -> s <> kOk.
Proof.
  intros Hk. unfold io_bind. destruct (c w) as [[a|s0] w1]; [apply Hk|].
  destruct (@make_unexpected_not_ok B s0) as (s' & -> & Hs). by intros [= <- _].
Qed.

Lemma io_check_Ok {W} (s : StatusCode) (w w' : W) u : io_check s w = (Ok u, w') -> s = kOk /\ w' = w.
Proof.
  unfold io_check. destruct (is_ok s) eqn:E.
  - apply bool_decide_eq_true in E. by intros [= _ <-].
  - destruct (@make_unexpected_not_ok unit s) as (? & -> & _). done.
Qed.

(** * Triples *)

(** [wp c w Q E]: from [w] the computation returns a value with [Q], or fails with
    a status that is an error and [E].  With [E] false it returns. *)
Definition wp {W A} (c : IO W A) (w : W) (Q : A -> W -> Prop) (E : StatusCode -> W -> Prop) : Prop :=
  match c w with
  | (Ok a, w') => Q a w'
  | (Err s, w') => s <> kOk /\ E s w'
  end.
Definition never {W} : StatusCode -> W -> Prop := fun _ _ => False.
Definition anything {W} : StatusCode -> W -> Prop := fun _ _ => True.

Lemma wp_ret {W A} (a : A) (w : W) (Q : A -> W -> Prop) E : Q a w -> wp (io_ret a) w Q E.
Proof. done. Qed.
Lemma wp_fail {W A} s (w : W) (Q : A -> W -> Prop) (E : StatusCode -> W -> Prop) :
  s <> kOk -> E s w -> wp (io_fail s) w Q E.
Proof. done. Qed.
Lemma wp_bind {W A B} (c : IO W A) (k : A -> IO W B) (w : W) Q E :
  wp c w (fun a w1 => wp (k a) w1 Q E) E -> wp (io_bind c k) w Q E.
Proof.
  unfold wp, io_bind. destruct (c w) as [[a|s] w1]; [done|]. intros [Hs HE].
  unfold make_unexpected, is_ok. by rewrite bool_decide_eq_false_2.
Qed.
Lemma wp_mono {W A} (c : IO W A) (w : W) (Q Q' : A -> W -> Prop) (E E' : StatusCode -> W -> Prop) :
  wp c w Q E -> (forall a w', Q a w' -> Q' a w') -> (forall s w', E s w' -> E' s w') -> wp c w Q' E'.
Proof. unfold wp. destruct (c w) as [[a|s] w1]; naive_solver. Qed.
Lemma wp_pure {W A} (r : result A) (w : W) (Q : A -> W -> Prop) (E : StatusCode -> W -> Prop) :
  match r with Ok a => Q a w | Err s => s <> kOk /\ E s w end -> wp (io_pure r) w Q E.
Proof. done. Qed.
Lemma wp_check {W} s (w : W) (Q : unit -> W -> Prop) (E : StatusCode -> W -> Prop) :
  (s = kOk -> Q tt w) -> (s <> kOk -> E s w) -> wp (io_check s) w Q E.
Proof.
  intros HQ HE. unfold wp, io_check, make_unexpected, is_ok.
  case_bool_decide as Hs; [auto|]. split; auto.
Qed.

(** Reading a triple back. *)
Lemma wp_Ok {W A} (c : IO W A) (w : W) Q E a w' : wp c w Q E -> c w = (Ok a, w') -> Q a w'.
Proof. unfold wp. intros H Ec. by rewrite Ec in H. Qed.
Lemma wp_Err {W A} (c : IO W A) (w : W) Q E s w' :
  wp c w Q E -> c w = (Err s, w') -> s <> kOk /\ E s w'.
Proof. unfold wp. intros H Ec. by rewrite Ec in H. Qed.
Lemma wp_never {W A} (c : IO W A) (w : W) Q :
  wp c w Q never -> exists a w', c w = (Ok a, w') /\ Q a w'.
Proof. unfold wp. destruct (c w) as [[a|s] w'] eqn:E; [eauto|]. by intros [_ []]. Qed.
Lemma wp_intro {W A} (c : IO W A) (w : W) (Q : A -> W -> Prop) (E : StatusCode -> W -> Prop) :
  (forall a w', c w = (Ok a, w') -> Q a w') ->
  (forall s w', c w = (Err s, w') -> s <> kOk /\ E s w') -> wp c w Q E.
Proof. unfold wp. destruct (c w) as [[a|s] w']; auto. Qed.

(** A call of the interface, in any world and in one without further faults. *)
Lemma wp_op {W A} (dk : W -> Disk) (rl : W -> Prop) (c : IO W A) en post fails w
    (Q : A -> W -> Prop) (E : StatusCode -> W -> Prop) :
  implements dk rl c en post fails ->
  (forall a w', post (dk w) a (dk w') -> Q a w') ->
  (forall s w', fails (dk w) (dk w') -> E s w') -> wp c w Q E.
Proof.
  intros Hi HQ HE. apply wp_intro; intros x w' H; destruct (Hi _ _ _ H) as [Hp _]; [by apply HQ|].
  split; [apply Hp|]. by apply HE, Hp.
Qed.
Lemma wp_live {W A} (dk : W -> Disk) (rl : W -> Prop) (c : IO W A) en post fails w
    (Q : A -> W -> Prop) E :
  implements dk rl c en post fails -> rl w -> en (dk w) ->
  (forall a w', post (dk w) a (dk w') -> rl w' -> Q a w') -> wp c w Q E.
Proof.
  intros Hi Hr Hen HQ. destruct (implements_enabled _ _ _ _ _ _ _ Hi Hr Hen) as (a & w' & E1 & Hp & Hr').
  unfold wp. rewrite E1. by apply HQ.
Qed.

(** Step over a call by its law: in a world without further faults, and in any. *)
Ltac wp_call law := apply (wp_live _ _ _ _ _ _ _ _ _ law); cbv beta.
Ltac wp_try law := apply (wp_op _ _ _ _ _ _ _ _ _ law); cbv beta.

(** * Directories *)

Lemma listing_NoDup d : NoDup (entry_name <$> listing d).
Proof.
  unfold listing. rewrite <- list_fmap_compose. apply (NoDup_fst_map_to_list (d_names d)).
Qed.

Lemma elem_listing d name ty :
  {| entry_name := name; entry_type := ty |} ∈ listing d <->
  exists f, d_names d !! name = Some (ty, f).
Proof.
  unfold listing. rewrite list_elem_of_fmap. split.
  - intros ([nm [t f]] & [= -> ->] & Hin). apply elem_of_map_to_list in Hin. eauto.
  - intros [f Hf]. exists (name, (ty, f)). split; [done|]. by apply elem_of_map_to_list.
Qed.

Definition disk_ok (d : Disk) : Prop :=
  forall name e, d_names d !! name = Some e -> is_Some (d_data d !! e.2).

(** * Files *)

Lemma overlay_end bs src : overlay bs (blen bs) src = bs ++ src.
Proof.
  unfold overlay. rewrite Nat2Z.id, Nat.sub_diag. cbn [replicate]. rewrite app_nil_r.
  rewrite take_ge by lia. rewrite drop_ge by lia. by rewrite app_nil_r.
Qed.

(** * Names of files *)

(** No two names are bound to one file. *)
Definition names_differ (names : gmap FileName (DirectoryEntryType * PosixFile)) : Prop :=
  forall n1 n2 e1 e2, names !! n1 = Some e1 -> names !! n2 = Some e2 -> e1.2 = e2.2 -> n1 = n2.

Lemma insert_names_differ names name e :
  names_differ names -> (forall n e', names !! n = Some e' -> e'.2 <> e.2) ->
  names_differ (<[name := e]> names).
Proof.
  intros Hd Hfree n1 n2 e1 e2 H1 H2 E.
  apply lookup_insert_Some in H1 as [[<- <-]|[_ H1]], H2 as [[<- <-]|[_ H2]]; [done| | |by eapply Hd].
  - by destruct (Hfree _ _ H2).
  - by destruct (Hfree _ _ H1).
Qed.

(** The disk after a segment file with contents [bs] was installed under [name]. *)
Definition installed (name : FileName) (f : PosixFile) (bs : list byte) (d : Disk) : Disk :=
  {| d_names := <[name := (kRegularFile, f)]> (d_names d); d_data := <[f := bs]> (d_data d);
     d_synced_names := <[name := (kRegularFile, f)]> (d_names d); d_synced := <[f := bs]> (d_synced d) |}.

(** * Crashes *)

(** What a crash may leave of a disk: a name that was synchronised as it stands is
    kept, of every file some prefix of its bytes that is not shorter than what was
    last synchronised; a file that was synchronised as it stands stays so. *)
Record crash (d d' : Disk) : Prop := {
  crash_names : forall name, d_synced_names d !! name = d_names d !! name ->
    d_names d' !! name = d_names d !! name;
  crash_data : forall f bs, d_data d !! f = Some bs -> exists m, d_data d' !! f = Some (take m bs) /\
    forall synced, d_synced d !! f = Some synced -> (length synced <= m)%nat;
  crash_synced : forall f bs, d_data d !! f = Some bs -> d_synced d !! f = Some bs ->
    d_synced d' !! f = Some bs }.

(** A crash that cuts one file at [m] bytes. *)
Lemma crash_cut d f m :
  0 <= m -> (forall synced, d_synced d !! f = Some synced -> blen synced <= m) -> crash d (truncate_disk f m d).
Proof.
  intros Hm Hs. split; [done| |done]. intros g bs Hg. cbn [truncate_disk d_data].
  destruct (decide (f = g)) as [<-|Hne].
  - exists (Z.to_nat m). rewrite lookup_alter_eq, Hg. split; [done|]. intros synced E. specialize (Hs _ E). lia.
  - exists (length bs + default 0%nat (length <$> d_synced d !! g))%nat.
    rewrite lookup_alter_ne, Hg, take_ge by (done || lia). split; [done|]. intros synced ->. cbn. lia.
Qed.

(** * An empty directory in memory *)

Definition empty_disk : Disk :=
  {| d_names := ∅; d_data := ∅; d_synced_names := ∅; d_synced := ∅ |}.
Definition on_memory (d : Disk) : Memory := {| mem_disk := d; mem_faults := [] |}.
Lemma empty_disk_ok : disk_ok (disk (on_memory empty_disk)).
Proof. intros name e H. cbn in H. by rewrite lookup_empty in H. Qed.
