(* ===== verification/WalPaths.v ===== *)
(** Names of WAL segment files: src/wal/wal_paths.cpp, and the recognisers of
    those names in src/wal/wal_scan.cpp and src/wal/wal_writer.cpp. *)
From S2P Require Import Prelude Bytes WalCodec PosixIo.

(** * wal_paths *)

Definition kWalLockFileName : FileName := chars "LOCK".

(** [segment_digits]: twenty decimal digits, written from the last. *)
Fixpoint digits_loop (index : nat) (remaining : Z) (digits : FileName) : FileName :=
  match index with
  | O => digits
  | S i => digits_loop i (remaining / 10) (byte_of_Z (48 + remaining mod 10) :: digits)
  end.
Definition segment_digits (segment_number : Z) : result FileName :=
  fail_if segment_number =? 0 with kInvalidArgument;
  Ok (digits_loop 20 segment_number []).

Definition wal_segment_file_name (segment_number : Z) : result FileName :=
  let? digits := segment_digits segment_number in
  Ok (chars "wal-" ++ digits ++ chars ".cwal").

Definition kHexDigits : FileName := chars "0123456789abcdef".
Definition hex_digits (b : byte) : FileName :=
  [nth (Z.to_nat (Z.shiftr (byte_to_Z b) 4)) kHexDigits x00;
   nth (Z.to_nat (Z.land (byte_to_Z b) 15)) kHexDigits x00].
Definition wal_temporary_segment_file_name (segment_number : Z) (nonce : WalId) : result FileName :=
  fail_if negb (WalId_is_valid nonce) with kInvalidArgument;
  let? final_name := wal_segment_file_name segment_number in
  Ok (chars "." ++ final_name ++ chars ".tmp-" ++ concat (hex_digits <$> nonce)).

(** * Recognising names *)

Definition starts_with (name prefix : FileName) : bool :=
  bool_decide (take (length prefix) name = prefix).
Definition ends_with (name suffix : FileName) : bool :=
  bool_decide (length suffix <= length name)%nat
  && bool_decide (drop (length name - length suffix) name = suffix).
Definition substr (name : FileName) (position count : nat) : FileName :=
  take count (drop position name).
Definition is_digit (c : byte) : bool := (48 <=? byte_to_Z c) && (byte_to_Z c <=? 57).
Definition is_lower_hex (c : byte) : bool :=
  is_digit c || ((97 <=? byte_to_Z c) && (byte_to_Z c <=? 102)).

(** The digit loop of [parse_segment_number]. *)
Fixpoint parse_digits (digits : FileName) (value : Z) : result Z :=
  match digits with
  | [] => Ok value
  | c :: rest =>
      fail_if negb (is_digit c) with kCorruption;
      let digit := byte_to_Z c - 48 in
      fail_if value >? (max_u64 - digit) / 10 with kCorruption;
      parse_digits rest (value * 10 + digit)
  end.

Definition parse_segment_number (name : FileName) : result Z :=
  fail_if negb (Nat.eqb (length name) 29) || negb (starts_with name (chars "wal-"))
          || negb (ends_with name (chars ".cwal")) with kCorruption;
  let? value := parse_digits (substr name 4 20) 0 in
  fail_if value =? 0 with kCorruption;
  Ok value.

(** [is_temporary_segment_name] of wal_scan.cpp. *)
Definition is_temporary_segment_name (name : FileName) : bool :=
  if negb (Nat.eqb (length name) 67) || negb (starts_with name (chars ".wal-"))
     || negb (bool_decide (substr name 25 10 = chars ".cwal.tmp-"))
  then false
  else match parse_segment_number (substr name 1 29) with
       | Ok _ => forallb is_lower_hex (drop (length name - 32) name)
       | Err _ => false
       end.

(** The recognisers of wal_writer.cpp. *)
Fixpoint digits_value (digits : FileName) (value : Z) : option Z :=
  match digits with
  | [] => Some value
  | c :: rest =>
      if negb (is_digit c) then None
      else let digit := byte_to_Z c - 48 in
           if value >? (max_u64 - digit) / 10 then None
           else digits_value rest (value * 10 + digit)
  end.
Definition parse_nonzero_segment_digits (digits : FileName) : bool :=
  if negb (Nat.eqb (length digits) 20) then false
  else match digits_value digits 0 with Some value => negb (value =? 0) | None => false end.
Definition is_final_segment_name (name : FileName) : bool :=
  Nat.eqb (length name) 29 && starts_with name (chars "wal-")
  && ends_with name (chars ".cwal") && parse_nonzero_segment_digits (substr name 4 20).
Definition writer_is_temporary_segment_name (name : FileName) : bool :=
  if negb (Nat.eqb (length name) 67) || negb (starts_with name (chars ".wal-"))
     || negb (bool_decide (substr name 25 10 = chars ".cwal.tmp-"))
     || negb (parse_nonzero_segment_digits (substr name 5 20))
  then false
  else forallb is_lower_hex (drop (length name - 32) name).

(** * Digits *)

Definition digit_char (n : Z) : byte := byte_of_Z (48 + n mod 10).

Lemma digits_loop_acc k : forall r acc, digits_loop k r acc = digits_loop k r [] ++ acc.
Proof.
  induction k as [|k IH]; intros r acc; [done|]. cbn [digits_loop].
  rewrite IH, (IH _ [_]), <- app_assoc. done.
Qed.
Lemma digits_loop_S k r : digits_loop (S k) r [] = digits_loop k (r / 10) [] ++ [digit_char r].
Proof. cbn [digits_loop]. by rewrite digits_loop_acc. Qed.
Lemma length_digits_loop k r : length (digits_loop k r []) = k.
Proof.
  revert r. induction k as [|k IH]; intros r; [done|].
  rewrite digits_loop_S, length_app, IH. cbn. lia.
Qed.

Lemma digit_char_value n : byte_to_Z (digit_char n) = 48 + n mod 10.
Proof.
  unfold digit_char. rewrite byte_to_of_Z, Z.mod_small; [done|].
  pose proof (Z.mod_pos_bound n 10). lia.
Qed.
Lemma is_digit_char n : is_digit (digit_char n) = true.
Proof.
  unfold is_digit. rewrite digit_char_value. pose proof (Z.mod_pos_bound n 10).
  apply andb_true_iff. split; apply Z.leb_le; lia.
Qed.

Lemma parse_digits_snoc l c v :
  parse_digits (l ++ [c]) v = (let? v' := parse_digits l v in parse_digits [c] v').
Proof.
  revert v. induction l as [|a l IH]; intros v; [done|]. cbn [app parse_digits].
  destruct (is_digit a); [|done]. cbn [negb]. by destruct (v >? _).
Qed.

Lemma parse_digits_loop k : forall r,
  0 <= r < 10 ^ Z.of_nat k -> r <= max_u64 -> parse_digits (digits_loop k r []) 0 = Ok r.
Proof.
  induction k as [|k IH]; intros r Hr Hmax.
  - cbn in *. f_equal. lia.
  - rewrite Nat2Z.inj_succ, Z.pow_succ_r in Hr by lia.
    rewrite digits_loop_S, parse_digits_snoc, IH by (Z.to_euclidean_division_equations; lia).
    cbn [rbind parse_digits]. rewrite is_digit_char, digit_char_value. cbn [negb].
    destruct (Z.gtb_spec (r / 10) ((max_u64 - (48 + r mod 10 - 48)) / 10)) as [H|_].
    { Z.to_euclidean_division_equations. lia. }
    f_equal. Z.to_euclidean_division_equations. lia.
Qed.

Lemma is_digit_char_inv c : is_digit c = true -> exists d, 0 <= d < 10 /\ byte_to_Z c = 48 + d.
Proof. unfold is_digit. intros H. bool_prop. exists (byte_to_Z c - 48). lia. Qed.

Lemma parse_digits_sound l : forall n,
  parse_digits l 0 = Ok n -> 0 <= n <= max_u64 /\ digits_loop (length l) n [] = l.
Proof.
  induction l as [|c l IH] using rev_ind; intros n H.
  - injection H as <-. split; [lia|done].
  - rewrite parse_digits_snoc in H. apply rbind_Ok in H as (v & Hv & H).
    apply IH in Hv as [Hv Hl]. cbn [parse_digits] in H.
    destruct (is_digit c) eqn:Hc; [|done]. cbn [negb] in H.
    apply is_digit_char_inv in Hc as (d & Hd & Hc). rewrite Hc in H.
    destruct (Z.gtb_spec v ((max_u64 - (48 + d - 48)) / 10)) as [|Hle]; [done|].
    injection H as <-. replace (48 + d - 48) with d in * by lia.
    split; [Z.to_euclidean_division_equations; lia|].
    rewrite length_app, Nat.add_1_r, digits_loop_S.
    replace ((v * 10 + d) / 10) with v by (Z.to_euclidean_division_equations; lia).
    rewrite Hl. f_equal. f_equal. apply byte_to_Z_inj. rewrite digit_char_value, Hc.
    Z.to_euclidean_division_equations. lia.
Qed.

Lemma digits_value_parse l v :
  digits_value l v = match parse_digits l v with Ok n => Some n | Err _ => None end.
Proof.
  revert v. induction l as [|c l IH]; intros v; [done|]. cbn [digits_value parse_digits].
  destruct (is_digit c); [|done]. cbn [negb]. by destruct (v >? _).
Qed.

(** * Segment names *)

(** The canonical name of a segment. *)
Definition segment_name (n : Z) : FileName := chars "wal-" ++ digits_loop 20 n [] ++ chars ".cwal".

Definition segment_number_ok (n : Z) : Prop := 1 <= n <= max_u64.

Lemma wal_segment_file_name_ok n : n <> 0 -> wal_segment_file_name n = Ok (segment_name n).
Proof.
  intros Hn. unfold wal_segment_file_name, segment_digits. by rewrite (proj2 (Z.eqb_neq _ _) Hn).
Qed.

Lemma length_segment_name n : length (segment_name n) = 29%nat.
Proof. unfold segment_name. by rewrite !length_app, length_digits_loop. Qed.

Lemma starts_with_app p rest : starts_with (p ++ rest) p = true.
Proof. unfold starts_with. apply bool_decide_eq_true. apply take_app_length. Qed.
Lemma ends_with_app rest p : ends_with (rest ++ p) p = true.
Proof.
  unfold ends_with. apply andb_true_iff. rewrite length_app.
  split; apply bool_decide_eq_true; [lia|]. rewrite Nat.add_sub. apply drop_app_length.
Qed.

Lemma segment_name_digits n : substr (segment_name n) 4 20 = digits_loop 20 n [].
Proof.
  unfold substr, segment_name. change 4%nat with (length (chars "wal-")). rewrite drop_app_length.
  rewrite <- (length_digits_loop 20 n) at 1. apply take_app_length.
Qed.

Lemma parse_segment_name n : segment_number_ok n -> parse_segment_number (segment_name n) = Ok n.
Proof.
  intros Hn. unfold parse_segment_number. rewrite length_segment_name, Nat.eqb_refl.
  unfold segment_name at 1. rewrite starts_with_app.
  unfold segment_name at 1. rewrite app_assoc, ends_with_app. cbn [negb orb].
  rewrite segment_name_digits, parse_digits_loop; unfold segment_number_ok in Hn; [|cbn; lia..].
  cbn [rbind]. by rewrite (proj2 (Z.eqb_neq n 0)) by lia.
Qed.

Lemma starts_with_split name p : starts_with name p = true -> name = p ++ drop (length p) name.
Proof.
  unfold starts_with. intros H. apply bool_decide_eq_true in H.
  rewrite <- (take_drop (length p) name) at 1. by rewrite H.
Qed.

Lemma parse_segment_number_sound name n :
  parse_segment_number name = Ok n -> segment_number_ok n /\ name = segment_name n.
Proof.
  unfold parse_segment_number. intros H.
  destruct (Nat.eqb_spec (length name) 29) as [Hlen|]; [|done].
  destruct (starts_with name _) eqn:Hs; [|done].
  destruct (ends_with name _) eqn:He; [|done]. cbn [negb orb] in H.
  apply rbind_Ok in H as (v & Hv & H). destruct (Z.eqb_spec v 0); [done|]. injection H as <-.
  apply parse_digits_sound in Hv as [Hr Hd].
  split; [unfold segment_number_ok; lia|].
  apply starts_with_split in Hs. unfold ends_with in He.
  apply andb_true_iff in He as [_ He]. apply bool_decide_eq_true in He.
  cbn [length chars] in *. rewrite Hlen in He. cbn [Nat.sub] in He.
  unfold substr in Hd. rewrite length_take, length_drop, Hlen in Hd.
  change (20 `min` (29 - 4))%nat with 20%nat in Hd.
  unfold segment_name. rewrite Hd.
  transitivity (chars "wal-" ++ drop 4 name); [exact Hs|]. f_equal.
  transitivity (take 20 (drop 4 name) ++ drop 20 (drop 4 name)); [symmetry; apply take_drop|].
  f_equal. rewrite drop_drop. exact He.
Qed.

Lemma segment_name_inj a b :
  segment_number_ok a -> segment_number_ok b -> segment_name a = segment_name b -> a = b.
Proof.
  intros Ha Hb E. pose proof (parse_segment_name a Ha) as H.
  rewrite E, parse_segment_name in H by done. by injection H.
Qed.

Lemma is_final_segment_name_parse name :
  is_final_segment_name name = match parse_segment_number name with Ok _ => true | Err _ => false end.
Proof.
  unfold is_final_segment_name, parse_segment_number, parse_nonzero_segment_digits.
  rewrite digits_value_parse.
  destruct (Nat.eqb_spec (length name) 29) as [Hl|]; [|done].
  destruct (starts_with _ _); [|done]. destruct (ends_with _ _); [|done]. cbn [negb orb andb].
  unfold substr at 1. rewrite length_take, length_drop, Hl. cbn [Nat.min Nat.sub Nat.eqb negb].
  destruct (parse_digits _ _) as [v|]; cbn [rbind]; [by destruct (v =? 0)|].
  by destruct (@make_unexpected_not_ok Z s) as (? & -> & _).
Qed.

(** ** Temporary names *)

Definition temporary_name (n : Z) (nonce : WalId) : FileName :=
  chars "." ++ segment_name n ++ chars ".tmp-" ++ concat (hex_digits <$> nonce).

Lemma wal_temporary_file_name_ok n nonce :
  n <> 0 -> WalId_is_valid nonce = true ->
  wal_temporary_segment_file_name n nonce = Ok (temporary_name n nonce).
Proof.
  intros Hn Hv. unfold wal_temporary_segment_file_name. rewrite Hv. cbn [negb].
  by rewrite wal_segment_file_name_ok.
Qed.

Lemma length_hex (nonce : WalId) : length (concat (hex_digits <$> nonce)) = (2 * length nonce)%nat.
Proof. induction nonce as [|b l IH]; [done|]. cbn. rewrite IH. lia. Qed.

Lemma hex_digits_lower b : forallb is_lower_hex (hex_digits b) = true.
Proof. by destruct b. Qed.

Lemma hex_lower (nonce : WalId) : forallb is_lower_hex (concat (hex_digits <$> nonce)) = true.
Proof.
  induction nonce as [|b l IH]; [done|]. rewrite fmap_cons. cbn [concat].
  by rewrite forallb_app, hex_digits_lower, IH.
Qed.

Lemma is_temporary_name n nonce :
  segment_number_ok n -> wal_id_wf nonce -> is_temporary_segment_name (temporary_name n nonce) = true.
Proof.
  intros Hn Hw. unfold is_temporary_segment_name.
  assert (Hlen : length (temporary_name n nonce) = 67%nat).
  { unfold temporary_name. rewrite !length_app, length_segment_name, length_hex, Hw. done. }
  rewrite Hlen, Nat.eqb_refl.
  assert (Hpre : temporary_name n nonce = chars ".wal-" ++ digits_loop 20 n [] ++ chars ".cwal.tmp-"
                   ++ concat (hex_digits <$> nonce)).
  { unfold temporary_name, segment_name. rewrite <- !app_assoc. done. }
  rewrite Hpre at 1. rewrite starts_with_app.
  assert (Hmid : substr (temporary_name n nonce) 25 10 = chars ".cwal.tmp-").
  { rewrite Hpre. unfold substr. rewrite app_assoc.
    replace 25%nat with (length (chars ".wal-" ++ digits_loop 20 n []))
      by (by rewrite length_app, length_digits_loop).
    rewrite drop_app_length. done. }
  rewrite Hmid, bool_decide_eq_true_2 by done. cbn [negb orb].
  assert (Hfin : substr (temporary_name n nonce) 1 29 = segment_name n).
  { unfold substr, temporary_name. cbn [app drop chars String.list_byte_of_string].
    rewrite <- (length_segment_name n). apply take_app_length. }
  rewrite Hfin, parse_segment_name by done.
  rewrite Hpre, !app_assoc.
  replace (67 - 32)%nat with (length ((chars ".wal-" ++ digits_loop 20 n []) ++ chars ".cwal.tmp-"))
    by (by rewrite !length_app, length_digits_loop).
  rewrite drop_app_length. apply hex_lower.
Qed.

Lemma temporary_names_agree name :
  writer_is_temporary_segment_name name = is_temporary_segment_name name.
Proof.
  unfold writer_is_temporary_segment_name, is_temporary_segment_name.
  destruct (Nat.eqb_spec (length name) 67) as [Hl|]; [|done].
  destruct (starts_with name _) eqn:Hs; [|done].
  destruct (bool_decide (substr name 25 10 = _)) eqn:Hm; [|done]. cbn [negb orb].
  apply bool_decide_eq_true in Hm.
  assert (Hsub : substr (substr name 1 29) 4 20 = substr name 5 20).
  { unfold substr. by rewrite skipn_firstn_comm, take_take, drop_drop. }
  assert (Hlen : length (substr name 1 29) = 29%nat)
    by (unfold substr; rewrite length_take, length_drop, Hl; done).
  assert (H4 : starts_with (substr name 1 29) (chars "wal-") = true).
  { apply bool_decide_eq_true. apply starts_with_split in Hs. rewrite Hs. done. }
  assert (H5 : ends_with (substr name 1 29) (chars ".cwal") = true).
  { unfold ends_with. rewrite Hlen. apply andb_true_iff. split; apply bool_decide_eq_true; [cbn; lia|].
    unfold substr. rewrite skipn_firstn_comm, drop_drop.
    apply (f_equal (take 5)) in Hm. unfold substr in Hm. by rewrite take_take in Hm. }
  pose proof (is_final_segment_name_parse (substr name 1 29)) as Hf.
  unfold is_final_segment_name in Hf. rewrite Hlen, H4, H5, Hsub in Hf. cbn [Nat.eqb andb] in Hf.
  rewrite Hf. by destruct (parse_segment_number _).
Qed.

(** * Claims *)

(** Segment file names: the name of every segment number from 1 to 2^64-1
    parses back to that number, the parser accepts nothing but the canonical name
    of such a number, the writer recognises a final name exactly when the scanner
    parses it, and both recognise the temporary name the writer creates. *)
Theorem segment_names (name : FileName) (n : Z) (nonce : WalId)
    (Hn : 1 <= n <= max_u64) (Hid : wal_id_wf nonce) (Hv : WalId_is_valid nonce = true) :
  (parse_segment_number name = Ok n <-> wal_segment_file_name n = Ok name) /\
  (is_final_segment_name name = true <-> exists m, parse_segment_number name = Ok m) /\
  writer_is_temporary_segment_name name = is_temporary_segment_name name /\
  exists tmp, wal_temporary_segment_file_name n nonce = Ok tmp /\
    is_temporary_segment_name tmp = true.
Proof.
  split_and!.
  - rewrite wal_segment_file_name_ok by lia. split.
    + intros H. by apply parse_segment_number_sound in H as [_ ->].
    + intros [= <-]. by apply parse_segment_name.
  - rewrite is_final_segment_name_parse.
    destruct (parse_segment_number name); split; [eauto|done|done|intros [? ?]; done].
  - apply temporary_names_agree.
  - exists (temporary_name n nonce). rewrite wal_temporary_file_name_ok by (done || lia).
    split; [done|]. by apply is_temporary_name.
Qed.

Lemma segment_names_witness :
  parse_segment_number (chars "wal-00000000000000000042.cwal") = Ok 42.
Proof.
  apply (segment_names (chars "wal-00000000000000000042.cwal") 42 sample_wal_id);
    [lia | reflexivity | reflexivity | vm_compute; reflexivity].
Defined.
