(* ===== verification/WalScan.v ===== *)
(** Discovery and physical scanning of a write-ahead log: src/wal/wal_scan.cpp,
    with the data of wal_scan_internal.hpp, wal_recovery_report.hpp and
    wal_replay_sink.hpp.  The scan reads through the file interface of PosixIo
    and calls back a replay sink, an arbitrary state transformer. *)
From stdpp Require Import sorting.
From S2P Require Import Prelude Bytes WalCodec PosixIo WalPaths.

(** * Data *)

Inductive WalScanClassification := kClean | kIncompleteFinalTail.
Inductive ScanPass := kVerify | kPreflight | kReplay.
#[global] Instance WalScanClassification_eq_dec : EqDecision WalScanClassification.
Proof. solve_decision. Defined.
#[global] Instance ScanPass_eq_dec : EqDecision ScanPass.
Proof. solve_decision. Defined.

Record WalRecoveryReport := {
  classification : WalScanClassification; rep_wal_id : WalId;
  segment_count : Z; temporary_file_count : Z; temporary_files_removed : Z;
  record_count : Z; physical_bytes : Z; valid_end : PhysicalWalPosition;
  observed_final_size : Z; last_record_sequence : Z; sequence_exhausted : bool;
  repaired : bool; repair_original_size : Z; repair_new_size : Z }.

Record DiscoveredWalSegment := { disc_number : Z; disc_file_name : FileName }.
Record WalDiscovery := {
  segments : list DiscoveredWalSegment; temporary_file_names : list FileName }.

Record WalReplayRecord := {
  replay_header : RecordHeader; record_start : PhysicalWalPosition;
  record_end : PhysicalWalPosition; replay_payload : list byte }.

(** [WalReplaySink]: the two virtual functions, over a sink state. *)
Record WalReplaySink (St : Type) := {
  sink_preflight : WalReplayRecord -> St -> StatusCode * St;
  sink_replay : WalReplayRecord -> St -> StatusCode * St }.
Arguments sink_preflight {St} _.
Arguments sink_replay {St} _.

(** Updates of a report. *)
Definition set_physical_bytes (r : WalRecoveryReport) (v : Z) : WalRecoveryReport :=
  {| classification := classification r; rep_wal_id := rep_wal_id r;
     segment_count := segment_count r; temporary_file_count := temporary_file_count r;
     temporary_files_removed := temporary_files_removed r; record_count := record_count r;
     physical_bytes := v; valid_end := valid_end r; observed_final_size := observed_final_size r;
     last_record_sequence := last_record_sequence r; sequence_exhausted := sequence_exhausted r;
     repaired := repaired r; repair_original_size := repair_original_size r;
     repair_new_size := repair_new_size r |}.
Definition set_wal_id (r : WalRecoveryReport) (v : WalId) : WalRecoveryReport :=
  {| classification := classification r; rep_wal_id := v;
     segment_count := segment_count r; temporary_file_count := temporary_file_count r;
     temporary_files_removed := temporary_files_removed r; record_count := record_count r;
     physical_bytes := physical_bytes r; valid_end := valid_end r;
     observed_final_size := observed_final_size r;
     last_record_sequence := last_record_sequence r; sequence_exhausted := sequence_exhausted r;
     repaired := repaired r; repair_original_size := repair_original_size r;
     repair_new_size := repair_new_size r |}.
Definition set_end (r : WalRecoveryReport) (c : WalScanClassification) (p : PhysicalWalPosition)
    (size : Z) : WalRecoveryReport :=
  {| classification := c; rep_wal_id := rep_wal_id r;
     segment_count := segment_count r; temporary_file_count := temporary_file_count r;
     temporary_files_removed := temporary_files_removed r; record_count := record_count r;
     physical_bytes := physical_bytes r; valid_end := p; observed_final_size := size;
     last_record_sequence := last_record_sequence r; sequence_exhausted := sequence_exhausted r;
     repaired := repaired r; repair_original_size := repair_original_size r;
     repair_new_size := repair_new_size r |}.
Definition set_progress (r : WalRecoveryReport) (count last : Z) (exhausted : bool)
  : WalRecoveryReport :=
  {| classification := classification r; rep_wal_id := rep_wal_id r;
     segment_count := segment_count r; temporary_file_count := temporary_file_count r;
     temporary_files_removed := temporary_files_removed r; record_count := count;
     physical_bytes := physical_bytes r; valid_end := valid_end r;
     observed_final_size := observed_final_size r;
     last_record_sequence := last; sequence_exhausted := exhausted;
     repaired := repaired r; repair_original_size := repair_original_size r;
     repair_new_size := repair_new_size r |}.

(** * Discovery *)

Definition number_le (a b : DiscoveredWalSegment) : Prop := disc_number a <= disc_number b.
#[global] Instance number_le_dec : RelDecision number_le.
Proof. intros a b. unfold number_le. apply _. Defined.

(** The classification loop over the entries of the directory. *)
Fixpoint discover_entries (entries : list DirectoryEntry) (saw_lock : bool) (d : WalDiscovery)
  : result (bool * WalDiscovery) :=
  match entries with
  | [] => Ok (saw_lock, d)
  | entry :: rest =>
      let name := entry_name entry in
      let not_regular := negb (bool_decide (entry_type entry = kRegularFile)) in
      if bool_decide (name = kWalLockFileName) then
        fail_if not_regular with kCorruption;
        discover_entries rest true d
      else if starts_with name (chars "wal-") then
        let? number := parse_segment_number name in
        fail_if not_regular with kCorruption;
        discover_entries rest saw_lock
          {| segments := segments d ++ [{| disc_number := number; disc_file_name := name |}];
             temporary_file_names := temporary_file_names d |}
      else if is_temporary_segment_name name then
        fail_if not_regular with kCorruption;
        discover_entries rest saw_lock
          {| segments := segments d; temporary_file_names := temporary_file_names d ++ [name] |}
      else if starts_with name (chars ".wal-") then Err kCorruption
      else Err kCorruption
  end.

Fixpoint complete_prefix (discovered : list DiscoveredWalSegment) (expected : Z) : bool :=
  match discovered with
  | [] => true
  | s :: rest => (disc_number s =? expected) && complete_prefix rest (expected + 1)
  end.

Definition classify_entries (entries : list DirectoryEntry) (require_complete_prefix : bool)
  : result WalDiscovery :=
  let? (saw_lock, d) :=
    discover_entries entries false {| segments := []; temporary_file_names := [] |} in
  fail_if negb saw_lock with kNotFound;
  fail_if match segments d with [] => true | _ => false end with kNotFound;
  let sorted := merge_sort number_le (segments d) in
  fail_if require_complete_prefix && negb (complete_prefix sorted 1) with kCorruption;
  Ok {| segments := sorted; temporary_file_names := temporary_file_names d |}.

Definition discover_wal {W} `{PosixIo W} (require_complete_prefix : bool) : IO W WalDiscovery :=
  let* entries := list_entries in
  io_pure (classify_entries entries require_complete_prefix).

(** * Checkpoints *)

Definition validate_replay_checkpoint (c : WalReplayCheckpoint) : StatusCode :=
  if negb (WalId_is_valid (ckpt_wal_id c)) || (ckpt_segment_number c =? 0)
     || (ckpt_byte_offset c <? kSegmentHeaderSize) || (ckpt_byte_offset c >? kSegmentSizeLimit)
  then kInvalidArgument
  else if (ckpt_record_sequence c =? 0)
          && (negb (ckpt_segment_number c =? kFirstSegmentNumber)
              || negb (ckpt_byte_offset c =? kSegmentHeaderSize))
  then kInvalidArgument
  else kOk.

(** [read_exact] of wal_scan.cpp. *)
Definition read_file_exact {W} `{PosixIo W} (f : PosixFile) (offset count : Z) : IO W (list byte) :=
  let* bytes := read_at f offset count in
  stop_if negb (blen bytes =? count) with kIoError;
  io_ret bytes.

Fixpoint validate_covered_headers {W} `{PosixIo W} (covered : list DiscoveredWalSegment)
    (checkpoint : WalReplayCheckpoint) : IO W unit :=
  match covered with
  | [] => io_ret tt
  | discovered :: rest =>
      let* file := open_regular_file (disc_file_name discovered) kReadOnly in
      let* size := file_size file in
      stop_if size <? kSegmentHeaderSize with kCorruption;
      do* io_check (validate_segment_size size);
      let* encoded := read_file_exact file 0 kSegmentHeaderSize in
      let* header := io_pure (decode_segment_header encoded) in
      stop_if negb (seg_number header =? disc_number discovered)
              || negb (bool_decide (seg_wal_id header = ckpt_wal_id checkpoint)) with kCorruption;
      validate_covered_headers rest checkpoint
  end.

(** [std::ranges::lower_bound] on the sorted segments: the ones below the
    checkpoint and the rest. *)
Fixpoint split_covered (discovered : list DiscoveredWalSegment) (number : Z)
  : list DiscoveredWalSegment * list DiscoveredWalSegment :=
  match discovered with
  | [] => ([], [])
  | s :: rest =>
      if disc_number s <? number then
        let (covered, required) := split_covered rest number in (s :: covered, required)
      else ([], discovered)
  end.

Fixpoint contiguous_after (previous : DiscoveredWalSegment) (rest : list DiscoveredWalSegment) : bool :=
  match rest with
  | [] => true
  | s :: rest' =>
      negb (disc_number previous =? max_u64) && (disc_number s =? disc_number previous + 1)
      && contiguous_after s rest'
  end.

Definition prepare_discovery_for_checkpoint {W} `{PosixIo W} (d : WalDiscovery)
    (checkpoint : WalReplayCheckpoint) : IO W WalDiscovery :=
  do* io_check (validate_replay_checkpoint checkpoint);
  let (covered, required) := split_covered (segments d) (ckpt_segment_number checkpoint) in
  match required with
  | [] => io_fail kCorruption
  | first :: rest =>
      stop_if negb (disc_number first =? ckpt_segment_number checkpoint)
              && ((ckpt_segment_number checkpoint =? max_u64)
                  || negb (disc_number first =? ckpt_segment_number checkpoint + 1)) with kCorruption;
      do* validate_covered_headers covered checkpoint;
      stop_if negb (contiguous_after first rest) with kCorruption;
      io_ret {| segments := required; temporary_file_names := temporary_file_names d |}
  end.

(** * The scan *)

Record ScanState := {
  sc_report : WalRecoveryReport; sc_expected : Z; sc_have_id : bool; sc_seen : bool }.

(** The record loop's variables in addition. *)
Record RecordScan := { rs_state : ScanState; rs_offset : Z; rs_in_segment : Z }.

Definition validate_report_increment (value : Z) : result Z :=
  fail_if value =? max_u64 with kResourceExhausted;
  Ok (value + 1).

(** Identity and first sequence of a segment: the first one establishes the WAL
    identity and the position relative to the checkpoint. *)
Definition check_identity (checkpoint : option WalReplayCheckpoint)
    (discovered : DiscoveredWalSegment) (header : SegmentHeader) (size : Z) (st : ScanState)
  : result ScanState :=
  if negb (sc_have_id st) then
    match checkpoint with
    | None =>
        fail_if negb (disc_number discovered =? kFirstSegmentNumber)
                || negb (seg_first_record_sequence header =? kFirstRecordSequence) with kCorruption;
        Ok {| sc_report := set_wal_id (sc_report st) (seg_wal_id header);
              sc_expected := sc_expected st; sc_have_id := true; sc_seen := sc_seen st |}
    | Some c =>
        fail_if negb (bool_decide (seg_wal_id header = ckpt_wal_id c)) with kCorruption;
        let? seen :=
          if disc_number discovered =? ckpt_segment_number c then
            fail_if (ckpt_byte_offset c <? kSegmentHeaderSize) || (ckpt_byte_offset c >? size)
              with kCorruption;
            fail_if (ckpt_record_sequence c =? 0)
                    && negb (seg_first_record_sequence header =? kFirstRecordSequence)
              with kCorruption;
            Ok ((ckpt_record_sequence c =? 0) && (ckpt_byte_offset c =? kSegmentHeaderSize))
          else
            fail_if (ckpt_segment_number c =? max_u64)
                    || negb (disc_number discovered =? ckpt_segment_number c + 1)
                    || (ckpt_record_sequence c =? max_u64)
                    || negb (seg_first_record_sequence header =? ckpt_record_sequence c + 1)
              with kCorruption;
            Ok true in
        Ok {| sc_report := set_wal_id (sc_report st) (seg_wal_id header);
              sc_expected := seg_first_record_sequence header; sc_have_id := true;
              sc_seen := seen |}
    end
  else
    fail_if negb (bool_decide (seg_wal_id header = rep_wal_id (sc_report st))) with kCorruption;
    Ok st.

Section scan.
Context {W St : Type} `{PosixIo W}.
Variables (pass : ScanPass) (sink : option (WalReplaySink St))
  (checkpoint : option WalReplayCheckpoint).

(** The scan's state is the world and the state of the sink. *)
Definition lift_io {A} (c : IO W A) : IO (W * St) A := fun ws =>
  let (r, w') := c ws.1 in (r, (w', ws.2)).
Definition call_sink (f : WalReplayRecord -> St -> StatusCode * St) (record : WalReplayRecord)
  : IO (W * St) unit := fun ws =>
  let (status, s') := f record ws.2 in
  (if is_ok status then Ok tt else make_unexpected status, (ws.1, s')).

(** The incomplete final tail: the report returned at once. *)
Definition incomplete_tail (discovered : DiscoveredWalSegment) (is_final : bool) (size : Z)
    (rs : RecordScan) : IO (W * St) (RecordScan + WalRecoveryReport) :=
  stop_if negb is_final with kCorruption;
  stop_if bool_decide (is_Some checkpoint) && negb (sc_seen (rs_state rs)) with kCorruption;
  let report := sc_report (rs_state rs) in
  io_ret (inr (set_end report kIncompleteFinalTail
    {| pos_wal_id := rep_wal_id report; pos_segment_number := disc_number discovered;
       pos_byte_offset := rs_offset rs |} size)).

(** Whether the record just read, which ends at [offset], is the checkpoint's. *)
Definition pass_checkpoint (discovered : DiscoveredWalSegment) (header : RecordHeader)
    (offset : Z) (seen : bool) : result bool :=
  match checkpoint with
  | None => Ok seen
  | Some c =>
      let? seen :=
        if (disc_number discovered =? ckpt_segment_number c)
           && (record_sequence header =? ckpt_record_sequence c)
        then fail_if negb (offset =? ckpt_byte_offset c) with kCorruption; Ok true
        else Ok seen in
      fail_if negb seen && (ckpt_byte_offset c <=? offset) with kCorruption;
      Ok seen
  end.

Definition after_checkpoint (header : RecordHeader) : bool :=
  match checkpoint with
  | None => true
  | Some c => ckpt_record_sequence c <? record_sequence header
  end.

(** The callback of the pass on one record. *)
Definition call_back (record : WalReplayRecord) : IO (W * St) unit :=
  match sink with
  | Some k =>
      if bool_decide (pass <> kVerify) && after_checkpoint (replay_header record) then
        call_sink (if bool_decide (pass = kPreflight) then sink_preflight k else sink_replay k) record
      else io_ret tt
  | None => io_ret tt
  end.

(** Advance past a complete record. *)
Definition count_record (is_final : bool) (size offset : Z) (rs : RecordScan) (seen : bool)
  : result RecordScan :=
  let st := rs_state rs in
  let? count := validate_report_increment (record_count (sc_report st)) in
  let expected := sc_expected st in
  if expected =? max_u64 then
    fail_if negb is_final || negb (offset =? size) with kCorruption;
    Ok {| rs_state := {| sc_report := set_progress (sc_report st) count expected true;
                         sc_expected := expected; sc_have_id := sc_have_id st; sc_seen := seen |};
          rs_offset := offset; rs_in_segment := rs_in_segment rs + 1 |}
  else
    Ok {| rs_state := {| sc_report := set_progress (sc_report st) count expected
                                        (sequence_exhausted (sc_report st));
                         sc_expected := expected + 1; sc_have_id := sc_have_id st;
                         sc_seen := seen |};
          rs_offset := offset; rs_in_segment := rs_in_segment rs + 1 |}.

(** The body of the record loop. *)
Definition scan_record (file : PosixFile) (discovered : DiscoveredWalSegment) (is_final : bool)
    (size : Z) (rs : RecordScan) : IO (W * St) (RecordScan + WalRecoveryReport) :=
  let offset := rs_offset rs in
  let remaining := size - offset in
  if remaining <? kRecordHeaderSize then incomplete_tail discovered is_final size rs
  else
  let* encoded_header := lift_io (read_file_exact file offset kRecordHeaderSize) in
  let* header := io_pure (decode_record_header_for_physical_scan encoded_header) in
  stop_if negb (record_sequence header =? sc_expected (rs_state rs)) with kCorruption;
  if total_length header >? remaining then
    stop_if negb (record_flags header =? 0) with kNotSupported;
    incomplete_tail discovered is_final size rs
  else
  let* encoded := lift_io (read_file_exact file offset (total_length header)) in
  let* decoded := io_pure (decode_record encoded) in
  let position o := {| pos_wal_id := rep_wal_id (sc_report (rs_state rs));
                       pos_segment_number := disc_number discovered; pos_byte_offset := o |} in
  let end_offset := offset + total_length header in
  let* seen := io_pure (pass_checkpoint discovered header end_offset (sc_seen (rs_state rs))) in
  do* call_back {| replay_header := rec_header decoded; record_start := position offset;
                   record_end := position end_offset; replay_payload := rec_payload decoded |};
  let* rs' := io_pure (count_record is_final size end_offset rs seen) in
  io_ret (inl rs').

(** The record loop.  Every record is at least 48 bytes long, so that [size]
    rounds are enough: [scan_records_fuel] below. *)
Fixpoint scan_records (fuel : nat) (file : PosixFile) (discovered : DiscoveredWalSegment)
    (is_final : bool) (size : Z) (rs : RecordScan) : IO (W * St) (RecordScan + WalRecoveryReport) :=
  if negb (rs_offset rs <? size) then io_ret (inl rs)
  else match fuel with
  | O => io_fail kInternal
  | S fuel =>
      let* next := scan_record file discovered is_final size rs in
      match next with
      | inl rs' => scan_records fuel file discovered is_final size rs'
      | inr report => io_ret (inr report)
      end
  end.

(** Opening a segment: size, header and identity. *)
Definition open_segment (discovered : DiscoveredWalSegment) (st : ScanState)
  : IO W (PosixFile * Z * ScanState) :=
  let* file := open_regular_file (disc_file_name discovered) kReadOnly in
  let* size := file_size file in
  stop_if size <? kSegmentHeaderSize with kCorruption;
  do* io_check (validate_segment_size size);
  stop_if physical_bytes (sc_report st) >? max_u64 - size with kResourceExhausted;
  let st := {| sc_report := set_physical_bytes (sc_report st) (physical_bytes (sc_report st) + size);
               sc_expected := sc_expected st; sc_have_id := sc_have_id st; sc_seen := sc_seen st |} in
  let* encoded := read_file_exact file 0 kSegmentHeaderSize in
  let* header := io_pure (decode_segment_header encoded) in
  stop_if negb (seg_number header =? disc_number discovered) with kCorruption;
  let* st := io_pure (check_identity checkpoint discovered header size st) in
  stop_if negb (seg_first_record_sequence header =? sc_expected st) with kCorruption;
  io_ret (file, size, st).

(** What follows the record loop of a segment. *)
Definition finish_segment (discovered : DiscoveredWalSegment) (is_final : bool) (size : Z)
    (scanned : RecordScan + WalRecoveryReport) : IO (W * St) (ScanState + WalRecoveryReport) :=
  match scanned with
  | inr report => io_ret (inr report)
  | inl rs =>
      let st := rs_state rs in
      let report := sc_report st in
      stop_if negb is_final && (rs_in_segment rs =? 0) with kCorruption;
      stop_if sequence_exhausted report && negb is_final with kCorruption;
      io_ret (inl (if is_final then
        {| sc_report := set_end report (classification report)
             {| pos_wal_id := rep_wal_id report; pos_segment_number := disc_number discovered;
                pos_byte_offset := rs_offset rs |} size;
           sc_expected := sc_expected st; sc_have_id := sc_have_id st; sc_seen := sc_seen st |}
        else st))
  end.

(** The body of the segment loop. *)
Definition scan_segment (discovered : DiscoveredWalSegment) (is_final : bool) (st : ScanState)
  : IO (W * St) (ScanState + WalRecoveryReport) :=
  let* (file, size, st) := lift_io (open_segment discovered st) in
  let* scanned := scan_records (Z.to_nat size) file discovered is_final size
                    {| rs_state := st; rs_offset := kSegmentHeaderSize; rs_in_segment := 0 |} in
  finish_segment discovered is_final size scanned.

Fixpoint scan_segments (discovered : list DiscoveredWalSegment) (st : ScanState)
  : IO (W * St) WalRecoveryReport :=
  match discovered with
  | [] =>
      stop_if negb (sc_seen st) with kCorruption;
      io_ret (sc_report st)
  | s :: rest =>
      let* scanned := scan_segment s (match rest with [] => true | _ => false end) st in
      match scanned with
      | inr report => io_ret report
      | inl st' => scan_segments rest st'
      end
  end.

Definition initial_scan (d : WalDiscovery) : ScanState :=
  {| sc_report :=
       {| classification := kClean; rep_wal_id := replicate 16 x00;
          segment_count := Z.of_nat (length (segments d));
          temporary_file_count := Z.of_nat (length (temporary_file_names d));
          temporary_files_removed := 0; record_count := 0; physical_bytes := 0;
          valid_end := {| pos_wal_id := replicate 16 x00; pos_segment_number := 0;
                          pos_byte_offset := 0 |};
          observed_final_size := 0;
          last_record_sequence := match checkpoint with Some c => ckpt_record_sequence c | None => 0 end;
          sequence_exhausted := false; repaired := false; repair_original_size := 0;
          repair_new_size := 0 |};
     sc_expected := kFirstRecordSequence; sc_have_id := false;
     sc_seen := negb (bool_decide (is_Some checkpoint)) |}.

Definition scan_discovered_wal (d : WalDiscovery) : IO (W * St) WalRecoveryReport :=
  stop_if bool_decide (pass <> kVerify) && negb (bool_decide (is_Some sink)) with kInternal;
  scan_segments (segments d) (initial_scan d).
End scan.

(** * Entry points *)

Section entry.
Context {W St : Type} `{PosixIo W}.

(** [open_locked_wal_directory] and its variant for a checkpoint: the lock is
    taken before the directory is listed.  The owned handles are not part of
    the model. *)
Definition open_locked (directory_path : list byte) (lock_permissions : Z)
    (create_lock require_complete_prefix : bool) : IO W WalDiscovery :=
  do* open_directory directory_path;
  do* (if create_lock then acquire_exclusive_lock kWalLockFileName lock_permissions
       else acquire_existing_exclusive_lock kWalLockFileName);
  discover_wal require_complete_prefix.
Definition open_locked_wal_directory (directory_path : list byte) (lock_permissions : Z)
    (create_lock : bool) : IO W WalDiscovery :=
  open_locked directory_path lock_permissions create_lock true.
Definition open_locked_wal_directory_for_checkpoint (directory_path : list byte)
    (lock_permissions : Z) (create_lock : bool) : IO W WalDiscovery :=
  open_locked directory_path lock_permissions create_lock false.

Definition require_same_verified_history (expected observed : WalRecoveryReport) : StatusCode :=
  if negb (bool_decide (classification expected = kClean))
     || negb (bool_decide (classification observed = kClean))
     || negb (bool_decide (rep_wal_id expected = rep_wal_id observed))
     || negb (segment_count expected =? segment_count observed)
     || negb (temporary_file_count expected =? temporary_file_count observed)
     || negb (record_count expected =? record_count observed)
     || negb (physical_bytes expected =? physical_bytes observed)
     || negb (bool_decide (valid_end expected = valid_end observed))
     || negb (last_record_sequence expected =? last_record_sequence observed)
     || negb (Bool.eqb (sequence_exhausted expected) (sequence_exhausted observed))
  then kCorruption else kOk.

Definition scan_wal (directory_path : list byte) : IO (W * St) WalRecoveryReport :=
  let* discovery := lift_io (open_locked_wal_directory directory_path 384 false) in
  scan_discovered_wal kVerify None None discovery.

Definition inspect_wal_suffix (directory_path : list byte) (checkpoint : WalReplayCheckpoint)
    (sink : WalReplaySink St) : IO (W * St) WalRecoveryReport :=
  do* io_check (validate_replay_checkpoint checkpoint);
  let* discovery := lift_io (open_locked_wal_directory_for_checkpoint directory_path 384 false) in
  let* discovery := lift_io (prepare_discovery_for_checkpoint discovery checkpoint) in
  let* verified := scan_discovered_wal kVerify None (Some checkpoint) discovery in
  if bool_decide (classification verified = kIncompleteFinalTail) then io_ret verified
  else
  let* preflight := scan_discovered_wal kPreflight (Some sink) (Some checkpoint) discovery in
  do* io_check (require_same_verified_history verified preflight);
  let* replayed := scan_discovered_wal kReplay (Some sink) (Some checkpoint) discovery in
  do* io_check (require_same_verified_history verified replayed);
  io_ret replayed.
End entry.
