(* ===== verification/WalHistory.v ===== *)
(** What a write-ahead log holds: the abstract history of records, how it is laid
    out in segment files, and that the scanner of WalScan accepts exactly the
    layouts of histories, delivers their records in order, and recognises a torn
    final record. *)
From S2P Require Import Prelude Bytes Crc32c WalCodec PosixIo DiskFacts WalPaths WalScan.

(** * Histories *)

(** A record: its header and its payload. *)
Definition LogRecord : Type := RecordHeader * list byte.
Definition frame (r : LogRecord) : list byte := record_bytes r.1 r.2.
Definition frames (rs : list LogRecord) : list byte := concat (frame <$> rs).

(** Well-formed records with consecutive sequence numbers from [seq]. *)
Fixpoint sequenced (seq : Z) (rs : list LogRecord) : Prop :=
  match rs with
  | [] => True
  | r :: rest => record_ok r.1 r.2 /\ record_sequence r.1 = seq /\ sequenced (seq + 1) rest
  end.

Record Segment := { sg_header : SegmentHeader; sg_records : list LogRecord }.
Definition segment_bytes (sg : Segment) : list byte :=
  segment_header_bytes (sg_header sg) ++ frames (sg_records sg).

(** One segment of the log with identity [id], number [n], starting at [seq]. *)
Definition segment_ok (id : WalId) (n seq : Z) (sg : Segment) : Prop :=
  segment_header_wf (sg_header sg) /\ seg_wal_id (sg_header sg) = id /\
  seg_number (sg_header sg) = n /\ seg_first_record_sequence (sg_header sg) = seq /\
  sequenced seq (sg_records sg) /\ blen (segment_bytes sg) <= kSegmentSizeLimit.

(** Consecutive segments, all but the last nonempty. *)
Fixpoint history (id : WalId) (n seq : Z) (sgs : list Segment) : Prop :=
  match sgs with
  | [] => True
  | sg :: rest =>
      segment_ok id n seq sg /\ (rest <> [] -> sg_records sg <> []) /\
      history id (n + 1) (seq + Z.of_nat (length (sg_records sg))) rest
  end.

Definition all_records (sgs : list Segment) : list LogRecord := concat (sg_records <$> sgs).

(** The files of a history, under the canonical names. *)
Definition discovered_at (n : Z) : DiscoveredWalSegment :=
  {| disc_number := n; disc_file_name := segment_name n |}.
Fixpoint on_disk (d : Disk) (n : Z) (contents : list (list byte)) : Prop :=
  match contents with
  | [] => True
  | bs :: rest =>
      (exists f, d_names d !! segment_name n = Some (kRegularFile, f) /\ d_data d !! f = Some bs) /\
      on_disk d (n + 1) rest
  end.

(** ** Lengths *)

Lemma frames_cons r rs : frames (r :: rs) = frame r ++ frames rs.
Proof. reflexivity. Qed.
Lemma frames_app a b : frames (a ++ b) = frames a ++ frames b.
Proof. unfold frames. by rewrite fmap_app, concat_app. Qed.

Lemma frame_total seq r rs : sequenced seq (r :: rs) -> blen (frame r) = total_length r.1.
Proof. intros (Hok & _). by apply length_record_ok. Qed.

Lemma record_ok_length h p : record_ok h p -> 48 <= blen (record_bytes h p) <= kMaximumRecordLength.
Proof.
  intros Hok. rewrite length_record_ok by done. destruct Hok as (Hwf & _).
  rewrite (rhw_total h Hwf). apply frame_length_bounds, (rhw_payload h Hwf).
Qed.

Lemma sequenced_app seq a b :
  sequenced seq (a ++ b) <-> sequenced seq a /\ sequenced (seq + Z.of_nat (length a)) b.
Proof.
  revert seq. induction a as [|r a IH]; intros seq; cbn [app sequenced length].
  - rewrite Z.add_0_r. naive_solver.
  - rewrite IH. replace (seq + 1 + Z.of_nat (length a)) with (seq + Z.of_nat (S (length a))) by lia.
    naive_solver.
Qed.

Lemma frames_length_bound seq rs : sequenced seq rs -> 48 * Z.of_nat (length rs) <= blen (frames rs).
Proof.
  revert seq. induction rs as [|r rs IH]; intros seq H; [done|].
  destruct H as (Hok & _ & Hrs). rewrite frames_cons, length_app.
  pose proof (record_ok_length _ _ Hok). specialize (IH _ Hrs). unfold frame in *. cbn [length]. lia.
Qed.

Lemma segment_ok_size id n seq sg :
  segment_ok id n seq sg -> 64 <= blen (segment_bytes sg) <= kSegmentSizeLimit.
Proof.
  intros (Hwf & _ & _ & _ & _ & Hsz). split; [|done]. unfold segment_bytes.
  rewrite length_app. pose proof (length_segment_header_bytes _ (shw_id _ Hwf)). lia.
Qed.

(** ** Reading through the interface *)

Section reading.
Context {W : Type} {HIO : PosixIo W} {HL : PosixLaws W}.

Lemma read_file_exact_ok f off n (w : W) data :
  reliable w -> d_data (disk w) !! f = Some data ->
  0 <= off -> 0 <= n -> off + n <= blen data -> blen data < 2 ^ 63 ->
  exists w', read_file_exact f off n w = (Ok (subspan data off n), w') /\
    disk w' = disk w /\ reliable w'.
Proof.
  intros Hr Hd Ho Hn Hin Hsz. unfold read_file_exact.
  destruct (implements_enabled _ _ _ _ _ _ w (law_read f off n) Hr) as (bs & w' & E & Hp & Hr').
  { rewrite Hd. split; [eauto|lia]. }
  destruct Hp as (Hdisk & data' & Hd' & ->). rewrite Hd in Hd'. injection Hd' as <-.
  exists w'. split; [|done]. rewrite (io_bind_step _ _ _ _ _ E).
  rewrite length_subspan, Z2Nat.id by lia. by rewrite Z.eqb_refl.
Qed.

Lemma read_file_exact_inv f off n (w : W) bs w' :
  0 <= off -> 0 <= n -> read_file_exact f off n w = (Ok bs, w') ->
  disk w' = disk w /\ exists data, d_data (disk w) !! f = Some data /\
    bs = subspan data off n /\ blen bs = n.
Proof.
  intros Ho Hn H. unfold read_file_exact in H. apply io_bind_Ok in H as (bs' & w1 & E & H).
  destruct (implements_Ok _ _ _ _ _ _ _ _ _ (law_read f off n) E) as [(Hd & data & Hdata & ->) _].
  destruct (Z.eqb_spec (blen (subspan data off n)) n) as [El|]; [|done].
  injection H as <- <-. eauto 10.
Qed.
End reading.

(** ** Fields of a file *)

Lemma subspan_prefix {A} (a b c : list A) off n :
  off = blen a -> n <= blen b -> subspan (a ++ b ++ c) off n = take (Z.to_nat n) b.
Proof.
  intros -> Hn. unfold subspan. rewrite Nat2Z.id, drop_app_length, take_app_le by lia. done.
Qed.

(** * Scanning the records of a segment *)

(** The record as the sink sees it, at [off] of segment [n]. *)
Definition replay_record (id : WalId) (n off : Z) (r : LogRecord) : WalReplayRecord :=
  let position o := {| pos_wal_id := id; pos_segment_number := n; pos_byte_offset := o |} in
  {| replay_header := r.1; record_start := position off;
     record_end := position (off + blen (frame r)); replay_payload := r.2 |}.
Fixpoint replay_records (id : WalId) (n off : Z) (rs : list LogRecord) : list WalReplayRecord :=
  match rs with
  | [] => []
  | r :: rest => replay_record id n off r :: replay_records id n (off + blen (frame r)) rest
  end.

Lemma replay_records_app id n off a b :
  replay_records id n off (a ++ b) =
    replay_records id n off a ++ replay_records id n (off + blen (frames a)) b.
Proof.
  revert off. induction a as [|r a IH]; intros off; cbn [app replay_records].
  - by rewrite Z.add_0_r.
  - rewrite IH, frames_cons, length_app. cbn [app].
    by replace (off + blen (frame r) + blen (frames a))
      with (off + Z.of_nat (length (frame r) + length (frames a))) by lia.
Qed.

(** The scan state after [count] more records. *)
Definition advance_state (st : ScanState) (count : Z) (seen : bool) : ScanState :=
  {| sc_report := set_progress (sc_report st) (record_count (sc_report st) + count)
       (if count =? 0 then last_record_sequence (sc_report st) else sc_expected st + count - 1)
       (sequence_exhausted (sc_report st));
     sc_expected := sc_expected st + count; sc_have_id := sc_have_id st; sc_seen := seen |}.

Lemma advance_state_0 st : advance_state st 0 (sc_seen st) = st.
Proof. unfold advance_state. rewrite !Z.add_0_r. by destruct st as [[] ? ? ?]. Qed.
Lemma advance_state_S st a b s s' :
  0 <= a -> 0 < b -> advance_state (advance_state st a s) b s' = advance_state st (a + b) s'.
Proof.
  intros Ha Hb. unfold advance_state, set_progress. cbn.
  destruct (Z.eqb_spec b 0); [lia|]. destruct (Z.eqb_spec (a + b) 0); [lia|].
  f_equal; [f_equal|]; lia.
Qed.

Section records.
Context {W St : Type} {HIO : PosixIo W} {HL : PosixLaws W}.
Variables (pass : ScanPass) (sink : option (WalReplaySink St))
  (checkpoint : option WalReplayCheckpoint).

(** What the pass does to the sink on one record, and on several. *)
Definition deliver (record : WalReplayRecord) (s : St) : option St :=
  match sink with
  | Some k =>
      if bool_decide (pass <> kVerify) && after_checkpoint checkpoint (replay_header record) then
        let (status, s') :=
          (if bool_decide (pass = kPreflight) then sink_preflight k else sink_replay k) record s in
        if is_ok status then Some s' else None
      else Some s
  | None => Some s
  end.
Fixpoint deliver_all (records : list WalReplayRecord) (s : St) : option St :=
  match records with
  | [] => Some s
  | r :: rest => match deliver r s with Some s' => deliver_all rest s' | None => None end
  end.

Lemma deliver_all_app a b s :
  deliver_all (a ++ b) s = match deliver_all a s with Some s' => deliver_all b s' | None => None end.
Proof.
  revert s. induction a as [|r a IH]; intros s; [done|]. cbn. by destruct (deliver r s).
Qed.

Lemma call_back_ok record w s s' :
  deliver record s = Some s' ->
  call_back (W := W) pass sink checkpoint record (w, s) = (Ok tt, (w, s')).
Proof.
  unfold deliver, call_back, call_sink. destruct sink as [k|]; [|by intros [= <-]].
  destruct (_ && _); [|by intros [= <-]]. cbn [fst snd].
  destruct (_ record s) as [status s1]. destruct (is_ok status); [|done]. by intros [= <-].
Qed.

Lemma call_back_inv record w s w' s' :
  call_back (W := W) pass sink checkpoint record (w, s) = (Ok tt, (w', s')) ->
  w' = w /\ deliver record s = Some s'.
Proof.
  unfold deliver, call_back, call_sink. destruct sink as [k|]; [|by intros [= <- <-]].
  destruct (_ && _); [|by intros [= <- <-]]. cbn [fst snd].
  destruct (_ record s) as [status s1]. destruct (is_ok status); [by intros [= <- <-]|].
  destruct (@make_unexpected_not_ok unit status) as (? & -> & _). done.
Qed.

(** The checkpoint flag after the records of a segment. *)
Fixpoint checkpoint_run (n off : Z) (rs : list LogRecord) (seen : bool) : result bool :=
  match rs with
  | [] => Ok seen
  | r :: rest =>
      let? seen' := pass_checkpoint checkpoint (discovered_at n) r.1 (off + blen (frame r)) seen in
      checkpoint_run n (off + blen (frame r)) rest seen'
  end.

Context (f : PosixFile) (n : Z) (is_final : bool) (data : list byte).
Let size := blen data.

(** One complete record is read, checked, delivered and counted. *)
Lemma scan_record_ok rs (w : W) s s' pre r tail seen' :
  reliable w -> d_data (disk w) !! f = Some data -> size <= kSegmentSizeLimit ->
  data = pre ++ frame r ++ tail -> rs_offset rs = blen pre ->
  record_ok r.1 r.2 -> record_sequence r.1 = sc_expected (rs_state rs) ->
  sc_expected (rs_state rs) < max_u64 -> record_count (sc_report (rs_state rs)) < max_u64 ->
  pass_checkpoint checkpoint (discovered_at n) r.1 (rs_offset rs + blen (frame r))
    (sc_seen (rs_state rs)) = Ok seen' ->
  deliver (replay_record (rep_wal_id (sc_report (rs_state rs))) n (rs_offset rs) r) s = Some s' ->
  exists w', disk w' = disk w /\ reliable w' /\
    scan_record pass sink checkpoint f (discovered_at n) is_final size rs (w, s) =
      (Ok (inl {| rs_state := advance_state (rs_state rs) 1 seen';
                  rs_offset := rs_offset rs + blen (frame r);
                  rs_in_segment := rs_in_segment rs + 1 |}), (w', s')).
Proof.
  intros Hr Hd Hsz Hdata Hoff Hok Hseq Hexp Hcnt Hck Hdel.
  pose proof (record_ok_length _ _ Hok) as Hlen. fold (frame r) in Hlen.
  pose proof (length_record_ok _ _ Hok) as Htot. fold (frame r) in Htot.
  assert (Hsum : size = blen pre + blen (frame r) + blen tail)
    by (unfold size; rewrite Hdata, !length_app; lia).
  unfold kSegmentSizeLimit in Hsz. unfold scan_record, kRecordHeaderSize.
  destruct (Z.ltb_spec (size - rs_offset rs) 40); [lia|].
  destruct (read_file_exact_ok f (rs_offset rs) 40 w data Hr Hd) as (w1 & E1 & D1 & R1);
    [lia..|].
  assert (Hhead : subspan data (rs_offset rs) 40 = record_header_bytes r.1).
  { rewrite Hdata, subspan_prefix by lia. unfold frame, record_bytes, with_crc, record_body.
    rewrite <- !app_assoc. by apply take_app_length'. }
  unfold io_bind at 1, lift_io. cbn [fst snd]. rewrite E1, Hhead.
  unfold io_bind at 1, io_pure at 1, decode_record_header_for_physical_scan.
  pose proof (parse_record_header_complete r.1 [] (proj1 Hok)) as Hp. rewrite app_nil_r in Hp.
  rewrite Hp. rewrite Hseq, Z.eqb_refl. cbn [negb].
  destruct (Z.gtb_spec (total_length r.1) (size - rs_offset rs)); [lia|].
  destruct (read_file_exact_ok f (rs_offset rs) (total_length r.1) w1 data R1) as (w2 & E2 & D2 & R2);
    [by rewrite D1|lia..|].
  assert (Hfull : subspan data (rs_offset rs) (total_length r.1) = frame r).
  { rewrite Hdata, subspan_prefix, <- Htot, Nat2Z.id by lia. apply take_ge. lia. }
  unfold io_bind at 1. cbn [fst snd]. rewrite E2, Hfull.
  pose proof (decode_record_complete r.1 r.2 [] Hok) as Hdec. rewrite app_nil_r in Hdec.
  unfold frame at 1. unfold io_bind at 1, io_pure at 1. rewrite Hdec. cbn [rec_header rec_payload].
  unfold io_bind at 1, io_pure at 1. rewrite <- Htot, Hck.
  exists w2. rewrite D2, D1. split; [done|]. split; [done|].
  erewrite io_bind_step; [|apply call_back_ok; exact Hdel].
  unfold io_bind, io_pure, count_record, validate_report_increment.
  destruct (Z.eqb_spec (record_count (sc_report (rs_state rs))) max_u64); [lia|].
  cbn [rbind]. destruct (Z.eqb_spec (sc_expected (rs_state rs)) max_u64); [lia|].
  unfold io_ret, advance_state. cbn [Z.eqb]. by replace (sc_expected (rs_state rs) + 1 - 1) with (sc_expected (rs_state rs)) by lia.
Qed.

(** A run of complete records. *)
Lemma scan_records_ok records : forall fuel rs (w : W) s s' pre tail seen',
  reliable w -> d_data (disk w) !! f = Some data -> size <= kSegmentSizeLimit ->
  data = pre ++ frames records ++ tail -> rs_offset rs = blen pre ->
  sequenced (sc_expected (rs_state rs)) records ->
  sc_expected (rs_state rs) + Z.of_nat (length records) <= max_u64 ->
  record_count (sc_report (rs_state rs)) + Z.of_nat (length records) <= max_u64 ->
  checkpoint_run n (rs_offset rs) records (sc_seen (rs_state rs)) = Ok seen' ->
  deliver_all (replay_records (rep_wal_id (sc_report (rs_state rs))) n (rs_offset rs) records) s
    = Some s' ->
  exists w', disk w' = disk w /\ reliable w' /\
    scan_records pass sink checkpoint (length records + fuel) f (discovered_at n) is_final size rs
      (w, s) =
    scan_records pass sink checkpoint fuel f (discovered_at n) is_final size
      {| rs_state := advance_state (rs_state rs) (Z.of_nat (length records)) seen';
         rs_offset := rs_offset rs + blen (frames records);
         rs_in_segment := rs_in_segment rs + Z.of_nat (length records) |} (w', s').
Proof.
  induction records as [|r records IH];
    intros fuel rs w s s' pre tail seen' Hr Hd Hsz Hdata Hoff Hseq Hexp Hcnt Hck Hdel.
  - exists w. cbn in *. injection Hck as <-. injection Hdel as <-.
    rewrite advance_state_0, !Z.add_0_r. by destruct rs.
  - destruct Hseq as (Hok & Hs & Hrest). cbn [checkpoint_run replay_records deliver_all] in Hck, Hdel.
    apply rbind_Ok in Hck as (seen1 & Hck1 & Hck).
    destruct (deliver _ s) as [s1|] eqn:Hd1; [|done].
    cbn [length] in *. rewrite frames_cons, <- app_assoc in Hdata.
    destruct (scan_record_ok rs w s s1 pre r (frames records ++ tail) seen1)
      as (w1 & D1 & R1 & E1); try done; [lia|lia|].
    pose proof (record_ok_length _ _ Hok) as Hlen. fold (frame r) in Hlen.
    edestruct (IH fuel {| rs_state := advance_state (rs_state rs) 1 seen1;
                  rs_offset := rs_offset rs + blen (frame r);
                  rs_in_segment := rs_in_segment rs + 1 |} w1 s1 s' (pre ++ frame r) tail seen')
      as (w2 & D2 & R2 & E2); cbn [rs_state rs_offset advance_state sc_expected sc_report
        set_progress record_count rep_wal_id sc_seen]; try done;
      [by rewrite D1|by rewrite <- app_assoc|rewrite length_app; lia|lia|lia|].
    exists w2. rewrite D2, D1. split; [done|]. split; [done|].
    cbn [Nat.add scan_records]. destruct (Z.ltb_spec (rs_offset rs) size) as [_|Hge].
    2:{ unfold size in *. rewrite Hdata, !length_app in Hge. lia. }
    cbn [negb]. rewrite (io_bind_step _ _ _ _ _ E1), E2.
    cbn [rs_state rs_offset rs_in_segment]. do 2 f_equal.
    + destruct (decide (records = [])) as [->|Hne].
      * injection Hck as <-. apply (advance_state_0 (advance_state (rs_state rs) 1 seen1)).
      * rewrite advance_state_S by (lia || (destruct records; [done|cbn [length]; lia])).
        by replace (1 + Z.of_nat (length records)) with (Z.of_nat (S (length records))) by lia.
    + rewrite frames_cons, length_app. lia.
    + lia.
Qed.

(** A record cut short at the end of the final segment. *)
Lemma scan_torn_record rs (w : W) s pre r k :
  reliable w -> d_data (disk w) !! f = Some data -> size <= kSegmentSizeLimit ->
  data = pre ++ take k (frame r) -> rs_offset rs = blen pre ->
  record_ok r.1 r.2 -> record_sequence r.1 = sc_expected (rs_state rs) ->
  (0 < k < length (frame r))%nat -> is_final = true ->
  (is_Some checkpoint -> sc_seen (rs_state rs) = true) ->
  exists w', disk w' = disk w /\ reliable w' /\
    scan_record pass sink checkpoint f (discovered_at n) is_final size rs (w, s) =
      (Ok (inr (set_end (sc_report (rs_state rs)) kIncompleteFinalTail
          {| pos_wal_id := rep_wal_id (sc_report (rs_state rs)); pos_segment_number := n;
             pos_byte_offset := rs_offset rs |} size)), (w', s)).
Proof.
  intros Hr Hd Hsz Hdata Hoff Hok Hseq Hk Hfin Hseen.
  assert (Htail : forall w0 : W, incomplete_tail (W := W) checkpoint (discovered_at n) is_final size rs (w0, s)
    = (Ok (inr (set_end (sc_report (rs_state rs)) kIncompleteFinalTail
          {| pos_wal_id := rep_wal_id (sc_report (rs_state rs)); pos_segment_number := n;
             pos_byte_offset := rs_offset rs |} size)), (w0, s))).
  { intros w0. unfold incomplete_tail. rewrite Hfin. cbn [negb].
    case_bool_decide as Hc; [rewrite (Hseen Hc)|]; done. }
  assert (Hsum : size = blen pre + Z.of_nat k)
    by (unfold size; rewrite Hdata, length_app, length_take; lia).
  unfold kSegmentSizeLimit in Hsz. unfold scan_record, kRecordHeaderSize.
  destruct (Z.ltb_spec (size - rs_offset rs) 40); [by eauto|].
  destruct (read_file_exact_ok f (rs_offset rs) 40 w data Hr Hd) as (w1 & E1 & D1 & R1); [lia..|].
  assert (Hhead : subspan data (rs_offset rs) 40 = record_header_bytes r.1).
  { rewrite Hdata, <- (app_nil_r (take k _)), subspan_prefix by (rewrite ?length_take; lia).
    rewrite take_take, Nat.min_l by lia. unfold frame, record_bytes, with_crc, record_body.
    rewrite <- !app_assoc. by apply take_app_length'. }
  exists w1. split; [done|]. split; [done|].
  unfold io_bind at 1, lift_io. cbn [fst snd]. rewrite E1, Hhead.
  unfold io_bind at 1, io_pure at 1, decode_record_header_for_physical_scan.
  pose proof (parse_record_header_complete r.1 [] (proj1 Hok)) as Hp. rewrite app_nil_r in Hp.
  rewrite Hp, Hseq, Z.eqb_refl. cbn [negb].
  pose proof (length_record_ok _ _ Hok) as Htot. fold (frame r) in Htot.
  destruct (Z.gtb_spec (total_length r.1) (size - rs_offset rs)); [|lia].
  destruct Hok as (_ & Hfl & _). rewrite Hfl. cbn [Z.eqb negb]. apply Htail.
Qed.
End records.

(** ** The record loop never runs out of rounds *)

Section fuel.
Context {W St : Type} {HIO : PosixIo W}.
Variables (pass : ScanPass) (sink : option (WalReplaySink St))
  (checkpoint : option WalReplayCheckpoint).

Lemma scan_record_progress f d is_final size rs (ws ws' : W * St) rs' :
  scan_record pass sink checkpoint f d is_final size rs ws = (Ok (inl rs'), ws') ->
  rs_offset rs + 48 <= rs_offset rs'.
Proof.
  unfold scan_record, incomplete_tail. intros H.
  destruct (_ <? kRecordHeaderSize); [repeat case_match; simplify_eq/=|].
  apply io_bind_Ok in H as (e & ws1 & _ & H).
  apply io_bind_Ok in H as (h & ws2 & Hh & H). injection Hh as Hh _.
  apply parse_record_header_sound in Hh as [Hwf _].
  destruct (negb _); [done|].
  destruct (_ >? _); [repeat case_match; simplify_eq/=|].
  apply io_bind_Ok in H as (e2 & ws3 & _ & H). apply io_bind_Ok in H as (r & ws4 & _ & H).
  apply io_bind_Ok in H as (seen & ws5 & _ & H). apply io_bind_Ok in H as (u & ws6 & _ & H).
  apply io_bind_Ok in H as (rs1 & ws7 & Hc & H). injection H as -> _. injection Hc as Hc _.
  unfold count_record in Hc. apply rbind_Ok in Hc as (c & _ & Hc).
  pose proof (frame_length_bounds _ (rhw_payload h Hwf)) as Hb. rewrite <- (rhw_total h Hwf) in Hb.
  run_guards Hc; injection Hc as <-; cbn [rs_offset]; lia.
Qed.

(** Any larger bound on the rounds gives the same result. *)
Lemma scan_records_fuel fuel : forall k f d is_final size rs (ws : W * St),
  size - rs_offset rs <= Z.of_nat fuel ->
  scan_records pass sink checkpoint (fuel + k) f d is_final size rs ws =
  scan_records pass sink checkpoint fuel f d is_final size rs ws.
Proof.
  induction fuel as [|fuel IH]; intros k f d is_final size rs ws Hb.
  - destruct k; [done|]. cbn [Nat.add scan_records].
    by destruct (Z.ltb_spec (rs_offset rs) size); [lia|].
  - cbn [Nat.add scan_records]. destruct (rs_offset rs <? size); [|done]. cbn [negb].
    unfold io_bind. destruct (scan_record _ _ _ _ _ _ _ _ _) as [[[rs'|]|] ws'] eqn:E; try done.
    apply scan_record_progress in E. apply IH. lia.
Qed.
End fuel.

(** * Scanning segments *)

(** The state after the size of a segment has been added. *)
Definition add_bytes (st : ScanState) (size : Z) : ScanState :=
  {| sc_report := set_physical_bytes (sc_report st) (physical_bytes (sc_report st) + size);
     sc_expected := sc_expected st; sc_have_id := sc_have_id st; sc_seen := sc_seen st |}.

Section segments.
Context {W St : Type} {HIO : PosixIo W} {HL : PosixLaws W}.
Variables (pass : ScanPass) (sink : option (WalReplaySink St))
  (checkpoint : option WalReplayCheckpoint).

Lemma open_segment_ok n f h rest (w : W) st st' :
  let data := segment_header_bytes h ++ rest in
  reliable w -> d_names (disk w) !! segment_name n = Some (kRegularFile, f) ->
  d_data (disk w) !! f = Some data -> blen data <= kSegmentSizeLimit ->
  segment_header_wf h -> seg_number h = n ->
  physical_bytes (sc_report st) + blen data <= max_u64 ->
  check_identity checkpoint (discovered_at n) h (blen data) (add_bytes st (blen data)) = Ok st' ->
  seg_first_record_sequence h = sc_expected st' ->
  exists w', disk w' = disk w /\ reliable w' /\
    open_segment checkpoint (discovered_at n) st w = (Ok (f, blen data, st'), w').
Proof.
  intros data Hr Hnm Hd Hsz Hwf Hn Hpb Hid Hseq.
  pose proof (length_segment_header_bytes h (shw_id h Hwf)) as Hhl.
  assert (Hlen : blen data = 64 + blen rest) by (unfold data; rewrite length_app; lia).
  unfold kSegmentSizeLimit in Hsz. unfold open_segment. cbn [disc_file_name discovered_at disc_number].
  destruct (implements_enabled _ _ _ _ _ _ w (law_open (segment_name n) kReadOnly) Hr)
    as (f' & w1 & E1 & [D1 Hf'] & R1); [eauto|].
  rewrite Hnm in Hf'. injection Hf' as <-. rewrite (io_bind_step _ _ _ _ _ E1).
  destruct (implements_enabled _ _ _ _ _ _ w1 (law_size f) R1)
    as (sz & w2 & E2 & [D2 (data' & Hd' & ->)] & R2); [rewrite D1, Hd; eauto|].
  rewrite D1, Hd in Hd'. injection Hd' as <-. rewrite (io_bind_step _ _ _ _ _ E2).
  unfold kSegmentHeaderSize. destruct (Z.ltb_spec (blen data) 64); [lia|].
  unfold io_bind at 1, io_check, validate_segment_size, kSegmentHeaderSize, kSegmentSizeLimit.
  destruct (Z.ltb_spec (blen data) 64); [lia|].
  destruct (Z.gtb_spec (blen data) 67108864); [lia|].
  change (is_ok kOk) with true. cbv iota.
  destruct (Z.gtb_spec (physical_bytes (sc_report st)) (max_u64 - blen data)); [lia|].
  destruct (read_file_exact_ok f 0 64 w2 data R2) as (w3 & E3 & D3 & R3);
    [by rewrite D2, D1|lia..|].
  rewrite (io_bind_step _ _ _ _ _ E3).
  assert (Hh : subspan data 0 64 = segment_header_bytes h).
  { unfold data. change (segment_header_bytes h ++ rest) with ([] ++ segment_header_bytes h ++ rest).
    rewrite subspan_prefix by (cbn [length]; lia). apply take_ge. lia. }
  rewrite Hh. unfold io_bind at 1, io_pure at 1.
  pose proof (decode_segment_header_complete h [] Hwf) as Hdec. rewrite app_nil_r in Hdec.
  rewrite Hdec, Hn, Z.eqb_refl. cbn [negb].
  unfold io_bind at 1, io_pure at 1. fold (add_bytes st (blen data)). rewrite Hid.
  rewrite Hseq, Z.eqb_refl. cbn [negb]. exists w3. by rewrite D3, D2, D1.
Qed.

Context (id : WalId).

(** The complete records of a segment, up to what follows them in the file. *)
Lemma scan_segment_prefix n seq sg tail is_final f (w : W) s s' st st1 seen' :
  let data := segment_bytes sg ++ tail in
  reliable w -> d_names (disk w) !! segment_name n = Some (kRegularFile, f) ->
  d_data (disk w) !! f = Some data -> blen data <= kSegmentSizeLimit ->
  segment_ok id n seq sg ->
  physical_bytes (sc_report st) + blen data <= max_u64 ->
  check_identity checkpoint (discovered_at n) (sg_header sg) (blen data)
    (add_bytes st (blen data)) = Ok st1 ->
  sc_expected st1 = seq -> rep_wal_id (sc_report st1) = id ->
  seq + Z.of_nat (length (sg_records sg)) <= max_u64 ->
  record_count (sc_report st1) + Z.of_nat (length (sg_records sg)) <= max_u64 ->
  checkpoint_run checkpoint n 64 (sg_records sg) (sc_seen st1) = Ok seen' ->
  deliver_all pass sink checkpoint (replay_records id n 64 (sg_records sg)) s = Some s' ->
  exists w' fuel, disk w' = disk w /\ reliable w' /\
    (Z.of_nat fuel >= blen data - 64 - blen (frames (sg_records sg))) /\
    scan_segment pass sink checkpoint (discovered_at n) is_final st (w, s) =
    (let* scanned := scan_records pass sink checkpoint fuel f (discovered_at n) is_final (blen data)
       {| rs_state := advance_state st1 (Z.of_nat (length (sg_records sg))) seen';
          rs_offset := 64 + blen (frames (sg_records sg));
          rs_in_segment := Z.of_nat (length (sg_records sg)) |} in
     finish_segment (discovered_at n) is_final (blen data) scanned) (w', s').
Proof.
  intros data Hr Hnm Hd Hsz Hok Hpb Hcid Hexp Hrid Hseq Hcnt Hck Hdel.
  pose proof (segment_ok_size _ _ _ _ Hok) as Hss.
  destruct Hok as (Hwf & Hi & Hn & Hf & Hrs & _).
  pose proof (length_segment_header_bytes _ (shw_id _ Hwf)) as Hhl.
  unfold segment_bytes in data. 
  destruct (open_segment_ok n f (sg_header sg) (frames (sg_records sg) ++ tail) w st st1)
    as (w1 & D1 & R1 & E1); unfold data in *; rewrite <- ?app_assoc in *; try done; [congruence|].
  unfold scan_segment. unfold io_bind at 1, lift_io. cbn [fst snd]. rewrite E1.
  set (bs := segment_header_bytes (sg_header sg) ++ frames (sg_records sg) ++ tail) in *.
  assert (Hbl : blen bs = 64 + blen (frames (sg_records sg)) + blen tail)
    by (unfold bs; rewrite !length_app; lia).
  pose proof (frames_length_bound _ _ Hrs) as Hfb.
  replace (Z.to_nat (blen bs)) with
    (length (sg_records sg) + (Z.to_nat (blen bs) - length (sg_records sg)))%nat by lia.
  destruct (scan_records_ok pass sink checkpoint f n is_final bs (sg_records sg)
    (Z.to_nat (blen bs) - length (sg_records sg)) {| rs_state := st1; rs_offset := 64; rs_in_segment := 0 |}
    w1 s s' (segment_header_bytes (sg_header sg)) tail seen') as (w2 & D2 & R2 & E2);
    cbn [rs_state rs_offset]; rewrite ?Hexp, ?Hrid; try done; [by rewrite D1|].
  unfold io_bind at 1, kSegmentHeaderSize. rewrite E2. cbn [rs_state rs_offset rs_in_segment].
  exists w2, (Z.to_nat (blen bs) - length (sg_records sg))%nat. rewrite D2, D1.
  split; [done|]. split; [done|]. split; [lia|]. done.
Qed.

(** A tail left by an interrupted append: a strict, nonempty prefix of the
    record that would have come next. *)
Definition torn (seq : Z) (tail : list byte) : Prop :=
  exists r k, record_ok r.1 r.2 /\ record_sequence r.1 = seq /\
    (0 < k < length (frame r))%nat /\ tail = take k (frame r).

Lemma torn_nonempty seq tail : torn seq tail -> 0 < blen tail.
Proof. intros (r & k & _ & _ & Hk & ->). rewrite length_take. lia. Qed.

(** A complete segment. *)
Lemma scan_segment_clean n seq sg is_final f (w : W) s s' st st1 seen' :
  let data := segment_bytes sg in
  reliable w -> d_names (disk w) !! segment_name n = Some (kRegularFile, f) ->
  d_data (disk w) !! f = Some data -> segment_ok id n seq sg ->
  physical_bytes (sc_report st) + blen data <= max_u64 ->
  check_identity checkpoint (discovered_at n) (sg_header sg) (blen data)
    (add_bytes st (blen data)) = Ok st1 ->
  sc_expected st1 = seq -> rep_wal_id (sc_report st1) = id ->
  sequence_exhausted (sc_report st1) = false ->
  seq + Z.of_nat (length (sg_records sg)) <= max_u64 ->
  record_count (sc_report st1) + Z.of_nat (length (sg_records sg)) <= max_u64 ->
  checkpoint_run checkpoint n 64 (sg_records sg) (sc_seen st1) = Ok seen' ->
  deliver_all pass sink checkpoint (replay_records id n 64 (sg_records sg)) s = Some s' ->
  (is_final = false -> sg_records sg <> []) ->
  exists w', disk w' = disk w /\ reliable w' /\
    let st' := advance_state st1 (Z.of_nat (length (sg_records sg))) seen' in
    scan_segment pass sink checkpoint (discovered_at n) is_final st (w, s) =
      (Ok (inl (if is_final then
         {| sc_report := set_end (sc_report st') (classification (sc_report st'))
              {| pos_wal_id := id; pos_segment_number := n; pos_byte_offset := blen data |} (blen data);
            sc_expected := sc_expected st'; sc_have_id := sc_have_id st'; sc_seen := seen' |}
         else st')), (w', s')).
Proof.
  intros data Hr Hnm Hd Hok Hpb Hcid Hexp Hrid Hex Hseq Hcnt Hck Hdel Hne.
  pose proof (segment_ok_size _ _ _ _ Hok) as Hss.
  assert (Hbl : blen data = 64 + blen (frames (sg_records sg))).
  { unfold data, segment_bytes. rewrite length_app. destruct Hok as (Hwf & _).
    pose proof (length_segment_header_bytes _ (shw_id _ Hwf)). lia. }
  destruct (scan_segment_prefix n seq sg [] is_final f w s s' st st1 seen')
    as (w' & fuel & D & R & _ & E); rewrite ?app_nil_r; try done; [lia|].
  rewrite app_nil_r in E. fold data in E. exists w'. split; [done|]. split; [done|].
  cbv zeta. rewrite E. unfold io_bind.
  assert (Hdone : forall ws : W * St, scan_records pass sink checkpoint fuel f (discovered_at n) is_final (blen data)
      {| rs_state := advance_state st1 (Z.of_nat (length (sg_records sg))) seen';
         rs_offset := 64 + blen (frames (sg_records sg));
         rs_in_segment := Z.of_nat (length (sg_records sg)) |} ws =
      (Ok (inl {| rs_state := advance_state st1 (Z.of_nat (length (sg_records sg))) seen';
         rs_offset := 64 + blen (frames (sg_records sg));
         rs_in_segment := Z.of_nat (length (sg_records sg)) |}), ws)).
  { intros ws. destruct fuel; cbn [scan_records rs_offset];
      (destruct (Z.ltb_spec (64 + blen (frames (sg_records sg))) (blen data)); [lia|]); done. }
  rewrite Hdone. unfold finish_segment. cbn [rs_state rs_offset rs_in_segment].
  replace (negb is_final && _) with false.
  2:{ destruct is_final; [done|]. specialize (Hne eq_refl). destruct (sg_records sg); [done|].
      symmetry. apply Z.eqb_neq. cbn [length]. lia. }
  cbn [advance_state sc_report set_progress sequence_exhausted rep_wal_id]. rewrite Hex, Hrid. cbn [andb].
  unfold io_ret. destruct is_final; [|done]. by rewrite <- Hbl.
Qed.

(** A final segment with a torn tail. *)
Lemma scan_segment_torn n seq sg tail f (w : W) s s' st st1 seen' :
  let data := segment_bytes sg ++ tail in
  reliable w -> d_names (disk w) !! segment_name n = Some (kRegularFile, f) ->
  d_data (disk w) !! f = Some data -> blen data <= kSegmentSizeLimit ->
  segment_ok id n seq sg ->
  physical_bytes (sc_report st) + blen data <= max_u64 ->
  check_identity checkpoint (discovered_at n) (sg_header sg) (blen data)
    (add_bytes st (blen data)) = Ok st1 ->
  sc_expected st1 = seq -> rep_wal_id (sc_report st1) = id ->
  seq + Z.of_nat (length (sg_records sg)) <= max_u64 ->
  record_count (sc_report st1) + Z.of_nat (length (sg_records sg)) <= max_u64 ->
  checkpoint_run checkpoint n 64 (sg_records sg) (sc_seen st1) = Ok seen' ->
  deliver_all pass sink checkpoint (replay_records id n 64 (sg_records sg)) s = Some s' ->
  torn (seq + Z.of_nat (length (sg_records sg))) tail ->
  (is_Some checkpoint -> seen' = true) ->
  exists w', disk w' = disk w /\ reliable w' /\
    let st' := advance_state st1 (Z.of_nat (length (sg_records sg))) seen' in
    scan_segment pass sink checkpoint (discovered_at n) true st (w, s) =
      (Ok (inr (set_end (sc_report st') kIncompleteFinalTail
         {| pos_wal_id := id; pos_segment_number := n;
            pos_byte_offset := blen (segment_bytes sg) |} (blen data))), (w', s')).
Proof.
  intros data Hr Hnm Hd Hsz Hok Hpb Hcid Hexp Hrid Hseq Hcnt Hck Hdel Htorn Hseen.
  pose proof (torn_nonempty _ _ Htorn) as Htl.
  assert (Hbl : blen (segment_bytes sg) = 64 + blen (frames (sg_records sg))).
  { unfold segment_bytes. rewrite length_app. destruct Hok as (Hwf & _).
    pose proof (length_segment_header_bytes _ (shw_id _ Hwf)). lia. }
  destruct (scan_segment_prefix n seq sg tail true f w s s' st st1 seen')
    as (w1 & fuel & D1 & R1 & Hfuel & E); try done. fold data in E, Hfuel.
  assert (Hdl : blen data = blen (segment_bytes sg) + blen tail) by (unfold data; rewrite length_app; lia).
  destruct fuel as [|fuel]; [lia|]. rewrite E. clear E.
  set (rs := {| rs_state := advance_state st1 _ seen' |}).
  destruct Htorn as (r & k & Hrok & Hrs & Hk & ->).
  destruct (scan_torn_record pass sink checkpoint f n true data rs w1 s' (segment_bytes sg) r k)
    as (w2 & D2 & R2 & E2); unfold rs; cbn [rs_state rs_offset advance_state sc_expected sc_seen];
    rewrite ?Hexp; try done; [by rewrite D1|].
  exists w2. rewrite D2, D1. split; [done|]. split; [done|].
  unfold io_bind. cbn [scan_records rs_offset].
  destruct (Z.ltb_spec (64 + blen (frames (sg_records sg))) (blen data)); [|lia]. cbn [negb].
  unfold io_bind. fold rs. rewrite E2. unfold io_ret, finish_segment, rs.
  cbn [rs_state rs_offset advance_state sc_report set_progress rep_wal_id].
  by rewrite Hrid, <- Hbl.
Qed.
End segments.

(** * Scanning a history *)

(** The bytes of each file: the last one may end in a tail. *)
Definition content (sg : Segment) (rest : list Segment) (tail : list byte) : list byte :=
  segment_bytes sg ++ match rest with [] => tail | _ => [] end.
Fixpoint contents (sgs : list Segment) (tail : list byte) : list (list byte) :=
  match sgs with
  | [] => []
  | sg :: rest => content sg rest tail :: contents rest tail
  end.
Fixpoint discovered_from (n : Z) (sgs : list Segment) : list DiscoveredWalSegment :=
  match sgs with
  | [] => []
  | _ :: rest => discovered_at n :: discovered_from (n + 1) rest
  end.
(** The records of a history as the sink sees them. *)
Fixpoint replay_history (id : WalId) (n : Z) (sgs : list Segment) : list WalReplayRecord :=
  match sgs with
  | [] => []
  | sg :: rest => replay_records id n 64 (sg_records sg) ++ replay_history id (n + 1) rest
  end.

Definition total_bytes (files : list (list byte)) : Z := foldr (fun bs acc => blen bs + acc) 0 files.

Definition identified (id : WalId) (seq : Z) (seen : bool) (st : ScanState) (size : Z) : ScanState :=
  {| sc_report := set_wal_id (sc_report (add_bytes st size)) id; sc_expected := seq;
     sc_have_id := true; sc_seen := seen |}.

(** The report of a scan that starts in [st]. *)
Fixpoint scanned_report (id : WalId) (n seq : Z) (st : ScanState) (sgs : list Segment)
    (tail : list byte) : WalRecoveryReport :=
  match sgs with
  | [] => sc_report st
  | sg :: rest =>
      let count := Z.of_nat (length (sg_records sg)) in
      let size := blen (content sg rest tail) in
      let st' := advance_state (identified id seq true st size) count true in
      match rest with
      | [] => set_end (sc_report st')
                (if bool_decide (tail = []) then classification (sc_report st') else kIncompleteFinalTail)
                {| pos_wal_id := id; pos_segment_number := n;
                   pos_byte_offset := blen (segment_bytes sg) |} size
      | _ => scanned_report id (n + 1) (seq + count) st' rest tail
      end
  end.

Lemma all_records_cons sg sgs : all_records (sg :: sgs) = sg_records sg ++ all_records sgs.
Proof. reflexivity. Qed.

Section whole.
Context {W St : Type} {HIO : PosixIo W} {HL : PosixLaws W}.
Variables (pass : ScanPass) (sink : option (WalReplaySink St))
  (checkpoint : option WalReplayCheckpoint) (id : WalId).

Lemma checkpoint_run_seen n off seq rs :
  (forall c, checkpoint = Some c -> ckpt_record_sequence c < seq) -> sequenced seq rs ->
  checkpoint_run checkpoint n off rs true = Ok true.
Proof.
  revert off seq. induction rs as [|r rs IH]; intros off seq Hc Hs; [done|].
  destruct Hs as (_ & Hseq & Hs). cbn [checkpoint_run].
  assert (Hp : pass_checkpoint checkpoint (discovered_at n) r.1 (off + blen (frame r)) true = Ok true).
  { unfold pass_checkpoint. destruct checkpoint as [c|]; [|done]. specialize (Hc c eq_refl).
    destruct (Z.eqb_spec (record_sequence r.1) (ckpt_record_sequence c)); [lia|].
    by rewrite andb_false_r. }
  rewrite Hp. cbn [rbind]. apply (IH _ (seq + 1)); [|done]. intros c Hcc. specialize (Hc c Hcc). lia.
Qed.

(** The identity check of a segment that is not the first. *)
Lemma check_identity_next n h seq size st :
  sc_have_id st = true -> rep_wal_id (sc_report st) = id -> sc_seen st = true ->
  sc_expected st = seq -> seg_wal_id h = id ->
  check_identity checkpoint (discovered_at n) h size (add_bytes st size) =
    Ok (identified id seq true st size).
Proof.
  intros Hh Hr Hs He Hi. unfold check_identity. cbn [add_bytes sc_have_id sc_report]. rewrite Hh.
  cbn [negb set_physical_bytes rep_wal_id]. rewrite Hr, Hi, bool_decide_eq_true_2 by done.
  cbn [negb]. f_equal. unfold identified, add_bytes. destruct st as [[] ? ? ?]. cbn in *. by subst.
Qed.

Lemma scan_segments_ok tail : forall sgs n seq st seen1 (w : W) s s',
  reliable w -> on_disk (disk w) n (contents sgs tail) -> history id n seq sgs ->
  Forall (fun bs => blen bs <= kSegmentSizeLimit) (contents sgs tail) ->
  (tail = [] \/ torn (seq + Z.of_nat (length (all_records sgs))) tail) ->
  physical_bytes (sc_report st) + total_bytes (contents sgs tail) <= max_u64 ->
  record_count (sc_report st) + Z.of_nat (length (all_records sgs)) <= max_u64 ->
  seq + Z.of_nat (length (all_records sgs)) <= max_u64 ->
  sequence_exhausted (sc_report st) = false ->
  match sgs with
  | [] => False
  | sg :: rest =>
      let size := blen (content sg rest tail) in
      check_identity checkpoint (discovered_at n) (sg_header sg) size (add_bytes st size) =
        Ok (identified id seq seen1 st size) /\
      checkpoint_run checkpoint n 64 (sg_records sg) seen1 = Ok true /\
      forall c, checkpoint = Some c ->
        ckpt_record_sequence c < seq + Z.of_nat (length (sg_records sg))
  end ->
  deliver_all pass sink checkpoint (replay_history id n sgs) s = Some s' ->
  exists w', disk w' = disk w /\ reliable w' /\
    scan_segments pass sink checkpoint (discovered_from n sgs) st (w, s) =
      (Ok (scanned_report id n seq st sgs tail), (w', s')).
Proof.
  induction sgs as [|sg rest IH];
    intros n seq st seen1 w s s' Hr Hod Hh Hlim Htail Hpb Hcnt Hseq Hex Hfirst Hdel; [done|].
  destruct Hfirst as (Hid & Hck & Hcs). destruct Hh as (Hok & Hne & Hh).
  destruct Hod as ((f & Hnm & Hd) & Hod). apply Forall_cons in Hlim as [Hl Hlim].
  rewrite all_records_cons, length_app in *. cbn [total_bytes foldr contents] in Hpb.
  fold (total_bytes (contents rest tail)) in Hpb.
  assert (Hpos : 0 <= total_bytes (contents rest tail)).
  { clear. unfold total_bytes. induction (contents rest tail); cbn; lia. }
  cbn [replay_history] in Hdel. rewrite deliver_all_app in Hdel.
  destruct (deliver_all _ _ _ (replay_records _ _ _ _) s) as [s1|] eqn:Hd1; [|done].
  cbn [discovered_from scan_segments].
  destruct rest as [|sg2 rest].
  - cbn [replay_history deliver_all] in Hdel. injection Hdel as <-.
    cbn [discovered_from scanned_report all_records concat fmap list_fmap length] in *.
    unfold content in *. cbn [length] in *.
    destruct Htail as [->|Htorn].
    + rewrite app_nil_r in *.
      destruct (scan_segment_clean pass sink checkpoint id n seq sg true f w s s1 st
        (identified id seq seen1 st (blen (segment_bytes sg))) true) as (w1 & D1 & R1 & E1);
        cbn [identified sc_expected sc_report set_wal_id rep_wal_id sequence_exhausted record_count
          sc_seen add_bytes set_physical_bytes]; try done; [lia..|].
      exists w1. split; [done|]. split; [done|]. rewrite (io_bind_step _ _ _ _ _ E1).
      unfold io_ret. rewrite bool_decide_eq_true_2 by done. done.
    + destruct (scan_segment_torn pass sink checkpoint id n seq sg tail f w s s1 st
        (identified id seq seen1 st (blen (segment_bytes sg ++ tail))) true) as (w1 & D1 & R1 & E1);
        cbn [identified sc_expected sc_report set_wal_id rep_wal_id sequence_exhausted record_count
          sc_seen add_bytes set_physical_bytes]; try done; [lia..|by rewrite Nat.add_0_r in Htorn|].
      exists w1. split; [done|]. split; [done|]. rewrite (io_bind_step _ _ _ _ _ E1).
      rewrite bool_decide_eq_false_2; [done|]. intros ->. apply torn_nonempty in Htorn. cbn in Htorn. lia.
  - unfold content in Hid, Hd, Hl, Hpb. rewrite app_nil_r in *.
    destruct (scan_segment_clean pass sink checkpoint id n seq sg false f w s s1 st
        (identified id seq seen1 st (blen (segment_bytes sg))) true) as (w1 & D1 & R1 & E1);
        cbn [identified sc_expected sc_report set_wal_id rep_wal_id sequence_exhausted record_count
          sc_seen add_bytes set_physical_bytes]; try done; [lia..|by intros _; apply Hne|].
    cbn [discovered_from]. rewrite (io_bind_step _ _ _ _ _ E1).
    set (st' := advance_state _ _ true) in E1 |- *.
    destruct (IH (n + 1) (seq + Z.of_nat (length (sg_records sg))) st' true w1 s1 s')
      as (w2 & D2 & R2 & E2); try done.
    { by rewrite D1. }
    { destruct Htail; [by left|]. right. by replace (seq + Z.of_nat (length (sg_records sg)) +
        Z.of_nat (length (all_records (sg2 :: rest)))) with
        (seq + Z.of_nat (length (sg_records sg) + length (all_records (sg2 :: rest)))) by lia. }
    { unfold st'. cbn. cbn in Hpb. lia. }
    { unfold st'. cbn [advance_state identified sc_report set_progress set_wal_id record_count add_bytes
        set_physical_bytes]. lia. }
    { lia. }
    { cbv zeta. destruct Hh as ((? & Hi2 & _ & _ & Hsq & _) & _). split_and!.
      - by apply check_identity_next.
      - by apply (checkpoint_run_seen _ _ (seq + Z.of_nat (length (sg_records sg)))).
      - intros c Hc. specialize (Hcs c Hc). lia. }
    exists w2. rewrite D2, D1. split; [done|]. split; [done|].
    etransitivity; [exact E2|].
    cbn [scanned_report]. unfold content. by rewrite app_nil_r.
Qed.
End whole.
