(* ===== verification/WalDiscovery.v ===== *)
(** Discovery of the segments of a WAL directory: a directory that holds the
    lock file, consecutive segments and perhaps temporary segments is discovered
    as exactly that, whatever the order the entries are listed in. *)
From stdpp Require Import sorting.
From S2P Require Import Prelude Bytes WalCodec PosixIo DiskFacts WalPaths WalScan WalHistory.

(** A directory with the segments [n], [n+1], ... of [sgs], the lock file, and
    possibly temporary segment files, all of them regular. *)
Record wal_directory (d : Disk) (n : Z) (sgs : list Segment) : Prop := {
  wd_lock : exists f, d_names d !! kWalLockFileName = Some (kRegularFile, f);
  wd_range : 1 <= n /\ n + Z.of_nat (length sgs) <= max_u64 + 1;
  wd_segments : forall i, n <= i < n + Z.of_nat (length sgs) ->
    exists f, d_names d !! segment_name i = Some (kRegularFile, f);
  wd_only : forall name e, d_names d !! name = Some e -> e.1 = kRegularFile /\
    (name = kWalLockFileName \/
     (exists i, n <= i < n + Z.of_nat (length sgs) /\ name = segment_name i) \/
     is_temporary_segment_name name = true) }.

(** ** Classification of one entry *)

Definition segment_entry (e : DirectoryEntry) : option DiscoveredWalSegment :=
  match parse_segment_number (entry_name e) with
  | Ok n => Some {| disc_number := n; disc_file_name := entry_name e |}
  | Err _ => None
  end.
Definition recognised (e : DirectoryEntry) : Prop :=
  entry_type e = kRegularFile /\
  (entry_name e = kWalLockFileName \/
   (exists i, segment_number_ok i /\ entry_name e = segment_name i) \/
   is_temporary_segment_name (entry_name e) = true).

Lemma temporary_starts name :
  is_temporary_segment_name name = true -> starts_with name (chars ".wal-") = true.
Proof.
  unfold is_temporary_segment_name. destruct (starts_with name _); [done|].
  by rewrite orb_true_r.
Qed.
Lemma dot_not_wal name :
  starts_with name (chars ".wal-") = true -> starts_with name (chars "wal-") = false.
Proof.
  intros H. apply starts_with_split in H. rewrite H. unfold starts_with.
  apply bool_decide_eq_false. discriminate.
Qed.
Lemma temporary_not_lock name : is_temporary_segment_name name = true -> name <> kWalLockFileName.
Proof. by intros H ->. Qed.
Lemma segment_name_not_lock n : segment_name n <> kWalLockFileName.
Proof. discriminate. Qed.
Lemma segment_name_starts n : starts_with (segment_name n) (chars "wal-") = true.
Proof. apply starts_with_app. Qed.

Lemma parse_not_wal name :
  starts_with name (chars "wal-") = false -> parse_segment_number name = Err kCorruption.
Proof. intros H. unfold parse_segment_number. rewrite H. cbn [negb]. by rewrite orb_true_r. Qed.

Lemma discover_entries_ok es : forall saw d,
  Forall recognised es ->
  exists temps, discover_entries es saw d =
    Ok (saw || existsb (fun e => bool_decide (entry_name e = kWalLockFileName)) es,
        {| segments := segments d ++ omap segment_entry es;
           temporary_file_names := temporary_file_names d ++ temps |}) /\
    temps = filter (fun name => is_temporary_segment_name name = true) (entry_name <$> es).
Proof.
  induction es as [|e es IH]; intros saw d Hes.
  - exists []. split; [|done]. cbn. rewrite orb_false_r, !app_nil_r. by destruct d.
  - apply Forall_cons in Hes as [[Hreg He] Hes]. destruct e as [name ty]. cbn [entry_name entry_type] in *.
    subst ty. cbn [discover_entries entry_name entry_type existsb].
    rewrite (bool_decide_eq_true_2 (kRegularFile = kRegularFile)) by done. cbn [negb].
    destruct He as [->|[(i & Hi & ->)|Htmp]].
    + destruct (IH true d Hes) as (temps & E & Ht). exists temps.
      rewrite (bool_decide_eq_true_2 (kWalLockFileName = _)) by done. rewrite E. cbn [orb].
      rewrite orb_true_r. split; [done|]. rewrite fmap_cons, filter_cons_False by done. done.
    + destruct (IH saw {| segments := segments d ++ [discovered_at i];
        temporary_file_names := temporary_file_names d |} Hes) as (temps & E & Ht).
      exists temps. rewrite bool_decide_eq_false_2 by apply segment_name_not_lock.
      rewrite segment_name_starts, parse_segment_name by done. cbn [rbind].
      fold (discovered_at i). rewrite E. cbn [segments temporary_file_names orb].
      split.
      * do 3 f_equal. rewrite <- app_assoc. f_equal. cbn [omap list_omap]. unfold segment_entry at 2.
        cbn [entry_name]. rewrite parse_segment_name by done. done.
      * rewrite fmap_cons, filter_cons_False; [done|]. cbn [entry_name]. intros Hc.
        apply temporary_starts, dot_not_wal in Hc. by rewrite segment_name_starts in Hc.
    + destruct (IH saw {| segments := segments d;
        temporary_file_names := temporary_file_names d ++ [name] |} Hes) as (temps & E & Ht).
      exists (name :: temps). rewrite bool_decide_eq_false_2 by by apply temporary_not_lock.
      pose proof (dot_not_wal _ (temporary_starts _ Htmp)) as Hnw. rewrite Hnw, Htmp, E.
      cbn [segments temporary_file_names orb]. split.
      * do 3 f_equal; [|by rewrite <- app_assoc]. f_equal. cbn [omap list_omap].
        unfold segment_entry at 2. cbn [entry_name]. by rewrite parse_not_wal.
      * rewrite fmap_cons, filter_cons_True by done. by rewrite Ht.
Qed.

(** ** The discovered segments *)

Lemma elem_discovered_from n sgs x :
  x ∈ discovered_from n sgs <-> exists i, n <= i < n + Z.of_nat (length sgs) /\ x = discovered_at i.
Proof.
  revert n. induction sgs as [|sg sgs IH]; intros n; cbn [discovered_from length].
  - split; [by intros ?%elem_of_nil|]. intros (i & Hi & _). lia.
  - rewrite elem_of_cons, IH. split.
    + intros [->|(i & Hi & ->)]; [exists n|exists i]; (split; [lia|done]).
    + intros (i & Hi & ->). destruct (decide (i = n)) as [->|]; [by left|].
      right. exists i. split; [lia|done].
Qed.

Lemma discovered_from_sorted n sgs : StronglySorted number_le (discovered_from n sgs).
Proof.
  revert n. induction sgs as [|sg sgs IH]; intros n; cbn [discovered_from]; constructor; [done|].
  apply Forall_forall. intros x Hx. apply elem_discovered_from in Hx as (i & Hi & ->).
  unfold number_le. cbn. lia.
Qed.

Lemma discovered_from_NoDup n sgs : NoDup (discovered_from n sgs).
Proof.
  revert n. induction sgs as [|sg sgs IH]; intros n; cbn [discovered_from]; constructor; [|done].
  intros Hx. apply elem_discovered_from in Hx as (i & Hi & E). injection E as E _. lia.
Qed.

Lemma complete_prefix_from n sgs : complete_prefix (discovered_from n sgs) n = true.
Proof.
  revert n. induction sgs as [|sg sgs IH]; intros n; [done|]. cbn. by rewrite Z.eqb_refl, IH.
Qed.

Lemma omap_segment_NoDup es : NoDup (entry_name <$> es) -> NoDup (omap segment_entry es).
Proof.
  induction es as [|e es IH]; [intros; constructor|]. rewrite fmap_cons.
  intros [Hne Hnd]%NoDup_cons. cbn [omap list_omap]. unfold segment_entry at 1.
  destruct (parse_segment_number (entry_name e)) as [i|]; [|by apply IH].
  constructor; [|by apply IH]. intros (e' & He' & E)%list_elem_of_omap.
  unfold segment_entry in E. destruct (parse_segment_number (entry_name e')); [|done].
  injection E as _ E. apply Hne. rewrite <- E. by apply list_elem_of_fmap_2.
Qed.

Lemma wal_directory_recognised d n sgs e :
  wal_directory d n sgs -> e ∈ listing d -> recognised e.
Proof.
  intros Hd He. destruct e as [name ty]. apply elem_listing in He as [f Hf].
  destruct (wd_only _ _ _ Hd _ _ Hf) as [Hr Hn]. split; [exact Hr|]. cbn [entry_name].
  destruct Hn as [|[(i & Hi & ->)|]]; [by left|right; left|by right; right].
  exists i. pose proof (wd_range _ _ _ Hd). split; [unfold segment_number_ok; lia|done].
Qed.

Lemma sorted_segments d n sgs es :
  wal_directory d n sgs -> es ≡ₚ listing d ->
  merge_sort number_le (omap segment_entry es) = discovered_from n sgs.
Proof.
  intros Hd Hperm. pose proof (wd_range _ _ _ Hd) as Hrange.
  assert (Hmem : forall x, x ∈ omap segment_entry es <-> x ∈ discovered_from n sgs).
  { intros x. rewrite list_elem_of_omap, elem_discovered_from. split.
    - intros (e & He & Hx). rewrite Hperm in He. destruct e as [name ty]. unfold segment_entry in Hx.
      cbn [entry_name] in Hx. destruct (parse_segment_number name) as [i|] eqn:Hp; [|done].
      injection Hx as <-. apply parse_segment_number_sound in Hp as [Hi ->].
      apply elem_listing in He as [f Hf].
      destruct (wd_only _ _ _ Hd _ _ Hf) as [_ [Hn|[(j & Hj & Hn)|Hn]]].
      + by apply segment_name_not_lock in Hn.
      + exists i. apply segment_name_inj in Hn as ->; [split; [lia|done]|done|].
        unfold segment_number_ok. lia.
      + apply temporary_starts, dot_not_wal in Hn. by rewrite segment_name_starts in Hn.
    - intros (i & Hi & ->). destruct (wd_segments _ _ _ Hd i Hi) as [f Hf].
      exists {| entry_name := segment_name i; entry_type := kRegularFile |}.
      rewrite Hperm, elem_listing. split; [eauto|]. unfold segment_entry. cbn [entry_name].
      rewrite parse_segment_name; [done|]. unfold segment_number_ok. lia. }
  assert (Hp : merge_sort number_le (omap segment_entry es) ≡ₚ discovered_from n sgs).
  { rewrite merge_sort_Permutation. apply NoDup_Permutation; [|apply discovered_from_NoDup|exact Hmem].
    apply omap_segment_NoDup. rewrite Hperm. apply listing_NoDup. }
  apply (StronglySorted_unique_strong number_le).
  - intros x y Hx Hy H1 H2. rewrite Hp in Hx. apply elem_discovered_from in Hx as (i & _ & ->).
    apply elem_discovered_from in Hy as (j & _ & ->). unfold number_le in *. cbn in *.
    by replace j with i by lia.
  - apply StronglySorted_merge_sort; [intros ? ? ?; unfold number_le; lia|].
    intros ? ?; unfold number_le; lia.
  - apply discovered_from_sorted.
  - exact Hp.
Qed.

Lemma classify_entries_ok d n sgs es require :
  wal_directory d n sgs -> es ≡ₚ listing d -> sgs <> [] -> (require = true -> n = 1) ->
  exists temps, classify_entries es require =
    Ok {| segments := discovered_from n sgs; temporary_file_names := temps |} /\ NoDup temps /\
    forall t, t ∈ temps <-> is_Some (d_names d !! t) /\ is_temporary_segment_name t = true.
Proof.
  intros Hd Hperm Hne Hreq. unfold classify_entries.
  destruct (discover_entries_ok es false {| segments := []; temporary_file_names := [] |})
    as (temps & E & Ht).
  { apply Forall_forall. intros e He. rewrite Hperm in He. by eapply wal_directory_recognised. }
  rewrite E. cbn [rbind segments temporary_file_names app orb].
  assert (Hl : existsb (fun e => bool_decide (entry_name e = kWalLockFileName)) es = true).
  { destruct (wd_lock _ _ _ Hd) as [f Hf]. apply existsb_exists.
    exists {| entry_name := kWalLockFileName; entry_type := kRegularFile |}.
    split; [|by apply bool_decide_eq_true_2]. apply list_elem_of_In. rewrite Hperm, elem_listing. eauto. }
  rewrite Hl. cbn [negb].
  pose proof (sorted_segments d n sgs es Hd Hperm) as Hs.
  destruct (omap segment_entry es) as [|x xs] eqn:Hx.
  { destruct sgs; [done|]. discriminate Hs. }
  rewrite <- Hx, Hs in *. clear Hx. 
  replace (require && negb (complete_prefix (discovered_from n sgs) 1)) with false.
  2:{ destruct require; [|done]. rewrite (Hreq eq_refl), complete_prefix_from. done. }
  exists temps. split; [done|]. split.
  { rewrite Ht. apply NoDup_filter. rewrite Hperm. apply listing_NoDup. }
  intros t. rewrite Ht, list_elem_of_filter, list_elem_of_fmap.
  split.
  - intros (Htt & e & -> & He). rewrite Hperm in He. destruct e as [name ty].
    apply elem_listing in He as [f Hf]. cbn. split; [eauto|done].
  - intros ([[ty f] Hf] & Htt). split; [done|]. exists {| entry_name := t; entry_type := ty |}.
    split; [done|]. rewrite Hperm, elem_listing. eauto.
Qed.
