(* ===== verification/WalSound.v ===== *)
(** A scan that succeeds has read a history: what the record loop, the segment
    loop and discovery establish about the bytes on disk when they return, with
    no assumption on the reliability of the files. *)
From stdpp Require Import sorting.
From S2P Require Import Prelude Bytes Crc32c WalCodec PosixIo DiskFacts WalPaths WalScan WalHistory.
From S2P Require Import WalDiscovery.

(** What may follow the last complete record of a log that is not clean: too few
    bytes for a header, or the header of the next record without all of it. *)
Definition incomplete (seq : Z) (tail : list byte) : Prop :=
  tail <> [] /\
  (blen tail < kRecordHeaderSize \/
   exists h rest, tail = record_header_bytes h ++ rest /\ record_header_wf h /\
     record_flags h = 0 /\ record_sequence h = seq /\ blen tail < total_length h).

(** The counters of a scan that has read [count] records from [seq]. *)
Definition counted (st st' : ScanState) (seq count : Z) : Prop :=
  record_count (sc_report st') = record_count (sc_report st) + count /\
  last_record_sequence (sc_report st') =
    (if count =? 0 then last_record_sequence (sc_report st) else seq + count - 1) /\
  classification (sc_report st') = classification (sc_report st) /\
  rep_wal_id (sc_report st') = rep_wal_id (sc_report st) /\
  sc_have_id st' = sc_have_id st /\
  ((sequence_exhausted (sc_report st') = false /\ sc_expected st' = seq + count /\
    seq + count <= max_u64) \/
   (sequence_exhausted (sc_report st') = true /\ seq + count = max_u64 + 1)).

Lemma take_skip_app {A} (l : list A) i : l = take i l ++ drop i l.
Proof. symmetry. apply take_drop. Qed.

Section sound.
Context {W St : Type} {HIO : PosixIo W} {HL : PosixLaws W}.
Variables (pass : ScanPass) (sink : option (WalReplaySink St))
  (checkpoint : option WalReplayCheckpoint).

Context (f : PosixFile) (d : DiscoveredWalSegment) (is_final : bool) (data : list byte).
Let size := blen data.

Lemma incomplete_tail_inv rs (ws ws' : W * St) out :
  incomplete_tail (W := W) checkpoint d is_final size rs ws = (Ok out, ws') ->
  is_final = true /\ ws' = ws /\
  out = inr (set_end (sc_report (rs_state rs)) kIncompleteFinalTail
    {| pos_wal_id := rep_wal_id (sc_report (rs_state rs)); pos_segment_number := disc_number d;
       pos_byte_offset := rs_offset rs |} size).
Proof.
  unfold incomplete_tail. destruct is_final; [|done]. cbn [negb].
  destruct (_ && _); [done|]. by intros [= <- <-].
Qed.

(** One round of the record loop. *)
Lemma scan_record_inv rs (w w' : W) s s' out :
  d_data (disk w) !! f = Some data -> 0 <= rs_offset rs < size ->
  scan_record pass sink checkpoint f d is_final size rs (w, s) = (Ok out, (w', s')) ->
  disk w' = disk w /\
  let rest := drop (Z.to_nat (rs_offset rs)) data in
  let seq := sc_expected (rs_state rs) in
  match out with
  | inl rs' => exists r tail seen,
      rest = frame r ++ tail /\ record_ok r.1 r.2 /\ record_sequence r.1 = seq /\
      rs_offset rs' = rs_offset rs + blen (frame r) /\
      rs_in_segment rs' = rs_in_segment rs + 1 /\
      deliver pass sink checkpoint (replay_record (rep_wal_id (sc_report (rs_state rs))) (disc_number d)
        (rs_offset rs) r) s = Some s' /\
      rs_state rs' = {| sc_report := set_progress (sc_report (rs_state rs))
          (record_count (sc_report (rs_state rs)) + 1) seq
          (if seq =? max_u64 then true else sequence_exhausted (sc_report (rs_state rs)));
        sc_expected := if seq =? max_u64 then seq else seq + 1;
        sc_have_id := sc_have_id (rs_state rs); sc_seen := seen |} /\
      (seq = max_u64 -> is_final = true /\ tail = [])
  | inr report => is_final = true /\ s' = s /\ incomplete seq rest /\
      report = set_end (sc_report (rs_state rs)) kIncompleteFinalTail
        {| pos_wal_id := rep_wal_id (sc_report (rs_state rs)); pos_segment_number := disc_number d;
           pos_byte_offset := rs_offset rs |} size
  end.
Proof.
  intros Hd Hoff H. unfold scan_record in H.
  set (rest := drop (Z.to_nat (rs_offset rs)) data). cbv zeta.
  assert (Hrl : blen rest = size - rs_offset rs)
    by (unfold rest, size; rewrite length_drop; unfold size in Hoff; lia).
  assert (Hne : rest <> []) by (intros E; rewrite E in Hrl; cbn in Hrl; lia).
  destruct (Z.ltb_spec (size - rs_offset rs) kRecordHeaderSize) as [Hlt|Hge].
  { apply incomplete_tail_inv in H as (Hf & [= -> ->] & ->). split; [done|].
    split; [done|]. split; [done|]. split; [|done]. split; [done|]. left. by rewrite Hrl. }
  apply io_bind_Ok in H as (eh & [w1 s1] & E1 & H). unfold lift_io in E1. cbn [fst snd] in E1.
  destruct (read_file_exact _ _ _ w) as [r1 w1'] eqn:Er1. injection E1 as -> -> <-.
  unfold kRecordHeaderSize in *.
  apply read_file_exact_inv in Er1 as (D1 & dat & Hdat & -> & Hlen1); [|lia..].
  rewrite Hd in Hdat. injection Hdat as <-.
  apply io_bind_Ok in H as (h & [w2 s2] & Eh & H). injection Eh as Eh -> ->.
  apply parse_record_header_sound in Eh as [Hwf [tl Htl]].
  destruct (Z.eqb_spec (record_sequence h) (sc_expected (rs_state rs))) as [Hseq|]; [|done].
  cbn [negb] in H.
  destruct (Z.gtb_spec (total_length h) (size - rs_offset rs)) as [Hgt|Hle].
  { destruct (Z.eqb_spec (record_flags h) 0) as [Hfl|]; [|done]. cbn [negb] in H.
    apply incomplete_tail_inv in H as (Hf & [= -> ->] & ->). split; [done|].
    split; [done|]. split; [done|]. split; [|done]. split; [done|]. right.
    exists h, (tl ++ drop 40 rest). rewrite app_assoc, <- Htl.
    split; [apply take_skip_app|]. split_and!; try done. rewrite Hrl. lia. }
  apply io_bind_Ok in H as (er & [w3 s3] & E3 & H). unfold lift_io in E3. cbn [fst snd] in E3.
  destruct (read_file_exact _ _ (total_length h) w2) as [r3 w3'] eqn:Er3. injection E3 as -> -> <-.
  pose proof (frame_length_bounds _ (rhw_payload h Hwf)) as Hfb. rewrite <- (rhw_total h Hwf) in Hfb.
  apply read_file_exact_inv in Er3 as (D3 & dat & Hdat & -> & Hlen3); [|lia..].
  rewrite D1, Hd in Hdat. injection Hdat as <-.
  apply io_bind_Ok in H as (dr & [w4 s4] & Ed & H). injection Ed as Ed -> ->.
  apply decode_record_sound in Ed as (Hok & _ & [more Hmore]).
  assert (Hh : rec_header dr = h).
  { assert (Hp : parse_record_header (subspan data (rs_offset rs) (total_length h)) = Ok h).
    { replace (total_length h) with (40 + (total_length h - 40)) by lia.
      rewrite subspan_split, Htl, <- app_assoc by lia. by apply parse_record_header_complete. }
    rewrite Hmore, parse_record_bytes in Hp by apply Hok. by injection Hp. }
  set (r := (rec_header dr, rec_payload dr) : LogRecord).
  assert (Hfl : blen (frame r) = total_length h)
    by (unfold frame, r; cbn [fst snd]; rewrite length_record_ok, Hh; done).
  assert (Hnil : more = []).
  { rewrite Hmore, length_app in Hlen3. unfold frame, r in Hfl. cbn [fst snd] in Hfl.
    apply nil_length_inv. lia. }
  rewrite Hnil, app_nil_r in Hmore.
  change (subspan data (rs_offset rs) (total_length h) = frame r) in Hmore.
  apply io_bind_Ok in H as (seen & [w5 s5] & Es & H). injection Es as _ -> ->.
  apply io_bind_Ok in H as ([] & [w6 s6] & Ec & H).
  apply call_back_inv in Ec as [-> Hdel].
  apply io_bind_Ok in H as (rs1 & [w7 s7] & Ek & H). injection Ek as Ek -> ->.
  injection H as <- <- <-. rewrite D3, D1. split; [done|].
  exists r, (drop (Z.to_nat (total_length h)) rest), seen.
  assert (Hrest : rest = frame r ++ drop (Z.to_nat (total_length h)) rest).
  { rewrite <- Hmore. apply take_skip_app. }
  split; [exact Hrest|]. split; [exact Hok|]. split; [unfold r; cbn; by rewrite Hh|].
  unfold count_record, validate_report_increment in Ek. apply rbind_Ok in Ek as (c & Ecn & Ek).
  destruct (_ =? max_u64) in Ecn; [done|]. injection Ecn as <-.
  destruct (Z.eqb_spec (sc_expected (rs_state rs)) max_u64) as [Em|Em].
  - destruct is_final; [|done]. cbn [negb orb] in Ek.
    destruct (Z.eqb_spec (rs_offset rs + total_length h) size) as [Eo|]; [|done].
    injection Ek as <-. cbn [rs_offset rs_in_segment rs_state]. unfold replay_record. rewrite Hfl. split_and!; try done.
    intros _. split; [done|]. apply drop_ge. lia.
  - injection Ek as <-. cbn [rs_offset rs_in_segment rs_state].
    unfold replay_record. rewrite Hfl. by split_and!.
Qed.

Lemma counted_0 st seq :
  sequence_exhausted (sc_report st) = false -> sc_expected st = seq -> seq <= max_u64 ->
  counted st st seq 0.
Proof. intros. unfold counted. rewrite !Z.add_0_r. split_and!; try done. by left. Qed.

Lemma counted_step st st1 st' seq count :
  sc_report st1 = set_progress (sc_report st) (record_count (sc_report st) + 1) seq false ->
  sc_have_id st1 = sc_have_id st -> 0 <= count ->
  counted st1 st' (seq + 1) count -> counted st st' seq (count + 1).
Proof.
  intros Hr Hh Hc (H1 & H2 & H3 & H4 & H5 & H6). unfold counted. rewrite Hr in *.
  cbn [record_count last_record_sequence classification rep_wal_id set_progress] in *.
  split_and!; try congruence; [lia| |].
  - rewrite H2. destruct (Z.eqb_spec count 0), (Z.eqb_spec (count + 1) 0); lia.
  - destruct H6 as [(? & ? & ?)|(? & ?)]; [left|right]; split_and?; try done; lia.
Qed.

(** The record loop. *)
Lemma scan_records_inv fuel : forall rs (w w' : W) s s' out,
  d_data (disk w) !! f = Some data -> 0 <= rs_offset rs <= size ->
  sequence_exhausted (sc_report (rs_state rs)) = false -> sc_expected (rs_state rs) <= max_u64 ->
  scan_records pass sink checkpoint fuel f d is_final size rs (w, s) = (Ok out, (w', s')) ->
  let seq := sc_expected (rs_state rs) in
  disk w' = disk w /\ exists records tail,
    let count := Z.of_nat (length records) in
    drop (Z.to_nat (rs_offset rs)) data = frames records ++ tail /\ sequenced seq records /\
    deliver_all pass sink checkpoint (replay_records (rep_wal_id (sc_report (rs_state rs))) (disc_number d)
      (rs_offset rs) records) s = Some s' /\
    match out with
    | inl rs' => tail = [] /\ rs_offset rs' = size /\
        rs_in_segment rs' = rs_in_segment rs + count /\
        counted (rs_state rs) (rs_state rs') seq count
    | inr report => is_final = true /\ incomplete (seq + count) tail /\
        exists st', counted (rs_state rs) st' seq count /\
          report = set_end (sc_report st') kIncompleteFinalTail
            {| pos_wal_id := rep_wal_id (sc_report st'); pos_segment_number := disc_number d;
               pos_byte_offset := rs_offset rs + blen (frames records) |} size
    end.
Proof.
  induction fuel as [|fuel IH]; intros rs w w' s s' out Hd Hoff Hex Hmax H seq; cbn [scan_records] in H.
  - destruct (Z.ltb_spec (rs_offset rs) size) as [|Hge]; [done|]. injection H as <- <- <-.
    split; [done|]. exists [], []. cbn zeta. split; [apply drop_ge; unfold size in *; lia|].
    do 2 (split; [done|]). split_and!; try done; [lia|cbn [length]; lia|by apply counted_0].
  - destruct (Z.ltb_spec (rs_offset rs) size) as [Hlt|Hge]; cbn [negb] in H; cycle 1.
    { injection H as <- <- <-. split; [done|]. exists [], []. cbn zeta.
      split; [apply drop_ge; unfold size in *; lia|].
      do 2 (split; [done|]). split_and!; try done; [lia|cbn [length]; lia|by apply counted_0]. }
    apply io_bind_Ok in H as (next & [w1 s1] & E & H).
    apply scan_record_inv in E as [D1 E]; [|done|lia]. destruct next as [rs1|report]; cbn zeta in E.
    2:{ destruct E as (Hf & -> & Hinc & ->). injection H as <- <- <-. split; [done|].
        exists [], (drop (Z.to_nat (rs_offset rs)) data). cbn zeta.
        do 3 (split; [done|]). split; [done|]. rewrite Z.add_0_r. split; [done|].
        exists (rs_state rs). split; [by apply counted_0|]. cbn. by rewrite Z.add_0_r. }
    destruct E as (r & tl & seen & Hrest & Hok & Hseq & Ho1 & Hi1 & Hdel & Hst & Hlast).
    assert (Hr1 : drop (Z.to_nat (rs_offset rs1)) data = tl).
    { rewrite Ho1, Z2Nat.inj_add, Nat2Z.id, <- drop_drop, Hrest by lia. apply drop_app_length. }
    assert (Hlen1 : rs_offset rs1 + blen tl = size).
    { apply (f_equal length) in Hrest. rewrite length_app, length_drop in Hrest. unfold size in *. lia. }
    destruct (Z.eqb_spec (sc_expected (rs_state rs)) max_u64) as [Em|Em].
    + destruct (Hlast Em) as [Hf ->]. cbn in Hlen1.
      assert (Hout : out = inl rs1 /\ w' = w1 /\ s' = s1).
      { destruct fuel; cbn [scan_records] in H; (destruct (Z.ltb_spec (rs_offset rs1) size); [lia|]);
          by injection H as <- <- <-. }
      destruct Hout as (-> & -> & ->). split; [done|]. exists [r], []. cbn zeta.
      split; [rewrite Hrest, !app_nil_r; cbn; by rewrite app_nil_r|].
      split; [done|]. split; [cbn; by rewrite Hdel|].
      split; [done|]. split; [lia|]. split; [cbn; lia|].
      change (Z.of_nat (length [r])) with 1. unfold counted. rewrite Hst.
      cbn [sc_report set_progress record_count last_record_sequence classification rep_wal_id
        sc_have_id sequence_exhausted sc_expected].
      change (1 =? 0) with false. cbv iota.
      split_and!; try done; [unfold seq; lia|]. right. split; [done|]. unfold seq. lia.
    + rewrite Hex in Hst.
      assert (He1 : sc_expected (rs_state rs1) = seq + 1) by by rewrite Hst.
      apply IH in H; [|by rewrite D1|lia|by rewrite Hst|rewrite He1; unfold seq; lia].
      cbn zeta in H. rewrite He1 in H. destruct H as (D2 & records & tail & Hdr & Hsq & Hda & Hout).
      rewrite D2, D1. split; [done|]. exists (r :: records), tail. cbn zeta.
      split; [rewrite Hrest, frames_cons, <- app_assoc, <- Hdr, Hr1; done|].
      split; [done|]. split.
      { cbn [replay_records deliver_all]. rewrite Hdel. rewrite Hst, Ho1 in Hda. exact Hda. }
      cbn [length]. replace (Z.of_nat (S (length records))) with (Z.of_nat (length records) + 1) by lia.
      assert (Hcs : forall st', counted (rs_state rs1) st' (seq + 1) (Z.of_nat (length records)) ->
        counted (rs_state rs) st' seq (Z.of_nat (length records) + 1)).
      { intros st'. apply counted_step; [by rewrite Hst|by rewrite Hst|lia]. }
      destruct out as [rs'|report].
      * destruct Hout as (-> & Ho & Hi & Hc). split_and!; try done; [lia|by apply Hcs].
      * destruct Hout as (Hf & Hinc & st' & Hc & ->). split; [done|].
        split; [by replace (seq + (Z.of_nat (length records) + 1)) with
          (seq + 1 + Z.of_nat (length records)) by lia|].
        exists st'. split; [by apply Hcs|]. do 2 f_equal.
        rewrite frames_cons, length_app. lia.
Qed.
End sound.

(** * Segments *)

#[local] Opaque segment_header_bytes frame.

Definition file_of (d : Disk) (dsc : DiscoveredWalSegment) (bs : list byte) : Prop :=
  exists f, d_names d !! disc_file_name dsc = Some (kRegularFile, f) /\ d_data d !! f = Some bs.

Section segments_sound.
Context {W St : Type} {HIO : PosixIo W} {HL : PosixLaws W}.
Variables (pass : ScanPass) (sink : option (WalReplaySink St))
  (checkpoint : option WalReplayCheckpoint).

(** Where a scan in the state [st] may go on: at the next segment, or, for the
    first one, at the beginning of the log or at the checkpoint. *)
Definition starts_at (st : ScanState) (id : WalId) (n seq : Z) : Prop :=
  if sc_have_id st then id = rep_wal_id (sc_report st) /\ seq = sc_expected st
  else match checkpoint with
  | None => n = 1 /\ seq = 1
  | Some c => id = ckpt_wal_id c /\
      (n = ckpt_segment_number c \/ (n = ckpt_segment_number c + 1 /\ seq = ckpt_record_sequence c + 1))
  end.

(** The state after the header of a segment has been accepted. *)
Definition opened (st st1 : ScanState) (h : SegmentHeader) (dsc : DiscoveredWalSegment) : Prop :=
  starts_at st (seg_wal_id h) (disc_number dsc) (sc_expected st1) /\
  rep_wal_id (sc_report st1) = seg_wal_id h /\ sc_have_id st1 = true /\
  record_count (sc_report st1) = record_count (sc_report st) /\
  last_record_sequence (sc_report st1) = last_record_sequence (sc_report st) /\
  classification (sc_report st1) = classification (sc_report st) /\
  sequence_exhausted (sc_report st1) = sequence_exhausted (sc_report st).

Lemma open_segment_inv dsc st (w w' : W) f size st1 :
  open_segment checkpoint dsc st w = (Ok (f, size, st1), w') ->
  disk w' = disk w /\ exists h rest,
    d_names (disk w) !! disc_file_name dsc = Some (kRegularFile, f) /\
    d_data (disk w) !! f = Some (segment_header_bytes h ++ rest) /\
    size = blen (segment_header_bytes h ++ rest) /\ size <= kSegmentSizeLimit /\
    segment_header_wf h /\ seg_number h = disc_number dsc /\
    seg_first_record_sequence h = sc_expected st1 /\ opened st st1 h dsc.
Proof.
  unfold open_segment. intros H.
  apply io_bind_Ok in H as (f' & w1 & E1 & H).
  destruct (implements_Ok _ _ _ _ _ _ _ _ _ (law_open _ _) E1) as [[D1 Hnm] _].
  apply io_bind_Ok in H as (sz & w2 & E2 & H).
  destruct (implements_Ok _ _ _ _ _ _ _ _ _ (law_size _) E2) as [[D2 (data & Hd & ->)] _].
  unfold kSegmentHeaderSize in H. destruct (Z.ltb_spec (blen data) 64) as [|Hge]; [done|].
  apply io_bind_Ok in H as (u & w3 & E3 & H). unfold io_check in E3.
  destruct (is_ok (validate_segment_size (blen data))) eqn:Hv; cycle 1.
  { destruct (@make_unexpected_not_ok unit (validate_segment_size (blen data))) as (? & Em & _).
    rewrite Em in E3. done. }
  injection E3 as _ <-.
  assert (Hlim : blen data <= kSegmentSizeLimit).
  { unfold validate_segment_size in Hv. destruct (_ <? _); [done|].
    destruct (Z.gtb_spec (blen data) kSegmentSizeLimit); [done|lia]. }
  destruct (_ >? _) in H; [done|].
  apply io_bind_Ok in H as (enc & w4 & E4 & H).
  apply read_file_exact_inv in E4 as (D4 & data' & Hd' & -> & Hl); [|lia..].
  rewrite D2 in Hd'. rewrite Hd in Hd'. injection Hd' as <-.
  apply io_bind_Ok in H as (h & w5 & E5 & H). injection E5 as E5 <-.
  apply decode_segment_header_sound in E5 as [Hwf [tl Htl]].
  destruct (Z.eqb_spec (seg_number h) (disc_number dsc)) as [Hn|]; [|done]. cbn [negb] in H.
  apply io_bind_Ok in H as (st2 & w6 & E6 & H). injection E6 as E6 <-.
  destruct (Z.eqb_spec (seg_first_record_sequence h) (sc_expected st2)) as [Hs|]; [|done].
  cbn [negb] in H. injection H as <- <- <- <-.
  rewrite D4, D2, D1. split; [done|].
  assert (Hdata : data = segment_header_bytes h ++ (tl ++ drop 64 data)).
  { rewrite app_assoc, <- Htl. apply take_skip_app. }
  exists h, (tl ++ drop 64 data). rewrite <- Hdata, <- D1.
  split; [by rewrite D1|]. split_and!; try done.
  unfold check_identity in E6. cbn [sc_have_id] in E6. unfold opened, starts_at.
  destruct (sc_have_id st) eqn:Hh; cbn [negb] in E6.
  - destruct (bool_decide _) eqn:Hb; [|done]. apply bool_decide_eq_true in Hb.
    injection E6 as <-. cbn in Hb |- *. by rewrite Hb.
  - destruct checkpoint as [c|].
    + destruct (bool_decide _) eqn:Hb in E6; [|done]. apply bool_decide_eq_true in Hb. cbn [negb] in E6.
      apply rbind_Ok in E6 as (seen & Eseen & E6). injection E6 as <-. cbn. split_and!; try done.
      destruct (Z.eqb_spec (disc_number dsc) (ckpt_segment_number c)) as [|Hne]; [by left|right].
      destruct (_ || _) eqn:Hor in Eseen; [done|]. repeat rewrite orb_false_iff in Hor.
      destruct Hor as [[[_ H1] _] H2]. apply negb_false_iff, Z.eqb_eq in H1, H2. done.
    + destruct (Z.eqb_spec (disc_number dsc) kFirstSegmentNumber) as [Hd1|]; [|done].
      destruct (Z.eqb_spec (seg_first_record_sequence h) kFirstRecordSequence) as [Hd2|]; [|done].
      injection E6 as <-. cbn in Hs |- *. rewrite <- Hs. done.
Qed.

(** The scan of all segments. *)
Lemma scan_segments_inv ds : forall n st (w w' : W) s s' report,
  complete_prefix ds n = true -> ds <> [] ->
  sequence_exhausted (sc_report st) = false ->
  scan_segments pass sink checkpoint ds st (w, s) = (Ok report, (w', s')) ->
  disk w' = disk w /\ exists id seq sgs lg tail,
    let all := sgs ++ [lg] in
    let count := Z.of_nat (length (all_records all)) in
    starts_at st id n seq /\
    history id n seq all /\ length all = length ds /\
    Forall2 (file_of (disk w)) ds (contents all tail) /\
    deliver_all pass sink checkpoint (replay_history id n all) s = Some s' /\
    rep_wal_id report = id /\
    record_count report = record_count (sc_report st) + count /\
    last_record_sequence report =
      (if count =? 0 then last_record_sequence (sc_report st) else seq + count - 1) /\
    valid_end report = {| pos_wal_id := id; pos_segment_number := n + Z.of_nat (length sgs);
                          pos_byte_offset := blen (segment_bytes lg) |} /\
    observed_final_size report = blen (segment_bytes lg ++ tail) /\
    ((tail = [] /\ classification report = classification (sc_report st)) \/
     (incomplete (seq + count) tail /\ classification report = kIncompleteFinalTail)).
Proof.
  induction ds as [|dsc ds IH]; intros n st w w' s s' report Hcp Hne Hex H; [done|].
  cbn [complete_prefix] in Hcp. apply andb_true_iff in Hcp as [Hn Hcp]. apply Z.eqb_eq in Hn.
  cbn [scan_segments] in H. apply io_bind_Ok in H as (scanned & [w1 s1] & E & H).
  unfold scan_segment in E.
  apply io_bind_Ok in E as ([[f size] st1] & [w2 s2] & E2 & E). unfold lift_io in E2. cbn [fst snd] in E2.
  destruct (open_segment checkpoint dsc st w) as [r2 w2'] eqn:Eo. injection E2 as -> -> <-.
  apply open_segment_inv in Eo as (D2 & h & rest & Hnm & Hd & -> & Hlim & Hwf & Hsn & Hsf & Hop).
  destruct Hop as (Hid & Hrid & Hhave & Hrc & Hlast & Hcl & Hexh). rewrite Hn in Hid.
  pose proof (shw_sequence _ Hwf) as Hseqw. rewrite Hsf in Hseqw. set (seq := sc_expected st1) in *.
  set (data := segment_header_bytes h ++ rest) in *.
  pose proof (length_segment_header_bytes h (shw_id h Hwf)) as Hhl.
  apply io_bind_Ok in E as (out & [w3 s3] & E3 & E).
  apply scan_records_inv in E3; cbn [rs_offset rs_state]; rewrite ?D2; try done;
    [|split; [done|unfold data, kSegmentHeaderSize; rewrite length_app; lia]|congruence|width_lia].
  cbn zeta in E3. cbn [rs_state rs_offset rs_in_segment] in E3.
  destruct E3 as (D3 & records & tail & Hdrop & Hsq & Hdel & Hout).
  assert (Hrest : rest = frames records ++ tail).
  { rewrite <- Hdrop. unfold data. symmetry. apply drop_app_length'. unfold kSegmentHeaderSize. lia. }
  set (sg := {| sg_header := h; sg_records := records |}).
  assert (Hdata : data = segment_bytes sg ++ tail).
  { unfold data, segment_bytes, sg. cbn [sg_header sg_records]. by rewrite Hrest, <- app_assoc. }
  assert (Hok : segment_ok (seg_wal_id h) n seq sg).
  { split; [exact Hwf|]. split; [reflexivity|]. split; [by rewrite <- Hn|].
    split; [done|]. split; [done|].
    rewrite Hdata, length_app in Hlim. lia. }
  rewrite Hrid in *. fold seq in Hsq, Hout, Hsf.
  replace (Z.of_nat (length (segment_header_bytes h ++ rest))) with (blen data) in * by done.
  unfold kSegmentHeaderSize in Hdel. rewrite Hn in Hdel.
  assert (Hoffset : 64 + blen (frames records) = blen (segment_bytes sg)).
  { unfold segment_bytes, sg. cbn [sg_header sg_records]. rewrite length_app. lia. }
  destruct out as [rs'|rep]; cycle 1.
  { destruct Hout as (Hfin & Hinc & st' & Hc & ->). destruct ds as [|]; [|done].
    injection E as <- <- <-. injection H as <- <- <-.
    destruct Hc as (Hc1 & Hc2 & Hc3 & Hc4 & _). rewrite D3, D2. split; [done|].
    exists (seg_wal_id h), seq, [], sg, tail. cbn zeta. unfold all_records.
    cbn [app concat fmap list_fmap sg_records sg length].
    rewrite app_nil_r. split_and!; try done.
    - unfold contents. apply Forall2_cons. split; [|done]. exists f. split; [done|].
      unfold content. rewrite <- Hdata. done.
    - cbn [replay_history]. rewrite app_nil_r. done.
    - cbn. congruence.
    - cbn. lia.
    - cbn. rewrite Hc2. by rewrite Hlast.
    - cbn. rewrite Hc4, Hrid, Hn, Z.add_0_r. unfold kSegmentHeaderSize. by rewrite Hoffset.
    - cbn [observed_final_size set_end]. by rewrite Hdata.
    - right. split; [done|done]. }
  destruct Hout as (-> & Ho & Hi & Hc). rewrite app_nil_r in Hdata.
  destruct Hc as (Hc1 & Hc2 & Hc3 & Hc4 & Hc5 & Hc6).
  unfold finish_segment in E. destruct (negb _ && _) eqn:Hg1 in E; [done|].
  destruct (sequence_exhausted _ && _) eqn:Hg2 in E; [done|]. injection E as <- <- <-.
  destruct ds as [|dsc2 ds].
  - cbn [scan_segments] in H. destruct (negb _) in H; [done|]. injection H as <- <- <-.
    rewrite D3, D2. split; [done|].
    exists (seg_wal_id h), seq, [], sg, []. cbn zeta. unfold all_records.
    cbn [app concat fmap list_fmap sg_records sg length]. rewrite !app_nil_r. split_and!; try done.
    + unfold contents. apply Forall2_cons. split; [|done]. exists f. split; [done|].
      unfold content. by rewrite app_nil_r, <- Hdata.
    + cbn [replay_history]. by rewrite app_nil_r.
    + cbn. congruence.
    + cbn. lia.
    + cbn. rewrite Hc2. by rewrite Hlast.
    + cbn [valid_end set_end sc_report]. rewrite Hc4, Hrid, Hn, Z.add_0_r, Ho, Hdata. done.
    + cbn [observed_final_size set_end sc_report]. by rewrite Hdata.
    + left. split; [done|]. cbn [classification set_end sc_report]. congruence.
  - assert (Hx : sequence_exhausted (sc_report (rs_state rs')) = false)
      by (destruct (sequence_exhausted (sc_report (rs_state rs'))); [discriminate Hg2|done]).
    destruct Hc6 as [(_ & He' & Hle)|(Hx' & _)]; [|congruence].
    apply (IH (n + 1)) in H; [|done|done|done].
    cbn zeta in H.
    destruct H as (D4 & id & seq' & sgs & lg & tail & Hst & Hh & Hlen & Hfiles & Hdel2 & Hr1 & Hr2 & Hr3 & Hr4 & Hr5 & Hr6).
    unfold starts_at in Hst. rewrite Hc5, Hhave, He', Hc4, Hrid in Hst. destruct Hst as [-> ->].
    rewrite D4, D3, D2. split; [done|].
    exists (seg_wal_id h), seq, (sg :: sgs), lg, tail. cbn zeta. cbn [app].
    rewrite all_records_cons, length_app. change (sg_records sg) with records.
    rewrite Nat2Z.inj_add. split_and!; try done.
    + cbn [history]. split; [done|]. split; [|done]. intros _ Hnil.
      change (sg_records sg) with records in Hnil. rewrite Hnil in Hi. rewrite Hi in Hg1. done.
    + cbn [length]. by rewrite Hlen.
    + cbn [contents]. apply Forall2_cons. rewrite D3, D2 in Hfiles. split; [|done]. exists f. split; [done|].
      unfold content. destruct (sgs ++ [lg]) eqn:Hl; [by destruct sgs|]. by rewrite app_nil_r, <- Hdata.
    + cbn [replay_history]. rewrite deliver_all_app.
      change (sg_records sg) with records. rewrite Hdel. done.
    + rewrite Hr2, Hc1. lia.
    + rewrite Hr3, Hc2, Hlast.
      destruct (Z.eqb_spec (Z.of_nat (length (all_records (sgs ++ [lg])))) 0),
        (Z.eqb_spec (Z.of_nat (length records)) 0),
        (Z.eqb_spec (Z.of_nat (length records) + Z.of_nat (length (all_records (sgs ++ [lg])))) 0); lia.
    + rewrite Hr4. cbn [length]. f_equal. lia.
    + rewrite Hc3, Hcl in Hr6. by rewrite Z.add_assoc.
Qed.
End segments_sound.
