(* ===== verification/WalScanTheorems.v ===== *)
(** The scanner against the abstract log: a log that lies on disk as a history is
    scanned as exactly that history, a log cut off anywhere in its last segment
    is scanned as the records that are complete, and a scan that succeeds has
    read a history. *)
From stdpp Require Import sorting.
From S2P Require Import Prelude Bytes Crc32c WalCodec PosixIo DiskFacts WalPaths WalScan WalHistory.
From S2P Require Import WalDiscovery.
From S2P Require Import WalSound.

(** * The report in closed form *)

Definition last_segment (sgs : list Segment) : Segment :=
  default {| sg_header := {| seg_wal_id := []; seg_number := 0; seg_first_record_sequence := 0 |};
             sg_records := [] |} (last sgs).

(** The report of a scan of the history [sgs] followed by [tail]. *)
Definition history_report (id : WalId) (sgs : list Segment) (temporaries : list FileName)
    (tail : list byte) : WalRecoveryReport :=
  {| classification := if bool_decide (tail = []) then kClean else kIncompleteFinalTail;
     rep_wal_id := id; segment_count := Z.of_nat (length sgs);
     temporary_file_count := Z.of_nat (length temporaries); temporary_files_removed := 0;
     record_count := Z.of_nat (length (all_records sgs));
     physical_bytes := total_bytes (contents sgs tail);
     valid_end := {| pos_wal_id := id; pos_segment_number := Z.of_nat (length sgs);
                     pos_byte_offset := blen (segment_bytes (last_segment sgs)) |};
     observed_final_size := blen (segment_bytes (last_segment sgs) ++ tail);
     last_record_sequence := Z.of_nat (length (all_records sgs));
     sequence_exhausted := false; repaired := false; repair_original_size := 0;
     repair_new_size := 0 |}.

Lemma scanned_report_closed id tail : forall sgs n seq st,
  sgs <> [] ->
  let total := Z.of_nat (length (all_records sgs)) in
  scanned_report id n seq st sgs tail =
    set_end (set_progress (set_wal_id (set_physical_bytes (sc_report st)
        (physical_bytes (sc_report st) + total_bytes (contents sgs tail))) id)
        (record_count (sc_report st) + total)
        (if total =? 0 then last_record_sequence (sc_report st) else seq + total - 1)
        (sequence_exhausted (sc_report st)))
      (if bool_decide (tail = []) then classification (sc_report st) else kIncompleteFinalTail)
      {| pos_wal_id := id; pos_segment_number := n + Z.of_nat (length sgs) - 1;
         pos_byte_offset := blen (segment_bytes (last_segment sgs)) |}
      (blen (segment_bytes (last_segment sgs) ++ tail)).
Proof.
  induction sgs as [|sg rest IH]; intros n seq st Hne; [done|]. cbv zeta in IH |- *.
  rewrite all_records_cons, length_app. cbn [scanned_report].
  destruct rest as [|sg2 rest].
  - cbn [contents total_bytes foldr all_records concat fmap list_fmap length last_segment last default].
    unfold content. unfold set_end, set_progress, set_wal_id, set_physical_bytes, advance_state, identified, add_bytes.
    cbn. rewrite Nat.add_0_r. destruct (Z.eqb_spec (Z.of_nat (length (sg_records sg))) 0); f_equal; try lia;
      try (f_equal; lia).
  - rewrite IH by done. set (r2 := sg2 :: rest).
    change (last_segment (sg :: r2)) with (last_segment r2).
    cbn [contents total_bytes foldr]. fold (total_bytes (contents r2 tail)).
    unfold set_end, set_progress, set_wal_id, set_physical_bytes, advance_state, identified, add_bytes.
    cbn [sc_report record_count physical_bytes last_record_sequence sequence_exhausted classification
      segment_count temporary_file_count temporary_files_removed repaired repair_original_size
      repair_new_size sc_expected set_progress set_wal_id set_physical_bytes].
    set (a := length (sg_records sg)). set (b := length (all_records r2)).
    f_equal; try lia; try (f_equal; cbn [length]; lia).
    destruct (Z.eqb_spec (Z.of_nat b) 0), (Z.eqb_spec (Z.of_nat a) 0), (Z.eqb_spec (Z.of_nat (a + b)) 0); lia.
Qed.

Lemma scanned_report_initial id sgs tail temps :
  sgs <> [] ->
  scanned_report id 1 1 (initial_scan None {| segments := discovered_from 1 sgs;
      temporary_file_names := temps |}) sgs tail = history_report id sgs temps tail.
Proof.
  intros Hne. rewrite scanned_report_closed by done. unfold history_report, set_end, set_progress,
    set_wal_id, set_physical_bytes, initial_scan. cbn [sc_report record_count physical_bytes
    last_record_sequence sequence_exhausted classification segment_count temporary_file_count
    temporary_files_removed repaired repair_original_size repair_new_size segments temporary_file_names].
  assert (Hl : length (discovered_from 1 sgs) = length sgs).
  { generalize 1. clear. induction sgs as [|sg sgs IH]; intros n; [done|]. cbn. by rewrite IH. }
  rewrite Hl. f_equal; try lia; [f_equal; lia|].
  destruct (Z.eqb_spec (Z.of_nat (length (all_records sgs))) 0); lia.
Qed.

(** * Scanning a history *)

(** A log on disk: a WAL directory whose files hold the history [sgs] and, after
    the last record, [tail]; the sums the scanner keeps fit their 64 bits. *)
Record log_on_disk (d : Disk) (id : WalId) (sgs : list Segment) (tail : list byte) : Prop := {
  ld_directory : wal_directory d 1 sgs;
  ld_nonempty : sgs <> [];
  ld_history : history id 1 1 sgs;
  ld_files : on_disk d 1 (contents sgs tail);
  ld_sizes : Forall (fun bs => blen bs <= kSegmentSizeLimit) (contents sgs tail);
  ld_tail : tail = [] \/ torn (1 + Z.of_nat (length (all_records sgs))) tail;
  ld_records : Z.of_nat (length (all_records sgs)) < max_u64;
  ld_bytes : total_bytes (contents sgs tail) <= max_u64 }.

Section scans.
Context {W St : Type} {HIO : PosixIo W} {HL : PosixLaws W}.

Lemma scan_discovered_ok pass (sink : option (WalReplaySink St)) id sgs tail temps (w : W) s s' :
  reliable w -> log_on_disk (disk w) id sgs tail ->
  (pass = kVerify \/ is_Some sink) ->
  deliver_all pass sink None (replay_history id 1 sgs) s = Some s' ->
  exists w', disk w' = disk w /\ reliable w' /\
    scan_discovered_wal pass sink None
      {| segments := discovered_from 1 sgs; temporary_file_names := temps |} (w, s) =
      (Ok (history_report id sgs temps tail), (w', s')).
Proof.
  intros Hr [Hdir Hne Hh Hod Hsz Htail Hn Hb] Hpass Hdel. unfold scan_discovered_wal.
  replace (bool_decide (pass <> kVerify) && negb (bool_decide (is_Some sink))) with false.
  2:{ destruct Hpass as [->|Hs]; [done|]. rewrite (bool_decide_eq_true_2 (is_Some sink)) by done.
      by rewrite andb_false_r. }
  cbn [segments]. rewrite <- scanned_report_initial by done.
  eapply (scan_segments_ok pass sink None id tail sgs 1 1 _ true); try done; try (cbn; lia).
  destruct sgs as [|sg rest]; [done|].
  destruct Hh as ((Hwf & Hi & Hsn & Hsf & Hsq & _) & _). split_and!.
  - cbv zeta. unfold check_identity. cbn [add_bytes initial_scan sc_have_id negb discovered_at disc_number].
    rewrite Hsf. cbn [kFirstSegmentNumber kFirstRecordSequence Z.eqb Pos.eqb negb orb].
    unfold identified, add_bytes. cbn [sc_report initial_scan sc_expected sc_seen]. rewrite Hi. done.
  - by apply (checkpoint_run_seen None 1 64 1).
  - done.
Qed.

Lemma discover_ok id sgs tail (w : W) :
  reliable w -> log_on_disk (disk w) id sgs tail ->
  exists w' temps, disk w' = disk w /\ reliable w' /\
    discover_wal true w = (Ok {| segments := discovered_from 1 sgs; temporary_file_names := temps |}, w') /\
    NoDup temps /\ forall t, t ∈ temps <-> is_Some (d_names (disk w) !! t) /\ is_temporary_segment_name t = true.
Proof.
  intros Hr Hlog. unfold discover_wal.
  destruct (implements_enabled _ _ _ _ _ _ w law_list_entries Hr I) as (es & w1 & E & [D Hp] & R).
  rewrite (io_bind_step _ _ _ _ _ E).
  destruct (classify_entries_ok (disk w) 1 sgs es true (ld_directory _ _ _ _ Hlog) Hp
    (ld_nonempty _ _ _ _ Hlog)) as (temps & Ec & Hnd & Ht); [done|].
  exists w1, temps. unfold io_pure. by rewrite Ec.
Qed.

Lemma open_locked_ok id sgs tail path permissions create_lock (w : W) :
  reliable w -> log_on_disk (disk w) id sgs tail ->
  (create_lock = true -> Z.land permissions (Z.lnot 511) = 0) ->
  exists w' temps, disk w' = disk w /\ reliable w' /\
    open_locked_wal_directory path permissions create_lock w =
      (Ok {| segments := discovered_from 1 sgs; temporary_file_names := temps |}, w') /\
    NoDup temps /\ forall t, t ∈ temps <-> is_Some (d_names (disk w) !! t) /\ is_temporary_segment_name t = true.
Proof.
  intros Hr Hlog Hp. unfold open_locked_wal_directory, open_locked.
  destruct (implements_enabled _ _ _ _ _ _ w (law_open_directory path) Hr I) as (u & w1 & E1 & D1 & R1).
  rewrite (io_bind_step _ _ _ _ _ E1).
  destruct (wd_lock _ _ _ (ld_directory _ _ _ _ Hlog)) as [lf Hlf].
  assert (Hlock : exists u2 w2, (if create_lock then acquire_exclusive_lock kWalLockFileName permissions
      else acquire_existing_exclusive_lock kWalLockFileName) w1 = (Ok u2, w2) /\
      disk w2 = disk w1 /\ reliable w2).
  { destruct create_lock.
    - destruct (implements_enabled _ _ _ _ _ _ w1 (law_lock kWalLockFileName permissions) R1)
        as (u2 & w2 & E2 & Hl & R2); [rewrite D1; eauto|]. exists u2, w2. split; [done|]. split; [|done].
      destruct Hl as [[-> _]|(g & Hn & _)]; [done|]. by rewrite D1, Hlf in Hn.
    - destruct (implements_enabled _ _ _ _ _ _ w1 (law_existing_lock kWalLockFileName) R1)
        as (u2 & w2 & E2 & [D2 _] & R2); [rewrite D1; eauto|]. eauto. }
  destruct Hlock as (u2 & w2 & E2 & D2 & R2). rewrite (io_bind_step _ _ _ _ _ E2).
  destruct (discover_ok id sgs tail w2 R2) as (w3 & temps & D3 & R3 & E3 & Ht).
  { by rewrite D2, D1. }
  exists w3, temps. rewrite D3, D2, D1 in *. done.
Qed.
End scans.

(** * What discovery establishes *)

Definition canonical_segment (x : DiscoveredWalSegment) : Prop :=
  disc_file_name x = segment_name (disc_number x).

Lemma discover_entries_named es : forall saw d saw' d',
  Forall canonical_segment (segments d) ->
  discover_entries es saw d = Ok (saw', d') -> Forall canonical_segment (segments d').
Proof.
  induction es as [|e es IH]; intros saw d saw' d' Hd H; cbn [discover_entries] in H.
  - by injection H as <- <-.
  - destruct (bool_decide (entry_name e = kWalLockFileName)).
    { destruct (negb _); [done|]. by eapply IH. }
    destruct (starts_with _ _) eqn:Hs.
    + apply rbind_Ok in H as (n & Hn & H). destruct (negb _); [done|].
      eapply IH; [|exact H]. cbn. apply Forall_app. split; [done|]. apply Forall_singleton.
      by apply parse_segment_number_sound in Hn as [_ ->].
    + destruct (is_temporary_segment_name _); [|by case_match].
      destruct (negb _); [done|]. eapply IH; [|exact H]. exact Hd.
Qed.

Lemma classify_entries_inv es d :
  classify_entries es true = Ok d ->
  Forall canonical_segment (segments d) /\ segments d <> [] /\ complete_prefix (segments d) 1 = true.
Proof.
  unfold classify_entries. intros H. apply rbind_Ok in H as ([saw d1] & E & H).
  apply discover_entries_named in E; [|constructor].
  destruct (negb saw); [done|]. destruct (segments d1) as [|x xs] eqn:Hs; [done|].
  cbn [andb] in H. destruct (complete_prefix _ _) eqn:Hc in H; [|done]. injection H as <-.
  cbn [segments]. split_and!; [| |done].
  - by rewrite merge_sort_Permutation.
  - intros Hn. pose proof (merge_sort_Permutation number_le (x :: xs)) as Hp. rewrite Hn in Hp.
    by apply Permutation_nil_l in Hp.
Qed.

Lemma files_on_disk d ds : forall n files,
  Forall canonical_segment ds -> complete_prefix ds n = true ->
  Forall2 (file_of d) ds files -> on_disk d n files.
Proof.
  induction ds as [|x ds IH]; intros n files Hc Hp Hf.
  - by apply Forall2_nil_inv_l in Hf as ->.
  - apply Forall2_cons_inv_l in Hf as (bs & files' & Hx & Hf & ->).
    apply Forall_cons in Hc as [Hx' Hc]. cbn [complete_prefix] in Hp.
    apply andb_true_iff in Hp as [Hn Hp]. apply Z.eqb_eq in Hn. cbn [on_disk].
    split; [|by apply IH]. unfold file_of in Hx. by rewrite Hx', Hn in Hx.
Qed.

(** * Cutting the last segment *)

Lemma take_frames m : forall rs seq, sequenced seq rs ->
  exists j tail, (j <= length rs)%nat /\ take m (frames rs) = frames (take j rs) ++ tail /\
    (tail = [] \/ torn (seq + Z.of_nat j) tail) /\
    forall i, (i <= length rs)%nat -> (length (frames (take i rs)) <= m)%nat -> (i <= j)%nat.
Proof.
  intros rs. revert m. induction rs as [|r rs IH]; intros m seq Hs.
  - exists 0%nat, []. cbn. rewrite take_nil. split_and!; [lia|done|by left|lia].
  - destruct Hs as (Hok & Hseq & Hs). rewrite frames_cons.
    pose proof (record_ok_length _ _ Hok) as Hlen. fold (frame r) in Hlen.
    destruct (decide (m < length (frame r))%nat) as [Hm|Hm].
    + exists 0%nat, (take m (frame r)). split; [lia|]. rewrite take_app_le by lia. split; [done|]. split.
      * destruct m as [|m]; [by left|right]. exists r, (S m). rewrite Z.add_0_r. split_and!; try done; lia.
      * intros [|i] Hi Hle; [lia|]. cbn [take] in Hle. rewrite frames_cons, length_app in Hle. lia.
    + destruct (IH (m - length (frame r))%nat (seq + 1) Hs) as (j & tail & Hj & Ht & Htorn & Hd).
      exists (S j), tail. cbn [length take]. split; [lia|]. rewrite take_app_ge by lia.
      rewrite frames_cons, <- app_assoc, Ht. split; [done|]. split.
      * replace (seq + Z.of_nat (S j)) with (seq + 1 + Z.of_nat j) by lia. done.
      * intros [|i] Hi Hle; [lia|]. cbn [take] in Hle. rewrite frames_cons, length_app in Hle.
        specialize (Hd i). lia.
Qed.

Lemma all_records_app a b : all_records (a ++ b) = all_records a ++ all_records b.
Proof. unfold all_records. by rewrite fmap_app, concat_app. Qed.

Lemma history_snoc id : forall sgs n seq lg,
  history id n seq (sgs ++ [lg]) <->
  history id n seq sgs /\ Forall (fun sg => sg_records sg <> []) sgs /\
  segment_ok id (n + Z.of_nat (length sgs)) (seq + Z.of_nat (length (all_records sgs))) lg.
Proof.
  induction sgs as [|sg sgs IH]; intros n seq lg; cbn [app history length].
  - cbn. rewrite !Z.add_0_r. split; [intros (? & _); split_and!; done|]. intros (_ & _ & ?). done.
  - rewrite IH, all_records_cons, length_app, Forall_cons.
    replace (n + 1 + Z.of_nat (length sgs)) with (n + Z.of_nat (S (length sgs))) by lia.
    replace (seq + Z.of_nat (length (sg_records sg)) + Z.of_nat (length (all_records sgs)))
      with (seq + Z.of_nat (length (sg_records sg) + length (all_records sgs))) by lia.
    split.
    + intros (H1 & H2 & H3 & H4 & H5). split_and!; try done; [|]; (intros; apply H2); by destruct sgs.
    + intros ((H1 & H2 & H3) & (H4 & H5) & H6). by split_and!.
Qed.

Lemma contents_snoc sgs lg tail :
  contents (sgs ++ [lg]) tail = (segment_bytes <$> sgs) ++ [segment_bytes lg ++ tail].
Proof.
  induction sgs as [|sg sgs IH]; [done|]. cbn [app contents fmap list_fmap]. rewrite IH. f_equal.
  unfold content. destruct (sgs ++ [lg]) eqn:E; [by destruct sgs|]. by rewrite app_nil_r.
Qed.

Lemma total_bytes_app a b : total_bytes (a ++ b) = total_bytes a + total_bytes b.
Proof. unfold total_bytes. induction a as [|x a IH]; [done|]. cbn [app foldr]. rewrite IH. lia. Qed.

Lemma wal_directory_length d n a b : length a = length b -> wal_directory d n a -> wal_directory d n b.
Proof. intros E [H1 H2 H3 H4]. rewrite E in *. by split. Qed.

(** The log that remains when the last file is cut at [m] bytes. *)
Lemma cut_log d id sgs lg m :
  log_on_disk d id (sgs ++ [lg]) [] -> 64 <= m ->
  forall d', wal_directory d' 1 (sgs ++ [lg]) ->
  on_disk d' 1 ((segment_bytes <$> sgs) ++ [take (Z.to_nat m) (segment_bytes lg)]) ->
  exists j tail, (j <= length (sg_records lg))%nat /\
    log_on_disk d' id (sgs ++ [{| sg_header := sg_header lg; sg_records := take j (sg_records lg) |}]) tail /\
    forall i, (i <= length (sg_records lg))%nat ->
      64 + blen (frames (take i (sg_records lg))) <= m -> (i <= j)%nat.
Proof.
  intros [Hdir Hne Hh Hod Hsz Htail Hn Hb] Hm d' Hdir' Hod'.
  apply history_snoc in Hh as (Hh & Hnn & (Hwf & Hi & Hsn & Hsf & Hsq & Hlim)).
  pose proof (length_segment_header_bytes _ (shw_id _ Hwf)) as Hhl.
  destruct (take_frames (Z.to_nat m - 64) _ _ Hsq) as (j & tail & Hj & Ht & Htorn & Hd).
  exists j, tail. split; [done|].
  set (lg' := {| sg_header := sg_header lg; sg_records := take j (sg_records lg) |}).
  assert (Hcut : take (Z.to_nat m) (segment_bytes lg) = segment_bytes lg' ++ tail).
  { unfold segment_bytes, lg'. cbn [sg_header sg_records].
    rewrite take_app_ge by lia. rewrite <- app_assoc. f_equal.
    replace (Z.to_nat m - length (segment_header_bytes (sg_header lg)))%nat with (Z.to_nat m - 64)%nat by lia.
    done. }
  rewrite Hcut, <- contents_snoc in Hod'.
  assert (Hlen : blen (segment_bytes lg') + blen tail <= blen (segment_bytes lg)).
  { apply (f_equal length) in Hcut. rewrite length_take, length_app in Hcut. lia. }
  rewrite contents_snoc in Hsz, Hb. apply Forall_app in Hsz as [Hsz _].
  rewrite all_records_app, length_app in Hn. cbn in Hn. rewrite app_nil_r in Hn.
  assert (Htk : length (take j (sg_records lg)) = j) by (rewrite length_take; lia).
  split.
  - split.
    + eapply wal_directory_length; [|exact Hdir']. by rewrite !length_app.
    + by destruct sgs.
    + apply history_snoc. split; [done|]. split; [done|]. unfold segment_ok, lg'.
      cbn [sg_header sg_records]. fold lg'. split; [done|]. split; [done|]. split; [done|]. split; [done|].
      split; [|lia]. rewrite <- (take_drop j (sg_records lg)) in Hsq. by apply sequenced_app in Hsq as [? _].
    + done.
    + rewrite contents_snoc. apply Forall_app. split; [done|]. apply Forall_singleton.
      rewrite length_app. lia.
    + destruct Htorn as [|Htorn]; [by left|right]. rewrite all_records_app, length_app.
      cbn [all_records concat fmap list_fmap]. unfold lg' at 1. cbn [sg_records]. rewrite app_nil_r, Htk.
      by rewrite Nat2Z.inj_add, Z.add_assoc.
    + rewrite all_records_app, length_app. cbn [all_records concat fmap list_fmap].
      unfold lg' at 1. cbn [sg_records]. rewrite app_nil_r, Htk. lia.
    + rewrite contents_snoc, total_bytes_app in *. cbn [total_bytes foldr] in *. rewrite app_nil_r in Hb.
      rewrite length_app. lia.
  - intros i Hi' Hle. apply Hd; [done|]. lia.
Qed.

(** * Claims *)

(** A sink that keeps the records it replays. *)
Definition recording_sink : WalReplaySink (list WalReplayRecord) :=
  {| sink_preflight _ s := (kOk, s); sink_replay r s := (kOk, s ++ [r]) |}.

Lemma deliver_recording rs s :
  deliver_all kReplay (Some recording_sink) None rs s = Some (s ++ rs).
Proof.
  induction rs as [|r rs IH] using rev_ind; [cbn; by rewrite app_nil_r|].
  rewrite deliver_all_app, IH. cbn. by rewrite app_assoc.
Qed.

Section claims.
Context {W : Type} {HIO : PosixIo W} {HL : PosixLaws W}.

Lemma scan_wal_ok {St} id sgs tail path (w : W) (s : St) :
  reliable w -> log_on_disk (disk w) id sgs tail ->
  exists w' temps, scan_wal path (w, s) = (Ok (history_report id sgs temps tail), (w', s)) /\
    disk w' = disk w.
Proof.
  intros Hr Hlog. unfold scan_wal.
  destruct (open_locked_ok id sgs tail path 384 false w Hr Hlog ltac:(done)) as (w1 & temps & D1 & R1 & E1 & _).
  destruct (scan_discovered_ok kVerify None id sgs tail temps w1 s s R1) as (w2 & D2 & R2 & E2).
  { by rewrite D1. } { by left. } { clear. induction (replay_history id 1 sgs); done. }
  exists w2, temps. unfold io_bind, lift_io. cbn [fst snd]. rewrite E1.
  split; [exact E2|]. by rewrite D2, D1.
Qed.

Lemma scan_wal_sound {St} path (w w' : W) (s s' : St) report :
  scan_wal path (w, s) = (Ok report, (w', s')) ->
  disk w' = disk w /\ exists id sgs lg tail,
    let all := sgs ++ [lg] in
    history id 1 1 all /\ on_disk (disk w) 1 (contents all tail) /\
    rep_wal_id report = id /\
    record_count report = Z.of_nat (length (all_records all)) /\
    last_record_sequence report = Z.of_nat (length (all_records all)) /\
    valid_end report = {| pos_wal_id := id; pos_segment_number := Z.of_nat (length all);
                          pos_byte_offset := blen (segment_bytes lg) |} /\
    observed_final_size report = blen (segment_bytes lg ++ tail) /\
    ((tail = [] /\ classification report = kClean) \/
     (incomplete (1 + Z.of_nat (length (all_records all))) tail /\
      classification report = kIncompleteFinalTail)).
Proof.
  unfold scan_wal. intros H. apply io_bind_Ok in H as (d & [w1 s1] & E1 & H).
  unfold lift_io in E1. cbn [fst snd] in E1.
  destruct (open_locked_wal_directory path 384 false w) as [r w1'] eqn:Eo. injection E1 as -> -> <-.
  unfold open_locked_wal_directory, open_locked in Eo.
  apply io_bind_Ok in Eo as (u & w2 & E2 & Eo).
  destruct (implements_Ok _ _ _ _ _ _ _ _ _ (law_open_directory path) E2) as [D2 _].
  apply io_bind_Ok in Eo as (u' & w3 & E3 & Eo).
  destruct (implements_Ok _ _ _ _ _ _ _ _ _ (law_existing_lock kWalLockFileName) E3) as [[D3 _] _].
  unfold discover_wal in Eo. apply io_bind_Ok in Eo as (es & w4 & E4 & Eo).
  destruct (implements_Ok _ _ _ _ _ _ _ _ _ law_list_entries E4) as [[D4 _] _].
  injection Eo as Ec ->. apply classify_entries_inv in Ec as (Hc & Hne & Hp).
  rewrite D3, D2 in D4. unfold scan_discovered_wal in H. cbn [bool_decide negb andb] in H.
  rewrite bool_decide_eq_false_2 in H by (intros ?; done). cbn [andb] in H.
  apply (scan_segments_inv kVerify None None (segments d) 1) in H; [|done|done|done].
  cbn zeta in H. cbn [initial_scan sc_have_id sc_expected sc_report record_count last_record_sequence
    classification] in H.
  destruct H as (D5 & id & seq & sgs & lg & tail & Hst & Hh & Hlen & Hf & _ & H1 & H2 & H3 & H4 & H5 & H6).
  destruct Hst as [_ ->]. rewrite D5, D4. split; [done|]. exists id, sgs, lg, tail. cbn zeta.
  split; [done|]. split; [rewrite <- D4; by apply (files_on_disk _ (segments d))|].
  split; [done|]. split; [rewrite H2; done|]. split.
  { rewrite H3.
    destruct (Z.eqb_spec (Z.of_nat (length (all_records (sgs ++ [lg])))) 0); lia. }
  split; [rewrite H4, length_app; cbn [length]; f_equal; lia|]. split; [done|]. exact H6.
Qed.
End claims.

(** Scanning a log that lies on disk as a history, possibly with the torn
    beginning of one more record: [scan_wal] reports exactly the history (its
    identity, number of segments and records, bytes, last sequence and end, and
    whether the tail is torn), and any pass over it calls the sink on exactly the
    records of the history, in order and with their physical coordinates; no
    file is changed. *)
Theorem scan_replays_history {W St : Type} {HIO : PosixIo W} {HL : PosixLaws W}
    (path : list byte) (id : WalId) (sgs : list Segment) (tail : list byte) (w : W) (s s' : St)
    (pass : ScanPass) (sink : WalReplaySink St) (temps : list FileName)
    (Hr : reliable w) (Hlog : log_on_disk (disk w) id sgs tail)
    (Hdel : deliver_all pass (Some sink) None (replay_history id 1 sgs) s = Some s') :
  (exists w' found, scan_wal path (w, s) = (Ok (history_report id sgs found tail), (w', s)) /\
     disk w' = disk w) /\
  exists w', scan_discovered_wal pass (Some sink) None
      {| segments := discovered_from 1 sgs; temporary_file_names := temps |} (w, s) =
      (Ok (history_report id sgs temps tail), (w', s')) /\ disk w' = disk w.
Proof.
  split; [by apply scan_wal_ok|].
  destruct (scan_discovered_ok pass (Some sink) id sgs tail temps w s s' Hr Hlog)
    as (w' & D & _ & E); [by right; eauto|done|]. eauto.
Qed.


(**  Crash: when the last file of a log survives only up to some length that
    is not below its header, the log is scanned as its records up to some point,
    without the cut record and with no record of another segment lost; every
    record that ends within the surviving bytes is among them, and the replay
    delivers exactly those. *)
Theorem crash_recovers_prefix {W : Type} {HIO : PosixIo W} {HL : PosixLaws W}
    (path : list byte) (d : Disk) (id : WalId) (sgs : list Segment) (lg : Segment) (m : Z) (w : W)
    (Hlog : log_on_disk d id (sgs ++ [lg]) []) (Hm : 64 <= m) (Hr : reliable w)
    (Hdir : wal_directory (disk w) 1 (sgs ++ [lg]))
    (Hcut : on_disk (disk w) 1
              ((segment_bytes <$> sgs) ++ [take (Z.to_nat m) (segment_bytes lg)])) :
  exists j tail,
    let recovered := sgs ++ [{| sg_header := sg_header lg; sg_records := take j (sg_records lg) |}] in
    (forall i, (i <= length (sg_records lg))%nat ->
       64 + blen (frames (take i (sg_records lg))) <= m -> (i <= j)%nat) /\
    (exists w' found, scan_wal path (w, tt) = (Ok (history_report id recovered found tail), (w', tt)) /\
       disk w' = disk w) /\
    exists w', scan_discovered_wal kReplay (Some recording_sink) None
        {| segments := discovered_from 1 recovered; temporary_file_names := [] |} (w, []) =
        (Ok (history_report id recovered [] tail), (w', replay_history id 1 recovered)).
Proof.
  destruct (cut_log d id sgs lg m Hlog Hm (disk w) Hdir Hcut) as (j & tail & Hj & Hlog' & Hd).
  exists j, tail. cbv zeta. split; [exact Hd|]. split; [by apply scan_wal_ok|].
  destruct (scan_discovered_ok kReplay (Some recording_sink) id _ tail [] w [] _ Hr Hlog'
    ltac:(right; eauto) (deliver_recording _ _)) as (w' & _ & _ & E). eauto.
Qed.

(** C37.  The record loop terminates: once the bound on its rounds covers the bytes
    that remain, a larger bound gives the same result, so the bound the scan uses,
    the size of the file, never cuts it short. *)
Theorem scan_loop_terminates {W St : Type} {HIO : PosixIo W} (pass : ScanPass)
    (sink : option (WalReplaySink St)) (checkpoint : option WalReplayCheckpoint) (f : PosixFile)
    (d : DiscoveredWalSegment) (is_final : bool) (size : Z) (rs : RecordScan) (ws : W * St) (k : nat)
    (Hoff : 0 <= rs_offset rs) :
  scan_records pass sink checkpoint (Z.to_nat size + k) f d is_final size rs ws =
  scan_records pass sink checkpoint (Z.to_nat size) f d is_final size rs ws.
Proof. apply scan_records_fuel. lia. Qed.

(** * A concrete log *)

Definition sample_record (seq : Z) : LogRecord :=
  ({| total_length := 64; record_format := 1; record_type := 1; record_flags := 0;
      record_sequence := seq; payload_length := 19 |}, sample_payload).
Definition sample_segment : Segment :=
  {| sg_header := sample_segment_header; sg_records := [sample_record 1; sample_record 2] |}.
Definition sample_disk (file : list byte) : Disk :=
  {| d_names := <[kWalLockFileName := (kRegularFile, 1%positive)]>
                  {[segment_name 1 := (kRegularFile, 2%positive)]};
     d_data := <[1%positive := []]> {[2%positive := file]};
     d_synced_names := ∅; d_synced := ∅ |}.
Definition sample_world (file : list byte) : Memory :=
  {| mem_disk := sample_disk file; mem_faults := [] |}.

Lemma sample_record_valid seq :
  in_width 64 seq -> seq <> 0 -> record_ok (sample_record seq).1 (sample_record seq).2.
Proof.
  intros Hw H0. split; [|split; [reflexivity|split; [reflexivity|]]].
  - split; cbn; try done; vm_compute; intuition discriminate.
  - intros _. exists sample_envelope. vm_compute. reflexivity.
Qed.

Lemma sample_segment_ok : segment_ok sample_wal_id 1 1 sample_segment.
Proof.
  split; [exact sample_segment_header_wf|]. do 3 (split; [reflexivity|]).
  split; [|vm_compute; discriminate].
  split; [by apply sample_record_valid|]. split; [done|]. split; [by apply sample_record_valid|]. done.
Qed.

Lemma sample_directory file : wal_directory (sample_disk file) 1 [sample_segment].
Proof.
  split.
  - exists 1%positive. apply lookup_insert_eq.
  - cbn. lia.
  - intros i Hi. exists 2%positive. cbn in Hi. replace i with 1 by lia. vm_compute. reflexivity.
  - intros name e H. cbn [sample_disk d_names] in H.
    apply lookup_insert_Some in H as [[<- <-]|[_ H]]; [split; [done|by left]|].
    apply lookup_singleton_Some in H as [<- <-]. split; [done|]. right. left. exists 1. split; [cbn; lia|done].
Qed.

Lemma sample_log : log_on_disk (sample_disk (segment_bytes sample_segment)) sample_wal_id [sample_segment] [].
Proof.
  split.
  - apply sample_directory.
  - done.
  - split; [exact sample_segment_ok|]. split; [done|done].
  - cbn [contents on_disk]. split; [|done]. exists 2%positive. split; vm_compute; reflexivity.
  - apply Forall_singleton. vm_compute. discriminate.
  - by left.
  - vm_compute. reflexivity.
  - vm_compute. discriminate.
Qed.

Lemma scan_replays_history_witness :
  exists w', scan_discovered_wal kReplay (Some recording_sink) None
      {| segments := discovered_from 1 [sample_segment]; temporary_file_names := [] |}
      (sample_world (segment_bytes sample_segment), []) =
      (Ok (history_report sample_wal_id [sample_segment] [] []),
       (w', replay_history sample_wal_id 1 [sample_segment])) /\
    disk w' = disk (sample_world (segment_bytes sample_segment)).
Proof.
  apply (scan_replays_history [] sample_wal_id [sample_segment] []
    (sample_world (segment_bytes sample_segment)) [] (replay_history sample_wal_id 1 [sample_segment])
    kReplay recording_sink []); [reflexivity | exact sample_log | reflexivity].
Defined.


Lemma crash_recovers_prefix_witness :
  exists j tail, (1 <= j)%nat /\ exists w', scan_discovered_wal kReplay (Some recording_sink) None
        {| segments := discovered_from 1 [{| sg_header := sample_segment_header;
             sg_records := take j (sg_records sample_segment) |}]; temporary_file_names := [] |}
        (sample_world (take 150 (segment_bytes sample_segment)), []) =
        (Ok (history_report sample_wal_id [{| sg_header := sample_segment_header;
             sg_records := take j (sg_records sample_segment) |}] [] tail),
         (w', replay_history sample_wal_id 1 [{| sg_header := sample_segment_header;
             sg_records := take j (sg_records sample_segment) |}])).
Proof.
  destruct (@crash_recovers_prefix Memory Memory_PosixIo Memory_laws [] (sample_disk (segment_bytes sample_segment)) sample_wal_id []
    sample_segment 150 (sample_world (take 150 (segment_bytes sample_segment)))
    sample_log ltac:(lia) eq_refl (sample_directory _)) as (j & tail & Hd & _ & Hs).
  - cbn [fmap list_fmap app on_disk]. split; [|done]. exists 2%positive. split; vm_compute; reflexivity.
  - exists j, tail. split; [|exact Hs]. apply (Hd 1%nat); [cbn; lia|vm_compute; discriminate].
Defined.

Lemma scan_loop_terminates_witness :
  scan_records kVerify (@None (WalReplaySink unit)) None 8 1%positive (discovered_at 1) true 5
    {| rs_state := initial_scan None {| segments := []; temporary_file_names := [] |};
       rs_offset := 0; rs_in_segment := 0 |} (sample_world [], tt) =
  scan_records kVerify None None 5 1%positive (discovered_at 1) true 5
    {| rs_state := initial_scan None {| segments := []; temporary_file_names := [] |};
       rs_offset := 0; rs_in_segment := 0 |} (sample_world [], tt).
Proof. apply (scan_loop_terminates kVerify None None 1%positive (discovered_at 1) true 5 _ _ 3). cbn. lia. Defined.
