(* ===== verification/WalWriter.v ===== *)
(** The write-ahead log writer: src/wal/wal_writer.cpp, src/wal/wal_segment.cpp and
    the configuration checks of src/wal/wal_writer_config_internal.hpp, over the
    file interface of PosixIo.  The writer's owned handles are the active file
    and the world; a writer that was closed or moved from is [None]. *)
From S2P Require Import Prelude Bytes Crc32c WalCodec PosixIo WalPaths WalScan.

(** * Data *)

Record WalWriterConfig := {
  directory_path : list byte; config_file_permissions : Z;
  config_target_segment_size : Z; config_maximum_application_payload : Z }.

Record WalSegment := {
  segment_file_name : FileName; segment_header : SegmentHeader; end_offset : Z }.
Record SegmentInstallRequest := {
  req_wal_id : WalId; req_segment_number : Z; req_first_record_sequence : Z;
  req_file_permissions : Z }.

Record WalAppendResult := {
  append_record_sequence : Z; append_record_start : PhysicalWalPosition;
  append_record_end : PhysicalWalPosition }.

Record WalSegmentReclamationReport := {
  rec_checkpoint : WalReplayCheckpoint; removed_segment_count : Z;
  removed_physical_bytes : Z; directory_sync_count : Z }.
Record WalSegmentReclamationMetrics := {
  metric_attempts : Z; metric_failures : Z; metric_removed_segment_count : Z;
  metric_removed_physical_bytes : Z; metric_directory_sync_count : Z }.

(** [WalWriter::Impl]: [active_file] and [active_metadata] are the two parts of
    [active_segment_]. *)
Record Impl := {
  active_metadata : WalSegment; active_file : PosixFile;
  file_permissions : Z; target_segment_size : Z; maximum_application_payload : Z;
  written_position : PhysicalWalPosition; durable_position : PhysicalWalPosition;
  next_record_sequence : Z; written_record_sequence : Z; durable_record_sequence : Z;
  sequence_exhausted_ : bool; reclamation_metrics : WalSegmentReclamationMetrics;
  failure : StatusCode }.

Definition set_failure (i : Impl) (s : StatusCode) : Impl :=
  {| active_metadata := active_metadata i; active_file := active_file i;
     file_permissions := file_permissions i; target_segment_size := target_segment_size i;
     maximum_application_payload := maximum_application_payload i;
     written_position := written_position i; durable_position := durable_position i;
     next_record_sequence := next_record_sequence i;
     written_record_sequence := written_record_sequence i;
     durable_record_sequence := durable_record_sequence i;
     sequence_exhausted_ := sequence_exhausted_ i; reclamation_metrics := reclamation_metrics i;
     failure := s |}.
Definition set_durable (i : Impl) : Impl :=
  {| active_metadata := active_metadata i; active_file := active_file i;
     file_permissions := file_permissions i; target_segment_size := target_segment_size i;
     maximum_application_payload := maximum_application_payload i;
     written_position := written_position i; durable_position := written_position i;
     next_record_sequence := next_record_sequence i;
     written_record_sequence := written_record_sequence i;
     durable_record_sequence := written_record_sequence i;
     sequence_exhausted_ := sequence_exhausted_ i; reclamation_metrics := reclamation_metrics i;
     failure := failure i |}.
Definition set_active (i : Impl) (metadata : WalSegment) (file : PosixFile)
    (position : PhysicalWalPosition) : Impl :=
  {| active_metadata := metadata; active_file := file;
     file_permissions := file_permissions i; target_segment_size := target_segment_size i;
     maximum_application_payload := maximum_application_payload i;
     written_position := position; durable_position := position;
     next_record_sequence := next_record_sequence i;
     written_record_sequence := written_record_sequence i;
     durable_record_sequence := durable_record_sequence i;
     sequence_exhausted_ := sequence_exhausted_ i; reclamation_metrics := reclamation_metrics i;
     failure := failure i |}.
Definition set_metrics (i : Impl) (m : WalSegmentReclamationMetrics) : Impl :=
  {| active_metadata := active_metadata i; active_file := active_file i;
     file_permissions := file_permissions i; target_segment_size := target_segment_size i;
     maximum_application_payload := maximum_application_payload i;
     written_position := written_position i; durable_position := durable_position i;
     next_record_sequence := next_record_sequence i;
     written_record_sequence := written_record_sequence i;
     durable_record_sequence := durable_record_sequence i;
     sequence_exhausted_ := sequence_exhausted_ i; reclamation_metrics := m;
     failure := failure i |}.

(** * Configuration *)

Definition validate_writer_config (c : WalWriterConfig) : StatusCode :=
  if bool_decide (directory_path c = []) then kInvalidArgument
  else if existsb (fun b => bool_decide (b = x00)) (directory_path c) then kInvalidArgument
  else if negb (Z.land (config_file_permissions c) (u16 (Z.lnot 511)) =? 0) then kInvalidArgument
  else if config_maximum_application_payload c <? kApplicationEnvelopeSize then kInvalidArgument
  else if config_maximum_application_payload c >? kMaximumPayloadLength then kOutOfRange
  else match calculate_record_layout (config_maximum_application_payload c) with
  | Err s => s
  | Ok layout =>
      if config_target_segment_size c <=? kSegmentHeaderSize then kInvalidArgument
      else if config_target_segment_size c >? kSegmentSizeLimit then kOutOfRange
      else if config_target_segment_size c <? kSegmentHeaderSize + layout_total_length layout
      then kInvalidArgument
      else kOk
  end.

(** * wal_segment.cpp *)

Definition install_segment {W} `{PosixIo W} (request : SegmentInstallRequest)
  : IO W (WalSegment * PosixFile) :=
  let header := {| seg_wal_id := req_wal_id request; seg_number := req_segment_number request;
                   seg_first_record_sequence := req_first_record_sequence request |} in
  let* encoded_header := io_pure (encode_segment_header header) in
  let* final_name := io_pure (wal_segment_file_name (req_segment_number request)) in
  let* temporary_name :=
    io_pure (wal_temporary_segment_file_name (req_segment_number request) (req_wal_id request)) in
  let* temporary := create_exclusive_regular_file temporary_name (req_file_permissions request) in
  do* write_all_at temporary 0 encoded_header;
  let* size := file_size temporary in
  stop_if negb (size =? kSegmentHeaderSize) with kIoError;
  do* sync_all temporary;
  do* rename_no_replace temporary_name final_name;
  do* directory_sync;
  io_ret ({| segment_file_name := final_name; segment_header := header;
             end_offset := kSegmentHeaderSize |}, temporary).

(** * New directories *)

(** [validate_new_directory_contents]: three passes over the entries. *)
Fixpoint reserved_entries_regular (entries : list DirectoryEntry) : StatusCode :=
  match entries with
  | [] => kOk
  | entry :: rest =>
      let name := entry_name entry in
      let not_regular := negb (bool_decide (entry_type entry = kRegularFile)) in
      if bool_decide (name = kWalLockFileName) then
        if not_regular then kCorruption else reserved_entries_regular rest
      else if is_final_segment_name name then
        if not_regular then kCorruption else reserved_entries_regular rest
      else if writer_is_temporary_segment_name name then
        if not_regular then kCorruption else reserved_entries_regular rest
      else if starts_with name (chars "wal-") || starts_with name (chars ".wal-") then kCorruption
      else reserved_entries_regular rest
  end.
Definition validate_new_directory_contents (entries : list DirectoryEntry) : StatusCode :=
  let status := reserved_entries_regular entries in
  if negb (is_ok status) then status
  else if existsb (fun e => is_final_segment_name (entry_name e)
                            || writer_is_temporary_segment_name (entry_name e)) entries
  then kAlreadyExists
  else if existsb (fun e => negb (bool_decide (entry_name e = kWalLockFileName))) entries
  then kInvalidArgument
  else kOk.

Definition has_regular_lock (entries : list DirectoryEntry) : bool :=
  existsb (fun e => bool_decide (entry_name e = kWalLockFileName)
                    && bool_decide (entry_type e = kRegularFile)) entries.

(** The status of the directory and whether it has a regular LOCK file; an error
    of the listing leaves the latter false. *)
Definition inspect_new_directory {W} `{PosixIo W} : W -> (StatusCode * bool) * W := fun w =>
  match list_entries w with
  | (Ok entries, w') =>
      ((validate_new_directory_contents entries, has_regular_lock entries), w')
  | (Err s, w') => ((s, false), w')
  end.

(** * The writer *)

Definition initial_impl (metadata : WalSegment) (file : PosixFile) (c : WalWriterConfig) : Impl :=
  let position := {| pos_wal_id := seg_wal_id (segment_header metadata);
                     pos_segment_number := seg_number (segment_header metadata);
                     pos_byte_offset := end_offset metadata |} in
  {| active_metadata := metadata; active_file := file;
     file_permissions := config_file_permissions c;
     target_segment_size := config_target_segment_size c;
     maximum_application_payload := config_maximum_application_payload c;
     written_position := position; durable_position := position;
     next_record_sequence := kFirstRecordSequence; written_record_sequence := 0;
     durable_record_sequence := 0; sequence_exhausted_ := false;
     reclamation_metrics := {| metric_attempts := 0; metric_failures := 0;
       metric_removed_segment_count := 0; metric_removed_physical_bytes := 0;
       metric_directory_sync_count := 0 |};
     failure := kOk |}.

(** The constructor from a recovered state. *)
Definition recovered_impl (metadata : WalSegment) (file : PosixFile) (c : WalWriterConfig)
    (report : WalRecoveryReport) : Impl :=
  {| active_metadata := metadata; active_file := file;
     file_permissions := config_file_permissions c;
     target_segment_size := config_target_segment_size c;
     maximum_application_payload := config_maximum_application_payload c;
     written_position := valid_end report; durable_position := valid_end report;
     next_record_sequence := if sequence_exhausted report then max_u64
                             else u64 (last_record_sequence report + 1);
     written_record_sequence := last_record_sequence report;
     durable_record_sequence := last_record_sequence report;
     sequence_exhausted_ := sequence_exhausted report;
     reclamation_metrics := {| metric_attempts := 0; metric_failures := 0;
       metric_removed_segment_count := 0; metric_removed_physical_bytes := 0;
       metric_directory_sync_count := 0 |};
     failure := kOk |}.

(** [create_new_with]: [generate] is the identity generator, the argument the
    source takes it as. *)
Definition create_new_with {W} `{PosixIo W} (c : WalWriterConfig) (generate : result WalId) : IO W Impl :=
  do* io_check (validate_writer_config c);
  do* open_directory (directory_path c);
  fun w =>
  let '((status, regular_lock), w) := inspect_new_directory w in
  (if negb (is_ok status) then
     do* (if regular_lock then acquire_exclusive_lock kWalLockFileName (config_file_permissions c)
          else io_ret tt);
     io_pure (make_unexpected status)
   else
     let* wal_id := io_pure generate in
     stop_if negb (WalId_is_valid wal_id) with kInvalidArgument;
     do* acquire_exclusive_lock kWalLockFileName (config_file_permissions c);
     fun w =>
     let '((status, _), w) := inspect_new_directory w in
     (do* io_check status;
      let* (metadata, file) := install_segment
        {| req_wal_id := wal_id; req_segment_number := kFirstSegmentNumber;
           req_first_record_sequence := kFirstRecordSequence;
           req_file_permissions := config_file_permissions c |} in
      io_ret (initial_impl metadata file c)) w) w.

Section writer.
Context {W : Type} `{PosixIo W}.

(** [poison]: the first failure sticks, and is what the caller reports. *)
Definition poison {A} (status : StatusCode) : IO (W * Impl) A := fun wi =>
  let i := wi.2 in
  let i' := if is_ok (failure i) then set_failure i status else i in
  (make_unexpected (failure i'), (wi.1, i')).

Definition get_impl : IO (W * Impl) Impl := fun wi => (Ok wi.2, wi).
Definition put_impl (i : Impl) : IO (W * Impl) unit := fun wi => (Ok tt, (wi.1, i)).
(** A file operation whose failure poisons the writer. *)
Definition or_poison {A} (c : IO W A) : IO (W * Impl) A := fun wi =>
  match c wi.1 with
  | (Ok a, w') => (Ok a, (w', wi.2))
  | (Err s, w') => poison s (w', wi.2)
  end.
(** An error that does not poison the writer. *)
Definition plain {A} (r : result A) : IO (W * Impl) A := fun wi =>
  (match r with Ok a => Ok a | Err s => make_unexpected s end, wi).

Definition encode_application_record (i : Impl) (payload : list byte) : result (list byte) :=
  let? header := make_record_header
    {| input_record_type := kApplicationEntryRecordType;
       input_record_sequence := next_record_sequence i; input_payload_length := blen payload |} in
  let (r, encoded) := encode_record header payload
                        (replicate (Z.to_nat (total_length header)) x00) in
  let? _ := r in
  Ok encoded.

Definition rotate : IO (W * Impl) unit :=
  let* i := get_impl in
  let number := seg_number (segment_header (active_metadata i)) in
  stop_if number =? max_u64 with kResourceExhausted;
  do* or_poison (sync_data (active_file i));
  let i := set_durable i in
  do* put_impl i;
  let* (metadata, file) := or_poison (install_segment
    {| req_wal_id := seg_wal_id (segment_header (active_metadata i));
       req_segment_number := number + 1;
       req_first_record_sequence := next_record_sequence i;
       req_file_permissions := file_permissions i |}) in
  do* put_impl (set_active i metadata file
    {| pos_wal_id := seg_wal_id (segment_header metadata); pos_segment_number := number + 1;
       pos_byte_offset := kSegmentHeaderSize |});
  or_poison (close_file (active_file i)).

Definition validate_active_state (i : Impl) : StatusCode :=
  let segment := active_metadata i in
  if (end_offset segment <? kSegmentHeaderSize) || (end_offset segment >? kSegmentSizeLimit)
     || negb (end_offset segment mod 8 =? 0) then kInternal
  else if negb (bool_decide (pos_wal_id (written_position i) = seg_wal_id (segment_header segment)))
          || negb (pos_segment_number (written_position i) =? seg_number (segment_header segment))
          || negb (pos_byte_offset (written_position i) =? end_offset segment) then kInternal
  else kOk.

(** The bookkeeping after a record of [length] bytes was written. *)
Definition advance_written (i : Impl) (length : Z) : Impl :=
  let segment := active_metadata i in
  let offset := end_offset segment + length in
  let sequence := next_record_sequence i in
  let last := sequence =? max_u64 in
  {| active_metadata := {| segment_file_name := segment_file_name segment;
                           segment_header := segment_header segment; end_offset := offset |};
     active_file := active_file i; file_permissions := file_permissions i;
     target_segment_size := target_segment_size i;
     maximum_application_payload := maximum_application_payload i;
     written_position := {| pos_wal_id := pos_wal_id (written_position i);
       pos_segment_number := pos_segment_number (written_position i); pos_byte_offset := offset |};
     durable_position := durable_position i;
     next_record_sequence := if last then sequence else sequence + 1;
     written_record_sequence := sequence;
     durable_record_sequence := durable_record_sequence i;
     sequence_exhausted_ := if last then true else sequence_exhausted_ i;
     reclamation_metrics := reclamation_metrics i; failure := failure i |}.

Definition append_application_entry (payload : list byte) : IO (W * Impl) WalAppendResult :=
  let* i := get_impl in
  if negb (is_ok (failure i)) then io_pure (make_unexpected (failure i))
  else
  stop_if blen payload >? maximum_application_payload i with kOutOfRange;
  stop_if sequence_exhausted_ i with kResourceExhausted;
  if negb (is_ok (validate_active_state i)) then poison (validate_active_state i)
  else
  let* encoded := plain (encode_application_record i payload) in
  let record_length := blen encoded in
  do* (if (target_segment_size i <=? end_offset (active_metadata i))
          || (record_length >? target_segment_size i - end_offset (active_metadata i))
       then rotate else io_ret tt);
  let* i := get_impl in
  let start := written_position i in
  do* or_poison (write_all_at (active_file i) (pos_byte_offset start) encoded);
  do* put_impl (advance_written i record_length);
  io_ret {| append_record_sequence := next_record_sequence i; append_record_start := start;
            append_record_end := written_position (advance_written i record_length) |}.

Definition synchronize : IO (W * Impl) PhysicalWalPosition :=
  let* i := get_impl in
  if negb (is_ok (failure i)) then io_pure (make_unexpected (failure i))
  else if negb (is_ok (validate_active_state i)) then poison (validate_active_state i)
  else
  do* or_poison (sync_data (active_file i));
  do* put_impl (set_durable i);
  io_ret (durable_position (set_durable i)).
End writer.

(** A writer handle: [None] after [close], or moved from. *)
Definition on_writer {W A} (c : IO (W * Impl) A) : IO (W * option Impl) A := fun wh =>
  match wh.2 with
  | None => (Err kInvalidArgument, wh)
  | Some i => let (r, wi) := c (wh.1, i) in (r, (wi.1, Some wi.2))
  end.

(** [close]: every handle is closed and the first error is reported. *)
Definition close {W} `{PosixIo W} : W * option Impl -> StatusCode * (W * option Impl) := fun wh =>
  match wh.2 with
  | None => (kOk, wh)
  | Some i =>
      let preserve_first first (r : result unit) :=
        if is_ok first then status_of r else first in
      let (r1, w1) := close_file (active_file i) wh.1 in
      let (r2, w2) := close_lock w1 in
      let (r3, w3) := close_directory w2 in
      (preserve_first (preserve_first (preserve_first (failure i) r1) r2) r3, (w3, None))
  end.
