(* ===== verification/WalWriterFacts.v ===== *)
(** What the operations of the log writer do to the disk: the layout invariant of
    a live writer, the effect of installing a segment, appending and
    synchronising, on success and on failure. *)
From S2P Require Import Prelude Bytes Crc32c WalCodec PosixIo DiskFacts WalPaths WalScan WalHistory.
From S2P Require Import WalDiscovery.
From S2P Require Import WalSound WalScanTheorems WalWriter.

Lemma length_frame r : record_ok r.1 r.2 -> blen (frame r) = total_length r.1.
Proof. apply length_record_ok. Qed.

#[local] Opaque segment_header_bytes frame.

(** * Files on disk *)

Lemma on_disk_app d files more : forall n,
  on_disk d n (files ++ more) <-> on_disk d n files /\ on_disk d (n + Z.of_nat (length files)) more.
Proof.
  induction files as [|bs files IH]; intros n; cbn [app on_disk length].
  - rewrite Z.add_0_r. naive_solver.
  - rewrite IH. replace (n + 1 + Z.of_nat (length files)) with (n + Z.of_nat (S (length files))) by lia.
    naive_solver.
Qed.

(** Files that another disk holds unchanged. *)
Lemma on_disk_mono d d' files : forall n,
  (forall i f bs, n <= i < n + Z.of_nat (length files) ->
     d_names d !! segment_name i = Some (kRegularFile, f) -> d_data d !! f = Some bs ->
     d_names d' !! segment_name i = Some (kRegularFile, f) /\ d_data d' !! f = Some bs) ->
  on_disk d n files -> on_disk d' n files.
Proof.
  induction files as [|bs files IH]; intros n Hm H; [done|]. destruct H as [(f & Hn & Hd) H].
  cbn [on_disk length] in *. split.
  - exists f. apply Hm; [lia|done|done].
  - apply IH; [|done]. intros i g bs' Hi. apply Hm. lia.
Qed.

(** * Installing a segment *)

(** What installing can have done when it fails: the old files are untouched, and
    at most the temporary or the final name was added. *)
Definition install_residue (temporary final : FileName) (bs : list byte) (d d' : Disk) : Prop :=
  (forall g c, d_data d !! g = Some c -> d_data d' !! g = Some c) /\
  (d_names d' = d_names d \/
   exists f, d_data d !! f = None /\
     ((d_names d !! temporary = None /\ d_names d' = <[temporary := (kRegularFile, f)]> (d_names d)) \/
      (d_names d !! final = None /\ d_names d' = <[final := (kRegularFile, f)]> (d_names d) /\
       d_data d' !! f = Some bs))).

Section install.
Context {W : Type} {HIO : PosixIo W} {HL : PosixLaws W}.

Context (id : WalId) (n seq permissions : Z).
Let request := {| req_wal_id := id; req_segment_number := n; req_first_record_sequence := seq;
                  req_file_permissions := permissions |}.
Let header := {| seg_wal_id := id; seg_number := n; seg_first_record_sequence := seq |}.

Lemma segment_name_not_temporary : segment_name n <> temporary_name n id.
Proof. discriminate. Qed.

Context (Hwf : segment_header_wf header).

(** The names and bytes the request determines. *)
Lemma install_segment_unfold (w : W) :
  install_segment request w =
  (let* temporary := create_exclusive_regular_file (temporary_name n id) permissions in
   do* write_all_at temporary 0 (segment_header_bytes header);
   let* size := file_size temporary in
   stop_if negb (size =? kSegmentHeaderSize) with kIoError;
   do* sync_all temporary;
   do* rename_no_replace (temporary_name n id) (segment_name n);
   do* directory_sync;
   io_ret ({| segment_file_name := segment_name n; segment_header := header;
              end_offset := kSegmentHeaderSize |}, temporary)) w.
Proof.
  unfold install_segment, request. cbn [req_wal_id req_segment_number req_first_record_sequence
    req_file_permissions]. fold header.
  pose proof (shw_number0 _ Hwf) as Hn. pose proof (shw_valid _ Hwf) as Hv. cbn in Hn, Hv.
  unfold io_bind at 1 2 3, io_pure.
  by rewrite encode_segment_header_ok, wal_segment_file_name_ok, wal_temporary_file_name_ok by done.
Qed.

Lemma install_segment_inv (w w' : W) out :
  install_segment request w = (Ok out, w') ->
  exists f, d_names (disk w) !! segment_name n = None /\ d_data (disk w) !! f = None /\
    disk w' = installed (segment_name n) f (segment_header_bytes header) (disk w) /\
    out = ({| segment_file_name := segment_name n; segment_header := header;
              end_offset := kSegmentHeaderSize |}, f).
Proof.
  rewrite install_segment_unfold. intros H.
  apply io_bind_Ok in H as (f & w1 & E1 & H).
  destruct (implements_Ok _ _ _ _ _ _ _ _ _ (law_create _ _) E1) as [(Hn1 & Hd1 & D1) _].
  apply io_bind_Ok in H as (u2 & w2 & E2 & H).
  destruct (implements_Ok _ _ _ _ _ _ _ _ _ (law_write _ _ _) E2) as [D2 _].
  apply io_bind_Ok in H as (size & w3 & E3 & H).
  destruct (implements_Ok _ _ _ _ _ _ _ _ _ (law_size _) E3) as [[D3 _] _].
  destruct (negb _); [done|].
  apply io_bind_Ok in H as (u4 & w4 & E4 & H).
  destruct (implements_Ok _ _ _ _ _ _ _ _ _ (law_sync_all _) E4) as [D4 _].
  apply io_bind_Ok in H as (u5 & w5 & E5 & H).
  destruct (implements_Ok _ _ _ _ _ _ _ _ _ (law_rename _ _) E5) as [(e & He & Hfin & D5) _].
  apply io_bind_Ok in H as (u6 & w6 & E6 & H).
  destruct (implements_Ok _ _ _ _ _ _ _ _ _ law_directory_sync E6) as [D6 _].
  injection H as <- <-. exists f.
  assert (Hnames : d_names (disk w4) = <[temporary_name n id := (kRegularFile, f)]> (d_names (disk w))).
  { rewrite D4, D3, D2, D1. done. }
  assert (Hdata : d_data (disk w3) = <[f := segment_header_bytes header]> (d_data (disk w))).
  { rewrite D3, D2, D1. unfold write_disk, create_disk. cbn [d_data].
    rewrite alter_insert_eq. f_equal. apply overlay_end. }
  assert (Hsyn : d_synced (disk w3) = d_synced (disk w)) by (rewrite D3, D2, D1; done).
  rewrite Hnames, lookup_insert_eq in He. injection He as <-.
  rewrite Hnames, lookup_insert_ne in Hfin by (apply not_eq_sym, segment_name_not_temporary).
  split; [done|]. split; [done|]. split; [|done].
  rewrite D6, D5. unfold sync_names, set_names. cbn [d_names d_data d_synced].
  rewrite Hnames, delete_insert_id by done. rewrite D4. unfold sync_disk. cbn [d_data d_synced].
  rewrite Hdata, lookup_insert_eq, Hsyn. reflexivity.
Qed.

(** The disk once the temporary file [f] exists with contents [c]. *)
Definition with_temporary (f : PosixFile) (c : list byte) (d d' : Disk) : Prop :=
  d_names d !! temporary_name n id = None /\ d_data d !! f = None /\
  d_names d' = <[temporary_name n id := (kRegularFile, f)]> (d_names d) /\
  d_data d' = <[f := c]> (d_data d).

Lemma temporary_residue f c d d' :
  with_temporary f c d d' -> install_residue (temporary_name n id) (segment_name n)
    (segment_header_bytes header) d d'.
Proof.
  intros (Hn & Hf & Hn' & Hd'). split.
  - intros g b Hg. rewrite Hd', lookup_insert_ne; [done|]. intros ->. by rewrite Hf in Hg.
  - right. exists f. split; [done|]. left. done.
Qed.

Lemma residue_refl d : install_residue (temporary_name n id) (segment_name n)
    (segment_header_bytes header) d d.
Proof. split; [done|by left]. Qed.

Lemma created_temporary f d d' : created (temporary_name n id) f d d' -> with_temporary f [] d d'.
Proof. intros (Hn & Hf & ->). by split_and!. Qed.

Lemma install_segment_failed (w w' : W) s :
  install_segment request w = (Err s, w') ->
  install_residue (temporary_name n id) (segment_name n) (segment_header_bytes header)
    (disk w) (disk w').
Proof.
  rewrite install_segment_unfold. intros H.
  apply io_bind_Err in H as [[s1 E]|(f & w1 & E1 & H)].
  { destruct (implements_Err _ _ _ _ _ _ _ _ _ (law_create _ _) E) as [_ [->|[f Hc]]];
      [apply residue_refl|]. by eapply temporary_residue, created_temporary. }
  destruct (implements_Ok _ _ _ _ _ _ _ _ _ (law_create _ _) E1) as [Hc _].
  apply created_temporary in Hc. destruct Hc as (Hn & Hf & Hn1 & Hd1).
  assert (Hw : forall d1 src, d1 = write_disk f 0 src (disk w1) ->
    exists c, with_temporary f c (disk w) d1).
  { intros d1 src ->. exists (overlay [] 0 src). unfold with_temporary, write_disk. cbn [d_names d_data].
    rewrite Hd1, alter_insert_eq. done. }
  apply io_bind_Err in H as [[s2 E]|(u2 & w2 & E2 & H)].
  { destruct (implements_Err _ _ _ _ _ _ _ _ _ (law_write _ _ _) E) as [_ [->|[k Hk]]].
    - eapply temporary_residue. by split_and!.
    - destruct (Hw _ _ Hk) as [c Hcc]. by eapply temporary_residue. }
  destruct (implements_Ok _ _ _ _ _ _ _ _ _ (law_write _ _ _) E2) as [D2 _].
  assert (Ht2 : with_temporary f (segment_header_bytes header) (disk w) (disk w2)).
  { rewrite D2. unfold with_temporary, write_disk. cbn [d_names d_data].
    rewrite Hd1, alter_insert_eq. split_and!; try done. f_equal. apply overlay_end. }
  pose proof (temporary_residue _ _ _ _ Ht2) as Hr2.
  apply io_bind_Err in H as [[s3 E]|(size & w3 & E3 & H)].
  { destruct (implements_Err _ _ _ _ _ _ _ _ _ (law_size _) E) as [_ ->]. done. }
  destruct (implements_Ok _ _ _ _ _ _ _ _ _ (law_size _) E3) as [[D3 _] _].
  destruct (negb _); [injection H as _ <-; by rewrite D3|].
  apply io_bind_Err in H as [[s4 E]|(u4 & w4 & E4 & H)].
  { destruct (implements_Err _ _ _ _ _ _ _ _ _ (law_sync_all _) E) as [_ ->]. by rewrite D3. }
  destruct (implements_Ok _ _ _ _ _ _ _ _ _ (law_sync_all _) E4) as [D4 _].
  assert (Ht4 : with_temporary f (segment_header_bytes header) (disk w) (disk w4))
    by (rewrite D4, D3; exact Ht2).
  apply io_bind_Err in H as [[s5 E]|(u5 & w5 & E5 & H)].
  { destruct (implements_Err _ _ _ _ _ _ _ _ _ (law_rename _ _) E) as [_ ->]. by eapply temporary_residue. }
  destruct (implements_Ok _ _ _ _ _ _ _ _ _ (law_rename _ _) E5) as [(e & He & Hfin & D5) _].
  apply io_bind_Err in H as [[s6 E]|(u6 & w6 & E6 & H)]; [|done].
  destruct (implements_Err _ _ _ _ _ _ _ _ _ law_directory_sync E) as [_ ->].
  destruct Ht4 as (_ & _ & Hn4 & Hd4). rewrite Hn4, lookup_insert_eq in He. injection He as <-.
  rewrite Hn4, lookup_insert_ne in Hfin by (apply not_eq_sym, segment_name_not_temporary).
  rewrite D5. unfold set_names, install_residue. cbn [d_names d_data]. rewrite Hd4. split.
  - intros g b Hg. rewrite lookup_insert_ne; [done|]. intros ->. by rewrite Hf in Hg.
  - right. exists f. split; [done|]. right. split; [done|].
    rewrite Hn4, delete_insert_id by done. split; [done|]. apply lookup_insert_eq.
Qed.
End install.

(** * The layout of a live writer *)

Definition add_record (sg : Segment) (r : LogRecord) : Segment :=
  {| sg_header := sg_header sg; sg_records := sg_records sg ++ [r] |}.

(** A live writer's view of the disk: [sgs] are the closed segments and [lg] the
    active one. *)
Record writer_ok (d : Disk) (i : Impl) (sgs : list Segment) (lg : Segment) : Prop := {
  wo_directory : wal_directory d 1 (sgs ++ [lg]);
  wo_history : history (seg_wal_id (sg_header lg)) 1 1 (sgs ++ [lg]);
  wo_files : on_disk d 1 (contents (sgs ++ [lg]) []);
  wo_active : d_names d !! segment_name (Z.of_nat (length sgs) + 1) = Some (kRegularFile, active_file i);
  wo_names_differ : names_differ (d_names d);
  wo_bound : forall name e, d_names d !! name = Some e -> is_Some (d_data d !! e.2);
  wo_metadata : active_metadata i =
    {| segment_file_name := segment_name (Z.of_nat (length sgs) + 1); segment_header := sg_header lg;
       end_offset := blen (segment_bytes lg) |};
  wo_written : written_position i =
    {| pos_wal_id := seg_wal_id (sg_header lg); pos_segment_number := Z.of_nat (length sgs) + 1;
       pos_byte_offset := blen (segment_bytes lg) |};
  wo_sequence : written_record_sequence i = Z.of_nat (length (all_records (sgs ++ [lg])));
  wo_next : (sequence_exhausted_ i = false /\ next_record_sequence i = written_record_sequence i + 1 /\
             written_record_sequence i < max_u64) \/
            (sequence_exhausted_ i = true /\ written_record_sequence i = max_u64);
  wo_config : 64 + frame_length (maximum_application_payload i) <= target_segment_size i <= kSegmentSizeLimit /\
    0 <= maximum_application_payload i <= kMaximumPayloadLength;
  wo_durable : exists k, (k <= length (sg_records lg))%nat /\
    durable_record_sequence i = Z.of_nat (length (all_records sgs) + k) /\
    durable_position i = {| pos_wal_id := seg_wal_id (sg_header lg);
      pos_segment_number := Z.of_nat (length sgs) + 1;
      pos_byte_offset := 64 + blen (frames (take k (sg_records lg))) |} /\
    d_synced d !! active_file i =
      Some (segment_header_bytes (sg_header lg) ++ frames (take k (sg_records lg)));
  wo_closed : forall j sg, sgs !! j = Some sg -> exists f,
    d_names d !! segment_name (Z.of_nat j + 1) = Some (kRegularFile, f) /\
    d_synced d !! f = Some (segment_bytes sg);
  wo_names : d_synced_names d = d_names d }.

Lemma wo_private d i sgs lg : writer_ok d i sgs lg -> forall name e, d_names d !! name = Some e ->
  name <> segment_name (Z.of_nat (length sgs) + 1) -> e.2 <> active_file i.
Proof. intros Hok name e He Hne E. apply Hne. by apply (wo_names_differ _ _ _ _ Hok _ _ _ _ He (wo_active _ _ _ _ Hok)). Qed.

Lemma segment_bytes_length id n seq sg :
  segment_ok id n seq sg -> blen (segment_bytes sg) = 64 + blen (frames (sg_records sg)).
Proof.
  intros (Hwf & _). unfold segment_bytes. rewrite length_app.
  pose proof (length_segment_header_bytes _ (shw_id _ Hwf)). lia.
Qed.

Lemma frames_mod8 seq rs : sequenced seq rs -> blen (frames rs) mod 8 = 0.
Proof.
  revert seq. induction rs as [|r rs IH]; intros seq H; [done|].
  destruct H as (Hok & _ & Hrs). rewrite frames_cons, length_app, Nat2Z.inj_add.
  specialize (IH _ Hrs). assert (Hl : blen (frame r) = total_length r.1) by by apply length_record_ok.
  destruct Hok as (Hwf & _). pose proof (frame_length_bounds _ (rhw_payload _ Hwf)) as (_ & Hm & _).
  rewrite (rhw_total _ Hwf) in Hl. Z.to_euclidean_division_equations. lia.
Qed.

Lemma history_sizes id sgs lg : forall n seq,
  history id n seq (sgs ++ [lg]) ->
  Forall (fun bs => blen bs <= kSegmentSizeLimit) ((segment_bytes <$> sgs) ++ [segment_bytes lg]).
Proof.
  change [segment_bytes lg] with (segment_bytes <$> [lg]). rewrite <- fmap_app.
  induction (sgs ++ [lg]) as [|sg l IH]; intros n seq H; constructor; destruct H as (Hs & _ & H).
  - apply Hs.
  - by eapply IH.
Qed.

Section writer_facts.
Context (d : Disk) (i : Impl) (sgs : list Segment) (lg : Segment).
Context (Hok : writer_ok d i sgs lg).
Let id := seg_wal_id (sg_header lg).

Lemma active_segment_ok :
  segment_ok id (Z.of_nat (length sgs) + 1) (1 + Z.of_nat (length (all_records sgs))) lg.
Proof.
  pose proof (wo_history _ _ _ _ Hok) as H. apply history_snoc in H as (_ & _ & H).
  by rewrite Z.add_comm.
Qed.

Lemma active_data : d_data d !! active_file i = Some (segment_bytes lg).
Proof.
  pose proof (wo_files _ _ _ _ Hok) as H. rewrite contents_snoc, on_disk_app in H.
  destruct H as [_ [(f & Hn & Hd) _]]. rewrite length_fmap, Z.add_comm in Hn.
  rewrite (wo_active _ _ _ _ Hok) in Hn. injection Hn as <-. by rewrite app_nil_r in Hd.
Qed.

Lemma validate_active_ok : validate_active_state i = kOk.
Proof.
  unfold validate_active_state. rewrite (wo_metadata _ _ _ _ Hok), (wo_written _ _ _ _ Hok).
  cbn [end_offset segment_header pos_wal_id pos_segment_number pos_byte_offset].
  pose proof active_segment_ok as Hs. pose proof (segment_ok_size _ _ _ _ Hs) as Hsz.
  pose proof (segment_bytes_length _ _ _ _ Hs) as Hl.
  destruct Hs as (_ & _ & Hn & _ & Hsq & _). pose proof (frames_mod8 _ _ Hsq) as Hm.
  destruct (Z.ltb_spec (blen (segment_bytes lg)) kSegmentHeaderSize); [unfold kSegmentHeaderSize in *; lia|].
  destruct (Z.gtb_spec (blen (segment_bytes lg)) kSegmentSizeLimit); [lia|].
  destruct (Z.eqb_spec (blen (segment_bytes lg) mod 8) 0) as [_|Hne].
  2:{ exfalso. apply Hne. rewrite Hl. clear -Hm. Z.to_euclidean_division_equations. lia. }
  cbn [orb negb]. rewrite bool_decide_eq_true_2 by done. rewrite Hn, !Z.eqb_refl. done.
Qed.

Lemma durable_le_written : durable_record_sequence i <= written_record_sequence i.
Proof.
  rewrite (wo_sequence _ _ _ _ Hok), all_records_app, length_app. cbn. rewrite app_nil_r.
  destruct (wo_durable _ _ _ _ Hok) as (k & Hk & -> & _). lia.
Qed.

(** The log the writer maintains, as the scanner would find it. *)
Lemma writer_log :
  Z.of_nat (length (all_records (sgs ++ [lg]))) < max_u64 ->
  total_bytes (contents (sgs ++ [lg]) []) <= max_u64 ->
  log_on_disk d id (sgs ++ [lg]) [].
Proof.
  intros Hn Hb. destruct Hok as [Hdir Hh Hod _ _ _ _ _ _ _ _ _ _ _]. split; try done.
  - by destruct sgs.
  - rewrite contents_snoc, app_nil_r. apply (history_sizes _ _ _ _ _ Hh).
  - by left.
Qed.
End writer_facts.

(** ** The record of an append *)

Definition application_record (seq : Z) (payload : list byte) : LogRecord :=
  ({| total_length := frame_length (blen payload); record_format := kRecordFormat;
      record_type := kApplicationEntryRecordType; record_flags := 0; record_sequence := seq;
      payload_length := blen payload |}, payload).

Lemma application_record_ok seq payload env :
  in_width 64 seq -> seq <> 0 -> decode_application_payload payload = Ok env ->
  record_ok (application_record seq payload).1 (application_record seq payload).2.
Proof.
  intros Hw H0 Hd. pose proof Hd as Hd'. apply decode_application_sound in Hd' as [(_ & _ & _ & _ & _ & Hb) ->].
  assert (Hlen : blen (application_bytes env) <= kMaximumPayloadLength).
  { unfold application_bytes. rewrite !length_app, !length_le_bytes.
    unfold kApplicationEnvelopeSize in Hb. lia. }
  split; [|split; [done|split; [done|eauto]]].
  split; cbn [application_record fst record_format record_type record_flags record_sequence
    payload_length total_length]; try done; lia.
Qed.

Lemma encode_application_record_inv i payload encoded :
  in_width 64 (next_record_sequence i) ->
  encode_application_record i payload = Ok encoded ->
  record_ok (application_record (next_record_sequence i) payload).1 payload /\
  encoded = frame (application_record (next_record_sequence i) payload).
Proof.
  intros Hw H. unfold encode_application_record in H. apply rbind_Ok in H as (h & Hh & H).
  unfold make_record_header in Hh. cbn [input_record_type input_record_sequence input_payload_length] in Hh.
  destruct (_ =? 0) in Hh; [done|]. destruct (Z.eqb_spec (next_record_sequence i) 0) as [|H0]; [done|].
  rewrite calculate_record_layout_spec in Hh by lia.
  destruct (Z.gtb_spec (blen payload) kMaximumPayloadLength) as [|Hmax]; [done|].
  cbn [rbind layout_total_length layout_payload_length] in Hh. injection Hh as <-.
  change {| total_length := _ |} with (application_record (next_record_sequence i) payload).1 in H.
  set (r := application_record (next_record_sequence i) payload) in *.
  destruct (encode_record r.1 payload _) as [res out] eqn:E.
  apply rbind_Ok in H as (sz & -> & H). injection H as <-.
  assert (Hdec : exists env, decode_application_payload payload = Ok env).
  { unfold encode_record in E. destruct (encode_record_header r.1); [|by unfold make_unexpected in E].
    destruct (negb _); [done|]. destruct (decode_application_payload payload); [eauto|]. done. }
  destruct Hdec as [env Henv]. pose proof (application_record_ok _ _ _ Hw H0 Henv) as Hrok.
  fold r in Hrok. split; [exact Hrok|].
  rewrite encode_record_ok in E; [|exact Hrok|done|].
  - injection E as _ <-. rewrite drop_ge; [by rewrite app_nil_r|]. rewrite length_replicate. done.
  - rewrite length_replicate. pose proof (record_ok_length _ _ Hrok) as Hl.
    rewrite length_record_ok in Hl by exact Hrok. cbn [r application_record fst] in *. lia.
Qed.

(** ** Writing at the end of the active file *)

Lemma wal_directory_names d d' n sgs :
  d_names d' = d_names d -> wal_directory d n sgs -> wal_directory d' n sgs.
Proof. intros E [H1 H2 H3 H4]. split; rewrite ?E in *; done. Qed.

Lemma segment_bytes_add sg r : segment_bytes (add_record sg r) = segment_bytes sg ++ frame r.
Proof.
  unfold segment_bytes, add_record. cbn [sg_header sg_records].
  rewrite frames_app, app_assoc. f_equal. rewrite frames_cons. by rewrite app_nil_r.
Qed.

Lemma all_records_add sgs lg r :
  all_records (sgs ++ [add_record lg r]) = all_records (sgs ++ [lg]) ++ [r].
Proof. rewrite !all_records_app. cbn. by rewrite !app_nil_r, app_assoc. Qed.

Lemma writer_files_other d i sgs lg j f :
  writer_ok d i sgs lg -> 1 <= j <= Z.of_nat (length sgs) ->
  d_names d !! segment_name j = Some (kRegularFile, f) -> f <> active_file i.
Proof.
  intros Hok Hj Hn. apply (wo_private _ _ _ _ Hok _ _ Hn). intros E.
  pose proof (wd_range _ _ _ (wo_directory _ _ _ _ Hok)) as Hr. rewrite length_app in Hr. cbn in Hr.
  apply segment_name_inj in E; unfold segment_number_ok; lia.
Qed.

Lemma write_files d i sgs lg src :
  writer_ok d i sgs lg ->
  on_disk (write_disk (active_file i) (blen (segment_bytes lg)) src d) 1 (contents (sgs ++ [lg]) src).
Proof.
  intros Hok. pose proof (wo_files _ _ _ _ Hok) as H. rewrite contents_snoc, on_disk_app in *.
  destruct H as [H _]. split.
  - eapply on_disk_mono; [|exact H]. rewrite length_fmap. intros j f bs Hj Hn Hd. split; [exact Hn|].
    unfold write_disk. cbn [d_data]. rewrite lookup_alter_ne; [done|].
    apply not_eq_sym. eapply writer_files_other; [done| |done]. lia.
  - cbn [on_disk]. split; [|done]. exists (active_file i). rewrite length_fmap, Z.add_comm.
    split; [apply (wo_active _ _ _ _ Hok)|]. unfold write_disk. cbn [d_data].
    rewrite lookup_alter_eq, (active_data _ _ _ _ Hok). cbn. by rewrite overlay_end.
Qed.

Lemma add_record_ok id n seq lg r :
  segment_ok id n seq lg -> record_ok r.1 r.2 ->
  record_sequence r.1 = seq + Z.of_nat (length (sg_records lg)) ->
  blen (segment_bytes lg) + blen (frame r) <= kSegmentSizeLimit ->
  segment_ok id n seq (add_record lg r).
Proof.
  intros (Hwf & Hi & Hn & Hf & Hs & _) Hr Hseq Hsz.
  split; [exact Hwf|]. split; [exact Hi|]. split; [exact Hn|]. split; [exact Hf|]. split.
  - cbn [add_record sg_records]. apply sequenced_app. split; [done|]. cbn. done.
  - rewrite segment_bytes_add, length_app. lia.
Qed.

Lemma history_replace_last id n seq sgs lg lg' :
  history id n seq (sgs ++ [lg]) ->
  (forall m q, segment_ok id m q lg -> m = n + Z.of_nat (length sgs) ->
     q = seq + Z.of_nat (length (all_records sgs)) -> segment_ok id m q lg') ->
  history id n seq (sgs ++ [lg']).
Proof. rewrite !history_snoc. intros (H1 & H2 & H3) Hl. split_and!; [done..|]. by apply Hl. Qed.

Lemma write_step d i sgs lg payload :
  let r := application_record (next_record_sequence i) payload in
  writer_ok d i sgs lg -> sequence_exhausted_ i = false -> record_ok r.1 payload ->
  blen (segment_bytes lg) + blen (frame r) <= kSegmentSizeLimit ->
  writer_ok (write_disk (active_file i) (blen (segment_bytes lg)) (frame r) d)
    (advance_written i (blen (frame r))) sgs (add_record lg r).
Proof.
  intros r Hok Hex Hr Hsz. pose proof (write_files d i sgs lg (frame r) Hok) as Hfiles.
  pose proof Hok as [Hdir Hh _ Hact Hpriv Hbound Hmeta Hwr Hseq Hnext Hcfg Hdur Hcl Hnm].
  destruct Hnext as [(_ & Hnx & Hlt)|[? _]]; [|congruence].
  rewrite all_records_app, length_app in Hseq. cbn [all_records concat fmap list_fmap] in Hseq.
  rewrite app_nil_r in Hseq.
  unfold advance_written. rewrite Hmeta, Hwr. cbn [end_offset segment_file_name segment_header pos_wal_id
    pos_segment_number pos_byte_offset].
  split; cbn [active_metadata active_file written_position durable_position next_record_sequence
    written_record_sequence durable_record_sequence sequence_exhausted_ maximum_application_payload
    target_segment_size].
  - eapply wal_directory_names; [|eapply wal_directory_length; [|exact Hdir]]; [done|].
    by rewrite !length_app.
  - eapply history_replace_last; [exact Hh|]. intros m q Hs _ Hq. apply add_record_ok; [done|done| |done].
    cbn [r application_record fst record_sequence]. lia.
  - rewrite contents_snoc in *. by rewrite app_nil_r, segment_bytes_add.
  - exact Hact.
  - exact Hpriv.
  - intros name e He. cbn [write_disk d_data]. destruct (Hbound _ _ He) as [bs Hb].
    destruct (decide (active_file i = e.2)) as [E|E];
      [rewrite E, lookup_alter_eq, Hb; eexists; reflexivity|rewrite lookup_alter_ne, Hb by done; eauto].
  - rewrite segment_bytes_add, length_app. by f_equal; lia.
  - rewrite segment_bytes_add, length_app. by f_equal; lia.
  - rewrite all_records_add, all_records_app, !length_app. cbn. rewrite app_nil_r. lia.
  - destruct (Z.eqb_spec (next_record_sequence i) max_u64) as [E|E]; [right|left]; split_and?; try done; lia.
  - done.
  - destruct Hdur as (k & Hk & H1 & H2 & H3). exists k. cbn [add_record sg_records sg_header].
    rewrite length_app, take_app_le by lia. split; [lia|]. done.
  - exact Hcl.
  - exact Hnm.
Qed.

(** ** Synchronising and rotating *)

Lemma sync_step d i sgs lg :
  writer_ok d i sgs lg -> writer_ok (sync_disk (active_file i) d) (set_durable i) sgs lg.
Proof.
  intros Hok. pose proof (active_data _ _ _ _ Hok) as Hact.
  pose proof (segment_bytes_length _ _ _ _ (active_segment_ok _ _ _ _ Hok)) as Hlen.
  pose proof (writer_files_other d i sgs lg) as Hother.
  pose proof Hok as [Hdir Hh Hf Hac Hpriv Hbound Hmeta Hwr Hseq Hnext Hcfg Hdur Hcl Hnm].
  unfold sync_disk. rewrite Hact. split; cbn [set_durable active_metadata active_file written_position
    durable_position next_record_sequence written_record_sequence durable_record_sequence
    sequence_exhausted_ maximum_application_payload target_segment_size d_synced]; try done.
  - eapply wal_directory_names; [|exact Hdir]. done.
  - eapply on_disk_mono; [|exact Hf]. done.
  - exists (length (sg_records lg)). rewrite take_ge by lia. split; [lia|]. split_and!.
    + rewrite Hseq, all_records_app, length_app. cbn. by rewrite app_nil_r.
    + rewrite Hwr. by rewrite Hlen.
    + apply lookup_insert_eq.
  - intros j sg Hj. destruct (Hcl j sg Hj) as (f & Hn & Hs). exists f. split; [done|].
    rewrite lookup_insert_ne; [done|]. apply not_eq_sym.
    apply lookup_lt_Some in Hj. apply (Hother (Z.of_nat j + 1)); [done|lia|done].
Qed.

Definition empty_segment (id : WalId) (n seq : Z) : Segment :=
  {| sg_header := {| seg_wal_id := id; seg_number := n; seg_first_record_sequence := seq |};
     sg_records := [] |}.

Lemma wal_directory_snoc d n sgs lg f :
  wal_directory d n sgs -> n + Z.of_nat (length sgs) <= max_u64 ->
  forall d', d_names d' = <[segment_name (n + Z.of_nat (length sgs)) := (kRegularFile, f)]> (d_names d) ->
  wal_directory d' n (sgs ++ [lg]).
Proof.
  intros [Hl Hr Hs Ho] Hmax d' En. split; rewrite ?En.
  - destruct Hl as [g Hg]. exists g. rewrite lookup_insert_ne; [done|]. apply segment_name_not_lock.
  - rewrite length_app. cbn. lia.
  - intros j Hj. rewrite length_app in Hj. cbn in Hj.
    destruct (decide (j = n + Z.of_nat (length sgs))) as [->|Hne].
    + exists f. apply lookup_insert_eq.
    + destruct (Hs j) as [g Hg]; [lia|]. exists g. rewrite lookup_insert_ne; [done|].
      intros E. apply segment_name_inj in E; unfold segment_number_ok; lia.
  - intros name e He. apply lookup_insert_Some in He as [[<- <-]|[Hne He]].
    + split; [done|]. right. left. exists (n + Z.of_nat (length sgs)).
      rewrite length_app. cbn. split; [lia|done].
    + destruct (Ho _ _ He) as [Hreg [|[(j & Hj & ->)|]]]; split; try done; [by left| |by right; right].
      right. left. exists j. rewrite length_app. split; [lia|done].
Qed.

Lemma install_header_wf d i sgs lg :
  writer_ok d i sgs lg -> sequence_exhausted_ i = false -> Z.of_nat (length sgs) + 1 <> max_u64 ->
  segment_header_wf (sg_header (empty_segment (seg_wal_id (sg_header lg))
    (Z.of_nat (length sgs) + 1 + 1) (next_record_sequence i))).
Proof.
  intros Hok Hex Hn. pose proof (active_segment_ok _ _ _ _ Hok) as (Hwf & _ & Hsn & _).
  pose proof (wd_range _ _ _ (wo_directory _ _ _ _ Hok)) as Hr. rewrite length_app in Hr. cbn in Hr.
  destruct (wo_next _ _ _ _ Hok) as [(_ & Hnx & Hlt)|[? _]]; [|congruence].
  pose proof (wo_sequence _ _ _ _ Hok) as Hs.
  split; cbn [empty_segment sg_header seg_wal_id seg_number seg_first_record_sequence].
  - apply (shw_id _ Hwf).
  - apply (shw_valid _ Hwf).
  - width_lia.
  - lia.
  - width_lia.
  - lia.
  - unfold kFirstSegmentNumber. lia.
Qed.

Lemma install_step d i sgs lg f :
  let id := seg_wal_id (sg_header lg) in
  let number := Z.of_nat (length sgs) + 1 in
  let lg' := empty_segment id (number + 1) (next_record_sequence i) in
  writer_ok d i sgs lg -> sequence_exhausted_ i = false -> number <> max_u64 ->
  sg_records lg <> [] ->
  durable_position i = written_position i -> durable_record_sequence i = written_record_sequence i ->
  d_synced d !! active_file i = Some (segment_bytes lg) ->
  d_names d !! segment_name (number + 1) = None -> d_data d !! f = None ->
  writer_ok (installed (segment_name (number + 1)) f (segment_header_bytes (sg_header lg')) d)
    (set_active i {| segment_file_name := segment_name (number + 1); segment_header := sg_header lg';
                     end_offset := kSegmentHeaderSize |} f
       {| pos_wal_id := id; pos_segment_number := number + 1; pos_byte_offset := kSegmentHeaderSize |})
    (sgs ++ [lg]) lg'.
Proof.
  intros id number lg' Hok Hex Hmax Hne Hdp Hds Hsyn Hfree Hfresh.
  pose proof (install_header_wf _ _ _ _ Hok Hex Hmax) as Hwf'.
  pose proof (active_segment_ok _ _ _ _ Hok) as Hseg.
  pose proof Hok as [Hdir Hh Hf Hac Hpriv Hbound Hmeta Hwr Hseq Hnext Hcfg Hdur Hcl Hnm].
  pose proof (wd_range _ _ _ Hdir) as Hrange.
  assert (Hlen2 : length (sgs ++ [lg]) = S (length sgs)) by (rewrite length_app; cbn; lia).
  assert (Hn2 : Z.of_nat (length (sgs ++ [lg])) + 1 = number + 1) by (rewrite Hlen2; unfold number; lia).
  assert (Hsb : segment_bytes lg' = segment_header_bytes (sg_header lg')).
  { unfold segment_bytes, lg'. cbn [empty_segment sg_records]. by rewrite app_nil_r. }
  assert (Hsl : blen (segment_bytes lg') = 64).
  { rewrite Hsb. apply (length_segment_header_bytes _ (shw_id _ Hwf')). }
  destruct Hnext as [(_ & Hnx & Hlt)|[? _]]; [|congruence].
  assert (Hother : forall j, 1 <= j <= number -> segment_name (number + 1) <> segment_name j).
  { intros j Hj E. apply segment_name_inj in E; unfold segment_number_ok; rewrite Hlen2 in Hrange; unfold number in *; lia. }
  assert (Hfree2 : forall name e, d_names d !! name = Some e -> e.2 <> f).
  { intros name e He E. destruct (Hbound _ _ He) as [? Hx]. by rewrite E, Hfresh in Hx. }
  split; cbn [set_active active_metadata active_file written_position durable_position next_record_sequence
    written_record_sequence durable_record_sequence sequence_exhausted_ maximum_application_payload
    target_segment_size installed d_names d_data d_synced_names d_synced]; rewrite ?Hn2.
  - eapply (wal_directory_snoc d 1 (sgs ++ [lg]) lg' f); [exact Hdir|rewrite Hlen2 in *; unfold number in *; lia|].
    cbn [installed d_names]. do 2 f_equal. rewrite Hlen2. unfold number. lia.
  - apply history_snoc. split; [exact Hh|]. apply history_snoc in Hh as (_ & Hnn & _). split.
    + apply Forall_app. split; [done|]. by apply Forall_singleton.
    + split; [exact Hwf'|]. split; [done|]. split; [cbn; rewrite Hlen2; unfold number; lia|].
      split; [cbn; rewrite Hnx, Hseq; lia|]. split; [done|]. rewrite Hsl. unfold kSegmentSizeLimit. lia.
  - rewrite contents_snoc, app_nil_r, Hsb, on_disk_app. split.
    + rewrite contents_snoc, app_nil_r in Hf. rewrite fmap_app. eapply on_disk_mono; [|exact Hf].
      intros j g bs Hj Hn Hd. cbn [installed d_names d_data]. split.
      * rewrite lookup_insert_ne; [done|]. apply Hother. unfold number.
        rewrite length_app, length_fmap in Hj. cbn in Hj. lia.
      * rewrite lookup_insert_ne; [done|]. apply not_eq_sym. by apply (Hfree2 _ _ Hn).
    + cbn [on_disk]. split; [|done]. exists f. cbn [installed d_names d_data].
      rewrite length_fmap, Hlen2. replace (1 + Z.of_nat (S (length sgs))) with (number + 1) by (unfold number; lia).
      split; apply lookup_insert_eq.
  - apply lookup_insert_eq.
  - by apply insert_names_differ.
  - intros name e He. apply lookup_insert_Some in He as [[<- <-]|[_ He]].
    + rewrite lookup_insert_eq. eauto.
    + rewrite lookup_insert_ne by (apply not_eq_sym; by apply (Hfree2 _ _ He)). by eapply Hbound.
  - by rewrite Hsl.
  - by rewrite Hsl.
  - rewrite all_records_app, length_app. cbn. lia.
  - left. split_and!; done.
  - done.
  - exists 0%nat. cbn [empty_segment sg_records lg' take frames concat fmap list_fmap length]. split; [lia|].
    split_and!.
    + rewrite Hds, Hseq. lia.
    + done.
    + rewrite lookup_insert_eq, app_nil_r. done.
  - intros j sg Hj. apply lookup_app_Some in Hj as [Hj|[Hge Hj]].
    + destruct (Hcl j sg Hj) as (g & Hn & Hs). exists g. apply lookup_lt_Some in Hj. split.
      * rewrite lookup_insert_ne; [done|]. apply Hother. unfold number. lia.
      * rewrite lookup_insert_ne; [done|]. apply not_eq_sym. by apply (Hfree2 _ _ Hn).
    + apply list_lookup_singleton_Some in Hj as [Hj <-]. exists (active_file i).
      replace (Z.of_nat j + 1) with number by (unfold number; lia). split.
      * rewrite lookup_insert_ne; [done|]. apply Hother. unfold number. lia.
      * rewrite lookup_insert_ne; [done|]. apply not_eq_sym. by apply (Hfree2 _ _ Hac).
  - done.
Qed.

(** * Operations that succeed *)

Section operations.
Context {W : Type} {HIO : PosixIo W} {HL : PosixLaws W}.

Lemma or_poison_Ok {A} (c : IO W A) (w w' : W) i i' a :
  or_poison c (w, i) = (Ok a, (w', i')) <-> c w = (Ok a, w') /\ i' = i.
Proof.
  unfold or_poison, poison. cbn [fst snd]. destruct (c w) as [[b|s] w1].
  - split; [by intros [= -> -> ->]|by intros [[= -> ->] ->]].
  - split; [|by intros [? _]].
    destruct (@make_unexpected_not_ok A (failure (if is_ok (failure i) then set_failure i s else i)))
      as (? & -> & _). done.
Qed.

(** The writer after a failure [s]. *)
Definition poisoned (i : Impl) (s : StatusCode) : Impl :=
  if is_ok (failure i) then set_failure i s else i.

Lemma or_poison_Err {A} (c : IO W A) (w w' : W) i i' s :
  or_poison c (w, i) = (Err s, (w', i')) -> exists s0, c w = (Err s0, w') /\ i' = poisoned i s0.
Proof.
  unfold or_poison, poison. cbn [fst snd]. destruct (c w) as [[b|s0] w1]; [done|].
  intros [= _ <- <-]. eauto.
Qed.

Lemma wal_id_of (d : Disk) (i : Impl) sgs lg :
  writer_ok d i sgs lg ->
  seg_wal_id (segment_header (active_metadata i)) = seg_wal_id (sg_header lg) /\
  seg_number (segment_header (active_metadata i)) = Z.of_nat (length sgs) + 1.
Proof.
  intros Hok. rewrite (wo_metadata _ _ _ _ Hok). cbn.
  destruct (active_segment_ok _ _ _ _ Hok) as (_ & _ & Hn & _). done.
Qed.

Lemma rotate_ok (w w' : W) i i' sgs lg :
  writer_ok (disk w) i sgs lg -> sequence_exhausted_ i = false -> sg_records lg <> [] ->
  rotate (w, i) = (Ok tt, (w', i')) ->
  writer_ok (disk w') i' (sgs ++ [lg]) (empty_segment (seg_wal_id (sg_header lg))
    (Z.of_nat (length sgs) + 1 + 1) (next_record_sequence i)) /\
  next_record_sequence i' = next_record_sequence i /\ failure i' = failure i /\
  sequence_exhausted_ i' = false /\ target_segment_size i' = target_segment_size i /\
  maximum_application_payload i' = maximum_application_payload i /\
  durable_record_sequence i <= durable_record_sequence i'.
Proof.
  intros Hok Hex Hne H. pose proof (durable_le_written _ _ _ _ Hok) as Hdw. destruct (wal_id_of _ _ _ _ Hok) as [Hid Hnum].
  unfold rotate in H. apply io_bind_Ok in H as (i0 & [w0 i0'] & E0 & H). injection E0 as <- <- <-.
  rewrite Hnum in H. destruct (Z.eqb_spec (Z.of_nat (length sgs) + 1) max_u64) as [|Hmax]; [done|].
  apply io_bind_Ok in H as (u1 & [w1 i1] & E1 & H). apply or_poison_Ok in E1 as [E1 ->].
  destruct (implements_Ok _ _ _ _ _ _ _ _ _ (law_sync_data _) E1) as [D1 _].
  pose proof (sync_step _ _ _ _ Hok) as Hok1. rewrite <- D1 in Hok1.
  apply io_bind_Ok in H as (u2 & [w2 i2] & E2 & H). injection E2 as _ <- <-.
  apply io_bind_Ok in H as ([metadata f] & [w3 i3] & E3 & H). apply or_poison_Ok in E3 as [E3 ->].
  cbn [set_durable active_metadata next_record_sequence file_permissions] in E3. rewrite Hid in E3.
  pose proof (install_header_wf _ _ _ _ Hok Hex Hmax) as Hwf.
  apply install_segment_inv in E3 as (f' & Hfree & Hfresh & D3 & Eout); [|exact Hwf].
  injection Eout as -> ->.
  apply io_bind_Ok in H as (u4 & [w4 i4] & E4 & H). injection E4 as _ <- <-.
  apply or_poison_Ok in H as [E5 ->].
  destruct (implements_Ok _ _ _ _ _ _ _ _ _ (law_close_file _) E5) as [D5 _].
  rewrite D5, D3. split; [|by split_and!].
  pose proof (install_step (disk w1) (set_durable i) sgs lg f' Hok1) as Hstep. cbv zeta in Hstep.
  apply Hstep; try done. rewrite D1. unfold sync_disk. rewrite (active_data _ _ _ _ Hok).
  apply lookup_insert_eq.
Qed.

(** Where an append puts its record. *)
Definition appended (sgs : list Segment) (lg : Segment) (r : LogRecord)
    (sgs' : list Segment) (lg' : Segment) : Prop :=
  (sgs' = sgs /\ lg' = add_record lg r) \/
  (sgs' = sgs ++ [lg] /\ lg' = add_record (empty_segment (seg_wal_id (sg_header lg))
     (Z.of_nat (length sgs) + 1 + 1) (record_sequence r.1)) r).

Lemma appended_records sgs lg r sgs' lg' :
  appended sgs lg r sgs' lg' -> all_records (sgs' ++ [lg']) = all_records (sgs ++ [lg]) ++ [r].
Proof.
  intros [[-> ->]|[-> ->]]; rewrite all_records_add; [done|].
  f_equal. rewrite all_records_app. cbn. by rewrite app_nil_r.
Qed.

Lemma next_in_width (d : Disk) i sgs lg :
  writer_ok d i sgs lg -> sequence_exhausted_ i = false -> in_width 64 (next_record_sequence i).
Proof.
  intros Hok Hex. destruct (wo_next _ _ _ _ Hok) as [(_ & Hnx & Hlt)|[? _]]; [|congruence].
  pose proof (wo_sequence _ _ _ _ Hok). width_lia.
Qed.

Lemma frame_application_length seq payload :
  record_ok (application_record seq payload).1 payload ->
  blen (frame (application_record seq payload)) = frame_length (blen payload).
Proof.
  intros Hr. by rewrite (length_frame (application_record seq payload) Hr).
Qed.

Lemma frame_length_le a b : 0 <= a <= b -> frame_length a <= frame_length b.
Proof.
  intros H. unfold frame_length, pad. Z.to_euclidean_division_equations. lia.
Qed.

Lemma encode_application_record_live (d : Disk) i sgs lg payload env :
  writer_ok d i sgs lg -> sequence_exhausted_ i = false ->
  decode_application_payload payload = Ok env ->
  exists enc, encode_application_record i payload = Ok enc.
Proof.
  intros Hok Hex Henv. pose proof (next_in_width _ _ _ _ Hok Hex) as Hw.
  assert (H0 : next_record_sequence i <> 0).
  { destruct (wo_next _ _ _ _ Hok) as [(_ & Hnx & _)|[? _]]; [|congruence].
    pose proof (wo_sequence _ _ _ _ Hok). lia. }
  pose proof (application_record_ok _ _ _ Hw H0 Henv) as Hr. pose proof Hr as (Hwf & _).
  pose proof (rhw_payload _ Hwf) as Hp. cbn [application_record fst payload_length] in Hp.
  unfold encode_application_record, make_record_header.
  cbn [input_record_type input_record_sequence input_payload_length].
  change (kApplicationEntryRecordType =? 0) with false. cbn [orb].
  destruct (Z.eqb_spec (next_record_sequence i) 0) as [|_]; [done|].
  rewrite calculate_record_layout_spec by lia.
  destruct (Z.gtb_spec (blen payload) kMaximumPayloadLength) as [|_]; [lia|].
  cbn [rbind layout_total_length layout_payload_length].
  change {| total_length := _ |} with (application_record (next_record_sequence i) payload).1.
  rewrite encode_record_ok; [eauto|exact Hr|done|].
  rewrite length_replicate. pose proof (length_frame _ Hr). cbn [application_record fst] in *.
  pose proof (length_record_ok _ _ Hr). pose proof (frame_length_bounds _ Hp). cbn [total_length application_record fst] in *. lia.
Qed.

(** A full active segment has records. *)
Lemma rotation_needed (d : Disk) i sgs lg (len : Z) :
  writer_ok d i sgs lg -> len <= frame_length (maximum_application_payload i) ->
  (target_segment_size i <=? blen (segment_bytes lg))
    || (len >? target_segment_size i - blen (segment_bytes lg)) = true ->
  sg_records lg <> [].
Proof.
  intros Hok Hlen Hrot Hnil. pose proof (wo_config _ _ _ _ Hok) as [Hcfg Hmx].
  pose proof (segment_bytes_length _ _ _ _ (active_segment_ok _ _ _ _ Hok)) as Hsl.
  rewrite Hnil in Hsl. change (blen (frames [])) with 0 in Hsl.
  apply orb_true_iff in Hrot as [Hc|Hc].
  - apply Z.leb_le in Hc. pose proof (frame_length_bounds _ Hmx). lia.
  - rewrite Z.gtb_ltb in Hc. apply Z.ltb_lt in Hc. lia.
Qed.

(** The two halves of an append once its record is encoded. *)
Definition make_room (i : Impl) (r : LogRecord) : IO (W * Impl) unit :=
  if (target_segment_size i <=? end_offset (active_metadata i))
     || (blen (frame r) >? target_segment_size i - end_offset (active_metadata i))
  then rotate else io_ret tt.
Definition write_record (encoded : list byte) : IO (W * Impl) WalAppendResult :=
  let* i := get_impl in
  do* or_poison (write_all_at (active_file i) (pos_byte_offset (written_position i)) encoded);
  do* put_impl (advance_written i (blen encoded));
  io_ret {| append_record_sequence := next_record_sequence i;
            append_record_start := written_position i;
            append_record_end := written_position (advance_written i (blen encoded)) |}.

(** An append either stops at once and changes nothing, or makes room for its
    record and writes it. *)
Lemma append_cases (w : W) i sgs lg payload :
  let r := application_record (next_record_sequence i) payload in
  writer_ok (disk w) i sgs lg ->
  (exists s, append_application_entry payload (w, i) = (Err s, (w, i)) /\
     (sequence_exhausted_ i = true \/ failure i <> kOk \/ blen payload > maximum_application_payload i \/
      forall env, decode_application_payload payload <> Ok env)) \/
  (failure i = kOk /\ sequence_exhausted_ i = false /\ record_ok r.1 payload /\
   blen (frame r) <= frame_length (maximum_application_payload i) /\
   append_application_entry payload (w, i) =
     (do* make_room i r; write_record (frame r)) (w, i)).
Proof.
  intros r Hok. unfold append_application_entry.
  rewrite (io_bind_step get_impl _ (w, i) i (w, i)) by done.
  destruct (is_ok (failure i)) eqn:Hf; cbn [negb].
  2:{ left. unfold io_pure. destruct (@make_unexpected_not_ok WalAppendResult (failure i)) as (s & -> & _).
      eexists. split; [done|]. apply bool_decide_eq_false in Hf. auto. }
  apply bool_decide_eq_true in Hf.
  destruct (Z.gtb_spec (blen payload) (maximum_application_payload i)) as [|Hpl].
  { left. eexists. split; [done|]. right. right. left. lia. }
  destruct (sequence_exhausted_ i) eqn:Hex.
  { left. eexists. split; [done|]. by left. }
  rewrite (validate_active_ok _ _ _ _ Hok). change (is_ok kOk) with true. cbn [negb].
  destruct (encode_application_record i payload) as [enc|s] eqn:Eenc.
  - right. apply encode_application_record_inv in Eenc as [Hr ->]; [|by eapply next_in_width].
    pose proof (frame_application_length _ _ Hr) as Hl. fold r in Hr, Hl |- *.
    split_and!; try done. rewrite Hl. apply frame_length_le. lia.
  - left. unfold plain, io_bind at 1.
    destruct (@make_unexpected_not_ok (list byte) s) as (s1 & -> & _).
    destruct (@make_unexpected_not_ok WalAppendResult s1) as (s2 & -> & _).
    exists s2. split; [done|]. right. right. right. intros env Henv.
    pose proof (encode_application_record_live _ _ _ _ _ _ Hok Hex Henv) as [enc E]. congruence.
Qed.

Lemma make_room_ok (w w' : W) i i' sgs lg r :
  writer_ok (disk w) i sgs lg -> failure i = kOk -> sequence_exhausted_ i = false ->
  blen (frame r) <= frame_length (maximum_application_payload i) ->
  record_sequence r.1 = next_record_sequence i ->
  make_room i r (w, i) = (Ok tt, (w', i')) ->
  exists sgs' lg', writer_ok (disk w') i' sgs' lg' /\
    next_record_sequence i' = next_record_sequence i /\ failure i' = kOk /\
    sequence_exhausted_ i' = false /\ maximum_application_payload i' = maximum_application_payload i /\
    blen (segment_bytes lg') + blen (frame r) <= target_segment_size i /\
    all_records (sgs' ++ [lg']) = all_records (sgs ++ [lg]) /\
    appended sgs lg r sgs' (add_record lg' r) /\
    durable_record_sequence i <= durable_record_sequence i'.
Proof.
  intros Hok Hf Hex Hfl Hseq H. pose proof (wo_config _ _ _ _ Hok) as [Hcfg Hmx].
  pose proof (segment_bytes_length _ _ _ _ (active_segment_ok _ _ _ _ Hok)) as Hsl.
  unfold make_room in H. rewrite (wo_metadata _ _ _ _ Hok) in H. cbn [end_offset] in H.
  destruct (_ || _) eqn:Hrot in H.
  - apply rotate_ok with (sgs := sgs) (lg := lg) in H; [|done|done|].
    + destruct H as (Hok2 & Hnx & Hfa & Hex2 & Htg & Hma & Hdu).
      eexists _, _. split; [exact Hok2|]. split_and!; try congruence.
      * pose proof (segment_bytes_length _ _ _ _ (active_segment_ok _ _ _ _ Hok2)) as Hl2.
        cbn [empty_segment sg_records] in Hl2. change (blen (frames [])) with 0 in Hl2. lia.
      * rewrite (all_records_app (sgs ++ [lg])). cbn. by rewrite app_nil_r.
      * right. by rewrite Hseq.
    + by eapply rotation_needed.
  - injection H as <- <-. exists sgs, lg. apply orb_false_iff in Hrot as [Hc1 Hc2].
    rewrite Z.gtb_ltb in Hc2. apply Z.ltb_ge in Hc2. split_and!; try done; [lia|by left].
Qed.

Lemma append_ok (w w' : W) i i' sgs lg payload out :
  let r := application_record (next_record_sequence i) payload in
  writer_ok (disk w) i sgs lg ->
  append_application_entry payload (w, i) = (Ok out, (w', i')) ->
  record_ok r.1 payload /\ failure i = kOk /\ failure i' = kOk /\
  exists sgs' lg', appended sgs lg r sgs' lg' /\ writer_ok (disk w') i' sgs' lg' /\
    append_record_sequence out = next_record_sequence i /\
    append_record_end out = written_position i' /\
    append_record_start out = {| pos_wal_id := seg_wal_id (sg_header lg');
      pos_segment_number := Z.of_nat (length sgs') + 1;
      pos_byte_offset := blen (segment_bytes lg') - blen (frame r) |} /\
    maximum_application_payload i' = maximum_application_payload i /\
    durable_record_sequence i <= durable_record_sequence i'.
Proof.
  intros r Hok H. pose proof (wo_config _ _ _ _ Hok) as [Hcfg Hmx].
  destruct (append_cases w i sgs lg payload Hok) as [(s & E & _)|(Hf & Hex & Hr & Hfl & E)];
    rewrite E in H; [done|]. fold r in Hr, Hfl, H.
  split; [exact Hr|]. split; [exact Hf|]. apply io_bind_Ok in H as ([] & [w2 i2] & E2 & H).
  apply make_room_ok with (sgs := sgs) (lg := lg) in E2; try done.
  destruct E2 as (sgs2 & lg2 & Hok2 & Hnx2 & Hf2 & Hex2 & Hma2 & Hroom & _ & Happ & Hdu).
  unfold write_record in H. apply io_bind_Ok in H as (i3 & [w3 i3'] & E3 & H). injection E3 as <- <- <-.
  apply io_bind_Ok in H as (u4 & [w4 i4] & E4 & H). apply or_poison_Ok in E4 as [E4 ->].
  destruct (implements_Ok _ _ _ _ _ _ _ _ _ (law_write _ _ _) E4) as [D4 _].
  apply io_bind_Ok in H as (u5 & [w5 i5] & E5 & H). injection E5 as _ <- <-.
  injection H as <- <- <-. split; [exact Hf2|].
  exists sgs2, (add_record lg2 r). split; [exact Happ|].
  rewrite D4, (wo_written _ _ _ _ Hok2). cbn [pos_byte_offset append_record_sequence append_record_end append_record_start].
  split.
  { pose proof (write_step (disk w2) i2 sgs2 lg2 payload) as Hstep. cbv zeta in Hstep.
    rewrite Hnx2 in Hstep. fold r in Hstep. apply Hstep; try done. lia. }
  split; [exact Hnx2|].
  split; [unfold advance_written; cbn [written_position]; by rewrite (wo_written _ _ _ _ Hok2)|].
  split; [|split; [exact Hma2|exact Hdu]].
  rewrite segment_bytes_add, length_app. cbn [add_record sg_header]. f_equal. lia.
Qed.

Lemma synchronize_ok (w w' : W) i i' sgs lg p :
  writer_ok (disk w) i sgs lg ->
  synchronize (w, i) = (Ok p, (w', i')) ->
  failure i = kOk /\ failure i' = kOk /\ i' = set_durable i /\ p = written_position i /\
  disk w' = sync_disk (active_file i) (disk w) /\ writer_ok (disk w') i' sgs lg.
Proof.
  intros Hok H. unfold synchronize in H.
  apply io_bind_Ok in H as (i0 & [w0 i0'] & E0 & H). injection E0 as <- <- <-.
  destruct (is_ok (failure i)) eqn:Hf; cbn [negb] in H.
  2:{ injection H as H. destruct (@make_unexpected_not_ok PhysicalWalPosition (failure i)) as (? & E & _).
      by rewrite E in H. }
  apply bool_decide_eq_true in Hf.
  rewrite (validate_active_ok _ _ _ _ Hok) in H. change (is_ok kOk) with true in H. cbn [negb] in H.
  apply io_bind_Ok in H as (u1 & [w1 i1] & E1 & H). apply or_poison_Ok in E1 as [E1 ->].
  destruct (implements_Ok _ _ _ _ _ _ _ _ _ (law_sync_data _) E1) as [D1 _].
  apply io_bind_Ok in H as (u2 & [w2 i2] & E2 & H). injection E2 as _ <- <-. injection H as <- <- <-.
  split_and!; try done. rewrite D1. by apply sync_step.
Qed.
End operations.
