(* ===== verification/WalWriterFailure.v ===== *)
(** What the writer leaves on disk when an operation fails, what a crash leaves
    of it, and that operations succeed when the files do: the facts behind the
    claims of WalWriterTheorems. *)
From S2P Require Import Prelude Bytes Crc32c WalCodec PosixIo DiskFacts WalPaths WalScan WalHistory.
From S2P Require Import WalDiscovery.
From S2P Require Import WalSound WalScanTheorems WalWriter WalWriterFacts.

#[local] Opaque segment_header_bytes frame.

(** The disk holds a readable log of the records [rs], perhaps with a torn tail. *)
Definition left_log (d : Disk) (id : WalId) (rs : list LogRecord) : Prop :=
  exists sgs lg tail, log_on_disk d id (sgs ++ [lg]) tail /\ all_records (sgs ++ [lg]) = rs.

(** Room in the 64-bit counters of the scanner for one more record and [k] more
    segments. *)
Definition countable (k : Z) (sgs : list Segment) (lg : Segment) : Prop :=
  Z.of_nat (length (all_records (sgs ++ [lg]))) + 1 < max_u64 /\
  total_bytes (contents (sgs ++ [lg]) []) + k * kSegmentSizeLimit <= max_u64.

Lemma make_log d id sgs lg tail :
  wal_directory d 1 (sgs ++ [lg]) -> history id 1 1 (sgs ++ [lg]) ->
  on_disk d 1 (contents (sgs ++ [lg]) tail) ->
  (tail = [] \/ torn (1 + Z.of_nat (length (all_records (sgs ++ [lg])))) tail) ->
  blen (segment_bytes lg ++ tail) <= kSegmentSizeLimit ->
  Z.of_nat (length (all_records (sgs ++ [lg]))) < max_u64 ->
  total_bytes (contents (sgs ++ [lg]) tail) <= max_u64 ->
  log_on_disk d id (sgs ++ [lg]) tail.
Proof.
  intros Hd Hh Hod Ht Hsz Hn Hb. split; try done; [by destruct sgs|].
  rewrite contents_snoc. pose proof (history_sizes _ _ _ _ _ Hh) as Hall.
  apply Forall_app in Hall as [Hall _]. apply Forall_app. split; [done|]. by apply Forall_singleton.
Qed.

Lemma total_bytes_snoc sgs lg tail :
  total_bytes (contents (sgs ++ [lg]) tail) = total_bytes (contents (sgs ++ [lg]) []) + blen tail.
Proof.
  rewrite !contents_snoc, !total_bytes_app. cbn. rewrite app_nil_r, length_app. lia.
Qed.

Lemma wal_directory_temporary d d' n sgs name f :
  wal_directory d n sgs -> is_temporary_segment_name name = true ->
  d_names d' = <[name := (kRegularFile, f)]> (d_names d) -> wal_directory d' n sgs.
Proof.
  intros [[g Hg] Hr Hs Ho] Ht En. split; try done.
  - destruct (decide (name = kWalLockFileName)) as [->|Hne]; [done|].
    exists g. by rewrite En, lookup_insert_ne.
  - intros j Hj. destruct (Hs j Hj) as [h Hh]. rewrite En.
    destruct (decide (name = segment_name j)) as [->|Hne]; [exists f; apply lookup_insert_eq|].
    exists h. by rewrite lookup_insert_ne.
  - intros x e. rewrite En. intros [[<- <-]|[_ He]]%lookup_insert_Some; [|by apply Ho]. auto.
Qed.

Section left.
Context (d : Disk) (i : Impl) (sgs : list Segment) (lg : Segment).
Context (Hok : writer_ok d i sgs lg) (Hroom : countable 1 sgs lg).
Let id := seg_wal_id (sg_header lg).

Lemma writer_left_log : left_log d id (all_records (sgs ++ [lg])).
Proof.
  exists sgs, lg, []. split; [|done]. destruct Hroom.
  apply (writer_log _ _ _ _ Hok); unfold kSegmentSizeLimit in *; lia.
Qed.

(** A write of part of a record leaves the log, or the log with the record. *)
Lemma partial_write_left r k :
  record_ok r.1 r.2 -> record_sequence r.1 = 1 + Z.of_nat (length (all_records (sgs ++ [lg]))) ->
  blen (segment_bytes lg) + blen (frame r) <= kSegmentSizeLimit ->
  let d' := write_disk (active_file i) (blen (segment_bytes lg)) (take k (frame r)) d in
  left_log d' id (all_records (sgs ++ [lg])) \/ left_log d' id (all_records (sgs ++ [lg]) ++ [r]).
Proof.
  intros Hr Hseq Hsz d'. pose proof (write_files d i sgs lg (take k (frame r)) Hok) as Hfiles.
  fold d' in Hfiles. destruct Hroom as [Hn Hb].
  assert (Hdir : wal_directory d' 1 (sgs ++ [lg]))
    by (eapply wal_directory_names; [|exact (wo_directory _ _ _ _ Hok)]; done).
  pose proof (wo_history _ _ _ _ Hok) as Hh. fold id in Hh.
  destruct (decide (length (frame r) <= k)%nat) as [Hk|Hk].
  - right. rewrite take_ge in Hfiles by lia. rewrite <- all_records_add.
    exists sgs, (add_record lg r), []. split; [|done].
    assert (Hc : contents (sgs ++ [add_record lg r]) [] = contents (sgs ++ [lg]) (frame r)).
    { rewrite !contents_snoc, segment_bytes_add. by rewrite app_nil_r. }
    apply make_log; try done.
    + eapply wal_directory_length; [|exact Hdir]. by rewrite !length_app.
    + eapply history_replace_last; [exact Hh|]. intros m q Hs _ Hq. apply add_record_ok; try done.
      rewrite Hseq, all_records_app, length_app. cbn [all_records concat fmap list_fmap]. rewrite app_nil_r. lia.
    + by rewrite Hc.
    + by left.
    + rewrite app_nil_r, segment_bytes_add, length_app. lia.
    + rewrite all_records_add, length_app. cbn. lia.
    + rewrite Hc, total_bytes_snoc. pose proof (frame_length_bounds 0). unfold kSegmentSizeLimit in *. lia.
  - left. exists sgs, lg, (take k (frame r)). split; [|done]. apply make_log; try done.
    + destruct k as [|k]; [by left|right]. exists r, (S k). split_and!; try done; lia.
    + rewrite length_app, length_take. lia.
    + lia.
    + rewrite total_bytes_snoc, length_take. unfold kSegmentSizeLimit in *. lia.
Qed.

Definition keeps_segments (d' : Disk) : Prop :=
  (forall g c, d_data d !! g = Some c -> d_data d' !! g = Some c) /\
  forall j e, d_names d !! segment_name j = Some e -> d_names d' !! segment_name j = Some e.

Lemma kept_files d' : keeps_segments d' -> on_disk d' 1 (contents (sgs ++ [lg]) []).
Proof.
  intros [Hdata Hk]. eapply on_disk_mono; [|exact (wo_files _ _ _ _ Hok)]. intros j f bs _ Hx Hy.
  split; [by apply Hk|by apply Hdata].
Qed.

Lemma kept_log d' :
  wal_directory d' 1 (sgs ++ [lg]) -> keeps_segments d' -> left_log d' id (all_records (sgs ++ [lg])).
Proof.
  intros Hd' Hk. destruct Hroom as [Hn Hb]. exists sgs, lg, []. split; [|done].
  pose proof (segment_ok_size _ _ _ _ (active_segment_ok _ _ _ _ Hok)) as Hsz.
  apply make_log; try done.
  - exact (wo_history _ _ _ _ Hok).
  - by apply kept_files.
  - by left.
  - rewrite app_nil_r. lia.
  - lia.
  - unfold kSegmentSizeLimit in *. lia.
Qed.

(** One more segment file, with a header and no record, belongs to the log. *)
Lemma next_segment_log d' f :
  let n := Z.of_nat (length sgs) + 1 + 1 in
  let next := empty_segment id n (1 + Z.of_nat (length (all_records (sgs ++ [lg])))) in
  segment_header_wf (sg_header next) -> sg_records lg <> [] -> keeps_segments d' ->
  d_names d' = <[segment_name n := (kRegularFile, f)]> (d_names d) ->
  d_data d' !! f = Some (segment_header_bytes (sg_header next)) ->
  left_log d' id (all_records (sgs ++ [lg])).
Proof.
  intros n next Hwf Hne Hk En Hbs. destruct Hroom as [Hn Hb].
  pose proof (wo_history _ _ _ _ Hok) as Hh. fold id in Hh.
  pose proof (shw_number _ Hwf) as Hnw. cbn [next empty_segment sg_header seg_number] in Hnw.
  exists (sgs ++ [lg]), next, [].
  assert (Hrec : all_records ((sgs ++ [lg]) ++ [next]) = all_records (sgs ++ [lg])).
  { rewrite (all_records_app (sgs ++ [lg])). cbn. by rewrite app_nil_r. }
  assert (Hbytes : segment_bytes next = segment_header_bytes (sg_header next)).
  { unfold segment_bytes. cbn [next empty_segment sg_records]. by rewrite app_nil_r. }
  assert (Hlen : blen (segment_bytes next) = 64).
  { rewrite Hbytes. apply (length_segment_header_bytes _ (shw_id _ Hwf)). }
  assert (Hnn : 1 + Z.of_nat (length (sgs ++ [lg])) = n) by (rewrite length_app; cbn; unfold n; lia).
  split; [|done]. apply make_log.
  - eapply (wal_directory_snoc d 1 (sgs ++ [lg])); [exact (wo_directory _ _ _ _ Hok)| |by rewrite Hnn, En].
    rewrite Hnn. width_lia.
  - apply history_snoc. split; [done|]. apply history_snoc in Hh as (_ & Hnn' & _). split.
    + apply Forall_app. split; [done|]. by apply Forall_singleton.
    + split; [exact Hwf|]. split; [done|]. split; [by rewrite Hnn|]. split; [done|].
      split; [done|]. rewrite Hlen. unfold kSegmentSizeLimit. lia.
  - rewrite contents_snoc, app_nil_r, on_disk_app. split.
    + pose proof (kept_files _ Hk) as Hf. rewrite contents_snoc, app_nil_r in Hf. by rewrite fmap_app.
    + split; [|done]. exists f. rewrite length_fmap, Hnn, En, Hbytes. split; [apply lookup_insert_eq|done].
  - by left.
  - rewrite app_nil_r, Hlen. unfold kSegmentSizeLimit. lia.
  - rewrite Hrec. lia.
  - rewrite (contents_snoc (sgs ++ [lg])), app_nil_r, total_bytes_app, fmap_app. cbn [total_bytes foldr].
    rewrite contents_snoc, app_nil_r in Hb. cbn [fmap list_fmap]. unfold kSegmentSizeLimit in *.
    unfold total_bytes in *. lia.
Qed.

(** A failed installation of the next segment leaves the log. *)
Lemma install_left d' :
  let n := Z.of_nat (length sgs) + 1 + 1 in
  let header := sg_header (empty_segment id n (1 + Z.of_nat (length (all_records (sgs ++ [lg]))))) in
  segment_header_wf header -> sg_records lg <> [] ->
  install_residue (temporary_name n id) (segment_name n) (segment_header_bytes header) d d' ->
  left_log d' id (all_records (sgs ++ [lg])).
Proof.
  intros n header Hwf Hne [Hdata Hnames]. pose proof (wo_directory _ _ _ _ Hok) as Hdir.
  pose proof (shw_number _ Hwf) as Hnw. cbn [header empty_segment sg_header seg_number] in Hnw.
  assert (Hins : forall name e, d_names d !! name = None -> d_names d' = <[name := e]> (d_names d) ->
    keeps_segments d').
  { intros name e Hfree En. split; [done|]. intros j e' He. rewrite En, lookup_insert_ne; [done|].
    intros E. by rewrite E, He in Hfree. }
  destruct Hnames as [En|(f & Hf & [[Hfree En]|(Hfree & En & Hbs)])].
  - apply kept_log; [|split; [done|by rewrite En]]. eapply wal_directory_names; [exact En|done].
  - apply kept_log; [|by eapply Hins]. eapply wal_directory_temporary; [exact Hdir| |exact En].
    apply is_temporary_name; [unfold segment_number_ok; width_lia|]. apply (shw_id _ Hwf).
  - eapply next_segment_log; [exact Hwf|done|by eapply Hins|exact En|exact Hbs].
Qed.
End left.

(** * Operations that fail *)

Lemma add_record_inj lg lg' r : add_record lg r = add_record lg' r -> lg = lg'.
Proof.
  destruct lg as [h rs], lg' as [h' rs']. unfold add_record. cbn [sg_header sg_records]. intros [= -> H].
  by apply app_inj_tail in H as [-> _].
Qed.

Lemma countable_less k sgs lg : 1 <= k -> countable k sgs lg -> countable 1 sgs lg.
Proof. intros Hk [H1 H2]. split; [done|]. unfold kSegmentSizeLimit in *. lia. Qed.

Lemma appended_countable d i sgs lg r sgs' lg' :
  writer_ok d i sgs' lg' -> appended sgs lg r sgs' (add_record lg' r) -> countable 2 sgs lg ->
  seg_wal_id (sg_header lg) = seg_wal_id (sg_header lg') /\ countable 1 sgs' lg'.
Proof.
  intros Hok [[-> E]|[-> E]] Hroom; apply add_record_inj in E as ->; [split; [done|]; by apply (countable_less 2)|].
  split; [done|]. destruct Hroom as [H1 H2]. unfold countable.
  pose proof (segment_bytes_length _ _ _ _ (active_segment_ok _ _ _ _ Hok)) as Hlen.
  cbn [empty_segment sg_records] in Hlen. change (blen (frames [])) with 0 in Hlen.
  rewrite (all_records_app (sgs ++ [lg])), (contents_snoc (sgs ++ [lg])), !app_nil_r, fmap_app, total_bytes_app.
  rewrite contents_snoc, app_nil_r in H2. cbn [fmap list_fmap]. cbn [total_bytes foldr].
  unfold total_bytes, kSegmentSizeLimit in *. split; [|lia]. cbn. rewrite ?app_nil_r. lia.
Qed.

Section failing.
Context {W : Type} {HIO : PosixIo W} {HL : PosixLaws W}.

Lemma install_segment_not_ok request (w w' : W) s : install_segment request w = (Err s, w') -> s <> kOk.
Proof.
  revert w s w'. unfold install_segment.
  assert (Hret : forall A (a : A) (w : W) s w', io_ret a w = (Err s, w') -> s <> kOk) by done.
  intros w s w'.
  repeat (apply io_bind_not_ok; intros ? ? ? ?). destruct (negb _); [by intros [= <- _]|].
  repeat (apply io_bind_not_ok; intros ? ? ? ?). apply Hret.
Qed.

Lemma poisoned_failed i s : s <> kOk -> failure (poisoned i s) <> kOk.
Proof.
  intros Hs. unfold poisoned. destruct (is_ok (failure i)) eqn:E; [done|]. by apply bool_decide_eq_false in E.
Qed.

(** An operation that failed either changed nothing, or stopped the writer and
    left a log of the records [rs] or of those and [r]. *)
Definition stopped (w w' : W) (i i' : Impl) (id : WalId) (rs : list LogRecord) (r : LogRecord) : Prop :=
  (i' = i /\ disk w' = disk w) \/
  (failure i' <> kOk /\ (left_log (disk w') id rs \/ left_log (disk w') id (rs ++ [r]))).

Lemma rotate_failed (w w' : W) i i' sgs lg s r :
  writer_ok (disk w) i sgs lg -> countable 1 sgs lg -> sequence_exhausted_ i = false ->
  sg_records lg <> [] -> rotate (w, i) = (Err s, (w', i')) ->
  stopped w w' i i' (seg_wal_id (sg_header lg)) (all_records (sgs ++ [lg])) r.
Proof.
  intros Hok Hroom Hex Hne H. destruct (wal_id_of _ _ _ _ Hok) as [Hid Hnum].
  unfold rotate in H. rewrite (io_bind_step get_impl _ (w, i) i (w, i)) in H by done.
  rewrite Hnum in H. destruct (Z.eqb_spec (Z.of_nat (length sgs) + 1) max_u64) as [|Hmax].
  { injection H as _ <- <-. by left. }
  right. apply io_bind_Err in H as [(s1 & E)|(u1 & [w1 i1] & E1 & H)].
  { apply or_poison_Err in E as (s0 & E & ->).
    destruct (implements_Err _ _ _ _ _ _ _ _ _ (law_sync_data _) E) as [Hs ->].
    split; [by apply poisoned_failed|]. left. by eapply writer_left_log. }
  apply or_poison_Ok in E1 as [E1 ->].
  destruct (implements_Ok _ _ _ _ _ _ _ _ _ (law_sync_data _) E1) as [D1 _].
  pose proof (sync_step _ _ _ _ Hok) as Hok1. rewrite <- D1 in Hok1.
  pose proof (install_header_wf _ _ _ _ Hok Hex Hmax) as Hwf.
  assert (Hnx : next_record_sequence i = 1 + Z.of_nat (length (all_records (sgs ++ [lg])))).
  { rewrite <- (wo_sequence _ _ _ _ Hok). destruct (wo_next _ _ _ _ Hok) as [(_ & -> & _)|[? _]]; [lia|congruence]. }
  rewrite (io_bind_step (put_impl _) _ (w1, i) tt (w1, set_durable i)) in H by done.
  cbn [set_durable active_metadata next_record_sequence file_permissions] in H. rewrite Hid, Hnx in *.
  apply io_bind_Err in H as [(s3 & E)|([metadata f] & [w3 i3] & E3 & H)].
  { apply or_poison_Err in E as (s0 & E & ->). pose proof (install_segment_not_ok _ _ _ _ E) as Hs.
    split; [by apply poisoned_failed|]. left.
    apply install_segment_failed in E; [|exact Hwf]. by eapply (install_left _ _ _ _ Hok1). }
  apply or_poison_Ok in E3 as [E3 ->].
  apply install_segment_inv in E3 as (f' & Hfree & Hfresh & D3 & Eout); [|exact Hwf].
  rewrite (io_bind_step (put_impl _) _ _ tt (w3, set_active (set_durable i) metadata f
    {| pos_wal_id := seg_wal_id (segment_header metadata);
       pos_segment_number := Z.of_nat (length sgs) + 1 + 1; pos_byte_offset := kSegmentHeaderSize |})) in H by done.
  apply or_poison_Err in H as (s0 & E & ->).
  destruct (implements_Err _ _ _ _ _ _ _ _ _ (law_close_file _) E) as [Hs ->].
  split; [by apply poisoned_failed|]. left.
  eapply (install_left _ _ _ _ Hok1); [done|exact Hwf|done|]. rewrite D3. split.
  - intros g c Hg. cbn [installed d_data]. rewrite lookup_insert_ne; [done|]. intros E'. by rewrite <- E', Hfresh in Hg.
  - right. exists f'. split; [done|]. right. cbn [installed d_data d_names].
    split; [done|]. split; [done|]. apply lookup_insert_eq.
Qed.

Lemma append_failed (w w' : W) i i' sgs lg payload s :
  writer_ok (disk w) i sgs lg -> countable 2 sgs lg ->
  append_application_entry payload (w, i) = (Err s, (w', i')) ->
  stopped w w' i i' (seg_wal_id (sg_header lg)) (all_records (sgs ++ [lg]))
    (application_record (next_record_sequence i) payload).
Proof.
  intros Hok Hroom H. pose proof (wo_config _ _ _ _ Hok) as [Hcfg Hmx].
  destruct (append_cases w i sgs lg payload Hok) as [(s0 & E & _)|(Hf & Hex & Hr & Hfl & E)];
    rewrite E in H; [injection H as _ <- <-; by left|].
  set (r := application_record (next_record_sequence i) payload) in *.
  apply io_bind_Err in H as [(s1 & E1)|([] & [w2 i2] & E2 & H)].
  { unfold make_room in E1. rewrite (wo_metadata _ _ _ _ Hok) in E1. cbn [end_offset] in E1.
    destruct (_ || _) eqn:Hrot in E1; [|done].
    eapply rotate_failed; try done; [by apply (countable_less 2)|]. by eapply rotation_needed. }
  apply make_room_ok with (sgs := sgs) (lg := lg) in E2; try done.
  destruct E2 as (sgs2 & lg2 & Hok2 & Hnx2 & Hf2 & Hex2 & Hma2 & Hsz & Hrec & Happ & _).
  unfold write_record in H. rewrite (io_bind_step get_impl _ (w2, i2) i2 (w2, i2)) in H by done.
  apply io_bind_Err in H as [(s4 & E4)|(u4 & [w4 i4] & E4 & H)]; [|done].
  apply or_poison_Err in E4 as (s0 & E4 & ->).
  destruct (implements_Err _ _ _ _ _ _ _ _ _ (law_write _ _ _) E4) as [Hs Hd].
  right. split; [by apply poisoned_failed|]. rewrite <- Hrec.
  destruct (appended_countable _ _ _ _ _ _ _ Hok2 Happ Hroom) as [-> Hroom2]. rewrite (wo_written _ _ _ _ Hok2) in Hd. cbn [pos_byte_offset] in Hd.
  destruct Hd as [->|[k ->]]; [left; by eapply writer_left_log|].
  apply (partial_write_left _ _ _ _ Hok2 Hroom2); [exact Hr| |lia].
  cbn [r application_record fst record_sequence]. rewrite <- Hnx2, <- (wo_sequence _ _ _ _ Hok2).
  destruct (wo_next _ _ _ _ Hok2) as [(_ & -> & _)|[? _]]; [lia|congruence].
Qed.
End failing.

(** * Operations that succeed *)

(** Run the next call of a goal [exists out w', io_bind c k w = (Ok out, w') /\ ...]
    by its law, leaving that the call is enabled. *)
Ltac run_call law :=
  match goal with
  | Hr : reliable ?w |- context [io_bind _ _ ?w] =>
      let E := fresh "E" in let P := fresh "P" in let R := fresh "R" in
      destruct (implements_enabled _ _ _ _ _ _ w law Hr) as (? & ? & E & P & R);
        [|rewrite (io_bind_step _ _ _ _ _ E)]
  end.

Definition permissions_ok (permissions : Z) : Prop := Z.land permissions (Z.lnot 511) = 0.

Section succeeding.
Context {W : Type} {HIO : PosixIo W} {HL : PosixLaws W}.

Lemma install_segment_live id n seq permissions (w : W) :
  reliable w -> segment_header_wf {| seg_wal_id := id; seg_number := n; seg_first_record_sequence := seq |} ->
  permissions_ok permissions ->
  d_names (disk w) !! temporary_name n id = None -> d_names (disk w) !! segment_name n = None ->
  exists out w', install_segment {| req_wal_id := id; req_segment_number := n;
    req_first_record_sequence := seq; req_file_permissions := permissions |} w = (Ok out, w') /\ reliable w'.
Proof.
  intros Hr Hwf Hp Ht Hf. rewrite (install_segment_unfold id n seq permissions Hwf).
  pose proof (length_segment_header_bytes _ (shw_id _ Hwf)) as Hlen.
  run_call (law_create (temporary_name n id) permissions); [done|].
  destruct P as (Hn1 & Hd1 & D1).
  match goal with |- context [write_all_at ?f 0 ?src] => run_call (law_write f 0 src) end.
  { rewrite D1. cbn [create_disk d_data]. rewrite lookup_insert_eq. split; [by eexists|]. lia. }
  match goal with |- context [file_size ?f] => run_call (law_size f) end.
  { rewrite P, D1. cbn [create_disk write_disk d_data]. rewrite alter_insert_eq, lookup_insert_eq. by eexists. }
  destruct P0 as (D3 & data & Hdata & ->).
  rewrite P, D1 in Hdata. cbn [create_disk write_disk d_data] in Hdata.
  rewrite alter_insert_eq, lookup_insert_eq in Hdata. injection Hdata as <-.
  change (overlay [] 0 ?src) with (overlay [] (blen (@nil byte)) src). rewrite overlay_end. cbn [app].
  rewrite Hlen. unfold kSegmentHeaderSize. rewrite Z.eqb_refl. cbn [negb].
  match goal with |- context [sync_all ?f] => run_call (law_sync_all f) end.
  { rewrite D3, P, D1. cbn [create_disk write_disk d_data]. rewrite alter_insert_eq, lookup_insert_eq. by eexists. }
  run_call (law_rename (temporary_name n id) (segment_name n)).
  { rewrite P0, D3, P, D1. cbn [create_disk write_disk sync_disk d_names].
    rewrite lookup_insert_eq, lookup_insert_ne by (apply not_eq_sym, segment_name_not_temporary).
    split; [by eexists|done]. }
  run_call law_directory_sync; [done|]. by eexists _, _.
Qed.

(** The directory has no leftover of an earlier installation. *)
Definition no_temporary (w : W) : Prop :=
  forall name e, d_names (disk w) !! name = Some e -> is_temporary_segment_name name = false.

Lemma next_segment_free d n sgs m :
  wal_directory d n sgs -> n + Z.of_nat (length sgs) <= m -> segment_number_ok m ->
  d_names d !! segment_name m = None.
Proof.
  intros Hdir Hm Hmok. destruct (d_names d !! segment_name m) as [e|] eqn:E; [|done]. exfalso.
  destruct (wd_only _ _ _ Hdir _ _ E) as [_ [H|[(j & Hj & H)|H]]].
  - by apply segment_name_not_lock in H.
  - pose proof (wd_range _ _ _ Hdir). apply segment_name_inj in H; unfold segment_number_ok in *; lia.
  - apply temporary_starts in H. by unfold segment_name in H.
Qed.

Lemma rotate_live (w : W) i sgs lg :
  reliable w -> writer_ok (disk w) i sgs lg -> sequence_exhausted_ i = false ->
  Z.of_nat (length sgs) + 1 <> max_u64 -> permissions_ok (file_permissions i) -> no_temporary w ->
  exists w' i', rotate (w, i) = (Ok tt, (w', i')) /\ reliable w'.
Proof.
  intros Hr Hok Hex Hmax Hp Hnt. destruct (wal_id_of _ _ _ _ Hok) as [Hid Hnum].
  pose proof (install_header_wf _ _ _ _ Hok Hex Hmax) as Hwf.
  pose proof (wo_directory _ _ _ _ Hok) as Hdir. pose proof (wd_range _ _ _ Hdir) as Hrange.
  rewrite length_app in Hrange. cbn [length] in Hrange.
  unfold rotate. rewrite (io_bind_step get_impl _ (w, i) i (w, i)) by done. rewrite Hnum.
  destruct (Z.eqb_spec (Z.of_nat (length sgs) + 1) max_u64) as [|_]; [done|].
  destruct (implements_enabled _ _ _ _ _ _ w (law_sync_data (active_file i)) Hr) as (u1 & w1 & E1 & D1 & R1).
  { rewrite (active_data _ _ _ _ Hok). by eexists. }
  rewrite (io_bind_step _ _ (w, i) u1 (w1, i)) by (by apply or_poison_Ok).
  rewrite (io_bind_step (put_impl _) _ (w1, i) tt (w1, set_durable i)) by done.
  cbn [set_durable active_metadata next_record_sequence file_permissions]. rewrite Hid.
  assert (Hnames : d_names (disk w1) = d_names (disk w)) by by rewrite D1.
  destruct (install_segment_live (seg_wal_id (sg_header lg)) (Z.of_nat (length sgs) + 1 + 1)
    (next_record_sequence i) (file_permissions i) w1 R1 Hwf Hp) as ([metadata f] & w3 & E3 & R3).
  { rewrite Hnames. destruct (d_names (disk w) !! temporary_name _ _) as [e|] eqn:E; [|done].
    apply Hnt in E. rewrite is_temporary_name in E; [done| |apply (shw_id _ Hwf)]. unfold segment_number_ok. lia. }
  { rewrite Hnames. eapply next_segment_free; [exact Hdir|rewrite length_app; cbn; lia|].
    unfold segment_number_ok. lia. }
  rewrite (io_bind_step _ _ (w1, set_durable i) (metadata, f) (w3, set_durable i)) by (by apply or_poison_Ok).
  rewrite (io_bind_step (put_impl _) _ (w3, set_durable i) tt (w3, set_active (set_durable i) metadata f
    {| pos_wal_id := seg_wal_id (segment_header metadata);
       pos_segment_number := Z.of_nat (length sgs) + 1 + 1; pos_byte_offset := kSegmentHeaderSize |})) by done.
  destruct (implements_enabled _ _ _ _ _ _ w3 (law_close_file (active_file i)) R3 I) as ([] & w4 & E4 & D4 & R4).
  eexists w4, _. split; [by apply or_poison_Ok|done].
Qed.

Lemma append_live (w : W) i sgs lg payload env :
  reliable w -> writer_ok (disk w) i sgs lg -> failure i = kOk -> sequence_exhausted_ i = false ->
  Z.of_nat (length sgs) + 1 <> max_u64 -> permissions_ok (file_permissions i) -> no_temporary w ->
  blen payload <= maximum_application_payload i -> decode_application_payload payload = Ok env ->
  exists out w' i', append_application_entry payload (w, i) = (Ok out, (w', i')) /\ reliable w'.
Proof.
  intros Hr Hok Hf Hex Hmax Hp Hnt Hpl Henv.
  destruct (append_cases w i sgs lg payload Hok) as [(s & E & Hs)|(_ & _ & Hrec & Hfl & E)].
  { exfalso. destruct Hs as [?|[?|[?|Hd]]]; [congruence|done|lia|by apply (Hd env)]. }
  set (r := application_record (next_record_sequence i) payload) in *. rewrite E.
  assert (Hroom : exists w2 i2, make_room i r (w, i) = (Ok tt, (w2, i2)) /\ reliable w2).
  { unfold make_room. destruct (_ || _); [by eapply rotate_live|]. by exists w, i. }
  destruct Hroom as (w2 & i2 & E2 & R2). rewrite (io_bind_step _ _ _ _ _ E2).
  apply make_room_ok with (sgs := sgs) (lg := lg) in E2; try done.
  destruct E2 as (sgs2 & lg2 & Hok2 & _ & _ & _ & _ & Hsz & _).
  unfold write_record. rewrite (io_bind_step get_impl _ (w2, i2) i2 (w2, i2)) by done.
  destruct (implements_enabled _ _ _ _ _ _ w2 (law_write (active_file i2)
    (pos_byte_offset (written_position i2)) (frame r)) R2) as (u & w3 & E3 & _ & R3).
  { rewrite (active_data _ _ _ _ Hok2), (wo_written _ _ _ _ Hok2). cbn [pos_byte_offset].
    pose proof (wo_config _ _ _ _ Hok) as [[_ Ht] _]. unfold kSegmentSizeLimit in Ht. split; [by eexists|]. lia. }
  rewrite (io_bind_step _ _ (w2, i2) u (w3, i2)) by (by apply or_poison_Ok).
  by eexists _, w3, _.
Qed.
End succeeding.
