(* ===== verification/WalWriterTheorems.v ===== *)
(** The log writer against the abstract log: creation, appending, synchronising
    and failing.  An append that returns extends the log on disk by exactly its
    record; one that fails leaves every earlier record in place and stops the
    writer; what is reported durable is what was synchronised. *)
From S2P Require Import Prelude Bytes Crc32c WalCodec PosixIo DiskFacts WalPaths WalScan WalHistory.
From S2P Require Import WalDiscovery.
From S2P Require Import WalSound WalScanTheorems WalWriter WalWriterFacts WalWriterFailure.

#[local] Opaque segment_header_bytes frame.

(** * Creation *)

(** The new directory has at most a regular LOCK file. *)
Lemma validate_new_directory_inv es :
  validate_new_directory_contents es = kOk ->
  forall e, e ∈ es -> entry_name e = kWalLockFileName /\ entry_type e = kRegularFile.
Proof.
  unfold validate_new_directory_contents. intros H e He.
  destruct (is_ok (reserved_entries_regular es)) eqn:Hr; cbn [negb] in H.
  2:{ rewrite H in Hr. done. }
  apply bool_decide_eq_true in Hr.
  destruct (existsb _ es) in H; [done|].
  destruct (existsb _ es) eqn:Hx in H; [done|].
  assert (Hname : forall x, x ∈ es -> entry_name x = kWalLockFileName).
  { intros x Hin. rewrite <- not_true_iff_false, existsb_exists in Hx.
    destruct (decide (entry_name x = kWalLockFileName)) as [|Hne]; [done|].
    exfalso. apply Hx. exists x. split; [by apply list_elem_of_In|]. by rewrite bool_decide_eq_false_2. }
  split; [by apply Hname|]. clear Hx H.
  induction es as [|x es IH]; [by apply elem_of_nil in He|].
  cbn [reserved_entries_regular] in Hr. rewrite (Hname x), bool_decide_eq_true_2 in Hr by (done || by left).
  destruct (bool_decide (entry_type x = kRegularFile)) eqn:Hreg; cbn [negb] in Hr; [|done].
  apply bool_decide_eq_true in Hreg. apply elem_of_cons in He as [->|He]; [done|].
  apply IH; [done|done|]. intros y Hy. apply Hname. by right.
Qed.

Lemma inspect_new_directory_inv {W} {HIO : PosixIo W} {HL : PosixLaws W} (w w' : W) b :
  inspect_new_directory w = ((kOk, b), w') ->
  disk w' = disk w /\
  forall name e, d_names (disk w) !! name = Some e -> name = kWalLockFileName /\ e.1 = kRegularFile.
Proof.
  unfold inspect_new_directory. destruct (list_entries w) as [[es|s] w1] eqn:E.
  - intros [= Hv _ <-].
    destruct (implements_Ok _ _ _ _ _ _ _ _ _ law_list_entries E) as [[D Hp] _].
    split; [done|]. intros name [ty f] He.
    apply (validate_new_directory_inv _ Hv {| entry_name := name; entry_type := ty |}).
    rewrite Hp, elem_listing. eauto.
  - intros [= -> _ _]. by destruct (implements_Err _ _ _ _ _ _ _ _ _ law_list_entries E) as [? _].
Qed.

Lemma validate_writer_config_inv c :
  validate_writer_config c = kOk -> 
  64 + frame_length (config_maximum_application_payload c) <= config_target_segment_size c <= kSegmentSizeLimit /\
  0 <= config_maximum_application_payload c <= kMaximumPayloadLength.
Proof.
  unfold validate_writer_config, kApplicationEnvelopeSize. intros H.
  destruct (bool_decide _); [done|]. destruct (existsb _ _); [done|]. destruct (negb _); [done|].
  destruct (Z.ltb_spec (config_maximum_application_payload c) 16) as [|H1]; [done|].
  destruct (Z.gtb_spec (config_maximum_application_payload c) kMaximumPayloadLength) as [|H2]; [done|].
  rewrite calculate_record_layout_spec in H by lia.
  destruct (Z.gtb_spec (config_maximum_application_payload c) kMaximumPayloadLength) as [|_]; [done|].
  cbn [layout_total_length] in H. destruct (_ <=? _); [done|].
  destruct (Z.gtb_spec (config_target_segment_size c) kSegmentSizeLimit) as [|H3]; [done|].
  unfold kSegmentHeaderSize in H. destruct (Z.ltb_spec (config_target_segment_size c)
    (64 + frame_length (config_maximum_application_payload c))) as [|H4]; [done|]. lia.
Qed.

(** A freshly installed first segment. *)
Lemma initial_writer_ok d f id c :
  segment_header_wf (sg_header (empty_segment id 1 1)) ->
  (forall name e, d_names d !! name = Some e -> name = kWalLockFileName /\ e.1 = kRegularFile) ->
  is_Some (d_names d !! kWalLockFileName) -> disk_ok d -> d_data d !! f = None ->
  validate_writer_config c = kOk ->
  writer_ok (installed (segment_name 1) f (segment_header_bytes (sg_header (empty_segment id 1 1))) d)
    (initial_impl {| segment_file_name := segment_name 1; segment_header := sg_header (empty_segment id 1 1);
                     end_offset := kSegmentHeaderSize |} f c) [] (empty_segment id 1 1).
Proof.
  intros Hwf Honly [[ty lf] Hlock] Hd Hfresh Hc.
  destruct (Honly _ _ Hlock) as [_ Hty]. cbn in Hty. subst ty.
  assert (Hlen : blen (segment_header_bytes (sg_header (empty_segment id 1 1))) = 64)
    by apply (length_segment_header_bytes _ (shw_id _ Hwf)).
  assert (Hsb : segment_bytes (empty_segment id 1 1) = segment_header_bytes (sg_header (empty_segment id 1 1))).
  { unfold segment_bytes. cbn [empty_segment sg_records]. by rewrite app_nil_r. }
  assert (Hne : segment_name 1 <> kWalLockFileName) by apply segment_name_not_lock.
  split; cbn [installed initial_impl d_names d_data d_synced_names d_synced active_metadata active_file
    written_position durable_position next_record_sequence written_record_sequence durable_record_sequence
    sequence_exhausted_ maximum_application_payload target_segment_size app length Z.of_nat Z.add].
  - split; cbn [installed d_names].
    + exists lf. by rewrite lookup_insert_ne.
    + cbn. lia.
    + intros j Hj. cbn in Hj. replace j with 1 by lia. exists f. apply lookup_insert_eq.
    + intros name e He. apply lookup_insert_Some in He as [[<- <-]|[_ He]].
      * split; [done|]. right. left. exists 1. split; [cbn; lia|done].
      * destruct (Honly _ _ He). split; [done|by left].
  - split; [|done]. split; [exact Hwf|]. do 3 (split; [done|]). split; [done|].
    rewrite Hsb, Hlen. unfold kSegmentSizeLimit. lia.
  - cbn [contents on_disk]. unfold content. rewrite app_nil_r, Hsb. split; [|done]. exists f.
    split; apply lookup_insert_eq.
  - apply lookup_insert_eq.
  - apply insert_names_differ.
    + intros n1 n2 e1 e2 H1 H2 _. destruct (Honly _ _ H1) as [-> _], (Honly _ _ H2) as [-> _]. done.
    + intros n e' He E. cbn [snd] in E. destruct (Hd _ _ He) as [? Hx]. by rewrite E, Hfresh in Hx.
  - intros name e He. apply lookup_insert_Some in He as [[<- <-]|[_ He]]; [rewrite lookup_insert_eq; eauto|].
    destruct (Hd _ _ He) as [bs Hb]. exists bs. rewrite lookup_insert_ne; [done|]. intros E.
    by rewrite <- E, Hfresh in Hb.
  - by rewrite Hsb, Hlen.
  - by rewrite Hsb, Hlen.
  - done.
  - left. done.
  - by apply validate_writer_config_inv.
  - exists 0%nat. cbn. rewrite app_nil_r. split; [lia|]. split; [done|]. split; [done|]. apply lookup_insert_eq.
  - done.
  - done.
Qed.

Section creation.
Context {W : Type} {HIO : PosixIo W} {HL : PosixLaws W}.

Lemma create_new_ok c generate (w w' : W) i :
  disk_ok (disk w) -> (forall id, generate = Ok id -> wal_id_wf id) ->
  create_new_with c generate w = (Ok i, w') ->
  exists id, generate = Ok id /\ writer_ok (disk w') i [] (empty_segment id 1 1) /\ failure i = kOk.
Proof.
  intros Hd Hgen H. unfold create_new_with in H.
  apply io_bind_Ok in H as (u0 & w0 & E0 & H). apply io_check_Ok in E0 as [Hc ->].
  apply io_bind_Ok in H as (u1 & w1 & E1 & H).
  destruct (implements_Ok _ _ _ _ _ _ _ _ _ (law_open_directory _) E1) as [D1 _].
  destruct (inspect_new_directory w1) as [[status lk] w2] eqn:E2.
  destruct (is_ok status) eqn:Hs; cbn [negb] in H; cycle 1.
  { apply io_bind_Ok in H as (u & wx & _ & H). injection H as H _.
    destruct (@make_unexpected_not_ok Impl status) as (? & E & _). by rewrite E in H. }
  apply bool_decide_eq_true in Hs. subst status.
  apply inspect_new_directory_inv in E2 as [D2 _].
  apply io_bind_Ok in H as (id & w3 & E3 & H). injection E3 as -> ->.
  destruct (WalId_is_valid id) eqn:Hv; [|done]. cbn [negb] in H.
  apply io_bind_Ok in H as (u4 & w4 & E4 & H).
  destruct (implements_Ok _ _ _ _ _ _ _ _ _ (law_lock _ _) E4) as [Hlk _].
  rewrite D2, D1 in Hlk.
  destruct (inspect_new_directory w4) as [[status lk5] w5] eqn:E5.
  apply io_bind_Ok in H as (u6 & w6 & E6 & H). apply io_check_Ok in E6 as [-> ->].
  apply inspect_new_directory_inv in E5 as [D5 Honly].
  apply io_bind_Ok in H as ([metadata f] & w7 & E7 & H). injection H as <- <-.
  pose proof (Hgen id eq_refl) as Hwid.
  assert (Hwf : segment_header_wf (sg_header (empty_segment id 1 1))) by by split.
  unfold kFirstSegmentNumber, kFirstRecordSequence in E7.
  apply install_segment_inv in E7 as (f' & Hfree & Hfresh & D7 & Eout); [|exact Hwf].
  injection Eout as -> ->. rewrite D5 in *. exists id. split; [done|]. split; [|done].
  rewrite D7. apply initial_writer_ok; try done.
  - destruct Hlk as [[-> [g Hg]]|[g (Hn & Hf & ->)]]; [eauto|].
    unfold create_disk. cbn. rewrite lookup_insert_eq. eauto.
  - destruct Hlk as [[-> _]|[g (Hn & Hf & ->)]]; [done|].
    intros name e He. unfold create_disk in *. cbn [d_names d_data] in *.
    apply lookup_insert_Some in He as [[<- <-]|[_ He]]; [rewrite lookup_insert_eq; eauto|].
    destruct (Hd _ _ He) as [bs Hb]. exists bs. rewrite lookup_insert_ne; [done|]. intros E.
    by rewrite <- E, Hf in Hb.
Qed.
End creation.

Section refusals.
Context {W : Type} {HIO : PosixIo W} {HL : PosixLaws W}.

Lemma create_new_empty c generate (w w' : W) i :
  create_new_with c generate w = (Ok i, w') ->
  forall name e, d_names (disk w) !! name = Some e -> name = kWalLockFileName /\ e.1 = kRegularFile.
Proof.
  intros H. unfold create_new_with in H.
  apply io_bind_Ok in H as (u0 & w0 & E0 & H). apply io_check_Ok in E0 as [Hc ->].
  apply io_bind_Ok in H as (u1 & w1 & E1 & H).
  destruct (implements_Ok _ _ _ _ _ _ _ _ _ (law_open_directory _) E1) as [D1 _].
  destruct (inspect_new_directory w1) as [[status lk] w2] eqn:E2.
  destruct (is_ok status) eqn:Hs; cbn [negb] in H; cycle 1.
  { apply io_bind_Ok in H as (u & wx & _ & H). injection H as H _.
    destruct (@make_unexpected_not_ok Impl status) as (? & E & _). by rewrite E in H. }
  apply bool_decide_eq_true in Hs. subst status.
  apply inspect_new_directory_inv in E2 as [_ Hn]. by rewrite D1 in Hn.
Qed.

(** The first failure sticks. *)
Lemma writer_stuck (i : Impl) (p : list byte) (w : W) :
  failure i <> kOk ->
  append_application_entry p (w, i) = (Err (failure i), (w, i)) /\
  synchronize (w, i) = (Err (failure i), (w, i)).
Proof.
  intros Hf. unfold append_application_entry, synchronize.
  rewrite !(io_bind_step get_impl _ (w, i) i (w, i)) by done.
  assert (Hb : is_ok (failure i) = false) by by apply bool_decide_eq_false.
  rewrite Hb. cbn [negb]. unfold io_pure, make_unexpected. by rewrite Hb.
Qed.
End refusals.

(** * Sessions *)

(** The calls a client makes on one writer, in order. *)
Inductive WriterCall := CallAppend (payload : list byte) | CallSynchronize.

Fixpoint session {W} `{PosixIo W} (calls : list WriterCall) : IO (W * Impl) (list WalAppendResult) :=
  match calls with
  | [] => io_ret []
  | CallAppend payload :: rest =>
      let* out := append_application_entry payload in
      let* outs := session rest in
      io_ret (out :: outs)
  | CallSynchronize :: rest => do* synchronize; session rest
  end.

Fixpoint payloads (calls : list WriterCall) : list (list byte) :=
  match calls with
  | [] => []
  | CallAppend payload :: rest => payload :: payloads rest
  | CallSynchronize :: rest => payloads rest
  end.
(** At most this many bytes of segment files. *)
Definition session_bytes (ps : list (list byte)) : Z :=
  foldr (fun p acc => 64 + frame_length (blen p) + acc) 0 ps.

Lemma payloads_app a b : payloads (a ++ b) = payloads a ++ payloads b.
Proof. induction a as [|[] a IH]; cbn; rewrite ?IH; done. Qed.
Lemma session_bytes_app a b : session_bytes (a ++ b) = session_bytes a + session_bytes b.
Proof. unfold session_bytes. induction a as [|p a IH]; cbn [app foldr]; [done|]. rewrite IH. lia. Qed.

Lemma frame_length_pos (p : list byte) : 0 <= frame_length (blen p).
Proof. unfold frame_length, pad. Z.to_euclidean_division_equations. lia. Qed.
Lemma session_bytes_count ps : Z.of_nat (length ps) <= session_bytes ps.
Proof.
  unfold session_bytes. induction ps as [|p ps IH]; cbn [foldr length]; [done|].
  pose proof (frame_length_pos p). lia.
Qed.

Section sessions.
Context {W : Type} {HIO : PosixIo W} {HL : PosixLaws W}.

Lemma session_app_inv (a b : list WriterCall) : forall (wi wi' : W * Impl) outs,
  session (a ++ b) wi = (Ok outs, wi') ->
  exists outs1 wi1 outs2, session a wi = (Ok outs1, wi1) /\ session b wi1 = (Ok outs2, wi') /\
    outs = outs1 ++ outs2.
Proof.
  induction a as [|[p|] a IH]; intros wi wi' outs H; cbn [app session] in *.
  - by eexists [], wi, outs.
  - apply io_bind_Ok in H as (out & wi1 & E1 & H). apply io_bind_Ok in H as (outs' & wi2 & E2 & H).
    injection H as <- <-. apply IH in E2 as (o1 & wi3 & o2 & Ea & Eb & ->).
    exists (out :: o1), wi3, o2. split_and!; [|done|done].
    by rewrite (io_bind_step _ _ _ _ _ E1), (io_bind_step _ _ _ _ _ Ea).
  - apply io_bind_Ok in H as (u & wi1 & E1 & H). apply IH in H as (o1 & wi3 & o2 & Ea & Eb & ->).
    exists o1, wi3, o2. split_and!; [|done|done]. by rewrite (io_bind_step _ _ _ _ _ E1).
Qed.

Lemma appended_bytes (d : Disk) i sgs lg r sgs' lg' :
  writer_ok d i sgs' lg' -> appended sgs lg r sgs' lg' ->
  seg_wal_id (sg_header lg') = seg_wal_id (sg_header lg) /\
  total_bytes (contents (sgs' ++ [lg']) []) <=
    total_bytes (contents (sgs ++ [lg]) []) + 64 + blen (frame r).
Proof.
  intros Hok [[-> ->]|[-> ->]]; (split; [done|]); rewrite !contents_snoc, !app_nil_r, !total_bytes_app,
    segment_bytes_add; cbn [total_bytes foldr]; rewrite length_app; [lia|].
  pose proof (segment_bytes_length _ _ _ _ (active_segment_ok _ _ _ _ Hok)) as Hl.
  rewrite segment_bytes_add, length_app in Hl. cbn [add_record empty_segment sg_records app] in Hl.
  rewrite frames_cons, app_nil_r in Hl. rewrite fmap_app, total_bytes_app. cbn. lia.
Qed.

Lemma session_ok (calls : list WriterCall) : forall (w w' : W) i i' sgs lg outs,
  writer_ok (disk w) i sgs lg -> session calls (w, i) = (Ok outs, (w', i')) ->
  exists sgs' lg', writer_ok (disk w') i' sgs' lg' /\
    seg_wal_id (sg_header lg') = seg_wal_id (sg_header lg) /\
    (all_records (sgs' ++ [lg'])).*2 = (all_records (sgs ++ [lg])).*2 ++ payloads calls /\
    total_bytes (contents (sgs' ++ [lg']) []) <=
      total_bytes (contents (sgs ++ [lg]) []) + session_bytes (payloads calls) /\
    durable_record_sequence i <= durable_record_sequence i' /\
    append_record_sequence <$> outs =
      seqZ (written_record_sequence i + 1) (Z.of_nat (length (payloads calls))) /\
    written_record_sequence i' = written_record_sequence i + Z.of_nat (length (payloads calls)).
Proof.
  induction calls as [|[p|] calls IH]; intros w w' i i' sgs lg outs Hok H; cbn [session payloads] in *.
  - injection H as <- <- <-. exists sgs, lg. cbn. rewrite app_nil_r. split_and!; try done; lia.
  - apply io_bind_Ok in H as (out & [w1 i1] & E1 & H). apply io_bind_Ok in H as (outs' & [w2 i2] & E2 & H).
    injection H as <- <- <-.
    destruct (append_ok _ _ _ _ _ _ _ _ Hok E1) as (Hr & _ & _ & sgs1 & lg1 & Happ & Hok1 & Hs & _ & _ & _ & Hd1).
    destruct (appended_bytes _ _ _ _ _ _ _ Hok1 Happ) as [Hid1 Hb1].
    pose proof (appended_records _ _ _ _ _ Happ) as Hrec.
    destruct (IH _ _ _ _ _ _ _ Hok1 E2) as (sgs2 & lg2 & Hok2 & Hid2 & Hp2 & Hb2 & Hd2 & Hs2 & Hw2).
    rewrite (frame_application_length _ _ Hr) in Hb1.
    assert (Hw1 : written_record_sequence i1 = written_record_sequence i + 1).
    { rewrite (wo_sequence _ _ _ _ Hok1), (wo_sequence _ _ _ _ Hok), Hrec, length_app. cbn. lia. }
    assert (Hn : append_record_sequence out = written_record_sequence i1).
    { destruct (append_cases w i sgs lg p Hok) as [(s & E & _)|(_ & Hex & _)]; [by rewrite E in E1|].
      rewrite Hs, Hw1. destruct (wo_next _ _ _ _ Hok) as [(_ & -> & _)|[? _]]; [done|congruence]. }
    exists sgs2, lg2. cbn [length fmap list_fmap]. split_and!; try done.
    + congruence.
    + rewrite Hp2, Hrec, fmap_app, <- app_assoc. done.
    + unfold session_bytes in *. cbn [foldr]. lia.
    + lia.
    + rewrite Hn, Hw1, seqZ_cons by lia. f_equal.
      fold (append_record_sequence <$> outs'). rewrite Hs2, Hw1. f_equal; lia.
    + lia.
  - apply io_bind_Ok in H as (u & [w1 i1] & E1 & H).
    destruct (synchronize_ok _ _ _ _ _ _ _ Hok E1) as (_ & _ & -> & _ & _ & Hok1).
    pose proof (durable_le_written _ _ _ _ Hok).
    destruct (IH _ _ _ _ _ _ _ Hok1 H) as (sgs2 & lg2 & Hok2 & Hid2 & Hp2 & Hb2 & Hd2 & Hs2 & Hw2).
    exists sgs2, lg2. cbn [set_durable durable_record_sequence written_record_sequence] in *.
    split_and!; try done. lia.
Qed.
End sessions.

(** * Crashes *)

Lemma on_disk_lookup d files : forall n,
  on_disk d n files <-> forall j bs, files !! j = Some bs -> exists f,
    d_names d !! segment_name (n + Z.of_nat j) = Some (kRegularFile, f) /\ d_data d !! f = Some bs.
Proof.
  induction files as [|b files IH]; intros n; cbn [on_disk]; [done|]. rewrite IH. split.
  - intros [H0 H] [|j] bs Hj; cbn in Hj.
    + injection Hj as <-. by rewrite Z.add_0_r.
    + replace (n + Z.of_nat (S j)) with (n + 1 + Z.of_nat j) by lia. by apply H.
  - intros H. split; [specialize (H 0%nat b eq_refl); by rewrite Z.add_0_r in H|].
    intros j bs Hj. specialize (H (S j) bs Hj). by replace (n + Z.of_nat (S j)) with (n + 1 + Z.of_nat j) in H by lia.
Qed.

Lemma on_disk_closed d d' sgs :
  d_names d' = d_names d -> on_disk d 1 (segment_bytes <$> sgs) ->
  (forall j sg, sgs !! j = Some sg -> exists f,
     d_names d !! segment_name (Z.of_nat j + 1) = Some (kRegularFile, f) /\
     d_synced d !! f = Some (segment_bytes sg)) ->
  (forall f bs, d_data d !! f = Some bs -> exists m, d_data d' !! f = Some (take m bs) /\
     forall synced, d_synced d !! f = Some synced -> (length synced <= m)%nat) ->
  on_disk d' 1 (segment_bytes <$> sgs).
Proof.
  intros En Hod Hcl Hcd. rewrite on_disk_lookup in *. intros j bs Hj.
  destruct (Hod j bs Hj) as (f & Hn & Hd). exists f. rewrite En. split; [done|].
  rewrite list_lookup_fmap in Hj. destruct (sgs !! j) as [sg|] eqn:Hsg; [|done]. injection Hj as <-.
  destruct (Hcl j sg Hsg) as (f' & Hn' & Hs). rewrite Z.add_comm, Hn in Hn'. injection Hn' as <-.
  destruct (Hcd _ _ Hd) as (m & Hm & Hle). rewrite take_ge in Hm; [done|by apply Hle].
Qed.

Definition cut_segment (lg : Segment) (j : nat) : Segment :=
  {| sg_header := sg_header lg; sg_records := take j (sg_records lg) |}.

Lemma crash_same_names d d' i sgs lg : writer_ok d i sgs lg -> crash d d' -> d_names d' = d_names d.
Proof.
  intros Hok Hc. apply map_eq. intros name. apply (crash_names _ _ Hc). by rewrite (wo_names _ _ _ _ Hok).
Qed.

(** A crash leaves the log up to some record, and all that is durable. *)
Lemma crash_cut_log d d' i sgs lg :
  writer_ok d i sgs lg -> crash d d' ->
  Z.of_nat (length (all_records (sgs ++ [lg]))) < max_u64 ->
  total_bytes (contents (sgs ++ [lg]) []) <= max_u64 ->
  exists j tail, log_on_disk d' (seg_wal_id (sg_header lg)) (sgs ++ [cut_segment lg j]) tail /\
    (j <= length (sg_records lg))%nat /\
    durable_record_sequence i <= Z.of_nat (length (all_records sgs) + j).
Proof.
  intros Hok Hcr Hn Hb. pose proof (writer_log _ _ _ _ Hok Hn Hb) as Hlog.
  pose proof (crash_same_names _ _ _ _ _ Hok Hcr) as En. destruct Hcr as [_ Hcd _].
  destruct (wo_durable _ _ _ _ Hok) as (k & Hk & Hdur & _ & Hsyn).
  pose proof (active_segment_ok _ _ _ _ Hok) as (Hwf & _).
  pose proof (length_segment_header_bytes _ (shw_id _ Hwf)) as Hhl.
  destruct (Hcd _ _ (active_data _ _ _ _ Hok)) as (m & Hact & Hm). specialize (Hm _ Hsyn).
  rewrite length_app in Hm.
  destruct (cut_log d _ sgs lg (Z.of_nat m) Hlog ltac:(lia) d') as (j & tail & Hj & Hlog' & Hkeep).
  - by eapply wal_directory_names; [|exact (wo_directory _ _ _ _ Hok)].
  - rewrite Nat2Z.id. pose proof (wo_files _ _ _ _ Hok) as Hod.
    rewrite contents_snoc, app_nil_r, on_disk_app in Hod. destruct Hod as [Hod _].
    apply on_disk_app. split.
    + eapply (on_disk_closed d d'); [done|exact Hod|exact (wo_closed _ _ _ _ Hok)|exact Hcd].
    + cbn [on_disk]. split; [|done]. exists (active_file i). rewrite length_fmap, En, Z.add_comm.
      split; [apply (wo_active _ _ _ _ Hok)|done].
  - exists j, tail. split; [exact Hlog'|]. split; [done|]. rewrite Hdur. specialize (Hkeep k Hk). lia.
Qed.

Lemma cut_records sgs lg j :
  (j <= length (sg_records lg))%nat ->
  all_records (sgs ++ [cut_segment lg j]) = take (length (all_records sgs) + j) (all_records (sgs ++ [lg])) /\
  (length (all_records sgs) + j <= length (all_records (sgs ++ [lg])))%nat.
Proof.
  intros Hj. rewrite !all_records_app, length_app. cbn [all_records concat fmap list_fmap cut_segment sg_records].
  rewrite !app_nil_r. split; [by rewrite take_app_add|lia].
Qed.

Lemma replay_payloads id : forall sgs n,
  replay_payload <$> replay_history id n sgs = (all_records sgs).*2.
Proof.
  assert (Hseg : forall rs n off, replay_payload <$> replay_records id n off rs = rs.*2).
  { induction rs as [|r rs IH]; intros n off; cbn [replay_records fmap list_fmap]; [done|]. f_equal. apply IH. }
  induction sgs as [|sg sgs IH]; intros n; cbn [replay_history]; [done|].
  by rewrite fmap_app, Hseg, IH, all_records_cons, fmap_app.
Qed.

(** * Claims *)

(** A session survives a crash: create a log, make any sequence of appends
    and synchronisations that all return, and crash.  The log that is left is
    scanned without an error, and its replay delivers, in order, the payloads of
    the first [n] appends for some [n] that covers every append made before any of
    the synchronisations: nothing durable is lost, nothing is invented, and
    nothing is reordered. *)
Theorem session_survives_crash {W : Type} {HIO : PosixIo W} {HL : PosixLaws W}
    (c : WalWriterConfig) (generate : result WalId) (path : list byte) (before after : list WriterCall)
    (w0 w1 w2 w : W) (i0 i2 : Impl) (outs : list WalAppendResult)
    (Hd : disk_ok (disk w0)) (Hgen : forall id, generate = Ok id -> wal_id_wf id)
    (Hcreate : create_new_with c generate w0 = (Ok i0, w1))
    (Hrun : session (before ++ CallSynchronize :: after) (w1, i0) = (Ok outs, (w2, i2)))
    (Hcount : 64 + session_bytes (payloads (before ++ after)) < max_u64)
    (Hcrash : crash (disk w2) (disk w)) (Hr : reliable w) :
  exists id n sgs tail, generate = Ok id /\
    (length (payloads before) <= n <= length (payloads (before ++ after)))%nat /\
    (exists w' found, scan_wal path (w, tt) = (Ok (history_report id sgs found tail), (w', tt))) /\
    exists w', scan_discovered_wal kReplay (Some recording_sink) None
        {| segments := discovered_from 1 sgs; temporary_file_names := [] |} (w, []) =
        (Ok (history_report id sgs [] tail), (w', replay_history id 1 sgs)) /\
      replay_payload <$> replay_history id 1 sgs = take n (payloads (before ++ after)).
Proof.
  destruct (create_new_ok c generate w0 w1 i0 Hd Hgen Hcreate) as (id & -> & Hok1 & _).
  apply session_app_inv in Hrun as (o1 & [wb ib] & o2 & Hb & Ha & _).
  cbn [session] in Ha. apply io_bind_Ok in Ha as (u & [ws is'] & Hs & Ha).
  destruct (session_ok _ _ _ _ _ _ _ _ Hok1 Hb) as (sgsb & lgb & Hokb & Hidb & Hpb & Hbb & _ & _ & Hwb).
  destruct (synchronize_ok _ _ _ _ _ _ _ Hokb Hs) as (_ & _ & -> & _ & _ & Hoks).
  destruct (session_ok _ _ _ _ _ _ _ _ Hoks Ha) as (sgs2 & lg2 & Hok2 & Hid2 & Hp2 & Hb2 & Hd2 & _ & _).
  rewrite Hpb, <- app_assoc in Hp2.
  assert (E0 : total_bytes (contents ([] ++ [empty_segment id 1 1]) []) = 64 /\
               all_records ([] ++ [empty_segment id 1 1]) = []).
  { split; [|done]. pose proof (segment_bytes_length _ _ _ _ (active_segment_ok _ _ _ _ Hok1)) as Hl.
    rewrite contents_snoc, app_nil_r. cbn [fmap list_fmap app total_bytes foldr]. rewrite Hl. done. }
  destruct E0 as [Hb0 Hr0]. rewrite Hr0 in Hp2. cbn [fmap list_fmap app] in Hp2.
  rewrite <- payloads_app in Hp2. rewrite payloads_app, session_bytes_app in Hcount.
  assert (Hnum : length (all_records (sgs2 ++ [lg2])) = length (payloads (before ++ after)))
    by (rewrite <- Hp2, length_fmap; done).
  pose proof (session_bytes_count (payloads before ++ payloads after)) as Hc.
  rewrite session_bytes_app, <- payloads_app, <- Hnum in Hc.
  destruct (crash_cut_log _ _ _ _ _ Hok2 Hcrash ltac:(lia) ltac:(lia)) as (j & tail & Hlog & Hj & Hdur).
  destruct (cut_records sgs2 lg2 j Hj) as [Hrec Hn]. set (n := (length (all_records sgs2) + j)%nat) in *.
  rewrite Hid2, Hidb in Hlog. exists id, n, (sgs2 ++ [cut_segment lg2 j]), tail. split; [done|]. split.
  { split; [|lia]. cbn [set_durable durable_record_sequence written_record_sequence] in Hd2.
    pose proof (wo_sequence _ _ _ _ Hok1) as Hw0. rewrite Hr0 in Hw0. cbn [length] in Hw0. lia. }
  split.
  { destruct (scan_wal_ok id (sgs2 ++ [cut_segment lg2 j]) tail path w tt Hr Hlog) as (w' & found & E & _). eauto. }
  destruct (scan_discovered_ok kReplay (Some recording_sink) id _ tail [] w [] _ Hr Hlog
    ltac:(right; eauto) (deliver_recording _ _)) as (w' & _ & _ & E).
  exists w'. split; [exact E|]. rewrite replay_payloads, Hrec, fmap_take, Hp2. done.
Qed.

(**  Creating a log: when [create_new_with] returns on a directory where no
    name is bound to a missing file, it has installed the first segment under the
    generated identity, the writer's state describes an empty log on that disk,
    and the directory held nothing but the lock file, so that no existing file was
    overwritten. *)
Theorem create_new_establishes {W : Type} {HIO : PosixIo W} {HL : PosixLaws W}
    (c : WalWriterConfig) (generate : result WalId) (w w' : W) (i : Impl)
    (Hd : disk_ok (disk w)) (Hgen : forall id, generate = Ok id -> wal_id_wf id)
    (H : create_new_with c generate w = (Ok i, w')) :
  validate_writer_config c = kOk /\
  (forall name e, d_names (disk w) !! name = Some e -> name = kWalLockFileName /\ e.1 = kRegularFile) /\
  exists id, generate = Ok id /\ writer_ok (disk w') i [] (empty_segment id 1 1) /\ failure i = kOk.
Proof.
  split; [|split].
  - unfold create_new_with in H. apply io_bind_Ok in H as (u & w1 & E & _).
    by apply io_check_Ok in E as [-> _].
  - by eapply create_new_empty.
  - by eapply create_new_ok.
Qed.

(** C26.  An append that returns has extended the log by exactly its record: the
    payload passed validation, it is the next record in sequence after all earlier
    ones (in the active segment or as the first of a new one), the writer's state
    again describes the disk, and the result names the record's sequence and where
    it starts and ends. *)
Theorem append_extends_log {W : Type} {HIO : PosixIo W} {HL : PosixLaws W}
    (w w' : W) (i i' : Impl) (sgs : list Segment) (lg : Segment) (payload : list byte)
    (out : WalAppendResult) (Hok : writer_ok (disk w) i sgs lg)
    (H : append_application_entry payload (w, i) = (Ok out, (w', i'))) :
  let r := application_record (next_record_sequence i) payload in
  record_ok r.1 payload /\
  exists sgs' lg', writer_ok (disk w') i' sgs' lg' /\
    all_records (sgs' ++ [lg']) = all_records (sgs ++ [lg]) ++ [r] /\
    append_record_sequence out = Z.of_nat (length (all_records (sgs' ++ [lg']))) /\
    append_record_end out = written_position i' /\
    append_record_start out = {| pos_wal_id := seg_wal_id (sg_header lg');
      pos_segment_number := Z.of_nat (length sgs') + 1;
      pos_byte_offset := blen (segment_bytes lg') - blen (frame r) |}.
Proof.
  intros r. destruct (append_ok _ _ _ _ _ _ _ _ Hok H) as
    (Hr & _ & _ & sgs' & lg' & Happ & Hok' & Hseq & Hend & Hstart & _).
  split; [exact Hr|]. exists sgs', lg'. pose proof (appended_records _ _ _ _ _ Happ) as Hrec.
  split_and!; try done. rewrite Hseq, Hrec, length_app.
  destruct (append_cases w i sgs lg payload Hok) as [(s & E & _)|(_ & Hex & _)]; [by rewrite E in H|].
  pose proof (wo_sequence _ _ _ _ Hok). cbn [length].
  destruct (wo_next _ _ _ _ Hok) as [(_ & -> & _)|[? _]]; [lia|congruence].
Qed.

(**  A failed append loses nothing: it either changed neither the writer nor
    the disk, or the writer carries a failure from then on and the disk still
    holds a readable log of every earlier record, possibly followed by a torn tail
    or by the complete record; and a writer with a failure refuses appends and
    synchronisations, reports that failure and touches nothing. *)
Theorem append_failure_keeps_log {W : Type} {HIO : PosixIo W} {HL : PosixLaws W}
    (w w' : W) (i i' : Impl) (sgs : list Segment) (lg : Segment) (payload : list byte) (s : StatusCode)
    (Hok : writer_ok (disk w) i sgs lg) (Hroom : countable 2 sgs lg)
    (H : append_application_entry payload (w, i) = (Err s, (w', i'))) :
  let id := seg_wal_id (sg_header lg) in
  let rs := all_records (sgs ++ [lg]) in
  let r := application_record (next_record_sequence i) payload in
  (i' = i /\ disk w' = disk w) \/
  ((left_log (disk w') id rs \/ left_log (disk w') id (rs ++ [r])) /\
   forall p (w1 : W), append_application_entry p (w1, i') = (Err (failure i'), (w1, i')) /\
     synchronize (w1, i') = (Err (failure i'), (w1, i'))).
Proof.
  intros id rs r. destruct (append_failed _ _ _ _ _ _ _ _ Hok Hroom H) as [?|[Hf Hl]]; [by left|].
  right. split; [exact Hl|]. intros p w1. by apply writer_stuck.
Qed.

(** Appends go through: on files that do not fail, with no leftover temporary
    segment, a writer that has no failure and has not run out of sequence or
    segment numbers appends every valid payload of an allowed size, rotating when
    the segment is full. *)
Theorem append_progress {W : Type} {HIO : PosixIo W} {HL : PosixLaws W}
    (w : W) (i : Impl) (sgs : list Segment) (lg : Segment) (payload : list byte)
    (env : ApplicationEnvelope) (Hr : reliable w) (Hok : writer_ok (disk w) i sgs lg)
    (Hf : failure i = kOk) (Hseq : sequence_exhausted_ i = false)
    (Hseg : Z.of_nat (length sgs) + 1 <> max_u64) (Hperm : permissions_ok (file_permissions i))
    (Htemp : no_temporary w) (Hlen : blen payload <= maximum_application_payload i)
    (Henv : decode_application_payload payload = Ok env) :
  exists out w' i', append_application_entry payload (w, i) = (Ok out, (w', i')) /\ failure i' = kOk.
Proof.
  destruct (append_live w i sgs lg payload env) as (out & w' & i' & E & _); try done.
  exists out, w', i'. split; [exact E|].
  by destruct (append_ok _ _ _ _ _ _ _ _ Hok E) as (_ & _ & ? & _).
Qed.

(** * A concrete session *)

Definition sample_config : WalWriterConfig :=
  {| directory_path := chars "wal"; config_file_permissions := 384;
     config_target_segment_size := 192; config_maximum_application_payload := 64 |}.
(** Three records, two segments, and one record that is not synchronised. *)
Definition sample_before : list WriterCall := [CallAppend sample_payload; CallAppend sample_payload].
Definition sample_after : list WriterCall := [CallAppend sample_payload].

(** Evaluate a run of the writer on the new log and keep what [check] says of it. *)
Definition on_new_log (check : Impl -> Memory -> bool) : bool :=
  match create_new_with sample_config (Ok sample_wal_id) (on_memory empty_disk) with
  | (Ok i, w) => check i w
  | _ => false
  end.
Lemma on_new_log_inv check : on_new_log check = true ->
  exists i w, create_new_with sample_config (Ok sample_wal_id) (on_memory empty_disk) = (Ok i, w) /\
    check i w = true.
Proof. unfold on_new_log. destruct (create_new_with _ _ _) as [[i|s] w]; [eauto|discriminate]. Qed.

Lemma sample_session : exists i0 w1 outs i2 w2,
  create_new_with sample_config (Ok sample_wal_id) (on_memory empty_disk) = (Ok i0, w1) /\
  session (sample_before ++ CallSynchronize :: sample_after) (w1, i0) = (Ok outs, (w2, i2)) /\
  forall synced, d_synced (mem_disk w2) !! active_file i2 = Some synced -> blen synced <= 100.
Proof.
  destruct (on_new_log_inv (fun i w =>
    match session (sample_before ++ CallSynchronize :: sample_after) (w, i) with
    | (Ok _, (w2, i2)) => match d_synced (mem_disk w2) !! active_file i2 with
                          | Some synced => blen synced <=? 100 | None => true end
    | _ => false end)) as (i0 & w1 & Hc & H); [vm_compute; reflexivity|].
  destruct (session _ _) as [[outs|s] [w2 i2]] eqn:Hs; [|discriminate].
  exists i0, w1, outs, i2, w2. split; [exact Hc|]. split; [exact Hs|].
  intros synced E. rewrite E in H. by apply Z.leb_le.
Qed.

(** One append on the new log, and the same append when the write fails after 40
    bytes. *)
Definition failing_write (w : Memory) : Memory :=
  {| mem_disk := mem_disk w; mem_faults := [Some (kIoError, 40%nat)] |}.
Lemma sample_append : exists i0 w1 out i2 w2 s i3 w3,
  create_new_with sample_config (Ok sample_wal_id) (on_memory empty_disk) = (Ok i0, w1) /\
  append_application_entry sample_payload (w1, i0) = (Ok out, (w2, i2)) /\
  append_application_entry sample_payload (failing_write w1, i0) = (Err s, (w3, i3)) /\
  failure i3 <> kOk.
Proof.
  destruct (on_new_log_inv (fun i w =>
    match append_application_entry sample_payload (w, i),
          append_application_entry sample_payload (failing_write w, i) with
    | (Ok _, _), (Err _, (_, i3)) => negb (is_ok (failure i3))
    | _, _ => false end)) as (i0 & w1 & Hc & H); [vm_compute; reflexivity|].
  destruct (append_application_entry _ (w1, _)) as [[out|] [w2 i2]] eqn:E1; [|discriminate].
  destruct (append_application_entry _ (failing_write w1, _)) as [[|s] [w3 i3]] eqn:E2; [discriminate|].
  exists i0, w1, out, i2, w2, s, i3, w3. split; [exact Hc|]. split; [exact E1|]. split; [exact E2|].
  intros E. by rewrite E in H.
Qed.

Lemma sample_id_generated : forall id, Ok sample_wal_id = Ok id -> wal_id_wf id.
Proof. intros id [= <-]. reflexivity. Qed.
Lemma sample_writer i w :
  create_new_with sample_config (Ok sample_wal_id) (on_memory empty_disk) = (Ok i, w) ->
  writer_ok (disk w) i [] (empty_segment sample_wal_id 1 1).
Proof.
  intros H. destruct (@create_new_ok Memory Memory_PosixIo Memory_laws _ _ _ _ _
    empty_disk_ok sample_id_generated H) as (id & [= <-] & Hok & _). exact Hok.
Qed.

Lemma session_survives_crash_witness :
  exists (w : Memory) id n sgs tail, (2 <= n <= 3)%nat /\
    (exists w' found, scan_wal [] (w, tt) = (Ok (history_report id sgs found tail), (w', tt))) /\
    replay_payload <$> replay_history id 1 sgs = take n [sample_payload; sample_payload; sample_payload].
Proof.
  destruct sample_session as (i0 & w1 & outs & i2 & w2 & Hc & Hs & Hsync).
  set (w := on_memory (truncate_disk (active_file i2) 100 (mem_disk w2))).
  destruct (@session_survives_crash Memory Memory_PosixIo Memory_laws sample_config (Ok sample_wal_id) []
    sample_before sample_after (on_memory empty_disk) w1 w2 w i0 i2 outs
    empty_disk_ok sample_id_generated Hc Hs) as (id & n & sgs & tail & _ & Hn & Hscan & w' & _ & Hp).
  - vm_compute. reflexivity.
  - apply crash_cut; [lia|exact Hsync].
  - reflexivity.
  - exists w, id, n, sgs, tail. split; [exact Hn|]. split; [exact Hscan|exact Hp].
Defined.

Lemma create_new_establishes_witness :
  exists (i : Impl) (w : Memory), writer_ok (disk w) i [] (empty_segment sample_wal_id 1 1).
Proof.
  destruct sample_session as (i0 & w1 & _ & _ & _ & Hc & _). exists i0, w1.
  destruct (@create_new_establishes Memory Memory_PosixIo Memory_laws sample_config (Ok sample_wal_id)
    (on_memory empty_disk) w1 i0 empty_disk_ok sample_id_generated Hc) as (_ & _ & id & E & H & _).
  injection E as <-. exact H.
Defined.

Lemma append_extends_log_witness :
  exists (w : Memory) (i : Impl) (lg : Segment) sgs, writer_ok (disk w) i sgs lg /\
    (all_records (sgs ++ [lg])).*2 = [sample_payload].
Proof.
  destruct sample_append as (i0 & w1 & out & i2 & w2 & _ & _ & _ & Hc & Ha & _).
  destruct (append_extends_log w1 w2 i0 i2 [] (empty_segment sample_wal_id 1 1) sample_payload out
    (sample_writer _ _ Hc) Ha) as (_ & sgs & lg & Hok' & Hrec & _).
  exists w2, i2, lg, sgs. split; [exact Hok'|]. rewrite Hrec. reflexivity.
Defined.

Lemma append_failure_keeps_log_witness :
  exists (w : Memory) (i : Impl) rs, failure i <> kOk /\ (length rs <= 1)%nat /\
    left_log (disk w) sample_wal_id rs.
Proof.
  destruct sample_append as (i0 & w1 & _ & _ & _ & s & i3 & w3 & Hc & _ & Hf & Hne).
  pose proof (sample_writer _ _ Hc) as Hok.
  assert (Hroom : countable 2 [] (empty_segment sample_wal_id 1 1))
    by (split; vm_compute; [reflexivity|discriminate]).
  destruct (@append_failure_keeps_log Memory Memory_PosixIo Memory_laws (failing_write w1) w3 i0 i3 [] (empty_segment sample_wal_id 1 1)
    sample_payload s Hok Hroom Hf) as [[E _]|[[Hl|Hl] _]].
  - exfalso. subst i3. apply Hne.
    by destruct (@create_new_ok Memory Memory_PosixIo Memory_laws _ _ _ _ _
      empty_disk_ok sample_id_generated Hc) as (? & _ & _ & ?).
  - eexists w3, i3, _. split; [exact Hne|]. split; [|exact Hl]. cbn. lia.
  - eexists w3, i3, _. split; [exact Hne|]. split; [|exact Hl]. cbn. lia.
Defined.

Lemma append_progress_witness :
  exists (i : Impl) (w : Memory) out w' i',
    append_application_entry sample_payload (w, i) = (Ok out, (w', i')) /\ failure i' = kOk.
Proof.
  destruct (on_new_log_inv (fun i w => is_ok (failure i) && negb (sequence_exhausted_ i)
    && (Z.land (file_permissions i) (Z.lnot 511) =? 0) && (blen sample_payload <=? maximum_application_payload i)
    && bool_decide (mem_faults w = [])
    && bool_decide (map_Forall (fun name _ => is_temporary_segment_name name = false) (d_names (mem_disk w)))))
    as (i & w & Hc & H); [vm_compute; reflexivity|].
  repeat rewrite andb_true_iff in H. destruct H as [[[[[H1 H2] H3] H4] H5] H6].
  destruct (append_progress w i [] (empty_segment sample_wal_id 1 1) sample_payload sample_envelope)
    as (out & w' & i' & E & F).
  - by apply bool_decide_eq_true in H5.
  - exact (sample_writer _ _ Hc).
  - by apply bool_decide_eq_true in H1.
  - by apply negb_true_iff in H2.
  - discriminate.
  - by apply Z.eqb_eq in H3.
  - by apply bool_decide_eq_true in H6.
  - by apply Z.leb_le in H4.
  - vm_compute. reflexivity.
  - exists i, w, out, w', i'. split; [exact E|exact F].
Defined.
