(* ===== verification/WalRecovery.v ===== *)
(** Recovery of an existing log: src/wal/wal_recovery.cpp and wal_reopen.cpp.  A
    torn final tail is cut off when the caller authorizes it, leftover temporary
    files are removed, the records are preflighted and replayed, and the last
    segment becomes the active one of a new writer. *)
From S2P Require Import Prelude Bytes WalCodec PosixIo WalPaths WalScan WalWriter.

Record WalRecoveryOptions := { repair_incomplete_final_tail : bool }.

(** [RecoveredWalState]: the directory and the lock are the world's. *)
Record RecoveredWalState := {
  recovered_report : WalRecoveryReport; recovered_segment : WalSegment; recovered_file : PosixFile }.

(** The fields of a report that recovery fills in. *)
Definition set_repair (r : WalRecoveryReport) (rep : bool) (original new : Z) : WalRecoveryReport :=
  {| classification := classification r; rep_wal_id := rep_wal_id r;
     segment_count := segment_count r; temporary_file_count := temporary_file_count r;
     temporary_files_removed := temporary_files_removed r; record_count := record_count r;
     physical_bytes := physical_bytes r; valid_end := valid_end r;
     observed_final_size := observed_final_size r;
     last_record_sequence := last_record_sequence r; sequence_exhausted := sequence_exhausted r;
     repaired := rep; repair_original_size := original; repair_new_size := new |}.
Definition set_temporaries_removed (r : WalRecoveryReport) (n : Z) : WalRecoveryReport :=
  {| classification := classification r; rep_wal_id := rep_wal_id r;
     segment_count := segment_count r; temporary_file_count := temporary_file_count r;
     temporary_files_removed := n; record_count := record_count r;
     physical_bytes := physical_bytes r; valid_end := valid_end r;
     observed_final_size := observed_final_size r;
     last_record_sequence := last_record_sequence r; sequence_exhausted := sequence_exhausted r;
     repaired := repaired r; repair_original_size := repair_original_size r;
     repair_new_size := repair_new_size r |}.

Section recovery.
Context {W St : Type} `{PosixIo W}.

(** The header of the last segment, checked against a report. *)
Definition recheck_header (file : PosixFile) (final : DiscoveredWalSegment)
    (report : WalRecoveryReport) : IO W SegmentHeader :=
  let* encoded := read_file_exact file 0 kSegmentHeaderSize in
  let* header := io_pure (decode_segment_header encoded) in
  stop_if negb (bool_decide (seg_wal_id header = rep_wal_id report))
          || negb (seg_number header =? disc_number final) with kCorruption;
  io_ret header.

Definition cut_tail (final : DiscoveredWalSegment) (incomplete : WalRecoveryReport) : IO W unit :=
  let* file := open_regular_file (disc_file_name final) kReadWrite in
  let* size := file_size file in
  stop_if negb (size =? observed_final_size incomplete) with kCorruption;
  do* recheck_header file final incomplete;
  do* truncate file (pos_byte_offset (valid_end incomplete));
  do* sync_all file;
  directory_sync.

Definition repair_tail (d : WalDiscovery) (incomplete : WalRecoveryReport)
    (checkpoint : option WalReplayCheckpoint) : IO (W * St) WalRecoveryReport :=
  match last (segments d) with
  | None => io_fail kInternal
  | Some final =>
      stop_if negb (bool_decide (classification incomplete = kIncompleteFinalTail))
              || negb (pos_segment_number (valid_end incomplete) =? disc_number final)
              || (pos_byte_offset (valid_end incomplete) >=? observed_final_size incomplete)
        with kInternal;
      do* lift_io (cut_tail final incomplete);
      let* verified := scan_discovered_wal kVerify None checkpoint d in
      stop_if negb (bool_decide (classification verified = kClean)) with kCorruption;
      io_ret (set_repair verified true (observed_final_size incomplete)
                (pos_byte_offset (valid_end incomplete)))
  end.

Definition preflight_and_replay (d : WalDiscovery) (verified : WalRecoveryReport)
    (sink : WalReplaySink St) (checkpoint : option WalReplayCheckpoint)
  : IO (W * St) WalRecoveryReport :=
  let* preflight := scan_discovered_wal kPreflight (Some sink) checkpoint d in
  do* io_check (require_same_verified_history verified preflight);
  let* replay := scan_discovered_wal kReplay (Some sink) checkpoint d in
  do* io_check (require_same_verified_history verified replay);
  io_ret replay.

(** The removal loop: a name that is already gone is not an error. *)
Fixpoint remove_temporaries (names : list FileName) (removed : Z) : IO W Z :=
  match names with
  | [] => io_ret removed
  | name :: rest => fun w =>
      match remove_file name w with
      | (Ok _, w') => remove_temporaries rest (removed + 1) w'
      | (Err s, w') =>
          if bool_decide (s = kNotFound) then remove_temporaries rest removed w'
          else (make_unexpected s, w')
      end
  end.
Definition cleanup_temporary_files (d : WalDiscovery) : IO W Z :=
  let* removed := remove_temporaries (temporary_file_names d) 0 in
  do* (if negb (removed =? 0) then directory_sync else io_ret tt);
  io_ret removed.

Definition inspect_wal (directory_path : list byte) (sink : WalReplaySink St)
  : IO (W * St) WalRecoveryReport :=
  let* d := lift_io (open_locked_wal_directory directory_path 384 false) in
  let* verified := scan_discovered_wal kVerify None None d in
  if bool_decide (classification verified = kIncompleteFinalTail) then io_ret verified
  else preflight_and_replay d verified sink None.

(** Opening and locking, with the discovery the checkpoint leaves. *)
Definition open_for_recovery (c : WalWriterConfig) (checkpoint : option WalReplayCheckpoint)
  : IO W WalDiscovery :=
  match checkpoint with
  | None => open_locked_wal_directory (directory_path c) (config_file_permissions c) true
  | Some k =>
      do* io_check (validate_replay_checkpoint k);
      let* d := open_locked_wal_directory_for_checkpoint (directory_path c)
                  (config_file_permissions c) true in
      prepare_discovery_for_checkpoint d k
  end.

(** The last segment becomes the active one. *)
Definition open_active (d : WalDiscovery) (report : WalRecoveryReport) : IO W (WalSegment * PosixFile) :=
  match last (segments d) with
  | None => io_fail kInternal
  | Some final =>
      let* file := open_regular_file (disc_file_name final) kReadWrite in
      let* size := file_size file in
      stop_if negb (size =? pos_byte_offset (valid_end report)) with kCorruption;
      let* header := recheck_header file final report in
      do* sync_all file;
      do* directory_sync;
      io_ret ({| segment_file_name := disc_file_name final; segment_header := header;
                 end_offset := pos_byte_offset (valid_end report) |}, file)
  end.

Definition recover_existing_for_writer (c : WalWriterConfig) (options : WalRecoveryOptions)
    (sink : WalReplaySink St) (checkpoint : option WalReplayCheckpoint)
  : IO (W * St) RecoveredWalState :=
  do* io_check (validate_writer_config c);
  let* d := lift_io (open_for_recovery c checkpoint) in
  let* report := scan_discovered_wal kVerify None checkpoint d in
  let* report :=
    (if bool_decide (classification report = kIncompleteFinalTail) then
       stop_if negb (repair_incomplete_final_tail options) with kOutOfRange;
       repair_tail d report checkpoint
     else io_ret report) in
  let* removed := lift_io (cleanup_temporary_files d) in
  let* replayed := preflight_and_replay d report sink checkpoint in
  let* final_verification := scan_discovered_wal kVerify None checkpoint d in
  do* io_check (require_same_verified_history replayed final_verification);
  let final_verification := set_temporaries_removed (set_repair final_verification
    (repaired report) (repair_original_size report) (repair_new_size report)) removed in
  let* (metadata, file) := lift_io (open_active d final_verification) in
  io_ret {| recovered_report := final_verification; recovered_segment := metadata;
            recovered_file := file |}.

(** Recovery without a writer: every handle is closed and the first error of the
    closings is reported. *)
Definition recover_wal_with (c : WalWriterConfig) (options : WalRecoveryOptions)
    (sink : WalReplaySink St) (checkpoint : option WalReplayCheckpoint)
  : IO (W * St) WalRecoveryReport :=
  let* recovered := recover_existing_for_writer c options sink checkpoint in
  fun ws =>
  let (r1, w1) := close_file (recovered_file recovered) ws.1 in
  let (r2, w2) := close_lock w1 in
  let (r3, w3) := close_directory w2 in
  let preserve first r := if is_ok first then status_of r else first in
  let first_error := preserve (preserve (status_of r1) r2) r3 in
  (if is_ok first_error then Ok (recovered_report recovered) else make_unexpected first_error,
   (w3, ws.2)).

(** [open_existing_with] and [from_recovered_state]. *)
Definition open_existing_with (c : WalWriterConfig) (options : WalRecoveryOptions)
    (sink : WalReplaySink St) (checkpoint : option WalReplayCheckpoint) : IO (W * St) WalWriter.Impl :=
  let* recovered := recover_existing_for_writer c options sink checkpoint in
  io_ret (recovered_impl (recovered_segment recovered) (recovered_file recovered) c
            (recovered_report recovered)).
End recovery.
