(* ===== verification/WalRecoveryTheorems.v ===== *)
(** Reopening a log: recovery of a readable log on files that do not fail returns
    a writer that describes it, after the records were preflighted and replayed
    in order; a torn tail is only cut when the caller authorized it. *)
From S2P Require Import Prelude Bytes Crc32c WalCodec PosixIo DiskFacts WalPaths WalScan WalHistory.
From S2P Require Import WalDiscovery WalSound WalScanTheorems WalWriter WalWriterFacts.
From S2P Require Import WalWriterFailure WalWriterTheorems WalRecovery.

#[local] Opaque segment_header_bytes frame.

(** * Disks *)

(** Every name is bound to a file, and no file has two names. *)
Record disk_wf (d : Disk) : Prop := {
  dw_bound : disk_ok d;
  dw_names : names_differ (d_names d) }.

(** The closed segments were synchronised before the next one was installed. *)
Definition closed_synced (d : Disk) (sgs : list Segment) : Prop :=
  forall j sg, sgs !! j = Some sg -> exists f,
    d_names d !! segment_name (Z.of_nat j + 1) = Some (kRegularFile, f) /\
    d_synced d !! f = Some (segment_bytes sg).

(** What recovery knows of the disk before and after each of its steps. *)
Record recoverable (d : Disk) (id : WalId) (sgs : list Segment) (lg : Segment) (tail : list byte)
    (f : PosixFile) : Prop := {
  rc_wf : disk_wf d;
  rc_log : log_on_disk d id (sgs ++ [lg]) tail;
  rc_closed : closed_synced d sgs;
  rc_last : d_names d !! segment_name (Z.of_nat (length sgs) + 1) = Some (kRegularFile, f) }.

Lemma recoverable_data d id sgs lg tail f :
  recoverable d id sgs lg tail f -> d_data d !! f = Some (segment_bytes lg ++ tail).
Proof.
  intros [_ Hlog _ Hn]. pose proof (ld_files _ _ _ _ Hlog) as Hod.
  rewrite contents_snoc, on_disk_app in Hod. destruct Hod as [_ [(g & Hg & Hd) _]].
  rewrite length_fmap, Z.add_comm, Hn in Hg. by injection Hg as <-.
Qed.

Lemma recoverable_segment d id sgs lg tail f :
  recoverable d id sgs lg tail f ->
  segment_ok id (Z.of_nat (length sgs) + 1) (1 + Z.of_nat (length (all_records sgs))) lg.
Proof.
  intros [_ Hlog _ _]. pose proof (ld_history _ _ _ _ Hlog) as H.
  apply history_snoc in H as (_ & _ & H). by rewrite Z.add_comm.
Qed.

(** The files of a log stay those of a log when names of temporary files go, and
    the last file changes. *)
Lemma recoverable_step d d' id sgs lg tail tail' f :
  recoverable d id sgs lg tail f ->
  (forall name, is_temporary_segment_name name = false -> d_names d' !! name = d_names d !! name) ->
  (forall name e, d_names d' !! name = Some e -> d_names d !! name = Some e) ->
  (forall g, g <> f -> d_data d' !! g = d_data d !! g /\ d_synced d' !! g = d_synced d !! g) ->
  d_data d' !! f = Some (segment_bytes lg ++ tail') ->
  (tail' = tail \/ tail' = []) ->
  recoverable d' id sgs lg tail' f.
Proof.
  intros Hrc Hn Hn' Hg Hf Ht. pose proof (recoverable_data _ _ _ _ _ _ Hrc) as Hold.
  destruct Hrc as [[Hb Hinj] Hlog Hcl Hlast].
  assert (Hseg : forall j, d_names d' !! segment_name j = d_names d !! segment_name j).
  { intros j. apply Hn. destruct (is_temporary_segment_name _) eqn:E; [|done].
    apply temporary_starts, dot_not_wal in E. by rewrite segment_name_starts in E. }
  assert (Hother : forall j g, 1 <= j <= Z.of_nat (length sgs) ->
    d_names d !! segment_name j = Some (kRegularFile, g) -> g <> f).
  { intros j g Hj Hx ->. pose proof (Hinj _ _ _ _ Hx Hlast eq_refl) as E.
    pose proof (wd_range _ _ _ (ld_directory _ _ _ _ Hlog)) as Hr. rewrite length_app in Hr. cbn in Hr.
    apply segment_name_inj in E; unfold segment_number_ok; lia. }
  split.
  - split.
    + intros name e He. destruct (decide (e.2 = f)) as [->|Hne]; [rewrite Hf; by eexists|].
      destruct (Hg _ Hne) as [-> _]. by eapply Hb, Hn'.
    + intros n1 n2 e1 e2 H1 H2. by apply Hinj; apply Hn'.
  - destruct Hlog as [Hdir Hne Hh Hod Hsz Htorn Hrec Hby]. apply make_log; try done.
    + destruct Hdir as [Hl Hr Hs Ho]. split; [|done| |].
      * rewrite Hn by reflexivity. done.
      * intros j Hj. rewrite Hseg. by apply Hs.
      * intros name e He. by apply Ho, Hn'.
    + rewrite contents_snoc, on_disk_app in *. destruct Hod as [Hod _]. split.
      * eapply on_disk_mono; [|exact Hod]. rewrite length_fmap. intros j g bs Hj Hx Hd.
        rewrite Hseg. split; [done|]. destruct (Hg g) as [-> _]; [|done].
        eapply Hother; [|exact Hx]. lia.
      * split; [|done]. exists f. rewrite length_fmap, Hseg, Z.add_comm. done.
    + destruct Ht as [->| ->]; [done|by left].
    + rewrite contents_snoc in Hsz. apply Forall_app in Hsz as [_ Hsz]. rewrite Forall_singleton in Hsz.
      destruct Ht as [->| ->]; [exact Hsz|]. rewrite length_app in Hsz. rewrite app_nil_r. lia.
    + destruct Ht as [->| ->]; [done|]. rewrite total_bytes_snoc in Hby. lia.
  - intros j sg Hj. destruct (Hcl j sg Hj) as (g & Hx & Hs). exists g. rewrite Hseg. split; [done|].
    destruct (Hg g) as [_ ->]; [|done]. eapply Hother; [|exact Hx]. apply lookup_lt_Some in Hj. lia.
  - by rewrite Hseg.
Qed.

Lemma last_discovered sgs lg n :
  last (discovered_from n (sgs ++ [lg])) = Some (discovered_at (n + Z.of_nat (length sgs))).
Proof.
  revert n. induction sgs as [|sg sgs IH]; intros n; cbn [app discovered_from length].
  - cbn. by rewrite Z.add_0_r.
  - rewrite last_cons, IH. do 2 f_equal. lia.
Qed.

Lemma last_segment_snoc sgs lg : last_segment (sgs ++ [lg]) = lg.
Proof. unfold last_segment. by rewrite last_snoc. Qed.

(** * The steps of recovery *)

Section steps.
Context {W St : Type} {HIO : PosixIo W} {HL : PosixLaws W}.
Context (id : WalId) (sgs : list Segment) (lg : Segment) (f : PosixFile).
Let final := discovered_at (Z.of_nat (length sgs) + 1).

Lemma recheck_header_ok (w : W) tail report :
  reliable w -> recoverable (disk w) id sgs lg tail f -> rep_wal_id report = id ->
  exists w', recheck_header f final report w = (Ok (sg_header lg), w') /\ disk w' = disk w /\ reliable w'.
Proof.
  intros Hr Hrc Hid. pose proof (recoverable_data _ _ _ _ _ _ Hrc) as Hd.
  pose proof (recoverable_segment _ _ _ _ _ _ Hrc) as (Hwf & Hsid & Hsn & _).
  pose proof (length_segment_header_bytes _ (shw_id _ Hwf)) as Hhl.
  pose proof (ld_sizes _ _ _ _ (rc_log _ _ _ _ _ _ Hrc)) as Hsz. rewrite contents_snoc in Hsz.
  apply Forall_app in Hsz as [_ Hsz]. rewrite Forall_singleton in Hsz. unfold kSegmentSizeLimit in Hsz.
  unfold recheck_header, kSegmentHeaderSize. unfold segment_bytes in Hd, Hsz. rewrite <- app_assoc in Hd, Hsz.
  rewrite length_app in Hsz.
  destruct (read_file_exact_ok f 0 64 w _ Hr Hd) as (w' & E & D & R); [lia|lia|rewrite length_app; lia|
    rewrite length_app; lia|].
  rewrite (io_bind_step _ _ _ _ _ E).
  assert (Hh : subspan (segment_header_bytes (sg_header lg) ++ frames (sg_records lg) ++ tail) 0 64
    = segment_header_bytes (sg_header lg)).
  { pose proof (subspan_prefix [] (segment_header_bytes (sg_header lg)) (frames (sg_records lg) ++ tail) 0 64) as Hs.
    cbn [app length] in Hs. rewrite Hs by (cbn; lia). apply take_ge. lia. }
  rewrite Hh. unfold io_bind at 1, io_pure at 1.
  pose proof (decode_segment_header_complete (sg_header lg) [] Hwf) as Hdec. rewrite app_nil_r in Hdec.
  rewrite Hdec, Hid, Hsid, Hsn. rewrite bool_decide_eq_true_2 by done.
  cbn [final discovered_at disc_number]. rewrite Z.eqb_refl. cbn [negb orb]. eauto.
Qed.

Lemma open_last_ok (w : W) tail mode :
  reliable w -> recoverable (disk w) id sgs lg tail f ->
  exists w1 w2, open_regular_file (disc_file_name final) mode w = (Ok f, w1) /\
    file_size f w1 = (Ok (blen (segment_bytes lg ++ tail)), w2) /\ disk w2 = disk w /\ reliable w2.
Proof.
  intros Hr Hrc. pose proof (recoverable_data _ _ _ _ _ _ Hrc) as Hd.
  destruct (implements_enabled _ _ _ _ _ _ w (law_open (disc_file_name final) mode) Hr)
    as (f' & w1 & E1 & [D1 Hf'] & R1); [exists f; apply (rc_last _ _ _ _ _ _ Hrc)|].
  cbn [final discovered_at disc_file_name] in Hf'. rewrite (rc_last _ _ _ _ _ _ Hrc) in Hf'. injection Hf' as <-.
  destruct (implements_enabled _ _ _ _ _ _ w1 (law_size f) R1)
    as (sz & w2 & E2 & [D2 (data' & Hd' & ->)] & R2); [rewrite D1, Hd; eauto|].
  rewrite D1, Hd in Hd'. injection Hd' as <-. exists w1, w2. by rewrite D2, D1.
Qed.

Lemma cut_tail_ok (w : W) tail temps :
  reliable w -> recoverable (disk w) id sgs lg tail f ->
  exists w', cut_tail final (history_report id (sgs ++ [lg]) temps tail) w = (Ok tt, w') /\
    reliable w' /\ recoverable (disk w') id sgs lg [] f /\ d_names (disk w') = d_names (disk w).
Proof.
  intros Hr Hrc. destruct (open_last_ok w tail kReadWrite Hr Hrc) as (w1 & w2 & E1 & E2 & D2 & R2).
  unfold cut_tail. rewrite (io_bind_step _ _ _ _ _ E1), (io_bind_step _ _ _ _ _ E2).
  cbn [history_report observed_final_size valid_end pos_byte_offset].
  rewrite last_segment_snoc, Z.eqb_refl. cbn [negb].
  assert (Hrc2 : recoverable (disk w2) id sgs lg tail f) by by rewrite D2.
  destruct (recheck_header_ok w2 tail (history_report id (sgs ++ [lg]) temps tail) R2 Hrc2 eq_refl)
    as (w3 & E3 & D3 & R3).
  rewrite (io_bind_step _ _ _ _ _ E3).
  pose proof (recoverable_data _ _ _ _ _ _ Hrc) as Hd.
  destruct (implements_enabled _ _ _ _ _ _ w3 (law_truncate f (blen (segment_bytes lg))) R3)
    as (u4 & w4 & E4 & D4 & R4).
  { rewrite D3, D2. eexists. split; [exact Hd|]. rewrite length_app. lia. }
  rewrite (io_bind_step _ _ _ _ _ E4).
  assert (Hd4 : d_data (disk w4) !! f = Some (segment_bytes lg)).
  { rewrite D4, D3, D2. cbn [truncate_disk d_data]. rewrite lookup_alter_eq, Hd. cbn.
    by rewrite Nat2Z.id, take_app_length. }
  destruct (implements_enabled _ _ _ _ _ _ w4 (law_sync_all f) R4) as (u5 & w5 & E5 & D5 & R5);
    [rewrite Hd4; by eexists|].
  rewrite (io_bind_step _ _ _ _ _ E5).
  destruct (implements_enabled _ _ _ _ _ _ w5 law_directory_sync R5 I) as ([] & w6 & E6 & D6 & R6).
  exists w6. split; [exact E6|]. split; [exact R6|]. split; [|by rewrite D6, D5, D4, D3, D2].
  eapply (recoverable_step (disk w)); [exact Hrc| | | | |by right].
  - intros name _. by rewrite D6, D5, D4, D3, D2.
  - intros name e. by rewrite D6, D5, D4, D3, D2.
  - intros g Hg. rewrite D6, D5. cbn [sync_names d_data d_synced]. unfold sync_disk. rewrite Hd4. cbn [d_data d_synced].
    rewrite lookup_insert_ne by done. rewrite D4, D3, D2. cbn [truncate_disk d_data d_synced].
    by rewrite lookup_alter_ne.
  - rewrite D6, D5. cbn [sync_names sync_disk d_data]. by rewrite app_nil_r.
Qed.

(** The names [names] are gone and nothing else has changed. *)
Definition removed_names (names : list FileName) (d d' : Disk) : Prop :=
  (forall x, d_names d' !! x = if decide (x ∈ names) then None else d_names d !! x) /\
  d_data d' = d_data d /\ d_synced d' = d_synced d.

Lemma remove_temporaries_ok names : forall (w : W) removed,
  reliable w -> NoDup names ->
  (forall t, t ∈ names -> exists g, d_names (disk w) !! t = Some (kRegularFile, g)) ->
  exists w', remove_temporaries names removed w = (Ok (removed + Z.of_nat (length names)), w') /\
    reliable w' /\ removed_names names (disk w) (disk w').
Proof.
  induction names as [|name names IH]; intros w removed Hr Hnd Hreg; cbn [remove_temporaries].
  - exists w. unfold io_ret. rewrite Z.add_0_r. split; [done|]. split; [done|]. split; [|done].
    intros x. destruct (decide (x ∈ [])) as [H|]; [by apply elem_of_nil in H|done].
  - apply NoDup_cons in Hnd as [Hne Hnd].
    destruct (implements_enabled _ _ _ _ _ _ w (law_remove name) Hr) as (u & w1 & E & [_ D] & R);
      [apply Hreg; by left|]. rewrite E.
    destruct (IH w1 (removed + 1) R Hnd) as (w' & E' & R' & Hn & Hd & Hs).
    { intros t Ht. destruct (Hreg t) as [g Hg]; [by right|]. exists g. rewrite D. cbn [set_names d_names].
      rewrite lookup_delete_ne; [done|]. intros ->. done. }
    exists w'. split; [rewrite E'; f_equal; f_equal; cbn [length]; lia|]. split; [done|].
    split; [|by rewrite Hd, Hs, D]. intros x. rewrite Hn, D. cbn [set_names d_names].
    destruct (decide (x ∈ names)) as [Hx|Hx], (decide (x ∈ name :: names)) as [Hy|Hy]; try done.
    + exfalso. apply Hy. by right.
    + apply elem_of_cons in Hy as [->|]; [apply lookup_delete_eq|done].
    + rewrite lookup_delete_ne; [done|]. intros ->. apply Hy. by left.
Qed.

Lemma cleanup_ok (w : W) temps ds :
  reliable w -> recoverable (disk w) id sgs lg [] f -> NoDup temps ->
  (forall t, t ∈ temps <-> is_Some (d_names (disk w) !! t) /\ is_temporary_segment_name t = true) ->
  exists w', cleanup_temporary_files {| segments := ds; temporary_file_names := temps |} w =
      (Ok (Z.of_nat (length temps)), w') /\
    reliable w' /\ recoverable (disk w') id sgs lg [] f /\ no_temporary w'.
Proof.
  intros Hr Hrc Hnd Ht. unfold cleanup_temporary_files. cbn [temporary_file_names].
  destruct (remove_temporaries_ok temps w 0 Hr Hnd) as (w1 & E1 & R1 & Hn & Hd & Hs).
  { intros t Hin. apply Ht in Hin as [[[ty g] Hg] _]. exists g.
    by destruct (wd_only _ _ _ (ld_directory _ _ _ _ (rc_log _ _ _ _ _ _ Hrc)) _ _ Hg) as [[= ->] _]. }
  rewrite (io_bind_step _ _ _ _ _ E1), Z.add_0_l.
  assert (Hsync : exists w2, (if negb (Z.of_nat (length temps) =? 0) then directory_sync else io_ret tt) w1 =
    (Ok tt, w2) /\ reliable w2 /\ d_names (disk w2) = d_names (disk w1) /\
    d_data (disk w2) = d_data (disk w1) /\ d_synced (disk w2) = d_synced (disk w1)).
  { destruct (negb _); [|by exists w1].
    destruct (implements_enabled _ _ _ _ _ _ w1 law_directory_sync R1 I) as ([] & w2 & E2 & D2 & R2).
    exists w2. rewrite D2. done. }
  destruct Hsync as (w2 & E2 & R2 & N2 & D2 & S2). rewrite (io_bind_step _ _ _ _ _ E2).
  assert (Hback : forall name e, d_names (disk w2) !! name = Some e ->
    d_names (disk w) !! name = Some e /\ name ∉ temps).
  { intros name e. rewrite N2, Hn. by destruct (decide (name ∈ temps)). }
  exists w2. split; [done|]. split; [done|]. split.
  - eapply (recoverable_step (disk w)); [exact Hrc| | | | |by left].
    + intros name Hname. rewrite N2, Hn. destruct (decide (name ∈ temps)) as [Hin|]; [|done].
      apply Ht in Hin as [_ Hin]. congruence.
    + intros name e He. by apply Hback in He as [? _].
    + intros g _. by rewrite D2, S2, Hd, Hs.
    + rewrite D2, Hd. apply (recoverable_data _ _ _ _ _ _ Hrc).
  - intros name e He. apply Hback in He as [He Hni].
    destruct (is_temporary_segment_name name) eqn:E; [|done]. exfalso. apply Hni, Ht. split; [by eexists|done].
Qed.
End steps.

(** * Recovery as a whole *)

(** The report of a recovery that found [temps] and cut off [tail]. *)
Definition recovery_report (id : WalId) (all : list Segment) (temps : list FileName) (tail : list byte)
  : WalRecoveryReport :=
  let torn := negb (bool_decide (tail = [])) in
  let size := blen (segment_bytes (last_segment all)) in
  set_temporaries_removed (set_repair (history_report id all temps []) torn
    (if torn then size + blen tail else 0) (if torn then size else 0)) (Z.of_nat (length temps)).

Lemma same_history_repaired id all temps rep a b :
  require_same_verified_history (set_repair (history_report id all temps []) rep a b)
    (history_report id all temps []) = kOk.
Proof.
  unfold require_same_verified_history.
  cbn [set_repair history_report classification rep_wal_id segment_count temporary_file_count record_count
    physical_bytes valid_end last_record_sequence sequence_exhausted].
  rewrite !bool_decide_eq_true_2, !Z.eqb_refl by done. done.
Qed.

Lemma same_history id all temps :
  require_same_verified_history (history_report id all temps []) (history_report id all temps []) = kOk.
Proof. exact (same_history_repaired id all temps false 0 0). Qed.

Section recovering.
Context {W St : Type} {HIO : PosixIo W} {HL : PosixLaws W}.
Context (id : WalId) (sgs : list Segment) (lg : Segment) (f : PosixFile).
Let all := sgs ++ [lg].

Lemma lift_step {A B} (c : IO W A) (k : A -> IO (W * St) B) (w : W) s a w1 :
  c w = (Ok a, w1) -> io_bind (lift_io c) k (w, s) = k a (w1, s).
Proof. intros E. apply io_bind_step. unfold lift_io. cbn [fst snd]. by rewrite E. Qed.

Lemma check_ok_step {B} (k : unit -> IO (W * St) B) ws : io_bind (io_check kOk) k ws = k tt ws.
Proof. by apply io_bind_step. Qed.

Lemma scan_recoverable pass (sink : option (WalReplaySink St)) tail temps (w : W) s s' :
  reliable w -> recoverable (disk w) id sgs lg tail f -> (pass = kVerify \/ is_Some sink) ->
  deliver_all pass sink None (replay_history id 1 all) s = Some s' ->
  exists w', scan_discovered_wal pass sink None
      {| segments := discovered_from 1 all; temporary_file_names := temps |} (w, s) =
      (Ok (history_report id all temps tail), (w', s')) /\ reliable w' /\ disk w' = disk w.
Proof.
  intros Hr Hrc Hp Hd.
  destruct (scan_discovered_ok pass sink id all tail temps w s s' Hr (rc_log _ _ _ _ _ _ Hrc) Hp Hd)
    as (w' & D & R & E). eauto.
Qed.

Lemma verify_silent rs (s : St) : deliver_all kVerify None None rs s = Some s.
Proof. by induction rs. Qed.

Lemma preflight_and_replay_ok (sink : WalReplaySink St) temps (w : W) s s1 s2 rep a b :
  reliable w -> recoverable (disk w) id sgs lg [] f ->
  deliver_all kPreflight (Some sink) None (replay_history id 1 all) s = Some s1 ->
  deliver_all kReplay (Some sink) None (replay_history id 1 all) s1 = Some s2 ->
  exists w', preflight_and_replay {| segments := discovered_from 1 all; temporary_file_names := temps |}
      (set_repair (history_report id all temps []) rep a b) sink None (w, s) =
      (Ok (history_report id all temps []), (w', s2)) /\ reliable w' /\ disk w' = disk w.
Proof.
  intros Hr Hrc H1 H2. unfold preflight_and_replay.
  destruct (scan_recoverable kPreflight (Some sink) [] temps w s s1 Hr Hrc) as (w1 & E1 & R1 & D1); [right; eauto|done|].
  rewrite (io_bind_step _ _ _ _ _ E1), same_history_repaired, check_ok_step.
  destruct (scan_recoverable kReplay (Some sink) [] temps w1 s1 s2 R1) as (w2 & E2 & R2 & D2);
    [by rewrite D1|right; eauto|done|].
  rewrite (io_bind_step _ _ _ _ _ E2), same_history_repaired, check_ok_step.
  exists w2. split; [done|]. split; [done|]. congruence.
Qed.

Lemma repair_tail_ok tail temps (w : W) (s : St) :
  reliable w -> recoverable (disk w) id sgs lg tail f -> tail <> [] ->
  exists w', repair_tail {| segments := discovered_from 1 all; temporary_file_names := temps |}
      (history_report id all temps tail) None (w, s) =
      (Ok (set_repair (history_report id all temps []) true
             (blen (segment_bytes lg) + blen tail) (blen (segment_bytes lg))), (w', s)) /\
    reliable w' /\ recoverable (disk w') id sgs lg [] f /\ d_names (disk w') = d_names (disk w).
Proof.
  intros Hr Hrc Ht. unfold repair_tail. cbn [segments]. unfold all. rewrite last_discovered, Z.add_comm.
  cbn [history_report classification valid_end observed_final_size pos_segment_number pos_byte_offset
    discovered_at disc_number].
  rewrite (bool_decide_eq_false_2 (tail = [])) by done.
  rewrite (bool_decide_eq_true_2 (kIncompleteFinalTail = kIncompleteFinalTail)) by done.
  rewrite last_segment_snoc, length_app.
  replace (Z.of_nat (length sgs + length [lg]) =? Z.of_nat (length sgs) + 1) with true
    by (symmetry; apply Z.eqb_eq; cbn; lia).
  rewrite length_app. rewrite Z.geb_leb.
  destruct (Z.leb_spec (Z.of_nat (length (segment_bytes lg) + length tail)) (blen (segment_bytes lg))) as [Hle|_].
  { destruct tail; [done|]. cbn [length] in Hle. lia. }
  cbn [negb orb].
  destruct (cut_tail_ok id sgs lg f w tail temps Hr Hrc) as (w1 & E1 & R1 & Hrc1 & N1).
  rewrite (lift_step _ _ _ _ _ _ E1).
  destruct (scan_recoverable kVerify None [] temps w1 s s R1 Hrc1) as (w2 & E2 & R2 & D2);
    [by left|apply verify_silent|].
  rewrite (io_bind_step _ _ _ _ _ E2). cbn [history_report classification].
  rewrite !bool_decide_eq_true_2 by done. cbn [negb].
  exists w2. split; [by rewrite Nat2Z.inj_add|]. split; [done|]. rewrite D2. done.
Qed.

Lemma open_active_ok temps report (w : W) :
  reliable w -> recoverable (disk w) id sgs lg [] f -> rep_wal_id report = id ->
  pos_byte_offset (valid_end report) = blen (segment_bytes lg) ->
  exists w', open_active {| segments := discovered_from 1 all; temporary_file_names := temps |} report w =
      (Ok ({| segment_file_name := segment_name (Z.of_nat (length sgs) + 1); segment_header := sg_header lg;
              end_offset := blen (segment_bytes lg) |}, f), w') /\
    reliable w' /\ disk w' = sync_names (sync_disk f (disk w)).
Proof.
  intros Hr Hrc Hid Hend. unfold open_active. cbn [segments]. unfold all. rewrite last_discovered, Z.add_comm.
  destruct (open_last_ok id sgs lg f w [] kReadWrite Hr Hrc) as (w1 & w2 & E1 & E2 & D2 & R2).
  rewrite (io_bind_step _ _ _ _ _ E1), (io_bind_step _ _ _ _ _ E2), Hend, app_nil_r, Z.eqb_refl. cbn [negb].
  destruct (recheck_header_ok id sgs lg f w2 [] report R2) as (w3 & E3 & D3 & R3); [by rewrite D2|done|].
  rewrite (io_bind_step _ _ _ _ _ E3).
  destruct (implements_enabled _ _ _ _ _ _ w3 (law_sync_all f) R3) as (u4 & w4 & E4 & D4 & R4).
  { rewrite D3, D2, (recoverable_data _ _ _ _ _ _ Hrc). by eexists. }
  rewrite (io_bind_step _ _ _ _ _ E4).
  destruct (implements_enabled _ _ _ _ _ _ w4 law_directory_sync R4 I) as ([] & w5 & E5 & D5 & R5).
  rewrite (io_bind_step _ _ _ _ _ E5). exists w5. split; [done|]. split; [done|].
  by rewrite D5, D4, D3, D2.
Qed.

Lemma verify_or_repair tail temps options (w : W) (s : St) :
  reliable w -> recoverable (disk w) id sgs lg tail f ->
  (tail = [] \/ repair_incomplete_final_tail options = true) ->
  let d := {| segments := discovered_from 1 all; temporary_file_names := temps |} in
  exists w' orig new,
    (if bool_decide (classification (history_report id all temps tail) = kIncompleteFinalTail) then
       stop_if negb (repair_incomplete_final_tail options) with kOutOfRange;
       repair_tail d (history_report id all temps tail) None
     else io_ret (history_report id all temps tail)) (w, s) =
      (Ok (set_repair (history_report id all temps []) (negb (bool_decide (tail = []))) orig new), (w', s)) /\
    orig = (if bool_decide (tail = []) then 0 else blen (segment_bytes lg) + blen tail) /\
    new = (if bool_decide (tail = []) then 0 else blen (segment_bytes lg)) /\
    reliable w' /\ recoverable (disk w') id sgs lg [] f /\ d_names (disk w') = d_names (disk w).
Proof.
  intros Hr Hrc Ho d. cbn [history_report classification]. destruct (decide (tail = [])) as [->|Ht].
  - rewrite (bool_decide_eq_true_2 (@nil byte = [])) by done.
    rewrite bool_decide_eq_false_2 by done. exists w, 0, 0. by split_and!.
  - destruct Ho as [|Ho]; [done|]. rewrite (bool_decide_eq_false_2 (tail = [])) by done.
    rewrite bool_decide_eq_true_2 by done. rewrite Ho. cbn [negb].
    destruct (repair_tail_ok tail temps w s Hr Hrc Ht) as (w' & E & R & Hrc' & N). eauto 10.
Qed.

Lemma recover_ok (c : WalWriterConfig) (options : WalRecoveryOptions) (sink : WalReplaySink St)
    tail (w : W) s s1 s2 :
  reliable w -> recoverable (disk w) id sgs lg tail f ->
  validate_writer_config c = kOk -> permissions_ok (config_file_permissions c) ->
  (tail = [] \/ repair_incomplete_final_tail options = true) ->
  deliver_all kPreflight (Some sink) None (replay_history id 1 all) s = Some s1 ->
  deliver_all kReplay (Some sink) None (replay_history id 1 all) s1 = Some s2 ->
  exists w' temps, recover_existing_for_writer c options sink None (w, s) =
      (Ok {| recovered_report := recovery_report id all temps tail;
             recovered_segment := {| segment_file_name := segment_name (Z.of_nat (length sgs) + 1);
               segment_header := sg_header lg; end_offset := blen (segment_bytes lg) |};
             recovered_file := f |}, (w', s2)) /\
    reliable w' /\ no_temporary w' /\ recoverable (disk w') id sgs lg [] f /\
    d_synced (disk w') !! f = Some (segment_bytes lg) /\ d_synced_names (disk w') = d_names (disk w').
Proof.
  intros Hr Hrc Hc Hp Ho H1 H2. unfold recover_existing_for_writer. rewrite Hc, check_ok_step.
  destruct (open_locked_ok id all tail (directory_path c) (config_file_permissions c) true w Hr
    (rc_log _ _ _ _ _ _ Hrc) ltac:(done)) as (w1 & temps & D1 & R1 & E1 & Hnd & Ht).
  rewrite (lift_step _ _ _ _ _ _ E1). rewrite <- D1 in Hrc, Ht.
  destruct (scan_recoverable kVerify None tail temps w1 s s R1 Hrc) as (w2 & E2 & R2 & D2);
    [by left|apply verify_silent|].
  rewrite (io_bind_step _ _ _ _ _ E2). rewrite <- D2 in Hrc, Ht.
  destruct (verify_or_repair tail temps options w2 s R2 Hrc Ho) as (w3 & orig & new & E3 & Horig & Hnew & R3 & Hrc3 & N3).
  rewrite (io_bind_step _ _ _ _ _ E3). rewrite <- N3 in Ht.
  destruct (cleanup_ok id sgs lg f w3 temps (discovered_from 1 all) R3 Hrc3 Hnd Ht) as (w4 & E4 & R4 & Hrc4 & Hnt).
  rewrite (lift_step _ _ _ _ _ _ E4).
  destruct (preflight_and_replay_ok sink temps w4 s s1 s2 (negb (bool_decide (tail = []))) orig new R4 Hrc4 H1 H2) as (w5 & E5 & R5 & D5).
  rewrite (io_bind_step _ _ _ _ _ E5). rewrite <- D5 in Hrc4.
  destruct (scan_recoverable kVerify None [] temps w5 s2 s2 R5 Hrc4) as (w6 & E6 & R6 & D6);
    [by left|apply verify_silent|].
  rewrite (io_bind_step _ _ _ _ _ E6). rewrite <- D6 in Hrc4.
  rewrite same_history, check_ok_step. cbv zeta.
  cbn [set_repair repaired repair_original_size repair_new_size].
  match goal with |- context [open_active _ ?rep] =>
    destruct (open_active_ok temps rep w6 R6 Hrc4) as (w7 & E7 & R7 & D7) end.
  { done. } { cbn. unfold all. by rewrite last_segment_snoc. }
  rewrite (lift_step _ _ _ _ _ _ E7). exists w7, temps.
  pose proof (recoverable_data _ _ _ _ _ _ Hrc4) as Hdata. rewrite app_nil_r in Hdata.
  split.
  { unfold io_ret, recovery_report. rewrite Horig, Hnew. unfold all. rewrite last_segment_snoc.
    by destruct (bool_decide (tail = [])). }
  split; [done|]. rewrite D7. unfold sync_disk. rewrite Hdata. split_and!.
  - intros name e He. rewrite D7 in He. apply (Hnt name e). rewrite <- D5, <- D6. exact He.
  - eapply (recoverable_step (disk w6)); [exact Hrc4|done|done| |by rewrite app_nil_r|by left].
    intros g Hg. cbn [sync_names d_data d_synced]. by rewrite lookup_insert_ne.
  - cbn [sync_names d_synced]. apply lookup_insert_eq.
  - done.
Qed.

(** The recovered writer describes the disk. *)
Lemma recovered_writer_ok (c : WalWriterConfig) temps tail d :
  recoverable d id sgs lg [] f -> d_synced d !! f = Some (segment_bytes lg) ->
  d_synced_names d = d_names d -> validate_writer_config c = kOk ->
  writer_ok d (recovered_impl {| segment_file_name := segment_name (Z.of_nat (length sgs) + 1);
      segment_header := sg_header lg; end_offset := blen (segment_bytes lg) |} f c
      (recovery_report id all temps tail)) sgs lg.
Proof.
  intros Hrc Hsyn Hnames Hc. pose proof (recoverable_segment _ _ _ _ _ _ Hrc) as Hseg.
  pose proof (segment_bytes_length _ _ _ _ Hseg) as Hlen.
  destruct Hseg as (Hwf & Hid & Hsn & _). destruct Hrc as [[Hb Hinj] Hlog Hcl Hlast].
  pose proof (ld_records _ _ _ _ Hlog) as Hrec.
  split; cbn [recovered_impl active_metadata active_file written_position durable_position next_record_sequence
    written_record_sequence durable_record_sequence sequence_exhausted_ maximum_application_payload
    target_segment_size recovery_report set_temporaries_removed set_repair history_report valid_end
    last_record_sequence sequence_exhausted]; unfold all; rewrite ?last_segment_snoc.
  - apply (ld_directory _ _ _ _ Hlog).
  - rewrite Hid. apply (ld_history _ _ _ _ Hlog).
  - apply (ld_files _ _ _ _ Hlog).
  - exact Hlast.
  - exact Hinj.
  - exact Hb.
  - done.
  - rewrite Hid, length_app. f_equal. cbn. lia.
  - done.
  - left. split; [done|]. split; [|done]. apply wrap_small. width_lia.
  - by apply validate_writer_config_inv.
  - exists (length (sg_records lg)). rewrite take_ge by lia. split; [lia|]. split_and!.
    + rewrite all_records_app, length_app. cbn. by rewrite app_nil_r.
    + rewrite Hid, length_app, Hlen. f_equal. cbn. lia.
    + exact Hsyn.
  - exact Hcl.
  - exact Hnames.
Qed.
End recovering.

(** A log on a well-formed disk is recoverable. *)
Lemma log_recoverable d id sgs lg tail :
  disk_wf d -> log_on_disk d id (sgs ++ [lg]) tail -> closed_synced d sgs ->
  exists f, recoverable d id sgs lg tail f.
Proof.
  intros Hwf Hlog Hcl. destruct (wd_segments _ _ _ (ld_directory _ _ _ _ Hlog) (Z.of_nat (length sgs) + 1))
    as [f Hf]; [rewrite length_app; cbn; lia|]. by exists f.
Qed.

(** What a crash leaves of a live writer's log is recoverable. *)
Lemma crash_recoverable d d' i sgs lg :
  writer_ok d i sgs lg -> crash d d' ->
  Z.of_nat (length (all_records (sgs ++ [lg]))) < max_u64 ->
  total_bytes (contents (sgs ++ [lg]) []) <= max_u64 ->
  exists j tail f, recoverable d' (seg_wal_id (sg_header lg)) sgs (cut_segment lg j) tail f /\
    (j <= length (sg_records lg))%nat /\
    durable_record_sequence i <= Z.of_nat (length (all_records sgs) + j).
Proof.
  intros Hok Hcr Hn Hb. destruct (crash_cut_log _ _ _ _ _ Hok Hcr Hn Hb) as (j & tail & Hlog & Hj & Hdur).
  pose proof (crash_same_names _ _ _ _ _ Hok Hcr) as En.
  destruct (log_recoverable d' (seg_wal_id (sg_header lg)) sgs (cut_segment lg j) tail) as [f Hf]; [|done| |by exists j, tail, f].
  - split; [|rewrite En; apply (wo_names_differ _ _ _ _ Hok)].
    intros name e He. rewrite En in He. destruct (wo_bound _ _ _ _ Hok _ _ He) as [bs Hbs].
    destruct (crash_data _ _ Hcr _ _ Hbs) as (m & Hm & _). rewrite Hm. by eexists.
  - intros k sg Hk. destruct (wo_closed _ _ _ _ Hok k sg Hk) as (g & Hg & Hs). exists g. rewrite En.
    split; [done|]. apply (crash_synced _ _ Hcr); [|done].
    pose proof (wo_files _ _ _ _ Hok) as Hod. rewrite contents_snoc, on_disk_app in Hod.
    destruct Hod as [Hod _]. rewrite on_disk_lookup in Hod.
    destruct (Hod k (segment_bytes sg)) as (g' & Hg' & Hd); [by rewrite list_lookup_fmap, Hk|].
    rewrite Z.add_comm, Hg in Hg'. by injection Hg' as <-.
Qed.

Lemma deliver_preflight_recording rs s :
  deliver_all kPreflight (Some recording_sink) None rs s = Some s.
Proof. induction rs as [|r rs IH]; [done|]. cbn. exact IH. Qed.

(** * Claims *)

(** Reopening a log: on files that do not fail, a log that lies on disk as a
    history, with or without a torn tail that the caller allows to be cut, is
    recovered into a writer.  The sink has preflighted every record before the
    first is replayed, and both in order; the torn tail and the leftover temporary
    files are gone; and the writer describes the disk, with every record durable,
    so that appending continues where the history ends. *)
Theorem reopen_restores_writer {W St : Type} {HIO : PosixIo W} {HL : PosixLaws W}
    (c : WalWriterConfig) (options : WalRecoveryOptions) (sink : WalReplaySink St)
    (id : WalId) (sgs : list Segment) (lg : Segment) (tail : list byte) (w : W) (s s1 s2 : St)
    (Hr : reliable w) (Hwf : disk_wf (disk w)) (Hlog : log_on_disk (disk w) id (sgs ++ [lg]) tail)
    (Hcl : closed_synced (disk w) sgs) (Hc : validate_writer_config c = kOk)
    (Hp : permissions_ok (config_file_permissions c))
    (Ho : tail = [] \/ repair_incomplete_final_tail options = true)
    (Hpre : deliver_all kPreflight (Some sink) None (replay_history id 1 (sgs ++ [lg])) s = Some s1)
    (Hrep : deliver_all kReplay (Some sink) None (replay_history id 1 (sgs ++ [lg])) s1 = Some s2) :
  exists i w', open_existing_with c options sink None (w, s) = (Ok i, (w', s2)) /\
    writer_ok (disk w') i sgs lg /\ failure i = kOk /\ no_temporary w' /\
    durable_record_sequence i = Z.of_nat (length (all_records (sgs ++ [lg]))).
Proof.
  destruct (log_recoverable _ _ _ _ _ Hwf Hlog Hcl) as [f Hrc].
  destruct (recover_ok id sgs lg f c options sink tail w s s1 s2 Hr Hrc Hc Hp Ho Hpre Hrep)
    as (w' & temps & E & R & Hnt & Hrc' & Hsyn & Hnames).
  eexists _, w'. unfold open_existing_with. rewrite (io_bind_step _ _ _ _ _ E). split; [reflexivity|].
  split; [by apply recovered_writer_ok|]. by split_and!.
Qed.

(** What a crash leaves of a live writer's log is reopened. *)
Lemma reopen_after_crash {W : Type} {HIO : PosixIo W} {HL : PosixLaws W}
    (c : WalWriterConfig) (d : Disk) (i : WalWriter.Impl) (sgs : list Segment) (lg : Segment) (w : W)
    (Hok : writer_ok d i sgs lg)
    (Hn : Z.of_nat (length (all_records (sgs ++ [lg]))) < max_u64)
    (Hb : total_bytes (contents (sgs ++ [lg]) []) <= max_u64)
    (Hcrash : crash d (disk w)) (Hr : reliable w) (Hc : validate_writer_config c = kOk)
    (Hp : permissions_ok (config_file_permissions c)) :
  exists n lg' i' w' replayed,
    open_existing_with c {| repair_incomplete_final_tail := true |} recording_sink None (w, []) =
      (Ok i', (w', replayed)) /\
    writer_ok (disk w') i' sgs lg' /\ failure i' = kOk /\
    durable_record_sequence i <= Z.of_nat n <= written_record_sequence i /\
    all_records (sgs ++ [lg']) = take n (all_records (sgs ++ [lg])) /\
    replay_payload <$> replayed = take n ((all_records (sgs ++ [lg])).*2).
Proof.
  destruct (crash_recoverable _ _ _ _ _ Hok Hcrash Hn Hb) as (j & tail & f & Hrc & Hj & Hdur).
  destruct (cut_records sgs lg j Hj) as [Hrec Hle].
  destruct (recover_ok _ _ _ _ c {| repair_incomplete_final_tail := true |} recording_sink tail w [] []
    (replay_history (seg_wal_id (sg_header lg)) 1 (sgs ++ [cut_segment lg j])) Hr Hrc Hc Hp)
    as (w' & temps & E & R & _ & Hrc' & Hsyn & Hnames);
    [by right|apply deliver_preflight_recording|apply deliver_recording|].
  exists (length (all_records sgs) + j)%nat, (cut_segment lg j). eexists _, w', _. unfold open_existing_with.
  rewrite (io_bind_step _ _ _ _ _ E). split; [reflexivity|]. split; [by apply recovered_writer_ok|].
  split; [done|]. rewrite (wo_sequence _ _ _ _ Hok). split; [lia|]. split; [exact Hrec|].
  by rewrite replay_payloads, Hrec, fmap_take.
Qed.

(** C1.  The life cycle of a log: what a crash leaves of a live writer's log is
    reopened into a writer that describes exactly the first [n] records, where [n]
    covers every record that was reported durable; the replay has delivered the
    payloads of those records in order. *)
Theorem crash_then_reopen {W : Type} {HIO : PosixIo W} {HL : PosixLaws W}
    (c : WalWriterConfig) (d : Disk) (i : WalWriter.Impl) (sgs : list Segment) (lg : Segment) (w : W)
    (Hok : writer_ok d i sgs lg)
    (Hn : Z.of_nat (length (all_records (sgs ++ [lg]))) < max_u64)
    (Hb : total_bytes (contents (sgs ++ [lg]) []) <= max_u64)
    (Hcrash : crash d (disk w)) (Hr : reliable w) (Hc : validate_writer_config c = kOk)
    (Hp : permissions_ok (config_file_permissions c)) :
  exists n lg' i' w' replayed,
    open_existing_with c {| repair_incomplete_final_tail := true |} recording_sink None (w, []) =
      (Ok i', (w', replayed)) /\
    writer_ok (disk w') i' sgs lg' /\ failure i' = kOk /\
    durable_record_sequence i <= Z.of_nat n <= written_record_sequence i /\
    all_records (sgs ++ [lg']) = take n (all_records (sgs ++ [lg])) /\
    replay_payload <$> replayed = take n ((all_records (sgs ++ [lg])).*2).
Proof. by apply (reopen_after_crash c d). Qed.

(**  A torn tail is not touched without authorization: recovery then reports
    it and leaves the disk, and the sink has not been called. *)
Theorem torn_tail_refused {W St : Type} {HIO : PosixIo W} {HL : PosixLaws W}
    (c : WalWriterConfig) (sink : WalReplaySink St) (id : WalId) (sgs : list Segment) (lg : Segment)
    (tail : list byte) (w : W) (s : St) (Hr : reliable w)
    (Hlog : log_on_disk (disk w) id (sgs ++ [lg]) tail) (Htail : tail <> [])
    (Hc : validate_writer_config c = kOk) (Hp : permissions_ok (config_file_permissions c)) :
  exists w', open_existing_with c {| repair_incomplete_final_tail := false |} sink None (w, s) =
    (Err kOutOfRange, (w', s)) /\ disk w' = disk w.
Proof.
  destruct (open_locked_ok id (sgs ++ [lg]) tail (directory_path c) (config_file_permissions c) true w Hr
    Hlog ltac:(done)) as (w1 & temps & D1 & R1 & E1 & _).
  destruct (scan_discovered_ok kVerify None id (sgs ++ [lg]) tail temps w1 s s R1) as (w2 & D2 & R2 & E2);
    [by rewrite D1|by left|apply verify_silent|].
  exists w2. split; [|congruence].
  assert (E : recover_existing_for_writer c {| repair_incomplete_final_tail := false |} sink None (w, s) =
    (Err kOutOfRange, (w2, s))).
  { unfold recover_existing_for_writer. rewrite Hc, check_ok_step, (lift_step _ _ _ _ _ _ E1),
      (io_bind_step _ _ _ _ _ E2).
    cbn [history_report classification]. rewrite (bool_decide_eq_false_2 (tail = [])) by done. done. }
  unfold open_existing_with, io_bind at 1. by rewrite E.
Qed.

(** * A concrete log *)

Lemma sample_disk_wf file : disk_wf (sample_disk file).
Proof.
  split.
  - intros name e He. cbn [sample_disk d_names d_data] in *.
    apply lookup_insert_Some in He as [[<- <-]|[_ He]]; [by eexists|].
    apply lookup_singleton_Some in He as [<- <-]. by eexists.
  - apply (insert_names_differ {[segment_name 1 := (kRegularFile, 2%positive)]}).
    + intros n1 n2 e1 e2 [<- <-]%lookup_singleton_Some [<- <-]%lookup_singleton_Some. done.
    + intros n e [<- <-]%lookup_singleton_Some. done.
Qed.

(** One record, and the first twenty bytes of another. *)
Definition torn_segment : Segment := {| sg_header := sample_segment_header; sg_records := [sample_record 1] |}.
Definition torn_tail : list byte := take 20 (frame (sample_record 2)).
Lemma torn_log :
  log_on_disk (sample_disk (segment_bytes torn_segment ++ torn_tail)) sample_wal_id [torn_segment] torn_tail.
Proof.
  destruct sample_segment_ok as (Hwf & Hi & Hn & Hf & (Hr & Hs & _) & _).
  apply (make_log _ _ [] torn_segment).
  - eapply wal_directory_length; [|apply sample_directory]. done.
  - split; [|done]. split; [exact Hwf|]. do 3 (split; [done|]). split; [done|]. vm_compute. discriminate.
  - cbn [app contents on_disk]. split; [|done]. exists 2%positive. split; vm_compute; reflexivity.
  - right. exists (sample_record 2), 20%nat. split; [by apply sample_record_valid|]. split; [done|].
    split; [vm_compute; lia|done].
  - vm_compute. discriminate.
  - vm_compute. reflexivity.
  - vm_compute. discriminate.
Qed.

Lemma sample_config_ok :
  validate_writer_config sample_config = kOk /\ permissions_ok (config_file_permissions sample_config).
Proof. split; vm_compute; reflexivity. Qed.

Lemma reopen_restores_writer_witness :
  exists i w', open_existing_with (W := Memory) sample_config {| repair_incomplete_final_tail := true |}
      recording_sink None (sample_world (segment_bytes torn_segment ++ torn_tail), []) =
      (Ok i, (w', replay_history sample_wal_id 1 [torn_segment])) /\
    writer_ok (disk w') i [] torn_segment.
Proof.
  destruct (@reopen_restores_writer Memory _ Memory_PosixIo Memory_laws sample_config
    {| repair_incomplete_final_tail := true |} recording_sink sample_wal_id [] torn_segment torn_tail
    (sample_world (segment_bytes torn_segment ++ torn_tail)) [] []
    (replay_history sample_wal_id 1 [torn_segment]) eq_refl (sample_disk_wf _) torn_log)
    as (i & w' & E & Hok & _).
  - intros j sg Hj. by rewrite lookup_nil in Hj.
  - apply sample_config_ok.
  - apply sample_config_ok.
  - by right.
  - reflexivity.
  - reflexivity.
  - exists i, w'. split; [exact E|exact Hok].
Defined.

Lemma crash_then_reopen_witness :
  exists (w : Memory) n i' w' replayed, (2 <= n)%nat /\
    open_existing_with sample_config {| repair_incomplete_final_tail := true |} recording_sink None (w, []) =
      (Ok i', (w', replayed)) /\
    replay_payload <$> replayed = take n [sample_payload; sample_payload; sample_payload].
Proof.
  destruct sample_session as (i0 & w1 & outs & i2 & w2 & Hc & Hs & Hsync).
  apply session_app_inv in Hs as (o1 & [wb ib] & o2 & Hb & Ha & _).
  cbn [session] in Ha. apply io_bind_Ok in Ha as (u & [ws is'] & Hy & Ha).
  destruct (session_ok _ _ _ _ _ _ _ _ (sample_writer _ _ Hc) Hb) as (sgsb & lgb & Hokb & _ & Hpb & Hbb & _ & _ & Hwb).
  destruct (synchronize_ok _ _ _ _ _ _ _ Hokb Hy) as (_ & _ & -> & _ & _ & Hoks).
  destruct (session_ok _ _ _ _ _ _ _ _ Hoks Ha) as (sgs & lg & Hok & _ & Hp & Hbytes & Hd & _ & _).
  rewrite Hpb in Hp. cbn [app fmap list_fmap payloads sample_before sample_after] in Hp.
  set (w := on_memory (truncate_disk (active_file i2) 100 (mem_disk w2))).
  destruct (@crash_then_reopen Memory Memory_PosixIo Memory_laws sample_config (mem_disk w2) i2 sgs lg w Hok)
    as (n & lg' & i' & w' & replayed & E & _ & _ & [Hn _] & _ & Hr).
  - apply (f_equal length) in Hp. rewrite length_fmap in Hp.
    eapply Z.le_lt_trans; [apply Z.eq_le_incl, f_equal; exact Hp|]. vm_compute. reflexivity.
  - eapply Z.le_trans; [exact Hbytes|]. eapply Z.le_trans; [apply Z.add_le_mono_r; exact Hbb|].
    vm_compute. discriminate.
  - apply crash_cut; [lia|exact Hsync].
  - reflexivity.
  - apply sample_config_ok.
  - apply sample_config_ok.
  - exists w, n, i', w', replayed. split; [|split; [exact E|by rewrite Hr, Hp]].
    cbn [set_durable durable_record_sequence] in Hd. rewrite Hwb in Hd.
    rewrite (wo_sequence _ _ _ _ (sample_writer _ _ Hc)) in Hd. cbn in Hd. lia.
Defined.

Lemma torn_tail_refused_witness :
  exists w', open_existing_with (W := Memory) sample_config {| repair_incomplete_final_tail := false |}
      recording_sink None (sample_world (segment_bytes torn_segment ++ torn_tail), []) =
    (Err kOutOfRange, (w', [])) /\ disk w' = sample_disk (segment_bytes torn_segment ++ torn_tail).
Proof.
  apply (@torn_tail_refused Memory _ Memory_PosixIo Memory_laws sample_config recording_sink sample_wal_id []
    torn_segment torn_tail (sample_world (segment_bytes torn_segment ++ torn_tail)) [] eq_refl torn_log).
  - vm_compute. discriminate.
  - apply sample_config_ok.
  - apply sample_config_ok.
Defined.
