(* ===== verification/WalReclaim.v ===== *)
(** Checkpointed segments of a live writer: the reclamation of segments a replay
    checkpoint covers and the resolution of a record sequence to a checkpoint, the
    last part of src/wal/wal_writer.cpp. *)
From stdpp Require Import sorting.
From S2P Require Import Prelude Bytes WalCodec PosixIo WalPaths WalScan WalWriter.

(** * Definitions of the source *)

(** A scan with a sink of its own. *)
Definition run_scan {W St A} (c : IO (W * St) A) (s : St) : IO W (A * St) := fun w =>
  match c (w, s) with
  | (Ok a, (w', s')) => (Ok (a, s'), w')
  | (Err e, (w', _)) => (Err e, w')
  end.

(** The header of a segment and its decoding. *)
Definition read_header {W} `{PosixIo W} (segment : DiscoveredWalSegment) : IO W SegmentHeader :=
  let* file := open_regular_file (disc_file_name segment) kReadOnly in
  let* encoded := read_at file 0 kSegmentHeaderSize in
  stop_if negb (blen encoded =? kSegmentHeaderSize) with kCorruption;
  io_pure (decode_segment_header encoded).

(** The checkpoint right before a segment. *)
Definition predecessor_checkpoint {W} `{PosixIo W} (segment : DiscoveredWalSegment)
  : IO W (option WalReplayCheckpoint) :=
  if disc_number segment =? kFirstSegmentNumber then io_ret None
  else
  let* header := read_header segment in
  stop_if seg_first_record_sequence header =? 0 with kCorruption;
  io_ret (Some {| ckpt_wal_id := seg_wal_id header;
                  ckpt_record_sequence := seg_first_record_sequence header - 1;
                  ckpt_segment_number := u64 (disc_number segment - 1);
                  ckpt_byte_offset := kSegmentHeaderSize |}).

Definition validate_closed_segment_for_reclamation {W} `{PosixIo W} (segment : DiscoveredWalSegment)
  : IO W WalRecoveryReport :=
  let* predecessor := predecessor_checkpoint segment in
  let* (report, _) := run_scan (scan_discovered_wal kVerify None predecessor
    {| segments := [segment]; temporary_file_names := [] |}) tt in
  stop_if negb (bool_decide (classification report = kClean)) || (record_count report =? 0)
          || negb (pos_segment_number (valid_end report) =? disc_number segment) with kCorruption;
  io_ret report.

Definition read_retained_prefix_header {W} `{PosixIo W} (segment : DiscoveredWalSegment)
  : IO W SegmentHeader :=
  let* header := read_header segment in
  stop_if negb (seg_number header =? disc_number segment) with kCorruption;
  io_ret header.

(** [CheckpointResolutionSink]: its state is the checkpoint found. *)
Definition CheckpointResolutionSink (target_sequence : Z) : WalReplaySink (option WalReplayCheckpoint) :=
  {| sink_preflight record found :=
       (kOk, if record_sequence (replay_header record) =? target_sequence
             then Some {| ckpt_wal_id := pos_wal_id (record_end record);
                          ckpt_record_sequence := record_sequence (replay_header record);
                          ckpt_segment_number := pos_segment_number (record_end record);
                          ckpt_byte_offset := pos_byte_offset (record_end record) |}
             else found);
     sink_replay _ found := (kInternal, found) |}.

(** The discovered segments end with the active one. *)
Definition active_is_last (i : Impl) (d : WalDiscovery) : bool :=
  match last (segments d) with
  | None => false
  | Some s => (disc_number s =? seg_number (segment_header (active_metadata i)))
              && bool_decide (disc_file_name s = segment_file_name (active_metadata i))
  end.
(** A scan that agrees with the live writer. *)
Definition agrees_with_writer (i : Impl) (r : WalRecoveryReport) : bool :=
  bool_decide (classification r = kClean)
  && bool_decide (rep_wal_id r = seg_wal_id (segment_header (active_metadata i)))
  && bool_decide (valid_end r = written_position i)
  && (last_record_sequence r =? written_record_sequence i).

(** The counters of a reclamation. *)
Definition count_attempt (i : Impl) : Impl :=
  let m := reclamation_metrics i in
  set_metrics i {| metric_attempts := u64 (metric_attempts m + 1); metric_failures := metric_failures m;
    metric_removed_segment_count := metric_removed_segment_count m;
    metric_removed_physical_bytes := metric_removed_physical_bytes m;
    metric_directory_sync_count := metric_directory_sync_count m |}.
Definition count_failure (i : Impl) : Impl :=
  let m := reclamation_metrics i in
  set_metrics i {| metric_attempts := metric_attempts m; metric_failures := u64 (metric_failures m + 1);
    metric_removed_segment_count := metric_removed_segment_count m;
    metric_removed_physical_bytes := metric_removed_physical_bytes m;
    metric_directory_sync_count := metric_directory_sync_count m |}.
Definition count_removal (i : Impl) (count bytes : Z) : Impl :=
  let m := reclamation_metrics i in
  set_metrics i {| metric_attempts := metric_attempts m; metric_failures := metric_failures m;
    metric_removed_segment_count := metric_removed_segment_count m + count;
    metric_removed_physical_bytes := metric_removed_physical_bytes m + bytes;
    metric_directory_sync_count := u64 (metric_directory_sync_count m + 1) |}.

Section reclaim.
Context {W : Type} `{PosixIo W}.

(** The [fail] of the reclamation. *)
Definition reclaim_fail {A} (status : StatusCode) (poisons : bool) : IO (W * Impl) A := fun wi =>
  let i := count_failure wi.2 in
  if poisons then poison status (wi.1, i) else (make_unexpected status, (wi.1, i)).
(** A call whose failure is the reclamation's. *)
Definition or_reclaim_fail {A} (c : IO W A) : IO (W * Impl) A := fun wi =>
  match c wi.1 with
  | (Ok a, w') => (Ok a, (w', wi.2))
  | (Err s, w') => reclaim_fail s true (w', wi.2)
  end.

(** The loop over the closed segments: the names to remove and their bytes. *)
Fixpoint reclamation_candidates (discovered : list DiscoveredWalSegment) (active_number : Z)
    (checkpoint : WalReplayCheckpoint) (candidates : list FileName) (removed_bytes : Z)
    (retained : bool) : IO (W * Impl) (list FileName * Z) :=
  match discovered with
  | [] => io_ret (candidates, removed_bytes)
  | segment :: rest =>
      if disc_number segment >=? active_number then io_ret (candidates, removed_bytes)
      else
      let* validated := or_reclaim_fail (validate_closed_segment_for_reclamation segment) in
      if negb (bool_decide (rep_wal_id validated = ckpt_wal_id checkpoint))
      then reclaim_fail kCorruption true
      else if last_record_sequence validated <=? ckpt_record_sequence checkpoint then
        if retained then reclaim_fail kCorruption true
        else if physical_bytes validated >? max_u64 - removed_bytes
        then reclaim_fail kResourceExhausted false
        else reclamation_candidates rest active_number checkpoint
               (candidates ++ [disc_file_name segment]) (removed_bytes + physical_bytes validated) retained
      else reclamation_candidates rest active_number checkpoint candidates removed_bytes true
  end.

Fixpoint remove_candidates (names : list FileName) : IO (W * Impl) unit :=
  match names with
  | [] => io_ret tt
  | name :: rest => do* or_reclaim_fail (remove_file name); remove_candidates rest
  end.

(** The required suffix is read once more and compared with the live writer. *)
Definition verify_required (discovered : WalDiscovery) (checkpoint : WalReplayCheckpoint)
  : IO (W * Impl) unit :=
  let* view := or_reclaim_fail (prepare_discovery_for_checkpoint discovered checkpoint) in
  let* (required, _) := or_reclaim_fail
    (run_scan (scan_discovered_wal kVerify None (Some checkpoint) view) tt) in
  let* i := get_impl in
  if negb (agrees_with_writer i required) then reclaim_fail kCorruption true else io_ret tt.

Definition reclaim_checkpointed_segments (checkpoint : WalReplayCheckpoint)
  : IO (W * Impl) WalSegmentReclamationReport :=
  let* i := get_impl in
  if negb (is_ok (failure i)) then io_pure (make_unexpected (failure i))
  else
  do* put_impl (count_attempt i);
  if negb (is_ok (validate_replay_checkpoint checkpoint))
  then reclaim_fail (validate_replay_checkpoint checkpoint) false
  else if negb (bool_decide (ckpt_wal_id checkpoint = seg_wal_id (segment_header (active_metadata i))))
          || (ckpt_record_sequence checkpoint >? durable_record_sequence i)
  then reclaim_fail kInvalidArgument false
  else
  let* discovered := or_reclaim_fail (discover_wal false) in
  if negb (active_is_last i discovered) then reclaim_fail kCorruption true
  else
  do* verify_required discovered checkpoint;
  let* (candidates, removed_bytes) := reclamation_candidates (segments discovered)
    (seg_number (segment_header (active_metadata i))) checkpoint [] 0 false in
  let nothing := {| rec_checkpoint := checkpoint; removed_segment_count := 0;
                    removed_physical_bytes := 0; directory_sync_count := 0 |} in
  match candidates with
  | [] => io_ret nothing
  | _ =>
      let m := reclamation_metrics i in
      let count := Z.of_nat (length candidates) in
      if (removed_bytes >? max_u64 - metric_removed_physical_bytes m)
         || (count >? max_u64 - metric_removed_segment_count m)
      then reclaim_fail kResourceExhausted false
      else
      do* remove_candidates candidates;
      do* or_reclaim_fail directory_sync;
      let* i := get_impl in
      do* put_impl (count_removal i count removed_bytes);
      io_ret {| rec_checkpoint := checkpoint; removed_segment_count := count;
                removed_physical_bytes := removed_bytes; directory_sync_count := 1 |}
  end.

(** The [fail] of the resolution: some statuses do not stop the writer. *)
Definition resolve_fail {A} (status : StatusCode) : IO (W * Impl) A := fun wi =>
  if bool_decide (status = kInvalidArgument) || bool_decide (status = kOutOfRange)
     || bool_decide (status = kResourceExhausted)
  then (make_unexpected status, wi) else poison status wi.
Definition or_resolve_fail {A} (c : IO W A) : IO (W * Impl) A := fun wi =>
  match c wi.1 with
  | (Ok a, w') => (Ok a, (w', wi.2))
  | (Err s, w') => resolve_fail s (w', wi.2)
  end.

(** The checkpoint before the first retained segment. *)
Definition retained_prefix (first : SegmentHeader) : WalReplayCheckpoint :=
  if seg_number first =? kFirstSegmentNumber
  then {| ckpt_wal_id := seg_wal_id first; ckpt_record_sequence := 0;
          ckpt_segment_number := kFirstSegmentNumber; ckpt_byte_offset := kSegmentHeaderSize |}
  else {| ckpt_wal_id := seg_wal_id first;
          ckpt_record_sequence := seg_first_record_sequence first - 1;
          ckpt_segment_number := seg_number first - 1; ckpt_byte_offset := kSegmentHeaderSize |}.
Definition valid_boundary (i : Impl) (first : SegmentHeader) : bool :=
  bool_decide (seg_wal_id first = seg_wal_id (segment_header (active_metadata i)))
  && negb (seg_first_record_sequence first =? 0)
  && Bool.eqb (seg_number first =? kFirstSegmentNumber)
       (seg_first_record_sequence first =? kFirstRecordSequence).

Definition resolve_replay_checkpoint (sequence : Z) : IO (W * Impl) (option WalReplayCheckpoint) :=
  let* i := get_impl in
  if negb (is_ok (failure i)) then io_pure (make_unexpected (failure i))
  else if sequence >? durable_record_sequence i then io_fail kInvalidArgument
  else
  let* discovered := or_resolve_fail (discover_wal false) in
  if negb (active_is_last i discovered) then resolve_fail kCorruption
  else match segments discovered with
  | [] => resolve_fail kCorruption
  | front :: _ =>
      let* first := or_resolve_fail (read_retained_prefix_header front) in
      if negb (valid_boundary i first) then resolve_fail kCorruption
      else
      let prefix := retained_prefix first in
      let* view := or_resolve_fail (prepare_discovery_for_checkpoint discovered prefix) in
      let* (verified, found) := or_resolve_fail
        (run_scan (scan_discovered_wal kPreflight (Some (CheckpointResolutionSink sequence))
           (Some prefix) view) None) in
      if negb (agrees_with_writer i verified) then resolve_fail kCorruption
      else if sequence <? ckpt_record_sequence prefix then io_ret None
      else if sequence =? ckpt_record_sequence prefix then io_ret (Some prefix)
      else match found with
      | None => resolve_fail kCorruption
      | Some c => io_ret (Some c)
      end
  end.
End reclaim.
