(* ===== verification/WalReclaimTheorems.v ===== *)
(** Inspection is read-only, reclamation removes only what the checkpoint covers,
    and a resolved checkpoint is the end of the record it names: whatever the
    files hold and however the calls behave. *)
From stdpp Require Import sorting.
From S2P Require Import Prelude Bytes Crc32c WalCodec PosixIo DiskFacts WalPaths WalScan WalHistory.
From S2P Require Import WalDiscovery WalSound WalScanTheorems WalWriter WalWriterFacts.
From S2P Require Import WalWriterFailure WalWriterTheorems WalRecovery WalReclaim.

(** * Computations that do not change the disk *)

Create HintDb readonly.

Section readonly.
Context {W : Type} {HIO : PosixIo W} {HL : PosixLaws W}.

(** Whatever it returns, [c] leaves the disk; [p] finds the world in its state. *)
Definition read_only {S A} (p : S -> W) (c : IO S A) : Prop :=
  forall s r s', c s = (r, s') -> disk (p s') = disk (p s).

Lemma read_only_ret {S A} (p : S -> W) (a : A) : read_only p (io_ret a).
Proof. by intros s r s' [= _ <-]. Qed.
Lemma read_only_fail {S A} (p : S -> W) st : read_only p (@io_fail S A st).
Proof. by intros s r s' [= _ <-]. Qed.
Lemma read_only_pure {S A} (p : S -> W) (a : result A) : read_only p (io_pure a).
Proof. by intros s r s' [= _ <-]. Qed.
Lemma read_only_check {S} (p : S -> W) st : read_only p (io_check st).
Proof. by intros s r s' [= _ <-]. Qed.
Lemma read_only_bind {S A B} (p : S -> W) (c : IO S A) (k : A -> IO S B) :
  read_only p c -> (forall a, read_only p (k a)) -> read_only p (io_bind c k).
Proof.
  intros Hc Hk s r s' H. unfold io_bind in H. destruct (c s) as [[a|e] s1] eqn:E.
  - rewrite (Hk _ _ _ _ H). by eapply Hc.
  - injection H as _ <-. by eapply Hc.
Qed.
Lemma read_only_implements {A} (c : IO W A) en post :
  implements disk reliable c en post (fun d d' => d' = d) ->
  (forall d a d', post d a d' -> d' = d) -> read_only (fun w => w) c.
Proof.
  intros Hi Hp w r w' E. destruct (Hi _ _ _ E) as [H _]. destruct r; [by eapply Hp|by destruct H].
Qed.
Lemma read_only_lift {St A} (c : IO W A) :
  read_only (fun w => w) c -> read_only fst (@lift_io W St A c).
Proof.
  intros Hc [w s] r [w' s'] H. unfold lift_io in H. cbn [fst snd] in *.
  destruct (c w) as [r1 w1] eqn:E. injection H as _ <- _. by eapply Hc.
Qed.

Lemma read_only_open_directory path : read_only (fun w => w) (open_directory path).
Proof. eapply read_only_implements; [apply law_open_directory|]. done. Qed.
Lemma read_only_list : read_only (fun w => w) list_entries.
Proof. eapply read_only_implements; [apply law_list_entries|]. by intros d a d' [? _]. Qed.
Lemma read_only_open name mode : read_only (fun w => w) (open_regular_file name mode).
Proof. eapply read_only_implements; [apply law_open|]. by intros d a d' [? _]. Qed.
Lemma read_only_existing_lock name : read_only (fun w => w) (acquire_existing_exclusive_lock name).
Proof. eapply read_only_implements; [apply law_existing_lock|]. by intros d a d' [? _]. Qed.
Lemma read_only_size f : read_only (fun w => w) (file_size f).
Proof. eapply read_only_implements; [apply law_size|]. by intros d a d' [? _]. Qed.
Lemma read_only_read f off n : read_only (fun w => w) (read_at f off n).
Proof. eapply read_only_implements; [apply law_read|]. by intros d a d' [? _]. Qed.
End readonly.

#[export] Hint Resolve read_only_ret read_only_fail read_only_pure read_only_check read_only_bind
  read_only_lift read_only_open_directory read_only_list read_only_open read_only_existing_lock
  read_only_size read_only_read : readonly.

(** Follow the structure of a computation. *)
Ltac read_only :=
  repeat (intros; first
    [ progress eauto 2 with readonly
    | apply read_only_bind
    | match goal with
      | |- read_only _ (if ?b then _ else _) => destruct b
      | |- read_only _ (match ?x with _ => _ end) => destruct x
      end ]).

Section scans_read_only.
Context {W St : Type} {HIO : PosixIo W} {HL : PosixLaws W}.

Lemma read_only_read_exact f off n : read_only (fun w : W => w) (read_file_exact f off n).
Proof. unfold read_file_exact. read_only. Qed.
Hint Resolve read_only_read_exact : readonly.
Lemma read_only_discover b : read_only (fun w : W => w) (discover_wal b).
Proof. unfold discover_wal. read_only. Qed.
Lemma read_only_covered covered c : read_only (fun w : W => w) (validate_covered_headers covered c).
Proof. induction covered as [|s covered IH]; cbn [validate_covered_headers]; read_only. Qed.
Hint Resolve read_only_discover read_only_covered : readonly.
Lemma read_only_prepare d c : read_only (fun w : W => w) (prepare_discovery_for_checkpoint d c).
Proof. unfold prepare_discovery_for_checkpoint. read_only. Qed.

Lemma read_only_call_back pass sink ckpt record : read_only fst (@call_back W St pass sink ckpt record).
Proof.
  unfold call_back. destruct sink as [k|]; [|read_only]. destruct (_ && _); [|read_only].
  intros [w s] r [w' s']. unfold call_sink. cbn [fst snd]. destruct (_ record s) as [st s1].
  by intros [= _ <- _].
Qed.
Hint Resolve read_only_prepare read_only_call_back : readonly.
Lemma read_only_tail ckpt d fin size rs : read_only fst (@incomplete_tail W St ckpt d fin size rs).
Proof. unfold incomplete_tail. read_only. Qed.
Hint Resolve read_only_tail : readonly.
Lemma read_only_record pass sink ckpt f d fin size rs :
  read_only fst (@scan_record W St HIO pass sink ckpt f d fin size rs).
Proof. unfold scan_record. read_only. Qed.
Hint Resolve read_only_record : readonly.
Lemma read_only_records pass sink ckpt fuel f d fin size rs :
  read_only fst (@scan_records W St HIO pass sink ckpt fuel f d fin size rs).
Proof. revert rs. induction fuel as [|fuel IH]; intros rs; cbn [scan_records]; read_only. Qed.
Lemma read_only_open_segment ckpt d st : read_only (fun w : W => w) (open_segment ckpt d st).
Proof. unfold open_segment. read_only. Qed.
Hint Resolve read_only_records read_only_open_segment : readonly.
Lemma read_only_segment pass sink ckpt d fin st :
  read_only fst (@scan_segment W St HIO pass sink ckpt d fin st).
Proof. unfold scan_segment, finish_segment. read_only. Qed.
Hint Resolve read_only_segment : readonly.
Lemma read_only_segments pass sink ckpt ds st :
  read_only fst (@scan_segments W St HIO pass sink ckpt ds st).
Proof. revert st. induction ds as [|d ds IH]; intros st; cbn [scan_segments]; read_only. Qed.
Hint Resolve read_only_segments : readonly.
Lemma read_only_scan pass sink ckpt d : read_only fst (@scan_discovered_wal W St HIO pass sink ckpt d).
Proof. unfold scan_discovered_wal. read_only. Qed.
End scans_read_only.

#[export] Hint Resolve read_only_read_exact read_only_discover read_only_prepare read_only_scan : readonly.

(** * What a validated segment holds *)

(** The records of a segment that a checkpoint at [sequence] covers. *)
Definition covered_segment (d : Disk) (id : WalId) (name : FileName) (n sequence : Z) : Prop :=
  name = segment_name n /\ exists f seq sg,
    d_names d !! name = Some (kRegularFile, f) /\ d_data d !! f = Some (segment_bytes sg) /\
    segment_ok id n seq sg /\ sg_records sg <> [] /\
    Forall (fun r : LogRecord => record_sequence r.1 <= sequence) (sg_records sg).

Lemma sequenced_below rs : forall seq,
  sequenced seq rs -> Forall (fun r : LogRecord => record_sequence r.1 <= seq + Z.of_nat (length rs) - 1) rs.
Proof.
  induction rs as [|r rs IH]; intros seq H; constructor; destruct H as (_ & Hr & H); cbn [length].
  - lia.
  - eapply Forall_impl; [exact (IH _ H)|]. cbn. lia.
Qed.

Section reclaiming.
Context {W : Type} {HIO : PosixIo W} {HL : PosixLaws W}.

Lemma run_scan_Ok {St A} (c : IO (W * St) A) s w a s' w' :
  run_scan c s w = (Ok (a, s'), w') -> c (w, s) = (Ok a, (w', s')).
Proof. unfold run_scan. destruct (c (w, s)) as [[x|e] [w1 s1]]; [by intros [= -> -> ->]|done]. Qed.

Lemma read_only_run_scan {St A} (c : IO (W * St) A) s :
  read_only fst c -> read_only (fun w : W => w) (run_scan c s).
Proof.
  intros Hc w r w' H. unfold run_scan in H. destruct (c (w, s)) as [[a|e] [w1 s1]] eqn:E;
    injection H as _ <-; exact (Hc _ _ _ E).
Qed.
Hint Resolve read_only_run_scan : readonly.

Lemma read_only_header d : read_only (fun w : W => w) (read_header d).
Proof. unfold read_header. read_only. Qed.
Hint Resolve read_only_header : readonly.
Lemma read_only_predecessor d : read_only (fun w : W => w) (predecessor_checkpoint d).
Proof. unfold predecessor_checkpoint. read_only. Qed.
Lemma read_only_retained d : read_only (fun w : W => w) (read_retained_prefix_header d).
Proof. unfold read_retained_prefix_header. read_only. Qed.
Hint Resolve read_only_predecessor read_only_retained : readonly.
Lemma read_only_validate d : read_only (fun w : W => w) (validate_closed_segment_for_reclamation d).
Proof. unfold validate_closed_segment_for_reclamation. read_only. Qed.

Lemma validate_closed_sound d (w w' : W) report sequence :
  canonical_segment d -> validate_closed_segment_for_reclamation d w = (Ok report, w') ->
  last_record_sequence report <= sequence ->
  covered_segment (disk w) (rep_wal_id report) (disc_file_name d) (disc_number d) sequence.
Proof.
  intros Hcan H Hle. unfold validate_closed_segment_for_reclamation in H.
  apply io_bind_Ok in H as (pre & w1 & E1 & H). apply read_only_predecessor in E1.
  apply io_bind_Ok in H as ([rep []] & w2 & E2 & H). apply run_scan_Ok in E2.
  destruct (_ || _) eqn:Hg in H; [done|]. injection H as -> <-.
  apply orb_false_iff in Hg as [Hg _]. apply orb_false_iff in Hg as [Hcl Hcount].
  apply negb_false_iff, bool_decide_eq_true in Hcl. apply Z.eqb_neq in Hcount.
  unfold scan_discovered_wal in E2. cbn [bool_decide negb andb] in E2.
  rewrite bool_decide_eq_false_2 in E2 by (intros ?; done). cbn [andb segments] in E2.
  apply (scan_segments_inv kVerify None pre [d] (disc_number d)) in E2; [|cbn; by rewrite Z.eqb_refl|done|done].
  cbn zeta in E2. destruct E2 as (_ & id & seq & sgs & lg & tail & _ & Hh & Hlen & Hf & _ & Hid & Hc & Hl & _ & _ & Ht).
  destruct sgs; [|cbn in Hlen; rewrite length_app in Hlen; cbn in Hlen; lia].
  cbn [app] in *. destruct Ht as [[-> _]|[_ Ht]]; [|congruence].
  apply Forall2_cons_inv_l in Hf as (bs & ? & (f & Hn & Hd) & _ & E). cbn [contents] in E.
  injection E as <- _. unfold content in Hd. rewrite app_nil_r in Hd. rewrite E1 in Hn, Hd.
  destruct Hh as [Hseg _]. unfold all_records in Hc, Hl. cbn [fmap list_fmap concat] in Hc, Hl.
  rewrite app_nil_r in Hc, Hl. cbn [initial_scan sc_report record_count] in Hc.
  split; [exact Hcan|]. exists f, seq, lg. rewrite Hid. split_and!; try done.
  - intros Hnil. rewrite Hnil in Hc. cbn in Hc. lia.
  - destruct Hseg as (_ & _ & _ & _ & Hsq & _). eapply Forall_impl; [exact (sequenced_below _ _ Hsq)|].
    cbn. intros r Hr. destruct (Z.eqb_spec (Z.of_nat (length (sg_records lg))) 0); lia.
Qed.

Lemma discover_canonical b (w w' : W) d :
  discover_wal b w = (Ok d, w') -> Forall canonical_segment (segments d).
Proof.
  unfold discover_wal. intros H. apply io_bind_Ok in H as (es & w1 & _ & H). injection H as H _.
  unfold classify_entries in H. apply rbind_Ok in H as ([saw d1] & E & H).
  apply discover_entries_named in E; [|constructor]. destruct (negb saw); [done|].
  destruct (segments d1) eqn:Hs; [done|]. destruct (_ && _) in H; [done|]. injection H as <-. cbn [segments].
  rewrite <- Hs. by rewrite merge_sort_Permutation, Hs.
Qed.

(** * Reclamation *)

(** [d'] is [d] without some of the names that satisfy [P]. *)
Definition only_lost (P : FileName -> Prop) (d d' : Disk) : Prop :=
  d_data d' = d_data d /\ d_synced d' = d_synced d /\
  forall name, d_names d' !! name = d_names d !! name \/ (d_names d' !! name = None /\ P name).
(** The writer up to its failure and its counters. *)
Definition same_writer (i i' : Impl) : Prop :=
  exists m s, i' = set_failure (set_metrics i m) s.

Lemma only_lost_refl P d : only_lost P d d.
Proof. split; [done|]. split; [done|]. by left. Qed.
Lemma only_lost_trans P d1 d2 d3 : only_lost P d1 d2 -> only_lost P d2 d3 -> only_lost P d1 d3.
Proof.
  intros (A1 & B1 & C1) (A2 & B2 & C2). split; [congruence|]. split; [congruence|].
  intros name. destruct (C2 name) as [->|]; [apply C1|by right].
Qed.
Lemma same_writer_refl i : same_writer i i.
Proof. exists (reclamation_metrics i), (failure i). by destruct i. Qed.
Lemma same_writer_trans i1 i2 i3 : same_writer i1 i2 -> same_writer i2 i3 -> same_writer i1 i3.
Proof. intros (m1 & s1 & ->) (m2 & s2 & ->). exists m2, s2. by destruct i1. Qed.
Lemma same_writer_metrics i m : same_writer i (set_metrics i m).
Proof. exists m, (failure i). by destruct i. Qed.
Lemma same_writer_poisoned i s : same_writer i (poisoned i s).
Proof.
  unfold poisoned. destruct (is_ok _); [|apply same_writer_refl].
  exists (reclamation_metrics i), s. by destruct i.
Qed.

Variable P : FileName -> Prop.

(** A computation that loses only names of [P] and keeps the writer. *)
Definition reclaims {A} (c : IO (W * Impl) A) (w : W) (i : Impl) : Prop :=
  forall r w' i', c (w, i) = (r, (w', i')) -> only_lost P (disk w) (disk w') /\ same_writer i i'.

Lemma reclaims_bind {A B} (c : IO (W * Impl) A) (k : A -> IO (W * Impl) B) w i :
  reclaims c w i -> (forall a w1 i1, c (w, i) = (Ok a, (w1, i1)) -> reclaims (k a) w1 i1) ->
  reclaims (io_bind c k) w i.
Proof.
  intros Hc Hk r w' i' H. unfold io_bind in H. destruct (c (w, i)) as [[a|e] [w1 i1]] eqn:E.
  - destruct (Hc _ _ _ E) as [L1 S1]. destruct (Hk _ _ _ eq_refl _ _ _ H) as [L2 S2].
    split; [by eapply only_lost_trans|by eapply same_writer_trans].
  - injection H as _ <- <-. by eapply Hc.
Qed.
Lemma reclaims_ret {A} (a : A) w i : reclaims (io_ret a) w i.
Proof. intros r w' i' [= _ <- <-]. split; [apply only_lost_refl|apply same_writer_refl]. Qed.
Lemma reclaims_pure {A} (a : result A) w i : reclaims (io_pure a) w i.
Proof. intros r w' i' [= _ <- <-]. split; [apply only_lost_refl|apply same_writer_refl]. Qed.
Lemma reclaims_get w i : reclaims get_impl w i.
Proof. intros r w' i' [= _ <- <-]. split; [apply only_lost_refl|apply same_writer_refl]. Qed.
Lemma reclaims_put w i i1 : same_writer i i1 -> reclaims (put_impl i1) w i.
Proof. intros Hs r w' i' [= _ <- <-]. split; [apply only_lost_refl|done]. Qed.
Lemma reclaims_fail {A} s b w i : reclaims (@reclaim_fail W A s b) w i.
Proof.
  intros r w' i' H. unfold reclaim_fail, poison in H. cbn [fst snd] in H.
  pose proof (same_writer_metrics i (reclamation_metrics (count_failure i))) as Hm.
  destruct b; injection H as _ Hw Hi; subst w' i'; (split; [apply only_lost_refl|]); [|exact Hm].
  eapply same_writer_trans; [exact Hm|]. exact (same_writer_poisoned (count_failure i) s).
Qed.
Lemma reclaims_or_fail {A} (c : IO W A) w i :
  (forall r w', c w = (r, w') -> only_lost P (disk w) (disk w')) -> reclaims (or_reclaim_fail c) w i.
Proof.
  intros Hc r w' i' H. unfold or_reclaim_fail in H. cbn [fst snd] in H.
  destruct (c w) as [[a|s] w1] eqn:E; pose proof (Hc _ _ eq_refl) as L1.
  - injection H as _ <- <-. split; [done|apply same_writer_refl].
  - destruct (reclaims_fail s true _ _ _ _ _ H) as [L2 S2]. split; [by eapply only_lost_trans|done].
Qed.
Lemma reclaims_read_only {A} (c : IO W A) w i :
  read_only (fun w : W => w) c -> reclaims (or_reclaim_fail c) w i.
Proof.
  intros Hc. apply reclaims_or_fail. intros r w' E. rewrite (Hc _ _ _ E). apply only_lost_refl.
Qed.
Lemma or_reclaim_Ok {A} (c : IO W A) w i a w' i' :
  or_reclaim_fail c (w, i) = (Ok a, (w', i')) -> c w = (Ok a, w') /\ i' = i.
Proof.
  unfold or_reclaim_fail, reclaim_fail, poison. cbn [fst snd]. destruct (c w) as [[b|s] w1]; [by intros [= -> -> ->]|].
  destruct (@make_unexpected_not_ok A (failure (if is_ok (failure (count_failure i)) then
    set_failure (count_failure i) s else count_failure i))) as (? & -> & _). done.
Qed.

Lemma remove_candidates_lose names : forall w i,
  Forall P names -> reclaims (remove_candidates names) w i.
Proof.
  induction names as [|name names IH]; intros w i Hn; cbn [remove_candidates]; [apply reclaims_ret|].
  apply Forall_cons in Hn as [Hp Hn]. apply reclaims_bind; [|intros; by apply IH].
  apply reclaims_or_fail. intros r w' E. destruct (law_remove name _ _ _ E) as [Hr _].
  destruct r as [a|s]; [|destruct Hr as [_ ->]; apply only_lost_refl]. destruct Hr as [_ ->].
  split; [done|]. split; [done|]. intros x. cbn [set_names d_names].
  destruct (decide (x = name)) as [->|Hne]; [right; split; [apply lookup_delete_eq|done]|left].
  by apply lookup_delete_ne.
Qed.

(** Follow the structure of a reclamation that removes nothing itself. *)
Ltac reclaims :=
  repeat (intros; first
    [ apply reclaims_ret | apply reclaims_pure | apply reclaims_get | apply reclaims_fail
    | apply reclaims_read_only; by eauto 2 with readonly
    | apply reclaims_bind
    | match goal with
      | |- reclaims (if ?b then _ else _) _ _ => destruct b
      | |- reclaims (match ?x with _ => _ end) _ _ => destruct x
      end ]).
Hint Resolve read_only_validate : readonly.

Lemma reclaims_candidates ds active c : forall cs bytes kept w i,
  reclaims (reclamation_candidates ds active c cs bytes kept) w i.
Proof. induction ds as [|s ds IH]; intros; cbn [reclamation_candidates]; reclaims; apply IH. Qed.
Lemma reclaims_verify d c w i : reclaims (verify_required d c) w i.
Proof. unfold verify_required. reclaims. Qed.
Lemma reclaim_fail_Ok {A} s b (w : W) i (a : A) wi : reclaim_fail s b (w, i) <> (Ok a, wi).
Proof.
  unfold reclaim_fail, poison. cbn [fst snd]. destruct b; cbn zeta;
    match goal with |- (@make_unexpected A ?x, _) <> _ =>
      destruct (@make_unexpected_not_ok A x) as (? & -> & _) end; done.
Qed.
Lemma verify_required_keeps d c w i w' i' :
  verify_required d c (w, i) = (Ok tt, (w', i')) -> disk w' = disk w.
Proof.
  unfold verify_required. intros H. apply io_bind_Ok in H as (v & [w1 i1] & E1 & H).
  apply or_reclaim_Ok in E1 as [E1 ->]. apply read_only_prepare in E1.
  apply io_bind_Ok in H as ([rep []] & [w2 i2] & E2 & H). apply or_reclaim_Ok in E2 as [E2 ->].
  apply (read_only_run_scan _ _ (read_only_scan _ _ _ _)) in E2.
  apply io_bind_Ok in H as (j & [w3 i3] & [= <- <- <-] & H).
  destruct (negb _); [by apply reclaim_fail_Ok in H|]. injection H as <- _. congruence.
Qed.

(** The candidates are covered segments before the active one. *)
Lemma candidates_covered ds active c d : forall cs bytes kept w i cs' bytes' w' i',
  disk w = d -> Forall canonical_segment ds ->
  (forall name n, n < active -> covered_segment d (ckpt_wal_id c) name n (ckpt_record_sequence c) -> P name) ->
  Forall P cs ->
  reclamation_candidates ds active c cs bytes kept (w, i) = (Ok (cs', bytes'), (w', i')) ->
  Forall P cs' /\ disk w' = d.
Proof.
  induction ds as [|s ds IH]; intros cs bytes kept w i cs' bytes' w' i' Hd Hcan HP Hcs H;
    cbn [reclamation_candidates] in H; [by injection H as <- _ <- _|].
  apply Forall_cons in Hcan as [Hc Hcan]. destruct (_ >=? _) eqn:Hlt; [by injection H as <- _ <- _|].
  apply io_bind_Ok in H as (v & [w1 i1] & E & H). apply or_reclaim_Ok in E as [E ->].
  pose proof (read_only_validate _ _ _ _ E) as Hd1.
  destruct (negb _) eqn:Hid; [by apply reclaim_fail_Ok in H|].
  apply negb_false_iff, bool_decide_eq_true in Hid.
  destruct (last_record_sequence v <=? _) eqn:Hle; [|exact (IH _ _ _ _ _ _ _ _ _ (eq_trans Hd1 Hd) Hcan HP Hcs H)].
  destruct kept; [by apply reclaim_fail_Ok in H|]. destruct (_ >? _); [by apply reclaim_fail_Ok in H|].
  eapply (IH _ _ _ _ _ _ _ _ _ (eq_trans Hd1 Hd) Hcan HP); [|exact H].
  apply Forall_app. split; [done|]. constructor; [|constructor].
  apply (HP _ (disc_number s)); [lia|]. rewrite <- Hd, <- Hid. eapply validate_closed_sound; [done|exact E|lia].
Qed.
End reclaiming.

(** The names a reclamation up to [checkpoint] may remove: closed segments of this log,
    before the active one, that hold records of sequence at most the checkpoint's. *)
Definition reclaimable (d : Disk) (i : Impl) (checkpoint : WalReplayCheckpoint) (name : FileName) : Prop :=
  ckpt_wal_id checkpoint = seg_wal_id (segment_header (active_metadata i)) /\
  ckpt_record_sequence checkpoint <= durable_record_sequence i /\
  exists n, n < seg_number (segment_header (active_metadata i)) /\
    covered_segment d (ckpt_wal_id checkpoint) name n (ckpt_record_sequence checkpoint).

Section resolving.
Context {W : Type} {HIO : PosixIo W} {HL : PosixLaws W}.

Lemma or_resolve_Ok {A} (c : IO W A) w i a w' i' :
  or_resolve_fail c (w, i) = (Ok a, (w', i')) -> c w = (Ok a, w') /\ i' = i.
Proof.
  unfold or_resolve_fail, resolve_fail, poison. cbn [fst snd].
  destruct (c w) as [[b|s] w1]; [by intros [= -> -> ->]|]. destruct (_ || _);
    match goal with |- (@make_unexpected A ?x, _) = _ -> _ =>
      destruct (@make_unexpected_not_ok A x) as (? & -> & _) end; done.
Qed.
Lemma resolve_fail_Ok {A} s (w : W) i (a : A) wi : resolve_fail s (w, i) <> (Ok a, wi).
Proof.
  intros H. destruct wi as [w' i'].
  destruct (or_resolve_Ok (fun w => (Err s, w)) w i a w' i') as [E _]; [exact H|done].
Qed.

Lemma contiguous_complete rest : forall first,
  contiguous_after first rest = true -> complete_prefix (first :: rest) (disc_number first) = true.
Proof.
  induction rest as [|s rest IH]; intros first H; cbn [complete_prefix]; rewrite Z.eqb_refl; [done|].
  cbn [contiguous_after] in H. repeat rewrite andb_true_iff in H. destruct H as [[_ Hs] H].
  apply Z.eqb_eq in Hs. specialize (IH _ H). by rewrite Hs in IH.
Qed.

(** Nothing is covered when the first segment is not below the checkpoint's. *)
Lemma prepare_whole front rest temps c (w w' : W) view :
  prepare_discovery_for_checkpoint {| segments := front :: rest; temporary_file_names := temps |} c w
    = (Ok view, w') ->
  ckpt_segment_number c <= disc_number front ->
  segments view = front :: rest /\ complete_prefix (front :: rest) (disc_number front) = true.
Proof.
  intros H Hle. unfold prepare_discovery_for_checkpoint in H.
  apply io_bind_Ok in H as (u & w1 & _ & H). cbn [segments split_covered] in H.
  destruct (Z.ltb_spec (disc_number front) (ckpt_segment_number c)) as [|_]; [lia|].
  destruct (_ && _) in H; [done|]. apply io_bind_Ok in H as (u1 & w2 & _ & H).
  destruct (contiguous_after front rest) eqn:Hc; [|done]. injection H as <- _.
  split; [done|by apply contiguous_complete].
Qed.

(** The checkpoint at the end of a record. *)
Definition checkpoint_after (r : WalReplayRecord) : WalReplayCheckpoint :=
  {| ckpt_wal_id := pos_wal_id (record_end r); ckpt_record_sequence := record_sequence (replay_header r);
     ckpt_segment_number := pos_segment_number (record_end r);
     ckpt_byte_offset := pos_byte_offset (record_end r) |}.

Lemma resolution_found target ckpt rs : forall s s',
  deliver_all kPreflight (Some (CheckpointResolutionSink target)) ckpt rs s = Some s' ->
  s' = s \/ exists r, r ∈ rs /\ record_sequence (replay_header r) = target /\ s' = Some (checkpoint_after r).
Proof.
  induction rs as [|r rs IH]; intros s s' H; [injection H as <-; by left|].
  cbn [deliver_all] in H. destruct (deliver _ _ _ r s) as [s1|] eqn:E; [|done].
  destruct (IH _ _ H) as [->|(r' & Hin & Hr)]; [|right; exists r'; split; [by right|done]].
  unfold deliver in E. destruct (_ && _) in E; [|injection E as <-; by left].
  injection E as <-.
  destruct (Z.eqb_spec (record_sequence (replay_header r)) target) as [Ht|]; [right|by left].
  exists r. split; [by left|done].
Qed.

Lemma retained_header_number d (w w' : W) h :
  read_retained_prefix_header d w = (Ok h, w') -> seg_number h = disc_number d /\ disk w' = disk w.
Proof.
  intros H. pose proof (read_only_retained _ _ _ _ H) as D. split; [|exact D].
  unfold read_retained_prefix_header in H. apply io_bind_Ok in H as (h' & w1 & _ & H).
  destruct (Z.eqb_spec (seg_number h') (disc_number d)); [|done]. by injection H as <- _.
Qed.

(** The history scanned from the retained prefix starts right after it. *)
Lemma prefix_starts first view id n seq sgs :
  starts_at (Some (retained_prefix first)) (initial_scan (Some (retained_prefix first)) view) id n seq ->
  history id n seq sgs -> sgs <> [] -> n = seg_number first ->
  id = seg_wal_id first /\ ckpt_record_sequence (retained_prefix first) + 1 = seq.
Proof.
  intros [Hid Hst] Hh Hne ->. unfold retained_prefix, kFirstSegmentNumber in *.
  destruct sgs as [|sg sgs]; [done|]. destruct Hh as [(Hwf & _ & Hn & Hs & _) _].
  destruct (Z.eqb_spec (seg_number first) 1) as [E|E]; cbn in *; (split; [done|]);
    destruct Hst as [Hst|[Hst Hq]]; try lia.
  rewrite E in Hn. pose proof (shw_first _ Hwf Hn) as Hf. unfold kFirstRecordSequence in Hf. lia.
Qed.

(** The last step of the resolution, once the retained segments have been scanned. *)
Lemma resolution_choice sequence i (w4 w' : W) i' rep found prefix (c : WalReplayCheckpoint) :
  (if negb (agrees_with_writer i rep) then resolve_fail kCorruption
   else if sequence <? ckpt_record_sequence prefix then io_ret None
   else if sequence =? ckpt_record_sequence prefix then io_ret (Some prefix)
   else match found with None => resolve_fail kCorruption | Some c => io_ret (Some c) end)
    (w4, i) = (Ok (Some c), (w', i')) ->
  w' = w4 /\ i' = i /\ agrees_with_writer i rep = true /\
  ((c = prefix /\ sequence = ckpt_record_sequence prefix) \/ found = Some c).
Proof.
  destruct (agrees_with_writer i rep); cbn [negb]; [|by intros H; apply resolve_fail_Ok in H].
  destruct (_ <? _); [done|]. destruct (Z.eqb_spec sequence (ckpt_record_sequence prefix)) as [->|].
  - intros [= -> -> ->]. split_and!; try done. by left.
  - destruct found as [c'|]; [intros [= -> -> ->]; split_and!; try done; by right|by intros H; apply resolve_fail_Ok in H].
Qed.
End resolving.

Section reclaim_claims.
Context {W : Type} {HIO : PosixIo W} {HL : PosixLaws W}.

(** C28. [reclaim_checkpointed_segments], whether it succeeds or fails and whatever the
    directory holds, removes no name but those of closed segments of this log, numbered
    below the active segment, whose bytes are a valid segment with records that all
    have sequences at most the checkpoint's, itself at most the durable sequence; every
    other name and all file contents stay, and the writer changes only in its counters
    and its failure. *)
Theorem reclaim_only_covered checkpoint (w w' : W) i i' r :
  reclaim_checkpointed_segments checkpoint (w, i) = (r, (w', i')) ->
  only_lost (reclaimable (disk w) i checkpoint) (disk w) (disk w') /\ same_writer i i'.
Proof.
  revert r w' i'. set (P := reclaimable (disk w) i checkpoint). change (reclaims P (reclaim_checkpointed_segments checkpoint) w i).
  unfold reclaim_checkpointed_segments. apply reclaims_bind; [apply reclaims_get|].
  intros j w1 i1 [= <- <- <-]. destruct (negb _); [apply reclaims_pure|].
  apply reclaims_bind; [apply reclaims_put, same_writer_metrics|]. intros [] w1 i1 [= <- <-].
  destruct (negb _); [apply reclaims_fail|]. destruct (_ || _) eqn:Hg; [apply reclaims_fail|].
  apply orb_false_iff in Hg as [Hid Hdur]. apply negb_false_iff, bool_decide_eq_true in Hid.
  apply reclaims_bind; [apply reclaims_read_only, read_only_discover|].
  intros d w1 i1 E. apply or_reclaim_Ok in E as [E ->].
  pose proof (read_only_discover _ _ _ _ E) as D1. apply discover_canonical in E.
  destruct (negb _); [apply reclaims_fail|]. apply reclaims_bind; [apply reclaims_verify|].
  intros [] w2 i2 E2. apply verify_required_keeps in E2.
  apply reclaims_bind; [apply reclaims_candidates|]. intros [cs bytes] w3 i3 E3.
  apply (candidates_covered P _ _ _ (disk w)) in E3 as [Hcs D3]; [|by rewrite E2|done| |constructor].
  2:{ intros name n Hn Hc. split; [done|]. split; [lia|]. by exists n. }
  destruct cs as [|name cs]; [apply reclaims_ret|]. destruct (_ || _); [apply reclaims_fail|].
  apply reclaims_bind; [by apply remove_candidates_lose|]. intros [] w4 i4 _.
  apply reclaims_bind; [apply reclaims_or_fail|].
  { intros r w5 E5. destruct (law_directory_sync _ _ _ E5) as [H5 _].
    destruct r as [[]|s]; [rewrite H5; by split; [|split; [|left]]|destruct H5 as [_ ->]; apply only_lost_refl]. }
  intros [] w5 i5 _. apply reclaims_bind; [apply reclaims_get|]. intros k w6 i6 [= <- <- <-].
  apply reclaims_bind; [apply reclaims_put, same_writer_metrics|]. intros; apply reclaims_ret.
Qed.

(** When [resolve_replay_checkpoint] finds a checkpoint for a record sequence, the
    disk and the writer are unchanged, the sequence is durable, the retained segments
    on disk are a history that ends where the writer stands, and the checkpoint is the
    end of the record of that history with the sequence, or the boundary right before
    its first record. *)
Theorem resolve_sound sequence (w w' : W) i i' c :
  resolve_replay_checkpoint sequence (w, i) = (Ok (Some c), (w', i')) ->
  disk w' = disk w /\ i' = i /\ sequence <= durable_record_sequence i /\
  ckpt_record_sequence c = sequence /\
  exists id n seq sgs lg,
    id = seg_wal_id (segment_header (active_metadata i)) /\
    history id n seq (sgs ++ [lg]) /\ on_disk (disk w) n (contents (sgs ++ [lg]) []) /\
    written_position i = {| pos_wal_id := id; pos_segment_number := n + Z.of_nat (length sgs);
                            pos_byte_offset := blen (segment_bytes lg) |} /\
    ((exists r, r ∈ replay_history id n (sgs ++ [lg]) /\
        record_sequence (replay_header r) = sequence /\ c = checkpoint_after r) \/
     (sequence + 1 = seq /\ c = {| ckpt_wal_id := id; ckpt_record_sequence := sequence;
        ckpt_segment_number := (if n =? 1 then 1 else n - 1); ckpt_byte_offset := 64 |})).
Proof.
  unfold resolve_replay_checkpoint. intros H.
  apply io_bind_Ok in H as (j & [w0 i0] & [= <- <- <-] & H). destruct (negb _) eqn:Hf.
  { destruct (@make_unexpected_not_ok (option WalReplayCheckpoint) (failure i)) as (? & Em & _).
    unfold io_pure in H. by rewrite Em in H. }
  destruct (Z.gtb_spec sequence (durable_record_sequence i)) as [|Hdur]; [done|].
  apply io_bind_Ok in H as (d & [w1 i1] & E1 & H). apply or_resolve_Ok in E1 as [E1 ->].
  pose proof (read_only_discover _ _ _ _ E1) as D1. apply discover_canonical in E1. cbn beta in D1.
  destruct (negb (active_is_last i d)); [by apply resolve_fail_Ok in H|].
  destruct d as [[|front rest] temps]; cbn [segments] in *; [by apply resolve_fail_Ok in H|].
  apply io_bind_Ok in H as (first & [w2 i2] & E2 & H). apply or_resolve_Ok in E2 as [E2 ->].
  apply retained_header_number in E2 as [Hnum D2].
  destruct (negb (valid_boundary i first)) eqn:Hb; [by apply resolve_fail_Ok in H|]. apply negb_false_iff in Hb.
  apply io_bind_Ok in H as (view & [w3 i3] & E3 & H). apply or_resolve_Ok in E3 as [E3 ->].
  pose proof (read_only_prepare _ _ _ _ _ E3) as D3. cbn beta in D3.
  apply io_bind_Ok in H as ([rep found] & [w4 i4] & E4 & H). apply or_resolve_Ok in E4 as [E4 ->].
  apply run_scan_Ok in E4. unfold valid_boundary in Hb. repeat rewrite andb_true_iff in Hb.
  destruct Hb as [[Hid _] _]. apply bool_decide_eq_true in Hid.
  apply prepare_whole in E3 as [Hview Hcp].
  2:{ unfold retained_prefix, kFirstSegmentNumber. destruct (Z.eqb_spec (seg_number first) 1); cbn [ckpt_segment_number]; lia. }
  unfold scan_discovered_wal in E4. rewrite Hview in E4.
  rewrite (bool_decide_eq_true_2 (is_Some _)), andb_false_r in E4 by eauto.
  apply (scan_segments_inv _ _ _ _ (disc_number front)) in E4; [|done|done|done].
  cbn zeta in E4. destruct E4 as (D4 & id & seq & sgs & lg & tail & Hst & Hh & _ & Hf2 & Hdel & Hrid & _ & _ & Hend & _ & Ht).
  destruct (prefix_starts _ _ _ _ _ _ Hst Hh) as [Hid2 Hseq]; [by destruct sgs|done|].
  apply resolution_choice in H as (-> & -> & Ha & Hc). unfold agrees_with_writer in Ha.
  repeat rewrite andb_true_iff in Ha. destruct Ha as [[[Hcl _] Hpos] _].
  apply bool_decide_eq_true in Hcl, Hpos. destruct Ht as [[-> _]|[_ Ht]]; [|congruence].
  assert (Hd : disk w3 = disk w) by congruence.
  assert (Hc' : ckpt_record_sequence c = sequence /\
    ((exists r, r ∈ replay_history id (disc_number front) (sgs ++ [lg]) /\
        record_sequence (replay_header r) = sequence /\ c = checkpoint_after r) \/
     (c = retained_prefix first /\ sequence = ckpt_record_sequence (retained_prefix first)))).
  { destruct Hc as [[-> ->]| ->]; [by eauto|].
    destruct (resolution_found _ _ _ _ _ Hdel) as [?|(r & Hin & Hr & [= ->])]; [done|]. split; [done|]. eauto. }
  destruct Hc' as [Hcs Hc']. split; [congruence|]. split_and!; try done.
  exists id, (disc_number front), seq, sgs, lg. split; [congruence|]. split; [done|].
  split; [rewrite <- Hd; by eapply files_on_disk|]. split; [congruence|].
  destruct Hc' as [?|[-> ->]]; [by left|right]. split; [done|].
  rewrite Hid2. unfold retained_prefix, kFirstSegmentNumber. rewrite Hnum. by destruct (disc_number front =? 1).
Qed.
End reclaim_claims.

Section inspection_claim.
Context {W St : Type} {HIO : PosixIo W} {HL : PosixLaws W}.

Lemma read_only_open_locked path permissions b : read_only (fun w : W => w) (open_locked path permissions false b).
Proof. unfold open_locked. read_only. Qed.
Hint Resolve read_only_open_locked : readonly.

(** The three inspections of a log directory ([scan_wal], [inspect_wal],
    [inspect_wal_suffix]) never change the disk, whatever they return: neither when the
    log is damaged or ends in a torn record, nor when a call or the sink fails. *)
Theorem inspection_read_only path (sink : WalReplaySink St) checkpoint :
  read_only fst (@scan_wal W St _ path) /\
  read_only fst (@inspect_wal W St _ path sink) /\
  read_only fst (@inspect_wal_suffix W St _ path checkpoint sink).
Proof.
  unfold scan_wal, inspect_wal, inspect_wal_suffix, preflight_and_replay,
    open_locked_wal_directory, open_locked_wal_directory_for_checkpoint.
  split_and!; read_only.
Qed.
End inspection_claim.

(** * A concrete reclamation *)

(** Three records fill two segments; the checkpoint after the second is resolved and
    the first segment, which it covers, is reclaimed. *)
Definition sample_three : list WriterCall := sample_before ++ sample_after ++ [CallSynchronize].
Lemma sample_reclaim : exists i1 (w1 : Memory) c w2 i2 report w3 i3,
  resolve_replay_checkpoint 2 (w1, i1) = (Ok (Some c), (w2, i2)) /\
  reclaim_checkpointed_segments c (w2, i2) = (Ok report, (w3, i3)) /\
  removed_segment_count report = 1 /\
  is_Some (d_names (disk w2) !! segment_name 1) /\ d_names (disk w3) !! segment_name 1 = None.
Proof.
  destruct (on_new_log_inv (fun i w =>
    match session sample_three (w, i) with
    | (Ok _, (w1, i1)) =>
        match resolve_replay_checkpoint 2 (w1, i1) with
        | (Ok (Some c), (w2, i2)) =>
            match reclaim_checkpointed_segments c (w2, i2) with
            | (Ok report, (w3, i3)) => (removed_segment_count report =? 1)
                && bool_decide (is_Some (d_names (mem_disk w2) !! segment_name 1))
                && bool_decide (d_names (mem_disk w3) !! segment_name 1 = None)
            | _ => false
            end
        | _ => false
        end
    | _ => false
    end)) as (i & w & _ & H); [vm_compute; reflexivity|].
  destruct (session _ _) as [[outs|s] [w1 i1]]; [|discriminate].
  destruct (resolve_replay_checkpoint _ _) as [[[c|]|s] [w2 i2]] eqn:E1; [|discriminate..].
  destruct (reclaim_checkpointed_segments _ _) as [[report|s] [w3 i3]] eqn:E2; [|discriminate].
  repeat rewrite andb_true_iff in H. destruct H as [[H1 H2] H3].
  exists i1, w1, c, w2, i2, report, w3, i3. split; [exact E1|]. split; [exact E2|].
  split; [by apply Z.eqb_eq|]. split; [by apply bool_decide_eq_true in H2|by apply bool_decide_eq_true in H3].
Qed.

Lemma reclaim_only_covered_witness : exists (w : Memory) i c,
  reclaimable (disk w) i c (segment_name 1).
Proof.
  destruct sample_reclaim as (i1 & w1 & c & w2 & i2 & report & w3 & i3 & _ & E & _ & H2 & H3).
  exists w2, i2, c.
  destruct (@reclaim_only_covered Memory Memory_PosixIo Memory_laws c w2 w3 i2 i3 (Ok report) E)
    as [(_ & _ & H) _].
  destruct (H (segment_name 1)) as [E1|[_ Hr]]; [|exact Hr].
  rewrite E1 in H3. rewrite H3 in H2. by destruct H2.
Defined.

Lemma resolve_sound_witness : exists (w : Memory) i c w' i',
  resolve_replay_checkpoint 2 (w, i) = (Ok (Some c), (w', i')) /\ disk w' = disk w /\
  ckpt_record_sequence c = 2.
Proof.
  destruct sample_reclaim as (i1 & w1 & c & w2 & i2 & _ & _ & _ & E & _).
  exists w1, i1, c, w2, i2. split; [exact E|].
  destruct (@resolve_sound Memory Memory_PosixIo Memory_laws 2 w1 w2 i1 i2 c E) as (D & _ & _ & Hc & _).
  split; [exact D|exact Hc].
Defined.
