(* ===== verification/WalCommit.v ===== *)
(** The group-commit coordinator: include/chronos/wal/wal_commit_coordinator.hpp and
    src/wal/wal_commit_coordinator.cpp.  Producers submit payloads; one worker thread
    owns the writer, appends the payloads in the order of admission and synchronises
    once for a window of requests.

    The mutex guards [Shared]; every section of the code that holds it is one step,
    and so is every call of the writer, which only the worker makes.  The worker is a
    program counter [WorkerPc] with the step function [worker_step]; producers step by
    [try_submit], a caller of shutdown by [request_shutdown].  A completion is named by
    the admission sequence of its request.  A condition variable whose predicate does
    not hold is a worker without a step.  Failing allocations and thread creation are
    not modelled; the clock is an argument of the step. *)
From S2P Require Import Prelude Bytes WalCodec PosixIo WalScan WalWriter.
#[local] Open Scope Z_scope.

(** * wal_commit_coordinator.hpp *)

(** [WalDurabilityMode] *)
Definition kAsync : Z := 0.
Definition kLocalSync : Z := 1.

Record WalCommitCoordinatorConfig := {
  maximum_pending_requests : Z; maximum_pending_encoded_bytes : Z;
  maximum_sync_batch_requests : Z; maximum_sync_batch_encoded_bytes : Z;
  maximum_sync_batch_delay : Z }.

Record WalCommitResult := {
  cr_admission_sequence : Z; cr_requested_durability : Z; cr_effective_durability : Z;
  cr_append : WalAppendResult; cr_synchronization_position : option PhysicalWalPosition;
  cr_durable_record_sequence : option Z }.

(** The cumulative counters of [WalCommitMetrics]; its other members are gauges. *)
Inductive CommitCounter :=
| admitted_requests | admitted_encoded_bytes | rejected_requests
| appended_requests | appended_encoded_bytes
| acknowledged_async_requests | acknowledged_async_encoded_bytes
| acknowledged_local_sync_requests | acknowledged_local_sync_encoded_bytes
| failed_requests | failed_encoded_bytes
| synchronization_attempts | successful_synchronizations | failed_synchronizations
| local_sync_batches | local_sync_requests_in_batches.
#[export] Instance CommitCounter_eq_dec : EqDecision CommitCounter.
Proof. solve_decision. Defined.

Record WalCommitMetrics := {
  counters : CommitCounter -> Z;
  maximum_observed_batch_requests : Z; maximum_observed_batch_bytes : Z;
  pending_requests : Z; pending_encoded_bytes : Z;
  high_water_pending_requests : Z; high_water_pending_encoded_bytes : Z;
  accepting : bool; terminal_failure : bool }.

(** * The writer as the coordinator uses it *)

Class CommitWriter (S : Type) := {
  cw_append : list byte -> IO S WalAppendResult;
  cw_synchronize : IO S PhysicalWalPosition;
  cw_close : S -> StatusCode * S;
  cw_is_open : S -> bool;
  cw_is_failed : S -> bool;
  cw_failure_status : S -> StatusCode;
  cw_written_position : S -> PhysicalWalPosition;
  cw_durable_position : S -> PhysicalWalPosition;
  cw_durable_record_sequence : S -> Z }.

(** * Configuration and counters *)

Definition validate_commit_config (c : WalCommitCoordinatorConfig) : StatusCode :=
  if maximum_pending_requests c =? 0 then kInvalidArgument
  else if maximum_pending_encoded_bytes c <? kMinimumRecordLength then kInvalidArgument
  else if maximum_sync_batch_requests c =? 0 then kInvalidArgument
  else if maximum_sync_batch_encoded_bytes c <? kMinimumRecordLength then kInvalidArgument
  else if maximum_sync_batch_delay c <? 0 then kInvalidArgument
  else if maximum_sync_batch_delay c >? 24 * 60 * 60 * 1000000 then kInvalidArgument
  else kOk.

Definition saturating_add (destination increment : Z) : Z :=
  if destination >? max_u64 - increment then max_u64 else u64 (destination + increment).
(** [saturating_add] and [saturating_increment] on a counter. *)
Definition count_by (c : CommitCounter) (n : Z) (m : WalCommitMetrics) : WalCommitMetrics :=
  {| counters := fun c' => if decide (c' = c) then saturating_add (counters m c) n else counters m c';
     maximum_observed_batch_requests := maximum_observed_batch_requests m;
     maximum_observed_batch_bytes := maximum_observed_batch_bytes m;
     pending_requests := pending_requests m; pending_encoded_bytes := pending_encoded_bytes m;
     high_water_pending_requests := high_water_pending_requests m;
     high_water_pending_encoded_bytes := high_water_pending_encoded_bytes m;
     accepting := accepting m; terminal_failure := terminal_failure m |}.
Definition count (c : CommitCounter) (m : WalCommitMetrics) : WalCommitMetrics := count_by c 1 m.

Definition set_pending (m : WalCommitMetrics) (requests bytes : Z) : WalCommitMetrics :=
  {| counters := counters m;
     maximum_observed_batch_requests := maximum_observed_batch_requests m;
     maximum_observed_batch_bytes := maximum_observed_batch_bytes m;
     pending_requests := requests; pending_encoded_bytes := bytes;
     high_water_pending_requests := high_water_pending_requests m;
     high_water_pending_encoded_bytes := high_water_pending_encoded_bytes m;
     accepting := accepting m; terminal_failure := terminal_failure m |}.
Definition raise_high_water (m : WalCommitMetrics) : WalCommitMetrics :=
  {| counters := counters m;
     maximum_observed_batch_requests := maximum_observed_batch_requests m;
     maximum_observed_batch_bytes := maximum_observed_batch_bytes m;
     pending_requests := pending_requests m; pending_encoded_bytes := pending_encoded_bytes m;
     high_water_pending_requests := Z.max (high_water_pending_requests m) (pending_requests m);
     high_water_pending_encoded_bytes :=
       Z.max (high_water_pending_encoded_bytes m) (pending_encoded_bytes m);
     accepting := accepting m; terminal_failure := terminal_failure m |}.
Definition raise_batch (m : WalCommitMetrics) (requests bytes : Z) : WalCommitMetrics :=
  {| counters := counters m;
     maximum_observed_batch_requests := Z.max (maximum_observed_batch_requests m) requests;
     maximum_observed_batch_bytes := Z.max (maximum_observed_batch_bytes m) bytes;
     pending_requests := pending_requests m; pending_encoded_bytes := pending_encoded_bytes m;
     high_water_pending_requests := high_water_pending_requests m;
     high_water_pending_encoded_bytes := high_water_pending_encoded_bytes m;
     accepting := accepting m; terminal_failure := terminal_failure m |}.
Definition set_accepting (m : WalCommitMetrics) (a failure : bool) : WalCommitMetrics :=
  {| counters := counters m;
     maximum_observed_batch_requests := maximum_observed_batch_requests m;
     maximum_observed_batch_bytes := maximum_observed_batch_bytes m;
     pending_requests := pending_requests m; pending_encoded_bytes := pending_encoded_bytes m;
     high_water_pending_requests := high_water_pending_requests m;
     high_water_pending_encoded_bytes := high_water_pending_encoded_bytes m;
     accepting := a; terminal_failure := failure |}.

(** * State *)

Record CommitRequest := {
  rq_admission_sequence : Z; rq_durability : Z; rq_encoded_bytes : Z; rq_payload : list byte }.
Record PendingLocalSync := { pl_request : CommitRequest; pl_append : WalAppendResult }.
Record SyncWindow := {
  win_active : bool; win_request_count : Z; win_encoded_bytes : Z; win_deadline : Z }.
Definition reset_window : SyncWindow :=
  {| win_active := false; win_request_count := 0; win_encoded_bytes := 0; win_deadline := 0 |}.

(** What the mutex guards, and the completions. *)
Record Shared := {
  queue : list CommitRequest; pending_local_sync : list PendingLocalSync;
  metrics : WalCommitMetrics; terminal_status : StatusCode;
  next_admission_sequence : Z; admission_sequence_exhausted : bool; shutdown_requested : bool;
  completions : gmap Z (result WalCommitResult) }.

(** Where the worker is: deciding what to do next, calling the writer, or about to
    enter one of the locked sections. *)
Inductive WorkerPc :=
| PcDecide
| PcSync
| PcSynchronize
| PcSynchronized (synchronized : result PhysicalWalPosition)
| PcAppend (request : CommitRequest)
| PcAppended (request : CommitRequest) (segment_before : Z) (appended : result WalAppendResult)
| PcFinish (request : CommitRequest) (status : StatusCode)
| PcFailTerminal (current : option CommitRequest) (failure : StatusCode)
| PcStop
| PcClosed (close_status : StatusCode)
| PcDone.

Record Coordinator (S : Type) := {
  co_writer : S; co_config : WalCommitCoordinatorConfig; co_shared : Shared;
  co_window : SyncWindow; co_pc : WorkerPc }.
#[global] Arguments co_writer {S}.
#[global] Arguments co_config {S}.
#[global] Arguments co_shared {S}.
#[global] Arguments co_window {S}.
#[global] Arguments co_pc {S}.

Definition set_queue (s : Shared) (q : list CommitRequest) : Shared :=
  {| queue := q; pending_local_sync := pending_local_sync s; metrics := metrics s;
     terminal_status := terminal_status s; next_admission_sequence := next_admission_sequence s;
     admission_sequence_exhausted := admission_sequence_exhausted s;
     shutdown_requested := shutdown_requested s; completions := completions s |}.
Definition set_pending_local_sync (s : Shared) (ps : list PendingLocalSync) : Shared :=
  {| queue := queue s; pending_local_sync := ps; metrics := metrics s;
     terminal_status := terminal_status s; next_admission_sequence := next_admission_sequence s;
     admission_sequence_exhausted := admission_sequence_exhausted s;
     shutdown_requested := shutdown_requested s; completions := completions s |}.
Definition set_commit_metrics (s : Shared) (m : WalCommitMetrics) : Shared :=
  {| queue := queue s; pending_local_sync := pending_local_sync s; metrics := m;
     terminal_status := terminal_status s; next_admission_sequence := next_admission_sequence s;
     admission_sequence_exhausted := admission_sequence_exhausted s;
     shutdown_requested := shutdown_requested s; completions := completions s |}.
Definition set_terminal_status (s : Shared) (status : StatusCode) : Shared :=
  {| queue := queue s; pending_local_sync := pending_local_sync s; metrics := metrics s;
     terminal_status := status; next_admission_sequence := next_admission_sequence s;
     admission_sequence_exhausted := admission_sequence_exhausted s;
     shutdown_requested := shutdown_requested s; completions := completions s |}.
Definition set_admission (s : Shared) (next : Z) (exhausted : bool) : Shared :=
  {| queue := queue s; pending_local_sync := pending_local_sync s; metrics := metrics s;
     terminal_status := terminal_status s; next_admission_sequence := next;
     admission_sequence_exhausted := exhausted;
     shutdown_requested := shutdown_requested s; completions := completions s |}.
Definition set_shutdown (s : Shared) : Shared :=
  {| queue := queue s; pending_local_sync := pending_local_sync s; metrics := metrics s;
     terminal_status := terminal_status s; next_admission_sequence := next_admission_sequence s;
     admission_sequence_exhausted := admission_sequence_exhausted s;
     shutdown_requested := true; completions := completions s |}.
Definition counted (c : CommitCounter) (s : Shared) : Shared := set_commit_metrics s (count c (metrics s)).
Definition counted_by (c : CommitCounter) (n : Z) (s : Shared) : Shared :=
  set_commit_metrics s (count_by c n (metrics s)).

(** [WalCommitCompletionState::complete]: the first result stays. *)
Definition complete (ticket : Z) (r : result WalCommitResult) (s : Shared) : Shared :=
  {| queue := queue s; pending_local_sync := pending_local_sync s; metrics := metrics s;
     terminal_status := terminal_status s; next_admission_sequence := next_admission_sequence s;
     admission_sequence_exhausted := admission_sequence_exhausted s;
     shutdown_requested := shutdown_requested s;
     completions := match completions s !! ticket with
                    | Some _ => completions s
                    | None => <[ticket := r]> (completions s)
                    end |}.

(** * Finishing requests *)

Definition release_admission (request : CommitRequest) (s : Shared) : Shared :=
  let m := metrics s in
  if (pending_requests m =? 0) || (pending_encoded_bytes m <? rq_encoded_bytes request) then
    set_commit_metrics (set_terminal_status s kInternal) (set_accepting m false true)
  else
    set_commit_metrics s
      (set_pending m (pending_requests m - 1) (pending_encoded_bytes m - rq_encoded_bytes request)).

Definition finish_failure (request : CommitRequest) (status : StatusCode) (s : Shared) : Shared :=
  let s := complete (rq_admission_sequence request) (make_unexpected status) s in
  let s := counted failed_requests s in
  let s := counted_by failed_encoded_bytes (rq_encoded_bytes request) s in
  release_admission request s.

Definition finish_success (request : CommitRequest) (append : WalAppendResult)
    (position : option PhysicalWalPosition) (durable : option Z) (s : Shared) : Shared :=
  let s := complete (rq_admission_sequence request)
    (Ok {| cr_admission_sequence := rq_admission_sequence request;
           cr_requested_durability := rq_durability request;
           cr_effective_durability := rq_durability request; cr_append := append;
           cr_synchronization_position := position; cr_durable_record_sequence := durable |}) s in
  let s :=
    if rq_durability request =? kAsync then
      counted_by acknowledged_async_encoded_bytes (rq_encoded_bytes request)
        (counted acknowledged_async_requests s)
    else
      counted_by acknowledged_local_sync_encoded_bytes (rq_encoded_bytes request)
        (counted acknowledged_local_sync_requests s) in
  release_admission request s.

(** The loop over the durable prefix of the requests that wait for a
    synchronisation; the rest stays. *)
Fixpoint release_prefix (pending : list PendingLocalSync) (durable : Z) (position : PhysicalWalPosition)
    (requests bytes : Z) (s : Shared) : list PendingLocalSync * Z * Z * Shared :=
  match pending with
  | [] => ([], requests, bytes, s)
  | p :: rest =>
      if append_record_sequence (pl_append p) <=? durable then
        release_prefix rest durable position (requests + 1)
          (u64 (bytes + rq_encoded_bytes (pl_request p)))
          (finish_success (pl_request p) (pl_append p) (Some position) (Some durable) s)
      else (pending, requests, bytes, s)
  end.
Definition release_durable_local (durable : Z) (position : PhysicalWalPosition) (s : Shared) : Shared :=
  let '(rest, requests, bytes, s) := release_prefix (pending_local_sync s) durable position 0 0 s in
  let s := set_pending_local_sync s rest in
  if negb (requests =? 0) then
    let s := counted local_sync_batches s in
    let s := counted_by local_sync_requests_in_batches requests s in
    set_commit_metrics s (raise_batch (metrics s) requests bytes)
  else s.

(** The locked section of [fail_terminal]; every status is the terminal one. *)
Definition fail_request (request : CommitRequest) (s : Shared) : Shared :=
  finish_failure request (terminal_status s) s.
Definition fail_all (requests : list CommitRequest) (s : Shared) : Shared :=
  fold_left (fun s r => fail_request r s) requests s.
Definition fail_terminal (current : option CommitRequest) (failure : StatusCode) (s : Shared) : Shared :=
  let s := if is_ok (terminal_status s) then set_terminal_status s failure else s in
  let s := set_commit_metrics s (set_accepting (metrics s) false true) in
  let s := fail_all (option_list current) s in
  let s := fail_all (pl_request <$> pending_local_sync s) s in
  let s := set_pending_local_sync s [] in
  let requests := queue s in
  fail_all requests (set_queue s []).

(** * Producers *)

Definition reject_request (s : Shared) : Shared := counted rejected_requests s.

(** The locked section of [try_submit]. *)
Definition admit_request (config : WalCommitCoordinatorConfig) (payload : list byte) (durability encoded_bytes : Z)
    (s : Shared) : result Z * Shared :=
  let m := metrics s in
  if negb (accepting m) then
    (Err (if is_ok (terminal_status s) then kUnavailable else terminal_status s), reject_request s)
  else if admission_sequence_exhausted s then (Err kResourceExhausted, reject_request s)
  else if (pending_requests m >=? maximum_pending_requests config)
          || (encoded_bytes >? u64 (maximum_pending_encoded_bytes config - pending_encoded_bytes m))
  then (Err kResourceExhausted, reject_request s)
  else
    let ticket := next_admission_sequence s in
    let request := {| rq_admission_sequence := ticket; rq_durability := durability;
                      rq_encoded_bytes := encoded_bytes; rq_payload := payload |} in
    let s := set_queue s (queue s ++ [request]) in
    let s := if ticket =? max_u64 then set_admission s ticket true
             else set_admission s (u64 (ticket + 1)) (admission_sequence_exhausted s) in
    let s := set_commit_metrics s
      (set_pending (metrics s) (u64 (pending_requests m + 1)) (u64 (pending_encoded_bytes m + encoded_bytes))) in
    let s := counted admitted_requests s in
    let s := counted_by admitted_encoded_bytes encoded_bytes s in
    (Ok ticket, set_commit_metrics s (raise_high_water (metrics s))).

Definition submit (config : WalCommitCoordinatorConfig) (payload : list byte) (durability : Z) (s : Shared)
  : result Z * Shared :=
  if negb (durability =? kAsync) && negb (durability =? kLocalSync) then
    (Err kInvalidArgument, reject_request s)
  else
    match calculate_record_layout (blen payload) with
    | Err e => (make_unexpected e, reject_request s)
    | Ok layout =>
        let encoded_bytes := layout_total_length layout in
        if (durability =? kLocalSync) && (encoded_bytes >? maximum_sync_batch_encoded_bytes config)
        then (Err kOutOfRange, reject_request s)
        else admit_request config payload durability encoded_bytes s
    end.

(** * The worker *)

Definition can_add_to_window (config : WalCommitCoordinatorConfig) (request : CommitRequest)
    (window : SyncWindow) : bool :=
  if win_request_count window >=? maximum_sync_batch_requests config then false
  else rq_encoded_bytes request
       <=? u64 (maximum_sync_batch_encoded_bytes config - win_encoded_bytes window).

Definition grow_window (window : SyncWindow) (bytes : Z) : SyncWindow :=
  {| win_active := win_active window; win_request_count := u64 (win_request_count window + 1);
     win_encoded_bytes := u64 (win_encoded_bytes window + bytes); win_deadline := win_deadline window |}.
Definition open_window (bytes deadline : Z) : SyncWindow :=
  {| win_active := true; win_request_count := 1; win_encoded_bytes := bytes; win_deadline := deadline |}.

(** [payload] is freed once it is written. *)
Definition without_payload (r : CommitRequest) : CommitRequest :=
  {| rq_admission_sequence := rq_admission_sequence r; rq_durability := rq_durability r;
     rq_encoded_bytes := rq_encoded_bytes r; rq_payload := [] |}.

Section worker.
Context {S : Type} `{CommitWriter S}.

Definition set_shared (c : Coordinator S) (s : Shared) : Coordinator S :=
  {| co_writer := co_writer c; co_config := co_config c; co_shared := s;
     co_window := co_window c; co_pc := co_pc c |}.
Definition goto (c : Coordinator S) (pc : WorkerPc) : Coordinator S :=
  {| co_writer := co_writer c; co_config := co_config c; co_shared := co_shared c;
     co_window := co_window c; co_pc := pc |}.
Definition set_window (c : Coordinator S) (window : SyncWindow) : Coordinator S :=
  {| co_writer := co_writer c; co_config := co_config c; co_shared := co_shared c;
     co_window := window; co_pc := co_pc c |}.
Definition set_writer (c : Coordinator S) (w : S) : Coordinator S :=
  {| co_writer := w; co_config := co_config c; co_shared := co_shared c;
     co_window := co_window c; co_pc := co_pc c |}.

Definition start (config : WalCommitCoordinatorConfig) (w : S) : result (Coordinator S) :=
  check! validate_commit_config config;
  fail_if negb (cw_is_open w) with kInvalidArgument;
  if cw_is_failed w then make_unexpected (cw_failure_status w)
  else
    Ok {| co_writer := w; co_config := config;
          co_shared := {| queue := []; pending_local_sync := [];
            metrics := {| counters := fun _ => 0; maximum_observed_batch_requests := 0;
              maximum_observed_batch_bytes := 0; pending_requests := 0; pending_encoded_bytes := 0;
              high_water_pending_requests := 0; high_water_pending_encoded_bytes := 0;
              accepting := true; terminal_failure := false |};
            terminal_status := kOk; next_admission_sequence := 1;
            admission_sequence_exhausted := false; shutdown_requested := false; completions := ∅ |};
          co_window := reset_window; co_pc := PcDecide |}.

Definition try_submit (payload : list byte) (durability : Z) (c : Coordinator S)
  : result Z * Coordinator S :=
  let '(r, s) := submit (co_config c) payload durability (co_shared c) in (r, set_shared c s).

(** The first section of [shutdown]; it then waits for the worker to be done. *)
Definition request_shutdown (c : Coordinator S) : Coordinator S :=
  let s := set_shutdown (co_shared c) in
  set_shared c (set_commit_metrics s (set_accepting (metrics s) false (terminal_failure (metrics s)))).

(** The locked section at the top of the loop of [run]. *)
Definition take_request (c : Coordinator S) (request : CommitRequest) (rest : list CommitRequest)
  : Coordinator S := goto (set_shared c (set_queue (co_shared c) rest)) (PcAppend request).
Definition decide_next (now : Z) (c : Coordinator S) : option (Coordinator S) :=
  let s := co_shared c in
  let window := co_window c in
  let config := co_config c in
  if terminal_failure (metrics s) then Some (goto c PcStop)
  else if win_active window then
    if shutdown_requested s || (win_request_count window >=? maximum_sync_batch_requests config)
       || (win_encoded_bytes window >=? maximum_sync_batch_encoded_bytes config)
       || (now >=? win_deadline window)
    then Some (goto c PcSync)
    else
      match queue s with
      | request :: rest =>
          if can_add_to_window config request window then Some (take_request c request rest)
          else Some (goto c PcSync)
      | [] => None
      end
  else
    match queue s with
    | request :: rest => Some (take_request c request rest)
    | [] => if shutdown_requested s then Some (goto c PcStop) else None
    end.

(** What the writer reports durable is released. *)
Definition release_durable (c : Coordinator S) : Coordinator S :=
  set_shared c (release_durable_local (cw_durable_record_sequence (co_writer c))
                  (cw_durable_position (co_writer c)) (co_shared c)).

(** The locked section after a successful append. *)
Definition record_append (now : Z) (request : CommitRequest) (rotated : bool) (appended : WalAppendResult)
    (c : Coordinator S) : Coordinator S :=
  let c := set_shared c (counted_by appended_encoded_bytes (rq_encoded_bytes request)
                           (counted appended_requests (co_shared c))) in
  let c := if rotated then set_window (release_durable c) reset_window else c in
  let window := co_window c in
  let c :=
    if win_active window then set_window c (grow_window window (rq_encoded_bytes request))
    else if rq_durability request =? kLocalSync then
      set_window c (open_window (rq_encoded_bytes request)
                      (now + maximum_sync_batch_delay (co_config c)))
    else c in
  let request := without_payload request in
  let s := co_shared c in
  set_shared c
    (if rq_durability request =? kAsync then finish_success request appended None None s
     else set_pending_local_sync s
            (pending_local_sync s ++ [{| pl_request := request; pl_append := appended |}])).

(** The end of an iteration that appended. *)
Definition next_iteration (c : Coordinator S) : Coordinator S :=
  goto c (if cw_is_failed (co_writer c) then PcStop else PcDecide).

Definition worker_step (now : Z) (c : Coordinator S) : option (Coordinator S) :=
  match co_pc c with
  | PcDecide => decide_next now c
  | PcSync => Some (goto (set_shared c (counted synchronization_attempts (co_shared c))) PcSynchronize)
  | PcSynchronize =>
      let (r, w) := cw_synchronize (co_writer c) in
      Some (goto (set_writer c w) (PcSynchronized r))
  | PcSynchronized (Err s) =>
      let c := set_shared c (counted failed_synchronizations (co_shared c)) in
      Some (goto (release_durable c) (PcFailTerminal None s))
  | PcSynchronized (Ok position) =>
      let s := counted successful_synchronizations (co_shared c) in
      let s := release_durable_local (cw_durable_record_sequence (co_writer c)) position s in
      Some (goto (set_window (set_shared c s) reset_window) PcDecide)
  | PcAppend request =>
      let segment_before := pos_segment_number (cw_written_position (co_writer c)) in
      let (r, w) := cw_append (rq_payload request) (co_writer c) in
      Some (goto (set_writer c w) (PcAppended request segment_before r))
  | PcAppended request segment_before (Err s) =>
      let c := release_durable c in
      Some (goto c (if cw_is_failed (co_writer c) then PcFailTerminal (Some request) s
                    else PcFinish request s))
  | PcAppended request segment_before (Ok appended) =>
      let rotated := negb (pos_segment_number (append_record_start appended) =? segment_before) in
      Some (next_iteration (record_append now request rotated appended c))
  | PcFinish request s =>
      Some (next_iteration (set_shared c (finish_failure request s (co_shared c))))
  | PcFailTerminal current failure =>
      let c := set_shared c (fail_terminal current failure (co_shared c)) in
      Some (goto (set_window c reset_window) PcStop)
  | PcStop =>
      let (s, w) := cw_close (co_writer c) in
      Some (goto (set_writer c w) (PcClosed s))
  | PcClosed s =>
      let sh := co_shared c in
      let sh :=
        if is_ok s then sh
        else
          let sh := if is_ok (terminal_status sh) then set_terminal_status sh s else sh in
          set_commit_metrics sh (set_accepting (metrics sh) false true) in
      Some (goto (set_shared c sh) PcDone)
  | PcDone => None
  end.

(** [WalCommitCompletion::wait], once there is a result. *)
Definition wait_completion (c : Coordinator S) (ticket : Z) : option (result WalCommitResult) :=
  completions (co_shared c) !! ticket.
(** The end of [shutdown], once the worker is done. *)
Definition shutdown_status (c : Coordinator S) : option StatusCode :=
  match co_pc c with PcDone => Some (terminal_status (co_shared c)) | _ => None end.
End worker.
