(* ===== verification/WalCommitFacts.v ===== *)
(** The books of the group-commit coordinator: which requests are in flight, what the
    gauges count and which completions are set, through every locked section. *)
From S2P Require Import Prelude Bytes WalCodec PosixIo WalScan WalWriter WalCommit.
#[local] Open Scope Z_scope.

Abbreviation ticket := rq_admission_sequence.
Definition total_encoded (rs : list CommitRequest) : Z := foldr (fun r acc => rq_encoded_bytes r + acc) 0 rs.

(** The limits are [std::size_t] values. *)
Definition commit_config_typed (c : WalCommitCoordinatorConfig) : Prop :=
  in_width 64 (maximum_pending_requests c) /\ in_width 64 (maximum_pending_encoded_bytes c) /\
  in_width 64 (maximum_sync_batch_requests c) /\ in_width 64 (maximum_sync_batch_encoded_bytes c).

(** A request in flight is one that was admitted, perhaps without its payload. *)
Definition is_request (r r0 : CommitRequest) : Prop := without_payload r = without_payload r0.

Record ledger (config : WalCommitCoordinatorConfig) (adm flight : list CommitRequest) (s : Shared) : Prop := {
  ld_tickets : forall k r, adm !! k = Some r -> ticket r = 1 + Z.of_nat k;
  ld_sizes : Forall (fun r => 0 <= rq_encoded_bytes r) adm;
  ld_next : (admission_sequence_exhausted s = false /\ next_admission_sequence s = blen adm + 1 /\
               blen adm < max_u64) \/ (admission_sequence_exhausted s = true /\ blen adm = max_u64);
  ld_known : forall r, r ∈ flight -> exists r0, r0 ∈ adm /\ is_request r r0;
  ld_distinct : NoDup (ticket <$> flight);
  ld_partition : forall t, 1 <= t <= blen adm <-> is_Some (completions s !! t) \/ t ∈ (ticket <$> flight);
  ld_disjoint : forall t, is_Some (completions s !! t) -> t ∉ (ticket <$> flight);
  ld_requests : pending_requests (metrics s) = blen flight;
  ld_bytes : pending_encoded_bytes (metrics s) = total_encoded flight;
  ld_request_limit : blen flight <= maximum_pending_requests config;
  ld_byte_limit : total_encoded flight <= maximum_pending_encoded_bytes config }.

(** What no finished request changes. *)
Record same_control (s s' : Shared) : Prop := {
  sc_queue : queue s' = queue s;
  sc_pending : pending_local_sync s' = pending_local_sync s;
  sc_terminal : terminal_status s' = terminal_status s;
  sc_shutdown : shutdown_requested s' = shutdown_requested s;
  sc_accepting : accepting (metrics s') = accepting (metrics s);
  sc_failure : terminal_failure (metrics s') = terminal_failure (metrics s) }.
#[export] Instance same_control_preorder : PreOrder same_control.
Proof. split; [by intros s|]. intros a b c [] []. split; congruence. Qed.

Lemma total_encoded_perm a b : a ≡ₚ b -> total_encoded a = total_encoded b.
Proof. unfold total_encoded. induction 1; cbn [foldr]; lia. Qed.
#[export] Instance total_encoded_proper : Proper ((≡ₚ) ==> eq) total_encoded.
Proof. intros a b. apply total_encoded_perm. Qed.

(** The order of the requests in flight does not matter. *)
#[export] Instance ledger_proper config adm : Proper ((≡ₚ) ==> (=) ==> impl) (ledger config adm).
Proof.
  intros a b Hab s ? <- [H1 H2 H3 H4 H5 H6 H7 H8 H9 H10 H11].
  split; try done; setoid_rewrite <- Hab; done.
Qed.

(** Counting changes neither the books nor the control. *)
Record same_books (s s' : Shared) : Prop := {
  sb_control : same_control s s';
  sb_completions : completions s' = completions s;
  sb_next : next_admission_sequence s' = next_admission_sequence s;
  sb_exhausted : admission_sequence_exhausted s' = admission_sequence_exhausted s;
  sb_requests : pending_requests (metrics s') = pending_requests (metrics s);
  sb_bytes : pending_encoded_bytes (metrics s') = pending_encoded_bytes (metrics s) }.
#[export] Instance same_books_preorder : PreOrder same_books.
Proof. split; [by intros s|]. intros a b c [] []. split; [by etransitivity|congruence..]. Qed.
Lemma counted_by_books c n s : same_books s (counted_by c n s).
Proof. by split. Qed.
Lemma counted_books c s : same_books s (counted c s).
Proof. by split. Qed.
Lemma same_books_ledger config adm flight s s' :
  same_books s s' -> ledger config adm flight s -> ledger config adm flight s'.
Proof.
  intros [Hc E1 E2 E3 E4 E5] [H1 Hz H2 H3 H4 H5 H6 H7 H8 H9 H10]. split; try done; rewrite ?E1, ?E2, ?E3, ?E4, ?E5; done.
Qed.

Lemma flight_bytes config adm flight s r :
  ledger config adm flight s -> r ∈ flight -> 0 <= rq_encoded_bytes r.
Proof.
  intros H Hr. destruct (ld_known _ _ _ _ H r Hr) as (r0 & Hr0 & E). pose proof (ld_sizes _ _ _ _ H) as Hz.
  rewrite Forall_forall in Hz. injection E as _ _ ->. by apply Hz.
Qed.
Lemma total_encoded_nonneg rs : (forall r, r ∈ rs -> 0 <= rq_encoded_bytes r) -> 0 <= total_encoded rs.
Proof.
  unfold total_encoded. induction rs as [|r rs IH]; intros H; cbn [foldr]; [done|].
  pose proof (H r ltac:(left)). specialize (IH ltac:(intros x Hx; apply H; by right)). lia.
Qed.

(** Completing a request of the flight takes it off the books. *)
Lemma finished_ledger config adm r flight res s s1 :
  ledger config adm (r :: flight) s -> same_books (complete (ticket r) res s) s1 ->
  ledger config adm flight (release_admission r s1) /\ same_control s (release_admission r s1) /\
  completions (release_admission r s1) = <[ticket r := res]> (completions s).
Proof.
  intros Hl [Hc E1 E2 E3 E4 E5]. pose proof (flight_bytes _ _ _ _ r Hl ltac:(left)) as Hb.
  assert (Hall : 0 <= total_encoded flight).
  { apply total_encoded_nonneg. intros x Hx. apply (flight_bytes _ _ _ _ x Hl). by right. }
  destruct Hl as [H1 Hz H2 H3 H4 H5 H6 H7 H8 H9 H10]. rewrite fmap_cons in *. apply NoDup_cons in H4 as [Hr H4].
  assert (Hnone : completions s !! ticket r = None).
  { destruct (completions s !! ticket r) eqn:E; [|done]. destruct (H6 (ticket r)); [by eexists|left]. }
  cbn [complete completions metrics next_admission_sequence admission_sequence_exhausted] in *. rewrite Hnone in E1.
  unfold total_encoded in *. cbn [foldr length] in *. unfold release_admission. rewrite E4, E5, H7, H8.
  destruct (Z.eqb_spec (Z.of_nat (S (length flight))) 0); [lia|].
  destruct (Z.ltb_spec (rq_encoded_bytes r + foldr (fun x acc => rq_encoded_bytes x + acc) 0 flight) (rq_encoded_bytes r)); [lia|].
  cbn [orb]. split; [|split; [destruct Hc; by split|done]].
  split; cbn [set_commit_metrics set_pending metrics completions pending_requests pending_encoded_bytes
    admission_sequence_exhausted next_admission_sequence]; rewrite ?E1, ?E2, ?E3; try done; try (unfold total_encoded; lia).
  - intros x Hx. apply H3. by right.
  - intros t. rewrite H5, elem_of_cons. destruct (decide (t = ticket r)) as [->|Hne].
    + rewrite lookup_insert_eq. naive_solver.
    + rewrite lookup_insert_ne by done. naive_solver.
  - intros t. destruct (decide (t = ticket r)) as [->|Hne]; [done|]. rewrite lookup_insert_ne by done.
    intros Ht Hin. apply (H6 t Ht). by right.
Qed.

Lemma finish_failure_ledger config adm r flight status s :
  ledger config adm (r :: flight) s ->
  ledger config adm flight (finish_failure r status s) /\ same_control s (finish_failure r status s) /\
  completions (finish_failure r status s) = <[ticket r := make_unexpected status]> (completions s).
Proof.
  intros Hl. unfold finish_failure. apply finished_ledger; [done|].
  etransitivity; [apply counted_books|apply counted_by_books].
Qed.
Definition success (r : CommitRequest) (append : WalAppendResult) (position : option PhysicalWalPosition)
    (durable : option Z) : WalCommitResult :=
  {| cr_admission_sequence := ticket r; cr_requested_durability := rq_durability r;
     cr_effective_durability := rq_durability r; cr_append := append;
     cr_synchronization_position := position; cr_durable_record_sequence := durable |}.
Lemma finish_success_ledger config adm r flight append position durable s :
  ledger config adm (r :: flight) s ->
  let s' := finish_success r append position durable s in
  ledger config adm flight s' /\ same_control s s' /\
  completions s' = <[ticket r := Ok (success r append position durable)]> (completions s).
Proof.
  intros Hl s'. unfold s', finish_success. apply finished_ledger; [done|].
  destruct (_ =? _); (etransitivity; [apply counted_books|apply counted_by_books]).
Qed.

(** * Failing and releasing many requests *)

(** The completions only grow, by results of one kind. *)
Definition added (P : Z -> result WalCommitResult -> Prop) (s s' : Shared) : Prop :=
  completions s ⊆ completions s' /\
  forall t res, completions s' !! t = Some res -> completions s !! t = Some res \/ P t res.
Definition is_error (t : Z) (res : result WalCommitResult) : Prop := exists e, res = Err e /\ e <> kOk.

Lemma added_refl (P : Z -> result WalCommitResult -> Prop) s s' : completions s' = completions s -> added P s s'.
Proof. intros E. split; [by rewrite E|]. intros t res. rewrite E. by left. Qed.
Lemma added_trans (P : Z -> result WalCommitResult -> Prop) a b c : added P a b -> added P b c -> added P a c.
Proof. intros [S1 A1] [S2 A2]. split; [by etransitivity|]. intros t res [H|?]%A2; [by apply A1|by right]. Qed.
Lemma added_mono (P Q : Z -> result WalCommitResult -> Prop) s s' :
  (forall t res, P t res -> Q t res) -> added P s s' -> added Q s s'.
Proof. intros HPQ [Hs Ha]. split; [done|]. intros t res [?|?]%Ha; [by left|right; by apply HPQ]. Qed.
Lemma added_insert (P : Z -> result WalCommitResult -> Prop) s s' t res :
  completions s !! t = None -> completions s' = <[t := res]> (completions s) -> P t res -> added P s s'.
Proof.
  intros Hn E HP. split; rewrite E; [by apply insert_subseteq|].
  intros t' res'. rewrite lookup_insert_Some. intros [[<- <-]|[_ ?]]; [by right|by left].
Qed.
Lemma flight_open config adm r flight s : ledger config adm (r :: flight) s -> completions s !! ticket r = None.
Proof.
  intros H. destruct (completions s !! ticket r) eqn:E; [|done].
  destruct (ld_disjoint _ _ _ _ H (ticket r)); [by eexists|left].
Qed.
Lemma unexpected_error t s : is_error t (make_unexpected s).
Proof. destruct (@make_unexpected_not_ok WalCommitResult s) as (e & -> & He). by exists e. Qed.

Lemma fail_all_ledger config adm rs flight : forall s,
  ledger config adm (rs ++ flight) s ->
  ledger config adm flight (fail_all rs s) /\ same_control s (fail_all rs s) /\ added is_error s (fail_all rs s).
Proof.
  induction rs as [|r rs IH]; intros s Hl; cbn [fail_all fold_left app] in *.
  - split; [done|]. split; [done|]. by apply added_refl.
  - destruct (finish_failure_ledger _ _ _ _ (terminal_status s) _ Hl) as (Hl1 & Hc1 & E1).
    destruct (IH _ Hl1) as (Hl2 & Hc2 & Ha2). split; [done|]. split; [by etransitivity|].
    eapply added_trans; [|exact Ha2]. eapply added_insert; [by eapply flight_open|exact E1|apply unexpected_error].
Qed.

Definition in_flight (hand : option CommitRequest) (s : Shared) : list CommitRequest :=
  (pl_request <$> pending_local_sync s) ++ option_list hand ++ queue s.

Lemma ledger_rearranged config adm s s' flight :
  ledger config adm flight s -> completions s' = completions s ->
  next_admission_sequence s' = next_admission_sequence s ->
  admission_sequence_exhausted s' = admission_sequence_exhausted s ->
  pending_requests (metrics s') = pending_requests (metrics s) ->
  pending_encoded_bytes (metrics s') = pending_encoded_bytes (metrics s) ->
  ledger config adm flight s'.
Proof.
  intros [H1 Hz H2 H3 H4 H5 H6 H7 H8 H9 H10] E1 E2 E3 E4 E5. split; rewrite ?E1, ?E2, ?E3, ?E4, ?E5; done.
Qed.

(** Everything in flight fails. *)
Lemma fail_terminal_ledger config adm current failure s :
  ledger config adm (in_flight current s) s ->
  let s' := fail_terminal current failure s in
  ledger config adm [] s' /\ added is_error s s' /\ queue s' = [] /\ pending_local_sync s' = [] /\
  accepting (metrics s') = false /\ terminal_failure (metrics s') = true /\
  shutdown_requested s' = shutdown_requested s /\
  terminal_status s' = if is_ok (terminal_status s) then failure else terminal_status s.
Proof.
  intros Hl. cbv zeta. unfold fail_terminal.
  set (s0 := if is_ok (terminal_status s) then set_terminal_status s failure else s).
  set (s1 := set_commit_metrics s0 (set_accepting (metrics s0) false true)).
  assert (E0 : queue s1 = queue s /\ pending_local_sync s1 = pending_local_sync s /\
    completions s1 = completions s /\ shutdown_requested s1 = shutdown_requested s /\
    terminal_status s1 = (if is_ok (terminal_status s) then failure else terminal_status s))
    by (unfold s1, s0; by destruct (is_ok (terminal_status s))).
  destruct E0 as (Eq & Ep & Ec & Es & Et).
  assert (Hl1 : ledger config adm (option_list current ++ (pl_request <$> pending_local_sync s1) ++ queue s1 ++ []) s1).
  { rewrite app_nil_r, Eq, Ep, !app_assoc, (Permutation_app_comm (option_list current)), <- app_assoc.
    eapply ledger_rearranged; [exact Hl|..]; unfold s1, s0; by destruct (is_ok (terminal_status s)). }
  destruct (fail_all_ledger _ _ _ _ _ Hl1) as (Hl2 & [Q2 P2 T2 S2 A2 F2] & Ha2). set (s2 := fail_all (option_list current) s1) in *.
  rewrite <- P2, <- Q2 in Hl2. destruct (fail_all_ledger _ _ _ _ _ Hl2) as (Hl3 & [Q3 P3 T3 S3 A3 F3] & Ha3).
  set (s3 := fail_all (pl_request <$> pending_local_sync s2) s2) in *.
  change (queue (set_pending_local_sync s3 [])) with (queue s3). rewrite <- Q3 in Hl3.
  assert (Hl3' : ledger config adm (queue s3 ++ []) (set_queue (set_pending_local_sync s3 []) []))
    by (eapply ledger_rearranged; [exact Hl3|done..]).
  destruct (fail_all_ledger _ _ _ _ _ Hl3') as (Hl4 & [Q4 P4 T4 S4 A4 F4] & Ha4).
  set (s4 := fail_all (queue s3) _) in *. cbn [set_queue set_pending_local_sync queue pending_local_sync
    terminal_status shutdown_requested metrics] in *.
  split; [done|]. split.
  - eapply added_trans; [|exact Ha4]. eapply added_trans; [|by apply added_refl].
    eapply added_trans; [|exact Ha3]. eapply added_trans; [|exact Ha2]. by apply added_refl.
  - rewrite Q4, P4, A4, F4, S4, T4, A3, F3, S3, T3, A2, F2, S2, T2, Es, Et. done.
Qed.

(** The durable prefix is acknowledged. *)
Definition acknowledged (released : list PendingLocalSync) (durable : Z) (position : PhysicalWalPosition)
    (t : Z) (res : result WalCommitResult) : Prop :=
  exists p, p ∈ released /\ t = ticket (pl_request p) /\
    res = Ok (success (pl_request p) (pl_append p) (Some position) (Some durable)).

Lemma release_prefix_ledger config adm durable position flight : forall pending n b s,
  ledger config adm ((pl_request <$> pending) ++ flight) s ->
  exists released rest n' b' s',
    release_prefix pending durable position n b s = (rest, n', b', s') /\ pending = released ++ rest /\
    Forall (fun p => append_record_sequence (pl_append p) <= durable) released /\
    (forall p, head rest = Some p -> durable < append_record_sequence (pl_append p)) /\
    ledger config adm ((pl_request <$> rest) ++ flight) s' /\ same_control s s' /\
    added (acknowledged released durable position) s s'.
Proof.
  induction pending as [|p pending IH]; intros n b s Hl; cbn [release_prefix].
  - exists [], [], n, b, s. split_and!; try done. by apply added_refl.
  - destruct (Z.leb_spec (append_record_sequence (pl_append p)) durable) as [Hle|Hgt].
    + rewrite fmap_cons in Hl. cbn [app] in Hl.
      destruct (finish_success_ledger _ _ _ _ (pl_append p) (Some position) (Some durable) _ Hl) as (Hl1 & Hc1 & E1).
      destruct (IH (n + 1) (u64 (b + rq_encoded_bytes (pl_request p))) _ Hl1)
        as (released & rest & n' & b' & s' & E & -> & Hr & Hh & Hl2 & Hc2 & Ha).
      exists (p :: released), rest, n', b', s'. split; [exact E|]. split; [done|]. split; [by constructor|].
      split; [done|]. split; [done|]. split; [by etransitivity|]. eapply added_trans.
      * eapply added_insert; [by eapply flight_open|exact E1|]. exists p. split; [left|done].
      * eapply added_mono; [|exact Ha]. intros t res (q & Hq & ?). exists q. split; [by right|done].
    + exists [], (p :: pending), n, b, s. split_and!; try done; [by intros q [= <-]|by apply added_refl].
Qed.

Lemma release_durable_local_ledger config adm durable position flight s :
  ledger config adm ((pl_request <$> pending_local_sync s) ++ flight) s ->
  let s' := release_durable_local durable position s in
  exists released,
    pending_local_sync s = released ++ pending_local_sync s' /\
    Forall (fun p => append_record_sequence (pl_append p) <= durable) released /\
    (forall p, head (pending_local_sync s') = Some p -> durable < append_record_sequence (pl_append p)) /\
    ledger config adm ((pl_request <$> pending_local_sync s') ++ flight) s' /\
    same_control (set_pending_local_sync s (pending_local_sync s')) s' /\
    added (acknowledged released durable position) s s'.
Proof.
  intros Hl. cbv zeta. unfold release_durable_local.
  destruct (release_prefix_ledger _ _ durable position _ _ 0 0 _ Hl)
    as (released & rest & n & b & s1 & -> & E & Hr & Hh & Hl1 & [Q1 P1 T1 S1 A1 F1] & Ha).
  set (s2 := set_pending_local_sync s1 rest).
  assert (Hgo : forall s3, same_books s2 s3 -> exists released0,
    pending_local_sync s = released0 ++ pending_local_sync s3 /\
    Forall (fun p => append_record_sequence (pl_append p) <= durable) released0 /\
    (forall p, head (pending_local_sync s3) = Some p -> durable < append_record_sequence (pl_append p)) /\
    ledger config adm ((pl_request <$> pending_local_sync s3) ++ flight) s3 /\
    same_control (set_pending_local_sync s (pending_local_sync s3)) s3 /\
    added (acknowledged released0 durable position) s s3).
  { intros s3 Hb. pose proof Hb as [[Q3 P3 T3 S3 A3 F3] C3 _ _ _ _]. cbn [s2 set_pending_local_sync queue
      pending_local_sync terminal_status shutdown_requested metrics completions] in *.
    exists released. rewrite P3. split_and!; try done.
    - eapply same_books_ledger; [exact Hb|]. by eapply ledger_rearranged.
    - split; cbn; congruence.
    - eapply added_trans; [exact Ha|by apply added_refl]. }
  destruct (negb _); [|by apply Hgo]. apply Hgo. by split.
Qed.

(** * Admission *)

Lemma layout_size (payload : list byte) layout :
  calculate_record_layout (blen payload) = Ok layout -> 0 <= layout_total_length layout.
Proof.
  rewrite calculate_record_layout_spec by lia. destruct (_ >? _); [done|]. intros [= <-]. cbn.
  unfold frame_length, pad. Z.to_euclidean_division_equations. lia.
Qed.

Lemma total_encoded_snoc rs r : total_encoded (rs ++ [r]) = total_encoded rs + rq_encoded_bytes r.
Proof. unfold total_encoded. rewrite foldr_app. cbn [foldr]. induction rs as [|x rs IH]; cbn [foldr]; lia. Qed.

(** A request that was admitted. *)
Definition request_of (payload : list byte) (durability bytes t : Z) : CommitRequest :=
  {| rq_admission_sequence := t; rq_durability := durability; rq_encoded_bytes := bytes; rq_payload := payload |}.

Lemma admit_ledger config adm flight payload durability bytes s r s' :
  commit_config_typed config -> ledger config adm flight s -> 0 <= bytes ->
  admit_request config payload durability bytes s = (r, s') ->
  match r with
  | Ok t =>
      let rq := request_of payload durability bytes (blen adm + 1) in
      t = blen adm + 1 /\ ledger config (adm ++ [rq]) (flight ++ [rq]) s' /\ accepting (metrics s) = true /\
      same_control (set_queue s (queue s ++ [rq])) s' /\ completions s' = completions s
  | Err e => (e <> kOk) /\ same_books s s'
  end.
Proof.
  intros (W1 & W2 & _) Hl Hb. unfold admit_request. cbv zeta.
  destruct (accepting (metrics s)) eqn:Ea; cbn [negb]; cycle 1.
  { intros [= <- <-]. split; [|apply counted_books]. destruct (is_ok (terminal_status s)) eqn:E; [done|].
    by apply bool_decide_eq_false in E. }
  pose proof Hl as [H1 Hz H2 H3 H4 H5 H6 H7 H8 H9 H10].
  destruct H2 as [(Ex & En & Hn)|[Ex Hn]]; rewrite Ex;
    [|intros [= <- <-]; split; [done|apply counted_books]].
  assert (Hf0 : 0 <= total_encoded flight) by (apply total_encoded_nonneg; intros x Hx; by apply (flight_bytes _ _ _ _ x Hl)).
  rewrite H7, H8, Z.geb_leb, Z.gtb_ltb, (wrap_small 64) by width_lia.
  destruct (Z.leb_spec (maximum_pending_requests config) (blen flight)); [intros [= <- <-]; split; [done|apply counted_books]|].
  destruct (Z.ltb_spec (maximum_pending_encoded_bytes config - total_encoded flight) bytes);
    [intros [= <- <-]; split; [done|apply counted_books]|]. cbn [orb].
  intros [= <- <-]. rewrite En. fold (request_of payload durability bytes (blen adm + 1)).
  set (rq := request_of payload durability bytes (blen adm + 1)).
  assert (Hnew : 1 <= blen adm + 1 <= blen adm + 1) by lia.
  assert (Hfresh : (blen adm + 1 ∉ (ticket <$> flight)) /\ completions s !! (blen adm + 1) = None).
  { assert (Hnot : ~ (is_Some (completions s !! (blen adm + 1)) \/ blen adm + 1 ∈ (ticket <$> flight))) by (rewrite <- H5; lia).
    split; [naive_solver|]. apply eq_None_not_Some. naive_solver. }
  destruct Hfresh as [Hfr Hco]. split; [done|].
  split; [|split; [done|split; [|destruct (blen adm + 1 =? max_u64); done]]].
  2: { destruct (blen adm + 1 =? max_u64); by split. }
  rewrite (wrap_small 64 (blen flight + 1)) by width_lia. rewrite (wrap_small 64 (total_encoded flight + bytes)) by width_lia.
  assert (Hbooks : forall s2, completions s2 = completions s ->
    (admission_sequence_exhausted s2 = false /\ next_admission_sequence s2 = blen adm + 1 + 1 /\ blen adm + 1 < max_u64) \/
    (admission_sequence_exhausted s2 = true /\ blen adm + 1 = max_u64) ->
    pending_requests (metrics s2) = blen flight + 1 -> pending_encoded_bytes (metrics s2) = total_encoded flight + bytes ->
    ledger config (adm ++ [rq]) (flight ++ [rq]) s2).
  { intros s2 Ec Enx Er Eb. split; rewrite ?Ec, ?Er, ?Eb, ?length_app, ?total_encoded_snoc; cbn [length]; try (cbn; lia).
    - intros k x. rewrite lookup_app_Some, list_lookup_singleton_Some. intros [?|(? & ? & <-)]; [by apply H1|].
      cbn. lia.
    - apply Forall_app. split; [done|]. by constructor.
    - replace (Z.of_nat (length adm + 1)) with (blen adm + 1) by lia. done.
    - intros x [Hx|Hx%list_elem_of_singleton]%elem_of_app.
      + destruct (H3 x Hx) as (x0 & Hx0 & ?). exists x0. split; [apply elem_of_app; by left|done].
      + exists rq. rewrite Hx. split; [apply elem_of_app; right; left|done].
    - rewrite fmap_app. apply NoDup_app. split; [done|]. split; [|apply NoDup_singleton].
      intros t Ht ->%list_elem_of_singleton. done.
    - intros t. rewrite fmap_app, elem_of_app, list_fmap_singleton, list_elem_of_singleton. cbn [rq request_of rq_admission_sequence].
      specialize (H5 t). destruct (decide (t = blen adm + 1)) as [->|Hne]; [split; [auto|lia]|].
      transitivity (1 <= t <= blen adm); [lia|]. rewrite H5. naive_solver.
    - intros t Ht. rewrite fmap_app, elem_of_app, list_fmap_singleton, list_elem_of_singleton. cbn. intros [Hin| ->]; [by apply (H6 t Ht)|].
      rewrite Hco in Ht. by destruct Ht. }
  destruct (Z.eqb_spec (blen adm + 1) max_u64) as [Emax|Emax]; apply Hbooks; try done; [by right|].
  left. cbn. rewrite wrap_small by width_lia. split; [done|]. lia.
Qed.

Lemma submit_ledger config adm flight payload durability s r s' :
  commit_config_typed config -> ledger config adm flight s ->
  submit config payload durability s = (r, s') ->
  match r with
  | Ok t => exists bytes,
      let rq := request_of payload durability bytes (blen adm + 1) in
      t = blen adm + 1 /\ ledger config (adm ++ [rq]) (flight ++ [rq]) s' /\ accepting (metrics s) = true /\
      same_control (set_queue s (queue s ++ [rq])) s' /\ completions s' = completions s /\
      (durability = kAsync \/ durability = kLocalSync /\ bytes <= maximum_sync_batch_encoded_bytes config)
  | Err e => (e <> kOk) /\ same_books s s'
  end.
Proof.
  intros Hty Hl. unfold submit.
  destruct (negb (durability =? kAsync) && negb (durability =? kLocalSync)) eqn:Ed.
  { intros [= <- <-]. split; [done|apply counted_books]. }
  destruct (calculate_record_layout (blen payload)) as [layout|e] eqn:El; cycle 1.
  { destruct (@make_unexpected_not_ok Z e) as (e' & -> & He). intros [= <- <-]. split; [done|apply counted_books]. }
  destruct ((durability =? kLocalSync) && _) eqn:Es; [intros [= <- <-]; split; [done|apply counted_books]|].
  intros Ha. pose proof (admit_ledger _ _ _ _ _ _ _ _ _ Hty Hl (layout_size _ _ El) Ha) as H.
  destruct r as [t|]; [|done]. destruct H as (H1 & H2 & H3 & H4 & H5). exists (layout_total_length layout).
  split_and!; try done.
  destruct (Z.eqb_spec durability kAsync) as [|Hna]; [by left|]. right. cbn [negb andb] in Ed.
  destruct (Z.eqb_spec durability kLocalSync) as [|]; [|done]. split; [done|]. cbn [andb] in Es.
  rewrite Z.gtb_ltb in Es. by apply Z.ltb_ge in Es.
Qed.
