(* ===== verification/WalCommitInvariant.v ===== *)
(** The invariant of the group-commit coordinator, against what a writer promises. *)
From Stdlib Require Import Sorted.
From S2P Require Import Prelude Bytes WalCodec PosixIo WalScan WalWriter WalCommit WalCommitFacts.
#[local] Open Scope Z_scope.

(** What the coordinator relies on: [cw_holds s ps] says that the writer [s] works and
    its log holds the payloads [ps], in the records 1, 2, and so on; [cw_reads s ps] that the
    log [s] leaves reads as the payloads [ps], also after [s] has failed or was closed. *)
Class CommitWriterLaws (S : Type) `{CommitWriter S} := {
  cw_holds : S -> list (list byte) -> Prop;
  cw_holds_works s ps : cw_holds s ps -> cw_is_failed s = false;
  cw_holds_durable s ps : cw_holds s ps -> 0 <= cw_durable_record_sequence s <= blen ps;
  cw_append_law s ps p r s' : cw_holds s ps -> cw_append p s = (r, s') ->
    match r with
    | Ok out =>
        cw_holds s' (ps ++ [p]) /\ append_record_sequence out = blen ps + 1 /\
        cw_durable_record_sequence s <= cw_durable_record_sequence s' /\
        (pos_segment_number (append_record_start out) <> pos_segment_number (cw_written_position s) ->
         blen ps <= cw_durable_record_sequence s')
    | Err e =>
        e <> kOk /\ cw_durable_record_sequence s <= cw_durable_record_sequence s' <= blen ps /\
        (cw_is_failed s' = false -> cw_holds s' ps)
    end;
  cw_synchronize_law s ps r s' : cw_holds s ps -> cw_synchronize s = (r, s') ->
    match r with
    | Ok _ => cw_holds s' ps /\ cw_durable_record_sequence s' = blen ps
    | Err e => e <> kOk /\ cw_durable_record_sequence s <= cw_durable_record_sequence s' <= blen ps
    end;
  cw_reads : S -> list (list byte) -> Prop;
  cw_holds_reads s ps : cw_holds s ps -> cw_reads s ps;
  cw_append_reads s ps p e s' : cw_holds s ps -> cw_append p s = (Err e, s') -> cw_reads s' ps \/ cw_reads s' (ps ++ [p]);
  cw_synchronize_reads s ps e s' : cw_holds s ps -> cw_synchronize s = (Err e, s') -> cw_reads s' ps;
  cw_close_reads s ps : cw_reads s ps -> cw_reads (cw_close s).2 ps }.

(** The request in the worker's hands. *)
Definition hand (pc : WorkerPc) : option CommitRequest :=
  match pc with
  | PcAppend r | PcAppended r _ _ | PcFinish r _ => Some r
  | PcFailTerminal current _ => current
  | _ => None
  end.
(** The request that is about to be appended. *)
Definition waiting (pc : WorkerPc) : list CommitRequest :=
  match pc with PcAppend r => [r] | _ => [] end.

(** [done]: the requests whose payloads were appended, after the first [base] records. *)
Definition placed (base : Z) (done : list CommitRequest) (t sequence : Z) (r : CommitRequest) : Prop :=
  exists k, done !! k = Some r /\ ticket r = t /\ sequence = base + 1 + Z.of_nat k.

Definition completion_ok (base : Z) (done : list CommitRequest) (t : Z) (res : result WalCommitResult) : Prop :=
  match res with
  | Err e => e <> kOk
  | Ok out => exists r,
      placed base done t (append_record_sequence (cr_append out)) r /\ cr_admission_sequence out = t /\
      cr_requested_durability out = rq_durability r /\ cr_effective_durability out = rq_durability r /\
      if rq_durability r =? kAsync then
        cr_durable_record_sequence out = None /\ cr_synchronization_position out = None
      else exists durable, cr_durable_record_sequence out = Some durable /\
        append_record_sequence (cr_append out) <= durable <= base + blen done
  end.
Definition pending_ok (base : Z) (done : list CommitRequest) (p : PendingLocalSync) : Prop :=
  exists r, placed base done (ticket (pl_request p)) (append_record_sequence (pl_append p)) r /\
    is_request (pl_request p) r /\ rq_durability r = kLocalSync.
(** Every acknowledged synchronisation is within [durable]. *)
Definition acks_within (durable : Z) (s : Shared) : Prop :=
  forall t out d, completions s !! t = Some (Ok out) -> cr_durable_record_sequence out = Some d -> d <= durable.

Definition window_ok (config : WalCommitCoordinatorConfig) (pc : WorkerPc) (s : Shared) (window : SyncWindow) : Prop :=
  (win_active window = false -> pending_local_sync s = []) /\
  0 <= win_request_count window <= maximum_sync_batch_requests config /\
  0 <= win_encoded_bytes window <= maximum_sync_batch_encoded_bytes config /\
  match pc with
  | PcAppend r | PcAppended r _ _ => win_active window = true ->
      win_request_count window < maximum_sync_batch_requests config /\
      win_encoded_bytes window + rq_encoded_bytes r <= maximum_sync_batch_encoded_bytes config
  | _ => True
  end.

Section invariant.
Context {S : Type} {HW : CommitWriter S} {HL : CommitWriterLaws S}.
Context (config : WalCommitCoordinatorConfig) (Htyped : commit_config_typed config).
(** The payloads the writer had when the coordinator took it. *)
Context (first : list (list byte)).
#[local] Abbreviation base := (blen first).
Definition log_of (done : list CommitRequest) : list (list byte) := first ++ (rq_payload <$> done).

(** The writer, at each point of the worker. *)
Definition working (w : S) (s : Shared) (done : list CommitRequest) : Prop :=
  cw_holds w (log_of done) /\ acks_within (cw_durable_record_sequence w) s.
Definition worker_ok (pc : WorkerPc) (w : S) (s : Shared) (done : list CommitRequest) : Prop :=
  match pc with
  | PcDecide | PcSync | PcSynchronize | PcAppend _ => working w s done
  | PcFinish _ e => e <> kOk /\ working w s done
  | PcSynchronized (Ok _) => working w s done /\ cw_durable_record_sequence w = blen (log_of done)
  | PcSynchronized (Err e) => e <> kOk /\ cw_durable_record_sequence w <= blen (log_of done)
  | PcAppended r before (Ok out) =>
      working w s done /\ last done = Some r /\ append_record_sequence out = blen (log_of done) /\
      (pos_segment_number (append_record_start out) <> before ->
       blen (log_of done) - 1 <= cw_durable_record_sequence w)
  | PcAppended _ _ (Err e) =>
      e <> kOk /\ cw_durable_record_sequence w <= blen (log_of done) /\
      (cw_is_failed w = false -> working w s done)
  | PcFailTerminal _ e => e <> kOk
  | PcStop => queue s = [] /\ pending_local_sync s = [] /\ accepting (metrics s) = false /\
      (terminal_failure (metrics s) = false -> working w s done)
  | PcClosed _ | PcDone => queue s = [] /\ pending_local_sync s = [] /\ accepting (metrics s) = false /\
      (terminal_failure (metrics s) = false -> exists w0, w = (cw_close w0).2 /\ working w0 s done)
  end.
(** Whether the worker has failed for good. *)
Definition ending (pc : WorkerPc) : bool :=
  match pc with PcStop | PcClosed _ | PcDone => true | _ => false end.

Record commit_inv (c : Coordinator S) (adm done : list CommitRequest) : Prop := {
  ci_config : co_config c = config;
  ci_ledger : ledger config adm (in_flight (hand (co_pc c)) (co_shared c)) (co_shared c);
  ci_known : forall r, r ∈ option_list (hand (co_pc c)) ++ queue (co_shared c) -> r ∈ adm;
  ci_done : forall r, r ∈ done -> r ∈ adm;
  ci_sorted : StronglySorted Z.lt (ticket <$> done ++ waiting (co_pc c) ++ queue (co_shared c));
  ci_durability : forall r, r ∈ adm -> rq_durability r = kAsync \/
    rq_durability r = kLocalSync /\ rq_encoded_bytes r <= maximum_sync_batch_encoded_bytes config;
  ci_pending : Forall (pending_ok base done) (pending_local_sync (co_shared c));
  ci_completions : forall t res, completions (co_shared c) !! t = Some res -> completion_ok base done t res;
  ci_window : window_ok config (co_pc c) (co_shared c) (co_window c);
  ci_worker : worker_ok (co_pc c) (co_writer c) (co_shared c) done;
  ci_shutdown : shutdown_requested (co_shared c) = true -> accepting (metrics (co_shared c)) = false;
  ci_terminal : terminal_failure (metrics (co_shared c)) = negb (is_ok (terminal_status (co_shared c)));
  ci_failing : terminal_failure (metrics (co_shared c)) = true ->
    accepting (metrics (co_shared c)) = false /\ ending (co_pc c) = true }.

(** ** Producers *)

Lemma known_ticket adm flight s r : ledger config adm flight s -> r ∈ adm -> 1 <= ticket r <= blen adm.
Proof.
  intros Hl [k Hk]%list_elem_of_lookup. rewrite (ld_tickets _ _ _ _ Hl _ _ Hk). apply lookup_lt_Some in Hk. lia.
Qed.
Lemma strongly_sorted_snoc l (x : Z) : StronglySorted Z.lt l -> (forall y, y ∈ l -> y < x) -> StronglySorted Z.lt (l ++ [x]).
Proof.
  induction l as [|y l IH]; cbn [app]; intros H Hx; [by repeat constructor|].
  apply StronglySorted_inv in H as [H Hy]. constructor; [apply IH; [done|]; intros z Hz; apply Hx; by right|].
  apply Forall_app. split; [done|]. constructor; [apply Hx; left|done].
Qed.

(** The worker's view depends on the completions alone, until it ends. *)
Lemma worker_ok_open pc w s s' done :
  ending pc = false -> completions s' = completions s -> worker_ok pc w s done -> worker_ok pc w s' done.
Proof.
  intros He Ec. assert (Hw : working w s done -> working w s' done).
  { intros [? Ha]. split; [done|]. intros t out d. rewrite Ec. apply Ha. }
  destruct pc as [| | |[]| |? ? []| | | | |]; cbn [worker_ok ending] in *; naive_solver.
Qed.
Lemma worker_ok_same pc w s s' done :
  same_books s s' -> worker_ok pc w s done -> worker_ok pc w s' done.
Proof.
  intros [[Q P T Sh A F] Ec _ _ _ _] H. destruct (ending pc) eqn:He; [|by eapply worker_ok_open].
  assert (Hw : forall x, working x s done -> working x s' done).
  { intros x [? Ha]. split; [done|]. intros t out d. rewrite Ec. apply Ha. }
  destruct pc; try done; cbn [worker_ok] in *; rewrite Q, P, A, F; destruct H as (? & ? & ? & Hlast);
    split_and!; try done; intros Hf; specialize (Hlast Hf); naive_solver.
Qed.
Lemma window_ok_pending pc s s' window :
  pending_local_sync s' = pending_local_sync s -> window_ok config pc s window -> window_ok config pc s' window.
Proof. unfold window_ok. by intros ->. Qed.

Lemma books_inv c s' adm done :
  same_books (co_shared c) s' -> commit_inv c adm done -> commit_inv (set_shared c s') adm done.
Proof.
  intros Hb [H1 H2 H3 H4 H5 H6 H7 H8 H9 H10 H11 H12 H13].
  pose proof Hb as [[Q P T Sh A F] Ec _ _ _ _]. split; cbn [set_shared co_config co_pc co_shared co_window co_writer];
    rewrite ?Q, ?P, ?T, ?Sh, ?A, ?F, ?Ec; try done.
  - unfold in_flight. rewrite P, Q. by eapply same_books_ledger.
  - by eapply window_ok_pending.
  - by eapply worker_ok_same.
Qed.

Lemma submit_inv c adm done payload durability r c' :
  commit_inv c adm done -> try_submit payload durability c = (r, c') ->
  match r with
  | Ok t => exists rq, ticket rq = t /\ rq_payload rq = payload /\ rq_durability rq = durability /\
      t = blen adm + 1 /\ last (queue (co_shared c')) = Some rq /\ commit_inv c' (adm ++ [rq]) done
  | Err e => (e <> kOk) /\ commit_inv c' adm done
  end.
Proof.
  intros Hi. unfold try_submit. destruct (submit _ _ _ _) as [r' s'] eqn:Es. intros [= -> <-].
  pose proof Hi as [H1 H2 H3 H4 H5 H6 H7 H8 H9 H10 H11 H12 H13]. rewrite H1 in Es.
  pose proof (submit_ledger _ _ _ _ _ _ _ _ Htyped H2 Es) as H. destruct r as [t|e];
    [|destruct H as [He Hb]; split; [done|by apply books_inv]].
  destruct H as (bytes & -> & Hl & Ha & [Q P T Sh A F] & Ec & Hd).
  set (rq := request_of payload durability bytes (blen adm + 1)) in *. exists rq. split_and!; try done; [by cbn; rewrite Q; cbn; rewrite last_snoc|].
  cbn [set_queue queue pending_local_sync terminal_status shutdown_requested metrics] in *.
  assert (Hend : ending (co_pc c) = false).
  { destruct (ending (co_pc c)) eqn:He; [|done]. destruct (co_pc c); try done; cbn [worker_ok] in H10; naive_solver congruence. }
  split; cbn [set_shared co_config co_pc co_shared co_window co_writer]; rewrite ?Q, ?P, ?T, ?Sh, ?A, ?F, ?Ec; try done.
  - unfold in_flight in *. rewrite P, Q, !app_assoc. by rewrite !app_assoc in Hl.
  - intros x. rewrite app_assoc, !elem_of_app, list_elem_of_singleton. intros [[?|?]|?]; [left; apply H3, elem_of_app; by left| |by right].
    left. apply H3, elem_of_app. by right.
  - intros x Hx. apply elem_of_app. left. by apply H4.
  - rewrite !app_assoc, fmap_app. apply strongly_sorted_snoc; [by rewrite <- app_assoc|].
    intros y (x & -> & Hx)%list_elem_of_fmap. rewrite <- app_assoc in Hx. cbn [rq request_of rq_admission_sequence].
    assert (x ∈ adm) as Hin.
    { apply elem_of_app in Hx as [Hx|Hx]; [by apply H4|]. apply H3. apply elem_of_app in Hx as [Hx|Hx]; apply elem_of_app; [left|by right].
      destruct (co_pc c); try (by apply elem_of_nil in Hx). done. }
    pose proof (known_ticket _ _ _ _ H2 Hin). lia.
  - intros x [Hx|Hx%list_elem_of_singleton]%elem_of_app; [by apply H6|]. rewrite Hx. cbn. destruct Hd as [->|[-> ?]]; [by left|by right].
  - by eapply window_ok_pending.
  - eapply worker_ok_open; [done|exact Ec|done].
Qed.

Lemma shutdown_inv c adm done : commit_inv c adm done -> commit_inv (request_shutdown c) adm done.
Proof.
  intros [H1 H2 H3 H4 H5 H6 H7 H8 H9 H10 H11 H12 H13].
  split; cbn [request_shutdown set_shared co_config co_pc co_shared co_window co_writer]; try done.
  - eapply ledger_rearranged; [exact H2|done..].
  - destruct (ending (co_pc c)) eqn:He; [|by apply (worker_ok_open _ _ (co_shared c))].
    destruct (co_pc c); try done; cbn [worker_ok] in *; destruct H10 as (? & ? & ? & Hlast); split_and!; try done.
  - intros Hf. by apply H13 in Hf as [_ ?].
Qed.

(** ** Locked sections of the worker *)

Definition completed_ok (done : list CommitRequest) (s : Shared) : Prop :=
  forall t res, completions s !! t = Some res -> completion_ok base done t res.

Lemma placed_grows done more t q r : placed base done t q r -> placed base (done ++ more) t q r.
Proof. intros (k & Hk & ?). exists k. split; [by apply lookup_app_l_Some|done]. Qed.
Lemma completion_grows done more t res : completion_ok base done t res -> completion_ok base (done ++ more) t res.
Proof.
  destruct res as [out|]; [|done]. intros (r & Hp & H1 & H2 & H3 & H4). exists r.
  split; [by apply placed_grows|]. split_and!; try done. destruct (_ =? _); [done|].
  destruct H4 as (d & ? & ?). exists d. rewrite length_app. split; [done|lia].
Qed.
Lemma pending_grows done more p : pending_ok base done p -> pending_ok base (done ++ more) p.
Proof. intros (r & Hp & ?). exists r. split; [by apply placed_grows|done]. Qed.
Lemma log_length done : blen (log_of done) = base + blen done.
Proof. unfold log_of. rewrite length_app, length_fmap. lia. Qed.

Lemma errors_completed done s s' : added is_error s s' -> completed_ok done s -> completed_ok done s'.
Proof. intros [_ Ha] H t res [?|(e & -> & ?)]%Ha; [by apply H|done]. Qed.
Lemma errors_acks D s s' : added is_error s s' -> acks_within D s -> acks_within D s'.
Proof. intros [_ Ha] H t out d [?|(e & [=] & ?)]%Ha; by eapply H. Qed.

(** Releasing what is durable. *)
Lemma release_section adm done D position flight s :
  ledger config adm ((pl_request <$> pending_local_sync s) ++ flight) s ->
  Forall (pending_ok base done) (pending_local_sync s) -> completed_ok done s -> D <= base + blen done ->
  let s' := release_durable_local D position s in
  ledger config adm ((pl_request <$> pending_local_sync s') ++ flight) s' /\
  Forall (pending_ok base done) (pending_local_sync s') /\ completed_ok done s' /\
  (acks_within D s -> acks_within D s') /\
  same_control (set_pending_local_sync s (pending_local_sync s')) s' /\
  (pending_local_sync s = [] -> pending_local_sync s' = []) /\
  (Forall (fun p => append_record_sequence (pl_append p) <= D) (pending_local_sync s) -> pending_local_sync s' = []).
Proof.
  intros Hl Hp Hc HD. cbv zeta.
  destruct (release_durable_local_ledger _ _ D position _ _ Hl) as (released & E & Hr & Hh & Hl' & Hctl & [_ Ha]).
  set (s' := release_durable_local D position s) in *. rewrite E in Hp. apply Forall_app in Hp as [Hp1 Hp2].
  rewrite Forall_forall in Hp1, Hr. split_and!; try done.
  - intros t res [?|(p & Hin & -> & ->)]%Ha; [by apply Hc|]. destruct (Hp1 p Hin) as (r & Hpl & Hr0 & Hd).
    exists r. injection Hr0 as Et Ed _. cbn [success cr_append cr_admission_sequence cr_requested_durability
      cr_effective_durability cr_durable_record_sequence]. rewrite Hd in *. split_and!; try done; [].
    cbn. exists D. split; [done|]. split; [by apply Hr|done].
  - intros Hacks t out d [?|(p & _ & -> & [= ->])]%Ha Hd; [by eapply Hacks|]. by injection Hd as ->.
  - rewrite E. by intros [_ ?]%app_nil.
  - rewrite E. intros [_ Hall]%Forall_app. destruct (pending_local_sync s') as [|p rest]; [done|].
    specialize (Hh p eq_refl). apply Forall_cons in Hall as [Hle _]. lia.
Qed.

(** The payload of a request does not matter to the books. *)
Lemma ledger_strip adm a r b s :
  ledger config adm (a ++ r :: b) s -> ledger config adm (a ++ without_payload r :: b) s.
Proof.
  intros [H1 Hz H2 H3 H4 H5 H6 H7 H8 H9 H10].
  assert (Et : (ticket <$> a ++ without_payload r :: b) = (ticket <$> a ++ r :: b)) by (by rewrite !fmap_app, !fmap_cons).
  assert (Eb : total_encoded (a ++ without_payload r :: b) = total_encoded (a ++ r :: b)).
  { unfold total_encoded. rewrite !foldr_app. done. }
  split; rewrite ?Et, ?Eb, ?length_app; cbn [length]; rewrite ?length_app in H7, H9; try done.
  intros x. rewrite elem_of_app, elem_of_cons. intros [Hx|[->|Hx]].
  - apply H3, elem_of_app. by left.
  - destruct (H3 r) as (r0 & ? & Hr); [apply elem_of_app; right; left|]. exists r0. split; [done|].
    unfold is_request in *. by destruct r.
  - apply H3, elem_of_app. right. by right.
Qed.

Lemma sorted_drop (a : list CommitRequest) r b :
  StronglySorted Z.lt (ticket <$> a ++ [r] ++ b) -> StronglySorted Z.lt (ticket <$> a ++ b).
Proof.
  induction a as [|x a IH]; cbn [app]; rewrite !fmap_cons; intros H.
  - by apply StronglySorted_inv in H as [? _].
  - apply StronglySorted_inv in H as [H Hx]. constructor; [by apply IH|].
    rewrite !fmap_app, ?fmap_cons in *. apply Forall_app in Hx as [Hx1 Hx2]. apply Forall_app. split; [done|].
    cbn [app] in Hx2. by apply Forall_cons in Hx2 as [_ ?].
Qed.
End invariant.
