(* ===== verification/WalCommitSteps.v ===== *)
(** Every step of the worker keeps the invariant of the group-commit coordinator. *)
From Stdlib Require Import Sorted.
From S2P Require Import Prelude Bytes WalCodec PosixIo WalScan WalWriter WalCommit WalCommitFacts.
From S2P Require Import WalCommitInvariant.
#[local] Open Scope Z_scope.

(** The request a step of the worker appended. *)
Definition appended_by (pc pc' : WorkerPc) : list CommitRequest :=
  match pc, pc' with
  | PcAppend r, PcAppended _ _ (Ok _) => [r]
  | _, _ => []
  end.

Section steps.
Context {S : Type} {HW : CommitWriter S} {HL : CommitWriterLaws S}.
Context (config : WalCommitCoordinatorConfig) (Htyped : commit_config_typed config) (first : list (list byte)).
#[local] Abbreviation inv := (commit_inv config first).
#[local] Abbreviation base := (blen first).

(** Moving between points at which the worker holds nothing. *)
Lemma goto_inv c pc adm done :
  inv c adm done -> hand (co_pc c) = None -> hand pc = None -> waiting (co_pc c) = [] -> waiting pc = [] ->
  ending (co_pc c) = false -> worker_ok first pc (co_writer c) (co_shared c) done ->
  match pc with PcAppend _ | PcAppended _ _ _ => False | _ => True end ->
  inv (goto c pc) adm done.
Proof.
  intros [H1 H2 H3 H4 H5 H6 H7 H8 H9 H10 H11 H12 H13] E1 E2 E3 E4 E5 Hw Hpc.
  rewrite E1 in H2, H3. rewrite E3 in H5.
  split; cbn [goto co_config co_pc co_shared co_window co_writer]; rewrite ?E2, ?E4; try done.
  - destruct H9 as (? & ? & ? & _). split_and!; try lia; [done|by destruct pc].
  - intros Hf. destruct (H13 Hf). congruence.
Qed.

Lemma decide_inv now c adm done c' :
  inv c adm done -> co_pc c = PcDecide -> decide_next now c = Some c' ->
  inv c' adm done /\ appended_by (co_pc c) (co_pc c') = [].
Proof.
  intros Hi Epc. pose proof Hi as [H1 H2 H3 H4 H5 H6 H7 H8 H9 H10 H11 H12 H13]. rewrite Epc in *.
  unfold decide_next. rewrite H1. destruct (terminal_failure _) eqn:Ef; [by destruct (H13 eq_refl)|].
  assert (Htake : forall r rest, queue (co_shared c) = r :: rest ->
    (win_active (co_window c) = true -> can_add_to_window config r (co_window c) = true) ->
    inv (take_request c r rest) adm done).
  { intros r rest Eq Hadd. split; cbn [take_request goto set_shared set_queue co_config co_pc co_shared co_window co_writer
      queue pending_local_sync metrics terminal_status shutdown_requested completions]; try done.
    - unfold in_flight in *. cbn [hand option_list app set_queue pending_local_sync queue] in *. rewrite Eq in H2.
      by eapply ledger_rearranged.
    - intros x Hx. apply H3. by rewrite Eq.
    - cbn [waiting app] in *. by rewrite Eq in H5.
    - destruct H9 as (Ha & Hc & Hb & _). split_and!; try lia; [done|]. intros Hact. specialize (Hadd Hact).
      unfold can_add_to_window in Hadd. rewrite Z.geb_leb in Hadd.
      destruct (Z.leb_spec (maximum_sync_batch_requests config) (win_request_count (co_window c))); [done|].
      destruct Htyped as (_ & _ & _ & Hw). rewrite (wrap_small 64) in Hadd by width_lia. apply Z.leb_le in Hadd. lia.
    - by rewrite Ef.
    - intros Hf. congruence. }
  destruct (win_active (co_window c)) eqn:Ew.
  - assert (Hs : inv (goto c PcSync) adm done) by (apply goto_inv; rewrite ?Epc; done).
    destruct (_ || _); [intros [= <-]; by split|]. destruct (queue (co_shared c)) as [|r rest] eqn:Eq; [done|].
    destruct (can_add_to_window _ _ _) eqn:Ea; intros [= <-]; (split; [|done]); [by apply Htake|done].
  - destruct (queue (co_shared c)) as [|r rest] eqn:Eq; [|intros [= <-]; split; [by apply Htake|done]].
    destruct (shutdown_requested _) eqn:Es; [|done]. intros [= <-]. split; [|done].
    apply goto_inv; rewrite ?Epc; try done. cbn [worker_ok] in *.
    split_and!; [done|by apply H9|by apply H11|done].
Qed.

Lemma working_books w s s' done : completions s' = completions s -> working first w s done -> working first w s' done.
Proof. intros Ec [? Ha]. split; [done|]. intros t out d. rewrite Ec. apply Ha. Qed.

Lemma sync_inv c adm done :
  inv c adm done -> co_pc c = PcSync ->
  inv (goto (set_shared c (counted synchronization_attempts (co_shared c))) PcSynchronize) adm done.
Proof.
  intros Hi Epc. pose proof (books_inv config first c _ adm done (counted_books synchronization_attempts (co_shared c)) Hi) as Hb.
  apply goto_inv; cbn [set_shared co_pc]; rewrite ?Epc; try done.
  pose proof (ci_worker _ _ _ _ _ Hb) as Hw. cbn [set_shared co_pc co_writer co_shared] in Hw. by rewrite Epc in Hw.
Qed.

Lemma synchronize_inv c adm done r w :
  inv c adm done -> co_pc c = PcSynchronize -> cw_synchronize (co_writer c) = (r, w) ->
  inv (goto (set_writer c w) (PcSynchronized r)) adm done.
Proof.
  intros [H1 H2 H3 H4 H5 H6 H7 H8 H9 H10 H11 H12 H13] Epc E. rewrite Epc in *. destruct H10 as [Hh Ha].
  pose proof (cw_synchronize_law _ _ _ _ Hh E) as Hlaw. pose proof (cw_holds_durable _ _ Hh) as Hd.
  split; cbn [goto set_writer co_config co_pc co_shared co_window co_writer]; try done.
  - destruct r as [p|e]; cbn [worker_ok].
    + destruct Hlaw as [Hh' Hd']. split; [|done]. split; [done|]. intros t out d Ht Hdd. specialize (Ha _ _ _ Ht Hdd). lia.
    + destruct Hlaw as [? ?]. split; [done|lia].
Qed.

(** The section after a synchronisation. *)
Lemma synchronized_inv c adm done position :
  inv c adm done -> co_pc c = PcSynchronized (Ok position) ->
  inv (goto (set_window (set_shared c (release_durable_local (cw_durable_record_sequence (co_writer c)) position
    (counted successful_synchronizations (co_shared c)))) reset_window) PcDecide) adm done.
Proof.
  intros Hi Epc. apply (books_inv config first c _ adm done (counted_books successful_synchronizations (co_shared c))) in Hi.
  revert Hi. set (s := counted successful_synchronizations (co_shared c)).
  intros [H1 H2 H3 H4 H5 H6 H7 H8 H9 H10 H11 H12 H13]. cbn [set_shared co_config co_pc co_shared co_window co_writer] in *.
  rewrite Epc in *. destruct H10 as [[Hh Ha] Hd].
  destruct (release_section config first adm done (cw_durable_record_sequence (co_writer c)) position (queue s) s)
    as (L1 & L2 & L3 & L4 & [Q P T Sh A F] & _ & L6); [exact H2|done|done|rewrite Hd, log_length; lia|].
  set (s' := release_durable_local _ position s) in *.
  assert (Hnil : pending_local_sync s' = []).
  { apply L6. eapply Forall_impl; [exact H7|]. intros p (r & (k & Hk & _ & ->) & _). apply lookup_lt_Some in Hk.
    rewrite Hd, log_length. lia. }
  cbn [set_pending_local_sync queue pending_local_sync terminal_status shutdown_requested metrics] in *.
  split; cbn [goto set_window set_shared co_config co_pc co_shared co_window co_writer]; rewrite ?Q, ?T, ?Sh, ?A, ?F; try done.
  - unfold in_flight. rewrite Q. exact L1.
  - destruct H9 as (_ & Hn1 & Hn2 & _). split_and!; cbn; try lia; done.
  - split; [done|]. by apply L4.
Qed.

(** The section after a synchronisation or an append that failed. *)
Lemma release_inv c s adm done pc :
  inv c adm done -> s = co_shared c \/ (exists k, s = counted k (co_shared c)) ->
  cw_durable_record_sequence (co_writer c) <= base + blen done ->
  ending (co_pc c) = false -> hand pc = hand (co_pc c) -> waiting pc = [] -> waiting (co_pc c) = [] ->
  match pc with PcAppend _ | PcAppended _ _ _ => False | _ => True end ->
  (forall s', (acks_within (cw_durable_record_sequence (co_writer c)) (co_shared c) ->
               acks_within (cw_durable_record_sequence (co_writer c)) s') ->
     worker_ok first pc (co_writer c) s' done) ->
  inv (goto (release_durable (set_shared c s)) pc) adm done.
Proof.
  intros Hi Hs Hd He Eh Ew Ew' Hpc Hw. assert (Hb : same_books (co_shared c) s) by (destruct Hs as [->|[k ->]]; [done|apply counted_books]).
  apply (books_inv config first c _ adm done Hb) in Hi.
  destruct Hi as [H1 H2 H3 H4 H5 H6 H7 H8 H9 H10 H11 H12 H13]. cbn [set_shared co_config co_pc co_shared co_window co_writer] in *.
  destruct (release_section config first adm done (cw_durable_record_sequence (co_writer c)) (cw_durable_position (co_writer c))
    (option_list (hand (co_pc c)) ++ queue s) s) as (L1 & L2 & L3 & L4 & [Q P T Sh A F] & L5 & _); [exact H2|done|done|done|].
  unfold release_durable. cbn [set_shared co_shared co_writer] in *. set (s' := release_durable_local _ _ s) in *.
  cbn [set_pending_local_sync queue pending_local_sync terminal_status shutdown_requested metrics] in *.
  split; cbn [goto set_window set_shared co_config co_pc co_shared co_window co_writer]; rewrite ?Q, ?T, ?Sh, ?A, ?F, ?Eh, ?Ew; try done.
  - unfold in_flight. by rewrite Q.
  - by rewrite Ew' in H5.
  - destruct H9 as (Hn0 & Hn1 & Hn2 & _). split_and!; try lia; [auto|by destruct pc].
  - apply Hw. intros Ha. apply L4. intros t out d. rewrite (sb_completions _ _ Hb). apply Ha.
  - intros Hf. destruct (H13 Hf). congruence.
Qed.

(** Calling append. *)
Lemma append_inv c adm done request r w :
  inv c adm done -> co_pc c = PcAppend request -> cw_append (rq_payload request) (co_writer c) = (r, w) ->
  let pc := PcAppended request (pos_segment_number (cw_written_position (co_writer c))) r in
  inv (goto (set_writer c w) pc) adm (done ++ appended_by (co_pc c) pc).
Proof.
  intros [H1 H2 H3 H4 H5 H6 H7 H8 H9 H10 H11 H12 H13] Epc E. cbv zeta. rewrite Epc in *. destruct H10 as [Hh Ha].
  pose proof (cw_append_law _ _ _ _ _ Hh E) as Hlaw. cbn [waiting] in H5.
  assert (Hreq : request ∈ adm) by (apply H3; left).
  destruct r as [out|e]; cbn [appended_by].
  - destruct Hlaw as (Hh' & Hsq & Hd & Hrot).
    assert (Elog : log_of first (done ++ [request]) = log_of first done ++ [rq_payload request]).
    { unfold log_of. by rewrite fmap_app, app_assoc. }
    split; cbn [goto set_writer co_config co_pc co_shared co_window co_writer]; try done.
    + intros x [?|Hx%list_elem_of_singleton]%elem_of_app; [by apply H4|by rewrite Hx].
    + cbn [waiting app]. by rewrite <- app_assoc.
    + eapply Forall_impl; [exact H7|]. apply pending_grows.
    + intros t res Ht. by apply completion_grows, H8.
    + cbn [worker_ok]. rewrite Elog. split_and!.
      * split; [by rewrite Elog|]. intros t out' d Ht Hdd. specialize (Ha _ _ _ Ht Hdd). lia.
      * by rewrite last_snoc.
      * rewrite length_app. cbn [length]. lia.
      * intros Hne. rewrite length_app. cbn [length]. specialize (Hrot Hne). lia.
  - destruct Hlaw as (He & Hd & Hok). rewrite app_nil_r.
    split; cbn [goto set_writer co_config co_pc co_shared co_window co_writer]; try done.
    + cbn [waiting app] in *. by eapply sorted_drop.
    + cbn [worker_ok]. split_and!; [done|lia|]. intros Hf. split; [by apply Hok|].
      intros t out' d Ht Hdd. specialize (Ha _ _ _ Ht Hdd). lia.
Qed.

(** The requests that wait for a synchronisation were appended before the one in hand. *)
Lemma pending_before adm done r flight s :
  ledger config adm ((pl_request <$> pending_local_sync s) ++ r :: flight) s ->
  Forall (pending_ok base done) (pending_local_sync s) -> last done = Some r ->
  Forall (fun p => append_record_sequence (pl_append p) <= base + blen done - 1) (pending_local_sync s).
Proof.
  intros Hl Hp Hlast. pose proof (ld_distinct _ _ _ _ Hl) as Hnd. rewrite Forall_forall in *.
  intros p Hin. destruct (Hp p Hin) as (x & (k & Hk & Et & ->) & _). pose proof (lookup_lt_Some _ _ _ Hk) as Hlt.
  destruct (decide (k = pred (length done))) as [->|]; [|lia]. exfalso.
  rewrite last_lookup in Hlast. simplify_eq. rewrite fmap_app, fmap_cons in Hnd.
  apply NoDup_app in Hnd as (_ & Hnot & _). apply (Hnot (ticket (pl_request p))).
  - by apply list_elem_of_fmap_2, list_elem_of_fmap_2.
  - rewrite Et. left.
Qed.

(** The window after an append. *)
Definition window_after (now : Z) (request : CommitRequest) (window : SyncWindow) : SyncWindow :=
  if win_active window then grow_window window (rq_encoded_bytes request)
  else if rq_durability request =? kLocalSync
  then open_window (rq_encoded_bytes request) (now + maximum_sync_batch_delay config)
  else window.

(** The request is acknowledged or waits, once rotation has been dealt with. *)
Lemma place_request now c adm done r out :
  co_config c = config ->
  ledger config adm (in_flight (Some r) (co_shared c)) (co_shared c) ->
  (forall x, x ∈ queue (co_shared c) -> x ∈ adm) -> (forall x, x ∈ done -> x ∈ adm) ->
  StronglySorted Z.lt (ticket <$> done ++ queue (co_shared c)) ->
  (forall x, x ∈ adm -> rq_durability x = kAsync \/
    rq_durability x = kLocalSync /\ rq_encoded_bytes x <= maximum_sync_batch_encoded_bytes config) ->
  Forall (pending_ok base done) (pending_local_sync (co_shared c)) -> completed_ok first done (co_shared c) ->
  window_ok config (PcAppended r 0 (Ok out)) (co_shared c) (co_window c) ->
  1 <= maximum_sync_batch_requests config ->
  working first (co_writer c) (co_shared c) done -> last done = Some r ->
  append_record_sequence out = blen (log_of first done) ->
  (shutdown_requested (co_shared c) = true -> accepting (metrics (co_shared c)) = false) ->
  terminal_failure (metrics (co_shared c)) = negb (is_ok (terminal_status (co_shared c))) ->
  terminal_failure (metrics (co_shared c)) = false ->
  inv (next_iteration (set_shared (set_window c (window_after now r (co_window c)))
    (if rq_durability (without_payload r) =? kAsync
     then finish_success (without_payload r) out None None (co_shared c)
     else set_pending_local_sync (co_shared c)
            (pending_local_sync (co_shared c) ++ [{| pl_request := without_payload r; pl_append := out |}])))) adm done.
Proof.
  intros H1 H2 H3 H4 H5 H6 H7 H8 (W0 & W1 & W2 & W3) Hone [Hh Ha] Hlast Hsq H11 H12 H13.
  assert (Hlast_in : done !! pred (length done) = Some r) by by rewrite <- last_lookup.
  pose proof (lookup_lt_Some _ _ _ Hlast_in) as Hlen.
  assert (Hr : r ∈ adm) by (apply H4, list_elem_of_lookup; eauto).
  assert (Hplaced : placed base done (ticket r) (append_record_sequence out) r).
  { exists (pred (length done)). split_and!; [done|done|]. rewrite Hsq, log_length. lia. }
  unfold in_flight in H2. cbn [option_list app] in H2. apply ledger_strip in H2.
  pose proof (flight_bytes _ _ _ _ (without_payload r) H2 ltac:(apply elem_of_app; right; left)) as Hbytes. cbn in Hbytes.
  unfold next_iteration. cbn [set_shared set_window co_writer]. rewrite (cw_holds_works _ _ Hh).
  destruct Htyped as (_ & _ & Wr & Wb).
  assert (Hwin : forall s', (win_active (window_after now r (co_window c)) = false -> pending_local_sync s' = []) ->
    window_ok config PcDecide s' (window_after now r (co_window c))).
  { intros s' Hs'. split; [done|]. unfold window_after in *. destruct (win_active (co_window c)).
    - cbn. destruct (W3 eq_refl). rewrite !wrap_small by width_lia. lia.
    - destruct (Z.eqb_spec (rq_durability r) kLocalSync) as [Ed|]; [|split_and!; try done; lia].
      destruct (H6 r Hr) as [E|[_ ?]]; [rewrite E in Ed; discriminate|]. cbn. lia. }
  cbn [rq_durability without_payload]. destruct (Z.eqb_spec (rq_durability r) kAsync) as [Ea|Ena].
  - assert (Hl' : ledger config adm (without_payload r :: (pl_request <$> pending_local_sync (co_shared c)) ++ queue (co_shared c)) (co_shared c))
      by (by rewrite Permutation_middle).
    destruct (finish_success_ledger _ _ _ _ out None None _ Hl') as (L1 & [Q P T Sh A F] & Ec).
    set (s' := finish_success _ _ _ _ _) in *.
    split; cbn [goto set_shared set_window co_config co_pc co_shared co_window co_writer]; rewrite ?Q, ?P, ?T, ?Sh, ?A, ?F; try done.
    + unfold in_flight. rewrite P, Q. exact L1.
    + intros t res. rewrite Ec, lookup_insert_Some. intros [[<- <-]|[_ ?]]; [|by apply H8].
      exists r. cbn. rewrite Ea. done.
    + apply Hwin. rewrite P. unfold window_after. destruct (win_active (co_window c)) eqn:Eact; [by cbn; rewrite Eact|].
      rewrite Ea. cbn. by intros _; apply W0.
    + split; [done|]. intros t out' d. rewrite Ec, lookup_insert_Some. intros [[_ [= <-]]|[_ ?]] Hd; [done|by eapply Ha].
    + intros Hf. congruence.
  - assert (Ed : rq_durability r = kLocalSync) by (destruct (H6 r Hr) as [|[? _]]; done).
    split; cbn [goto set_shared set_window set_pending_local_sync co_config co_pc co_shared co_window co_writer
      queue pending_local_sync metrics terminal_status shutdown_requested completions]; try done.
    + unfold in_flight. cbn [set_pending_local_sync pending_local_sync queue hand option_list app].
      rewrite fmap_app, <- app_assoc. by eapply ledger_rearranged.
    + apply Forall_app. split; [done|]. constructor; [|done]. exists r. split; [exact Hplaced|]. split; [by destruct r|done].
    + apply Hwin. unfold window_after. destruct (win_active (co_window c)) eqn:Eact; [by cbn; rewrite Eact|].
      by rewrite Ed.
    + intros Hf. congruence.
Qed.

Lemma record_append_unfold now request (rotated : bool) out (c : Coordinator S) :
  co_config c = config ->
  let c1 := set_shared c (counted_by appended_encoded_bytes (rq_encoded_bytes request)
                            (counted appended_requests (co_shared c))) in
  let c2 := if rotated then set_window (release_durable c1) reset_window else c1 in
  record_append now request rotated out c =
    set_shared (set_window c2 (window_after now request (co_window c2)))
      (if rq_durability (without_payload request) =? kAsync
       then finish_success (without_payload request) out None None (co_shared c2)
       else set_pending_local_sync (co_shared c2)
              (pending_local_sync (co_shared c2) ++ [{| pl_request := without_payload request; pl_append := out |}])).
Proof.
  intros Ec. cbv zeta. unfold record_append, window_after.
  destruct rotated; cbn [set_window release_durable set_shared co_window co_shared co_config]; rewrite Ec.
  - cbn [reset_window win_active]. by destruct (rq_durability request =? kLocalSync).
  - destruct (win_active (co_window c)); [done|]. by destruct (rq_durability request =? kLocalSync).
Qed.

Lemma appended_inv now c adm done request before out :
  inv c adm done -> co_pc c = PcAppended request before (Ok out) -> 1 <= maximum_sync_batch_requests config ->
  inv (next_iteration (record_append now request
    (negb (pos_segment_number (append_record_start out) =? before)) out c)) adm done.
Proof.
  intros Hi Epc Hone.
  assert (Hb : same_books (co_shared c) (counted_by appended_encoded_bytes (rq_encoded_bytes request)
    (counted appended_requests (co_shared c)))) by (etransitivity; [apply counted_books|apply counted_by_books]).
  rewrite record_append_unfold by apply (ci_config _ _ _ _ _ Hi).
  apply (books_inv config first c _ adm done Hb) in Hi. set (c1 := set_shared c _) in *.
  destruct Hi as [H1 H2 H3 H4 H5 H6 H7 H8 H9 H10 H11 H12 H13]. change (co_pc c1) with (co_pc c) in *.
  rewrite Epc in *. cbn [hand waiting app] in *. destruct H10 as ((Hh & Ha) & Hlast & Hsq & Hrot).
  assert (Hf : terminal_failure (metrics (co_shared c1)) = false).
  { destruct (terminal_failure _) eqn:Ef; [|done]. by destruct (H13 eq_refl). }
  assert (Hq : forall x, x ∈ queue (co_shared c1) -> x ∈ adm) by (intros x Hx; apply H3; by right).
  destruct (Z.eqb_spec (pos_segment_number (append_record_start out)) before) as [|Hne]; cbn [negb].
  - apply place_request; try done.
  - specialize (Hrot Hne). rewrite log_length in Hrot. unfold in_flight in H2. cbn [option_list app] in H2.
    pose proof (pending_before _ _ _ _ _ H2 H7 Hlast) as Hall.
    assert (Hle : cw_durable_record_sequence (co_writer c1) <= base + blen done)
      by (rewrite <- log_length; apply (cw_holds_durable _ _ Hh)).
    destruct (release_section config first adm done (cw_durable_record_sequence (co_writer c1)) (cw_durable_position (co_writer c1))
      (request :: queue (co_shared c1)) (co_shared c1)) as (L1 & L2 & L3 & L4 & [Q P T Sh A F] & _ & L6); [done|done|done|done|].
    unfold release_durable. set (s' := release_durable_local _ _ (co_shared c1)) in *.
    assert (Hnil : pending_local_sync s' = []) by (apply L6; eapply Forall_impl; [exact Hall|]; intros p Hp; cbv beta in Hp |- *; lia).
    cbn [set_pending_local_sync queue pending_local_sync terminal_status shutdown_requested metrics] in *.
    change (co_shared (set_window (set_shared c1 s') reset_window)) with s'.
    pose proof (place_request now (set_window (set_shared c1 s') reset_window) adm done request out) as Hp.
    cbn [set_window set_shared co_shared co_config co_window co_writer] in Hp. rewrite ?Q, ?T, ?Sh, ?A, ?F in Hp.
    apply Hp; try done.
    + unfold in_flight. rewrite Q. exact L1.
    + destruct H9 as (_ & B1 & B2 & _). split_and!; cbn; try done; lia.
    + split; [done|]. by apply L4.
Qed.

Lemma finish_inv c adm done request e :
  inv c adm done -> co_pc c = PcFinish request e ->
  inv (next_iteration (set_shared c (finish_failure request e (co_shared c)))) adm done.
Proof.
  intros [H1 H2 H3 H4 H5 H6 H7 H8 H9 H10 H11 H12 H13] Epc. rewrite Epc in *. destruct H10 as (He & Hh & Ha).
  unfold in_flight in H2. cbn [hand option_list app waiting] in *.
  assert (Hl : ledger config adm (request :: (pl_request <$> pending_local_sync (co_shared c)) ++ queue (co_shared c)) (co_shared c))
    by (by rewrite Permutation_middle).
  destruct (finish_failure_ledger _ _ _ _ e _ Hl) as (L1 & [Q P T Sh A F] & Ec).
  assert (Hadd : added is_error (co_shared c) (finish_failure request e (co_shared c)))
    by (eapply added_insert; [by eapply flight_open|exact Ec|apply unexpected_error]).
  unfold next_iteration. cbn [set_shared co_writer]. rewrite (cw_holds_works _ _ Hh). set (s' := finish_failure _ _ _) in *.
  split; cbn [goto set_shared co_config co_pc co_shared co_window co_writer]; rewrite ?Q, ?P, ?T, ?Sh, ?A, ?F; try done.
  - unfold in_flight. by rewrite P, Q.
  - intros x Hx. apply H3. by right.
  - by eapply errors_completed.
  - destruct H9 as (W0 & ? & ? & _). split; [by rewrite P|]. by split_and!; try lia.
  - split; [done|]. by eapply errors_acks.
Qed.

Lemma fail_terminal_inv c adm done current e :
  inv c adm done -> co_pc c = PcFailTerminal current e ->
  inv (goto (set_window (set_shared c (fail_terminal current e (co_shared c))) reset_window) PcStop) adm done.
Proof.
  intros [H1 H2 H3 H4 H5 H6 H7 H8 H9 H10 H11 H12 H13] Epc. rewrite Epc in *. cbn [worker_ok] in H10.
  destruct (fail_terminal_ledger _ _ _ e _ H2) as (L1 & L2 & L3 & L4 & L5 & L6 & L7 & L8).
  assert (Hf : terminal_failure (metrics (co_shared c)) = false).
  { destruct (terminal_failure _) eqn:Ef; [|done]. by destruct (H13 eq_refl). }
  assert (Eok : is_ok (terminal_status (co_shared c)) = true) by (rewrite Hf in H12; by destruct (is_ok _)).
  rewrite Eok in L8. set (s' := fail_terminal _ _ _) in *.
  split; cbn [goto set_window set_shared co_config co_pc co_shared co_window co_writer]; rewrite ?L3, ?L4; try done.
  - unfold in_flight. by rewrite L3, L4.
  - intros x Hx. by apply elem_of_nil in Hx.
  - cbn [waiting app] in *. rewrite app_nil_r. rewrite fmap_app in H5. clear -H5.
    induction (ticket <$> done) as [|t l IH]; [constructor|]. cbn [app] in H5. apply StronglySorted_inv in H5 as [H5 Ht].
    constructor; [by apply IH|]. by apply Forall_app in Ht as [? _].
  - by eapply errors_completed.
  - destruct H9 as (_ & B1 & B2 & _). split_and!; cbn; try done; lia.
  - cbn [worker_ok]. split_and!; try done. rewrite L6. done.
  - rewrite L6, L8. symmetry. apply negb_true_iff. by apply bool_decide_eq_false.
Qed.

Lemma stop_inv c adm done s w :
  inv c adm done -> co_pc c = PcStop -> cw_close (co_writer c) = (s, w) ->
  inv (goto (set_writer c w) (PcClosed s)) adm done.
Proof.
  intros [H1 H2 H3 H4 H5 H6 H7 H8 H9 H10 H11 H12 H13] Epc E. rewrite Epc in *.
  split; cbn [goto set_writer co_config co_pc co_shared co_window co_writer]; try done.
  cbn [worker_ok] in *. destruct H10 as (? & ? & ? & Hw). split_and!; try done. intros Hf.
  exists (co_writer c). rewrite E. split; [done|by apply Hw].
Qed.

Lemma closed_inv c adm done s :
  inv c adm done -> co_pc c = PcClosed s ->
  let sh := co_shared c in
  let sh' := if is_ok s then sh
    else let sh := if is_ok (terminal_status sh) then set_terminal_status sh s else sh in
         set_commit_metrics sh (set_accepting (metrics sh) false true) in
  inv (goto (set_shared c sh') PcDone) adm done.
Proof.
  intros [H1 H2 H3 H4 H5 H6 H7 H8 H9 H10 H11 H12 H13] Epc. cbv zeta. rewrite Epc in *.
  destruct H10 as (W1 & W2 & W3 & W4).
  destruct (is_ok s) eqn:Eok.
  - split; cbn [goto set_shared co_config co_pc co_shared co_window co_writer]; try done.
  - apply bool_decide_eq_false in Eok.
    destruct (is_ok (terminal_status (co_shared c))) eqn:Et;
      split; cbn [goto set_shared set_commit_metrics set_accepting set_terminal_status co_config co_pc co_shared co_window co_writer
        queue pending_local_sync metrics terminal_status shutdown_requested completions]; try done.
    + eapply ledger_rearranged; [exact H2|done..].
    + symmetry. apply negb_true_iff. by apply bool_decide_eq_false.
    + eapply ledger_rearranged; [exact H2|done..].
    + by rewrite Et.
Qed.
End steps.
