(* ===== verification/WalCommitWriter.v ===== *)
(** The log writer keeps the promises the group-commit coordinator relies on. *)
From S2P Require Import Prelude Bytes Crc32c WalCodec PosixIo DiskFacts WalPaths WalScan WalHistory.
From S2P Require Import WalDiscovery.
From S2P Require Import WalSound WalScanTheorems WalWriter WalWriterFacts WalWriterFailure WalWriterTheorems.
From S2P Require Import WalCommit WalCommitFacts WalCommitInvariant.
#[local] Open Scope Z_scope.
#[local] Opaque segment_header_bytes frame.

(** The methods of a handle; a closed one answers as the source does. *)
Definition no_position : PhysicalWalPosition :=
  {| pos_wal_id := replicate 16 x00; pos_segment_number := 0; pos_byte_offset := 0 |}.
#[export] Instance Writer_CommitWriter {W} `{PosixIo W} : CommitWriter (W * option Impl) := {|
  cw_append payload := on_writer (append_application_entry payload);
  cw_synchronize := on_writer synchronize;
  cw_close := close;
  cw_is_open wh := bool_decide (is_Some wh.2);
  cw_is_failed wh := match wh.2 with Some i => negb (is_ok (failure i)) | None => false end;
  cw_failure_status wh := match wh.2 with Some i => failure i | None => kInvalidArgument end;
  cw_written_position wh := from_option written_position no_position wh.2;
  cw_durable_position wh := from_option durable_position no_position wh.2;
  cw_durable_record_sequence wh := from_option durable_record_sequence 0 wh.2 |}.

(** The bytes of a log, from its payloads: every segment but the last has a record. *)
Lemma frames_bytes rs : forall seq,
  sequenced seq rs -> blen (frames rs) + 64 * Z.of_nat (length rs) = session_bytes rs.*2.
Proof.
  induction rs as [|r rs IH]; intros seq Hs; [done|]. destruct Hs as (Hr & _ & Hs). specialize (IH _ Hs).
  pose proof (length_frame _ Hr) as Hf. destruct Hr as (Hwf & _ & Hlen & _).
  rewrite (rhw_total _ Hwf), <- Hlen in Hf.
  unfold frames, session_bytes in *. cbn [fmap list_fmap concat foldr length] in *. rewrite length_app. lia.
Qed.
Lemma history_bytes id : forall sgs n seq, history id n seq sgs ->
  total_bytes (segment_bytes <$> sgs) <= 64 + session_bytes (all_records sgs).*2.
Proof.
  induction sgs as [|sg sgs IH]; intros n seq; [done|]. intros (Hok & Hne & Hh). specialize (IH _ _ Hh).
  pose proof (segment_bytes_length _ _ _ _ Hok) as Hl. destruct Hok as (_ & _ & _ & _ & Hs & _).
  pose proof (frames_bytes _ _ Hs) as Hf. rewrite all_records_cons, fmap_app, session_bytes_app.
  unfold total_bytes in *. cbn [fmap list_fmap foldr]. destruct sgs as [|sg' sgs]; [cbn in *; lia|].
  specialize (Hne ltac:(done)). destruct (sg_records sg); [done|]. cbn [length] in Hf. lia.
Qed.

Section writer.
Context {W : Type} {HIO : PosixIo W} {HL : PosixLaws W}.

Definition writer_holds (wh : W * option Impl) (ps : list (list byte)) : Prop :=
  match wh.2 with
  | Some i => failure i = kOk /\ exists sgs lg, writer_ok (disk wh.1) i sgs lg /\
      (all_records (sgs ++ [lg])).*2 = ps
  | None => False
  end.

(** ** Operations that fail

    A failing operation either changes nothing or stops the writer, and what it has made
    durable is within what was written. *)
Definition halted (w : W) (i : Impl) (s : StatusCode) (wi : W * Impl) : Prop :=
  durable_record_sequence i <= durable_record_sequence wi.2 <= written_record_sequence i /\
  (failure wi.2 = kOk -> wi.2 = i /\ disk wi.1 = disk w).

Lemma wp_or_poison {A} (c : IO W A) (w : W) i Q E :
  failure i = kOk -> wp c w (fun a w' => Q a (w', i)) (fun s w' => s <> kOk -> E s (w', set_failure i s)) ->
  wp (or_poison c) (w, i) Q E.
Proof.
  intros Hf H. unfold wp, or_poison, poison in *. cbn [fst snd]. destruct (c w) as [[a|s] w1]; [done|].
  destruct H as [Hs HE]. rewrite Hf. change (is_ok kOk) with true. cbn [set_failure failure].
  unfold make_unexpected, is_ok. rewrite bool_decide_eq_false_2 by done. auto.
Qed.
Lemma wp_any_op {A} (dk : W -> Disk) rl (c : IO W A) en post fails (w : W) (Q : A -> W -> Prop) (E : StatusCode -> W -> Prop) :
  implements dk rl c en post fails -> (forall a w', Q a w') -> (forall s w', E s w') -> wp c w Q E.
Proof. intros Hl HQ HE. eapply wp_op; [exact Hl|auto..]. Qed.

Lemma halted_stopped w i i' s w' :
  durable_record_sequence i <= durable_record_sequence i' <= written_record_sequence i -> s <> kOk ->
  halted w i s (w', set_failure i' s).
Proof. intros H Hs. by split. Qed.

Lemma rotate_halts (w : W) i :
  failure i = kOk -> durable_record_sequence i <= written_record_sequence i ->
  wp rotate (w, i) (fun _ wi => failure wi.2 = kOk /\
    durable_record_sequence i <= durable_record_sequence wi.2 <= written_record_sequence i) (halted w i).
Proof.
  intros Hf Hle. unfold rotate. apply wp_bind. change (wp get_impl (w, i)) with (wp (io_ret i) (w, i)). apply wp_ret.
  destruct (_ =? max_u64); [by apply wp_fail|]. apply wp_bind, wp_or_poison; [done|].
  eapply wp_any_op; [apply law_sync_data| |intros; by apply halted_stopped]. intros _ w1.
  apply wp_bind. apply (wp_ret tt (w1, set_durable i)). apply wp_bind, wp_or_poison; [done|].
  apply wp_intro; [|intros s w' Es; split; [by eapply install_segment_not_ok|intros; by apply halted_stopped]].
  intros [metadata f] w2 _. apply wp_bind. eapply (wp_ret tt (w2, _)). apply wp_or_poison; [done|].
  eapply wp_any_op; [apply law_close_file| |intros; apply halted_stopped; [cbn; lia|done]].
  intros _ w3. cbn. split; [done|lia].
Qed.

Lemma append_halts (w w' : W) i i' sgs lg payload s :
  writer_ok (disk w) i sgs lg -> failure i = kOk ->
  append_application_entry payload (w, i) = (Err s, (w', i')) -> s <> kOk /\ halted w i s (w', i').
Proof.
  intros Hok Hf H. pose proof (durable_le_written _ _ _ _ Hok) as Hle.
  assert (Hsame : forall e, halted w i e (w, i)) by (intros e; split; [cbn; lia|done]).
  assert (Hwp : wp (append_application_entry payload) (w, i) (fun _ _ => True) (halted w i));
    [|by apply (wp_Err _ _ _ _ _ _ Hwp H)].
  unfold append_application_entry. apply wp_bind, (wp_ret i (w, i)). rewrite Hf. change (is_ok kOk) with true. cbn [negb].
  destruct (_ >? _); [by apply wp_fail|]. destruct (sequence_exhausted_ i); [by apply wp_fail|].
  rewrite (validate_active_ok _ _ _ _ Hok). change (is_ok kOk) with true. cbn [negb].
  apply wp_bind. unfold wp at 1, plain. destruct (encode_application_record i payload) as [enc|e].
  2:{ destruct (@make_unexpected_not_ok (list byte) e) as (e' & -> & ?). done. }
  apply wp_bind, (wp_mono _ _ (fun _ wi => failure wi.2 = kOk /\
    durable_record_sequence i <= durable_record_sequence wi.2 <= written_record_sequence i) _ (halted w i)); [| |done].
  { destruct (_ || _); [by apply rotate_halts|]. apply wp_ret. split; [done|cbn; lia]. }
  intros _ [w2 i2] [Hf2 Hd2]. apply wp_bind, (wp_ret i2 (w2, i2)). apply wp_bind, wp_or_poison; [done|].
  eapply wp_any_op; [apply law_write| |intros; by apply halted_stopped]. done.
Qed.
Lemma synchronize_halts (w w' : W) i i' sgs lg s :
  writer_ok (disk w) i sgs lg -> failure i = kOk ->
  synchronize (w, i) = (Err s, (w', i')) -> s <> kOk /\ halted w i s (w', i').
Proof.
  intros Hok Hf H. pose proof (durable_le_written _ _ _ _ Hok) as Hle.
  assert (Hwp : wp synchronize (w, i) (fun _ _ => True) (halted w i)); [|by apply (wp_Err _ _ _ _ _ _ Hwp H)].
  unfold synchronize. apply wp_bind, (wp_ret i (w, i)). rewrite Hf, (validate_active_ok _ _ _ _ Hok).
  change (is_ok kOk) with true. cbn [negb]. apply wp_bind, wp_or_poison; [done|].
  eapply wp_any_op; [apply law_sync_data|done|]. intros. apply halted_stopped; [lia|done].
Qed.

(** ** The promises *)
Lemma writer_holds_durable wh ps :
  writer_holds wh ps -> 0 <= cw_durable_record_sequence wh <= blen ps.
Proof.
  destruct wh as [w [i|]]; [|by intros []]. intros (_ & sgs & lg & Hok & <-). cbn.
  pose proof (durable_le_written _ _ _ _ Hok) as Hle. rewrite (wo_sequence _ _ _ _ Hok) in Hle. rewrite length_fmap.
  destruct (wo_durable _ _ _ _ Hok) as (k & _ & Ek & _). split; [rewrite Ek; lia|exact Hle].
Qed.

Lemma writer_log_length d i sgs lg :
  writer_ok d i sgs lg -> blen (all_records (sgs ++ [lg])).*2 = written_record_sequence i.
Proof. intros Hok. by rewrite (wo_sequence _ _ _ _ Hok), length_fmap. Qed.

Lemma writer_append_law wh ps p r wh' :
  writer_holds wh ps -> cw_append p wh = (r, wh') ->
  match r with
  | Ok out =>
      writer_holds wh' (ps ++ [p]) /\ append_record_sequence out = blen ps + 1 /\
      cw_durable_record_sequence wh <= cw_durable_record_sequence wh' /\
      (pos_segment_number (append_record_start out) <> pos_segment_number (cw_written_position wh) ->
       blen ps <= cw_durable_record_sequence wh')
  | Err e =>
      e <> kOk /\ cw_durable_record_sequence wh <= cw_durable_record_sequence wh' <= blen ps /\
      (cw_is_failed wh' = false -> writer_holds wh' ps)
  end.
Proof.
  destruct wh as [w [i|]]; [|by intros []]. intros (Hf & sgs & lg & Hok & <-).
  unfold cw_append. cbn [Writer_CommitWriter on_writer snd fst].
  destruct (append_application_entry p (w, i)) as [r' [w' i']] eqn:E. intros [= -> <-]. rewrite (writer_log_length _ _ _ _ Hok).
  destruct r as [out|e].
  - destruct (append_ok _ _ _ _ _ _ _ _ Hok E) as (Hr & _ & Hf' & sgs' & lg' & Happ & Hok' & Hs & _ & Hst & _ & Hd).
    pose proof (appended_records _ _ _ _ _ Happ) as Hrec. cbn. split; [|split; [|split; [done|]]].
    + split; [done|]. exists sgs', lg'. split; [done|]. by rewrite Hrec, fmap_app.
    + rewrite Hs. destruct (append_cases w i sgs lg p Hok) as [(s & E' & _)|(_ & Hex & _)]; [by rewrite E' in E|].
      destruct (wo_next _ _ _ _ Hok) as [(_ & -> & _)|[? _]]; [lia|congruence].
    + rewrite Hst, (wo_written _ _ _ _ Hok). cbn [pos_segment_number]. destruct Happ as [[-> _]|[-> _]]; [done|]. intros _.
      destruct (wo_durable _ _ _ _ Hok') as (k & _ & -> & _). rewrite (wo_sequence _ _ _ _ Hok). lia.
  - destruct (append_halts _ _ _ _ _ _ _ _ Hok Hf E) as (He & Hd & Hsame). cbn in *. split; [done|].
    split; [lia|]. intros Hgood. destruct Hsame as [-> Ed].
    { apply negb_false_iff, bool_decide_eq_true in Hgood. done. }
    split; [done|]. exists sgs, lg. by rewrite Ed.
Qed.

Lemma writer_synchronize_law wh ps r wh' :
  writer_holds wh ps -> cw_synchronize wh = (r, wh') ->
  match r with
  | Ok _ => writer_holds wh' ps /\ cw_durable_record_sequence wh' = blen ps
  | Err e => e <> kOk /\ cw_durable_record_sequence wh <= cw_durable_record_sequence wh' <= blen ps
  end.
Proof.
  destruct wh as [w [i|]]; [|by intros []]. intros (Hf & sgs & lg & Hok & <-).
  unfold cw_synchronize. cbn [Writer_CommitWriter on_writer snd fst].
  destruct (synchronize (w, i)) as [r' [w' i']] eqn:E. intros [= -> <-]. rewrite (writer_log_length _ _ _ _ Hok).
  destruct r as [out|e].
  - destruct (synchronize_ok _ _ _ _ _ _ _ Hok E) as (_ & _ & -> & _ & _ & Hok'). cbn. split; [|done].
    split; [done|]. by exists sgs, lg.
  - destruct (synchronize_halts _ _ _ _ _ _ _ Hok Hf E) as (He & Hd & _). cbn in *. split; [done|lia].
Qed.

(** Closing leaves the disk as it is. *)
Lemma close_keeps_disk (wh : W * option Impl) : disk (close wh).2.1 = disk wh.1.
Proof.
  destruct wh as [w [i|]]; [|done]. unfold close. cbn [fst snd].
  destruct (close_file _ w) as [r1 w1] eqn:E1. destruct (close_lock w1) as [r2 w2] eqn:E2.
  destruct (close_directory w2) as [r3 w3] eqn:E3. cbn [fst snd].
  assert (D1 : disk w1 = disk w) by (destruct r1; [by apply (implements_Ok _ _ _ _ _ _ _ _ _ (law_close_file _) E1)
    |by apply (implements_Err _ _ _ _ _ _ _ _ _ (law_close_file _) E1)]).
  assert (D2 : disk w2 = disk w1) by (destruct r2; [by apply (implements_Ok _ _ _ _ _ _ _ _ _ law_close_lock E2)
    |by apply (implements_Err _ _ _ _ _ _ _ _ _ law_close_lock E2)]).
  assert (D3 : disk w3 = disk w2) by (destruct r3; [by apply (implements_Ok _ _ _ _ _ _ _ _ _ law_close_directory E3)
    |by apply (implements_Err _ _ _ _ _ _ _ _ _ law_close_directory E3)]).
  congruence.
Qed.
(** The segment files read as the payloads [ps], perhaps with a torn tail, as long as the
    64-bit counters of the scanner have room for them and two more segments. *)
Definition writer_reads (wh : W * option Impl) (ps : list (list byte)) : Prop :=
  64 + session_bytes ps + 2 * kSegmentSizeLimit < max_u64 ->
  exists id rs, left_log (disk wh.1) id rs /\ rs.*2 = ps.
Lemma room_countable d i sgs lg : writer_ok d i sgs lg ->
  64 + session_bytes (all_records (sgs ++ [lg])).*2 + 2 * kSegmentSizeLimit < max_u64 -> countable 2 sgs lg.
Proof.
  intros Hok Hroom. pose proof (history_bytes _ _ _ _ (wo_history _ _ _ _ Hok)) as Hb.
  pose proof (session_bytes_count (all_records (sgs ++ [lg])).*2) as Hn. rewrite length_fmap in Hn.
  rewrite fmap_app in Hb. unfold countable. rewrite contents_snoc, app_nil_r. cbn [fmap list_fmap] in Hb. unfold total_bytes, kSegmentSizeLimit in *.
  set (x := session_bytes _) in Hroom, Hb. change (session_bytes _) with x in Hn. set (n := length _) in Hn |- *. lia.
Qed.
Lemma writer_left_reads w i sgs lg ih : writer_ok (disk w) i sgs lg -> writer_reads (w, ih) (all_records (sgs ++ [lg])).*2.
Proof.
  intros Hok Hroom. apply (room_countable _ _ _ _ Hok) in Hroom. eexists _, _. split; [|reflexivity].
  eapply writer_left_log; [done|]. by apply (countable_less 2).
Qed.
Lemma writer_append_reads wh ps p e wh' :
  writer_holds wh ps -> cw_append p wh = (Err e, wh') -> writer_reads wh' ps \/ writer_reads wh' (ps ++ [p]).
Proof.
  destruct wh as [w [i|]]; [|by intros []]. intros (Hf & sgs & lg & Hok & <-).
  unfold cw_append. cbn [Writer_CommitWriter on_writer snd fst].
  destruct (append_application_entry p (w, i)) as [r' [w' i']] eqn:E. intros [= -> <-].
  destruct (decide (64 + session_bytes (all_records (sgs ++ [lg])).*2 + 2 * kSegmentSizeLimit < max_u64)) as [Hroom|Hno]; [|by left; intros ?].
  apply (room_countable _ _ _ _ Hok) in Hroom.
  destruct (append_failed _ _ _ _ _ _ _ _ Hok Hroom E) as [[-> Ed]|[_ [Hl|Hl]]].
  - left. intros _. cbn. rewrite Ed. eexists _, _. split; [|reflexivity]. eapply writer_left_log; [done|]. by apply (countable_less 2).
  - left. intros _. by eexists _, _.
  - right. intros _. eexists _, _. split; [exact Hl|]. by rewrite fmap_app.
Qed.
Lemma writer_synchronize_reads wh ps e wh' :
  writer_holds wh ps -> cw_synchronize wh = (Err e, wh') -> writer_reads wh' ps.
Proof.
  destruct wh as [w [i|]]; [|by intros []]. intros (Hf & sgs & lg & Hok & <-).
  unfold cw_synchronize. cbn [Writer_CommitWriter on_writer snd fst].
  destruct (synchronize (w, i)) as [r' [w' i']] eqn:E. intros [= -> <-].
  assert (Ed : disk w' = disk w); [|intros Hroom; cbn; rewrite Ed; exact (writer_left_reads w i sgs lg None Hok Hroom)].
  assert (Hwp : wp synchronize (w, i) (fun _ _ => True) (fun _ wi => disk wi.1 = disk w)); [|by apply (wp_Err _ _ _ _ _ _ Hwp E)].
  unfold synchronize. apply wp_bind, (wp_ret i (w, i)). rewrite Hf, (validate_active_ok _ _ _ _ Hok).
  change (is_ok kOk) with true. cbn [negb]. apply wp_bind, wp_or_poison; [done|].
  apply wp_intro; [done|]. intros s1 w1 E1. destruct (implements_Err _ _ _ _ _ _ _ _ _ (law_sync_data _) E1) as [Hs Hd]. split; [exact Hs|]. intros _. exact Hd.
Qed.

#[export] Instance Writer_laws : CommitWriterLaws (W * option Impl).
Proof.
  refine {| cw_holds := writer_holds; cw_reads := writer_reads |}.
  - intros [w [i|]] ps; [|done]. intros (Hf & _). cbn. by rewrite Hf.
  - apply writer_holds_durable.
  - apply writer_append_law.
  - apply writer_synchronize_law.
  - intros [w [i|]] ps; [|done]. intros (_ & sgs & lg & Hok & <-). by eapply writer_left_reads.
  - apply writer_append_reads.
  - apply writer_synchronize_reads.
  - intros wh ps H Hroom. cbn. rewrite close_keeps_disk. by apply H.
Defined.

End writer.
