(* ===== verification/WalCommitRuns.v ===== *)
(** Runs of a group-commit coordinator: producers, shutdowns and the worker in any order;
    the invariant holds in every state of a run, and a requested shutdown comes to its end. *)
From Stdlib Require Import Sorted.
From S2P Require Import Prelude Bytes Crc32c WalCodec PosixIo DiskFacts WalPaths WalScan WalHistory.
From S2P Require Import WalDiscovery WalSound WalScanTheorems WalWriter WalWriterFacts WalWriterFailure.
From S2P Require Import WalWriterTheorems.
From S2P Require Import WalRecovery WalRecoveryTheorems.
From S2P Require Import WalCommit WalCommitFacts WalCommitInvariant WalCommitSteps WalCommitWriter.
#[local] Open Scope Z_scope.

(** * Runs *)

(** The request a submission put at the end of the queue. *)
Definition admitted_by {S} (r : result Z) (c : Coordinator S) : list CommitRequest :=
  match r with Ok _ => option_list (last (queue (co_shared c))) | Err _ => [] end.

(** The states a coordinator passes through, when it takes a writer whose log holds the
    payloads [first]; [adm] are the requests admitted so far and [done] those that were
    appended.  Producers and the worker take their locked sections in any order, the
    worker reads any clock, and the writer answers as it likes. *)
Inductive commit_run {S} `{CommitWriterLaws S} (config : WalCommitCoordinatorConfig) (first : list (list byte)) :
    Coordinator S -> list CommitRequest -> list CommitRequest -> Prop :=
| run_start w c : cw_holds w first -> start config w = Ok c -> commit_run config first c [] []
| run_submit c adm done payload durability r c' :
    commit_run config first c adm done -> try_submit payload durability c = (r, c') ->
    commit_run config first c' (adm ++ admitted_by r c') done
| run_shutdown c adm done :
    commit_run config first c adm done -> commit_run config first (request_shutdown c) adm done
| run_worker c adm done now c' :
    commit_run config first c adm done -> worker_step now c = Some c' ->
    commit_run config first c' adm (done ++ appended_by (co_pc c) (co_pc c')).

Section runs.
Context {S : Type} {HW : CommitWriter S} {HL : CommitWriterLaws S}.
Context (config : WalCommitCoordinatorConfig) (Htyped : commit_config_typed config) (first : list (list byte)).

Lemma valid_batch : validate_commit_config config = kOk -> 1 <= maximum_sync_batch_requests config.
Proof.
  destruct Htyped as (_ & _ & [Hb _] & _). unfold validate_commit_config.
  destruct (Z.eqb_spec (maximum_sync_batch_requests config) 0) as [_|Hne]; [by repeat case_match|lia].
Qed.

Lemma start_inv w c : cw_holds w first -> start config w = Ok c ->
  validate_commit_config config = kOk /\ commit_inv config first c [] [].
Proof.
  intros Hh. unfold start, check. destruct (is_ok _) eqn:Hv; [|by destruct (validate_commit_config _)].
  apply bool_decide_eq_true in Hv.
  destruct (negb _); [done|]. rewrite (cw_holds_works _ _ Hh). intros [= <-]. split; [done|].
  destruct Htyped as ([] & [] & [] & []).
  split; cbn; try done; try set_solver.
  - split; cbn; try done; [left; split_and!; done|intros r ?%elem_of_nil; done|by apply NoDup_nil| |intros t [? Ht]; by rewrite lookup_empty in Ht].
    intros t. rewrite lookup_empty. split; [lia|]. intros [[? [=]]|?%elem_of_nil]; done.
  - constructor.
  - split; [by unfold log_of; cbn; rewrite app_nil_r|]. intros t out d. cbn. by rewrite lookup_empty.
Qed.

Lemma set_shared_same (c : Coordinator S) : set_shared c (co_shared c) = c.
Proof. by destruct c. Qed.

Lemma worker_step_inv now c adm done c' :
  1 <= maximum_sync_batch_requests config -> commit_inv config first c adm done -> worker_step now c = Some c' ->
  commit_inv config first c' adm (done ++ appended_by (co_pc c) (co_pc c')).
Proof.
  intros Hb Hi. unfold worker_step. destruct (co_pc c) eqn:Epc.
  - intros H. destruct (decide_inv _ Htyped _ _ _ _ _ _ Hi Epc H) as [Hi' Ha]. rewrite Epc in Ha. by rewrite Ha, app_nil_r.
  - intros [= <-]. rewrite app_nil_r. by apply sync_inv.
  - destruct (cw_synchronize _) as [r w] eqn:E. intros [= <-]. rewrite app_nil_r. by eapply synchronize_inv.
  - pose proof (ci_worker _ _ _ _ _ Hi) as Hw. rewrite Epc in Hw.
    destruct synchronized as [position|e]; intros [= <-]; rewrite app_nil_r; [by apply synchronized_inv|].
    destruct Hw as [He Hd]. eapply release_inv; rewrite ?Epc; try done; [right; by eexists|by rewrite <- log_length].
  - destruct (cw_append _ _) as [r w] eqn:E. intros [= <-].
    pose proof (append_inv _ _ _ _ _ _ _ _ Hi Epc E) as H. by rewrite Epc in H.
  - pose proof (ci_worker _ _ _ _ _ Hi) as Hw. rewrite Epc in Hw.
    destruct appended as [out|e]; intros [= <-]; rewrite app_nil_r; [by apply appended_inv|].
    destruct Hw as (He & Hd & Hok). rewrite <- (set_shared_same c) at 1.
    eapply release_inv; rewrite ?Epc; try done; [by left|by rewrite <- log_length|..];
      cbn [release_durable set_shared co_writer]; destruct (cw_is_failed (co_writer c)) eqn:Ef; try done.
    intros s' Ha. split; [done|]. destruct (Hok eq_refl) as [? ?]. split; auto.
  - intros [= <-]. cbn [next_iteration goto co_pc appended_by]. rewrite app_nil_r. by apply finish_inv.
  - intros [= <-]. rewrite app_nil_r. by apply fail_terminal_inv.
  - destruct (cw_close _) as [e w] eqn:E. intros [= <-]. rewrite app_nil_r. by apply stop_inv.
  - intros [= <-]. rewrite app_nil_r. by apply closed_inv.
  - done.
Qed.

Lemma run_inv c adm done : commit_run config first c adm done ->
  1 <= maximum_sync_batch_requests config /\ commit_inv config first c adm done.
Proof.
  induction 1 as [w c Hh Hs|c adm done payload durability r c' _ [Hb IH] E|c adm done _ [Hb IH]|c adm done now c' _ [Hb IH] E].
  - destruct (start_inv _ _ Hh Hs). split; [by apply valid_batch|done].
  - split; [done|]. pose proof (submit_inv _ Htyped _ _ _ _ _ _ _ _ IH E) as H. destruct r as [t|e]; cbn [admitted_by].
    + destruct H as (rq & _ & _ & _ & _ & -> & H). done.
    + rewrite app_nil_r. apply H.
  - split; [done|]. by apply shutdown_inv.
  - split; [done|]. by eapply worker_step_inv.
Qed.
End runs.

(** * What every reachable state satisfies *)

(** The worker has not met a failure of the writer. *)
Definition serving (pc : WorkerPc) : bool :=
  match pc with
  | PcDecide | PcSync | PcSynchronize | PcAppend _ | PcFinish _ _ => true
  | PcSynchronized (Ok _) | PcAppended _ _ (Ok _) => true
  | _ => false
  end.

Section facts.
Context {S : Type} {HW : CommitWriter S} {HL : CommitWriterLaws S}.
Context (config : WalCommitCoordinatorConfig) (first : list (list byte)).
#[local] Abbreviation inv := (commit_inv config first).

Lemma serving_works c adm done :
  inv c adm done -> serving (co_pc c) = true -> working first (co_writer c) (co_shared c) done.
Proof. intros [? ? ? ? ? ? ? ? ? Hw ? ? ?]. destruct (co_pc c) as [| | |[]| |? ? []| | | | |]; try done; by destruct Hw. Qed.

Lemma done_in_order c adm done : inv c adm done -> StronglySorted Z.lt (ticket <$> done).
Proof.
  intros Hi. generalize (ci_sorted _ _ _ _ _ Hi). clear Hi. generalize (waiting (co_pc c) ++ queue (co_shared c)). intros l.
  induction done as [|r rs IH]; cbn [app]; [intros _; constructor|]. rewrite !fmap_cons.
  intros [Hs Hr]%StronglySorted_inv. constructor; [by apply IH|]. rewrite fmap_app in Hr. by apply Forall_app in Hr as [? _].
Qed.

Lemma ticket_lookup c adm done r : inv c adm done -> r ∈ adm -> adm !! Z.to_nat (ticket r - 1) = Some r.
Proof.
  intros [? Hl ? ? ? ? ? ? ? ? ? ? ?] [k Hk]%list_elem_of_lookup. rewrite (ld_tickets _ _ _ _ Hl _ _ Hk).
  by replace (Z.to_nat (1 + Z.of_nat k - 1)) with k by lia.
Qed.

(** The request behind an acknowledgement. *)
Definition acknowledges (adm done : list CommitRequest) (t : Z) (out : WalCommitResult) : Prop :=
  exists r k, adm !! Z.to_nat (t - 1) = Some r /\ done !! k = Some r /\ ticket r = t /\
    cr_admission_sequence out = t /\ cr_requested_durability out = rq_durability r /\
    cr_effective_durability out = rq_durability r /\
    append_record_sequence (cr_append out) = blen first + 1 + Z.of_nat k /\
    if rq_durability r =? kAsync then
      cr_durable_record_sequence out = None /\ cr_synchronization_position out = None
    else rq_durability r = kLocalSync /\ exists durable, cr_durable_record_sequence out = Some durable /\
      append_record_sequence (cr_append out) <= durable <= blen first + blen done.

Lemma acknowledged_request c adm done t out :
  inv c adm done -> wait_completion c t = Some (Ok out) -> acknowledges adm done t out.
Proof.
  intros Hi Ht. pose proof (ci_completions _ _ _ _ _ Hi _ _ Ht) as (r & (k & Hk & Et & Es) & Ha & Hq & He & Hd).
  assert (Hr : r ∈ adm) by (apply (ci_done _ _ _ _ _ Hi); by eapply list_elem_of_lookup_2).
  exists r, k. split; [by rewrite <- Et; eapply ticket_lookup|]. split_and!; try done.
  destruct (ci_durability _ _ _ _ _ Hi _ Hr) as [E|[E _]]; rewrite E in *; [done|]. by split.
Qed.
End facts.

(** * Shutting down *)

(** What can happen to a coordinator: a producer submits, a shutdown is requested, or
    the worker runs to its next lock or call. *)
Inductive CommitEvent :=
| Produce (payload : list byte) (durability : Z)
| Shutdown
| Work (now : Z).
Definition is_work (e : CommitEvent) : bool := match e with Work _ => true | _ => false end.
Definition react {S} `{CommitWriter S} (c : Coordinator S) (e : CommitEvent) : Coordinator S :=
  match e with
  | Produce payload durability => (try_submit payload durability c).2
  | Shutdown => request_shutdown c
  | Work now => default c (worker_step now c)
  end.

(** A bound on the steps the worker has left once a shutdown is requested. *)
Definition steps_left (pc : WorkerPc) (window : SyncWindow) : nat :=
  let window_steps := if win_active window then 6%nat else 0%nat in
  match pc with
  | PcDecide => 7 + window_steps
  | PcSync => 12 | PcSynchronize => 11 | PcSynchronized _ => 10
  | PcAppend _ => 15 + window_steps | PcAppended _ _ _ => 14 + window_steps
  | PcFinish _ _ => 8 + window_steps
  | PcFailTerminal _ _ => 3 | PcStop => 2 | PcClosed _ => 1 | PcDone => 0
  end.
Definition remaining {S} (c : Coordinator S) : nat :=
  12 * length (queue (co_shared c)) + steps_left (co_pc c) (co_window c).

(** The queue and the shutdown flag are not touched by a section that finishes requests. *)
Definition same_demand (s s' : Shared) : Prop :=
  queue s' = queue s /\ shutdown_requested s' = shutdown_requested s.
#[export] Instance same_demand_preorder : PreOrder same_demand.
Proof. split; [done|]. intros s1 s2 s3 [] []. split; congruence. Qed.

Lemma release_admission_demand r s : same_demand s (release_admission r s).
Proof. unfold release_admission. by destruct (_ || _). Qed.
Lemma finish_failure_demand r e s : same_demand s (finish_failure r e s).
Proof. unfold finish_failure. etransitivity; [|apply release_admission_demand]. done. Qed.
Lemma finish_success_demand r append position durable s : same_demand s (finish_success r append position durable s).
Proof. unfold finish_success. etransitivity; [|apply release_admission_demand]. by destruct (_ =? _). Qed.
Lemma release_prefix_demand durable position pending : forall requests bytes s,
  same_demand s (release_prefix pending durable position requests bytes s).2.
Proof.
  induction pending as [|p pending IH]; intros requests bytes s; cbn [release_prefix]; [done|].
  destruct (_ <=? _); [|done]. etransitivity; [apply finish_success_demand|apply IH].
Qed.
Lemma release_durable_local_demand durable position s : same_demand s (release_durable_local durable position s).
Proof.
  unfold release_durable_local. pose proof (release_prefix_demand durable position (pending_local_sync s) 0 0 s) as H.
  destruct (release_prefix _ _ _ _ _ _) as [[[rest requests] bytes] s']. cbn [snd] in H. by destruct (negb _).
Qed.
Lemma fail_all_demand rs : forall s, same_demand s (fail_all rs s).
Proof.
  unfold fail_all. induction rs as [|r rs IH]; intros s; [done|]. cbn [fold_left].
  etransitivity; [apply finish_failure_demand|apply IH].
Qed.
Lemma fail_terminal_demand current e s :
  queue (fail_terminal current e s) = [] /\
  shutdown_requested (fail_terminal current e s) = shutdown_requested s.
Proof.
  unfold fail_terminal. set (s1 := set_commit_metrics _ _).
  assert (E1 : shutdown_requested s1 = shutdown_requested s) by (unfold s1; by destruct (is_ok _)).
  set (s2 := fail_all (option_list current) s1). pose proof (fail_all_demand (option_list current) s1) as [_ E2].
  pose proof (fail_all_demand (pl_request <$> pending_local_sync s2) s2) as [_ E3].
  match goal with |- context [fail_all ?l (set_queue ?x [])] => pose proof (fail_all_demand l (set_queue x [])) as [E4 E5] end.
  fold s2 in E2. split; [exact E4|]. rewrite E5. cbn [set_queue shutdown_requested set_pending_local_sync]. congruence.
Qed.

Section draining.
Context {S : Type} {HW : CommitWriter S}.

Lemma record_append_left now request rotated out (c : Coordinator S) :
  let c' := record_append now request rotated out c in
  same_demand (co_shared c) (co_shared c') /\ co_writer c' = co_writer c.
Proof.
  unfold record_append. set (c1 := set_shared c _).
  set (c2 := if rotated then _ else c1).
  assert (E2 : same_demand (co_shared c) (co_shared c2) /\ co_writer c2 = co_writer c).
  { unfold c2. destruct rotated; [|done]. split; [|done]. transitivity (co_shared c1); [done|apply release_durable_local_demand]. }
  set (c3 := if win_active (co_window c2) then _ else _).
  assert (E3 : co_shared c3 = co_shared c2 /\ co_writer c3 = co_writer c2)
    by (unfold c3; destruct (win_active _); [done|]; by destruct (_ =? _)).
  destruct E2 as [D2 W2], E3 as [D3 W3]. cbn [set_shared co_shared co_writer]. rewrite D3, W3. split; [|done].
  destruct (_ =? kAsync); [|exact D2]. etransitivity; [exact D2|apply finish_success_demand].
Qed.

(** Once a shutdown is requested the worker never waits, and comes closer to its end. *)
Lemma worker_step_drains now (c : Coordinator S) :
  shutdown_requested (co_shared c) = true -> co_pc c <> PcDone ->
  exists c', worker_step now c = Some c' /\ shutdown_requested (co_shared c') = true /\
    (remaining c' < remaining c)%nat.
Proof.
  intros Hs Hpc. unfold worker_step, remaining. destruct (co_pc c) eqn:Epc; try done.
  - unfold decide_next. rewrite Hs. cbn [orb]. destruct (terminal_failure _).
    { eexists. split; [reflexivity|]. split; [done|]. cbn. lia. }
    destruct (win_active (co_window c)) eqn:Ew.
    { eexists. split; [reflexivity|]. split; [done|]. cbn. rewrite Ew. lia. }
    destruct (queue (co_shared c)) as [|r rest] eqn:Eq; eexists; (split; [reflexivity|]); (split; [done|]);
      cbn; rewrite ?Ew, ?Eq; cbn; lia.
  - eexists. split; [reflexivity|]. split; [done|]. cbn. lia.
  - destruct (cw_synchronize _) as [r w]. eexists. split; [reflexivity|]. split; [done|]. cbn. lia.
  - destruct synchronized as [position|e]; eexists; (split; [reflexivity|]).
    + cbn. destruct (release_durable_local_demand (cw_durable_record_sequence (co_writer c)) position
        (counted successful_synchronizations (co_shared c))) as [-> ->]. split; [done|]. cbn. lia.
    + cbn. destruct (release_durable_local_demand (cw_durable_record_sequence (co_writer c))
        (cw_durable_position (co_writer c)) (counted failed_synchronizations (co_shared c))) as [-> ->].
      split; [done|]. cbn. lia.
  - destruct (cw_append _ _) as [r w]. eexists. split; [reflexivity|]. split; [done|]. cbn. lia.
  - destruct appended as [out|e]; eexists; (split; [reflexivity|]).
    + set (rotated := negb _). destruct (record_append_left now request rotated out c) as [[Eq Es] Ew].
      cbn [next_iteration goto co_shared co_pc co_window]. rewrite Es, Eq. split; [done|].
      destruct (cw_is_failed _); cbn [steps_left]; repeat case_match; lia.
    + cbn [goto release_durable set_shared co_shared co_pc co_window co_writer].
      destruct (release_durable_local_demand (cw_durable_record_sequence (co_writer c))
        (cw_durable_position (co_writer c)) (co_shared c)) as [-> ->]. split; [done|].
      destruct (cw_is_failed _); cbn [steps_left]; destruct (win_active _); lia.
  - eexists. split; [reflexivity|]. cbn [next_iteration goto set_shared co_shared co_pc co_window co_writer].
    destruct (finish_failure_demand request status (co_shared c)) as [-> ->]. split; [done|].
    destruct (cw_is_failed _); cbn [steps_left]; lia.
  - eexists. split; [reflexivity|]. cbn [goto set_window set_shared co_shared co_pc co_window].
    destruct (fail_terminal_demand current failure (co_shared c)) as [-> ->]. split; [done|]. cbn. lia.
  - destruct (cw_close _) as [e w]. eexists. split; [reflexivity|]. split; [done|]. cbn. lia.
  - eexists. split; [reflexivity|]. cbn. repeat case_match; (split; [done|cbn; lia]).
Qed.

Lemma submit_refused config payload durability s :
  accepting (metrics s) = false -> exists e, submit config payload durability s = (Err e, reject_request s).
Proof.
  intros Ha. unfold submit. destruct (_ && _); [by eexists|].
  destruct (calculate_record_layout _) as [layout|e].
  - destruct (_ && _); [by eexists|]. unfold admit_request. rewrite Ha. by eexists.
  - destruct (@make_unexpected_not_ok Z e) as (e' & -> & _). by eexists.
Qed.

Context {HL : CommitWriterLaws S} (config : WalCommitCoordinatorConfig) (first : list (list byte)).
Context (Htyped : commit_config_typed config).

Lemma done_queue c adm done : commit_inv config first c adm done -> co_pc c = PcDone ->
  in_flight (hand (co_pc c)) (co_shared c) = [].
Proof. intros [? ? ? ? ? ? ? ? ? Hw ? ? ?] E. rewrite E in Hw |- *. destruct Hw as (Hq & Hp & _). unfold in_flight. by rewrite Hq, Hp. Qed.

Lemma drained es : forall c adm done,
  commit_run config first c adm done -> shutdown_requested (co_shared c) = true ->
  (remaining c <= length (filter is_work es))%nat ->
  exists done', commit_run config first (fold_left react es c) adm done' /\ co_pc (fold_left react es c) = PcDone.
Proof.
  induction es as [|e es IH]; intros c adm done Hrun Hs Hle; cbn [fold_left].
  { exists done. split; [done|]. cbn in Hle. unfold remaining in Hle. destruct (co_pc c); cbn in Hle; try lia. done. }
  destruct (run_inv config Htyped first _ _ _ Hrun) as [_ Hi]. rewrite filter_cons in Hle. destruct e as [payload durability| |now].
  - rewrite decide_False in Hle by (by intros []). pose proof (ci_shutdown _ _ _ _ _ Hi Hs) as Ha.
    destruct (submit_refused (co_config c) payload durability _ Ha) as [e E].
    assert (Et : try_submit payload durability c = (Err e, set_shared c (reject_request (co_shared c))))
      by (unfold try_submit; by rewrite E).
    pose proof (run_submit _ _ _ _ _ _ _ _ _ Hrun Et) as Hrun'. cbn [admitted_by] in Hrun'. rewrite app_nil_r in Hrun'.
    cbn [react]. rewrite Et. by apply IH with done.
  - rewrite decide_False in Hle by (by intros []). cbn [react]. apply IH with done; [by apply run_shutdown|done..].
  - rewrite decide_True in Hle by done. cbn [react length] in *.
    assert (co_pc c = PcDone \/ co_pc c <> PcDone) as [Ed|Hne] by (destruct (co_pc c); (by left) || by right).
    + assert (E : worker_step now c = None) by (unfold worker_step; by rewrite Ed). rewrite E. cbn [default]. apply IH with done; try done.
      pose proof (done_queue _ _ _ Hi Ed) as Hf. unfold remaining. rewrite Ed. unfold in_flight in Hf.
      apply app_nil in Hf as [_ Hf]. apply app_nil in Hf as [_ ->]. cbn. lia.
    + destruct (worker_step_drains now c Hs Hne) as (c' & E & Hs' & Hlt). rewrite E. change (default c (Some c')) with c'.
      eapply IH; [by eapply run_worker|done|lia].
Qed.
End draining.

(** * The log the worker leaves *)

Section left.
Context {S : Type} {HW : CommitWriter S} {HL : CommitWriterLaws S}.
Context (config : WalCommitCoordinatorConfig) (first : list (list byte)).
#[local] Abbreviation inv := (commit_inv config first).

(** The log of [w] reads as the payloads of [done] after [first], or as these and the payload
    of one admitted request whose append failed. *)
Definition log_reads (adm done : list CommitRequest) (w : S) : Prop :=
  cw_reads w (first ++ (rq_payload <$> done)) \/
  exists r, r ∈ adm /\ (r ∉ done) /\ cw_reads w ((first ++ (rq_payload <$> done)) ++ [rq_payload r]).

Lemma log_reads_more adm adm' done w : log_reads adm done w -> log_reads (adm ++ adm') done w.
Proof. intros [?|(r & ? & ?)]; [by left|]. right. exists r. rewrite elem_of_app. eauto. Qed.
Lemma serving_reads c adm done : inv c adm done -> serving (co_pc c) = true -> log_reads adm done (co_writer c).
Proof. intros Hi Hs. destruct (serving_works _ _ _ _ _ Hi Hs) as [Hh _]. left. by apply cw_holds_reads. Qed.

(** The request in the worker's hands is not yet appended. *)
Lemma waiting_not_done c adm done r : inv c adm done -> co_pc c = PcAppend r -> r ∈ adm /\ r ∉ done.
Proof.
  intros Hi Epc. split; [apply (ci_known _ _ _ _ _ Hi); rewrite Epc; left|].
  pose proof (ci_sorted _ _ _ _ _ Hi) as Hs. rewrite Epc in Hs. cbn [waiting] in Hs. intros Hin.
  clear -Hs Hin. induction done as [|x done IH]; [by apply elem_of_nil in Hin|]. cbn in Hs. apply StronglySorted_inv in Hs as [Hs Hx].
  apply elem_of_cons in Hin as [->|Hin]; [|by apply IH].
  rewrite Forall_forall in Hx. specialize (Hx (ticket x)). rewrite list_elem_of_fmap in Hx.
  assert (ticket x < ticket x); [|lia]. apply Hx. exists x. split; [done|]. set_solver.
Qed.

Lemma worker_step_reads now c adm done c' : inv c adm done ->
  inv c' adm (done ++ appended_by (co_pc c) (co_pc c')) -> worker_step now c = Some c' ->
  log_reads adm done (co_writer c) -> log_reads adm (done ++ appended_by (co_pc c) (co_pc c')) (co_writer c').
Proof.
  intros Hi Hi' E Hl. destruct (serving (co_pc c')) eqn:Hs'; [by eapply serving_reads|].
  assert (Hw : serving (co_pc c) = true -> cw_holds (co_writer c) (first ++ (rq_payload <$> done)))
    by (intros Hs; by destruct (serving_works _ _ _ _ _ Hi Hs)).
  unfold worker_step in E. destruct (co_pc c) eqn:Epc; try done.
  - unfold decide_next in E. repeat case_match; simplify_eq; try done; cbn in *; by rewrite app_nil_r.
  - by injection E as <-.
  - destruct (cw_synchronize _) as [r w] eqn:Ew. injection E as <-. cbn in *. destruct r as [|e]; [done|]. rewrite app_nil_r.
    left. eapply cw_synchronize_reads; [by apply Hw|done].
  - destruct synchronized; injection E as <-; [done|]. cbn in *. by rewrite app_nil_r.
  - destruct (cw_append _ _) as [r w] eqn:Ew. injection E as <-. cbn in *. destruct r as [|e]; [done|]. rewrite app_nil_r.
    destruct (cw_append_reads _ _ _ _ _ (Hw eq_refl) Ew); [by left|]. right. exists request.
    destruct (waiting_not_done _ _ _ _ Hi Epc). done.
  - destruct appended as [out|e]; injection E as <-.
    + exfalso. revert Hs'. unfold next_iteration. cbn [goto co_pc]. set (rotated := negb _).
      destruct (record_append_left now request rotated out c) as [_ ->]. by rewrite (cw_holds_works _ _ (Hw eq_refl)).
    + cbn in *. destruct (cw_is_failed _); [|done]. by rewrite app_nil_r.
  - injection E as <-. cbn in Hs'. by rewrite (cw_holds_works _ _ (Hw eq_refl)) in Hs'.
  - injection E as <-. cbn in *. by rewrite app_nil_r.
  - destruct (cw_close _) as [e w] eqn:Ew. injection E as <-. cbn in *. rewrite app_nil_r.
    replace w with (cw_close (co_writer c)).2 by by rewrite Ew.
    destruct Hl as [?|(r & ? & ? & ?)]; [left; by apply cw_close_reads|]. right. exists r. split_and!; try done. by apply cw_close_reads.
  - injection E as <-. cbn in *. by rewrite app_nil_r.
Qed.

(** In every state of a run, whatever failed. *)
Lemma run_reads (Htyped : commit_config_typed config) c adm done :
  commit_run config first c adm done -> log_reads adm done (co_writer c).
Proof.
  induction 1 as [w c Hh Hs|c adm done payload durability r c' _ IH E|c adm done _ IH|c adm done now c' Hrun IH E].
  - destruct (start_inv _ Htyped _ _ _ Hh Hs) as [_ Hi]. eapply serving_reads; [done|].
    revert Hs. unfold start, check. repeat case_match; intros; by simplify_eq.
  - revert E. unfold try_submit. destruct (submit _ _ _ _). intros [= _ <-]. by apply log_reads_more.
  - done.
  - destruct (run_inv config Htyped first _ _ _ Hrun) as [_ Hi].
    destruct (run_inv config Htyped first _ _ _ (run_worker _ _ _ _ _ _ _ Hrun E)) as [_ Hi']. by eapply worker_step_reads.
Qed.
End left.

(** * Crashes *)

(** The worker serves, or it has stopped without a failure. *)
Definition intact {S} (c : Coordinator S) : bool :=
  serving (co_pc c) || ending (co_pc c) && negb (terminal_failure (metrics (co_shared c))).

Section crashes.
Context {W : Type} {HIO : PosixIo W} {HL : PosixLaws W}.
Context (config : WalCommitCoordinatorConfig) (first : list (list byte)).

(** The log on the disk of an intact coordinator. *)
Lemma intact_log (c : Coordinator (W * option Impl)) adm done :
  commit_inv config first c adm done -> intact c = true ->
  exists i sgs lg, writer_ok (disk (co_writer c).1) i sgs lg /\
    (all_records (sgs ++ [lg])).*2 = log_of first done /\
    acks_within (durable_record_sequence i) (co_shared c).
Proof.
  intros Hi Hok. assert (exists wh, disk (co_writer c).1 = disk wh.1 /\ working first wh (co_shared c) done) as (wh & -> & Hh & Ha).
  { unfold intact in Hok. destruct (serving _) eqn:Es; [exists (co_writer c); split; [done|by eapply serving_works]|].
    apply andb_true_iff in Hok as [He Hf]. apply negb_true_iff in Hf. pose proof (ci_worker _ _ _ _ _ Hi) as Hw.
    destruct (co_pc c); try done; cbn [worker_ok] in Hw; destruct Hw as (_ & _ & _ & Hw); specialize (Hw Hf);
      [by exists (co_writer c)|destruct Hw as (w0 & -> & Hw); exists w0; split; [apply close_keeps_disk|done]..]. }
  destruct wh as [w [i|]]; [|done]. destruct Hh as (_ & sgs & lg & Hok' & Hps). by exists i, sgs, lg.
Qed.

(** What is replayed after a crash of an intact coordinator. *)
Lemma crash_replays (c : Coordinator (W * option Impl)) adm done wc (w : W) :
  commit_inv config first c adm done -> intact c = true ->
  64 + session_bytes (log_of first done) < max_u64 ->
  crash (disk (co_writer c).1) (disk w) -> reliable w -> validate_writer_config wc = kOk ->
  permissions_ok (config_file_permissions wc) ->
  exists n i' w' replayed,
    open_existing_with wc {| repair_incomplete_final_tail := true |} recording_sink None (w, []) =
      (Ok i', (w', replayed)) /\
    replay_payload <$> replayed = take n (log_of first done) /\
    writer_holds (w', Some i') (take n (log_of first done)) /\
    acks_within (Z.of_nat n) (co_shared c).
Proof.
  intros Hi Hok Hcount Hcrash Hr Hc Hp. destruct (intact_log _ _ _ Hi Hok) as (i & sgs & lg & Hw & Hps & Ha).
  pose proof (session_bytes_count (log_of first done)) as Hn.
  pose proof (history_bytes _ _ _ _ (wo_history _ _ _ _ Hw)) as Hb. rewrite Hps in Hb.
  destruct (reopen_after_crash wc _ i sgs lg w Hw) as (n & lg' & i' & w' & replayed & E & Hw' & Hf & Hd & Hrec & Hrep); try done.
  - rewrite <- (wo_sequence _ _ _ _ Hw), <- (writer_log_length _ _ _ _ Hw), Hps. lia.
  - rewrite contents_snoc, app_nil_r. rewrite fmap_app in Hb. cbn [fmap list_fmap] in Hb. unfold total_bytes in *. lia.
  - exists n, i', w', replayed. split; [done|]. rewrite Hps in Hrep. split; [done|]. split.
    + split; [done|]. exists sgs, lg'. split; [done|]. by rewrite Hrec, fmap_take, Hps.
    + intros t out d Ht Hd'. specialize (Ha t out d Ht Hd'). lia.
Qed.
End crashes.
