(* ===== verification/WalCommitTheorems.v ===== *)
(** What a group-commit coordinator promises: runs of producers and the worker in any
    order, the books and the results in every reachable state, and the end of a shutdown. *)
From Stdlib Require Import Sorted.
From S2P Require Import Prelude Bytes Crc32c WalCodec PosixIo DiskFacts WalPaths WalScan WalHistory.
From S2P Require Import WalDiscovery WalSound WalScanTheorems WalWriter WalWriterFacts WalWriterFailure.
From S2P Require Import WalWriterTheorems.
From S2P Require Import WalRecovery WalRecoveryTheorems.
From S2P Require Import WalCommit WalCommitFacts WalCommitInvariant WalCommitSteps WalCommitWriter.
From S2P Require Import WalCommitRuns.
#[local] Open Scope Z_scope.

(** * Claims *)

(** C4.  The coordinator's books, in every state that producers, a shutdown and the
    worker can bring about: the gauges of pending requests and bytes are exactly the
    requests in flight (waiting in the queue, in the worker's hands, or waiting for a
    synchronisation) and are within the admission limits; every ticket that was handed
    out is in flight once or has its result, and never both; and the synchronisation
    window is within the configured batch limits. *)
Theorem commit_books {S : Type} {HW : CommitWriter S} {HL : CommitWriterLaws S}
    (config : WalCommitCoordinatorConfig) (first : list (list byte)) (c : Coordinator S)
    (adm done : list CommitRequest) (Htyped : commit_config_typed config)
    (Hrun : commit_run config first c adm done) :
  let flight := in_flight (hand (co_pc c)) (co_shared c) in
  pending_requests (metrics (co_shared c)) = blen flight /\ blen flight <= maximum_pending_requests config /\
  pending_encoded_bytes (metrics (co_shared c)) = total_encoded flight /\
  total_encoded flight <= maximum_pending_encoded_bytes config /\
  NoDup (ticket <$> flight) /\
  (forall t, 1 <= t <= blen adm <-> is_Some (wait_completion c t) \/ t ∈ (ticket <$> flight)) /\
  (forall t, is_Some (wait_completion c t) -> t ∉ (ticket <$> flight)) /\
  0 <= win_request_count (co_window c) <= maximum_sync_batch_requests config /\
  0 <= win_encoded_bytes (co_window c) <= maximum_sync_batch_encoded_bytes config.
Proof.
  destruct (run_inv config Htyped first _ _ _ Hrun) as [_ [_ Hl _ _ _ _ _ _ Hw _ _ _ _]]. destruct Hl, Hw as (_ & [] & [] & _).
  intros flight. split_and!; assumption.
Qed.

(** C3.  What the coordinator answers.  In every state of every run, with [done] the requests
    that were appended, in admission order: the log reads as what it held at the start and
    then the payloads of [done], or as these and the payload of one admitted request whose
    append failed; and while the worker serves, the writer holds exactly the first.  A failed
    request is told an error; and an acknowledged request is one that was admitted under that
    ticket, is appended at the record sequence it is told, and got the durability it asked
    for: an ASYNC one carries no durable position, and a LOCAL_SYNC one is within the durable
    record sequence it is told, which never exceeds what was appended. *)
Theorem commit_results {S : Type} {HW : CommitWriter S} {HL : CommitWriterLaws S}
    (config : WalCommitCoordinatorConfig) (first : list (list byte)) (c : Coordinator S)
    (adm done : list CommitRequest) (Htyped : commit_config_typed config)
    (Hrun : commit_run config first c adm done) :
  StronglySorted Z.lt (ticket <$> done) /\ (forall r, r ∈ done -> r ∈ adm) /\
  log_reads first adm done (co_writer c) /\
  (serving (co_pc c) = true -> cw_holds (co_writer c) (first ++ (rq_payload <$> done))) /\
  (forall t e, wait_completion c t = Some (Err e) -> e <> kOk) /\
  (forall t out, wait_completion c t = Some (Ok out) -> acknowledges first adm done t out).
Proof.
  destruct (run_inv config Htyped first _ _ _ Hrun) as [_ Hi]. split_and!.
  - by eapply done_in_order.
  - apply (ci_done _ _ _ _ _ Hi).
  - by eapply run_reads.
  - intros Hs. by destruct (serving_works _ _ _ _ _ Hi Hs).
  - intros t e Ht. by apply (ci_completions _ _ _ _ _ Hi _ _ Ht).
  - intros t out Ht. by eapply acknowledged_request.
Qed.

(** C22.  A shutdown drains: once it is requested, any sequence of further events in which
    the worker gets [remaining c] turns (twelve for every queued request and a few more)
    ends with the worker done, whatever producers, clocks and the writer do meanwhile.
    Nothing more is admitted, nothing is left pending, every ticket that was ever handed
    out has its result, and the caller of shutdown gets its status. *)
Theorem shutdown_drains {S : Type} {HW : CommitWriter S} {HL : CommitWriterLaws S}
    (config : WalCommitCoordinatorConfig) (first : list (list byte)) (c : Coordinator S)
    (adm done : list CommitRequest) (events : list CommitEvent) (Htyped : commit_config_typed config)
    (Hrun : commit_run config first c adm done) (Hshutdown : shutdown_requested (co_shared c) = true)
    (Hturns : (remaining c <= length (filter is_work events))%nat) :
  let c' := fold_left react events c in
  (exists done', commit_run config first c' adm done') /\
  shutdown_status c' = Some (terminal_status (co_shared c')) /\
  pending_requests (metrics (co_shared c')) = 0 /\ pending_encoded_bytes (metrics (co_shared c')) = 0 /\
  forall t, 1 <= t <= blen adm -> is_Some (wait_completion c' t).
Proof.
  cbv zeta. destruct (drained config first Htyped events _ _ _ Hrun Hshutdown Hturns) as (done' & Hrun' & Epc).
  destruct (run_inv config Htyped first _ _ _ Hrun') as [_ Hi]. pose proof (ci_ledger _ _ _ _ _ Hi) as Hl.
  rewrite (done_queue _ _ _ _ _ Hi Epc) in Hl. destruct Hl as [_ _ _ _ _ Hp _ Hr Hb _ _].
  split; [by exists done'|]. split; [unfold shutdown_status; by rewrite Epc|]. split; [done|]. split; [done|].
  intros t Ht. by apply Hp in Ht as [?|?%elem_of_nil].
Qed.

(** C2.  A LOCAL_SYNC acknowledgement survives a crash.  Whatever producers and the
    worker did, as long as the log writer has not failed (or was closed without a
    failure), a crash at this point leaves a log that opens again, and its replay is a
    prefix of what was in the log before the coordinator and then of the appended payloads
    in order; the payload of every request whose LOCAL_SYNC was acknowledged is in that
    prefix, at the record sequence the producer was told.  The reopened writer holds
    exactly what was replayed, so that a coordinator can take it over. *)
Theorem local_sync_survives_crash {W : Type} {HIO : PosixIo W} {HL : PosixLaws W}
    (config : WalCommitCoordinatorConfig) (first : list (list byte)) (c : Coordinator (W * option Impl))
    (adm done : list CommitRequest) (wc : WalWriterConfig) (w : W) (Htyped : commit_config_typed config)
    (Hrun : commit_run config first c adm done) (Hintact : intact c = true)
    (Hcount : 64 + session_bytes (first ++ (rq_payload <$> done)) < max_u64)
    (Hcrash : crash (disk (co_writer c).1) (disk w)) (Hr : reliable w)
    (Hc : validate_writer_config wc = kOk) (Hp : permissions_ok (config_file_permissions wc)) :
  exists n i' w' replayed,
    open_existing_with wc {| repair_incomplete_final_tail := true |} recording_sink None (w, []) =
      (Ok i', (w', replayed)) /\
    replay_payload <$> replayed = take n (first ++ (rq_payload <$> done)) /\
    cw_holds (w', Some i') (take n (first ++ (rq_payload <$> done))) /\
    forall t out, wait_completion c t = Some (Ok out) -> cr_effective_durability out = kLocalSync ->
      exists r, adm !! Z.to_nat (t - 1) = Some r /\ append_record_sequence (cr_append out) <= Z.of_nat n /\
        (replay_payload <$> replayed) !! Z.to_nat (append_record_sequence (cr_append out) - 1) = Some (rq_payload r).
Proof.
  destruct (run_inv config Htyped first _ _ _ Hrun) as [_ Hi].
  destruct (crash_replays config first _ _ _ wc w Hi Hintact Hcount Hcrash Hr Hc Hp)
    as (n & i' & w' & replayed & E & Hrep & Hh & Ha).
  exists n, i', w', replayed. split; [done|]. split; [done|]. split; [done|]. intros t out Ht Hd.
  destruct (acknowledged_request _ _ _ _ _ _ _ Hi Ht) as (r & k & Hr' & Hk & _ & _ & _ & He & Es & Hif).
  exists r. split; [done|]. rewrite <- He, Hd in Hif. destruct Hif as (_ & d & Ed & Hle & _).
  specialize (Ha t out d Ht Ed). rewrite Es in *. split; [lia|]. rewrite Hrep, lookup_take_lt by lia.
  unfold log_of. rewrite lookup_app_r by lia. replace (Z.to_nat _ - length first)%nat with k by lia.
  by rewrite list_lookup_fmap, Hk.
Qed.

(** * A concrete run *)

(** Follow a run, with the requests admitted and appended. *)
Definition follow {S} `{CommitWriter S} (x : Coordinator S * list CommitRequest * list CommitRequest)
    (e : CommitEvent) : Coordinator S * list CommitRequest * list CommitRequest :=
  let '(c, adm, done) := x in
  match e with
  | Produce payload durability =>
      let (r, c') := try_submit payload durability c in (c', adm ++ admitted_by r c', done)
  | Shutdown => (request_shutdown c, adm, done)
  | Work now =>
      match worker_step now c with
      | Some c' => (c', adm, done ++ appended_by (co_pc c) (co_pc c'))
      | None => x
      end
  end.
Lemma follow_run {S} {HW : CommitWriter S} {HL : CommitWriterLaws S} config first events :
  forall (c : Coordinator S) adm done, commit_run config first c adm done ->
  let '(c', adm', done') := fold_left follow events (c, adm, done) in commit_run config first c' adm' done'.
Proof.
  induction events as [|e events IH]; intros c adm app Hrun; [exact Hrun|]. cbn [fold_left follow].
  destruct e as [payload durability| |now].
  - destruct (try_submit payload durability c) as [r c'] eqn:E. apply IH. by eapply run_submit.
  - apply IH. by apply run_shutdown.
  - destruct (worker_step now c) as [c'|] eqn:E; apply IH; [by eapply run_worker|done].
Qed.

Definition sample_commit_config : WalCommitCoordinatorConfig :=
  {| maximum_pending_requests := 3; maximum_pending_encoded_bytes := 4096;
     maximum_sync_batch_requests := 2; maximum_sync_batch_encoded_bytes := 4096;
     maximum_sync_batch_delay := 1000 |}.
(** A synchronised and an asynchronous request are appended, and a third one waits. *)
Definition sample_events : list CommitEvent :=
  [Produce sample_payload kLocalSync; Produce sample_payload kAsync]
  ++ replicate 10 (Work 0) ++ [Produce sample_payload kLocalSync].
Definition sample_run_check (events : list CommitEvent)
    (check : Coordinator (Memory * option Impl) -> list CommitRequest -> list CommitRequest -> bool) : bool :=
  on_new_log (fun i w =>
    match start sample_commit_config (w, Some i) with
    | Ok c => let '(c, adm, done) := fold_left follow events (c, [], []) in check c adm done
    | Err _ => false
    end).
Lemma sample_run_inv events check : sample_run_check events check = true ->
  exists c adm done, commit_run sample_commit_config [] c adm done /\ check c adm done = true.
Proof.
  intros (i & w & Hc & H)%on_new_log_inv. destruct (start _ _) as [c|] eqn:Es; [|done].
  assert (Hrun : commit_run sample_commit_config [] c [] []).
  { eapply run_start; [|exact Es]. destruct (@create_new_ok Memory Memory_PosixIo Memory_laws _ _ _ _ _
      empty_disk_ok sample_id_generated Hc) as (id & [= <-] & Hok & Hf). split; [exact Hf|].
    exists [], (empty_segment sample_wal_id 1 1). by split. }
  pose proof (follow_run _ _ events _ _ _ Hrun) as Hrun'. destruct (fold_left _ _ _) as [[c' adm] app].
  exists c', adm, app. split; [exact Hrun'|exact H].
Qed.
Lemma sample_commit_typed : commit_config_typed sample_commit_config.
Proof. split_and!; done. Qed.

Lemma commit_books_witness : exists (c : Coordinator (Memory * option Impl)) (adm : list CommitRequest),
  blen adm = 3 /\ pending_requests (metrics (co_shared c)) = 1 /\
  length (in_flight (hand (co_pc c)) (co_shared c)) = 1%nat.
Proof.
  destruct (sample_run_inv sample_events (fun c adm _ => (blen adm =? 3)
    && (pending_requests (metrics (co_shared c)) =? 1))) as (c & adm & app & Hrun & H); [vm_compute; reflexivity|].
  apply andb_true_iff in H as [Ha%Z.eqb_eq Hp%Z.eqb_eq]. exists c, adm. split; [exact Ha|]. split; [exact Hp|].
  destruct (commit_books sample_commit_config [] c adm app sample_commit_typed Hrun) as (E & _). lia.
Defined.

Lemma commit_results_witness : exists (c : Coordinator (Memory * option Impl)) adm app out,
  wait_completion c 1 = Some (Ok out) /\ acknowledges [] adm app 1 out.
Proof.
  destruct (sample_run_inv sample_events (fun c _ _ =>
    match wait_completion c 1 with Some (Ok _) => true | _ => false end)) as (c & adm & app & Hrun & H);
    [vm_compute; reflexivity|].
  destruct (wait_completion c 1) as [[out|]|] eqn:E; try discriminate H. exists c, adm, app, out. split; [exact E|].
  apply (commit_results sample_commit_config [] c adm app sample_commit_typed Hrun). exact E.
Defined.

Lemma shutdown_drains_witness : exists (c : Coordinator (Memory * option Impl)) (adm : list CommitRequest),
  blen adm = 3 /\ is_Some (wait_completion c 3) /\ pending_requests (metrics (co_shared c)) = 0.
Proof.
  destruct (sample_run_inv (sample_events ++ [Shutdown]) (fun c adm _ => (blen adm =? 3)
    && shutdown_requested (co_shared c) && Nat.leb (remaining c) 19)) as (c & adm & app & Hrun & H); [vm_compute; reflexivity|].
  apply andb_true_iff in H as [[Ha%Z.eqb_eq Hs]%andb_true_iff Hle%Nat.leb_le].
  destruct (shutdown_drains sample_commit_config [] c adm app (replicate 19 (Work 0)) sample_commit_typed Hrun Hs Hle)
    as (_ & _ & Hp & _ & Ht).
  exists (fold_left react (replicate 19 (Work 0)) c), adm. split; [exact Ha|]. split; [apply Ht; lia|exact Hp].
Defined.

(** The third record is appended and not synchronised, and a crash tears it. *)
Definition unsynced_events : list CommitEvent :=
  sample_events ++ [Work 0; Work 0; Work 0].
Definition active_of (c : Coordinator (Memory * option Impl)) : PosixFile :=
  from_option active_file 1%positive (co_writer c).2.
Lemma local_sync_survives_crash_witness : exists (c : Coordinator (Memory * option Impl)) n (replayed : list WalReplayRecord),
  replay_payload <$> replayed = take n [sample_payload; sample_payload; sample_payload] /\ (1 <= n)%nat.
Proof.
  destruct (sample_run_inv unsynced_events (fun c adm app =>
    intact c && (64 + session_bytes ([] ++ (rq_payload <$> app)) <? max_u64)
    && bool_decide ((rq_payload <$> app) = [sample_payload; sample_payload; sample_payload])
    && match wait_completion c 1 with
       | Some (Ok out) => (cr_effective_durability out =? kLocalSync) && (1 <=? append_record_sequence (cr_append out))
       | _ => false
       end
    && match d_synced (mem_disk (co_writer c).1) !! active_of c with
       | Some synced => blen synced <=? 100
       | None => true
       end)) as (c & adm & app & Hrun & H); [vm_compute; reflexivity|].
  apply andb_true_iff in H as [H Hsync]. apply andb_true_iff in H as [H Hack].
  apply andb_true_iff in H as [H Hps]. apply andb_true_iff in H as [Hi Hcount].
  apply Z.ltb_lt in Hcount. apply bool_decide_eq_true in Hps.
  destruct (@local_sync_survives_crash Memory Memory_PosixIo Memory_laws sample_commit_config [] c adm app sample_config
    (on_memory (truncate_disk (active_of c) 100 (mem_disk (co_writer c).1))) sample_commit_typed Hrun Hi Hcount)
    as (n & i' & w' & replayed & _ & Hrep & _ & Hacks).
  - apply crash_cut; [lia|]. intros synced E. rewrite E in Hsync. apply Z.leb_le. exact Hsync.
  - reflexivity.
  - reflexivity.
  - reflexivity.
  - destruct (wait_completion c 1) as [[out|]|] eqn:E; try discriminate Hack.
    apply andb_true_iff in Hack as [Hd%Z.eqb_eq Hs%Z.leb_le]. destruct (Hacks 1 out E Hd) as (r & _ & Hle & _).
    exists c, n, replayed. rewrite Hrep, Hps. split; [reflexivity|lia].
Defined.
