(* ===== verification/RaftTypes.v ===== *)
(** The data of the Raft core: include/chronos/raft/types.hpp, the checked
    arithmetic of include/chronos/common/checked_math.hpp and the persistent
    state budget of include/chronos/raft/persistent_state_budget.hpp. *)
From S2P Require Import Prelude Bytes.

(** * types.hpp *)

Abbreviation NodeId := Z (only parsing).
Abbreviation Term := Z (only parsing).
Abbreviation LogIndex := Z (only parsing).

(** A [common::Uuid] is its sixteen bytes; [Uuid::is_nil]. *)
Abbreviation GroupId := (list byte) (only parsing).
Definition is_nil (id : list byte) : bool := forallb (fun value => bool_decide (value = x00)) id.

Inductive Role := kFollower | kCandidate | kLeader.
#[global] Instance Role_eq_dec : EqDecision Role.
Proof. solve_decision. Defined.

Record LogEntry := {
  entry_index : LogIndex; entry_term : Term; entry_type : Z; entry_payload : list byte }.
#[global] Instance LogEntry_eq_dec : EqDecision LogEntry.
Proof. solve_decision. Defined.

Record SnapshotMetadata := {
  last_included_index : LogIndex; last_included_term : Term; manifest_generation : Z;
  part_set_checksum : list byte; configuration_index : LogIndex; snapshot_voters : list NodeId }.
#[global] Instance SnapshotMetadata_eq_dec : EqDecision SnapshotMetadata.
Proof. solve_decision. Defined.

Record PersistentState := {
  current_term : Term; voted_for : option NodeId; log : list LogEntry;
  commit_index : LogIndex; applied_index : LogIndex; snapshot : SnapshotMetadata }.
#[global] Instance PersistentState_eq_dec : EqDecision PersistentState.
Proof. solve_decision. Defined.

Record RequestVoteRequest := {
  rv_term : Term; rv_candidate_id : NodeId; rv_last_log_index : LogIndex; rv_last_log_term : Term }.
Record RequestVoteResponse := { rvr_term : Term; rvr_granted : bool }.
Record AppendEntriesRequest := {
  ae_term : Term; ae_leader_id : NodeId; ae_previous_log_index : LogIndex;
  ae_previous_log_term : Term; ae_entries : list LogEntry; ae_leader_commit : LogIndex }.
Record AppendEntriesResponse := {
  aer_term : Term; aer_success : bool; aer_match_index : LogIndex;
  aer_conflict_term : option Term; aer_conflict_index : LogIndex }.
Record InstallSnapshotRequest := {
  is_term : Term; is_leader_id : NodeId; is_snapshot : SnapshotMetadata }.
Record InstallSnapshotResponse := {
  isr_term : Term; isr_success : bool; isr_last_included_index : LogIndex }.
Record ReadBarrierRequest := { rb_term : Term; rb_leader_id : NodeId; rb_context : Z }.
Record ReadBarrierResponse := { rbr_term : Term; rbr_context : Z; rbr_accepted : bool }.

#[global] Instance InstallSnapshotRequest_eq_dec : EqDecision InstallSnapshotRequest.
Proof. solve_decision. Defined.

Inductive Message :=
| MRequestVote (m : RequestVoteRequest)
| MRequestVoteResponse (m : RequestVoteResponse)
| MAppendEntries (m : AppendEntriesRequest)
| MAppendEntriesResponse (m : AppendEntriesResponse)
| MInstallSnapshot (m : InstallSnapshotRequest)
| MInstallSnapshotResponse (m : InstallSnapshotResponse)
| MReadBarrier (m : ReadBarrierRequest)
| MReadBarrierResponse (m : ReadBarrierResponse).

(** [std::visit] of the member every message has. *)
Definition message_term (m : Message) : Term :=
  match m with
  | MRequestVote m => rv_term m | MRequestVoteResponse m => rvr_term m
  | MAppendEntries m => ae_term m | MAppendEntriesResponse m => aer_term m
  | MInstallSnapshot m => is_term m | MInstallSnapshotResponse m => isr_term m
  | MReadBarrier m => rb_term m | MReadBarrierResponse m => rbr_term m
  end.

Record OutboundMessage := { destination : NodeId; message : Message }.
Record PendingSnapshotInstall := { install_source : NodeId; install_snapshot : SnapshotMetadata }.
Record ReadBarrier := { barrier_term : Term; barrier_context : Z; barrier_read_index : LogIndex }.

Record Transition := {
  persistent_state : option PersistentState;
  outbound : list OutboundMessage;
  advanced_commit_index : option LogIndex;
  snapshot_install : option PendingSnapshotInstall;
  read_barrier_ready : option ReadBarrier }.

(** [Transition{}]. *)
Definition empty_transition : Transition :=
  {| persistent_state := None; outbound := []; advanced_commit_index := None;
     snapshot_install := None; read_barrier_ready := None |}.

(** Members hold values of their types; sizes fit the 32-bit counts of the
    formats. *)
Definition entry_typed (e : LogEntry) : Prop :=
  in_width 64 (entry_index e) /\ in_width 64 (entry_term e) /\ in_width 8 (entry_type e) /\
  in_width 32 (blen (entry_payload e)).

Definition snapshot_typed (s : SnapshotMetadata) : Prop :=
  in_width 64 (last_included_index s) /\ in_width 64 (last_included_term s) /\
  in_width 64 (manifest_generation s) /\ blen (part_set_checksum s) = 32 /\
  in_width 64 (configuration_index s) /\ Forall (in_width 64) (snapshot_voters s) /\
  in_width 32 (blen (snapshot_voters s)).

(** * checked_math.hpp, at [std::size_t] *)

Definition checked_add (left right : Z) : option Z :=
  if right >? max_u64 - left then None else Some (u64 (left + right)).
Definition checked_multiply (left right : Z) : option Z :=
  if negb (left =? 0) && (right >? max_u64 / left) then None else Some (u64 (left * right)).

Lemma checked_add_spec a b :
  in_width 64 a -> in_width 64 b ->
  checked_add a b = if a + b <? 2 ^ 64 then Some (a + b) else None.
Proof.
  intros Ha Hb. unfold checked_add. destruct (Z.gtb_spec b (max_u64 - a));
    destruct (Z.ltb_spec (a + b) (2 ^ 64)); try width_lia; [done|].
  rewrite wrap_small by width_lia. done.
Qed.

(** * persistent_state_budget.hpp *)

Definition kRaftPersistentStateFixedSizeV1 : Z := 112.
Definition kRaftPersistentLogEntryFixedSizeV1 : Z := 32.
Definition kMaximumRaftPersistentStatePayloadSize : Z := 16 * 1024 * 1024 - 64 - 4.

Fixpoint payload_size_loop (size : Z) (log : list LogEntry) : result Z :=
  match log with
  | [] => Ok size
  | entry :: log =>
      match checked_add size kRaftPersistentLogEntryFixedSizeV1 with
      | None => Err kOutOfRange
      | Some size =>
          match checked_add size (blen (entry_payload entry)) with
          | None => Err kOutOfRange
          | Some size => payload_size_loop size log
          end
      end
  end.
Definition raft_persistent_state_payload_size (snapshot_voter_count : Z) (log : list LogEntry)
  : result Z :=
  match checked_multiply snapshot_voter_count 8 with
  | None => Err kOutOfRange
  | Some voter_bytes =>
      match checked_add kRaftPersistentStateFixedSizeV1 voter_bytes with
      | None => Err kOutOfRange
      | Some size => payload_size_loop size log
      end
  end.

(** The size the budget is about, without machine arithmetic. *)
Fixpoint log_bytes (log : list LogEntry) : Z :=
  match log with [] => 0 | e :: log => 32 + blen (entry_payload e) + log_bytes log end.

Lemma log_bytes_nonneg l : 0 <= log_bytes l.
Proof. induction l; simpl; lia. Qed.
Lemma log_bytes_app a b : log_bytes (a ++ b) = log_bytes a + log_bytes b.
Proof. induction a; simpl; lia. Qed.
Lemma log_bytes_drop n l : log_bytes (drop n l) <= log_bytes l.
Proof.
  rewrite <- (take_drop n l) at 2. rewrite log_bytes_app.
  pose proof (log_bytes_nonneg (take n l)). lia.
Qed.

(** The machine computation returns the exact size, or fails when it overflows. *)
Lemma payload_size_loop_exact l : forall size,
  0 <= size -> size + log_bytes l < 2 ^ 64 ->
  payload_size_loop size l = Ok (size + log_bytes l).
Proof.
  induction l as [|e l IH]; intros size Hs Hl; cbn [payload_size_loop log_bytes] in *.
  - by rewrite Z.add_0_r.
  - pose proof (log_bytes_nonneg l). unfold kRaftPersistentLogEntryFixedSizeV1.
    rewrite checked_add_spec by width_lia.
    destruct (Z.ltb_spec (size + 32) (2 ^ 64)); [|lia].
    rewrite checked_add_spec by width_lia.
    destruct (Z.ltb_spec (size + 32 + blen (entry_payload e)) (2 ^ 64)); [|lia].
    rewrite IH by lia. f_equal. lia.
Qed.

Lemma payload_size_loop_Ok l : forall size n,
  0 <= size -> payload_size_loop size l = Ok n -> n = size + log_bytes l.
Proof.
  induction l as [|e l IH]; intros size n Hs H; cbn [payload_size_loop log_bytes] in *.
  - injection H as <-. lia.
  - unfold checked_add, kRaftPersistentLogEntryFixedSizeV1 in H.
    destruct (Z.gtb_spec 32 (max_u64 - size)); [done|].
    rewrite (wrap_small 64 (size + 32)) in H by width_lia.
    destruct (Z.gtb_spec (blen (entry_payload e)) (max_u64 - (size + 32))); [done|].
    rewrite (wrap_small 64) in H by width_lia. apply IH in H; lia.
Qed.
