(* ===== verification/RaftMembership.v ===== *)
(** Membership Command v1: include/chronos/raft/membership.hpp and
    src/raft/membership.cpp.  Voter sets are canonical vectors (sorted, unique,
    nonzero, bounded); joint and final commands are encoded into checksummed
    frames.  The decoder is proved to accept exactly the canonical frames. *)
From S2P Require Import Prelude Bytes Crc32c RaftTypes.
From stdpp Require Import sorting.
#[local] Open Scope Z_scope.

(** * membership.hpp *)

Definition kLeaderNoopEntryType : Z := 253.
Definition kJointMembershipEntryType : Z := 254.
Definition kFinalMembershipEntryType : Z := 255.
Definition kMembershipCommandHeaderSize : Z := 32.
Definition kMembershipCommandTrailerSize : Z := 4.
Definition kMaximumMembershipVoters : Z := 65535.

Record JointMembershipCommand := { jm_old_voters : list NodeId; jm_new_voters : list NodeId }.
Record FinalMembershipCommand := { fm_joint_index : LogIndex; fm_new_voters : list NodeId }.
Inductive MembershipCommand :=
| Joint (c : JointMembershipCommand)
| Final (c : FinalMembershipCommand).

Definition is_membership_entry_type (type : Z) : bool :=
  (type =? kJointMembershipEntryType) || (type =? kFinalMembershipEntryType).
Definition is_internal_raft_entry_type (type : Z) : bool :=
  (type =? kLeaderNoopEntryType) || is_membership_entry_type type.

(** * Standard algorithms on voter vectors *)

(** [std::ranges::sort], [std::ranges::is_sorted] and [std::adjacent_find]. *)
Definition sort_voters (voters : list NodeId) : list NodeId := merge_sort Z.le voters.
Fixpoint is_sorted (voters : list NodeId) : bool :=
  match voters with
  | a :: (b :: _) as tl => (a <=? b) && is_sorted tl
  | _ => true
  end.
Fixpoint has_adjacent_equal (voters : list NodeId) : bool :=
  match voters with
  | a :: (b :: _) as tl => (a =? b) || has_adjacent_equal tl
  | _ => false
  end.
Definition front (voters : list NodeId) : NodeId := default 0 (head voters).

(** [std::ranges::set_union] of two sorted vectors. *)
Fixpoint set_union (first : list NodeId) : list NodeId -> list NodeId :=
  match first with
  | [] => fun second => second
  | x :: xs =>
      fix merge (second : list NodeId) : list NodeId :=
        match second with
        | [] => x :: xs
        | y :: ys =>
            if x <? y then x :: set_union xs (y :: ys)
            else if y <? x then y :: merge ys
            else x :: set_union xs ys
        end
  end.

(** * membership.cpp *)

Definition kMagic : list byte := [x43; x48; x52; x4e; x4d; x42; x43; x00].
Definition kMajor : Z := 1.
Definition kMinor : Z := 0.
Definition kKindJoint : Z := 1.
Definition kKindFinal : Z := 2.

Definition canonical (voters : list NodeId) (maximum_voters : Z) : bool :=
  negb (blen voters =? 0) && (blen voters <=? maximum_voters) && negb (front voters =? 0)
  && is_sorted voters && negb (has_adjacent_equal voters).

(** [canonicalize]: the status and the sorted vector. *)
Definition canonicalize (voters : list NodeId) (maximum_voters : Z) : StatusCode * list NodeId :=
  let voters := sort_voters voters in
  (if canonical voters maximum_voters then kOk else kInvalidArgument, voters).

(** The merge loop of [union_fits]; [fuel] bounds the two cursors together. *)
Fixpoint union_fits_loop (fuel : nat) (old next : list NodeId) (count maximum_voters : Z) : bool :=
  match fuel with
  | O => true
  | S fuel =>
      match old, next with
      | [], [] => true
      | _, _ =>
          let '(old', next') :=
            match old, next with
            | o :: os, [] => (os, next)
            | o :: os, n :: ns =>
                if o <? n then (os, next) else if n <? o then (old, ns) else (os, ns)
            | [], n :: ns => (old, ns)
            | [], [] => (old, next)
            end in
          let count := count + 1 in
          if count >? maximum_voters then false
          else union_fits_loop fuel old' next' count maximum_voters
      end
  end.
Definition union_fits (old_voters new_voters : list NodeId) (maximum_voters : Z) : bool :=
  union_fits_loop (length old_voters + length new_voters) old_voters new_voters 0 maximum_voters.

(** The visitor of [encode_membership_command_v1]: kind, joint index, the sorted
    voters and the status. *)
Definition prepare_command (command : MembershipCommand) (maximum_voters : Z)
  : result (Z * LogIndex * option (list NodeId) * list NodeId) :=
  match command with
  | Joint c =>
      let '(status, old) := canonicalize (jm_old_voters c) maximum_voters in
      check! status;
      let '(status, new) := canonicalize (jm_new_voters c) maximum_voters in
      check! status;
      Ok (kKindJoint, 0, Some old, new)
  | Final c =>
      fail_if fm_joint_index c =? 0 with kInvalidArgument;
      let '(status, new) := canonicalize (fm_new_voters c) maximum_voters in
      check! status;
      Ok (kKindFinal, fm_joint_index c, None, new)
  end.

(** The calls that write the header, in the order of the initializer list. *)
Definition header_fields (kind joint_index old_count new_count total_size : Z) : list Field :=
  [FBytes kMagic; FU16 kMajor; FU16 kMinor; FU8 kind; FBytes (replicate 3 x00);
   FU32 (u32 total_size); FU64 joint_index; FU16 (u16 old_count); FU16 (u16 new_count)].

Definition encode_membership_command_v1 (command : MembershipCommand) (maximum_voters : Z)
  : result (list byte) :=
  fail_if (maximum_voters =? 0) || (maximum_voters >? kMaximumMembershipVoters)
    with kInvalidArgument;
  let? prepared := prepare_command command maximum_voters in
  let '(kind, joint_index, old_voters, new_voters) := prepared in
  fail_if match old_voters with
          | Some old => negb (union_fits old new_voters maximum_voters)
          | None => false
          end with kInvalidArgument;
  let old := default [] old_voters in
  let old_count := blen old in
  let new_count := blen new_voters in
  let total_size := kMembershipCommandHeaderSize + (old_count + new_count) * 8
                    + kMembershipCommandTrailerSize in
  let writer := ByteWriter_new (replicate (Z.to_nat total_size) x00) in
  let '(status, writer) :=
    write_fields (header_fields kind joint_index old_count new_count total_size) writer in
  check! status;
  let '(status, writer) := write_fields (FU64 <$> old) writer in
  check! status;
  let '(status, writer) := write_fields (FU64 <$> new_voters) writer in
  check! status;
  let checksum := crc32c (first (writer_bytes writer)
                            (total_size - kMembershipCommandTrailerSize)) in
  let '(status, writer) := write_u32_le checksum writer in
  fail_if negb (is_ok status) || negb (writer_full writer)
    with (if is_ok status then kCorruption else status);
  Ok (writer_bytes writer).

(** The loop that reads [count] voters. *)
Fixpoint read_voters (count : nat) (reader : ByteReader) : result (list NodeId) * ByteReader :=
  match count with
  | O => (Ok [], reader)
  | S count =>
      match read_u64_le reader with
      | (Err s, reader) => (make_unexpected s, reader)
      | (Ok voter, reader) =>
          match read_voters count reader with
          | (Err s, reader) => (make_unexpected s, reader)
          | (Ok voters, reader) => (Ok (voter :: voters), reader)
          end
      end
  end.

(** The checks and the tail of the decoder, after the header has been read. *)
Definition decode_membership_body (bytes : list byte) (maximum_voters : Z) (reader : ByteReader)
  (magic : list byte) (major minor kind : Z) (reserved : list byte)
  (total_size joint_index old_count new_count : Z) : result MembershipCommand :=
  fail_if negb (bool_decide (magic = kMagic)) || negb (major =? kMajor) with kNotSupported;
  fail_if negb (minor =? kMinor) with kNotSupported;
  fail_if existsb (fun value => bool_decide (value <> x00)) reserved
          || negb (total_size =? blen bytes) || (old_count >? maximum_voters)
          || (new_count =? 0) || (new_count >? maximum_voters)
          || negb (reader_remaining reader
                   =? (old_count + new_count) * 8 + kMembershipCommandTrailerSize)
    with kCorruption;
  let '(old_voters, reader) := read_voters (Z.to_nat old_count) reader in
  let? old_voters := old_voters in
  let '(new_voters, reader) := read_voters (Z.to_nat new_count) reader in
  let? new_voters := new_voters in
  fail_if negb (canonical new_voters maximum_voters)
          || (if kind =? kKindJoint
              then negb (joint_index =? 0) || negb (canonical old_voters maximum_voters)
                   || negb (union_fits old_voters new_voters maximum_voters)
              else negb (kind =? kKindFinal) || (joint_index =? 0)
                   || negb (blen old_voters =? 0)) with kCorruption;
  let '(trailer, reader) := read_u32_le reader in
  fail_if (match trailer with Ok _ => false | Err _ => true end) || negb (reader_empty reader)
    with kCorruption;
  if kind =? kKindJoint
  then Ok (Joint {| jm_old_voters := old_voters; jm_new_voters := new_voters |})
  else Ok (Final {| fm_joint_index := joint_index; fm_new_voters := new_voters |}).

Definition decode_membership_command_v1 (bytes : list byte) (maximum_voters : Z)
  : result MembershipCommand :=
  fail_if (maximum_voters =? 0) || (maximum_voters >? kMaximumMembershipVoters)
    with kInvalidArgument;
  fail_if blen bytes <? kMembershipCommandHeaderSize + kMembershipCommandTrailerSize
    with kCorruption;
  fail_if negb (crc32c (first bytes (blen bytes - kMembershipCommandTrailerSize))
                =? load_u32_le bytes (blen bytes - kMembershipCommandTrailerSize))
    with kCorruption;
  let reader := ByteReader_new bytes in
  let '(magic, reader) := read_exact (blen kMagic) reader in
  let '(major, reader) := read_u16_le reader in
  let '(minor, reader) := read_u16_le reader in
  let '(kind, reader) := read_u8 reader in
  let '(reserved, reader) := read_exact 3 reader in
  let '(total_size, reader) := read_u32_le reader in
  let '(joint_index, reader) := read_u64_le reader in
  let '(old_count, reader) := read_u16_le reader in
  let '(new_count, reader) := read_u16_le reader in
  match magic, major, minor, kind, reserved, total_size, joint_index, old_count, new_count with
  | Ok magic, Ok major, Ok minor, Ok kind, Ok reserved, Ok total_size, Ok joint_index,
    Ok old_count, Ok new_count =>
      decode_membership_body bytes maximum_voters reader magic major minor kind reserved
        total_size joint_index old_count new_count
  | _, _, _, _, _, _, _, _, _ => Err kCorruption
  end.

Example decode_encode_sample :
  (let? bs := encode_membership_command_v1
                (Joint {| jm_old_voters := [3; 1; 2]; jm_new_voters := [2; 5] |}) 31 in
   decode_membership_command_v1 bs 31)
  = Ok (Joint {| jm_old_voters := [1; 2; 3]; jm_new_voters := [2; 5] |}).
Proof. vm_compute. reflexivity. Qed.

(** * Voter sets *)

(** What a canonical vector is: nonempty, bounded, strictly increasing, nonzero. *)
Definition voters_ok (voters : list NodeId) (maximum_voters : Z) : Prop :=
  voters <> [] /\ blen voters <= maximum_voters /\ StronglySorted Z.lt voters /\
  front voters <> 0.

Lemma sorted_unique_spec voters :
  is_sorted voters && negb (has_adjacent_equal voters) = true <-> StronglySorted Z.lt voters.
Proof.
  transitivity (Sorted Z.lt voters);
    [|split; [apply Sorted_StronglySorted; intros ???; lia | apply StronglySorted_Sorted]].
  induction voters as [|a [|b tl] IH]; [split; auto..|].
  cbn [is_sorted has_adjacent_equal] in *.
  rewrite andb_true_iff, negb_true_iff in *.
  rewrite andb_true_iff, orb_false_iff, Z.leb_le, Z.eqb_neq. split.
  - intros [[Hab Hs] [Hne Ha]]. constructor; [by apply IH|]. constructor. lia.
  - intros H. apply Sorted_inv in H as [H1 H2]. apply HdRel_inv in H2.
    apply IH in H1 as [-> ->]. split_and!; try done; lia.
Qed.

Lemma canonical_spec voters maximum :
  canonical voters maximum = true <-> voters_ok voters maximum.
Proof.
  unfold canonical, voters_ok. rewrite <- andb_assoc, !andb_true_iff.
  rewrite <- sorted_unique_spec, andb_true_iff, !negb_true_iff, !Z.eqb_neq, Z.leb_le.
  assert (blen voters <> 0 <-> voters <> []) as -> by (destruct voters; cbn; split; try done; lia).
  tauto.
Qed.

Lemma voters_ok_strict voters maximum : voters_ok voters maximum -> StronglySorted Z.lt voters.
Proof. intros (_ & _ & H & _). exact H. Qed.

Lemma strict_NoDup (voters : list Z) : StronglySorted Z.lt voters -> NoDup voters.
Proof.
  induction 1 as [|a l Hs IH Hf]; constructor; [|done].
  intros Hin. rewrite Forall_forall in Hf. specialize (Hf _ Hin). lia.
Qed.

Lemma sort_voters_sorted voters : StronglySorted Z.lt voters -> sort_voters voters = voters.
Proof.
  intros H. unfold sort_voters. apply (StronglySorted_unique Z.le).
  - apply Sorted_StronglySorted; [intros ???; lia|]. apply Sorted_merge_sort. intros ??; lia.
  - clear -H. induction H as [|a l Hs IH Hf]; constructor; [done|].
    eapply Forall_impl; [exact Hf|]. cbn. lia.
  - apply merge_sort_Permutation.
Qed.

Lemma sort_voters_ok vs maximum :
  blen vs <> 0 -> blen vs <= maximum -> front (sort_voters vs) <> 0 ->
  has_adjacent_equal (sort_voters vs) = false -> voters_ok (sort_voters vs) maximum.
Proof.
  intros Hn Hm Hf Ha. unfold sort_voters in *.
  pose proof (merge_sort_Permutation Z.le vs) as Hperm.
  pose proof (Permutation_length Hperm) as Hlen.
  apply canonical_spec. unfold canonical. rewrite Ha, Hlen.
  rewrite (proj2 (Z.eqb_neq _ _)) by done. rewrite (proj2 (Z.leb_le _ _)) by done.
  rewrite (proj2 (Z.eqb_neq _ _)) by done. cbn [negb andb]. rewrite andb_true_r.
  assert (Hs : Sorted Z.le (merge_sort Z.le vs)) by (apply Sorted_merge_sort; intros ??; lia).
  clear -Hs. induction Hs as [|a l Hs IH Hd]; [done|]. destruct l as [|b l]; [done|].
  cbn [is_sorted] in *. apply HdRel_inv in Hd. by rewrite (proj2 (Z.leb_le _ _)) by done.
Qed.

(** ** [set_union] *)

Lemma set_union_nil_r a : set_union a [] = a.
Proof. by destruct a. Qed.

Lemma set_union_cons x xs y ys :
  set_union (x :: xs) (y :: ys) =
    if x <? y then x :: set_union xs (y :: ys)
    else if y <? x then y :: set_union (x :: xs) ys
    else x :: set_union xs ys.
Proof. reflexivity. Qed.

Lemma elem_of_set_union z a : forall b, z ∈ set_union a b <-> z ∈ a \/ z ∈ b.
Proof.
  induction a as [|x xs IHa]; intros b; [cbn; rewrite elem_of_nil; tauto|].
  induction b as [|y ys IHb]; [rewrite set_union_nil_r, elem_of_nil; tauto|].
  rewrite set_union_cons. destruct (Z.ltb_spec x y); [rewrite !elem_of_cons, IHa, elem_of_cons; tauto|].
  destruct (Z.ltb_spec y x); [rewrite elem_of_cons, IHb, !elem_of_cons; tauto|].
  replace y with x by lia. rewrite !elem_of_cons, IHa. tauto.
Qed.

Lemma set_union_strict a : forall b,
  StronglySorted Z.lt a -> StronglySorted Z.lt b -> StronglySorted Z.lt (set_union a b).
Proof.
  induction a as [|x xs IHa]; intros b Ha Hb; [done|].
  induction b as [|y ys IHb]; [by rewrite set_union_nil_r|].
  apply StronglySorted_inv in Ha as [Ha Hx]. pose proof Hb as Hb'.
  apply StronglySorted_inv in Hb as [Hb Hy]. rewrite Forall_forall in Hx, Hy.
  rewrite set_union_cons. destruct (Z.ltb_spec x y).
  - constructor; [by apply IHa|]. rewrite Forall_forall. intros z Hz.
    apply elem_of_set_union in Hz as [Hz|[->|Hz]%elem_of_cons]; [by apply Hx|done|].
    specialize (Hy _ Hz). lia.
  - destruct (Z.ltb_spec y x).
    + constructor; [by apply IHb|]. rewrite Forall_forall. intros z Hz.
      apply elem_of_set_union in Hz as [[->|Hz]%elem_of_cons|Hz]; [done| |by apply Hy].
      specialize (Hx _ Hz). lia.
    + constructor; [by apply IHa|]. rewrite Forall_forall. intros z Hz.
      apply elem_of_set_union in Hz as [Hz|Hz]; [by apply Hx|].
      specialize (Hy _ Hz). lia.
Qed.

Lemma length_set_union a b :
  StronglySorted Z.lt a -> StronglySorted Z.lt b ->
  length (set_union a b) = size (list_to_set a ∪ list_to_set b : gset Z).
Proof.
  intros Ha Hb. rewrite <- (size_list_to_set (C := gset Z) (set_union a b))
    by (by apply strict_NoDup, set_union_strict).
  f_equal. apply set_eq. intros z. rewrite elem_of_union, !elem_of_list_to_set.
  apply elem_of_set_union.
Qed.

(** The counting loop walks the same merge as [set_union]. *)
Lemma union_fits_loop_spec maximum fuel : forall a b count,
  (length a + length b <= fuel)%nat -> count <= maximum ->
  union_fits_loop fuel a b count maximum = (count + blen (set_union a b) <=? maximum).
Proof.
  induction fuel as [|fuel IH]; intros a b count Hf Hc.
  - destruct a; [|cbn in Hf; lia]. destruct b; [|cbn in Hf; lia]. cbn. symmetry. apply Z.leb_le. lia.
  - assert (Hstep : forall a' b' z l, (length a' + length b' <= fuel)%nat ->
      set_union a' b' = l ->
      (if count + 1 >? maximum then false else union_fits_loop fuel a' b' (count + 1) maximum)
      = (count + blen (z :: l) <=? maximum)).
    { intros a' b' z l Hl <-. cbn [length]. destruct (Z.gtb_spec (count + 1) maximum).
      - symmetry. apply Z.leb_gt. lia.
      - rewrite IH by lia. f_equal. lia. }
    destruct a as [|x xs], b as [|y ys]; cbn [union_fits_loop]; cbn [length] in Hf.
    + cbn. symmetry. apply Z.leb_le. lia.
    + apply Hstep; [cbn; lia|done].
    + rewrite set_union_nil_r. apply Hstep; [cbn; lia|apply set_union_nil_r].
    + rewrite set_union_cons. destruct (x <? y); [by apply Hstep; [cbn; lia|]|].
      destruct (y <? x); by apply Hstep; [cbn; lia|].
Qed.

Lemma union_fits_length a b maximum :
  0 <= maximum -> union_fits a b maximum = (blen (set_union a b) <=? maximum).
Proof. intros. unfold union_fits. rewrite union_fits_loop_spec by lia. done. Qed.

(** The joint-configuration bound: on canonical voter vectors the counting
    loop of [union_fits] answers whether the union of the two voter sets has at
    most [maximum_voters] members. *)
Theorem union_fits_is_union_size (old_voters new_voters : list NodeId) (maximum_voters : Z)
  (Hold : voters_ok old_voters maximum_voters) (Hnew : voters_ok new_voters maximum_voters) :
  union_fits old_voters new_voters maximum_voters = true <->
  Z.of_nat (size (list_to_set old_voters ∪ list_to_set new_voters : gset Z)) <= maximum_voters.
Proof.
  pose proof (voters_ok_strict _ _ Hold) as Ho. pose proof (voters_ok_strict _ _ Hnew) as Hn.
  destruct Hold as (_ & Hm & _). rewrite union_fits_length by lia.
  by rewrite length_set_union, Z.leb_le.
Qed.

Lemma union_fits_is_union_size_witness : union_fits [1; 2; 3] [2; 5] 4 = true.
Proof.
  apply (union_fits_is_union_size [1; 2; 3] [2; 5] 4).
  - apply canonical_spec. vm_compute. reflexivity.
  - apply canonical_spec. vm_compute. reflexivity.
  - vm_compute. discriminate.
Defined.

(** * The command codec *)

Definition command_kind (c : MembershipCommand) : Z :=
  match c with Joint _ => kKindJoint | Final _ => kKindFinal end.
Definition command_joint_index (c : MembershipCommand) : LogIndex :=
  match c with Joint _ => 0 | Final c => fm_joint_index c end.
Definition command_old (c : MembershipCommand) : list NodeId :=
  match c with Joint c => jm_old_voters c | Final _ => [] end.
Definition command_new (c : MembershipCommand) : list NodeId :=
  match c with Joint c => jm_new_voters c | Final c => fm_new_voters c end.
Definition command_size (c : MembershipCommand) : Z :=
  36 + 8 * (blen (command_old c) + blen (command_new c)).

(** A command the codec carries. *)
Definition command_ok (c : MembershipCommand) (maximum_voters : Z) : Prop :=
  0 < maximum_voters <= kMaximumMembershipVoters /\
  voters_ok (command_new c) maximum_voters /\ Forall (in_width 64) (command_new c) /\
  Forall (in_width 64) (command_old c) /\
  match c with
  | Joint c => voters_ok (jm_old_voters c) maximum_voters /\
               union_fits (jm_old_voters c) (jm_new_voters c) maximum_voters = true
  | Final c => in_width 64 (fm_joint_index c) /\ fm_joint_index c <> 0
  end.

(** The canonical frame. *)
Definition voter_bytes (voters : list NodeId) : list byte := concat (le_bytes 8 <$> voters).
Definition command_body (c : MembershipCommand) : list byte :=
  kMagic ++ le_bytes 2 kMajor ++ le_bytes 2 kMinor ++ le_bytes 1 (command_kind c)
  ++ replicate 3 x00 ++ le_bytes 4 (command_size c) ++ le_bytes 8 (command_joint_index c)
  ++ le_bytes 2 (blen (command_old c)) ++ le_bytes 2 (blen (command_new c))
  ++ voter_bytes (command_old c) ++ voter_bytes (command_new c).
Definition command_bytes (c : MembershipCommand) : list byte := with_crc (command_body c).

Lemma length_voter_bytes voters : length (voter_bytes voters) = (8 * length voters)%nat.
Proof.
  induction voters as [|v voters IH]; [done|]. unfold voter_bytes in *.
  cbn [fmap list_fmap concat]. rewrite length_app, length_le_bytes, IH. cbn [length]. lia.
Qed.

Lemma voter_fields_bytes voters : fields_bytes (FU64 <$> voters) = voter_bytes voters.
Proof.
  induction voters as [|v voters IH]; [done|].
  rewrite fmap_cons, fields_bytes_cons, IH. done.
Qed.

Lemma length_command_body c : blen (command_body c) = command_size c - 4.
Proof.
  unfold command_body, command_size. rewrite !length_app, !length_le_bytes, !length_voter_bytes,
    length_replicate. cbn [length kMagic]. lia.
Qed.

Lemma command_counts c maximum :
  command_ok c maximum ->
  0 <= blen (command_old c) <= 65535 /\ 1 <= blen (command_new c) <= 65535.
Proof.
  intros (Hm & (Hne & Hn & _) & _ & _ & Hc). unfold kMaximumMembershipVoters in *.
  split.
  - destruct c; cbn in *; [|lia]. destruct Hc as [(_ & ? & _) _]. lia.
  - destruct (command_new c); cbn [length] in *; [done|lia].
Qed.

Lemma header_fields_bytes c maximum :
  command_ok c maximum ->
  fields_bytes (header_fields (command_kind c) (command_joint_index c) (blen (command_old c))
                  (blen (command_new c)) (command_size c)) ++ voter_bytes (command_old c)
  ++ voter_bytes (command_new c) = command_body c.
Proof.
  intros Hc. pose proof (command_counts _ _ Hc) as [Ho Hn].
  unfold header_fields, command_body, fields_bytes. cbn [fmap list_fmap concat field_bytes].
  rewrite (wrap_small 32) by (unfold command_size; width_lia).
  rewrite !(wrap_small 16) by width_lia.
  rewrite <- !app_assoc. done.
Qed.

Lemma prepare_command_ok c maximum :
  command_ok c maximum ->
  prepare_command c maximum =
    Ok (command_kind c, command_joint_index c,
        match c with Joint j => Some (jm_old_voters j) | Final _ => None end, command_new c).
Proof.
  intros (Hm & Hnew & _ & _ & Hc). destruct c as [[old new]|[ji new]]; cbn in Hnew, Hc |- *.
  - destruct Hc as [Hold _]. unfold canonicalize.
    rewrite !sort_voters_sorted by (by eapply voters_ok_strict).
    by rewrite !(proj2 (canonical_spec _ _)) by done.
  - destruct Hc as [_ Hj]. rewrite (proj2 (Z.eqb_neq _ _) Hj). unfold canonicalize.
    rewrite !sort_voters_sorted by (by eapply voters_ok_strict).
    by rewrite !(proj2 (canonical_spec _ _)) by done.
Qed.

(** Writing fields at the cursor of a writer whose buffer is cut there. *)
Lemma write_fields_at fs done_ rest w :
  writer_bytes w = done_ ++ rest -> writer_offset w = blen done_ ->
  blen (fields_bytes fs) <= blen rest ->
  write_fields fs w =
    (kOk, {| writer_bytes := done_ ++ fields_bytes fs ++ drop (length (fields_bytes fs)) rest;
             writer_offset := blen (done_ ++ fields_bytes fs) |}).
Proof.
  intros Hb Ho Hl. rewrite write_fields_fit.
  - unfold writer_put, copy_at. rewrite Hb, Ho, Nat2Z.id, take_app_length, drop_app_add.
    do 2 f_equal. rewrite length_app. lia.
  - unfold writer_ok. rewrite Hb, Ho, length_app. lia.
  - unfold writer_remaining. rewrite Hb, Ho, length_app. lia.
Qed.

Lemma encode_command_ok c maximum :
  command_ok c maximum -> encode_membership_command_v1 c maximum = Ok (command_bytes c).
Proof.
  intros Hc. pose proof (command_counts _ _ Hc) as [Ho Hn].
  pose proof (header_fields_bytes _ _ Hc) as Hbody. pose proof (length_command_body c) as Hlen.
  unfold encode_membership_command_v1. rewrite prepare_command_ok by done.
  destruct Hc as (Hm & _ & _ & _ & Hu).
  destruct (Z.eqb_spec maximum 0); [lia|].
  destruct (Z.gtb_spec maximum kMaximumMembershipVoters); [lia|]. cbn [orb rbind].
  replace (match match c with Joint j => Some (jm_old_voters j) | Final _ => None end with
           | Some old => negb (union_fits old (command_new c) maximum) | None => false end)
    with false by (destruct c; cbn in *; [destruct Hu as [_ ->]|]; done).
  replace (default [] (match c with Joint j => Some (jm_old_voters j) | Final _ => None end))
    with (command_old c) by (by destruct c).
  cbv zeta. unfold kMembershipCommandHeaderSize, kMembershipCommandTrailerSize.
  replace (32 + (blen (command_old c) + blen (command_new c)) * 8 + 4) with (command_size c)
    by (unfold command_size; lia).
  set (hf := header_fields _ _ _ _ _) in *.
  assert (Hsize : blen (fields_bytes hf) = 32).
  { apply (f_equal length) in Hbody. rewrite !length_app, !length_voter_bytes in Hbody.
    unfold command_size in *. lia. }
  assert (Hcs : 36 + 8 * (blen (command_old c) + blen (command_new c)) = command_size c) by done.
  rewrite (write_fields_at hf [] (replicate (Z.to_nat (command_size c)) x00))
    by (rewrite ?length_replicate; done || lia).
  cbv beta iota. rewrite check_kOk. cbn [app].
  rewrite (write_fields_at _ (fields_bytes hf) (drop (length (fields_bytes hf))
      (replicate (Z.to_nat (command_size c)) x00)))
    by (rewrite ?voter_fields_bytes, ?length_voter_bytes, ?length_drop, ?length_replicate; done || lia).
  cbv beta iota. rewrite check_kOk, drop_drop.
  erewrite (write_fields_at _ (fields_bytes hf ++ fields_bytes (FU64 <$> command_old c)));
    [| cbn [writer_bytes]; by rewrite app_assoc | done
     | rewrite !voter_fields_bytes, !length_voter_bytes, length_drop, length_replicate; lia].
  cbv beta iota. rewrite check_kOk. cbn [writer_bytes].
  rewrite !voter_fields_bytes, drop_drop, <- !app_assoc, Hbody, !drop_replicate.
  assert (Hb4 : fields_bytes hf ++ voter_bytes (command_old c) ++ voter_bytes (command_new c)
     ++ replicate (Z.to_nat (command_size c) - (length (fields_bytes hf) + length (voter_bytes (command_old c)) + length (voter_bytes (command_new c)))) x00
     = command_body c ++ replicate 4 x00).
  { rewrite !length_voter_bytes. replace (Z.to_nat _ - _)%nat with 4%nat by lia.
    by rewrite !app_assoc, <- (app_assoc (fields_bytes hf)), Hbody. }
  rewrite Hb4. rewrite (first_app (command_body c)) by lia.
  unfold write_u32_le. rewrite write_unsigned_le_spec;
    [| unfold writer_ok; cbn [writer_bytes writer_offset]; rewrite length_app, length_replicate; lia].
  unfold writer_remaining, writer_put. cbn [writer_bytes writer_offset].
  destruct (Z.gtb_spec (Z.of_nat 4) (blen (command_body c ++ replicate 4 x00) - blen (command_body c)))
    as [Hgt|_]; [rewrite length_app, length_replicate in Hgt; lia|].
  rewrite <- (app_nil_r (replicate 4 x00)), copy_at_middle by (by rewrite ?length_le_bytes).
  rewrite app_nil_r. cbv beta iota. unfold writer_full, writer_remaining.
  cbn [is_ok writer_bytes writer_offset negb orb].
  rewrite length_app, length_le_bytes, Nat2Z.inj_add, Z.sub_diag. done.
Qed.

(** ** Reading *)

Lemma read_unsigned_in w bs o :
  0 <= o -> o + Z.of_nat w <= blen bs ->
  read_unsigned_le w {| reader_bytes := bs; reader_offset := o |} =
    (Ok (load_le w bs o), {| reader_bytes := bs; reader_offset := o + Z.of_nat w |}).
Proof.
  intros Ho Hl. unfold read_unsigned_le, reader_remaining, reader_advance.
  cbn [reader_bytes reader_offset]. by destruct (Z.gtb_spec (Z.of_nat w) (blen bs - o)); [lia|].
Qed.

Lemma read_exact_in n bs o :
  0 <= o -> o + n <= blen bs ->
  read_exact n {| reader_bytes := bs; reader_offset := o |} =
    (Ok (subspan bs o n), {| reader_bytes := bs; reader_offset := o + n |}).
Proof.
  intros Ho Hl. unfold read_exact, peek_exact, reader_remaining, reader_advance.
  cbn [reader_bytes reader_offset]. by destruct (Z.gtb_spec n (blen bs - o)); [lia|].
Qed.

(** The voters that stand at an offset. *)
Fixpoint voters_at (bs : list byte) (o : Z) (count : nat) : list NodeId :=
  match count with O => [] | S count => load_u64_le bs o :: voters_at bs (o + 8) count end.

Lemma length_voters_at bs o n : length (voters_at bs o n) = n.
Proof. revert o. induction n; intros; cbn; auto. Qed.

Lemma voters_at_width bs n : forall o,
  0 <= o -> o + 8 * Z.of_nat n <= blen bs -> Forall (in_width 64) (voters_at bs o n).
Proof.
  induction n as [|n IH]; intros o Ho Hl; cbn [voters_at]; constructor.
  - apply (load_in_width 8); lia.
  - apply IH; lia.
Qed.

Lemma voter_bytes_voters_at bs n : forall o,
  0 <= o -> o + 8 * Z.of_nat n <= blen bs ->
  voter_bytes (voters_at bs o n) = subspan bs o (8 * Z.of_nat n).
Proof.
  induction n as [|n IH]; intros o Ho Hl; [done|]. unfold voter_bytes in *.
  cbn [voters_at fmap list_fmap concat]. rewrite IH by lia.
  rewrite <- field_of_load by lia. rewrite <- subspan_split by lia. f_equal. lia.
Qed.

Lemma voters_at_voter_bytes pre voters post : Forall (in_width 64) voters ->
  voters_at (pre ++ voter_bytes voters ++ post) (blen pre) (length voters) = voters.
Proof.
  revert pre. induction voters as [|v voters IH]; intros pre Hv; [done|].
  apply Forall_cons in Hv as [Hv Hvs]. cbn [voters_at length].
  unfold voter_bytes in *. cbn [fmap list_fmap concat]. rewrite <- app_assoc. f_equal.
  - apply load_field; [lia | rewrite !length_app, length_le_bytes; lia | done |].
    by apply subspan_app_l; [|rewrite length_le_bytes].
  - rewrite app_assoc. replace (blen pre + 8) with (blen (pre ++ le_bytes 8 v))
      by (rewrite length_app, length_le_bytes; lia). by apply IH.
Qed.

Lemma read_voters_in bs n : forall o,
  0 <= o -> o + 8 * Z.of_nat n <= blen bs ->
  read_voters n {| reader_bytes := bs; reader_offset := o |} =
    (Ok (voters_at bs o n), {| reader_bytes := bs; reader_offset := o + 8 * Z.of_nat n |}).
Proof.
  induction n as [|n IH]; intros o Ho Hl; cbn [read_voters voters_at].
  - by rewrite Z.add_0_r.
  - unfold read_u64_le. rewrite read_unsigned_in by lia. rewrite IH by lia.
    do 2 f_equal. lia.
Qed.

(** The header reads, as loads at the offsets of the format. *)
Lemma decode_command_loads bs maximum :
  maximum <> 0 -> maximum <= kMaximumMembershipVoters -> 36 <= blen bs ->
  decode_membership_command_v1 bs maximum =
    if crc32c (first bs (blen bs - 4)) =? load_u32_le bs (blen bs - 4) then
      decode_membership_body bs maximum {| reader_bytes := bs; reader_offset := 32 |}
        (subspan bs 0 8) (load_u16_le bs 8) (load_u16_le bs 10) (load_le 1 bs 12)
        (subspan bs 13 3) (load_u32_le bs 16) (load_u64_le bs 20) (load_u16_le bs 28)
        (load_u16_le bs 30)
    else Err kCorruption.
Proof.
  intros Hm0 Hm Hl. unfold decode_membership_command_v1.
  destruct (Z.eqb_spec maximum 0); [lia|].
  destruct (Z.gtb_spec maximum kMaximumMembershipVoters); [lia|]. cbn [orb].
  unfold kMembershipCommandHeaderSize, kMembershipCommandTrailerSize.
  destruct (Z.ltb_spec (blen bs) (32 + 4)); [lia|].
  destruct (_ =? _); [|done]. cbn [negb]. unfold ByteReader_new, read_u16_le, read_u8, read_u32_le, read_u64_le.
  rewrite read_exact_in by (cbn; lia).
  rewrite !read_unsigned_in by (cbn; lia). rewrite read_exact_in by (cbn; lia).
  rewrite !read_unsigned_in by (cbn; lia). reflexivity.
Qed.

(** The thirty-two header bytes of a frame. *)
Definition command_header (c : MembershipCommand) : list byte :=
  kMagic ++ le_bytes 2 kMajor ++ le_bytes 2 kMinor ++ le_bytes 1 (command_kind c)
  ++ replicate 3 x00 ++ le_bytes 4 (command_size c) ++ le_bytes 8 (command_joint_index c)
  ++ le_bytes 2 (blen (command_old c)) ++ le_bytes 2 (blen (command_new c)).

Lemma command_body_split c :
  command_body c = command_header c ++ voter_bytes (command_old c) ++ voter_bytes (command_new c).
Proof. unfold command_body, command_header. by rewrite <- !app_assoc. Qed.

Lemma command_bytes_split c :
  command_bytes c = command_header c ++ voter_bytes (command_old c)
    ++ voter_bytes (command_new c) ++ le_bytes 4 (crc32c (command_body c)).
Proof. unfold command_bytes, with_crc. by rewrite command_body_split at 1; rewrite <- !app_assoc. Qed.

Lemma length_command_bytes c : blen (command_bytes c) = command_size c.
Proof. unfold command_bytes. rewrite length_seal. pose proof (length_command_body c). lia. Qed.

Lemma command_joint_width c maximum : command_ok c maximum -> in_width 64 (command_joint_index c).
Proof. intros (_ & _ & _ & _ & Hc). destruct c; cbn; [width_lia | apply Hc]. Qed.

(** The header fields read back. *)
Lemma command_header_loads c maximum rest :
  command_ok c maximum ->
  let bs := command_header c ++ rest in
  subspan bs 0 8 = kMagic /\ load_u16_le bs 8 = kMajor /\ load_u16_le bs 10 = kMinor /\
  load_le 1 bs 12 = command_kind c /\ subspan bs 13 3 = replicate 3 x00 /\
  load_u32_le bs 16 = command_size c /\ load_u64_le bs 20 = command_joint_index c /\
  load_u16_le bs 28 = blen (command_old c) /\ load_u16_le bs 30 = blen (command_new c).
Proof.
  intros Hc bs. pose proof (command_counts _ _ Hc) as [Ho Hn].
  pose proof (command_joint_width _ _ Hc) as Hj.
  assert (Hl : 32 <= blen bs) by (unfold bs; rewrite length_app; cbn; lia).
  split_and!; try reflexivity; apply load_field;
    try match goal with |- 0 <= _ => lia | |- _ <= blen bs => lia | |- subspan _ _ _ = _ => reflexivity end;
    unfold command_size, command_kind, kMajor, kMinor, kKindJoint, kKindFinal;
    try (destruct c); try exact Hj; cbn [Z.of_nat Pos.of_succ_nat Pos.succ Z.mul Pos.mul]; width_lia.
Qed.

Lemma decode_command_complete c maximum :
  command_ok c maximum -> decode_membership_command_v1 (command_bytes c) maximum = Ok c.
Proof.
  intros Hc. pose proof (command_counts _ _ Hc) as [Ho Hn].
  pose proof (length_command_bytes c) as Hlen. pose proof (length_command_body c) as Hbl.
  assert (Hcs : command_size c = 36 + 8 * (blen (command_old c) + blen (command_new c))) by done.
  rewrite decode_command_loads by (destruct Hc; lia).
  unfold command_bytes at 1 2 3 4. rewrite length_seal.
  replace (Z.of_nat (length (command_body c) + 4) - 4) with (blen (command_body c)) by lia.
  rewrite load_seal by done. unfold with_crc at 1. rewrite first_app, Z.eqb_refl by done.
  pose proof (command_bytes_split c) as Hsplit.
  set (bs := command_bytes c) in *.
  pose proof (command_header_loads c maximum (voter_bytes (command_old c)
    ++ voter_bytes (command_new c) ++ le_bytes 4 (crc32c (command_body c))) Hc) as Hloads.
  cbv zeta in Hloads. rewrite <- Hsplit in Hloads.
  destruct Hloads as (-> & -> & -> & -> & -> & -> & -> & -> & ->).
  assert (Eold : voters_at bs 32 (length (command_old c)) = command_old c).
  { rewrite Hsplit. apply (voters_at_voter_bytes (command_header c)); apply Hc. }
  assert (Enew : voters_at bs (32 + 8 * blen (command_old c)) (length (command_new c)) = command_new c).
  { rewrite Hsplit, app_assoc. etransitivity; [|apply (voters_at_voter_bytes
      (command_header c ++ voter_bytes (command_old c)) (command_new c)
      (le_bytes 4 (crc32c (command_body c)))), Hc].
    f_equal. rewrite length_app, length_voter_bytes. change (length (command_header c)) with 32%nat. lia. }
  clearbody bs. clear Hsplit. destruct Hc as (Hm & Hnew & _ & _ & Hc).
  unfold decode_membership_body, kMembershipCommandTrailerSize, reader_remaining.
  cbn [reader_bytes reader_offset]. rewrite bool_decide_eq_true_2 by done.
  assert (Hmax : blen (command_old c) <= maximum /\ blen (command_new c) <= maximum).
  { split; [|apply Hnew]. destruct c; cbn in *; [apply Hc|lia]. }
  destruct (Z.gtb_spec (blen (command_old c)) maximum); [lia|].
  destruct (Z.gtb_spec (blen (command_new c)) maximum); [lia|].
  destruct (Z.eqb_spec (blen (command_new c)) 0); [lia|].
  destruct (Z.eqb_spec (blen bs - 32) ((blen (command_old c) + blen (command_new c)) * 8 + 4)); [|lia].
  rewrite <- Hlen, !Z.eqb_refl. cbn [negb orb existsb replicate]. rewrite !Nat2Z.id.
  rewrite read_voters_in by lia. rewrite Eold. cbn [rbind].
  rewrite read_voters_in by lia. rewrite Enew. cbn [rbind].
  rewrite (proj2 (canonical_spec _ _) Hnew). unfold read_u32_le.
  rewrite read_unsigned_in by lia. cbn [orb negb]. unfold reader_empty, reader_remaining.
  cbn [reader_bytes reader_offset]. rewrite (proj2 (Z.eqb_eq (_ - _) 0)) by lia.
  destruct c as [[old new]|[ji new]]; cbn in *.
  - destruct Hc as [Hold ->]. by rewrite (proj2 (canonical_spec _ _) Hold).
  - destruct Hc as [_ Hj]. by rewrite (proj2 (Z.eqb_neq _ _) Hj).
Qed.

(** A byte string whose header loads are those of a command is its frame. *)
Lemma command_bytes_of_loads bs c :
  blen bs = command_size c ->
  subspan bs 0 8 = kMagic -> load_u16_le bs 8 = kMajor -> load_u16_le bs 10 = kMinor ->
  load_le 1 bs 12 = command_kind c -> subspan bs 13 3 = replicate 3 x00 ->
  load_u32_le bs 16 = command_size c -> load_u64_le bs 20 = command_joint_index c ->
  load_u16_le bs 28 = blen (command_old c) -> load_u16_le bs 30 = blen (command_new c) ->
  voters_at bs 32 (length (command_old c)) = command_old c ->
  voters_at bs (32 + 8 * blen (command_old c)) (length (command_new c)) = command_new c ->
  crc32c (first bs (blen bs - 4)) = load_u32_le bs (blen bs - 4) ->
  bs = command_bytes c.
Proof.
  intros Hlen E0 E8 E10 E12 E13 E16 E20 E28 E30 Eold Enew Hcrc.
  assert (Hcs : command_size c = 36 + 8 * (blen (command_old c) + blen (command_new c))) by done.
  apply (crc_check_seal bs (blen bs - 4) ltac:(lia) ltac:(lia)) in Hcrc.
  rewrite Hcrc. unfold command_bytes. f_equal. rewrite command_body_split. unfold command_header.
  rewrite <- E0, <- E8, <- E10, <- E12, <- E13, <- E16, <- E20, <- E28, <- E30.
  rewrite <- Eold at 1. rewrite <- Enew at 1.
  rewrite !voter_bytes_voters_at, <- !field_of_load by (cbn; lia).
  rewrite <- !app_assoc, <- !subspan_split by (cbn; lia). unfold first, subspan. cbn [Z.to_nat drop].
  f_equal. cbn [Z.of_nat Pos.of_succ_nat Pos.succ]. lia.
Qed.

Lemma decode_command_sound bs maximum c :
  decode_membership_command_v1 bs maximum = Ok c ->
  command_ok c maximum /\ bs = command_bytes c.
Proof.
  intros H.
  assert (Hguard : maximum <> 0 /\ maximum <= kMaximumMembershipVoters /\ 36 <= blen bs).
  { unfold decode_membership_command_v1, kMembershipCommandHeaderSize, kMembershipCommandTrailerSize in H.
    destruct (Z.eqb_spec maximum 0); [done|].
    destruct (Z.gtb_spec maximum kMaximumMembershipVoters); [done|]. cbn [orb] in H.
    destruct (Z.ltb_spec (blen bs) (32 + 4)); [done|]. lia. }
  destruct Hguard as (Hm0 & Hm & Hlen). rewrite decode_command_loads in H by done.
  destruct (Z.eqb_spec (crc32c (first bs (blen bs - 4))) (load_u32_le bs (blen bs - 4)))
    as [Hcrc|]; [|done].
  pose proof (load_in_width 2 bs 28 ltac:(lia) ltac:(lia)) as Wo.
  pose proof (load_in_width 2 bs 30 ltac:(lia) ltac:(lia)) as Wn.
  pose proof (load_in_width 8 bs 20 ltac:(lia) ltac:(lia)) as Wj.
  unfold decode_membership_body, kMembershipCommandTrailerSize, reader_remaining in H.
  cbn [reader_bytes reader_offset] in H.
  set (oc := load_u16_le bs 28) in *. set (nc := load_u16_le bs 30) in *.
  destruct (negb (bool_decide _) || _) eqn:E1 in H; [done|].
  destruct (negb (load_u16_le bs 10 =? kMinor)) eqn:E2 in H; [done|].
  destruct (existsb _ _ || _ || _ || _ || _ || _) eqn:E3 in H; [done|].
  repeat match goal with E : _ || _ = false |- _ => apply orb_false_iff in E; destruct E end.
  bool_prop. rewrite Z.gtb_ltb in *. bool_prop.
  unfold in_width in Wo, Wn.
  rewrite read_voters_in in H by lia. cbn [rbind] in H.
  rewrite read_voters_in in H by lia. cbn [rbind] in H.
  match goal with E : existsb _ _ = false |- _ => apply zero_check_replicate in E;
    rewrite length_subspan in E by lia; rename E into E13 end.
  destruct (canonical (voters_at bs (32 + _) _) maximum) eqn:Ecn; [|done]. cbn [negb orb] in H.
  apply canonical_spec in Ecn.
  assert (Fo : Forall (in_width 64) (voters_at bs 32 (Z.to_nat oc))) by (apply voters_at_width; lia).
  assert (Fn : Forall (in_width 64) (voters_at bs (32 + 8 * Z.of_nat (Z.to_nat oc)) (Z.to_nat nc)))
    by (apply voters_at_width; lia).
  destruct (Z.eqb_spec (load_le 1 bs 12) kKindJoint) as [Hk|Hk].
  - destruct (_ || _) eqn:E4 in H; [done|]. bool_prop.
    destruct (read_u32_le _) as [tr rd]. destruct (_ || _) in H; [done|]. injection H as <-.
    match goal with E : canonical _ _ = true |- _ => apply canonical_spec in E end.
    split.
    + split; cbn; [lia|]. split; [done|]. split; [done|]. split; [done|]. done.
    + apply command_bytes_of_loads; cbn; rewrite ?length_voters_at, ?Z2Nat.id; try done; try lia;
        unfold command_size; cbn; rewrite ?length_voters_at, ?Z2Nat.id; lia.
  - destruct (_ || _) eqn:E4 in H; [done|]. bool_prop.
    destruct (read_u32_le _) as [tr rd]. destruct (_ || _) in H; [done|]. injection H as <-.
    match goal with E : blen (voters_at _ _ _) = 0 |- _ => rewrite length_voters_at in E end.
    assert (Hoc : oc = 0) by lia. rewrite Hoc in *. split.
    + split; cbn; [lia|]. split; [done|]. split; [done|]. split; [constructor|]. by split.
    + apply command_bytes_of_loads; cbn; rewrite ?length_voters_at, ?Z2Nat.id; try done; try lia;
        unfold command_size; cbn; rewrite ?length_voters_at, ?Z2Nat.id; lia.
Qed.

(** Membership commands: a command with canonical voter sets and a bounded
    union encodes to its canonical checksummed frame, and the decoder accepts a
    byte string exactly when it is the frame of such a command, which it returns. *)
Theorem membership_codec (command : MembershipCommand) (maximum_voters : Z) :
  (command_ok command maximum_voters ->
   encode_membership_command_v1 command maximum_voters = Ok (command_bytes command)) /\
  forall bytes, decode_membership_command_v1 bytes maximum_voters = Ok command <->
    command_ok command maximum_voters /\ bytes = command_bytes command.
Proof.
  split; [apply encode_command_ok|]. intros bytes. split; [apply decode_command_sound|].
  intros [Hok ->]. by apply decode_command_complete.
Qed.

Definition sample_joint : MembershipCommand :=
  Joint {| jm_old_voters := [1; 2; 3]; jm_new_voters := [2; 5] |}.

Lemma sample_joint_ok : command_ok sample_joint 31.
Proof.
  split; [vm_compute; split; [reflexivity|discriminate]|].
  split; [apply canonical_spec; vm_compute; reflexivity|].
  split; [repeat constructor; vm_compute; intuition discriminate|].
  split; [repeat constructor; vm_compute; intuition discriminate|].
  split; [apply canonical_spec; vm_compute; reflexivity | vm_compute; reflexivity].
Qed.

Lemma membership_codec_witness :
  decode_membership_command_v1 (command_bytes sample_joint) 31 = Ok sample_joint.
Proof. apply membership_codec. split; [exact sample_joint_ok | reflexivity]. Defined.
