(* ===== verification/RaftNode.v ===== *)
(** The Raft node core, src/raft/node.cpp: persistent and volatile state, the
    membership derived from the log, elections, the eight message handlers of
    [receive], proposals, membership changes, snapshots, read barriers and
    application progress.  This file holds the definitions; the invariant and
    the theorems are in the files that require it.

    A handler takes the node and returns the result of the call together with
    the node afterwards, so a failing call shows what it left behind.  Memory
    exhaustion ([std::bad_alloc], [std::length_error]) is not modelled.  Where
    the source indexes a vector or calls [map::at], the model reads with a
    default; the invariant shows that the element exists. *)
From S2P Require Import Prelude Bytes RaftTypes RaftMembership.

Record RaftLimits := {
  maximum_voters : Z; maximum_log_entries : Z; maximum_entry_bytes : Z;
  maximum_append_entries : Z; maximum_persistent_state_bytes : Z }.

(** * Free functions *)

Definition persistent_state_fits (snapshot_voter_count : Z) (log : list LogEntry)
  (limits : RaftLimits) : StatusCode :=
  match raft_persistent_state_payload_size snapshot_voter_count log with
  | Ok size => if size <=? maximum_persistent_state_bytes limits then kOk else kResourceExhausted
  | Err _ => kResourceExhausted
  end.

Definition appended_entry_fits (state : PersistentState) (payload_size : Z) (limits : RaftLimits)
  : StatusCode :=
  match raft_persistent_state_payload_size (blen (snapshot_voters (snapshot state))) (log state) with
  | Err _ => kResourceExhausted
  | Ok size =>
      let appended := checked_add size kRaftPersistentLogEntryFixedSizeV1 in
      let appended := match appended with
                      | Some a => checked_add a payload_size
                      | None => None
                      end in
      match appended with
      | Some a => if a <=? maximum_persistent_state_bytes limits then kOk else kResourceExhausted
      | None => kResourceExhausted
      end
  end.

Record JointConfiguration := {
  joint_old_voters : list NodeId; joint_new_voters : list NodeId;
  joint_index : LogIndex; final_pending : bool }.
Record DerivedMembership := {
  dm_committed_voters : list NodeId; dm_active_voters : list NodeId;
  dm_joint : option JointConfiguration }.
Record PendingReadBarrier := {
  prb_term : Term; prb_context : Z; prb_read_index : LogIndex;
  prb_old_voters : list NodeId; prb_new_voters : list NodeId;
  prb_acknowledgements : gset Z }.

Definition voter_union (first second : list NodeId) : list NodeId := set_union first second.

Definition valid_voters (voters : list NodeId) (maximum : Z) : bool :=
  negb (blen voters =? 0) && (blen voters <=? maximum) && negb (front voters =? 0)
  && is_sorted voters && negb (has_adjacent_equal voters).

Definition valid_snapshot (s : SnapshotMetadata) (maximum : Z) : bool :=
  negb (last_included_index s =? 0) && negb (last_included_index s =? max_u64)
  && negb (last_included_term s =? 0) && negb (manifest_generation s =? 0)
  && (configuration_index s <=? last_included_index s)
  && valid_voters (snapshot_voters s) maximum.

(** One entry of the loop of [derive_membership]. *)
Definition derive_step (limits : RaftLimits) (commit : LogIndex) (derived : DerivedMembership)
  (entry : LogEntry) : result DerivedMembership :=
  if negb (is_membership_entry_type (entry_type entry)) then Ok derived
  else
  let? decoded := decode_membership_command_v1 (entry_payload entry) (maximum_voters limits) in
  if entry_type entry =? kJointMembershipEntryType then
    match decoded, dm_joint derived with
    | Joint j, None =>
        fail_if negb (bool_decide (jm_old_voters j = dm_committed_voters derived))
          with kCorruption;
        let active := voter_union (jm_old_voters j) (jm_new_voters j) in
        fail_if blen active >? maximum_voters limits with kInvalidArgument;
        Ok {| dm_committed_voters := dm_committed_voters derived; dm_active_voters := active;
              dm_joint := Some {| joint_old_voters := jm_old_voters j;
                                  joint_new_voters := jm_new_voters j;
                                  joint_index := entry_index entry; final_pending := false |} |}
    | _, _ => Err kCorruption
    end
  else
    match decoded, dm_joint derived with
    | Final f, Some j =>
        fail_if final_pending j || negb (fm_joint_index f =? joint_index j)
                || negb (bool_decide (fm_new_voters f = joint_new_voters j))
                || (joint_index j >? commit) with kCorruption;
        if entry_index entry <=? commit
        then Ok {| dm_committed_voters := fm_new_voters f; dm_active_voters := fm_new_voters f;
                   dm_joint := None |}
        else Ok {| dm_committed_voters := dm_committed_voters derived;
                   dm_active_voters := dm_active_voters derived;
                   dm_joint := Some {| joint_old_voters := joint_old_voters j;
                                       joint_new_voters := joint_new_voters j;
                                       joint_index := joint_index j; final_pending := true |} |}
    | _, _ => Err kCorruption
    end.

Fixpoint derive_loop (limits : RaftLimits) (commit : LogIndex) (derived : DerivedMembership)
  (log : list LogEntry) : result DerivedMembership :=
  match log with
  | [] => Ok derived
  | entry :: log =>
      let? derived := derive_step limits commit derived entry in
      derive_loop limits commit derived log
  end.

Definition derive_membership (base_voters : list NodeId) (log : list LogEntry)
  (commit : LogIndex) (limits : RaftLimits) : result DerivedMembership :=
  derive_loop limits commit
    {| dm_committed_voters := base_voters; dm_active_voters := base_voters; dm_joint := None |} log.

(** * RaftNode::Impl *)

Record Impl := {
  id : NodeId; base_voters : list NodeId; committed_voters : list NodeId;
  voters : list NodeId; joint : option JointConfiguration; state : PersistentState;
  limits : RaftLimits; role : Role; leader_id : option NodeId; votes : gset Z;
  next_index : gmap Z Z; match_index : gmap Z Z;
  pending_snapshot : option InstallSnapshotRequest;
  pending_read_barrier : option PendingReadBarrier; next_read_context : Z }.

(** Field assignments. *)
Definition set_state (n : Impl) (s : PersistentState) : Impl :=
  {| id := id n; base_voters := base_voters n; committed_voters := committed_voters n;
     voters := voters n; joint := joint n; state := s; limits := limits n; role := role n;
     leader_id := leader_id n; votes := votes n; next_index := next_index n;
     match_index := match_index n; pending_snapshot := pending_snapshot n;
     pending_read_barrier := pending_read_barrier n; next_read_context := next_read_context n |}.
Definition set_base_voters (n : Impl) (b : list NodeId) : Impl :=
  {| id := id n; base_voters := b; committed_voters := committed_voters n;
     voters := voters n; joint := joint n; state := state n; limits := limits n; role := role n;
     leader_id := leader_id n; votes := votes n; next_index := next_index n;
     match_index := match_index n; pending_snapshot := pending_snapshot n;
     pending_read_barrier := pending_read_barrier n; next_read_context := next_read_context n |}.
Definition set_membership (n : Impl) (m : DerivedMembership) : Impl :=
  {| id := id n; base_voters := base_voters n; committed_voters := dm_committed_voters m;
     voters := dm_active_voters m; joint := dm_joint m; state := state n; limits := limits n;
     role := role n; leader_id := leader_id n; votes := votes n; next_index := next_index n;
     match_index := match_index n; pending_snapshot := pending_snapshot n;
     pending_read_barrier := pending_read_barrier n; next_read_context := next_read_context n |}.
Definition set_role (n : Impl) (r : Role) (leader : option NodeId) : Impl :=
  {| id := id n; base_voters := base_voters n; committed_voters := committed_voters n;
     voters := voters n; joint := joint n; state := state n; limits := limits n; role := r;
     leader_id := leader; votes := votes n; next_index := next_index n;
     match_index := match_index n; pending_snapshot := pending_snapshot n;
     pending_read_barrier := pending_read_barrier n; next_read_context := next_read_context n |}.
Definition set_votes (n : Impl) (v : gset Z) : Impl :=
  {| id := id n; base_voters := base_voters n; committed_voters := committed_voters n;
     voters := voters n; joint := joint n; state := state n; limits := limits n; role := role n;
     leader_id := leader_id n; votes := v; next_index := next_index n;
     match_index := match_index n; pending_snapshot := pending_snapshot n;
     pending_read_barrier := pending_read_barrier n; next_read_context := next_read_context n |}.
Definition set_progress (n : Impl) (next matched : gmap Z Z) : Impl :=
  {| id := id n; base_voters := base_voters n; committed_voters := committed_voters n;
     voters := voters n; joint := joint n; state := state n; limits := limits n; role := role n;
     leader_id := leader_id n; votes := votes n; next_index := next;
     match_index := matched; pending_snapshot := pending_snapshot n;
     pending_read_barrier := pending_read_barrier n; next_read_context := next_read_context n |}.
Definition set_pending_snapshot (n : Impl) (p : option InstallSnapshotRequest) : Impl :=
  {| id := id n; base_voters := base_voters n; committed_voters := committed_voters n;
     voters := voters n; joint := joint n; state := state n; limits := limits n; role := role n;
     leader_id := leader_id n; votes := votes n; next_index := next_index n;
     match_index := match_index n; pending_snapshot := p;
     pending_read_barrier := pending_read_barrier n; next_read_context := next_read_context n |}.
Definition set_read_barrier (n : Impl) (p : option PendingReadBarrier) (context : Z) : Impl :=
  {| id := id n; base_voters := base_voters n; committed_voters := committed_voters n;
     voters := voters n; joint := joint n; state := state n; limits := limits n; role := role n;
     leader_id := leader_id n; votes := votes n; next_index := next_index n;
     match_index := match_index n; pending_snapshot := pending_snapshot n;
     pending_read_barrier := p; next_read_context := context |}.

(** Assignments to members of the persistent state. *)
Definition state_term (s : PersistentState) (t : Term) (v : option NodeId) : PersistentState :=
  {| current_term := t; voted_for := v; log := log s; commit_index := commit_index s;
     applied_index := applied_index s; snapshot := snapshot s |}.
Definition state_log (s : PersistentState) (l : list LogEntry) : PersistentState :=
  {| current_term := current_term s; voted_for := voted_for s; log := l;
     commit_index := commit_index s; applied_index := applied_index s; snapshot := snapshot s |}.
Definition state_commit (s : PersistentState) (c : LogIndex) : PersistentState :=
  {| current_term := current_term s; voted_for := voted_for s; log := log s;
     commit_index := c; applied_index := applied_index s; snapshot := snapshot s |}.
Definition state_applied (s : PersistentState) (a : LogIndex) : PersistentState :=
  {| current_term := current_term s; voted_for := voted_for s; log := log s;
     commit_index := commit_index s; applied_index := a; snapshot := snapshot s |}.
Definition state_snapshot (s : PersistentState) (m : SnapshotMetadata) : PersistentState :=
  {| current_term := current_term s; voted_for := voted_for s; log := log s;
     commit_index := commit_index s; applied_index := applied_index s; snapshot := m |}.

(** Members of a transition. *)
Definition with_persistent (t : Transition) (s : PersistentState) : Transition :=
  {| persistent_state := Some s; outbound := outbound t;
     advanced_commit_index := advanced_commit_index t; snapshot_install := snapshot_install t;
     read_barrier_ready := read_barrier_ready t |}.
Definition with_outbound (t : Transition) (o : list OutboundMessage) : Transition :=
  {| persistent_state := persistent_state t; outbound := outbound t ++ o;
     advanced_commit_index := advanced_commit_index t; snapshot_install := snapshot_install t;
     read_barrier_ready := read_barrier_ready t |}.
Definition with_commit (t : Transition) (c : LogIndex) : Transition :=
  {| persistent_state := persistent_state t; outbound := outbound t;
     advanced_commit_index := Some c; snapshot_install := snapshot_install t;
     read_barrier_ready := read_barrier_ready t |}.
Definition with_install (t : Transition) (p : PendingSnapshotInstall) : Transition :=
  {| persistent_state := persistent_state t; outbound := outbound t;
     advanced_commit_index := advanced_commit_index t; snapshot_install := Some p;
     read_barrier_ready := read_barrier_ready t |}.
Definition with_read_barrier (t : Transition) (b : ReadBarrier) : Transition :=
  {| persistent_state := persistent_state t; outbound := outbound t;
     advanced_commit_index := advanced_commit_index t; snapshot_install := snapshot_install t;
     read_barrier_ready := Some b |}.

(** ** Log positions *)

Definition last_index_of (s : PersistentState) : LogIndex :=
  match last (log s) with
  | Some e => entry_index e
  | None => last_included_index (snapshot s)
  end.
Definition last_index (n : Impl) : LogIndex := last_index_of (state n).

Definition last_term (n : Impl) : Term :=
  match last (log (state n)) with
  | Some e => entry_term e
  | None => last_included_term (snapshot (state n))
  end.

Definition offset_for (n : Impl) (index : LogIndex) : Z :=
  u64 (index - last_included_index (snapshot (state n)) - 1).

Definition term_at (n : Impl) (index : LogIndex) : option Term :=
  let snap := snapshot (state n) in
  if index =? 0 then Some 0
  else if index =? last_included_index snap then Some (last_included_term snap)
  else if (index <=? last_included_index snap) || (index >? last_index n) then None
  else entry_term <$> log (state n) !! Z.to_nat (u64 (index - last_included_index snap - 1)).

Definition append_predecessor_term (n : Impl) (index : LogIndex) : option Term :=
  if index <? last_included_index (snapshot (state n)) then None else term_at n index.

(** ** Voters and quorums *)

(** [std::binary_search] on the sorted voter vector. *)
Definition is_voter (voters : list NodeId) (node : NodeId) : bool := bool_decide (node ∈ voters).
Definition voter (n : Impl) (node : NodeId) : bool := is_voter (voters n) node.

Definition majority (members : list NodeId) : Z := blen members / 2 + 1.
Definition has_majority (members : list NodeId) (predicate : NodeId -> bool) : bool :=
  Z.of_nat (length (filter (fun m => predicate m = true) members)) >=? majority members.

(** A quorum of the current configuration: both halves of a joint one. *)
Definition config_quorum (j : option JointConfiguration) (committed : list NodeId)
  (predicate : NodeId -> bool) : bool :=
  match j with
  | Some j => has_majority (joint_old_voters j) predicate
              && has_majority (joint_new_voters j) predicate
  | None => has_majority committed predicate
  end.

Definition replicated (matched : gmap Z Z) (index : LogIndex) (node : NodeId) : bool :=
  match matched !! node with Some m => m >=? index | None => false end.

Definition replication_quorum (n : Impl) (index : LogIndex) : bool :=
  config_quorum (joint n) (committed_voters n) (replicated (match_index n) index).

Definition read_barrier_quorum (p : PendingReadBarrier) : bool :=
  let acknowledged node := bool_decide (node ∈ prb_acknowledgements p) in
  has_majority (prb_old_voters p) acknowledged
  && ((blen (prb_new_voters p) =? 0) || has_majority (prb_new_voters p) acknowledged).

Definition finish_read_barrier (n : Impl) (t : Transition) : Transition * Impl :=
  match pending_read_barrier n with
  | None => (t, n)
  | Some p =>
      if read_barrier_quorum p then
        (with_read_barrier t {| barrier_term := prb_term p; barrier_context := prb_context p;
                                barrier_read_index := prb_read_index p |},
         set_read_barrier n None (next_read_context n))
      else (t, n)
  end.

(** ** Replication progress *)

(** [std::map::emplace] keeps an existing element. *)
Definition emplace (m : gmap Z Z) (k v : Z) : gmap Z Z :=
  match m !! k with Some _ => m | None => <[k := v]> m end.

(** The two loops over the progress maps: forget the nodes that are no voters,
    then add the voters that are missing. *)
Definition forget_nonvoters (vs : list NodeId) (next matched : gmap Z Z)
  : gmap Z Z * gmap Z Z :=
  (filter (fun kv => is_voter vs (fst kv) = true) next,
   filter (fun kv => is_voter vs (fst kv) = true \/ next !! fst kv = None) matched).
Definition add_voter (self : NodeId) (last : LogIndex) (progress : gmap Z Z * gmap Z Z)
  (member : NodeId) : gmap Z Z * gmap Z Z :=
  let '(next, matched) := progress in
  match next !! member with
  | Some _ => (next, matched)
  | None => (emplace next member (if member =? self then u64 (last + 1) else 1),
             emplace matched member (if member =? self then last else 0))
  end.
Definition rebuild_progress (self : NodeId) (last : LogIndex) (vs : list NodeId)
  (next matched : gmap Z Z) : gmap Z Z * gmap Z Z :=
  fold_left (add_voter self last) vs (forget_nonvoters vs next matched).

Definition install_membership (n : Impl) (m : DerivedMembership) : Impl :=
  let n := set_membership n m in
  if bool_decide (role n = kLeader) then
    let '(next, matched) :=
      rebuild_progress (id n) (last_index n) (voters n) (next_index n) (match_index n) in
    set_progress n next matched
  else n.

Definition become_follower (n : Impl) (term : Term) (leader : option NodeId) : Impl :=
  let n := set_role n kFollower leader in
  let n := set_votes n ∅ in
  let n := set_progress n ∅ ∅ in
  let n := set_read_barrier n None (next_read_context n) in
  if term >? current_term (state n) then set_state n (state_term (state n) term None) else n.

Definition step_down_if_removed (n : Impl) : Impl :=
  if bool_decide (role n = kLeader) && negb (voter n (id n))
  then become_follower n (current_term (state n)) None else n.

(** The slice of retained entries a request carries. *)
Definition entries_from (n : Impl) (next : LogIndex) : list LogEntry :=
  if next <=? last_index n then
    let begin := offset_for n next in
    let count := Z.min (maximum_append_entries (limits n)) (blen (log (state n)) - begin) in
    subspan (log (state n)) begin count
  else [].

Definition replication_for_with (n : Impl) (peer : NodeId) (prepared_next_index : gmap Z Z)
  (leader_commit : LogIndex) : Message :=
  let next := default 0 (prepared_next_index !! peer) in
  if next <=? last_included_index (snapshot (state n)) then
    MInstallSnapshot {| is_term := current_term (state n); is_leader_id := id n;
                        is_snapshot := snapshot (state n) |}
  else
    let previous := u64 (next - 1) in
    MAppendEntries {| ae_term := current_term (state n); ae_leader_id := id n;
                      ae_previous_log_index := previous;
                      ae_previous_log_term := default 0 (term_at n previous);
                      ae_entries := entries_from n next; ae_leader_commit := leader_commit |}.
Definition replication_for (n : Impl) (peer : NodeId) : Message :=
  replication_for_with n peer (next_index n) (commit_index (state n)).

(** A message to every other voter. *)
Definition to_peers (vs : list NodeId) (self : NodeId) (m : NodeId -> Message)
  : list OutboundMessage :=
  (fun peer => {| destination := peer; message := m peer |})
    <$> filter (fun peer => peer <> self) vs.

Definition append_to_all (n : Impl) (t : Transition) : Transition :=
  with_outbound t (to_peers (voters n) (id n) (replication_for n)).

Definition candidate_log_is_current (n : Impl) (index : LogIndex) (term : Term) : bool :=
  (term >? last_term n) || ((term =? last_term n) && (index >=? last_index n)).

(** The loop [for (candidate = last; candidate > commit; --candidate)] that looks
    for the highest index that may commit; [fuel] counts its iterations. *)
Fixpoint scan_commit (fuel : nat) (candidate : LogIndex) (may_commit : LogIndex -> bool)
  : option LogIndex :=
  match fuel with
  | O => None
  | S fuel =>
      if may_commit candidate then Some candidate
      else scan_commit fuel (candidate - 1) may_commit
  end.
Definition commit_candidate (n : Impl) (quorum : LogIndex -> bool) : option LogIndex :=
  scan_commit (Z.to_nat (last_index n - commit_index (state n))) (last_index n)
    (fun candidate => bool_decide (term_at n candidate = Some (current_term (state n)))
                      && quorum candidate).

(** [advance_commit]: whether it advanced, the transition and the node. *)
Definition advance_commit (n : Impl) (t : Transition) : result bool * Transition * Impl :=
  match commit_candidate n (replication_quorum n) with
  | None => (Ok false, t, n)
  | Some candidate =>
      match derive_membership (base_voters n) (log (state n)) candidate (limits n) with
      | Err s => (make_unexpected s, t, n)
      | Ok membership =>
          let n := set_state n (state_commit (state n) candidate) in
          (Ok true, with_commit t candidate, install_membership n membership)
      end
  end.

(** The common tail of the two append functions: record the leader's own
    progress, advance the commit index and replicate. *)
Definition set_self_progress (n : Impl) (index : LogIndex) : result Impl :=
  match match_index n !! id n, next_index n !! id n with
  | Some _, Some _ =>
      Ok (set_progress n (<[id n := u64 (index + 1)]> (next_index n))
                         (<[id n := index]> (match_index n)))
  | _, _ => Err kCorruption
  end.

Definition push_entry (n : Impl) (type : Z) (payload : list byte) : Impl :=
  set_state n (state_log (state n) (log (state n) ++
    [{| entry_index := u64 (last_index n + 1); entry_term := current_term (state n);
        entry_type := type; entry_payload := payload |}])).

Definition append_local_entry (n : Impl) (type : Z) (payload : list byte)
  : result Transition * Impl :=
  let index := u64 (last_index n + 1) in
  let n := push_entry n type payload in
  match set_self_progress n index with
  | Err s => (make_unexpected s, n)
  | Ok n =>
      match advance_commit n empty_transition with
      | (Err s, _, n) => (make_unexpected s, n)
      | (Ok _, t, n) =>
          let t := append_to_all n t in
          (Ok (with_persistent t (state n)), n)
      end
  end.

Definition append_membership_entry (n : Impl) (type : Z) (payload : list byte)
  : result Transition * Impl :=
  let index := u64 (last_index n + 1) in
  let n := push_entry n type payload in
  match derive_membership (base_voters n) (log (state n)) (commit_index (state n)) (limits n) with
  | Err s => (make_unexpected s, n)
  | Ok membership =>
      let n := install_membership n membership in
      match set_self_progress n index with
      | Err s => (make_unexpected s, n)
      | Ok n =>
          match advance_commit n empty_transition with
          | (Err s, _, n) => (make_unexpected s, n)
          | (Ok _, t, n) =>
              let t := append_to_all n t in
              let n := step_down_if_removed n in
              (Ok (with_persistent t (state n)), n)
          end
      end
  end.

(** * RaftNode::create *)

Definition limits_ok (l : RaftLimits) : bool :=
  negb (maximum_voters l =? 0) && (maximum_voters l <=? kMaximumMembershipVoters)
  && negb (maximum_log_entries l =? 0) && negb (maximum_entry_bytes l =? 0)
  && negb (maximum_append_entries l =? 0) && negb (maximum_persistent_state_bytes l =? 0)
  && (maximum_persistent_state_bytes l <=? kMaximumRaftPersistentStatePayloadSize).

(** The loop over the persistent log. *)
Fixpoint check_log (expected : LogIndex) (current : Term) (l : RaftLimits) (entries : list LogEntry)
  : StatusCode :=
  match entries with
  | [] => kOk
  | entry :: rest =>
      if negb (entry_index entry =? expected) || (entry_index entry =? max_u64)
         || (entry_term entry =? 0) || (entry_term entry >? current) || (entry_type entry =? 0)
         || (blen (entry_payload entry) >? maximum_entry_bytes l) then kInvalidArgument
      else if (entry_type entry =? kLeaderNoopEntryType) && negb (blen (entry_payload entry) =? 0)
      then kInvalidArgument
      else if (expected =? max_u64) && negb (blen rest =? 0) then kInvalidArgument
      else check_log (u64 (expected + 1)) current l rest
  end.

Definition empty_snapshot_canonical (s : SnapshotMetadata) : bool :=
  negb ((last_included_index s =? 0)
        && (negb (last_included_term s =? 0) || negb (manifest_generation s =? 0)
            || existsb (fun b => bool_decide (b <> x00)) (part_set_checksum s)
            || negb (configuration_index s =? 0) || negb (blen (snapshot_voters s) =? 0))).

Definition set_snapshot_voters (s : SnapshotMetadata) (v : list NodeId) : SnapshotMetadata :=
  {| last_included_index := last_included_index s; last_included_term := last_included_term s;
     manifest_generation := manifest_generation s; part_set_checksum := part_set_checksum s;
     configuration_index := configuration_index s; snapshot_voters := v |}.

(** The voters a snapshot checkpoints, and the persistent state completed with
    them where it has none. *)
Definition base_configuration (p : PersistentState) (vs : list NodeId)
  : list NodeId * PersistentState :=
  if last_included_index (snapshot p) =? 0 then (vs, p)
  else if blen (snapshot_voters (snapshot p)) =? 0
       then (vs, state_snapshot p (set_snapshot_voters (snapshot p) vs))
       else (snapshot_voters (snapshot p), p).

Definition new_impl (node_id : NodeId) (base : list NodeId) (m : DerivedMembership)
  (p : PersistentState) (l : RaftLimits) : Impl :=
  {| id := node_id; base_voters := base; committed_voters := dm_committed_voters m;
     voters := dm_active_voters m; joint := dm_joint m; state := p; limits := l;
     role := kFollower; leader_id := None; votes := ∅; next_index := ∅; match_index := ∅;
     pending_snapshot := None; pending_read_barrier := None; next_read_context := 1 |}.

Definition create (node_id : NodeId) (voters : list NodeId) (persistent : PersistentState)
  (l : RaftLimits) : result Impl :=
  fail_if (node_id =? 0) || (blen voters =? 0) || (blen voters >? maximum_voters l)
          || negb (limits_ok l) with kInvalidArgument;
  let voters := sort_voters voters in
  fail_if (front voters =? 0) || has_adjacent_equal voters with kInvalidArgument;
  fail_if (current_term persistent =? 0) && bool_decide (voted_for persistent <> None)
    with kInvalidArgument;
  fail_if negb (empty_snapshot_canonical (snapshot persistent)) with kInvalidArgument;
  fail_if last_included_index (snapshot persistent) =? max_u64 with kInvalidArgument;
  fail_if last_included_term (snapshot persistent) >? current_term persistent
    with kInvalidArgument;
  check! check_log (u64 (last_included_index (snapshot persistent) + 1))
           (current_term persistent) l (log persistent);
  fail_if blen (log persistent) >? maximum_log_entries l with kInvalidArgument;
  let last := last_index_of persistent in
  let '(base, persistent) := base_configuration persistent voters in
  fail_if negb (last_included_index (snapshot persistent) =? 0)
          && negb (valid_snapshot (snapshot persistent) (maximum_voters l)) with kInvalidArgument;
  fail_if negb (is_ok (persistent_state_fits (blen (snapshot_voters (snapshot persistent)))
                         (log persistent) l)) with kInvalidArgument;
  let? membership := derive_membership base (log persistent) (commit_index persistent) l in
  fail_if (commit_index persistent <? last_included_index (snapshot persistent))
          || (commit_index persistent >? last)
          || (applied_index persistent <? last_included_index (snapshot persistent))
          || (applied_index persistent >? commit_index persistent)
          || bool_decide (voted_for persistent = Some 0) with kInvalidArgument;
  Ok (new_impl node_id base membership persistent l).

(** * Elections *)

(** The progress maps and the first empty requests of a new leader. *)
Definition initial_progress (n : Impl) : gmap Z Z * gmap Z Z :=
  fold_left (fun '(next, matched) peer =>
      (emplace next peer (u64 (last_index n + 1)),
       emplace matched peer (if peer =? id n then last_index n else 0)))
    (voters n) (∅, ∅).
Definition leadership_requests (n : Impl) (term : Term) (commit : LogIndex)
  : list OutboundMessage :=
  to_peers (voters n) (id n) (fun _ =>
    MAppendEntries {| ae_term := term; ae_leader_id := id n;
                      ae_previous_log_index := last_index n; ae_previous_log_term := last_term n;
                      ae_entries := []; ae_leader_commit := commit |}).

Definition start_election (n : Impl) : result Transition * Impl :=
  if negb (voter n (id n)) then (Err kUnavailable, n)
  else if (current_term (state n) =? max_u64) || (last_index n =? max_u64)
  then (Err kOutOfRange, n)
  else
    let prepared_state := state_term (state n) (u64 (current_term (state n) + 1)) (Some (id n)) in
    let immediate_leader :=
      config_quorum (joint n) (committed_voters n) (fun node => node =? id n) in
    let outbound :=
      if immediate_leader
      then leadership_requests n (current_term prepared_state) (commit_index prepared_state)
      else to_peers (voters n) (id n) (fun _ =>
             MRequestVote {| rv_term := current_term prepared_state; rv_candidate_id := id n;
                             rv_last_log_index := last_index n;
                             rv_last_log_term := last_term n |}) in
    let t := with_persistent (with_outbound empty_transition outbound) prepared_state in
    let progress := initial_progress n in
    let n := set_state n prepared_state in
    let n := set_role n (if immediate_leader then kLeader else kCandidate)
                        (if immediate_leader then Some (id n) else None) in
    let n := set_votes n {[ id n ]} in
    let n := set_read_barrier n None (next_read_context n) in
    let n := if immediate_leader then set_progress n (fst progress) (snd progress) else n in
    (Ok t, n).

(** * RaftNode::receive: validation *)

(** What validation of an append request leaves for the later phases. *)
Record ValidatedAppend := {
  va_log : list LogEntry; va_commit : LogIndex; va_membership : DerivedMembership }.

Definition validate_request_vote (source : NodeId) (m : RequestVoteRequest) : StatusCode :=
  if negb (rv_candidate_id m =? source)
     || negb (Bool.eqb (rv_last_log_index m =? 0) (rv_last_log_term m =? 0))
     || (rv_last_log_index m =? max_u64) || (rv_last_log_term m >? rv_term m)
  then kInvalidArgument else kOk.

(** The loop over the entries of a request. *)
Fixpoint check_entries (expected : LogIndex) (term : Term) (l : RaftLimits)
  (entries : list LogEntry) : StatusCode :=
  match entries with
  | [] => kOk
  | entry :: rest =>
      if expected =? max_u64 then kInvalidArgument
      else
        let expected := u64 (expected + 1) in
        if negb (entry_index entry =? expected) || (entry_index entry =? max_u64)
           || (entry_term entry =? 0) || (entry_term entry >? term) || (entry_type entry =? 0)
           || (blen (entry_payload entry) >? maximum_entry_bytes l) then kInvalidArgument
        else if (entry_type entry =? kLeaderNoopEntryType)
                && negb (blen (entry_payload entry) =? 0) then kInvalidArgument
        else check_entries expected term l rest
  end.

Definition validate_append_fields (n : Impl) (source : NodeId) (m : AppendEntriesRequest)
  : StatusCode :=
  if negb (ae_leader_id m =? source)
     || negb (Bool.eqb (ae_previous_log_index m =? 0) (ae_previous_log_term m =? 0))
     || (ae_previous_log_term m >? ae_term m) || (ae_leader_commit m =? max_u64)
     || (blen (ae_entries m) >? maximum_append_entries (limits n)) then kInvalidArgument
  else if ae_previous_log_index m =? max_u64 then kInvalidArgument
  else check_entries (ae_previous_log_index m) (ae_term m) (limits n) (ae_entries m).

(** The first entry that is not already in the log. *)
Fixpoint first_conflict (n : Impl) (entries : list LogEntry) (index : Z) : result (option Z) :=
  match entries with
  | [] => Ok None
  | entry :: rest =>
      let local_term := term_at n (entry_index entry) in
      if bool_decide (local_term = Some (entry_term entry)) then
        if bool_decide (log (state n) !! Z.to_nat (offset_for n (entry_index entry)) = Some entry)
        then first_conflict n rest (index + 1)
        else Err kCorruption
      else if bool_decide (local_term <> None) && (entry_index entry <=? commit_index (state n))
      then Err kCorruption
      else Ok (Some index)
  end.

Definition append_capacity (n : Impl) (entries : list LogEntry) (conflict : option Z)
  : StatusCode :=
  match conflict with
  | None => kOk
  | Some first =>
      let conflict_index := match entries !! Z.to_nat first with
                            | Some e => entry_index e
                            | None => 0
                            end in
      let retained := if conflict_index <=? last_index n then offset_for n conflict_index
                      else blen (log (state n)) in
      if retained + (blen entries - first) >? maximum_log_entries (limits n)
      then kResourceExhausted else kOk
  end.

Definition merge_entry (candidate : list LogEntry) (entry : LogEntry) : list LogEntry :=
  let candidate :=
    match list_find (fun e => entry_index e = entry_index entry) candidate with
    | Some (i, e) => if entry_term e =? entry_term entry then candidate else take i candidate
    | None => candidate
    end in
  match list_find (fun e => entry_index e = entry_index entry) candidate with
  | Some _ => candidate
  | None => candidate ++ [entry]
  end.
Definition candidate_log (local entries : list LogEntry) : list LogEntry :=
  fold_left merge_entry entries local.

Definition prospective_commit (n : Impl) (candidate : list LogEntry) (leader_commit : LogIndex)
  : LogIndex :=
  let candidate_last := match last candidate with
                        | Some e => entry_index e
                        | None => last_included_index (snapshot (state n))
                        end in
  Z.max (commit_index (state n)) (Z.min leader_commit candidate_last).

(** The request names a predecessor the node has. *)
Definition predecessor_matches (n : Impl) (m : AppendEntriesRequest) : bool :=
  bool_decide (append_predecessor_term n (ae_previous_log_index m)
               = Some (ae_previous_log_term m)).

Definition validate_append (n : Impl) (source : NodeId) (active_source : bool)
  (m : AppendEntriesRequest) : result (option ValidatedAppend) :=
  check! validate_append_fields n source m;
  if ae_term m <? current_term (state n) then
    fail_if negb active_source with kInvalidArgument; Ok None
  else if negb (predecessor_matches n m) then
    fail_if negb active_source with kInvalidArgument; Ok None
  else
    let? conflict := first_conflict n (ae_entries m) 0 in
    check! append_capacity n (ae_entries m) conflict;
    let candidate := candidate_log (log (state n)) (ae_entries m) in
    let commit := prospective_commit n candidate (ae_leader_commit m) in
    let? membership := derive_membership (base_voters n) candidate commit (limits n) in
    fail_if negb active_source && negb (is_voter (dm_active_voters membership) source)
      with kInvalidArgument;
    check! persistent_state_fits (blen (snapshot_voters (snapshot (state n)))) candidate (limits n);
    Ok (Some {| va_log := candidate; va_commit := commit; va_membership := membership |}).

Definition validate_append_response (n : Impl) (m : AppendEntriesResponse) : StatusCode :=
  if (aer_match_index m =? max_u64)
     || (aer_success m && ((aer_match_index m >? last_index n)
                           || bool_decide (aer_conflict_term m <> None)
                           || negb (aer_conflict_index m =? 0)))
     || (negb (aer_success m) && (aer_conflict_index m =? 0))
     || match aer_conflict_term m with
        | Some t => (t =? 0) || (t >? aer_term m)
        | None => false
        end
  then kInvalidArgument else kOk.

Definition validate_install (n : Impl) (source : NodeId) (m : InstallSnapshotRequest)
  : StatusCode :=
  if negb (is_leader_id m =? source) || (last_included_term (is_snapshot m) >? is_term m)
     || negb (valid_snapshot (is_snapshot m) (maximum_voters (limits n)))
  then kInvalidArgument else kOk.

Definition validate_install_response (n : Impl) (m : InstallSnapshotResponse) : StatusCode :=
  if (isr_last_included_index m =? max_u64)
     || (isr_success m && ((isr_last_included_index m =? 0)
                           || (isr_last_included_index m >? last_index n)))
  then kInvalidArgument else kOk.

(** The visitor of the validation phase. *)
Definition validate (n : Impl) (source : NodeId) (active_source : bool) (m : Message)
  : result (option ValidatedAppend) :=
  fail_if message_term m =? 0 with kInvalidArgument;
  match m with
  | MRequestVote m => check! validate_request_vote source m; Ok None
  | MRequestVoteResponse _ => Ok None
  | MAppendEntries m => validate_append n source active_source m
  | MAppendEntriesResponse m => check! validate_append_response n m; Ok None
  | MInstallSnapshot m => check! validate_install n source m; Ok None
  | MInstallSnapshotResponse m => check! validate_install_response n m; Ok None
  | MReadBarrier m =>
      fail_if negb (rb_leader_id m =? source) || (rb_context m =? 0) with kInvalidArgument; Ok None
  | MReadBarrierResponse m => fail_if rbr_context m =? 0 with kInvalidArgument; Ok None
  end.

(** * RaftNode::receive: preparation *)

(** What preparation computes for the message at hand, besides the transition. *)
Record PreparedCommit := {
  pc_state : PersistentState; pc_membership : DerivedMembership; pc_step_down : bool }.
Inductive Prepared :=
| PVote (granted : bool)
| PVoteResponse (p : option (gset Z * option (gmap Z Z * gmap Z Z)))
| PAppend (accepted : option DerivedMembership) (prepared_state : option PersistentState)
| PAppendResponse (p : option (gmap Z Z * gmap Z Z * option PreparedCommit))
| PInstall (prepared_state : option PersistentState) (fresh : option InstallSnapshotRequest)
| PInstallResponse (p : option (gmap Z Z * gmap Z Z))
| PReadBarrier
| PReadBarrierResponse.

Definition one (source : NodeId) (m : Message) : list OutboundMessage :=
  [{| destination := source; message := m |}].

(** The state a higher term installs. *)
Definition observe_term (s : PersistentState) (term : Term) : PersistentState :=
  if term >? current_term s then state_term s term None else s.

Definition vote_granted (n : Impl) (source : NodeId) (m : RequestVoteRequest) : bool :=
  let prospective_term := Z.max (current_term (state n)) (rv_term m) in
  let prospective_vote := if rv_term m >? current_term (state n) then None
                          else voted_for (state n) in
  voter n (id n) && (rv_term m =? prospective_term)
  && match prospective_vote with None => true | Some v => v =? source end
  && candidate_log_is_current n (rv_last_log_index m) (rv_last_log_term m).

Definition prepare_vote (n : Impl) (source : NodeId) (m : RequestVoteRequest)
  : Transition * Prepared :=
  let granted := vote_granted n source m in
  (with_outbound empty_transition
     (one source (MRequestVoteResponse
        {| rvr_term := Z.max (current_term (state n)) (rv_term m); rvr_granted := granted |})),
   PVote granted).

Definition prepare_vote_response (n : Impl) (source : NodeId) (m : RequestVoteResponse)
  : Transition * Prepared :=
  if (rvr_term m =? current_term (state n)) && bool_decide (role n = kCandidate) && rvr_granted m
  then
    let prepared_votes := {[ source ]} ∪ votes n in
    let quorum := config_quorum (joint n) (committed_voters n)
                    (fun node => bool_decide (node ∈ prepared_votes)) in
    if quorum
    then (with_outbound empty_transition
            (leadership_requests n (current_term (state n)) (commit_index (state n))),
          PVoteResponse (Some (prepared_votes, Some (initial_progress n))))
    else (empty_transition, PVoteResponse (Some (prepared_votes, None)))
  else (empty_transition, PVoteResponse None).

(** The loop that walks back to the first index of the conflicting term. *)
Fixpoint conflict_start (n : Impl) (fuel : nat) (conflict_index : LogIndex) (term : option Term)
  : LogIndex :=
  match fuel with
  | O => conflict_index
  | S fuel =>
      if (conflict_index >? u64 (last_included_index (snapshot (state n)) + 1))
         && bool_decide (term_at n (u64 (conflict_index - 1)) = term)
      then conflict_start n fuel (u64 (conflict_index - 1)) term
      else conflict_index
  end.

Definition append_rejection (n : Impl) (m : AppendEntriesRequest) : AppendEntriesResponse :=
  let previous_term := append_predecessor_term n (ae_previous_log_index m) in
  {| aer_term := ae_term m; aer_success := false; aer_match_index := last_index n;
     aer_conflict_term := previous_term;
     aer_conflict_index :=
       match previous_term with
       | Some _ => conflict_start n (Z.to_nat (ae_previous_log_index m))
                     (ae_previous_log_index m) previous_term
       | None => u64 (last_index n + 1)
       end |}.

(** An accepted request: the new persistent state, where it differs. *)
Definition append_accept (n : Impl) (m : AppendEntriesRequest) (v : ValidatedAppend)
  : option PersistentState :=
  let term_changed := ae_term m >? current_term (state n) in
  let log_changed := negb (bool_decide (va_log v = log (state n))) in
  let commit_changed := va_commit v >? commit_index (state n) in
  if term_changed || log_changed || commit_changed then
    Some (state_commit (state_log
            (state_term (state n) (ae_term m)
               (if term_changed then None else voted_for (state n))) (va_log v)) (va_commit v))
  else None.

Definition with_optional_persistent (t : Transition) (s : option PersistentState) : Transition :=
  match s with Some s => with_persistent t s | None => t end.

Definition prepare_append (n : Impl) (source : NodeId) (m : AppendEntriesRequest)
  (v : option ValidatedAppend) : result (Transition * Prepared) :=
  if ae_term m <? current_term (state n) then
    Ok (with_outbound empty_transition (one source (MAppendEntriesResponse
          {| aer_term := current_term (state n); aer_success := false;
             aer_match_index := last_index n; aer_conflict_term := None;
             aer_conflict_index := u64 (last_index n + 1) |})), PAppend None None)
  else if negb (predecessor_matches n m) then
    let t := with_outbound empty_transition
               (one source (MAppendEntriesResponse (append_rejection n m))) in
    if ae_term m >? current_term (state n) then
      let s := state_term (state n) (ae_term m) None in
      Ok (with_persistent t s, PAppend None (Some s))
    else Ok (t, PAppend None None)
  else
    match v with
    | None => Err kCorruption
    | Some v =>
        let s := append_accept n m v in
        let t := with_optional_persistent empty_transition s in
        let t := if va_commit v >? commit_index (state n) then with_commit t (va_commit v) else t in
        let accepted := match last (ae_entries m) with
                        | Some e => entry_index e
                        | None => ae_previous_log_index m
                        end in
        let t := with_outbound t (one source (MAppendEntriesResponse
                   {| aer_term := ae_term m; aer_success := true; aer_match_index := accepted;
                      aer_conflict_term := None; aer_conflict_index := 0 |})) in
        Ok (t, PAppend (Some (va_membership v)) s)
    end.

(** A successful response: raise the peer's progress and commit what a quorum has. *)
Definition prepare_append_success (n : Impl) (source : NodeId) (matched_source : LogIndex)
  (m : AppendEntriesResponse) : result (Transition * Prepared) :=
  let raised := Z.max matched_source (aer_match_index m) in
  let matched := <[source := raised]> (match_index n) in
  let next := <[source := u64 (raised + 1)]> (next_index n) in
  let quorum candidate := config_quorum (joint n) (committed_voters n) (replicated matched candidate) in
  match commit_candidate n quorum with
  | Some commit =>
      match derive_membership (base_voters n) (log (state n)) commit (limits n) with
      | Err s => Err s
      | Ok membership =>
          let prepared_state := state_commit (state n) commit in
          let vs := dm_active_voters membership in
          let '(next, matched) := rebuild_progress (id n) (last_index n) vs next matched in
          let t := with_outbound empty_transition
                     (to_peers vs (id n) (fun peer => replication_for_with n peer next commit)) in
          let t := with_persistent (with_commit t commit) prepared_state in
          Ok (t, PAppendResponse (Some (next, matched,
                   Some {| pc_state := prepared_state; pc_membership := membership;
                           pc_step_down := negb (is_voter vs (id n)) |})))
      end
  | None =>
      let t := if u64 (raised + 1) <=? last_index n
               then with_outbound empty_transition (one source
                      (replication_for_with n source next (commit_index (state n))))
               else empty_transition in
      Ok (t, PAppendResponse (Some (next, matched, None)))
  end.

(** The last entry of the term a follower reported, as the next index. *)
Definition next_after_conflict (n : Impl) (m : AppendEntriesResponse) : LogIndex :=
  let next := if aer_conflict_index m =? 0 then 1 else aer_conflict_index m in
  match aer_conflict_term m with
  | None => next
  | Some t =>
      match list_find (fun e => entry_term e = t) (reverse (log (state n))) with
      | Some (_, e) => u64 (entry_index e + 1)
      | None => next
      end
  end.

Definition prepare_append_failure (n : Impl) (source : NodeId) (m : AppendEntriesResponse)
  : Transition * Prepared :=
  let next_source := Z.max 1 (Z.min (next_after_conflict n m) (u64 (last_index n + 1))) in
  let next := <[source := next_source]> (next_index n) in
  (with_outbound empty_transition
     (one source (replication_for_with n source next (commit_index (state n)))),
   PAppendResponse (Some (next, match_index n, None))).

Definition prepare_append_response (n : Impl) (source : NodeId) (m : AppendEntriesResponse)
  : result (Transition * Prepared) :=
  if (aer_term m =? current_term (state n)) && bool_decide (role n = kLeader) then
    match next_index n !! source, match_index n !! source with
    | Some _, Some matched =>
        if aer_success m then prepare_append_success n source matched m
        else Ok (prepare_append_failure n source m)
    | _, _ => Err kCorruption
    end
  else Ok (empty_transition, PAppendResponse None).

Definition install_reply (source : NodeId) (term : Term) (success : bool) (index : LogIndex)
  : list OutboundMessage :=
  one source (MInstallSnapshotResponse
    {| isr_term := term; isr_success := success; isr_last_included_index := index |}).

Definition prepare_install (n : Impl) (source : NodeId) (m : InstallSnapshotRequest)
  : Transition * Prepared :=
  let have := last_included_index (snapshot (state n)) in
  if is_term m <? current_term (state n) then
    (with_outbound empty_transition (install_reply source (current_term (state n)) false have),
     PInstall None None)
  else
    let s := if is_term m >? current_term (state n)
             then Some (state_term (state n) (is_term m) None) else None in
    let t := with_optional_persistent empty_transition s in
    if last_included_index (is_snapshot m) <=? have then
      (with_outbound t (install_reply source (is_term m) true have), PInstall s None)
    else
      match pending_snapshot n with
      | Some pending =>
          (if bool_decide (pending = m) then t
           else with_outbound t (install_reply source (is_term m) false have),
           PInstall s None)
      | None =>
          (with_install t {| install_source := source; install_snapshot := is_snapshot m |},
           PInstall s (Some m))
      end.

Definition prepare_install_response (n : Impl) (source : NodeId) (m : InstallSnapshotResponse)
  : result (Transition * Prepared) :=
  if (isr_term m =? current_term (state n)) && bool_decide (role n = kLeader) then
    match next_index n !! source, match_index n !! source with
    | Some _, Some matched =>
        let raised := Z.max matched (isr_last_included_index m) in
        let '(next, matched) :=
          if isr_success m
          then (<[source := u64 (raised + 1)]> (next_index n), <[source := raised]> (match_index n))
          else (next_index n, match_index n) in
        Ok (with_outbound empty_transition
              (one source (replication_for_with n source next (commit_index (state n)))),
            PInstallResponse (Some (next, matched)))
    | _, _ => Err kCorruption
    end
  else Ok (empty_transition, PInstallResponse None).

(** The persistent state of a message that is neither an append nor an install
    request: a newer term, and a vote that is granted. *)
Definition prepare_persistence (n : Impl) (source : NodeId) (m : Message) (granted : bool)
  (t : Transition) : Transition :=
  if (message_term m >? current_term (state n)) || granted then
    let s := observe_term (state n) (message_term m) in
    with_persistent t (if granted then state_term s (current_term s) (Some source) else s)
  else t.

Definition prepare (n : Impl) (source : NodeId) (m : Message) (v : option ValidatedAppend)
  : result (Transition * Prepared) :=
  match m with
  | MRequestVote r =>
      let '(t, p) := prepare_vote n source r in
      Ok (prepare_persistence n source m (vote_granted n source r) t, p)
  | MRequestVoteResponse r =>
      let '(t, p) := prepare_vote_response n source r in
      Ok (prepare_persistence n source m false t, p)
  | MAppendEntries r => prepare_append n source r v
  | MAppendEntriesResponse r =>
      let? tp := prepare_append_response n source r in
      let '(t, p) := tp in Ok (prepare_persistence n source m false t, p)
  | MInstallSnapshot r => Ok (prepare_install n source r)
  | MInstallSnapshotResponse r =>
      let? tp := prepare_install_response n source r in
      let '(t, p) := tp in Ok (prepare_persistence n source m false t, p)
  | MReadBarrier _ => Ok (prepare_persistence n source m false empty_transition, PReadBarrier)
  | MReadBarrierResponse _ =>
      Ok (prepare_persistence n source m false empty_transition, PReadBarrierResponse)
  end.

(** * RaftNode::receive: application *)

(** The visitor that applies a prepared message: the status, whether persistent
    state changed, the transition and the node. *)
Definition Applied : Type := StatusCode * bool * Transition * Impl.

Definition apply_vote (n : Impl) (source : NodeId) (granted changed : bool) (t : Transition)
  : Applied :=
  if granted then
    let n := set_state n (state_term (state n) (current_term (state n)) (Some source)) in
    (kOk, true, t, set_role n kFollower None)
  else (kOk, changed, t, n).

Definition apply_vote_response (n : Impl) (m : RequestVoteResponse)
  (p : option (gset Z * option (gmap Z Z * gmap Z Z))) (changed : bool) (t : Transition)
  : Applied :=
  if (rvr_term m <? current_term (state n)) || negb (bool_decide (role n = kCandidate))
     || negb (rvr_term m =? current_term (state n)) then (kOk, changed, t, n)
  else if rvr_granted m then
    match p with
    | None => (kCorruption, changed, t, n)
    | Some (prepared_votes, quorum) =>
        let n := set_votes n prepared_votes in
        match quorum with
        | None => (kOk, changed, t, n)
        | Some (next, matched) =>
            let n := set_role n kLeader (Some (id n)) in
            let n := set_progress n next matched in
            (kOk, changed, t, set_read_barrier n None (next_read_context n))
        end
    end
  else (kOk, changed, t, n).

Definition apply_append (n : Impl) (source : NodeId) (m : AppendEntriesRequest)
  (accepted : option DerivedMembership) (prepared_state : option PersistentState)
  (changed : bool) (t : Transition) : Applied :=
  if ae_term m <? current_term (state n) then (kOk, changed, t, n)
  else
    let changed := changed || bool_decide (prepared_state <> None) in
    let n := match prepared_state with Some s => set_state n s | None => n end in
    let n := become_follower n (ae_term m) (Some source) in
    let n := match accepted with Some d => install_membership n d | None => n end in
    (kOk, changed, t, n).

Definition apply_append_response (n : Impl) (m : AppendEntriesResponse)
  (p : option (gmap Z Z * gmap Z Z * option PreparedCommit)) (changed : bool) (t : Transition)
  : Applied :=
  if (aer_term m <? current_term (state n)) || negb (bool_decide (role n = kLeader))
     || negb (aer_term m =? current_term (state n)) then (kOk, changed, t, n)
  else
    match p with
    | None => (kCorruption, changed, t, n)
    | Some (next, matched, commit) =>
        let n := set_progress n next matched in
        match commit with
        | None => (kOk, changed, t, n)
        | Some c =>
            let n := set_state n (pc_state c) in
            let n := set_membership n (pc_membership c) in
            (kOk, true, t,
             if pc_step_down c then become_follower n (current_term (state n)) None else n)
        end
    end.

Definition apply_install (n : Impl) (source : NodeId) (m : InstallSnapshotRequest)
  (prepared_state : option PersistentState) (fresh : option InstallSnapshotRequest)
  (changed : bool) (t : Transition) : Applied :=
  if is_term m <? current_term (state n) then (kOk, changed, t, n)
  else
    let changed := changed || bool_decide (prepared_state <> None) in
    let n := match prepared_state with Some s => set_state n s | None => n end in
    let n := become_follower n (is_term m) (Some source) in
    let n := match fresh with Some r => set_pending_snapshot n (Some r) | None => n end in
    (kOk, changed, t, n).

Definition apply_install_response (n : Impl) (m : InstallSnapshotResponse)
  (p : option (gmap Z Z * gmap Z Z)) (changed : bool) (t : Transition) : Applied :=
  if (isr_term m <? current_term (state n)) || negb (bool_decide (role n = kLeader))
     || negb (isr_term m =? current_term (state n)) then (kOk, changed, t, n)
  else
    match p with
    | None => (kCorruption, changed, t, n)
    | Some (next, matched) =>
        (kOk, changed, t, if isr_success m then set_progress n next matched else n)
    end.

Definition apply_read_barrier (n : Impl) (source : NodeId) (m : ReadBarrierRequest)
  (changed : bool) (t : Transition) : Applied :=
  let accepted := rb_term m =? current_term (state n) in
  let n := if accepted then become_follower n (rb_term m) (Some source) else n in
  (kOk, changed,
   with_outbound t (one source (MReadBarrierResponse
     {| rbr_term := current_term (state n); rbr_context := rb_context m;
        rbr_accepted := accepted |})), n).

Definition acknowledge (p : PendingReadBarrier) (source : NodeId) : PendingReadBarrier :=
  {| prb_term := prb_term p; prb_context := prb_context p; prb_read_index := prb_read_index p;
     prb_old_voters := prb_old_voters p; prb_new_voters := prb_new_voters p;
     prb_acknowledgements := {[ source ]} ∪ prb_acknowledgements p |}.

Definition apply_read_barrier_response (n : Impl) (source : NodeId) (m : ReadBarrierResponse)
  (changed : bool) (t : Transition) : Applied :=
  match pending_read_barrier n with
  | Some p =>
      if (rbr_term m <? current_term (state n)) || negb (bool_decide (role n = kLeader))
         || negb (rbr_term m =? current_term (state n)) || negb (rbr_accepted m)
         || negb (rbr_context m =? prb_context p) || negb (rbr_term m =? prb_term p)
      then (kOk, changed, t, n)
      else
        let n := set_read_barrier n (Some (acknowledge p source)) (next_read_context n) in
        let '(t, n) := finish_read_barrier n t in
        (kOk, changed, t, n)
  | None => (kOk, changed, t, n)
  end.

Definition apply (n : Impl) (source : NodeId) (m : Message) (p : Prepared) (changed : bool)
  (t : Transition) : Applied :=
  match m, p with
  | MRequestVote _, PVote granted => apply_vote n source granted changed t
  | MRequestVoteResponse r, PVoteResponse p => apply_vote_response n r p changed t
  | MAppendEntries r, PAppend accepted s => apply_append n source r accepted s changed t
  | MAppendEntriesResponse r, PAppendResponse p => apply_append_response n r p changed t
  | MInstallSnapshot r, PInstall s fresh => apply_install n source r s fresh changed t
  | MInstallSnapshotResponse r, PInstallResponse p => apply_install_response n r p changed t
  | MReadBarrier r, PReadBarrier => apply_read_barrier n source r changed t
  | MReadBarrierResponse r, PReadBarrierResponse => apply_read_barrier_response n source r changed t
  | _, _ => (kCorruption, changed, t, n)
  end.

Definition learner_replication_request (m : Message) : bool :=
  match m with MAppendEntries _ | MInstallSnapshot _ => true | _ => false end.

(** The last two steps of [receive]. *)
Definition finish_receive (applied : Applied) : result Transition * Impl :=
  let '(status, changed, t, n) := applied in
  if is_ok status then
    (Ok (if changed && bool_decide (persistent_state t = None)
         then with_persistent t (state n) else t), n)
  else (make_unexpected status, n).

Definition receive (n : Impl) (source : NodeId) (m : Message) : result Transition * Impl :=
  let active_source := voter n source in
  if (source =? 0) || (source =? id n)
     || (negb active_source && negb (learner_replication_request m))
  then (Err kInvalidArgument, n)
  else
    match validate n source active_source m with
    | Err s => (make_unexpected s, n)
    | Ok v =>
        match prepare n source m v with
        | Err s => (make_unexpected s, n)
        | Ok (t, p) =>
            let newer := message_term m >? current_term (state n) in
            let n := if newer then become_follower n (message_term m) None else n in
            finish_receive (apply n source m p newer t)
        end
    end.

(** * Proposals *)

(** [prepared = *impl_; appended = ...; *impl_ = prepared]: a failing append
    leaves the node as it was. *)
Definition install_prepared (n : Impl) (r : result Transition * Impl) : result Transition * Impl :=
  match r with
  | (Ok t, prepared) => (Ok t, prepared)
  | (Err s, _) => (make_unexpected s, n)
  end.

Definition log_full (n : Impl) : bool :=
  (blen (log (state n)) >=? maximum_log_entries (limits n)) || (last_index n >=? max_u64 - 1).

Definition propose (n : Impl) (type : Z) (payload : list byte) : result Transition * Impl :=
  if negb (bool_decide (role n = kLeader)) then (Err kUnavailable, n)
  else if (type =? 0) || is_internal_raft_entry_type type
          || (blen payload >? maximum_entry_bytes (limits n)) || log_full n
  then (Err kInvalidArgument, n)
  else
    let fits := appended_entry_fits (state n) (blen payload) (limits n) in
    if negb (is_ok fits) then (make_unexpected fits, n)
    else install_prepared n (append_local_entry n type payload).

Definition commit_current_term (n : Impl) : result Transition * Impl :=
  if negb (bool_decide (role n = kLeader)) then (Err kUnavailable, n)
  else if existsb (fun e => entry_term e =? current_term (state n)) (log (state n))
  then (Ok empty_transition, n)
  else if log_full n then (Err kInvalidArgument, n)
  else
    let fits := appended_entry_fits (state n) 0 (limits n) in
    if negb (is_ok fits) then (make_unexpected fits, n)
    else install_prepared n (append_local_entry n kLeaderNoopEntryType []).

(** The scan for an identical retained command: [Some true] when one is already
    committed or of the current term, [Some false] when only older ones exist. *)
Fixpoint retained_match (n : Impl) (type : Z) (payload : list byte) (prior : bool)
  (entries : list LogEntry) : option bool :=
  match entries with
  | [] => if prior then Some false else None
  | entry :: rest =>
      if negb (entry_type entry =? type) || negb (bool_decide (entry_payload entry = payload))
      then retained_match n type payload prior rest
      else if (entry_index entry <=? commit_index (state n))
              || (entry_term entry =? current_term (state n)) then Some true
      else retained_match n type payload true rest
  end.

Definition propose_exact_retained (n : Impl) (type : Z) (payload : list byte)
  : result Transition * Impl :=
  if negb (bool_decide (role n = kLeader)) then (Err kUnavailable, n)
  else if (type =? 0) || is_internal_raft_entry_type type
          || (blen payload >? maximum_entry_bytes (limits n)) then (Err kInvalidArgument, n)
  else
    match retained_match n type payload false (log (state n)) with
    | Some true => (Ok empty_transition, n)
    | Some false => commit_current_term n
    | None => propose n type payload
    end.

(** * Membership changes *)

(** The tail both membership commands share: encode, bound, append. *)
Definition append_command (n : Impl) (type : Z) (command : MembershipCommand)
  : result Transition * Impl :=
  match encode_membership_command_v1 command (maximum_voters (limits n)) with
  | Err s => (make_unexpected s, n)
  | Ok payload =>
      if blen payload >? maximum_entry_bytes (limits n) then (Err kInvalidArgument, n)
      else
        let fits := appended_entry_fits (state n) (blen payload) (limits n) in
        if negb (is_ok fits) then (make_unexpected fits, n)
        else install_prepared n (append_membership_entry n type payload)
  end.

Definition begin_membership_change (n : Impl) (new_voters : list NodeId)
  : result Transition * Impl :=
  if negb (bool_decide (role n = kLeader)) then (Err kUnavailable, n)
  else if bool_decide (pending_read_barrier n <> None) then (Err kUnavailable, n)
  else
    let new_voters := sort_voters new_voters in
    match joint n with
    | Some j =>
        if bool_decide (joint_old_voters j = committed_voters n)
           && bool_decide (joint_new_voters j = new_voters) then
          if (joint_index j <=? commit_index (state n))
             || bool_decide (term_at n (joint_index j) = Some (current_term (state n)))
          then (Ok empty_transition, n) else commit_current_term n
        else (Err kInvalidArgument, n)
    | None =>
        if negb (valid_voters new_voters (maximum_voters (limits n)))
           || bool_decide (new_voters = committed_voters n)
           || (blen (voter_union (committed_voters n) new_voters) >? maximum_voters (limits n))
           || log_full n
        then (Err kInvalidArgument, n)
        else append_command n kJointMembershipEntryType
               (Joint {| jm_old_voters := committed_voters n; jm_new_voters := new_voters |})
    end.

Definition finalize_membership_change (n : Impl) : result Transition * Impl :=
  if negb (bool_decide (role n = kLeader)) then (Err kUnavailable, n)
  else if bool_decide (pending_read_barrier n <> None) then (Err kUnavailable, n)
  else
    match joint n with
    | None => (Err kInvalidArgument, n)
    | Some j =>
        if final_pending j then
          match list_find (fun e => entry_type e = kFinalMembershipEntryType)
                  (reverse (log (state n))) with
          | Some (_, e) =>
              if (entry_index e <=? commit_index (state n))
                 || (entry_term e =? current_term (state n))
              then (Ok empty_transition, n) else commit_current_term n
          | None => commit_current_term n
          end
        else if (joint_index j >? commit_index (state n)) || log_full n
        then (Err kInvalidArgument, n)
        else append_command n kFinalMembershipEntryType
               (Final {| fm_joint_index := joint_index j; fm_new_voters := joint_new_voters j |})
    end.

(** * Snapshots *)

(** The log that survives an installed snapshot. *)
Definition retained_after (n : Impl) (s : SnapshotMetadata) : list LogEntry :=
  if bool_decide (term_at n (last_included_index s) = Some (last_included_term s))
     && (last_included_index s <? last_index n)
  then drop (Z.to_nat (u64 (offset_for n (last_included_index s) + 1))) (log (state n))
  else [].

(** The installed state and membership, or why the installation fails. *)
Definition prepare_completion (n : Impl) (s : SnapshotMetadata)
  : result (PersistentState * DerivedMembership) :=
  fail_if (last_included_index s <? commit_index (state n))
          && negb (bool_decide (term_at n (last_included_index s) = Some (last_included_term s)))
    with kCorruption;
  let retained := retained_after n s in
  let new_commit := Z.max (commit_index (state n)) (last_included_index s) in
  let? membership := derive_membership (snapshot_voters s) retained new_commit (limits n) in
  check! persistent_state_fits (blen (snapshot_voters s)) retained (limits n);
  let p := state_commit (state_log (state_snapshot (state n) s) retained) new_commit in
  Ok (state_applied p (Z.max (applied_index p) (last_included_index s)), membership).

Definition complete_snapshot_install (n : Impl) (source : NodeId) (s : SnapshotMetadata)
  (installed : bool) : result Transition * Impl :=
  match pending_snapshot n with
  | None => (Err kInvalidArgument, n)
  | Some pending =>
      if negb (source =? is_leader_id pending) || negb (bool_decide (s = is_snapshot pending))
      then (Err kInvalidArgument, n)
      else if negb installed || negb (is_term pending =? current_term (state n)) then
        (Ok (with_outbound empty_transition (install_reply source (current_term (state n)) false
               (last_included_index (snapshot (state n))))),
         set_pending_snapshot n None)
      else
        match prepare_completion n s with
        | Err e => (make_unexpected e, n)
        | Ok (p, membership) =>
            let t := with_commit (with_persistent empty_transition p) (commit_index p) in
            let t := with_outbound t (install_reply source (current_term p) true
                                        (last_included_index (snapshot p))) in
            let n := set_pending_snapshot n None in
            let n := set_state n p in
            let n := set_base_voters n (snapshot_voters s) in
            (Ok t, set_membership n membership)
        end
  end.

(** The index of the last final-membership entry of a prefix. *)
Definition last_configuration (start : LogIndex) (entries : list LogEntry) : LogIndex :=
  fold_left (fun acc e => if entry_type e =? kFinalMembershipEntryType
                          then entry_index e else acc) entries start.

Definition prepare_snapshot_metadata (n : Impl) (s : SnapshotMetadata) : result SnapshotMetadata :=
  fail_if bool_decide (pending_snapshot n <> None) with kUnavailable;
  fail_if bool_decide (joint n <> None)
          || (last_included_index s <=? last_included_index (snapshot (state n)))
          || (last_included_index s >? applied_index (state n))
          || (last_included_term s =? 0) || (manifest_generation s =? 0)
          || negb (bool_decide (term_at n (last_included_index s) = Some (last_included_term s)))
    with kInvalidArgument;
  let retained_offset := u64 (offset_for n (last_included_index s) + 1) in
  let covered := first (log (state n)) retained_offset in
  let? checkpoint := derive_membership (base_voters n) covered (last_included_index s) (limits n) in
  fail_if bool_decide (dm_joint checkpoint <> None) with kInvalidArgument;
  let prepared :=
    {| last_included_index := last_included_index s; last_included_term := last_included_term s;
       manifest_generation := manifest_generation s; part_set_checksum := part_set_checksum s;
       configuration_index :=
         last_configuration (configuration_index (snapshot (state n))) covered;
       snapshot_voters := dm_committed_voters checkpoint |} in
  fail_if negb (valid_snapshot prepared (maximum_voters (limits n))) with kInvalidArgument;
  check! persistent_state_fits (blen (snapshot_voters prepared))
           (drop (Z.to_nat retained_offset) (log (state n))) (limits n);
  Ok prepared.

Definition compact_snapshot (n : Impl) (s : SnapshotMetadata) : result Transition * Impl :=
  match prepare_snapshot_metadata n s with
  | Err e => (make_unexpected e, n)
  | Ok prepared =>
      let retained_offset := u64 (offset_for n (last_included_index prepared) + 1) in
      let p := state_snapshot (state_log (state n)
                 (drop (Z.to_nat retained_offset) (log (state n)))) prepared in
      let n := set_state n p in
      (Ok (with_persistent empty_transition p), set_base_voters n (snapshot_voters prepared))
  end.

(** * Heartbeats, read barriers, application *)

Definition heartbeat (n : Impl) : result Transition * Impl :=
  if negb (bool_decide (role n = kLeader)) then (Err kUnavailable, n)
  else (Ok (append_to_all n empty_transition), n).

Definition begin_read_barrier (n : Impl) : result Transition * Impl :=
  if negb (bool_decide (role n = kLeader)) then (Err kUnavailable, n)
  else if bool_decide (pending_read_barrier n <> None) then (Err kUnavailable, n)
  else if (commit_index (state n) =? 0)
          || negb (bool_decide (term_at n (commit_index (state n))
                                = Some (current_term (state n))))
  then (Err kUnavailable, n)
  else if next_read_context n =? 0 then (Err kOutOfRange, n)
  else
    let context := next_read_context n in
    let next_context := if context =? max_u64 then 0 else u64 (context + 1) in
    let '(old_voters, new_voters) :=
      match joint n with
      | Some j => (joint_old_voters j, joint_new_voters j)
      | None => (committed_voters n, [])
      end in
    let pending := {| prb_term := current_term (state n); prb_context := context;
                      prb_read_index := commit_index (state n);
                      prb_old_voters := old_voters; prb_new_voters := new_voters;
                      prb_acknowledgements := {[ id n ]} |} in
    if read_barrier_quorum pending then
      (Ok (with_read_barrier empty_transition
             {| barrier_term := prb_term pending; barrier_context := prb_context pending;
                barrier_read_index := prb_read_index pending |}),
       set_read_barrier n (pending_read_barrier n) next_context)
    else
      (Ok (with_outbound empty_transition (to_peers (voters n) (id n) (fun _ =>
             MReadBarrier {| rb_term := current_term (state n); rb_leader_id := id n;
                             rb_context := context |}))),
       set_read_barrier n (Some pending) next_context).

Definition mark_applied (n : Impl) (index : LogIndex) : result Transition * Impl :=
  if (index <? applied_index (state n)) || (index >? commit_index (state n))
  then (Err kInvalidArgument, n)
  else if index =? applied_index (state n) then (Ok empty_transition, n)
  else
    let p := state_applied (state n) index in
    (Ok (with_persistent empty_transition p), set_state n p).

Definition committed_unapplied (n : Impl) : list LogEntry :=
  if applied_index (state n) >=? commit_index (state n) then []
  else
    let first := u64 (applied_index (state n) + 1) in
    subspan (log (state n)) (offset_for n first)
      (commit_index (state n) - applied_index (state n)).

(** ** Accessors with logic of their own *)

Definition joint_membership_active (n : Impl) : bool := bool_decide (joint n <> None).
Definition joint_membership_can_finalize (n : Impl) : bool :=
  match joint n with
  | None => false
  | Some j => negb (final_pending j) && (joint_index j <=? commit_index (state n))
  end.
Definition final_membership_pending (n : Impl) : bool :=
  match joint n with Some j => final_pending j | None => false end.

(** * Operations of a node *)

(** The calls a runtime may make, in one type: the steps of the state machine. *)
Inductive Operation :=
| OpStartElection
| OpReceive (source : NodeId) (m : Message)
| OpPropose (type : Z) (payload : list byte)
| OpProposeExactRetained (type : Z) (payload : list byte)
| OpCommitCurrentTerm
| OpBeginMembershipChange (new_voters : list NodeId)
| OpFinalizeMembershipChange
| OpCompleteSnapshotInstall (source : NodeId) (s : SnapshotMetadata) (installed : bool)
| OpCompactSnapshot (s : SnapshotMetadata)
| OpHeartbeat
| OpBeginReadBarrier
| OpMarkApplied (index : LogIndex).

Definition run (op : Operation) (n : Impl) : result Transition * Impl :=
  match op with
  | OpStartElection => start_election n
  | OpReceive source m => receive n source m
  | OpPropose type payload => propose n type payload
  | OpProposeExactRetained type payload => propose_exact_retained n type payload
  | OpCommitCurrentTerm => commit_current_term n
  | OpBeginMembershipChange vs => begin_membership_change n vs
  | OpFinalizeMembershipChange => finalize_membership_change n
  | OpCompleteSnapshotInstall source s installed => complete_snapshot_install n source s installed
  | OpCompactSnapshot s => compact_snapshot n s
  | OpHeartbeat => heartbeat n
  | OpBeginReadBarrier => begin_read_barrier n
  | OpMarkApplied index => mark_applied n index
  end.
