(* ===== verification/RaftFacts.v ===== *)
(** Facts about the pieces of the Raft node: log positions, the merge of an
    append request into the log, the derived membership, the progress maps, the
    commit scan and quorum intersection. *)
From S2P Require Import Prelude Bytes RaftTypes RaftMembership RaftNode.

(** * Contiguous logs *)

Definition entry_ok (lim : RaftLimits) (term : Term) (e : LogEntry) : Prop :=
  1 <= entry_term e <= term /\ entry_type e <> 0 /\
  blen (entry_payload e) <= maximum_entry_bytes lim /\
  (entry_type e = kLeaderNoopEntryType -> entry_payload e = []).

(** The entry at position [i] has index [snap + 1 + i]. *)
Definition contiguous (snap : LogIndex) (l : list LogEntry) : Prop :=
  forall i e, l !! i = Some e -> entry_index e = snap + 1 + Z.of_nat i.

Lemma contiguous_take snap l k : contiguous snap l -> contiguous snap (take k l).
Proof. intros H i e Hi. apply lookup_take_Some in Hi as [Hi _]. by apply H. Qed.

Lemma contiguous_drop snap l k :
  contiguous snap l -> contiguous (snap + Z.of_nat k) (drop k l).
Proof.
  intros H i e Hi. rewrite lookup_drop in Hi. apply H in Hi. rewrite Hi. lia.
Qed.

Lemma contiguous_app snap a b :
  contiguous snap a -> contiguous (snap + blen a) b -> contiguous snap (a ++ b).
Proof.
  intros Ha Hb i e Hi. apply lookup_app_Some in Hi as [Hi|[Hl Hi]]; [by apply Ha|].
  apply Hb in Hi. rewrite Hi. lia.
Qed.

Lemma contiguous_last snap l :
  contiguous snap l ->
  match last l with Some e => entry_index e | None => snap end = snap + blen l.
Proof.
  intros H. destruct (last l) as [e|] eqn:E.
  - destruct l as [|a l]; [done|]. rewrite last_lookup in E. apply H in E. rewrite E.
    cbn [length Nat.pred]. lia.
  - apply last_None in E as ->. cbn. lia.
Qed.

Lemma list_find_contiguous snap l i index :
  contiguous snap l -> index = snap + 1 + Z.of_nat i ->
  list_find (fun e => entry_index e = index) l = (fun e => (i, e)) <$> l !! i.
Proof.
  intros H ->. destruct (l !! i) as [e|] eqn:E; cbn.
  - apply list_find_Some. split_and!; [done | by apply H |].
    intros j y Hj Hlt Hy. apply H in Hj. lia.
  - apply list_find_None. rewrite Forall_forall. intros e He Hi.
    apply list_elem_of_lookup in He as [j Hj]. pose proof (H _ _ Hj) as Hj'.
    assert (j = i) as -> by lia. congruence.
Qed.

(** ** Merging a request into the log *)

Lemma merge_entry_same snap l i e0 e :
  contiguous snap l -> l !! i = Some e0 -> entry_index e = snap + 1 + Z.of_nat i ->
  entry_term e0 = entry_term e -> merge_entry l e = l.
Proof.
  intros H Hi He Ht. unfold merge_entry.
  rewrite (list_find_contiguous snap l i) by done. rewrite Hi. cbn.
  rewrite Ht, Z.eqb_refl. rewrite (list_find_contiguous snap l i) by done. by rewrite Hi.
Qed.

Lemma merge_entry_replace snap l i e :
  contiguous snap l -> (i <= length l)%nat -> entry_index e = snap + 1 + Z.of_nat i ->
  (forall e0, l !! i = Some e0 -> entry_term e0 <> entry_term e) ->
  merge_entry l e = take i l ++ [e].
Proof.
  intros H Hle He Hne. unfold merge_entry.
  rewrite (list_find_contiguous snap l i) by done.
  destruct (l !! i) as [e0|] eqn:Hi; cbn.
  - rewrite (proj2 (Z.eqb_neq _ _)) by (by apply Hne).
    rewrite (list_find_contiguous snap _ i) by (try apply contiguous_take; done).
    rewrite lookup_take_ge by lia. done.
  - rewrite (list_find_contiguous snap l i) by done. rewrite Hi. cbn.
    apply lookup_ge_None in Hi. by rewrite take_ge by lia.
Qed.

Lemma candidate_log_append snap es : forall l,
  contiguous snap l -> contiguous (snap + blen l) es -> candidate_log l es = l ++ es.
Proof.
  induction es as [|e es IH]; intros l Hl Hes; [by rewrite app_nil_r|].
  unfold candidate_log in *. cbn [fold_left].
  assert (He : entry_index e = snap + 1 + blen l) by (rewrite (Hes 0%nat e) by done; lia).
  assert (Hm : merge_entry l e = l ++ [e]).
  { rewrite (merge_entry_replace snap l (length l)) by
      (try done; intros e0 He0; apply lookup_lt_Some in He0; lia). by rewrite take_ge by lia. }
  rewrite Hm, IH.
  - by rewrite <- app_assoc.
  - apply contiguous_app; [done|]. intros i e' Hi. destruct i; [|done].
    injection Hi as <-. rewrite He. lia.
  - rewrite length_app. cbn [length]. replace (snap + Z.of_nat (length l + 1)) with (snap + blen l + Z.of_nat 1) by lia.
    apply (contiguous_drop _ (e :: es) 1 Hes).
Qed.

(** The merged log: the local log where the request repeats it, else the local
    prefix followed by the rest of the request. *)
Lemma candidate_log_spec snap es : forall l p,
  contiguous snap l -> (p <= length l)%nat -> contiguous (snap + Z.of_nat p) es ->
  (candidate_log l es = l /\
     forall j e, es !! j = Some e -> exists e0, l !! (p + j)%nat = Some e0 /\ entry_term e0 = entry_term e) \/
  exists j e, es !! j = Some e /\ (p + j <= length l)%nat /\
    (forall i e', (i < j)%nat -> es !! i = Some e' ->
       exists e0, l !! (p + i)%nat = Some e0 /\ entry_term e0 = entry_term e') /\
    (forall e0, l !! (p + j)%nat = Some e0 -> entry_term e0 <> entry_term e) /\
    candidate_log l es = take (p + j) l ++ drop j es.
Proof.
  induction es as [|e es IH]; intros l p Hl Hp Hes; [by left|].
  assert (He : entry_index e = snap + 1 + Z.of_nat p) by (rewrite (Hes 0%nat e) by done; lia).
  assert (Hes' : contiguous (snap + Z.of_nat (S p)) es).
  { replace (snap + Z.of_nat (S p)) with (snap + Z.of_nat p + Z.of_nat 1) by lia.
    apply (contiguous_drop _ (e :: es) 1 Hes). }
  destruct (l !! p) as [e0|] eqn:Ep; [destruct (decide (entry_term e0 = entry_term e)) as [Et|Et]|].
  - assert (Hm : candidate_log l (e :: es) = candidate_log l es)
      by (unfold candidate_log; cbn [fold_left]; by rewrite (merge_entry_same snap l p e0)).
    rewrite Hm. destruct (IH l (S p) Hl ltac:(apply lookup_lt_Some in Ep; lia) Hes')
      as [[E Hall]|(j & e' & Hj & Hle & Hbef & Hne & E)].
    + left. split; [done|]. intros [|j] e' Hj; [injection Hj as <-; rewrite Nat.add_0_r; by eauto|].
      rewrite <- Nat.add_succ_comm. by apply Hall.
    + right. exists (S j), e'. rewrite <- Nat.add_succ_comm. split_and!; try done.
      intros [|i] e'' Hi Hlook; [injection Hlook as <-; rewrite Nat.add_0_r; by eauto|].
      rewrite <- Nat.add_succ_comm. apply Hbef; [lia|done].
  - right. exists 0%nat, e. rewrite Nat.add_0_r. split_and!; try done; [by intros; lia|by intros; simplify_eq|].
    assert (Hm : merge_entry l e = take p l ++ [e])
      by (apply (merge_entry_replace snap); try done; by intros; simplify_eq).
    unfold candidate_log. cbn [fold_left]. rewrite Hm. cbn [drop].
    fold (candidate_log (take p l ++ [e]) es).
    rewrite (candidate_log_append snap); [by rewrite <- app_assoc| |].
    + apply contiguous_app; [by apply contiguous_take|]. intros i e' Hi. destruct i; [|done].
      injection Hi as <-. rewrite He, length_take. lia.
    + rewrite length_app, length_take. cbn [length].
      replace (snap + Z.of_nat (p `min` length l + 1)) with (snap + Z.of_nat (S p)) by lia. done.
  - apply lookup_ge_None in Ep. assert (p = length l) as -> by lia.
    right. exists 0%nat, e. rewrite Nat.add_0_r. split_and!; try done; [by intros; lia| |].
    + intros e0 He0. apply lookup_lt_Some in He0. lia.
    + rewrite take_ge by lia. cbn [drop]. by apply (candidate_log_append snap).
Qed.

(** * Derived membership *)

Lemma valid_voters_spec vs maximum : valid_voters vs maximum = true <-> voters_ok vs maximum.
Proof. apply canonical_spec. Qed.

Lemma front_set_union a b :
  front a <> 0 -> front b <> 0 -> front (set_union a b) <> 0.
Proof.
  destruct a as [|x xs], b as [|y ys]; [done..|]. rewrite set_union_cons. cbn.
  intros Ha Hb. by destruct (x <? y); [|destruct (y <? x)].
Qed.

Lemma voter_union_ok a b maximum :
  voters_ok a maximum -> voters_ok b maximum -> blen (voter_union a b) <= maximum ->
  voters_ok (voter_union a b) maximum.
Proof.
  intros (Ha & _ & Hsa & Hfa) (Hb & _ & Hsb & Hfb) Hl. unfold voter_union in *. split_and!; [|done|..].
  - destruct a as [|x xs]; [done|]. intros E. assert (Hx : x ∈ set_union (x :: xs) b).
    { apply elem_of_set_union. left. left. } rewrite E in Hx. by apply elem_of_nil in Hx.
  - by apply set_union_strict.
  - by apply front_set_union.
Qed.

Record membership_ok (lim : RaftLimits) (d : DerivedMembership) : Prop := {
  mo_committed : voters_ok (dm_committed_voters d) (maximum_voters lim);
  mo_active : voters_ok (dm_active_voters d) (maximum_voters lim);
  mo_stable : dm_joint d = None -> dm_active_voters d = dm_committed_voters d;
  mo_joint j : dm_joint d = Some j ->
    joint_old_voters j = dm_committed_voters d /\
    voters_ok (joint_new_voters j) (maximum_voters lim) /\
    dm_active_voters d = voter_union (joint_old_voters j) (joint_new_voters j) }.

Lemma derive_step_ok lim commit d e d' :
  membership_ok lim d -> derive_step lim commit d e = Ok d' -> membership_ok lim d'.
Proof.
  intros Hd H. unfold derive_step in H.
  destruct (negb _); [by injection H as <-|]. apply rbind_Ok in H as (c & Hc & H).
  apply decode_command_sound in Hc as [(Hm & Hnew & _ & _ & Hc) _].
  destruct (_ =? _).
  - destruct c as [j|f]; [|done]. destruct (dm_joint d) as [j0|] eqn:Ej; [done|].
    run_guards H. bool_prop. rewrite Z.gtb_ltb in *. bool_prop. injection H as <-. cbn in *.
    destruct Hc as [Hold _]. split; cbn; [apply Hd | by apply voter_union_ok | done |].
    intros j' [= <-]. by split_and!.
  - destruct c as [j|f]; [done|]. destruct (dm_joint d) as [j|] eqn:Ej; [|done].
    destruct (_ || _) eqn:Eg in H; [done|]. bool_prop. cbn in Hnew.
    destruct (_ <=? _); injection H as <-.
    + split; cbn; done.
    + destruct (mo_joint lim d Hd j Ej) as (Ho & Hn & Ha). split; cbn; [apply Hd..|done|].
      intros j' [= <-]. by split_and!.
Qed.

Lemma derive_loop_ok lim commit l : forall d d',
  membership_ok lim d -> derive_loop lim commit d l = Ok d' -> membership_ok lim d'.
Proof.
  induction l as [|e l IH]; intros d d' Hd H; cbn in H; [by injection H as <-|].
  apply rbind_Ok in H as (d1 & H1 & H). eauto using derive_step_ok.
Qed.

Lemma derive_membership_ok lim base l commit d :
  voters_ok base (maximum_voters lim) -> derive_membership base l commit lim = Ok d ->
  membership_ok lim d.
Proof. intros Hb. apply derive_loop_ok. by split. Qed.

Lemma derive_loop_app lim commit a b d d' :
  derive_loop lim commit d (a ++ b) = Ok d' <->
  exists d1, derive_loop lim commit d a = Ok d1 /\ derive_loop lim commit d1 b = Ok d'.
Proof.
  revert d. induction a as [|e a IH]; intros d; cbn.
  - split; [by eauto|]. by intros (d1 & [= <-] & H).
  - rewrite rbind_Ok. setoid_rewrite rbind_Ok. split.
    + intros (d1 & H1 & H). apply IH in H as (d2 & H2 & H). by eauto 7.
    + intros (d2 & (d1 & H1 & H2) & H). exists d1. split; [done|]. apply IH. by eauto.
Qed.

Lemma derive_plain_entry lim commit base l e d :
  is_membership_entry_type (entry_type e) = false ->
  derive_membership base l commit lim = Ok d ->
  derive_membership base (l ++ [e]) commit lim = Ok d.
Proof.
  intros He H. apply derive_loop_app. exists d. split; [exact H|]. cbn.
  unfold derive_step. by rewrite He.
Qed.

(** Entries at or below both commit indexes do not tell them apart. *)
Lemma derive_loop_commit lim c1 c2 l : forall d,
  (forall e, e ∈ l -> entry_index e <= c1 /\ entry_index e <= c2) ->
  (forall j, dm_joint d = Some j -> joint_index j <= c1 /\ joint_index j <= c2) ->
  derive_loop lim c1 d l = derive_loop lim c2 d l.
Proof.
  induction l as [|e l IH]; intros d Hl Hd; [done|]. cbn [derive_loop].
  destruct (Hl e) as [H1 H2]; [left|].
  assert (Es : derive_step lim c1 d e = derive_step lim c2 d e).
  { unfold derive_step. destruct (negb _); [done|]. destruct (decode_membership_command_v1 _ _) as [c|]; [|done].
    cbn [rbind]. destruct (_ =? _); [done|]. destruct c; [done|]. destruct (dm_joint d) as [j|]; [|done].
    destruct (Hd j eq_refl). rewrite !(Z.gtb_ltb (joint_index j)), !(proj2 (Z.ltb_ge _ _)) by done.
    by rewrite !(proj2 (Z.leb_le _ _)) by done. }
  rewrite Es. destruct (derive_step lim c2 d e) as [d1|] eqn:E; [|done]. cbn [rbind].
  apply IH; [intros; apply Hl; by right|]. intros j Hj. clear Es IH.
  unfold derive_step in E. destruct (negb _); [injection E as <-; by apply Hd|].
  apply rbind_Ok in E as (c & _ & E). destruct (_ =? _).
  - destruct c; [|done]. destruct (dm_joint d) eqn:Ej; [done|]. run_guards E.
    injection E as <-. cbn in Hj. injection Hj as <-. done.
  - destruct c; [done|]. destruct (dm_joint d) as [j0|] eqn:Ej; [|done].
    destruct (_ || _) in E; [done|]. destruct (_ <=? _) in E; injection E as <-; [done|].
    cbn in Hj. injection Hj as <-. cbn. by apply (Hd j0).
Qed.

(** Compaction: the membership over the rest of the log, from the voters the
    snapshot checkpoints, is the membership over the whole log. *)
Lemma derive_membership_compact lim base covered rest commit s ck d :
  voters_ok base (maximum_voters lim) ->
  (forall e, e ∈ covered -> entry_index e <= s) -> s <= commit ->
  derive_membership base covered s lim = Ok ck -> dm_joint ck = None ->
  derive_membership base (covered ++ rest) commit lim = Ok d ->
  derive_membership (dm_committed_voters ck) rest commit lim = Ok d.
Proof.
  intros Hb Hcov Hs Hck Hj Hd. apply derive_loop_app in Hd as (d1 & H1 & H2).
  assert (E : Ok d1 = Ok ck).
  { rewrite <- Hck, <- H1. apply derive_loop_commit; [|done].
    intros e He. specialize (Hcov e He). lia. }
  injection E as ->. pose proof (derive_membership_ok _ _ _ _ _ Hb Hck) as Hok.
  unfold derive_membership. rewrite <- H2. f_equal.
  destruct ck as [cv av jt]. cbn in *. subst jt. pose proof (mo_stable _ _ Hok eq_refl) as Hst. cbn in Hst. by rewrite Hst.
Qed.

(** * Progress maps *)

(** Well-formed progress: the same nodes in both maps, values within the log, and
    [Q] of the node's own match index. *)
Record progress_pre (Q : LogIndex -> Prop) (self : NodeId) (last : LogIndex)
  (next matched : gmap Z Z) : Prop := {
  pp_dom v : next !! v = None <-> matched !! v = None;
  pp_next v x : next !! v = Some x -> 1 <= x <= last + 1;
  pp_match v x : matched !! v = Some x -> 0 <= x <= last;
  pp_self x : matched !! self = Some x -> Q x }.
Record progress_ok (self : NodeId) (vs : list NodeId) (last : LogIndex) (next matched : gmap Z Z)
  : Prop := {
  po_pre : progress_pre (eq last) self last next matched;
  po_dom v : next !! v <> None <-> v ∈ vs }.

Lemma forget_nonvoters_pre Q self last vs next matched :
  progress_pre Q self last next matched ->
  let '(next', matched') := forget_nonvoters vs next matched in
  progress_pre Q self last next' matched' /\ forall v, next' !! v <> None -> v ∈ vs.
Proof.
  intros [Hd Hn Hm Hs]. unfold forget_nonvoters. split.
  - split.
    + intros v. rewrite !map_lookup_filter_None.
      split; intros [H|H]; rewrite ?Hd in H; [by left| |rewrite <- Hd in H; by left|].
      * destruct (matched !! v) as [x|] eqn:E; [right|by left].
        intros y Hy [Hv|Hv]; cbn in *; [|rewrite Hd in Hv; congruence].
        destruct (next !! v) as [z|] eqn:E'; [by apply (H z)|]. rewrite Hd in E'. congruence.
      * destruct (next !! v) as [x|] eqn:E; [right|by left].
        intros y Hy Hv. destruct (matched !! v) as [z|] eqn:E'; [|rewrite <- Hd in E'; congruence].
        apply (H z); [done|]. by left.
    + intros v x H. apply map_lookup_filter_Some in H as [H _]. eauto.
    + intros v x H. apply map_lookup_filter_Some in H as [H _]. eauto.
    + intros x H. apply map_lookup_filter_Some in H as [H _]. eauto.
  - intros v H. destruct (filter _ next !! v) as [x|] eqn:E; [|done].
    apply map_lookup_filter_Some in E as [_ E]. cbn in E. by apply bool_decide_eq_true in E.
Qed.

Lemma lookup_emplace m k v j :
  emplace m k v !! j = if decide (j = k) then Some (default v (m !! k)) else m !! j.
Proof.
  unfold emplace. destruct (m !! k) eqn:E; destruct (decide (j = k)) as [->|Hne].
  - done.
  - done.
  - by rewrite lookup_insert_eq.
  - by rewrite lookup_insert_ne by done.
Qed.

Lemma add_voter_pre (Q : LogIndex -> Prop) self last next matched v :
  0 <= last < max_u64 -> Q last -> progress_pre Q self last next matched ->
  let '(next', matched') := add_voter self last (next, matched) v in
  progress_pre Q self last next' matched' /\
  forall w, next' !! w <> None <-> w = v \/ next !! w <> None.
Proof.
  intros Hl HQ Hp. pose proof Hp as [Hd Hn Hm Hs]. cbn [add_voter].
  destruct (next !! v) as [x|] eqn:E.
  { split; [done|]. intros w. split; [auto|]. intros [->|]; congruence. }
  assert (Em : matched !! v = None) by (by apply Hd).
  rewrite (wrap_small 64) by width_lia. split.
  - split.
    + intros w. rewrite !lookup_emplace. destruct (decide _); [done|apply Hd].
    + intros w x. rewrite lookup_emplace, E. destruct (decide _); [|apply Hn].
      intros [= <-]. cbn. destruct (_ =? _); lia.
    + intros w x. rewrite lookup_emplace, Em. destruct (decide _); [|apply Hm].
      intros [= <-]. cbn. destruct (_ =? _); lia.
    + intros x. rewrite lookup_emplace, Em. destruct (decide _) as [->|]; [|apply Hs].
      cbn. rewrite Z.eqb_refl. by intros [= <-].
  - intros w. rewrite lookup_emplace. destruct (decide _); [split; auto; done|].
    split; [auto|]. by intros [->|].
Qed.

Lemma add_voters_pre (Q : LogIndex -> Prop) self last vs : forall next matched,
  0 <= last < max_u64 -> Q last -> progress_pre Q self last next matched ->
  let '(next', matched') := fold_left (add_voter self last) vs (next, matched) in
  progress_pre Q self last next' matched' /\
  forall w, next' !! w <> None <-> w ∈ vs \/ next !! w <> None.
Proof.
  induction vs as [|v vs IH]; intros next matched Hl HQ Hp; cbn [fold_left].
  { split; [done|]. intros w. rewrite elem_of_nil. tauto. }
  pose proof (add_voter_pre Q self last next matched v Hl HQ Hp) as H.
  destruct (add_voter self last (next, matched) v) as [n1 m1]. destruct H as [H1 H2].
  specialize (IH n1 m1 Hl HQ H1). destruct (fold_left _ _ _) as [n2 m2]. destruct IH as [IH1 IH2].
  split; [done|]. intros w. rewrite IH2, H2, elem_of_cons. tauto.
Qed.

Lemma rebuild_progress_pre (Q : LogIndex -> Prop) self last vs next matched :
  0 <= last < max_u64 -> Q last -> progress_pre Q self last next matched ->
  let '(next', matched') := rebuild_progress self last vs next matched in
  progress_pre Q self last next' matched' /\ forall v, next' !! v <> None <-> v ∈ vs.
Proof.
  intros Hl HQ Hp. unfold rebuild_progress.
  pose proof (forget_nonvoters_pre Q self last vs next matched Hp) as H.
  destruct (forget_nonvoters vs next matched) as [n1 m1]. destruct H as [H1 H2].
  pose proof (add_voters_pre Q self last vs n1 m1 Hl HQ H1) as H.
  destruct (fold_left _ _ _) as [n2 m2]. destruct H as [H3 H4]. split; [done|].
  intros w. rewrite H4. split; [intros [|]; auto|auto].
Qed.

Lemma rebuild_progress_ok self last vs next matched :
  0 <= last < max_u64 -> progress_pre (eq last) self last next matched ->
  let '(next', matched') := rebuild_progress self last vs next matched in
  progress_ok self vs last next' matched'.
Proof.
  intros Hl Hp. pose proof (rebuild_progress_pre (eq last) self last vs next matched Hl eq_refl Hp) as H.
  destruct (rebuild_progress _ _ _ _ _). by destruct H.
Qed.

Lemma initial_progress_ok n :
  0 <= last_index n < max_u64 -> 
  let '(next, matched) := initial_progress n in
  progress_ok (id n) (voters n) (last_index n) next matched.
Proof.
  intros Hl. unfold initial_progress.
  set (f := fun '(next, matched) peer => _).
  assert (Hf : forall vs next matched, progress_pre (eq (last_index n)) (id n) (last_index n) next matched ->
    let '(next', matched') := fold_left f vs (next, matched) in
    progress_pre (eq (last_index n)) (id n) (last_index n) next' matched' /\
    forall w, next' !! w <> None <-> w ∈ vs \/ next !! w <> None).
  { induction vs as [|v vs IH]; intros next matched Hp; cbn [fold_left].
    { split; [done|]. intros w. rewrite elem_of_nil. tauto. }
    unfold f at 2. rewrite (wrap_small 64) by width_lia.
    set (n1 := emplace next _ _). set (m1 := emplace matched _ _).
    assert (H1 : progress_pre (eq (last_index n)) (id n) (last_index n) n1 m1).
    { destruct Hp as [Hd Hn Hm Hs]. unfold n1, m1. split.
      - intros w. rewrite !lookup_emplace. destruct (decide _); [done|apply Hd].
      - intros w x. rewrite lookup_emplace. destruct (decide _); [|apply Hn].
        intros [= <-]. destruct (next !! v) eqn:E; cbn; [by eapply Hn|lia].
      - intros w x. rewrite lookup_emplace. destruct (decide _); [|apply Hm].
        intros [= <-]. destruct (matched !! v) eqn:E; cbn; [by eapply Hm|destruct (_ =? _); lia].
      - intros x. rewrite lookup_emplace. destruct (decide _) as [Ev|]; [|apply Hs].
        intros [= <-]. destruct (matched !! v) eqn:E; cbn; [apply Hs; by rewrite Ev|].
        by rewrite Ev, Z.eqb_refl. }
    specialize (IH n1 m1 H1). destruct (fold_left _ _ _) as [n2 m2]. destruct IH as [IH1 IH2].
    split; [done|]. intros w. rewrite IH2, elem_of_cons. unfold n1. rewrite lookup_emplace.
    destruct (decide _) as [->|]; [split; auto; intros; by right|]. tauto. }
  specialize (Hf (voters n) ∅ ∅). destruct (fold_left _ _ _) as [next matched].
  destruct Hf as [H1 H2].
  { split; [done|..]; intros *; rewrite ?lookup_empty; done. }
  split; [done|]. intros w. rewrite H2, lookup_empty. tauto.
Qed.

(** * The commit scan *)

Lemma scan_commit_some fuel : forall candidate p c,
  scan_commit fuel candidate p = Some c ->
  candidate - Z.of_nat fuel < c <= candidate /\ p c = true.
Proof.
  induction fuel as [|fuel IH]; intros candidate p c H; [done|]. cbn [scan_commit] in H.
  destruct (p candidate) eqn:E; [injection H as <-; split; [lia|done]|].
  apply IH in H as [? ?]. split; [lia|done].
Qed.

(** The scan returns the highest admissible index, and none only when there is none. *)
Lemma scan_commit_highest fuel : forall candidate p c',
  candidate - Z.of_nat fuel < c' <= candidate -> p c' = true ->
  exists c, scan_commit fuel candidate p = Some c /\ c' <= c.
Proof.
  induction fuel as [|fuel IH]; intros candidate p c' Hr Hp; [lia|]. cbn [scan_commit].
  destruct (p candidate) eqn:E; [exists candidate; split; [done|lia]|].
  apply IH; [|done]. destruct (decide (c' = candidate)); [congruence|lia].
Qed.

Lemma commit_candidate_some n q c :
  commit_candidate n q = Some c ->
  commit_index (state n) < c <= last_index n /\
  term_at n c = Some (current_term (state n)) /\ q c = true.
Proof.
  unfold commit_candidate. intros H. apply scan_commit_some in H as [Hr H]. bool_prop.
  split; [lia|done].
Qed.

(** * Quorums *)

Lemma count_both (p q : NodeId -> bool) (l : list NodeId) :
  (length (filter (fun m => p m = true) l) + length (filter (fun m => q m = true) l)
   <= length l + length (filter (fun m => p m && q m = true) l))%nat.
Proof.
  induction l as [|v l IH]; [cbn; lia|].
  rewrite !filter_cons. destruct (p v), (q v); cbn [andb];
    repeat match goal with |- context [decide ?P] => destruct (decide P); try done end;
    cbn [length]; lia.
Qed.

Lemma has_majority_intersect members p q :
  has_majority members p = true -> has_majority members q = true ->
  exists v, v ∈ members /\ p v = true /\ q v = true.
Proof.
  unfold has_majority, majority. rewrite !Z.geb_leb. intros Hp Hq. bool_prop.
  pose proof (count_both p q members) as Hc.
  destruct (filter (fun m => p m && q m = true) members) as [|v tl] eqn:E.
  - cbn [length] in Hc. Z.to_euclidean_division_equations. lia.
  - assert (Hv : v ∈ filter (fun m => p m && q m = true) members) by (rewrite E; left).
    apply list_elem_of_filter in Hv as [Hv Hin]. apply andb_true_iff in Hv as [? ?]. eauto.
Qed.

Lemma has_majority_mono members p q :
  (forall v, v ∈ members -> p v = true -> q v = true) ->
  has_majority members p = true -> has_majority members q = true.
Proof.
  intros Hpq. unfold has_majority. rewrite !Z.geb_leb. intros H. bool_prop. apply Z.leb_le.
  enough (length (filter (fun m => p m = true) members)
          <= length (filter (fun m => q m = true) members))%nat by lia.
  clear H. induction members as [|v l IH]; [done|]. rewrite !filter_cons.
  assert (IH' := IH ltac:(intros; apply Hpq; [by right|done])).
  destruct (decide (p v = true)) as [E|]; [rewrite decide_True by (apply Hpq; [left|done]); cbn; lia|].
  destruct (decide _); cbn; lia.
Qed.

(** * Log positions of a state *)

Record log_inv (s : PersistentState) : Prop := {
  li_contiguous : contiguous (last_included_index (snapshot s)) (log s);
  li_snapshot : 0 <= last_included_index (snapshot s);
  li_bound : last_included_index (snapshot s) + blen (log s) < max_u64 }.

Lemma last_index_of_eq s :
  log_inv s -> last_index_of s = last_included_index (snapshot s) + blen (log s).
Proof. intros H. unfold last_index_of. apply contiguous_last, H. Qed.

Lemma offset_for_eq n i :
  log_inv (state n) -> last_included_index (snapshot (state n)) < i <= max_u64 ->
  offset_for n i = i - last_included_index (snapshot (state n)) - 1.
Proof. intros [_ ? ?] Hi. unfold offset_for. apply wrap_small. width_lia. Qed.

Lemma term_at_log n i :
  log_inv (state n) ->
  last_included_index (snapshot (state n)) < i <= last_index n ->
  term_at n i =
    entry_term <$> log (state n) !! Z.to_nat (i - last_included_index (snapshot (state n)) - 1).
Proof.
  intros Hl Hi. pose proof Hl as [_ ? ?]. pose proof (last_index_of_eq _ Hl).
  unfold last_index in *. unfold term_at.
  destruct (Z.eqb_spec i 0); [lia|].
  destruct (Z.eqb_spec i (last_included_index (snapshot (state n)))); [lia|].
  destruct (Z.leb_spec i (last_included_index (snapshot (state n)))); [lia|].
  unfold last_index. destruct (Z.gtb_spec i (last_index_of (state n))); [lia|]. cbn [orb].
  rewrite wrap_small by width_lia. done.
Qed.

Lemma term_at_some n i t :
  log_inv (state n) -> term_at n i = Some t -> i <= last_index n.
Proof.
  intros Hl. pose proof Hl as [_ ? ?]. pose proof (last_index_of_eq _ Hl) as E.
  unfold term_at, last_index in *.
  destruct (Z.eqb_spec i 0); [lia|].
  destruct (Z.eqb_spec i (last_included_index (snapshot (state n)))); [lia|].
  destruct (_ || _) eqn:Eg; [done|]. rewrite Z.gtb_ltb in Eg. bool_prop. lia.
Qed.

(** ** The persistent-state budget *)

Lemma persistent_state_fits_spec count l lim :
  0 <= count <= 65535 -> maximum_persistent_state_bytes lim <= kMaximumRaftPersistentStatePayloadSize ->
  persistent_state_fits count l lim = kOk <->
  112 + 8 * count + log_bytes l <= maximum_persistent_state_bytes lim.
Proof.
  intros Hc Hm. unfold kMaximumRaftPersistentStatePayloadSize in Hm.
  unfold persistent_state_fits, raft_persistent_state_payload_size, checked_multiply,
    kRaftPersistentStateFixedSizeV1.
  assert (Hq : negb (count =? 0) && (8 >? max_u64 / count) = false).
  { destruct (Z.eqb_spec count 0); [done|]. cbn [negb andb]. rewrite Z.gtb_ltb. apply Z.ltb_ge.
    apply Z.div_le_lower_bound; lia. }
  rewrite Hq, (wrap_small 64) by width_lia.
  rewrite checked_add_spec by width_lia.
  destruct (Z.ltb_spec (112 + count * 8) (2 ^ 64)); [|width_lia].
  replace (112 + 8 * count) with (112 + count * 8) by lia.
  destruct (payload_size_loop (112 + count * 8) l) as [size|e] eqn:E.
  - apply payload_size_loop_Ok in E as ->; [|lia].
    destruct (Z.leb_spec (112 + count * 8 + log_bytes l) (maximum_persistent_state_bytes lim));
      split; done || lia.
  - split; [done|]. intros Hle. rewrite payload_size_loop_exact in E by lia. done.
Qed.
