(* ===== verification/RaftInvariant.v ===== *)
(** The invariant of a Raft node and what every operation guarantees: the
    invariant is preserved, the persistent state only evolves forward, a failing
    call changes nothing, and a transition carries exactly the persistent state
    the node moved to. *)
From S2P Require Import Prelude Bytes RaftTypes RaftMembership RaftNode RaftFacts.

(** * Value ranges of the inputs *)

Definition limits_wf (l : RaftLimits) : Prop :=
  0 <= maximum_voters l /\ 0 <= maximum_log_entries l /\ 0 <= maximum_entry_bytes l /\
  0 <= maximum_append_entries l /\ 0 <= maximum_persistent_state_bytes l.

Definition entry_wf (e : LogEntry) : Prop := 0 <= entry_index e /\ 0 <= entry_term e.

Definition snapshot_wf (s : SnapshotMetadata) : Prop :=
  0 <= last_included_index s <= max_u64 /\ 0 <= last_included_term s.

(** Members of unsigned types are not negative and terms fit their width. *)
Definition message_wf (m : Message) : Prop :=
  0 <= message_term m <= max_u64 /\
  match m with
  | MAppendEntries a => Forall entry_wf (ae_entries a)
  | MInstallSnapshot i => snapshot_wf (is_snapshot i)
  | MAppendEntriesResponse a => 0 <= aer_match_index a
  | MInstallSnapshotResponse i => 0 <= isr_last_included_index i
  | _ => True
  end.

Definition operation_wf (op : Operation) : Prop :=
  match op with
  | OpReceive _ m => message_wf m
  | _ => True
  end.

(** * The invariant *)

Record state_ok (lim : RaftLimits) (s : PersistentState) : Prop := {
  so_log : log_inv s;
  so_entries : Forall (entry_ok lim (current_term s)) (log s);
  so_term : 0 <= current_term s <= max_u64;
  so_capacity : blen (log s) <= maximum_log_entries lim;
  so_budget : persistent_state_fits (blen (snapshot_voters (snapshot s))) (log s) lim = kOk;
  so_applied : last_included_index (snapshot s) <= applied_index s <= commit_index s;
  so_commit : commit_index s <= last_index_of s;
  so_snapshot : last_included_index (snapshot s) = 0 \/
                valid_snapshot (snapshot s) (maximum_voters lim) = true;
  so_snapshot_term : 0 <= last_included_term (snapshot s) <= current_term s;
  so_vote : voted_for s <> Some 0 /\ (current_term s = 0 -> voted_for s = None) }.

Definition current_membership (n : Impl) : DerivedMembership :=
  {| dm_committed_voters := committed_voters n; dm_active_voters := voters n;
     dm_joint := joint n |}.

Record pending_ok (n : Impl) (p : InstallSnapshotRequest) : Prop := {
  pk_index : last_included_index (snapshot (state n)) < last_included_index (is_snapshot p);
  pk_valid : valid_snapshot (is_snapshot p) (maximum_voters (limits n)) = true;
  pk_term : 0 <= last_included_term (is_snapshot p) <= is_term p;
  pk_bound : last_included_index (is_snapshot p) <= max_u64;
  pk_current : is_term p <= current_term (state n);
  pk_role : is_term p = current_term (state n) -> role n = kFollower }.

Record barrier_ok (n : Impl) (b : PendingReadBarrier) : Prop := {
  bk_role : role n = kLeader;
  bk_term : prb_term b = current_term (state n);
  bk_index : prb_read_index b <= commit_index (state n) }.

Record node_inv (n : Impl) : Prop := {
  ni_limits : limits_ok (limits n) = true /\ limits_wf (limits n);
  ni_id : id n <> 0;
  ni_state : state_ok (limits n) (state n);
  ni_base : voters_ok (base_voters n) (maximum_voters (limits n));
  ni_membership : derive_membership (base_voters n) (log (state n)) (commit_index (state n))
                    (limits n) = Ok (current_membership n);
  ni_vote : role n <> kFollower -> voted_for (state n) = Some (id n);
  ni_progress : role n = kLeader ->
    progress_ok (id n) (voters n) (last_index n) (next_index n) (match_index n);
  ni_pending p : pending_snapshot n = Some p -> pending_ok n p;
  ni_barrier b : pending_read_barrier n = Some b -> barrier_ok n b }.

(** The membership a node works with is well formed. *)
Lemma node_membership_ok n : node_inv n -> membership_ok (limits n) (current_membership n).
Proof. intros H. eapply derive_membership_ok; [apply H | apply H]. Qed.

(** * Forward evolution of the persistent state *)

Definition entry_at (s : PersistentState) (i : LogIndex) : option LogEntry :=
  log s !! Z.to_nat (i - last_included_index (snapshot s) - 1).

Record evolves (s s' : PersistentState) : Prop := {
  ev_term : current_term s <= current_term s';
  ev_vote v : current_term s' = current_term s -> voted_for s = Some v -> voted_for s' = Some v;
  ev_commit : commit_index s <= commit_index s';
  ev_applied : applied_index s <= applied_index s';
  ev_snapshot : last_included_index (snapshot s) <= last_included_index (snapshot s');
  ev_committed i e : last_included_index (snapshot s') < i <= commit_index s ->
    entry_at s i = Some e -> entry_at s' i = Some e }.

#[global] Instance evolves_refl : Reflexive evolves.
Proof. intros s. split; try done; lia. Qed.
#[global] Instance evolves_trans : Transitive evolves.
Proof.
  intros a b c Hab Hbc. pose proof Hab as [T V C A S E]. pose proof Hbc as [T' V' C' A' S' E'].
  split; try lia.
  - intros v Ht Hv. apply V'; [lia|]. apply V; [lia|done].
  - intros i e Hi He. apply E'; [lia|]. apply E; [lia|done].
Qed.

(** * The guarantee of one call *)

Definition step_ok (n : Impl) (out : result Transition * Impl) : Prop :=
  node_inv (snd out) /\ evolves (state n) (state (snd out)) /\
  id (snd out) = id n /\ limits (snd out) = limits n /\
  match fst out with
  | Err _ => snd out = n
  | Ok t => match persistent_state t with
            | Some s => s = state (snd out)
            | None => state (snd out) = state n
            end
  end.

Lemma step_err n s : node_inv n -> step_ok n (Err s, n).
Proof. intros H. by split_and!. Qed.
Lemma step_unexpected n s : node_inv n -> step_ok n (make_unexpected s, n).
Proof. intros H. destruct (@make_unexpected_not_ok Transition s) as (? & -> & _). by apply step_err. Qed.
Lemma step_same n t : node_inv n -> persistent_state t = None -> step_ok n (Ok t, n).
Proof. intros H Ht. split_and!; try done. cbn. by rewrite Ht. Qed.
Lemma step_prepared_err n s n' : node_inv n -> step_ok n (install_prepared n (Err s, n')).
Proof. intros H. cbn. by apply step_unexpected. Qed.
Lemma step_prepared_unexpected n s n' :
  node_inv n -> step_ok n (install_prepared n (make_unexpected s, n')).
Proof.
  intros H. destruct (@make_unexpected_not_ok Transition s) as (? & -> & _).
  by apply step_prepared_err.
Qed.
#[export] Hint Resolve step_err step_unexpected step_same step_prepared_err
  step_prepared_unexpected : chronos.

(** A branch of a call that changes nothing. *)
Ltac refuse := solve [cbv beta iota; cbn [negb andb orb]; auto with chronos].

(** ** Observing a newer term *)

Lemma become_follower_eq n term leader :
  become_follower n term leader =
  {| id := id n; base_voters := base_voters n; committed_voters := committed_voters n;
     voters := voters n; joint := joint n; state := observe_term (state n) term;
     limits := limits n; role := kFollower; leader_id := leader; votes := ∅;
     next_index := ∅; match_index := ∅; pending_snapshot := pending_snapshot n;
     pending_read_barrier := None; next_read_context := next_read_context n |}.
Proof.
  unfold become_follower, observe_term. cbn.
  destruct (term >? current_term (state n)); reflexivity.
Qed.

Lemma observe_term_spec s term :
  current_term (observe_term s term) = Z.max (current_term s) term /\
  log (observe_term s term) = log s /\ commit_index (observe_term s term) = commit_index s /\
  applied_index (observe_term s term) = applied_index s /\
  snapshot (observe_term s term) = snapshot s.
Proof.
  unfold observe_term. destruct (Z.gtb_spec term (current_term s)); cbn; split_and!; lia || done.
Qed.

(** Raising the term keeps a state well formed, whatever the vote becomes. *)
Lemma state_ok_term lim s term v :
  state_ok lim s -> current_term s <= term <= max_u64 -> v <> Some 0 ->
  (term = 0 -> v = None) -> state_ok lim (state_term s term v).
Proof.
  intros [Hl He Ht Hc Hb Ha Hcm Hs Hst Hv] Hterm Hv0 Hv1. split; cbn; try done; try lia.
  - by destruct Hl.
  - eapply Forall_impl; [exact He|]. intros e (? & ?). split; [lia|done].
Qed.

Lemma evolves_term s term v :
  current_term s <= term -> (term = current_term s -> forall w, voted_for s = Some w -> v = Some w) ->
  evolves s (state_term s term v).
Proof. intros Ht Hv. split; cbn; try done; try lia. intros w Hw. by apply Hv. Qed.

Lemma state_ok_observe lim s term :
  state_ok lim s -> term <= max_u64 -> state_ok lim (observe_term s term).
Proof.
  intros Hs Ht. unfold observe_term. destruct (Z.gtb_spec term (current_term s)); [|done].
  apply state_ok_term; try done. lia.
Qed.

Lemma evolves_observe s term : evolves s (observe_term s term).
Proof.
  unfold observe_term. destruct (Z.gtb_spec term (current_term s)); [|done].
  apply evolves_term; lia.
Qed.

Lemma pending_ok_mono n n' p :
  pending_ok n p -> limits n' = limits n ->
  last_included_index (snapshot (state n')) = last_included_index (snapshot (state n)) ->
  current_term (state n) <= current_term (state n') ->
  (current_term (state n') = current_term (state n) -> role n = kFollower -> role n' = kFollower) ->
  pending_ok n' p.
Proof.
  intros [H1 H2 H3 H4 H5 H6] El Es Et Er. split; rewrite ?El, ?Es; try done; try lia.
  intros E. apply Er; [lia|]. apply H6. lia.
Qed.

Lemma become_follower_inv n term leader :
  node_inv n -> term <= max_u64 -> node_inv (become_follower n term leader).
Proof.
  intros H Ht. destruct (observe_term_spec (state n) term) as (Et & El & Ec & Ea & Es).
  rewrite become_follower_eq. pose proof H as [Hl Hi Hs Hb Hm Hv Hp Hpe Hba].
  split; cbn; try done.
  - by apply state_ok_observe.
  - unfold current_membership. cbn. by rewrite El, Ec.
  - intros p Hpp. apply (pending_ok_mono n); cbn; [by apply Hpe|done|by rewrite Es|lia|done].
Qed.

Lemma state_become_follower n term leader :
  state (become_follower n term leader) = observe_term (state n) term.
Proof. by rewrite become_follower_eq. Qed.

(** * Elections, heartbeats, barriers, application *)

Lemma node_last_bounds n : node_inv n -> 0 <= last_index n < max_u64.
Proof.
  intros H. pose proof (so_log _ _ (ni_state n H)) as Hl. unfold last_index.
  rewrite last_index_of_eq by done. destruct Hl. lia.
Qed.

Lemma start_election_ok n : node_inv n -> step_ok n (start_election n).
Proof.
  intros H. unfold start_election. destruct (negb _); [refuse|].
  destruct ((_ =? _) || _) eqn:Eg; [refuse|]. bool_prop.
  pose proof H as [Hl Hi Hs Hb Hm Hv Hp Hpe Hba].
  pose proof (so_term _ _ Hs) as Ht.
  rewrite (wrap_small 64) by width_lia.
  pose proof (initial_progress_ok n (node_last_bounds n H)) as Hip.
  destruct (initial_progress n) as [nx mt]. cbn [fst snd].
  set (term := current_term (state n) + 1).
  assert (Hs' : state_ok (limits n) (state_term (state n) term (Some (id n)))).
  { apply state_ok_term; [done|unfold term; lia|by intros [=]|unfold term; lia]. }
  assert (Hev : evolves (state n) (state_term (state n) term (Some (id n))))
    by (apply evolves_term; unfold term; lia).
  destruct (config_quorum _ _ _); (split; [|split; [done|done]]); split; cbn; try done;
    intros p Hpp; apply (pending_ok_mono n); cbn; try done; try (by apply Hpe); unfold term; lia.
Qed.

Lemma heartbeat_ok n : node_inv n -> step_ok n (heartbeat n).
Proof. intros H. unfold heartbeat. destruct (negb _); refuse. Qed.

Lemma mark_applied_ok n index : node_inv n -> step_ok n (mark_applied n index).
Proof.
  intros H. unfold mark_applied. destruct (_ || _) eqn:Eg; [refuse|].
  rewrite Z.gtb_ltb in Eg. bool_prop.
  destruct (index =? _); [by apply step_same|].
  pose proof H as [Hl Hi Hs Hb Hm Hv Hp Hpe Hba].
  split; [|split; [by split; cbn; try done; lia|done]].
  split; cbn; try done.
  - destruct Hs as [Hlg He Ht Hc Hbu Ha Hcm Hsn Hst Hvo]. split; cbn; try done; [by destruct Hlg|lia].
  - intros p Hpp. by apply (pending_ok_mono n); cbn; [apply Hpe|..].
  - intros b Hbb. destruct (Hba b Hbb). by split.
Qed.

Lemma set_read_barrier_inv n p ctx :
  node_inv n -> (forall b, p = Some b -> barrier_ok n b) -> node_inv (set_read_barrier n p ctx).
Proof.
  intros [Hl Hi Hs Hb Hm Hv Hp Hpe Hba] Hp'. split; cbn; try done.
  - intros q Hq. by apply (pending_ok_mono n); cbn; [apply Hpe|..].
  - intros b Hbb. destruct (Hp' b Hbb). by split.
Qed.

Lemma begin_read_barrier_ok n : node_inv n -> step_ok n (begin_read_barrier n).
Proof.
  intros H. unfold begin_read_barrier.
  destruct (bool_decide (role n = kLeader)) eqn:Er; [|refuse]. cbn [negb].
  destruct (bool_decide (pending_read_barrier n <> None)) eqn:Ep; [refuse|].
  destruct (_ || _); [refuse|]. destruct (_ =? 0); [refuse|].
  bool_prop. assert (Hnone : pending_read_barrier n = None)
    by (destruct (pending_read_barrier n); [exfalso; by apply Ep|done]).
  destruct (match joint n with Some _ => _ | None => _ end) as [old new].
  cbv zeta. destruct (read_barrier_quorum _); (split; [|done]); cbn [snd].
  - apply set_read_barrier_inv; [done|]. by rewrite Hnone.
  - apply set_read_barrier_inv; [done|]. intros b [= <-]. by split.
Qed.

(** * Receiving: votes, barriers, snapshots and responses *)

Definition observed (n : Impl) (term : Term) : Impl :=
  if term >? current_term (state n) then become_follower n term None else n.

Lemma observed_inv n term : node_inv n -> term <= max_u64 -> node_inv (observed n term).
Proof. intros H Ht. unfold observed. destruct (_ >? _); [by apply become_follower_inv|done]. Qed.

Lemma state_observed n term : state (observed n term) = observe_term (state n) term.
Proof.
  unfold observed. destruct (term >? current_term (state n)) eqn:E.
  - apply state_become_follower.
  - unfold observe_term. by rewrite E.
Qed.

Lemma observed_fields n term :
  id (observed n term) = id n /\ limits (observed n term) = limits n /\
  base_voters (observed n term) = base_voters n /\
  pending_snapshot (observed n term) = pending_snapshot n /\
  voters (observed n term) = voters n.
Proof. unfold observed. destruct (_ >? _); [rewrite become_follower_eq|]; done. Qed.

Lemma observed_cases n term :
  (current_term (state n) < term /\ role (observed n term) = kFollower /\
   pending_read_barrier (observed n term) = None) \/
  (term <= current_term (state n) /\ observed n term = n).
Proof.
  unfold observed. destruct (Z.gtb_spec term (current_term (state n))); [left|by right].
  by rewrite become_follower_eq.
Qed.

Lemma finish_ok n changed t n' :
  node_inv n' -> evolves (state n) (state n') -> id n' = id n -> limits n' = limits n ->
  match persistent_state t with
  | Some s => s = state n'
  | None => changed = true \/ state n' = state n
  end ->
  step_ok n (finish_receive (kOk, changed, t, n')).
Proof.
  intros Hi He Hid Hl Hp. unfold finish_receive. change (is_ok kOk) with true. cbv beta iota.
  split_and!; try done. cbn [fst snd]. revert Hp.
  destruct (persistent_state t) as [s|] eqn:E; intros Hp.
  - rewrite bool_decide_eq_false_2 by done. rewrite andb_false_r. by rewrite E.
  - destruct changed; cbn; [done|]. rewrite E. by destruct Hp.
Qed.

(** The transition of a message that only observes its term. *)
Lemma prepare_persistence_observed n source m t :
  persistent_state t = None ->
  match persistent_state (prepare_persistence n source m false t) with
  | Some s => s = state (observed n (message_term m))
  | None => state (observed n (message_term m)) = state n
  end.
Proof.
  intros Ht. unfold prepare_persistence. rewrite orb_false_r, state_observed.
  destruct (_ >? _) eqn:E; cbn; [done|]. rewrite Ht. unfold observe_term. by rewrite E.
Qed.

Lemma set_vote_inv n source :
  node_inv n -> source <> 0 -> current_term (state n) <> 0 -> pending_read_barrier n = None ->
  node_inv (set_role (set_state n (state_term (state n) (current_term (state n)) (Some source)))
              kFollower None).
Proof.
  intros [Hl Hi Hs Hb Hm Hv Hp Hpe Hba] Hsrc Ht Hnone. split; cbn; try done.
  - apply state_ok_term; [done| |congruence|done]. destruct Hs. lia.
  - intros p Hpp. by apply (pending_ok_mono n); cbn; [apply Hpe|..].
  - by rewrite Hnone.
Qed.

(** A granted vote respects the vote of the term. *)
Lemma vote_granted_vote n source m w :
  vote_granted n source m = true -> rv_term m <= current_term (state n) ->
  voted_for (state n) = Some w -> w = source.
Proof.
  unfold vote_granted. intros H Ht Hw. bool_prop. rewrite Z.gtb_ltb in *.
  rewrite (proj2 (Z.ltb_ge _ _)) in * by done. rewrite Hw in *. by bool_prop.
Qed.

Lemma receive_vote_ok n source m :
  node_inv n -> message_wf (MRequestVote m) -> source <> 0 -> source <> id n ->
  rv_term m <> 0 ->
  step_ok n (finish_receive
    (apply_vote (observed n (rv_term m)) source (vote_granted n source m)
       (rv_term m >? current_term (state n))
       (prepare_persistence n source (MRequestVote m) (vote_granted n source m)
          (fst (prepare_vote n source m))))).
Proof.
  intros H [Hw _] Hs0 Hsid Ht0. cbn [message_term] in Hw.
  pose proof (observed_inv n (rv_term m) H ltac:(lia)) as Hinv.
  destruct (observed_fields n (rv_term m)) as (Eid & Elim & _).
  destruct (observe_term_spec (state n) (rv_term m)) as (Eterm & _).
  unfold apply_vote. destruct (vote_granted n source m) eqn:Eg.
  - apply finish_ok; cbn; try done.
    + apply set_vote_inv; try done.
      * rewrite state_observed, Eterm. lia.
      * destruct (observed_cases n (rv_term m)) as [(_ & _ & ?)|[Hle ->]]; [done|].
        destruct (pending_read_barrier n) as [b|] eqn:Eb; [exfalso|done].
        destruct (ni_barrier n H b Eb) as [Hr _ _]. apply Hsid. symmetry.
        eapply vote_granted_vote; [exact Eg|exact Hle|]. apply H. by rewrite Hr.
    + rewrite state_observed. etransitivity; [apply evolves_observe|].
      apply evolves_term; [lia|]. intros _ w Hv. f_equal. symmetry.
      unfold observe_term in Hv. destruct (Z.gtb_spec (rv_term m) (current_term (state n))); [done|].
      by eapply vote_granted_vote.
    + unfold prepare_persistence. rewrite orb_true_r. cbn. by rewrite state_observed.
  - apply finish_ok; try done; [rewrite state_observed; apply evolves_observe|].
    pose proof (prepare_persistence_observed n source (MRequestVote m)
                  (fst (prepare_vote n source m)) eq_refl) as Hpp.
    destruct (persistent_state _); [done|]. by right.
Qed.

(** A response that leaves the persistent state alone. *)
Lemma finish_volatile n source m t n' :
  node_inv n' -> state n' = state (observed n (message_term m)) ->
  id n' = id n -> limits n' = limits n -> persistent_state t = None ->
  step_ok n (finish_receive (kOk, message_term m >? current_term (state n),
    prepare_persistence n source m false t, n')).
Proof.
  intros Hi Hs Hid Hl Ht. apply finish_ok; try done.
  - rewrite Hs, state_observed. apply evolves_observe.
  - pose proof (prepare_persistence_observed n source m t Ht) as Hp. rewrite Hs.
    destruct (persistent_state (prepare_persistence _ _ _ _ _)); [done|by right].
Qed.

Lemma observed_volatile n source m t :
  node_inv n -> message_wf m -> persistent_state t = None ->
  step_ok n (finish_receive (kOk, message_term m >? current_term (state n),
    prepare_persistence n source m false t, observed n (message_term m))).
Proof.
  intros H [Hw _] Ht. destruct (observed_fields n (message_term m)) as (? & ? & _).
  apply finish_volatile; try done. apply observed_inv; [done|lia].
Qed.

Lemma become_leader_inv n vs next matched :
  node_inv n -> role n = kCandidate ->
  progress_ok (id n) (voters n) (last_index n) next matched ->
  node_inv (set_read_barrier (set_progress (set_role (set_votes n vs) kLeader (Some (id n)))
              next matched) None (next_read_context n)).
Proof.
  intros [Hl Hi Hs Hb Hm Hv Hp Hpe Hba] Hr Hpr. split; cbn; try done.
  - intros _. apply Hv. by rewrite Hr.
  - intros p Hpp. apply (pending_ok_mono n); cbn; [by apply Hpe|done..|]. by rewrite Hr.
Qed.

Lemma set_votes_inv n vs : node_inv n -> node_inv (set_votes n vs).
Proof.
  intros [Hl Hi Hs Hb Hm Hv Hp Hpe Hba]. split; cbn; try done.
  - intros p Hpp. by apply (pending_ok_mono n); cbn; [apply Hpe|..].
  - intros b Hbb. destruct (Hba b Hbb). by split.
Qed.

Lemma set_progress_inv n next matched :
  node_inv n ->
  (role n = kLeader -> progress_ok (id n) (voters n) (last_index n) next matched) ->
  node_inv (set_progress n next matched).
Proof.
  intros [Hl Hi Hs Hb Hm Hv Hp Hpe Hba] Hpr. split; cbn; try done.
  - intros p Hpp. by apply (pending_ok_mono n); cbn; [apply Hpe|..].
  - intros b Hbb. destruct (Hba b Hbb). by split.
Qed.

Lemma receive_vote_response_ok n source m :
  node_inv n -> message_wf (MRequestVoteResponse m) ->
  let '(t, p) := prepare_vote_response n source m in
  step_ok n (finish_receive (apply (observed n (rvr_term m)) source (MRequestVoteResponse m) p
    (rvr_term m >? current_term (state n))
    (prepare_persistence n source (MRequestVoteResponse m) false t))).
Proof.
  intros H Hw. unfold prepare_vote_response.
  pose proof (observed_volatile n source (MRequestVoteResponse m)) as Hsame. cbn in Hsame.
  destruct (observed_cases n (rvr_term m)) as [(Hn & Hr & _)|[Hn Eo]].
  - rewrite (proj2 (Z.eqb_neq _ _)) by lia. cbn [andb]. cbn [apply]. unfold apply_vote_response.
    rewrite Hr. cbn. rewrite orb_true_r. by apply Hsame.
  - rewrite Eo in *. destruct (Z.eqb_spec (rvr_term m) (current_term (state n))) as [Et|Et]; cycle 1.
    { cbn [andb apply]. unfold apply_vote_response.
      rewrite (proj2 (Z.ltb_lt _ _)) by lia. by apply Hsame. }
    destruct (bool_decide (role n = kCandidate)) eqn:Er; cycle 1.
    { cbn [andb apply]. unfold apply_vote_response. rewrite Er, orb_true_r. by apply Hsame. }
    destruct (rvr_granted m) eqn:Eg; cycle 1.
    { cbn [andb apply]. unfold apply_vote_response. rewrite Er, Eg, (proj2 (Z.ltb_ge _ _)) by lia.
      rewrite (proj2 (Z.eqb_eq _ _)) by done. by apply Hsame. }
    cbn [andb]. pose proof (initial_progress_ok n (node_last_bounds n H)) as Hip. cbv zeta.
    destruct (config_quorum _ _ _) eqn:Eq; cbn [apply]; unfold apply_vote_response;
      rewrite Er, Eg, (proj2 (Z.ltb_ge _ _)), (proj2 (Z.eqb_eq _ _)) by lia; cbn [negb orb].
    + destruct (initial_progress n) as [nx mt].
      apply (finish_volatile n source (MRequestVoteResponse m)); try done; cbn; [|by rewrite Eo].
      apply (become_leader_inv n); [done|by bool_prop|done].
    + apply (finish_volatile n source (MRequestVoteResponse m)); try done; cbn; [|by rewrite Eo].
      by apply set_votes_inv.
Qed.

Lemma receive_read_barrier_ok n source m :
  node_inv n -> message_wf (MReadBarrier m) ->
  step_ok n (finish_receive (apply_read_barrier (observed n (rb_term m)) source m
    (rb_term m >? current_term (state n))
    (prepare_persistence n source (MReadBarrier m) false empty_transition))).
Proof.
  intros H Hw. pose proof Hw as [Hw' _]. cbn in Hw'. unfold apply_read_barrier.
  pose proof (observed_inv n (rb_term m) H ltac:(lia)) as Hinv.
  destruct (observed_fields n (rb_term m)) as (Eid & Elim & _).
  set (n1 := observed n (rb_term m)) in *.
  set (n2 := if rb_term m =? current_term (state n1) then _ else n1).
  assert (H2 : node_inv n2 /\ state n2 = state n1 /\ id n2 = id n1 /\ limits n2 = limits n1).
  { unfold n2. destruct (Z.eqb_spec (rb_term m) (current_term (state n1))) as [E|]; [|done].
    split; [apply become_follower_inv; [done|lia]|]. rewrite become_follower_eq. cbn.
    split_and!; try done. unfold observe_term. by rewrite Z.gtb_ltb, (proj2 (Z.ltb_ge _ _)) by lia. }
  destruct H2 as (Hi2 & Hs2 & Hid2 & Hl2). clearbody n2.
  apply finish_ok; [done| |congruence|congruence|].
  - rewrite Hs2. unfold n1. rewrite state_observed. apply evolves_observe.
  - cbn. pose proof (prepare_persistence_observed n source (MReadBarrier m) empty_transition eq_refl) as Hp.
    cbn in Hp. fold n1 in Hp. rewrite Hs2. destruct (persistent_state _); [done|by right].
Qed.

Lemma receive_read_barrier_response_ok n source m :
  node_inv n -> message_wf (MReadBarrierResponse m) ->
  step_ok n (finish_receive (apply_read_barrier_response (observed n (rbr_term m)) source m
    (rbr_term m >? current_term (state n))
    (prepare_persistence n source (MReadBarrierResponse m) false empty_transition))).
Proof.
  intros H Hw. pose proof (observed_volatile n source (MReadBarrierResponse m)) as Hsame. cbn in Hsame.
  unfold apply_read_barrier_response.
  destruct (pending_read_barrier (observed n (rbr_term m))) as [p|] eqn:Ep; [|by apply Hsame].
  destruct (_ || _) eqn:Eg; [by apply Hsame|]. bool_prop.
  destruct (observed_cases n (rbr_term m)) as [(_ & _ & E)|[Hn Eo]]; [congruence|].
  rewrite Eo in *. destruct (ni_barrier n H p Ep) as [Hr Ht Hi].
  assert (Hinv : node_inv (set_read_barrier n (Some (acknowledge p source)) (next_read_context n)))
    by (apply set_read_barrier_inv; [done|]; intros b [= <-]; by split).
  assert (Hnone : node_inv (set_read_barrier (set_read_barrier n (Some (acknowledge p source))
    (next_read_context n)) None (next_read_context n))) by (by apply set_read_barrier_inv).
  unfold finish_read_barrier. cbn [pending_read_barrier set_read_barrier].
  destruct (read_barrier_quorum _); apply finish_ok; try done;
    unfold prepare_persistence; cbn; rewrite Z.gtb_ltb, (proj2 (Z.ltb_ge _ _)) by done; by right.
Qed.

(** ** Committing *)

Lemma state_ok_commit lim s c :
  state_ok lim s -> commit_index s <= c <= last_index_of s -> state_ok lim (state_commit s c).
Proof.
  intros [Hl He Ht Hc Hb Ha Hcm Hs Hst Hv] Hr. split; cbn; try done; try lia.
  - by destruct Hl.
  - unfold last_index_of in *. cbn. lia.
Qed.

Lemma evolves_commit s c : commit_index s <= c -> evolves s (state_commit s c).
Proof. intros. by split; cbn; try done; lia. Qed.

Lemma commit_inv n c d next matched :
  node_inv n -> role n = kLeader -> commit_index (state n) <= c <= last_index n ->
  derive_membership (base_voters n) (log (state n)) c (limits n) = Ok d ->
  progress_ok (id n) (dm_active_voters d) (last_index n) next matched ->
  node_inv (set_progress (set_membership (set_state n (state_commit (state n) c)) d) next matched).
Proof.
  intros H Hr Hc Hd Hpr. pose proof H as [Hl Hi Hs Hb Hm Hv Hp Hpe Hba].
  split; cbn; try done.
  - by apply state_ok_commit.
  - unfold current_membership. cbn. by destruct d.
  - intros p Hpp. by apply (pending_ok_mono n); cbn; [apply Hpe|..].
  - intros b Hbb. destruct (Hba b Hbb). split; cbn; done || lia.
Qed.

(** Updating one peer's progress. *)
Lemma progress_insert self vs last next matched v x y :
  progress_ok self vs last next matched -> v <> self -> next !! v <> None ->
  1 <= x <= last + 1 -> 0 <= y <= last ->
  progress_ok self vs last (<[v := x]> next) (<[v := y]> matched).
Proof.
  intros [[Hd Hn Hm Hs] Hv] Hne Hin Hx Hy. split; [split|].
  - intros w. destruct (decide (w = v)) as [->|]; [by rewrite !lookup_insert_eq|].
    by rewrite !lookup_insert_ne by done.
  - intros w z. destruct (decide (w = v)) as [->|]; [rewrite lookup_insert_eq; by intros [= <-]|].
    rewrite lookup_insert_ne by done. apply Hn.
  - intros w z. destruct (decide (w = v)) as [->|]; [rewrite lookup_insert_eq; by intros [= <-]|].
    rewrite lookup_insert_ne by done. apply Hm.
  - intros z. rewrite lookup_insert_ne by done. apply Hs.
  - intros w. destruct (decide (w = v)) as [->|].
    + rewrite lookup_insert_eq, <- Hv. done.
    + by rewrite lookup_insert_ne.
Qed.

Lemma progress_insert_next self vs last next matched v x :
  progress_ok self vs last next matched -> next !! v <> None -> 1 <= x <= last + 1 ->
  progress_ok self vs last (<[v := x]> next) matched.
Proof.
  intros [[Hd Hn Hm Hs] Hv] Hin Hx. split; [split|]; try done.
  - intros w. destruct (decide (w = v)) as [->|]; [|by rewrite lookup_insert_ne].
    rewrite lookup_insert_eq, <- Hd. done.
  - intros w z. destruct (decide (w = v)) as [->|]; [rewrite lookup_insert_eq; by intros [= <-]|].
    rewrite lookup_insert_ne by done. apply Hn.
  - intros w. destruct (decide (w = v)) as [->|]; [rewrite lookup_insert_eq, <- Hv; done|].
    by rewrite lookup_insert_ne.
Qed.

Lemma receive_append_success_ok n source x matched m t p :
  node_inv n -> role n = kLeader -> source <> id n -> aer_term m = current_term (state n) ->
  aer_success m = true -> 0 <= aer_match_index m <= last_index n ->
  next_index n !! source = Some x -> match_index n !! source = Some matched ->
  prepare_append_success n source matched m = Ok (t, p) ->
  step_ok n (finish_receive (apply n source (MAppendEntriesResponse m) p false t)).
Proof.
  intros H Hr Hsrc Ht Hsucc Hmi Hx Hm Hprep.
  pose proof (ni_progress n H Hr) as Hpr. pose proof (node_last_bounds n H) as Hlast.
  pose proof (pp_match _ _ _ _ _ (po_pre _ _ _ _ _ Hpr) source matched Hm) as Hmb.
  unfold prepare_append_success in Hprep.
  set (raised := Z.max matched (aer_match_index m)) in *.
  assert (Hrb : 0 <= raised <= last_index n) by lia.
  rewrite (wrap_small 64 (raised + 1)) in Hprep by width_lia.
  assert (Hpr' : progress_ok (id n) (voters n) (last_index n)
    (<[source := raised + 1]> (next_index n)) (<[source := raised]> (match_index n)))
    by (apply progress_insert; try done; [congruence|lia]).
  destruct (commit_candidate _ _) as [c|] eqn:Ec.
  - apply commit_candidate_some in Ec as (Hc & _ & _).
    destruct (derive_membership _ _ _ _) as [d|] eqn:Ed; [|done].
    pose proof (rebuild_progress_ok (id n) (last_index n) (dm_active_voters d) _ _
      Hlast (po_pre _ _ _ _ _ Hpr')) as Hrp.
    destruct (rebuild_progress _ _ _ _ _) as [nx mt]. injection Hprep as <- <-. cbn [apply].
    unfold apply_append_response. rewrite Hr, Ht, (proj2 (Z.ltb_ge _ _)), Z.eqb_refl by lia.
    cbn [pc_step_down pc_state pc_membership].
    pose proof (commit_inv n c d nx mt H Hr ltac:(lia) Ed Hrp) as Hinv.
    change (set_membership (set_state (set_progress n nx mt) (state_commit (state n) c)) d)
      with (set_progress (set_membership (set_state n (state_commit (state n) c)) d) nx mt).
    set (n1 := set_progress _ _ _) in *.
    assert (Hn2 : forall b, node_inv (if b : bool then become_follower n1 (current_term (state n1)) None else n1)
      /\ state (if b then become_follower n1 (current_term (state n1)) None else n1) = state n1
      /\ id (if b then become_follower n1 (current_term (state n1)) None else n1) = id n
      /\ limits (if b then become_follower n1 (current_term (state n1)) None else n1) = limits n).
    { intros [|]; [|done]. split; [apply become_follower_inv; [done|]; pose proof (so_term _ _ (ni_state _ Hinv)); lia|].
      rewrite become_follower_eq. cbn. split_and!; try done.
      unfold observe_term. by rewrite Z.gtb_ltb, (proj2 (Z.ltb_ge _ _)) by done. }
    destruct (Hn2 (negb (is_voter (dm_active_voters d) (id n)))) as (I1 & I2 & I3 & I4).
    apply finish_ok; try done. rewrite I2. apply evolves_commit. lia.
  - injection Hprep as <- <-. cbn [apply].
    unfold apply_append_response. rewrite Hr, Ht, (proj2 (Z.ltb_ge _ _)), Z.eqb_refl by lia.
    cbn [negb orb bool_decide]. 
    apply finish_ok; try done; [by apply set_progress_inv|].
    destruct (_ <=? _); cbn; by right.
Qed.

Lemma apply_append_response_stale n source m t :
  node_inv n -> message_wf (MAppendEntriesResponse m) -> persistent_state t = None ->
  aer_term m <> current_term (state n) \/ role n <> kLeader ->
  step_ok n (finish_receive (apply_append_response (observed n (aer_term m)) m None
    (aer_term m >? current_term (state n))
    (prepare_persistence n source (MAppendEntriesResponse m) false t))).
Proof.
  intros H Hw Ht Hcase.
  pose proof (observed_volatile n source (MAppendEntriesResponse m) t H Hw Ht) as Hsame. cbn in Hsame.
  unfold apply_append_response.
  replace (_ || _ || _) with true; [done|]. symmetry.
  destruct (observed_cases n (aer_term m)) as [(Hn & Hr & _)|[Hn Eo]].
  - rewrite Hr. cbn. by rewrite orb_true_r.
  - rewrite Eo. destruct Hcase as [Hne|Hne].
    + by rewrite (proj2 (Z.ltb_lt _ _)) by lia.
    + rewrite (bool_decide_eq_false_2 (role n = kLeader)) by done. cbn. by rewrite orb_true_r.
Qed.

Lemma receive_append_response_ok n source m t p :
  node_inv n -> message_wf (MAppendEntriesResponse m) -> source <> id n ->
  validate_append_response n m = kOk ->
  prepare_append_response n source m = Ok (t, p) ->
  step_ok n (finish_receive (apply (observed n (aer_term m)) source (MAppendEntriesResponse m) p
    (aer_term m >? current_term (state n))
    (prepare_persistence n source (MAppendEntriesResponse m) false t))).
Proof.
  intros H Hw Hsrc Hval Hprep. unfold prepare_append_response in Hprep.
  destruct (Z.eqb_spec (aer_term m) (current_term (state n))) as [Et|Et]; cycle 1.
  { injection Hprep as <- <-. apply apply_append_response_stale; auto. }
  destruct (bool_decide (role n = kLeader)) eqn:Er; cycle 1.
  { injection Hprep as <- <-. apply apply_append_response_stale; auto. bool_prop. auto. }
  bool_prop. cbn [andb] in Hprep.
  destruct (observed_cases n (aer_term m)) as [(Hn & _)|[_ ->]]; [lia|].
  destruct (next_index n !! source) as [x|] eqn:Ex; [|done].
  destruct (match_index n !! source) as [matched|] eqn:Em; [|done].
  assert (Epers : prepare_persistence n source (MAppendEntriesResponse m) false t = t).
  { unfold prepare_persistence. cbn. by rewrite Z.gtb_ltb, (proj2 (Z.ltb_ge _ _)) by lia. }
  rewrite Epers, Z.gtb_ltb, (proj2 (Z.ltb_ge _ _)) by lia.
  pose proof (node_last_bounds n H) as Hlast.
  destruct (aer_success m) eqn:Es.
  - eapply receive_append_success_ok; try done. destruct Hw as [_ Hw]. cbn in Hw.
    unfold validate_append_response in Hval. rewrite Es in Hval.
    destruct (_ || _) eqn:Eg in Hval; [done|]. bool_prop.
    cbn [andb] in *. bool_prop. rewrite Z.gtb_ltb in *. bool_prop. lia.
  - unfold prepare_append_failure in Hprep. injection Hprep as <- <-. cbn [apply].
    unfold apply_append_response. rewrite Er, Et, (proj2 (Z.ltb_ge _ _)), Z.eqb_refl by lia.
    cbn [negb orb bool_decide].
    apply finish_ok; try done; [|by right].
    apply set_progress_inv; [done|]. intros _. apply progress_insert_next; [by apply H|congruence|].
    rewrite (wrap_small 64 (last_index n + 1)) by width_lia. lia.
Qed.

(** ** Snapshot messages *)

Lemma receive_install_response_ok n source m t p :
  node_inv n -> message_wf (MInstallSnapshotResponse m) -> source <> id n ->
  validate_install_response n m = kOk ->
  prepare_install_response n source m = Ok (t, p) ->
  step_ok n (finish_receive (apply (observed n (isr_term m)) source (MInstallSnapshotResponse m) p
    (isr_term m >? current_term (state n))
    (prepare_persistence n source (MInstallSnapshotResponse m) false t))).
Proof.
  intros H Hw Hsrc Hval Hprep. unfold prepare_install_response in Hprep.
  pose proof (observed_volatile n source (MInstallSnapshotResponse m)) as Hsame. cbn in Hsame.
  pose proof (observed_cases n (isr_term m)) as Hcases.
  destruct ((isr_term m =? current_term (state n)) && bool_decide (role n = kLeader)) eqn:Ec; cycle 1.
  { injection Hprep as <- <-. cbn [apply]. unfold apply_install_response.
    replace (_ || _ || _) with true; [by apply Hsame|]. symmetry.
    destruct Hcases as [(Hn & Hr & _)|[Hn ->]].
    - rewrite Hr. cbn. by rewrite orb_true_r.
    - apply andb_false_iff in Ec as [Ec|Ec]; rewrite Ec; cbn; by rewrite ?orb_true_r. }
  bool_prop. destruct Hcases as [(Hn & _)|[_ ->]]; [lia|].
  destruct (next_index n !! source) as [x|] eqn:Ex; [|done].
  destruct (match_index n !! source) as [matched|] eqn:Em; [|done].
  pose proof (node_last_bounds n H) as Hlast. destruct Hw as [_ Hw]. cbn in Hw.
  pose proof (ni_progress n H H1) as Hpr.
  pose proof (pp_match _ _ _ _ _ (po_pre _ _ _ _ _ Hpr) source matched Em) as Hmb.
  assert (Epers : forall t, prepare_persistence n source (MInstallSnapshotResponse m) false t = t).
  { intros t'. unfold prepare_persistence. cbn. by rewrite Z.gtb_ltb, (proj2 (Z.ltb_ge _ _)) by lia. }
  rewrite Epers.
  destruct (isr_success m) eqn:Es; injection Hprep as <- <-; cbn [apply];
    unfold apply_install_response; rewrite Es, H1, H0, (proj2 (Z.ltb_ge _ _)), Z.eqb_refl by lia;
    (apply finish_ok; try done; [..|by right]).
  unfold validate_install_response in Hval. rewrite Es in Hval.
  destruct (_ || _) eqn:Eg in Hval; [done|]. bool_prop. cbn [andb] in *. bool_prop.
  rewrite Z.gtb_ltb in *. bool_prop.
  rewrite (wrap_small 64) by width_lia.
  apply set_progress_inv; [done|]. intros _. apply progress_insert; try done; [congruence|lia..].
Qed.

Lemma set_state_same n : set_state n (state n) = n.
Proof. by destruct n. Qed.

Lemma state_term_observe s term : term > current_term s -> state_term s term None = observe_term s term.
Proof. intros. unfold observe_term. by rewrite Z.gtb_ltb, (proj2 (Z.ltb_lt _ _)) by lia. Qed.

(** Observing a term and then following its leader. *)
Lemma follow_inv n term leader :
  node_inv n -> 0 <= term <= max_u64 -> current_term (state n) <= term ->
  let n' := become_follower (observed n term) term leader in
  node_inv n' /\ state n' = observe_term (state n) term /\ id n' = id n /\ limits n' = limits n /\
  role n' = kFollower /\ pending_snapshot n' = pending_snapshot n /\
  base_voters n' = base_voters n /\ voters n' = voters n /\ pending_read_barrier n' = None.
Proof.
  intros H Ht Hle n'. pose proof (observed_inv n term H ltac:(lia)) as Ho.
  destruct (observed_fields n term) as (E1 & E2 & E3 & E4 & E5).
  split; [apply become_follower_inv; [done|lia]|]. unfold n'. rewrite become_follower_eq. cbn.
  split_and!; try done. rewrite state_observed.
  destruct (observe_term_spec (state n) term) as (Et & _).
  unfold observe_term at 1. by rewrite Z.gtb_ltb, (proj2 (Z.ltb_ge _ _)) by lia.
Qed.

Lemma set_pending_inv n p :
  node_inv n -> (forall r, p = Some r -> pending_ok n r) -> node_inv (set_pending_snapshot n p).
Proof.
  intros [Hl Hi Hs Hb Hm Hv Hp Hpe Hba] Hp'. split; cbn; try done.
  - intros r Hr. by apply (pending_ok_mono n); cbn; [apply Hp'|..].
  - intros b Hbb. destruct (Hba b Hbb). by split.
Qed.

Lemma receive_install_ok n source m :
  node_inv n -> message_wf (MInstallSnapshot m) -> validate_install n source m = kOk ->
  let '(t, p) := prepare_install n source m in
  step_ok n (finish_receive (apply (observed n (is_term m)) source (MInstallSnapshot m) p
    (is_term m >? current_term (state n)) t)).
Proof.
  intros H [Hw Hsw] Hval. cbn [message_term] in Hw. unfold prepare_install.
  destruct (Z.ltb_spec (is_term m) (current_term (state n))) as [Hlt|Hge].
  { cbn [apply]. unfold apply_install.
    destruct (observed_cases n (is_term m)) as [(Hn & _)|[_ ->]]; [lia|].
    rewrite (proj2 (Z.ltb_lt _ _)) by done. apply finish_ok; try done. by right. }
  pose proof (follow_inv n (is_term m) (Some source) H Hw Hge) as Hf. cbv zeta in Hf.
  destruct Hf as (Hinv & Hst & Hid & Hlim & Hrole & Hpend & _).
  destruct (observe_term_spec (state n) (is_term m)) as (Et & _ & _ & _ & Esn).
  set (s := if is_term m >? current_term (state n) then _ else None).
  assert (Hs : forall fresh t', persistent_state t' = s ->
    (forall r, fresh = Some r -> pending_ok (become_follower (observed n (is_term m)) (is_term m) (Some source)) r) ->
    step_ok n (finish_receive (apply (observed n (is_term m)) source (MInstallSnapshot m)
      (PInstall s fresh) (is_term m >? current_term (state n)) t'))).
  { intros fresh t' Hps Hfr. cbn [apply]. unfold apply_install.
    rewrite state_observed, Et, (proj2 (Z.ltb_ge _ _)) by lia.
    assert (Hset : (match s with Some s => set_state (observed n (is_term m)) s | None => observed n (is_term m) end)
      = observed n (is_term m)).
    { unfold s. destruct (Z.gtb_spec (is_term m) (current_term (state n))); [|done].
      rewrite state_term_observe, <- state_observed by lia. apply set_state_same. }
    rewrite Hset. set (n1 := become_follower _ _ _) in *.
    assert (Hn2 : node_inv (match fresh with Some r => set_pending_snapshot n1 (Some r) | None => n1 end)
      /\ state (match fresh with Some r => set_pending_snapshot n1 (Some r) | None => n1 end) = state n1
      /\ id (match fresh with Some r => set_pending_snapshot n1 (Some r) | None => n1 end) = id n1
      /\ limits (match fresh with Some r => set_pending_snapshot n1 (Some r) | None => n1 end) = limits n1).
    { destruct fresh as [r|]; [|done]. split; [|done]. apply set_pending_inv; [done|].
      intros r' [= <-]. by apply Hfr. }
    destruct Hn2 as (I1 & I2 & I3 & I4). apply finish_ok; try done; try congruence.
    - rewrite I2, Hst. apply evolves_observe.
    - rewrite Hps, I2, Hst. unfold s, observe_term.
      destruct (Z.gtb_spec (is_term m) (current_term (state n))); [done|]. by right. }
  assert (Hpt : persistent_state (with_optional_persistent empty_transition s) = s) by (by destruct s).
  destruct (Z.leb_spec (last_included_index (is_snapshot m))
    (last_included_index (snapshot (state n)))); [by apply Hs|].
  destruct (pending_snapshot n) as [q|] eqn:Eq; [by apply Hs; [destruct (bool_decide _)|]|].
  apply Hs; [done|]. intros r [= <-]. unfold validate_install in Hval.
  destruct (_ || _) eqn:Eg in Hval; [done|]. bool_prop. rewrite Z.gtb_ltb in *. bool_prop.
  destruct Hsw as [? ?]. split; rewrite ?Hst, ?Esn, ?Hlim, ?Et; try done; lia.
Qed.

(** * Receiving: append requests *)

Lemma check_entries_spec lim term es : forall expected,
  check_entries expected term lim es = kOk -> 0 <= expected < max_u64 -> Forall entry_wf es ->
  contiguous expected es /\ Forall (entry_ok lim term) es /\ expected + blen es < max_u64.
Proof.
  induction es as [|e es IH]; intros expected H He Hwf; cbn [check_entries] in H.
  { split_and!; [by intros ? ?|done|cbn; lia]. }
  apply Forall_cons in Hwf as [[Hi0 Ht0] Hwf].
  rewrite (proj2 (Z.eqb_neq _ _)) in H by lia.
  rewrite (wrap_small 64) in H by width_lia.
  destruct (_ || _) eqn:E1 in H; [done|]. destruct (_ && _) eqn:E2 in H; [done|].
  bool_prop. rewrite Z.gtb_ltb in *. bool_prop.
  destruct (IH (expected + 1)) as (Hc & Hf & Hb); [done|lia|done|].
  split_and!.
  - intros [|i] e' Hi'; [injection Hi' as <-; lia|]. apply Hc in Hi'. rewrite Hi'. lia.
  - constructor; [|done]. split_and!; try done; try lia. intros Hty.
    apply andb_false_iff in E2 as [E2|E2]; bool_prop; [done|].
    destruct (entry_payload e); [done|]. cbn [length] in *. lia.
  - cbn [length]. lia.
Qed.

Lemma term_at_position n p :
  log_inv (state n) ->
  term_at n (last_included_index (snapshot (state n)) + 1 + Z.of_nat p) =
    entry_term <$> log (state n) !! p.
Proof.
  intros Hl. pose proof Hl as [Hc ? ?]. pose proof (last_index_of_eq _ Hl) as El.
  destruct (decide (p < length (log (state n)))%nat).
  - rewrite term_at_log by (try done; unfold last_index; lia).
    f_equal. f_equal. lia.
  - rewrite lookup_ge_None_2 by lia. unfold term_at.
    destruct (Z.eqb_spec (last_included_index (snapshot (state n)) + 1 + Z.of_nat p) 0); [lia|].
    destruct (Z.eqb_spec (last_included_index (snapshot (state n)) + 1 + Z.of_nat p)
      (last_included_index (snapshot (state n)))); [lia|].
    unfold last_index. rewrite El, Z.gtb_ltb, (proj2 (Z.ltb_lt _ _)) by lia.
    by rewrite orb_true_r.
Qed.

(** The conflict scan stops where the merge cuts the log. *)
Lemma first_conflict_spec n es : forall p idx c,
  log_inv (state n) -> (p <= length (log (state n)))%nat ->
  last_included_index (snapshot (state n)) + Z.of_nat p + blen es < max_u64 ->
  contiguous (last_included_index (snapshot (state n)) + Z.of_nat p) es ->
  first_conflict n es idx = Ok c ->
  forall j e, es !! j = Some e ->
    (forall i e', (i < j)%nat -> es !! i = Some e' ->
       exists e0, log (state n) !! (p + i)%nat = Some e0 /\ entry_term e0 = entry_term e') ->
    (forall e0, log (state n) !! (p + j)%nat = Some e0 -> entry_term e0 <> entry_term e) ->
    c = Some (idx + Z.of_nat j) /\
    (commit_index (state n) < entry_index e \/ log (state n) !! (p + j)%nat = None).
Proof.
  induction es as [|e0 es IH]; intros p idx c Hl Hp Hb Hes H j e Hj Hbef Hat; [done|].
  assert (He : entry_index e0 = last_included_index (snapshot (state n)) + 1 + Z.of_nat p)
    by (rewrite (Hes 0%nat e0) by done; lia).
  cbn [first_conflict] in H. rewrite He, term_at_position in H by done. cbn [length] in Hb.
  rewrite offset_for_eq in H by (try done; destruct Hl; lia).
  replace (Z.to_nat _) with p in H by lia.
  destruct j as [|j].
  - injection Hj as <-. rewrite Nat.add_0_r in *.
    destruct (log (state n) !! p) as [el|] eqn:Ep; cbn in H.
    + rewrite bool_decide_eq_false_2 in H by (specialize (Hat el eq_refl); congruence).
      destruct (_ <=? _) eqn:Eg in H; [done|]. injection H as <-. bool_prop.
      split; [f_equal; lia|]. left. lia.
    + injection H as <-. split; [f_equal; lia|by right].
  - destruct (Hbef 0%nat e0) as (el & Hel & Het); [lia|done|]. rewrite Nat.add_0_r in Hel.
    rewrite Hel in H. cbn in H. rewrite bool_decide_eq_true_2 in H by congruence.
    destruct (bool_decide _) in H; [|done].
    destruct (IH (S p) (idx + 1) c) with (j := j) (e := e) as [-> Hd]; try done.
    + apply lookup_lt_Some in Hel. lia.
    + lia.
    + replace (last_included_index (snapshot (state n)) + Z.of_nat (S p))
        with (last_included_index (snapshot (state n)) + Z.of_nat p + Z.of_nat 1) by lia.
      apply (contiguous_drop _ (e0 :: es) 1 Hes).
    + intros i e' Hi Hlook. rewrite Nat.add_succ_comm. apply Hbef; [lia|done].
    + rewrite Nat.add_succ_comm. done.
    + rewrite Nat.add_succ_comm in Hd. split; [f_equal; lia|done].
Qed.

(** What an accepted request makes of the log. *)
Record merged_ok (n : Impl) (term : Term) (l' : list LogEntry) : Prop := {
  mg_contiguous : contiguous (last_included_index (snapshot (state n))) l';
  mg_bound : last_included_index (snapshot (state n)) + blen l' < max_u64;
  mg_entries : Forall (entry_ok (limits n) term) l';
  mg_capacity : blen l' <= maximum_log_entries (limits n);
  mg_committed i : (Z.of_nat i < commit_index (state n) - last_included_index (snapshot (state n))) ->
    l' !! i = log (state n) !! i;
  mg_commit : commit_index (state n) <= last_included_index (snapshot (state n)) + blen l' }.

Lemma predecessor_position n prev t :
  log_inv (state n) -> append_predecessor_term n prev = Some t ->
  last_included_index (snapshot (state n)) <= prev <= last_index n.
Proof.
  intros Hl H. unfold append_predecessor_term in H.
  destruct (Z.ltb_spec prev (last_included_index (snapshot (state n)))); [done|].
  apply term_at_some in H; [lia|done].
Qed.

Lemma append_merge_ok n source m c :
  node_inv n -> Forall entry_wf (ae_entries m) -> current_term (state n) <= ae_term m ->
  validate_append_fields n source m = kOk -> predecessor_matches n m = true ->
  first_conflict n (ae_entries m) 0 = Ok c -> append_capacity n (ae_entries m) c = kOk ->
  merged_ok n (ae_term m) (candidate_log (log (state n)) (ae_entries m)).
Proof.
  intros H Hwf Hterm Hval Hpred Hfc Hcap. pose proof (ni_state n H) as Hs.
  pose proof (so_log _ _ Hs) as Hl. pose proof Hl as [Hcont Hsnap Hbound].
  pose proof (last_index_of_eq _ Hl) as Hlast.
  apply bool_decide_eq_true in Hpred. apply predecessor_position in Hpred; [|done].
  unfold last_index in Hpred.
  unfold validate_append_fields in Hval. destruct (_ || _) in Hval; [done|].
  destruct (_ =? _) in Hval; [done|].
  apply check_entries_spec in Hval as (Hec & Hef & Heb); [|lia|done].
  set (snap := last_included_index (snapshot (state n))) in *.
  set (p := Z.to_nat (ae_previous_log_index m - snap)).
  replace (ae_previous_log_index m) with (snap + Z.of_nat p) in * by lia.
  assert (Hp : (p <= length (log (state n)))%nat) by lia.
  assert (Hold : Forall (entry_ok (limits n) (ae_term m)) (log (state n))).
  { eapply Forall_impl; [exact (so_entries _ _ Hs)|]. intros e (? & ?). split; [lia|done]. }
  pose proof (so_commit _ _ Hs) as Hcm. pose proof (so_capacity _ _ Hs) as Hcp.
  destruct (candidate_log_spec snap (ae_entries m) (log (state n)) p Hcont Hp Hec)
    as [[-> _]|(j & e & Hj & Hle & Hbef & Hne & ->)].
  { split; fold snap; try done; lia. }
  destruct (first_conflict_spec n (ae_entries m) p 0 c Hl Hp ltac:(fold snap; lia) Hec Hfc j e Hj Hbef Hne)
    as [-> Hat].
  pose proof (lookup_lt_Some _ _ _ Hj) as Hjl. pose proof (Hec j e Hj) as Hej.
  assert (Hkeep : commit_index (state n) - snap <= Z.of_nat (p + j)).
  { destruct Hat as [Hlt|Hnone]; [lia|]. apply lookup_ge_None in Hnone. lia. }
  assert (Hlen : blen (take (p + j) (log (state n)) ++ drop j (ae_entries m))
    = Z.of_nat p + blen (ae_entries m)) by (rewrite length_app, length_take, length_drop; lia).
  split; fold snap; rewrite ?Hlen.
  - apply contiguous_app; [by apply contiguous_take|]. rewrite length_take.
    replace (snap + Z.of_nat ((p + j) `min` length (log (state n))))
      with (snap + Z.of_nat p + Z.of_nat j) by lia. by apply contiguous_drop.
  - lia.
  - apply Forall_app. split; [by apply Forall_take|by apply Forall_drop].
  - unfold append_capacity in Hcap. rewrite Z.add_0_l, Nat2Z.id, Hj in Hcap. unfold last_index in Hcap.
    rewrite offset_for_eq in Hcap by (try done; fold snap; lia). fold snap in Hcap.
    destruct (_ >? _) eqn:Eg in Hcap; [done|]. rewrite Z.gtb_ltb in Eg. bool_prop.
    destruct (Z.leb_spec (entry_index e) (last_index_of (state n))); lia.
  - intros i Hi. rewrite lookup_app_l by (rewrite length_take; lia). apply lookup_take_lt. lia.
  - lia.
Qed.

(** The state an accepted request leaves. *)
Definition appended_state (n : Impl) (m : AppendEntriesRequest) (v : ValidatedAppend)
  : PersistentState :=
  state_commit (state_log (observe_term (state n) (ae_term m)) (va_log v)) (va_commit v).

Lemma validate_append_some n source active m v :
  validate_append n source active m = Ok (Some v) ->
  validate_append_fields n source m = kOk /\ current_term (state n) <= ae_term m /\
  predecessor_matches n m = true /\
  (exists c, first_conflict n (ae_entries m) 0 = Ok c /\ append_capacity n (ae_entries m) c = kOk) /\
  va_log v = candidate_log (log (state n)) (ae_entries m) /\
  va_commit v = prospective_commit n (va_log v) (ae_leader_commit m) /\
  derive_membership (base_voters n) (va_log v) (va_commit v) (limits n) = Ok (va_membership v) /\
  persistent_state_fits (blen (snapshot_voters (snapshot (state n)))) (va_log v) (limits n) = kOk.
Proof.
  unfold validate_append, check. intros H.
  destruct (is_ok (validate_append_fields n source m)) eqn:E0; [|unfold make_unexpected in H; done].
  destruct (Z.ltb_spec (ae_term m) (current_term (state n))); [by destruct (negb _)|].
  destruct (predecessor_matches n m); [|by destruct active]. cbn [negb] in H.
  apply rbind_Ok in H as (c & Hc & H).
  destruct (is_ok (append_capacity _ _ _)) eqn:E1; [|unfold make_unexpected in H; done].
  apply rbind_Ok in H as (d & Hd & H). destruct (_ && _) in H; [done|].
  destruct (is_ok _) eqn:E2 in H; [|unfold make_unexpected in H; done]. injection H as <-.
  unfold is_ok in *. bool_prop. cbn. split_and!; try done; try lia. eauto.
Qed.

Lemma append_accept_state n m v :
  current_term (state n) <= ae_term m -> commit_index (state n) <= va_commit v ->
  match append_accept n m v with
  | Some s => s = appended_state n m v
  | None => state n = appended_state n m v /\ ae_term m = current_term (state n)
  end.
Proof.
  intros Ht Hc. unfold append_accept, appended_state, observe_term.
  rewrite !Z.gtb_ltb.
  destruct (Z.ltb_spec (current_term (state n)) (ae_term m)); cbn [orb]; [done|].
  assert (Et : ae_term m = current_term (state n)) by lia.
  destruct (bool_decide (va_log v = log (state n))) eqn:El; cbn [negb orb].
  - bool_prop. destruct (Z.ltb_spec (commit_index (state n)) (va_commit v)); cbn.
    + rewrite Et. by destruct (state n).
    + split; [|done]. rewrite El. replace (va_commit v) with (commit_index (state n)) by lia.
      by destruct (state n).
  - rewrite Et. by destruct (state n).
Qed.

Lemma appended_state_ok n source active m v :
  node_inv n -> message_wf (MAppendEntries m) ->
  validate_append n source active m = Ok (Some v) ->
  state_ok (limits n) (appended_state n m v) /\ evolves (state n) (appended_state n m v) /\
  commit_index (state n) <= va_commit v.
Proof.
  intros H [Hw Hwf] Hval. cbn in Hw, Hwf.
  apply validate_append_some in Hval as (Hf & Ht & Hpr & (c & Hc & Hcap) & El & Ecm & Ed & Hfit).
  pose proof (append_merge_ok n source m c H Hwf Ht Hf Hpr Hc Hcap) as [M1 M2 M3 M4 M5 M6].
  rewrite <- El in *. pose proof (ni_state n H) as Hs.
  pose proof (state_ok_observe _ _ (ae_term m) Hs ltac:(lia)) as Ho.
  destruct (observe_term_spec (state n) (ae_term m)) as (Et & _ & Eci & Eai & Esn).
  assert (Hlast : last_index_of (appended_state n m v)
    = last_included_index (snapshot (state n)) + blen (va_log v)).
  { unfold appended_state, last_index_of. cbn. rewrite Esn. by apply contiguous_last. }
  assert (Hcb : commit_index (state n) <= va_commit v <= last_index_of (appended_state n m v)).
  { rewrite Hlast, Ecm. unfold prospective_commit.
    pose proof (contiguous_last _ _ M1) as E. rewrite E. lia. }
  split; [|split; [|lia]].
  - destruct Ho as [Ol Oe Ot Oc Ob Oa Ocm Os Ost Ov].
    split; cbn; try done; rewrite ?Esn in *; try done; try lia.
    + split; cbn; rewrite ?Esn; [done|apply (so_log _ _ Hs)|done].
    + by rewrite Et, Z.max_r by lia.
  - pose proof (evolves_observe (state n) (ae_term m)) as [V1 V2 V3 V4 V5 V6].
    split; cbn; rewrite ?Esn, ?Eai, ?Et; try lia.
    + intros w E Hv. apply V2; [lia|done].
    + intros i e Hi He. unfold entry_at in *. cbn. rewrite Esn, M5; [done|].
      pose proof (li_snapshot _ (so_log _ _ Hs)). lia.
Qed.

Lemma membership_inv n d s :
  node_inv n -> role n = kFollower -> pending_read_barrier n = None ->
  state_ok (limits n) s -> snapshot s = snapshot (state n) ->
  current_term s = current_term (state n) ->
  derive_membership (base_voters n) (log s) (commit_index s) (limits n) = Ok d ->
  node_inv (set_membership (set_state n s) d).
Proof.
  intros H Hr Hnone Hs Esn Et Hd. pose proof H as [Hl Hi Hs0 Hb Hm Hv Hp Hpe Hba].
  split; cbn; rewrite ?Hr, ?Hnone; try done.
  - by destruct d.
  - intros p Hpp. apply (pending_ok_mono n); cbn; [by apply Hpe|done|by rewrite Esn|lia|done].
Qed.

Lemma install_membership_follower n d :
  role n = kFollower -> install_membership n d = set_membership n d.
Proof. intros Hr. unfold install_membership. cbn. by rewrite Hr. Qed.

Lemma observe_term_old s term : term <= current_term s -> observe_term s term = s.
Proof. intros. unfold observe_term. by rewrite Z.gtb_ltb, (proj2 (Z.ltb_ge _ _)). Qed.

(** What applying an accepted request makes of the node. *)
Lemma apply_append_accepted n source m v changed t :
  current_term (state n) <= ae_term m -> commit_index (state n) <= va_commit v ->
  apply_append (observed n (ae_term m)) source m (Some (va_membership v)) (append_accept n m v)
    changed t =
  (kOk, changed || bool_decide (append_accept n m v <> None), t,
   set_membership (set_state (become_follower (observed n (ae_term m)) (ae_term m) (Some source))
                     (appended_state n m v)) (va_membership v)).
Proof.
  intros Ht Hcle. pose proof (append_accept_state n m v Ht Hcle) as Hacc.
  destruct (observe_term_spec (state n) (ae_term m)) as (Eterm & _).
  unfold apply_append. rewrite state_observed, Eterm, (proj2 (Z.ltb_ge _ _)) by lia.
  cbv zeta. f_equal.
  rewrite install_membership_follower by (by rewrite become_follower_eq).
  rewrite !become_follower_eq. unfold set_membership, set_state. cbn.
  destruct (append_accept n m v) as [s|]; cbn.
  - rewrite Hacc, observe_term_old by (cbn; lia). done.
  - destruct Hacc as [Hacc Et]. rewrite <- Hacc.
    destruct (observed_cases n (ae_term m)) as [(? & _)|[_ ->]]; [lia|].
    by rewrite observe_term_old by lia.
Qed.

Lemma receive_append_accepted_ok n source active m v t p :
  node_inv n -> message_wf (MAppendEntries m) ->
  validate_append n source active m = Ok (Some v) ->
  prepare_append n source m (Some v) = Ok (t, p) ->
  step_ok n (finish_receive (apply (observed n (ae_term m)) source (MAppendEntries m) p
    (ae_term m >? current_term (state n)) t)).
Proof.
  intros H Hw Hval Hprep.
  destruct (appended_state_ok n source active m v H Hw Hval) as (Hok & Hev & Hcle).
  apply validate_append_some in Hval as (_ & Ht & Hpr & _ & _ & _ & Ed & _).
  pose proof (append_accept_state n m v Ht Hcle) as Hacc.
  destruct Hw as [Hw _]. cbn [message_term] in Hw.
  pose proof (follow_inv n (ae_term m) (Some source) H Hw Ht) as Hf. cbv zeta in Hf.
  destruct Hf as (Hinv & Hst & Hid & Hlim & Hrole & _ & Hbase & _ & Hbar).
  destruct (observe_term_spec (state n) (ae_term m)) as (Eterm & _ & _ & _ & Esn).
  unfold prepare_append in Hprep. rewrite (proj2 (Z.ltb_ge _ _)), Hpr in Hprep by lia.
  cbn [negb] in Hprep. injection Hprep as <- <-. cbn [apply].
  rewrite apply_append_accepted by done.
  apply finish_ok; try done.
  - apply membership_inv; try done; rewrite ?Hlim, ?Hst, ?Hbase; done.
  - cbn. destruct (append_accept n m v) as [s|]; cbn in *.
    + destruct (_ >? _); cbn; done.
    + destruct Hacc as [Hacc _]. rewrite <- Hacc. destruct (va_commit v >? _); cbn; by right.
Qed.

Lemma receive_append_ok n source active m v t p :
  node_inv n -> message_wf (MAppendEntries m) ->
  validate_append n source active m = Ok v -> prepare_append n source m v = Ok (t, p) ->
  step_ok n (finish_receive (apply (observed n (ae_term m)) source (MAppendEntries m) p
    (ae_term m >? current_term (state n)) t)).
Proof.
  intros H Hw Hval Hprep. pose proof Hprep as Hprep'. unfold prepare_append in Hprep'.
  destruct Hw as [Hw Hwf]. cbn [message_term] in Hw.
  destruct (Z.ltb_spec (ae_term m) (current_term (state n))) as [Hlt|Hge].
  { injection Hprep' as <- <-. cbn [apply]. unfold apply_append.
    destruct (observed_cases n (ae_term m)) as [(Hn & _)|[_ ->]]; [lia|].
    rewrite (proj2 (Z.ltb_lt _ _)) by done. apply finish_ok; try done. by right. }
  destruct (predecessor_matches n m) eqn:Epm; cbn [negb] in Hprep'.
  { destruct v as [v|]; [|done]. by eapply receive_append_accepted_ok. }
  pose proof (follow_inv n (ae_term m) (Some source) H Hw Hge) as Hf. cbv zeta in Hf.
  destruct Hf as (Hinv & Hst & Hid & Hlim & _).
  destruct (observe_term_spec (state n) (ae_term m)) as (Eterm & _).
  rewrite Z.gtb_ltb in *.
  destruct (Z.ltb_spec (current_term (state n)) (ae_term m)); injection Hprep' as <- <-; cbn [apply];
    unfold apply_append; rewrite state_observed, Eterm, (proj2 (Z.ltb_ge _ _)) by lia.
  - rewrite state_term_observe, <- state_observed, set_state_same by lia.
    apply finish_ok; try done; cbn; rewrite Hst; [apply evolves_observe|by rewrite state_observed].
  - apply finish_ok; try done; cbn; rewrite Hst; [apply evolves_observe|]. right.
    unfold observe_term. by rewrite Z.gtb_ltb, (proj2 (Z.ltb_ge _ _)) by lia.
Qed.

(** * Every message *)

Lemma receive_ok n source m : node_inv n -> message_wf m -> step_ok n (receive n source m).
Proof.
  intros H Hw. unfold receive.
  destruct ((source =? 0) || (source =? id n) || _) eqn:Eg; [refuse|]. bool_prop.
  destruct (validate n source (voter n source) m) as [v|] eqn:Ev; [|refuse].
  destruct (prepare n source m v) as [[t p]|] eqn:Ep; [|refuse].
  fold (observed n (message_term m)).
  unfold validate in Ev. destruct (Z.eqb_spec (message_term m) 0) as [|Ht0]; [done|].
  destruct m as [m|m|m|m|m|m|m|m]; cbn [prepare message_term] in *.
  - destruct (prepare_vote n source m) as [t0 p0] eqn:E0. injection Ep as <- <-.
    injection E0 as <- <-. by apply receive_vote_ok.
  - pose proof (receive_vote_response_ok n source m H Hw) as Hr.
    destruct (prepare_vote_response n source m) as [t0 p0]. by injection Ep as <- <-.
  - by eapply receive_append_ok.
  - unfold check in Ev. destruct (is_ok _) eqn:E; [|unfold make_unexpected in Ev; done].
    unfold is_ok in E. bool_prop. apply rbind_Ok in Ep as ([t0 p0] & Ep & Hp).
    injection Hp as <- <-. by apply receive_append_response_ok.
  - unfold check in Ev. destruct (is_ok _) eqn:E; [|unfold make_unexpected in Ev; done].
    unfold is_ok in E. bool_prop. pose proof (receive_install_ok n source m H Hw E) as Hr.
    destruct (prepare_install n source m) as [t0 p0]. by injection Ep as <- <-.
  - unfold check in Ev. destruct (is_ok _) eqn:E; [|unfold make_unexpected in Ev; done].
    unfold is_ok in E. bool_prop. apply rbind_Ok in Ep as ([t0 p0] & Ep & Hp).
    injection Hp as <- <-. by apply receive_install_response_ok.
  - injection Ep as <- <-. by apply receive_read_barrier_ok.
  - injection Ep as <- <-. by apply receive_read_barrier_response_ok.
Qed.

(** * Appending by the leader *)

Lemma limits_bounds n :
  node_inv n ->
  0 < maximum_voters (limits n) <= kMaximumMembershipVoters /\
  maximum_persistent_state_bytes (limits n) <= kMaximumRaftPersistentStatePayloadSize.
Proof.
  intros H. destruct (ni_limits n H) as [Hl (H1 & _)]. unfold limits_ok in Hl. bool_prop.
  split; [lia|done].
Qed.

Lemma snapshot_voters_bound n :
  node_inv n -> 0 <= blen (snapshot_voters (snapshot (state n))) <= 65535 \/
                last_included_index (snapshot (state n)) = 0.
Proof.
  intros H. destruct (so_snapshot _ _ (ni_state n H)) as [|Hv]; [by right|left].
  unfold valid_snapshot in Hv. bool_prop.
  match goal with V : valid_voters _ _ = true |- _ => apply valid_voters_spec in V as (_ & ? & _) end.
  pose proof (limits_bounds n H) as [? _]. unfold kMaximumMembershipVoters in *. lia.
Qed.

(** One more entry fits exactly when the extended log does. *)
Lemma appended_entry_fits_spec n type payload t i :
  node_inv n -> appended_entry_fits (state n) (blen payload) (limits n) = kOk ->
  persistent_state_fits (blen (snapshot_voters (snapshot (state n))))
    (log (state n) ++ [{| entry_index := i; entry_term := t; entry_type := type;
                          entry_payload := payload |}]) (limits n) = kOk.
Proof.
  intros H Hfit. pose proof (limits_bounds n H) as [_ Hm].
  unfold appended_entry_fits, persistent_state_fits, raft_persistent_state_payload_size in *.
  destruct (checked_multiply _ _) as [vb|] eqn:Em; [|done].
  assert (Hvb : 0 <= vb).
  { unfold checked_multiply in Em. destruct (_ && _) in Em; [done|]. injection Em as <-.
    pose proof (wrap_in_width 64 (blen (snapshot_voters (snapshot (state n))) * 8) ltac:(lia)) as [? _]. done. }
  destruct (checked_add kRaftPersistentStateFixedSizeV1 vb) as [sz|] eqn:Ea; [|done].
  assert (Hsz : 0 <= sz).
  { unfold checked_add in Ea. destruct (_ >? _) in Ea; [done|]. injection Ea as <-.
    pose proof (wrap_in_width 64 (kRaftPersistentStateFixedSizeV1 + vb) ltac:(lia)) as [? _]. done. }
  destruct (payload_size_loop sz (log (state n))) as [total|] eqn:El; [|done].
  apply payload_size_loop_Ok in El; [|done]. pose proof (log_bytes_nonneg (log (state n))).
  unfold kRaftPersistentLogEntryFixedSizeV1, kMaximumRaftPersistentStatePayloadSize, checked_add in *.
  destruct (Z.gtb_spec 32 (max_u64 - total)); [done|].
  rewrite (wrap_small 64 (total + 32)) in Hfit by width_lia.
  destruct (Z.gtb_spec (blen payload) (max_u64 - (total + 32))); [done|].
  rewrite (wrap_small 64) in Hfit by width_lia.
  destruct (Z.leb_spec (total + 32 + blen payload) (maximum_persistent_state_bytes (limits n))); [|done].
  rewrite payload_size_loop_exact by (try done; rewrite log_bytes_app; cbn; lia).
  rewrite log_bytes_app. cbn. rewrite (proj2 (Z.leb_le _ _)) by lia. done.
Qed.

(** A leader has voted in its term, so the term is not zero. *)
Lemma leader_term n : node_inv n -> role n = kLeader -> 1 <= current_term (state n).
Proof.
  intros H Hr. pose proof (ni_vote n H ltac:(by rewrite Hr)) as Hv.
  destruct (so_vote _ _ (ni_state n H)) as [_ Hz]. pose proof (so_term _ _ (ni_state n H)).
  destruct (decide (current_term (state n) = 0)) as [E|]; [|lia]. rewrite (Hz E) in Hv. done.
Qed.

(** What the guards before an append establish. *)
Record may_append (n : Impl) (type : Z) (payload : list byte) : Prop := {
  ma_leader : role n = kLeader;
  ma_type : type <> 0;
  ma_size : blen payload <= maximum_entry_bytes (limits n);
  ma_noop : type = kLeaderNoopEntryType -> payload = [];
  ma_room : log_full n = false;
  ma_fits : appended_entry_fits (state n) (blen payload) (limits n) = kOk }.

Lemma push_entry_ok n type payload :
  node_inv n -> may_append n type payload ->
  state_ok (limits n) (state (push_entry n type payload)) /\
  evolves (state n) (state (push_entry n type payload)) /\
  last_index (push_entry n type payload) = last_index n + 1.
Proof.
  intros H [Hr Ht Hsz Hno Hroom Hfit]. unfold log_full in Hroom. rewrite !Z.geb_leb in Hroom. bool_prop.
  pose proof (ni_state n H) as Hs. pose proof (so_log _ _ Hs) as Hl. pose proof Hl as [Hc Hs0 Hb].
  pose proof (last_index_of_eq _ Hl) as El. pose proof (leader_term n H Hr) as Hterm.
  pose proof (so_term _ _ Hs). unfold push_entry. unfold last_index in *.
  rewrite (wrap_small 64) by width_lia. set (e := {| entry_index := _ |}).
  assert (Hlast : last_index_of (state (set_state n (state_log (state n) (log (state n) ++ [e]))))
    = last_index_of (state n) + 1).
  { unfold last_index_of at 1. cbn. by rewrite last_snoc. }
  split; [|split; [|exact Hlast]].
  - destruct Hs as [_ He _ Hcp Hbu Ha Hcm Hsn Hst Hv]. split; cbn; try done.
    + split; cbn; [|done|rewrite length_app; cbn; lia].
      apply contiguous_app; [done|]. intros [|i] e' Hi; [|done]. injection Hi as <-.
      unfold e. cbn. lia.
    + apply Forall_app. split; [done|]. constructor; [|done]. split_and!; cbn; done || lia.
    + rewrite length_app. cbn. lia.
    + by apply appended_entry_fits_spec.
    + cbn in Hlast. lia.
  - split; cbn; try done; try lia.
    intros i e' Hi He'. unfold entry_at in *. cbn. rewrite lookup_app_l; [done|].
    by apply lookup_lt_Some in He'.
Qed.

Lemma self_progress_ok self vs last next matched :
  progress_pre (fun _ => True) self (last + 1) next matched -> (forall v, next !! v <> None <-> v ∈ vs) ->
  0 <= last -> next !! self <> None ->
  progress_ok self vs (last + 1) (<[self := last + 1 + 1]> next) (<[self := last + 1]> matched).
Proof.
  intros [Hd Hn Hm _] Hv H0 Hin. split; [split|].
  - intros w. destruct (decide (w = self)) as [->|]; [by rewrite !lookup_insert_eq|].
    by rewrite !lookup_insert_ne by done.
  - intros w z. destruct (decide (w = self)) as [->|]; [rewrite lookup_insert_eq; intros [= <-]; lia|].
    rewrite lookup_insert_ne by done. apply Hn.
  - intros w z. destruct (decide (w = self)) as [->|]; [rewrite lookup_insert_eq; intros [= <-]; lia|].
    rewrite lookup_insert_ne by done. apply Hm.
  - intros z. rewrite lookup_insert_eq. by intros [= <-].
  - intros w. destruct (decide (w = self)) as [->|].
    + rewrite lookup_insert_eq, <- Hv. done.
    + by rewrite lookup_insert_ne.
Qed.

Lemma progress_pre_weaken self last next matched :
  progress_pre (eq last) self last next matched ->
  progress_pre (fun _ => True) self (last + 1) next matched.
Proof.
  intros [Hd Hn Hm Hs]. split; try done.
  - intros v x Hx. apply Hn in Hx. lia.
  - intros v x Hx. apply Hm in Hx. lia.
Qed.

(** The node after an entry has been pushed and the leader's progress recorded,
    before the commit index moves. *)
Lemma pushed_inv n type payload d next matched :
  node_inv n -> may_append n type payload ->
  derive_membership (base_voters n) (log (state (push_entry n type payload)))
    (commit_index (state n)) (limits n) = Ok d ->
  progress_ok (id n) (dm_active_voters d) (last_index n + 1) next matched ->
  node_inv (set_progress (set_membership (push_entry n type payload) d) next matched).
Proof.
  intros H Hma Hd Hpr. destruct (push_entry_ok n type payload H Hma) as (Hs & _ & Hlast).
  pose proof H as [Hl Hi _ Hb Hm Hv Hp Hpe Hba].
  split; try done.
  - unfold current_membership. cbn in *. by destruct d.
  - intros _. cbn -[last_index push_entry]. change (last_index (set_progress _ _ _))
      with (last_index (push_entry n type payload)). by rewrite Hlast.
  - intros p Hpp. by apply (pending_ok_mono n); cbn; [apply Hpe|..].
  - intros b Hbb. destruct (Hba b Hbb). by split.
Qed.

Lemma install_membership_leader n d :
  role n = kLeader ->
  install_membership n d =
    let '(next, matched) := rebuild_progress (id n) (last_index n) (dm_active_voters d)
                              (next_index n) (match_index n) in
    set_progress (set_membership n d) next matched.
Proof.
  intros Hr. unfold install_membership. cbv zeta. cbn [role set_membership].
  rewrite bool_decide_eq_true_2 by done. reflexivity.
Qed.

Lemma advance_commit_ok n t r t' n' :
  node_inv n -> role n = kLeader -> advance_commit n t = (Ok r, t', n') ->
  node_inv n' /\ evolves (state n) (state n') /\ id n' = id n /\ limits n' = limits n.
Proof.
  intros H Hr Ha. unfold advance_commit in Ha.
  destruct (commit_candidate _ _) as [c|] eqn:Ec; [|by injection Ha as <- <- <-].
  apply commit_candidate_some in Ec as (Hc & _).
  destruct (derive_membership _ _ _ _) as [d|] eqn:Ed; [|by unfold make_unexpected in Ha].
  rewrite install_membership_leader in Ha by done.
  pose proof (rebuild_progress_ok (id n) (last_index n) (dm_active_voters d) _ _
    (node_last_bounds n H) (po_pre _ _ _ _ _ (ni_progress n H Hr))) as Hrp.
  cbn [id set_state next_index match_index] in Ha.
  change (last_index (set_state n (state_commit (state n) c))) with (last_index n) in Ha.
  destruct (rebuild_progress _ _ _ _ _) as [nx mt]. injection Ha as <- <- <-.
  split; [apply commit_inv; try done; lia|]. split; [apply evolves_commit; lia|done].
Qed.

(** The leader's tail: commit what may commit, replicate, report the new state. *)
Lemma commit_and_report n n2 r t n3 n4 :
  node_inv n2 -> role n2 = kLeader -> evolves (state n) (state n2) ->
  id n2 = id n -> limits n2 = limits n ->
  advance_commit n2 empty_transition = (Ok r, t, n3) ->
  n4 = n3 \/ n4 = step_down_if_removed n3 ->
  step_ok n (install_prepared n (Ok (with_persistent (append_to_all n3 t) (state n4)), n4)).
Proof.
  intros H2 Hr2 Hev Hid Hlim Ha Hn4.
  destruct (advance_commit_ok _ _ _ _ _ H2 Hr2 Ha) as (H3 & Hev3 & Hid3 & Hlim3).
  assert (H4 : node_inv n4 /\ state n4 = state n3 /\ id n4 = id n3 /\ limits n4 = limits n3).
  { destruct Hn4 as [->| ->]; [done|]. unfold step_down_if_removed. destruct (_ && _); [|done].
    split; [apply become_follower_inv; [done|]; pose proof (so_term _ _ (ni_state _ H3)); lia|].
    rewrite become_follower_eq. cbn. by rewrite observe_term_old. }
  destruct H4 as (I1 & I2 & I3 & I4). split_and!; cbn; try done; try congruence.
  rewrite I2. by etransitivity.
Qed.

Lemma append_local_entry_ok n type payload :
  node_inv n -> may_append n type payload -> is_membership_entry_type type = false ->
  step_ok n (install_prepared n (append_local_entry n type payload)).
Proof.
  intros H Hma Hty. unfold append_local_entry.
  destruct (push_entry_ok n type payload H Hma) as (Hs1 & Hev1 & Hlast1).
  pose proof (node_last_bounds n H) as Hlb. pose proof (ma_leader _ _ _ Hma) as Hr.
  pose proof (ma_room _ _ _ Hma) as Hroom. unfold log_full in Hroom. rewrite !Z.geb_leb in Hroom. bool_prop.
  rewrite (wrap_small 64 (last_index n + 1)) by width_lia.
  unfold set_self_progress. cbn [match_index next_index id push_entry set_state].
  destruct (match_index n !! id n) as [x|] eqn:Em; [|refuse].
  destruct (next_index n !! id n) as [y|] eqn:En; [|refuse].
  rewrite (wrap_small 64) by width_lia.
  set (nx := <[id n := _]> (next_index n)). set (mt := <[id n := _]> (match_index n)).
  pose proof (ni_progress n H Hr) as [Hpp Hpd].
  assert (Hpr : progress_ok (id n) (voters n) (last_index n + 1) nx mt).
  { apply self_progress_ok; [by apply progress_pre_weaken|done|lia|congruence]. }
  assert (H2 : node_inv (set_progress (push_entry n type payload) nx mt)).
  { apply (pushed_inv n type payload (current_membership n) nx mt H Hma); [|done].
    cbn. apply derive_plain_entry; [done|]. by apply H. }
  destruct (advance_commit _ _) as [[[r|e] t] n3] eqn:Ea; [|refuse].
  eapply commit_and_report; [exact H2|done|done|done|done|exact Ea|by left].
Qed.

Lemma append_membership_entry_ok n type payload :
  node_inv n -> may_append n type payload ->
  step_ok n (install_prepared n (append_membership_entry n type payload)).
Proof.
  intros H Hma. unfold append_membership_entry.
  destruct (push_entry_ok n type payload H Hma) as (Hs1 & Hev1 & Hlast1).
  pose proof (node_last_bounds n H) as Hlb. pose proof (ma_leader _ _ _ Hma) as Hr.
  pose proof (ma_room _ _ _ Hma) as Hroom. unfold log_full in Hroom. rewrite !Z.geb_leb in Hroom. bool_prop.
  rewrite (wrap_small 64 (last_index n + 1)) by width_lia.
  destruct (derive_membership _ _ _ _) as [d|] eqn:Ed; [|refuse].
  rewrite install_membership_leader by done. rewrite Hlast1.
  cbn [id push_entry set_state next_index match_index].
  pose proof (rebuild_progress_pre (fun _ => True) (id n) (last_index n + 1) (dm_active_voters d)
    (next_index n) (match_index n) ltac:(lia) I
    (progress_pre_weaken _ _ _ _ (po_pre _ _ _ _ _ (ni_progress n H Hr)))) as Hrp.
  destruct (rebuild_progress _ _ _ _ _) as [nx0 mt0]. destruct Hrp as [Hpp Hpd].
  unfold set_self_progress. cbn [match_index next_index id set_progress set_membership push_entry set_state].
  destruct (mt0 !! id n) as [x|] eqn:Em; [|refuse].
  destruct (nx0 !! id n) as [y|] eqn:En; [|refuse].
  rewrite (wrap_small 64) by width_lia.
  set (nx := <[id n := _]> nx0). set (mt := <[id n := _]> mt0).
  assert (Hpr : progress_ok (id n) (dm_active_voters d) (last_index n + 1) nx mt)
    by (apply self_progress_ok; [done|done|lia|congruence]).
  pose proof (pushed_inv n type payload d nx mt H Hma Ed Hpr) as H2.
  change (set_progress (set_progress (set_membership (push_entry n type payload) d) nx0 mt0) nx mt)
    with (set_progress (set_membership (push_entry n type payload) d) nx mt).
  destruct (advance_commit _ _) as [[[r|e] t] n3] eqn:Ea; [|refuse].
  eapply commit_and_report; [exact H2|done|done|done|done|exact Ea|by right].
Qed.

Lemma commit_current_term_ok n : node_inv n -> step_ok n (commit_current_term n).
Proof.
  intros H. unfold commit_current_term.
  destruct (bool_decide (role n = kLeader)) eqn:Er; [|refuse]. bool_prop. cbn [negb].
  destruct (existsb _ _); [refuse|]. destruct (log_full n) eqn:Ef; [refuse|].
  destruct (is_ok (appended_entry_fits (state n) 0 (limits n))) eqn:Eo; [|refuse].
  unfold is_ok in Eo. bool_prop. cbn [negb].
  apply append_local_entry_ok; [done| |done]. split; try done. cbn.
  destruct (ni_limits n H) as [_ Hw]. unfold limits_wf in Hw. lia.
Qed.

Lemma propose_ok n type payload : node_inv n -> step_ok n (propose n type payload).
Proof.
  intros H. unfold propose.
  destruct (bool_decide (role n = kLeader)) eqn:Er; [|refuse]. bool_prop. cbn [negb].
  destruct (_ || _) eqn:Eg; [refuse|]. unfold is_internal_raft_entry_type in Eg. bool_prop.
  rewrite Z.gtb_ltb in *. bool_prop.
  destruct (is_ok (appended_entry_fits _ _ _)) eqn:Eo; [|refuse].
  unfold is_ok in Eo. bool_prop. cbn [negb].
  apply append_local_entry_ok; [done| |done]. by split.
Qed.

Lemma propose_exact_retained_ok n type payload :
  node_inv n -> step_ok n (propose_exact_retained n type payload).
Proof.
  intros H. unfold propose_exact_retained.
  destruct (negb _); [refuse|]. destruct (_ || _); [refuse|].
  destruct (retained_match _ _ _ _ _) as [[|]|];
    [refuse | by apply commit_current_term_ok | by apply propose_ok].
Qed.

(** * Membership changes *)

Lemma append_command_ok n type command :
  node_inv n -> role n = kLeader -> type <> 0 -> type <> kLeaderNoopEntryType ->
  log_full n = false -> step_ok n (append_command n type command).
Proof.
  intros H Hr Ht Hno Hf. unfold append_command.
  destruct (encode_membership_command_v1 _ _) as [payload|]; [|refuse].
  destruct (Z.gtb_spec (blen payload) (maximum_entry_bytes (limits n))); [refuse|].
  destruct (is_ok (appended_entry_fits _ _ _)) eqn:Eo; [|refuse].
  unfold is_ok in Eo. bool_prop. cbn [negb].
  apply append_membership_entry_ok; [done|]. by split.
Qed.

Lemma begin_membership_change_ok n vs : node_inv n -> step_ok n (begin_membership_change n vs).
Proof.
  intros H. unfold begin_membership_change.
  destruct (bool_decide (role n = kLeader)) eqn:Er; [|refuse]. bool_prop. cbn [negb].
  destruct (bool_decide (pending_read_barrier n <> None)); [refuse|].
  destruct (joint n) as [j|].
  - destruct (_ && _); [|refuse]. destruct (_ || _); [refuse|by apply commit_current_term_ok].
  - destruct (_ || _) eqn:Eg; [refuse|]. bool_prop. by apply append_command_ok.
Qed.

Lemma finalize_membership_change_ok n : node_inv n -> step_ok n (finalize_membership_change n).
Proof.
  intros H. unfold finalize_membership_change.
  destruct (bool_decide (role n = kLeader)) eqn:Er; [|refuse]. bool_prop. cbn [negb].
  destruct (bool_decide (pending_read_barrier n <> None)); [refuse|].
  destruct (joint n) as [j|]; [|refuse]. destruct (final_pending j).
  - destruct (list_find _ _) as [[i e]|]; [|by apply commit_current_term_ok].
    destruct (_ || _); [refuse|by apply commit_current_term_ok].
  - destruct (_ || _) eqn:Eg; [refuse|]. bool_prop. by apply append_command_ok.
Qed.

(** * Snapshots *)

(** Dropping a covered prefix of the log. *)
Lemma drop_prefix_ok n (s : SnapshotMetadata) :
  node_inv n ->
  last_included_index (snapshot (state n)) < last_included_index s <= last_index n ->
  let k := Z.to_nat (last_included_index s - last_included_index (snapshot (state n))) in
  u64 (offset_for n (last_included_index s) + 1) = Z.of_nat k /\
  contiguous (last_included_index s) (drop k (log (state n))) /\
  last_included_index s + blen (drop k (log (state n))) = last_index n /\
  Forall (entry_ok (limits n) (current_term (state n))) (drop k (log (state n))) /\
  blen (drop k (log (state n))) <= maximum_log_entries (limits n) /\
  forall i, last_included_index s < i ->
    drop k (log (state n)) !! Z.to_nat (i - last_included_index s - 1) = entry_at (state n) i.
Proof.
  intros H Hi k. pose proof (ni_state n H) as Hs. pose proof (so_log _ _ Hs) as Hl.
  pose proof Hl as [Hc H0 Hb]. pose proof (last_index_of_eq _ Hl) as El. unfold last_index in *.
  pose proof (so_capacity _ _ Hs).
  split_and!.
  - rewrite offset_for_eq by (try done; lia). rewrite wrap_small by width_lia. lia.
  - replace (last_included_index s) with (last_included_index (snapshot (state n)) + Z.of_nat k) by lia.
    by apply contiguous_drop.
  - rewrite length_drop. lia.
  - apply Forall_drop, Hs.
  - rewrite length_drop. lia.
  - intros i Hgt. rewrite lookup_drop. unfold entry_at. f_equal. lia.
Qed.

Lemma last_index_of_cont s :
  contiguous (last_included_index (snapshot s)) (log s) ->
  last_index_of s = last_included_index (snapshot s) + blen (log s).
Proof. apply contiguous_last. Qed.

Lemma prepare_completion_ok n p s d :
  node_inv n -> pending_ok n p -> is_term p = current_term (state n) ->
  prepare_completion n (is_snapshot p) = Ok (s, d) ->
  state_ok (limits n) s /\ evolves (state n) s /\ snapshot s = is_snapshot p /\
  current_term s = current_term (state n) /\
  derive_membership (snapshot_voters (is_snapshot p)) (log s) (commit_index s) (limits n) = Ok d.
Proof.
  intros H [P1 P2 P3 P4 P5 P6] Ht Hp. unfold prepare_completion in Hp.
  set (sn := is_snapshot p) in *.
  destruct (_ && _) eqn:Eg in Hp; [done|]. apply rbind_Ok in Hp as (d' & Hd & Hp).
  unfold check in Hp. destruct (is_ok _) eqn:Ef in Hp; [|unfold make_unexpected in Hp; done].
  unfold is_ok in Ef. bool_prop. injection Hp as <- <-.
  pose proof (ni_state n H) as Hs. pose proof (so_log _ _ Hs) as Hl.
  pose proof (last_index_of_eq _ Hl) as El. pose proof (so_commit _ _ Hs) as Hcm.
  assert (Hvs : last_included_index sn <> max_u64).
  { unfold valid_snapshot in P2. by bool_prop. }
  assert (Hret : contiguous (last_included_index sn) (retained_after n sn) /\
    last_included_index sn + blen (retained_after n sn) < max_u64 /\
    Forall (entry_ok (limits n) (current_term (state n))) (retained_after n sn) /\
    blen (retained_after n sn) <= maximum_log_entries (limits n) /\
    commit_index (state n) <= last_included_index sn + blen (retained_after n sn) /\
    forall i e, last_included_index sn < i <= commit_index (state n) ->
      entry_at (state n) i = Some e ->
      retained_after n sn !! Z.to_nat (i - last_included_index sn - 1) = Some e).
  { unfold retained_after.
    destruct (bool_decide _ && (_ <? _)) eqn:Er.
    - bool_prop. unfold last_index in *. pose proof (drop_prefix_ok n sn H ltac:(unfold last_index; lia)) as Hdp.
      cbv zeta in Hdp. destruct Hdp as (D1 & D2 & D3 & D4 & D5 & D6). rewrite D1, Nat2Z.id.
      unfold last_index in D3. pose proof (node_last_bounds n H) as Hnb. unfold last_index in Hnb.
      split_and!; try done; try lia. intros i e Hi He. by rewrite D6 by lia.
    - assert (commit_index (state n) <= last_included_index sn).
      { destruct (Z.le_gt_cases (commit_index (state n)) (last_included_index sn)); [done|].
        rewrite (proj2 (Z.ltb_lt _ _)) in Eg by lia. cbn [andb] in Eg. bool_prop.
        rewrite Eg in Er. rewrite bool_decide_eq_true_2 in Er by done. cbn [andb] in Er. bool_prop.
        unfold last_index in *. lia. }
      pose proof (so_capacity _ _ Hs). pose proof (li_snapshot _ Hl).
      split_and!; try done; cbn; try lia. }
  destruct Hret as (R1 & R2 & R3 & R4 & R5 & R6). destruct Hs as [_ He Htm Hcp Hbu Ha _ Hsn Hst Hv].
  set (l' := retained_after n sn) in *.
  split_and!; cbn; try done.
  - split; cbn; try done; try lia.
    + split; cbn; try done. destruct Hl. lia.
    + rewrite last_index_of_cont by done. cbn. lia.
    + by right.
  - split; cbn; done || lia.
Qed.

Lemma complete_snapshot_install_ok n source s installed :
  node_inv n -> step_ok n (complete_snapshot_install n source s installed).
Proof.
  intros H. unfold complete_snapshot_install.
  destruct (pending_snapshot n) as [p|] eqn:Ep; [|refuse].
  pose proof (ni_pending n H p Ep) as Hpk.
  destruct (negb _ || _) eqn:E1; [refuse|]. bool_prop. subst s.
  destruct (_ || _) eqn:E2.
  - split; [by apply set_pending_inv|done].
  - bool_prop. destruct (prepare_completion _ _) as [[s d]|] eqn:Epc; [|refuse].
    destruct (prepare_completion_ok n p s d H Hpk H2 Epc) as (Hs & Hev & Hsn & Het & Hd).
    pose proof (pk_role _ _ Hpk H2) as Hrole.
    split_and!; cbn; try done.
    pose proof H as [Hl Hi Hs0 Hb Hm Hv Hp Hpe Hba].
    split; cbn; rewrite ?Hrole; try done.
    + pose proof (pk_valid _ _ Hpk) as Hvs. unfold valid_snapshot in Hvs. bool_prop.
      by apply valid_voters_spec.
    + by destruct d.
    + intros b Hbb. destruct (Hba b Hbb). congruence.
Qed.

Lemma prepare_snapshot_metadata_ok n s q :
  node_inv n -> prepare_snapshot_metadata n s = Ok q ->
  pending_snapshot n = None /\
  last_included_index (snapshot (state n)) < last_included_index q <= applied_index (state n) /\
  term_at n (last_included_index q) = Some (last_included_term q) /\
  valid_snapshot q (maximum_voters (limits n)) = true /\
  persistent_state_fits (blen (snapshot_voters q))
    (drop (Z.to_nat (u64 (offset_for n (last_included_index q) + 1))) (log (state n))) (limits n) = kOk /\
  exists ck, dm_joint ck = None /\ snapshot_voters q = dm_committed_voters ck /\
    derive_membership (base_voters n)
      (take (Z.to_nat (u64 (offset_for n (last_included_index q) + 1))) (log (state n)))
      (last_included_index q) (limits n) = Ok ck.
Proof.
  intros H Hq. unfold prepare_snapshot_metadata in Hq.
  destruct (bool_decide (pending_snapshot n <> None)) eqn:E0; [done|].
  destruct (_ || _) eqn:E1 in Hq; [done|]. apply rbind_Ok in Hq as (ck & Hck & Hq).
  destruct (bool_decide (dm_joint ck <> None)) eqn:E2; [done|].
  destruct (negb _) eqn:E3 in Hq; [done|].
  unfold check in Hq. destruct (is_ok _) eqn:E4 in Hq; [|unfold make_unexpected in Hq; done].
  unfold is_ok in E4. injection Hq as <-. bool_prop. rewrite Z.gtb_ltb in *. bool_prop. cbn in *.
  split_and!; try done; try lia.
  - destruct (pending_snapshot n); [by destruct E0|done].
  - exists ck. split_and!; try done. destruct (dm_joint ck); [by destruct E2|done].
Qed.

Lemma compact_snapshot_ok n s : node_inv n -> step_ok n (compact_snapshot n s).
Proof.
  intros H. unfold compact_snapshot.
  destruct (prepare_snapshot_metadata n s) as [q|] eqn:Eq; [|refuse].
  destruct (prepare_snapshot_metadata_ok n s q H Eq) as (Hpn & Hqi & Hterm & Hval & Hfit & ck & Hj & Hvq & Hck).
  pose proof (ni_state n H) as Hs. pose proof (so_log _ _ Hs) as Hl.
  pose proof (last_index_of_eq _ Hl) as El. pose proof (so_commit _ _ Hs) as Hcm.
  pose proof (so_applied _ _ Hs) as Hap.
  pose proof (drop_prefix_ok n q H ltac:(unfold last_index; lia)) as Hdp. cbv zeta in Hdp.
  destruct Hdp as (D1 & D2 & D3 & D4 & D5 & D6). rewrite D1 in *. rewrite Nat2Z.id in *.
  set (k := Z.to_nat (last_included_index q - last_included_index (snapshot (state n)))) in *.
  assert (Hqt : 0 <= last_included_term q <= current_term (state n)).
  { rewrite term_at_log in Hterm by (try done; unfold last_index; lia).
    destruct (log (state n) !! _) as [e|] eqn:Ee; [|done]. injection Hterm as <-.
    pose proof (so_entries _ _ Hs) as Hent. rewrite Forall_lookup in Hent.
    destruct (Hent _ _ Ee) as (? & _). lia. }
  set (p := state_snapshot _ q).
  assert (Hlast : last_index_of p = last_index_of (state n)).
  { rewrite last_index_of_cont by done. cbn. exact D3. }
  assert (Hok : state_ok (limits n) p).
  { destruct Hs as [_ He Htm Hcp Hbu Ha _ Hsn Hst Hv]. split; cbn; try done; try lia.
    - split; cbn; [done|destruct Hl; lia|]. pose proof (node_last_bounds n H). lia.
    - by right. }
  split; [|split; [|by cbn]].
  - pose proof H as [Hlm Hi _ Hb Hm Hv Hp Hpe Hba]. split; cbn; try done.
    + pose proof Hval as Hval'. unfold valid_snapshot in Hval'. bool_prop. by apply valid_voters_spec.
    + rewrite Hvq. change (derive_membership (dm_committed_voters ck) (drop k (log (state n)))
        (commit_index (state n)) (limits n) = Ok (current_membership n)).
      eapply derive_membership_compact; [exact Hb| | |exact Hck|done|by rewrite take_drop].
      * intros e He. apply list_elem_of_lookup in He as [i Hlook].
        apply lookup_take_Some in Hlook as [Hlook Hlt]. apply Hl in Hlook. lia.
      * lia.
    + intros Hr. change (last_index _) with (last_index_of p). rewrite Hlast. by apply Hp.
    + by rewrite Hpn.
    + intros b Hbb. destruct (Hba b Hbb). by split.
  - split; cbn; try done; try lia. intros i e Hi He. unfold entry_at at 1. cbn. by rewrite D6 by lia.
Qed.

(** * Every operation *)

Lemma run_ok op n : node_inv n -> operation_wf op -> step_ok n (run op n).
Proof.
  intros H Hw. destruct op; cbn [run].
  - by apply start_election_ok.
  - by apply receive_ok.
  - by apply propose_ok.
  - by apply propose_exact_retained_ok.
  - by apply commit_current_term_ok.
  - by apply begin_membership_change_ok.
  - by apply finalize_membership_change_ok.
  - by apply complete_snapshot_install_ok.
  - by apply compact_snapshot_ok.
  - by apply heartbeat_ok.
  - by apply begin_read_barrier_ok.
  - by apply mark_applied_ok.
Qed.

(** * Creation *)

(** Value ranges of a persistent state as it is read back. *)
Definition state_wf (s : PersistentState) : Prop :=
  0 <= current_term s <= max_u64 /\ Forall entry_wf (log s) /\
  0 <= last_included_index (snapshot s) <= max_u64 /\ 0 <= last_included_term (snapshot s).

Lemma check_log_spec lim term es : forall expected,
  check_log (expected + 1) term lim es = kOk -> 0 <= expected < max_u64 -> Forall entry_wf es ->
  contiguous expected es /\ Forall (entry_ok lim term) es /\ expected + blen es < max_u64.
Proof.
  induction es as [|e es IH]; intros expected H He Hwf; cbn [check_log] in H.
  { split_and!; [by intros ? ?|done|cbn; lia]. }
  apply Forall_cons in Hwf as [[Hi0 Ht0] Hwf].
  destruct (_ || _) eqn:E1 in H; [done|]. destruct (_ && _) eqn:E2 in H; [done|].
  destruct (_ && _) eqn:E3 in H; [done|]. bool_prop. rewrite Z.gtb_ltb in *. bool_prop.
  rewrite (wrap_small 64) in H by width_lia.
  destruct (IH (expected + 1)) as (Hc & Hf & Hb); [done|lia|done|].
  split_and!.
  - intros [|i] e' Hi'; [injection Hi' as <-; lia|]. apply Hc in Hi'. rewrite Hi'. lia.
  - constructor; [|done]. split_and!; try done; try lia. intros Hty.
    apply andb_false_iff in E2 as [E2|E2]; bool_prop; [done|].
    destruct (entry_payload e); [done|]. cbn [length] in *. lia.
  - cbn [length]. lia.
Qed.

Lemma create_ok node_id vs s lim n :
  limits_wf lim -> state_wf s -> create node_id vs s lim = Ok n ->
  node_inv n /\ id n = node_id /\ limits n = lim /\ current_term (state n) = current_term s /\
  voted_for (state n) = voted_for s /\ log (state n) = log s /\
  commit_index (state n) = commit_index s /\ applied_index (state n) = applied_index s.
Proof.
  intros Hlw (Hsw1 & Hsw2 & Hsw3 & Hsw4) H. unfold create in H.
  destruct (_ || _) eqn:E0 in H; [done|]. destruct (_ || _) eqn:E1 in H; [done|].
  destruct (_ && _) eqn:E2 in H; [done|]. destruct (negb (empty_snapshot_canonical _)) eqn:E3; [done|].
  destruct (_ =? _) eqn:E4 in H; [done|]. destruct (_ >? _) eqn:E5 in H; [done|].
  unfold check in H. destruct (is_ok (check_log _ _ _ _)) eqn:E6 in H;
    [|unfold make_unexpected in H; done].
  destruct (_ >? _) eqn:E7 in H; [done|].
  unfold is_ok in E6. bool_prop. rewrite !Z.gtb_ltb in *. bool_prop.
  match goal with E : check_log _ _ _ _ = kOk |- _ => rename E into Hcl end.
  rewrite (wrap_small 64) in Hcl by width_lia. apply check_log_spec in Hcl as (L1 & L2 & L3); [|lia|done].
  assert (Hvs : voters_ok (sort_voters vs) (maximum_voters lim)) by (by apply sort_voters_ok).
  set (svs := sort_voters vs) in *. clearbody svs.
  destruct (base_configuration s svs) as [base s'] eqn:Ebc.
  destruct (_ && _) eqn:E8 in H; [done|].
  destruct (is_ok (persistent_state_fits _ _ _)) eqn:E9 in H; [|done]. cbn [negb] in H.
  apply rbind_Ok in H as (d & Hd & H). destruct (_ || _) eqn:E10 in H; [done|].
  injection H as <-. unfold is_ok in E9. bool_prop. rewrite !Z.gtb_ltb in *. bool_prop.
  assert (Hs' : current_term s' = current_term s /\ voted_for s' = voted_for s /\ log s' = log s /\
    commit_index s' = commit_index s /\ applied_index s' = applied_index s /\
    last_included_index (snapshot s') = last_included_index (snapshot s) /\
    last_included_term (snapshot s') = last_included_term (snapshot s) /\
    (base = svs \/ base = snapshot_voters (snapshot s') /\ last_included_index (snapshot s') <> 0)).
  { unfold base_configuration in Ebc.
    destruct (Z.eqb_spec (last_included_index (snapshot s)) 0); [injection Ebc as <- <-; split_and!; auto|].
    destruct (blen (snapshot_voters (snapshot s)) =? 0); injection Ebc as <- <-; split_and!; auto. }
  destruct Hs' as (S1 & S2 & S3 & S4 & S5 & S6 & S7 & S8).
  assert (Hsnap : last_included_index (snapshot s') = 0 \/
                  valid_snapshot (snapshot s') (maximum_voters lim) = true).
  { apply andb_false_iff in E8 as [E8|E8]; bool_prop; auto. }
  split; [|split_and!; done].
  split; cbn; try done.
  - split; cbn; rewrite ?S1, ?S2, ?S3, ?S4, ?S5, ?S6, ?S7 in *; try done; try lia.
    + split; cbn; rewrite ?S3, ?S6; done || lia.
    + unfold last_index_of in *. rewrite S3, S6. lia.
    + split; [done|]. intros Ez. rewrite Ez in *. cbn [Z.eqb andb] in *. bool_prop.
      destruct (voted_for s); [exfalso; eauto|done].
  - destruct S8 as [->|[-> Hne]]; [done|]. destruct Hsnap as [|Hv]; [done|].
    unfold valid_snapshot in Hv. bool_prop. by apply valid_voters_spec.
  - by destruct d.
Qed.

(** ** An accepted request is in the log *)

(** Entries the scan passed over are the local ones. *)
Lemma first_conflict_same n es : forall p idx c,
  log_inv (state n) -> (p <= length (log (state n)))%nat ->
  last_included_index (snapshot (state n)) + Z.of_nat p + blen es < max_u64 ->
  contiguous (last_included_index (snapshot (state n)) + Z.of_nat p) es ->
  first_conflict n es idx = Ok c ->
  forall j e, es !! j = Some e ->
    (forall i e', (i <= j)%nat -> es !! i = Some e' ->
       exists e0, log (state n) !! (p + i)%nat = Some e0 /\ entry_term e0 = entry_term e') ->
    log (state n) !! (p + j)%nat = Some e.
Proof.
  induction es as [|e0 es IH]; intros p idx c Hl Hp Hb Hes H j e Hj Hbef; [done|].
  assert (He : entry_index e0 = last_included_index (snapshot (state n)) + 1 + Z.of_nat p)
    by (rewrite (Hes 0%nat e0) by done; lia).
  cbn [first_conflict] in H. rewrite He, term_at_position in H by done. cbn [length] in Hb.
  rewrite offset_for_eq in H by (try done; destruct Hl; lia).
  replace (Z.to_nat _) with p in H by lia.
  destruct (Hbef 0%nat e0) as (el & Hel & Het); [lia|done|]. rewrite Nat.add_0_r in Hel.
  rewrite Hel in H. cbn in H. rewrite bool_decide_eq_true_2 in H by congruence.
  destruct (bool_decide _) eqn:Esame in H; [|done]. bool_prop.
  destruct j as [|j]; [injection Hj as <-; rewrite Nat.add_0_r; congruence|].
  rewrite <- Nat.add_succ_comm. eapply (IH (S p) (idx + 1)); try done.
  - apply lookup_lt_Some in Hel. lia.
  - lia.
  - replace (last_included_index (snapshot (state n)) + Z.of_nat (S p))
      with (last_included_index (snapshot (state n)) + Z.of_nat p + Z.of_nat 1) by lia.
    apply (contiguous_drop _ (e0 :: es) 1 Hes).
  - intros i e' Hi Hlook. rewrite Nat.add_succ_comm. apply Hbef; [lia|done].
Qed.

Lemma append_merge_contains n source m c :
  node_inv n -> Forall entry_wf (ae_entries m) ->
  validate_append_fields n source m = kOk -> predecessor_matches n m = true ->
  first_conflict n (ae_entries m) 0 = Ok c ->
  forall e, e ∈ ae_entries m ->
    last_included_index (snapshot (state n)) < entry_index e /\
    candidate_log (log (state n)) (ae_entries m)
      !! Z.to_nat (entry_index e - last_included_index (snapshot (state n)) - 1) = Some e.
Proof.
  intros H Hwf Hval Hpred Hfc e He. pose proof (so_log _ _ (ni_state n H)) as Hl.
  pose proof Hl as [Hcont Hsnap Hbound]. pose proof (last_index_of_eq _ Hl) as Hlast.
  apply bool_decide_eq_true in Hpred. apply predecessor_position in Hpred; [|done].
  unfold last_index in Hpred.
  unfold validate_append_fields in Hval. destruct (_ || _) in Hval; [done|].
  destruct (_ =? _) in Hval; [done|].
  apply check_entries_spec in Hval as (Hec & _ & Heb); [|lia|done].
  set (snap := last_included_index (snapshot (state n))) in *.
  set (p := Z.to_nat (ae_previous_log_index m - snap)).
  replace (ae_previous_log_index m) with (snap + Z.of_nat p) in * by lia.
  assert (Hp : (p <= length (log (state n)))%nat) by lia.
  apply list_elem_of_lookup in He as [i Hi]. pose proof (Hec i e Hi) as Hidx. split; [lia|].
  replace (Z.to_nat _) with (p + i)%nat by lia.
  pose proof (first_conflict_same n (ae_entries m) p 0 c Hl Hp ltac:(fold snap; lia) Hec Hfc) as Hsame.
  destruct (candidate_log_spec snap (ae_entries m) (log (state n)) p Hcont Hp Hec)
    as [[-> Hall]|(j & e' & Hj & Hle & Hbef & Hne & ->)].
  - apply Hsame; [done|]. intros k e'' _ Hk. by apply Hall.
  - destruct (decide (i < j)%nat).
    + rewrite lookup_app_l, lookup_take_lt by (rewrite ?length_take; lia).
      apply Hsame; [done|]. intros k e'' Hk Hlook. apply Hbef; [lia|done].
    + rewrite lookup_app_r by (rewrite length_take; lia). rewrite length_take, lookup_drop, <- Hi.
      f_equal. lia.
Qed.
