(* ===== verification/RaftTheorems.v ===== *)
(** What the Raft node guarantees, over every execution of a node: the claims
    about src/raft/node.cpp with concrete instances. *)
From S2P Require Import Prelude Bytes RaftTypes RaftMembership RaftNode RaftFacts RaftInvariant.

(** * Executions of one node *)

(** The nodes that creation and any sequence of calls lead to; a restart recreates
    the node from its persistent state. *)
Inductive reachable : Impl -> Prop :=
| reach_create node_id vs s lim n :
    limits_wf lim -> state_wf s -> create node_id vs s lim = Ok n -> reachable n
| reach_run n op r n' :
    reachable n -> operation_wf op -> run op n = (r, n') -> reachable n'.

(** Executions that continue from a node. *)
Inductive execution : Impl -> Impl -> Prop :=
| exec_refl n : execution n n
| exec_step n op r n1 n2 :
    operation_wf op -> run op n = (r, n1) -> execution n1 n2 -> execution n n2.

Lemma reachable_inv n : reachable n -> node_inv n.
Proof.
  induction 1 as [node_id vs s lim n Hl Hs H | n op r n' _ IH Hw H].
  - by destruct (create_ok node_id vs s lim n Hl Hs H).
  - pose proof (run_ok op n IH Hw) as Hok. rewrite H in Hok. apply Hok.
Qed.

Lemma execution_evolves n n' : node_inv n -> execution n n' -> evolves (state n) (state n') /\ node_inv n'.
Proof.
  intros Hi He. revert Hi. induction He as [n|n op r n1 n2 Hw H _ IH]; intros Hi; [done|].
  pose proof (run_ok op n Hi Hw) as Hok. rewrite H in Hok. destruct Hok as (H1 & H2 & _).
  destruct (IH H1) as [H3 H4]. split; [by etransitivity|done].
Qed.

(** A concrete cluster member: node 2 of three, one committed entry. *)
Definition sample_limits : RaftLimits :=
  {| maximum_voters := 31; maximum_log_entries := 1024; maximum_entry_bytes := 4096;
     maximum_append_entries := 16; maximum_persistent_state_bytes := 65536 |}.
Definition empty_snapshot : SnapshotMetadata :=
  {| last_included_index := 0; last_included_term := 0; manifest_generation := 0;
     part_set_checksum := replicate 32 x00; configuration_index := 0; snapshot_voters := [] |}.
Definition sample_entry (i t : Z) (b : byte) : LogEntry :=
  {| entry_index := i; entry_term := t; entry_type := 1; entry_payload := [b] |}.
Definition sample_state (term : Term) (l : list LogEntry) (commit : LogIndex) : PersistentState :=
  {| current_term := term; voted_for := None; log := l; commit_index := commit;
     applied_index := 0; snapshot := empty_snapshot |}.
Definition sample_node (node_id : NodeId) (vs : list NodeId) (s : PersistentState) : Impl :=
  match create node_id vs s sample_limits with
  | Ok n => n
  | Err _ => new_impl node_id vs {| dm_committed_voters := vs; dm_active_voters := vs; dm_joint := None |}
               s sample_limits
  end.
Definition follower : Impl := sample_node 2 [1; 2; 3] (sample_state 1 [sample_entry 1 1 x01] 1).

Lemma follower_created :
  create 2 [1; 2; 3] (sample_state 1 [sample_entry 1 1 x01] 1) sample_limits = Ok follower.
Proof. vm_compute. reflexivity. Qed.

Lemma follower_reachable : reachable follower.
Proof.
  eapply reach_create; [..|exact follower_created].
  - vm_compute. intuition discriminate.
  - split; [vm_compute; intuition discriminate|]. split; [|vm_compute; intuition discriminate].
    repeat constructor; vm_compute; discriminate.
Qed.

Definition vote_request : Message :=
  MRequestVote {| rv_term := 2; rv_candidate_id := 1; rv_last_log_index := 1; rv_last_log_term := 1 |}.
Lemma vote_request_wf : message_wf vote_request.
Proof. vm_compute. intuition discriminate. Qed.

(** C23.  The node invariant holds in every reachable state: a contiguous bounded
    log, snapshot <= applied <= commit <= last, terms of entries within the
    current term, a persistent state within its byte budget, the membership
    derived from the log, a self-vote behind every candidacy and leadership,
    complete in-range replication progress of a leader, and consistent pending
    snapshot and read barrier. *)
Theorem raft_node_invariant (n : Impl) (H : reachable n) : node_inv n.
Proof. by apply reachable_inv. Qed.

Lemma raft_node_invariant_witness : node_inv follower.
Proof. exact (raft_node_invariant follower follower_reachable). Defined.

(** C24.  Terms, commit, applied and snapshot positions never go back, a vote cast
    in a term is never changed within that term, and a committed entry that is
    still retained is never altered, along every execution from a reachable node. *)
Theorem raft_execution_evolves (n n' : Impl) (H : reachable n) (He : execution n n') :
  evolves (state n) (state n').
Proof. by apply execution_evolves; [apply reachable_inv|]. Qed.

Lemma raft_execution_evolves_witness :
  current_term (state follower) <= current_term (state (snd (run (OpReceive 1 vote_request) follower))).
Proof.
  apply (ev_term _ _ (raft_execution_evolves follower _ follower_reachable
    (exec_step follower (OpReceive 1 vote_request) _ _ _ vote_request_wf
       (surjective_pairing _) (exec_refl _)))).
Defined.

(**  A call that fails leaves the node exactly as it was. *)
Theorem raft_error_atomic (n n' : Impl) (op : Operation) (s : StatusCode)
  (H : reachable n) (Hw : operation_wf op) (Hr : run op n = (Err s, n')) : n' = n.
Proof.
  pose proof (run_ok op n (reachable_inv n H) Hw) as Hok. rewrite Hr in Hok. apply Hok.
Qed.

Lemma raft_error_atomic_witness : snd (run (OpPropose 1 [x01]) follower) = follower.
Proof.
  apply (raft_error_atomic follower _ (OpPropose 1 [x01]) kUnavailable follower_reachable I).
  vm_compute. reflexivity.
Defined.

(** The persistence contract: whenever a call changes the persistent state its
    transition carries exactly the new state, so that a runtime which installs it
    before sending never answers from a state it may lose; and a transition never
    carries any other state. *)
Theorem raft_persistence_contract (n n' : Impl) (op : Operation) (t : Transition)
  (H : reachable n) (Hw : operation_wf op) (Hr : run op n = (Ok t, n')) :
  (state n' <> state n -> persistent_state t = Some (state n')) /\
  (forall s, persistent_state t = Some s -> s = state n').
Proof.
  pose proof (run_ok op n (reachable_inv n H) Hw) as Hok. rewrite Hr in Hok.
  destruct Hok as (_ & _ & _ & _ & Hp). cbn in Hp.
  destruct (persistent_state t) as [s|]; [split; [by rewrite Hp|by intros s' [= <-]]|].
  split; [by intros Hne|done].
Qed.

Lemma raft_persistence_contract_witness :
  exists t, fst (run (OpReceive 1 vote_request) follower) = Ok t /\
    persistent_state t = Some (state (snd (run (OpReceive 1 vote_request) follower))).
Proof.
  destruct (run (OpReceive 1 vote_request) follower) as [[t|s] n'] eqn:E.
  - exists t. split; [reflexivity|].
    apply (raft_persistence_contract follower n' (OpReceive 1 vote_request) t follower_reachable
             vote_request_wf E).
    assert (Et : current_term (state n') = 2)
      by (change n' with (snd (@Ok Transition t, n')); rewrite <- E; vm_compute; reflexivity).
    intros Heq. rewrite Heq in Et. vm_compute in Et. discriminate.
  - exfalso. apply (f_equal fst) in E. vm_compute in E. discriminate.
Defined.

(** Creation: a node is created from a persistent state only when the
    invariant holds of it, and it starts as a follower that keeps term, vote, log,
    commit and applied positions. *)
Theorem raft_create (node_id : NodeId) (vs : list NodeId) (s : PersistentState) (lim : RaftLimits)
  (n : Impl) (Hl : limits_wf lim) (Hs : state_wf s) (H : create node_id vs s lim = Ok n) :
  node_inv n /\ role n = kFollower /\ current_term (state n) = current_term s /\
  voted_for (state n) = voted_for s /\ log (state n) = log s /\
  commit_index (state n) = commit_index s /\ applied_index (state n) = applied_index s.
Proof.
  destruct (create_ok node_id vs s lim n Hl Hs H) as (Hi & _ & _ & E1 & E2 & E3 & E4 & E5).
  assert (Hr : role n = kFollower).
  { unfold create, check in H. run_guards H. injection H as <-. reflexivity. }
  by split_and!.
Qed.

Lemma raft_create_witness : node_inv follower.
Proof.
  eapply raft_create; [| |exact follower_created].
  - vm_compute. intuition discriminate.
  - split; [vm_compute; intuition discriminate|]. split; [|vm_compute; intuition discriminate].
    repeat constructor; vm_compute; discriminate.
Defined.

(** * Replication *)

Definition append_response (r : AppendEntriesResponse) (source : NodeId) : list OutboundMessage :=
  one source (MAppendEntriesResponse r).

(** A call that answers an append request with success went through the
    accepting branch. *)
Lemma receive_append_success n source m t n' r :
  node_inv n -> message_wf (MAppendEntries m) ->
  receive n source (MAppendEntries m) = (Ok t, n') ->
  append_response r source = outbound t -> aer_success r = true ->
  exists v, validate_append n source (voter n source) m = Ok (Some v) /\
    state n' = appended_state n m v /\
    aer_match_index r = match last (ae_entries m) with
                        | Some e => entry_index e
                        | None => ae_previous_log_index m
                        end.
Proof.
  intros Hi Hw H Hr Hs. unfold receive in H.
  destruct ((source =? 0) || (source =? id n) || _); [done|].
  unfold validate in H. destruct (_ =? 0); [unfold make_unexpected in H; done|].
  destruct (validate_append n source (voter n source) m) as [v|] eqn:Ev;
    [|unfold make_unexpected in H; done].
  cbn [prepare] in H. destruct (prepare_append n source m v) as [[t0 p]|] eqn:Ep;
    [|unfold make_unexpected in H; done].
  fold (observed n (message_term (MAppendEntries m))) in H. cbn [message_term] in H.
  unfold prepare_append in Ep.
  assert (Hout : forall st ch tr nd, finish_receive (st, ch, tr, nd) = (Ok t, n') ->
    outbound t = outbound tr /\ nd = n').
  { intros st ch tr nd Hfin. unfold finish_receive in Hfin.
    destruct (is_ok st); [|unfold make_unexpected in Hfin; done].
    injection Hfin as <- <-. split; [|done]. by destruct (_ && _). }
  assert (Hrej : forall a s ch r0, aer_success r0 = false ->
    outbound t0 = append_response r0 source -> p = PAppend a s ->
    finish_receive (apply_append (observed n (ae_term m)) source m a s ch t0) = (Ok t, n') -> False).
  { intros a s ch r0 Hf Ho _ Hfin. unfold apply_append in Hfin.
    destruct (_ <? _) in Hfin; apply Hout in Hfin as [Hfin _];
      rewrite Hfin, Ho in Hr; injection Hr as ->; congruence. }
  destruct (Z.ltb_spec (ae_term m) (current_term (state n))).
  { injection Ep as <- <-. exfalso.
    refine (Hrej _ _ _ _ _ _ eq_refl H); [|reflexivity]; reflexivity. }
  destruct (predecessor_matches n m) eqn:Epm; cbn [negb] in Ep; cycle 1.
  { destruct (_ >? _) in Ep; injection Ep as <- <-; exfalso;
      (refine (Hrej _ _ _ _ _ _ eq_refl H); [|reflexivity]; reflexivity). }
  destruct v as [v|]; [|done]. exists v. split; [done|].
  destruct (appended_state_ok n source _ m v Hi Hw Ev) as (_ & _ & Hcle).
  injection Ep as <- <-. cbn [apply] in H. rewrite apply_append_accepted in H by done.
  apply Hout in H as [Ho <-]. split; [done|].
  rewrite Ho in Hr. destruct (append_accept n m v), (_ >? _) in Hr; cbn in Hr; by injection Hr as ->.
Qed.

(** Log matching at acceptance: when a node answers an append request with
    success, its log holds every entry of the request at that entry's index, the
    predecessor the request names is the node's own, and the match index it
    reports is the end of the request. *)
Theorem append_accepted_matches (n n' : Impl) (source : NodeId) (m : AppendEntriesRequest)
  (t : Transition) (r : AppendEntriesResponse)
  (H : reachable n) (Hw : message_wf (MAppendEntries m))
  (Hrun : receive n source (MAppendEntries m) = (Ok t, n'))
  (Hout : append_response r source = outbound t) (Hs : aer_success r = true) :
  (forall e, e ∈ ae_entries m -> entry_at (state n') (entry_index e) = Some e) /\
  append_predecessor_term n (ae_previous_log_index m) = Some (ae_previous_log_term m) /\
  aer_match_index r = match last (ae_entries m) with
                      | Some e => entry_index e
                      | None => ae_previous_log_index m
                      end.
Proof.
  pose proof (reachable_inv n H) as Hi.
  destruct (receive_append_success n source m t n' r Hi Hw Hrun Hout Hs) as (v & Hv & Hst & Hm).
  pose proof (validate_append_some _ _ _ _ _ Hv) as (Hf & Ht & Hp & (c & Hc & _) & El & _).
  split_and!; [|by apply bool_decide_eq_true in Hp|done].
  intros e He. destruct Hw as [_ Hwf]. cbn in Hwf.
  destruct (append_merge_contains n source m c Hi Hwf Hf Hp Hc e He) as [Hlt Hlook].
  unfold entry_at. rewrite Hst. unfold appended_state. cbn.
  destruct (observe_term_spec (state n) (ae_term m)) as (_ & _ & _ & _ & ->).
  by rewrite El.
Qed.

Definition append_request : AppendEntriesRequest :=
  {| ae_term := 1; ae_leader_id := 1; ae_previous_log_index := 1; ae_previous_log_term := 1;
     ae_entries := [sample_entry 2 1 x02]; ae_leader_commit := 2 |}.

Lemma append_request_wf : message_wf (MAppendEntries append_request).
Proof.
  split; [vm_compute; intuition discriminate|]. repeat constructor; vm_compute; discriminate.
Qed.

Lemma append_accepted_matches_witness :
  entry_at (state (snd (receive follower 1 (MAppendEntries append_request)))) 2
    = Some (sample_entry 2 1 x02).
Proof.
  destruct (receive follower 1 (MAppendEntries append_request)) as [[t|s] n'] eqn:E.
  - assert (Ho : outbound t = append_response {| aer_term := 1; aer_success := true; aer_match_index := 2;
      aer_conflict_term := None; aer_conflict_index := 0 |} 1).
    { pose proof (f_equal (fun p => match fst p with Ok t => outbound t | Err _ => [] end) E) as Eo.
      vm_compute in Eo. vm_compute. congruence. }
    apply (proj1 (append_accepted_matches follower n' 1 append_request t _ follower_reachable
      append_request_wf E (eq_sym Ho) eq_refl) (sample_entry 2 1 x02)). left.
  - exfalso. apply (f_equal fst) in E. vm_compute in E. discriminate.
Defined.

(**  A leader commits only by the Raft rule: when an append response raises the
    commit index, the new index is of the current term and replicated on a quorum
    of the configuration, counting the response itself; under a joint
    configuration that is a majority of both voter sets. *)
Theorem leader_commit_rule (n n' : Impl) (source : NodeId) (m : AppendEntriesResponse)
  (t : Transition) (H : reachable n) (Hw : message_wf (MAppendEntriesResponse m))
  (Hrun : receive n source (MAppendEntriesResponse m) = (Ok t, n'))
  (Hc : commit_index (state n') <> commit_index (state n)) :
  role n = kLeader /\
  commit_index (state n) < commit_index (state n') <= last_index n /\
  term_at n (commit_index (state n')) = Some (current_term (state n)) /\
  exists matched, match_index n !! source = Some matched /\
    config_quorum (joint n) (committed_voters n)
      (replicated (<[source := Z.max matched (aer_match_index m)]> (match_index n))
         (commit_index (state n'))) = true.
Proof.
  unfold receive in Hrun. destruct ((source =? 0) || (source =? id n) || _); [done|].
  destruct (validate _ _ _ _) as [v|]; [|unfold make_unexpected in Hrun; done].
  cbn [prepare] in Hrun.
  destruct (prepare_append_response n source m) as [[t0 p]|] eqn:Ep; cycle 1.
  { cbn in Hrun. unfold make_unexpected in Hrun. done. }
  cbn [rbind message_term] in Hrun. fold (observed n (aer_term m)) in Hrun.
  assert (Hfin : forall st ch tr nd, finish_receive (st, ch, tr, nd) = (Ok t, n') -> nd = n').
  { intros st ch tr nd Hf. unfold finish_receive in Hf. destruct (is_ok st); by injection Hf as _ <-. }
  assert (Hobs : commit_index (state (observed n (aer_term m))) = commit_index (state n)).
  { rewrite state_observed. by destruct (observe_term_spec (state n) (aer_term m)) as (_ & _ & -> & _). }
  unfold prepare_append_response in Ep.
  destruct (_ && _) eqn:Eg in Ep; cycle 1.
  { injection Ep as <- <-. cbn [apply] in Hrun. unfold apply_append_response in Hrun.
    destruct (_ || _) in Hrun; apply Hfin in Hrun; subst n'; congruence. }
  bool_prop. destruct (next_index n !! source) as [x|]; [|done].
  destruct (match_index n !! source) as [matched|] eqn:Em; [|done].
  destruct (observed_cases n (aer_term m)) as [(? & _)|[_ Eo]]; [lia|]. rewrite Eo in *.
  destruct (aer_success m); cycle 1.
  { unfold prepare_append_failure in Ep. injection Ep as <- <-. cbn [apply] in Hrun.
    unfold apply_append_response in Hrun.
    destruct (_ || _) in Hrun; apply Hfin in Hrun; subst n'; done. }
  unfold prepare_append_success in Ep.
  destruct (commit_candidate _ _) as [c|] eqn:Ec; cycle 1.
  { injection Ep as <- <-. cbn [apply] in Hrun. unfold apply_append_response in Hrun.
    destruct (_ || _) in Hrun; apply Hfin in Hrun; subst n'; done. }
  apply commit_candidate_some in Ec as (C1 & C2 & C3).
  destruct (derive_membership _ _ _ _) as [d|]; [|done].
  destruct (rebuild_progress _ _ _ _ _) as [nx mt]. injection Ep as <- <-. cbn [apply] in Hrun.
  unfold apply_append_response in Hrun.
  destruct (_ || _) in Hrun; [apply Hfin in Hrun; subst n'; done|]. apply Hfin in Hrun.
  assert (Ecm : commit_index (state n') = c).
  { subst n'. cbn [pc_step_down pc_state pc_membership]. destruct (negb _); [|done].
    rewrite state_become_follower. cbn.
    by destruct (observe_term_spec (state_commit (state n) c) (current_term (state n))) as (_ & _ & -> & _). }
  rewrite Ecm. split_and!; try done; try lia. by exists matched.
Qed.

(** Node 2 after an election it wins and one proposal. *)
Definition elected : Impl :=
  snd (run (OpReceive 1 (MRequestVoteResponse {| rvr_term := 2; rvr_granted := true |}))
         (snd (run OpStartElection follower))).
Definition leader : Impl := snd (run (OpPropose 1 [x02]) elected).
Definition ack : AppendEntriesResponse :=
  {| aer_term := 2; aer_success := true; aer_match_index := 2;
     aer_conflict_term := None; aer_conflict_index := 0 |}.

Lemma leader_reachable : reachable leader.
Proof.
  eapply (reach_run elected (OpPropose 1 [x02])); [|done|apply surjective_pairing].
  eapply (reach_run (snd (run OpStartElection follower)) (OpReceive 1 _));
    [| |apply surjective_pairing].
  - eapply (reach_run follower OpStartElection); [apply follower_reachable|done|apply surjective_pairing].
  - vm_compute. intuition discriminate.
Qed.

Lemma leader_commit_rule_witness :
  commit_index (state (snd (receive leader 3 (MAppendEntriesResponse ack)))) = 2 /\
  term_at leader 2 = Some (current_term (state leader)).
Proof.
  destruct (receive leader 3 (MAppendEntriesResponse ack)) as [[t|s] n'] eqn:E.
  - assert (Ec : commit_index (state n') = 2)
      by (change n' with (snd (@Ok Transition t, n')); rewrite <- E; vm_compute; reflexivity).
    split; [exact Ec|]. rewrite <- Ec at 1.
    apply (leader_commit_rule leader n' 3 ack t leader_reachable).
    + vm_compute. intuition discriminate.
    + exact E.
    + rewrite Ec. vm_compute. discriminate.
  - exfalso. apply (f_equal fst) in E. vm_compute in E. discriminate.
Defined.

(**  The requests a leader sends describe its own log: the predecessor is the
    leader's entry before the next index of the peer, and the entries are the
    retained entries that follow it, at most a batch of them; when the next index
    has been compacted away the request installs the leader's snapshot. *)
Theorem leader_request_describes_log (n : Impl) (peer : NodeId) (m : AppendEntriesRequest)
  (H : reachable n) (Hr : role n = kLeader) (Hp : peer ∈ voters n)
  (Hm : replication_for n peer = MAppendEntries m) :
  term_at n (ae_previous_log_index m) = Some (ae_previous_log_term m) /\
  ae_term m = current_term (state n) /\ ae_leader_commit m = commit_index (state n) /\
  blen (ae_entries m) <= maximum_append_entries (limits n) /\
  forall j e, ae_entries m !! j = Some e ->
    entry_index e = ae_previous_log_index m + 1 + Z.of_nat j /\
    entry_at (state n) (entry_index e) = Some e.
Proof.
  pose proof (reachable_inv n H) as Hi. pose proof (so_log _ _ (ni_state n Hi)) as Hl.
  pose proof Hl as [Hc Hs0 Hb]. pose proof (last_index_of_eq _ Hl) as El.
  pose proof (node_last_bounds n Hi) as Hlb.
  pose proof (ni_progress n Hi Hr) as [[_ Hn _ _] Hd].
  unfold replication_for, replication_for_with in Hm.
  destruct (next_index n !! peer) as [next|] eqn:En; [|by apply Hd in Hp].
  apply Hn in En. change (default 0 (Some next)) with next in Hm. cbv zeta in Hm.
  destruct (Z.leb_spec next (last_included_index (snapshot (state n)))); [done|].
  injection Hm as <-. cbn. rewrite (wrap_small 64 (next - 1)) by width_lia.
  assert (Hterm : exists tm, term_at n (next - 1) = Some tm).
  { destruct (decide (next - 1 = last_included_index (snapshot (state n)))) as [E|Hne].
    - unfold term_at. destruct (_ =? 0); [by eauto|]. rewrite E, Z.eqb_refl. by eauto.
    - rewrite term_at_log by (try done; unfold last_index in *; lia).
      destruct (lookup_lt_is_Some_2 (log (state n))
        (Z.to_nat (next - 1 - last_included_index (snapshot (state n)) - 1))) as [e ->];
        [unfold last_index in *; lia|]. by eauto. }
  destruct Hterm as [tm Htm]. rewrite Htm. split; [done|]. split; [done|]. split; [done|].
  unfold entries_from. destruct (Z.leb_spec next (last_index n)); cycle 1.
  { split; [|done]. cbn. destruct (ni_limits n Hi) as [_ Hw]. unfold limits_wf in Hw. lia. }
  rewrite offset_for_eq by (try done; lia). unfold subspan.
  destruct (ni_limits n Hi) as [_ Hw]. unfold limits_wf in Hw.
  split; [rewrite length_take; lia|].
  intros j e Hj. apply lookup_take_Some in Hj as [Hj Hlt]. rewrite lookup_drop in Hj.
  pose proof (Hc _ _ Hj) as He. split; [lia|]. unfold entry_at. rewrite <- Hj. f_equal. lia.
Qed.

Lemma leader_request_describes_log_witness :
  term_at leader 1 = Some 1.
Proof.
  destruct (replication_for leader 1) as [|m|m|m|m|m|m|m] eqn:E;
    try (exfalso; vm_compute in E; discriminate E).
  pose proof (leader_request_describes_log leader 1 m leader_reachable
    ltac:(vm_compute; reflexivity)
    ltac:(apply (bool_decide_unpack _); vm_compute; reflexivity) E) as (Ht & _).
  vm_compute in E. injection E as <-. exact Ht.
Defined.

(**  The entries handed to the application are exactly the committed entries
    that are not applied yet, in index order. *)
Theorem committed_unapplied_exact (n : Impl) (H : reachable n) :
  blen (committed_unapplied n) = commit_index (state n) - applied_index (state n) /\
  forall j e, committed_unapplied n !! j = Some e ->
    entry_index e = applied_index (state n) + 1 + Z.of_nat j /\
    entry_at (state n) (entry_index e) = Some e.
Proof.
  pose proof (reachable_inv n H) as Hi. pose proof (ni_state n Hi) as Hs.
  pose proof (so_log _ _ Hs) as Hl. pose proof Hl as [Hc Hs0 Hb].
  pose proof (last_index_of_eq _ Hl) as El. pose proof (so_applied _ _ Hs). pose proof (so_commit _ _ Hs).
  unfold committed_unapplied. rewrite Z.geb_leb.
  destruct (Z.leb_spec (commit_index (state n)) (applied_index (state n))); [cbn; split; [lia|done]|].
  rewrite (wrap_small 64 (applied_index (state n) + 1)) by width_lia.
  rewrite offset_for_eq by (try done; lia). unfold subspan. split.
  - rewrite length_take, length_drop. lia.
  - intros j e Hj. apply lookup_take_Some in Hj as [Hj Hlt]. rewrite lookup_drop in Hj.
    pose proof (Hc _ _ Hj) as He. split; [lia|]. unfold entry_at. rewrite <- Hj. f_equal. lia.
Qed.

Lemma committed_unapplied_exact_witness : blen (committed_unapplied follower) = 1.
Proof. exact (proj1 (committed_unapplied_exact follower follower_reachable)). Defined.

(** * Quorums *)

(** The voters a configuration counts. *)
Definition config_members (j : option JointConfiguration) (committed : list NodeId)
  : list NodeId :=
  match j with Some j => joint_old_voters j ++ joint_new_voters j | None => committed end.

Lemma config_quorum_intersect j c p q :
  config_quorum j c p = true -> config_quorum j c q = true ->
  exists v, v ∈ config_members j c /\ p v = true /\ q v = true.
Proof.
  destruct j as [j|]; cbn; intros Hp Hq.
  - bool_prop. destruct (has_majority_intersect (joint_old_voters j) p q) as (v & Hv & ? & ?);
      [done..|]. exists v. split; [|done]. apply elem_of_app. by left.
  - by apply has_majority_intersect.
Qed.

(** Quorums of a configuration, and of configurations that follow each other
    in a membership change, intersect: old with joint, joint with joint, joint
    with new.  Two decisions taken around a change share a voter. *)
Theorem adjacent_quorums_intersect (j : JointConfiguration) (p q : NodeId -> bool) :
  (forall jc c, config_quorum jc c p = true -> config_quorum jc c q = true ->
     exists v, v ∈ config_members jc c /\ p v = true /\ q v = true) /\
  (config_quorum None (joint_old_voters j) p = true ->
   config_quorum (Some j) (joint_old_voters j) q = true ->
   exists v, v ∈ joint_old_voters j /\ p v = true /\ q v = true) /\
  (config_quorum (Some j) (joint_old_voters j) p = true ->
   config_quorum None (joint_new_voters j) q = true ->
   exists v, v ∈ joint_new_voters j /\ p v = true /\ q v = true).
Proof.
  split; [intros jc c; apply config_quorum_intersect|]. cbn.
  split; intros Hp Hq; bool_prop; by apply has_majority_intersect.
Qed.

Lemma adjacent_quorums_intersect_witness :
  exists v, v ∈ [1; 2; 3] /\ Z.leb v 2 = true /\ Z.leb 2 v = true.
Proof.
  apply (proj1 (proj2 (adjacent_quorums_intersect
    {| joint_old_voters := [1; 2; 3]; joint_new_voters := [2; 3; 4]; joint_index := 1;
       final_pending := false |} (fun v => v <=? 2) (fun v => 2 <=? v)))); vm_compute; reflexivity.
Defined.

(** * Read barriers *)

Lemma prepare_no_barrier n source m v t p :
  prepare n source m v = Ok (t, p) -> read_barrier_ready t = None.
Proof.
  assert (Hpp : forall m' g t0, read_barrier_ready t0 = None ->
    read_barrier_ready (prepare_persistence n source m' g t0) = None).
  { intros m' g t0 Ht0. unfold prepare_persistence. by destruct (_ || _). }
  assert (Hop : forall s t0, read_barrier_ready (with_optional_persistent t0 s) = read_barrier_ready t0)
    by (by intros [|]).
  destruct m as [m|m|m|m|m|m|m|m]; cbn [prepare]; intros H.
  - destruct (prepare_vote n source m) as [t0 p0] eqn:E. injection H as <- <-. apply Hpp.
    by injection E as <- <-.
  - destruct (prepare_vote_response n source m) as [t0 p0] eqn:E. injection H as <- <-. apply Hpp.
    unfold prepare_vote_response in E. repeat case_match; by simplify_eq.
  - unfold prepare_append in H. repeat case_match; simplify_eq; cbn; rewrite ?Hop; done.
  - apply rbind_Ok in H as ([t0 p0] & E & H). injection H as <- <-. apply Hpp.
    unfold prepare_append_response, prepare_append_success, prepare_append_failure in E.
    repeat case_match; by simplify_eq.
  - unfold prepare_install in H. repeat case_match; simplify_eq; cbn; done.
  - apply rbind_Ok in H as ([t0 p0] & E & H). injection H as <- <-. apply Hpp.
    unfold prepare_install_response in E. repeat case_match; by simplify_eq.
  - injection H as <- <-. by apply Hpp.
  - injection H as <- <-. by apply Hpp.
Qed.

(** ** Calls that neither begin nor confirm a barrier *)

(** The pending barrier stays as it is or is given up, and none completes. *)
Definition barrier_kept (n n' : Impl) : Prop :=
  pending_read_barrier n' = None \/ pending_read_barrier n' = pending_read_barrier n.
Definition calm (n : Impl) (out : result Transition * Impl) : Prop :=
  barrier_kept n (snd out) /\ match fst out with Ok t => read_barrier_ready t = None | Err _ => True end.

Lemma kept_refl n : barrier_kept n n.
Proof. by right. Qed.
Lemma kept_trans a b c : barrier_kept a b -> barrier_kept b c -> barrier_kept a c.
Proof. unfold barrier_kept. intros [?|?] [?|?]; [by left|left; congruence|by left|right; congruence]. Qed.
Lemma kept_become_follower n term leader : barrier_kept n (become_follower n term leader).
Proof. left. by rewrite become_follower_eq. Qed.
Lemma kept_install n d : barrier_kept n (install_membership n d).
Proof. right. unfold install_membership. destruct (bool_decide _); [|done]. by destruct (rebuild_progress _ _ _ _ _). Qed.
Lemma kept_step_down n : barrier_kept n (step_down_if_removed n).
Proof. unfold step_down_if_removed. destruct (_ && _); [apply kept_become_follower|apply kept_refl]. Qed.
Lemma kept_observed n term : barrier_kept n (observed n term).
Proof. unfold observed. destruct (_ >? _); [apply kept_become_follower|apply kept_refl]. Qed.

Lemma calm_err n s : calm n (Err s, n).
Proof. by split; [apply kept_refl|]. Qed.
Lemma calm_ok n n' t : barrier_kept n n' -> read_barrier_ready t = None -> calm n (Ok t, n').
Proof. by split. Qed.
Lemma calm_unexpected n n' s : barrier_kept n n' -> calm n (make_unexpected s, n').
Proof. intros H. split; [done|]. by destruct (@make_unexpected_not_ok Transition s) as (? & -> & _). Qed.
Create HintDb barrier.
#[export] Hint Resolve kept_refl kept_become_follower kept_install kept_step_down kept_observed
  calm_err calm_ok calm_unexpected : barrier.

(** The leader's own appends, through the copy that [install_prepared] installs. *)
Definition prepared_calm (n : Impl) (out : result Transition * Impl) : Prop :=
  match out with (Ok t, n') => barrier_kept n n' /\ read_barrier_ready t = None | (Err _, _) => True end.
Lemma install_prepared_calm n out : prepared_calm n out -> calm n (install_prepared n out).
Proof. destruct out as [[t|s] n']; cbn; [by intros []|intros _; auto with barrier]. Qed.
Lemma prepared_failed n s n' : prepared_calm n (make_unexpected s, n').
Proof. unfold prepared_calm. by destruct (@make_unexpected_not_ok Transition s) as (? & -> & _). Qed.
Lemma advance_commit_calm n r t' n' :
  advance_commit n empty_transition = (r, t', n') -> barrier_kept n n' /\ read_barrier_ready t' = None.
Proof.
  unfold advance_commit. destruct (commit_candidate _ _) as [c|]; [|intros [= _ <- <-]; auto with barrier].
  destruct (derive_membership _ _ _ _) as [d|]; intros [= _ <- <-]; [|auto with barrier].
  split; [|done]. eapply kept_trans; [|apply kept_install]. by right.
Qed.
Lemma commit_calm n n1 index (k : Impl -> Impl) :
  barrier_kept n n1 -> (forall x, barrier_kept x (k x)) ->
  prepared_calm n
    match set_self_progress n1 index with
    | Err s => (make_unexpected s, n1)
    | Ok n2 =>
        match advance_commit n2 empty_transition with
        | (Err s, _, n3) => (make_unexpected s, n3)
        | (Ok _, t, n3) => (Ok (with_persistent (append_to_all n3 t) (state (k n3))), k n3)
        end
    end.
Proof.
  intros Hn Hk. destruct (set_self_progress n1 index) as [n2|s] eqn:E; [|apply prepared_failed].
  destruct (advance_commit n2 empty_transition) as [[[b|s] t] n3] eqn:Ea; [|apply prepared_failed].
  apply advance_commit_calm in Ea as [H3 Ht]. split; [|exact Ht].
  eapply kept_trans; [|apply Hk]. eapply kept_trans; [exact Hn|]. eapply kept_trans; [|exact H3].
  unfold set_self_progress in E. destruct (match_index n1 !! id n1), (next_index n1 !! id n1); try done.
  injection E as <-. by right.
Qed.
Lemma append_local_entry_calm n type payload : prepared_calm n (append_local_entry n type payload).
Proof. apply (commit_calm n _ _ (fun x => x)); [by right|apply kept_refl]. Qed.
Lemma append_membership_entry_calm n type payload : prepared_calm n (append_membership_entry n type payload).
Proof.
  unfold append_membership_entry. destruct (derive_membership _ _ _ _) as [d|s]; [|apply prepared_failed].
  apply (commit_calm n _ _ step_down_if_removed); [|apply kept_step_down].
  eapply kept_trans; [|apply kept_install]. by right.
Qed.
#[export] Hint Resolve install_prepared_calm append_local_entry_calm append_membership_entry_calm : barrier.

(** Walk through the guards of a call. *)
Ltac calm :=
  repeat (cbv zeta; first
    [ solve [auto with barrier]
    | solve [apply calm_ok; [by right|done]]
    | match goal with
      | |- calm _ (if ?b then _ else _) => destruct b
      | |- calm _ (match ?x with _ => _ end) => destruct x
      end ]).
Lemma commit_current_term_calm n : calm n (commit_current_term n).
Proof. unfold commit_current_term. calm. Qed.
Lemma propose_calm n type payload : calm n (propose n type payload).
Proof. unfold propose. calm. Qed.
Lemma append_command_calm n type command : calm n (append_command n type command).
Proof. unfold append_command. calm. Qed.
#[export] Hint Resolve commit_current_term_calm propose_calm append_command_calm : barrier.
Lemma start_election_calm n : calm n (start_election n).
Proof.
  unfold start_election. destruct (negb _); [auto with barrier|]. destruct (_ || _); [auto with barrier|].
  cbv zeta. apply calm_ok; [|done]. left. by destruct (config_quorum _ _ _).
Qed.

(** A received message that is no response to a barrier. *)
Lemma calm_finish n st changed t n' :
  barrier_kept n n' -> read_barrier_ready t = None -> calm n (finish_receive (st, changed, t, n')).
Proof.
  intros Hn Ht. unfold finish_receive. destruct (is_ok st); [|by apply calm_unexpected].
  apply calm_ok; [done|]. by destruct (_ && _).
Qed.
Lemma apply_calm n source m p changed t :
  match m with MReadBarrierResponse _ => False | _ => True end -> read_barrier_ready t = None ->
  calm n (finish_receive (apply n source m p changed t)).
Proof.
  intros Hm Ht. destruct m as [m|m|m|m|m|m|m|m], p; cbn [apply]; try done; try (apply calm_finish; auto with barrier; fail).
  - unfold apply_vote. destruct granted; apply calm_finish; try done; by right.
  - unfold apply_vote_response. destruct (_ || _); [apply calm_finish; auto with barrier|].
    destruct (rvr_granted m); [|apply calm_finish; auto with barrier].
    repeat case_match; apply calm_finish; try done; (by right) || by left.
  - unfold apply_append. destruct (_ <? _); apply calm_finish; auto with barrier.
    left. destruct accepted; [|by rewrite become_follower_eq].
    destruct (kept_install (become_follower (match prepared_state with Some s => set_state n s | None => n end) (ae_term m) (Some source)) d) as [-> | ->];
      [done|by rewrite become_follower_eq].
  - unfold apply_append_response. destruct (_ || _); [apply calm_finish; auto with barrier|].
    repeat case_match; apply calm_finish; try done; try (by right). left. by rewrite become_follower_eq.
  - unfold apply_install. destruct (_ <? _); apply calm_finish; auto with barrier.
    left. destruct fresh; cbn [set_pending_snapshot pending_read_barrier]; by rewrite become_follower_eq.
  - unfold apply_install_response. destruct (_ || _); [apply calm_finish; auto with barrier|].
    repeat case_match; apply calm_finish; try done; by right.
  - unfold apply_read_barrier. apply calm_finish; [|done]. destruct (_ =? _); auto with barrier.
Qed.
Lemma calm_trans n n1 out : barrier_kept n n1 -> calm n1 out -> calm n out.
Proof. intros H [H1 H2]. split; [by eapply kept_trans|done]. Qed.
Lemma receive_calm n source m :
  match m with MReadBarrierResponse _ => False | _ => True end -> calm n (receive n source m).
Proof.
  intros Hm. unfold receive. destruct (_ || _); [auto with barrier|].
  destruct (validate _ _ _ _) as [v|]; [|auto with barrier].
  destruct (prepare n source m v) as [[t p]|] eqn:Ep; [|auto with barrier].
  fold (observed n (message_term m)). eapply calm_trans; [apply kept_observed|]. apply apply_calm; [done|].
  by apply prepare_no_barrier in Ep.
Qed.
(** The calls that may begin or confirm a barrier. *)
Definition barrier_call (op : Operation) : bool :=
  match op with OpBeginReadBarrier | OpReceive _ (MReadBarrierResponse _) => true | _ => false end.
Lemma run_calm op n : barrier_call op = false -> calm n (run op n).
Proof.
  destruct op as [|source m|type payload|type payload| |vs| |source s installed|s| | |index]; cbn [barrier_call run]; intros Hc; try done.
  - apply start_election_calm.
  - apply receive_calm. by destruct m.
  - auto with barrier.
  - unfold propose_exact_retained. calm.
  - auto with barrier.
  - unfold begin_membership_change. calm.
  - unfold finalize_membership_change. calm.
  - unfold complete_snapshot_install. calm.
  - unfold compact_snapshot. calm.
  - unfold heartbeat. calm.
  - unfold mark_applied. calm.
Qed.

(** ** The history of a pending barrier *)

(** The barrier that begins at [n], once the nodes [acks] acknowledged it. *)
Definition captured (n : Impl) (acks : list NodeId) : PendingReadBarrier :=
  {| prb_term := current_term (state n); prb_context := next_read_context n;
     prb_read_index := commit_index (state n);
     prb_old_voters := match joint n with Some j => joint_old_voters j | None => committed_voters n end;
     prb_new_voters := match joint n with Some j => joint_new_voters j | None => [] end;
     prb_acknowledgements := list_to_set acks |}.
(** What it authorizes when it completes. *)
Definition authorizes (n : Impl) : ReadBarrier :=
  {| barrier_term := current_term (state n); barrier_context := next_read_context n;
     barrier_read_index := commit_index (state n) |}.
Definition captured_quorum (n : Impl) (acks : list NodeId) : bool :=
  config_quorum (joint n) (committed_voters n) (fun v => bool_decide (v ∈ acks)).

(** The source that an accepted call confirms for the term and context of the barrier of [n0]. *)
Definition confirms (n0 : Impl) (op : Operation) (r : result Transition) : list NodeId :=
  match op, r with
  | OpReceive source (MReadBarrierResponse m), Ok _ =>
      if rbr_accepted m && (rbr_context m =? next_read_context n0) && (rbr_term m =? current_term (state n0))
      then [source] else []
  | _, _ => []
  end.
(** The barrier that began at [n0] is still pending in [n]; [sources] sent the accepted
    responses that were received for it since, in order. *)
Inductive confirmed_since (n0 : Impl) : list NodeId -> Impl -> Prop :=
| since_begin t n :
    begin_read_barrier n0 = (Ok t, n) -> pending_read_barrier n <> None -> confirmed_since n0 [] n
| since_call sources n op r n' :
    confirmed_since n0 sources n -> operation_wf op -> run op n = (r, n') ->
    pending_read_barrier n' <> None -> confirmed_since n0 (sources ++ confirms n0 op r) n'.

Lemma has_majority_ext vs (p q : NodeId -> bool) : (forall v, p v = q v) -> has_majority vs p = has_majority vs q.
Proof. intros H. unfold has_majority. erewrite list_filter_iff; [done|]. intros v. cbn. by rewrite H. Qed.
Lemma captured_quorum_iff n acks : node_inv n -> read_barrier_quorum (captured n acks) = captured_quorum n acks.
Proof.
  intros H. pose proof (node_membership_ok n H) as Hm. unfold read_barrier_quorum, captured_quorum, config_quorum, captured.
  assert (Hset : forall v, bool_decide (v ∈ (list_to_set acks : gset Z)) = bool_decide (v ∈ acks)).
  { intros v. apply bool_decide_ext. apply elem_of_list_to_set. }
  destruct (joint n) as [j|] eqn:Ej; cbn [prb_old_voters prb_new_voters prb_acknowledgements].
  - rewrite !(has_majority_ext _ _ _ Hset). destruct (mo_joint _ _ Hm j Ej) as (_ & (Hne & _) & _).
    destruct (joint_new_voters j) as [|v vs]; [done|]. done.
  - rewrite (has_majority_ext _ _ _ Hset). cbn. by rewrite andb_true_r.
Qed.

(** What beginning a barrier does. *)
Lemma begin_spec n t n' : node_inv n -> begin_read_barrier n = (Ok t, n') ->
  role n = kLeader /\ pending_read_barrier n = None /\ term_at n (commit_index (state n)) = Some (current_term (state n)) /\
  if captured_quorum n [id n] then read_barrier_ready t = Some (authorizes n) /\ pending_read_barrier n' = None
  else read_barrier_ready t = None /\ pending_read_barrier n' = Some (captured n [id n]).
Proof.
  intros Hi. unfold begin_read_barrier. destruct (bool_decide (role n = kLeader)) eqn:Er; [|done]. cbn [negb].
  destruct (bool_decide (pending_read_barrier n <> None)) eqn:Ep; [done|]. destruct (_ || _) eqn:Eg; [done|].
  destruct (next_read_context n =? 0); [done|]. bool_prop.
  assert (Hnone : pending_read_barrier n = None) by (destruct (pending_read_barrier n); [exfalso; by apply Ep|done]).
  rewrite <- (captured_quorum_iff n [id n] Hi).
  assert (Ec : captured n [id n] =
    {| prb_term := current_term (state n); prb_context := next_read_context n; prb_read_index := commit_index (state n);
       prb_old_voters := match joint n with Some j => joint_old_voters j | None => committed_voters n end;
       prb_new_voters := match joint n with Some j => joint_new_voters j | None => [] end; prb_acknowledgements := {[ id n ]} |})
    by (unfold captured; f_equal; set_solver).
  destruct (joint n) as [j|]; cbv zeta; rewrite <- Ec;
    (destruct (read_barrier_quorum (captured n [id n])); intros [= <- <-]; by split_and!).
Qed.

(** What a response does to a pending barrier. *)
Lemma response_spec n source m p r n' : node_inv n -> pending_read_barrier n = Some p ->
  receive n source (MReadBarrierResponse m) = (r, n') ->
  match r with
  | Err _ => True
  | Ok t =>
      if rbr_accepted m && (rbr_context m =? prb_context p) && (rbr_term m =? prb_term p) then
        if read_barrier_quorum (acknowledge p source) then
          pending_read_barrier n' = None /\
          read_barrier_ready t = Some {| barrier_term := prb_term p; barrier_context := prb_context p;
                                         barrier_read_index := prb_read_index p |}
        else pending_read_barrier n' = Some (acknowledge p source) /\ read_barrier_ready t = None
      else barrier_kept n n' /\ read_barrier_ready t = None
  end.
Proof.
  intros Hi Hp. unfold receive. destruct (_ || _); [by intros [= <- <-]|].
  destruct (validate _ _ _ _) as [v|s]; [|destruct (@make_unexpected_not_ok Transition s) as (? & -> & _); by intros [= <- <-]].
  cbn [prepare]. cbv zeta. fold (observed n (message_term (MReadBarrierResponse m))). cbn [apply message_term].
  set (t0 := prepare_persistence _ _ _ _ _).
  assert (Ht0 : read_barrier_ready t0 = None) by (unfold t0, prepare_persistence; by destruct (_ || _)).
  assert (Hfin : forall t (c : bool) x, read_barrier_ready (if c && bool_decide (persistent_state t = None) then with_persistent t x else t)
      = read_barrier_ready t) by (intros t c x; by destruct (_ && _)).
  destruct (ni_barrier n Hi p Hp) as [Hr Ht _]. unfold apply_read_barrier_response.
  destruct (observed_cases n (rbr_term m)) as [(Hlt & _ & Ho)|[Hle ->]].
  - rewrite Ho. cbn [finish_receive]. change (is_ok kOk) with true. intros [= <- <-]. rewrite Hfin, Ht.
    rewrite (proj2 (Z.eqb_neq (rbr_term m) (current_term (state n)))), andb_false_r by lia. split; [by left|done].
  - rewrite Hp, Hr, Ht. rewrite bool_decide_eq_true_2 by done. cbn [negb orb].
    destruct (Z.eqb_spec (rbr_term m) (current_term (state n))) as [E|Hne]; cbn [negb orb].
    + rewrite E, Z.ltb_irrefl. cbn [orb]. rewrite !orb_false_r, andb_true_r, <- negb_andb.
      destruct (rbr_accepted m && _); cbn [negb].
      * unfold finish_read_barrier. cbn [pending_read_barrier set_read_barrier].
        destruct (read_barrier_quorum (acknowledge p source)); cbn [finish_receive]; change (is_ok kOk) with true;
          intros [= <- <-]; (split; [done|]); destruct (_ && _); cbn; by rewrite ?Ht.
      * cbn [finish_receive]. change (is_ok kOk) with true. intros [= <- <-]. rewrite Hfin. split; [apply kept_refl|done].
    + rewrite !orb_true_r, andb_false_r. cbn [orb finish_receive]. change (is_ok kOk) with true. intros [= <- <-]. rewrite Hfin.
      split; [apply kept_refl|done].
Qed.

Lemma acknowledge_captured n acks source : acknowledge (captured n acks) source = captured n (acks ++ [source]).
Proof. unfold acknowledge, captured. cbn. f_equal. rewrite list_to_set_app_L. set_solver. Qed.
Lemma begin_refused n p : pending_read_barrier n = Some p -> begin_read_barrier n = (Err kUnavailable, n).
Proof.
  intros Hp. unfold begin_read_barrier. destruct (negb _); [done|]. by rewrite bool_decide_eq_true_2 by (by rewrite Hp).
Qed.

(** The acknowledgements of a pending barrier are its leader and the confirming sources. *)
Lemma since_pending n0 sources n : reachable n0 -> confirmed_since n0 sources n ->
  reachable n /\ pending_read_barrier n = Some (captured n0 (id n0 :: sources)) /\ evolves (state n0) (state n).
Proof.
  intros H0. induction 1 as [t n Hb Hp|sources n op r n' _ [Hn [Hp He]] Hw Hr Hp'].
  - assert (Hn : reachable n) by (by eapply (reach_run n0 OpBeginReadBarrier)). split; [done|].
    pose proof (reachable_inv _ H0) as Hi. destruct (begin_spec _ _ _ Hi Hb) as (_ & _ & _ & Hs).
    destruct (captured_quorum n0 [id n0]); [by destruct Hs|]. split; [by apply Hs|].
    apply (execution_evolves n0 n Hi). by apply (exec_step n0 OpBeginReadBarrier (Ok t) n n); [|..|apply exec_refl].
  - pose proof (reachable_inv _ Hn) as Hi. assert (Hn' : reachable n') by (by eapply reach_run). split; [done|].
    split; [|by etransitivity; [exact He|]; apply (execution_evolves n n' Hi); apply (exec_step n op r n' n'); [..|apply exec_refl]].
    destruct (barrier_call op) eqn:Eb.
    + destruct op as [|source m| | | | | | | | | |]; try done.
      * destruct m as [| | | | | | |m]; try done. cbn [run] in Hr. pose proof (response_spec _ _ _ _ _ _ Hi Hp Hr) as Hs.
        destruct r as [t|s]; [|pose proof (run_ok (OpReceive source (MReadBarrierResponse m)) n Hi Hw) as Hok; cbn [run] in Hok;
          rewrite Hr in Hok; destruct Hok as (_ & _ & _ & _ & Hsame); cbn in Hsame |- *; by rewrite app_nil_r, Hsame].
        cbn [confirms]. cbn [captured prb_context prb_term] in Hs. destruct (_ && _) in Hs |- *; [|destruct Hs as [[?|Hk] _]; [done|by rewrite Hk, Hp, app_nil_r]].
        rewrite acknowledge_captured in Hs. cbn [app] in Hs. destruct (read_barrier_quorum _); [by destruct Hs|by destruct Hs].
      * cbn [run] in Hr. rewrite (begin_refused _ _ Hp) in Hr. injection Hr as <- <-. cbn. by rewrite app_nil_r.
    + pose proof (run_calm op n Eb) as [Hk _]. rewrite Hr in Hk. destruct Hk as [?|Hk]; [done|]. cbn [snd] in Hk. rewrite Hk, Hp.
      assert (confirms n0 op r = []) as -> by (destruct op as [|source []| | | | | | | | | |]; done). by rewrite app_nil_r.
Qed.

(** The barrier began at a leader with a commit of its own term. *)
Lemma began n0 sources n : reachable n0 -> confirmed_since n0 sources n ->
  role n0 = kLeader /\ term_at n0 (commit_index (state n0)) = Some (current_term (state n0)).
Proof.
  intros H0. induction 1 as [t n Hb _|]; [|done]. apply begin_spec in Hb as (? & _ & ? & _); [done|by apply reachable_inv].
Qed.
Lemma create_no_barrier node_id vs s lim n : create node_id vs s lim = Ok n -> pending_read_barrier n = None.
Proof.
  unfold create, check. intros H.
  repeat match type of H with
  | (if ?b then _ else _) = _ => destruct b; try (unfold make_unexpected in H; done)
  | (let '(_, _) := ?x in _) = _ => destruct x
  end.
  apply rbind_Ok in H as (d & _ & H). destruct (_ || _); [done|]. by injection H as <-.
Qed.
Lemma response_calm n source m : pending_read_barrier n = None -> calm n (receive n source (MReadBarrierResponse m)).
Proof.
  intros Hp. unfold receive. destruct (_ || _); [auto with barrier|].
  destruct (validate _ _ _ _) as [v|]; [|auto with barrier]. cbn [prepare]. cbv zeta.
  fold (observed n (message_term (MReadBarrierResponse m))). cbn [apply]. unfold apply_read_barrier_response.
  pose proof (kept_observed n (message_term (MReadBarrierResponse m))) as Hk.
  assert (pending_read_barrier (observed n (message_term (MReadBarrierResponse m))) = None) as -> by (destruct Hk; congruence).
  apply calm_finish; [done|]. unfold prepare_persistence. by destruct (_ || _).
Qed.
(** Every pending barrier has such a history. *)
Lemma pending_since n p : reachable n -> pending_read_barrier n = Some p ->
  exists n0 sources, reachable n0 /\ confirmed_since n0 sources n.
Proof.
  intros Hn. revert p. induction Hn as [node_id vs s lim n Hl Hs H|n op r n' Hn IH Hw Hr]; intros p Hp.
  - by rewrite (create_no_barrier _ _ _ _ _ H) in Hp.
  - pose proof (reachable_inv _ Hn) as Hi. destruct (pending_read_barrier n) as [q|] eqn:Eq.
    + destruct (IH q eq_refl) as (n0 & sources & H0 & Hs). exists n0, (sources ++ confirms n0 op r). split; [done|].
      by eapply since_call; [..|by rewrite Hp].
    + destruct (barrier_call op) eqn:Eb.
      2: { pose proof (run_calm op n Eb) as [Hk _]. rewrite Hr in Hk. cbn [snd] in Hk. destruct Hk; congruence. }
      destruct r as [t|s]; [|pose proof (run_ok op n Hi Hw) as Hok; rewrite Hr in Hok; destruct Hok as (_ & _ & _ & _ & Hsame);
        cbn in Hsame; congruence].
      destruct op as [|source [| | | | | | |m]| | | | | | | | | |]; try done; cbn [run] in Hr.
      * destruct (response_calm n source m Eq) as [Hk _]. rewrite Hr in Hk. cbn [snd] in Hk. destruct Hk; congruence.
      * exists n, []. split; [done|]. by eapply since_begin; [|rewrite Hp].
Qed.

(** C29.  A read barrier completes only on the acknowledgement of a quorum.  Whatever call of a
    reachable node completes one, the barrier began at a node state [n0] in which this node
    was leader and the commit index held an entry of its term; the completion carries the term,
    context and commit index of [n0]; and the acknowledgements, exactly the leader itself and
    the sources of the accepted responses for that term and context received since, are a
    quorum of the configuration of [n0] (of both halves of a joint one).  Either the beginning
    call itself completes, with the leader alone a quorum, or the call that receives the last
    of these responses does, and the node is then still leader of the same term. *)
Theorem read_barrier_quorum_confirmed (n n' : Impl) (op : Operation) (t : Transition) (b : ReadBarrier)
  (H : reachable n) (Hw : operation_wf op) (Hrun : run op n = (Ok t, n')) (Hb : read_barrier_ready t = Some b) :
  exists n0 sources, reachable n0 /\ role n0 = kLeader /\
    term_at n0 (commit_index (state n0)) = Some (current_term (state n0)) /\ b = authorizes n0 /\
    captured_quorum n0 (id n0 :: sources) = true /\
    ((op = OpBeginReadBarrier /\ n0 = n /\ sources = []) \/
     (exists earlier source, confirmed_since n0 earlier n /\ confirms n0 op (Ok t) = [source] /\ sources = earlier ++ [source] /\
        role n = kLeader /\ current_term (state n) = current_term (state n0) /\
        commit_index (state n0) <= commit_index (state n))).
Proof.
  pose proof (reachable_inv _ H) as Hi. destruct (barrier_call op) eqn:Eb.
  2: { pose proof (run_calm op n Eb) as [_ Hc]. rewrite Hrun in Hc. cbn in Hc. congruence. }
  destruct op as [|source [| | | | | | |m]| | | | | | | | | |]; try done; cbn [run] in Hrun.
  - destruct (pending_read_barrier n) as [p|] eqn:Ep.
    2: { destruct (response_calm n source m Ep) as [_ Hc]. rewrite Hrun in Hc. cbn in Hc. congruence. }
    destruct (pending_since n p H Ep) as (n0 & earlier & H0 & Hs).
    destruct (since_pending _ _ _ H0 Hs) as (_ & Hp & He). pose proof (response_spec _ _ _ _ _ _ Hi Hp Hrun) as Hr. cbn in Hr.
    destruct (_ && _) eqn:Ec in Hr; [|destruct Hr; congruence].
    destruct (read_barrier_quorum _) eqn:Eq; [|destruct Hr; congruence]. destruct Hr as [_ Er].
    rewrite acknowledge_captured, captured_quorum_iff in Eq by (by apply reachable_inv). cbn [app] in Eq.
    exists n0, (earlier ++ [source]). split; [done|]. destruct (began _ _ _ H0 Hs) as [B1 B2]. split; [done|]. split; [done|].
    split; [unfold authorizes; congruence|]. split; [done|]. right. exists earlier, source. split; [done|].
    destruct (ni_barrier n Hi _ Hp) as [R1 R2 _]. cbn in R2. split; [cbn; by rewrite Ec|]. split; [done|]. split; [done|].
    split; [done|]. apply He.
  - destruct (begin_spec _ _ _ Hi Hrun) as (Hr & _ & Ht & Hq). destruct (captured_quorum n [id n]) eqn:Eq; [|destruct Hq; congruence].
    exists n, []. destruct Hq as [Eb' _]. split_and!; try done; [congruence|by left].
Qed.

(** The leader with a committed entry of its term and a pending barrier. *)
Definition confirming : Impl :=
  snd (run OpBeginReadBarrier (snd (run (OpReceive 3 (MAppendEntriesResponse ack)) leader))).
Definition confirmation : ReadBarrierResponse :=
  {| rbr_term := 2; rbr_context := 1; rbr_accepted := true |}.

Lemma confirming_reachable : reachable confirming.
Proof.
  eapply (reach_run _ OpBeginReadBarrier); [|done|apply surjective_pairing].
  eapply (reach_run leader (OpReceive 3 (MAppendEntriesResponse ack)));
    [apply leader_reachable| |apply surjective_pairing].
  vm_compute. intuition discriminate.
Qed.

Lemma read_barrier_quorum_confirmed_witness :
  exists n0 earlier, confirmed_since n0 earlier confirming /\ captured_quorum n0 (id n0 :: earlier ++ [1]) = true /\
    authorizes n0 = {| barrier_term := 2; barrier_context := 1; barrier_read_index := 2 |}.
Proof.
  destruct (run (OpReceive 1 (MReadBarrierResponse confirmation)) confirming) as [[t|s] n'] eqn:E.
  - assert (Eb : read_barrier_ready t
      = Some {| barrier_term := 2; barrier_context := 1; barrier_read_index := 2 |}).
    { pose proof (f_equal (fun p => match fst p with Ok t => read_barrier_ready t | Err _ => None end) E) as Eo.
      vm_compute in Eo. vm_compute. congruence. }
    destruct (read_barrier_quorum_confirmed confirming n' (OpReceive 1 (MReadBarrierResponse confirmation)) t _
      confirming_reachable ltac:(vm_compute; intuition discriminate) E Eb)
      as (n0 & sources & _ & _ & _ & Ea & Hq & [(Eop & _)|(earlier & source & Hs & Ec & -> & _)]); [discriminate Eop|].
    exists n0, earlier. split; [exact Hs|]. split; [|symmetry; exact Ea].
    unfold confirms in Ec. destruct (_ && _) in Ec; [|discriminate Ec]. injection Ec as <-. exact Hq.
  - exfalso. apply (f_equal fst) in E. vm_compute in E. discriminate.
Defined.

(** * The commit index of a follower *)

(** A follower bounds the leader's commit index by the end of its own merged log,
    not by the end of the request.  The leader below committed entry 2 of term 3
    and adds node 2, whose disk still holds an uncommitted entry 2 of term 2; the
    batch limit cuts the first request after entry 1. *)
Definition small_batches : RaftLimits :=
  {| maximum_voters := 31; maximum_log_entries := 1024; maximum_entry_bytes := 4096;
     maximum_append_entries := 1; maximum_persistent_state_bytes := 65536 |}.
Definition adding_leader : result Impl :=
  let? n := create 1 [1] (sample_state 3 [sample_entry 1 1 x01; sample_entry 2 3 x0a] 2) small_batches in
  Ok (snd (run OpStartElection n)).
Definition readded_node : result Impl :=
  create 2 [1; 2] (sample_state 2 [sample_entry 1 1 x01; sample_entry 2 2 x0b] 0) small_batches.

(** C38.  The commit bound of a follower is not the end of the request: a leader with
    a committed entry 2 adds a node, and the node, on the leader's first request,
    which carries entry 1 alone, commits a different entry 2 of its own. *)
Theorem append_commits_unverified_suffix :
  exists l f t0 t l' f' m,
    adding_leader = Ok l /\ readded_node = Ok f /\
    run (OpBeginMembershipChange [1; 2]) l = (Ok t0, l') /\
    outbound t0 = [{| destination := 2; message := MAppendEntries m |}] /\
    ae_entries m = [sample_entry 1 1 x01] /\
    run (OpReceive 1 (MAppendEntries m)) f = (Ok t, f') /\
    commit_index (state l') = 2 /\ entry_at (state l') 2 = Some (sample_entry 2 3 x0a) /\
    commit_index (state f') = 2 /\ entry_at (state f') 2 = Some (sample_entry 2 2 x0b).
Proof.
  destruct adding_leader as [l|] eqn:El; [|vm_compute in El; discriminate].
  destruct readded_node as [f|] eqn:Ef; [|vm_compute in Ef; discriminate].
  vm_compute in El, Ef. injection El as <-. injection Ef as <-.
  do 7 eexists. split; [reflexivity|]. split; [reflexivity|].
  split; [vm_compute; reflexivity|]. split; [reflexivity|]. split; [reflexivity|].
  split; [vm_compute; reflexivity|]. repeat split; vm_compute; reflexivity.
Qed.
