(* ===== verification/RaftElection.v ===== *)
(** What one call of a Raft node does to an election: which calls grant a vote,
    count one, and make a leader.  The cluster proof of RaftCluster uses only these
    facts and the node invariant. *)
From S2P Require Import Prelude Bytes RaftTypes RaftMembership RaftNode RaftFacts RaftInvariant.

(** * Messages that are not granted votes *)

Definition no_vote (m : Message) : Prop :=
  match m with MRequestVoteResponse r => rvr_granted r = false | _ => True end.
Definition no_votes (t : Transition) : Prop := Forall (fun o => no_vote (message o)) (outbound t).

Lemma to_peers_no_vote vs self f : (forall p, no_vote (f p)) -> Forall (fun o => no_vote (message o)) (to_peers vs self f).
Proof. intros Hf. unfold to_peers. apply Forall_fmap, Forall_true. intros p. apply Hf. Qed.
Lemma replication_no_vote n peer next commit : no_vote (replication_for_with n peer next commit).
Proof. unfold replication_for_with. by destruct (_ <=? _). Qed.
Lemma no_votes_outbound t o :
  no_votes t -> Forall (fun o => no_vote (message o)) o -> no_votes (with_outbound t o).
Proof. intros Ht Ho. by apply Forall_app. Qed.
Lemma no_votes_one source m : no_vote m -> Forall (fun o => no_vote (message o)) (one source m).
Proof. intros H. by constructor; [|constructor]. Qed.
Lemma no_votes_empty : no_votes empty_transition.
Proof. constructor. Qed.
Lemma no_votes_append_to_all n t : no_votes t -> no_votes (append_to_all n t).
Proof. intros H. apply no_votes_outbound; [done|]. apply to_peers_no_vote. intros. apply replication_no_vote. Qed.
Lemma no_votes_persistence n source m g t : no_votes t -> no_votes (prepare_persistence n source m g t).
Proof. unfold prepare_persistence. by destruct (_ || _). Qed.
Lemma no_votes_optional t s : no_votes t -> no_votes (with_optional_persistent t s).
Proof. by destruct s. Qed.

Create HintDb election.
#[export] Hint Resolve to_peers_no_vote replication_no_vote no_votes_outbound no_votes_one
  no_votes_empty no_votes_append_to_all no_votes_persistence no_votes_optional : election.

(** * Calls that leave elections alone *)

(** The node stays where it stands in the election of its term, or gives it up. *)
Definition stands (n n' : Impl) : Prop :=
  role n' = kFollower \/
  (role n' = role n /\ current_term (state n') = current_term (state n) /\ votes n' = votes n).
Definition quiet (n : Impl) (out : result Transition * Impl) : Prop :=
  stands n (snd out) /\ match fst out with Ok t => no_votes t | Err _ => True end.

Lemma stands_refl n : stands n n.
Proof. by right. Qed.
Lemma stands_trans a b c : stands a b -> stands b c -> stands a c.
Proof.
  intros Hab Hbc. destruct Hbc as [H|(R & T & V)]; [by left|].
  destruct Hab as [H|(R' & T' & V')]; [left; congruence|right; split_and!; congruence].
Qed.
Lemma stands_become_follower n term leader : stands n (become_follower n term leader).
Proof. left. by rewrite become_follower_eq. Qed.
Lemma stands_install n d : stands n (install_membership n d).
Proof.
  unfold install_membership. destruct (bool_decide _); [|by right].
  destruct (rebuild_progress _ _ _ _ _). by right.
Qed.
Lemma stands_step_down n : stands n (step_down_if_removed n).
Proof. unfold step_down_if_removed. destruct (_ && _); [apply stands_become_follower|apply stands_refl]. Qed.
Lemma stands_observed n term : stands n (observed n term).
Proof. unfold observed. destruct (_ >? _); [apply stands_become_follower|apply stands_refl]. Qed.
#[export] Hint Resolve stands_refl stands_become_follower stands_install stands_step_down
  stands_observed : election.

Lemma quiet_err n s : quiet n (Err s, n).
Proof. by split; [apply stands_refl|]. Qed.
Lemma quiet_ok n n' t : stands n n' -> no_votes t -> quiet n (Ok t, n').
Proof. by split. Qed.
Lemma quiet_unexpected n s : quiet n (make_unexpected s, n).
Proof. split; [apply stands_refl|]. by destruct (@make_unexpected_not_ok Transition s) as (? & -> & _). Qed.
#[export] Hint Resolve quiet_err quiet_ok quiet_unexpected : election.

Lemma advance_commit_quiet n t r t' n' :
  no_votes t -> advance_commit n t = (r, t', n') -> stands n n' /\ no_votes t'.
Proof.
  intros Ht. unfold advance_commit. destruct (commit_candidate _ _) as [c|]; [|intros [= _ <- <-]; auto with election].
  destruct (derive_membership _ _ _ _) as [d|]; intros [= _ <- <-]; [|auto with election].
  split; [|exact Ht]. eapply stands_trans; [|apply stands_install]. by right.
Qed.

(** The leader's own appends, through the copy that [install_prepared] installs. *)
Definition prepared_quiet (n : Impl) (out : result Transition * Impl) : Prop :=
  match out with (Ok t, n') => stands n n' /\ no_votes t | (Err _, _) => True end.
Lemma install_prepared_quiet n out : prepared_quiet n out -> quiet n (install_prepared n out).
Proof. destruct out as [[t|s] n']; cbn; [by intros []|intros _; apply quiet_unexpected]. Qed.
Lemma prepared_unexpected n s n' : prepared_quiet n (make_unexpected s, n').
Proof. unfold prepared_quiet. by destruct (@make_unexpected_not_ok Transition s) as (? & -> & _). Qed.

Lemma commit_quiet n n1 index (k : Impl -> Impl) :
  stands n n1 -> (forall x, stands x (k x)) ->
  prepared_quiet n
    match set_self_progress n1 index with
    | Err s => (make_unexpected s, n1)
    | Ok n2 =>
        match advance_commit n2 empty_transition with
        | (Err s, _, n3) => (make_unexpected s, n3)
        | (Ok _, t, n3) => (Ok (with_persistent (append_to_all n3 t) (state (k n3))), k n3)
        end
    end.
Proof.
  intros Hn Hk. destruct (set_self_progress n1 index) as [n2|s] eqn:E; [|apply prepared_unexpected].
  destruct (advance_commit n2 empty_transition) as [[[b|s] t] n3] eqn:Ea; [|apply prepared_unexpected].
  apply advance_commit_quiet in Ea as [H3 Ht]; [|apply no_votes_empty]. split.
  - eapply stands_trans; [|apply Hk]. eapply stands_trans; [exact Hn|]. eapply stands_trans; [|exact H3].
    unfold set_self_progress in E. destruct (match_index n1 !! id n1), (next_index n1 !! id n1); try done.
    injection E as <-. by right.
  - apply (no_votes_append_to_all n3 t Ht).
Qed.
Lemma append_local_entry_quiet n type payload : prepared_quiet n (append_local_entry n type payload).
Proof. apply (commit_quiet n _ _ (fun x => x)); [by right|apply stands_refl]. Qed.
Lemma append_membership_entry_quiet n type payload :
  prepared_quiet n (append_membership_entry n type payload).
Proof.
  unfold append_membership_entry. destruct (derive_membership _ _ _ _) as [d|s]; [|apply prepared_unexpected].
  apply (commit_quiet n _ _ step_down_if_removed); [|apply stands_step_down].
  eapply stands_trans; [|apply stands_install]. by right.
Qed.
#[export] Hint Resolve install_prepared_quiet append_local_entry_quiet append_membership_entry_quiet : election.

(** Walk through the guards of a call. *)
Ltac quiet :=
  repeat (cbv zeta; first
    [ solve [auto with election]
    | match goal with
      | |- quiet _ (if ?b then _ else _) => destruct b
      | |- quiet _ (match ?x with _ => _ end) => destruct x
      end ]).

Lemma commit_current_term_quiet n : quiet n (commit_current_term n).
Proof. unfold commit_current_term. quiet. Qed.
Lemma propose_quiet n type payload : quiet n (propose n type payload).
Proof. unfold propose. quiet. Qed.
#[export] Hint Resolve commit_current_term_quiet propose_quiet : election.
Lemma propose_exact_retained_quiet n type payload : quiet n (propose_exact_retained n type payload).
Proof. unfold propose_exact_retained. quiet. Qed.
Lemma append_command_quiet n type command : quiet n (append_command n type command).
Proof. unfold append_command. quiet. Qed.
#[export] Hint Resolve append_command_quiet : election.
Lemma begin_membership_change_quiet n vs : quiet n (begin_membership_change n vs).
Proof. unfold begin_membership_change. quiet. Qed.
Lemma finalize_membership_change_quiet n : quiet n (finalize_membership_change n).
Proof. unfold finalize_membership_change. quiet. Qed.
Lemma heartbeat_quiet n : quiet n (heartbeat n).
Proof. unfold heartbeat. quiet. Qed.
Lemma mark_applied_quiet n index : quiet n (mark_applied n index).
Proof. unfold mark_applied. quiet. apply quiet_ok; [by right|constructor]. Qed.

Lemma begin_read_barrier_quiet n : quiet n (begin_read_barrier n).
Proof.
  unfold begin_read_barrier. quiet; apply quiet_ok; try (by right); [constructor|].
  apply no_votes_outbound; [constructor|]. by apply to_peers_no_vote.
Qed.
Lemma compact_snapshot_quiet n s : quiet n (compact_snapshot n s).
Proof. unfold compact_snapshot. quiet. apply quiet_ok; [by right|constructor]. Qed.
Lemma complete_snapshot_install_quiet n source s installed :
  quiet n (complete_snapshot_install n source s installed).
Proof.
  unfold complete_snapshot_install. destruct (pending_snapshot n) as [p|]; [|auto with election].
  destruct (_ || _); [auto with election|]. destruct (_ || _).
  - apply quiet_ok; [by right|]. by repeat constructor.
  - destruct (prepare_completion n s) as [[q d]|e] eqn:E; [|auto with election]. apply quiet_ok; [|by repeat constructor].
    right. split; [done|]. split; [|done]. unfold prepare_completion in E.
    destruct (_ && _); [done|]. apply rbind_Ok in E as (d' & _ & E). unfold check in E.
    destruct (is_ok _); [|unfold make_unexpected in E; done]. by injection E as <- _.
Qed.

(** ** Received messages other than votes *)

Lemma quiet_finish n st changed t n' :
  stands n n' -> no_votes t -> quiet n (finish_receive (st, changed, t, n')).
Proof.
  intros Hn Ht. unfold finish_receive. destruct (is_ok st).
  - apply quiet_ok; [done|]. by destruct (_ && _).
  - split; [exact Hn|]. by destruct (@make_unexpected_not_ok Transition st) as (? & -> & _).
Qed.

Lemma prepare_append_response_quiet n source m t p :
  prepare_append_response n source m = Ok (t, p) -> no_votes t /\
  exists r, p = PAppendResponse r /\ forall next matched c, r = Some (next, matched, Some c) ->
    current_term (pc_state c) = current_term (state n).
Proof.
  unfold prepare_append_response. destruct (_ && _).
  2:{ intros [= <- <-]. split; [constructor|]. by exists None. }
  destruct (next_index n !! source) as [x|], (match_index n !! source) as [y|]; try done.
  destruct (aer_success m).
  - unfold prepare_append_success. destruct (commit_candidate _ _) as [c|].
    + destruct (derive_membership _ _ _ _) as [d|]; [|done].
      destruct (rebuild_progress _ _ _ _ _) as [nx mt]. intros [= <- <-]. split.
      * apply no_votes_outbound; [constructor|]. apply to_peers_no_vote. intros; apply replication_no_vote.
      * eexists. split; [done|]. by intros next matched c' [= <- <- <-].
    + intros [= <- <-]. split; [|eexists; split; [done|]; by intros].
      destruct (_ <=? _); [|constructor]. apply no_votes_outbound; [constructor|].
      apply no_votes_one, replication_no_vote.
  - unfold prepare_append_failure. intros [= <- <-]. split; [|eexists; split; [done|]; by intros].
    apply no_votes_outbound; [constructor|]. apply no_votes_one, replication_no_vote.
Qed.

Lemma prepare_install_response_quiet n source m t p :
  prepare_install_response n source m = Ok (t, p) -> no_votes t /\ exists r, p = PInstallResponse r.
Proof.
  unfold prepare_install_response. destruct (_ && _).
  2:{ intros [= <- <-]. split; [constructor|]. eauto. }
  destruct (next_index n !! source) as [x|], (match_index n !! source) as [y|]; try done.
  destruct (isr_success m); intros [= <- <-]; (split; [|eauto]);
    (apply no_votes_outbound; [constructor|]; apply no_votes_one, replication_no_vote).
Qed.

Lemma prepare_append_quiet n source m v t p :
  prepare_append n source m v = Ok (t, p) -> no_votes t /\ exists a s, p = PAppend a s.
Proof.
  unfold prepare_append. destruct (_ <? _); [intros [= <- <-]; split; [by repeat constructor|eauto]|].
  destruct (negb _); [destruct (_ >? _); intros [= <- <-]; (split; [by repeat constructor|eauto])|].
  destruct v as [v|]; [|done]. intros [= <- <-]. split; [|eauto].
  apply no_votes_outbound; [|by apply no_votes_one].
  destruct (_ >? _); destruct (append_accept n m v); constructor.
Qed.
Lemma prepare_install_quiet n source m :
  no_votes (fst (prepare_install n source m)) /\ exists s f, snd (prepare_install n source m) = PInstall s f.
Proof.
  unfold prepare_install. destruct (_ <? _); [split; [by repeat constructor|cbn; eauto]|].
  destruct (_ <=? _).
  - split; [|cbn; eauto]. apply no_votes_outbound; [|by apply no_votes_one]. destruct (_ >? _); constructor.
  - destruct (pending_snapshot n); (split; [|cbn; eauto]); cbn [fst].
    + destruct (bool_decide _); [destruct (_ >? _); constructor|].
      apply no_votes_outbound; [|by apply no_votes_one]. destruct (_ >? _); constructor.
    + destruct (_ >? _); constructor.
Qed.

Lemma stands_follower n n' : role n' = kFollower -> stands n n'.
Proof. by left. Qed.
Lemma role_install n d : role (install_membership n d) = role n.
Proof.
  unfold install_membership. destruct (bool_decide _); [|done]. by destruct (rebuild_progress _ _ _ _ _).
Qed.
Lemma role_become_follower n term leader : role (become_follower n term leader) = kFollower.
Proof. by rewrite become_follower_eq. Qed.

Lemma apply_append_quiet n n1 source m a s changed t :
  stands n n1 -> no_votes t -> quiet n (finish_receive (apply_append n1 source m a s changed t)).
Proof.
  intros Hn Ht. unfold apply_append. destruct (_ <? _); apply quiet_finish; try done.
  apply stands_follower. destruct a; [rewrite role_install|]; apply role_become_follower.
Qed.
Lemma apply_install_quiet n n1 source m s f changed t :
  stands n n1 -> no_votes t -> quiet n (finish_receive (apply_install n1 source m s f changed t)).
Proof.
  intros Hn Ht. unfold apply_install. destruct (_ <? _); apply quiet_finish; try done.
  apply stands_follower. destruct f; [change (role (become_follower (match s with
    Some s => set_state n1 s | None => n1 end) (is_term m) (Some source)) = kFollower)|];
    apply role_become_follower.
Qed.
Lemma apply_install_response_quiet n n1 m p changed t :
  stands n n1 -> no_votes t -> quiet n (finish_receive (apply_install_response n1 m p changed t)).
Proof.
  intros Hn Ht. unfold apply_install_response. destruct (_ || _); [by apply quiet_finish|].
  destruct p as [[next matched]|]; [|by apply quiet_finish]. destruct (isr_success m); by apply quiet_finish.
Qed.
Lemma apply_read_barrier_quiet n n1 source m changed t :
  stands n n1 -> no_votes t -> quiet n (finish_receive (apply_read_barrier n1 source m changed t)).
Proof.
  intros Hn Ht. unfold apply_read_barrier. apply quiet_finish.
  - destruct (_ =? _); [apply stands_follower, role_become_follower|done].
  - apply no_votes_outbound; [done|by apply no_votes_one].
Qed.
Lemma apply_read_barrier_response_quiet n n1 source m changed t :
  stands n n1 -> no_votes t ->
  quiet n (finish_receive (apply_read_barrier_response n1 source m changed t)).
Proof.
  intros Hn Ht. unfold apply_read_barrier_response.
  destruct (pending_read_barrier n1) as [b|]; [|by apply quiet_finish].
  destruct (_ || _); [by apply quiet_finish|]. unfold finish_read_barrier. cbn [pending_read_barrier set_read_barrier].
  destruct (read_barrier_quorum _); by apply quiet_finish.
Qed.

Lemma apply_append_response_quiet n source m t p changed :
  prepare_append_response n source m = Ok (t, p) ->
  quiet n (finish_receive (apply (observed n (aer_term m)) source (MAppendEntriesResponse m) p changed
    (prepare_persistence n source (MAppendEntriesResponse m) false t))).
Proof.
  intros Hp. destruct (prepare_append_response_quiet _ _ _ _ _ Hp) as (Ht & r & -> & Hr).
  apply (no_votes_persistence n source (MAppendEntriesResponse m) false) in Ht.
  cbn [apply]. unfold apply_append_response.
  destruct (observed_cases n (aer_term m)) as [(_ & Ef & _)|[_ ->]].
  { rewrite Ef. rewrite bool_decide_eq_false_2, orb_true_r by done. cbn [orb].
    apply quiet_finish; [by left|done]. }
  destruct (_ || _) in |- *; [apply quiet_finish; auto with election|].
  destruct r as [[[next matched] [c|]]|]; apply quiet_finish; auto with election; try (by right).
  destruct (pc_step_down c); [apply stands_follower, role_become_follower|].
  right. split; [done|]. split; [|done]. by eapply Hr.
Qed.

Lemma receive_quiet n source m :
  match m with MRequestVote _ | MRequestVoteResponse _ => False | _ => True end ->
  quiet n (receive n source m).
Proof.
  intros Hm. unfold receive. destruct (_ || _); [auto with election|].
  destruct (validate _ _ _ _) as [v|]; [|auto with election].
  destruct (prepare n source m v) as [[t p]|] eqn:Ep; [|auto with election].
  fold (observed n (message_term m)). pose proof (stands_observed n (message_term m)) as Ho.
  destruct m as [m|m|m|m|m|m|m|m]; cbn [prepare message_term] in *; try done.
  - apply prepare_append_quiet in Ep as (Ht & a & s & ->). by apply apply_append_quiet.
  - apply rbind_Ok in Ep as ([t0 p0] & Ep & Hp). injection Hp as <- <-.
    by apply apply_append_response_quiet.
  - destruct (prepare_install_quiet n source m) as (Ht & s & f & Hp). injection Ep as Ep.
    rewrite Ep in Ht, Hp. cbn in Hp. subst p. by apply apply_install_quiet.
  - apply rbind_Ok in Ep as ([t0 p0] & Ep & Hp). injection Hp as <- <-.
    apply prepare_install_response_quiet in Ep as (Ht & r & ->).
    apply apply_install_response_quiet; auto with election.
  - injection Ep as <- <-. apply apply_read_barrier_quiet; auto with election.
  - injection Ep as <- <-. apply apply_read_barrier_response_quiet; auto with election.
Qed.

(** * Votes *)

(** A quorum of the node's configuration among the votes it counted. *)
Definition vote_quorum (n : Impl) : Prop :=
  config_quorum (joint n) (committed_voters n) (fun v => bool_decide (v ∈ votes n)) = true.

Lemma config_quorum_mono j c (p q : NodeId -> bool) :
  (forall v, p v = true -> q v = true) -> config_quorum j c p = true -> config_quorum j c q = true.
Proof.
  intros Hpq. assert (Hm : forall l, has_majority l p = true -> has_majority l q = true)
    by (intros l; apply has_majority_mono; auto).
  unfold config_quorum. destruct j as [j|]; [|apply Hm]. rewrite !andb_true_iff. intros [? ?]. auto.
Qed.

(** What a call makes of the votes: it gives the election up or keeps its votes, it
    starts one with the node's own vote, or it counts one granted vote of the term. *)
Inductive counts (n : Impl) : Operation -> Impl -> Prop :=
| counts_stands op n' : stands n n' -> counts n op n'
| counts_start n' :
    votes n' = {[id n]} -> (role n' = kLeader -> vote_quorum n') -> counts n OpStartElection n'
| counts_vote source v n' :
    role n = kCandidate -> rvr_granted v = true -> rvr_term v = current_term (state n) ->
    current_term (state n') = current_term (state n) -> votes n' = {[source]} ∪ votes n ->
    (role n' = kLeader -> vote_quorum n') -> counts n (OpReceive source (MRequestVoteResponse v)) n'.

(** Every granted vote that a call sends is the vote the node then stands by. *)
Definition grants_own_vote (out : result Transition * Impl) : Prop :=
  forall t o v, fst out = Ok t -> o ∈ outbound t -> message o = MRequestVoteResponse v ->
    rvr_granted v = true ->
    current_term (state (snd out)) = rvr_term v /\ voted_for (state (snd out)) = Some (destination o).

Lemma no_votes_grants t n' : no_votes t -> grants_own_vote (Ok t, n').
Proof.
  intros Ht t' o v [= <-] Ho Hm Hg. unfold no_votes in Ht. rewrite Forall_forall in Ht.
  specialize (Ht _ Ho). rewrite Hm in Ht. cbn in Ht. congruence.
Qed.
Lemma err_grants s n' : grants_own_vote (Err s, n').
Proof. by intros t o v. Qed.
Lemma quiet_ballot n op out : quiet n out -> grants_own_vote out /\ counts n op (snd out).
Proof.
  destruct out as [[t|s] n']; intros [Hs Ht]; (split; [|by apply counts_stands]);
    [by apply no_votes_grants|apply err_grants].
Qed.

Lemma start_election_ballot n :
  grants_own_vote (start_election n) /\ counts n OpStartElection (snd (start_election n)).
Proof.
  unfold start_election. destruct (negb _); [apply quiet_ballot, quiet_err|].
  destruct (_ || _); [apply quiet_ballot, quiet_err|]. split.
  - apply no_votes_grants. cbn. destruct (config_quorum _ _ _); by apply to_peers_no_vote.
  - apply counts_start; [by destruct (config_quorum _ _ _)|]. unfold vote_quorum.
    destruct (config_quorum (joint n) (committed_voters n) (fun node => node =? id n)) eqn:E; cbn; [|done].
    intros _. eapply config_quorum_mono; [|exact E]. cbn. intros v Hv. apply Z.eqb_eq in Hv.
    apply bool_decide_eq_true. subst v. set_solver.
Qed.

Lemma receive_vote_ballot n source m :
  grants_own_vote (receive n source (MRequestVote m)) /\
  counts n (OpReceive source (MRequestVote m)) (snd (receive n source (MRequestVote m))).
Proof.
  unfold receive. destruct (_ || _); [apply quiet_ballot, quiet_err|].
  destruct (validate _ _ _ _) as [v|]; [|apply quiet_ballot, quiet_unexpected].
  cbn [prepare prepare_vote message_term apply]. fold (observed n (rv_term m)).
  unfold apply_vote. destruct (vote_granted n source m) eqn:Eg.
  - split; [|apply counts_stands; by left]. intros t o r Ht Ho Hm Hg.
    assert (Hout : outbound t = one source (MRequestVoteResponse
      {| rvr_term := Z.max (current_term (state n)) (rv_term m); rvr_granted := true |})).
    { cbn in Ht. injection Ht as <-. unfold prepare_persistence. rewrite orb_true_r. done. }
    rewrite Hout in Ho. apply list_elem_of_singleton in Ho as ->. injection Hm as <-.
    cbn. rewrite state_observed. by destruct (observe_term_spec (state n) (rv_term m)) as (-> & _).
  - apply quiet_ballot, quiet_finish; [apply stands_observed|].
    apply no_votes_persistence, no_votes_outbound; [constructor|]. by apply no_votes_one.
Qed.

Lemma receive_vote_response_ballot n source m :
  grants_own_vote (receive n source (MRequestVoteResponse m)) /\
  counts n (OpReceive source (MRequestVoteResponse m)) (snd (receive n source (MRequestVoteResponse m))).
Proof.
  unfold receive. destruct (_ || _); [apply quiet_ballot, quiet_err|].
  destruct (validate _ _ _ _) as [v|]; [|apply quiet_ballot, quiet_unexpected].
  cbn [prepare]. destruct (prepare_vote_response n source m) as [t p] eqn:Ep.
  fold (observed n (message_term (MRequestVoteResponse m))). cbn [message_term apply].
  assert (Hno : no_votes t).
  { unfold prepare_vote_response in Ep. destruct (_ && _); [|injection Ep as <- _; constructor].
    destruct (config_quorum _ _ _); injection Ep as <- _; [|constructor].
    apply no_votes_outbound; [constructor|]. by apply to_peers_no_vote. }
  apply (no_votes_persistence n source (MRequestVoteResponse m) false) in Hno.
  unfold prepare_vote_response in Ep.
  destruct (observed_cases n (rvr_term m)) as [(Hlt & Ef & _)|[Hle ->]].
  { apply quiet_ballot. assert (p = PVoteResponse None) as ->.
    { destruct (Z.eqb_spec (rvr_term m) (current_term (state n))); [lia|]. by injection Ep as _ <-. }
    unfold apply_vote_response. rewrite Ef, bool_decide_eq_false_2, orb_true_r by done. cbn [orb].
    apply quiet_finish; [by left|done]. }
  destruct (Z.eqb_spec (rvr_term m) (current_term (state n))) as [Et|Et]; cycle 1.
  { apply quiet_ballot. injection Ep as _ <-. unfold apply_vote_response.
    destruct (Z.eqb_spec (rvr_term m) (current_term (state n))); [done|]. rewrite orb_true_r.
    apply quiet_finish; auto with election. }
  destruct (bool_decide (role n = kCandidate)) eqn:Er; cbn [andb] in Ep; cycle 1.
  { apply quiet_ballot. injection Ep as _ <-. unfold apply_vote_response. rewrite Er, orb_true_r. cbn [orb].
    apply quiet_finish; auto with election. }
  destruct (rvr_granted m) eqn:Eg; cycle 1.
  { apply quiet_ballot. injection Ep as _ <-. unfold apply_vote_response. rewrite Eg.
    destruct (_ || _); apply quiet_finish; auto with election. }
  apply bool_decide_eq_true in Er as Er'.
  assert (Hcnt : exists n', (apply_vote_response n m match p with PVoteResponse p => p | _ => None end
      (rvr_term m >? current_term (state n)) (prepare_persistence n source (MRequestVoteResponse m) false t)) =
      (kOk, rvr_term m >? current_term (state n), prepare_persistence n source (MRequestVoteResponse m) false t, n') /\
      counts n (OpReceive source (MRequestVoteResponse m)) n' /\ exists q, p = PVoteResponse q).
  { unfold apply_vote_response. rewrite Er, Eg, Et, Z.eqb_refl, Z.ltb_irrefl. cbn [negb orb].
    destruct (config_quorum _ _ _) eqn:Eq; injection Ep as _ <-; [destruct (initial_progress n) as [nx mt]|];
      eexists; (split; [reflexivity|]); (split; [|eauto]).
    - by apply counts_vote.
    - apply counts_vote; cbn; try done. by rewrite Er'. }
  destruct Hcnt as (n' & Ha & Hc & q & ->). rewrite Ha. unfold finish_receive. cbn [is_ok].
  change (is_ok kOk) with true. cbv beta iota. split; [|exact Hc].
  apply no_votes_grants. by destruct (_ && _).
Qed.

(** Every call of a node. *)
Lemma run_ballot op n : grants_own_vote (run op n) /\ counts n op (snd (run op n)).
Proof.
  destruct op as [|source m| | | | | | | | | |]; cbn [run].
  1: apply start_election_ballot.
  1: destruct m; [apply receive_vote_ballot|apply receive_vote_response_ballot|..];
     by apply quiet_ballot, receive_quiet.
  all: apply quiet_ballot.
  - apply propose_quiet.
  - apply propose_exact_retained_quiet.
  - apply commit_current_term_quiet.
  - apply begin_membership_change_quiet.
  - apply finalize_membership_change_quiet.
  - apply complete_snapshot_install_quiet.
  - apply compact_snapshot_quiet.
  - apply heartbeat_quiet.
  - apply begin_read_barrier_quiet.
  - apply mark_applied_quiet.
Qed.

Lemma create_follower node_id vs s lim n : create node_id vs s lim = Ok n -> role n = kFollower.
Proof. intros H. unfold create, check in H. run_guards H. by injection H as <-. Qed.
