(* ===== verification/RaftCluster.v ===== *)
(** A cluster of Raft nodes: members that call the operations of their node, messages
    that may be delayed, reordered, duplicated and lost, and crashes that restart a
    member from its persistent state.  At most one node wins the elections of a term. *)
From S2P Require Import Prelude Bytes RaftTypes RaftMembership RaftNode RaftFacts RaftInvariant.
From S2P Require Import RaftElection RaftTheorems.

(** * The model *)

(** A won election: the winner, its term, its configuration and the votes it counted. *)
Record Election := {
  el_leader : NodeId; el_term : Term; el_joint : option JointConfiguration;
  el_committed : list NodeId; el_votes : gset Z }.

(** The members, and the history: every message ever sent with its sender, every vote
    ever cast (voter, term, candidate), every election ever won. *)
Record Cluster := {
  members : gmap Z Impl; network : list (NodeId * OutboundMessage);
  ballots : list (NodeId * Term * NodeId); elections : list Election }.
Definition empty_cluster : Cluster :=
  {| members := ∅; network := []; ballots := []; elections := [] |}.

(** The vote a node stands by. *)
Definition ballot (n : Impl) : list (NodeId * Term * NodeId) :=
  match voted_for (state n) with Some v => [(id n, current_term (state n), v)] | None => [] end.
(** The election a call won: the node leads now and did not lead this term before. *)
Definition election (n n' : Impl) : list Election :=
  if bool_decide (role n' = kLeader)
     && negb (bool_decide (role n = kLeader) && (current_term (state n) =? current_term (state n')))
  then [{| el_leader := id n'; el_term := current_term (state n'); el_joint := joint n';
           el_committed := committed_voters n'; el_votes := votes n' |}]
  else [].
(** The cluster after a call of member [i] that made [n'] of its node [n]. *)
Definition after (c : Cluster) (i : NodeId) (n n' : Impl) (sent : list OutboundMessage) : Cluster :=
  {| members := <[i := n']> (members c); network := (pair i <$> sent) ++ network c;
     ballots := ballot n' ++ ballots c; elections := election n n' ++ elections c |}.
Definition sent (r : result Transition) : list OutboundMessage :=
  match r with Ok t => outbound t | Err _ => [] end.

(** A new member joins with any admissible persistent state; a member makes a call, and
    receives only what was sent to it; a member crashes and is created again from its
    persistent state, which its runtime installs before it sends (the persistence
    contract), with any list of voters. *)
Inductive cluster_step (c : Cluster) : Cluster -> Prop :=
| step_join i vs s lim n :
    members c !! i = None -> limits_wf lim -> state_wf s -> create i vs s lim = Ok n ->
    cluster_step c (after c i n n [])
| step_call i n op r n' :
    members c !! i = Some n -> operation_wf op ->
    (forall source m, op = OpReceive source m ->
       (source, {| destination := i; message := m |}) ∈ network c) ->
    run op n = (r, n') -> cluster_step c (after c i n n' (sent r))
| step_restart i n vs n' :
    members c !! i = Some n -> create i vs (state n) (limits n) = Ok n' ->
    cluster_step c (after c i n n' []).

Inductive cluster_reachable : Cluster -> Prop :=
| cluster_empty : cluster_reachable empty_cluster
| cluster_next c c' : cluster_reachable c -> cluster_step c c' -> cluster_reachable c'.

(** * The invariant *)

Record cluster_inv (c : Cluster) : Prop := {
  ci_member i n : members c !! i = Some n -> node_inv n /\ id n = i;
  ci_vote i n v : members c !! i = Some n -> voted_for (state n) = Some v ->
    (i, current_term (state n), v) ∈ ballots c;
  ci_ballot i t v : (i, t, v) ∈ ballots c -> exists n, members c !! i = Some n /\
    (t < current_term (state n) \/ (t = current_term (state n) /\ voted_for (state n) = Some v));
  ci_once i t v v' : (i, t, v) ∈ ballots c -> (i, t, v') ∈ ballots c -> v = v';
  ci_granted source o r : (source, o) ∈ network c -> message o = MRequestVoteResponse r ->
    rvr_granted r = true -> (source, rvr_term r, destination o) ∈ ballots c;
  ci_counted i n v : members c !! i = Some n -> role n <> kFollower -> v ∈ votes n ->
    (v, current_term (state n), i) ∈ ballots c;
  ci_leader i n : members c !! i = Some n -> role n = kLeader ->
    exists e, e ∈ elections c /\ el_leader e = i /\ el_term e = current_term (state n);
  ci_elected e : e ∈ elections c ->
    config_quorum (el_joint e) (el_committed e) (fun v => bool_decide (v ∈ el_votes e)) = true /\
    forall v, v ∈ el_votes e -> (v, el_term e, el_leader e) ∈ ballots c }.

Lemma cluster_inv_empty : cluster_inv empty_cluster.
Proof. split; cbn; intros *; try (by rewrite lookup_empty); by rewrite ?elem_of_nil. Qed.

Lemma ballot_elem n i t v :
  (i, t, v) ∈ ballot n <-> i = id n /\ t = current_term (state n) /\ voted_for (state n) = Some v.
Proof.
  unfold ballot. destruct (voted_for (state n)) as [x|].
  - rewrite list_elem_of_singleton. split; [by intros [= -> -> ->]|by intros (-> & -> & [= ->])].
  - rewrite elem_of_nil. by split; [|intros (_ & _ & ?)].
Qed.

Lemma node_state_wf n : node_inv n -> state_wf (state n).
Proof.
  intros H. destruct (ni_state n H) as [[] He Ht _ _ _ _ _ Hs _]. split_and!; try lia.
  apply Forall_forall. intros e Hin. rewrite Forall_forall in He. destruct (He _ Hin) as [? _].
  apply list_elem_of_lookup in Hin as [k Hk]. split; [|lia].
  match goal with Hc : contiguous _ _ |- _ => apply Hc in Hk end. lia.
Qed.

(** One member moves from [n] to [n'] (or joins as [n']): what it takes to keep the
    invariant. *)
Lemma after_inv c i n n' out :
  cluster_inv c -> node_inv n' -> id n' = i ->
  (forall m, members c !! i = Some m -> current_term (state m) <= current_term (state n') /\
     forall v, current_term (state n') = current_term (state m) -> voted_for (state m) = Some v ->
       voted_for (state n') = Some v) ->
  (forall o r, o ∈ out -> message o = MRequestVoteResponse r -> rvr_granted r = true ->
     current_term (state n') = rvr_term r /\ voted_for (state n') = Some (destination o)) ->
  (forall v, role n' <> kFollower -> v ∈ votes n' ->
     (v, current_term (state n'), i) ∈ ballot n' ++ ballots c) ->
  (role n = kLeader -> exists e, e ∈ elections c /\ el_leader e = i /\ el_term e = current_term (state n)) ->
  (role n' = kLeader -> vote_quorum n' \/
     (role n = kLeader /\ current_term (state n) = current_term (state n'))) ->
  cluster_inv (after c i n n' out).
Proof.
  intros Hc Hn Hid Hev Hgr Hcnt Hpre Hlead.
  assert (Hold : forall t v, (i, t, v) ∈ ballots c -> t < current_term (state n') \/
    (t = current_term (state n') /\ voted_for (state n') = Some v)).
  { intros t v Hb. destruct (ci_ballot c Hc _ _ _ Hb) as (m & Hm & Ht). destruct (Hev _ Hm) as [E1 E2].
    destruct Ht as [Ht|[-> Hv]]; [lia|]. destruct (Z.eq_dec (current_term (state n')) (current_term (state m))) as [E|];
      [right; split; [done|by apply E2]|lia]. }
  assert (Hgrow : forall x, x ∈ ballots c -> x ∈ ballot n' ++ ballots c) by (intros; apply elem_of_app; by right).
  assert (Hnew : forall j t v, (j, t, v) ∈ ballot n' ++ ballots c <->
    (j = i /\ t = current_term (state n') /\ voted_for (state n') = Some v) \/ (j, t, v) ∈ ballots c).
  { intros. rewrite elem_of_app, ballot_elem, Hid. done. }
  split; cbn [members network ballots elections after].
  - intros j m Hm. apply lookup_insert_Some in Hm as [[<- <-]|[_ Hm]]; [done|by apply Hc].
  - intros j m v Hm Hv. apply Hnew. apply lookup_insert_Some in Hm as [[<- <-]|[_ Hm]]; [by left|].
    right. by apply (ci_vote c Hc).
  - intros j t v Hb. destruct (decide (j = i)) as [->|Hne].
    + exists n'. rewrite lookup_insert_eq. split; [done|]. apply Hnew in Hb as [(_ & -> & Hv)|Hb]; auto.
    + rewrite lookup_insert_ne by done. apply Hnew in Hb as [[? _]|Hb]; [done|by apply (ci_ballot c Hc)].
  - intros j t v v' Hb Hb'. apply Hnew in Hb as [(-> & -> & Hv)|Hb], Hb' as [(E & Et & Hv')|Hb'].
    + congruence.
    + destruct (Hold _ _ Hb') as [?|[_ ?]]; [lia|congruence].
    + subst j t. destruct (Hold _ _ Hb) as [?|[_ ?]]; [lia|congruence].
    + by eapply (ci_once c Hc).
  - intros source o r Ho Hm Hg. apply elem_of_app in Ho as [Ho|Ho]; [|by apply Hgrow, (ci_granted c Hc)].
    apply list_elem_of_fmap in Ho as (o' & [= -> <-] & Ho). apply Hnew. left.
    destruct (Hgr _ _ Ho Hm Hg) as [<- Hv]. done.
  - intros j m v Hm Hr Hv. apply lookup_insert_Some in Hm as [[<- <-]|[_ Hm]]; [by apply Hcnt|].
    by apply Hgrow, (ci_counted c Hc _ m).
  - intros j m Hm Hr. apply lookup_insert_Some in Hm as [[<- <-]|[_ Hm]]; cycle 1.
    { destruct (ci_leader c Hc _ _ Hm Hr) as (e & He & ?). exists e. rewrite elem_of_app. auto. }
    unfold election. rewrite (bool_decide_eq_true_2 (role n' = kLeader)) by done. cbn [andb].
    destruct (negb _) eqn:E.
    + eexists. split; [apply elem_of_app; left; apply list_elem_of_singleton; reflexivity|]. by split.
    + apply negb_false_iff, andb_true_iff in E as [E1 E2]. apply bool_decide_eq_true in E1.
      apply Z.eqb_eq in E2. rewrite <- E2. by apply Hpre.
  - intros e He. apply elem_of_app in He as [He|He]; cycle 1.
    { destruct (ci_elected c Hc _ He) as [Hq Hv]. split; [done|]. auto. }
    unfold election in He. destruct (_ && _) eqn:E; [|by apply elem_of_nil in He].
    apply list_elem_of_singleton in He as ->. cbn. apply andb_true_iff in E as [E1 E2].
    apply bool_decide_eq_true in E1. destruct (Hlead E1) as [Hq|[R T]].
    + split; [exact Hq|]. rewrite Hid. intros v Hv. apply Hcnt; [by rewrite E1|done].
    + rewrite bool_decide_eq_true_2 in E2 by done. rewrite T, Z.eqb_refl in E2. done.
Qed.

Lemma follower_after c i n n' :
  cluster_inv c -> node_inv n' -> id n' = i -> role n' = kFollower -> (role n = kLeader -> members c !! i = Some n) ->
  (forall m, members c !! i = Some m -> current_term (state m) <= current_term (state n') /\
     forall v, current_term (state n') = current_term (state m) -> voted_for (state m) = Some v ->
       voted_for (state n') = Some v) ->
  cluster_inv (after c i n n' []).
Proof.
  intros Hc Hn Hid Hr Hm Hev. apply after_inv; try done.
  - by intros o r Ho%elem_of_nil.
  - intros Hl. by apply (ci_leader c Hc); [apply Hm|].
  - by rewrite Hr.
Qed.

Lemma step_inv c c' : cluster_inv c -> cluster_step c c' -> cluster_inv c'.
Proof.
  intros Hc [i vs s lim n Hi Hl Hs Hcr|i n op r n' Hi Hw Hnet Hr|i n vs n' Hi Hcr].
  - destruct (create_ok _ _ _ _ _ Hl Hs Hcr) as (Hn & Hid & _). pose proof (create_follower _ _ _ _ _ Hcr) as Hf.
    apply follower_after; try done; [by rewrite Hf|]. intros m Hm. congruence.
  - destruct (ci_member c Hc _ _ Hi) as [Hn Hid].
    pose proof (run_ok op n Hn Hw) as (Hn' & Hev & Hid' & _). rewrite Hr in *. cbn [snd] in *.
    destruct (run_ballot op n) as [Hg Hcnt]. rewrite Hr in Hg, Hcnt. cbn [snd] in Hcnt.
    apply after_inv; try done.
    + congruence.
    + intros m Hm. rewrite Hi in Hm. injection Hm as <-. split; [apply Hev|]. intros v; apply Hev.
    + intros o v Ho Hm Hgr. destruct r as [t|]; [|by apply elem_of_nil in Ho]. by eapply (Hg t o v).
    + intros v Hrole Hv. apply elem_of_app.
      destruct Hcnt as [op n' Hst|n' Hvs _|source m n' Hcand Hgr Ht Ht' Hvs _].
      * right. destruct Hst as [?|(R & -> & V)]; [done|]. rewrite R in Hrole. rewrite V in Hv.
        by apply (ci_counted c Hc _ n).
      * left. apply ballot_elem. rewrite Hvs in Hv. apply elem_of_singleton in Hv as ->.
        rewrite (ni_vote n' Hn' Hrole). split_and!; congruence.
      * right. rewrite Ht', Hvs in *. apply elem_of_union in Hv as [Hv|Hv].
        -- apply elem_of_singleton in Hv as ->. rewrite <- Ht. exact (ci_granted c Hc _ _ _ (Hnet _ _ eq_refl) eq_refl Hgr).
        -- apply (ci_counted c Hc _ n); [done|by rewrite Hcand|done].
    + intros Hlead. by apply (ci_leader c Hc).
    + intros Hlead. destruct Hcnt as [op n' Hst|n' _ Hq|source v n' _ _ _ _ _ Hq]; try (by left; apply Hq).
      right. destruct Hst as [?|(R & T & _)]; [congruence|]. split; congruence.
  - destruct (ci_member c Hc _ _ Hi) as [Hn Hid].
    destruct (create_ok _ _ _ _ _ (proj2 (ni_limits n Hn)) (node_state_wf n Hn) Hcr)
      as (Hn' & Hid' & _ & Ht & Hv & _).
    apply follower_after; try done; [by eapply create_follower|].
    intros m Hm. rewrite Hi in Hm. injection Hm as <-. rewrite Ht, Hv. split; [lia|done].
Qed.

Lemma cluster_reachable_inv c : cluster_reachable c -> cluster_inv c.
Proof. induction 1 as [|c c' _ IH Hs]; [apply cluster_inv_empty|by eapply step_inv]. Qed.

(** * Election safety *)

(** The voter sets a configuration takes a majority of. *)
Definition voter_sets (j : option JointConfiguration) (committed : list NodeId) : list (list NodeId) :=
  match j with Some j => [joint_old_voters j; joint_new_voters j] | None => [committed] end.
Lemma config_quorum_majority j c p vs :
  config_quorum j c p = true -> vs ∈ voter_sets j c -> has_majority vs p = true.
Proof.
  unfold config_quorum, voter_sets. destruct j as [j|]; intros H Hin.
  - apply andb_true_iff in H as [? ?]. apply elem_of_cons in Hin as [->|Hin]; [done|].
    by apply list_elem_of_singleton in Hin as ->.
  - by apply list_elem_of_singleton in Hin as ->.
Qed.

Lemma inv_election_safety c (Hc : cluster_inv c) e1 e2 vs :
  e1 ∈ elections c -> e2 ∈ elections c -> el_term e1 = el_term e2 ->
  vs ∈ voter_sets (el_joint e1) (el_committed e1) ->
  vs ∈ voter_sets (el_joint e2) (el_committed e2) -> el_leader e1 = el_leader e2.
Proof.
  intros H1 H2 Ht Hv1 Hv2.
  destruct (ci_elected c Hc _ H1) as [Q1 B1], (ci_elected c Hc _ H2) as [Q2 B2].
  destruct (has_majority_intersect vs _ _ (config_quorum_majority _ _ _ _ Q1 Hv1)
    (config_quorum_majority _ _ _ _ Q2 Hv2)) as (v & _ & V1 & V2).
  apply bool_decide_eq_true in V1, V2. apply (ci_once c Hc v (el_term e1)); [by apply B1|].
  rewrite Ht. by apply B2.
Qed.

(** C5. Election safety.  In every history of a cluster, with messages delayed,
    reordered, duplicated or lost, members that join, and members that crash and restart
    from their persistent state: two elections won in the same term under configurations
    that share a voter set (the same configuration, or two that follow each other in a
    membership change) have the same winner; every current leader won an election of its
    term; and no node ever voted for two candidates in one term. *)
Theorem election_safety (c : Cluster) (H : cluster_reachable c) :
  (forall e1 e2 vs, e1 ∈ elections c -> e2 ∈ elections c -> el_term e1 = el_term e2 ->
     vs ∈ voter_sets (el_joint e1) (el_committed e1) ->
     vs ∈ voter_sets (el_joint e2) (el_committed e2) -> el_leader e1 = el_leader e2) /\
  (forall i n, members c !! i = Some n -> role n = kLeader ->
     exists e, e ∈ elections c /\ el_leader e = i /\ el_term e = current_term (state n)) /\
  (forall i t v v', (i, t, v) ∈ ballots c -> (i, t, v') ∈ ballots c -> v = v').
Proof.
  apply cluster_reachable_inv in H as Hc.
  split; [apply (inv_election_safety c Hc)|split; [apply (ci_leader c Hc)|apply (ci_once c Hc)]].
Qed.

(** ** Three nodes elect node 1 *)

Definition sample_member (i : NodeId) : Impl := sample_node i [1; 2; 3] (sample_state 1 [sample_entry 1 1 x01] 1).
Definition called (i : NodeId) (op : Operation) (c : Cluster) : Cluster :=
  match members c !! i with
  | Some n => let (r, n') := run op n in after c i n n' (sent r)
  | None => c
  end.
Definition three_members : Cluster :=
  fold_right (fun i c => after c i (sample_member i) (sample_member i) []) empty_cluster [1; 2; 3].
Definition sample_request : Message :=
  MRequestVote {| rv_term := 2; rv_candidate_id := 1; rv_last_log_index := 1; rv_last_log_term := 1 |}.
Definition sample_vote : Message := MRequestVoteResponse {| rvr_term := 2; rvr_granted := true |}.
Definition sample_cluster : Cluster :=
  called 1 (OpReceive 2 sample_vote) (called 2 (OpReceive 1 sample_request)
    (called 1 OpStartElection three_members)).

Lemma called_reachable i op c :
  cluster_reachable c -> operation_wf op ->
  (forall source m, op = OpReceive source m ->
     exists k, network c !! k = Some (source, {| destination := i; message := m |})) ->
  cluster_reachable (called i op c).
Proof.
  intros Hc Hw Hnet. unfold called. destruct (members c !! i) as [n|] eqn:E; [|done].
  destruct (run op n) as [r n'] eqn:Er. eapply cluster_next; [exact Hc|].
  eapply step_call; [exact E|exact Hw| |exact Er]. intros source m Hop.
  destruct (Hnet _ _ Hop) as [k Hk]. by eapply list_elem_of_lookup_2.
Qed.
Lemma joined_reachable i c :
  cluster_reachable c -> members c !! i = None ->
  create i [1; 2; 3] (sample_state 1 [sample_entry 1 1 x01] 1) sample_limits = Ok (sample_member i) ->
  cluster_reachable (after c i (sample_member i) (sample_member i) []).
Proof.
  intros Hc Hi Hcr. eapply cluster_next; [exact Hc|]. eapply step_join; [exact Hi|..|exact Hcr].
  - vm_compute. intuition discriminate.
  - split; [vm_compute; intuition discriminate|]. split; [|vm_compute; intuition discriminate].
    repeat constructor; vm_compute; discriminate.
Qed.
Lemma sample_cluster_reachable : cluster_reachable sample_cluster.
Proof.
  unfold sample_cluster. apply called_reachable; [apply called_reachable; [apply called_reachable|..]|..].
  - unfold three_members. cbn [fold_right].
    repeat (apply joined_reachable; [|vm_compute; reflexivity|vm_compute; reflexivity]). apply cluster_empty.
  - done.
  - done.
  - vm_compute. intuition discriminate.
  - intros source m [= <- <-]. exists 0%nat. vm_compute. reflexivity.
  - vm_compute. intuition discriminate.
  - intros source m [= <- <-]. exists 0%nat. vm_compute. reflexivity.
Qed.

Lemma election_safety_witness :
  (el_leader <$> elections sample_cluster) = [1] /\
  forall e, e ∈ elections sample_cluster -> el_term e = 2 -> el_joint e = None ->
    el_committed e = [1; 2; 3] -> el_leader e = 1.
Proof.
  split; [vm_compute; reflexivity|]. intros e He Ht Hj Hc.
  destruct (elections sample_cluster) as [|e0 [|]] eqn:E; try (vm_compute in E; discriminate).
  assert (E0 : el_leader e0 = 1 /\ el_term e0 = 2 /\ voter_sets (el_joint e0) (el_committed e0) = [[1; 2; 3]])
    by (vm_compute in E; injection E as <-; vm_compute; done).
  destruct E0 as (E1 & E2 & E3).
  destruct (election_safety sample_cluster sample_cluster_reachable) as (Hs & _ & _). rewrite E in Hs.
  rewrite <- E1. apply (Hs e e0 [1; 2; 3]); [exact He|left|congruence| |].
  - rewrite Hj, Hc. left.
  - rewrite E3. left.
Defined.
