(* ===== verification/RaftLinks.v ===== *)
(** What one call of a Raft node does to its log, as links between adjacent entries:
    every call keeps links, takes them from a received append request, or adds the one
    link of an entry the leader appends; and every append request it sends repeats
    links of its log. *)
From S2P Require Import Prelude Bytes RaftTypes RaftMembership RaftNode RaftFacts RaftInvariant.
From S2P Require Import RaftElection.

(** * Links *)

(** An entry with the term of its predecessor. *)
Definition Link : Type := Term * LogEntry.
Fixpoint links_from (previous : Term) (l : list LogEntry) : list Link :=
  match l with [] => [] | e :: l => (previous, e) :: links_from (entry_term e) l end.
(** The term before the first retained entry. *)
Definition base_term (s : PersistentState) : Term :=
  if last_included_index (snapshot s) =? 0 then 0 else last_included_term (snapshot s).
Definition log_links (s : PersistentState) : list Link := links_from (base_term s) (log s).

(** The term of the entry before position [k]. *)
Definition term_before (previous : Term) (l : list LogEntry) (k : nat) : Term :=
  match k with O => previous | S k => default 0 (entry_term <$> l !! k) end.

Lemma links_elem l : forall previous x,
  x ∈ links_from previous l <-> exists k e, l !! k = Some e /\ x = (term_before previous l k, e).
Proof.
  induction l as [|e l IH]; intros previous x; cbn [links_from].
  - rewrite elem_of_nil. split; [done|]. intros (k & e & Hk & _). by rewrite lookup_nil in Hk.
  - rewrite elem_of_cons, IH. split.
    + intros [->|(k & e' & Hk & ->)]; [by exists 0%nat, e|]. exists (S k), e'. split; [done|].
      f_equal. by destruct k.
    + intros ([|k] & e' & Hk & ->); [left; by injection Hk as <-|]. right. exists k, e'. split; [done|].
      f_equal. by destruct k.
Qed.

Lemma links_app a b : forall previous,
  links_from previous (a ++ b) = links_from previous a ++ links_from (term_before previous a (length a)) b.
Proof.
  induction a as [|e a IH]; intros previous; [done|]. cbn [app links_from length]. rewrite IH. cbn [app].
  do 3 f_equal. destruct a as [|e' a]; [done|]. cbn [term_before length]. done.
Qed.

Lemma term_before_take previous l k : (k <= length l)%nat ->
  term_before previous (take k l) (length (take k l)) = term_before previous l k.
Proof.
  intros Hk. rewrite length_take_le by done. destruct k as [|k]; [done|]. cbn [term_before].
  by rewrite lookup_take_lt by lia.
Qed.
Lemma links_drop previous l k x : (k <= length l)%nat ->
  x ∈ links_from (term_before previous l k) (drop k l) -> x ∈ links_from previous l.
Proof.
  intros Hk Hx. rewrite <- (take_drop k l) at 1. rewrite links_app, term_before_take by done.
  apply elem_of_app. by right.
Qed.
Lemma links_take previous l k x : x ∈ links_from previous (take k l) -> x ∈ links_from previous l.
Proof. intros Hx. rewrite <- (take_drop k l). rewrite links_app. apply elem_of_app. by left. Qed.

(** In one log an index has one link. *)
Lemma links_index snap previous l p e p' e' :
  contiguous snap l -> (p, e) ∈ links_from previous l -> (p', e') ∈ links_from previous l ->
  entry_index e = entry_index e' -> p = p' /\ e = e'.
Proof.
  intros Hc Hx Hx' Hi. apply links_elem in Hx as (k & a & Hk & [= -> ->]), Hx' as (k' & a' & Hk' & [= -> ->]).
  pose proof (Hc _ _ Hk). pose proof (Hc _ _ Hk'). assert (k = k') as <- by lia. split; congruence.
Qed.

(** The node's own reading of a predecessor is the link's. *)
Lemma term_at_before n k :
  log_inv (state n) -> (k <= length (log (state n)))%nat ->
  term_at n (last_included_index (snapshot (state n)) + Z.of_nat k) =
    Some (term_before (base_term (state n)) (log (state n)) k).
Proof.
  intros Hl Hk. destruct k as [|k].
  - rewrite Z.add_0_r. unfold term_at, base_term. cbn [term_before].
    destruct (_ =? 0); [done|]. by rewrite Z.eqb_refl.
  - replace (_ + Z.of_nat (S k)) with (last_included_index (snapshot (state n)) + 1 + Z.of_nat k) by lia.
    rewrite term_at_position by done. cbn [term_before].
    destruct (lookup_lt_is_Some_2 (log (state n)) k) as [e ->]; [lia|done].
Qed.

(** * Requests repeat the log *)

Definition same_log (s s' : PersistentState) : Prop := log s = log s' /\ snapshot s = snapshot s'.
Definition replicates (s : PersistentState) (m : Message) : Prop :=
  match m with
  | MAppendEntries a => ae_entries a = [] \/ exists n peer next commit,
      same_log (state n) s /\ replication_for_with n peer next commit = MAppendEntries a
  | _ => True
  end.

Lemma log_inv_same s s' : same_log s s' -> log_inv s' -> log_inv s.
Proof. intros [El Es] [? ? ?]. split; rewrite ?El, ?Es; done. Qed.
Lemma log_links_same s s' : same_log s s' -> log_links s = log_links s'.
Proof. intros [El Es]. unfold log_links, base_term. by rewrite El, Es. Qed.

Lemma replicates_links s a x :
  log_inv s -> replicates s (MAppendEntries a) ->
  x ∈ links_from (ae_previous_log_term a) (ae_entries a) -> x ∈ log_links s.
Proof.
  intros Hl [->|(n & peer & next & commit & Hs & Hm)] Hx; [by apply elem_of_nil in Hx|].
  rewrite <- (log_links_same _ _ Hs). apply (log_inv_same _ _ Hs) in Hl. clear Hs.
  pose proof (last_index_of_eq _ Hl) as El. pose proof Hl as [Hc Hs0 Hb].
  unfold replication_for_with in Hm. set (nx := default 0 _) in *.
  destruct (Z.leb_spec nx (last_included_index (snapshot (state n)))); [done|].
  injection Hm as <-. cbn [ae_entries ae_previous_log_term] in Hx. unfold entries_from in Hx.
  destruct (Z.leb_spec nx (last_index n)) as [Hle|]; [|by apply elem_of_nil in Hx]. unfold last_index in Hle.
  rewrite (wrap_small 64 (nx - 1)) in Hx by width_lia.
  rewrite offset_for_eq in Hx by (try done; lia). unfold subspan in Hx. apply links_take in Hx.
  set (k := Z.to_nat (nx - last_included_index (snapshot (state n)) - 1)) in *.
  replace (nx - 1) with (last_included_index (snapshot (state n)) + Z.of_nat k) in Hx by lia.
  rewrite term_at_before in Hx by (try done; lia). cbn [default] in Hx.
  apply links_drop in Hx; [done|lia].
Qed.

Definition tells (s : PersistentState) (t : Transition) : Prop :=
  Forall (fun o => replicates s (message o)) (outbound t).

Lemma tells_empty s : tells s empty_transition.
Proof. constructor. Qed.
Lemma tells_outbound s t o :
  tells s t -> Forall (fun o => replicates s (message o)) o -> tells s (with_outbound t o).
Proof. intros Ht Ho. by apply Forall_app. Qed.
Lemma tells_one s source m : replicates s m -> Forall (fun o => replicates s (message o)) (one source m).
Proof. intros H. by constructor; [|constructor]. Qed.
Lemma tells_peers s vs self f :
  (forall p, replicates s (f p)) -> Forall (fun o => replicates s (message o)) (to_peers vs self f).
Proof. intros Hf. apply Forall_fmap, Forall_true. intros p. apply Hf. Qed.
Lemma replication_replicates s n peer next commit :
  same_log (state n) s -> replicates s (replication_for_with n peer next commit).
Proof.
  intros Hs. unfold replicates. destruct (replication_for_with _ _ _ _) eqn:E; try done. right. eauto 10.
Qed.
Lemma tells_append_to_all s n t : same_log (state n) s -> tells s t -> tells s (append_to_all n t).
Proof. intros Hs Ht. apply tells_outbound; [done|]. apply tells_peers. intros; by apply replication_replicates. Qed.
Lemma tells_leadership s n term commit :
  Forall (fun o => replicates s (message o)) (leadership_requests n term commit).
Proof. apply tells_peers. by left. Qed.
Lemma tells_persistence s n source m g t : tells s t -> tells s (prepare_persistence n source m g t).
Proof. unfold prepare_persistence. by destruct (_ || _). Qed.

Create HintDb links.
#[export] Hint Resolve tells_empty tells_outbound tells_one tells_peers replication_replicates
  tells_append_to_all tells_leadership tells_persistence : links.

(** * Log steps *)

Inductive log_step (n : Impl) (op : Operation) (n' : Impl) : Prop :=
| log_kept : same_log (state n') (state n) -> log_step n op n'
| log_received source a :
    op = OpReceive source (MAppendEntries a) -> role n' = kFollower ->
    (forall x, x ∈ log_links (state n') -> x ∈ log_links (state n) \/
       x ∈ links_from (ae_previous_log_term a) (ae_entries a)) -> log_step n op n'
| log_pushed e :
    role n = kLeader -> current_term (state n') = current_term (state n) ->
    snapshot (state n') = snapshot (state n) -> log (state n') = log (state n) ++ [e] ->
    entry_index e = last_index n + 1 -> entry_term e = current_term (state n) -> log_step n op n'
| log_compacted :
    (forall x, x ∈ log_links (state n') -> x ∈ log_links (state n)) ->
    role n' = kFollower \/ last_index n' = last_index n -> log_step n op n'.

Definition log_effect (n : Impl) (op : Operation) (out : result Transition * Impl) : Prop :=
  log_step n op (snd out) /\ match fst out with Ok t => tells (state (snd out)) t | Err _ => True end.

Lemma effect_err n op s : log_effect n op (Err s, n).
Proof. split; [by apply log_kept|done]. Qed.
Lemma effect_unexpected n op s : log_effect n op (make_unexpected s, n).
Proof.
  split; [by apply log_kept|]. by destruct (@make_unexpected_not_ok Transition s) as (? & -> & _).
Qed.
Lemma effect_ok n op t n' : log_step n op n' -> tells (state n') t -> log_effect n op (Ok t, n').
Proof. by split. Qed.
Lemma effect_kept n op t n' :
  same_log (state n') (state n) -> tells (state n') t -> log_effect n op (Ok t, n').
Proof. split; [by apply log_kept|done]. Qed.
Lemma effect_finish n op st changed t n' :
  log_step n op n' -> tells (state n') t -> log_effect n op (finish_receive (st, changed, t, n')).
Proof.
  intros Hn Ht. unfold finish_receive. destruct (is_ok st).
  - apply effect_ok; [done|]. by destruct (_ && _).
  - split; [exact Hn|]. by destruct (@make_unexpected_not_ok Transition st) as (? & -> & _).
Qed.
#[export] Hint Resolve effect_err effect_unexpected : links.

Lemma same_log_refl s : same_log s s.
Proof. done. Qed.
Lemma same_log_trans a b c : same_log a b -> same_log b c -> same_log a c.
Proof. intros [] []. split; congruence. Qed.
Lemma same_log_observe s term : same_log (observe_term s term) s.
Proof. destruct (observe_term_spec s term) as (_ & ? & _ & _ & ?). by split. Qed.
Lemma same_log_follower n term leader : same_log (state (become_follower n term leader)) (state n).
Proof. rewrite state_become_follower. apply same_log_observe. Qed.
Lemma same_log_observed n term : same_log (state (observed n term)) (state n).
Proof. rewrite state_observed. apply same_log_observe. Qed.
Lemma state_install n d : state (install_membership n d) = state n.
Proof. unfold install_membership. destruct (bool_decide _); [|done]. by destruct (rebuild_progress _ _ _ _ _). Qed.

(** ** Elections, barriers, application, heartbeats *)

Lemma start_election_links n : log_effect n OpStartElection (start_election n).
Proof.
  unfold start_election. destruct (negb _); [auto with links|]. destruct (_ || _); [auto with links|].
  apply effect_kept.
  - by destruct (config_quorum _ _ _).
  - apply Forall_app. split; [constructor|]. destruct (config_quorum _ _ _); [apply tells_leadership|by apply tells_peers].
Qed.
Lemma heartbeat_links n op : log_effect n op (heartbeat n).
Proof. unfold heartbeat. destruct (negb _); [auto with links|]. by apply effect_kept, tells_append_to_all; [..|constructor]. Qed.
Lemma mark_applied_links n op index : log_effect n op (mark_applied n index).
Proof.
  unfold mark_applied. destruct (_ || _); [auto with links|]. destruct (_ =? _); by apply effect_kept; [|constructor].
Qed.
(** Walk through the guards of a call. *)
Ltac links :=
  repeat (cbv zeta; first
    [ solve [auto with links]
    | match goal with
      | |- log_effect _ _ (if ?b then _ else _) => destruct b
      | |- log_effect _ _ (match ?x with _ => _ end) => destruct x
      end ]).

Lemma begin_read_barrier_links n op : log_effect n op (begin_read_barrier n).
Proof.
  unfold begin_read_barrier. links; apply effect_kept; try done; [constructor|].
  apply tells_outbound; [constructor|]. by apply tells_peers.
Qed.

(** ** The leader's own entries *)

Lemma advance_commit_links s n t r t' n' :
  tells s t -> advance_commit n t = (r, t', n') -> same_log (state n') (state n) /\
  current_term (state n') = current_term (state n) /\ tells s t'.
Proof.
  intros Ht. unfold advance_commit. destruct (commit_candidate _ _) as [c|]; [|by intros [= _ <- <-]].
  destruct (derive_membership _ _ _ _) as [d|]; intros [= _ <- <-]; [|done]. by rewrite state_install.
Qed.

Definition pushed_effect (n : Impl) (op : Operation) (out : result Transition * Impl) : Prop :=
  match out with (Ok t, n') => log_effect n op (Ok t, n') | (Err _, _) => True end.
Lemma install_prepared_links n op out : pushed_effect n op out -> log_effect n op (install_prepared n out).
Proof. destruct out as [[t|s] n']; cbn; [done|intros _; apply effect_unexpected]. Qed.
Lemma pushed_unexpected n op s n' : pushed_effect n op (make_unexpected s, n').
Proof. unfold pushed_effect. by destruct (@make_unexpected_not_ok Transition s) as (? & -> & _). Qed.

Lemma push_links n op type payload n1 index (k : Impl -> Impl) :
  node_inv n -> role n = kLeader -> state n1 = state (push_entry n type payload) ->
  (forall x, same_log (state (k x)) (state x) /\ current_term (state (k x)) = current_term (state x)) ->
  pushed_effect n op
    match set_self_progress n1 index with
    | Err s => (make_unexpected s, n1)
    | Ok n2 =>
        match advance_commit n2 empty_transition with
        | (Err s, _, n3) => (make_unexpected s, n3)
        | (Ok _, t, n3) => (Ok (with_persistent (append_to_all n3 t) (state (k n3))), k n3)
        end
    end.
Proof.
  intros Hn Hr H1 Hk. destruct (set_self_progress n1 index) as [n2|s] eqn:E; [|apply pushed_unexpected].
  destruct (advance_commit n2 empty_transition) as [[[b|s] t] n3] eqn:Ea; [|apply pushed_unexpected].
  apply (advance_commit_links (state (k n3))) in Ea as (Hl & Ht & Htell); [|constructor].
  assert (H2 : state n2 = state (push_entry n type payload)).
  { rewrite <- H1. unfold set_self_progress in E.
    destruct (match_index n1 !! id n1), (next_index n1 !! id n1); try done. by injection E as <-. }
  destruct (Hk n3) as [Hkl Hkt]. apply effect_ok; [|apply tells_append_to_all; [by destruct Hkl; split|done]].
  rewrite H2 in *. destruct Hl as [El Es], Hkl as [El' Es'].
  pose proof (node_last_bounds n Hn). eapply log_pushed; [done|by rewrite Hkt, Ht|by rewrite Es', Es|by rewrite El', El|..];
    cbn; [|done]. rewrite wrap_small; [done|width_lia].
Qed.

Lemma append_local_entry_links n op type payload :
  node_inv n -> role n = kLeader -> pushed_effect n op (append_local_entry n type payload).
Proof. intros Hn Hr. by apply (push_links n op type payload _ _ (fun x => x)). Qed.
Lemma append_membership_entry_links n op type payload :
  node_inv n -> role n = kLeader -> pushed_effect n op (append_membership_entry n type payload).
Proof.
  intros Hn Hr. unfold append_membership_entry. destruct (derive_membership _ _ _ _) as [d|s]; [|apply pushed_unexpected].
  apply (push_links n op type payload _ _ step_down_if_removed); [done|done|apply state_install|].
  intros x. unfold step_down_if_removed. destruct (_ && _); [|done]. split; [apply same_log_follower|].
  rewrite state_become_follower. destruct (observe_term_spec (state x) (current_term (state x))) as (-> & _). lia.
Qed.
#[export] Hint Resolve install_prepared_links append_local_entry_links append_membership_entry_links : links.

(** Calls that only a leader makes. *)
Ltac leader_links n :=
  destruct (bool_decide_reflect (role n = kLeader)); cbn [negb]; [|by auto with links]; links.
Lemma kept_empty_links n op : log_effect n op (Ok empty_transition, n).
Proof. by apply effect_kept; [|constructor]. Qed.
#[export] Hint Resolve kept_empty_links : links.

Lemma commit_current_term_links n op : node_inv n -> log_effect n op (commit_current_term n).
Proof. intros Hn. unfold commit_current_term. leader_links n. Qed.
Lemma propose_links n op type payload : node_inv n -> log_effect n op (propose n type payload).
Proof. intros Hn. unfold propose. leader_links n. Qed.
#[export] Hint Resolve commit_current_term_links propose_links : links.
Lemma propose_exact_retained_links n op type payload :
  node_inv n -> log_effect n op (propose_exact_retained n type payload).
Proof. intros Hn. unfold propose_exact_retained. leader_links n. Qed.
Lemma append_command_links n op type command :
  node_inv n -> role n = kLeader -> log_effect n op (append_command n type command).
Proof. intros Hn Hr. unfold append_command. links. Qed.
#[export] Hint Resolve append_command_links : links.
Lemma begin_membership_change_links n op vs : node_inv n -> log_effect n op (begin_membership_change n vs).
Proof. intros Hn. unfold begin_membership_change. leader_links n. Qed.
Lemma finalize_membership_change_links n op : node_inv n -> log_effect n op (finalize_membership_change n).
Proof. intros Hn. unfold finalize_membership_change. leader_links n. Qed.

(** ** Snapshots *)

(** Dropping a prefix that ends with the snapshot's term keeps the other links. *)
Lemma dropped_links n (s : SnapshotMetadata) p x :
  node_inv n -> last_included_index (snapshot (state n)) < last_included_index s <= last_index n ->
  term_at n (last_included_index s) = Some (last_included_term s) -> snapshot p = s ->
  log p = drop (Z.to_nat (u64 (offset_for n (last_included_index s) + 1))) (log (state n)) ->
  x ∈ log_links p -> x ∈ log_links (state n).
Proof.
  intros Hn Hi Ht Hs Hlg Hx. pose proof (so_log _ _ (ni_state n Hn)) as Hl.
  destruct (drop_prefix_ok n s Hn Hi) as (D1 & _). rewrite D1, Nat2Z.id in Hlg.
  set (k := Z.to_nat (last_included_index s - last_included_index (snapshot (state n)))) in *.
  pose proof (last_index_of_eq _ Hl) as El. unfold last_index in Hi. pose proof (li_snapshot _ Hl).
  unfold log_links in Hx. rewrite Hlg in Hx. apply (links_drop _ _ k); [lia|].
  replace (last_included_index s) with (last_included_index (snapshot (state n)) + Z.of_nat k) in Ht by lia.
  rewrite term_at_before in Ht by (try done; lia). injection Ht as ->.
  unfold base_term in Hx. rewrite Hs in Hx. destruct (Z.eqb_spec (last_included_index s) 0); [lia|done].
Qed.

Lemma compact_snapshot_links n op s : node_inv n -> log_effect n op (compact_snapshot n s).
Proof.
  intros Hn. unfold compact_snapshot. destruct (prepare_snapshot_metadata n s) as [q|] eqn:Eq; [|auto with links].
  destruct (prepare_snapshot_metadata_ok n s q Hn Eq) as (_ & Hqi & Hterm & _).
  pose proof (ni_state n Hn) as Hs. pose proof (so_commit _ _ Hs). pose proof (so_applied _ _ Hs).
  assert (Hi : last_included_index (snapshot (state n)) < last_included_index q <= last_index n)
    by (unfold last_index; lia).
  apply effect_ok; [|constructor]. apply log_compacted.
  - intros x. by apply (dropped_links n q).
  - right. destruct (drop_prefix_ok n q Hn Hi) as (D1 & D2 & D3 & _).
    unfold last_index. rewrite last_index_of_cont; cbn; rewrite D1, Nat2Z.id; [exact D3|exact D2].
Qed.

Lemma complete_snapshot_install_links n op source s installed :
  node_inv n -> log_effect n op (complete_snapshot_install n source s installed).
Proof.
  intros Hn. unfold complete_snapshot_install. destruct (pending_snapshot n) as [p|] eqn:Ep; [|auto with links].
  pose proof (ni_pending n Hn p Ep) as Hpk. destruct (_ || _) eqn:E1; [auto with links|]. bool_prop. subst s.
  destruct (_ || _) eqn:E2; [apply effect_kept; [done|]; by repeat constructor|]. bool_prop.
  destruct (prepare_completion n (is_snapshot p)) as [[q d]|] eqn:Epc; [|auto with links].
  destruct (prepare_completion_ok n p q d Hn Hpk H1 Epc) as (_ & _ & Hsn & _).
  apply effect_ok; [|by repeat constructor]. apply log_compacted; [|left; by apply (pk_role _ _ Hpk)].
  cbn. assert (Hlg : log q = retained_after n (is_snapshot p)).
  { unfold prepare_completion in Epc. destruct (_ && _); [done|]. apply rbind_Ok in Epc as (d' & _ & E).
    unfold check in E. destruct (is_ok _); [|unfold make_unexpected in E; done]. by injection E as <- _. }
  intros x Hx. unfold retained_after in Hlg. destruct (_ && _) eqn:Er in Hlg.
  - bool_prop. apply (dropped_links n (is_snapshot p) q); try done. pose proof (pk_index _ _ Hpk). lia.
  - unfold log_links in Hx. rewrite Hlg in Hx. by apply elem_of_nil in Hx.
Qed.

(** ** Received messages *)

Lemma merge_links n source a c x :
  node_inv n -> Forall entry_wf (ae_entries a) -> validate_append_fields n source a = kOk ->
  predecessor_matches n a = true -> first_conflict n (ae_entries a) 0 = Ok c ->
  x ∈ links_from (base_term (state n)) (candidate_log (log (state n)) (ae_entries a)) ->
  x ∈ log_links (state n) \/ x ∈ links_from (ae_previous_log_term a) (ae_entries a).
Proof.
  intros Hn Hwf Hval Hpred Hfc Hx. pose proof (so_log _ _ (ni_state n Hn)) as Hl. pose proof Hl as [Hc H0 Hb].
  pose proof (last_index_of_eq _ Hl) as El. apply bool_decide_eq_true in Hpred.
  pose proof (predecessor_position n _ _ Hl Hpred) as Hpos. unfold last_index in Hpos.
  unfold append_predecessor_term in Hpred. destruct (Z.ltb_spec (ae_previous_log_index a)
    (last_included_index (snapshot (state n)))); [lia|].
  unfold validate_append_fields in Hval. destruct (_ || _) in Hval; [done|]. destruct (_ =? _) in Hval; [done|].
  apply check_entries_spec in Hval as (Hec & _ & _); [|lia|done].
  set (snap := last_included_index (snapshot (state n))) in *.
  set (p := Z.to_nat (ae_previous_log_index a - snap)).
  replace (ae_previous_log_index a) with (snap + Z.of_nat p) in * by lia.
  assert (Hp : (p <= length (log (state n)))%nat) by lia.
  unfold snap in Hpred. rewrite term_at_before in Hpred by done. injection Hpred as Hpt.
  destruct (candidate_log_spec snap (ae_entries a) (log (state n)) p Hc Hp Hec)
    as [[E _]|(j & e & Hj & Hle & Hbef & _ & E)]; rewrite E in Hx; [by left|].
  rewrite links_app, term_before_take in Hx by done. apply elem_of_app in Hx as [Hx|Hx]; [left; by apply links_take in Hx|].
  right. apply (links_drop _ _ j); [apply lookup_lt_Some in Hj; lia|].
  replace (term_before (ae_previous_log_term a) (ae_entries a) j)
    with (term_before (base_term (state n)) (log (state n)) (p + j)); [done|].
  destruct j as [|j]; [by rewrite Nat.add_0_r|]. rewrite <- Nat.add_succ_comm. cbn [term_before].
  destruct (lookup_lt_is_Some_2 (ae_entries a) j) as [e' He']; [apply lookup_lt_Some in Hj; lia|].
  destruct (Hbef j e' ltac:(lia) He') as (e0 & H0' & Het). rewrite He'.
  replace (S p + j)%nat with (S (p + j)) by lia. cbn [term_before]. rewrite H0'. cbn. by rewrite Het.
Qed.

(** A response carries no entries. *)
Lemma tells_reply s source m : match m with MAppendEntries _ => False | _ => True end ->
  tells s (with_outbound empty_transition (one source m)).
Proof. intros Hm. apply tells_outbound; [constructor|]. apply tells_one. by destruct m. Qed.

Lemma receive_append_links n op source active a v t p :
  op = OpReceive source (MAppendEntries a) -> node_inv n -> message_wf (MAppendEntries a) ->
  validate_append n source active a = Ok v -> prepare_append n source a v = Ok (t, p) ->
  log_effect n op (finish_receive (apply (observed n (ae_term a)) source (MAppendEntries a) p
    (ae_term a >? current_term (state n)) t)).
Proof.
  intros Hop Hn Hw Hval Hp. pose proof (same_log_observed n (ae_term a)) as Ho. unfold prepare_append in Hp.
  destruct (Z.ltb_spec (ae_term a) (current_term (state n))) as [Hlt|Hge].
  { injection Hp as <- <-. cbn [apply]. unfold apply_append. destruct (_ <? _); apply effect_finish;
      try (by apply tells_reply); apply log_kept; [done|].
    eapply same_log_trans; [apply same_log_follower|done]. }
  destruct (predecessor_matches n a) eqn:Epm; cbn [negb] in Hp.
  - destruct v as [v|]; [|done]. injection Hp as <- <-. cbn [apply].
    destruct (appended_state_ok n source active a v Hn Hw Hval) as (_ & _ & Hcle).
    apply validate_append_some in Hval as (Hf & _ & _ & (c & Hc & _) & El & _).
    rewrite apply_append_accepted by done. apply effect_finish.
    + eapply log_received; [exact Hop|by rewrite become_follower_eq|]. cbn. intros x Hx.
      unfold log_links, base_term, appended_state in Hx. cbn in Hx.
      destruct (observe_term_spec (state n) (ae_term a)) as (_ & _ & _ & _ & Es). rewrite Es, El in Hx.
      eapply merge_links; try done. by destruct Hw.
    + apply tells_outbound; [|by apply tells_one].
      destruct (_ >? _); destruct (append_accept n a v); constructor.
  - assert (Hkeep : forall s, match s with Some s => same_log s (state n) | None => True end ->
      same_log (state (become_follower (match s with Some s => set_state (observed n (ae_term a)) s
        | None => observed n (ae_term a) end) (ae_term a) (Some source))) (state n)).
    { intros s Hs. eapply same_log_trans; [apply same_log_follower|]. destruct s; [exact Hs|exact Ho]. }
    destruct (_ >? _) in Hp; injection Hp as <- <-; cbn [apply]; unfold apply_append; destruct (_ <? _);
      (apply effect_finish; [apply log_kept; try done; by apply (Hkeep (Some _)) || by apply (Hkeep None)|by apply tells_reply]).
Qed.

Lemma prepare_append_response_links n source m t p :
  prepare_append_response n source m = Ok (t, p) -> tells (state n) t /\
  exists r, p = PAppendResponse r /\ forall next matched c, r = Some (next, matched, Some c) ->
    same_log (pc_state c) (state n).
Proof.
  unfold prepare_append_response. destruct (_ && _).
  2:{ intros [= <- <-]. split; [constructor|]. by exists None. }
  destruct (next_index n !! source) as [x|], (match_index n !! source) as [y|]; try done.
  destruct (aer_success m).
  - unfold prepare_append_success. destruct (commit_candidate _ _) as [c|].
    + destruct (derive_membership _ _ _ _) as [d|]; [|done].
      destruct (rebuild_progress _ _ _ _ _) as [nx mt]. intros [= <- <-]. split.
      * apply tells_outbound; [constructor|]. apply tells_peers. intros; by apply replication_replicates.
      * eexists. split; [done|]. by intros next matched c' [= <- <- <-].
    + intros [= <- <-]. split; [|eexists; split; [done|]; by intros].
      destruct (_ <=? _); [|constructor]. apply tells_outbound; [constructor|].
      by apply tells_one, replication_replicates.
  - unfold prepare_append_failure. intros [= <- <-]. split; [|eexists; split; [done|]; by intros].
    apply tells_outbound; [constructor|]. by apply tells_one, replication_replicates.
Qed.

Lemma tells_same s s' t : same_log s' s -> tells s t -> tells s' t.
Proof.
  intros Hs Ht. eapply Forall_impl; [exact Ht|]. intros o Ho. unfold replicates in *.
  destruct (message o); try done. destruct Ho as [?|(m0 & peer & next & commit & Hm & E)]; [by left|right].
  exists m0, peer, next, commit. split; [|done]. eapply same_log_trans; [exact Hm|]. by destruct Hs; split.
Qed.
Lemma effect_finish_kept n op st changed t n' :
  same_log (state n') (state n) -> tells (state n) t -> log_effect n op (finish_receive (st, changed, t, n')).
Proof. intros Hs Ht. apply effect_finish; [by apply log_kept|by eapply tells_same]. Qed.

Lemma apply_append_response_links n op source m t p changed :
  prepare_append_response n source m = Ok (t, p) ->
  log_effect n op (finish_receive (apply (observed n (aer_term m)) source (MAppendEntriesResponse m) p changed
    (prepare_persistence n source (MAppendEntriesResponse m) false t))).
Proof.
  intros Hp. destruct (prepare_append_response_links _ _ _ _ _ Hp) as (Ht & r & -> & Hr).
  pose proof (same_log_observed n (aer_term m)) as Ho.
  apply (tells_persistence _ n source (MAppendEntriesResponse m) false) in Ht.
  cbn [apply]. unfold apply_append_response. destruct (_ || _); [by apply effect_finish_kept|].
  destruct r as [[[next matched] [c|]]|]; [|by apply effect_finish_kept..].
  apply effect_finish_kept; [|done]. specialize (Hr _ _ _ eq_refl).
  destruct (pc_step_down c); [|exact Hr]. eapply same_log_trans; [apply same_log_follower|exact Hr].
Qed.

Lemma apply_install_response_links n op source m t p changed :
  prepare_install_response n source m = Ok (t, p) ->
  log_effect n op (finish_receive (apply (observed n (isr_term m)) source (MInstallSnapshotResponse m) p changed
    (prepare_persistence n source (MInstallSnapshotResponse m) false t))).
Proof.
  intros Hp. pose proof (same_log_observed n (isr_term m)) as Ho.
  assert (Ht : tells (state n) t /\ exists r, p = PInstallResponse r).
  { unfold prepare_install_response in Hp. destruct (_ && _); [|injection Hp as <- <-; split; [constructor|eauto]].
    destruct (next_index n !! source) as [x|], (match_index n !! source) as [y|]; try done.
    destruct (isr_success m); injection Hp as <- <-; (split; [|eauto]);
      (apply tells_outbound; [constructor|]; by apply tells_one, replication_replicates). }
  destruct Ht as [Ht [r ->]]. apply (tells_persistence _ n source (MInstallSnapshotResponse m) false) in Ht.
  cbn [apply]. unfold apply_install_response. destruct (_ || _); [by apply effect_finish_kept|].
  destruct r as [[next matched]|]; [|by apply effect_finish_kept].
  destruct (isr_success m); by apply effect_finish_kept.
Qed.

Lemma receive_install_links n op source m changed :
  log_effect n op (finish_receive (apply (observed n (is_term m)) source (MInstallSnapshot m)
    (snd (prepare_install n source m)) changed (fst (prepare_install n source m)))).
Proof.
  pose proof (same_log_observed n (is_term m)) as Ho.
  assert (Hp : tells (state n) (fst (prepare_install n source m)) /\ exists s f,
    snd (prepare_install n source m) = PInstall s f /\
    match s with Some s => same_log s (state n) | None => True end).
  { unfold prepare_install. destruct (_ <? _); [split; [by apply tells_reply|by eexists _, _]|].
    assert (Hs : forall b : bool, match (if b then Some (state_term (state n) (is_term m) None) else None) with
      Some s => same_log s (state n) | None => True end) by (by intros []).
    destruct (_ <=? _); [|destruct (pending_snapshot n); [destruct (bool_decide _)|]];
      (split; [|eexists _, _; split; [reflexivity|apply Hs]]); cbn [fst];
      try (apply tells_outbound; [|by apply tells_one]); destruct (_ >? _); constructor. }
  destruct Hp as (Ht & s & f & -> & Hs). cbn [apply]. unfold apply_install.
  destruct (_ <? _); apply effect_finish_kept; try done.
  assert (Hk : same_log (state (become_follower (match s with Some s => set_state (observed n (is_term m)) s
    | None => observed n (is_term m) end) (is_term m) (Some source))) (state n)).
  { eapply same_log_trans; [apply same_log_follower|]. destruct s; [exact Hs|exact Ho]. }
  by destruct f.
Qed.

Lemma receive_vote_response_links n op source m t p changed :
  prepare_vote_response n source m = (t, p) ->
  log_effect n op (finish_receive (apply (observed n (rvr_term m)) source (MRequestVoteResponse m) p changed
    (prepare_persistence n source (MRequestVoteResponse m) false t))).
Proof.
  intros Hp. pose proof (same_log_observed n (rvr_term m)) as Ho.
  assert (Ht : tells (state n) t /\ exists r, p = PVoteResponse r).
  { unfold prepare_vote_response in Hp. destruct (_ && _); [|injection Hp as <- <-; split; [constructor|eauto]].
    destruct (config_quorum _ _ _); injection Hp as <- <-; (split; [|eauto]); [|constructor].
    apply tells_outbound; [constructor|apply tells_leadership]. }
  destruct Ht as [Ht [r ->]]. apply (tells_persistence _ n source (MRequestVoteResponse m) false) in Ht.
  cbn [apply]. unfold apply_vote_response. destruct (_ || _); [by apply effect_finish_kept|].
  destruct (rvr_granted m); [|by apply effect_finish_kept].
  destruct r as [[vs [[next matched]|]]|]; by apply effect_finish_kept.
Qed.

Lemma receive_links n source m :
  node_inv n -> message_wf m -> log_effect n (OpReceive source m) (receive n source m).
Proof.
  intros Hn Hw. unfold receive. destruct (_ || _); [auto with links|].
  destruct (validate n source (voter n source) m) as [v|] eqn:Ev; [|auto with links].
  destruct (prepare n source m v) as [[t p]|] eqn:Ep; [|auto with links].
  fold (observed n (message_term m)). pose proof (same_log_observed n (message_term m)) as Ho.
  unfold validate in Ev. destruct (_ =? 0); [done|].
  destruct m as [m|m|m|m|m|m|m|m]; cbn [prepare message_term] in *.
  - injection Ep as <- <-. cbn [apply]. unfold apply_vote. destruct (vote_granted n source m);
      apply effect_finish_kept; try done; by apply tells_persistence, tells_reply.
  - destruct (prepare_vote_response n source m) as [t0 p0] eqn:E0. injection Ep as <- <-.
    by apply receive_vote_response_links.
  - by eapply receive_append_links.
  - apply rbind_Ok in Ep as ([t0 p0] & Ep & Hp). injection Hp as <- <-. by apply apply_append_response_links.
  - injection Ep as Ep. pose proof (receive_install_links n (OpReceive source (MInstallSnapshot m)) source m
      (is_term m >? current_term (state n))) as Hi. by rewrite Ep in Hi.
  - apply rbind_Ok in Ep as ([t0 p0] & Ep & Hp). injection Hp as <- <-. by apply apply_install_response_links.
  - injection Ep as <- <-. cbn [apply]. unfold apply_read_barrier. apply effect_finish_kept.
    + destruct (rb_term m =? _); [|done]. eapply same_log_trans; [apply same_log_follower|done].
    + apply tells_outbound; [by apply tells_persistence; constructor|by apply tells_one].
  - injection Ep as <- <-. cbn [apply]. unfold apply_read_barrier_response.
    assert (Hno : tells (state n) (prepare_persistence n source (MReadBarrierResponse m) false empty_transition))
      by (apply tells_persistence; constructor).
    destruct (pending_read_barrier _) as [b|]; [|by apply effect_finish_kept].
    destruct (_ || _); [by apply effect_finish_kept|]. unfold finish_read_barrier.
    cbn [pending_read_barrier set_read_barrier]. destruct (read_barrier_quorum _); by apply effect_finish_kept.
Qed.

(** Every call of a node. *)
Lemma run_links op n : node_inv n -> operation_wf op -> log_effect n op (run op n).
Proof.
  intros Hn Hw. destruct op; cbn [run].
  - apply start_election_links.
  - by apply receive_links.
  - by apply propose_links.
  - by apply propose_exact_retained_links.
  - by apply commit_current_term_links.
  - by apply begin_membership_change_links.
  - by apply finalize_membership_change_links.
  - by apply complete_snapshot_install_links.
  - by apply compact_snapshot_links.
  - apply heartbeat_links.
  - apply begin_read_barrier_links.
  - apply mark_applied_links.
Qed.
