(* ===== verification/RaftLogMatching.v ===== *)
(** Log matching: in every history of a cluster whose members join with empty logs, an
    index and a term determine an entry and everything before it. *)
From S2P Require Import Prelude Bytes RaftTypes RaftMembership RaftNode RaftFacts RaftInvariant.
From S2P Require Import RaftElection RaftLinks RaftTheorems RaftCluster.

(** * Histories with links *)

(** A history of a cluster, with every link that was ever in a log.  Members join with an
    empty log (a snapshot may cover earlier entries). *)
Inductive history : Cluster -> list Link -> Prop :=
| history_empty : history empty_cluster []
| history_join c L i vs s lim n :
    history c L -> members c !! i = None -> limits_wf lim -> state_wf s -> log s = [] ->
    create i vs s lim = Ok n -> history (after c i n n []) L
| history_call c L i n op r n' :
    history c L -> members c !! i = Some n -> operation_wf op ->
    (forall source m, op = OpReceive source m ->
       (source, {| destination := i; message := m |}) ∈ network c) ->
    run op n = (r, n') -> history (after c i n n' (sent r)) (log_links (state n') ++ L)
| history_restart c L i n vs n' :
    history c L -> members c !! i = Some n -> create i vs (state n) (limits n) = Ok n' ->
    history (after c i n n' []) L.

Lemma history_reachable c L : history c L -> cluster_reachable c.
Proof.
  induction 1 as [|c L i vs s lim n _ IH Hi Hl Hs _ Hc|c L i n op r n' _ IH Hi Hw Hn Hr|c L i n vs n' _ IH Hi Hc].
  - apply cluster_empty.
  - eapply cluster_next; [exact IH|by eapply step_join].
  - eapply cluster_next; [exact IH|by eapply step_call].
  - eapply cluster_next; [exact IH|by eapply step_restart].
Qed.

(** Elections of one term share a voter set, as they do in one configuration. *)
Definition compatible (c : Cluster) : Prop :=
  forall e1 e2, e1 ∈ elections c -> e2 ∈ elections c -> el_term e1 = el_term e2 ->
    exists vs, vs ∈ voter_sets (el_joint e1) (el_committed e1) /\
               vs ∈ voter_sets (el_joint e2) (el_committed e2).

Lemma compatible_after c i n n' out : compatible (after c i n n' out) -> compatible c.
Proof. intros H e1 e2 H1 H2. apply H; apply elem_of_app; by right. Qed.
Lemma one_winner c e1 e2 :
  cluster_inv c -> compatible c -> e1 ∈ elections c -> e2 ∈ elections c -> el_term e1 = el_term e2 ->
  el_leader e1 = el_leader e2.
Proof.
  intros Hc Hcomp H1 H2 Ht. destruct (Hcomp _ _ H1 H2 Ht) as (vs & V1 & V2).
  by apply (inv_election_safety c Hc e1 e2 vs).
Qed.

(** * The invariant *)

Record matching (c : Cluster) (L : list Link) : Prop := {
  lm_member i n x : members c !! i = Some n -> x ∈ log_links (state n) -> x ∈ L;
  lm_sent source o a x : (source, o) ∈ network c -> message o = MAppendEntries a ->
    x ∈ links_from (ae_previous_log_term a) (ae_entries a) -> x ∈ L;
  lm_link p e : (p, e) ∈ L -> exists el, el ∈ elections c /\ el_term el = entry_term e /\
    forall n, members c !! el_leader el = Some n -> role n = kLeader ->
      current_term (state n) = entry_term e -> entry_index e <= last_index n;
  lm_won el : el ∈ elections c -> exists n, members c !! el_leader el = Some n /\
    (el_term el < current_term (state n) \/
     (el_term el = current_term (state n) /\ role n <> kCandidate));
  lm_unique p e p' e' : (p, e) ∈ L -> (p', e') ∈ L -> entry_index e = entry_index e' ->
    entry_term e = entry_term e' -> p = p' /\ e = e' }.

Lemma matching_empty : matching empty_cluster [].
Proof. split; cbn; intros *; try (by rewrite lookup_empty); by rewrite ?elem_of_nil. Qed.

(** A link that the leader [n] adds as [n']. *)
Definition pushed (n n' : Impl) (e : LogEntry) : Prop :=
  role n = kLeader /\ current_term (state n') = current_term (state n) /\
  entry_index e = last_index n + 1 /\ entry_term e = current_term (state n) /\
  last_index n' = last_index n + 1.

(** What a move of one member from [n] to [n'] has to satisfy. *)
Record moves (c : Cluster) (L L' : list Link) (i : NodeId) (n n' : Impl) (out : list OutboundMessage) : Prop := {
  mv_id : id n' = i;
  mv_contiguous : contiguous (last_included_index (snapshot (state n'))) (log (state n'));
  mv_old x : x ∈ L -> x ∈ L';
  mv_log x : x ∈ log_links (state n') -> x ∈ L';
  mv_new p e : (p, e) ∈ L' -> (p, e) ∈ L \/
    ((p, e) ∈ log_links (state n') /\ pushed n n' e /\ members c !! i = Some n);
  mv_out o a x : o ∈ out -> message o = MAppendEntries a ->
    x ∈ links_from (ae_previous_log_term a) (ae_entries a) -> x ∈ L';
  mv_leader : role n' = kLeader -> members c !! i = Some n;
  mv_last : role n' = kLeader -> role n = kLeader ->
    current_term (state n) = current_term (state n') -> last_index n <= last_index n';
  mv_win : role n' = kLeader -> ~ (role n = kLeader /\ current_term (state n) = current_term (state n')) ->
    current_term (state n) < current_term (state n') \/
    (role n = kCandidate /\ current_term (state n') = current_term (state n));
  mv_term m : members c !! i = Some m -> current_term (state m) <= current_term (state n') /\
    (role m <> kCandidate -> current_term (state n') = current_term (state m) -> role n' <> kCandidate) }.

Lemma election_nil n n' :
  role n' = kLeader -> election n n' = [] -> role n = kLeader /\ current_term (state n) = current_term (state n').
Proof.
  unfold election. intros Hr. rewrite (bool_decide_eq_true_2 (role n' = kLeader)) by done. cbn [andb].
  destruct (negb _) eqn:E; [done|]. intros _. apply negb_false_iff, andb_true_iff in E as [E1 E2].
  by apply bool_decide_eq_true in E1; apply Z.eqb_eq in E2.
Qed.
Lemma election_elem n n' el :
  el ∈ election n n' -> el_leader el = id n' /\ el_term el = current_term (state n') /\ role n' = kLeader /\
    ~ (role n = kLeader /\ current_term (state n) = current_term (state n')).
Proof.
  unfold election. destruct (_ && _) eqn:E; [|by intros ?%elem_of_nil].
  intros ->%list_elem_of_singleton. apply andb_true_iff in E as [E1 E2]. apply bool_decide_eq_true in E1.
  split_and!; try done. intros [R T]. rewrite bool_decide_eq_true_2, T, Z.eqb_refl in E2 by done. done.
Qed.

Section moving.
Context (c : Cluster) (L L' : list Link) (i : NodeId) (n n' : Impl) (out : list OutboundMessage).
Context (Hc : cluster_inv c) (Hm : matching c L) (Hmv : moves c L L' i n n' out).

(** A link of an earlier election stays below the end of its leader's log. *)
Lemma old_link p e : (p, e) ∈ L ->
  exists el, el ∈ elections (after c i n n' out) /\ el_term el = entry_term e /\
    forall m, members (after c i n n' out) !! el_leader el = Some m -> role m = kLeader ->
      current_term (state m) = entry_term e -> entry_index e <= last_index m.
Proof.
  intros Hx. destruct (lm_link _ _ Hm _ _ Hx) as (el & Hel & Ht & Hb). exists el.
  split; [apply elem_of_app; by right|]. split; [done|]. cbn [after members].
  intros m Hmm Hr Hcur. apply lookup_insert_Some in Hmm as [[Hi <-]|[_ Hmm]]; [|by apply Hb].
  pose proof (mv_leader _ _ _ _ _ _ _ Hmv Hr) as Hin. rewrite <- Hi in Hb.
  destruct (election n n') as [|el' els] eqn:Ee.
  - destruct (election_nil _ _ Hr Ee) as [R T]. etransitivity; [apply (Hb n); congruence|].
    by apply (mv_last _ _ _ _ _ _ _ Hmv).
  - destruct (election_elem n n' el') as (_ & _ & _ & Hno); [rewrite Ee; left|].
    destruct (lm_won _ _ Hm _ Hel) as (n0 & Hn0 & Hterm). rewrite <- Hi, Hin in Hn0. injection Hn0 as <-.
    destruct (mv_win _ _ _ _ _ _ _ Hmv Hr Hno) as [?|[? ?]]; destruct Hterm as [?|[? ?]]; lia || congruence.
Qed.

Lemma moved_link p e : (p, e) ∈ L' ->
  exists el, el ∈ elections (after c i n n' out) /\ el_term el = entry_term e /\
    forall m, members (after c i n n' out) !! el_leader el = Some m -> role m = kLeader ->
      current_term (state m) = entry_term e -> entry_index e <= last_index m.
Proof.
  intros Hx. destruct (mv_new _ _ _ _ _ _ _ Hmv _ _ Hx) as [Hold|(Hin & (R & T & Ei & Et & El) & Hi)];
    [by eapply old_link|].
  destruct (ci_leader c Hc _ _ Hi R) as (el & Hel & Hl & Ht). exists el.
  split; [apply elem_of_app; by right|]. split; [congruence|]. cbn [after members].
  rewrite Hl, lookup_insert_eq. intros m [= <-] _ _. lia.
Qed.

Lemma moved_won el : el ∈ elections (after c i n n' out) ->
  exists m, members (after c i n n' out) !! el_leader el = Some m /\
    (el_term el < current_term (state m) \/ (el_term el = current_term (state m) /\ role m <> kCandidate)).
Proof.
  intros [Hel|Hel]%elem_of_app; cbn [after members].
  - apply election_elem in Hel as (-> & -> & Hr & _). rewrite (mv_id _ _ _ _ _ _ _ Hmv), lookup_insert_eq.
    exists n'. split; [done|]. right. by rewrite Hr.
  - destruct (lm_won _ _ Hm _ Hel) as (m & Hin & Ht). destruct (decide (el_leader el = i)) as [E|Hne].
    + rewrite E in *. rewrite lookup_insert_eq. exists n'. split; [done|].
      destruct (mv_term _ _ _ _ _ _ _ Hmv _ Hin) as [Hle Hcand]. destruct Ht as [?|[? Hr]]; [left; lia|].
      destruct (Z.eq_dec (current_term (state n')) (current_term (state m))); [right|left; lia].
      split; [congruence|by apply Hcand].
    + rewrite lookup_insert_ne by done. by exists m.
Qed.

(** A new link has an index of its term that no earlier link has. *)
Lemma fresh_link p e e' :
  compatible c -> (p, e) ∈ L -> pushed n n' e' -> members c !! i = Some n ->
  entry_index e = entry_index e' -> entry_term e = entry_term e' -> False.
Proof.
  intros Hcomp Hx (R & _ & Ei & Et & _) Hi Ei' Et'.
  destruct (lm_link _ _ Hm _ _ Hx) as (el & Hel & Ht & Hb).
  destruct (ci_leader c Hc _ _ Hi R) as (el' & Hel' & Hl' & Ht').
  assert (E : el_leader el = i) by (rewrite <- Hl'; apply (one_winner c); try done; congruence).
  rewrite E in Hb. specialize (Hb _ Hi R ltac:(congruence)). lia.
Qed.

Lemma moves_matching : compatible c -> matching (after c i n n' out) L'.
Proof.
  intros Hcomp. split.
  - intros j m x Hin Hx. cbn [after members] in Hin.
    apply lookup_insert_Some in Hin as [[_ <-]|[_ Hin]]; [by apply (mv_log _ _ _ _ _ _ _ Hmv)|].
    apply (mv_old _ _ _ _ _ _ _ Hmv). by eapply (lm_member _ _ Hm).
  - intros source o a x [Ho|Ho]%elem_of_app Ha Hx.
    + apply list_elem_of_fmap in Ho as (o' & [= -> <-] & Ho). by eapply (mv_out _ _ _ _ _ _ _ Hmv).
    + apply (mv_old _ _ _ _ _ _ _ Hmv). by eapply (lm_sent _ _ Hm).
  - apply moved_link.
  - apply moved_won.
  - intros p e p' e' Hx Hx' Ei Et.
    destruct (mv_new _ _ _ _ _ _ _ Hmv _ _ Hx) as [Ho|(Hin & Hp & Hi)],
      (mv_new _ _ _ _ _ _ _ Hmv _ _ Hx') as [Ho'|(Hin' & Hp' & Hi')].
    + by eapply (lm_unique _ _ Hm).
    + exfalso. by eapply (fresh_link p e e').
    + exfalso. by eapply (fresh_link p' e' e).
    + eapply links_index; try done. apply (mv_contiguous _ _ _ _ _ _ _ Hmv).
Qed.
End moving.

(** * Every step moves *)

Lemma start_election_term n :
  node_inv n -> snd (start_election n) = n \/
    current_term (state n) < current_term (state (snd (start_election n))).
Proof.
  intros Hn. unfold start_election. destruct (negb _); [by left|].
  destruct (_ || _) eqn:E; [by left|]. right. apply orb_false_iff in E as [E _]. apply Z.eqb_neq in E.
  pose proof (so_term _ _ (ni_state n Hn)). destruct (config_quorum _ _ _); cbn; rewrite wrap_small; width_lia.
Qed.

Lemma last_index_pushed s e l :
  log s = l ++ [e] -> last_index_of s = entry_index e.
Proof. intros H. unfold last_index_of. by rewrite H, last_snoc. Qed.

Lemma step_links c L i n op n' :
  matching c L -> members c !! i = Some n -> node_inv n -> node_inv n' ->
  (forall source m, op = OpReceive source m ->
     (source, {| destination := i; message := m |}) ∈ network c) ->
  log_step n op n' -> forall p e, (p, e) ∈ log_links (state n') -> (p, e) ∈ L \/ pushed n n' e.
Proof.
  intros Hm Hi Hn Hn' Hnet Hs p e Hx. pose proof (lm_member _ _ Hm _ _ (p, e) Hi) as Hold.
  destruct Hs as [Hs|source a -> _ Hs|e0 R T Es El Ei Et|Hs _].
  - left. apply Hold. by rewrite <- (log_links_same _ _ Hs).
  - left. destruct (Hs _ Hx) as [?|Ha]; [by apply Hold|].
    exact (lm_sent _ _ Hm _ _ a _ (Hnet _ _ eq_refl) eq_refl Ha).
  - unfold log_links, base_term in Hx. rewrite Es, El, links_app in Hx. apply elem_of_app in Hx as [Hx|Hx].
    + left. by apply Hold.
    + right. apply list_elem_of_singleton in Hx. injection Hx as _ ->. split_and!; try done.
      unfold last_index at 1. by rewrite (last_index_pushed _ _ _ El).
  - left. auto.
Qed.

Lemma call_moves c L i n op r n' :
  cluster_inv c -> matching c L -> members c !! i = Some n -> operation_wf op ->
  (forall source m, op = OpReceive source m ->
     (source, {| destination := i; message := m |}) ∈ network c) ->
  run op n = (r, n') -> moves c L (log_links (state n') ++ L) i n n' (sent r).
Proof.
  intros Hc Hm Hi Hw Hnet Hr. destruct (ci_member c Hc _ _ Hi) as [Hn Hid].
  pose proof (run_ok op n Hn Hw) as (Hn' & Hev & Hid' & _).
  destruct (run_ballot op n) as [_ Hcnt]. destruct (run_links op n Hn Hw) as [Hst Htell].
  assert (Hstart : op = OpStartElection -> n' = n \/ current_term (state n) < current_term (state n')).
  { intros ->. cbn [run] in Hr. pose proof (start_election_term n Hn) as H. by rewrite Hr in H. }
  rewrite Hr in *. cbn [fst snd] in *. pose proof (so_log _ _ (ni_state n' Hn')) as Hl'.
  split.
  - congruence.
  - apply Hl'.
  - intros x Hx. apply elem_of_app. by right.
  - intros x Hx. apply elem_of_app. by left.
  - intros p e [Hx|Hx]%elem_of_app; [|by left].
    destruct (step_links c L i n op n' Hm Hi Hn Hn' Hnet Hst _ _ Hx); auto.
  - intros o a x Ho Ha Hx. apply elem_of_app. left. destruct r as [t|]; [|by apply elem_of_nil in Ho].
    unfold tells in Htell. rewrite Forall_forall in Htell. specialize (Htell _ Ho). rewrite Ha in Htell.
    by eapply replicates_links.
  - done.
  - intros R' R T. destruct Hst as [[El Es]|source a _ Hf _|e0 _ _ Es El Ei _|_ [Hf|Hf]]; try congruence.
    + unfold last_index, last_index_of. rewrite El, Es. done.
    + unfold last_index at 2. rewrite (last_index_pushed _ _ _ El). lia.
    + lia.
  - intros R' Hno. destruct Hcnt as [op n' Hs|n' _ _|source v n' Hcand _ _ ? _ _]; [| |by right].
    + destruct Hs as [?|(R & T & _)]; [congruence|]. exfalso. apply Hno. split; congruence.
    + destruct (Hstart eq_refl) as [->|?]; [|by left]. by exfalso; apply Hno.
  - intros m Hmm. rewrite Hi in Hmm. injection Hmm as <-. split; [apply Hev|]. intros Hnc Ht.
    destruct Hcnt as [op n' Hs|n' _ _|source v n' Hcand _ _ _ _ _]; [| |done].
    + destruct Hs as [->|(-> & _)]; done.
    + destruct (Hstart eq_refl) as [->|?]; [done|lia].
Qed.

(** Creation keeps the log and its base. *)
Lemma create_links node_id vs s lim n :
  create node_id vs s lim = Ok n -> log_links (state n) = log_links s.
Proof.
  intros H. unfold create, check in H.
  destruct (base_configuration s (sort_voters vs)) as [b0 q0] eqn:Eb. run_guards H. injection H as <-. cbn.
  unfold base_configuration in Eb. destruct (_ =? 0); [by injection Eb as _ <-|].
  destruct (_ =? 0); by injection Eb as _ <-.
Qed.

Lemma created_moves c L i n n' :
  cluster_inv c -> matching c L -> node_inv n' -> id n' = i -> role n' = kFollower ->
  (forall x, x ∈ log_links (state n') -> x ∈ L) ->
  (forall m, members c !! i = Some m -> current_term (state m) <= current_term (state n')) ->
  moves c L L i n n' [].
Proof.
  intros Hc Hm Hn' Hid Hr Hx Ht. split; rewrite ?Hr; try done.
  - apply (so_log _ _ (ni_state n' Hn')).
  - by left.
  - by intros o a x ?%elem_of_nil.
  - intros m Hi. split; [by apply Ht|done].
Qed.

Lemma history_matching c L : history c L -> compatible c -> matching c L.
Proof.
  induction 1 as [|c L i vs s lim n Hh IH Hi Hl Hs Hlg Hc|c L i n op r n' Hh IH Hi Hw Hn Hr|c L i n vs n' Hh IH Hi Hc];
    intros Hcomp; [apply matching_empty|..];
    pose proof (compatible_after _ _ _ _ _ Hcomp) as Hco; specialize (IH Hco);
    pose proof (cluster_reachable_inv _ (history_reachable _ _ Hh)) as Hci.
  - destruct (create_ok _ _ _ _ _ Hl Hs Hc) as (Hn & Hid & _). pose proof (create_follower _ _ _ _ _ Hc) as Hf.
    eapply moves_matching; try done. apply created_moves; try done; [|intros m Hm; congruence].
    intros x Hx. rewrite (create_links _ _ _ _ _ Hc) in Hx. unfold log_links in Hx. rewrite Hlg in Hx.
    by apply elem_of_nil in Hx.
  - eapply moves_matching; try done. by eapply call_moves.
  - destruct (ci_member c Hci _ _ Hi) as [Hn Hid].
    destruct (create_ok _ _ _ _ _ (proj2 (ni_limits n Hn)) (node_state_wf n Hn) Hc) as (Hn' & Hid' & _ & Ht & _).
    eapply moves_matching; try done. apply created_moves; try done; [by eapply create_follower|..].
    + intros x Hx. rewrite (create_links _ _ _ _ _ Hc) in Hx. by eapply (lm_member _ _ IH).
    + intros m Hm. rewrite Hi in Hm. injection Hm as <-. lia.
Qed.

(** * Log matching *)

(** An entry's link, and its predecessor when that is retained. *)
Lemma entry_link s k e :
  log_inv s -> last_included_index (snapshot s) < k -> entry_at s k = Some e ->
  entry_index e = k /\ exists p, (p, e) ∈ log_links s /\
    (last_included_index (snapshot s) < k - 1 -> exists e', entry_at s (k - 1) = Some e' /\ entry_term e' = p).
Proof.
  intros [Hc H0 _] Hk He. unfold entry_at in *. pose proof (Hc _ _ He). split; [lia|].
  set (j := Z.to_nat (k - last_included_index (snapshot s) - 1)) in *.
  exists (term_before (base_term s) (log s) j). split; [apply links_elem; eauto|]. intros Hk1.
  assert (Ej : j = S (Z.to_nat (k - 1 - last_included_index (snapshot s) - 1))) by lia.
  destruct (lookup_lt_is_Some_2 (log s) (Z.to_nat (k - 1 - last_included_index (snapshot s) - 1))) as [e' He'];
    [apply lookup_lt_Some in He; lia|].
  exists e'. split; [done|]. rewrite Ej. cbn [term_before]. by rewrite He'.
Qed.

Lemma logs_agree (L : list Link) s s' :
  (forall p e p' e', (p, e) ∈ L -> (p', e') ∈ L -> entry_index e = entry_index e' ->
     entry_term e = entry_term e' -> p = p' /\ e = e') ->
  log_inv s -> log_inv s' -> (forall x, x ∈ log_links s -> x ∈ L) -> (forall x, x ∈ log_links s' -> x ∈ L) ->
  forall d k e e',
  last_included_index (snapshot s) < k - Z.of_nat d -> last_included_index (snapshot s') < k - Z.of_nat d ->
  entry_at s k = Some e -> entry_at s' k = Some e' -> entry_term e = entry_term e' ->
  entry_at s (k - Z.of_nat d) = entry_at s' (k - Z.of_nat d).
Proof.
  intros Hu Hl Hl' HL HL'. induction d as [|d IH]; intros k e e' Hk Hk' He He' Ht;
    destruct (entry_link s k e Hl ltac:(lia) He) as (Ei & p & Hp & Hb),
      (entry_link s' k e' Hl' ltac:(lia) He') as (Ei' & p' & Hp' & Hb');
    destruct (Hu p e p' e') as [Epp Eee]; auto; try congruence.
  - rewrite Z.sub_0_r. congruence.
  - destruct (Hb ltac:(lia)) as (a & Ha & Hat), (Hb' ltac:(lia)) as (a' & Ha' & Hat').
    replace (k - Z.of_nat (S d)) with (k - 1 - Z.of_nat d) by lia.
    apply (IH (k - 1) a a'); done || lia || congruence.
Qed.

(** C6. Log matching.  In every history of a cluster whose members joined with empty
    logs and whose elections of one term share a voter set: when the logs of two members
    hold entries of the same term at one index, the logs are identical at every index up
    to it that both retain, whatever messages were lost, duplicated or reordered,
    whoever restarted, compacted its log or installed a snapshot. *)
Theorem log_matching (c : Cluster) (L : list Link) (i j : NodeId) (n m : Impl) (k k' : LogIndex)
  (e e' : LogEntry) (H : history c L) (Hcomp : compatible c)
  (Hi : members c !! i = Some n) (Hj : members c !! j = Some m)
  (Hn : last_included_index (snapshot (state n)) < k' <= k)
  (Hm : last_included_index (snapshot (state m)) < k')
  (He : entry_at (state n) k = Some e) (He' : entry_at (state m) k = Some e')
  (Ht : entry_term e = entry_term e') :
  entry_at (state n) k' = entry_at (state m) k'.
Proof.
  pose proof (history_matching c L H Hcomp) as Hmt.
  pose proof (cluster_reachable_inv _ (history_reachable _ _ H)) as Hci.
  assert (Hlog : forall a x, members c !! a = Some x -> log_inv (state x)).
  { intros a x Hx. destruct (ci_member c Hci _ _ Hx) as [Hx' _]. apply (so_log _ _ (ni_state x Hx')). }
  replace k' with (k - Z.of_nat (Z.to_nat (k - k'))) by lia.
  apply (logs_agree L) with (e := e) (e' := e'); try done; try lia; [apply (lm_unique _ _ Hmt)|by eapply Hlog|by eapply Hlog|..];
    intros x Hx; [exact (lm_member _ _ Hmt _ _ _ Hi Hx)|exact (lm_member _ _ Hmt _ _ _ Hj Hx)].
Qed.

(** ** Three nodes replicate one entry *)

Definition blank_member (i : NodeId) : Impl := sample_node i [1; 2; 3] (sample_state 1 [] 0).
Definition call_links (i : NodeId) (op : Operation) (h : Cluster * list Link) : Cluster * list Link :=
  match members h.1 !! i with
  | Some n => let (r, n') := run op n in (after h.1 i n n' (sent r), log_links (state n') ++ h.2)
  | None => h
  end.
Definition deliver_first (i : NodeId) (h : Cluster * list Link) : Cluster * list Link :=
  match network h.1 with
  | (source, o) :: _ => if destination o =? i then call_links i (OpReceive source (message o)) h else h
  | [] => h
  end.
Definition blank_cluster : Cluster * list Link :=
  (fold_right (fun i c => after c i (blank_member i) (blank_member i) []) empty_cluster [1; 2; 3], []).
(** Node 1 is elected by node 2 and replicates a command to it. *)
Definition replicated_history : Cluster * list Link :=
  deliver_first 2 (call_links 1 (OpPropose 1 [x07])
    (deliver_first 1 (deliver_first 2 (call_links 1 OpStartElection blank_cluster)))).

Lemma call_links_history i op h :
  history h.1 h.2 -> operation_wf op ->
  (forall source m, op = OpReceive source m ->
     (source, {| destination := i; message := m |}) ∈ network h.1) ->
  history (call_links i op h).1 (call_links i op h).2.
Proof.
  intros Hh Hw Hnet. unfold call_links. destruct (members h.1 !! i) as [n|] eqn:E; [|done].
  destruct (run op n) as [r n'] eqn:Er. by eapply history_call.
Qed.
Lemma deliver_first_history i h :
  history h.1 h.2 -> match network h.1 with (_, o) :: _ => message_wf (message o) | [] => True end ->
  history (deliver_first i h).1 (deliver_first i h).2.
Proof.
  intros Hh Hw. unfold deliver_first. destruct (network h.1) as [|[source o] net] eqn:En; [done|].
  destruct (Z.eqb_spec (destination o) i) as [<-|]; [|done]. apply call_links_history; [done|exact Hw|].
  intros src m [= <- <-]. rewrite En. destruct o. left.
Qed.
Lemma blank_history : history blank_cluster.1 blank_cluster.2.
Proof.
  unfold blank_cluster. cbn [fst snd fold_right].
  repeat (eapply (history_join _ _ _ [1; 2; 3] (sample_state 1 [] 0) sample_limits);
    [|vm_compute; reflexivity|vm_compute; intuition discriminate
     |split; [vm_compute; intuition discriminate|]; split; [constructor|vm_compute; intuition discriminate]
     |reflexivity|vm_compute; reflexivity]).
  apply history_empty.
Qed.
Lemma replicated_history_ok : history replicated_history.1 replicated_history.2.
Proof.
  unfold replicated_history. apply deliver_first_history; [apply call_links_history;
    [apply deliver_first_history; [apply deliver_first_history; [apply call_links_history; [exact blank_history|done|done]|]|]|done|done]|].
  - vm_compute. intuition discriminate.
  - vm_compute. intuition discriminate.
  - vm_compute. split; [intuition discriminate|]. repeat constructor; discriminate.
Qed.
Lemma replicated_compatible : compatible replicated_history.1.
Proof.
  assert (B : match elections replicated_history.1 with
    | [e0] => bool_decide (voter_sets (el_joint e0) (el_committed e0) = [[1; 2; 3]]) | _ => false end = true)
    by (vm_compute; reflexivity).
  unfold compatible. destruct (elections replicated_history.1) as [|e0 [|]]; [discriminate| |discriminate].
  apply bool_decide_eq_true in B. intros e1 e2 H1 H2 _.
  apply list_elem_of_singleton in H1 as ->. apply list_elem_of_singleton in H2 as ->.
  exists [1; 2; 3]. rewrite B. split; left.
Qed.
Lemma replicated_logs : exists n m e e',
  members replicated_history.1 !! 1 = Some n /\ members replicated_history.1 !! 2 = Some m /\
  last_included_index (snapshot (state n)) = 0 /\ last_included_index (snapshot (state m)) = 0 /\
  entry_at (state n) 1 = Some e /\ entry_at (state m) 1 = Some e' /\ entry_term e = entry_term e'.
Proof.
  assert (B : match members replicated_history.1 !! 1, members replicated_history.1 !! 2 with
    | Some n, Some m =>
        match entry_at (state n) 1, entry_at (state m) 1 with
        | Some e, Some e' => (last_included_index (snapshot (state n)) =? 0)
            && (last_included_index (snapshot (state m)) =? 0) && (entry_term e =? entry_term e')
        | _, _ => false
        end
    | _, _ => false
    end = true) by (vm_compute; reflexivity).
  destruct (members replicated_history.1 !! 1) as [n|]; [|discriminate].
  destruct (members replicated_history.1 !! 2) as [m|]; [|discriminate].
  destruct (entry_at (state n) 1) as [e|] eqn:E1; [|discriminate].
  destruct (entry_at (state m) 1) as [e'|] eqn:E2; [|discriminate].
  repeat rewrite andb_true_iff in B. destruct B as [[B1 B2] B3]. apply Z.eqb_eq in B1, B2, B3.
  exists n, m, e, e'. by split_and!.
Qed.

Lemma log_matching_witness : exists n m e,
  members replicated_history.1 !! 1 = Some n /\ members replicated_history.1 !! 2 = Some m /\
  entry_at (state n) 1 = Some e /\ entry_at (state n) 1 = entry_at (state m) 1.
Proof.
  destruct replicated_logs as (n & m & e & e' & E1 & E2 & S1 & S2 & He & He' & Ht).
  exists n, m, e. split; [exact E1|]. split; [exact E2|]. split; [exact He|].
  apply (log_matching replicated_history.1 replicated_history.2 1 2 n m 1 1 e e'
    replicated_history_ok replicated_compatible E1 E2); [lia|lia|exact He|exact He'|exact Ht].
Defined.
