(* ===== verification/RaftTransport.v ===== *)
(** Raft Transport Frame v1: include/chronos/raft/transport_codec.hpp and
    src/raft/transport_codec.cpp.  The canonical bytes of a group-scoped Raft
    message, the incremental reader of a byte stream and the cursor of a partly
    written frame. *)
From S2P Require Import Prelude Bytes Crc32c Reading RaftTypes RaftMembership.
#[local] Open Scope Z_scope.

(** * transport_codec.hpp *)

Definition kRaftTransportHeaderSize : Z := 96.
Definition kRaftTransportTrailerSize : Z := 4.
Definition kMaximumRaftTransportFrameSize : Z := 64 * 1024 * 1024.

Record RaftTransportCodecLimits := {
  tl_maximum_frame_bytes : Z; tl_maximum_append_entries : Z; tl_maximum_entry_bytes : Z;
  tl_maximum_snapshot_voters : Z }.

(** The default member initialisers. *)
Definition default_transport_limits : RaftTransportCodecLimits :=
  {| tl_maximum_frame_bytes := kMaximumRaftTransportFrameSize;
     tl_maximum_append_entries := 1024; tl_maximum_entry_bytes := 16 * 1024 * 1024;
     tl_maximum_snapshot_voters := 31 |}.

Record RaftTransportEnvelope := {
  te_group_id : list byte; te_source : NodeId; te_destination : NodeId; te_message : Message }.

(** * transport_codec.cpp *)

Definition kMagic : list byte := [x43; x48; x52; x4e; x52; x54; x57; x00].
Definition kMajor : Z := 1.
Definition kMinor : Z := 0.
Definition kHeaderCrcOffset : Z := 76.
Definition kMaximumEntryHeaderSize : Z := 24.
Definition kFraming : Z := kRaftTransportHeaderSize + kRaftTransportTrailerSize.

Inductive MessageKind :=
| kRequestVoteRequest | kRequestVoteResponse | kAppendEntriesRequest | kAppendEntriesResponse
| kInstallSnapshotRequest | kInstallSnapshotResponse | kReadBarrierRequest | kReadBarrierResponse.

#[global] Instance MessageKind_eq_dec : EqDecision MessageKind.
Proof. solve_decision. Defined.

(** The underlying value, and [static_cast<MessageKind>], which the decoder uses
    on the values 1 to 8. *)
Definition kind_raw (kind : MessageKind) : Z :=
  match kind with
  | kRequestVoteRequest => 1 | kRequestVoteResponse => 2 | kAppendEntriesRequest => 3
  | kAppendEntriesResponse => 4 | kInstallSnapshotRequest => 5 | kInstallSnapshotResponse => 6
  | kReadBarrierRequest => 7 | kReadBarrierResponse => 8
  end.
Definition kind_of_raw (raw : Z) : MessageKind :=
  match raw with
  | 1 => kRequestVoteRequest | 2 => kRequestVoteResponse | 3 => kAppendEntriesRequest
  | 4 => kAppendEntriesResponse | 5 => kInstallSnapshotRequest | 6 => kInstallSnapshotResponse
  | 7 => kReadBarrierRequest | _ => kReadBarrierResponse
  end.

Definition valid_limits (limits : RaftTransportCodecLimits) : bool :=
  (tl_maximum_frame_bytes limits >=? kFraming + 16)
  && (tl_maximum_frame_bytes limits <=? kMaximumRaftTransportFrameSize)
  && negb (tl_maximum_append_entries limits =? 0)
  && (tl_maximum_append_entries limits <=? max_u32)
  && negb (tl_maximum_entry_bytes limits =? 0)
  && (tl_maximum_entry_bytes limits <=? tl_maximum_frame_bytes limits)
  && negb (tl_maximum_snapshot_voters limits =? 0)
  && (tl_maximum_snapshot_voters limits <=? max_u32).

Definition canonical_voters (voters : list NodeId) (maximum : Z) : bool :=
  (blen voters <=? maximum)
  && ((blen voters =? 0)
      || (negb (front voters =? 0) && is_sorted voters && negb (has_adjacent_equal voters))).

Definition zero_bytes (bytes : list byte) : bool :=
  forallb (fun value => bool_decide (value = x00)) bytes.

(** The checksum of the header with its checksum field set to zero. *)
Definition header_crc (header : list byte) : Z :=
  crc32c (copy_at header kHeaderCrcOffset (replicate 4 x00)).

(** A [Message] of the model is never valueless. *)
Definition message_kind (message : Message) : MessageKind :=
  match message with
  | MRequestVote _ => kRequestVoteRequest | MRequestVoteResponse _ => kRequestVoteResponse
  | MAppendEntries _ => kAppendEntriesRequest | MAppendEntriesResponse _ => kAppendEntriesResponse
  | MInstallSnapshot _ => kInstallSnapshotRequest
  | MInstallSnapshotResponse _ => kInstallSnapshotResponse
  | MReadBarrier _ => kReadBarrierRequest | MReadBarrierResponse _ => kReadBarrierResponse
  end.

Definition validate_snapshot (s : SnapshotMetadata) (maximum_voters : Z) : StatusCode :=
  if (last_included_index s =? 0) || (last_included_index s =? max_u64)
     || (last_included_term s =? 0) || (manifest_generation s =? 0)
     || (configuration_index s >? last_included_index s) || (blen (snapshot_voters s) =? 0)
     || negb (canonical_voters (snapshot_voters s) maximum_voters)
  then kInvalidArgument else kOk.

(** The loop over the entries of an append request. *)
Fixpoint validate_entries (limits : RaftTransportCodecLimits) (term : Term) (expected : LogIndex)
  (entries : list LogEntry) : StatusCode :=
  match entries with
  | [] => kOk
  | entry :: entries =>
      if (expected =? max_u64) || negb (entry_index entry =? u64 (expected + 1))
         || (entry_index entry =? max_u64) || (entry_term entry =? 0)
         || (entry_term entry >? term) || (entry_type entry =? 0)
         || (blen (entry_payload entry) >? tl_maximum_entry_bytes limits)
         || ((entry_type entry =? kLeaderNoopEntryType) && negb (blen (entry_payload entry) =? 0))
      then kInvalidArgument
      else validate_entries limits term (entry_index entry) entries
  end.

Definition validate_message (envelope : RaftTransportEnvelope) (limits : RaftTransportCodecLimits)
  : StatusCode :=
  let source := te_source envelope in
  if is_nil (te_group_id envelope) || (source =? 0) || (te_destination envelope =? 0)
     || (source =? te_destination envelope) then kInvalidArgument
  else if message_term (te_message envelope) =? 0 then kInvalidArgument
  else match te_message envelope with
  | MRequestVote v =>
      if negb (rv_candidate_id v =? source)
         || xorb (rv_last_log_index v =? 0) (rv_last_log_term v =? 0)
         || (rv_last_log_index v =? max_u64) || (rv_last_log_term v >? rv_term v)
      then kInvalidArgument else kOk
  | MRequestVoteResponse _ => kOk
  | MAppendEntries v =>
      if negb (ae_leader_id v =? source)
         || xorb (ae_previous_log_index v =? 0) (ae_previous_log_term v =? 0)
         || (ae_previous_log_index v =? max_u64) || (ae_previous_log_term v >? ae_term v)
         || (ae_leader_commit v =? max_u64)
         || (blen (ae_entries v) >? tl_maximum_append_entries limits)
      then kInvalidArgument
      else validate_entries limits (ae_term v) (ae_previous_log_index v) (ae_entries v)
  | MAppendEntriesResponse v =>
      if aer_match_index v =? max_u64 then kInvalidArgument
      else if aer_success v
              && (bool_decide (is_Some (aer_conflict_term v)) || negb (aer_conflict_index v =? 0))
      then kInvalidArgument
      else if negb (aer_success v) && (aer_conflict_index v =? 0) then kInvalidArgument
      else match aer_conflict_term v with
      | Some term => if (term =? 0) || (term >? aer_term v) then kInvalidArgument else kOk
      | None => kOk
      end
  | MInstallSnapshot v =>
      if negb (is_leader_id v =? source) || (last_included_term (is_snapshot v) >? is_term v)
      then kInvalidArgument
      else validate_snapshot (is_snapshot v) (tl_maximum_snapshot_voters limits)
  | MInstallSnapshotResponse v =>
      if isr_last_included_index v =? max_u64 then kInvalidArgument
      else if isr_success v && (isr_last_included_index v =? 0) then kInvalidArgument
      else kOk
  | MReadBarrier v =>
      if negb (rb_leader_id v =? source) || (rb_context v =? 0) then kInvalidArgument else kOk
  | MReadBarrierResponse v => if rbr_context v =? 0 then kInvalidArgument else kOk
  end.

Definition snapshot_payload_size (s : SnapshotMetadata) : Z := 72 + blen (snapshot_voters s) * 8.

Fixpoint entries_payload_size (limits : RaftTransportCodecLimits) (size : Z)
  (entries : list LogEntry) : result Z :=
  match entries with
  | [] => Ok size
  | entry :: entries =>
      let bytes := blen (entry_payload entry) in
      if (bytes >? tl_maximum_entry_bytes limits)
         || (size >? tl_maximum_frame_bytes limits - kMaximumEntryHeaderSize)
         || (bytes >? tl_maximum_frame_bytes limits - size - kMaximumEntryHeaderSize)
      then Err kResourceExhausted
      else entries_payload_size limits (size + (kMaximumEntryHeaderSize + bytes)) entries
  end.

Definition message_payload_size (message : Message) (limits : RaftTransportCodecLimits)
  : result Z :=
  match message with
  | MRequestVote _ => Ok 32
  | MRequestVoteResponse _ => Ok 16
  | MAppendEntries v => entries_payload_size limits 48 (ae_entries v)
  | MAppendEntriesResponse _ => Ok 40
  | MInstallSnapshot v => Ok (16 + snapshot_payload_size (is_snapshot v))
  | MInstallSnapshotResponse _ | MReadBarrier _ | MReadBarrierResponse _ => Ok 24
  end.

(** ** Writing *)

(** A run of [advance(status, writer.write_...)] calls: every call is made, the
    first failing status is kept. *)
Fixpoint advance_fields (fs : list Field) (status : StatusCode) (w : ByteWriter)
  : StatusCode * ByteWriter :=
  match fs with
  | [] => (status, w)
  | f :: fs =>
      let '(next, w) := write_field f w in
      advance_fields fs (if is_ok status then next else status) w
  end.
Definition flag (b : bool) : Z := if b then 1 else 0.

Definition snapshot_fields (s : SnapshotMetadata) : list Field :=
  [FU64 (last_included_index s); FU64 (last_included_term s); FU64 (manifest_generation s);
   FBytes (part_set_checksum s); FU64 (configuration_index s);
   FU32 (u32 (blen (snapshot_voters s))); zero_field 4]
  ++ (FU64 <$> snapshot_voters s).

Definition entry_fields (e : LogEntry) : list Field :=
  [FU64 (entry_index e); FU64 (entry_term e); FU8 (entry_type e); zero_field 3;
   FU32 (u32 (blen (entry_payload e))); FBytes (entry_payload e)].

(** The writer calls of [encode_payload], in order. *)
Definition payload_fields (message : Message) : list Field :=
  FU64 (message_term message) ::
  match message with
  | MRequestVote v =>
      [FU64 (rv_candidate_id v); FU64 (rv_last_log_index v); FU64 (rv_last_log_term v)]
  | MRequestVoteResponse v => [FU8 (flag (rvr_granted v)); zero_field 7]
  | MAppendEntries v =>
      [FU64 (ae_leader_id v); FU64 (ae_previous_log_index v); FU64 (ae_previous_log_term v);
       FU64 (ae_leader_commit v); FU32 (u32 (blen (ae_entries v))); zero_field 4]
      ++ concat (entry_fields <$> ae_entries v)
  | MAppendEntriesResponse v =>
      [FU8 (flag (aer_success v)); FU8 (flag (bool_decide (is_Some (aer_conflict_term v))));
       zero_field 6; FU64 (aer_match_index v); FU64 (default 0 (aer_conflict_term v));
       FU64 (aer_conflict_index v)]
  | MInstallSnapshot v => FU64 (is_leader_id v) :: snapshot_fields (is_snapshot v)
  | MInstallSnapshotResponse v =>
      [FU8 (flag (isr_success v)); zero_field 7; FU64 (isr_last_included_index v)]
  | MReadBarrier v => [FU64 (rb_leader_id v); FU64 (rb_context v)]
  | MReadBarrierResponse v =>
      [FU64 (rbr_context v); FU8 (flag (rbr_accepted v)); zero_field 7]
  end.

Definition encode_payload (message : Message) (payload_size : Z) : result (list byte) :=
  let writer := ByteWriter_new (replicate (Z.to_nat payload_size) x00) in
  let '(status, writer) := advance_fields (payload_fields message) kOk writer in
  fail_if negb (is_ok status) || negb (writer_full writer) with kCorruption;
  Ok (writer_bytes writer).

Definition raft_transport_encoded_length_v1 (envelope : RaftTransportEnvelope)
  (limits : RaftTransportCodecLimits) : result Z :=
  fail_if negb (valid_limits limits) with kInvalidArgument;
  check! validate_message envelope limits;
  let? size := message_payload_size (te_message envelope) limits in
  fail_if size >? tl_maximum_frame_bytes limits - kFraming with kResourceExhausted;
  Ok (kFraming + size).

(** The writer calls of the fixed header. *)
Definition frame_header_fields (envelope : RaftTransportEnvelope) (frame_size : Z)
  (payload : list byte) : list Field :=
  [FBytes kMagic; FU16 kMajor; FU16 kMinor; FU32 kRaftTransportHeaderSize; FU64 frame_size;
   FBytes (te_group_id envelope); FU64 (te_source envelope); FU64 (te_destination envelope);
   FU8 (kind_raw (message_kind (te_message envelope))); FU8 0; zero_field 6;
   FU64 (blen payload); FU32 (crc32c payload); FU32 0; zero_field 16].

Definition encode_raft_transport_envelope_v1 (envelope : RaftTransportEnvelope)
  (limits : RaftTransportCodecLimits) : result (list byte) :=
  let? total_size := raft_transport_encoded_length_v1 envelope limits in
  let payload_size := total_size - kFraming in
  let? payload := encode_payload (te_message envelope) payload_size in
  let writer := ByteWriter_new (replicate (Z.to_nat total_size) x00) in
  let '(status, writer) :=
    advance_fields (frame_header_fields envelope total_size payload) kOk writer in
  fail_if negb (is_ok status) || negb (writer_offset writer =? kRaftTransportHeaderSize)
    with kCorruption;
  let frame := writer_bytes writer in
  let frame := store_u32_le frame kHeaderCrcOffset
                 (header_crc (first frame kRaftTransportHeaderSize)) in
  let frame := copy_at frame kRaftTransportHeaderSize payload in
  Ok (store_u32_le frame (blen frame - kRaftTransportTrailerSize)
        (crc32c (first frame (blen frame - kRaftTransportTrailerSize)))).

(** ** Reading *)

Definition read_uuid (reader : ByteReader) : result (list byte) * ByteReader :=
  match read_exact 16 reader with
  | (Ok bytes, reader) => (Ok bytes, reader)
  | (Err _, reader) => (Err kCorruption, reader)
  end.

(** The voters of a snapshot, read one by one. *)
Fixpoint decode_voters (count : nat) (reader : ByteReader) : result (list NodeId * ByteReader) :=
  match count with
  | O => Ok ([], reader)
  | S count =>
      match read_u64_le reader with
      | (Err _, _) => Err kCorruption
      | (Ok voter, reader) =>
          let? (voters, reader) := decode_voters count reader in Ok (voter :: voters, reader)
      end
  end.

Definition decode_snapshot (reader : ByteReader) (limits : RaftTransportCodecLimits)
  : result (SnapshotMetadata * ByteReader) :=
  let '(index, reader) := read_u64_le reader in
  let '(term, reader) := read_u64_le reader in
  let '(generation, reader) := read_u64_le reader in
  let '(checksum, reader) := read_exact 32 reader in
  let '(configuration, reader) := read_u64_le reader in
  let '(voter_count, reader) := read_u32_le reader in
  let '(reserved, reader) := read_exact 4 reader in
  match index, term, generation, checksum, configuration, voter_count, reserved with
  | Ok index, Ok term, Ok generation, Ok checksum, Ok configuration, Ok voter_count,
    Ok reserved =>
      fail_if negb (zero_bytes reserved) with kCorruption;
      fail_if (voter_count >? tl_maximum_snapshot_voters limits)
              || (voter_count >? reader_remaining reader / 8) with kResourceExhausted;
      let? (voters, reader) := decode_voters (Z.to_nat voter_count) reader in
      let snapshot := {| last_included_index := index; last_included_term := term;
                         manifest_generation := generation; part_set_checksum := checksum;
                         configuration_index := configuration; snapshot_voters := voters |} in
      fail_if negb (is_ok (validate_snapshot snapshot (tl_maximum_snapshot_voters limits)))
        with kCorruption;
      Ok (snapshot, reader)
  | _, _, _, _, _, _, _ => Err kCorruption
  end.

Fixpoint decode_entries (count : nat) (reader : ByteReader) (limits : RaftTransportCodecLimits)
  : result (list LogEntry * ByteReader) :=
  match count with
  | O => Ok ([], reader)
  | S count =>
      let '(index, reader) := read_u64_le reader in
      let '(entry_term, reader) := read_u64_le reader in
      let '(type, reader) := read_u8 reader in
      let '(entry_reserved, reader) := read_exact 3 reader in
      let '(size, reader) := read_u32_le reader in
      match index, entry_term, type, entry_reserved, size with
      | Ok index, Ok entry_term, Ok type, Ok entry_reserved, Ok size =>
          fail_if negb (zero_bytes entry_reserved) with kCorruption;
          fail_if (size >? tl_maximum_entry_bytes limits) || (size >? reader_remaining reader)
            with kResourceExhausted;
          match read_exact size reader with
          | (Err _, _) => Err kCorruption
          | (Ok bytes, reader) =>
              let? (entries, reader) := decode_entries count reader limits in
              Ok ({| entry_index := index; entry_term := entry_term; entry_type := type;
                     entry_payload := bytes |} :: entries, reader)
          end
      | _, _, _, _, _ => Err kCorruption
      end
  end.

Definition decode_request_vote (term : Term) (reader : ByteReader) : result (Message * ByteReader) :=
  let '(candidate, reader) := read_u64_le reader in
  let '(index, reader) := read_u64_le reader in
  let '(last_term, reader) := read_u64_le reader in
  match candidate, index, last_term with
  | Ok candidate, Ok index, Ok last_term =>
      Ok (MRequestVote {| rv_term := term; rv_candidate_id := candidate;
                          rv_last_log_index := index; rv_last_log_term := last_term |}, reader)
  | _, _, _ => Err kCorruption
  end.

Definition decode_vote_response (term : Term) (reader : ByteReader)
  : result (Message * ByteReader) :=
  let '(granted, reader) := read_u8 reader in
  let '(reserved, reader) := read_exact 7 reader in
  match granted, reserved with
  | Ok granted, Ok reserved =>
      fail_if (granted >? 1) || negb (zero_bytes reserved) with kCorruption;
      Ok (MRequestVoteResponse {| rvr_term := term; rvr_granted := granted =? 1 |}, reader)
  | _, _ => Err kCorruption
  end.

Definition decode_append_entries (term : Term) (reader : ByteReader)
  (limits : RaftTransportCodecLimits) : result (Message * ByteReader) :=
  let '(leader, reader) := read_u64_le reader in
  let '(previous_index, reader) := read_u64_le reader in
  let '(previous_term, reader) := read_u64_le reader in
  let '(commit, reader) := read_u64_le reader in
  let '(count, reader) := read_u32_le reader in
  let '(reserved, reader) := read_exact 4 reader in
  match leader, previous_index, previous_term, commit, count, reserved with
  | Ok leader, Ok previous_index, Ok previous_term, Ok commit, Ok count, Ok reserved =>
      fail_if negb (zero_bytes reserved) with kCorruption;
      fail_if (count >? tl_maximum_append_entries limits)
              || (count >? reader_remaining reader / kMaximumEntryHeaderSize)
        with kResourceExhausted;
      let? (entries, reader) := decode_entries (Z.to_nat count) reader limits in
      Ok (MAppendEntries {| ae_term := term; ae_leader_id := leader;
                            ae_previous_log_index := previous_index;
                            ae_previous_log_term := previous_term; ae_entries := entries;
                            ae_leader_commit := commit |}, reader)
  | _, _, _, _, _, _ => Err kCorruption
  end.

Definition decode_append_response (term : Term) (reader : ByteReader)
  : result (Message * ByteReader) :=
  let '(success, reader) := read_u8 reader in
  let '(has_conflict, reader) := read_u8 reader in
  let '(reserved, reader) := read_exact 6 reader in
  let '(match_, reader) := read_u64_le reader in
  let '(conflict_term, reader) := read_u64_le reader in
  let '(conflict_index, reader) := read_u64_le reader in
  match success, has_conflict, reserved, match_, conflict_term, conflict_index with
  | Ok success, Ok has_conflict, Ok reserved, Ok match_, Ok conflict_term, Ok conflict_index =>
      fail_if (success >? 1) || (has_conflict >? 1) || negb (zero_bytes reserved)
              || ((has_conflict =? 0) && negb (conflict_term =? 0)) with kCorruption;
      Ok (MAppendEntriesResponse
            {| aer_term := term; aer_success := success =? 1; aer_match_index := match_;
               aer_conflict_term := if has_conflict =? 1 then Some conflict_term else None;
               aer_conflict_index := conflict_index |}, reader)
  | _, _, _, _, _, _ => Err kCorruption
  end.

Definition decode_install_snapshot (term : Term) (reader : ByteReader)
  (limits : RaftTransportCodecLimits) : result (Message * ByteReader) :=
  match read_u64_le reader with
  | (Err _, _) => Err kCorruption
  | (Ok leader, reader) =>
      let? (snapshot, reader) := decode_snapshot reader limits in
      Ok (MInstallSnapshot {| is_term := term; is_leader_id := leader; is_snapshot := snapshot |},
          reader)
  end.

Definition decode_snapshot_response (term : Term) (reader : ByteReader)
  : result (Message * ByteReader) :=
  let '(success, reader) := read_u8 reader in
  let '(reserved, reader) := read_exact 7 reader in
  let '(index, reader) := read_u64_le reader in
  match success, reserved, index with
  | Ok success, Ok reserved, Ok index =>
      fail_if (success >? 1) || negb (zero_bytes reserved) with kCorruption;
      Ok (MInstallSnapshotResponse {| isr_term := term; isr_success := success =? 1;
                                      isr_last_included_index := index |}, reader)
  | _, _, _ => Err kCorruption
  end.

Definition decode_read_barrier (term : Term) (reader : ByteReader) : result (Message * ByteReader) :=
  let '(leader, reader) := read_u64_le reader in
  let '(context, reader) := read_u64_le reader in
  match leader, context with
  | Ok leader, Ok context =>
      Ok (MReadBarrier {| rb_term := term; rb_leader_id := leader; rb_context := context |}, reader)
  | _, _ => Err kCorruption
  end.

Definition decode_barrier_response (term : Term) (reader : ByteReader)
  : result (Message * ByteReader) :=
  let '(context, reader) := read_u64_le reader in
  let '(accepted, reader) := read_u8 reader in
  let '(reserved, reader) := read_exact 7 reader in
  match context, accepted, reserved with
  | Ok context, Ok accepted, Ok reserved =>
      fail_if (accepted >? 1) || negb (zero_bytes reserved) with kCorruption;
      Ok (MReadBarrierResponse {| rbr_term := term; rbr_context := context;
                                  rbr_accepted := accepted =? 1 |}, reader)
  | _, _, _ => Err kCorruption
  end.

(** The switch of [decode_payload]. *)
Definition decode_message (kind : MessageKind) (term : Term) (reader : ByteReader)
  (limits : RaftTransportCodecLimits) : result (Message * ByteReader) :=
  match kind with
  | kRequestVoteRequest => decode_request_vote term reader
  | kRequestVoteResponse => decode_vote_response term reader
  | kAppendEntriesRequest => decode_append_entries term reader limits
  | kAppendEntriesResponse => decode_append_response term reader
  | kInstallSnapshotRequest => decode_install_snapshot term reader limits
  | kInstallSnapshotResponse => decode_snapshot_response term reader
  | kReadBarrierRequest => decode_read_barrier term reader
  | kReadBarrierResponse => decode_barrier_response term reader
  end.

Definition decode_payload (kind : MessageKind) (payload : list byte)
  (limits : RaftTransportCodecLimits) : result Message :=
  match read_u64_le (ByteReader_new payload) with
  | (Err _, _) => Err kCorruption
  | (Ok term, reader) =>
      let? (message, reader) := decode_message kind term reader limits in
      fail_if negb (reader_empty reader) with kCorruption;
      Ok message
  end.

Definition raft_transport_frame_length_v1 (header : list byte)
  (limits : RaftTransportCodecLimits) : result Z :=
  fail_if negb (valid_limits limits) with kInvalidArgument;
  fail_if negb (blen header =? kRaftTransportHeaderSize) with kCorruption;
  fail_if negb (bool_decide (first header (blen kMagic) = kMagic)) with kCorruption;
  fail_if negb (load_u32_le header kHeaderCrcOffset =? header_crc header) with kCorruption;
  fail_if negb (load_u16_le header 8 =? kMajor) || negb (load_u16_le header 10 =? kMinor)
    with kNotSupported;
  fail_if negb (load_u32_le header 12 =? kRaftTransportHeaderSize)
          || negb (bool_decide (byte_at header 57 = x00))
          || negb (zero_bytes (subspan header 58 6)) || negb (zero_bytes (subspan header 80 16))
          || zero_bytes (subspan header 24 16) with kCorruption;
  let raw_kind := byte_to_Z (byte_at header 56) in
  fail_if (raw_kind <? 1) || (raw_kind >? 8) with kNotSupported;
  let total := load_u64_le header 16 in
  let payload := load_u64_le header 64 in
  fail_if (total <? kFraming) || (total >? tl_maximum_frame_bytes limits)
          || negb (payload =? total - kFraming) || (load_u64_le header 40 =? 0)
          || (load_u64_le header 48 =? 0)
          || (load_u64_le header 40 =? load_u64_le header 48) with kCorruption;
  Ok total.

(** The part of the decoder after the checksums. *)
Definition decode_envelope (header payload : list byte) (raw_kind : Z)
  (limits : RaftTransportCodecLimits) : result RaftTransportEnvelope :=
  let header_reader := ByteReader_new (subspan header 24 32) in
  let '(group_id, header_reader) := read_uuid header_reader in
  let '(source, header_reader) := read_u64_le header_reader in
  let '(destination, header_reader) := read_u64_le header_reader in
  match group_id, source, destination with
  | Ok group_id, Ok source, Ok destination =>
      fail_if negb (reader_empty header_reader) with kCorruption;
      let? message := decode_payload (kind_of_raw raw_kind) payload limits in
      let envelope := {| te_group_id := group_id; te_source := source;
                         te_destination := destination; te_message := message |} in
      fail_if negb (is_ok (validate_message envelope limits)) with kCorruption;
      Ok envelope
  | _, _, _ => Err kCorruption
  end.

Definition decode_raft_transport_envelope_v1 (bytes : list byte)
  (limits : RaftTransportCodecLimits) : result RaftTransportEnvelope :=
  fail_if negb (valid_limits limits) with kInvalidArgument;
  fail_if blen bytes <? kFraming with kCorruption;
  fail_if blen bytes >? tl_maximum_frame_bytes limits with kResourceExhausted;
  let header := first bytes kRaftTransportHeaderSize in
  fail_if negb (bool_decide (first header (blen kMagic) = kMagic)) with kCorruption;
  fail_if negb (load_u32_le header kHeaderCrcOffset =? header_crc header) with kCorruption;
  fail_if negb (load_u16_le header 8 =? kMajor) || negb (load_u16_le header 10 =? kMinor)
    with kNotSupported;
  fail_if negb (load_u32_le header 12 =? kRaftTransportHeaderSize)
          || negb (load_u64_le header 16 =? blen bytes) with kCorruption;
  fail_if negb (bool_decide (byte_at header 57 = x00))
          || negb (zero_bytes (subspan header 58 6)) || negb (zero_bytes (subspan header 80 16))
    with kCorruption;
  let raw_kind := byte_to_Z (byte_at header 56) in
  fail_if (raw_kind <? 1) || (raw_kind >? 8) with kNotSupported;
  let declared_payload := load_u64_le header 64 in
  fail_if negb (declared_payload =? blen bytes - kFraming) with kCorruption;
  let payload := subspan bytes kRaftTransportHeaderSize declared_payload in
  fail_if negb (load_u32_le header 72 =? crc32c payload)
          || negb (load_u32_le bytes (blen bytes - kRaftTransportTrailerSize)
                   =? crc32c (first bytes (blen bytes - kRaftTransportTrailerSize)))
    with kCorruption;
  decode_envelope header payload raw_kind limits.

(** ** [RaftTransportFrameReader] *)

Record RaftTransportFrameReader := {
  fr_limits : RaftTransportCodecLimits; fr_header : list byte; fr_header_bytes : Z;
  fr_frame : list byte; fr_frame_bytes : Z; fr_expected_frame_bytes : option Z;
  fr_failure : option StatusCode }.

Record RaftTransportReadStep := { consumed_bytes : Z; step_envelope : option RaftTransportEnvelope }.

Definition FrameReader_create (limits : RaftTransportCodecLimits)
  : result RaftTransportFrameReader :=
  fail_if negb (valid_limits limits) with kInvalidArgument;
  Ok {| fr_limits := limits; fr_header := replicate 96 x00; fr_header_bytes := 0;
        fr_frame := []; fr_frame_bytes := 0; fr_expected_frame_bytes := None;
        fr_failure := None |}.

(** [fail]: the failure is kept and returned. *)
Definition FrameReader_fail (r : RaftTransportFrameReader) (status : StatusCode)
  : result RaftTransportReadStep * RaftTransportFrameReader :=
  (make_unexpected status,
   {| fr_limits := fr_limits r; fr_header := fr_header r; fr_header_bytes := fr_header_bytes r;
      fr_frame := fr_frame r; fr_frame_bytes := fr_frame_bytes r;
      fr_expected_frame_bytes := fr_expected_frame_bytes r; fr_failure := Some status |}).

Definition reset_frame (r : RaftTransportFrameReader) : RaftTransportFrameReader :=
  {| fr_limits := fr_limits r; fr_header := fr_header r; fr_header_bytes := 0;
     fr_frame := []; fr_frame_bytes := 0; fr_expected_frame_bytes := None;
     fr_failure := fr_failure r |}.

(** [header_] and [header_bytes_] after bytes have been copied into the header. *)
Definition fill_header (r : RaftTransportFrameReader) (bytes : list byte)
  : RaftTransportFrameReader :=
  {| fr_limits := fr_limits r; fr_header := copy_at (fr_header r) (fr_header_bytes r) bytes;
     fr_header_bytes := fr_header_bytes r + blen bytes; fr_frame := fr_frame r;
     fr_frame_bytes := fr_frame_bytes r; fr_expected_frame_bytes := fr_expected_frame_bytes r;
     fr_failure := fr_failure r |}.

(** The frame buffer of the expected size, which starts with the header. *)
Definition start_frame (r : RaftTransportFrameReader) (expected : Z) : RaftTransportFrameReader :=
  let frame := take (Z.to_nat expected) (fr_frame r)
               ++ replicate (Z.to_nat expected - length (fr_frame r)) x00 in
  {| fr_limits := fr_limits r; fr_header := fr_header r; fr_header_bytes := fr_header_bytes r;
     fr_frame := copy_at frame 0 (fr_header r);
     fr_frame_bytes := kRaftTransportHeaderSize; fr_expected_frame_bytes := Some expected;
     fr_failure := fr_failure r |}.

Definition fill_frame (r : RaftTransportFrameReader) (bytes : list byte)
  : RaftTransportFrameReader :=
  {| fr_limits := fr_limits r; fr_header := fr_header r; fr_header_bytes := fr_header_bytes r;
     fr_frame := copy_at (fr_frame r) (fr_frame_bytes r) bytes;
     fr_frame_bytes := fr_frame_bytes r + blen bytes;
     fr_expected_frame_bytes := fr_expected_frame_bytes r; fr_failure := fr_failure r |}.

(** The part of [consume] that fills the frame, with [*expected_frame_bytes_]. *)
Definition consume_frame (r : RaftTransportFrameReader) (expected : Z) (bytes : list byte)
  (consumed : Z) : result RaftTransportReadStep * RaftTransportFrameReader :=
  let remainder := subspan bytes consumed (blen bytes - consumed) in
  let copied := Z.min (blen remainder) (expected - fr_frame_bytes r) in
  let r := fill_frame r (first remainder copied) in
  let consumed := consumed + copied in
  if negb (fr_frame_bytes r =? expected)
  then (Ok {| consumed_bytes := consumed; step_envelope := None |}, r)
  else match decode_raft_transport_envelope_v1 (fr_frame r) (fr_limits r) with
       | Err status => FrameReader_fail r status
       | Ok envelope =>
           (Ok {| consumed_bytes := consumed; step_envelope := Some envelope |}, reset_frame r)
       end.

Definition FrameReader_consume (r : RaftTransportFrameReader) (bytes : list byte)
  : result RaftTransportReadStep * RaftTransportFrameReader :=
  match fr_failure r with
  | Some failure => (make_unexpected failure, r)
  | None =>
      match fr_expected_frame_bytes r with
      | Some expected => consume_frame r expected bytes 0
      | None =>
          let copied := Z.min (blen bytes) (kRaftTransportHeaderSize - fr_header_bytes r) in
          let r := fill_header r (first bytes copied) in
          if negb (fr_header_bytes r =? kRaftTransportHeaderSize)
          then (Ok {| consumed_bytes := copied; step_envelope := None |}, r)
          else match raft_transport_frame_length_v1 (fr_header r) (fr_limits r) with
               | Err status => FrameReader_fail r status
               | Ok expected => consume_frame (start_frame r expected) expected bytes copied
               end
      end
  end.

Definition buffered_bytes (r : RaftTransportFrameReader) : Z :=
  match fr_expected_frame_bytes r with Some _ => fr_frame_bytes r | None => fr_header_bytes r end.
Definition reader_failed (r : RaftTransportFrameReader) : bool :=
  bool_decide (is_Some (fr_failure r)).

(** ** [RaftTransportFrameWriteCursor] *)

Record RaftTransportFrameWriteCursor := { encoded_frame : list byte; written_bytes : Z }.

Definition WriteCursor_create (encoded_frame : list byte) (limits : RaftTransportCodecLimits)
  : result RaftTransportFrameWriteCursor :=
  let? _ := decode_raft_transport_envelope_v1 encoded_frame limits in
  Ok {| encoded_frame := encoded_frame; written_bytes := 0 |}.
Definition pending_write (c : RaftTransportFrameWriteCursor) : list byte :=
  subspan (encoded_frame c) (written_bytes c) (blen (encoded_frame c) - written_bytes c).
Definition consume_written (c : RaftTransportFrameWriteCursor) (bytes : Z)
  : StatusCode * RaftTransportFrameWriteCursor :=
  if bytes >? blen (encoded_frame c) - written_bytes c then (kInvalidArgument, c)
  else (kOk, {| encoded_frame := encoded_frame c; written_bytes := written_bytes c + bytes |}).
Definition cursor_complete (c : RaftTransportFrameWriteCursor) : bool :=
  written_bytes c =? blen (encoded_frame c).

(** Move construction: the source keeps an empty vector and is complete. *)
Definition WriteCursor_move (c : RaftTransportFrameWriteCursor)
  : RaftTransportFrameWriteCursor * RaftTransportFrameWriteCursor :=
  (c, {| encoded_frame := []; written_bytes := 0 |}).

Definition sample_envelope : RaftTransportEnvelope :=
  {| te_group_id := x01 :: replicate 15 x00; te_source := 1; te_destination := 2;
     te_message := MAppendEntries
       {| ae_term := 3; ae_leader_id := 1; ae_previous_log_index := 4; ae_previous_log_term := 2;
          ae_entries := [{| entry_index := 5; entry_term := 3; entry_type := 7;
                            entry_payload := [xaa; xbb] |}];
          ae_leader_commit := 4 |} |}.
Example transport_sample :
  (let? bytes := encode_raft_transport_envelope_v1 sample_envelope default_transport_limits in
   decode_raft_transport_envelope_v1 bytes default_transport_limits) = Ok sample_envelope.
Proof. vm_compute. reflexivity. Qed.
