(* ===== verification/RaftTransportCodec.v ===== *)
(** The transport codec is exact: the encoder writes the canonical frame of a
    valid envelope and the decoder accepts the canonical frames of valid
    envelopes and nothing else. *)
From S2P Require Import Prelude Bytes Crc32c Reading RaftTypes RaftMembership RaftTransport.
#[local] Open Scope Z_scope.

Lemma zero_bytes_replicate n : zero_bytes (replicate n x00) = true.
Proof. by induction n. Qed.
Lemma zero_bytes_inv bs : zero_bytes bs = true -> bs = replicate (length bs) x00.
Proof.
  induction bs as [|b bs IH]; cbn; [done|]. intros H. bool_prop. subst. f_equal. auto.
Qed.

Lemma zero_reserved bs n :
  blen bs = n -> zero_bytes bs = true -> bs = replicate (Z.to_nat n) x00.
Proof. intros <- H. rewrite Nat2Z.id. by apply zero_bytes_inv. Qed.

Lemma flag_value v : in_width (8 * Z.of_nat 1) v -> v <= 1 -> flag (v =? 1) = v.
Proof.
  change (8 * Z.of_nat 1) with 8. intros. unfold flag.
  destruct (Z.eqb_spec v 1); [done|]. width_lia.
Qed.
Lemma flag_width b : in_width 8 (flag b).
Proof. destruct b; cbn; width_lia. Qed.
Lemma flag_eqb b : (flag b =? 1) = b.
Proof. by destruct b. Qed.
Lemma flag_gtb b : (flag b >? 1) = false.
Proof. by destruct b. Qed.

#[export] Hint Resolve flag_width : chronos.

Ltac zero_inv :=
  repeat match goal with
  | H : zero_bytes ?bs = true, L : blen ?bs = ?n |- _ =>
      apply (zero_reserved bs n L) in H; clear L; subst bs
  end.

(** * Typed messages and their canonical bytes *)

(** The members hold values of their types; counts fit the fields of the format. *)
Definition message_typed (m : Message) : Prop :=
  in_width 64 (message_term m) /\
  match m with
  | MRequestVote v =>
      in_width 64 (rv_candidate_id v) /\ in_width 64 (rv_last_log_index v) /\
      in_width 64 (rv_last_log_term v)
  | MRequestVoteResponse _ => True
  | MAppendEntries v =>
      in_width 64 (ae_leader_id v) /\ in_width 64 (ae_previous_log_index v) /\
      in_width 64 (ae_previous_log_term v) /\ in_width 64 (ae_leader_commit v) /\
      Forall entry_typed (ae_entries v) /\ in_width 32 (blen (ae_entries v))
  | MAppendEntriesResponse v =>
      in_width 64 (aer_match_index v) /\ from_option (in_width 64) True (aer_conflict_term v) /\
      in_width 64 (aer_conflict_index v)
  | MInstallSnapshot v => in_width 64 (is_leader_id v) /\ snapshot_typed (is_snapshot v)
  | MInstallSnapshotResponse v => in_width 64 (isr_last_included_index v)
  | MReadBarrier v => in_width 64 (rb_leader_id v) /\ in_width 64 (rb_context v)
  | MReadBarrierResponse v => in_width 64 (rbr_context v)
  end.

Definition payload_bytes (m : Message) : list byte := fields_bytes (payload_fields m).

(** ** What a decoder that returns has read *)

Lemma decode_voters_inv count : forall r rest voters r',
  stands r rest -> decode_voters count r = Ok (voters, r') ->
  exists rest', rest = fields_bytes (FU64 <$> voters) ++ rest' /\ stands r' rest' /\
    Forall (in_width 64) voters /\ length voters = count.
Proof.
  induction count as [|count IH]; intros r rest voters r' Hs H; cbn [decode_voters] in H.
  { injection H as <- <-. eauto. }
  read_inv H. apply rbind_Ok in H as ([vs r1] & Hd & [= <- <-]).
  eapply IH in Hd; [|eassumption]. destruct Hd as (rest' & -> & ? & ? & ?).
  exists rest'. rewrite fmap_cons, fields_bytes_cons, <- app_assoc. split_and!; cbn; auto.
Qed.

Lemma decode_snapshot_inv r rest lim s r' :
  stands r rest -> decode_snapshot r lim = Ok (s, r') ->
  exists rest', rest = fields_bytes (snapshot_fields s) ++ rest' /\ stands r' rest' /\
    snapshot_typed s.
Proof.
  intros Hs H. unfold decode_snapshot in H. read_inv H. guard_inv H. zero_inv.
  apply rbind_Ok in H as ([voters r1] & Hd & H). guard_inv H. injection H as <- <-.
  eapply decode_voters_inv in Hd; [|eassumption]. destruct Hd as (rest' & -> & Hs' & Hv & Hl).
  exists rest'.
  assert (Hc : blen voters = a4) by (rewrite Hl; width_lia). split_and!; [|done|].
  - unfold snapshot_fields. cbn. rewrite Hc, wrap_small by done. by fields_normal.
  - unfold snapshot_typed. cbn. rewrite Hc. done.
Qed.

Lemma decode_entries_inv lim count : forall r rest entries r',
  stands r rest -> decode_entries count r lim = Ok (entries, r') ->
  exists rest', rest = fields_bytes (concat (entry_fields <$> entries)) ++ rest' /\
    stands r' rest' /\ Forall entry_typed entries /\ length entries = count.
Proof.
  induction count as [|count IH]; intros r rest entries r' Hs H; cbn [decode_entries] in H.
  { injection H as <- <-. eauto. }
  read_inv H. guard_inv H. zero_inv. read_inv H.
  apply rbind_Ok in H as ([es r1] & Hd & [= <- <-]).
  eapply IH in Hd; [|eassumption]. destruct Hd as (rest' & -> & ? & ? & ?).
  subst a3. exists rest'. rewrite fmap_cons. cbn [concat].
  split_and!; [|done| |cbn; lia]; [|by constructor].
  rewrite fields_bytes_app. unfold entry_fields at 2.
  cbn [entry_index RaftTypes.entry_term entry_type entry_payload].
  rewrite wrap_small by done. by fields_normal.
Qed.

(** Each message decoder reads the canonical bytes of the message it returns. *)
Definition reads_message (kind : MessageKind) (term : Term) (rest : list byte) (m : Message)
  (r' : ByteReader) : Prop :=
  exists rest', le_bytes 8 term ++ rest = payload_bytes m ++ rest' /\ stands r' rest' /\
    message_typed m /\ message_kind m = kind.

Ltac message_done :=
  eexists; split_and!; [|eassumption| |done];
  [unfold payload_bytes, payload_fields; cbn;
   rewrite ?flag_value by (try done; lia); by fields_normal
  | unfold message_typed; cbn; split_and?; done].

Lemma decode_request_vote_inv term r rest m r' :
  stands r rest -> in_width 64 term -> decode_request_vote term r = Ok (m, r') ->
  reads_message kRequestVoteRequest term rest m r'.
Proof.
  intros Hs Ht H. unfold decode_request_vote in H. read_inv H. injection H as <- <-. message_done.
Qed.

Lemma decode_vote_response_inv term r rest m r' :
  stands r rest -> in_width 64 term -> decode_vote_response term r = Ok (m, r') ->
  reads_message kRequestVoteResponse term rest m r'.
Proof.
  intros Hs Ht H. unfold decode_vote_response in H. read_inv H. guard_inv H. zero_inv.
  injection H as <- <-. message_done.
Qed.

Lemma decode_append_entries_inv term r rest lim m r' :
  stands r rest -> in_width 64 term -> decode_append_entries term r lim = Ok (m, r') ->
  reads_message kAppendEntriesRequest term rest m r'.
Proof.
  intros Hs Ht H. unfold decode_append_entries in H. read_inv H. guard_inv H. zero_inv.
  apply rbind_Ok in H as ([es r1] & Hd & [= <- <-]).
  eapply decode_entries_inv in Hd; [|eassumption]. destruct Hd as (rest' & -> & Hs' & He & Hl).
  assert (Hc : blen es = a3) by (rewrite Hl; width_lia).
  exists rest'. split_and!; [|done| |done].
  - unfold payload_bytes, payload_fields. cbn [message_term ae_entries ae_term ae_leader_id
      ae_previous_log_index ae_previous_log_term ae_leader_commit].
    rewrite Hc, wrap_small by done. by fields_normal.
  - unfold message_typed. cbn. rewrite Hc. split_and!; done.
Qed.

Lemma decode_append_response_inv term r rest m r' :
  stands r rest -> in_width 64 term -> decode_append_response term r = Ok (m, r') ->
  reads_message kAppendEntriesResponse term rest m r'.
Proof.
  intros Hs Ht H. unfold decode_append_response in H. read_inv H. guard_inv H. zero_inv.
  injection H as <- <-.
  destruct (Z.eqb_spec a0 1) as [->|]; [message_done|].
  assert (a0 = 0) as -> by width_lia. cbn in H8. bool_prop. subst a3. message_done.
Qed.

Lemma decode_install_snapshot_inv term r rest lim m r' :
  stands r rest -> in_width 64 term -> decode_install_snapshot term r lim = Ok (m, r') ->
  reads_message kInstallSnapshotRequest term rest m r'.
Proof.
  intros Hs Ht H. unfold decode_install_snapshot in H. read_inv H.
  apply rbind_Ok in H as ([s r1] & Hd & [= <- <-]).
  eapply decode_snapshot_inv in Hd; [|eassumption]. destruct Hd as (rest' & -> & Hs' & He).
  exists rest'. split_and!; [|done| |done].
  - unfold payload_bytes, payload_fields. cbn [message_term is_leader_id is_snapshot is_term].
    by fields_normal.
  - unfold message_typed. cbn. split_and!; done.
Qed.

Lemma decode_snapshot_response_inv term r rest m r' :
  stands r rest -> in_width 64 term -> decode_snapshot_response term r = Ok (m, r') ->
  reads_message kInstallSnapshotResponse term rest m r'.
Proof.
  intros Hs Ht H. unfold decode_snapshot_response in H. read_inv H. guard_inv H. zero_inv.
  injection H as <- <-. message_done.
Qed.

Lemma decode_read_barrier_inv term r rest m r' :
  stands r rest -> in_width 64 term -> decode_read_barrier term r = Ok (m, r') ->
  reads_message kReadBarrierRequest term rest m r'.
Proof.
  intros Hs Ht H. unfold decode_read_barrier in H. read_inv H. injection H as <- <-. message_done.
Qed.

Lemma decode_barrier_response_inv term r rest m r' :
  stands r rest -> in_width 64 term -> decode_barrier_response term r = Ok (m, r') ->
  reads_message kReadBarrierResponse term rest m r'.
Proof.
  intros Hs Ht H. unfold decode_barrier_response in H. read_inv H. guard_inv H. zero_inv.
  injection H as <- <-. message_done.
Qed.

Lemma decode_message_inv kind term r rest lim m r' :
  stands r rest -> in_width 64 term -> decode_message kind term r lim = Ok (m, r') ->
  reads_message kind term rest m r'.
Proof.
  intros Hs Ht H. destruct kind; cbn [decode_message] in H;
    eauto using decode_request_vote_inv, decode_vote_response_inv, decode_append_entries_inv,
      decode_append_response_inv, decode_install_snapshot_inv, decode_snapshot_response_inv,
      decode_read_barrier_inv, decode_barrier_response_inv.
Qed.

Lemma decode_payload_inv kind payload lim m :
  decode_payload kind payload lim = Ok m ->
  payload = payload_bytes m /\ message_typed m /\ message_kind m = kind.
Proof.
  intros H. unfold decode_payload in H. pose proof (stands_new payload) as Hs. read_inv H.
  apply rbind_Ok in H as ([m' r'] & Hd & H). guard_inv H. injection H as <-.
  eapply decode_message_inv in Hd; [|eassumption..].
  destruct Hd as (rest' & E & Hs' & Hm & Hk). apply (stands_empty _ _ Hs') in G as ->.
  by rewrite app_nil_r in E.
Qed.

(** ** The decoders read back canonical bytes *)

Ltac read_run :=
  read_unfold; repeat read_run1; rewrite ?zero_bytes_replicate; cbn [negb orb andb].

Lemma decode_voters_run voters : forall r rest,
  stands r (fields_bytes (FU64 <$> voters) ++ rest) -> Forall (in_width 64) voters ->
  exists r', decode_voters (length voters) r = Ok (voters, r') /\ stands r' rest.
Proof.
  induction voters as [|v voters IH]; intros r rest Hs Hv; cbn [length decode_voters]; [eauto|].
  apply Forall_cons in Hv as [Hv Hvs]. rewrite fmap_cons in Hs.
  rewrite fields_bytes_cons, <- app_assoc in Hs. cbn [field_bytes] in Hs. read_run.
  destruct (IH _ _ ltac:(eassumption) Hvs) as (r' & -> & ?). cbn. eauto.
Qed.

Lemma length_voter_fields voters : blen (fields_bytes (FU64 <$> voters)) = 8 * blen voters.
Proof. rewrite voter_fields_bytes, length_voter_bytes. lia. Qed.

Lemma decode_snapshot_run s lim r rest :
  stands r (fields_bytes (snapshot_fields s) ++ rest) -> snapshot_typed s ->
  validate_snapshot s (tl_maximum_snapshot_voters lim) = kOk ->
  blen (snapshot_voters s) <= tl_maximum_snapshot_voters lim ->
  exists r', decode_snapshot r lim = Ok (s, r') /\ stands r' rest.
Proof.
  intros Hs (Hi & Ht & Hg & Hc & Hci & Hv & Hn) Hval Hmax. unfold snapshot_fields in Hs.
  rewrite wrap_small in Hs by done. fields_normal_in Hs. unfold decode_snapshot. read_run.
  destruct (decode_voters_run _ _ _ ltac:(eassumption) Hv) as (r' & Hd & Hs').
  remaining. rewrite length_app, Nat2Z.inj_add,
    length_voter_fields, !gtb_false by (try done; width_lia).
  cbn [orb]. rewrite Nat2Z.id, Hd. cbn [rbind]. exists r'. split; [|done].
  replace {| last_included_index := _ |} with s by (by destruct s). by rewrite Hval.
Qed.

Lemma entries_bytes_size es : 24 * blen es <= blen (fields_bytes (concat (entry_fields <$> es))).
Proof.
  induction es as [|e es IH]; [cbn; lia|]. rewrite fmap_cons. cbn [concat length].
  rewrite fields_bytes_app, length_app. unfold entry_fields at 1. fields_normal.
  rewrite !length_app, !length_le_bytes, length_replicate. lia.
Qed.

Lemma decode_entries_run lim es : forall r rest,
  stands r (fields_bytes (concat (entry_fields <$> es)) ++ rest) -> Forall entry_typed es ->
  Forall (fun e => blen (entry_payload e) <= tl_maximum_entry_bytes lim) es ->
  exists r', decode_entries (length es) r lim = Ok (es, r') /\ stands r' rest.
Proof.
  induction es as [|e es IH]; intros r rest Hs Ht Hl; cbn [length decode_entries]; [eauto|].
  apply Forall_cons in Ht as [(Hi & Het & Hty & Hn) Ht]. apply Forall_cons in Hl as [Hl Hls].
  rewrite fmap_cons in Hs. cbn [concat] in Hs. rewrite fields_bytes_app in Hs.
  unfold entry_fields at 1 in Hs. rewrite wrap_small in Hs by done. fields_normal_in Hs. read_run.
  remaining. rewrite length_app, !gtb_false by lia.
  cbn [orb]. read_run.
  destruct (IH _ _ ltac:(eassumption) Ht Hls) as (r' & -> & ?). cbn [rbind].
  exists r'. by destruct e.
Qed.

(** What a message decoder needs of the limits. *)
Definition message_fits (m : Message) (lim : RaftTransportCodecLimits) : Prop :=
  match m with
  | MAppendEntries v =>
      blen (ae_entries v) <= tl_maximum_append_entries lim /\
      Forall (fun e => blen (entry_payload e) <= tl_maximum_entry_bytes lim) (ae_entries v)
  | MInstallSnapshot v =>
      blen (snapshot_voters (is_snapshot v)) <= tl_maximum_snapshot_voters lim /\
      validate_snapshot (is_snapshot v) (tl_maximum_snapshot_voters lim) = kOk
  | _ => True
  end.

Lemma decode_message_run m lim r rest :
  message_typed m -> message_fits m lim ->
  stands r (fields_bytes (tail (payload_fields m)) ++ rest) ->
  exists r', decode_message (message_kind m) (message_term m) r lim = Ok (m, r') /\ stands r' rest.
Proof.
  intros [Ht Hm] Hf Hs.
  destruct m as [v|v|v|v|v|v|v|v]; cbn [payload_fields message_kind decode_message tail] in *.
  - fields_normal_in Hs. destruct Hm as (? & ? & ?). unfold decode_request_vote. read_run.
    eexists. split; [|eassumption]. by destruct v.
  - fields_normal_in Hs. unfold decode_vote_response. read_run. rewrite flag_gtb, flag_eqb.
    eexists. split; [|eassumption]. by destruct v.
  - destruct Hm as (? & ? & ? & ? & He & Hn), Hf as [Hc Hl].
    rewrite wrap_small in Hs by done. fields_normal_in Hs. unfold decode_append_entries. read_run.
    destruct (decode_entries_run lim _ _ _ ltac:(eassumption) He Hl) as (r' & Hd & Hs').
    pose proof (entries_bytes_size (ae_entries v)).
    remaining. rewrite length_app, !gtb_false
      by (unfold kMaximumEntryHeaderSize; width_lia).
    cbn [orb]. rewrite Nat2Z.id, Hd. cbn [rbind]. exists r'. by destruct v.
  - destruct Hm as (? & Hct & ?). fields_normal_in Hs. unfold decode_append_response.
    assert (in_width 64 (default 0 (aer_conflict_term v))).
    { destruct (aer_conflict_term v); cbn in *; [done|width_lia]. }
    read_run. rewrite !flag_gtb, !flag_eqb.
    eexists. split; [|eassumption]. destruct v as [? ? ? [?|] ?]; cbn; reflexivity.
  - destruct Hm as [? Hst], Hf as [Hl Hval]. fields_normal_in Hs. unfold decode_install_snapshot.
    read_run. destruct (decode_snapshot_run _ lim _ _ ltac:(eassumption) Hst Hval Hl) as (r' & -> & ?).
    cbn [rbind]. exists r'. by destruct v.
  - fields_normal_in Hs. unfold decode_snapshot_response. read_run. rewrite flag_gtb, flag_eqb.
    eexists. split; [|eassumption]. by destruct v.
  - fields_normal_in Hs. destruct Hm as (? & ?). unfold decode_read_barrier. read_run.
    eexists. split; [|eassumption]. by destruct v.
  - fields_normal_in Hs. unfold decode_barrier_response. read_run. rewrite flag_gtb, flag_eqb.
    eexists. split; [|eassumption]. by destruct v.
Qed.

Lemma payload_bytes_term m :
  payload_bytes m = le_bytes 8 (message_term m) ++ fields_bytes (tail (payload_fields m)).
Proof. reflexivity. Qed.

Lemma decode_payload_run m lim :
  message_typed m -> message_fits m lim ->
  decode_payload (message_kind m) (payload_bytes m) lim = Ok m.
Proof.
  intros Hm Hf. unfold decode_payload. pose proof (stands_new (payload_bytes m)) as Hs.
  rewrite payload_bytes_term in Hs at 2. destruct Hm as [Ht Hm]. read_run.
  destruct (decode_message_run m lim r []) as (r' & -> & Hs'); [done|done|by rewrite app_nil_r|].
  cbn [rbind]. by rewrite (proj2 (stands_empty _ _ Hs')).
Qed.

(** * Envelopes and their canonical frames *)

Definition envelope_typed (e : RaftTransportEnvelope) : Prop :=
  length (te_group_id e) = 16%nat /\ in_width 64 (te_source e) /\ in_width 64 (te_destination e) /\
  message_typed (te_message e).

Definition envelope_payload (e : RaftTransportEnvelope) : list byte := payload_bytes (te_message e).
Definition frame_size (e : RaftTransportEnvelope) : Z := kFraming + blen (envelope_payload e).

(** An envelope the codec carries under the limits. *)
Definition envelope_ok (lim : RaftTransportCodecLimits) (e : RaftTransportEnvelope) : Prop :=
  valid_limits lim = true /\ envelope_typed e /\ validate_message e lim = kOk /\
  frame_size e <= tl_maximum_frame_bytes lim.

(** The header before its checksum, and the reserved bytes after it. *)
Definition header_route (e : RaftTransportEnvelope) : list byte :=
  te_group_id e ++ le_bytes 8 (te_source e) ++ le_bytes 8 (te_destination e).
Definition header_prefix (e : RaftTransportEnvelope) : list byte :=
  kMagic ++ le_bytes 2 kMajor ++ le_bytes 2 kMinor ++ le_bytes 4 kRaftTransportHeaderSize
  ++ le_bytes 8 (frame_size e) ++ header_route e
  ++ le_bytes 1 (kind_raw (message_kind (te_message e))) ++ replicate 1 x00 ++ replicate 6 x00
  ++ le_bytes 8 (blen (envelope_payload e)) ++ le_bytes 4 (crc32c (envelope_payload e)).
Definition sealed_header (prefix : list byte) (crc : list byte) : list byte :=
  prefix ++ crc ++ replicate 16 x00.
Definition frame_header (e : RaftTransportEnvelope) : list byte :=
  sealed_header (header_prefix e)
    (le_bytes 4 (crc32c (sealed_header (header_prefix e) (replicate 4 x00)))).

(** The canonical frame of an envelope. *)
Definition frame_bytes (e : RaftTransportEnvelope) : list byte :=
  with_crc (frame_header e ++ envelope_payload e).

Lemma length_header_prefix e : length (te_group_id e) = 16%nat -> length (header_prefix e) = 76%nat.
Proof.
  intros Hg. unfold header_prefix, header_route. rewrite !length_app, !length_le_bytes, Hg. done.
Qed.
Lemma length_sealed_header prefix crc :
  length (sealed_header prefix crc) = (length prefix + length crc + 16)%nat.
Proof. unfold sealed_header. rewrite !length_app, length_replicate. lia. Qed.
Lemma length_frame_header e : length (te_group_id e) = 16%nat -> length (frame_header e) = 96%nat.
Proof.
  intros Hg. unfold frame_header. rewrite length_sealed_header, length_le_bytes.
  by rewrite length_header_prefix.
Qed.
Lemma length_frame_bytes e : length (te_group_id e) = 16%nat -> blen (frame_bytes e) = frame_size e.
Proof.
  intros Hg. unfold frame_bytes. rewrite length_seal, length_app, length_frame_header by done.
  unfold frame_size, kFraming, kRaftTransportHeaderSize, kRaftTransportTrailerSize. lia.
Qed.

Lemma header_crc_sealed prefix crc :
  length prefix = 76%nat -> length crc = 4%nat ->
  header_crc (sealed_header prefix crc) = crc32c (sealed_header prefix (replicate 4 x00)).
Proof.
  intros Hp Hc. unfold header_crc, sealed_header.
  rewrite copy_at_middle; [done| |by rewrite length_replicate]. unfold kHeaderCrcOffset. lia.
Qed.

(** ** The encoder *)

Lemma advance_fields_ok fs w' : forall w,
  write_fields fs w = (kOk, w') -> advance_fields fs kOk w = (kOk, w').
Proof.
  induction fs as [|f fs IH]; intros w H; cbn in *; [done|].
  destruct (write_field f w) as [s w1]. destruct s; try discriminate. by apply IH.
Qed.
Lemma advance_fields_fit fs w :
  writer_ok w -> blen (fields_bytes fs) <= writer_remaining w ->
  advance_fields fs kOk w = (kOk, writer_put w (fields_bytes fs)).
Proof. intros. by apply advance_fields_ok, write_fields_fit. Qed.

Lemma encode_payload_exact m size :
  size = blen (payload_bytes m) -> encode_payload m size = Ok (payload_bytes m).
Proof.
  intros ->. unfold encode_payload. rewrite Nat2Z.id.
  rewrite advance_fields_fit.
  - fold (payload_bytes m). rewrite writer_put_new by done. cbv beta iota.
    unfold writer_full, writer_remaining. cbn [writer_bytes writer_offset is_ok].
    by rewrite Z.sub_diag.
  - unfold writer_ok. cbn. lia.
  - unfold writer_remaining. cbn. rewrite length_replicate. unfold payload_bytes. lia.
Qed.

Lemma entry_bytes_length e : blen (fields_bytes (entry_fields e)) = 24 + blen (entry_payload e).
Proof.
  unfold entry_fields. fields_normal. rewrite !length_app, !length_le_bytes, length_replicate. cbn [length]. lia.
Qed.

Lemma entries_payload_size_spec lim es : forall size,
  116 <= tl_maximum_frame_bytes lim -> 0 <= size ->
  Forall (fun e => blen (entry_payload e) <= tl_maximum_entry_bytes lim) es ->
  let total := size + blen (fields_bytes (concat (entry_fields <$> es))) in
  entries_payload_size lim size es =
    if (total <=? tl_maximum_frame_bytes lim) || bool_decide (es = []) then Ok total
    else Err kResourceExhausted.
Proof.
  induction es as [|e es IH]; intros size Hf Hs Hl total; unfold total; clear total.
  { cbn [entries_payload_size]. rewrite bool_decide_true, orb_true_r by done. cbn. f_equal. lia. }
  apply Forall_cons in Hl as [He Hl]. rewrite fmap_cons. cbn [concat entries_payload_size].
  rewrite fields_bytes_app, length_app, Nat2Z.inj_add, entry_bytes_length.
  rewrite (gtb_false (blen (entry_payload e))) by done. cbn [orb].
  rewrite (bool_decide_false (e :: es = [])), orb_false_r by done.
  unfold kMaximumEntryHeaderSize.
  destruct (Z.gtb_spec size (tl_maximum_frame_bytes lim - 24)); cbn [orb];
    [destruct (Z.leb_spec (size + (24 + blen (entry_payload e)
       + blen (fields_bytes (concat (entry_fields <$> es))))) (tl_maximum_frame_bytes lim)); [lia|done]|].
  destruct (Z.gtb_spec (blen (entry_payload e)) (tl_maximum_frame_bytes lim - size - 24));
    [destruct (Z.leb_spec (size + (24 + blen (entry_payload e)
       + blen (fields_bytes (concat (entry_fields <$> es))))) (tl_maximum_frame_bytes lim)); [lia|done]|].
  rewrite IH by (done || lia).
  replace (size + (24 + blen (entry_payload e)) + blen (fields_bytes (concat (entry_fields <$> es))))
    with (size + (24 + blen (entry_payload e) + blen (fields_bytes (concat (entry_fields <$> es)))))
    by lia.
  destruct es; [|by rewrite bool_decide_false, orb_false_r].
  cbn [concat fmap list_fmap fields_bytes length]. rewrite bool_decide_true, orb_true_r by done.
  destruct (Z.leb_spec (size + (24 + blen (entry_payload e) + Z.of_nat 0)) (tl_maximum_frame_bytes lim));
    [done|lia].
Qed.

Lemma valid_limits_spec lim :
  valid_limits lim = true ->
  116 <= tl_maximum_frame_bytes lim <= kMaximumRaftTransportFrameSize /\
  tl_maximum_append_entries lim <= max_u32 /\
  tl_maximum_entry_bytes lim <= tl_maximum_frame_bytes lim /\
  tl_maximum_snapshot_voters lim <= max_u32.
Proof.
  unfold valid_limits. intros H. bool_prop. rewrite Z.geb_leb in *. bool_prop.
  unfold kFraming, kRaftTransportHeaderSize, kRaftTransportTrailerSize in *. lia.
Qed.

(** The conditions of a conditional return that did not return. *)
Ltac status_guards H :=
  repeat match type of H with
  | (if ?b then kInvalidArgument else _) = kOk =>
      let G := fresh "G" in destruct b eqn:G; [discriminate H|]
  end;
  bool_prop;
  repeat match goal with
  | G : (_ >? _) = false |- _ => rewrite Z.gtb_ltb in G; apply Z.ltb_ge in G
  end.

Lemma validate_entries_bounds lim term es : forall expected,
  validate_entries lim term expected es = kOk ->
  Forall (fun e => blen (entry_payload e) <= tl_maximum_entry_bytes lim) es.
Proof.
  induction es as [|e es IH]; intros expected H; [done|]. cbn [validate_entries] in H.
  status_guards H. constructor; [done|]. by eapply IH.
Qed.

Lemma validate_snapshot_voters s maximum :
  validate_snapshot s maximum = kOk -> blen (snapshot_voters s) <= maximum.
Proof.
  unfold validate_snapshot. intros H. status_guards H.
  unfold canonical_voters in *. by bool_prop.
Qed.

Lemma validate_message_fits e lim :
  validate_message e lim = kOk -> message_fits (te_message e) lim.
Proof.
  unfold validate_message. intros H. status_guards H.
  destruct (te_message e) as [v|v|v|v|v|v|v|v]; try exact I; cbn [message_fits].
  - status_guards H. split; [done|]. by eapply validate_entries_bounds.
  - status_guards H. split; [by apply validate_snapshot_voters|done].
Qed.

(** The computed payload size is the size of the canonical payload. *)
Lemma message_payload_size_exact e lim :
  valid_limits lim = true -> envelope_typed e -> validate_message e lim = kOk ->
  message_payload_size (te_message e) lim =
    if (blen (envelope_payload e) <=? tl_maximum_frame_bytes lim)
       || negb (bool_decide (message_kind (te_message e) = kAppendEntriesRequest))
    then Ok (blen (envelope_payload e)) else Err kResourceExhausted.
Proof.
  intros Hlim (_ & _ & _ & _ & Hm) Hval. apply valid_limits_spec in Hlim.
  apply validate_message_fits in Hval. unfold envelope_payload, payload_bytes, payload_fields.
  destruct (te_message e) as [v|v|v|v|v|v|v|v];
    cbn [message_payload_size message_kind message_fits] in *;
    try (rewrite (bool_decide_false (_ = _)), orb_true_r by done;
         f_equal; fields_normal; rewrite !length_app, ?length_le_bytes, ?length_replicate;
         cbn [length]; lia).
  - rewrite (bool_decide_true (_ = _)), orb_false_r by done. destruct Hval as [_ Hl].
    rewrite entries_payload_size_spec by (done || lia).
    match goal with |- _ = if ?n <=? _ then _ else _ =>
      assert (n = 48 + blen (fields_bytes (concat (entry_fields <$> ae_entries v)))) as -> by
      (fields_normal; rewrite !length_app, ?length_le_bytes, ?length_replicate; lia) end.
    case_bool_decide as E; [|by rewrite orb_false_r]. rewrite orb_true_r. rewrite E at 2.
    cbn [fmap list_fmap concat fields_bytes length].
    destruct (Z.leb_spec (48 + Z.of_nat 0) (tl_maximum_frame_bytes lim)); [|lia]. by rewrite E.
  - rewrite (bool_decide_false (_ = _)), orb_true_r by done. destruct Hm as (_ & _ & _ & _ & Hc & _).
    unfold snapshot_payload_size, snapshot_fields. f_equal. fields_normal.
    rewrite !length_app, ?length_le_bytes, ?length_replicate.
    pose proof (length_voter_fields (snapshot_voters (is_snapshot v))). lia.
Qed.

Lemma encoded_length_exact e lim :
  valid_limits lim = true -> envelope_typed e -> validate_message e lim = kOk ->
  raft_transport_encoded_length_v1 e lim =
    if frame_size e <=? tl_maximum_frame_bytes lim then Ok (frame_size e)
    else Err kResourceExhausted.
Proof.
  intros Hlim Ht Hval. unfold raft_transport_encoded_length_v1.
  rewrite Hlim, Hval, check_kOk, message_payload_size_exact by done. cbn [negb].
  unfold frame_size. apply valid_limits_spec in Hlim.
  set (n := blen (envelope_payload e)) in *.
  assert (Hfr : kFraming = 100) by done. assert (0 <= n) by lia. clearbody n.
  destruct (Z.leb_spec (kFraming + n) (tl_maximum_frame_bytes lim)).
  - destruct (Z.leb_spec n (tl_maximum_frame_bytes lim)); [|lia]. cbn [orb rbind].
    by rewrite gtb_false by lia.
  - destruct (_ || _); [|done]. cbn [rbind].
    destruct (Z.gtb_spec n (tl_maximum_frame_bytes lim - kFraming)); [done|lia].
Qed.

Lemma header_fields_sealed e p :
  p = envelope_payload e ->
  fields_bytes (frame_header_fields e (frame_size e) p) =
    sealed_header (header_prefix e) (replicate 4 x00).
Proof.
  intros ->. unfold frame_header_fields, sealed_header, header_prefix, header_route.
  fields_normal. done.
Qed.

(** Sealing the header and copying the payload. *)
Lemma sealed_frame e rest :
  length (te_group_id e) = 16%nat ->
  let h0 := sealed_header (header_prefix e) (replicate 4 x00) in
  let p := envelope_payload e in
  copy_at (store_u32_le (h0 ++ replicate (length p) x00 ++ rest) kHeaderCrcOffset (header_crc h0))
    kRaftTransportHeaderSize p = (frame_header e ++ p) ++ rest.
Proof.
  intros Hg h0 p. pose proof (length_header_prefix e Hg) as Hp.
  pose proof (length_frame_header e Hg) as Hh.
  unfold h0 at 2. rewrite header_crc_sealed by done. fold h0.
  unfold h0 at 1, sealed_header at 1. rewrite <- !app_assoc.
  rewrite (store_middle 4 (header_prefix e) (replicate 4 x00)) by (rewrite ?Hp; done).
  transitivity (copy_at (frame_header e ++ replicate (length p) x00 ++ rest)
                  kRaftTransportHeaderSize p).
  { f_equal. unfold frame_header, sealed_header. by rewrite <- !app_assoc. }
  by rewrite (copy_at_middle (frame_header e)) by (rewrite ?Hh, ?length_replicate; done).
Qed.

Lemma encode_envelope_exact e lim :
  envelope_ok lim e -> encode_raft_transport_envelope_v1 e lim = Ok (frame_bytes e).
Proof.
  intros (Hlim & Ht & Hval & Hsize). unfold encode_raft_transport_envelope_v1.
  rewrite encoded_length_exact by done. rewrite (proj2 (Z.leb_le _ _) Hsize). cbn [rbind].
  pose proof Ht as (Hg & _). pose proof (length_header_prefix e Hg) as Hp.
  rewrite encode_payload_exact by (unfold frame_size, envelope_payload; lia). cbn [rbind].
  fold (envelope_payload e).
  assert (Hn : frame_size e = 100 + blen (envelope_payload e)) by done.
  set (p := envelope_payload e) in *. set (h0 := sealed_header (header_prefix e) (replicate 4 x00)).
  assert (Hh0 : length h0 = 96%nat) by (unfold h0; rewrite length_sealed_header, Hp; done).
  rewrite advance_fields_fit; [|unfold writer_ok; cbn; lia|];
    rewrite header_fields_sealed by done; fold h0;
    [|unfold writer_remaining, ByteWriter_new; cbn [writer_bytes writer_offset];
      rewrite length_replicate; lia].
  unfold writer_put, ByteWriter_new. cbn [writer_bytes writer_offset is_ok].
  replace (Z.to_nat (frame_size e)) with (96 + (length p + 4))%nat by lia.
  rewrite !replicate_add, copy_at_front by (by rewrite length_replicate).
  replace (0 + blen h0 =? kRaftTransportHeaderSize) with true by (rewrite Hh0; done).
  cbn [negb orb]. cbv zeta. rewrite (first_app h0) by (rewrite Hh0; done).
  pose proof (sealed_frame e (replicate 4 x00) Hg) as Hf. cbv zeta in Hf. fold p h0 in Hf.
  rewrite !Hf, length_app, length_replicate.
  replace (Z.of_nat (length (frame_header e ++ p) + 4) - kRaftTransportTrailerSize)
    with (blen (frame_header e ++ p)) by (unfold kRaftTransportTrailerSize; lia).
  rewrite first_app by done. rewrite <- (app_nil_r (replicate 4 x00)), store_middle by done.
  rewrite app_nil_r. done.
Qed.

(** ** The decoder *)

(** The ninety-six header bytes, cut into the fields the decoder looks at. *)
Lemma header_split h : length h = 96%nat ->
  h = subspan h 0 8 ++ le_bytes 2 (load_u16_le h 8) ++ le_bytes 2 (load_u16_le h 10)
      ++ le_bytes 4 (load_u32_le h 12) ++ le_bytes 8 (load_u64_le h 16) ++ subspan h 24 32
      ++ [byte_at h 56] ++ [byte_at h 57] ++ subspan h 58 6 ++ le_bytes 8 (load_u64_le h 64)
      ++ le_bytes 4 (load_u32_le h 72) ++ le_bytes 4 (load_u32_le h 76) ++ subspan h 80 16.
Proof.
  intros Hl. rewrite <- !field_of_load by (rewrite ?Hl; lia).
  do 96 (destruct h as [|? h]; [discriminate Hl|]). destruct h; [reflexivity|discriminate Hl].
Qed.

Lemma frame_header_fields_at e : length (te_group_id e) = 16%nat -> forall crc, length crc = 4%nat ->
  let h := sealed_header (header_prefix e) crc in
  subspan h 0 8 = kMagic /\ subspan h 8 2 = le_bytes 2 kMajor /\ subspan h 10 2 = le_bytes 2 kMinor /\
  subspan h 12 4 = le_bytes 4 kRaftTransportHeaderSize /\
  subspan h 16 8 = le_bytes 8 (frame_size e) /\ subspan h 24 32 = header_route e /\
  [byte_at h 56] = le_bytes 1 (kind_raw (message_kind (te_message e))) /\ byte_at h 57 = x00 /\
  subspan h 58 6 = replicate 6 x00 /\ subspan h 64 8 = le_bytes 8 (blen (envelope_payload e)) /\
  subspan h 72 4 = le_bytes 4 (crc32c (envelope_payload e)) /\ subspan h 76 4 = crc /\
  subspan h 80 16 = replicate 16 x00.
Proof.
  intros Hg crc Hc h. unfold h, sealed_header, header_prefix, header_route. clear h.
  destruct e as [g s d m]. cbn [te_group_id te_source te_destination te_message] in *.
  do 16 (destruct g as [|? g]; [discriminate Hg|]). destruct g; [|discriminate Hg].
  do 4 (destruct crc as [|? crc]; [discriminate Hc|]). destruct crc; [|discriminate Hc].
  split_and!; reflexivity.
Qed.

Lemma kind_raw_of raw : 1 <= raw <= 8 -> kind_raw (kind_of_raw raw) = raw.
Proof.
  intros. assert (raw = 1 \/ raw = 2 \/ raw = 3 \/ raw = 4 \/ raw = 5 \/ raw = 6 \/ raw = 7 \/ raw = 8)
    as Hr by lia. by destruct Hr as [->|[->|[->|[->|[->|[->|[->| ->]]]]]]].
Qed.
Lemma kind_of_raw_kind k : kind_of_raw (kind_raw k) = k.
Proof. by destruct k. Qed.
Lemma kind_raw_range k : 1 <= kind_raw k <= 8.
Proof. destruct k; cbn; lia. Qed.

Lemma decode_envelope_inv h payload raw lim e :
  length h = 96%nat -> decode_envelope h payload raw lim = Ok e ->
  subspan h 24 32 = header_route e /\ payload = envelope_payload e /\ envelope_typed e /\
  message_kind (te_message e) = kind_of_raw raw /\ validate_message e lim = kOk.
Proof.
  intros Hh H. unfold decode_envelope, read_uuid in H.
  pose proof (stands_new (subspan h 24 32)) as Hs.
  remember (subspan h 24 32) as route eqn:Er. clear Er.
  destruct (read_exact 16 (ByteReader_new route)) as [[g|s] r0] eqn:E0;
    [|exfalso; clear -H; repeat case_match; discriminate].
  apply (read_exact_inv 16 _ _ _ _ ltac:(lia) Hs) in E0 as (rest & -> & Hg & Hs0). clear Hs.
  read_inv H. guard_inv H. apply rbind_Ok in H as (m & Hd & H). guard_inv H. injection H as <-.
  apply decode_payload_inv in Hd as (-> & Hm & Hk).
  match goal with S : stands _ ?rest, G : reader_empty _ = true |- _ =>
    apply (stands_empty _ _ S) in G as -> end.
  unfold is_ok in *. bool_prop. split_and!; [by rewrite app_nil_r|done| |done|done].
  unfold envelope_typed. cbn. split_and!; [lia|done..].
Qed.

(** A header that passes the checks is the canonical header. *)
Lemma frame_header_sound h e :
  length h = 96%nat -> length (te_group_id e) = 16%nat ->
  first h (blen kMagic) = kMagic -> load_u32_le h kHeaderCrcOffset = header_crc h ->
  load_u16_le h 8 = kMajor -> load_u16_le h 10 = kMinor ->
  load_u32_le h 12 = kRaftTransportHeaderSize -> load_u64_le h 16 = frame_size e ->
  subspan h 24 32 = header_route e ->
  byte_to_Z (byte_at h 56) = kind_raw (message_kind (te_message e)) -> byte_at h 57 = x00 ->
  zero_bytes (subspan h 58 6) = true -> zero_bytes (subspan h 80 16) = true ->
  load_u64_le h 64 = blen (envelope_payload e) ->
  load_u32_le h 72 = crc32c (envelope_payload e) -> h = frame_header e.
Proof.
  intros Hh Hg Hmagic Hcrc Hma Hmi Hhs Htot Hroute Hk H57 H58 H80 Hpl Hpc.
  assert (Hs : h = sealed_header (header_prefix e) (le_bytes 4 (load_u32_le h kHeaderCrcOffset))).
  { apply zero_reserved with (n := 6) in H58; [|rewrite length_subspan by lia; done].
    apply zero_reserved with (n := 16) in H80; [|rewrite length_subspan by lia; done].
    unfold sealed_header, header_prefix.
    rewrite <- Hma, <- Hmi, <- Hhs, <- Htot, <- Hroute, <- Hk, <- Hpl, <- Hpc.
    cbn [le_bytes]. rewrite byte_of_to_Z, <- !app_assoc.
    rewrite (header_split h Hh) at 1. change (subspan h 0 8) with (first h (blen kMagic)).
    rewrite Hmagic, H57, H58, H80. done. }
  rewrite Hcrc in Hs. rewrite Hs. unfold frame_header. do 2 f_equal. rewrite Hs at 1.
  by rewrite header_crc_sealed by (rewrite ?length_header_prefix, ?length_le_bytes; done).
Qed.

Lemma decode_sound bytes lim e :
  decode_raft_transport_envelope_v1 bytes lim = Ok e ->
  envelope_ok lim e /\ bytes = frame_bytes e.
Proof.
  unfold decode_raft_transport_envelope_v1. intros H. guard_inv H.
  set (h := first bytes kRaftTransportHeaderSize) in *.
  unfold kFraming, kRaftTransportHeaderSize, kRaftTransportTrailerSize in *.
  assert (Hh : length h = 96%nat) by (unfold h, first; rewrite length_take; lia).
  apply decode_envelope_inv in H as (Hroute & Hp & Ht & Hk & Hval); [|done].
  match goal with H : load_u64_le h 64 = _ |- _ => pose proof H as Hpl; rewrite H in Hp end.
  assert (Hpn : blen (envelope_payload e) = blen bytes - 100)
    by (rewrite <- Hp, length_subspan; lia).
  assert (Hsize : frame_size e = blen bytes) by (unfold frame_size; rewrite Hpn; unfold kFraming,
    kRaftTransportHeaderSize, kRaftTransportTrailerSize; lia).
  split; [unfold envelope_ok; split_and!; [done|done|done|lia]|].
  assert (Hhd : h = frame_header e).
  { apply frame_header_sound; try done; try congruence; [by destruct Ht| |].
    - by rewrite Hk, kind_raw_of by lia.
    - rewrite Hpn, Hpl. lia. }
  match goal with H : load_u32_le bytes _ = crc32c _ |- _ =>
    symmetry in H; apply crc_check_seal in H; [|lia|lia]; rewrite H end.
  unfold frame_bytes. f_equal. rewrite <- Hhd, <- Hp. unfold h.
  replace (blen bytes - 4) with (96 + (blen bytes - (96 + 4))) by lia.
  apply (subspan_split bytes 0 96); lia.
Qed.

(** The canonical header passes every check. *)
Lemma frame_header_complete lim e :
  envelope_ok lim e ->
  let h := frame_header e in
  first h (blen kMagic) = kMagic /\ load_u32_le h kHeaderCrcOffset = header_crc h /\
  load_u16_le h 8 = kMajor /\ load_u16_le h 10 = kMinor /\
  load_u32_le h 12 = kRaftTransportHeaderSize /\ load_u64_le h 16 = frame_size e /\
  subspan h 24 32 = header_route e /\
  byte_to_Z (byte_at h 56) = kind_raw (message_kind (te_message e)) /\ byte_at h 57 = x00 /\
  zero_bytes (subspan h 58 6) = true /\ zero_bytes (subspan h 80 16) = true /\
  load_u64_le h 64 = blen (envelope_payload e) /\
  load_u32_le h 72 = crc32c (envelope_payload e).
Proof.
  intros (Hlim & Ht & _ & Hsize) h. destruct Ht as (Hg & _).
  apply valid_limits_spec in Hlim as [Hmax _]. unfold kMaximumRaftTransportFrameSize in Hmax.
  assert (Hn : frame_size e = 100 + blen (envelope_payload e)) by done.
  pose proof (length_frame_header e Hg) as Hl. fold h in Hl.
  pose proof (kind_raw_range (message_kind (te_message e))) as Hk.
  pose proof (crc32c_range (envelope_payload e)) as Hc.
  unfold frame_header in h. set (c := crc32c (sealed_header (header_prefix e) (replicate 4 x00))) in h.
  assert (Hcw : in_width 32 c) by apply crc32c_range.
  destruct (frame_header_fields_at e Hg (le_bytes 4 c) (length_le_bytes 4 c))
    as (A0 & A8 & A10 & A12 & A16 & A24 & A56 & A57 & A58 & A64 & A72 & A76 & A80).
  fold h in A0, A8, A10, A12, A16, A24, A56, A57, A58, A64, A72, A76, A80.
  assert (Hload : forall w off v, 0 <= off -> off + Z.of_nat w <= 96 -> in_width (8 * Z.of_nat w) v ->
    subspan h off (Z.of_nat w) = le_bytes w v -> load_le w h off = v)
    by (intros; apply load_field; [done|rewrite Hl; lia|done|done]).
  split_and!; try done.
  - unfold kHeaderCrcOffset. rewrite (Hload 4%nat 76 c) by done. unfold h.
    by rewrite header_crc_sealed by (rewrite ?length_header_prefix, ?length_le_bytes; done).
  - apply Hload; try done; width_norm. width_lia.
  - injection A56 as ->. rewrite byte_to_of_Z, Z.mod_small; [done|lia].
  - by rewrite A58.
  - by rewrite A80.
  - apply Hload; try done; width_norm. width_lia.
  - by apply Hload.
Qed.

Lemma decode_envelope_run lim e :
  envelope_ok lim e ->
  decode_envelope (frame_header e) (envelope_payload e)
    (kind_raw (message_kind (te_message e))) lim = Ok e.
Proof.
  intros Hok. pose proof (frame_header_complete lim e Hok) as Hc. cbv zeta in Hc.
  destruct Hc as (_ & _ & _ & _ & _ & _ & Hr & _). destruct Hok as (_ & Ht & Hval & _).
  destruct Ht as (Hg & Hs & Hd & Hm). unfold decode_envelope, read_uuid. rewrite Hr.
  pose proof (stands_new (header_route e)) as S. unfold header_route in S at 2.
  rewrite <- (app_nil_r (le_bytes 8 (te_destination e))) in S. read_run. cbv beta iota.
  rewrite (proj2 (stands_empty _ _ ltac:(eassumption)) eq_refl). cbn [negb].
  rewrite kind_of_raw_kind. unfold envelope_payload.
  rewrite decode_payload_run by (try done; by apply validate_message_fits). cbn [rbind].
  replace {| te_group_id := _ |} with e by (by destruct e). by rewrite Hval.
Qed.

Lemma first_frame_bytes e :
  length (te_group_id e) = 16%nat -> first (frame_bytes e) 96 = frame_header e.
Proof.
  intros Hg. unfold frame_bytes, with_crc. rewrite <- app_assoc. apply first_app.
  by rewrite length_frame_header.
Qed.

Lemma decode_complete lim e :
  envelope_ok lim e -> decode_raft_transport_envelope_v1 (frame_bytes e) lim = Ok e.
Proof.
  intros Hok. pose proof (frame_header_complete lim e Hok) as Hc. cbv zeta in Hc.
  pose proof (decode_envelope_run lim e Hok) as Hrun.
  destruct Hok as (Hlim & Ht & Hval & Hsize). destruct Ht as (Hg & _).
  pose proof (length_frame_bytes e Hg) as Hl. pose proof (length_frame_header e Hg) as Hh.
  unfold decode_raft_transport_envelope_v1. rewrite Hlim, Hl. cbn [negb].
  assert (Hn : frame_size e = 100 + blen (envelope_payload e)) by done.
  unfold kFraming, kRaftTransportTrailerSize, kRaftTransportHeaderSize in *.
  replace (frame_size e <? 96 + 4) with false by (symmetry; apply Z.ltb_ge; lia).
  rewrite (gtb_false (frame_size e)) by done.
  rewrite first_frame_bytes by done. destruct Hc as (-> & -> & -> & -> & -> & -> & _ & -> & -> & -> & -> & -> & ->).
  pose proof (kind_raw_range (message_kind (te_message e))) as Hk.
  replace (kind_raw (message_kind (te_message e)) <? 1) with false by (symmetry; apply Z.ltb_ge; lia).
  rewrite (gtb_false (kind_raw _)) by lia.
  rewrite bool_decide_true, !Z.eqb_refl by done. cbn [negb orb].
  rewrite bool_decide_true by done. cbn [negb orb].
  replace (blen (envelope_payload e) =? frame_size e - (96 + 4)) with true
    by (symmetry; apply Z.eqb_eq; lia). cbn [negb].
  assert (Hp : subspan (frame_bytes e) 96 (blen (envelope_payload e)) = envelope_payload e).
  { unfold frame_bytes, with_crc. rewrite <- app_assoc. apply subspan_app_l; [rewrite Hh|]; done. }
  rewrite Hp, Z.eqb_refl. cbn [negb orb].
  assert (Hfr : frame_size e - 4 = blen (frame_header e ++ envelope_payload e))
    by (rewrite length_app, Hh; lia).
  unfold frame_bytes. rewrite load_seal by done. unfold with_crc.
  rewrite first_app, Z.eqb_refl by done. exact Hrun.
Qed.

(** The route read as three fields of the header. *)
Lemma header_route_loads h e :
  length h = 96%nat -> envelope_typed e -> subspan h 24 32 = header_route e ->
  subspan h 24 16 = te_group_id e /\ load_u64_le h 40 = te_source e /\
  load_u64_le h 48 = te_destination e.
Proof.
  intros Hh (Hg & Hs & Hd & _) Hr. unfold header_route in Hr.
  change 32 with (16 + 16) in Hr. rewrite subspan_split in Hr by lia.
  apply app_inj_1 in Hr as [-> Hr]; [|rewrite length_subspan by lia; done].
  change (subspan h (24 + 16) 16) with (subspan h 40 (8 + 8)) in Hr.
  rewrite subspan_split in Hr by lia.
  apply app_inj_1 in Hr as [H40 H48]; [|rewrite length_subspan, length_le_bytes by lia; done].
  split_and!; [done|..]; apply load_field; (done || lia).
Qed.

(** The header alone announces the size of the frame. *)
Lemma frame_length_complete lim e :
  envelope_ok lim e -> raft_transport_frame_length_v1 (frame_header e) lim = Ok (frame_size e).
Proof.
  intros Hok. pose proof (frame_header_complete lim e Hok) as Hc. cbv zeta in Hc.
  destruct Hok as (Hlim & Ht & Hval & Hsize). pose proof Ht as (Hg & _).
  pose proof (length_frame_header e Hg) as Hh.
  destruct Hc as (Hm & Hcrc & H8 & H10 & H12 & H16 & Hr & Hk & H57 & H58 & H80 & H64 & _).
  destruct (header_route_loads _ _ Hh Ht Hr) as (H24 & H40 & H48).
  unfold raft_transport_frame_length_v1. rewrite Hlim, Hh. cbn [negb].
  rewrite Hm, Hcrc, H8, H10, H12, H16, Hk, H57, H58, H80, H24, H40, H48, H64.
  unfold validate_message in Hval. status_guards Hval.
  pose proof (kind_raw_range (message_kind (te_message e))).
  assert (Hn : frame_size e = 100 + blen (envelope_payload e)) by done.
  rewrite bool_decide_true, !Z.eqb_refl by done. rewrite bool_decide_true by done.
  change (Z.of_nat 96 =? kRaftTransportHeaderSize) with true. cbn [negb orb].
  match goal with H : is_nil ?g = false |- _ => change (zero_bytes g = false) in H; rewrite H end.
  replace (kind_raw (message_kind (te_message e)) <? 1) with false by (symmetry; apply Z.ltb_ge; lia).
  rewrite !gtb_false by (done || lia). unfold kFraming, kRaftTransportHeaderSize, kRaftTransportTrailerSize.
  replace (frame_size e <? 96 + 4) with false by (symmetry; apply Z.ltb_ge; lia).
  replace (blen (envelope_payload e) =? frame_size e - (96 + 4)) with true
    by (symmetry; apply Z.eqb_eq; lia).
  rewrite !(proj2 (Z.eqb_neq _ _)) by done. done.
Qed.
