(* ===== verification/RaftTransportStream.v ===== *)
(** The transport over byte streams: the frame reader delivers exactly the
    envelopes whose frames it has consumed, for every way a stream is cut into
    chunks; the write cursor emits exactly its frame; and a message that comes
    out of the decoder is one a Raft node accepts safely. *)
From S2P Require Import Prelude Bytes Crc32c RaftTypes RaftMembership RaftNode RaftFacts RaftInvariant.
From S2P Require Import RaftTheorems.
From S2P Require Import Reading RaftTransport RaftTransportCodec.
#[local] Open Scope Z_scope.

(** * The codec as one statement *)

(** C30.  The decoder of transport frames accepts a byte string exactly when it is
    the canonical frame of a valid envelope within the limits, and returns that
    envelope: header, payload and both checksums are determined byte for byte. *)
Theorem transport_decode_exact (bytes : list byte) (lim : RaftTransportCodecLimits)
  (e : RaftTransportEnvelope) :
  decode_raft_transport_envelope_v1 bytes lim = Ok e <->
  envelope_ok lim e /\ bytes = frame_bytes e.
Proof.
  split; [apply decode_sound|]. intros [Hok ->]. by apply decode_complete.
Qed.

(** The validators return [kOk] or [kInvalidArgument]. *)
Definition ok_or_invalid (s : StatusCode) : Prop := s = kOk \/ s = kInvalidArgument.

Lemma guard_code (b : bool) s :
  ok_or_invalid s -> ok_or_invalid (if b then kInvalidArgument else s).
Proof. intros. destruct b; [by right|done]. Qed.

Lemma validate_entries_code lim term es : forall expected,
  ok_or_invalid (validate_entries lim term expected es).
Proof. induction es; intros; cbn [validate_entries]; [by left|]. by apply guard_code. Qed.

Lemma validate_message_code e lim : ok_or_invalid (validate_message e lim).
Proof.
  unfold validate_message, validate_snapshot. cbv zeta. repeat apply guard_code.
  destruct (te_message e) as [v|v|v|v|v|v|v|v]; repeat apply guard_code; try (by left).
  - apply validate_entries_code.
  - destruct (aer_conflict_term v); [apply guard_code|]; by left.
Qed.

Lemma encode_envelope_spec e lim :
  envelope_typed e ->
  encode_raft_transport_envelope_v1 e lim =
    if negb (valid_limits lim && is_ok (validate_message e lim)) then Err kInvalidArgument
    else if frame_size e <=? tl_maximum_frame_bytes lim then Ok (frame_bytes e)
    else Err kResourceExhausted.
Proof.
  intros Ht. destruct (valid_limits lim) eqn:Hlim.
  2: { unfold encode_raft_transport_envelope_v1, raft_transport_encoded_length_v1. by rewrite Hlim. }
  destruct (is_ok (validate_message e lim)) eqn:Hv; unfold is_ok in Hv; bool_prop; cbn [andb negb].
  - destruct (Z.leb_spec (frame_size e) (tl_maximum_frame_bytes lim)).
    + by apply encode_envelope_exact.
    + unfold encode_raft_transport_envelope_v1. rewrite encoded_length_exact by done.
      by rewrite (proj2 (Z.leb_gt _ _)).
  - unfold encode_raft_transport_envelope_v1, raft_transport_encoded_length_v1. rewrite Hlim.
    cbn [negb]. by destruct (validate_message_code e lim) as [| ->].
Qed.

(**  The encoder on every envelope whose members hold values of their types:
    invalid limits or an invalid message fail with [kInvalidArgument], a frame
    above the limit with [kResourceExhausted]; otherwise it returns the canonical
    frame, of exactly the announced size, and the decoder returns the envelope. *)
Theorem transport_roundtrip (e : RaftTransportEnvelope) (lim : RaftTransportCodecLimits)
  (Ht : envelope_typed e) :
  match encode_raft_transport_envelope_v1 e lim with
  | Ok bytes =>
      decode_raft_transport_envelope_v1 bytes lim = Ok e /\
      raft_transport_encoded_length_v1 e lim = Ok (blen bytes) /\
      raft_transport_frame_length_v1 (first bytes kRaftTransportHeaderSize) lim = Ok (blen bytes)
  | Err kInvalidArgument => valid_limits lim = false \/ validate_message e lim = kInvalidArgument
  | Err kResourceExhausted => tl_maximum_frame_bytes lim < frame_size e
  | Err _ => False
  end.
Proof.
  rewrite encode_envelope_spec by done.
  destruct (valid_limits lim) eqn:Hlim; [|by left]. cbn [andb].
  destruct (validate_message_code e lim) as [Hv|Hv]; rewrite Hv; cbn [negb]; [|by right].
  change (negb (is_ok kOk)) with false. cbn iota.
  destruct (Z.leb_spec (frame_size e) (tl_maximum_frame_bytes lim)); [|done].
  assert (Hok : envelope_ok lim e) by done. pose proof Ht as (Hg & _).
  rewrite length_frame_bytes by done. split_and!.
  - by apply decode_complete.
  - rewrite encoded_length_exact by done. by rewrite (proj2 (Z.leb_le _ _)).
  - unfold kRaftTransportHeaderSize. rewrite first_frame_bytes by done.
    by apply frame_length_complete.
Qed.

Lemma sample_typed : envelope_typed sample_envelope.
Proof.
  unfold envelope_typed, message_typed, sample_envelope. cbn.
  split_and!; try reflexivity; try width_lia.
  constructor; [|constructor]. unfold entry_typed. cbn. split_and!; width_lia.
Qed.

Definition sample_frame : list byte :=
  match encode_raft_transport_envelope_v1 sample_envelope default_transport_limits with
  | Ok bytes => bytes
  | Err _ => []
  end.
Lemma sample_encoded :
  encode_raft_transport_envelope_v1 sample_envelope default_transport_limits = Ok sample_frame.
Proof. vm_compute. reflexivity. Qed.

Lemma transport_roundtrip_witness :
  decode_raft_transport_envelope_v1 sample_frame default_transport_limits = Ok sample_envelope.
Proof.
  pose proof (transport_roundtrip sample_envelope default_transport_limits sample_typed) as H.
  rewrite sample_encoded in H. apply H.
Defined.

(** * The frame reader *)

(** Between calls the reader holds the bytes [pending] of a frame that is not
    complete: in the header buffer, or in a frame buffer of the announced size. *)
Definition in_header (r : RaftTransportFrameReader) (pending : list byte) : Prop :=
  fr_expected_frame_bytes r = None /\ fr_frame r = [] /\ fr_header_bytes r = blen pending /\
  blen pending < kRaftTransportHeaderSize /\ first (fr_header r) (blen pending) = pending.
Definition in_frame (r : RaftTransportFrameReader) (pending : list byte) (n : Z) : Prop :=
  fr_expected_frame_bytes r = Some n /\ blen (fr_frame r) = n /\
  fr_frame_bytes r = blen pending /\ kRaftTransportHeaderSize <= blen pending < n /\
  first (fr_frame r) (blen pending) = pending /\
  raft_transport_frame_length_v1 (first pending kRaftTransportHeaderSize) (fr_limits r) = Ok n.
Definition buffers (r : RaftTransportFrameReader) (pending : list byte) : Prop :=
  fr_failure r = None /\ valid_limits (fr_limits r) = true /\ blen (fr_header r) = 96 /\
  (in_header r pending \/ exists n, in_frame r pending n).

(** The reader as a function of the bytes it has of the current frame: what the
    next step does, or [None] when it needs more bytes. *)
Definition frame_step (lim : RaftTransportCodecLimits) (all : list byte)
  : option (result (Z * RaftTransportEnvelope)) :=
  if blen all <? kRaftTransportHeaderSize then None
  else match raft_transport_frame_length_v1 (first all kRaftTransportHeaderSize) lim with
       | Err s => Some (Err s)
       | Ok n =>
           if blen all <? n then None
           else Some (match decode_raft_transport_envelope_v1 (first all n) lim with
                      | Ok e => Ok (n, e)
                      | Err s => Err s
                      end)
       end.

Lemma announced_length_bounds h lim n :
  raft_transport_frame_length_v1 h lim = Ok n ->
  kFraming <= n <= tl_maximum_frame_bytes lim.
Proof.
  unfold raft_transport_frame_length_v1. intros H. guard_inv H. by injection H as <-.
Qed.

Lemma first_fill (buf p bytes : list byte) :
  first buf (blen p) = p -> blen p + blen bytes <= blen buf ->
  first (copy_at buf (blen p) bytes) (blen (p ++ bytes)) = p ++ bytes.
Proof.
  unfold first, copy_at. intros Hp Hl. rewrite !Nat2Z.id in *. rewrite Hp, app_assoc.
  by rewrite take_app_length.
Qed.


(** Filling the frame: the step of [frame_step] on all the bytes there are. *)
Lemma consume_frame_spec r pending n bytes consumed :
  buffers r pending -> in_frame r pending n -> 0 <= consumed <= blen bytes ->
  let rest := drop (Z.to_nat consumed) bytes in
  match frame_step (fr_limits r) (pending ++ rest) with
  | None => exists r', consume_frame r n bytes consumed =
        (Ok {| consumed_bytes := blen bytes; step_envelope := None |}, r') /\
        fr_limits r' = fr_limits r /\ buffers r' (pending ++ rest)
  | Some (Ok (n', e)) => n' = n /\ exists r', consume_frame r n bytes consumed =
        (Ok {| consumed_bytes := consumed + (n - blen pending); step_envelope := Some e |}, r') /\
        fr_limits r' = fr_limits r /\ buffers r' []
  | Some (Err s) => exists r', consume_frame r n bytes consumed = (make_unexpected s, r') /\
        fr_failure r' = Some s
  end.
Proof.
  intros (Hfail & Hlim & Hh & _) (He & Hf & Hfb & Hb & Hp & Hlen) Hc rest.
  unfold frame_step. rewrite length_app, Nat2Z.inj_add. pose proof (announced_length_bounds _ _ _ Hlen).
  destruct (Z.ltb_spec (blen pending + blen rest) kRaftTransportHeaderSize); [lia|].
  rewrite first_app_le, Hlen by lia. unfold consume_frame. rewrite subspan_rest by done.
  fold rest. rewrite Hfb.
  assert (Hr : blen rest = blen bytes - consumed) by (unfold rest; rewrite length_drop; lia).
  assert (Hfill : forall x, fr_frame_bytes (fill_frame r x) = blen pending + blen x)
    by (intros; cbn; lia).
  destruct (Z.ltb_spec (blen pending + blen rest) n) as [Hlt|Hge].
  - rewrite Z.min_l, first_all, Hfill by lia.
    replace (blen pending + blen rest =? n) with false by (symmetry; apply Z.eqb_neq; lia).
    cbn [negb]. eexists. split; [do 3 f_equal; lia|]. split; [done|].
    split_and!; try done. right. exists n. unfold in_frame, fill_frame. cbn.
    rewrite He, Hfb, first_fill, length_copy_at, length_app, Nat2Z.inj_add by (done || lia).
    split_and!; try done; try lia. by rewrite first_app_le by lia.
  - rewrite Z.min_r, Hfill by lia.
    assert (Hfl : blen (first rest (n - blen pending)) = n - blen pending)
      by (unfold first; rewrite length_take; lia).
    rewrite Hfl. replace (blen pending + (n - blen pending) =? n) with true by (symmetry; apply Z.eqb_eq; lia).
    cbn [negb fill_frame fr_frame fr_limits].
    assert (Hall : copy_at (fr_frame r) (fr_frame_bytes r) (first rest (n - blen pending))
              = first (pending ++ rest) n).
    { rewrite Hfb. unfold first, copy_at in *. rewrite Nat2Z.id in *. rewrite Hp.
      rewrite drop_ge, app_nil_r by lia. rewrite take_app, (take_ge pending) by lia.
      do 2 f_equal. lia. }
    rewrite Hall. destruct (decode_raft_transport_envelope_v1 _ _) as [e|s].
    + split; [done|]. eexists. split; [reflexivity|]. split; [done|].
      split_and!; try done. left. unfold in_header. cbn. split_and!; try done; lia.
    + eexists. split; reflexivity.
Qed.

(** The frame buffer starts with the complete header. *)
Lemma start_frame_spec r h n :
  fr_failure r = None -> valid_limits (fr_limits r) = true -> fr_header r = h -> blen h = 96 ->
  fr_frame r = [] -> raft_transport_frame_length_v1 h (fr_limits r) = Ok n ->
  buffers (start_frame r n) h /\ in_frame (start_frame r n) h n.
Proof.
  intros Hfail Hlim Hh Hl Hfr Hlen. pose proof (announced_length_bounds _ _ _ Hlen) as Hn.
  unfold kFraming, kRaftTransportHeaderSize, kRaftTransportTrailerSize in Hn.
  assert (Hin : in_frame (start_frame r n) h n).
  { unfold in_frame, start_frame. cbn. rewrite Hfr, Hh, take_nil, Nat.sub_0_r. cbn [app].
    unfold kRaftTransportHeaderSize. split_and!; try done; try lia.
    - rewrite length_copy_at; rewrite ?length_replicate; lia.
    - unfold first, copy_at. rewrite Nat2Z.id. change (Z.to_nat 0) with 0%nat.
      rewrite take_0. cbn [app]. by rewrite take_app_length.
    - by rewrite first_all by lia. }
  split; [|done]. split_and!; [done|done|by cbn; rewrite Hh|]. right. by exists n.
Qed.

(** [consume] is [frame_step] on the buffered and the offered bytes. *)
Lemma consume_spec r pending bytes :
  buffers r pending ->
  match frame_step (fr_limits r) (pending ++ bytes) with
  | None => exists r', FrameReader_consume r bytes =
        (Ok {| consumed_bytes := blen bytes; step_envelope := None |}, r') /\
        fr_limits r' = fr_limits r /\ buffers r' (pending ++ bytes)
  | Some (Ok (n, e)) => exists r', FrameReader_consume r bytes =
        (Ok {| consumed_bytes := n - blen pending; step_envelope := Some e |}, r') /\
        fr_limits r' = fr_limits r /\ buffers r' []
  | Some (Err s) => exists r', FrameReader_consume r bytes = (make_unexpected s, r') /\
        fr_failure r' = Some s
  end.
Proof.
  intros Hb. pose proof Hb as (Hfail & Hlim & Hh & [Hhd|[n Hf]]).
  2: { unfold FrameReader_consume. pose proof Hf as (He & _). rewrite Hfail, He.
       pose proof (consume_frame_spec r pending n bytes 0 Hb Hf ltac:(lia)) as Hs. cbv zeta in Hs.
       rewrite drop_0 in Hs. destruct (frame_step _ _) as [[[n' e]|s]|]; [|done..].
       destruct Hs as [-> Hs]. exact Hs. }
  pose proof Hhd as (He & Hfr & Hhb & Hlt & Hp). unfold FrameReader_consume. rewrite Hfail, He, Hhb.
  unfold kRaftTransportHeaderSize in *. set (copied := Z.min (blen bytes) (96 - blen pending)).
  assert (Hcl : blen (first bytes copied) = copied) by (unfold first; rewrite length_take; lia).
  cbn [fill_header fr_header_bytes]. rewrite Hhb, Hcl.
  assert (Hhdr : first (copy_at (fr_header r) (blen pending) (first bytes copied))
     (blen (pending ++ first bytes copied)) = pending ++ first bytes copied)
    by (apply first_fill; [done|lia]).
  destruct (Z.ltb_spec (blen (pending ++ bytes)) 96) as [Hs|Hs]; rewrite length_app in Hs.
  - unfold frame_step, kRaftTransportHeaderSize.
    rewrite (proj2 (Z.ltb_lt (blen (pending ++ bytes)) 96)) by (rewrite length_app; lia).
    replace (blen pending + copied =? 96) with false by (symmetry; apply Z.eqb_neq; lia).
    cbn [negb]. assert (Hc : copied = blen bytes) by lia.
    assert (Hall : first bytes copied = bytes) by (apply first_all; lia). rewrite Hall in *.
    eexists. split; [rewrite Hc; reflexivity|]. split; [done|].
    split_and!; try done; [cbn; rewrite Hhb, length_copy_at; lia|]. left.
    unfold in_header. cbn. rewrite Hhb. split_and!; try done; rewrite length_app;
      unfold kRaftTransportHeaderSize; lia.
  - assert (Hc : copied = 96 - blen pending) by lia.
    assert (Hfull : fr_header (fill_header r (first bytes copied)) = first (pending ++ bytes) 96).
    { cbn [fill_header fr_header]. rewrite Hhb, <- (first_all (copy_at _ _ _) 96)
        by (rewrite length_copy_at; lia).
      replace 96 with (blen (pending ++ first bytes copied)) at 1 by (rewrite length_app; lia).
      rewrite Hhdr. unfold first. rewrite take_app, (take_ge pending) by lia. do 2 f_equal. lia. }
    replace (blen pending + copied =? 96) with true by (symmetry; apply Z.eqb_eq; lia).
    cbn [negb]. rewrite Hfull. change (fr_limits (fill_header r _)) with (fr_limits r).
    destruct (raft_transport_frame_length_v1 (first (pending ++ bytes) 96) (fr_limits r))
      as [n|s] eqn:Hlen.
    2: { unfold frame_step, kRaftTransportHeaderSize.
         rewrite (proj2 (Z.ltb_ge (blen (pending ++ bytes)) 96)), Hlen by (rewrite length_app; lia).
         by eexists. }
    destruct (start_frame_spec (fill_header r (first bytes copied)) (first (pending ++ bytes) 96) n)
      as [Hb' Hf']; [done|done|done| |done|done|].
    { unfold first. rewrite length_take, length_app. lia. }
    pose proof (consume_frame_spec _ _ _ bytes copied Hb' Hf' ltac:(lia)) as Hst. cbv zeta in Hst.
    replace (first (pending ++ bytes) 96 ++ drop (Z.to_nat copied) bytes) with (pending ++ bytes) in Hst.
    2: { unfold first. rewrite take_app, (take_ge pending), <- app_assoc by lia.
         replace (Z.to_nat 96 - length pending)%nat with (Z.to_nat copied) by lia.
         by rewrite take_drop. }
    replace (copied + (n - blen (first (pending ++ bytes) 96))) with (n - blen pending) in Hst
      by (unfold first; rewrite length_take, length_app; lia).
    change (fr_limits (start_frame _ _)) with (fr_limits r) in Hst.
    destruct (frame_step _ _) as [[[n' e]|s]|]; [|done..]. destruct Hst as [-> Hst]. exact Hst.
Qed.

(** ** Streams *)

(** Calls of [consume] on a stream: each call is offered some of the bytes that
    are left, and the bytes it consumed are removed from the stream.  [out] are
    the envelopes the calls returned. *)
Inductive feeds : RaftTransportFrameReader -> list byte -> list RaftTransportEnvelope ->
  RaftTransportFrameReader -> list byte -> Prop :=
| feeds_nil r s : feeds r s [] r s
| feeds_step r chunk tail step r1 out r2 s2 :
    FrameReader_consume r chunk = (Ok step, r1) ->
    feeds r1 (drop (Z.to_nat (consumed_bytes step)) (chunk ++ tail)) out r2 s2 ->
    feeds r (chunk ++ tail) (option_list (step_envelope step) ++ out) r2 s2.

Definition envelope_frames (es : list RaftTransportEnvelope) : list byte := concat (frame_bytes <$> es).

Lemma envelope_frames_cons e es : envelope_frames (e :: es) = frame_bytes e ++ envelope_frames es.
Proof. done. Qed.

(** What is buffered is no complete frame. *)
Lemma buffers_incomplete r p : buffers r p -> frame_step (fr_limits r) p = None.
Proof.
  intros (_ & _ & _ & [(_ & _ & _ & Hl & _)|[n (_ & _ & _ & Hl & _ & Hlen)]]); unfold frame_step.
  - by rewrite (proj2 (Z.ltb_lt _ _)).
  - rewrite (proj2 (Z.ltb_ge _ _)), Hlen by lia. by rewrite (proj2 (Z.ltb_lt _ _)) by lia.
Qed.

(** A complete frame in front of [all] is longer than what was buffered of it. *)
Lemma frame_step_Ok lim all n e :
  frame_step lim all = Some (Ok (n, e)) ->
  n <= blen all /\ first all n = frame_bytes e /\ envelope_ok lim e /\
  raft_transport_frame_length_v1 (first all kRaftTransportHeaderSize) lim = Ok n.
Proof.
  unfold frame_step. intros H. destruct (_ <? _); [done|].
  destruct (raft_transport_frame_length_v1 _ lim) as [n'|] eqn:Hlen; [|done].
  destruct (Z.ltb_spec (blen all) n'); [done|].
  destruct (decode_raft_transport_envelope_v1 _ _) as [e'|] eqn:Hd; [|done].
  injection H as <- <-. apply decode_sound in Hd as [Hok Hd]. done.
Qed.

Lemma frame_step_longer r p t n e :
  buffers r p -> frame_step (fr_limits r) (p ++ t) = Some (Ok (n, e)) -> blen p < n.
Proof.
  intros Hb H. apply frame_step_Ok in H as (Hn & _ & _ & Hlen).
  destruct Hb as (_ & _ & _ & [(_ & _ & _ & Hl & _)|[n' (_ & _ & _ & Hl & _ & Hlen')]]).
  - apply announced_length_bounds in Hlen. unfold kFraming, kRaftTransportHeaderSize,
      kRaftTransportTrailerSize in *. lia.
  - rewrite first_app_le, Hlen' in Hlen by lia. injection Hlen as ->. lia.
Qed.

(** The bytes consumed are the frames of the envelopes returned and what is
    buffered. *)
Lemma feeds_sound r s out r' s' : feeds r s out r' s' -> forall p, buffers r p ->
  exists p', buffers r' p' /\ fr_limits r' = fr_limits r /\ p ++ s = envelope_frames out ++ p' ++ s' /\
    Forall (envelope_ok (fr_limits r)) out.
Proof.
  induction 1 as [r s|r chunk tail step r1 out r2 s2 Hc Hf IH]; intros p Hb; [by exists p|].
  pose proof (consume_spec r p chunk Hb) as Hs.
  destruct (frame_step (fr_limits r) (p ++ chunk)) as [[[n e]|st]|] eqn:Est.
  - destruct Hs as (r' & Hc' & Hl & Hb'). rewrite Hc' in Hc. injection Hc as <- <-.
    cbn [consumed_bytes step_envelope option_list app] in *.
    pose proof (frame_step_longer _ _ _ _ _ Hb Est) as Hp.
    apply frame_step_Ok in Est as (Hn & Hfr & Hok & _).
    destruct (IH [] Hb') as (p' & Hb2 & Hl2 & Heq & Hall). exists p'. rewrite Hl2, Hl in *.
    split_and!; [done|done| |by constructor].
    change (envelope_frames (_ ++ out)) with (envelope_frames (e :: out)).
    rewrite envelope_frames_cons, <- app_assoc, <- Heq. cbn [app]. rewrite <- Hfr. unfold first.
    rewrite length_app in Hn. rewrite take_app, (take_ge p), drop_app_le, <- !app_assoc by lia.
    f_equal. replace (Z.to_nat (n - blen p)) with (Z.to_nat n - length p)%nat by lia.
    by rewrite app_assoc, take_drop.
  - destruct Hs as (r' & Hc' & _). rewrite Hc' in Hc.
    by destruct (make_unexpected_not_ok (A := RaftTransportReadStep) st) as (? & ? & _); congruence.
  - destruct Hs as (r' & Hc' & Hl & Hb'). rewrite Hc' in Hc. injection Hc as <- <-.
    cbn [consumed_bytes step_envelope option_list app] in *.
    destruct (IH _ Hb') as (p' & Hb2 & Hl2 & Heq & Hall). exists p'. rewrite Hl2, Hl in *.
    split_and!; [done|done| |done].
    change (envelope_frames (_ ++ out)) with (envelope_frames out).
    rewrite <- Heq, Nat2Z.id, drop_app_length. by rewrite app_assoc.
Qed.

Lemma create_buffers lim r : FrameReader_create lim = Ok r -> buffers r [] /\ fr_limits r = lim.
Proof.
  unfold FrameReader_create. intros H. guard_inv H. injection H as <-. split; [|done].
  split_and!; try done. left. split_and!; done.
Qed.

Lemma buffered_bytes_spec r p :
  buffers r p -> buffered_bytes r = blen p /\ blen p < tl_maximum_frame_bytes (fr_limits r).
Proof.
  intros (_ & Hlim & _ & [(He & _ & Hh & Hl & _)|[n (He & _ & Hb & Hl & _ & Hlen)]]);
    unfold buffered_bytes; rewrite He.
  - apply valid_limits_spec in Hlim. unfold kRaftTransportHeaderSize in *. split; [done|lia].
  - apply announced_length_bounds in Hlen. split; [done|lia].
Qed.

(** Whatever bytes arrive and however they are cut into chunks: the bytes a
    frame reader has consumed are exactly the canonical frames of the envelopes it
    has returned, in order, followed by the bytes it holds of an incomplete frame;
    every returned envelope is valid, and the reader never holds as much as the
    configured maximum. *)
Theorem stream_reader_exact (lim : RaftTransportCodecLimits) (r0 r : RaftTransportFrameReader)
  (s rest : list byte) (out : list RaftTransportEnvelope)
  (Hcreate : FrameReader_create lim = Ok r0) (Hfeeds : feeds r0 s out r rest) :
  exists held, s = envelope_frames out ++ held ++ rest /\ buffered_bytes r = blen held /\
    blen held < tl_maximum_frame_bytes lim /\ Forall (envelope_ok lim) out.
Proof.
  destruct (create_buffers _ _ Hcreate) as [Hb Hl].
  destruct (feeds_sound _ _ _ _ _ Hfeeds [] Hb) as (p & Hb' & Hl' & Heq & Hall).
  destruct (buffered_bytes_spec _ _ Hb') as [Hn Hm]. rewrite Hl', Hl in Hm. rewrite Hl in Hall.
  by exists p.
Qed.

Definition sample_reader : RaftTransportFrameReader :=
  {| fr_limits := default_transport_limits; fr_header := replicate 96 x00; fr_header_bytes := 0;
     fr_frame := []; fr_frame_bytes := 0; fr_expected_frame_bytes := None; fr_failure := None |}.

(** Two offers of the sample frame, cut after fifty bytes. *)
Definition sample_reader1 : RaftTransportFrameReader :=
  snd (FrameReader_consume sample_reader (take 50 sample_frame)).
Definition sample_reader2 : RaftTransportFrameReader :=
  snd (FrameReader_consume sample_reader1 (drop 50 sample_frame)).
Lemma sample_step r bytes step :
  fst (FrameReader_consume r bytes) = Ok step ->
  FrameReader_consume r bytes = (Ok step, snd (FrameReader_consume r bytes)).
Proof. intros <-. by destruct (FrameReader_consume r bytes). Qed.
Lemma sample_feeds :
  feeds sample_reader sample_frame [sample_envelope] sample_reader2 [].
Proof.
  rewrite <- (take_drop 50 sample_frame).
  apply (feeds_step _ _ _ {| consumed_bytes := 50; step_envelope := None |} sample_reader1
           [sample_envelope]).
  { apply sample_step. vm_compute. reflexivity. }
  assert (Hd : drop (Z.to_nat 50) (take 50 sample_frame ++ drop 50 sample_frame)
               = drop 50 sample_frame ++ []) by (vm_compute; reflexivity).
  cbn [consumed_bytes]. rewrite Hd.
  apply (feeds_step _ _ _ {| consumed_bytes := blen (drop 50 sample_frame);
                             step_envelope := Some sample_envelope |} sample_reader2 []).
  { apply sample_step. vm_compute. reflexivity. }
  cbn [consumed_bytes]. rewrite app_nil_r, Nat2Z.id, drop_all. constructor.
Qed.

Lemma stream_reader_exact_witness :
  exists held, sample_frame = envelope_frames [sample_envelope] ++ held ++ [] /\
    buffered_bytes sample_reader2 = blen held /\ blen held < 64 * 1024 * 1024 /\
    Forall (envelope_ok default_transport_limits) [sample_envelope].
Proof.
  apply (stream_reader_exact default_transport_limits sample_reader sample_reader2).
  - reflexivity.
  - exact sample_feeds.
Defined.

Lemma frame_step_prefix lim e p t x :
  envelope_ok lim e -> p ++ t = frame_bytes e ++ x ->
  frame_step lim p = None \/ frame_step lim p = Some (Ok (frame_size e, e)).
Proof.
  intros Hok E. pose proof Hok as (_ & (Hg & _) & _). pose proof (length_frame_bytes e Hg) as Hl.
  assert (Hn : frame_size e = 100 + blen (envelope_payload e)) by done.
  assert (Hf : forall k, 0 <= k <= blen p -> k <= frame_size e -> first p k = first (frame_bytes e) k).
  { intros k Hk Hk'. rewrite <- (first_app_le p t), E by lia. apply first_app_le. lia. }
  unfold frame_step, kRaftTransportHeaderSize. destruct (Z.ltb_spec (blen p) 96); [by left|].
  rewrite Hf, first_frame_bytes, frame_length_complete by (done || lia).
  destruct (Z.ltb_spec (blen p) (frame_size e)); [by left|]. right.
  by rewrite Hf, first_all, decode_complete by (done || lia).
Qed.

Lemma frame_step_complete lim e x :
  envelope_ok lim e -> frame_step lim (frame_bytes e ++ x) = Some (Ok (frame_size e, e)).
Proof.
  intros Hok. destruct (frame_step_prefix lim e (frame_bytes e ++ x) [] x Hok) as [H|H];
    [by rewrite app_nil_r| |done].
  pose proof Hok as (_ & (Hg & _) & _). pose proof (length_frame_bytes e Hg) as Hl.
  assert (Hn : frame_size e = 100 + blen (envelope_payload e)) by done.
  unfold frame_step, kRaftTransportHeaderSize in H.
  rewrite (proj2 (Z.ltb_ge _ _)) in H by (rewrite length_app; lia).
  rewrite first_app_le, first_frame_bytes, frame_length_complete in H by (done || lia).
  by rewrite (proj2 (Z.ltb_ge _ _)) in H by (rewrite length_app; lia).
Qed.

(** Canonical frames are prefix free: a concatenation of frames is read back in
    one way only. *)
Lemma frames_inj lim es : forall out x,
  Forall (envelope_ok lim) es -> Forall (envelope_ok lim) out -> envelope_frames es = envelope_frames out ++ x ->
  exists rest, es = out ++ rest /\ x = envelope_frames rest.
Proof.
  induction es as [|e es IH]; intros out x Hes Hout E.
  - destruct out as [|o out]; [by exists []|]. apply Forall_cons in Hout as [Ho _].
    pose proof Ho as (_ & (Hg & _) & _). pose proof (length_frame_bytes o Hg) as Hl.
    apply (f_equal length) in E. rewrite envelope_frames_cons, !length_app in E.
    change (length (envelope_frames [])) with 0%nat in E.
    assert (Hn : frame_size o = 100 + blen (envelope_payload o)) by done. lia.
  - destruct out as [|o out]; [by exists (e :: es)|].
    apply Forall_cons in Hes as [He Hes], Hout as [Ho Hout].
    rewrite !envelope_frames_cons, <- app_assoc in E.
    pose proof (frame_step_complete lim e (envelope_frames es) He) as H1. rewrite E in H1.
    rewrite frame_step_complete in H1 by done. injection H1 as _ <-.
    apply app_inv_head in E. destruct (IH out x Hes Hout E) as (rest & -> & ->). by exists rest.
Qed.

(** A reader in the middle of a stream of frames takes every offer. *)
Lemma consume_frames lim r p chunk tail es :
  buffers r p -> fr_limits r = lim -> Forall (envelope_ok lim) es ->
  p ++ chunk ++ tail = envelope_frames es ->
  exists step r', FrameReader_consume r chunk = (Ok step, r') /\
    (chunk <> [] -> 0 < consumed_bytes step).
Proof.
  intros Hb Hl Hes E. pose proof (consume_spec r p chunk Hb) as Hs. rewrite Hl in Hs.
  pose proof (frame_step_longer r p chunk) as Hlong. rewrite Hl in Hlong.
  assert (Hcase : frame_step lim (p ++ chunk) = None \/
                  exists n e, frame_step lim (p ++ chunk) = Some (Ok (n, e))).
  { destruct es as [|e es].
    - cbn in E. apply app_eq_nil in E as [-> E]. apply app_eq_nil in E as [-> _]. by left.
    - apply Forall_cons in Hes as [He _]. rewrite app_assoc, envelope_frames_cons in E.
      destruct (frame_step_prefix lim e (p ++ chunk) tail (envelope_frames es) He E) as [H|H]; eauto. }
  destruct Hcase as [H|(n & e & H)]; rewrite H in Hs; destruct Hs as (r' & Hc & _); rewrite Hc;
    eexists _, _; (split; [reflexivity|]); cbn [consumed_bytes].
  - destruct chunk; cbn [length]; [done|lia].
  - intros _. specialize (Hlong n e Hb H). lia.
Qed.

(** ** The write cursor *)

(** Partial writes of the pending bytes: [out] is what has gone to the stream. *)
Inductive writes : RaftTransportFrameWriteCursor -> list byte -> RaftTransportFrameWriteCursor -> Prop :=
| writes_nil c : writes c [] c
| writes_step c k c1 out c2 :
    0 <= k -> consume_written c k = (kOk, c1) -> writes c1 out c2 ->
    writes c (first (pending_write c) k ++ out) c2.

Definition cursor_inv (c : RaftTransportFrameWriteCursor) : Prop :=
  0 <= written_bytes c <= blen (encoded_frame c).

Lemma pending_write_drop c :
  cursor_inv c -> pending_write c = drop (Z.to_nat (written_bytes c)) (encoded_frame c).
Proof. intros. by apply subspan_rest. Qed.

Lemma writes_spec c out c' :
  writes c out c' -> cursor_inv c ->
  cursor_inv c' /\ encoded_frame c' = encoded_frame c /\ pending_write c = out ++ pending_write c'.
Proof.
  induction 1 as [c|c k c1 out c2 Hk Hc Hw IH]; intros Hi; [done|].
  unfold consume_written in Hc.
  destruct (Z.gtb_spec k (blen (encoded_frame c) - written_bytes c)); [done|]. injection Hc as <-.
  assert (Hi1 : cursor_inv {| encoded_frame := encoded_frame c; written_bytes := written_bytes c + k |})
    by (unfold cursor_inv in *; cbn; lia).
  destruct (IH Hi1) as (Hi2 & Hf & Hp). split_and!; [done|done|].
  rewrite <- app_assoc, <- Hp, !pending_write_drop by done. cbn [encoded_frame written_bytes].
  unfold first, cursor_inv in *. rewrite Z2Nat.inj_add, <- drop_drop by lia. by rewrite take_drop.
Qed.

Lemma cursor_complete_spec c : cursor_inv c -> cursor_complete c = true <-> pending_write c = [].
Proof.
  intros Hi. rewrite pending_write_drop by done. unfold cursor_complete, cursor_inv in *.
  rewrite Z.eqb_eq. split; [intros ->; apply drop_ge; lia|].
  intros H. apply (f_equal length) in H. rewrite length_drop in H. cbn in H. lia.
Qed.

(** * From one node to another *)

(** The envelope [e] goes out as the bytes [o]: it is encoded, and a cursor over
    the frame is written out completely, in any number of partial writes. *)
Definition transmitted (lim : RaftTransportCodecLimits) (e : RaftTransportEnvelope)
  (o : list byte) : Prop :=
  envelope_typed e /\
  exists f c c', encode_raft_transport_envelope_v1 e lim = Ok f /\
    WriteCursor_create f lim = Ok c /\ writes c o c' /\ cursor_complete c' = true.

Lemma transmitted_frame lim e o : transmitted lim e o -> envelope_ok lim e /\ o = frame_bytes e.
Proof.
  intros (Ht & f & c & c' & Henc & Hc & Hw & Hdone).
  pose proof (encode_envelope_spec e lim Ht) as He. rewrite Henc in He.
  destruct (negb _) eqn:Hv; [done|]. bool_prop. unfold is_ok in *. bool_prop.
  destruct (Z.leb_spec (frame_size e) (tl_maximum_frame_bytes lim)); [|done]. injection He as ->.
  split; [done|]. unfold WriteCursor_create in Hc. apply rbind_Ok in Hc as (? & _ & [= <-]).
  apply writes_spec in Hw as (Hi & _ & Hp); [|unfold cursor_inv; cbn; lia].
  apply cursor_complete_spec in Hdone; [|done]. rewrite Hdone, app_nil_r in Hp.
  rewrite <- Hp. unfold pending_write. cbn [encoded_frame written_bytes].
  apply subspan_all. lia.
Qed.

Lemma transmitted_frames lim es outs :
  Forall2 (transmitted lim) es outs -> Forall (envelope_ok lim) es /\ concat outs = envelope_frames es.
Proof.
  induction 1 as [|e o es outs H _ [IH1 IH2]]; [done|].
  apply transmitted_frame in H as [Hok ->]. cbn [concat]. by rewrite IH2, envelope_frames_cons; split; [constructor|].
Qed.

(** C21.  Delivery: envelopes that a sender encodes and writes out, in partial
    writes of any size, come out of the receiver's frame reader in order and
    unchanged, however the stream is cut into chunks.  The reader returns a prefix
    of them; it accepts every further offer of the stream and consumes something
    of a nonempty one; and when the stream is consumed it has returned them all
    and holds nothing. *)
Theorem transport_delivers (lim : RaftTransportCodecLimits) (es : list RaftTransportEnvelope)
  (outs : list (list byte)) (r0 r : RaftTransportFrameReader) (rest : list byte)
  (received : list RaftTransportEnvelope)
  (Hsent : Forall2 (transmitted lim) es outs) (Hcreate : FrameReader_create lim = Ok r0)
  (Hfeeds : feeds r0 (concat outs) received r rest) :
  received `prefix_of` es /\
  (forall chunk tail, rest = chunk ++ tail -> chunk <> [] ->
     exists step r', FrameReader_consume r chunk = (Ok step, r') /\ 0 < consumed_bytes step) /\
  (rest = [] -> received = es /\ buffered_bytes r = 0).
Proof.
  destruct (transmitted_frames _ _ _ Hsent) as [Hes Hstream].
  destruct (create_buffers _ _ Hcreate) as [Hb Hl].
  destruct (feeds_sound _ _ _ _ _ Hfeeds [] Hb) as (p & Hb' & Hl' & Heq & Hall).
  rewrite Hl in *. cbn [app] in Heq. rewrite Hstream in Heq.
  destruct (frames_inj lim es received (p ++ rest) Hes Hall Heq) as (left & -> & Hleft).
  apply Forall_app in Hes as [_ Hok]. split_and!.
  - by exists left.
  - intros chunk tail -> Hne.
    destruct (consume_frames lim r p chunk tail left Hb' Hl' Hok Hleft) as (step & r' & Hc & Hpos).
    eauto.
  - intros ->. rewrite app_nil_r in Hleft. pose proof (buffers_incomplete _ _ Hb') as Hinc.
    destruct (buffered_bytes_spec _ _ Hb') as [-> _]. rewrite Hl', Hleft in *.
    destruct left as [|e left]; [by rewrite app_nil_r|]. apply Forall_cons in Hok as [He _].
    by rewrite envelope_frames_cons, frame_step_complete in Hinc.
Qed.

(** The sample frame, written in two parts. *)
Lemma sample_transmitted : transmitted default_transport_limits sample_envelope sample_frame.
Proof.
  split; [apply sample_typed|].
  exists sample_frame, {| encoded_frame := sample_frame; written_bytes := 0 |},
    {| encoded_frame := sample_frame; written_bytes := blen sample_frame |}.
  split_and!; [apply sample_encoded|vm_compute; reflexivity| |vm_compute; reflexivity].
  pose (c0 := {| encoded_frame := sample_frame; written_bytes := 0 |}).
  pose (c1 := {| encoded_frame := sample_frame; written_bytes := 60 |}).
  assert (Hs : sample_frame = first (pending_write c0) 60
    ++ first (pending_write c1) (blen sample_frame - 60) ++ []) by (vm_compute; reflexivity).
  change (writes c0 sample_frame
    {| encoded_frame := sample_frame; written_bytes := blen sample_frame |}).
  rewrite Hs at 1. clear Hs.
  apply (writes_step c0 60 c1); [lia|vm_compute; reflexivity|].
  apply (writes_step c1 (blen sample_frame - 60)
           {| encoded_frame := sample_frame; written_bytes := blen sample_frame |});
    [vm_compute; discriminate|vm_compute; reflexivity|constructor].
Qed.

Lemma transport_delivers_witness :
  [sample_envelope] `prefix_of` [sample_envelope] /\ buffered_bytes sample_reader2 = 0.
Proof.
  destruct (transport_delivers default_transport_limits [sample_envelope] [sample_frame]
              sample_reader sample_reader2 [] [sample_envelope]) as (Hp & _ & Hd).
  - constructor; [exact sample_transmitted|constructor].
  - reflexivity.
  - cbn [concat]. rewrite app_nil_r. exact sample_feeds.
  - split; [exact Hp|]. apply Hd. reflexivity.
Defined.

(** * Decoded messages at a node *)

Lemma message_typed_wf m : message_typed m -> message_wf m.
Proof.
  intros [Ht Hm]. split; [width_lia|]. destruct m as [v|v|v|v|v|v|v|v]; try done; cbn in Hm.
  - destruct Hm as (_ & _ & _ & _ & He & _). eapply Forall_impl; [exact He|].
    intros e (? & ? & _). split; width_lia.
  - destruct Hm as (? & _). width_lia.
  - destruct Hm as (_ & ? & ? & _). split; width_lia.
  - width_lia.
Qed.

(**  Bytes from the network cannot break a node: whatever byte string is
    decoded, handing the message to a reachable node keeps the node invariant,
    moves the persistent state only forward and leaves the node as it was when
    the call fails.  The value ranges the node relies on are established by the
    decoder. *)
Theorem decoded_message_safe (n : Impl) (bytes : list byte) (lim : RaftTransportCodecLimits)
  (e : RaftTransportEnvelope) (Hn : reachable n)
  (Hd : decode_raft_transport_envelope_v1 bytes lim = Ok e) :
  step_ok n (receive n (te_source e) (te_message e)) /\
  reachable (snd (receive n (te_source e) (te_message e))).
Proof.
  apply decode_sound in Hd as [(_ & (_ & _ & _ & Ht) & _) _]. apply message_typed_wf in Ht.
  split; [apply receive_ok; [by apply reachable_inv|done]|].
  apply (reach_run n (OpReceive (te_source e) (te_message e)) (fst (receive n (te_source e) (te_message e))));
    [done|done|]. cbn. by destruct (receive _ _ _).
Qed.

Lemma decoded_message_safe_witness :
  step_ok follower (receive follower 1 (te_message sample_envelope)).
Proof.
  apply (decoded_message_safe follower sample_frame default_transport_limits sample_envelope).
  - exact follower_reachable.
  - vm_compute. reflexivity.
Defined.
