(* ===== verification/OrderedMap.v ===== *)
(** [std::map] and [std::set] as the ordered lists of their entries: the operations
    the program uses of them, and the facts that make them finite maps. *)
From stdpp Require Import sorting.
From S2P Require Import Prelude Bytes.
#[local] Open Scope Z_scope.

(** * Ordered maps

    A [std::map] is the list of its entries in key order. *)
Section ordered_map.
Context {K V : Type} (compare : K -> K -> comparison).

(** [map[key] = value], and [map.emplace(key, value)], which keeps a present entry. *)
Fixpoint om_assign (key : K) (value : V) (entries : list (K * V)) : list (K * V) :=
  match entries with
  | [] => [(key, value)]
  | (k, v) :: rest =>
      match compare key k with
      | Lt => (key, value) :: (k, v) :: rest
      | Eq => (k, value) :: rest
      | Gt => (k, v) :: om_assign key value rest
      end
  end.
Fixpoint om_emplace (key : K) (value : V) (entries : list (K * V)) : list (K * V) :=
  match entries with
  | [] => [(key, value)]
  | (k, v) :: rest =>
      match compare key k with
      | Lt => (key, value) :: (k, v) :: rest
      | Eq => (k, v) :: rest
      | Gt => (k, v) :: om_emplace key value rest
      end
  end.
Fixpoint om_lookup (key : K) (entries : list (K * V)) : option V :=
  match entries with
  | [] => None
  | (k, v) :: rest =>
      match compare key k with Lt => None | Eq => Some v | Gt => om_lookup key rest end
  end.
(** [map.erase(key)]. *)
Fixpoint om_erase (key : K) (entries : list (K * V)) : list (K * V) :=
  match entries with
  | [] => []
  | (k, v) :: rest =>
      match compare key k with
      | Lt => (k, v) :: rest
      | Eq => rest
      | Gt => (k, v) :: om_erase key rest
      end
  end.
End ordered_map.

(** The order of [common::Uuid]: its bytes from the first. *)
Fixpoint uuid_compare (a b : list byte) : comparison :=
  match a, b with
  | [], [] => Eq
  | [], _ => Lt
  | _, [] => Gt
  | x :: a, y :: b =>
      match Z.compare (byte_to_Z x) (byte_to_Z y) with Eq => uuid_compare a b | c => c end
  end.

(** A [std::set] of numbers is the list of its members in order. *)
Fixpoint os_insert (number : Z) (members : list Z) : list Z :=
  match members with
  | [] => [number]
  | m :: rest =>
      if number <? m then number :: m :: rest
      else if number =? m then m :: rest else m :: os_insert number rest
  end.

(** * Facts *)

Section facts.
Context {K V : Type} (compare : K -> K -> comparison).
Context (compare_Eq : forall a b, compare a b = Eq <-> a = b).
Context (compare_flip : forall a b, compare b a = CompOpp (compare a b)).
Context (compare_trans : forall a b c, compare a b = Lt -> compare b c = Lt -> compare a c = Lt).

Implicit Types (k : K) (v : V) (m : list (K * V)).

Definition om_sorted (m : list (K * V)) : Prop :=
  StronglySorted (fun a b => compare a b = Lt) m.*1.

Lemma compare_refl a : compare a a = Eq.
Proof. by apply compare_Eq. Qed.
Lemma compare_Gt a b : compare a b = Gt -> compare b a = Lt.
Proof. intros H. by rewrite compare_flip, H. Qed.
Lemma compare_ne a b : compare a b = Lt -> a <> b.
Proof. intros H ->. by rewrite compare_refl in H. Qed.

Lemma om_assign_keys k v m x : x ∈ (om_assign compare k v m).*1 <-> x = k \/ x ∈ m.*1.
Proof.
  induction m as [|[k' v'] m IH]; cbn [om_assign]; [cbn; rewrite elem_of_cons; naive_solver|].
  destruct (compare k k') eqn:E; rewrite !fmap_cons, ?elem_of_cons; cbn [fst].
  - apply compare_Eq in E. subst. naive_solver.
  - naive_solver.
  - rewrite IH. naive_solver.
Qed.
Lemma om_assign_sorted k v m : om_sorted m -> om_sorted (om_assign compare k v m).
Proof.
  unfold om_sorted. induction m as [|[k' v'] m IH]; intros Hs; cbn [om_assign].
  - cbn. constructor; [constructor|done].
  - rewrite fmap_cons in Hs. apply StronglySorted_inv in Hs as [Hs Hall]. cbn [fst] in *.
    destruct (compare k k') eqn:E; rewrite !fmap_cons; cbn [fst].
    + by constructor.
    + constructor; [by constructor|]. constructor; [done|].
      eapply Forall_impl; [exact Hall|]. intros y Hy. by eapply compare_trans.
    + constructor; [by apply IH|]. rewrite Forall_forall in *. intros y Hy.
      apply om_assign_keys in Hy as [->|Hy]; [by apply compare_Gt|by apply Hall].
Qed.

Lemma om_assign_elem k v m k' v' :
  om_sorted m ->
  (k', v') ∈ om_assign compare k v m <-> (k' = k /\ v' = v) \/ (k' <> k /\ (k', v') ∈ m).
Proof.
  unfold om_sorted. induction m as [|[k0 v0] m IH]; intros Hs; cbn [om_assign].
  - rewrite list_elem_of_singleton, elem_of_nil. naive_solver.
  - rewrite fmap_cons in Hs. apply StronglySorted_inv in Hs as [Hs Hall]. cbn [fst] in *.
    assert (Hne : forall x y, compare x k0 = Lt \/ x = k0 -> (x, y) ∈ m -> False).
    { intros x y Hx Hin. rewrite Forall_forall in Hall.
      assert (Hk : compare k0 x = Lt) by (apply Hall, list_elem_of_fmap; by exists (x, y)).
      destruct Hx as [Hx| ->]; [|by eapply compare_ne]. rewrite compare_flip, Hx in Hk. done. }
    destruct (compare k k0) eqn:E; rewrite !elem_of_cons.
    + apply compare_Eq in E. subst k0. split; [|naive_solver].
      intros [[= -> ->]|Hin]; [by left|]. right. split; [|by right]. intros ->. apply (Hne k v'); auto.
    + split; [|naive_solver]. intros [[= -> ->]|Hin]; [by left|]. right. split; [|done].
      intros ->. destruct Hin as [[= -> ->]|Hin]; [by rewrite compare_refl in E|apply (Hne k v'); auto].
    + rewrite IH by done. apply compare_Gt in E. apply compare_ne in E. naive_solver.
Qed.

(** A lookup finds the entries. *)
Lemma om_lookup_Some k v m : om_sorted m -> om_lookup compare k m = Some v <-> (k, v) ∈ m.
Proof.
  unfold om_sorted. induction m as [|[k0 v0] m IH]; intros Hs; cbn [om_lookup]; [by rewrite elem_of_nil|].
  rewrite fmap_cons in Hs. apply StronglySorted_inv in Hs as [Hs Hall]. cbn [fst] in *.
  assert (Hout : compare k k0 <> Gt -> (k, v) ∈ m -> False).
  { intros Hk Hin. rewrite Forall_forall in Hall. specialize (Hall k).
    rewrite compare_flip in Hall. destruct (compare k k0); try done;
      (discriminate Hall; apply list_elem_of_fmap; by exists (k, v)). }
  rewrite elem_of_cons. destruct (compare k k0) eqn:E.
  - apply compare_Eq in E as ->. split; [intros [= ->]; by left|]. intros [[= ->]|Hin]; [done|]. by destruct Hout.
  - split; [done|]. intros [[= -> ->]|Hin]; [by rewrite compare_refl in E|by destruct Hout].
  - rewrite IH by done. split; [by right|]. intros [[= -> ->]|Hin]; [by rewrite compare_refl in E|done].
Qed.
Lemma om_lookup_None k m : om_sorted m -> om_lookup compare k m = None <-> k ∉ m.*1.
Proof.
  intros Hs. rewrite list_elem_of_fmap. split.
  - intros E ([k' v] & -> & Hin). apply om_lookup_Some in Hin; [|done]. cbn in E. congruence.
  - intros Hn. destruct (om_lookup compare k m) as [v|] eqn:E; [|done]. apply om_lookup_Some in E; [|done].
    destruct Hn. by exists (k, v).
Qed.
Lemma om_lookup_assign k v m k' :
  om_sorted m -> om_lookup compare k' (om_assign compare k v m) =
    match compare k' k with Eq => Some v | _ => om_lookup compare k' m end.
Proof.
  intros Hs. pose proof (om_assign_sorted k v m Hs) as Hs'. apply option_eq. intros x.
  rewrite om_lookup_Some, om_assign_elem by done. rewrite <- (om_lookup_Some k' x m Hs).
  destruct (compare k' k) eqn:E.
  - apply compare_Eq in E as ->. naive_solver.
  - assert (k' <> k) by (intros ->; by rewrite compare_refl in E). naive_solver.
  - assert (k' <> k) by (intros ->; by rewrite compare_refl in E). naive_solver.
Qed.
(** [emplace] of an absent key assigns it. *)
Lemma om_emplace_assign k v m :
  om_lookup compare k m = None -> om_sorted m -> om_emplace compare k v m = om_assign compare k v m.
Proof.
  unfold om_sorted. induction m as [|[k0 v0] m IH]; intros Hn Hs; [done|]. cbn [om_emplace om_assign om_lookup] in *.
  destruct (compare k k0) eqn:E; [done|done|]. rewrite fmap_cons in Hs. apply StronglySorted_inv in Hs as [Hs _].
  by rewrite IH.
Qed.
(** An assignment to a present key keeps the keys. *)
Lemma om_assign_present k v m : is_Some (om_lookup compare k m) -> (om_assign compare k v m).*1 = m.*1.
Proof.
  induction m as [|[k0 v0] m IH]; cbn [om_assign om_lookup]; [by intros []|].
  destruct (compare k k0) eqn:E; [done|by intros []|]. intros H. rewrite !fmap_cons, IH by done. done.
Qed.
Lemma om_erase_elem k m k' v' :
  om_sorted m -> (k', v') ∈ om_erase compare k m <-> k' <> k /\ (k', v') ∈ m.
Proof.
  unfold om_sorted. induction m as [|[k0 v0] m IH]; intros Hs; cbn [om_erase]; [rewrite elem_of_nil; naive_solver|].
  rewrite fmap_cons in Hs. apply StronglySorted_inv in Hs as [Hs Hall]. cbn [fst] in *. rewrite Forall_forall in Hall.
  assert (Hlt : forall x, (k', x) ∈ m -> compare k0 k' = Lt)
    by (intros x Hx; apply Hall, list_elem_of_fmap; by exists (k', x)).
  destruct (compare k k0) eqn:E; rewrite ?elem_of_cons.
  - apply compare_Eq in E as ->. split; [|naive_solver]. intros Hin. split; [|by right].
    intros ->. apply Hlt in Hin. by rewrite compare_refl in Hin.
  - split; [|naive_solver]. intros Hin. split; [|done]. intros ->.
    destruct Hin as [[= -> ->]|Hin]; [by rewrite compare_refl in E|]. apply Hlt in Hin.
    rewrite compare_flip, E in Hin. done.
  - rewrite IH by done. apply compare_Gt in E. apply compare_ne in E. naive_solver.
Qed.
Lemma om_erase_sorted k m : om_sorted m -> om_sorted (om_erase compare k m).
Proof.
  unfold om_sorted. induction m as [|[k0 v0] m IH]; intros Hs; [done|]. cbn [om_erase].
  pose proof Hs as Hs0. rewrite fmap_cons in Hs0. apply StronglySorted_inv in Hs0 as [Hs1 Hall].
  destruct (compare k k0); [done|done|]. rewrite fmap_cons. constructor; [by apply IH|].
  rewrite Forall_forall in *. intros x Hx. apply Hall. apply list_elem_of_fmap in Hx as ([k' v'] & -> & Hin).
  apply om_erase_elem in Hin as [_ Hin]; [|done]. apply list_elem_of_fmap. by exists (k', v').
Qed.

(** A key beyond the last goes to the end, and is then the last. *)
Lemma om_emplace_end k v m :
  (forall x, x ∈ m.*1 -> compare x k = Lt) -> om_emplace compare k v m = m ++ [(k, v)].
Proof.
  induction m as [|[k' v'] m IH]; intros H; [done|]. cbn [om_emplace app].
  rewrite (compare_flip k' k), (H k') by (left). cbn. f_equal. apply IH. intros x Hx. apply H. by right.
Qed.
Lemma om_assign_end k v v' m :
  (forall x, x ∈ m.*1 -> compare x k = Lt) ->
  om_assign compare k v (m ++ [(k, v')]) = m ++ [(k, v)].
Proof.
  induction m as [|[k0 v0] m IH]; intros H; cbn [om_assign app]; [by rewrite compare_refl|].
  rewrite (compare_flip k0 k), (H k0) by (left). cbn. f_equal. apply IH. intros x Hx. apply H. by right.
Qed.
Lemma om_lookup_end k v m :
  (forall x, x ∈ m.*1 -> compare x k = Lt) -> om_lookup compare k (m ++ [(k, v)]) = Some v.
Proof.
  induction m as [|[k0 v0] m IH]; intros H; cbn [om_lookup app]; [by rewrite compare_refl|].
  rewrite (compare_flip k0 k), (H k0) by (left). cbn. apply IH. intros x Hx. apply H. by right.
Qed.
End facts.

(** The two orders. *)
Lemma uuid_compare_Eq a : forall b, uuid_compare a b = Eq <-> a = b.
Proof.
  induction a as [|x a IH]; intros [|y b]; cbn [uuid_compare]; try done.
  destruct (Z.compare_spec (byte_to_Z x) (byte_to_Z y)) as [E|E|E].
  - apply byte_to_Z_inj in E as ->. rewrite IH. naive_solver.
  - split; [done|]. intros [= -> ->]. lia.
  - split; [done|]. intros [= -> ->]. lia.
Qed.
Lemma uuid_compare_flip a : forall b, uuid_compare b a = CompOpp (uuid_compare a b).
Proof.
  induction a as [|x a IH]; intros [|y b]; cbn [uuid_compare]; try done.
  rewrite (Z.compare_antisym (byte_to_Z x) (byte_to_Z y)).
  destruct (Z.compare _ _); cbn; [apply IH|done|done].
Qed.
Lemma uuid_compare_trans a : forall b c,
  uuid_compare a b = Lt -> uuid_compare b c = Lt -> uuid_compare a c = Lt.
Proof.
  induction a as [|x a IH]; intros [|y b] [|z c]; cbn [uuid_compare]; try done.
  destruct (Z.compare_spec (byte_to_Z x) (byte_to_Z y)) as [E1|E1|E1]; try done;
    destruct (Z.compare_spec (byte_to_Z y) (byte_to_Z z)) as [E2|E2|E2]; try done; intros H1 H2;
    destruct (Z.compare_spec (byte_to_Z x) (byte_to_Z z)); try lia; try done. by eapply IH.
Qed.
Lemma Z_compare_flip a b : Z.compare b a = CompOpp (Z.compare a b).
Proof. apply Z.compare_antisym. Qed.
