(* ===== verification/RaftLogCodec.v ===== *)
(** Records of the multiplexed Raft log: include/chronos/raft/multiplexed_log.hpp
    and src/raft/multiplexed_log.cpp.  A record carries the whole persistent state
    of one group with its physical sequence number.  The encoder writes format 1.1;
    the decoder also reads format 1.0, which has no snapshot configuration. *)
From S2P Require Import Prelude Bytes Crc32c Reading RaftTypes RaftMembership.
#[local] Open Scope Z_scope.

(** * multi_raft.hpp and multiplexed_log.hpp *)

Record GroupPersistentState := {
  gp_group_id : GroupId; gp_physical_sequence : Z; gp_state : PersistentState }.
#[global] Instance GroupPersistentState_eq_dec : EqDecision GroupPersistentState.
Proof. solve_decision. Defined.

Definition kMultiplexedLogFormatMajor : Z := 1.
Definition kMultiplexedLogFormatMinor : Z := 1.
Definition kMultiplexedLogHeaderSize : Z := 64.
Definition kMultiplexedLogTrailerSize : Z := 4.
Definition kMaximumMultiplexedLogRecordSize : Z := 16 * 1024 * 1024.

Record DecodedGroupPersistentState := {
  decoded_persistent : GroupPersistentState; decoded_encoded_size : Z }.
Record MultiplexedLogRecordHeader := {
  mh_encoded_size : Z; mh_payload_size : Z; mh_physical_sequence : Z; mh_group_id : GroupId;
  mh_format_minor : Z }.

(** * multiplexed_log.cpp *)

Definition kMagic : list byte := [x43; x48; x52; x4e; x4d; x52; x4c; x00].
Definition kStateFixedSizeV1_0 : Z := 96.
Definition kStateFixedSizeV1_1 : Z := kRaftPersistentStateFixedSizeV1.
Definition kEntryFixedSize : Z := kRaftPersistentLogEntryFixedSizeV1.

Definition payload_size (s : PersistentState) : result Z :=
  raft_persistent_state_payload_size (blen (snapshot_voters (snapshot s))) (log s).

(** The writer calls of [write_state], in order; [write_fields] stops at the first
    failing one as the source does. *)
Definition log_entry_fields (e : LogEntry) : list Field :=
  [FU64 (entry_index e); FU64 (entry_term e); FU8 (entry_type e); zero_field 7;
   FU32 (u32 (blen (entry_payload e))); FU32 0; FBytes (entry_payload e)].
Definition state_fields (s : PersistentState) : list Field :=
  [FU64 (current_term s); FU64 (default 0 (voted_for s)); FU64 (commit_index s);
   FU64 (applied_index s); FU64 (last_included_index (snapshot s));
   FU64 (last_included_term (snapshot s)); FU64 (manifest_generation (snapshot s));
   FBytes (part_set_checksum (snapshot s)); FU64 (configuration_index (snapshot s));
   FU32 (u32 (blen (snapshot_voters (snapshot s)))); FU32 0]
  ++ (FU64 <$> snapshot_voters (snapshot s))
  ++ [FU32 (u32 (blen (log s))); FU32 0] ++ concat (log_entry_fields <$> log s).
Definition write_state (s : PersistentState) (w : ByteWriter) : StatusCode * ByteWriter :=
  write_fields (state_fields s) w.

Definition inspect_multiplexed_log_record_header_v1 (encoded_header : list byte)
  : result MultiplexedLogRecordHeader :=
  fail_if negb (blen encoded_header =? kMultiplexedLogHeaderSize) with kCorruption;
  let crc_reader := ByteReader_new (subspan encoded_header 52 4) in
  let '(stored_header_crc, _) := read_u32_le crc_reader in
  let checked_header := copy_at encoded_header 52 (replicate 4 x00) in
  fail_if match stored_header_crc with
          | Ok stored => negb (crc32c checked_header =? stored)
          | Err _ => true
          end with kCorruption;
  let header := ByteReader_new encoded_header in
  let '(magic, header) := read_exact 8 header in
  let '(major, header) := read_u16_le header in
  let '(minor, header) := read_u16_le header in
  let '(header_size, header) := read_u32_le header in
  let '(total_size, header) := read_u32_le header in
  let '(payload_length, header) := read_u32_le header in
  let '(physical_sequence, header) := read_u64_le header in
  let '(group_bytes, header) := read_exact 16 header in
  let '(payload_crc, header) := read_u32_le header in
  let '(ignored_header_crc, header) := read_u32_le header in
  let '(reserved, header) := read_exact 8 header in
  match magic, major, minor, header_size, total_size, payload_length, physical_sequence,
        group_bytes, reserved with
  | Ok magic, Ok major, Ok minor, Ok header_size, Ok total_size, Ok payload_length,
    Ok physical_sequence, Ok group_id, Ok reserved =>
      fail_if negb (bool_decide (magic = kMagic)) with kCorruption;
      fail_if negb (major =? kMultiplexedLogFormatMajor) || (minor >? kMultiplexedLogFormatMinor)
        with kNotSupported;
      let minimum_size := kMultiplexedLogHeaderSize + kMultiplexedLogTrailerSize in
      fail_if negb (header_size =? kMultiplexedLogHeaderSize) || (physical_sequence =? 0)
              || (total_size <? minimum_size) || (total_size >? kMaximumMultiplexedLogRecordSize)
              || negb (payload_length =? total_size - minimum_size)
              || existsb (fun value => bool_decide (value <> x00)) reserved with kCorruption;
      fail_if is_nil group_id with kCorruption;
      Ok {| mh_encoded_size := total_size; mh_payload_size := payload_length;
            mh_physical_sequence := physical_sequence; mh_group_id := group_id;
            mh_format_minor := minor |}
  | _, _, _, _, _, _, _, _, _ => Err kCorruption
  end.

(** The writer calls of the header, before its checksum is stored. *)
Definition record_header_fields (p : GroupPersistentState) (total payload payload_crc : Z)
  : list Field :=
  [FBytes kMagic; FU16 kMultiplexedLogFormatMajor; FU16 kMultiplexedLogFormatMinor;
   FU32 (u32 kMultiplexedLogHeaderSize); FU32 (u32 total); FU32 (u32 payload);
   FU64 (gp_physical_sequence p); FBytes (gp_group_id p); FU32 payload_crc; FU32 0; zero_field 8].

(** Running writer calls over a part of the buffer: the buffer after them. *)
Definition write_part (encoded : list byte) (offset size : Z)
  (calls : ByteWriter -> StatusCode * ByteWriter) : result (list byte) :=
  let '(status, writer) := calls (ByteWriter_new (subspan encoded offset size)) in
  fail_if negb (is_ok status) || negb (writer_full writer)
    with (if is_ok status then kInternal else status);
  Ok (copy_at encoded offset (writer_bytes writer)).

Definition encode_multiplexed_log_record_v1 (persistent : GroupPersistentState)
  : result (list byte) :=
  let s := gp_state persistent in
  fail_if is_nil (gp_group_id persistent) || (gp_physical_sequence persistent =? 0)
          || (blen (log s) >? max_u32)
          || (blen (snapshot_voters (snapshot s)) >? kMaximumMembershipVoters)
    with kInvalidArgument;
  let? payload := payload_size s in
  fail_if payload >? max_u32 with kResourceExhausted;
  match match checked_add kMultiplexedLogHeaderSize payload with
        | Some total => checked_add total kMultiplexedLogTrailerSize
        | None => None
        end with
  | None => Err kResourceExhausted
  | Some total =>
      fail_if (total >? kMaximumMultiplexedLogRecordSize) || (total >? max_u32)
        with kResourceExhausted;
      let encoded := replicate (Z.to_nat total) x00 in
      let? encoded := write_part encoded kMultiplexedLogHeaderSize payload (write_state s) in
      let payload_crc := crc32c (subspan encoded kMultiplexedLogHeaderSize payload) in
      let? encoded := write_part encoded 0 kMultiplexedLogHeaderSize
                        (write_fields (record_header_fields persistent total payload payload_crc)) in
      let header_crc := crc32c (subspan encoded 0 64) in
      let? encoded := write_part encoded 52 4 (write_fields [FU32 header_crc]) in
      let record_crc := crc32c (subspan encoded 0 (kMultiplexedLogHeaderSize + payload)) in
      write_part encoded (kMultiplexedLogHeaderSize + payload) kMultiplexedLogTrailerSize
        (write_fields [FU32 record_crc])
  end.

(** The loops over the voters and the entries. *)
Fixpoint decode_state_voters (count : nat) (reader : ByteReader)
  : result (list NodeId * ByteReader) :=
  match count with
  | O => Ok ([], reader)
  | S count =>
      match read_u64_le reader with
      | (Err _, _) => Err kCorruption
      | (Ok voter, reader) =>
          let? (voters, reader) := decode_state_voters count reader in Ok (voter :: voters, reader)
      end
  end.

Fixpoint decode_state_entries (count : nat) (reader : ByteReader)
  : result (list LogEntry * ByteReader) :=
  match count with
  | O => Ok ([], reader)
  | S count =>
      let '(log_index, reader) := read_u64_le reader in
      let '(log_term, reader) := read_u64_le reader in
      let '(type, reader) := read_u8 reader in
      let '(entry_reserved, reader) := read_exact 7 reader in
      let '(payload_size, reader) := read_u32_le reader in
      let '(payload_reserved, reader) := read_u32_le reader in
      match log_index, log_term, type, entry_reserved, payload_size, payload_reserved with
      | Ok log_index, Ok log_term, Ok type, Ok entry_reserved, Ok payload_size,
        Ok payload_reserved =>
          fail_if negb (payload_reserved =? 0)
                  || existsb (fun value => bool_decide (value <> x00)) entry_reserved
            with kCorruption;
          match read_exact payload_size reader with
          | (Err _, _) => Err kCorruption
          | (Ok entry_payload, reader) =>
              let? (entries, reader) := decode_state_entries count reader in
              Ok ({| entry_index := log_index; entry_term := log_term; entry_type := type;
                     entry_payload := entry_payload |} :: entries, reader)
          end
      | _, _, _, _, _, _ => Err kCorruption
      end
  end.

(** The snapshot configuration, present since format 1.1. *)
Definition decode_configuration (minor : Z) (reader : ByteReader)
  : result (Z * Z * ByteReader) :=
  if minor >=? 1 then
    let '(configuration_index, reader) := read_u64_le reader in
    let '(voter_count, reader) := read_u32_le reader in
    let '(snapshot_reserved, reader) := read_u32_le reader in
    match configuration_index, voter_count, snapshot_reserved with
    | Ok configuration_index, Ok voter_count, Ok snapshot_reserved =>
        fail_if negb (snapshot_reserved =? 0) with kCorruption;
        Ok (configuration_index, voter_count, reader)
    | _, _, _ => Err kCorruption
    end
  else Ok (0, 0, reader).

(** The persistent state read from the payload. *)
Definition decode_state (minor : Z) (payload : list byte) : result PersistentState :=
  let reader := ByteReader_new payload in
  let '(term, reader) := read_u64_le reader in
  let '(voted, reader) := read_u64_le reader in
  let '(commit, reader) := read_u64_le reader in
  let '(applied, reader) := read_u64_le reader in
  let '(snapshot_index, reader) := read_u64_le reader in
  let '(snapshot_term, reader) := read_u64_le reader in
  let '(generation, reader) := read_u64_le reader in
  let '(checksum, reader) := read_exact 32 reader in
  let? (configuration, reader) := decode_configuration minor reader in
  let '(configuration_index, voter_count) := configuration in
  fail_if (voter_count >? kMaximumMembershipVoters) || (voter_count >? reader_remaining reader / 8)
    with kCorruption;
  let? (snapshot_voters, reader) := decode_state_voters (Z.to_nat voter_count) reader in
  let '(log_count, reader) := read_u32_le reader in
  let '(state_reserved, reader) := read_u32_le reader in
  match term, voted, commit, applied, snapshot_index, snapshot_term, generation, checksum,
        log_count, state_reserved with
  | Ok term, Ok voted, Ok commit, Ok applied, Ok snapshot_index, Ok snapshot_term,
    Ok generation, Ok checksum, Ok log_count, Ok state_reserved =>
      fail_if negb (state_reserved =? 0) with kCorruption;
      fail_if log_count >? reader_remaining reader / kEntryFixedSize with kCorruption;
      let? (entries, reader) := decode_state_entries (Z.to_nat log_count) reader in
      fail_if negb (reader_empty reader) with kCorruption;
      Ok {| current_term := term; voted_for := if voted =? 0 then None else Some voted;
            log := entries; commit_index := commit; applied_index := applied;
            snapshot := {| last_included_index := snapshot_index;
                           last_included_term := snapshot_term; manifest_generation := generation;
                           part_set_checksum := checksum;
                           configuration_index := configuration_index;
                           snapshot_voters := snapshot_voters |} |}
  | _, _, _, _, _, _, _, _, _, _ => Err kCorruption
  end.

Definition decode_multiplexed_log_record_v1 (encoded : list byte)
  : result DecodedGroupPersistentState :=
  fail_if blen encoded <? kMultiplexedLogHeaderSize + kMultiplexedLogTrailerSize with kCorruption;
  let? inspected :=
    inspect_multiplexed_log_record_header_v1 (first encoded kMultiplexedLogHeaderSize) in
  fail_if negb (mh_encoded_size inspected =? blen encoded) with kCorruption;
  let '(payload_crc, _) := read_u32_le (ByteReader_new (subspan encoded 48 4)) in
  match payload_crc with
  | Err _ => Err kCorruption
  | Ok payload_crc =>
      let payload := subspan encoded kMultiplexedLogHeaderSize (mh_payload_size inspected) in
      let minimum_payload :=
        if mh_format_minor inspected =? 0 then kStateFixedSizeV1_0 else kStateFixedSizeV1_1 in
      fail_if blen payload <? minimum_payload with kCorruption;
      fail_if negb (crc32c payload =? payload_crc) with kCorruption;
      let '(record_crc, _) :=
        read_u32_le (ByteReader_new (subspan encoded (blen encoded - kMultiplexedLogTrailerSize)
                                       kMultiplexedLogTrailerSize)) in
      fail_if match record_crc with
              | Ok record_crc =>
                  negb (crc32c (first encoded (blen encoded - kMultiplexedLogTrailerSize))
                        =? record_crc)
              | Err _ => true
              end with kCorruption;
      let? state := decode_state (mh_format_minor inspected) payload in
      Ok {| decoded_persistent := {| gp_group_id := mh_group_id inspected;
                                     gp_physical_sequence := mh_physical_sequence inspected;
                                     gp_state := state |};
            decoded_encoded_size := blen encoded |}
  end.

Definition sample_group_state : GroupPersistentState :=
  {| gp_group_id := x01 :: replicate 15 x00; gp_physical_sequence := 7;
     gp_state := {| current_term := 3; voted_for := Some 2;
                    log := [{| entry_index := 5; entry_term := 3; entry_type := 1;
                               entry_payload := [xaa; xbb; xcc] |}];
                    commit_index := 4; applied_index := 4;
                    snapshot := {| last_included_index := 4; last_included_term := 2;
                                   manifest_generation := 1; part_set_checksum := replicate 32 x11;
                                   configuration_index := 0; snapshot_voters := [1; 2; 3] |} |} |}.
Example record_codec_sample :
  (let? bytes := encode_multiplexed_log_record_v1 sample_group_state in
   let? decoded := decode_multiplexed_log_record_v1 bytes in
   Ok (decoded_persistent decoded)) = Ok sample_group_state.
Proof. vm_compute. reflexivity. Qed.
