(* ===== verification/RaftLogRecord.v ===== *)
(** The record codec of the multiplexed Raft log is exact: the encoder writes the
    canonical record of a state, the decoder accepts the canonical records of
    format 1.1 and of format 1.0 and nothing else, and the fixed header alone
    announces the size of the record. *)
From S2P Require Import Prelude Bytes Crc32c Reading RaftTypes RaftMembership RaftLogCodec.
#[local] Open Scope Z_scope.

(** * Typed states and their canonical bytes *)

Definition state_typed (s : PersistentState) : Prop :=
  in_width 64 (current_term s) /\ from_option (in_width 64) True (voted_for s) /\
  voted_for s <> Some 0 /\ in_width 64 (commit_index s) /\ in_width 64 (applied_index s) /\
  snapshot_typed (snapshot s) /\ Forall entry_typed (log s) /\ in_width 32 (blen (log s)).

(** The fields of the state in the two formats: 1.0 has no configuration. *)
Definition configuration_fields (minor : Z) (s : SnapshotMetadata) : list Field :=
  if minor =? 0 then []
  else [FU64 (configuration_index s); FU32 (blen (snapshot_voters s)); FU32 0]
       ++ (FU64 <$> snapshot_voters s).
Definition format_fields (minor : Z) (s : PersistentState) : list Field :=
  [FU64 (current_term s); FU64 (default 0 (voted_for s)); FU64 (commit_index s);
   FU64 (applied_index s); FU64 (last_included_index (snapshot s));
   FU64 (last_included_term (snapshot s)); FU64 (manifest_generation (snapshot s));
   FBytes (part_set_checksum (snapshot s))]
  ++ configuration_fields minor (snapshot s)
  ++ [FU32 (blen (log s)); FU32 0] ++ concat (log_entry_fields <$> log s).
Definition state_bytes (minor : Z) (s : PersistentState) : list byte :=
  fields_bytes (format_fields minor s).

(** What format 1.0 can carry. *)
Definition format_ok (minor : Z) (s : PersistentState) : Prop :=
  minor = 1 /\ blen (snapshot_voters (snapshot s)) <= kMaximumMembershipVoters \/
  minor = 0 /\ configuration_index (snapshot s) = 0 /\ snapshot_voters (snapshot s) = [].

Lemma state_fields_format s :
  state_typed s -> fields_bytes (state_fields s) = state_bytes 1 s.
Proof.
  intros (_ & _ & _ & _ & _ & (_ & _ & _ & _ & _ & _ & Hv) & _ & Hl).
  unfold state_bytes, state_fields, format_fields, configuration_fields.
  rewrite !(wrap_small 32) by done. cbn [Z.eqb Pos.eqb]. fields_normal. done.
Qed.

(** ** Sizes *)

Lemma log_entry_bytes_length e :
  blen (fields_bytes (log_entry_fields e)) = 32 + blen (entry_payload e).
Proof.
  unfold log_entry_fields. fields_normal.
  rewrite !length_app, !length_le_bytes, length_replicate. cbn [length]. lia.
Qed.

Lemma log_entries_bytes_length es :
  blen (fields_bytes (concat (log_entry_fields <$> es))) = log_bytes es.
Proof.
  induction es as [|e es IH]; [done|]. rewrite fmap_cons. cbn [concat log_bytes].
  rewrite fields_bytes_app, length_app, Nat2Z.inj_add, log_entry_bytes_length, IH. lia.
Qed.

Lemma log_bytes_count es : 32 * blen es <= log_bytes es.
Proof. induction es; cbn [log_bytes length]; lia. Qed.

Lemma length_voter_words voters : blen (fields_bytes (FU64 <$> voters)) = 8 * blen voters.
Proof. rewrite voter_fields_bytes, length_voter_bytes. lia. Qed.

Definition state_size (minor : Z) (s : PersistentState) : Z :=
  (if minor =? 0 then 96 else 112 + 8 * blen (snapshot_voters (snapshot s))) + log_bytes (log s).

Lemma length_state_bytes minor s :
  blen (part_set_checksum (snapshot s)) = 32 -> blen (state_bytes minor s) = state_size minor s.
Proof.
  intros Hc. unfold state_bytes, format_fields, configuration_fields, state_size.
  pose proof (length_voter_words (snapshot_voters (snapshot s))) as Hv.
  pose proof (log_entries_bytes_length (log s)) as Hl.
  destruct (minor =? 0); fields_normal; rewrite ?fields_bytes_app, ?length_app, ?length_le_bytes;
    fields_normal; rewrite ?length_app, ?length_le_bytes; cbn [length]; lia.
Qed.

(** ** Decoding the state *)

Lemma decode_state_voters_inv count : forall r rest voters r',
  stands r rest -> decode_state_voters count r = Ok (voters, r') ->
  exists rest', rest = fields_bytes (FU64 <$> voters) ++ rest' /\ stands r' rest' /\
    Forall (in_width 64) voters /\ length voters = count.
Proof.
  induction count as [|count IH]; intros r rest voters r' Hs H; cbn [decode_state_voters] in H.
  { injection H as <- <-. eauto. }
  read_inv H. apply rbind_Ok in H as ([vs r1] & Hd & [= <- <-]).
  eapply IH in Hd; [|eassumption]. destruct Hd as (rest' & -> & ? & ? & ?).
  exists rest'. rewrite fmap_cons, fields_bytes_cons, <- app_assoc. split_and!; cbn; auto.
Qed.

Lemma decode_state_entries_inv count : forall r rest entries r',
  stands r rest -> decode_state_entries count r = Ok (entries, r') ->
  exists rest', rest = fields_bytes (concat (log_entry_fields <$> entries)) ++ rest' /\
    stands r' rest' /\ Forall entry_typed entries /\ length entries = count.
Proof.
  induction count as [|count IH]; intros r rest entries r' Hs H; cbn [decode_state_entries] in H.
  { injection H as <- <-. eauto. }
  read_inv H. guard_inv H. reserved_inv. subst. read_inv H.
  apply rbind_Ok in H as ([es r1] & Hd & [= <- <-]).
  eapply IH in Hd; [|eassumption]. destruct Hd as (rest' & -> & ? & ? & ?).
  exists rest'. rewrite fmap_cons. cbn [concat].
  subst a3. split_and!; [|done| |cbn; lia]; [|by constructor].
  rewrite fields_bytes_app. unfold log_entry_fields at 2.
  cbn [entry_index RaftTypes.entry_term entry_type entry_payload].
  rewrite wrap_small by done. by fields_normal.
Qed.

Lemma decode_configuration_inv minor r rest index count r' :
  stands r rest -> decode_configuration minor r = Ok (index, count, r') -> 0 <= minor <= 1 ->
  exists rest', stands r' rest' /\ in_width 64 index /\ in_width 32 count /\
    (minor = 1 /\ rest = le_bytes 8 index ++ le_bytes 4 count ++ le_bytes 4 0 ++ rest' \/
     minor = 0 /\ rest = rest' /\ index = 0 /\ count = 0).
Proof.
  intros Hs H Hm. unfold decode_configuration in H. rewrite Z.geb_leb in H.
  destruct (Z.leb_spec 1 minor).
  - read_inv H. guard_inv H. subst. injection H as <- <- <-. eexists. split_and!; [eassumption|done..|].
    left. split; [lia|done].
  - injection H as <- <- <-. exists rest. split_and!; [done|width_lia|width_lia|]. right.
    split_and!; try done; lia.
Qed.

Lemma decode_state_inv minor payload s :
  0 <= minor <= 1 -> 96 <= blen payload -> decode_state minor payload = Ok s ->
  payload = state_bytes minor s /\ state_typed s /\ format_ok minor s.
Proof.
  intros Hm Hl H. unfold decode_state in H. pose proof (stands_new payload) as Hs. read_unfold.
  do 8 read_have H Hl.
  apply rbind_Ok in H as ([[index count] r1] & Hc & H). guard_inv H.
  eapply decode_configuration_inv in Hc; [|eassumption|done].
  destruct Hc as (rest' & Hs1 & Hwi & Hwc & Hfmt).
  apply rbind_Ok in H as ([voters r2] & Hv & H).
  eapply decode_state_voters_inv in Hv; [|eassumption].
  destruct Hv as (rest2 & -> & Hs2 & Hvt & Hvl).
  read_inv H. guard_inv H. subst. apply rbind_Ok in H as ([es r3] & He & H). guard_inv H.
  injection H as <-. eapply decode_state_entries_inv in He; [|eassumption].
  destruct He as (rest3 & -> & Hs3 & Het & Hel). apply (stands_empty _ _ Hs3) in G as ->.
  assert (Hvn : blen voters = count) by (rewrite Hvl; width_lia).
  assert (Hen : blen es = a7) by (rewrite Hel; width_lia).
  assert (Hvote : default 0 (if a0 =? 0 then None else Some a0) = a0)
    by (destruct (Z.eqb_spec a0 0); done).
  split_and!.
  - unfold state_bytes, format_fields, configuration_fields. cbn [current_term voted_for log
      commit_index applied_index snapshot last_included_index last_included_term
      manifest_generation part_set_checksum configuration_index snapshot_voters].
    rewrite Hvote, Hvn, Hen. destruct Hfmt as [[-> ->]|(-> & -> & -> & ->)].
    + change (1 =? 0) with false. cbn iota. fields_normal. rewrite ?fields_bytes_app.
      fields_normal. by rewrite ?app_nil_r, <- ?app_assoc.
    + destruct voters; [|cbn in Hvn; lia]. change (0 =? 0) with true. cbn iota. fields_normal.
      by rewrite ?app_nil_r.
  - unfold state_typed, snapshot_typed. cbn. rewrite Hvn, Hen.
    split_and!; try done; destruct (Z.eqb_spec a0 0); cbn; (done || congruence).
  - unfold format_ok. cbn. destruct Hfmt as [[-> _]|(-> & _ & -> & ->)]; [left; split; [done|lia]|].
    right. split_and!; try done. destruct voters; [done|cbn in Hvn; lia].
Qed.

(** ** Reading back canonical bytes *)

Lemma decode_state_voters_run voters : forall r rest,
  stands r (fields_bytes (FU64 <$> voters) ++ rest) -> Forall (in_width 64) voters ->
  exists r', decode_state_voters (length voters) r = Ok (voters, r') /\ stands r' rest.
Proof.
  induction voters as [|v voters IH]; intros r rest Hs Hv; cbn [length decode_state_voters]; [eauto|].
  apply Forall_cons in Hv as [Hv Hvs]. rewrite fmap_cons in Hs.
  rewrite fields_bytes_cons, <- app_assoc in Hs. cbn [field_bytes] in Hs. read_run.
  destruct (IH _ _ ltac:(eassumption) Hvs) as (r' & -> & ?). cbn. eauto.
Qed.

Lemma decode_state_entries_run es : forall r rest,
  stands r (fields_bytes (concat (log_entry_fields <$> es)) ++ rest) -> Forall entry_typed es ->
  exists r', decode_state_entries (length es) r = Ok (es, r') /\ stands r' rest.
Proof.
  induction es as [|e es IH]; intros r rest Hs Ht; cbn [length decode_state_entries]; [eauto|].
  apply Forall_cons in Ht as [(Hi & Het & Hty & Hn) Ht].
  rewrite fmap_cons in Hs. cbn [concat] in Hs. rewrite fields_bytes_app in Hs.
  unfold log_entry_fields at 1 in Hs. rewrite wrap_small in Hs by done. fields_normal_in Hs. read_run.
  change (negb (0 =? 0)) with false. cbn [orb].
  destruct (IH _ _ ltac:(eassumption) Ht) as (r' & -> & ?). cbn [rbind].
  exists r'. by destruct e.
Qed.

Lemma decode_configuration_run minor st s r rest :
  s = snapshot st -> snapshot_typed s -> format_ok minor st ->
  stands r (fields_bytes (configuration_fields minor s) ++ rest) ->
  exists r', decode_configuration minor r =
      Ok (configuration_index s, blen (snapshot_voters s), r') /\
    stands r' (fields_bytes (FU64 <$> snapshot_voters s) ++ rest) /\
    blen (snapshot_voters s) <= kMaximumMembershipVoters.
Proof.
  intros -> (_ & _ & _ & _ & Hci & _ & Hvn) [[-> Hmax]|(-> & Hc0 & Hv0)] Hs;
    unfold decode_configuration, configuration_fields in *; cbn in Hs |- *.
  - fields_normal_in Hs. read_run.
    eexists. split_and!; [reflexivity|eassumption|done].
  - rewrite Hc0, Hv0. cbn. exists r. split_and!; [done|done|]. unfold kMaximumMembershipVoters. lia.
Qed.

Lemma decode_state_run minor s :
  state_typed s -> format_ok minor s -> decode_state minor (state_bytes minor s) = Ok s.
Proof.
  intros (Ht & Hv & Hv0 & Hc & Ha & (Hi & Hit & Hg & Hck & Hci & Hvs & Hvn) & He & Hn) Hf.
  assert (Hvote : in_width 64 (default 0 (voted_for s)))
    by (destruct (voted_for s); cbn in *; [done|width_lia]).
  unfold decode_state. pose proof (stands_new (state_bytes minor s)) as Hs.
  unfold state_bytes at 2 in Hs. unfold format_fields in Hs. fields_normal_in Hs.
  rewrite ?fields_bytes_app in Hs. fields_normal_in Hs. read_run.
  destruct (decode_configuration_run minor s (snapshot s) r6
    (le_bytes 4 (blen (log s)) ++ le_bytes 4 0 ++ fields_bytes (concat (log_entry_fields <$> log s))))
    as (r7 & -> & Hs7 & Hmax); [done|done|done|by rewrite <- ?app_assoc in *|].
  cbn [rbind]. rewrite (stands_remaining _ _ Hs7), length_app, Nat2Z.inj_add, length_voter_words.
  rewrite !gtb_false by (try done; width_lia). cbn [orb]. rewrite Nat2Z.id.
  destruct (decode_state_voters_run _ _ _ Hs7 Hvs) as (r8 & -> & Hs8). cbn [rbind].
  rewrite <- (app_nil_r (fields_bytes _)) in Hs8. read_run. change (negb (0 =? 0)) with false.
  cbn iota. remaining. rewrite app_nil_r, log_entries_bytes_length.
  pose proof (log_bytes_count (log s)).
  rewrite gtb_false by (unfold kEntryFixedSize, kRaftPersistentLogEntryFixedSizeV1; width_lia).
  rewrite Nat2Z.id. destruct (decode_state_entries_run _ _ _ ltac:(eassumption) He) as (rr & -> & Hs9).
  cbn [rbind]. rewrite (proj2 (stands_empty _ _ Hs9) eq_refl). cbn [negb]. f_equal.
  destruct s as [t v l c a sn]. cbn in *. destruct sn. cbn in *. f_equal.
  destruct v as [v|]; cbn; [|done]. destruct (Z.eqb_spec v 0); [by subst|done].
Qed.

(** * Record headers *)

Definition log_header_identity (m : MultiplexedLogRecordHeader) : list byte :=
  kMagic ++ le_bytes 2 kMultiplexedLogFormatMajor ++ le_bytes 2 (mh_format_minor m)
  ++ le_bytes 4 kMultiplexedLogHeaderSize ++ le_bytes 4 (mh_encoded_size m)
  ++ le_bytes 4 (mh_payload_size m) ++ le_bytes 8 (mh_physical_sequence m) ++ mh_group_id m.
Definition log_header_prefix (m : MultiplexedLogRecordHeader) (payload_crc : Z) : list byte :=
  log_header_identity m ++ le_bytes 4 payload_crc.
(** A header with its checksum field. *)
Definition log_header_with (m : MultiplexedLogRecordHeader) (payload_crc : Z) (crc : list byte)
  : list byte := log_header_prefix m payload_crc ++ crc ++ replicate 8 x00.
Definition log_header (m : MultiplexedLogRecordHeader) (payload_crc : Z) : list byte :=
  log_header_with m payload_crc
    (le_bytes 4 (crc32c (log_header_with m payload_crc (replicate 4 x00)))).

Definition header_valid (m : MultiplexedLogRecordHeader) : Prop :=
  0 <= mh_format_minor m <= 1 /\ length (mh_group_id m) = 16%nat /\ is_nil (mh_group_id m) = false /\
  in_width 64 (mh_physical_sequence m) /\ mh_physical_sequence m <> 0 /\
  68 <= mh_encoded_size m <= kMaximumMultiplexedLogRecordSize /\
  mh_payload_size m = mh_encoded_size m - 68.

Lemma length_log_header_prefix m c :
  length (mh_group_id m) = 16%nat -> length (log_header_prefix m c) = 52%nat.
Proof. intros Hg. unfold log_header_prefix, log_header_identity. rewrite !length_app, !length_le_bytes, Hg. done. Qed.
Lemma length_log_header_with m c crc :
  length (mh_group_id m) = 16%nat -> length crc = 4%nat -> length (log_header_with m c crc) = 64%nat.
Proof.
  intros Hg Hc. unfold log_header_with. rewrite !length_app, Hc, length_replicate.
  by rewrite length_log_header_prefix.
Qed.
Lemma length_log_header m c : length (mh_group_id m) = 16%nat -> length (log_header m c) = 64%nat.
Proof. intros. by apply length_log_header_with; [|rewrite length_le_bytes]. Qed.

Lemma log_header_zeroed m c crc :
  length (mh_group_id m) = 16%nat -> length crc = 4%nat ->
  copy_at (log_header_with m c crc) 52 (replicate 4 x00) = log_header_with m c (replicate 4 x00).
Proof.
  intros Hg Hc. unfold log_header_with. apply copy_at_middle; [|by rewrite length_replicate].
  by rewrite length_log_header_prefix.
Qed.
Lemma log_header_stored m c crc :
  length (mh_group_id m) = 16%nat -> length crc = 4%nat ->
  subspan (log_header_with m c crc) 52 4 = crc.
Proof.
  intros Hg Hc. unfold log_header_with. apply subspan_app_l; [|by rewrite Hc].
  by rewrite length_log_header_prefix.
Qed.

(** Reading the four bytes of a checksum. *)
Lemma read_u32_word v :
  in_width 32 v -> exists r, read_u32_le (ByteReader_new (le_bytes 4 v)) = (Ok v, r).
Proof.
  intros Hv. pose proof (stands_new (le_bytes 4 v)) as Hs.
  rewrite <- (app_nil_r (le_bytes 4 v)) in Hs at 2.
  destruct (read_unsigned_stands 4 _ _ _ Hs Hv) as (r & E & _). by exists r.
Qed.
Lemma read_u32_four bs :
  length bs = 4%nat -> exists v r, read_u32_le (ByteReader_new bs) = (Ok v, r) /\
    bs = le_bytes 4 v /\ in_width 32 v.
Proof.
  intros Hl. destruct (read_unsigned_total 4 (ByteReader_new bs) bs (stands_new bs))
    as (v & r & rest & E & -> & Hw & _); [rewrite Hl; done|].
  exists v, r. rewrite length_app, length_le_bytes in Hl. destruct rest; [|cbn in Hl; lia].
  by rewrite app_nil_r in *.
Qed.

Lemma inspect_complete m c :
  header_valid m -> in_width 32 c ->
  inspect_multiplexed_log_record_header_v1 (log_header m c) = Ok m.
Proof.
  intros (Hmi & Hg & Hnil & Hs & Hs0 & Ht & Hp) Hc. unfold inspect_multiplexed_log_record_header_v1.
  rewrite length_log_header by done. cbn [Z.of_nat].
  change (Z.pos (Pos.of_succ_nat 63) =? kMultiplexedLogHeaderSize) with true. cbn [negb].
  unfold log_header at 1. rewrite log_header_stored by (done || by rewrite length_le_bytes).
  destruct (read_u32_word (crc32c (log_header_with m c (replicate 4 x00)))) as (r & ->);
    [apply crc32c_range|].
  unfold log_header at 1. rewrite log_header_zeroed by (done || by rewrite length_le_bytes).
  rewrite Z.eqb_refl. cbn [negb].
  unfold kMaximumMultiplexedLogRecordSize in Ht.
  assert (Hcrc : in_width 32 (crc32c (log_header_with m c (replicate 4 x00)))) by apply crc32c_range.
  pose proof (stands_new (log_header m c)) as S. unfold log_header at 2 in S.
  unfold log_header_with at 1, log_header_prefix, log_header_identity in S. rewrite <- !app_assoc in S.
  rewrite <- (app_nil_r (replicate 8 x00)) in S.
  assert (in_width 32 (mh_encoded_size m)) by width_lia.
  assert (in_width 32 (mh_payload_size m)) by width_lia.
  assert (in_width 16 (mh_format_minor m)) by width_lia.
  unfold kMultiplexedLogHeaderSize, kMultiplexedLogFormatMajor in S. read_run.
  rewrite bool_decide_true by done. cbn [negb].
  unfold kMultiplexedLogFormatMajor, kMultiplexedLogFormatMinor, kMultiplexedLogHeaderSize,
    kMultiplexedLogTrailerSize, kMaximumMultiplexedLogRecordSize.
  rewrite !gtb_false by lia. rewrite (proj2 (Z.eqb_neq _ _) Hs0).
  replace (mh_encoded_size m <? 64 + 4) with false by (symmetry; apply Z.ltb_ge; lia).
  replace (mh_payload_size m =? mh_encoded_size m - (64 + 4)) with true
    by (symmetry; apply Z.eqb_eq; lia).
  cbn [Z.eqb Pos.eqb negb orb]. rewrite !Z.eqb_refl, Hnil. by destruct m.
Qed.

Lemma inspect_sound h m :
  inspect_multiplexed_log_record_header_v1 h = Ok m ->
  header_valid m /\ exists c, in_width 32 c /\ h = log_header m c.
Proof.
  unfold inspect_multiplexed_log_record_header_v1. intros H.
  destruct (negb (blen h =? kMultiplexedLogHeaderSize)) eqn:Hl; [done|]. bool_prop.
  unfold kMultiplexedLogHeaderSize in Hl.
  destruct (read_u32_four (subspan h 52 4)) as (stored & r0 & E0 & Hst & Hsw);
    [rewrite length_subspan by lia; done|].
  rewrite E0 in H. destruct (negb (crc32c _ =? stored)) eqn:Hcrc; [done|]. bool_prop.
  pose proof (stands_new h) as S. set (reader := ByteReader_new h) in *. clearbody reader.
  assert (Hlen : 64 <= blen h) by lia. read_unfold. do 11 read_have H Hlen.
  destruct rest; [|rewrite !length_app, !length_le_bytes in Hl; cbn [length] in Hl; lia].
  clear E0 H12 Hlen. rewrite app_nil_r in *.
  guard_inv H. reserved_inv. injection H as <-. subst a a0 a2.
  unfold kMultiplexedLogHeaderSize, kMultiplexedLogTrailerSize in *.
  match goal with |- header_valid ?x /\ _ => set (m := x) end.
  assert (Hg : length (mh_group_id m) = 16%nat) by (cbn; lia).
  assert (Hv : header_valid m).
  { unfold header_valid. cbn. unfold kMultiplexedLogFormatMinor in *. split_and!; try done; try lia; width_lia. }
  split; [done|]. exists a7. split; [done|].
  assert (Hw : forall l, l = log_header_with m a7 (le_bytes 4 a8) ->
    crc32c (copy_at l 52 (replicate 4 x00)) = stored -> subspan l 52 4 = le_bytes 4 stored ->
    l = log_header m a7).
  { intros l -> H1' H2'. rewrite log_header_stored in H2' by (done || by rewrite length_le_bytes).
    rewrite log_header_zeroed in H1' by (done || by rewrite length_le_bytes).
    unfold log_header. by rewrite H1', <- H2'. }
  apply Hw; [|done|done]. unfold log_header_with, log_header_prefix, log_header_identity. by rewrite <- !app_assoc.
Qed.

(** * Records *)

Definition record_header (minor : Z) (p : GroupPersistentState) : MultiplexedLogRecordHeader :=
  {| mh_encoded_size := 68 + state_size minor (gp_state p);
     mh_payload_size := state_size minor (gp_state p);
     mh_physical_sequence := gp_physical_sequence p; mh_group_id := gp_group_id p;
     mh_format_minor := minor |}.
Definition record_body (minor : Z) (p : GroupPersistentState) : list byte :=
  log_header (record_header minor p) (crc32c (state_bytes minor (gp_state p)))
  ++ state_bytes minor (gp_state p).
(** The canonical record of a state in a format. *)
Definition record_bytes (minor : Z) (p : GroupPersistentState) : list byte :=
  with_crc (record_body minor p).

Definition record_ok (minor : Z) (p : GroupPersistentState) : Prop :=
  length (gp_group_id p) = 16%nat /\ is_nil (gp_group_id p) = false /\
  in_width 64 (gp_physical_sequence p) /\ gp_physical_sequence p <> 0 /\
  state_typed (gp_state p) /\ format_ok minor (gp_state p) /\
  68 + state_size minor (gp_state p) <= kMaximumMultiplexedLogRecordSize.

Lemma state_size_minimum minor s :
  (if minor =? 0 then kStateFixedSizeV1_0 else kStateFixedSizeV1_1) <= state_size minor s.
Proof.
  unfold state_size, kStateFixedSizeV1_0, kStateFixedSizeV1_1, kRaftPersistentStateFixedSizeV1.
  pose proof (log_bytes_nonneg (log s)). destruct (minor =? 0); lia.
Qed.
Lemma format_minor_range minor s : format_ok minor s -> 0 <= minor <= 1.
Proof. intros [[-> _]|[-> _]]; lia. Qed.

Lemma record_state_length minor p :
  record_ok minor p -> blen (state_bytes minor (gp_state p)) = state_size minor (gp_state p).
Proof.
  intros (_ & _ & _ & _ & (_ & _ & _ & _ & _ & (_ & _ & _ & Hc & _) & _) & _).
  by apply length_state_bytes.
Qed.
Lemma record_header_valid minor p : record_ok minor p -> header_valid (record_header minor p).
Proof.
  intros (Hg & Hn & Hs & Hs0 & _ & Hf & Hm). pose proof (state_size_minimum minor (gp_state p)) as H.
  apply format_minor_range in Hf. unfold header_valid. cbn.
  unfold kStateFixedSizeV1_0, kStateFixedSizeV1_1, kRaftPersistentStateFixedSizeV1 in H.
  split_and!; try done; try lia; destruct (minor =? 0); lia.
Qed.
Lemma length_log_record_body minor p :
  record_ok minor p -> blen (record_body minor p) = 64 + state_size minor (gp_state p).
Proof.
  intros Hok. pose proof (record_state_length _ _ Hok). unfold record_body.
  rewrite length_app, length_log_header by apply Hok. lia.
Qed.
Lemma length_log_record_bytes minor p :
  record_ok minor p -> blen (record_bytes minor p) = 68 + state_size minor (gp_state p).
Proof.
  intros Hok. pose proof (length_log_record_body _ _ Hok). unfold record_bytes. rewrite length_seal. lia.
Qed.

Lemma first_record_bytes minor p :
  record_ok minor p ->
  first (record_bytes minor p) 64 =
    log_header (record_header minor p) (crc32c (state_bytes minor (gp_state p))).
Proof.
  intros Hok. unfold record_bytes, with_crc, record_body. rewrite <- app_assoc.
  apply first_app. by rewrite length_log_header by apply Hok.
Qed.
Lemma inspect_record minor p :
  record_ok minor p ->
  inspect_multiplexed_log_record_header_v1 (first (record_bytes minor p) 64) =
    Ok (record_header minor p).
Proof.
  intros Hok. rewrite first_record_bytes by done.
  apply inspect_complete; [by apply record_header_valid|apply crc32c_range].
Qed.

(** The payload checksum of the header. *)
Lemma log_header_payload_crc m c rest :
  length (mh_group_id m) = 16%nat -> subspan (log_header m c ++ rest) 48 4 = le_bytes 4 c.
Proof.
  intros Hg. unfold log_header, log_header_with, log_header_prefix. rewrite <- !app_assoc.
  apply subspan_app_l; [|by rewrite length_le_bytes].
  unfold log_header_identity. rewrite !length_app, !length_le_bytes, Hg. done.
Qed.

Lemma decode_log_record_complete minor p :
  record_ok minor p ->
  decode_multiplexed_log_record_v1 (record_bytes minor p) =
    Ok {| decoded_persistent := p; decoded_encoded_size := blen (record_bytes minor p) |}.
Proof.
  intros Hok. pose proof (length_log_record_bytes _ _ Hok) as Hl.
  pose proof (length_log_record_body _ _ Hok) as Hb. pose proof (record_state_length _ _ Hok) as Hp.
  pose proof (state_size_minimum minor (gp_state p)) as Hmin.
  pose proof (inspect_record minor p Hok) as Hi.
  unfold decode_multiplexed_log_record_v1, kMultiplexedLogHeaderSize, kMultiplexedLogTrailerSize.
  replace (blen (record_bytes minor p) <? 64 + 4) with false.
  2: { symmetry. apply Z.ltb_ge. rewrite Hl.
       unfold kStateFixedSizeV1_0, kStateFixedSizeV1_1, kRaftPersistentStateFixedSizeV1 in Hmin.
       destruct (minor =? 0); lia. }
  rewrite Hi. cbn [rbind record_header mh_encoded_size mh_payload_size mh_format_minor
    mh_group_id mh_physical_sequence]. rewrite Hl, Z.eqb_refl. cbn [negb].
  assert (Hsplit : record_bytes minor p =
    log_header (record_header minor p) (crc32c (state_bytes minor (gp_state p)))
    ++ state_bytes minor (gp_state p) ++ le_bytes 4 (crc32c (record_body minor p)))
    by (unfold record_bytes, with_crc, record_body; by rewrite <- !app_assoc).
  assert (Hgl : length (gp_group_id p) = 16%nat) by apply Hok.
  assert (Hpay : subspan (record_bytes minor p) 64 (state_size minor (gp_state p))
                 = state_bytes minor (gp_state p)).
  { rewrite Hsplit. apply subspan_app_l; [by rewrite length_log_header|done]. }
  rewrite Hpay. rewrite Hsplit at 1. rewrite log_header_payload_crc by done.
  destruct (read_u32_word (crc32c (state_bytes minor (gp_state p)))) as (r & ->); [apply crc32c_range|].
  rewrite Hp, (proj2 (Z.ltb_ge _ _) Hmin), Z.eqb_refl. cbn [negb].
  assert (Htr : subspan (record_bytes minor p) (68 + state_size minor (gp_state p) - 4) 4
                = le_bytes 4 (crc32c (record_body minor p))).
  { unfold record_bytes, with_crc.
    rewrite <- (app_nil_r (le_bytes 4 (crc32c (record_body minor p)))) at 1.
    apply subspan_app_l; [lia|by rewrite length_le_bytes]. }
  rewrite Htr.
  destruct (read_u32_word (crc32c (record_body minor p))) as (r' & ->); [apply crc32c_range|].
  assert (Hf : first (record_bytes minor p) (68 + state_size minor (gp_state p) - 4) = record_body minor p)
    by (unfold record_bytes, with_crc; apply first_app; lia).
  rewrite Hf, Z.eqb_refl. cbn [negb].
  rewrite decode_state_run by apply Hok. cbn [rbind]. by destruct p.
Qed.

Lemma decode_log_record_sound bytes d :
  decode_multiplexed_log_record_v1 bytes = Ok d ->
  exists minor, record_ok minor (decoded_persistent d) /\
    bytes = record_bytes minor (decoded_persistent d) /\ decoded_encoded_size d = blen bytes.
Proof.
  unfold decode_multiplexed_log_record_v1. intros H.
  destruct (blen bytes <? _) eqn:Hl; [done|]. bool_prop.
  unfold kMultiplexedLogHeaderSize, kMultiplexedLogTrailerSize in *.
  apply rbind_Ok in H as (m & Hi & H). apply inspect_sound in Hi as (Hv & c & Hc & Hh).
  destruct (negb (_ =? blen bytes)) eqn:Hn; [done|]. bool_prop.
  pose proof Hv as (Hmi & Hg & Hnil & Hs & Hs0 & Ht & Hp).
  assert (Hcut : bytes = log_header m c ++ drop 64 bytes)
    by (rewrite <- Hh; symmetry; apply (take_drop 64)).
  rewrite Hcut in H at 1. rewrite log_header_payload_crc in H by done.
  destruct (read_u32_word c Hc) as (r & Er). rewrite Er in H.
  set (payload := subspan bytes 64 (mh_payload_size m)) in *.
  assert (Hpl : blen payload = mh_payload_size m) by (unfold payload; rewrite length_subspan; lia).
  destruct (read_u32_four (subspan bytes (blen bytes - 4) 4)) as (rc & r' & Erc & Hrc & _);
    [rewrite length_subspan by lia; done|].
  rewrite Erc in H. guard_inv H. apply rbind_Ok in H as (s & Hd & [= <-]).
  apply decode_state_inv in Hd as (Hpay & Hty & Hfmt); [|done|].
  2: { unfold kStateFixedSizeV1_0, kStateFixedSizeV1_1, kRaftPersistentStateFixedSizeV1 in *.
       destruct (_ =? 0); lia. }
  assert (Hsz : mh_payload_size m = state_size (mh_format_minor m) s).
  { rewrite <- Hpl, Hpay. apply length_state_bytes. apply Hty. }
  set (p := {| gp_group_id := mh_group_id m |}). exists (mh_format_minor m).
  assert (Hm : m = record_header (mh_format_minor m) p).
  { destruct m. unfold record_header. cbn in *. f_equal; lia. }
  assert (Hok : record_ok (mh_format_minor m) p)
    by (unfold record_ok; cbn; split_and!; try done; lia).
  split_and!; [done| |done]. cbn [decoded_persistent].
  assert (Hbody : first bytes (blen bytes - 4) = record_body (mh_format_minor m) p).
  { unfold record_body. rewrite <- Hm. cbn [gp_state p]. rewrite <- Hpay, G0, <- Hh.
    change (first bytes 64) with (subspan bytes 0 64).
    change (first bytes (blen bytes - 4)) with (subspan bytes 0 (blen bytes - 4)).
    replace (blen bytes - 4) with (64 + mh_payload_size m) by lia.
    apply (subspan_split bytes 0 64); lia. }
  unfold record_bytes, with_crc. rewrite <- Hbody, G1, <- Hrc.
  symmetry. etransitivity; [|apply (subspan_all bytes (blen bytes - 4 + 4)); lia].
  symmetry. apply (subspan_split bytes 0 (blen bytes - 4) 4); lia.
Qed.

(** ** The encoder *)

Lemma write_part_fields a b c off size fs :
  off = blen a -> size = blen b -> blen (fields_bytes fs) = blen b ->
  write_part (a ++ b ++ c) off size (write_fields fs) = Ok (a ++ fields_bytes fs ++ c).
Proof.
  intros -> -> Hl. unfold write_part. rewrite subspan_app_l by done.
  rewrite write_fields_fit.
  - unfold writer_put, ByteWriter_new. cbv beta iota. cbn [writer_bytes writer_offset].
    assert (Hc : copy_at b 0 (fields_bytes fs) = fields_bytes fs)
      by (unfold copy_at; cbn [Z.to_nat take app]; rewrite drop_ge by lia; apply app_nil_r).
    rewrite Hc. unfold writer_full, writer_remaining. cbn [writer_bytes writer_offset is_ok].
    rewrite Z.add_0_l, Z.sub_diag. cbn [negb orb Z.eqb]. change (is_ok kOk) with true. cbn [negb orb].
    f_equal. by apply copy_at_middle; [|lia].
  - unfold writer_ok. cbn. lia.
  - unfold writer_remaining. cbn. lia.
Qed.

Lemma write_part_front b c size fs :
  size = blen b -> blen (fields_bytes fs) = blen b ->
  write_part (b ++ c) 0 size (write_fields fs) = Ok (fields_bytes fs ++ c).
Proof. intros. by apply (write_part_fields [] b c). Qed.

Lemma payload_size_exact s :
  blen (snapshot_voters (snapshot s)) <= kMaximumMembershipVoters -> state_size 1 s < 2 ^ 64 ->
  payload_size s = Ok (state_size 1 s).
Proof.
  intros Hv H. unfold payload_size, raft_persistent_state_payload_size, checked_multiply, state_size,
    kRaftPersistentStateFixedSizeV1, kMaximumMembershipVoters in *. cbn [Z.eqb] in H |- *.
  set (count := blen (snapshot_voters (snapshot s))) in *. pose proof (log_bytes_nonneg (log s)).
  assert (Hq : negb (count =? 0) && (8 >? max_u64 / count) = false).
  { destruct (Z.eqb_spec count 0); [done|]. cbn [negb andb]. rewrite Z.gtb_ltb. apply Z.ltb_ge.
    apply Z.div_le_lower_bound; lia. }
  rewrite Hq, (wrap_small 64), checked_add_spec by width_lia.
  destruct (Z.ltb_spec (112 + count * 8) (2 ^ 64)); [|width_lia].
  rewrite payload_size_loop_exact by lia. f_equal. lia.
Qed.

Lemma record_header_bytes p :
  record_ok 1 p ->
  fields_bytes (record_header_fields p (68 + state_size 1 (gp_state p)) (state_size 1 (gp_state p))
                  (crc32c (state_bytes 1 (gp_state p)))) =
  log_header_with (record_header 1 p) (crc32c (state_bytes 1 (gp_state p))) (replicate 4 x00).
Proof.
  intros Hok. pose proof (record_header_valid _ _ Hok) as (_ & _ & _ & _ & _ & Ht & _).
  cbn in Ht. unfold kMaximumMultiplexedLogRecordSize in Ht.
  unfold record_header_fields, log_header_with, log_header_prefix, log_header_identity.
  rewrite !(wrap_small 32) by (unfold kMultiplexedLogHeaderSize; width_lia).
  fields_normal. done.
Qed.

Lemma encode_record_exact p :
  record_ok 1 p -> encode_multiplexed_log_record_v1 p = Ok (record_bytes 1 p).
Proof.
  intros Hok. pose proof Hok as (Hg & Hnil & Hs & Hs0 & Hty & Hf & Hm).
  pose proof (record_state_length _ _ Hok) as Hp. set (s := gp_state p) in *.
  assert (Hv : blen (snapshot_voters (snapshot s)) <= kMaximumMembershipVoters)
    by (destruct Hf as [[_ ?]|[? _]]; [done|lia]).
  assert (Hll : in_width 32 (blen (log s))) by apply Hty.
  unfold encode_multiplexed_log_record_v1. fold s. rewrite Hnil, (proj2 (Z.eqb_neq _ _) Hs0).
  rewrite !gtb_false by (done || width_lia). cbn [orb].
  unfold kMaximumMultiplexedLogRecordSize in *.
  pose proof (state_size_minimum 1 s) as Hmin. cbn in Hmin.
  unfold kStateFixedSizeV1_1, kRaftPersistentStateFixedSizeV1 in Hmin.
  rewrite payload_size_exact by (done || width_lia). cbn [rbind].
  rewrite gtb_false by lia. unfold kMultiplexedLogHeaderSize, kMultiplexedLogTrailerSize.
  rewrite checked_add_spec by width_lia. rewrite (proj2 (Z.ltb_lt _ _)) by width_lia.
  rewrite checked_add_spec by width_lia. rewrite (proj2 (Z.ltb_lt _ _)) by width_lia.
  rewrite !gtb_false by lia. cbn [orb].
  set (n := state_size 1 s) in *. set (payload := state_bytes 1 s) in *.
  set (h0 := log_header_with (record_header 1 p) (crc32c payload) (replicate 4 x00)).
  assert (Hh0 : length h0 = 64%nat) by (by apply length_log_header_with).
  replace (Z.to_nat (64 + n + 4)) with (64 + (length payload + 4))%nat by lia.
  replace (64 + n + 4) with (68 + n) by lia.
  rewrite !replicate_add. unfold write_state.
  rewrite (write_part_fields (replicate 64 x00) (replicate (length payload) x00))
    by (rewrite ?length_replicate, ?state_fields_format by done; fold payload; done || lia).
  rewrite state_fields_format by done. fold payload. cbn [rbind].
  rewrite subspan_app_l by (rewrite ?length_replicate; done || lia).
  assert (Hhf : fields_bytes (record_header_fields p (68 + n) n (crc32c payload)) = h0)
    by (by apply record_header_bytes).
  rewrite write_part_front by (rewrite ?Hhf, ?Hh0; done). rewrite Hhf. cbn [rbind].
  assert (Hf0 : subspan (h0 ++ payload ++ replicate 4 x00) 0 64 = h0)
    by (apply first_app; rewrite Hh0; done).
  rewrite Hf0. unfold h0 at 1, log_header_with at 1. rewrite <- !app_assoc.
  rewrite (write_part_fields (log_header_prefix (record_header 1 p) (crc32c payload)) (replicate 4 x00))
    by (rewrite ?length_log_header_prefix, ?length_replicate by done; done).
  cbn [rbind]. change (fields_bytes [FU32 (crc32c h0)]) with (le_bytes 4 (crc32c h0) ++ []).
  rewrite app_nil_r.
  assert (Hh : log_header_prefix (record_header 1 p) (crc32c payload) ++ le_bytes 4 (crc32c h0)
      ++ replicate 8 x00 ++ payload ++ replicate 4 x00 = record_body 1 p ++ replicate 4 x00).
  { unfold record_body, log_header, log_header_with. by rewrite <- !app_assoc. }
  rewrite Hh. pose proof (length_log_record_body _ _ Hok) as Hb. fold s n in Hb.
  assert (Hfb : subspan (record_body 1 p ++ replicate 4 x00) 0 (64 + n) = record_body 1 p)
    by (apply first_app; lia).
  rewrite Hfb, <- (app_nil_r (replicate 4 x00)).
  rewrite write_part_fields by (rewrite ?length_replicate; done || lia).
  unfold record_bytes, with_crc. by rewrite app_nil_r.
Qed.

Lemma payload_size_Ok s n :
  blen (snapshot_voters (snapshot s)) <= kMaximumMembershipVoters ->
  payload_size s = Ok n -> n = state_size 1 s.
Proof.
  intros Hv H. unfold payload_size, raft_persistent_state_payload_size, checked_multiply,
    kRaftPersistentStateFixedSizeV1, kMaximumMembershipVoters in *.
  set (count := blen (snapshot_voters (snapshot s))) in *.
  assert (Hq : negb (count =? 0) && (8 >? max_u64 / count) = false).
  { destruct (Z.eqb_spec count 0); [done|]. cbn [negb andb]. rewrite Z.gtb_ltb. apply Z.ltb_ge.
    apply Z.div_le_lower_bound; lia. }
  rewrite Hq, (wrap_small 64), checked_add_spec in H by width_lia.
  destruct (Z.ltb_spec (112 + count * 8) (2 ^ 64)); [|width_lia].
  apply payload_size_loop_Ok in H; [|lia]. unfold state_size. cbn [Z.eqb]. fold count. lia.
Qed.

(** A record the encoder returns is the canonical one. *)
Lemma encode_record_inv p bytes :
  length (gp_group_id p) = 16%nat -> in_width 64 (gp_physical_sequence p) ->
  state_typed (gp_state p) -> encode_multiplexed_log_record_v1 p = Ok bytes ->
  record_ok 1 p /\ bytes = record_bytes 1 p.
Proof.
  intros Hg Hs Hty H.
  assert (Hok : record_ok 1 p).
  2: { rewrite encode_record_exact in H by done. by injection H as <-. }
  unfold encode_multiplexed_log_record_v1 in H.
  destruct (_ || _ || _ || _) eqn:G; [done|]. rewrite !Z.gtb_ltb in G. bool_prop.
  apply rbind_Ok in H as (n & Hn & H). apply payload_size_Ok in Hn as ->; [|done].
  unfold kMultiplexedLogHeaderSize, kMultiplexedLogTrailerSize in H.
  destruct (Z.gtb_spec (state_size 1 (gp_state p)) max_u32); [done|].
  pose proof (state_size_minimum 1 (gp_state p)) as Hmin. cbn in Hmin.
  unfold kStateFixedSizeV1_1, kRaftPersistentStateFixedSizeV1 in Hmin.
  rewrite checked_add_spec in H by width_lia. rewrite (proj2 (Z.ltb_lt _ _)) in H by width_lia.
  rewrite checked_add_spec in H by width_lia. rewrite (proj2 (Z.ltb_lt _ _)) in H by width_lia.
  destruct (Z.gtb_spec (64 + state_size 1 (gp_state p) + 4) kMaximumMultiplexedLogRecordSize); [done|].
  unfold record_ok. split_and!; try done; [by left|lia].
Qed.

(** The encoder fails with an error. *)
Lemma rbind_not_ok {A B} (r : result A) (k : A -> result B) s :
  (forall a s', k a = Err s' -> s' <> kOk) -> rbind r k = Err s -> s <> kOk.
Proof.
  intros Hk. destruct r as [a|s0]; cbn; [apply Hk|].
  destruct (@make_unexpected_not_ok B s0) as (s' & -> & Hs). by intros [= <-].
Qed.
Lemma write_part_not_ok encoded offset size calls s :
  write_part encoded offset size calls = Err s -> s <> kOk.
Proof.
  unfold write_part. destruct (calls _) as [status writer]. destruct (is_ok status) eqn:E; cbn [negb orb].
  - destruct (negb _); [|done]. by intros [= <-].
  - intros [= <-]. by apply bool_decide_eq_false in E.
Qed.
Lemma encode_record_error p s : encode_multiplexed_log_record_v1 p = Err s -> s <> kOk.
Proof.
  unfold encode_multiplexed_log_record_v1. destruct (_ || _); [by intros [= <-]|].
  apply rbind_not_ok. intros n s'. destruct (n >? max_u32); [by intros [= <-]|].
  destruct (checked_add kMultiplexedLogHeaderSize n) as [total|]; [|by intros [= <-]].
  destruct (checked_add total kMultiplexedLogTrailerSize) as [total'|]; [|by intros [= <-]].
  destruct (_ || _); [by intros [= <-]|].
  do 3 (apply rbind_not_ok; intros ? ?). apply write_part_not_ok.
Qed.
