(* ===== verification/RaftLogFiles.v ===== *)
(** The files of the node-level persistent log of Raft states: the data of
    include/chronos/raft/persistent_log.hpp and the file names, segment headers,
    recovery anchors and file installation of src/raft/persistent_log.cpp, over the
    file interface of PosixIo.  A log is a run of segment files of multiplexed
    records; a recovery anchor names the segment recovery starts from after a
    checkpoint has been written and older segments are reclaimed. *)
From stdpp Require Import sorting.
From S2P Require Import Prelude Bytes Crc32c Reading RaftTypes RaftMembership RaftLogCodec OrderedMap.
From S2P Require Import PosixIo WalPaths.
#[local] Open Scope Z_scope.

(** * persistent_log.hpp *)

Definition kRaftSegmentHeaderSize : Z := 64.
Definition kDefaultRaftSegmentTargetSize : Z := 64 * 1024 * 1024.
Definition kMaximumRaftSegmentSize : Z := 1024 * 1024 * 1024.

Record RaftPersistentLogConfig := {
  rc_directory_path : list byte; rc_file_permissions : Z; rc_target_segment_size : Z;
  rc_maximum_segments : Z; rc_maximum_records : Z; rc_maximum_groups : Z }.

Record RaftPhysicalPosition := {
  rp_segment_number : Z; rp_end_offset : Z; rp_physical_sequence : Z }.
Record RaftPersistentLogRecovery := {
  latest_group_states : list GroupPersistentState; rr_written_position : RaftPhysicalPosition;
  durable_physical_sequence : Z; segment_count : Z; record_count : Z; repaired_bytes : Z;
  base_segment_number : Z }.
Record RaftPersistentLogReclamation := {
  rl_base_segment_number : Z; checkpoint_first_physical_sequence : Z;
  checkpoint_last_physical_sequence : Z; reclaimed_segments : Z; reclaimed_records : Z }.

(** * persistent_log.cpp *)

Definition kSegmentMagic : list byte := [x43; x48; x52; x4e; x52; x53; x47; x00].
Definition kRecoveryAnchorMagic : list byte := [x43; x48; x52; x4e; x52; x42; x41; x00].
Definition kSegmentMajor : Z := 1.
Definition kSegmentMinor : Z := 0.
Definition kRecoveryAnchorMajor : Z := 1.
Definition kRecoveryAnchorMinor : Z := 0.
Definition kRecoveryAnchorSize : Z := 64.
Definition kLockName : FileName := chars "LOCK".
Definition kSegmentPrefix : FileName := chars "raft-".
Definition kSegmentSuffix : FileName := chars ".rlog".
Definition kTemporarySuffix : FileName := chars ".tmp".
Definition kRecoveryAnchorPrefix : FileName := chars "raft-base-".
Definition kRecoveryAnchorSuffix : FileName := chars ".rbase".
Definition kRecoveryAnchorTemporarySuffix : FileName := chars ".rbase.tmp".
Definition kSegmentDigits : nat := 20.
Definition kMinimumTargetSize : Z :=
  kRaftSegmentHeaderSize + kMultiplexedLogHeaderSize + kMultiplexedLogTrailerSize + 96.

Definition validate_config (config : RaftPersistentLogConfig) : StatusCode :=
  if bool_decide (rc_directory_path config = [])
     || negb (Z.land (rc_file_permissions config) (Z.lnot 511) =? 0)
     || (rc_target_segment_size config <? kMinimumTargetSize)
     || (rc_target_segment_size config >? kMaximumRaftSegmentSize)
     || (rc_maximum_segments config =? 0) || (rc_maximum_records config =? 0)
     || (rc_maximum_groups config =? 0)
  then kInvalidArgument else kOk.

(** [std::to_chars] of an unsigned 64-bit number: its decimal digits, at most
    twenty, without leading zeros. *)
Fixpoint to_chars_loop (fuel : nat) (number : Z) (encoded : FileName) : FileName :=
  match fuel with
  | O => encoded
  | S fuel =>
      let encoded := byte_of_Z (48 + number mod 10) :: encoded in
      if number / 10 =? 0 then encoded else to_chars_loop fuel (number / 10) encoded
  end.
Definition to_chars (number : Z) : FileName := to_chars_loop 20 number [].
(** The digits right-aligned in twenty zeros. *)
Definition padded_digits (number : Z) : FileName :=
  let encoded := to_chars number in replicate (kSegmentDigits - length encoded) x30 ++ encoded.

Definition segment_name (number : Z) (suffix : FileName) : FileName :=
  kSegmentPrefix ++ padded_digits number ++ suffix.
Definition recovery_anchor_name (number : Z) (suffix : FileName) : FileName :=
  kRecoveryAnchorPrefix ++ padded_digits number ++ suffix.

(** A name of the form prefix, twenty digits, suffix.  [std::from_chars] over all
    the digits returns the value when each is a digit and it does not overflow. *)
Definition parse_numbered_name (name prefix suffix : FileName) : result Z :=
  fail_if negb (Nat.eqb (length name) (length prefix + kSegmentDigits + length suffix))
          || negb (starts_with name prefix) || negb (ends_with name suffix) with kInvalidArgument;
  match digits_value (substr name (length prefix) kSegmentDigits) 0 with
  | None => Err kInvalidArgument
  | Some number => fail_if number =? 0 with kInvalidArgument; Ok number
  end.
Definition parse_segment_name (name : FileName) : result Z :=
  parse_numbered_name name kSegmentPrefix kSegmentSuffix.
Definition parse_recovery_anchor_name (name suffix : FileName) : result Z :=
  parse_numbered_name name kRecoveryAnchorPrefix suffix.

Definition is_temporary_name (name : FileName) : bool :=
  if negb (Nat.eqb (length name) (length kSegmentPrefix + kSegmentDigits + length kTemporarySuffix))
     || negb (starts_with name kSegmentPrefix) || negb (ends_with name kTemporarySuffix)
  then false
  else forallb is_digit (substr name (length kSegmentPrefix) kSegmentDigits).
Definition is_recovery_anchor_temporary_name (name : FileName) : bool :=
  match parse_recovery_anchor_name name kRecoveryAnchorTemporarySuffix with
  | Ok _ => true
  | Err _ => false
  end.

(** ** Recovery anchors *)

Record RecoveryAnchor := {
  ra_base_segment_number : Z; ra_checkpoint_first_sequence : Z; ra_checkpoint_last_sequence : Z;
  ra_checkpoint_group_count : Z }.

Definition anchor_fields (anchor : RecoveryAnchor) : list Field :=
  [FBytes kRecoveryAnchorMagic; FU16 kRecoveryAnchorMajor; FU16 kRecoveryAnchorMinor;
   FU32 kRecoveryAnchorSize; FU64 (ra_base_segment_number anchor);
   FU64 (ra_checkpoint_first_sequence anchor); FU64 (ra_checkpoint_last_sequence anchor);
   FU64 (ra_checkpoint_group_count anchor); FU32 0; zero_field 12].
(** Writing the fields over the whole of an array of zeros, then the checksum of
    the array at an offset. *)
Definition write_sealed (size : Z) (fields : list Field) (crc_offset : Z) : result (list byte) :=
  let? bytes := write_part (replicate (Z.to_nat size) x00) 0 size (write_fields fields) in
  write_part bytes crc_offset 4 (write_fields [FU32 (crc32c bytes)]).

Definition encode_recovery_anchor (anchor : RecoveryAnchor) : result (list byte) :=
  fail_if (ra_base_segment_number anchor =? 0) || (ra_checkpoint_first_sequence anchor =? 0)
          || (ra_checkpoint_last_sequence anchor <? ra_checkpoint_first_sequence anchor)
          || (ra_checkpoint_group_count anchor =? 0)
          || negb (u64 (ra_checkpoint_last_sequence anchor - ra_checkpoint_first_sequence anchor + 1)
                   =? ra_checkpoint_group_count anchor) with kInvalidArgument;
  write_sealed kRecoveryAnchorSize (anchor_fields anchor) 48.

(** The checksum test of the two headers: the stored word against the bytes with
    the word set to zero. *)
Definition sealed_matches (encoded : list byte) (crc_offset : Z) : bool :=
  let '(stored, _) := read_u32_le (ByteReader_new (subspan encoded crc_offset 4)) in
  match stored with
  | Ok stored => crc32c (copy_at encoded crc_offset (replicate 4 x00)) =? stored
  | Err _ => false
  end.

Definition decode_recovery_anchor (encoded : list byte) (expected_number : Z)
  : result RecoveryAnchor :=
  fail_if negb (blen encoded =? kRecoveryAnchorSize) with kCorruption;
  fail_if negb (sealed_matches encoded 48) with kCorruption;
  let reader := ByteReader_new encoded in
  let '(magic, reader) := read_exact 8 reader in
  let '(major, reader) := read_u16_le reader in
  let '(minor, reader) := read_u16_le reader in
  let '(header_size, reader) := read_u32_le reader in
  let '(base_segment, reader) := read_u64_le reader in
  let '(first_sequence, reader) := read_u64_le reader in
  let '(last_sequence, reader) := read_u64_le reader in
  let '(group_count, reader) := read_u64_le reader in
  let '(ignored_checksum, reader) := read_u32_le reader in
  let '(reserved, reader) := read_exact 12 reader in
  match magic, major, minor, header_size, base_segment, first_sequence, last_sequence,
        group_count, reserved with
  | Ok magic, Ok major, Ok minor, Ok header_size, Ok base_segment, Ok first_sequence,
    Ok last_sequence, Ok group_count, Ok reserved =>
      fail_if negb (bool_decide (magic = kRecoveryAnchorMagic)) with kCorruption;
      fail_if negb (major =? kRecoveryAnchorMajor) || (minor >? kRecoveryAnchorMinor)
        with kNotSupported;
      fail_if negb (header_size =? kRecoveryAnchorSize) || negb (base_segment =? expected_number)
              || (first_sequence =? 0) || (last_sequence <? first_sequence) || (group_count =? 0)
              || negb (u64 (last_sequence - first_sequence + 1) =? group_count)
              || existsb (fun value => bool_decide (value <> x00)) reserved with kCorruption;
      Ok {| ra_base_segment_number := base_segment; ra_checkpoint_first_sequence := first_sequence;
            ra_checkpoint_last_sequence := last_sequence;
            ra_checkpoint_group_count := group_count |}
  | _, _, _, _, _, _, _, _, _ => Err kCorruption
  end.

(** ** Segment headers *)

Record RaftSegmentHeader := { rs_number : Z; rs_first_sequence : Z }.

Definition segment_header_fields (segment_number first_sequence : Z) : list Field :=
  [FBytes kSegmentMagic; FU16 kSegmentMajor; FU16 kSegmentMinor; FU32 kRaftSegmentHeaderSize;
   FU64 segment_number; FU64 first_sequence; FU32 0; zero_field 28].
Definition encode_segment_header (segment_number first_sequence : Z) : result (list byte) :=
  fail_if (segment_number =? 0) || (first_sequence =? 0) with kInvalidArgument;
  write_sealed kRaftSegmentHeaderSize (segment_header_fields segment_number first_sequence) 32.

Definition decode_segment_header (encoded : list byte) (expected_number : Z)
  : result RaftSegmentHeader :=
  fail_if negb (blen encoded =? kRaftSegmentHeaderSize) with kCorruption;
  fail_if negb (sealed_matches encoded 32) with kCorruption;
  let reader := ByteReader_new encoded in
  let '(magic, reader) := read_exact 8 reader in
  let '(major, reader) := read_u16_le reader in
  let '(minor, reader) := read_u16_le reader in
  let '(header_size, reader) := read_u32_le reader in
  let '(number, reader) := read_u64_le reader in
  let '(first_sequence, reader) := read_u64_le reader in
  let '(ignored_checksum, reader) := read_u32_le reader in
  let '(reserved, reader) := read_exact 28 reader in
  match magic, major, minor, header_size, number, first_sequence, reserved with
  | Ok magic, Ok major, Ok minor, Ok header_size, Ok number, Ok first_sequence, Ok reserved =>
      fail_if negb (bool_decide (magic = kSegmentMagic)) with kCorruption;
      fail_if negb (major =? kSegmentMajor) || (minor >? kSegmentMinor) with kNotSupported;
      fail_if negb (header_size =? kRaftSegmentHeaderSize) || negb (number =? expected_number)
              || (first_sequence =? 0)
              || existsb (fun value => bool_decide (value <> x00)) reserved with kCorruption;
      Ok {| rs_number := number; rs_first_sequence := first_sequence |}
  | _, _, _, _, _, _, _ => Err kCorruption
  end.

(** ** Files *)

Section files.
Context {W : Type} `{PosixIo W}.

(** [read_exact] of this file: a short read is corruption. *)
Definition read_file_exact (file : PosixFile) (offset size : Z) : IO W (list byte) :=
  let* bytes := read_at file offset size in
  stop_if negb (blen bytes =? size) with kCorruption;
  io_ret bytes.

Definition install_segment (config : RaftPersistentLogConfig) (segment_number first_sequence : Z)
  : IO W PosixFile :=
  let* header := io_pure (encode_segment_header segment_number first_sequence) in
  let temporary := segment_name segment_number kTemporarySuffix in
  let final := segment_name segment_number kSegmentSuffix in
  let* file := create_exclusive_regular_file temporary (rc_file_permissions config) in
  do* write_all_at file 0 header;
  do* sync_all file;
  do* rename_no_replace temporary final;
  do* directory_sync;
  io_ret file.

(** Run [c], then close the file whatever [c] returned; the first failure is
    returned. *)
Definition then_close (c : IO W unit) (file : PosixFile) : IO W unit := fun w =>
  let '(status, w) := c w in
  let '(close_status, w) := close_file file w in
  (match status with Ok _ => close_status | Err s => Err s end, w).

Definition install_recovery_anchor (config : RaftPersistentLogConfig) (anchor : RecoveryAnchor)
  : IO W unit :=
  let* encoded := io_pure (encode_recovery_anchor anchor) in
  let temporary := recovery_anchor_name (ra_base_segment_number anchor) kRecoveryAnchorTemporarySuffix in
  let final := recovery_anchor_name (ra_base_segment_number anchor) kRecoveryAnchorSuffix in
  let* file := create_exclusive_regular_file temporary (rc_file_permissions config) in
  then_close (do* write_all_at file 0 encoded;
              do* sync_all file;
              do* rename_no_replace temporary final;
              directory_sync) file.
End files.
