(* ===== verification/RaftLogFileFacts.v ===== *)
(** The files of the persistent Raft log are recognised exactly: names of segments
    and recovery anchors parse back to their numbers and nothing else does, and
    segment headers and anchors are the canonical sealed bytes of their numbers. *)
From S2P Require Import Prelude Bytes Crc32c Reading RaftTypes RaftMembership RaftLogCodec.
From S2P Require Import RaftLogRecord PosixIo DiskFacts WalPaths RaftLogFiles.
#[local] Open Scope Z_scope.

(** * Names *)

Lemma digits_loop_zeros k acc : digits_loop k 0 acc = replicate k x30 ++ acc.
Proof.
  revert acc. induction k as [|k IH]; intros acc; [done|]. cbn [digits_loop].
  change (0 / 10) with 0. rewrite IH. change (byte_of_Z (48 + 0 mod 10)) with x30.
  by rewrite (replicate_S_end k), <- app_assoc.
Qed.
Lemma to_chars_digits k : forall n acc,
  0 <= n < 10 ^ Z.of_nat k ->
  exists z, digits_loop k n acc = replicate z x30 ++ to_chars_loop k n acc.
Proof.
  induction k as [|k IH]; intros n acc Hn; [by exists 0%nat|].
  cbn [digits_loop to_chars_loop]. destruct (Z.eqb_spec (n / 10) 0) as [E|E].
  - exists k. rewrite E. apply digits_loop_zeros.
  - apply IH. rewrite Nat2Z.inj_succ, Z.pow_succ_r in Hn by lia.
    Z.to_euclidean_division_equations; lia.
Qed.
Lemma padded_digits_loop n : 0 <= n <= max_u64 -> padded_digits n = digits_loop 20 n [].
Proof.
  intros Hn. unfold padded_digits, to_chars, kSegmentDigits.
  destruct (to_chars_digits 20 n []) as (z & Hz); [cbn; lia|].
  pose proof (length_digits_loop 20 n) as Hl. rewrite Hz, length_app, length_replicate in Hl.
  rewrite Hz. f_equal. f_equal. lia.
Qed.

(** A name with a prefix, twenty digits and a suffix. *)
Definition numbered_name (prefix : FileName) (n : Z) (suffix : FileName) : FileName :=
  prefix ++ digits_loop 20 n [] ++ suffix.

Lemma numbered_name_digits prefix n suffix :
  substr (numbered_name prefix n suffix) (length prefix) 20 = digits_loop 20 n [].
Proof.
  unfold substr, numbered_name. rewrite drop_app_length.
  rewrite <- (length_digits_loop 20 n) at 1. apply take_app_length.
Qed.
Lemma parse_numbered_name_ok prefix n suffix :
  segment_number_ok n -> parse_numbered_name (numbered_name prefix n suffix) prefix suffix = Ok n.
Proof.
  intros Hn. unfold parse_numbered_name, segment_number_ok in *.
  unfold numbered_name at 1. rewrite !length_app, length_digits_loop.
  rewrite (proj2 (Nat.eqb_eq _ _)) by (unfold kSegmentDigits; lia).
  unfold numbered_name at 1. rewrite starts_with_app.
  unfold numbered_name at 1. rewrite app_assoc, ends_with_app. cbn [negb orb].
  unfold kSegmentDigits. rewrite numbered_name_digits, digits_value_parse.
  rewrite parse_digits_loop by (cbn; lia). by rewrite (proj2 (Z.eqb_neq n 0)) by lia.
Qed.

Lemma numbered_name_split name prefix suffix :
  length name = (length prefix + 20 + length suffix)%nat -> starts_with name prefix = true ->
  ends_with name suffix = true -> name = prefix ++ substr name (length prefix) 20 ++ suffix.
Proof.
  intros Hl Hs He. apply starts_with_split in Hs. unfold ends_with in He.
  apply andb_true_iff in He as [_ He]. apply bool_decide_eq_true in He.
  rewrite Hs at 1. f_equal. rewrite <- (take_drop 20 (drop (length prefix) name)) at 1.
  unfold substr. f_equal. rewrite drop_drop. etransitivity; [|exact He]. f_equal. lia.
Qed.
Lemma parse_numbered_name_sound name prefix suffix n :
  parse_numbered_name name prefix suffix = Ok n ->
  segment_number_ok n /\ name = numbered_name prefix n suffix.
Proof.
  unfold parse_numbered_name, kSegmentDigits. intros H.
  destruct (Nat.eqb_spec (length name) (length prefix + 20 + length suffix)) as [Hl|]; [|done].
  destruct (starts_with name prefix) eqn:Hs; [|done].
  destruct (ends_with name suffix) eqn:He; [|done]. cbn [negb orb] in H.
  rewrite digits_value_parse in H. destruct (parse_digits _ 0) as [v|] eqn:Hv; [|done].
  destruct (Z.eqb_spec v 0); [done|]. injection H as <-.
  apply parse_digits_sound in Hv as [Hr Hd].
  split; [unfold segment_number_ok; lia|]. unfold numbered_name.
  rewrite (numbered_name_split name prefix suffix) at 1 by done. f_equal. f_equal.
  rewrite <- Hd at 1. f_equal. unfold substr. rewrite length_take, length_drop. lia.
Qed.

(** The names of the program are the numbered names. *)
Lemma segment_name_numbered n suffix :
  segment_number_ok n -> segment_name n suffix = numbered_name kSegmentPrefix n suffix.
Proof. intros. unfold segment_name. by rewrite padded_digits_loop by (unfold segment_number_ok in *; lia). Qed.
Lemma recovery_anchor_name_numbered n suffix :
  segment_number_ok n -> recovery_anchor_name n suffix = numbered_name kRecoveryAnchorPrefix n suffix.
Proof. intros. unfold recovery_anchor_name. by rewrite padded_digits_loop by (unfold segment_number_ok in *; lia). Qed.

Lemma parse_log_segment n :
  segment_number_ok n -> parse_segment_name (segment_name n kSegmentSuffix) = Ok n.
Proof. intros. rewrite segment_name_numbered by done. by apply parse_numbered_name_ok. Qed.
Lemma parse_log_segment_sound name n :
  parse_segment_name name = Ok n -> segment_number_ok n /\ name = segment_name n kSegmentSuffix.
Proof.
  intros H. apply parse_numbered_name_sound in H as [Hn ->]. split; [done|].
  by rewrite segment_name_numbered.
Qed.
Lemma parse_log_anchor n suffix :
  segment_number_ok n -> parse_recovery_anchor_name (recovery_anchor_name n suffix) suffix = Ok n.
Proof. intros. rewrite recovery_anchor_name_numbered by done. by apply parse_numbered_name_ok. Qed.
Lemma parse_log_anchor_sound name suffix n :
  parse_recovery_anchor_name name suffix = Ok n ->
  segment_number_ok n /\ name = recovery_anchor_name n suffix.
Proof.
  intros H. apply parse_numbered_name_sound in H as [Hn ->]. split; [done|].
  by rewrite recovery_anchor_name_numbered.
Qed.
Lemma log_segment_inj a b :
  segment_number_ok a -> segment_number_ok b ->
  segment_name a kSegmentSuffix = segment_name b kSegmentSuffix -> a = b.
Proof.
  intros Ha Hb E. pose proof (parse_log_segment a Ha) as H. rewrite E, parse_log_segment in H by done.
  by injection H.
Qed.

(** Names of different kinds are recognised as what they are: the lengths of the
    three kinds of numbered names and of LOCK tell them apart. *)
Lemma length_log_segment_name n suffix :
  segment_number_ok n -> length (segment_name n suffix) = (25 + length suffix)%nat.
Proof.
  intros Hn. rewrite segment_name_numbered by done. unfold numbered_name.
  rewrite !length_app, length_digits_loop. cbn. lia.
Qed.
Lemma length_anchor_name n suffix :
  segment_number_ok n -> length (recovery_anchor_name n suffix) = (30 + length suffix)%nat.
Proof.
  intros Hn. rewrite recovery_anchor_name_numbered by done. unfold numbered_name.
  rewrite !length_app, length_digits_loop. cbn. lia.
Qed.
Lemma parse_numbered_length name prefix suffix :
  length name <> (length prefix + 20 + length suffix)%nat ->
  parse_numbered_name name prefix suffix = Err kInvalidArgument.
Proof.
  intros H. unfold parse_numbered_name, kSegmentDigits.
  by rewrite (proj2 (Nat.eqb_neq _ _) H).
Qed.
Lemma is_temporary_length name : length name <> 29%nat -> is_temporary_name name = false.
Proof.
  intros H. unfold is_temporary_name, kSegmentDigits.
  change (length kSegmentPrefix + 20 + length kTemporarySuffix)%nat with 29%nat.
  by rewrite (proj2 (Nat.eqb_neq _ _) H).
Qed.

(** The kind of a name, as the classification of a directory sees it. *)
Inductive NameKind := NSegment (n : Z) | NAnchor (n : Z) | NTemporary | NUnknown.
Definition name_kind (name : FileName) : NameKind :=
  if is_temporary_name name || is_recovery_anchor_temporary_name name then NTemporary
  else match parse_recovery_anchor_name name kRecoveryAnchorSuffix with
       | Ok n => NAnchor n
       | Err _ => match parse_segment_name name with Ok n => NSegment n | Err _ => NUnknown end
       end.

Lemma name_kind_segment n : segment_number_ok n -> name_kind (segment_name n kSegmentSuffix) = NSegment n.
Proof.
  intros Hn. unfold name_kind, is_recovery_anchor_temporary_name, parse_recovery_anchor_name.
  pose proof (length_log_segment_name n kSegmentSuffix Hn) as Hl.
  rewrite is_temporary_length, !parse_numbered_length by (rewrite Hl; discriminate).
  by rewrite parse_log_segment.
Qed.
Lemma name_kind_anchor n :
  segment_number_ok n -> name_kind (recovery_anchor_name n kRecoveryAnchorSuffix) = NAnchor n.
Proof.
  intros Hn. unfold name_kind, is_recovery_anchor_temporary_name.
  pose proof (length_anchor_name n kRecoveryAnchorSuffix Hn) as Hl.
  rewrite is_temporary_length by (rewrite Hl; discriminate).
  unfold parse_recovery_anchor_name at 1. rewrite parse_numbered_length by (rewrite Hl; discriminate).
  by rewrite parse_log_anchor.
Qed.
Lemma name_kind_temporary n : segment_number_ok n -> name_kind (segment_name n kTemporarySuffix) = NTemporary.
Proof.
  intros Hn. unfold name_kind. replace (is_temporary_name _) with true; [done|]. symmetry.
  unfold is_temporary_name, kSegmentDigits. rewrite length_log_segment_name by done.
  rewrite segment_name_numbered by done.
  rewrite (proj2 (Nat.eqb_eq _ _)) by done. unfold numbered_name at 1. rewrite starts_with_app.
  unfold numbered_name at 1. rewrite app_assoc, ends_with_app. cbn [negb orb].
  rewrite numbered_name_digits. apply forallb_forall. intros c Hc. revert Hc. generalize 20%nat n.
  induction n0 as [|k IH]; intros m Hc; [done|]. rewrite digits_loop_S in Hc.
  apply in_app_or in Hc as [Hc|[<-|[]]]; [by eapply IH|apply is_digit_char].
Qed.
Lemma name_kind_anchor_temporary n :
  segment_number_ok n -> name_kind (recovery_anchor_name n kRecoveryAnchorTemporarySuffix) = NTemporary.
Proof.
  intros Hn. unfold name_kind, is_recovery_anchor_temporary_name.
  by rewrite parse_log_anchor, orb_true_r by done.
Qed.
Lemma name_kind_inv name :
  match name_kind name with
  | NSegment n => segment_number_ok n /\ name = segment_name n kSegmentSuffix
  | NAnchor n => segment_number_ok n /\ name = recovery_anchor_name n kRecoveryAnchorSuffix
  | _ => True
  end.
Proof.
  unfold name_kind. destruct (_ || _); [done|].
  destruct (parse_recovery_anchor_name _ _) eqn:Ha; [by apply parse_log_anchor_sound|].
  destruct (parse_segment_name name) eqn:Hs; [by apply parse_log_segment_sound|done].
Qed.
Lemma name_kind_lock : name_kind kLockName = NUnknown.
Proof. done. Qed.

(** * Sealed bytes *)

(** Bytes with the checksum of themselves, the checksum read as zero, in between. *)
Definition sealed (pre post : list byte) : list byte :=
  pre ++ le_bytes 4 (crc32c (pre ++ replicate 4 x00 ++ post)) ++ post.

Lemma length_sealed pre post : length (sealed pre post) = (length pre + 4 + length post)%nat.
Proof. unfold sealed. rewrite !length_app, length_le_bytes. lia. Qed.

Lemma write_sealed_exact size fields crc_offset pre post :
  fields_bytes fields = pre ++ replicate 4 x00 ++ post -> blen pre = crc_offset ->
  blen (fields_bytes fields) = size -> write_sealed size fields crc_offset = Ok (sealed pre post).
Proof.
  intros Hf Hp Hl. unfold write_sealed.
  rewrite <- (app_nil_r (replicate (Z.to_nat size) x00)).
  rewrite write_part_front by (rewrite length_replicate; lia). rewrite app_nil_r. cbn [rbind].
  rewrite Hf, write_part_fields by (rewrite ?length_replicate; done || lia).
  unfold sealed. fields_normal. done.
Qed.

Lemma sealed_matches_sealed pre post :
  sealed_matches (sealed pre post) (blen pre) = true.
Proof.
  unfold sealed_matches. unfold sealed at 1. rewrite subspan_app_l by (rewrite ?length_le_bytes; done).
  destruct (read_u32_word (crc32c (pre ++ replicate 4 x00 ++ post))) as (r & ->); [apply crc32c_range|].
  unfold sealed. rewrite copy_at_middle by (rewrite ?length_replicate, ?length_le_bytes; done).
  apply Z.eqb_refl.
Qed.
Lemma sealed_matches_inv pre word post :
  length word = 4%nat -> sealed_matches (pre ++ word ++ post) (blen pre) = true ->
  pre ++ word ++ post = sealed pre post.
Proof.
  intros Hw. unfold sealed_matches. rewrite subspan_app_l by (rewrite ?Hw; done).
  destruct (read_u32_four word Hw) as (v & r & -> & -> & Hv).
  rewrite copy_at_middle by (rewrite ?length_replicate, ?length_le_bytes; done).
  intros H. apply Z.eqb_eq in H. unfold sealed. by rewrite H.
Qed.

(** ** Segment headers *)

Definition segment_prefix (n first : Z) : list byte :=
  kSegmentMagic ++ le_bytes 2 kSegmentMajor ++ le_bytes 2 kSegmentMinor
  ++ le_bytes 4 kRaftSegmentHeaderSize ++ le_bytes 8 n ++ le_bytes 8 first.
Definition segment_header_bytes (n first : Z) : list byte :=
  sealed (segment_prefix n first) (replicate 28 x00).

Lemma length_segment_prefix n first : length (segment_prefix n first) = 32%nat.
Proof. unfold segment_prefix. by rewrite !length_app, !length_le_bytes. Qed.
Lemma length_log_segment_header n first : length (segment_header_bytes n first) = 64%nat.
Proof. unfold segment_header_bytes. by rewrite length_sealed, length_segment_prefix, length_replicate. Qed.

Lemma encode_segment_header_exact n first :
  n <> 0 -> first <> 0 -> encode_segment_header n first = Ok (segment_header_bytes n first).
Proof.
  intros Hn Hf. unfold encode_segment_header.
  rewrite (proj2 (Z.eqb_neq _ _) Hn), (proj2 (Z.eqb_neq _ _) Hf). cbn [orb].
  apply write_sealed_exact; [|by rewrite length_segment_prefix|].
  - unfold segment_header_fields, segment_prefix. fields_normal. done.
  - unfold segment_header_fields. fields_normal. rewrite !length_app, !length_le_bytes. done.
Qed.

Definition header_number_ok (n : Z) : Prop := in_width 64 n /\ n <> 0.

Lemma decode_log_header_complete n first :
  header_number_ok n -> header_number_ok first ->
  decode_segment_header (segment_header_bytes n first) n =
    Ok {| rs_number := n; rs_first_sequence := first |}.
Proof.
  intros [Hn Hn0] [Hf Hf0]. unfold decode_segment_header. rewrite length_log_segment_header.
  change (Z.of_nat 64 =? kRaftSegmentHeaderSize) with true. cbn [negb].
  pose proof (sealed_matches_sealed (segment_prefix n first) (replicate 28 x00)) as Hm.
  rewrite length_segment_prefix in Hm. fold (segment_header_bytes n first) in Hm.
  change (Z.of_nat 32) with 32 in Hm. rewrite Hm. cbn [negb].
  pose proof (stands_new (segment_header_bytes n first)) as S.
  unfold segment_header_bytes at 2 in S. unfold sealed in S.
  set (crc := crc32c _) in S. assert (Hc : in_width 32 crc) by apply crc32c_range.
  unfold segment_prefix, kSegmentMajor, kSegmentMinor, kRaftSegmentHeaderSize in S.
  rewrite <- !app_assoc in S. rewrite <- (app_nil_r (replicate 28 x00)) in S. clear Hm. clearbody crc.
  read_run.
  rewrite (bool_decide_eq_true_2 (kSegmentMagic = kSegmentMagic)) by done. cbn [negb].
  rewrite !Z.eqb_refl, (proj2 (Z.eqb_neq _ _) Hf0). by rewrite orb_false_r.
Qed.

Lemma decode_log_header_sound bs n h :
  decode_segment_header bs n = Ok h ->
  rs_number h = n /\ header_number_ok (rs_first_sequence h) /\
  bs = segment_header_bytes n (rs_first_sequence h).
Proof.
  unfold decode_segment_header. intros H.
  destruct (negb (blen bs =? kRaftSegmentHeaderSize)) eqn:Hl; [done|]. bool_prop.
  unfold kRaftSegmentHeaderSize in Hl.
  destruct (sealed_matches bs 32) eqn:Hm; [|done]. cbn [negb] in H.
  pose proof (stands_new bs) as S. set (reader := ByteReader_new bs) in *. clearbody reader.
  assert (Hlen : 64 <= blen bs) by lia. read_unfold. do 8 read_have H Hlen.
  destruct rest0; [|cbn [length] in Hlen; rewrite !length_app, !length_le_bytes in Hl; cbn [length] in Hl; lia].
  clear Hlen. rewrite app_nil_r in *. guard_inv H. reserved_inv. injection H as <-. cbn [rs_number rs_first_sequence].
  unfold kSegmentMajor, kSegmentMinor in *. assert (a1 = 0) by width_lia. subst.
  split; [done|]. split; [by split|].
  match goal with |- ?l = _ => set (bs := l) in * end.
  assert (E : bs = segment_prefix n a4 ++ le_bytes 4 a5 ++ replicate 28 x00).
  { unfold segment_prefix, bs. by rewrite <- !app_assoc. }
  rewrite E in *. apply sealed_matches_inv; [by rewrite length_le_bytes|].
  by rewrite length_segment_prefix.
Qed.

(** ** Recovery anchors *)

Definition anchor_prefix (a : RecoveryAnchor) : list byte :=
  kRecoveryAnchorMagic ++ le_bytes 2 kRecoveryAnchorMajor ++ le_bytes 2 kRecoveryAnchorMinor
  ++ le_bytes 4 kRecoveryAnchorSize ++ le_bytes 8 (ra_base_segment_number a)
  ++ le_bytes 8 (ra_checkpoint_first_sequence a) ++ le_bytes 8 (ra_checkpoint_last_sequence a)
  ++ le_bytes 8 (ra_checkpoint_group_count a).
Definition anchor_bytes (a : RecoveryAnchor) : list byte :=
  sealed (anchor_prefix a) (replicate 12 x00).

(** A checkpoint of [count] records in consecutive positions. *)
Definition anchor_ok (a : RecoveryAnchor) : Prop :=
  header_number_ok (ra_base_segment_number a) /\ 1 <= ra_checkpoint_first_sequence a /\
  1 <= ra_checkpoint_group_count a /\ ra_checkpoint_last_sequence a <= max_u64 /\
  ra_checkpoint_last_sequence a = ra_checkpoint_first_sequence a + ra_checkpoint_group_count a - 1.

Lemma length_anchor_prefix a : length (anchor_prefix a) = 48%nat.
Proof. unfold anchor_prefix. by rewrite !length_app, !length_le_bytes. Qed.
Lemma length_anchor_bytes a : length (anchor_bytes a) = 64%nat.
Proof. unfold anchor_bytes. by rewrite length_sealed, length_anchor_prefix, length_replicate. Qed.

Lemma encode_anchor_exact a : anchor_ok a -> encode_recovery_anchor a = Ok (anchor_bytes a).
Proof.
  intros ((Hw & Hb) & Hf & Hc & Hm & Hl). unfold encode_recovery_anchor.
  rewrite (proj2 (Z.eqb_neq _ _) Hb), (proj2 (Z.eqb_neq (ra_checkpoint_first_sequence a) 0)) by lia.
  rewrite (proj2 (Z.ltb_ge _ _)), (proj2 (Z.eqb_neq (ra_checkpoint_group_count a) 0)) by lia.
  rewrite wrap_small, (proj2 (Z.eqb_eq _ _)) by (lia || width_lia). cbn [orb negb].
  apply write_sealed_exact; [|by rewrite length_anchor_prefix|].
  - unfold anchor_fields, anchor_prefix. fields_normal. done.
  - unfold anchor_fields. fields_normal. rewrite !length_app, !length_le_bytes. done.
Qed.

Lemma decode_anchor_complete a :
  anchor_ok a -> decode_recovery_anchor (anchor_bytes a) (ra_base_segment_number a) = Ok a.
Proof.
  intros ((Hw & Hb) & Hf & Hc & Hm & Hl). unfold decode_recovery_anchor. rewrite length_anchor_bytes.
  change (Z.of_nat 64 =? kRecoveryAnchorSize) with true. cbn [negb].
  pose proof (sealed_matches_sealed (anchor_prefix a) (replicate 12 x00)) as Hs.
  rewrite length_anchor_prefix in Hs. fold (anchor_bytes a) in Hs.
  change (Z.of_nat 48) with 48 in Hs. rewrite Hs. cbn [negb].
  pose proof (stands_new (anchor_bytes a)) as S.
  unfold anchor_bytes at 2 in S. unfold sealed in S.
  set (crc := crc32c _) in S. assert (Hcr : in_width 32 crc) by apply crc32c_range.
  unfold anchor_prefix, kRecoveryAnchorMajor, kRecoveryAnchorMinor, kRecoveryAnchorSize in S.
  rewrite <- !app_assoc in S. rewrite <- (app_nil_r (replicate 12 x00)) in S. clear Hs. clearbody crc.
  assert (in_width 64 (ra_checkpoint_first_sequence a)) by width_lia.
  assert (in_width 64 (ra_checkpoint_last_sequence a)) by width_lia.
  assert (in_width 64 (ra_checkpoint_group_count a)) by width_lia.
  read_run.
  rewrite (bool_decide_eq_true_2 (kRecoveryAnchorMagic = kRecoveryAnchorMagic)) by done. cbn [negb].
  rewrite (proj2 (Z.ltb_ge _ _)), (proj2 (Z.eqb_neq (ra_checkpoint_first_sequence a) 0)),
    (proj2 (Z.eqb_neq (ra_checkpoint_group_count a) 0)) by lia.
  rewrite wrap_small by width_lia.
  rewrite (proj2 (Z.eqb_eq (_ - _ + 1) (ra_checkpoint_group_count a))) by lia.
  rewrite !Z.eqb_refl. cbn [negb orb]. by destruct a.
Qed.

Lemma decode_anchor_sound bs n a :
  decode_recovery_anchor bs n = Ok a ->
  ra_base_segment_number a = n /\ (n <> 0 -> anchor_ok a) /\ bs = anchor_bytes a.
Proof.
  unfold decode_recovery_anchor. intros H.
  destruct (negb (blen bs =? kRecoveryAnchorSize)) eqn:Hl; [done|]. bool_prop.
  unfold kRecoveryAnchorSize in Hl.
  destruct (sealed_matches bs 48) eqn:Hm; [|done]. cbn [negb] in H.
  pose proof (stands_new bs) as S. set (reader := ByteReader_new bs) in *. clearbody reader.
  assert (Hlen : 64 <= blen bs) by lia. read_unfold. do 10 read_have H Hlen.
  destruct rest0; [|cbn [length] in Hlen; rewrite !length_app, !length_le_bytes in Hl; cbn [length] in Hl; lia].
  clear Hlen. rewrite app_nil_r in *. guard_inv H. reserved_inv. injection H as <-.
  unfold kRecoveryAnchorMajor, kRecoveryAnchorMinor in *. assert (a2 = 0) by width_lia. subst.
  match goal with |- _ /\ _ /\ _ = anchor_bytes ?x => set (a := x) end.
  split; [done|]. split.
  { intros Hn. unfold anchor_ok, a. cbn. clear - Hn H16 H15 H4 H5 H6.
    rewrite wrap_small by width_lia. split_and!; try done; width_lia. }
  match goal with |- ?l = _ => set (bs := l) in * end.
  assert (E : bs = anchor_prefix a ++ le_bytes 4 a8 ++ replicate 12 x00).
  { unfold anchor_prefix, bs. by rewrite <- !app_assoc. }
  rewrite E in *. apply sealed_matches_inv; [by rewrite length_le_bytes|].
  by rewrite length_anchor_prefix.
Qed.
