(* ===== verification/RaftPersistentLog.v ===== *)
(** The node-level persistent log of Raft states: [RaftPersistentLog] of
    src/raft/persistent_log.cpp over the file interface of PosixIo: creating a log,
    opening one with the repair of an incomplete tail, appending, synchronising,
    checkpointing with reclamation, and closing.  A handle without an [Impl] is not
    modelled: every method answers it as it answers a closed one. *)
From stdpp Require Import sorting.
From S2P Require Import Prelude Bytes Crc32c Reading RaftTypes RaftMembership RaftLogCodec OrderedMap.
From S2P Require Import PosixIo WalPaths.
From S2P Require Import RaftLogFiles.
#[local] Open Scope Z_scope.

(** ** [RaftPersistentLog::Impl] *)

Record LogImpl := {
  li_config : RaftPersistentLogConfig; li_active_file : PosixFile;
  li_recovered : RaftPersistentLogRecovery; li_known_groups : gset (list byte);
  li_segment_record_counts : list (Z * Z); li_recovery_anchors : list Z;
  li_failure : StatusCode; li_open : bool }.

Definition with_recovered (i : LogImpl) (r : RaftPersistentLogRecovery) : LogImpl :=
  {| li_config := li_config i; li_active_file := li_active_file i; li_recovered := r;
     li_known_groups := li_known_groups i; li_segment_record_counts := li_segment_record_counts i;
     li_recovery_anchors := li_recovery_anchors i; li_failure := li_failure i;
     li_open := li_open i |}.
Definition with_position (r : RaftPersistentLogRecovery) (p : RaftPhysicalPosition)
  (segments records : Z) : RaftPersistentLogRecovery :=
  {| latest_group_states := latest_group_states r; rr_written_position := p;
     durable_physical_sequence := durable_physical_sequence r; segment_count := segments;
     record_count := records; repaired_bytes := repaired_bytes r;
     base_segment_number := base_segment_number r |}.
(** [recovered.durable_physical_sequence = recovered.written_position.physical_sequence]. *)
Definition mark_durable (i : LogImpl) : LogImpl :=
  let r := li_recovered i in
  with_recovered i
    {| latest_group_states := latest_group_states r; rr_written_position := rr_written_position r;
       durable_physical_sequence := rp_physical_sequence (rr_written_position r);
       segment_count := segment_count r; record_count := record_count r;
       repaired_bytes := repaired_bytes r; base_segment_number := base_segment_number r |}.
Definition with_known_group (i : LogImpl) (group : GroupId) : LogImpl :=
  {| li_config := li_config i; li_active_file := li_active_file i; li_recovered := li_recovered i;
     li_known_groups := {[ group ]} ∪ li_known_groups i;
     li_segment_record_counts := li_segment_record_counts i;
     li_recovery_anchors := li_recovery_anchors i; li_failure := li_failure i;
     li_open := li_open i |}.
(** The bookkeeping of a newly installed active segment. *)
Definition with_new_segment (i : LogImpl) (file : PosixFile) (number : Z) : LogImpl :=
  let r := li_recovered i in
  {| li_config := li_config i; li_active_file := file;
     li_recovered := with_position r
       {| rp_segment_number := number; rp_end_offset := kRaftSegmentHeaderSize;
          rp_physical_sequence := rp_physical_sequence (rr_written_position r) |}
       (segment_count r + 1) (record_count r);
     li_known_groups := li_known_groups i;
     li_segment_record_counts := om_emplace Z.compare number 0 (li_segment_record_counts i);
     li_recovery_anchors := li_recovery_anchors i; li_failure := li_failure i;
     li_open := li_open i |}.
(** The bookkeeping of a written record: [++segment_record_counts[number]]. *)
Definition with_record (i : LogImpl) (size sequence : Z) : LogImpl :=
  let r := li_recovered i in
  let position := rr_written_position r in
  let number := rp_segment_number position in
  let count := default 0 (om_lookup Z.compare number (li_segment_record_counts i)) in
  {| li_config := li_config i; li_active_file := li_active_file i;
     li_recovered := with_position r
       {| rp_segment_number := number; rp_end_offset := rp_end_offset position + size;
          rp_physical_sequence := sequence |} (segment_count r) (record_count r + 1);
     li_known_groups := li_known_groups i;
     li_segment_record_counts :=
       om_assign Z.compare number (count + 1) (li_segment_record_counts i);
     li_recovery_anchors := li_recovery_anchors i; li_failure := li_failure i;
     li_open := li_open i |}.
Definition with_failure (i : LogImpl) (s : StatusCode) : LogImpl :=
  {| li_config := li_config i; li_active_file := li_active_file i; li_recovered := li_recovered i;
     li_known_groups := li_known_groups i; li_segment_record_counts := li_segment_record_counts i;
     li_recovery_anchors := li_recovery_anchors i; li_failure := s; li_open := li_open i |}.
Definition with_anchors (i : LogImpl) (anchors : list Z) : LogImpl :=
  {| li_config := li_config i; li_active_file := li_active_file i; li_recovered := li_recovered i;
     li_known_groups := li_known_groups i; li_segment_record_counts := li_segment_record_counts i;
     li_recovery_anchors := anchors; li_failure := li_failure i; li_open := li_open i |}.
Definition with_counts (i : LogImpl) (counts : list (Z * Z)) : LogImpl :=
  {| li_config := li_config i; li_active_file := li_active_file i; li_recovered := li_recovered i;
     li_known_groups := li_known_groups i; li_segment_record_counts := counts;
     li_recovery_anchors := li_recovery_anchors i; li_failure := li_failure i;
     li_open := li_open i |}.

Definition closed (i : LogImpl) : LogImpl :=
  {| li_config := li_config i; li_active_file := li_active_file i; li_recovered := li_recovered i;
     li_known_groups := li_known_groups i; li_segment_record_counts := li_segment_record_counts i;
     li_recovery_anchors := li_recovery_anchors i; li_failure := li_failure i; li_open := false |}.
(** The counters after reclamation. *)
Definition with_reclaimed (i : LogImpl) (base segments records : Z) : LogImpl :=
  let r := li_recovered i in
  with_recovered i
    {| latest_group_states := latest_group_states r; rr_written_position := rr_written_position r;
       durable_physical_sequence := durable_physical_sequence r;
       segment_count := u64 (segment_count r - segments);
       record_count := u64 (record_count r - records); repaired_bytes := repaired_bytes r;
       base_segment_number := base |}.

(** ** Creation *)

(** The entries of a directory a log may be created in, before the lock is held
    and with it: whether the lock was seen, and whether the temporary of an
    interrupted creation was. *)
Definition new_entry_recognized (entry : DirectoryEntry) : bool :=
  (bool_decide (entry_name entry = kLockName)
   || bool_decide (entry_name entry = segment_name 1 kTemporarySuffix))
  && bool_decide (entry_type entry = kRegularFile).
Fixpoint locked_entries (entries : list DirectoryEntry) (lock_visible interrupted : bool)
  : result (bool * bool) :=
  match entries with
  | [] => Ok (lock_visible, interrupted)
  | entry :: rest =>
      fail_if negb (bool_decide (entry_type entry = kRegularFile)) with kInvalidArgument;
      if bool_decide (entry_name entry = kLockName) && negb lock_visible
      then locked_entries rest true interrupted
      else if bool_decide (entry_name entry = segment_name 1 kTemporarySuffix) && negb interrupted
      then locked_entries rest lock_visible true
      else Err kInvalidArgument
  end.

Definition new_impl (config : RaftPersistentLogConfig) (file : PosixFile) : LogImpl :=
  {| li_config := config; li_active_file := file;
     li_recovered :=
       {| latest_group_states := [];
          rr_written_position := {| rp_segment_number := 1;
            rp_end_offset := kRaftSegmentHeaderSize; rp_physical_sequence := 0 |};
          durable_physical_sequence := 0; segment_count := 1; record_count := 0;
          repaired_bytes := 0; base_segment_number := 1 |};
     li_known_groups := ∅; li_segment_record_counts := [(1, 0)]; li_recovery_anchors := [];
     li_failure := kOk; li_open := true |}.

Section creation.
Context {W : Type} `{PosixIo W}.

Definition create_new_with (config : RaftPersistentLogConfig) : IO W LogImpl :=
  do* io_check (validate_config config);
  do* open_directory (rc_directory_path config);
  let* initial_entries := list_entries in
  stop_if negb (forallb new_entry_recognized initial_entries) with kInvalidArgument;
  do* acquire_exclusive_lock kLockName (rc_file_permissions config);
  let* entries := list_entries in
  let* (lock_visible, interrupted) := io_pure (locked_entries entries false false) in
  stop_if negb lock_visible with kInvalidArgument;
  do* (if interrupted : bool then remove_file (segment_name 1 kTemporarySuffix) else io_ret tt);
  do* directory_sync;
  let* file := install_segment config 1 1 in
  io_ret (new_impl config file).
End creation.

(** ** Opening *)

Definition NumberedFile : Type := Z * FileName.
(** [operator<] of the pairs, as the order that sorting leaves. *)
Definition numbered_le (a b : NumberedFile) : Prop :=
  a.1 < b.1 \/ a.1 = b.1 /\ uuid_compare a.2 b.2 <> Gt.
#[global] Instance numbered_le_dec : RelDecision numbered_le.
Proof. intros a b. unfold numbered_le. apply _. Defined.

Record LogDirectory := {
  ld_segments : list NumberedFile; ld_anchors : list NumberedFile; ld_temporaries : list FileName }.
Definition empty_log_directory : LogDirectory :=
  {| ld_segments := []; ld_anchors := []; ld_temporaries := [] |}.

(** The classification of the entries; each push_back is a cons since the rest is
    classified after the entry. *)
Fixpoint classify_entries (entries : list DirectoryEntry) : result LogDirectory :=
  match entries with
  | [] => Ok empty_log_directory
  | entry :: rest =>
      let name := entry_name entry in
      let regular := bool_decide (entry_type entry = kRegularFile) in
      if bool_decide (name = kLockName) then
        fail_if negb regular with kCorruption;
        classify_entries rest
      else
        fail_if negb regular with kCorruption;
        if is_temporary_name name || is_recovery_anchor_temporary_name name then
          let? d := classify_entries rest in
          Ok {| ld_segments := ld_segments d; ld_anchors := ld_anchors d;
                ld_temporaries := name :: ld_temporaries d |}
        else match parse_recovery_anchor_name name kRecoveryAnchorSuffix with
        | Ok number =>
            let? d := classify_entries rest in
            Ok {| ld_segments := ld_segments d; ld_anchors := (number, name) :: ld_anchors d;
                  ld_temporaries := ld_temporaries d |}
        | Err _ =>
            match parse_segment_name name with
            | Err _ => Err kCorruption
            | Ok number =>
                let? d := classify_entries rest in
                Ok {| ld_segments := (number, name) :: ld_segments d; ld_anchors := ld_anchors d;
                      ld_temporaries := ld_temporaries d |}
            end
        end
  end.

(** [std::ranges::lower_bound] by number in the sorted segments, from which the
    retained ones start; and the ones before, which are removed. *)
Fixpoint retained_from (base : Z) (sorted : list NumberedFile) : list NumberedFile :=
  match sorted with
  | [] => []
  | segment :: rest => if segment.1 <? base then retained_from base rest else segment :: rest
  end.
Fixpoint stale_before (base : Z) (sorted : list NumberedFile) : list FileName :=
  match sorted with
  | [] => []
  | segment :: rest => if segment.1 >=? base then [] else segment.2 :: stale_before base rest
  end.
Definition stale_anchors (base : Z) (sorted : list NumberedFile) : list FileName :=
  (filter (fun anchor => anchor.1 <> base) sorted).*2.
Fixpoint contiguous (number : Z) (retained : list NumberedFile) : bool :=
  match retained with
  | [] => true
  | segment :: rest => (segment.1 =? u64 number) && contiguous (number + 1) rest
  end.

(** The locals of the recovery loops. *)
Record Recovering := {
  rv_latest : list (GroupId * GroupPersistentState); rv_counts : list (Z * Z);
  rv_checkpoint_groups : gset (list byte); rv_record_count : Z; rv_repaired_bytes : Z;
  rv_last_sequence : Z; rv_active_end : Z }.

(** The part of the loop body after a record is decoded. *)
Definition accept_record (config : RaftPersistentLogConfig) (anchor : option RecoveryAnchor)
    (p : GroupPersistentState) (st : Recovering) : result Recovering :=
  fail_if (rv_last_sequence st =? max_u64)
          || negb (gp_physical_sequence p =? rv_last_sequence st + 1) with kCorruption;
  let count := rv_record_count st + 1 in
  fail_if count >? rc_maximum_records config with kResourceExhausted;
  let in_checkpoint := match anchor with
    | Some a => gp_physical_sequence p <=? ra_checkpoint_last_sequence a
    | None => false
    end in
  fail_if in_checkpoint && bool_decide (gp_group_id p ∈ rv_checkpoint_groups st) with kCorruption;
  let latest := om_assign uuid_compare (gp_group_id p) p (rv_latest st) in
  fail_if blen latest >? rc_maximum_groups config with kResourceExhausted;
  Ok {| rv_latest := latest; rv_counts := rv_counts st;
        rv_checkpoint_groups :=
          if in_checkpoint then {[ gp_group_id p ]} ∪ rv_checkpoint_groups st
          else rv_checkpoint_groups st;
        rv_record_count := count; rv_repaired_bytes := rv_repaired_bytes st;
        rv_last_sequence := gp_physical_sequence p; rv_active_end := rv_active_end st |}.

Definition with_repaired (st : Recovering) (bytes : Z) : Recovering :=
  {| rv_latest := rv_latest st; rv_counts := rv_counts st;
     rv_checkpoint_groups := rv_checkpoint_groups st; rv_record_count := rv_record_count st;
     rv_repaired_bytes := bytes; rv_last_sequence := rv_last_sequence st;
     rv_active_end := rv_active_end st |}.
(** [segment_record_counts.emplace(number, count)] and [active_end = offset]. *)
Definition after_segment (st : Recovering) (number count offset : Z) : Recovering :=
  {| rv_latest := rv_latest st; rv_counts := om_emplace Z.compare number count (rv_counts st);
     rv_checkpoint_groups := rv_checkpoint_groups st; rv_record_count := rv_record_count st;
     rv_repaired_bytes := rv_repaired_bytes st; rv_last_sequence := rv_last_sequence st;
     rv_active_end := offset |}.

Section opening.
Context {W : Type} `{PosixIo W}.
Context (config : RaftPersistentLogConfig) (repair_incomplete_final_tail : bool).
Context (anchor : option RecoveryAnchor).

(** The header of the record at an offset, or [None] when what remains of the
    file is not a whole record. *)
Definition inspect_at (file : PosixFile) (size offset : Z)
  : IO W (option MultiplexedLogRecordHeader) :=
  let remaining := size - offset in
  if remaining <? kMultiplexedLogHeaderSize then io_ret None
  else
    let* record_header := read_file_exact file offset kMultiplexedLogHeaderSize in
    let* inspected := io_pure (inspect_multiplexed_log_record_header_v1 record_header) in
    io_ret (if mh_encoded_size inspected >? remaining then None else Some inspected).

(** The branch of an incomplete record: cut it off the final segment when asked. *)
Definition repair_tail (file : PosixFile) (is_final : bool) (offset : Z) (st : Recovering)
  : IO W unit :=
  stop_if match anchor with
          | Some a => rv_last_sequence st <? ra_checkpoint_last_sequence a
          | None => false
          end with kCorruption;
  stop_if negb is_final || negb repair_incomplete_final_tail with kCorruption;
  do* truncate file offset;
  do* sync_all file;
  directory_sync.

(** The record loop of a segment, from an offset: the state, the offset it ended
    at and the records it counted.  Each round consumes at least one byte, so the
    size of the file bounds the rounds. *)
Fixpoint recover_records (fuel : nat) (file : PosixFile) (is_final : bool) (size offset count : Z)
    (st : Recovering) : IO W (Recovering * Z * Z) :=
  if negb (offset <? size) then io_ret (st, offset, count)
  else match fuel with
  | O => io_fail kInternal
  | S fuel =>
      let* inspected := inspect_at file size offset in
      match inspected with
      | None =>
          do* repair_tail file is_final offset st;
          io_ret (with_repaired st (size - offset), offset, count)
      | Some header =>
          let* record := read_file_exact file offset (mh_encoded_size header) in
          let* decoded := io_pure (decode_multiplexed_log_record_v1 record) in
          let* st := io_pure (accept_record config anchor (decoded_persistent decoded) st) in
          recover_records fuel file is_final size (offset + mh_encoded_size header) (count + 1) st
      end
  end.

Definition recover_segment (segment : NumberedFile) (is_final : bool) (st : Recovering)
  : IO W Recovering :=
  let* file := open_regular_file segment.2 (if is_final then kReadWrite else kReadOnly) in
  let* size := file_size file in
  stop_if (size <? kRaftSegmentHeaderSize) || (size >? kMaximumRaftSegmentSize) with kCorruption;
  let* header_bytes := read_file_exact file 0 kRaftSegmentHeaderSize in
  let* header := io_pure (decode_segment_header header_bytes segment.1) in
  stop_if (rv_last_sequence st =? max_u64)
          || negb (rs_first_sequence header =? rv_last_sequence st + 1) with kCorruption;
  let* (st, offset, count) :=
    recover_records (Z.to_nat size) file is_final size kRaftSegmentHeaderSize 0 st in
  io_ret (after_segment st segment.1 count offset).

Fixpoint recover_segments (retained : list NumberedFile) (st : Recovering) : IO W Recovering :=
  match retained with
  | [] => io_ret st
  | segment :: rest =>
      let* st := recover_segment segment (bool_decide (rest = [])) st in
      recover_segments rest st
  end.
End opening.

Definition initial_recovering (anchor : option RecoveryAnchor) : Recovering :=
  {| rv_latest := []; rv_counts := []; rv_checkpoint_groups := ∅; rv_record_count := 0;
     rv_repaired_bytes := 0;
     rv_last_sequence := match anchor with
                         | Some a => u64 (ra_checkpoint_first_sequence a - 1)
                         | None => 0
                         end;
     rv_active_end := kRaftSegmentHeaderSize |}.
Definition base_of (anchor : option RecoveryAnchor) : Z :=
  match anchor with Some a => ra_base_segment_number a | None => 1 end.
(** The checkpoint the anchor names was read in full. *)
Definition checkpoint_complete (anchor : option RecoveryAnchor) (st : Recovering) : bool :=
  match anchor with
  | None => true
  | Some a => negb (rv_last_sequence st <? ra_checkpoint_last_sequence a)
              && (Z.of_nat (size (rv_checkpoint_groups st)) =? ra_checkpoint_group_count a)
  end.
Definition opened_impl (config : RaftPersistentLogConfig) (anchor : option RecoveryAnchor)
    (file : PosixFile) (retained : list NumberedFile) (number : Z) (st : Recovering) : LogImpl :=
  {| li_config := config; li_active_file := file;
     li_recovered :=
       {| latest_group_states := (rv_latest st).*2;
          rr_written_position := {| rp_segment_number := number;
            rp_end_offset := rv_active_end st; rp_physical_sequence := rv_last_sequence st |};
          durable_physical_sequence := rv_last_sequence st; segment_count := blen retained;
          record_count := rv_record_count st; repaired_bytes := rv_repaired_bytes st;
          base_segment_number := base_of anchor |};
     li_known_groups := list_to_set (gp_group_id <$> (rv_latest st).*2);
     li_segment_record_counts := rv_counts st;
     li_recovery_anchors := match anchor with
                            | Some a => os_insert (ra_base_segment_number a) []
                            | None => []
                            end;
     li_failure := kOk; li_open := true |}.

Section opened.
Context {W : Type} `{PosixIo W}.

(** The anchor with the highest number, when there is one. *)
Definition read_anchor (sorted : list NumberedFile) : IO W (option RecoveryAnchor) :=
  match last sorted with
  | None => io_ret None
  | Some (number, name) =>
      let* file := open_regular_file name kReadOnly in
      let* size := file_size file in
      stop_if negb (size =? kRecoveryAnchorSize) with kCorruption;
      let* bytes := read_file_exact file 0 kRecoveryAnchorSize in
      let* decoded := io_pure (decode_recovery_anchor bytes number) in
      io_ret (Some decoded)
  end.
Fixpoint remove_files (names : list FileName) : IO W unit :=
  match names with
  | [] => io_ret tt
  | name :: rest => do* remove_file name; remove_files rest
  end.

Definition open_existing_with (config : RaftPersistentLogConfig)
    (repair_incomplete_final_tail : bool) : IO W LogImpl :=
  do* io_check (validate_config config);
  do* open_directory (rc_directory_path config);
  do* acquire_existing_exclusive_lock kLockName;
  let* entries := list_entries in
  let* directory := io_pure (classify_entries entries) in
  stop_if bool_decide (ld_segments directory = []) with kCorruption;
  let segments := merge_sort numbered_le (ld_segments directory) in
  let anchors := merge_sort numbered_le (ld_anchors directory) in
  let* anchor := read_anchor anchors in
  stop_if match anchor with
          | Some a => ra_checkpoint_group_count a >? rc_maximum_groups config
          | None => false
          end with kCorruption;
  let base := base_of anchor in
  let retained := retained_from base segments in
  stop_if match head retained with Some first => negb (first.1 =? base) | None => true end
    with kCorruption;
  stop_if blen retained >? rc_maximum_segments config with kCorruption;
  stop_if negb (contiguous base retained) with kCorruption;
  let* st := recover_segments config repair_incomplete_final_tail anchor retained
               (initial_recovering anchor) in
  stop_if negb (checkpoint_complete anchor st) with kCorruption;
  let stale := ld_temporaries directory ++ stale_before base segments ++ stale_anchors base anchors in
  do* remove_files stale;
  do* (if bool_decide (stale = []) then io_ret tt else directory_sync);
  match last retained with
  | None => io_fail kInternal
  | Some (number, name) =>
      let* file := open_regular_file name kReadWrite in
      do* sync_all file;
      do* directory_sync;
      io_ret (opened_impl config anchor file retained number st)
  end.
End opened.

(** ** Methods *)

Section methods.
Context {W : Type} `{PosixIo W}.

Definition get_log : IO (W * LogImpl) LogImpl := fun wi => (Ok wi.2, wi).
Definition put_log (i : LogImpl) : IO (W * LogImpl) unit := fun wi => (Ok tt, (wi.1, i)).
Definition on_files {A} (c : IO W A) : IO (W * LogImpl) A := fun wi =>
  let '(r, w) := c wi.1 in (r, (w, wi.2)).
(** [Impl::fail]: the first failure sticks, and is what the caller reports. *)
Definition fail {A} (status : StatusCode) : IO (W * LogImpl) A := fun wi =>
  let i := if is_ok (li_failure wi.2) then with_failure wi.2 status else wi.2 in
  (make_unexpected (li_failure i), (wi.1, i)).
(** [return make_unexpected(impl_->fail(c.error()))] when [c] fails. *)
Definition or_fail {A} (c : IO (W * LogImpl) A) : IO (W * LogImpl) A := fun wi =>
  match c wi with
  | (Ok a, wi) => (Ok a, wi)
  | (Err s, wi) => fail s wi
  end.
(** The guards every method starts with. *)
Definition usable : IO (W * LogImpl) unit :=
  let* i := get_log in
  stop_if negb (li_open i) with kInvalidArgument;
  io_check (li_failure i).

(** Install the segment that follows the active one, after synchronising and
    closing the active file: the rotation of [append] and the new base segment of
    [checkpoint_and_reclaim]. *)
Definition next_segment (first_sequence : Z) : IO (W * LogImpl) unit :=
  let* i := get_log in
  do* or_fail (on_files (sync_data (li_active_file i)));
  do* put_log (mark_durable i);
  do* or_fail (on_files (close_file (li_active_file i)));
  let number := rp_segment_number (rr_written_position (li_recovered i)) + 1 in
  let* file := or_fail (on_files (install_segment (li_config i) number first_sequence)) in
  put_log (with_new_segment (mark_durable i) file number).

Definition append (persistent : GroupPersistentState) : IO (W * LogImpl) RaftPhysicalPosition :=
  do* usable;
  let* i := get_log in
  let recovered := li_recovered i in
  let config := li_config i in
  let position := rr_written_position recovered in
  let current_sequence := rp_physical_sequence position in
  stop_if (current_sequence =? max_u64)
          || negb (gp_physical_sequence persistent =? current_sequence + 1) with kInvalidArgument;
  stop_if record_count recovered >=? rc_maximum_records config with kResourceExhausted;
  stop_if negb (bool_decide (gp_group_id persistent ∈ li_known_groups i))
          && (Z.of_nat (size (li_known_groups i)) >=? rc_maximum_groups config)
    with kResourceExhausted;
  let* encoded := io_pure (encode_multiplexed_log_record_v1 persistent) in
  stop_if blen encoded + kRaftSegmentHeaderSize >? rc_target_segment_size config
    with kResourceExhausted;
  let rotate := rp_end_offset position >? rc_target_segment_size config - blen encoded in
  stop_if rotate && ((segment_count recovered >=? rc_maximum_segments config)
                     || (rp_segment_number position =? max_u64)) with kResourceExhausted;
  do* put_log (with_known_group i (gp_group_id persistent));
  do* (if rotate then next_segment (gp_physical_sequence persistent) else io_ret tt);
  let* i := get_log in
  do* or_fail (on_files (write_all_at (li_active_file i)
                (rp_end_offset (rr_written_position (li_recovered i))) encoded));
  let i := with_record i (blen encoded) (gp_physical_sequence persistent) in
  do* put_log i;
  io_ret (rr_written_position (li_recovered i)).

Definition synchronize : IO (W * LogImpl) RaftPhysicalPosition :=
  do* usable;
  let* i := get_log in
  do* or_fail (on_files (sync_data (li_active_file i)));
  do* put_log (mark_durable i);
  io_ret (rr_written_position (li_recovered i)).

(** ** Checkpoints *)

(** The first loop of [checkpoint_and_reclaim]: the groups and record sizes. *)
Fixpoint validate_checkpoint (config : RaftPersistentLogConfig)
    (checkpoint : list GroupPersistentState) (expected_sequence : Z) (groups : gset (list byte))
  : result (gset (list byte) * list Z) :=
  match checkpoint with
  | [] => Ok (groups, [])
  | persistent :: rest =>
      fail_if expected_sequence =? max_u64 with kInvalidArgument;
      let next_sequence := expected_sequence + 1 in
      fail_if negb (gp_physical_sequence persistent =? next_sequence)
              || bool_decide (gp_group_id persistent ∈ groups) with kInvalidArgument;
      let? encoded := encode_multiplexed_log_record_v1 persistent in
      fail_if blen encoded + kRaftSegmentHeaderSize >? rc_target_segment_size config
        with kResourceExhausted;
      let? (groups, sizes) :=
        validate_checkpoint config rest next_sequence ({[ gp_group_id persistent ]} ∪ groups) in
      Ok (groups, blen encoded :: sizes)
  end.
(** The second loop: the segments the records need. *)
Fixpoint segments_needed (target : Z) (sizes : list Z) (additional simulated_end : Z) : Z :=
  match sizes with
  | [] => additional
  | encoded_size :: rest =>
      if simulated_end >? target - encoded_size
      then segments_needed target rest (additional + 1) (kRaftSegmentHeaderSize + encoded_size)
      else segments_needed target rest additional (simulated_end + encoded_size)
  end.
Fixpoint append_all (checkpoint : list GroupPersistentState) : IO (W * LogImpl) unit :=
  match checkpoint with
  | [] => io_ret tt
  | persistent :: rest => do* or_fail (append persistent); append_all rest
  end.
(** The two reclamation loops, over the entries below the base in order. *)
Fixpoint reclaim_counts (base : Z) (counts : list (Z * Z)) (segments records : Z)
  : IO (W * LogImpl) (Z * Z) :=
  match counts with
  | [] => io_ret (segments, records)
  | (number, count) :: rest =>
      if number <? base then
        do* or_fail (on_files (remove_file (segment_name number kSegmentSuffix)));
        let* i := get_log in
        do* put_log (with_counts i rest);
        reclaim_counts base rest (segments + 1) (records + count)
      else io_ret (segments, records)
  end.
Fixpoint reclaim_anchors (base : Z) (anchors : list Z) : IO (W * LogImpl) unit :=
  match anchors with
  | [] => io_ret tt
  | number :: rest =>
      if number <? base then
        do* or_fail (on_files (remove_file (recovery_anchor_name number kRecoveryAnchorSuffix)));
        let* i := get_log in
        do* put_log (with_anchors i rest);
        reclaim_anchors base rest
      else io_ret tt
  end.

Definition checkpoint_and_reclaim (checkpoint : list GroupPersistentState)
  : IO (W * LogImpl) RaftPersistentLogReclamation :=
  do* usable;
  let* i := get_log in
  let recovered := li_recovered i in
  let config := li_config i in
  match head checkpoint, last checkpoint with
  | Some front, Some back =>
      stop_if (blen checkpoint <? Z.of_nat (size (li_known_groups i)))
              || (blen checkpoint >? rc_maximum_groups config) with kInvalidArgument;
      stop_if blen checkpoint >? u64 (rc_maximum_records config - record_count recovered)
        with kResourceExhausted;
      let old_position := rr_written_position recovered in
      let* (groups, sizes) := io_pure (validate_checkpoint config checkpoint
                                         (rp_physical_sequence old_position) ∅) in
      stop_if negb (bool_decide (li_known_groups i ⊆ groups)) with kInvalidArgument;
      let additional :=
        segments_needed (rc_target_segment_size config) sizes 1 kRaftSegmentHeaderSize in
      stop_if (rp_segment_number old_position =? max_u64)
              || (additional >? u64 (rc_maximum_segments config - segment_count recovered))
        with kResourceExhausted;
      let base := rp_segment_number old_position + 1 in
      do* next_segment (gp_physical_sequence front);
      do* append_all checkpoint;
      do* or_fail synchronize;
      do* or_fail (on_files (install_recovery_anchor config
            {| ra_base_segment_number := base;
               ra_checkpoint_first_sequence := gp_physical_sequence front;
               ra_checkpoint_last_sequence := gp_physical_sequence back;
               ra_checkpoint_group_count := blen checkpoint |}));
      let* i := get_log in
      do* put_log (with_anchors i (os_insert base (li_recovery_anchors i)));
      let* (segments, records) := reclaim_counts base (li_segment_record_counts i) 0 0 in
      do* or_fail (on_files directory_sync);
      let* i := get_log in
      do* reclaim_anchors base (li_recovery_anchors i);
      do* or_fail (on_files directory_sync);
      let* i := get_log in
      do* put_log (with_reclaimed i base segments records);
      io_ret {| rl_base_segment_number := base;
                checkpoint_first_physical_sequence := gp_physical_sequence front;
                checkpoint_last_physical_sequence := gp_physical_sequence back;
                reclaimed_segments := segments; reclaimed_records := records |}
  | _, _ => io_fail kInvalidArgument
  end.

(** [close]: every handle is closed, the first error is reported and the log is
    no longer open. *)
Definition close_log : W * LogImpl -> StatusCode * (W * LogImpl) := fun wi =>
  if negb (li_open wi.2) then (kOk, wi)
  else
    let '(first, w) := close_file (li_active_file wi.2) wi.1 in
    let '(lock_status, w) := close_lock w in
    let '(directory_status, w) := close_directory w in
    let keep (status : StatusCode) (next : result unit) :=
      if is_ok status then status_of next else status in
    (keep (keep (status_of first) lock_status) directory_status, (w, closed wi.2)).
End methods.
