(* ===== verification/RaftLogHistory.v ===== *)
(** The history a persistent Raft log holds: records in consecutive positions, the
    bytes of the segment files they are written to, what the latest state of each
    group is, and how recovery follows the records of one segment. *)
From stdpp Require Import sorting.
From S2P Require Import Prelude Bytes Crc32c Reading RaftTypes RaftMembership RaftLogCodec RaftLogRecord.
From S2P Require Import OrderedMap PosixIo DiskFacts WalPaths RaftLogFiles RaftLogFileFacts RaftPersistentLog.
#[local] Open Scope Z_scope.

(** * Records *)

(** A record with the format it was written in. *)
Abbreviation LogRecord := (Z * GroupPersistentState)%type (only parsing).
Definition frame (r : LogRecord) : list byte := record_bytes r.1 r.2.
Definition frames (rs : list LogRecord) : list byte := concat (frame <$> rs).

(** Records in consecutive positions from [seq]. *)
Fixpoint sequenced (seq : Z) (rs : list LogRecord) : Prop :=
  match rs with
  | [] => True
  | r :: rest => record_ok r.1 r.2 /\ gp_physical_sequence r.2 = seq /\ sequenced (seq + 1) rest
  end.

Lemma log_frames_cons r rs : frames (r :: rs) = frame r ++ frames rs.
Proof. done. Qed.
Lemma log_frames_app a b : frames (a ++ b) = frames a ++ frames b.
Proof. unfold frames. by rewrite fmap_app, concat_app. Qed.
Lemma log_sequenced_app seq a b :
  sequenced seq (a ++ b) <-> sequenced seq a /\ sequenced (seq + blen a) b.
Proof.
  revert seq. induction a as [|r a IH]; intros seq; cbn [app sequenced length].
  - rewrite Z.add_0_r. naive_solver.
  - rewrite IH. replace (seq + 1 + blen a) with (seq + Z.of_nat (S (length a))) by lia. naive_solver.
Qed.
Lemma sequenced_last seq rs r : sequenced seq (rs ++ [r]) -> gp_physical_sequence r.2 = seq + blen rs.
Proof. intros H. apply log_sequenced_app in H as [_ [_ [H _]]]. done. Qed.
Lemma sequenced_max seq rs : sequenced seq rs -> rs <> [] -> seq + blen rs - 1 <= max_u64.
Proof.
  intros H Hne. destruct rs as [|r rs _] using rev_ind; [done|].
  pose proof (sequenced_last _ _ _ H) as Hl. apply log_sequenced_app in H as [_ [(_ & _ & Hw & _) _]].
  rewrite length_app. cbn [length]. width_lia.
Qed.
Lemma frame_size r : record_ok r.1 r.2 -> 68 <= blen (frame r) <= kMaximumMultiplexedLogRecordSize.
Proof.
  intros H. unfold frame. rewrite length_log_record_bytes by done.
  pose proof (record_header_valid _ _ H) as (_ & _ & _ & _ & _ & Hs & _). cbn in Hs. lia.
Qed.
Lemma frames_size seq rs : sequenced seq rs -> 68 * blen rs <= blen (frames rs).
Proof.
  revert seq. induction rs as [|r rs IH]; intros seq H; [done|]. destruct H as (Hr & _ & H).
  apply IH in H. apply frame_size in Hr. rewrite log_frames_cons, length_app. cbn [length]. lia.
Qed.

(** ** The latest state of each group *)

Definition group_of (p : GroupPersistentState) : list byte := gp_group_id p.
(** [p] is the last record of its group. *)
Definition latest_in (ps : list GroupPersistentState) (p : GroupPersistentState) : Prop :=
  exists before after, ps = before ++ p :: after /\ group_of p ∉ group_of <$> after.
Definition latest_of (ps : list GroupPersistentState) : list (list byte * GroupPersistentState) :=
  foldl (fun m p => om_assign uuid_compare (gp_group_id p) p m) [] ps.
Definition groups_of (ps : list GroupPersistentState) : gset (list byte) :=
  list_to_set (group_of <$> ps).

Lemma latest_in_snoc ps q p :
  latest_in (ps ++ [q]) p <-> p = q \/ (group_of p <> group_of q /\ latest_in ps p).
Proof.
  split.
  - intros (a & b & E & Hn). destruct b as [|b0 b _] using rev_ind.
    + apply app_inj_tail in E as [_ ->]. by left.
    + rewrite app_comm_cons, app_assoc in E. apply app_inj_tail in E as [-> <-]. right.
      rewrite fmap_app, elem_of_app in Hn. split; [set_solver|]. exists a, b. set_solver.
  - intros [->|(Hne & a & b & -> & Hn)].
    + exists ps, []. split; [done|]. apply not_elem_of_nil.
    + exists a, (b ++ [q]). split; [by rewrite <- app_assoc|]. rewrite fmap_app. set_solver.
Qed.

Lemma latest_of_snoc ps q :
  latest_of (ps ++ [q]) = om_assign uuid_compare (gp_group_id q) q (latest_of ps).
Proof. unfold latest_of. by rewrite foldl_app. Qed.
Lemma latest_of_sorted ps : om_sorted uuid_compare (latest_of ps).
Proof.
  induction ps as [|q ps IH] using rev_ind; [constructor|]. rewrite latest_of_snoc.
  apply om_assign_sorted; [apply uuid_compare_Eq|apply uuid_compare_flip|apply uuid_compare_trans|done].
Qed.
Lemma latest_of_elem ps g p : (g, p) ∈ latest_of ps <-> g = group_of p /\ latest_in ps p.
Proof.
  revert g p. induction ps as [|q ps IH] using rev_ind; intros g p.
  - split; [by intros ?%elem_of_nil|]. intros (_ & a & b & E & _). by destruct a.
  - rewrite latest_of_snoc, om_assign_elem, IH, latest_in_snoc
      by (apply uuid_compare_Eq || apply uuid_compare_flip || apply uuid_compare_trans || apply latest_of_sorted).
    unfold group_of. naive_solver.
Qed.
Lemma latest_of_keys ps g : g ∈ (latest_of ps).*1 <-> g ∈ groups_of ps.
Proof.
  unfold groups_of. rewrite elem_of_list_to_set.
  induction ps as [|q ps IH] using rev_ind; [done|].
  rewrite latest_of_snoc, om_assign_keys, IH, fmap_app, elem_of_app, list_fmap_singleton, list_elem_of_singleton
    by apply uuid_compare_Eq. naive_solver.
Qed.
Lemma sorted_keys_NoDup (m : list (list byte * GroupPersistentState)) :
  om_sorted uuid_compare m -> NoDup m.*1.
Proof.
  unfold om_sorted. generalize (m.*1). intros l H. induction H as [|k l Hs IH Hall]; constructor; [|done].
  intros Hin. rewrite Forall_forall in Hall. specialize (Hall _ Hin).
  pose proof (proj2 (uuid_compare_Eq k k) eq_refl). congruence.
Qed.
Lemma length_latest_of ps : length (latest_of ps) = size (groups_of ps).
Proof.
  rewrite <- (length_fmap fst (latest_of ps)).
  rewrite <- (size_list_to_set (C := gset (list byte)) (latest_of ps).*1)
    by apply sorted_keys_NoDup, latest_of_sorted.
  f_equal. apply set_eq. intros g. rewrite elem_of_list_to_set. apply latest_of_keys.
Qed.
(** The states in the order of their groups. *)
Lemma latest_of_values ps p : p ∈ (latest_of ps).*2 <-> latest_in ps p.
Proof.
  rewrite list_elem_of_fmap. split.
  - intros ([g q] & -> & H). by apply latest_of_elem in H as [_ ?].
  - intros H. exists (group_of p, p). split; [done|]. by apply latest_of_elem.
Qed.

(** When some records from a point on cover the groups of all records before them,
    the latest states are those of the records from that point. *)
Lemma latest_in_covered old ps p :
  (forall g, g ∈ group_of <$> old -> g ∈ group_of <$> ps) ->
  latest_in (old ++ ps) p <-> latest_in ps p.
Proof.
  intros Hc. split.
  - intros (a & b & E & Hn). symmetry in E.
    destruct (app_eq_inv _ _ _ _ E) as [(k & E1 & E2)|(k & E1 & E2)].
    + exists k, b. split; [|done]. destruct k; cbn in *; naive_solver.
    + destruct k as [|x k]; cbn in E2.
      * exists [], b. by rewrite E2.
      * injection E2 as <- ->. exfalso. apply Hn. rewrite fmap_app, elem_of_app. right.
        apply Hc. rewrite E1, fmap_app, elem_of_app. right. by left.
  - intros (a & b & -> & Hn). exists (old ++ a), b. by rewrite <- app_assoc.
Qed.

(** * Recovering records *)

Section recovering.
Context (config : RaftPersistentLogConfig) (anchor : option RecoveryAnchor).

(** Recovery starts before the first retained position. *)
Definition start_sequence : Z :=
  match anchor with Some a => ra_checkpoint_first_sequence a - 1 | None => 0 end.
(** The number of records of the checkpoint the anchor names. *)
Definition checkpoint_length : nat :=
  match anchor with Some a => Z.to_nat (ra_checkpoint_group_count a) | None => 0 end.

(** What the records from the base on must be for recovery to accept them. *)
Record acceptable (ps : list GroupPersistentState) : Prop := {
  acc_anchor : from_option anchor_ok True anchor;
  acc_sequence : forall k p, ps !! k = Some p -> gp_physical_sequence p = start_sequence + 1 + Z.of_nat k;
  acc_width : start_sequence + blen ps <= max_u64;
  acc_records : blen ps <= rc_maximum_records config;
  acc_groups : Z.of_nat (size (groups_of ps)) <= rc_maximum_groups config;
  acc_checkpoint : NoDup (group_of <$> take checkpoint_length ps) }.

Lemma start_nonneg ps : acceptable ps -> 0 <= start_sequence.
Proof.
  intros Ha. pose proof (acc_anchor _ Ha) as H. unfold start_sequence. destruct anchor; [destruct H; lia|lia].
Qed.

(** The state of recovery after the records [ps]. *)
Record recovered_to (ps : list GroupPersistentState) (st : Recovering) : Prop := {
  rt_latest : rv_latest st = latest_of ps;
  rt_checkpoint : rv_checkpoint_groups st = groups_of (take checkpoint_length ps);
  rt_count : rv_record_count st = blen ps;
  rt_last : rv_last_sequence st = start_sequence + blen ps }.

Lemma recovered_initial : from_option anchor_ok True anchor -> recovered_to [] (initial_recovering anchor).
Proof.
  intros Ha. split; [done|by rewrite take_nil|done|]. unfold start_sequence. cbn.
  rewrite Z.add_0_r. destruct anchor as [a|]; [|done]. destruct Ha as (_ & H1 & H2 & H3 & H4).
  apply wrap_small. width_lia.
Qed.

Lemma groups_of_app a b : groups_of (a ++ b) = groups_of a ∪ groups_of b.
Proof. unfold groups_of. by rewrite fmap_app, list_to_set_app_L. Qed.
Lemma groups_of_prefix a b : Z.of_nat (size (groups_of a)) <= Z.of_nat (size (groups_of (a ++ b))).
Proof. apply inj_le, subseteq_size. rewrite groups_of_app. set_solver. Qed.

(** A position belongs to the checkpoint when it is among its records. *)
Lemma in_checkpoint_position ps k p :
  acceptable ps -> ps !! k = Some p ->
  match anchor with Some a => gp_physical_sequence p <=? ra_checkpoint_last_sequence a | None => false end
  = bool_decide (k < checkpoint_length)%nat.
Proof.
  intros Ha Hk. rewrite (acc_sequence _ Ha _ _ Hk). pose proof (acc_anchor _ Ha) as Han.
  unfold start_sequence, checkpoint_length. destruct anchor as [a|]; [|by rewrite bool_decide_eq_false_2 by lia].
  destruct Han as (_ & H1 & H2 & H3 & H4).
  destruct (Z.leb_spec (ra_checkpoint_first_sequence a - 1 + 1 + Z.of_nat k) (ra_checkpoint_last_sequence a));
    symmetry; [apply bool_decide_eq_true|apply bool_decide_eq_false]; lia.
Qed.

Lemma groups_take_snoc ps p :
  groups_of (take checkpoint_length (ps ++ [p])) =
  if bool_decide (length ps < checkpoint_length)%nat
  then {[ gp_group_id p ]} ∪ groups_of (take checkpoint_length ps) else groups_of (take checkpoint_length ps).
Proof.
  case_bool_decide.
  - rewrite !take_ge by (rewrite ?length_app; cbn; lia). rewrite groups_of_app.
    unfold groups_of at 2. cbn. set_solver.
  - by rewrite take_app_le by lia.
Qed.

Lemma accept_record_ok before p after st :
  acceptable (before ++ p :: after) -> recovered_to before st ->
  exists st', accept_record config anchor p st = Ok st' /\ recovered_to (before ++ [p]) st' /\
    rv_counts st' = rv_counts st /\ rv_active_end st' = rv_active_end st /\
    rv_repaired_bytes st' = rv_repaired_bytes st.
Proof.
  intros Ha [Hl Hc Hn Hs].
  assert (Hk : (before ++ p :: after) !! length before = Some p) by (by rewrite list_lookup_middle).
  pose proof (acc_sequence _ Ha _ _ Hk) as Hp. pose proof (in_checkpoint_position _ _ _ Ha Hk) as Hi.
  pose proof (acc_width _ Ha) as Hw. pose proof (acc_records _ Ha) as Hr.
  pose proof (acc_groups _ Ha) as Hg. pose proof (acc_checkpoint _ Ha) as Hd.
  rewrite length_app in Hw, Hr. cbn [length] in Hw, Hr.
  unfold accept_record. rewrite Hs, Hn, Hl, Hi.
  rewrite (proj2 (Z.eqb_neq _ _)), (proj2 (Z.eqb_eq _ _)) by lia. cbn [orb negb].
  rewrite gtb_false by lia.
  assert (Hnew : bool_decide (length before < checkpoint_length)%nat
      && bool_decide (gp_group_id p ∈ rv_checkpoint_groups st) = false).
  { apply andb_false_iff. case_bool_decide as Hlt; [right|by left]. apply bool_decide_eq_false.
    rewrite Hc, take_ge by lia. rewrite take_app_ge in Hd by lia.
    destruct (checkpoint_length - length before)%nat eqn:E; [lia|]. cbn [take] in Hd.
    rewrite fmap_app, fmap_cons, NoDup_app in Hd. destruct Hd as (_ & Hd & _).
    unfold groups_of. rewrite elem_of_list_to_set. intros Hin. apply (Hd _ Hin). by left. }
  rewrite Hnew. rewrite <- latest_of_snoc. rewrite length_latest_of.
  rewrite gtb_false; cycle 1.
  { pose proof (groups_of_prefix (before ++ [p]) after) as H. rewrite <- app_assoc in H. cbn in H. lia. }
  eexists. split; [done|]. split; [|done]. split; cbn.
  - done.
  - by rewrite Hc, groups_take_snoc.
  - rewrite length_app. cbn. lia.
  - rewrite Hp, length_app. cbn. lia.
Qed.
End recovering.

(** * The record loop *)

(** What follows the last whole record of a file: nothing that is a record yet. *)
Definition incomplete (tail : list byte) : Prop :=
  blen tail < 64 \/ exists h,
    inspect_multiplexed_log_record_header_v1 (subspan tail 0 64) = Ok h /\ blen tail < mh_encoded_size h.

Lemma incomplete_cut r k :
  record_ok r.1 r.2 -> (k < length (frame r))%nat -> incomplete (take k (frame r)).
Proof.
  intros Hok Hk. unfold incomplete. rewrite length_take, Nat.min_l by lia.
  destruct (decide (Z.of_nat k < 64)) as [|Hge]; [by left|]. right.
  exists (record_header r.1 r.2). split.
  - rewrite <- (inspect_record r.1 r.2 Hok). f_equal. unfold subspan, first.
    change (drop (Z.to_nat 0) ?l) with l. by rewrite take_take, Nat.min_l by lia.
  - cbn. unfold frame in Hk. pose proof (length_log_record_bytes _ _ Hok). lia.
Qed.

Section loop.
Context {W : Type} {HIO : PosixIo W} {HL : PosixLaws W}.

Lemma wp_read_exact (f : PosixFile) off n data (w : W) E :
  reliable w -> d_data (disk w) !! f = Some data -> 0 <= off -> 0 <= n -> off + n <= blen data ->
  blen data < 2 ^ 63 ->
  wp (read_file_exact f off n) w
    (fun bs w' => bs = subspan data off n /\ disk w' = disk w /\ reliable w') E.
Proof.
  intros Hr Hd Ho Hn Hle Hm. apply wp_bind.
  wp_call (law_read f off n); [done|split_and!; [eauto|lia..]|].
  intros bs w' (Dw & data' & Hd' & ->) Hr'. rewrite Hd in Hd'. injection Hd' as <-.
  rewrite length_subspan, Z2Nat.id, Z.eqb_refl by lia. cbn [negb]. by apply wp_ret.
Qed.

Context (config : RaftPersistentLogConfig) (repair : bool) (anchor : option RecoveryAnchor).

(** The disk after the tail of a file was cut off. *)
Definition cut_disk (f : PosixFile) (offset : Z) (tail : list byte) (d : Disk) : Disk :=
  if bool_decide (tail = []) then d else sync_names (sync_disk f (truncate_disk f offset d)).

Lemma wp_repair_tail f data offset st ps (w : W) E :
  reliable w -> d_data (disk w) !! f = Some data -> 0 <= offset <= blen data ->
  from_option anchor_ok True anchor -> recovered_to anchor ps st ->
  (checkpoint_length anchor <= length ps)%nat -> repair = true ->
  wp (repair_tail repair anchor f true offset st) w
    (fun _ w' => disk w' = sync_names (sync_disk f (truncate_disk f offset (disk w))) /\ reliable w') E.
Proof.
  intros Hr Hd Ho Ha Hst Hlen ->. unfold repair_tail.
  replace (match anchor with Some a => rv_last_sequence st <? ra_checkpoint_last_sequence a | None => false end)
    with false; cycle 1.
  { unfold checkpoint_length in Hlen. destruct anchor as [a|] eqn:Ean; [|done]. symmetry. apply Z.ltb_ge.
    rewrite (rt_last _ _ _ Hst). cbn. destruct Ha as (_ & H1 & H2 & H3 & H4). lia. }
  cbn [negb orb]. apply wp_bind.
  wp_call (law_truncate f offset); [done|by exists data|].
  intros _ w1 D1 Hr1. apply wp_bind.
  wp_call (law_sync_all f); [done| |].
  { rewrite D1. cbn. rewrite lookup_alter_eq, Hd. eauto. }
  intros _ w2 D2 Hr2. wp_call law_directory_sync; [done|done|].
  intros _ w3 D3 Hr3. by rewrite D3, D2, D1.
Qed.

Lemma wp_inspect_record f data pre r rest (w : W) E :
  reliable w -> d_data (disk w) !! f = Some data -> data = pre ++ frame r ++ rest ->
  record_ok r.1 r.2 -> blen data < 2 ^ 63 ->
  wp (inspect_at f (blen data) (blen pre)) w
    (fun out w' => out = Some (record_header r.1 r.2) /\ disk w' = disk w /\ reliable w') E.
Proof.
  intros Hr Hd Hdata Hok Hm. pose proof (frame_size _ Hok) as Hs.
  assert (Hlen : blen data = blen pre + (blen (frame r) + blen rest)) by (rewrite Hdata, !length_app; lia).
  unfold inspect_at, kMultiplexedLogHeaderSize. rewrite (proj2 (Z.ltb_ge _ _)) by lia. apply wp_bind.
  eapply wp_mono; [by apply (wp_read_exact f _ 64 data); try lia| |done].
  intros bs w1 (-> & D1 & Hr1). apply wp_bind, wp_pure.
  assert (Hh : subspan data (blen pre) 64 = first (record_bytes r.1 r.2) 64).
  { rewrite Hdata. unfold subspan. rewrite Nat2Z.id, drop_app_length. unfold first.
    rewrite take_app_le by (unfold frame in *; lia). done. }
  rewrite Hh, inspect_record by done. apply wp_ret. rewrite gtb_false; [done|].
  cbn. unfold frame in Hlen. pose proof (length_log_record_bytes _ _ Hok). lia.
Qed.
Lemma wp_inspect_tail f data pre tail (w : W) E :
  reliable w -> d_data (disk w) !! f = Some data -> data = pre ++ tail ->
  incomplete tail -> blen data < 2 ^ 63 ->
  wp (inspect_at f (blen data) (blen pre)) w
    (fun out w' => out = None /\ disk w' = disk w /\ reliable w') E.
Proof.
  intros Hr Hd Hdata Hinc Hm.
  assert (Hlen : blen data - blen pre = blen tail) by (rewrite Hdata, length_app; lia).
  unfold inspect_at, kMultiplexedLogHeaderSize. rewrite Hlen.
  destruct (Z.ltb_spec (blen tail) 64) as [|Hge]; [by apply wp_ret|].
  destruct Hinc as [|(h & Hh & Hs)]; [lia|]. apply wp_bind.
  eapply wp_mono; [by apply (wp_read_exact f _ 64 data); try lia| |done].
  intros bs w1 (-> & D1 & Hr1). apply wp_bind, wp_pure.
  assert (Hx : subspan data (blen pre) 64 = subspan tail 0 64).
  { rewrite Hdata. unfold subspan. by rewrite Nat2Z.id, drop_app_length. }
  rewrite Hx, Hh. apply wp_ret. by rewrite Z.gtb_ltb, (proj2 (Z.ltb_lt _ _)) by lia.
Qed.

(** The loop over the records of one file. *)
Lemma wp_recover_records f is_final data tail : forall rs fuel pre before after count st (w : W) E,
  reliable w -> d_data (disk w) !! f = Some data -> data = pre ++ frames rs ++ tail ->
  blen data < 2 ^ 63 -> incomplete tail -> (length rs < fuel)%nat ->
  Forall (fun r => record_ok r.1 r.2) rs ->
  acceptable config anchor (before ++ rs.*2 ++ after) -> recovered_to anchor before st ->
  rv_repaired_bytes st = 0 ->
  (tail <> [] -> is_final = true /\ repair = true /\
     (checkpoint_length anchor <= length (before ++ rs.*2))%nat) ->
  wp (recover_records config repair anchor fuel f is_final (blen data) (blen pre) count st) w
    (fun out w' => exists st', out = (st', blen pre + blen (frames rs), count + blen rs) /\
       recovered_to anchor (before ++ rs.*2) st' /\ rv_counts st' = rv_counts st /\
       rv_repaired_bytes st' = blen tail /\
       disk w' = cut_disk f (blen pre + blen (frames rs)) tail (disk w) /\ reliable w') E.
Proof.
  induction rs as [|r rs IH]; intros fuel pre before after count st w E Hr Hd Hdata Hm Hinc Hfuel
    Hall Hacc Hst Hrep Htail; (destruct fuel as [|fuel]; [cbn in Hfuel; lia|]).
  - change (frames []) with (@nil byte) in *. cbn [app fmap list_fmap recover_records length Z.of_nat] in *.
    rewrite !Z.add_0_r, app_nil_r in *. unfold cut_disk. case_bool_decide as Ht.
    + subst tail. rewrite app_nil_r in Hdata. subst data. rewrite Z.ltb_irrefl. cbn [negb].
      apply wp_ret. exists st. by rewrite ?Z.add_0_r, ?app_nil_r.
    + destruct (Htail Ht) as (-> & Hrp & Hck).
      assert (0 < blen tail) by (destruct tail; [done|cbn; lia]).
      rewrite (proj2 (Z.ltb_lt _ _)) by (rewrite Hdata, length_app; lia). cbn [negb]. apply wp_bind.
      eapply wp_mono; [by apply wp_inspect_tail with (tail := tail)| |done].
      intros out w1 (-> & D1 & Hr1). apply wp_bind.
      eapply wp_mono; [apply (wp_repair_tail f data (blen pre) st before)| |done]; try done.
      { by rewrite D1. }
      { rewrite Hdata, length_app. lia. }
      { apply (acc_anchor _ _ _ Hacc). }
      intros _ w2 (D2 & Hr2). apply wp_ret. rewrite D2, D1.
      exists (with_repaired st (blen data - blen pre)).
      split_and!; try done; [by destruct Hst|].
      cbn. rewrite Hdata, length_app. lia.
  - apply Forall_cons in Hall as [Hok Hall]. pose proof (frame_size _ Hok) as Hs.
    rewrite log_frames_cons in *. cbn [recover_records]. rewrite <- app_assoc in Hdata.
    assert (Hlen : blen data = blen pre + (blen (frame r) + blen (frames rs ++ tail)))
      by (rewrite Hdata, !length_app; lia).
    rewrite (proj2 (Z.ltb_lt _ _)) by lia. cbn [negb]. apply wp_bind.
    eapply wp_mono; [by apply wp_inspect_record with (r := r) (rest := frames rs ++ tail)| |done].
    intros out w1 (-> & D1 & Hr1). apply wp_bind.
    pose proof (length_log_record_bytes _ _ Hok) as Hrl. unfold frame in Hlen, Hs. cbn [mh_encoded_size record_header].
    eapply wp_mono; [by apply (wp_read_exact f _ _ data); rewrite ?D1; try done; lia| |done].
    intros bs w2 (-> & D2 & Hr2). apply wp_bind, wp_pure.
    assert (Hb : subspan data (blen pre) (68 + state_size r.1 (gp_state r.2)) = record_bytes r.1 r.2).
    { rewrite Hdata. apply subspan_app_l; unfold frame; lia. }
    rewrite Hb, decode_log_record_complete by done. apply wp_bind, wp_pure. cbn [decoded_persistent].
    rewrite fmap_cons in Hacc.
    destruct (accept_record_ok _ _ before r.2 (rs.*2 ++ after) st Hacc Hst)
      as (st1 & -> & Hst1 & Hc1 & He1 & Hp1).
    replace (blen pre + (68 + state_size r.1 (gp_state r.2))) with (blen (pre ++ frame r))
      by (rewrite length_app; unfold frame; lia).
    rewrite fmap_cons in Htail |- *. replace (before ++ r.2 :: rs.*2) with ((before ++ [r.2]) ++ rs.*2) in *
      by (by rewrite <- app_assoc).
    eapply wp_mono; [apply (IH fuel (pre ++ frame r) (before ++ [r.2]) after (count + 1) st1 w2 E)| |done]; try done.
    + by rewrite D2, D1.
    + by rewrite Hdata, <- !app_assoc.
    + cbn in Hfuel. lia.
    + by rewrite <- app_assoc.
    + by rewrite Hp1.
    + intros out w' (st' & -> & Hst' & Hc' & Hp' & D' & Hr'). exists st'.
      rewrite D', D2, D1, Hc', Hc1, !length_app. cbn [length]. unfold frame in *.
      split_and!; try done.
      * f_equal; [f_equal|]; lia.
      * f_equal. lia.
Qed.
End loop.
