(* ===== verification/RaftLogSegments.v ===== *)
(** The segment files of a persistent Raft log on a disk, and that recovery reads
    all of them: the states, counts and end it returns are those of the history,
    and an incomplete end of the last file is cut off. *)
From stdpp Require Import sorting.
From S2P Require Import Prelude Bytes Crc32c Reading RaftTypes RaftMembership RaftLogCodec RaftLogRecord.
From S2P Require Import OrderedMap PosixIo DiskFacts WalPaths RaftLogFiles RaftLogFileFacts RaftPersistentLog.
From S2P Require Import RaftLogHistory.
#[local] Open Scope Z_scope.
#[local] Opaque segment_header_bytes record_bytes.

Definition log_name (n : Z) : FileName := segment_name n kSegmentSuffix.

(** The bytes of a segment file; only the last one has bytes after its records. *)
Definition segment_data (n seq : Z) (rs : list LogRecord) (tail : list byte) : list byte :=
  segment_header_bytes n seq ++ frames rs ++ tail.
Definition tail_of {A} (more : list A) (tail : list byte) : list byte :=
  match more with [] => tail | _ => [] end.

(** Well-formed segments from number [n] and position [seq]. *)
Fixpoint segments_ok (n seq : Z) (segs : list (list LogRecord)) (tail : list byte) : Prop :=
  match segs with
  | [] => True
  | rs :: more =>
      header_number_ok n /\ header_number_ok seq /\ sequenced seq rs /\
      blen (segment_data n seq rs (tail_of more tail)) <= kMaximumRaftSegmentSize /\
      segments_ok (n + 1) (seq + blen rs) more tail
  end.
(** The disk holds these segments. *)
Fixpoint holds (d : Disk) (n seq : Z) (segs : list (list LogRecord)) (tail : list byte) : Prop :=
  match segs with
  | [] => True
  | rs :: more =>
      (exists f, d_names d !! log_name n = Some (kRegularFile, f) /\
         d_data d !! f = Some (segment_data n seq rs (tail_of more tail))) /\
      holds d (n + 1) (seq + blen rs) more tail
  end.
(** The files and the record counts of the segments. *)
Fixpoint numbered_files (n : Z) (segs : list (list LogRecord)) : list NumberedFile :=
  match segs with [] => [] | _ :: more => (n, log_name n) :: numbered_files (n + 1) more end.
Fixpoint counts_of (n : Z) (segs : list (list LogRecord)) : list (Z * Z) :=
  match segs with [] => [] | rs :: more => (n, blen rs) :: counts_of (n + 1) more end.
Definition states_of (segs : list (list LogRecord)) : list GroupPersistentState := (concat segs).*2.

Lemma segments_ok_app a b : forall n seq tail,
  b <> [] ->
  segments_ok n seq (a ++ b) tail <->
  segments_ok n seq a [] /\ segments_ok (n + blen a) (seq + blen (concat a)) b tail.
Proof.
  induction a as [|rs a IH]; intros n seq tail Hb; cbn [app segments_ok length concat].
  - rewrite !Z.add_0_r. naive_solver.
  - rewrite IH by done. rewrite length_app.
    replace (tail_of (a ++ b) tail) with (@nil byte) by (by destruct a, b).
    replace (tail_of a []) with (@nil byte) by (by destruct a).
    replace (n + 1 + blen a) with (n + Z.of_nat (S (length a))) by lia.
    replace (seq + blen rs + blen (concat a)) with (seq + Z.of_nat (length rs + length (concat a))) by lia.
    naive_solver.
Qed.
Lemma holds_app d a b : forall n seq tail,
  b <> [] ->
  holds d n seq (a ++ b) tail <->
  holds d n seq a [] /\ holds d (n + blen a) (seq + blen (concat a)) b tail.
Proof.
  induction a as [|rs a IH]; intros n seq tail Hb; cbn [app holds length concat].
  - rewrite !Z.add_0_r. naive_solver.
  - rewrite IH by done. rewrite length_app.
    replace (tail_of (a ++ b) tail) with (@nil byte) by (by destruct a, b).
    replace (tail_of a []) with (@nil byte) by (by destruct a).
    replace (n + 1 + blen a) with (n + Z.of_nat (S (length a))) by lia.
    replace (seq + blen rs + blen (concat a)) with (seq + Z.of_nat (length rs + length (concat a))) by lia.
    naive_solver.
Qed.
Lemma numbered_files_app n a b :
  numbered_files n (a ++ b) = numbered_files n a ++ numbered_files (n + blen a) b.
Proof.
  revert n. induction a as [|rs a IH]; intros n; cbn [app numbered_files length]; [by rewrite Z.add_0_r|].
  f_equal. rewrite IH. do 2 f_equal. lia.
Qed.
Lemma counts_of_app n a b : counts_of n (a ++ b) = counts_of n a ++ counts_of (n + blen a) b.
Proof.
  revert n. induction a as [|rs a IH]; intros n; cbn [app counts_of length]; [by rewrite Z.add_0_r|].
  f_equal. rewrite IH. do 2 f_equal. lia.
Qed.
Lemma counts_of_keys n segs k : k ∈ (counts_of n segs).*1 -> n <= k < n + blen segs.
Proof.
  revert n. induction segs as [|rs segs IH]; intros n H; [by apply elem_of_nil in H|].
  cbn [counts_of length] in *. rewrite fmap_cons in H. apply elem_of_cons in H as [->|H]; [cbn; lia|].
  apply IH in H. lia.
Qed.
Lemma length_numbered_files n segs : length (numbered_files n segs) = length segs.
Proof. revert n. induction segs; intros n; cbn; [done|]. by rewrite IHsegs. Qed.

Lemma segments_sequenced segs : forall n seq tail, segments_ok n seq segs tail -> sequenced seq (concat segs).
Proof.
  induction segs as [|rs segs IH]; intros n seq tail H; [done|]. cbn [concat segments_ok] in *.
  destruct H as (_ & _ & Hs & _ & H). apply log_sequenced_app. split; [done|]. by eapply IH.
Qed.
Lemma sequenced_lookup rs : forall seq k p,
  sequenced seq rs -> rs.*2 !! k = Some p -> gp_physical_sequence p = seq + Z.of_nat k.
Proof.
  induction rs as [|r rs IH]; intros seq k p Hs Hk; [done|]. destruct Hs as (_ & Hr & Hs).
  destruct k as [|k]; cbn in Hk; [injection Hk as <-; lia|]. rewrite (IH _ _ _ Hs Hk). lia.
Qed.
Lemma sequenced_Forall rs : forall seq, sequenced seq rs -> Forall (fun r => record_ok r.1 r.2) rs.
Proof. induction rs as [|r rs IH]; intros seq H; constructor; [apply H|]. eapply IH, H. Qed.

(** * Reading the segments *)

Section segments.
Context {W : Type} {HIO : PosixIo W} {HL : PosixLaws W}.
Context (config : RaftPersistentLogConfig) (repair : bool) (anchor : option RecoveryAnchor).

Lemma length_segment_data n seq rs tail :
  blen (segment_data n seq rs tail) = 64 + (blen (frames rs) + blen tail).
Proof. unfold segment_data. rewrite !length_app, length_log_segment_header. lia. Qed.

Lemma wp_recover_segment f n seq rs tail is_final before after st (w : W) E :
  reliable w -> d_names (disk w) !! log_name n = Some (kRegularFile, f) ->
  d_data (disk w) !! f = Some (segment_data n seq rs tail) ->
  header_number_ok n -> header_number_ok seq -> sequenced seq rs ->
  blen (segment_data n seq rs tail) <= kMaximumRaftSegmentSize -> incomplete tail ->
  acceptable config anchor (before ++ rs.*2 ++ after) -> recovered_to anchor before st ->
  seq = start_sequence anchor + blen before + 1 -> rv_repaired_bytes st = 0 ->
  (tail <> [] -> is_final = true /\ repair = true /\
     (checkpoint_length anchor <= length (before ++ rs.*2))%nat) ->
  wp (recover_segment config repair anchor (n, log_name n) is_final st) w
    (fun st' w' => recovered_to anchor (before ++ rs.*2) st' /\
       rv_counts st' = om_emplace Z.compare n (blen rs) (rv_counts st) /\
       rv_repaired_bytes st' = blen tail /\ rv_active_end st' = 64 + blen (frames rs) /\
       disk w' = cut_disk f (64 + blen (frames rs)) tail (disk w) /\ reliable w') E.
Proof.
  intros Hr Hn Hd Hhn Hhs Hseq Hmax Hinc Hacc Hst Es Hrep Htail. unfold recover_segment. cbn [fst snd].
  pose proof (length_segment_data n seq rs tail) as Hlen. unfold kMaximumRaftSegmentSize in *.
  apply wp_bind. wp_call (law_open (log_name n) (if is_final then kReadWrite else kReadOnly)); [done|by exists f|].
  intros f1 w1 (D1 & Hf1) Hr1. rewrite Hn in Hf1. injection Hf1 as <-.
  apply wp_bind. wp_call (law_size f); [done|by rewrite D1; eauto|].
  intros size w2 (D2 & data & Hd2 & ->) Hr2. rewrite D1, Hd in Hd2. injection Hd2 as <-. rewrite D1 in D2.
  set (data := segment_data n seq rs tail) in *.
  unfold kRaftSegmentHeaderSize. rewrite (proj2 (Z.ltb_ge _ _)), gtb_false by lia. cbn [orb].
  apply wp_bind. eapply wp_mono; [by apply (wp_read_exact f 0 64 data); rewrite ?D2; try done; lia| |done].
  intros bs w3 (-> & D3 & Hr3). rewrite D2 in D3. apply wp_bind, wp_pure.
  assert (Hh : subspan data 0 64 = segment_header_bytes n seq)
    by (apply first_app; by rewrite length_log_segment_header).
  rewrite Hh, decode_log_header_complete by done. cbn [rs_first_sequence].
  rewrite (rt_last _ _ _ Hst). destruct Hhs as [Hw Hs0].
  rewrite (proj2 (Z.eqb_neq _ _)), (proj2 (Z.eqb_eq _ _)) by width_lia. cbn [orb negb]. apply wp_bind.
  assert (Hdata : data = segment_header_bytes n seq ++ frames rs ++ tail) by done.
  replace 64 with (blen (segment_header_bytes n seq)) at 1 by (by rewrite length_log_segment_header).
  pose proof (frames_size _ _ Hseq) as Hfs. clearbody data.
  eapply wp_mono.
  - apply (wp_recover_records config repair anchor f is_final data tail rs (Z.to_nat (blen data))
             (segment_header_bytes n seq) before after 0 st w3 E);
      [done|by rewrite D3|done|lia|done|lia|by eapply sequenced_Forall|done..].
  - intros [[st' off] cnt] w' (st1 & [= -> -> ->] & Hst' & Hc & Hp & D' & Hr'). apply wp_ret.
    rewrite length_log_segment_header in *. split_and!; try done; [by destruct Hst'|by cbn; rewrite Hc|].
    by rewrite D', D3.
  - done.
Qed.

Lemma incomplete_nil : incomplete [].
Proof. left. cbn. lia. Qed.

(** The segments before the last are read without a change of the disk. *)
Lemma wp_recover_closed rest (Q : Recovering -> W -> Prop) E : rest <> [] ->
  forall sgs n seq before after st (w : W),
  reliable w -> segments_ok n seq sgs [] -> holds (disk w) n seq sgs [] ->
  acceptable config anchor (before ++ states_of sgs ++ after) -> recovered_to anchor before st ->
  seq = start_sequence anchor + blen before + 1 -> rv_repaired_bytes st = 0 ->
  (forall k, k ∈ (rv_counts st).*1 -> k < n) ->
  (forall st' w', recovered_to anchor (before ++ states_of sgs) st' ->
     rv_counts st' = rv_counts st ++ counts_of n sgs -> rv_repaired_bytes st' = 0 ->
     disk w' = disk w -> reliable w' -> wp (recover_segments config repair anchor rest st') w' Q E) ->
  wp (recover_segments config repair anchor (numbered_files n sgs ++ rest) st) w Q E.
Proof.
  intros Hrest. induction sgs as [|rs sgs IH]; intros n seq before after st w Hr Hok Hh Hacc Hst Es Hrep Hk HQ.
  - cbn [numbered_files app]. apply HQ; try done; cbn; by rewrite app_nil_r.
  - cbn [numbered_files app recover_segments segments_ok holds] in *.
    destruct Hok as (Hn & Hs & Hseq & Hmax & Hok). destruct Hh as [(f & Hnm & Hd) Hh].
    replace (tail_of sgs []) with (@nil byte) in * by (by destruct sgs).
    rewrite bool_decide_eq_false_2 by (by destruct sgs, rest).
    unfold states_of in Hacc, HQ |- *. cbn [concat] in Hacc, HQ. rewrite fmap_app in Hacc, HQ.
    rewrite <- app_assoc in Hacc. apply wp_bind.
    eapply wp_mono; [apply (wp_recover_segment f n seq rs [] false before
      (states_of sgs ++ after) st w E); try done; apply incomplete_nil| |done].
    intros st1 w1 (Hst1 & Hc1 & Hp1 & _ & D1 & Hr1). cbn [cut_disk] in D1.
    unfold cut_disk in D1. rewrite bool_decide_eq_true_2 in D1 by done.
    rewrite om_emplace_end in Hc1 by (apply Z_compare_flip || apply Hk).
    apply (IH (n + 1) (seq + blen rs) (before ++ rs.*2) after st1 w1); try done.
    + by rewrite D1.
    + by rewrite <- app_assoc.
    + rewrite length_app, length_fmap. lia.
    + intros k. rewrite Hc1, fmap_app, elem_of_app. cbn. intros [H|H]; [apply Hk in H; lia|].
      apply list_elem_of_singleton in H. lia.
    + intros st' w' Hst' Hc' Hp' D' Hr'. unfold states_of in Hst'. rewrite <- app_assoc in Hst'.
      apply HQ; try done; [|by rewrite D', D1].
      rewrite Hc', Hc1, <- app_assoc. done.
Qed.

(** All segments, with the end of the last file cut off. *)
Lemma wp_recover_segments sgs lg tail n seq st (w : W) E :
  reliable w -> segments_ok n seq (sgs ++ [lg]) tail -> holds (disk w) n seq (sgs ++ [lg]) tail ->
  incomplete tail -> acceptable config anchor (states_of (sgs ++ [lg])) -> recovered_to anchor [] st ->
  seq = start_sequence anchor + 1 -> rv_repaired_bytes st = 0 -> rv_counts st = [] ->
  (tail <> [] -> repair = true /\ (checkpoint_length anchor <= length (states_of (sgs ++ [lg])))%nat) ->
  wp (recover_segments config repair anchor (numbered_files n (sgs ++ [lg])) st) w
    (fun st' w' => recovered_to anchor (states_of (sgs ++ [lg])) st' /\
       rv_counts st' = counts_of n (sgs ++ [lg]) /\ rv_repaired_bytes st' = blen tail /\
       rv_active_end st' = 64 + blen (frames lg) /\ reliable w' /\
       exists f, d_names (disk w) !! log_name (n + blen sgs) = Some (kRegularFile, f) /\
         disk w' = cut_disk f (64 + blen (frames lg)) tail (disk w)) E.
Proof.
  intros Hr Hok Hh Hinc Hacc Hst Es Hrep Hc Htail.
  assert (Hst_app : states_of (sgs ++ [lg]) = states_of sgs ++ lg.*2)
    by (unfold states_of; rewrite concat_app, fmap_app; cbn; by rewrite app_nil_r).
  rewrite segments_ok_app in Hok by done. rewrite holds_app in Hh by done.
  destruct Hok as [Hok1 (Hn & Hs & Hseq & Hmax & _)], Hh as [Hh1 [(f & Hnm & Hd) _]]. cbn [tail_of] in *.
  rewrite numbered_files_app. cbn [numbered_files]. rewrite Hst_app in *.
  apply (wp_recover_closed [(n + blen sgs, log_name (n + blen sgs))] _ E ltac:(done) sgs n seq [] (lg.*2) st w); try done.
  - cbn. lia.
  - rewrite Hc. intros k Hk. by apply elem_of_nil in Hk.
  - intros st1 w1 Hst1 Hc1 Hp1 D1 Hr1. cbn [recover_segments app] in *.
    rewrite bool_decide_eq_true_2 by done. apply wp_bind.
    eapply wp_mono; [apply (wp_recover_segment f (n + blen sgs)
      (seq + blen (concat sgs)) lg tail true (states_of sgs) [] st1 w1 E); try done| |done].
    + by rewrite D1.
    + by rewrite D1.
    + by rewrite app_nil_r.
    + unfold states_of. rewrite length_fmap. lia.
    + intros Ht. destruct (Htail Ht). done.
    + intros st' w' (Hst' & Hc' & Hp' & He' & D' & Hr'). apply wp_ret. split_and!; try done.
      * rewrite Hc', Hc1, Hc. rewrite counts_of_app. cbn [app counts_of].
        rewrite om_emplace_end; [done|apply Z_compare_flip|].
        intros k Hk. apply counts_of_keys in Hk. change (k < n + blen sgs). lia.
      * exists f. by rewrite D', D1.
Qed.
End segments.
