(* ===== verification/RaftLogDirectory.v ===== *)
(** The directory of a persistent Raft log as opening sees it: classification
    sorts the entries into segments, anchors and temporaries, the retained
    segments are those from the base on, and the rest is removed. *)
From stdpp Require Import sorting.
From S2P Require Import Prelude Bytes Crc32c Reading RaftTypes RaftMembership RaftLogCodec RaftLogRecord.
From S2P Require Import OrderedMap PosixIo DiskFacts WalPaths RaftLogFiles RaftLogFileFacts RaftPersistentLog.
From S2P Require Import RaftLogHistory RaftLogSegments.
#[local] Open Scope Z_scope.
#[local] Opaque segment_header_bytes record_bytes anchor_bytes.

(** * The order of the files *)

#[global] Instance numbered_le_trans : Transitive numbered_le.
Proof.
  intros a b c [H1|[E1 H1]] [H2|[E2 H2]]; unfold numbered_le; [lia..|]. right. split; [lia|].
  destruct (uuid_compare a.2 b.2) eqn:C1; [|destruct (uuid_compare b.2 c.2) eqn:C2|done].
  - apply uuid_compare_Eq in C1. by rewrite C1.
  - apply uuid_compare_Eq in C2. by rewrite <- C2, C1.
  - by rewrite (uuid_compare_trans _ _ _ C1 C2).
  - done.
Qed.
#[global] Instance numbered_le_total : Total numbered_le.
Proof.
  intros a b. unfold numbered_le. rewrite (uuid_compare_flip a.2 b.2).
  destruct (Z.lt_trichotomy a.1 b.1) as [|[|]]; [by left; left| |by right; left].
  destruct (uuid_compare a.2 b.2); cbn; [left|left|right]; right; done.
Qed.
#[global] Instance numbered_le_antisym : AntiSymm (=) numbered_le.
Proof.
  intros [a x] [b y]. unfold numbered_le. cbn [fst snd]. intros [H1|[E1 H1]] [H2|[E2 H2]]; try lia.
  subst b. f_equal. apply uuid_compare_Eq. rewrite uuid_compare_flip in H2.
  by destruct (uuid_compare x y).
Qed.

Lemma retained_filter b l :
  StronglySorted numbered_le l -> retained_from b l = filter (fun x => b <= x.1) l.
Proof.
  induction 1 as [|x l Hs IH Hall]; [done|]. cbn [retained_from].
  destruct (Z.ltb_spec x.1 b) as [Hlt|Hge]; [by rewrite filter_cons_False by lia|].
  rewrite filter_cons_True by lia. f_equal. symmetry. clear IH. induction l as [|y l IHl]; [done|].
  apply Forall_cons in Hall as [Hy Hall]. rewrite filter_cons_True by (destruct Hy; lia). f_equal.
  apply IHl; [|done]. by apply StronglySorted_inv in Hs as [].
Qed.
Lemma stale_filter b l :
  StronglySorted numbered_le l -> stale_before b l = (filter (fun x => x.1 < b) l).*2.
Proof.
  induction 1 as [|x l Hs IH Hall]; [done|]. cbn [stale_before]. rewrite Z.geb_leb.
  destruct (Z.leb_spec b x.1) as [Hge|Hlt]; cycle 1.
  { by rewrite filter_cons_True, fmap_cons, IH by lia. }
  rewrite filter_cons_False by lia. clear IH. symmetry. induction l as [|y l IHl]; [done|].
  apply Forall_cons in Hall as [Hy Hall]. rewrite filter_cons_False by (destruct Hy; lia).
  apply IHl; [|done]. by apply StronglySorted_inv in Hs as [].
Qed.
Lemma filter_sorted {A} (R : A -> A -> Prop) (P : A -> Prop) `{forall x, Decision (P x)} l :
  StronglySorted R l -> StronglySorted R (filter P l).
Proof.
  induction 1 as [|x l Hs IH Hall]; [constructor|]. rewrite filter_cons. case_decide; [|done].
  constructor; [done|]. rewrite Forall_forall in *. intros y Hy.
  apply list_elem_of_filter in Hy as [_ Hy]. by apply Hall.
Qed.

(** * The files of the log *)

Lemma elem_numbered_files n segs x :
  x ∈ numbered_files n segs <-> exists j, n <= j < n + blen segs /\ x = (j, log_name j).
Proof.
  revert n. induction segs as [|sg segs IH]; intros n; cbn [numbered_files length].
  - split; [by intros ?%elem_of_nil|]. intros (j & Hj & _). lia.
  - rewrite elem_of_cons, IH. split.
    + intros [->|(j & Hj & ->)]; [exists n|exists j]; (split; [lia|done]).
    + intros (j & Hj & ->). destruct (decide (j = n)) as [->|]; [by left|].
      right. exists j. split; [lia|done].
Qed.
Lemma numbered_files_sorted n segs : StronglySorted numbered_le (numbered_files n segs).
Proof.
  revert n. induction segs as [|sg segs IH]; intros n; cbn [numbered_files]; constructor; [done|].
  apply Forall_forall. intros x Hx. apply elem_numbered_files in Hx as (j & Hj & ->). left. cbn. lia.
Qed.
Lemma numbered_files_NoDup n segs : NoDup (numbered_files n segs).
Proof.
  revert n. induction segs as [|sg segs IH]; intros n; cbn [numbered_files]; constructor; [|done].
  intros Hx. apply elem_numbered_files in Hx as (j & Hj & E). injection E as E _. lia.
Qed.
Lemma contiguous_files segs : forall n,
  0 <= n -> n + blen segs - 1 <= max_u64 -> contiguous n (numbered_files n segs) = true.
Proof.
  induction segs as [|sg segs IH]; intros n Hn Hm; [done|]. cbn [numbered_files contiguous length fst] in *.
  rewrite wrap_small by width_lia. rewrite Z.eqb_refl. cbn [andb]. apply IH; lia.
Qed.

(** * Classification *)

Definition segment_entry (e : DirectoryEntry) : option NumberedFile :=
  match name_kind (entry_name e) with NSegment n => Some (n, entry_name e) | _ => None end.
Definition anchor_entry (e : DirectoryEntry) : option NumberedFile :=
  match name_kind (entry_name e) with NAnchor n => Some (n, entry_name e) | _ => None end.
Definition temporary_entry (e : DirectoryEntry) : option FileName :=
  match name_kind (entry_name e) with NTemporary => Some (entry_name e) | _ => None end.
Definition recognised (e : DirectoryEntry) : Prop :=
  entry_type e = kRegularFile /\ (entry_name e = kLockName \/ name_kind (entry_name e) <> NUnknown).

Lemma classify_entries_exact es :
  Forall recognised es ->
  classify_entries es = Ok {| ld_segments := omap segment_entry es; ld_anchors := omap anchor_entry es;
                              ld_temporaries := omap temporary_entry es |}.
Proof.
  induction es as [|e es IH]; intros Hall; [done|]. apply Forall_cons in Hall as [[Hreg Hk] Hall].
  specialize (IH Hall). cbn [classify_entries omap list_omap]. rewrite Hreg.
  rewrite (bool_decide_eq_true_2 (kRegularFile = kRegularFile)) by done. cbn [negb].
  case_bool_decide as Hl.
  - unfold segment_entry at 1, anchor_entry at 1, temporary_entry at 1. rewrite Hl, name_kind_lock. exact IH.
  - destruct Hk as [Hk|Hk]; [done|]. unfold segment_entry at 1, anchor_entry at 1, temporary_entry at 1.
    unfold name_kind in Hk |- *. destruct (_ || _); [by rewrite IH|].
    destruct (parse_recovery_anchor_name _ _); [by rewrite IH|].
    destruct (parse_segment_name _); [by rewrite IH|done].
Qed.

(** The three lists of a listing, by their members. *)
Lemma elem_segment_entries (d : Disk) es x :
  es ≡ₚ listing d ->
  x ∈ omap segment_entry es <->
  is_Some (d_names d !! x.2) /\ segment_number_ok x.1 /\ x.2 = log_name x.1.
Proof.
  intros Hp. rewrite list_elem_of_omap. split.
  - intros ([name ty] & He & Hx). rewrite Hp, elem_listing in He. destruct He as [f Hf].
    unfold segment_entry in Hx. cbn [entry_name] in Hx. pose proof (name_kind_inv name) as Hk.
    destruct (name_kind name); try done. injection Hx as <-. cbn. destruct Hk as [Hn ->]. eauto.
  - intros ([[ty f] Hf] & Hn & E). exists {| entry_name := x.2; entry_type := ty |}.
    rewrite Hp, elem_listing. split; [eauto|]. unfold segment_entry. cbn [entry_name].
    replace (name_kind x.2) with (NSegment x.1); [by destruct x|]. rewrite E. symmetry. by apply name_kind_segment.
Qed.
Lemma elem_anchor_entries (d : Disk) es x :
  es ≡ₚ listing d ->
  x ∈ omap anchor_entry es <->
  is_Some (d_names d !! x.2) /\ segment_number_ok x.1 /\ x.2 = recovery_anchor_name x.1 kRecoveryAnchorSuffix.
Proof.
  intros Hp. rewrite list_elem_of_omap. split.
  - intros ([name ty] & He & Hx). rewrite Hp, elem_listing in He. destruct He as [f Hf].
    unfold anchor_entry in Hx. cbn [entry_name] in Hx. pose proof (name_kind_inv name) as Hk.
    destruct (name_kind name); try done. injection Hx as <-. cbn. destruct Hk as [Hn ->]. eauto.
  - intros ([[ty f] Hf] & Hn & E). exists {| entry_name := x.2; entry_type := ty |}.
    rewrite Hp, elem_listing. split; [eauto|]. unfold anchor_entry. cbn [entry_name].
    replace (name_kind x.2) with (NAnchor x.1); [by destruct x|]. rewrite E. symmetry. by apply name_kind_anchor.
Qed.
Lemma elem_temporary_entries (d : Disk) es name :
  es ≡ₚ listing d ->
  name ∈ omap temporary_entry es <-> is_Some (d_names d !! name) /\ name_kind name = NTemporary.
Proof.
  intros Hp. rewrite list_elem_of_omap. split.
  - intros ([nm ty] & He & Hx). rewrite Hp, elem_listing in He. destruct He as [f Hf].
    unfold temporary_entry in Hx. cbn [entry_name] in Hx.
    destruct (name_kind nm) eqn:Hk; try done. injection Hx as <-. eauto.
  - intros ([[ty f] Hf] & Hk). exists {| entry_name := name; entry_type := ty |}.
    rewrite Hp, elem_listing. split; [eauto|]. unfold temporary_entry. cbn [entry_name]. by rewrite Hk.
Qed.

Lemma omap_names_NoDup {A} (f : DirectoryEntry -> option A) (name_of : A -> FileName) es :
  (forall e a, f e = Some a -> name_of a = entry_name e) ->
  NoDup (entry_name <$> es) -> NoDup (name_of <$> omap f es).
Proof.
  intros Hf. induction es as [|e es IH]; [intros; constructor|]. rewrite fmap_cons.
  intros [Hne Hnd]%NoDup_cons. cbn [omap list_omap]. destruct (f e) as [a|] eqn:E; [|by apply IH].
  rewrite fmap_cons. constructor; [|by apply IH]. intros (a' & Ha' & Hin)%list_elem_of_fmap.
  apply list_elem_of_omap in Hin as (e' & He' & E'). apply Hne.
  rewrite <- (Hf _ _ E), Ha', (Hf _ _ E'). by apply list_elem_of_fmap_2.
Qed.
Lemma omap_NoDup {A} (f : DirectoryEntry -> option A) (name_of : A -> FileName) es :
  (forall e a, f e = Some a -> name_of a = entry_name e) ->
  NoDup (entry_name <$> es) -> NoDup (omap f es).
Proof. intros Hf Hnd. eapply NoDup_fmap_1, (omap_names_NoDup f name_of); done. Qed.

Lemma segment_entry_name e a : segment_entry e = Some a -> a.2 = entry_name e.
Proof. unfold segment_entry. destruct (name_kind _); try done. by intros [= <-]. Qed.
Lemma anchor_entry_name e a : anchor_entry e = Some a -> a.2 = entry_name e.
Proof. unfold anchor_entry. destruct (name_kind _); try done. by intros [= <-]. Qed.
Lemma temporary_entry_name e a : temporary_entry e = Some a -> a = entry_name e.
Proof. unfold temporary_entry. destruct (name_kind _); try done. by intros [= <-]. Qed.

(** * The directory of a log *)

Definition anchor_name (n : Z) : FileName := recovery_anchor_name n kRecoveryAnchorSuffix.
Abbreviation Names := (gmap FileName (DirectoryEntryType * PosixFile)) (only parsing).

(** A directory with the segments [b .. b + m - 1], and an anchor for [b] when
    [anchored]; it may have temporaries, older segments and older anchors too. *)
Record log_directory (names : Names) (b : Z) (m : nat) (anchored : bool) : Prop := {
  ldir_lock : exists f, names !! kLockName = Some (kRegularFile, f);
  ldir_range : 1 <= b /\ b + Z.of_nat m - 1 <= max_u64 /\ (0 < m)%nat;
  ldir_present : forall j, b <= j < b + Z.of_nat m -> is_Some (names !! log_name j);
  ldir_anchor : anchored = true -> is_Some (names !! anchor_name b);
  ldir_known : forall name e, names !! name = Some e -> e.1 = kRegularFile /\
    (name = kLockName \/
     match name_kind name with
     | NTemporary => True
     | NSegment n => n < b + Z.of_nat m
     | NAnchor n => anchored = true /\ n <= b
     | NUnknown => False
     end) }.
(** The names that stay. *)
Definition kept (b : Z) (m : nat) (anchored : bool) (name : FileName) : Prop :=
  name = kLockName \/ (exists j, b <= j < b + Z.of_nat m /\ name = log_name j) \/
  (anchored = true /\ name = anchor_name b).

#[global] Instance kept_dec b m anchored name : Decision (kept b m anchored name).
Proof.
  assert (H : (exists j, b <= j < b + Z.of_nat m /\ name = log_name j) <->
    name ∈ log_name <$> seqZ b (Z.of_nat m)).
  { rewrite list_elem_of_fmap. setoid_rewrite elem_of_seqZ. naive_solver. }
  unfold kept. apply or_dec; [apply _|]. apply or_dec; [|apply _].
  destruct (decide (name ∈ log_name <$> seqZ b (Z.of_nat m))); [left|right]; by rewrite H.
Defined.

Section directory.
Context (d : Disk) (es : list DirectoryEntry) (b : Z) (m : nat) (anchored : bool).
Context (Hdir : log_directory (d_names d) b m anchored) (Hes : es ≡ₚ listing d).

Lemma directory_recognised : Forall recognised es.
Proof.
  apply Forall_forall. intros [name ty] He. rewrite Hes, elem_listing in He. destruct He as [f Hf].
  destruct (ldir_known _ _ _ _ Hdir _ _ Hf) as [Hr Hk]. split; [exact Hr|]. cbn [entry_name].
  destruct Hk as [|Hk]; [by left|right]. intros E. by rewrite E in Hk.
Qed.
Lemma directory_range j : b <= j < b + Z.of_nat m -> segment_number_ok j.
Proof. pose proof (ldir_range _ _ _ _ Hdir). unfold segment_number_ok. lia. Qed.

Lemma segment_known n : segment_number_ok n -> is_Some (d_names d !! log_name n) -> n < b + Z.of_nat m.
Proof.
  intros Hn [e He]. destruct (ldir_known _ _ _ _ Hdir _ _ He) as [_ [Hk|Hk]].
  - exfalso. pose proof (name_kind_segment n Hn) as H. fold (log_name n) in H.
    by rewrite Hk, name_kind_lock in H.
  - unfold log_name in Hk. by rewrite name_kind_segment in Hk.
Qed.
Lemma anchor_known n :
  segment_number_ok n -> is_Some (d_names d !! anchor_name n) -> anchored = true /\ n <= b.
Proof.
  intros Hn [e He]. destruct (ldir_known _ _ _ _ Hdir _ _ He) as [_ [Hk|Hk]].
  - exfalso. pose proof (name_kind_anchor n Hn) as H. fold (anchor_name n) in H.
    by rewrite Hk, name_kind_lock in H.
  - unfold anchor_name in Hk. by rewrite name_kind_anchor in Hk.
Qed.

Lemma segments_sorted : StronglySorted numbered_le (merge_sort numbered_le (omap segment_entry es)).
Proof. apply StronglySorted_merge_sort; apply _. Qed.
Lemma anchors_sorted : StronglySorted numbered_le (merge_sort numbered_le (omap anchor_entry es)).
Proof. apply StronglySorted_merge_sort; apply _. Qed.
Lemma listed_NoDup : NoDup (entry_name <$> es).
Proof. rewrite Hes. apply listing_NoDup. Qed.

Lemma directory_retained segs :
  length segs = m ->
  retained_from b (merge_sort numbered_le (omap segment_entry es)) = numbered_files b segs.
Proof.
  intros Hm. rewrite retained_filter by apply segments_sorted.
  apply (StronglySorted_unique numbered_le);
    [apply filter_sorted, segments_sorted|apply numbered_files_sorted|].
  apply NoDup_Permutation; [|apply numbered_files_NoDup|].
  - apply NoDup_filter. rewrite merge_sort_Permutation.
    apply (omap_NoDup segment_entry snd); [apply segment_entry_name|apply listed_NoDup].
  - intros x. rewrite list_elem_of_filter, merge_sort_Permutation, (elem_segment_entries d) by done.
    rewrite elem_numbered_files, Hm. split.
    + intros (Hb & Hx & Hn & E). exists x.1. split; [|by destruct x; cbn in *; subst].
      rewrite E in Hx. split; [done|]. by apply segment_known.
    + intros (j & Hj & ->). cbn. split; [lia|]. split; [by apply (ldir_present _ _ _ _ Hdir)|].
      split; [by apply directory_range|done].
Qed.

Lemma directory_segments_nonempty : omap segment_entry es <> [].
Proof.
  pose proof (ldir_range _ _ _ _ Hdir) as Hr. intros E.
  assert (Hin : (b, log_name b) ∈ omap segment_entry es).
  { apply (elem_segment_entries d); [done|]. cbn. split; [apply (ldir_present _ _ _ _ Hdir); lia|].
    split; [apply directory_range; lia|done]. }
  rewrite E in Hin. by apply elem_of_nil in Hin.
Qed.

Lemma directory_last_anchor :
  last (merge_sort numbered_le (omap anchor_entry es)) =
  if anchored then Some (b, anchor_name b) else None.
Proof.
  pose proof (ldir_range _ _ _ _ Hdir) as Hr.
  assert (Hmem : forall x, x ∈ merge_sort numbered_le (omap anchor_entry es) <->
    is_Some (d_names d !! x.2) /\ segment_number_ok x.1 /\ x.2 = anchor_name x.1).
  { intros x. rewrite merge_sort_Permutation. by apply elem_anchor_entries. }
  pose proof anchors_sorted as Hs. pose proof anchor_known as Hak.
  pose proof (ldir_anchor _ _ _ _ Hdir) as Han. assert (Hb : segment_number_ok b) by (apply directory_range; lia).
  clear Hr. destruct anchored.
  - assert (Hin : (b, anchor_name b) ∈ merge_sort numbered_le (omap anchor_entry es)).
    { apply Hmem. cbn. split; [by apply Han|done]. }
    destruct (merge_sort _ _) as [|x l _] using rev_ind; [by apply elem_of_nil in Hin|].
    rewrite last_snoc. f_equal.
    assert (Hx : x ∈ l ++ [x]) by set_solver. apply Hmem in Hx as (Hx & Hn & E).
    rewrite E in Hx. apply Hak in Hx as [_ Hle]; [|done].
    apply elem_of_app in Hin as [Hin|Hin]; [|by apply list_elem_of_singleton in Hin].
    assert (Hle2 : numbered_le (b, anchor_name b) x).
    { apply StronglySorted_app in Hs as (Hs & _). apply (Hs _ _ Hin). by left. }
    destruct x as [n name]. cbn in *. subst name. replace n with b; [done|].
    destruct Hle2; cbn in *; lia.
  - destruct (merge_sort _ _) as [|x l] eqn:E; [done|]. exfalso.
    assert (Hx : x ∈ x :: l) by (by left). apply Hmem in Hx as (Hx & Hn & Ex).
    rewrite Ex in Hx. by apply Hak in Hx as [? _].
Qed.

(** The names that opening removes. *)
Definition stale_names : list FileName :=
  omap temporary_entry es ++ stale_before b (merge_sort numbered_le (omap segment_entry es))
  ++ stale_anchors b (merge_sort numbered_le (omap anchor_entry es)).

Lemma elem_stale_segment name :
  name ∈ stale_before b (merge_sort numbered_le (omap segment_entry es)) <->
  exists n, segment_number_ok n /\ n < b /\ name = log_name n /\ is_Some (d_names d !! name).
Proof.
  rewrite stale_filter by apply segments_sorted. rewrite list_elem_of_fmap. split.
  - intros (x & -> & Hx). rewrite list_elem_of_filter, merge_sort_Permutation, (elem_segment_entries d) in Hx by done.
    destruct Hx as (Hb & Hs & Hn & E). by exists x.1.
  - intros (n & Hn & Hb & -> & Hs). exists (n, log_name n). split; [done|].
    rewrite list_elem_of_filter, merge_sort_Permutation, (elem_segment_entries d) by done. done.
Qed.
Lemma elem_stale_anchor name :
  name ∈ stale_anchors b (merge_sort numbered_le (omap anchor_entry es)) <->
  exists n, segment_number_ok n /\ n <> b /\ name = anchor_name n /\ is_Some (d_names d !! name).
Proof.
  unfold stale_anchors. rewrite list_elem_of_fmap. split.
  - intros (x & -> & Hx). rewrite list_elem_of_filter, merge_sort_Permutation, (elem_anchor_entries d) in Hx by done.
    destruct Hx as (Hb & Hs & Hn & E). by exists x.1.
  - intros (n & Hn & Hb & -> & Hs). exists (n, anchor_name n). split; [done|].
    rewrite list_elem_of_filter, merge_sort_Permutation, (elem_anchor_entries d) by done. done.
Qed.

Lemma stale_NoDup : NoDup stale_names.
Proof.
  pose proof listed_NoDup as Hnd. unfold stale_names. rewrite !NoDup_app. split_and!.
  - by apply (omap_NoDup temporary_entry id); [apply temporary_entry_name|].
  - intros name Ht. rewrite (elem_temporary_entries d) in Ht by done. destruct Ht as [_ Hk].
    rewrite elem_of_app, elem_stale_segment, elem_stale_anchor. unfold log_name, anchor_name.
    intros [(n & Hn & _ & -> & _)|(n & Hn & _ & -> & _)].
    + by rewrite name_kind_segment in Hk.
    + by rewrite name_kind_anchor in Hk.
  - rewrite stale_filter by apply segments_sorted.
    eapply sublist_NoDup; [|apply fmap_sublist, sublist_filter].
    rewrite merge_sort_Permutation. apply (omap_names_NoDup segment_entry snd); [apply segment_entry_name|done].
  - intros name Hs. rewrite elem_stale_segment in Hs. rewrite elem_stale_anchor.
    destruct Hs as (n & Hn & _ & -> & _). intros (n' & Hn' & _ & E & _).
    pose proof (name_kind_segment n Hn) as H1. pose proof (name_kind_anchor n' Hn') as H2.
    unfold log_name, anchor_name in E. by rewrite E, H2 in H1.
  - unfold stale_anchors. eapply sublist_NoDup; [|apply fmap_sublist, sublist_filter].
    rewrite merge_sort_Permutation. apply (omap_names_NoDup anchor_entry snd); [apply anchor_entry_name|done].
Qed.

Lemma elem_stale name : name ∈ stale_names <-> is_Some (d_names d !! name) /\ ~ kept b m anchored name.
Proof.
  pose proof (ldir_range _ _ _ _ Hdir) as Hr. assert (Hb : segment_number_ok b) by (apply directory_range; lia).
  unfold stale_names. rewrite !elem_of_app, elem_stale_segment, elem_stale_anchor, (elem_temporary_entries d) by done.
  unfold kept. split.
  - intros [[Hs Hk]|[(n & Hn & Hlt & -> & Hs)|(n & Hn & Hne & -> & Hs)]]; (split; [done|]).
    + intros [->|[(j & Hj & ->)|[_ ->]]].
      * by rewrite name_kind_lock in Hk.
      * unfold log_name in Hk. by rewrite name_kind_segment in Hk by by apply directory_range.
      * unfold anchor_name in Hk. by rewrite name_kind_anchor in Hk.
    + pose proof (name_kind_segment n Hn) as H1. fold (log_name n) in H1. intros [E|[(j & Hj & E)|[_ E]]].
      * by rewrite E, name_kind_lock in H1.
      * apply log_segment_inj in E; [lia|done|by apply directory_range].
      * rewrite E in H1. unfold anchor_name in H1. by rewrite name_kind_anchor in H1.
    + pose proof (name_kind_anchor n Hn) as H1. fold (anchor_name n) in H1. intros [E|[(j & Hj & E)|[_ E]]].
      * by rewrite E, name_kind_lock in H1.
      * rewrite E in H1. unfold log_name in H1. by rewrite name_kind_segment in H1 by by apply directory_range.
      * rewrite E in H1. unfold anchor_name in H1. rewrite name_kind_anchor in H1 by done. by injection H1.
  - intros [[e He] Hk]. destruct (ldir_known _ _ _ _ Hdir _ _ He) as [_ [->|Hkind]]; [naive_solver|].
    pose proof (name_kind_inv name) as Hinv. destruct (name_kind name) as [n|n| |] eqn:En; try done.
    + destruct Hinv as [Hn ->]. right. left. exists n. split_and!; try done.
      destruct (decide (n < b)); [done|]. exfalso. apply Hk. right. left. exists n. split; [lia|done].
    + destruct Hinv as [Hn ->]. right. right. exists n. split_and!; try done.
      intros ->. apply Hk. right. right. by destruct Hkind.
    + left. eauto.
Qed.
End directory.

(** * Removing files *)

Section removing.
Context {W : Type} {HIO : PosixIo W} {HL : PosixLaws W}.

Definition without (l : list FileName) (names : Names) : Names := foldl (fun n name => delete name n) names l.

Lemma lookup_without l : forall (names : Names) name,
  without l names !! name = if decide (name ∈ l) then None else names !! name.
Proof.
  induction l as [|x l IH]; intros names name; cbn [without foldl].
  - rewrite decide_False; [done|]. apply not_elem_of_nil.
  - fold (without l (delete x names)). rewrite IH. destruct (decide (name ∈ l)) as [H|H].
    + rewrite decide_True; [done|]. by right.
    + destruct (decide (name = x)) as [->|Hne].
      * rewrite decide_True by (by left). apply lookup_delete_eq.
      * rewrite decide_False by (rewrite elem_of_cons; naive_solver). by rewrite lookup_delete_ne.
Qed.

Lemma wp_remove_files l : forall (w : W) E,
  reliable w -> NoDup l ->
  (forall name, name ∈ l -> exists f, d_names (disk w) !! name = Some (kRegularFile, f)) ->
  wp (remove_files l) w
    (fun _ w' => disk w' = set_names (without l (d_names (disk w))) (disk w) /\ reliable w') E.
Proof.
  induction l as [|x l IH]; intros w E Hr Hnd Hin; cbn [remove_files].
  - apply wp_ret. split; [|done]. cbn. by destruct (disk w).
  - apply NoDup_cons in Hnd as [Hx Hnd]. apply wp_bind.
    wp_call (law_remove x); [done|by apply Hin; left|]. intros _ w1 [_ D1] Hr1.
    eapply wp_mono; [apply IH| |done]; try done.
    + intros name Hn. rewrite D1. cbn. rewrite lookup_delete_ne by (by intros ->). apply Hin. by right.
    + intros _ w2 [D2 Hr2]. split; [|done]. by rewrite D2, D1.
Qed.
End removing.
