(* ===== verification/RaftLogOpen.v ===== *)
(** Opening a persistent Raft log: from any disk that a log was left on, opening
    with repair returns a live log with the same history, whose recovered states
    are the latest of each group. *)
From stdpp Require Import sorting.
From S2P Require Import Prelude Bytes Crc32c Reading RaftTypes RaftMembership RaftLogCodec RaftLogRecord.
From S2P Require Import OrderedMap PosixIo DiskFacts WalPaths RaftLogFiles RaftLogFileFacts RaftPersistentLog.
From S2P Require Import RaftLogHistory RaftLogSegments RaftLogDirectory.
#[local] Open Scope Z_scope.
#[local] Opaque segment_header_bytes record_bytes anchor_bytes.

(** * A log on a disk *)

(** The disk read at its synchronised contents. *)
Definition durable_view (d : Disk) : Disk :=
  {| d_names := d_names d; d_data := d_synced d; d_synced_names := d_synced_names d;
     d_synced := d_synced d |}.

Definition is_some {A} (o : option A) : bool := match o with Some _ => true | None => false end.
(** The position of the first retained record. *)
Definition first_sequence (anchor : option RecoveryAnchor) : Z := start_sequence anchor + 1.

(** The file of the anchor, synchronised. *)
Definition anchor_held (d : Disk) (anchor : option RecoveryAnchor) : Prop :=
  match anchor with
  | None => True
  | Some a => anchor_ok a /\ exists f,
      d_names d !! anchor_name (ra_base_segment_number a) = Some (kRegularFile, f) /\
      d_data d !! f = Some (anchor_bytes a) /\ d_synced d !! f = Some (anchor_bytes a)
  end.

(** A disk a log was left on: the closed segments [sgs] are synchronised, the last
    one holds the records [lg] and then no whole record. *)
Record log_left (d : Disk) (anchor : option RecoveryAnchor) (sgs : list (list LogRecord))
    (lg : list LogRecord) (tail : list byte) : Prop := {
  ll_directory : log_directory (d_names d) (base_of anchor) (S (length sgs)) (is_some anchor);
  ll_anchor : anchor_held d anchor;
  ll_segments : segments_ok (base_of anchor) (first_sequence anchor) (sgs ++ [lg]) tail;
  ll_holds : holds d (base_of anchor) (first_sequence anchor) (sgs ++ [lg]) tail;
  ll_closed : holds (durable_view d) (base_of anchor) (first_sequence anchor) sgs [];
  ll_incomplete : incomplete tail;
  ll_covered : (checkpoint_length anchor <= length (states_of (sgs ++ [lg])))%nat;
  ll_differ : names_differ (d_names d);
  ll_files : disk_ok d }.

(** The numbers of the last segment. *)
Definition last_number (anchor : option RecoveryAnchor) (sgs : list (list LogRecord)) : Z :=
  base_of anchor + blen sgs.
Definition last_first (anchor : option RecoveryAnchor) (sgs : list (list LogRecord)) : Z :=
  first_sequence anchor + blen (concat sgs).
Definition last_data (anchor : option RecoveryAnchor) (sgs : list (list LogRecord))
    (lg : list LogRecord) : list byte :=
  segment_data (last_number anchor sgs) (last_first anchor sgs) lg [].

(** A live log: the members of [i] describe the log on the disk, and the records
    up to the durable position are synchronised. *)
Record log_ok (d : Disk) (i : LogImpl) (anchor : option RecoveryAnchor)
    (sgs : list (list LogRecord)) (lg : list LogRecord) : Prop := {
  lo_left : log_left d anchor sgs lg [];
  lo_clean : forall name, is_Some (d_names d !! name) ->
    kept (base_of anchor) (S (length sgs)) (is_some anchor) name;
  lo_synced_names : d_synced_names d = d_names d;
  lo_acceptable : acceptable (li_config i) anchor (states_of (sgs ++ [lg]));
  lo_config : validate_config (li_config i) = kOk;
  lo_open : li_open i = true;
  lo_active : d_names d !! log_name (last_number anchor sgs) = Some (kRegularFile, li_active_file i);
  lo_position : rr_written_position (li_recovered i) =
    {| rp_segment_number := last_number anchor sgs; rp_end_offset := 64 + blen (frames lg);
       rp_physical_sequence := start_sequence anchor + blen (states_of (sgs ++ [lg])) |};
  lo_segment_count : segment_count (li_recovered i) = blen sgs + 1 /\
    blen sgs + 1 <= rc_maximum_segments (li_config i);
  lo_record_count : record_count (li_recovered i) = blen (states_of (sgs ++ [lg]));
  lo_base : base_segment_number (li_recovered i) = base_of anchor;
  lo_known : li_known_groups i = groups_of (states_of (sgs ++ [lg]));
  lo_record_counts : li_segment_record_counts i = counts_of (base_of anchor) (sgs ++ [lg]);
  lo_anchors : li_recovery_anchors i = if is_some anchor then [base_of anchor] else [];
  lo_durable : exists k, (k <= length lg)%nat /\
    durable_physical_sequence (li_recovered i) =
      start_sequence anchor + blen (states_of sgs) + Z.of_nat k /\
    d_synced d !! li_active_file i = Some (last_data anchor sgs (take k lg)) /\
    (checkpoint_length anchor <= length (states_of sgs) + k)%nat }.

Lemma states_of_app a b : states_of (a ++ b) = states_of a ++ states_of b.
Proof. unfold states_of. by rewrite concat_app, fmap_app. Qed.
Lemma states_of_snoc sgs lg : states_of (sgs ++ [lg]) = states_of sgs ++ lg.*2.
Proof. rewrite states_of_app. unfold states_of at 2. cbn. by rewrite app_nil_r. Qed.

(** Segments that another disk holds unchanged. *)
Lemma holds_mono d d' segs tail : forall n seq,
  (forall j g bs, n <= j < n + blen segs ->
     d_names d !! log_name j = Some (kRegularFile, g) -> d_data d !! g = Some bs ->
     d_names d' !! log_name j = Some (kRegularFile, g) /\ d_data d' !! g = Some bs) ->
  holds d n seq segs tail -> holds d' n seq segs tail.
Proof.
  induction segs as [|rs segs IH]; intros n seq Hm H; [done|]. cbn [holds length] in *.
  destruct H as [(f & Hn & Hd) H]. split.
  - exists f. apply Hm; [lia|done|done].
  - apply IH; [|done]. intros j g bs Hj. apply Hm. lia.
Qed.

Section left.
Context (d : Disk) (anchor : option RecoveryAnchor) (sgs : list (list LogRecord))
  (lg : list LogRecord) (tail : list byte) (Hl : log_left d anchor sgs lg tail).

Lemma left_range : 1 <= base_of anchor /\ base_of anchor + blen sgs <= max_u64.
Proof. pose proof (ldir_range _ _ _ _ (ll_directory _ _ _ _ _ Hl)). lia. Qed.
Lemma left_number_ok j : base_of anchor <= j <= last_number anchor sgs -> segment_number_ok j.
Proof. pose proof left_range. unfold last_number, segment_number_ok. lia. Qed.

(** The parts of the last segment. *)
Lemma left_last :
  header_number_ok (last_number anchor sgs) /\ header_number_ok (last_first anchor sgs) /\
  sequenced (last_first anchor sgs) lg /\
  blen (segment_data (last_number anchor sgs) (last_first anchor sgs) lg tail) <= kMaximumRaftSegmentSize /\
  exists f, d_names d !! log_name (last_number anchor sgs) = Some (kRegularFile, f) /\
    d_data d !! f = Some (segment_data (last_number anchor sgs) (last_first anchor sgs) lg tail).
Proof.
  pose proof (ll_segments _ _ _ _ _ Hl) as Hs. rewrite segments_ok_app in Hs by done.
  pose proof (ll_holds _ _ _ _ _ Hl) as Hh. rewrite holds_app in Hh by done.
  destruct Hs as [_ (? & ? & ? & ? & _)], Hh as [_ [(f & ? & ?) _]]. split_and!; try done. by exists f.
Qed.
Lemma left_closed_segments : segments_ok (base_of anchor) (first_sequence anchor) sgs [].
Proof. pose proof (ll_segments _ _ _ _ _ Hl) as Hs. rewrite segments_ok_app in Hs by done. by destruct Hs. Qed.
Lemma left_closed_files : holds d (base_of anchor) (first_sequence anchor) sgs [].
Proof. pose proof (ll_holds _ _ _ _ _ Hl) as Hs. rewrite holds_app in Hs by done. by destruct Hs. Qed.

(** The file of the last segment has no other name. *)
Lemma left_file_other f j g :
  d_names d !! log_name (last_number anchor sgs) = Some (kRegularFile, f) ->
  base_of anchor <= j < last_number anchor sgs ->
  d_names d !! log_name j = Some (kRegularFile, g) -> g <> f.
Proof.
  intros Hf Hj Hg ->. pose proof (ll_differ _ _ _ _ _ Hl _ _ _ _ Hf Hg eq_refl) as E.
  apply log_segment_inj in E; [lia|apply left_number_ok; lia..].
Qed.
Lemma left_anchor_other f g n :
  d_names d !! log_name (last_number anchor sgs) = Some (kRegularFile, f) -> segment_number_ok n ->
  d_names d !! anchor_name n = Some (kRegularFile, g) -> g <> f.
Proof.
  intros Hf Hn Hg ->. pose proof (ll_differ _ _ _ _ _ Hl _ _ _ _ Hf Hg eq_refl) as E.
  pose proof (name_kind_segment (last_number anchor sgs)) as H1. unfold log_name in E.
  rewrite E in H1. unfold anchor_name in H1. rewrite name_kind_anchor in H1 by done.
  pose proof left_range. assert (H2 : NAnchor n = NSegment (last_number anchor sgs)); [|done].
  apply H1, left_number_ok. unfold last_number. lia.
Qed.

(** The name of the anchor and the segments are kept. *)
Lemma kept_segment j :
  base_of anchor <= j <= last_number anchor sgs ->
  kept (base_of anchor) (S (length sgs)) (is_some anchor) (log_name j).
Proof. intros Hj. right. left. exists j. unfold last_number in Hj. split; [lia|done]. Qed.
End left.

(** A log whose last file changed, and which lost at most names that are not kept. *)
Lemma left_update d d' anchor sgs lg tail lg' tail' f :
  log_left d anchor sgs lg tail ->
  d_names d !! log_name (last_number anchor sgs) = Some (kRegularFile, f) ->
  (forall name e, d_names d' !! name = Some e -> d_names d !! name = Some e) ->
  (forall name, kept (base_of anchor) (S (length sgs)) (is_some anchor) name ->
     d_names d' !! name = d_names d !! name) ->
  (forall g, g <> f -> d_data d' !! g = d_data d !! g) ->
  (forall g, g <> f -> d_synced d' !! g = d_synced d !! g) ->
  d_data d' !! f = Some (segment_data (last_number anchor sgs) (last_first anchor sgs) lg' tail') ->
  sequenced (last_first anchor sgs) lg' ->
  blen (segment_data (last_number anchor sgs) (last_first anchor sgs) lg' tail') <= kMaximumRaftSegmentSize ->
  incomplete tail' -> (checkpoint_length anchor <= length (states_of (sgs ++ [lg'])))%nat ->
  log_left d' anchor sgs lg' tail'.
Proof.
  intros Hl Hf Hsub Hkept Hdata Hsyn Hdf Hseq Hmax Hinc Hcov.
  destruct (left_last _ _ _ _ _ Hl) as (Hn & Hs & _).
  pose proof (left_range _ _ _ _ _ Hl) as Hr.
  assert (Hseg : forall j g, base_of anchor <= j < base_of anchor + blen sgs ->
    d_names d !! log_name j = Some (kRegularFile, g) ->
    d_names d' !! log_name j = Some (kRegularFile, g) /\ g <> f).
  { intros j g Hj Hg. split; [|by eapply left_file_other].
    rewrite Hkept; [done|]. apply kept_segment. unfold last_number. lia. }
  pose proof (ll_directory _ _ _ _ _ Hl) as Hdir. split; try done.
  - split.
    + rewrite Hkept by (by left). apply (ldir_lock _ _ _ _ Hdir).
    + apply (ldir_range _ _ _ _ Hdir).
    + intros j Hj. rewrite Hkept by (apply kept_segment; unfold last_number; lia).
      by apply (ldir_present _ _ _ _ Hdir).
    + intros Ha. rewrite Hkept by (right; right; done). by apply (ldir_anchor _ _ _ _ Hdir).
    + intros name e He. apply (ldir_known _ _ _ _ Hdir). by apply Hsub.
  - pose proof (ll_anchor _ _ _ _ _ Hl) as Ha. unfold anchor_held in *.
    destruct anchor as [a|]; [|done]. destruct Ha as (Ha & g & Hg & Hgd & Hgs). split; [done|].
    exists g. assert (g <> f).
    { eapply left_anchor_other; [exact Hl|exact Hf| |exact Hg]. cbn in Hr. unfold segment_number_ok. lia. }
    rewrite Hkept by (by right; right). by rewrite Hdata, Hsyn.
  - rewrite segments_ok_app by done. split; [by eapply left_closed_segments|]. cbn. done.
  - rewrite holds_app by done. split.
    + eapply holds_mono; [|by eapply left_closed_files]. intros j g bs Hj Hg Hgd.
      destruct (Hseg j g Hj Hg) as [? Hne]. by rewrite Hdata.
    + cbn [holds]. split; [|done]. exists f. split; [|done].
      rewrite Hkept; [done|]. apply kept_segment. unfold last_number. lia.
  - eapply holds_mono; [|exact (ll_closed _ _ _ _ _ Hl)]. cbn. intros j g bs Hj Hg Hgd.
    destruct (Hseg j g Hj Hg) as [? Hne]. by rewrite Hsyn.
  - intros n1 n2 e1 e2 H1 H2. by eapply (ll_differ _ _ _ _ _ Hl); apply Hsub.
  - intros name e He. destruct (decide (e.2 = f)) as [->|Hne]; [by rewrite Hdf|].
    rewrite Hdata by done. eapply (ll_files _ _ _ _ _ Hl). by apply Hsub.
Qed.

(** * Opening *)

Lemma cut_disk_names f off tail d : d_names (cut_disk f off tail d) = d_names d.
Proof. unfold cut_disk. by case_bool_decide. Qed.
Lemma cut_disk_data f pre tail d :
  d_data d !! f = Some (pre ++ tail) ->
  d_data (cut_disk f (blen pre) tail d) = <[f := pre]> (d_data d) /\
  forall bs, <[f := bs]> (d_synced (cut_disk f (blen pre) tail d)) = <[f := bs]> (d_synced d).
Proof.
  intros Hd. unfold cut_disk. case_bool_decide as Ht; cbn.
  - subst tail. rewrite app_nil_r in Hd. by rewrite insert_id.
  - rewrite lookup_alter_eq, Hd. cbn. rewrite Nat2Z.id, take_app_length. split.
    + apply map_eq. intros g. destruct (decide (g = f)) as [->|Hne].
      * by rewrite lookup_alter_eq, lookup_insert_eq, Hd; cbn; rewrite take_app_length.
      * by rewrite lookup_alter_ne, lookup_insert_ne.
    + intros bs. by rewrite insert_insert_eq.
Qed.

Definition opened_disk (names : Names) (f : PosixFile) (bs : list byte) (d : Disk) : Disk :=
  {| d_names := names; d_data := <[f := bs]> (d_data d); d_synced_names := names;
     d_synced := <[f := bs]> (d_synced d) |}.

Lemma opened_ok config d names anchor sgs lg tail f st :
  log_left d anchor sgs lg tail ->
  d_names d !! log_name (last_number anchor sgs) = Some (kRegularFile, f) ->
  (forall name, kept (base_of anchor) (S (length sgs)) (is_some anchor) name ->
     names !! name = d_names d !! name) ->
  (forall name e, names !! name = Some e ->
     kept (base_of anchor) (S (length sgs)) (is_some anchor) name /\ d_names d !! name = Some e) ->
  acceptable config anchor (states_of (sgs ++ [lg])) -> validate_config config = kOk ->
  blen sgs + 1 <= rc_maximum_segments config ->
  recovered_to anchor (states_of (sgs ++ [lg])) st -> rv_counts st = counts_of (base_of anchor) (sgs ++ [lg]) ->
  rv_active_end st = 64 + blen (frames lg) ->
  log_ok (opened_disk names f (last_data anchor sgs lg) d)
    (opened_impl config anchor f (numbered_files (base_of anchor) (sgs ++ [lg])) (last_number anchor sgs) st)
    anchor sgs lg.
Proof.
  intros Hl Hf Hkeep Honly Hacc Hcfg Hmax Hst Hc He.
  destruct (left_last _ _ _ _ _ Hl) as (Hn & Hs & Hseq & Hsz & _).
  pose proof (left_range _ _ _ _ _ Hl) as Hr.
  assert (Hk : kept (base_of anchor) (S (length sgs)) (is_some anchor) (log_name (last_number anchor sgs))).
  { apply kept_segment. unfold last_number. lia. }
  split; cbn [opened_disk opened_impl d_names d_synced_names d_synced li_config li_open li_active_file
    li_recovered rr_written_position segment_count record_count base_segment_number li_known_groups
    li_segment_record_counts li_recovery_anchors durable_physical_sequence]; try done.
  - apply (left_update d _ anchor sgs lg tail lg [] f Hl Hf); cbn [opened_disk d_names d_data d_synced].
    + intros name e Hne. by apply Honly.
    + exact Hkeep.
    + intros g Hg. by rewrite lookup_insert_ne.
    + intros g Hg. by rewrite lookup_insert_ne.
    + apply lookup_insert_eq.
    + exact Hseq.
    + rewrite !length_segment_data in *. cbn [length]. lia.
    + apply incomplete_nil.
    + apply (ll_covered _ _ _ _ _ Hl).
  - intros name [e Hne]. by eapply Honly.
  - by rewrite Hkeep.
  - f_equal; [done|apply (rt_last _ _ _ Hst)].
  - rewrite length_numbered_files, length_app. cbn. lia.
  - apply (rt_count _ _ _ Hst).
  - apply set_eq. intros g. rewrite elem_of_list_to_set, list_elem_of_fmap, (rt_latest _ _ _ Hst).
    rewrite <- latest_of_keys. split.
    + intros (p & -> & Hp). apply list_elem_of_fmap in Hp as ([g' p'] & -> & Hp).
      apply list_elem_of_fmap. exists (g', p'). split; [|done]. cbn. by apply latest_of_elem in Hp as [-> _].
    + intros Hg. apply list_elem_of_fmap in Hg as ([g' p'] & -> & Hp). exists p'.
      split; [by apply latest_of_elem in Hp as [-> _]|]. apply list_elem_of_fmap. by exists (g', p').
  - unfold base_of, is_some. by destruct anchor.
  - exists (length lg). split; [done|]. rewrite (rt_last _ _ _ Hst), states_of_snoc, length_app, length_fmap.
    rewrite firstn_all. split; [lia|]. split; [apply lookup_insert_eq|].
    pose proof (ll_covered _ _ _ _ _ Hl) as H. by rewrite states_of_snoc, length_app, length_fmap in H.
Qed.

Section opening.
Context {W : Type} {HIO : PosixIo W} {HL : PosixLaws W}.
Context (config : RaftPersistentLogConfig) (anchor : option RecoveryAnchor)
  (sgs : list (list LogRecord)) (lg : list LogRecord) (tail : list byte).

Lemma wp_read_anchor (w : W) E :
  reliable w -> anchor_held (disk w) anchor ->
  wp (read_anchor (if is_some anchor then [(base_of anchor, anchor_name (base_of anchor))] else [])) w
    (fun a w' => a = anchor /\ disk w' = disk w /\ reliable w') E.
Proof.
  intros Hr Ha. unfold read_anchor. destruct anchor as [a|]; [|by apply wp_ret].
  destruct Ha as (Hok & f & Hf & Hd & _). cbn [is_some base_of last]. apply wp_bind.
  wp_call (law_open (anchor_name (ra_base_segment_number a)) kReadOnly); [done|by exists f|].
  intros f1 w1 (D1 & Hf1) Hr1. rewrite Hf in Hf1. injection Hf1 as <-. apply wp_bind.
  wp_call (law_size f); [done|by rewrite D1; eauto|].
  intros size w2 (D2 & data & Hd2 & ->) Hr2. rewrite D1 in *. rewrite Hd in Hd2. injection Hd2 as <-.
  rewrite length_anchor_bytes. change (negb (Z.of_nat 64 =? kRecoveryAnchorSize)) with false.
  cbv iota. apply wp_bind.
  eapply wp_mono; [apply (wp_read_exact f 0 64 (anchor_bytes a)); rewrite ?D2, ?length_anchor_bytes; done || lia| |done].
  intros bs w3 (-> & D3 & Hr3). apply wp_bind, wp_pure.
  unfold subspan. change (drop (Z.to_nat 0) ?l) with l. rewrite take_ge by (rewrite length_anchor_bytes; lia).
  rewrite decode_anchor_complete by done. apply wp_ret. by rewrite D3, D2.
Qed.

Lemma read_anchor_last l : read_anchor (W := W) l = read_anchor (match last l with Some x => [x] | None => [] end).
Proof. unfold read_anchor. by destruct (last l). Qed.

Lemma checkpoint_size ps :
  acceptable config anchor ps -> (checkpoint_length anchor <= length ps)%nat ->
  size (groups_of (take (checkpoint_length anchor) ps)) = checkpoint_length anchor.
Proof.
  intros Ha Hle. unfold groups_of. rewrite size_list_to_set by apply (acc_checkpoint _ _ _ Ha).
  rewrite length_fmap, length_take. lia.
Qed.
Lemma checkpoint_group_count_ok ps :
  acceptable config anchor ps -> (checkpoint_length anchor <= length ps)%nat ->
  match anchor with Some a => ra_checkpoint_group_count a >? rc_maximum_groups config | None => false end = false.
Proof.
  intros Ha Hle. pose proof (checkpoint_size _ Ha Hle) as Hs. pose proof (acc_groups _ _ _ Ha) as Hg.
  pose proof (acc_anchor _ _ _ Ha) as Hok. pose proof (groups_of_prefix (take (checkpoint_length anchor) ps)
    (drop (checkpoint_length anchor) ps)) as Hp. rewrite take_drop in Hp. unfold checkpoint_length in *.
  destruct anchor as [a|]; [|done]. destruct Hok as (_ & _ & H1 & _). apply gtb_false. lia.
Qed.
Lemma checkpoint_complete_ok ps st :
  acceptable config anchor ps -> (checkpoint_length anchor <= length ps)%nat -> recovered_to anchor ps st ->
  checkpoint_complete anchor st = true.
Proof.
  intros Ha Hle Hst. pose proof (checkpoint_size _ Ha Hle) as Hs. pose proof (acc_anchor _ _ _ Ha) as Hok.
  pose proof (rt_checkpoint _ _ _ Hst) as Hc. pose proof (rt_last _ _ _ Hst) as Hla.
  unfold checkpoint_complete, checkpoint_length, start_sequence in *. destruct anchor as [a|]; [|done].
  destruct Hok as (_ & H1 & H2 & H3 & H4). rewrite Hc, Hs, Hla.
  apply andb_true_iff. split; [apply negb_true_iff, Z.ltb_ge; lia|apply Z.eqb_eq; lia].
Qed.

(** Removing the stale names leaves what is kept. *)
Lemma without_stale d es b m anchored name :
  log_directory (d_names d) b m anchored -> es ≡ₚ listing d ->
  (kept b m anchored name -> without (stale_names es b) (d_names d) !! name = d_names d !! name) /\
  (forall e, without (stale_names es b) (d_names d) !! name = Some e ->
     kept b m anchored name /\ d_names d !! name = Some e).
Proof.
  intros Hd He. rewrite lookup_without. split.
  - intros Hk. rewrite decide_False; [done|]. rewrite (elem_stale d es b m anchored Hd He). tauto.
  - intros e. case_decide as Hs; [done|]. intros H. split; [|done].
    rewrite (elem_stale d es b m anchored Hd He) in Hs. destruct (decide (kept b m anchored name)); [done|].
    exfalso. apply Hs. split; [eauto|done].
Qed.

Lemma numbered_last n : last (numbered_files n (sgs ++ [lg])) = Some (n + blen sgs, log_name (n + blen sgs)).
Proof. rewrite numbered_files_app. cbn [numbered_files]. apply last_snoc. Qed.

(** What opening leaves: the log as it was found, without its incomplete end. *)
Definition opened (d : Disk) (i : LogImpl) : Prop :=
  log_ok d i anchor sgs lg /\ li_config i = config /\ li_failure i = kOk /\
  latest_group_states (li_recovered i) = (latest_of (states_of (sgs ++ [lg]))).*2 /\
  repaired_bytes (li_recovered i) = blen tail /\
  durable_physical_sequence (li_recovered i) = start_sequence anchor + blen (states_of (sgs ++ [lg])).

Lemma wp_open_existing repair (w : W) E :
  reliable w -> log_left (disk w) anchor sgs lg tail ->
  acceptable config anchor (states_of (sgs ++ [lg])) -> validate_config config = kOk ->
  blen sgs + 1 <= rc_maximum_segments config -> (tail <> [] -> repair = true) ->
  wp (open_existing_with config repair) w (fun i w' => opened (disk w') i /\ reliable w') E.
Proof.
  intros Hr Hl Hacc Hcfg Hmax Hrep. pose proof (ll_directory _ _ _ _ _ Hl) as Hdir.
  unfold open_existing_with. apply wp_bind, wp_check; [|by rewrite Hcfg]. intros _. apply wp_bind.
  wp_call (law_open_directory (rc_directory_path config)); [done|done|]. intros _ w1 D1 Hr1. apply wp_bind.
  wp_call (law_existing_lock kLockName); [done|rewrite D1; apply (ldir_lock _ _ _ _ Hdir)|].
  intros _ w2 [D2 _] Hr2. rewrite D1 in D2. apply wp_bind.
  wp_call law_list_entries; [done|done|]. intros es w3 [D3 Hes] Hr3. rewrite D2 in *. apply wp_bind, wp_pure.
  rewrite classify_entries_exact by by eapply directory_recognised.
  cbn [ld_segments ld_anchors ld_temporaries].
  rewrite bool_decide_eq_false_2 by by eapply directory_segments_nonempty. apply wp_bind.
  rewrite read_anchor_last, (directory_last_anchor _ _ _ _ _ Hdir Hes).
  replace (match (if is_some anchor then _ else None) with Some x => [x] | None => [] end)
    with (if is_some anchor then [(base_of anchor, anchor_name (base_of anchor))] else []) by (by destruct anchor).
  eapply wp_mono; [apply wp_read_anchor; [done|by rewrite D3; apply (ll_anchor _ _ _ _ _ Hl)]| |done].
  intros a w4 (-> & D4 & Hr4). rewrite D3 in D4.
  rewrite (checkpoint_group_count_ok _ Hacc (ll_covered _ _ _ _ _ Hl)).
  rewrite (directory_retained _ _ _ _ _ Hdir Hes (sgs ++ [lg])) by (rewrite length_app; cbn; lia).
  pose proof (left_range _ _ _ _ _ Hl) as Hrange.
  replace (match head (numbered_files (base_of anchor) (sgs ++ [lg])) with
           | Some first => negb (first.1 =? base_of anchor) | None => true end) with false
    by (destruct sgs; cbn; by rewrite Z.eqb_refl).
  rewrite length_numbered_files, gtb_false by (rewrite length_app; cbn; lia).
  rewrite contiguous_files by (rewrite ?length_app; cbn; lia). cbn [negb]. apply wp_bind.
  eapply wp_mono; [apply (wp_recover_segments config repair anchor sgs lg tail (base_of anchor)
    (first_sequence anchor)); try done| |done].
  { apply (ll_segments _ _ _ _ _ Hl). }
  { rewrite D4. apply (ll_holds _ _ _ _ _ Hl). }
  { apply (ll_incomplete _ _ _ _ _ Hl). }
  { apply recovered_initial, (acc_anchor _ _ _ Hacc). }
  { intros Ht. split; [by apply Hrep|apply (ll_covered _ _ _ _ _ Hl)]. }
  intros st w5 (Hst & Hc & Hp & He & Hr5 & f & Hf & D5). rewrite D4 in Hf, D5.
  rewrite (checkpoint_complete_ok _ _ Hacc (ll_covered _ _ _ _ _ Hl) Hst). cbn [negb].
  fold (stale_names es (base_of anchor)). set (stale := stale_names es (base_of anchor)).
  assert (Hn5 : d_names (disk w5) = d_names (disk w)) by (by rewrite D5, cut_disk_names). apply wp_bind.
  eapply wp_mono; [apply wp_remove_files; [done|by eapply stale_NoDup|]| |done].
  { intros name Hname. rewrite Hn5. unfold stale in Hname. rewrite (elem_stale _ _ _ _ _ Hdir Hes) in Hname.
    destruct Hname as [[[ty g] Hg] _]. destruct (ldir_known _ _ _ _ Hdir _ _ Hg) as [Hreg _].
    cbn in Hreg. subst ty. eauto. }
  intros _ w6 [D6 Hr6]. rewrite Hn5 in D6. fold stale in D6. apply wp_bind.
  apply (wp_mono _ _ (fun _ w7 => (disk w7 = disk w6 \/ disk w7 = sync_names (disk w6)) /\ reliable w7) _ E); [| |done].
  { case_bool_decide; [apply wp_ret; auto|].
    wp_call law_directory_sync; [done|done|]. intros _ w7 D7 Hr7. auto. }
  intros _ w7 [D7 Hr7]. rewrite numbered_last.
  destruct (left_last _ _ _ _ _ Hl) as (_ & _ & _ & _ & f' & Hf' & Hdata).
  fold (last_number anchor sgs) in Hf. rewrite Hf in Hf'. injection Hf' as <-.
  unfold segment_data in Hdata. rewrite app_assoc in Hdata.
  destruct (cut_disk_data f _ _ _ Hdata) as [Hcd Hcs].
  assert (Hpre : segment_header_bytes (last_number anchor sgs) (last_first anchor sgs) ++ frames lg
    = last_data anchor sgs lg) by (unfold last_data, segment_data; by rewrite app_nil_r).
  rewrite Hpre in Hcd, Hcs.
  assert (Hoff : blen (last_data anchor sgs lg) = 64 + blen (frames lg))
    by (unfold last_data; rewrite length_segment_data; cbn; lia).
  rewrite Hoff in Hcd, Hcs. rewrite <- D5 in Hcd, Hcs.
  assert (Hn7 : d_names (disk w7) = without stale (d_names (disk w))) by (destruct D7 as [->| ->]; by rewrite D6).
  assert (Hd7 : d_data (disk w7) = <[f := last_data anchor sgs lg]> (d_data (disk w)))
    by (destruct D7 as [->| ->]; by rewrite D6).
  assert (Hs7 : d_synced (disk w7) = d_synced (disk w5)) by (destruct D7 as [->| ->]; by rewrite D6).
  pose proof (fun name => without_stale _ _ _ _ _ name Hdir Hes) as Hws. fold stale in Hws.
  apply wp_bind. wp_call (law_open (log_name (last_number anchor sgs)) kReadWrite); [done| |].
  { rewrite Hn7. exists f. destruct (Hws (log_name (last_number anchor sgs))) as [-> _]; [done|].
    apply kept_segment. unfold last_number. lia. }
  intros f8 w8 [D8 Hf8] Hr8. rewrite Hn7 in Hf8. apply Hws in Hf8 as [_ Hf8]. rewrite Hf in Hf8.
  injection Hf8 as <-. apply wp_bind.
  wp_call (law_sync_all f); [done|by rewrite D8, Hd7, lookup_insert_eq|]. intros _ w9 D9 Hr9. apply wp_bind.
  wp_call law_directory_sync; [done|done|]. intros _ w10 D10 Hr10. apply wp_ret. split; [|done].
  assert (Efin : disk w10 = opened_disk (without stale (d_names (disk w))) f (last_data anchor sgs lg) (disk w)).
  { rewrite D10, D9, D8. unfold sync_names, sync_disk, opened_disk. cbn.
    rewrite Hd7, Hn7, Hs7, lookup_insert_eq. by rewrite Hcs. }
  rewrite Efin. fold (last_number anchor sgs). unfold opened. split.
  - apply (opened_ok config (disk w) _ anchor sgs lg tail f st Hl Hf); [|intros name; apply Hws|exact Hacc|exact Hcfg|
      exact Hmax|exact Hst|exact Hc|exact He]. intros name. apply Hws.
  - split; [reflexivity|]. split; [reflexivity|]. cbn. rewrite (rt_latest _ _ _ Hst), (rt_last _ _ _ Hst). auto.
Qed.
End opening.
