(* ===== verification/RaftLogLive.v ===== *)
(** The operations of a live persistent Raft log: creating, appending with the
    rotation of segments, and synchronising keep the log on the disk in step with
    the members of the log; and what a crash leaves is a log with a shorter end. *)
From stdpp Require Import sorting.
From S2P Require Import Prelude Bytes Crc32c Reading RaftTypes RaftMembership RaftLogCodec RaftLogRecord.
From S2P Require Import OrderedMap PosixIo DiskFacts WalPaths RaftLogFiles RaftLogFileFacts RaftPersistentLog.
From S2P Require Import RaftLogHistory RaftLogSegments RaftLogDirectory RaftLogOpen.
#[local] Open Scope Z_scope.
#[local] Opaque segment_header_bytes record_bytes anchor_bytes.

(** * Triples for the methods *)

Section methods.
Context {W : Type} {HIO : PosixIo W} {HL : PosixLaws W}.

Lemma wp_get (w : W) i (Q : LogImpl -> W * LogImpl -> Prop) E : Q i (w, i) -> wp get_log (w, i) Q E.
Proof. done. Qed.
Lemma wp_put (w : W) i i' (Q : unit -> W * LogImpl -> Prop) E : Q tt (w, i') -> wp (put_log i') (w, i) Q E.
Proof. done. Qed.
Lemma wp_on_files {A} (c : IO W A) (w : W) i (Q : A -> W * LogImpl -> Prop) E :
  wp c w (fun a w' => Q a (w', i)) (fun s w' => E s (w', i)) -> wp (on_files c) (w, i) Q E.
Proof. unfold wp, on_files. cbn. by destruct (c w) as [[a|s] w']. Qed.

(** [Impl::fail]: the failure that sticks, and the state with it. *)
Definition failed (s : StatusCode) (i : LogImpl) : LogImpl :=
  if is_ok (li_failure i) then with_failure i s else i.
Lemma failed_not_ok s i : s <> kOk -> li_failure (failed s i) <> kOk.
Proof.
  intros Hs. unfold failed. destruct (is_ok (li_failure i)) eqn:E; [done|].
  by apply bool_decide_eq_false in E.
Qed.
Lemma wp_or_fail {A} (c : IO (W * LogImpl) A) (wi : W * LogImpl) (Q : A -> W * LogImpl -> Prop) E :
  wp c wi Q (fun s wi' => E (li_failure (failed s wi'.2)) (wi'.1, failed s wi'.2)) ->
  wp (or_fail c) wi Q E.
Proof.
  unfold wp, or_fail. destruct (c wi) as [[a|s] [w' i']]; [done|]. intros [Hs HE].
  pose proof (failed_not_ok s i' Hs) as Hf. unfold fail. fold (failed s i').
  cbn [fst snd]. change (if is_ok (li_failure i') then with_failure i' s else i') with (failed s i').
  unfold make_unexpected. cbn [fst snd] in HE.
  assert (Hb : is_ok (li_failure (failed s i')) = false) by (by apply bool_decide_eq_false).
  by rewrite Hb.
Qed.
Lemma wp_usable (w : W) i (Q : unit -> W * LogImpl -> Prop) (E : StatusCode -> W * LogImpl -> Prop) :
  (li_open i = true -> li_failure i = kOk -> Q tt (w, i)) -> (forall s, E s (w, i)) ->
  wp usable (w, i) Q E.
Proof.
  intros HQ HE. unfold usable. apply wp_bind, wp_get. destruct (li_open i); cbn [negb]; [|by apply wp_fail].
  apply wp_check; auto.
Qed.

(** * Installing a segment *)

Lemma wp_install_segment config n seq (w : W) :
  segment_number_ok n -> seq <> 0 ->
  wp (install_segment config n seq) w
    (fun f w' => d_names (disk w) !! log_name n = None /\ d_data (disk w) !! f = None /\
       disk w' = installed (log_name n) f (segment_header_bytes n seq) (disk w)) anything.
Proof.
  intros Hn Hs. unfold install_segment. apply wp_bind, wp_pure.
  rewrite encode_segment_header_exact by (done || unfold segment_number_ok in Hn; lia). cbv zeta.
  set (temporary := segment_name n kTemporarySuffix). fold (log_name n).
  assert (Hne : temporary <> log_name n).
  { intros E. pose proof (name_kind_temporary n Hn) as H1. pose proof (name_kind_segment n Hn) as H2.
    fold (log_name n) in H2. fold temporary in H1. by rewrite E, H2 in H1. }
  apply wp_bind. wp_try (law_create temporary (rc_file_permissions config)); [|done].
  intros f w1 (Hn1 & Hd1 & D1). apply wp_bind. wp_try (law_write f 0 (segment_header_bytes n seq)); [|done].
  intros _ w2 D2. apply wp_bind. wp_try (law_sync_all f); [|done]. intros _ w3 D3.
  apply wp_bind. wp_try (law_rename temporary (log_name n)); [|done].
  intros _ w4 (e & He & Hfree & D4). apply wp_bind. wp_try law_directory_sync; [|done].
  intros _ w5 D5. apply wp_ret.
  assert (Hnames : d_names (disk w3) = <[temporary := (kRegularFile, f)]> (d_names (disk w)))
    by (by rewrite D3, D2, D1).
  assert (Hdata : d_data (disk w2) = <[f := segment_header_bytes n seq]> (d_data (disk w))).
  { rewrite D2, D1. unfold write_disk, create_disk. cbn [d_data].
    rewrite alter_insert_eq. done. }
  rewrite Hnames in He, Hfree. rewrite lookup_insert_eq in He. injection He as <-.
  rewrite lookup_insert_ne in Hfree by done. split; [done|]. split; [done|].
  rewrite D5, D4, D3. unfold installed, sync_names, set_names, sync_disk. cbn.
  rewrite Hdata, lookup_insert_eq.
  assert (Hns : d_names (disk w2) = d_names (disk w3)) by (by rewrite D3). rewrite Hns, Hnames.
  rewrite delete_insert_id by done.
  assert (Hsy : d_synced (disk w2) = d_synced (disk w)) by (by rewrite D2, D1). by rewrite Hsy.
Qed.

(** * Creating *)

Lemma locked_entries_inv es : forall lk tm lk' tm',
  locked_entries es lk tm = Ok (lk', tm') ->
  (forall e, e ∈ es -> entry_type e = kRegularFile /\
     (entry_name e = kLockName \/ (entry_name e = segment_name 1 kTemporarySuffix /\ tm' = true))) /\
  (lk' = true -> lk = true \/ exists e, e ∈ es /\ entry_name e = kLockName) /\
  (tm = true -> tm' = true).
Proof.
  induction es as [|e es IH]; intros lk tm lk' tm' H; cbn [locked_entries] in H.
  - injection H as <- <-. split_and!; [intros e He; by apply elem_of_nil in He|by left|done].
  - destruct (bool_decide (entry_type e = kRegularFile)) eqn:Hreg; [|done]. cbn [negb] in H. bool_prop.
    destruct (bool_decide (entry_name e = kLockName) && negb lk) eqn:H1.
    + bool_prop. apply IH in H as (Ha & Hb & Hc). split_and!; [|right; exists e; set_solver|done].
      intros x Hx. apply elem_of_cons in Hx as [->|Hx]; [auto|by apply Ha].
    + destruct (bool_decide (entry_name e = segment_name 1 kTemporarySuffix) && negb tm) eqn:H2; [|done].
      bool_prop. apply IH in H as (Ha & Hb & Hc). split_and!; [| |by intros _; apply Hc].
      * intros x Hx. apply elem_of_cons in Hx as [->|Hx]; [|by apply Ha]. split; [done|]. right. auto.
      * intros Hl. destruct (Hb Hl) as [|(x & Hx & E)]; [by left|]. right. exists x. split; [by right|done].
Qed.

(** The limits are [std::size_t] values. *)
Definition config_typed (c : RaftPersistentLogConfig) : Prop :=
  in_width 64 (rc_maximum_segments c) /\ in_width 64 (rc_maximum_records c) /\
  in_width 64 (rc_maximum_groups c).
Lemma validate_config_inv c :
  validate_config c = kOk ->
  rc_maximum_segments c <> 0 /\ rc_maximum_records c <> 0 /\ rc_maximum_groups c <> 0 /\
  kMinimumTargetSize <= rc_target_segment_size c <= kMaximumRaftSegmentSize.
Proof.
  unfold validate_config. destruct (_ || _) eqn:E; [done|]. rewrite !Z.gtb_ltb in E. bool_prop. done.
Qed.

(** The log on a directory that had only a lock file. *)
Lemma new_log_ok config d f lock :
  config_typed config ->
  validate_config config = kOk -> disk_ok d -> d_data d !! f = None ->
  d_names d !! kLockName = Some (kRegularFile, lock) ->
  (forall name e, d_names d !! name = Some e -> name = kLockName) ->
  log_ok (installed (log_name 1) f (segment_header_bytes 1 1) d) (new_impl config f) None [] [].
Proof.
  intros (Hw1 & Hw2 & Hw3) Hcfg Hdok Hfree Hlock Honly. destruct (validate_config_inv _ Hcfg) as (Hm1 & Hm2 & Hm3 & _).
  assert (H1 : segment_number_ok 1) by (unfold segment_number_ok; lia).
  assert (Hne : log_name 1 <> kLockName) by discriminate.
  assert (Hnames : forall name e, d_names (installed (log_name 1) f (segment_header_bytes 1 1) d) !! name = Some e ->
    (name = log_name 1 /\ e = (kRegularFile, f)) \/ (name = kLockName /\ e = (kRegularFile, lock))).
  { intros name e H. cbn in H. apply lookup_insert_Some in H as [[<- <-]|[_ H]]; [by left|].
    pose proof (Honly _ _ H) as ->. right. rewrite Hlock in H. by injection H as <-. }
  assert (Hlf : lock <> f).
  { intros ->. destruct (Hdok _ _ Hlock) as [? Hx]. cbn in Hx. by rewrite Hfree in Hx. }
  assert (Hhdr : header_number_ok 1) by (split; [width_lia|lia]).
  assert (Hdata : segment_data 1 1 [] [] = segment_header_bytes 1 1)
    by (unfold segment_data; by rewrite !app_nil_r).
  constructor; cbn [new_impl li_config li_open li_active_file li_recovered rr_written_position segment_count
    record_count base_segment_number li_known_groups li_segment_record_counts li_recovery_anchors
    durable_physical_sequence].
  - constructor; cbn [base_of is_some length app].
    + split.
      * exists lock. cbn [installed d_names]. rewrite lookup_insert_ne by exact Hne. exact Hlock.
      * lia.
      * intros j Hj. replace j with 1 by lia. cbn [installed d_names]. rewrite lookup_insert_eq. eauto.
      * discriminate.
      * intros name e He. apply Hnames in He as [[-> ->]|[-> ->]]; (split; [reflexivity|]); [right|by left].
        unfold log_name. rewrite name_kind_segment by done. lia.
    + exact I.
    + cbn [segments_ok tail_of]. change (first_sequence None) with 1. rewrite Hdata, length_log_segment_header.
      unfold kMaximumRaftSegmentSize. split_and!; [exact Hhdr|exact Hhdr|exact I|lia|exact I].
    + cbn [holds tail_of]. split; [|exact I]. exists f. change (first_sequence None) with 1.
      rewrite Hdata. cbn [installed d_names d_data]. split; apply lookup_insert_eq.
    + exact I.
    + apply incomplete_nil.
    + cbn. lia.
    + intros n1 n2 e1 e2 He1 He2 E.
      apply Hnames in He1 as [[-> ->]|[-> ->]], He2 as [[-> ->]|[-> ->]]; cbn in E; congruence.
    + intros name e He. apply Hnames in He as [[-> ->]|[-> ->]]; cbn [installed d_data snd].
      * rewrite lookup_insert_eq. eauto.
      * rewrite lookup_insert_ne by congruence. apply (Hdok _ _ Hlock).
  - intros name [e He]. apply Hnames in He as [[-> ->]|[-> ->]]; [|by left].
    right. left. exists 1. cbn [base_of length]. split; [lia|reflexivity].
  - reflexivity.
  - constructor; [exact I|intros k p Hk; discriminate Hk|cbn; lia|unfold in_width in Hw2; cbn; lia| |apply NoDup_nil_2].
    change (groups_of (states_of ([] ++ [[]]))) with (∅ : gset (list byte)). rewrite size_empty.
    unfold in_width in Hw3. lia.
  - exact Hcfg.
  - reflexivity.
  - cbn [installed d_names]. apply lookup_insert_eq.
  - reflexivity.
  - cbn. split; [reflexivity|]. unfold in_width in Hw1. lia.
  - reflexivity.
  - reflexivity.
  - reflexivity.
  - reflexivity.
  - reflexivity.
  - exists 0%nat. split; [cbn; lia|]. split; [reflexivity|]. split; [|cbn; lia].
    cbn [installed d_synced]. rewrite lookup_insert_eq. unfold last_data, last_number, last_first.
    change (first_sequence None + blen (concat [])) with 1. change (base_of None + blen []) with 1.
    cbn [take]. by rewrite Hdata.
Qed.

Lemma wp_create config (w : W) :
  config_typed config -> disk_ok (disk w) ->
  wp (create_new_with config) w
    (fun i w' => log_ok (disk w') i None [] [] /\ li_config i = config /\ li_failure i = kOk) anything.
Proof.
  intros Hty Hdok. unfold create_new_with. apply wp_bind, wp_check; [|done]. intros Hcfg. apply wp_bind.
  wp_try (law_open_directory (rc_directory_path config)); [|done]. intros _ w1 D1. apply wp_bind.
  wp_try law_list_entries; [|done]. intros es1 w2 [D2 _]. destruct (negb _); [by apply wp_fail|]. apply wp_bind.
  wp_try (law_lock kLockName (rc_file_permissions config)); [|done]. intros _ w3 D3.
  assert (Hdok3 : disk_ok (disk w3)).
  { rewrite D2, D1 in D3. destruct D3 as [[-> _]|(f & Hn & Hf & ->)]; [done|].
    intros name e He. cbn in He |- *. apply lookup_insert_Some in He as [[<- <-]|[_ He]].
    - rewrite lookup_insert_eq. eauto.
    - destruct (Hdok _ _ He) as [bs Hb]. exists bs. rewrite lookup_insert_ne; [done|]. congruence. }
  clear D3. apply wp_bind. wp_try law_list_entries; [|done]. intros es w4 [D4 Hes]. apply wp_bind, wp_pure.
  destruct (locked_entries es false false) as [[lk tm]|s] eqn:He; [|split; [|done]]; cycle 1.
  { clear -He. revert He. generalize false at 1 as a. generalize false as b.
    induction es as [|e es IH]; intros a b; cbn; [done|]. destruct (negb _); [congruence|].
    destruct (_ && _); [apply IH|]. destruct (_ && _); [apply IH|congruence]. }
  apply locked_entries_inv in He as (Hall & Hlk & _). destruct lk; cbn [negb]; [|by apply wp_fail].
  assert (Hlock : exists lock, d_names (disk w3) !! kLockName = Some (kRegularFile, lock)).
  { destruct (Hlk eq_refl) as [|([name ty] & He & E)]; [done|]. cbn in E. subst name.
    destruct (Hall _ He) as [Ety _]. cbn in Ety. subst ty. rewrite Hes, elem_listing in He. done. }
  assert (Hknown : forall name e, d_names (disk w3) !! name = Some e ->
    name = kLockName \/ (name = segment_name 1 kTemporarySuffix /\ tm = true)).
  { intros name [ty f] Hf. apply (Hall {| entry_name := name; entry_type := ty |}).
    rewrite Hes, elem_listing. eauto. }
  clear Hall Hlk Hes. destruct Hlock as [lock Hlock]. apply wp_bind.
  assert (Hnt : kLockName <> segment_name 1 kTemporarySuffix) by discriminate.
  apply (wp_mono _ _ (fun _ w5 => disk_ok (disk w5) /\
    d_names (disk w5) !! kLockName = Some (kRegularFile, lock) /\
    forall name e, d_names (disk w5) !! name = Some e -> name = kLockName) _ anything); [| |done].
  { destruct tm.
    - wp_try (law_remove (segment_name 1 kTemporarySuffix)); [|done]. intros _ w5 [_ D5].
      rewrite D4 in D5. rewrite D5. cbn [set_names d_names]. split_and!.
      + intros name e He. cbn in He |- *. apply lookup_delete_Some in He as [_ He]. by apply (Hdok3 name).
      + rewrite lookup_delete_ne by (by apply not_eq_sym). done.
      + intros name e He. apply lookup_delete_Some in He as [Hne He].
        destruct (Hknown _ _ He) as [|[-> _]]; done.
    - apply wp_ret. rewrite D4. split_and!; [done|done|]. intros name e He.
      by destruct (Hknown _ _ He) as [|[_ ?]]. }
  intros _ w5 (Hdok5 & Hlock5 & Honly). apply wp_bind. wp_try law_directory_sync; [|done].
  intros _ w6 D6. apply wp_bind.
  eapply wp_mono; [apply (wp_install_segment config 1 1); [unfold segment_number_ok; lia|lia]| |done].
  intros f w7 (_ & Hfree & D7). apply wp_ret. rewrite D7. split; [|split; reflexivity].
  rewrite D6 in Hfree |- *. by apply (new_log_ok config (sync_names (disk w5)) f lock).
Qed.
End methods.

(** * Synchronising *)

(** The log after its active file was synchronised. *)
Lemma log_sync_step d i anchor sgs lg :
  log_ok d i anchor sgs lg ->
  log_ok (sync_disk (li_active_file i) d) (mark_durable i) anchor sgs lg /\
  d_synced (sync_disk (li_active_file i) d) !! li_active_file i = Some (last_data anchor sgs lg).
Proof.
  intros Hok. pose proof (lo_left _ _ _ _ _ Hok) as Hl. pose proof (lo_active _ _ _ _ _ Hok) as Hact.
  destruct (left_last _ _ _ _ _ Hl) as (Hn & Hs & Hseq & Hsz & f & Hf & Hd). rewrite Hact in Hf.
  injection Hf as <-. fold (last_data anchor sgs lg) in Hd.
  assert (Hsyn : d_synced (sync_disk (li_active_file i) d) !! li_active_file i = Some (last_data anchor sgs lg)).
  { cbn. rewrite Hd. apply lookup_insert_eq. }
  split; [|exact Hsyn]. destruct Hok as [? Hclean Hsn Hacc Hcfg Hopen ? Hpos Hsc Hrc Hbase Hk Hcounts Hanch _].
  constructor; try assumption.
  - apply (left_update d _ anchor sgs lg [] lg [] (li_active_file i) Hl Hact); cbn [sync_disk d_names d_data d_synced];
      try done.
    + intros g Hg. rewrite Hd. by rewrite lookup_insert_ne.
    + apply incomplete_nil.
    + apply (ll_covered _ _ _ _ _ Hl).
  - exists (length lg). split; [done|]. cbn [mark_durable with_recovered li_recovered durable_physical_sequence].
    rewrite Hpos. cbn [rp_physical_sequence]. rewrite states_of_snoc, length_app, length_fmap, firstn_all.
    split; [lia|]. split; [exact Hsyn|].
    pose proof (ll_covered _ _ _ _ _ Hl) as H. by rewrite states_of_snoc, length_app, length_fmap in H.
Qed.

(** * Writing a record *)

(** What must hold for one more record to be recoverable. *)
Lemma acceptable_snoc config anchor ps p :
  acceptable config anchor ps -> (checkpoint_length anchor <= length ps)%nat ->
  gp_physical_sequence p = start_sequence anchor + blen ps + 1 -> in_width 64 (gp_physical_sequence p) ->
  blen ps < rc_maximum_records config ->
  (gp_group_id p ∈ groups_of ps \/ Z.of_nat (size (groups_of ps)) < rc_maximum_groups config) ->
  acceptable config anchor (ps ++ [p]).
Proof.
  intros [H1 H2 H3 H4 H5 H6] Hc Hs Hw Hr Hg. constructor; try done.
  - intros k q Hk. apply lookup_app_Some in Hk as [Hk|[Hle Hk]]; [by apply H2|].
    apply list_lookup_singleton_Some in Hk as [Hk <-]. rewrite Hs. lia.
  - rewrite length_app. cbn [length]. unfold in_width in Hw. lia.
  - rewrite length_app. cbn. lia.
  - rewrite groups_of_app. assert (Hp : groups_of [p] = {[ gp_group_id p ]}) by (unfold groups_of; cbn; set_solver).
    rewrite Hp. destruct Hg as [Hin|Hlt].
    + replace (groups_of ps ∪ {[gp_group_id p]}) with (groups_of ps); [done|]. set_solver.
    + pose proof (size_union_alt (groups_of ps) {[ gp_group_id p ]}) as Hu.
      pose proof (subseteq_size (({[gp_group_id p]} : gset _) ∖ groups_of ps) {[gp_group_id p]} ltac:(set_solver)) as Hd.
      rewrite size_singleton in Hd. lia.
  - by rewrite take_app_le.
Qed.

Lemma frames_snoc lg r : frames (lg ++ [r]) = frames lg ++ frame r.
Proof. rewrite log_frames_app. unfold frames at 2. cbn. by rewrite app_nil_r. Qed.
Lemma last_data_snoc anchor sgs lg r : last_data anchor sgs (lg ++ [r]) = last_data anchor sgs lg ++ frame r.
Proof. unfold last_data, segment_data. by rewrite frames_snoc, !app_nil_r, app_assoc. Qed.
Lemma length_last_data anchor sgs lg : blen (last_data anchor sgs lg) = 64 + blen (frames lg).
Proof. unfold last_data. rewrite length_segment_data. cbn. lia. Qed.
Lemma groups_of_snoc ps p : groups_of (ps ++ [p]) = {[ gp_group_id p ]} ∪ groups_of ps.
Proof. rewrite groups_of_app. unfold groups_of at 2. cbn. set_solver. Qed.

Section write.
Context (d : Disk) (i : LogImpl) (anchor : option RecoveryAnchor) (sgs : list (list LogRecord))
  (lg : list LogRecord) (Hok : log_ok d i anchor sgs lg).

Lemma log_active_data : d_data d !! li_active_file i = Some (last_data anchor sgs lg).
Proof.
  destruct (left_last _ _ _ _ _ (lo_left _ _ _ _ _ Hok)) as (_ & _ & _ & _ & f & Hf & Hd).
  rewrite (lo_active _ _ _ _ _ Hok) in Hf. by injection Hf as ->.
Qed.
Lemma states_length : blen (states_of (sgs ++ [lg])) = blen (states_of sgs) + blen lg.
Proof. rewrite states_of_snoc, length_app, length_fmap. lia. Qed.
Lemma last_first_states : last_first anchor sgs = start_sequence anchor + 1 + blen (states_of sgs).
Proof. unfold last_first, first_sequence, states_of. by rewrite length_fmap. Qed.

Lemma log_write_step r :
  record_ok r.1 r.2 ->
  gp_physical_sequence r.2 = start_sequence anchor + blen (states_of (sgs ++ [lg])) + 1 ->
  record_count (li_recovered i) < rc_maximum_records (li_config i) ->
  (gp_group_id r.2 ∈ li_known_groups i \/
   Z.of_nat (size (li_known_groups i)) < rc_maximum_groups (li_config i)) ->
  64 + blen (frames lg) + blen (frame r) <= kMaximumRaftSegmentSize ->
  log_ok (write_disk (li_active_file i) (64 + blen (frames lg)) (frame r) d)
    (with_record (with_known_group i (gp_group_id r.2)) (blen (frame r)) (gp_physical_sequence r.2))
    anchor sgs (lg ++ [r]).
Proof.
  intros Hr Hs Hrc Hg Hsz. pose proof (lo_left _ _ _ _ _ Hok) as Hl.
  pose proof (lo_active _ _ _ _ _ Hok) as Hact. pose proof log_active_data as Hd.
  destruct (left_last _ _ _ _ _ Hl) as (_ & _ & Hseq & _).
  pose proof states_length as Hlen. pose proof last_first_states as Hlf.
  pose proof (ll_covered _ _ _ _ _ Hl) as Hcov.
  assert (Hst : states_of (sgs ++ [lg ++ [r]]) = states_of (sgs ++ [lg]) ++ [r.2])
    by (rewrite !states_of_snoc, fmap_app, app_assoc; done).
  assert (Hw : d_data (write_disk (li_active_file i) (64 + blen (frames lg)) (frame r) d) !! li_active_file i
    = Some (last_data anchor sgs (lg ++ [r]))).
  { cbn. rewrite lookup_alter_eq, Hd. cbn. f_equal. rewrite <- (length_last_data anchor sgs lg).
    by rewrite overlay_end, last_data_snoc. }
  destruct Hok as [_ Hclean Hsn Hacc Hcfg Hopen _ Hpos Hsc Hrc' Hbase Hk Hcounts Hanch (k & Hk1 & Hk2 & Hk3 & Hk4)].
  rewrite Hrc' in Hrc. rewrite Hk in Hg. constructor; try assumption.
  - apply (left_update d _ anchor sgs lg [] (lg ++ [r]) [] (li_active_file i) Hl Hact).
    + done.
    + done.
    + intros g Hne. cbn. by rewrite lookup_alter_ne.
    + done.
    + exact Hw.
    + apply log_sequenced_app. split; [done|]. cbn. split; [done|]. split; [lia|done].
    + rewrite length_segment_data, frames_snoc, length_app. cbn [length]. lia.
    + apply incomplete_nil.
    + rewrite Hst, length_app. lia.
  - rewrite Hst. apply acceptable_snoc; [exact Hacc|exact Hcov|exact Hs|apply Hr|exact Hrc|exact Hg].
  - cbn. rewrite Hpos, Hst, frames_snoc, !length_app. cbn [rp_segment_number rp_end_offset length].
    f_equal; lia.
  - cbn [with_record with_known_group with_position li_recovered record_count]. rewrite Hrc', Hst, length_app. cbn. lia.
  - cbn [with_record with_known_group li_known_groups]. by rewrite Hk, Hst, groups_of_snoc.
  - cbn [with_record with_known_group li_segment_record_counts li_recovered rr_written_position]. rewrite Hpos, Hcounts.
    cbn [rp_segment_number]. rewrite !counts_of_app. cbn [counts_of]. unfold last_number.
    assert (Hkeys : forall x, x ∈ (counts_of (base_of anchor) sgs).*1 -> Z.compare x (base_of anchor + blen sgs) = Lt).
    { intros x Hx. apply counts_of_keys in Hx. change (x < base_of anchor + blen sgs). lia. }
    rewrite om_lookup_end, om_assign_end
      by (apply Z.compare_eq_iff || apply Z_compare_flip || exact Hkeys).
    cbn [default]. rewrite length_app. do 3 f_equal. cbn. lia.
  - exists k. rewrite length_app, take_app_le by lia. split_and!; try done. lia.
Qed.
End write.

(** * A new segment *)

(** The directory with one more segment. *)
Lemma directory_snoc names b m anchored f :
  log_directory names b m anchored -> b + Z.of_nat m <= max_u64 ->
  log_directory (<[log_name (b + Z.of_nat m) := (kRegularFile, f)]> names) b (S m) anchored.
Proof.
  intros Hd Hmax. pose proof (ldir_range _ _ _ _ Hd) as Hr.
  assert (Hn : segment_number_ok (b + Z.of_nat m)) by (unfold segment_number_ok; lia).
  pose proof (name_kind_segment _ Hn) as Hkind. fold (log_name (b + Z.of_nat m)) in Hkind.
  assert (Hins : forall name, is_Some (names !! name) ->
    is_Some (<[log_name (b + Z.of_nat m) := (kRegularFile, f)]> names !! name)).
  { intros name Hs. destruct (decide (name = log_name (b + Z.of_nat m))) as [->|Hne].
    - rewrite lookup_insert_eq. eauto.
    - by rewrite lookup_insert_ne. }
  split.
  - destruct (ldir_lock _ _ _ _ Hd) as [l Hlk]. exists l. rewrite lookup_insert_ne; [done|].
    intros E. by rewrite E, name_kind_lock in Hkind.
  - lia.
  - intros j Hj. destruct (decide (j = b + Z.of_nat m)) as [->|]; [rewrite lookup_insert_eq; eauto|].
    apply Hins, (ldir_present _ _ _ _ Hd). lia.
  - intros Ha. apply Hins. by apply (ldir_anchor _ _ _ _ Hd).
  - intros name e He. apply lookup_insert_Some in He as [[<- <-]|[Hne He]].
    + split; [done|]. right. rewrite Hkind. lia.
    + destruct (ldir_known _ _ _ _ Hd _ _ He) as [Hreg Hk]. split; [done|]. destruct Hk as [|Hk]; [by left|right].
      destruct (name_kind name); try done. lia.
Qed.

Lemma anchor_held_mono d d' anchor :
  (forall name g, d_names d !! name = Some (kRegularFile, g) ->
     d_names d' !! name = Some (kRegularFile, g) /\ d_data d' !! g = d_data d !! g /\
     d_synced d' !! g = d_synced d !! g) ->
  anchor_held d anchor -> anchor_held d' anchor.
Proof.
  intros Hm. unfold anchor_held. destruct anchor as [a|]; [|done]. intros (Ha & g & Hg & Hgd & Hgs).
  split; [done|]. exists g. destruct (Hm _ _ Hg) as (? & -> & ->). done.
Qed.

Section rotate.
Context (d : Disk) (i : LogImpl) (anchor : option RecoveryAnchor) (sgs : list (list LogRecord))
  (lg : list LogRecord) (Hok : log_ok d i anchor sgs lg).
Context (f : PosixFile) (Hfresh : d_data d !! f = None).
Context (Hsyn : d_synced d !! li_active_file i = Some (last_data anchor sgs lg)).

Let n := last_number anchor sgs + 1.
Let seq := start_sequence anchor + blen (states_of (sgs ++ [lg])) + 1.
Let d' := installed (log_name n) f (segment_header_bytes n seq) d.

Context (Hseq : header_number_ok seq) (Hn : n <= max_u64).
Context (Hfree : d_names d !! log_name n = None).

Lemma rotated_numbers : last_number anchor (sgs ++ [lg]) = n /\ last_first anchor (sgs ++ [lg]) = seq.
Proof.
  unfold n, seq, last_number, last_first, first_sequence, states_of. rewrite length_fmap, length_app. cbn. lia.
Qed.
Lemma rotated_data : segment_data n seq [] [] = segment_header_bytes n seq.
Proof. unfold segment_data. by rewrite !app_nil_r. Qed.

(** The files of the log are those of before. *)
Lemma rotated_other name e : d_names d !! name = Some e -> d_names d' !! name = Some e /\ e.2 <> f.
Proof.
  intros He. split; [|intros E; destruct (ll_files _ _ _ _ _ (lo_left _ _ _ _ _ Hok) _ _ He) as [? Hx];
    rewrite E, Hfresh in Hx; done].
  unfold d'. cbn [installed d_names]. rewrite lookup_insert_ne; [done|]. intros <-. by rewrite Hfree in He.
Qed.

Lemma rotate_left : log_left d' anchor (sgs ++ [lg]) [] [].
Proof.
  pose proof (lo_left _ _ _ _ _ Hok) as Hl. pose proof (left_range _ _ _ _ _ Hl) as Hr.
  destruct rotated_numbers as [En Es]. pose proof rotated_data as Hdat.
  assert (Hnok : header_number_ok n) by (unfold n, last_number in *; split; [width_lia|lia]).
  constructor.
  - replace (S (length (sgs ++ [lg]))) with (S (S (length sgs))) by (rewrite length_app; cbn; lia).
    assert (En' : n = base_of anchor + Z.of_nat (S (length sgs))) by (unfold n, last_number; lia).
    change (d_names d') with (<[log_name n := (kRegularFile, f)]> (d_names d)). rewrite En'.
    apply directory_snoc; [apply (ll_directory _ _ _ _ _ Hl)|lia].
  - apply (anchor_held_mono d); [|apply (ll_anchor _ _ _ _ _ Hl)]. intros name g Hg.
    destruct (rotated_other _ _ Hg) as [Hg' Hne]. cbn [snd] in Hne. split; [exact Hg'|].
    unfold d'. cbn [installed d_data d_synced]. split; apply lookup_insert_ne; congruence.
  - rewrite segments_ok_app by done. split; [apply (ll_segments _ _ _ _ _ Hl)|]. cbn [segments_ok tail_of].
    fold (last_number anchor (sgs ++ [lg])). fold (last_first anchor (sgs ++ [lg])). rewrite En, Es.
    split; [exact Hnok|]. split; [exact Hseq|]. split; [exact I|]. split; [|exact I].
    rewrite Hdat, length_log_segment_header. unfold kMaximumRaftSegmentSize. lia.
  - rewrite holds_app by done. split.
    + eapply holds_mono; [|apply (ll_holds _ _ _ _ _ Hl)]. intros j g bs Hj Hg Hgd.
      destruct (rotated_other _ _ Hg) as [Hg' Hne]. split; [exact Hg'|]. cbn in Hne. unfold d'. cbn [installed d_data]. by rewrite lookup_insert_ne by congruence.
    + cbn [holds tail_of]. fold (last_number anchor (sgs ++ [lg])). fold (last_first anchor (sgs ++ [lg])).
      rewrite En, Es, Hdat. split; [|done]. exists f. cbn [d' installed d_names d_data].
      split; apply lookup_insert_eq.
  - rewrite holds_app by done. split.
    + eapply holds_mono; [|apply (ll_closed _ _ _ _ _ Hl)]. cbn. intros j g bs Hj Hg Hgd.
      destruct (rotated_other _ _ Hg) as [Hg' Hne]. split; [exact Hg'|]. cbn in Hne. by rewrite lookup_insert_ne by congruence.
    + cbn [holds tail_of]. fold (last_number anchor sgs). fold (last_first anchor sgs). split; [|done].
      exists (li_active_file i). destruct (rotated_other _ _ (lo_active _ _ _ _ _ Hok)) as [Ha Hne].
      split; [exact Ha|]. cbn in Hne |- *. by rewrite lookup_insert_ne by congruence.
  - apply incomplete_nil.
  - rewrite states_of_snoc, length_app. pose proof (ll_covered _ _ _ _ _ Hl). lia.
  - apply insert_names_differ; [apply (ll_differ _ _ _ _ _ Hl)|]. intros name e He.
    by apply rotated_other in He as [_ ?].
  - intros name e He. cbn in He |- *. apply lookup_insert_Some in He as [[<- <-]|[_ He]].
    + rewrite lookup_insert_eq. eauto.
    + destruct (rotated_other _ _ He) as [_ Hne]. rewrite lookup_insert_ne by done.
      apply (ll_files _ _ _ _ _ Hl _ _ He).
Qed.

Lemma rotate_step :
  segment_count (li_recovered i) < rc_maximum_segments (li_config i) ->
  durable_physical_sequence (li_recovered i) = start_sequence anchor + blen (states_of (sgs ++ [lg])) ->
  log_ok d' (with_new_segment i f n) anchor (sgs ++ [lg]) [].
Proof.
  intros Hmax Hdur. pose proof rotate_left as Hleft. pose proof rotated_data as Hdat.
  destruct rotated_numbers as [En Es]. pose proof (ll_covered _ _ _ _ _ (lo_left _ _ _ _ _ Hok)) as Hcov.
  assert (Est : states_of ((sgs ++ [lg]) ++ [[]]) = states_of (sgs ++ [lg]))
    by (rewrite states_of_snoc; apply app_nil_r).
  destruct Hok as [_ Hclean Hsn Hacc Hcfg Hopen _ Hpos Hsc Hrc Hbase Hk Hcounts Hanch _].
  constructor; rewrite ?Est; try assumption.
  - intros name [e He]. cbn in He. apply lookup_insert_Some in He as [[<- _]|[_ He]].
    + right. left. exists n. split; [|done]. rewrite length_app. unfold n, last_number. cbn. lia.
    + destruct (Hclean name) as [|[(j & Hj & ->)|]]; [eauto|by left| |by right; right].
      right. left. exists j. split; [|done]. rewrite length_app. cbn. lia.
  - done.
  - rewrite En. cbn. apply lookup_insert_eq.
  - cbn. rewrite Hpos, En. done.
  - cbn. rewrite length_app. cbn. lia.
  - cbn [with_new_segment li_segment_record_counts]. rewrite Hcounts, (counts_of_app _ (sgs ++ [lg]) [[]]).
    assert (En2 : base_of anchor + blen (sgs ++ [lg]) = n)
      by (rewrite length_app; unfold n, last_number; cbn; lia).
    cbn [counts_of length]. rewrite En2. apply om_emplace_end; [apply Z_compare_flip|].
    intros x Hx. apply counts_of_keys in Hx. change (x < n). lia.
  - exists 0%nat. split; [cbn; lia|]. cbn [with_new_segment with_position li_recovered durable_physical_sequence li_active_file].
    split; [rewrite Hdur; lia|]. split; [|lia]. unfold last_data. cbn [take]. rewrite En, Es, Hdat.
    cbn. apply lookup_insert_eq.
Qed.
End rotate.

(** * The methods *)

Definition with_groups (i : LogImpl) (groups : gset (list byte)) : LogImpl :=
  {| li_config := li_config i; li_active_file := li_active_file i; li_recovered := li_recovered i;
     li_known_groups := groups; li_segment_record_counts := li_segment_record_counts i;
     li_recovery_anchors := li_recovery_anchors i; li_failure := li_failure i;
     li_open := li_open i |}.
Lemma with_groups_same i : with_groups i (li_known_groups i) = i.
Proof. by destruct i. Qed.

(** The states a caller may pass: the group is a UUID and the members fit. *)
Definition state_given (p : GroupPersistentState) : Prop :=
  length (gp_group_id p) = 16%nat /\ in_width 64 (gp_physical_sequence p) /\ state_typed (gp_state p).

Section live.
Context {W : Type} {HIO : PosixIo W} {HL : PosixLaws W}.

Lemma wp_next_segment (w : W) i anchor sgs lg seq groups :
  log_ok (disk w) i anchor sgs lg ->
  seq = start_sequence anchor + blen (states_of (sgs ++ [lg])) + 1 -> seq <= max_u64 ->
  last_number anchor sgs + 1 <= max_u64 ->
  segment_count (li_recovered i) < rc_maximum_segments (li_config i) ->
  wp (next_segment seq) (w, with_groups i groups)
    (fun _ wi => exists f, let i' := with_new_segment (mark_durable i) f (last_number anchor sgs + 1) in
       wi.2 = with_groups i' groups /\ log_ok (disk wi.1) i' anchor (sgs ++ [lg]) []) anything.
Proof.
  intros Hok Es Hs Hn Hc. unfold next_segment. apply wp_bind, wp_get. cbn [with_groups li_active_file].
  apply wp_bind, wp_or_fail, wp_on_files. wp_try (law_sync_data (li_active_file i)); [|done].
  intros _ w1 D1. apply wp_bind, wp_put, wp_bind, wp_or_fail, wp_on_files.
  wp_try (law_close_file (li_active_file i)); [|done]. intros _ w2 D2. cbv zeta.
  rewrite (lo_position _ _ _ _ _ Hok : rr_written_position (li_recovered (with_groups i groups)) = _).
  cbn [rp_segment_number li_config]. apply wp_bind, wp_or_fail, wp_on_files.
  pose proof (left_range _ _ _ _ _ (lo_left _ _ _ _ _ Hok)) as Hr.
  assert (Hseq : header_number_ok seq).
  { pose proof (start_nonneg _ _ _ (lo_acceptable _ _ _ _ _ Hok)). split; [width_lia|lia]. }
  eapply wp_mono; [apply wp_install_segment; [unfold segment_number_ok, last_number in *; lia|apply Hseq]| |done].
  intros f w3 (Hfree & Hfresh & D3). apply wp_put. rewrite D2, D1 in *. exists f. cbv zeta. split; [reflexivity|].
  destruct (log_sync_step _ _ _ _ _ Hok) as [Hok1 Hsyn]. cbn [fst].
  rewrite D3, Es. apply (rotate_step _ _ _ _ _ Hok1); try assumption.
  - by rewrite <- Es.
  - cbn. by rewrite (lo_position _ _ _ _ _ Hok).
Qed.

(** The segments after a record was appended. *)
Definition appended (sgs : list (list LogRecord)) (lg : list LogRecord) (r : LogRecord)
    (sgs' : list (list LogRecord)) (lg' : list LogRecord) : Prop :=
  (sgs' = sgs /\ lg' = lg ++ [r]) \/ (sgs' = sgs ++ [lg] /\ lg' = [r]).
Lemma appended_concat sgs lg r sgs' lg' :
  appended sgs lg r sgs' lg' -> concat (sgs' ++ [lg']) = concat (sgs ++ [lg]) ++ [r].
Proof.
  intros [[-> ->]|[-> ->]]; rewrite !concat_app; cbn; rewrite ?app_nil_r, ?app_assoc; done.
Qed.
Lemma appended_states sgs lg r sgs' lg' :
  appended sgs lg r sgs' lg' -> states_of (sgs' ++ [lg']) = states_of (sgs ++ [lg]) ++ [r.2].
Proof. intros H. unfold states_of. by rewrite (appended_concat _ _ _ _ _ H), fmap_app. Qed.

(** What an operation keeps: the configuration, and what was durable. *)
Definition kept_members (i i' : LogImpl) : Prop :=
  li_config i' = li_config i /\
  durable_physical_sequence (li_recovered i) <= durable_physical_sequence (li_recovered i').

Lemma log_durable_le_written d i anchor sgs lg :
  log_ok d i anchor sgs lg ->
  durable_physical_sequence (li_recovered i) <= start_sequence anchor + blen (states_of (sgs ++ [lg])).
Proof.
  intros Hok. destruct (lo_durable _ _ _ _ _ Hok) as (k & Hk & -> & _). rewrite states_of_snoc, length_app, length_fmap. lia.
Qed.

Lemma wp_synchronize (w : W) i anchor sgs lg :
  log_ok (disk w) i anchor sgs lg ->
  wp synchronize (w, i)
    (fun pos wi => log_ok (disk wi.1) wi.2 anchor sgs lg /\ kept_members i wi.2 /\
       pos = rr_written_position (li_recovered i) /\ li_failure wi.2 = kOk /\
       durable_physical_sequence (li_recovered wi.2) = start_sequence anchor + blen (states_of (sgs ++ [lg])))
    anything.
Proof.
  intros Hok. unfold synchronize. apply wp_bind, wp_usable; [|done]. intros _ Hf.
  apply wp_bind, wp_get, wp_bind, wp_or_fail, wp_on_files. wp_try (law_sync_data (li_active_file i)); [|done].
  intros _ w1 D1. apply wp_bind, wp_put, wp_ret. cbn [fst snd]. rewrite D1.
  pose proof (log_durable_le_written _ _ _ _ _ Hok).
  split; [by apply log_sync_step|].
  assert (Hd : durable_physical_sequence (li_recovered (mark_durable i)) =
    start_sequence anchor + blen (states_of (sgs ++ [lg]))) by (cbn; by rewrite (lo_position _ _ _ _ _ Hok)).
  split; [split; [done|lia]|]. split; [done|]. split; [exact Hf|exact Hd].
Qed.

(** The write at the end of [append], with the group already known. *)
Definition write_record (persistent : GroupPersistentState) (encoded : list byte)
  : IO (W * LogImpl) RaftPhysicalPosition :=
  let* i := get_log in
  do* or_fail (on_files (write_all_at (li_active_file i)
                (rp_end_offset (rr_written_position (li_recovered i))) encoded));
  let i := with_record i (blen encoded) (gp_physical_sequence persistent) in
  do* put_log i;
  io_ret (rr_written_position (li_recovered i)).

Lemma wp_write_record (w : W) i anchor sgs lg p :
  log_ok (disk w) i anchor sgs lg -> record_ok 1 p ->
  gp_physical_sequence p = start_sequence anchor + blen (states_of (sgs ++ [lg])) + 1 ->
  record_count (li_recovered i) < rc_maximum_records (li_config i) ->
  (gp_group_id p ∈ li_known_groups i \/
   Z.of_nat (size (li_known_groups i)) < rc_maximum_groups (li_config i)) ->
  64 + blen (frames lg) + blen (frame (1, p)) <= kMaximumRaftSegmentSize ->
  wp (write_record p (frame (1, p))) (w, with_known_group i (gp_group_id p))
    (fun pos wi => log_ok (disk wi.1) wi.2 anchor sgs (lg ++ [(1, p)]) /\ kept_members i wi.2 /\
       li_failure wi.2 = li_failure i /\ pos = rr_written_position (li_recovered wi.2)) anything.
Proof.
  intros Hok Hr Hs Hrc Hg Hsz. unfold write_record. apply wp_bind, wp_get.
  cbn [with_known_group li_active_file li_recovered]. rewrite (lo_position _ _ _ _ _ Hok).
  cbn [rp_end_offset]. apply wp_bind, wp_or_fail, wp_on_files.
  wp_try (law_write (li_active_file i) (64 + blen (frames lg)) (frame (1, p))); [|done].
  intros _ w1 D1. cbv zeta. apply wp_bind, wp_put, wp_ret. cbn [fst snd]. rewrite D1. split.
  - by apply (log_write_step _ _ _ _ _ Hok (1, p)).
  - split; [split; [done|cbn; lia]|done].
Qed.

Lemma wp_append (w : W) i anchor sgs lg p :
  log_ok (disk w) i anchor sgs lg -> state_given p ->
  wp (append p) (w, i)
    (fun pos wi => exists sgs' lg', appended sgs lg (1, p) sgs' lg' /\
       log_ok (disk wi.1) wi.2 anchor sgs' lg' /\ kept_members i wi.2 /\ li_failure wi.2 = kOk /\
       pos = rr_written_position (li_recovered wi.2) /\
       gp_physical_sequence p = start_sequence anchor + blen (states_of (sgs ++ [lg])) + 1) anything.
Proof.
  intros Hok (Hg & Hw & Hty). unfold append. apply wp_bind, wp_usable; [|done]. intros _ Hfail.
  apply wp_bind, wp_get. cbv zeta. rewrite (lo_position _ _ _ _ _ Hok).
  cbn [rp_physical_sequence rp_end_offset rp_segment_number].
  destruct (_ || _) eqn:G1; [by apply wp_fail|]. bool_prop.
  rewrite !Z.geb_leb.
  destruct (Z.leb_spec (rc_maximum_records (li_config i)) (record_count (li_recovered i))) as [|Hrc]; [by apply wp_fail|].
  destruct (negb _ && _) eqn:G2; [by apply wp_fail|]. apply wp_bind, wp_pure.
  destruct (encode_multiplexed_log_record_v1 p) as [encoded|s] eqn:Henc; cycle 1.
  { split; [|done]. by eapply encode_record_error. }
  apply encode_record_inv in Henc as [Hrok ->]; [|done..]. change (record_bytes 1 p) with (frame (1, p)).
  destruct (Z.gtb_spec (blen (frame (1, p)) + kRaftSegmentHeaderSize) (rc_target_segment_size (li_config i)))
    as [|Hsz]; [by apply wp_fail|].
  destruct (_ && (_ || _)) eqn:G3; [by apply wp_fail|]. apply wp_bind, wp_put, wp_bind.
  change (let* i := get_log in _) with (write_record p (frame (1, p))).
  assert (Hgr : gp_group_id p ∈ li_known_groups i \/
    Z.of_nat (size (li_known_groups i)) < rc_maximum_groups (li_config i)).
  { apply andb_false_iff in G2 as [G2|G2]; [left|right; by apply Z.leb_gt in G2].
    apply negb_false_iff, bool_decide_eq_true in G2. done. }
  destruct (validate_config_inv _ (lo_config _ _ _ _ _ Hok)) as (_ & _ & _ & _ & Htarget).
  unfold kRaftSegmentHeaderSize in Hsz. rewrite Z.gtb_ltb in *.
  destruct (Z.ltb_spec (rc_target_segment_size (li_config i) - blen (frame (1, p))) (64 + blen (frames lg)))
    as [Hrot|Hfit].
  - cbn [andb] in G3. bool_prop. destruct (lo_segment_count _ _ _ _ _ Hok) as [Hsc _].
    pose proof (left_range _ _ _ _ _ (lo_left _ _ _ _ _ Hok)) as Hrange.
    eapply wp_mono; [apply (wp_next_segment w i anchor sgs lg _ ({[gp_group_id p]} ∪ li_known_groups i) Hok)| |done].
    + done.
    + unfold in_width in Hw. lia.
    + unfold last_number in *. lia.
    + lia.
    + intros _ [w1 i1] (f & E & Hok1). cbn [fst snd] in E, Hok1. subst i1.
      set (i2 := with_new_segment (mark_durable i) f (last_number anchor sgs + 1)) in *.
      change (with_groups i2 ({[gp_group_id p]} ∪ li_known_groups i)) with (with_known_group i2 (gp_group_id p)).
      eapply wp_mono; [apply (wp_write_record w1 i2 anchor (sgs ++ [lg]) [] p Hok1 Hrok)| |done].
      * rewrite states_of_snoc, app_nil_r. done.
      * exact Hrc.
      * exact Hgr.
      * cbn. lia.
      * intros pos [w2 i3] (Hok3 & [Hc Hd] & Hf & Hp). cbn [fst snd] in *. exists (sgs ++ [lg]), [(1, p)].
        split; [by right|]. split; [done|]. split; [|by rewrite Hf].
        split; [by rewrite Hc|]. etransitivity; [|exact Hd]. cbn. rewrite (lo_position _ _ _ _ _ Hok).
        by eapply log_durable_le_written.
  - apply wp_ret. eapply wp_mono; [apply (wp_write_record w i anchor sgs lg p Hok Hrok)| |done]; try done; [lia|].
    intros pos [w2 i3] (Hok3 & Hkm & Hf & Hp). cbn [fst snd] in *. exists sgs, (lg ++ [(1, p)]).
    split; [by left|]. by rewrite Hf.
Qed.
End live.

(** * Crashes *)

(** What a crash leaves of a live log is a log with a shorter end that still has everything
    durable. *)

(** Cutting the bytes of records at any point. *)
Lemma cut_frames rs : forall seq m, sequenced seq rs ->
  exists j tail, (j <= length rs)%nat /\ take m (frames rs) = frames (take j rs) ++ tail /\ incomplete tail /\
    forall k, (k <= length rs)%nat -> (length (frames (take k rs)) <= m)%nat -> (k <= j)%nat.
Proof.
  induction rs as [|r rs IH]; intros seq m H.
  - exists 0%nat, []. split; [done|]. split; [cbn; by rewrite take_nil|]. split; [apply incomplete_nil|].
    intros k Hk _. cbn in Hk. lia.
  - destruct H as (Hr & _ & H). pose proof (frame_size _ Hr) as Hs.
    destruct (decide (length (frame r) <= m)%nat) as [Hle|Hgt].
    + destruct (IH (seq + 1) (m - length (frame r))%nat H) as (j & tail & Hj & E & Hinc & Hk).
      exists (S j), tail. split; [cbn; lia|]. split; [|split; [done|]].
      * rewrite log_frames_cons, take_app_ge by lia. cbn [take]. by rewrite E, log_frames_cons, app_assoc.
      * intros k Hkl Hkm. destruct k as [|k]; [lia|]. cbn [take] in Hkm. rewrite log_frames_cons, length_app in Hkm.
        apply le_n_S, Hk; [cbn in Hkl; lia|lia].
    + exists 0%nat, (take m (frame r)). split; [lia|]. split; [|split].
      * rewrite log_frames_cons, take_app_le by lia. done.
      * apply incomplete_cut; [done|lia].
      * intros k Hkl Hkm. destruct k as [|k]; [lia|]. cbn [take] in Hkm. rewrite log_frames_cons, length_app in Hkm. lia.
Qed.

(** Files that were synchronised as they stand survive as they are. *)
Lemma crash_keeps d d' f bs :
  crash d d' -> d_data d !! f = Some bs -> d_synced d !! f = Some bs ->
  d_data d' !! f = Some bs /\ d_synced d' !! f = Some bs.
Proof.
  intros Hc Hd Hs. split; [|by eapply crash_synced].
  destruct (crash_data _ _ Hc _ _ Hd) as (m & -> & Hm). rewrite take_ge; [done|]. by apply Hm.
Qed.
Lemma crash_holds d d' segs : forall n seq,
  crash d d' -> d_names d' = d_names d ->
  holds d n seq segs [] -> holds (durable_view d) n seq segs [] ->
  holds d' n seq segs [] /\ holds (durable_view d') n seq segs [].
Proof.
  induction segs as [|rs segs IH]; intros n seq Hc En H1 H2; [done|]. cbn [holds] in *.
  destruct H1 as [(f & Hf & Hd) H1], H2 as [(g & Hg & Hs) H2]. cbn [durable_view d_names d_data] in Hg, Hs.
  rewrite Hf in Hg. injection Hg as <-. destruct (IH _ _ Hc En H1 H2) as [H1' H2'].
  destruct (crash_keeps _ _ _ _ Hc Hd Hs) as [Hd' Hs'].
  split; (split; [exists f|done]); cbn [durable_view d_names d_data]; by rewrite En.
Qed.

Lemma crash_left d d' i anchor sgs lg :
  log_ok d i anchor sgs lg -> crash d d' ->
  exists j tail, (j <= length lg)%nat /\ log_left d' anchor sgs (take j lg) tail /\
    durable_physical_sequence (li_recovered i) <= start_sequence anchor + blen (states_of sgs) + Z.of_nat j /\
    (checkpoint_length anchor <= length (states_of sgs) + j)%nat.
Proof.
  intros Hok Hc. pose proof (lo_left _ _ _ _ _ Hok) as Hl.
  assert (En : d_names d' = d_names d).
  { apply map_eq. intros name. apply (crash_names _ _ Hc). by rewrite (lo_synced_names _ _ _ _ _ Hok). }
  destruct (lo_durable _ _ _ _ _ Hok) as (k & Hk & Hdur & Hsyn & Hck).
  pose proof (log_active_data _ _ _ _ _ Hok) as Hd. pose proof (lo_active _ _ _ _ _ Hok) as Hact.
  destruct (crash_data _ _ Hc _ _ Hd) as (m & Hd' & Hm). specialize (Hm _ Hsyn).
  destruct (left_last _ _ _ _ _ Hl) as (Hn & Hs & Hseq & Hsz & _).
  destruct (cut_frames lg _ (m - 64) Hseq) as (j & tail & Hj & E & Hinc & Hkj).
  pose proof (length_last_data anchor sgs (take k lg)) as Hlk.
  assert (Hkj' : (k <= j)%nat) by (apply Hkj; [done|lia]).
  assert (Hcut : take m (last_data anchor sgs lg) =
    segment_data (last_number anchor sgs) (last_first anchor sgs) (take j lg) tail).
  { unfold last_data, segment_data. rewrite app_nil_r.
    rewrite take_app_ge by (rewrite length_log_segment_header; lia).
    by rewrite length_log_segment_header, E. }
  rewrite Hcut in Hd'. exists j, tail. split; [done|]. split; [|lia].
  assert (Hseq' : sequenced (last_first anchor sgs) (take j lg)).
  { rewrite <- (take_drop j lg) in Hseq. by apply log_sequenced_app in Hseq as [? _]. }
  destruct (crash_holds d d' sgs _ _ Hc En (left_closed_files _ _ _ _ _ Hl) (ll_closed _ _ _ _ _ Hl)) as [Hh Hcl].
  constructor; try assumption.
  - rewrite En. apply (ll_directory _ _ _ _ _ Hl).
  - pose proof (ll_anchor _ _ _ _ _ Hl) as Ha. unfold anchor_held in *. destruct anchor as [a|]; [|done].
    destruct Ha as (Ha & g & Hg & Hgd & Hgs). split; [done|]. exists g. rewrite En. split; [done|].
    by apply (crash_keeps d).
  - rewrite segments_ok_app by done. split; [by eapply left_closed_segments|].
    cbn [segments_ok tail_of]. fold (last_number anchor sgs). fold (last_first anchor sgs).
    split; [exact Hn|]. split; [exact Hs|]. split; [exact Hseq'|]. split; [|exact I].
    rewrite <- Hcut, length_take. fold (last_data anchor sgs lg) in Hsz. lia.
  - rewrite holds_app by done. split; [exact Hh|]. cbn [holds tail_of]. fold (last_number anchor sgs).
    fold (last_first anchor sgs). split; [|exact I]. exists (li_active_file i). by rewrite En.
  - rewrite states_of_snoc, length_app, length_fmap, length_take. lia.
  - rewrite En. apply (ll_differ _ _ _ _ _ Hl).
  - intros name e He. rewrite En in He. destruct (ll_files _ _ _ _ _ Hl _ _ He) as [bs Hbs].
    destruct (crash_data _ _ Hc _ _ Hbs) as (m' & -> & _). eauto.
Qed.

(** The records that are left are acceptable when all of them were. *)
Lemma acceptable_prefix config anchor ps n :
  acceptable config anchor ps -> acceptable config anchor (take n ps).
Proof.
  intros [H1 H2 H3 H4 H5 H6]. constructor; try done.
  - intros k p Hk. apply lookup_take_Some in Hk as [Hk _]. by apply H2.
  - rewrite length_take. lia.
  - rewrite length_take. lia.
  - pose proof (groups_of_prefix (take n ps) (drop n ps)) as H. rewrite take_drop in H. lia.
  - rewrite take_take, Nat.min_comm, <- take_take. rewrite fmap_take. 
    eapply sublist_NoDup; [exact H6|]. rewrite <- (take_drop n (group_of <$> take _ ps)) at 2.
    by apply sublist_inserts_r.
Qed.
Lemma states_of_cut sgs lg j :
  (j <= length lg)%nat ->
  states_of (sgs ++ [take j lg]) = take (length (states_of sgs) + j) (states_of (sgs ++ [lg])).
Proof. intros Hj. rewrite !states_of_snoc, take_app_add. by rewrite fmap_take. Qed.
