(* ===== verification/RaftLogCheckpoint.v ===== *)
(** Checkpoint and reclamation of a persistent Raft log: a checkpoint of all known
    groups is written to new segments, an anchor makes them the base, and the older
    segments and anchors are removed.  The log that is left is a live log over the
    checkpoint and what follows it. *)
From stdpp Require Import sorting.
From S2P Require Import Prelude Bytes Crc32c Reading RaftTypes RaftMembership RaftLogCodec RaftLogRecord.
From S2P Require Import OrderedMap PosixIo DiskFacts WalPaths RaftLogFiles RaftLogFileFacts RaftPersistentLog.
From S2P Require Import RaftLogHistory RaftLogSegments RaftLogDirectory RaftLogOpen RaftLogLive.
#[local] Open Scope Z_scope.
#[local] Opaque segment_header_bytes record_bytes anchor_bytes.

(** * The parts of the operation *)

(** What the first loop has checked. *)
Lemma validate_checkpoint_inv config ps : forall expected groups groups' sizes,
  validate_checkpoint config ps expected groups = Ok (groups', sizes) ->
  groups' = groups_of ps ∪ groups /\ NoDup (group_of <$> ps) /\
  (forall g, g ∈ groups -> g ∉ group_of <$> ps) /\
  (forall k p, ps !! k = Some p -> gp_physical_sequence p = expected + 1 + Z.of_nat k) /\
  (ps <> [] -> expected <> max_u64).
Proof.
  induction ps as [|p ps IH]; intros expected groups groups' sizes H; cbn [validate_checkpoint] in H.
  - injection H as <- <-. split_and!; [set_solver|apply NoDup_nil_2|intros g _; apply not_elem_of_nil|done|done].
  - destruct (Z.eqb_spec expected max_u64); [done|]. destruct (_ || _) eqn:G; [done|]. bool_prop.
    apply rbind_Ok in H as (encoded & _ & H). destruct (_ >? _); [done|].
    apply rbind_Ok in H as ([groups1 sizes1] & E & H). injection H as <- <-.
    apply IH in E as (-> & Hnd & Hdis & Hseq & _).
    assert (Hp : group_of p ∉ group_of <$> ps) by (apply Hdis; unfold group_of; set_solver).
    split_and!.
    + unfold groups_of. cbn. unfold group_of. set_solver.
    + rewrite fmap_cons. by constructor.
    + intros g Hg. rewrite fmap_cons, elem_of_cons. intros [->|Hin]; [done|].
      revert Hin. apply Hdis. set_solver.
    + intros [|k] q Hk; cbn in Hk; [injection Hk as <-; lia|]. rewrite (Hseq _ _ Hk). lia.
    + done.
Qed.

Lemma validate_checkpoint_error config ps : forall expected groups s,
  validate_checkpoint config ps expected groups = Err s -> s <> kOk.
Proof.
  induction ps as [|p ps IH]; intros expected groups s; cbn [validate_checkpoint]; [done|].
  destruct (expected =? max_u64); [by intros [= <-]|]. destruct (_ || _); [by intros [= <-]|].
  apply rbind_not_ok. intros encoded s'. destruct (_ >? _); [by intros [= <-]|].
  apply rbind_not_ok. by intros [groups1 sizes1] s''.
Qed.
Lemma segments_needed_ge target sizes : forall additional simulated,
  additional <= segments_needed target sizes additional simulated.
Proof.
  induction sizes as [|x sizes IH]; intros additional simulated; cbn [segments_needed]; [lia|].
  destruct (_ >? _); [|apply IH]. etransitivity; [|apply IH]. lia.
Qed.

Section parts.
Context {W : Type} {HIO : PosixIo W} {HL : PosixLaws W}.

Lemma wp_then_close (c : IO W unit) f (w : W) (Q : unit -> W -> Prop) :
  wp c w (fun _ w1 => wp (close_file f) w1 Q anything) anything -> wp (then_close c f) w Q anything.
Proof.
  unfold wp at 1, then_close. destruct (c w) as [[u|s] w1] eqn:E; intros H.
  - unfold wp in *. rewrite E. by destruct (close_file f w1) as [[[]|s] w2].
  - destruct H as [Hs _]. unfold wp. rewrite E. by destruct (close_file f w1) as [r w2].
Qed.

Lemma wp_install_anchor config a (w : W) :
  anchor_ok a ->
  wp (install_recovery_anchor config a) w
    (fun _ w' => exists g, d_names (disk w) !! anchor_name (ra_base_segment_number a) = None /\
       d_data (disk w) !! g = None /\
       disk w' = installed (anchor_name (ra_base_segment_number a)) g (anchor_bytes a) (disk w)) anything.
Proof.
  intros Ha. unfold install_recovery_anchor. apply wp_bind, wp_pure. rewrite encode_anchor_exact by done. cbv zeta.
  set (n := ra_base_segment_number a). set (temporary := recovery_anchor_name n kRecoveryAnchorTemporarySuffix).
  fold (anchor_name n).
  assert (Hn : segment_number_ok n) by (destruct Ha as ((Hw & H0) & _); unfold segment_number_ok; fold n in Hw, H0; width_lia).
  assert (Hne : temporary <> anchor_name n).
  { intros E. pose proof (name_kind_anchor_temporary n Hn) as H1. pose proof (name_kind_anchor n Hn) as H2.
    fold (anchor_name n) in H2. fold temporary in H1. by rewrite E, H2 in H1. }
  apply wp_bind. wp_try (law_create temporary (rc_file_permissions config)); [|done].
  intros f w1 (Hn1 & Hd1 & D1). apply wp_then_close, wp_bind. wp_try (law_write f 0 (anchor_bytes a)); [|done].
  intros _ w2 D2. apply wp_bind. wp_try (law_sync_all f); [|done]. intros _ w3 D3.
  apply wp_bind. wp_try (law_rename temporary (anchor_name n)); [|done].
  intros _ w4 (e & He & Hfree & D4). wp_try law_directory_sync; [|done].
  intros _ w5 D5. wp_try (law_close_file f); [|done]. intros _ w6 D6.
  assert (Hnames : d_names (disk w3) = <[temporary := (kRegularFile, f)]> (d_names (disk w)))
    by (by rewrite D3, D2, D1).
  assert (Hdata : d_data (disk w2) = <[f := anchor_bytes a]> (d_data (disk w))).
  { rewrite D2, D1. unfold write_disk, create_disk. cbn [d_data]. rewrite alter_insert_eq. done. }
  rewrite Hnames in He, Hfree. rewrite lookup_insert_eq in He. injection He as <-.
  rewrite lookup_insert_ne in Hfree by done. exists f. split; [done|]. split; [done|].
  rewrite D6, D5, D4, D3. unfold installed, sync_names, set_names, sync_disk. cbn.
  rewrite Hdata, lookup_insert_eq.
  assert (Hns : d_names (disk w2) = d_names (disk w3)) by (by rewrite D3). rewrite Hns, Hnames.
  rewrite delete_insert_id by done.
  assert (Hsy : d_synced (disk w2) = d_synced (disk w)) by (by rewrite D2, D1). by rewrite Hsy.
Qed.

(** The records of a checkpoint are appended after the segments before it. *)
Lemma wp_append_all ps : forall (w : W) i anchor before sgs lg,
  log_ok (disk w) i anchor (before ++ sgs) lg -> Forall state_given ps -> li_failure i = kOk ->
  wp (append_all ps) (w, i)
    (fun _ wi => exists sgs' lg', log_ok (disk wi.1) wi.2 anchor (before ++ sgs') lg' /\
       concat (sgs' ++ [lg']) = concat (sgs ++ [lg]) ++ ((fun p => (1, p)) <$> ps) /\
       kept_members i wi.2 /\ li_failure wi.2 = kOk) anything.
Proof.
  induction ps as [|p ps IH]; intros w i anchor before sgs lg Hok Hall Hf; cbn [append_all].
  - apply wp_ret. exists sgs, lg. split; [done|]. split; [by rewrite app_nil_r|]. split; [split; [done|cbn; lia]|done].
  - apply Forall_cons in Hall as [Hp Hall]. apply wp_bind, wp_or_fail.
    eapply wp_mono; [apply (wp_append w i _ _ _ p Hok Hp)| |done].
    intros pos [w1 i1] (sgs1 & lg1 & Happ & Hok1 & [Hc1 Hd1] & Hf1 & _). cbn [fst snd] in *.
    assert (Hsplit : exists sgs2, sgs1 = before ++ sgs2 /\ appended sgs lg (1, p) sgs2 lg1).
    { destruct Happ as [[-> ->]|[-> ->]]; [exists sgs|exists (sgs ++ [lg])]; (split; [by rewrite ?app_assoc|]);
        [by left|by right]. }
    destruct Hsplit as (sgs2 & -> & Happ2).
    eapply wp_mono; [apply (IH w1 i1 anchor before sgs2 lg1 Hok1 Hall Hf1)| |done].
    intros _ [w2 i2] (sgs' & lg' & Hok' & E & [Hc2 Hd2] & Hf2). cbn [fst snd] in *. exists sgs', lg'. split; [done|].
    split; [by rewrite E, (appended_concat _ _ _ _ _ Happ2), <- app_assoc|].
    split; [split; [congruence|lia]|done].
Qed.

(** Removing the older segments, by their record counts. *)
Lemma wp_reclaim_counts base : forall sgs n rest segments records (w : W) i,
  li_segment_record_counts i = counts_of n sgs ++ rest -> n + blen sgs <= base ->
  match rest with [] => True | (k, _) :: _ => base <= k end ->
  wp (reclaim_counts base (counts_of n sgs ++ rest) segments records) (w, i)
    (fun out wi => out = (segments + blen sgs, records + blen (concat sgs)) /\
       wi.2 = with_counts i rest /\
       disk wi.1 = set_names (without (log_name <$> seqZ n (blen sgs)) (d_names (disk w))) (disk w)) anything.
Proof.
  induction sgs as [|rs sgs IH]; intros n rest segments records w i Hi Hn Hrest; cbn [counts_of app] in *.
  - assert (Hid : with_counts i rest = i) by (destruct i; cbn in *; by subst).
    assert (Hd : set_names (without (log_name <$> seqZ n (blen (@nil (list LogRecord)))) (d_names (disk w))) (disk w) = disk w)
      by (cbn; by destruct (disk w)).
    rewrite Hd, Hid. cbn [concat length]. rewrite !Z.add_0_r.
    destruct rest as [|[k c] rest]; cbn [reclaim_counts]; [by apply wp_ret|].
    rewrite (proj2 (Z.ltb_ge _ _)) by done. by apply wp_ret.
  - cbn [reclaim_counts]. cbn [length] in Hn. rewrite (proj2 (Z.ltb_lt _ _)) by lia.
    apply wp_bind, wp_or_fail, wp_on_files. fold (log_name n). wp_try (law_remove (log_name n)); [|done].
    intros _ w1 [_ D1]. apply wp_bind, wp_get, wp_bind, wp_put.
    eapply wp_mono; [apply (IH (n + 1) rest (segments + 1) (records + blen rs) w1 (with_counts i (counts_of (n + 1) sgs ++ rest)))| |done].
    + done.
    + lia.
    + done.
    + intros out [w2 i2] (-> & E & D2). cbn [fst snd] in *. subst i2. split; [|split].
      * cbn [length concat]. rewrite length_app. f_equal; lia.
      * done.
      * rewrite D2, D1. cbn [length]. rewrite (seqZ_cons n) by lia. cbn [fmap list_fmap without foldl].
        replace (Z.pred (Z.of_nat (S (length sgs)))) with (blen sgs) by lia. done.
Qed.

Lemma wp_reclaim_anchors base : forall anchors (w : W) i,
  li_recovery_anchors i = anchors ++ [base] -> Forall (fun n => n < base) anchors ->
  wp (reclaim_anchors base (anchors ++ [base])) (w, i)
    (fun _ wi => wi.2 = with_anchors i [base] /\
       disk wi.1 = set_names (without (anchor_name <$> anchors) (d_names (disk w))) (disk w)) anything.
Proof.
  induction anchors as [|n anchors IH]; intros w i Hi Hall; cbn [app reclaim_anchors] in *.
  - rewrite Z.ltb_irrefl. apply wp_ret. cbn [fst snd]. split; [destruct i; cbn in *; by subst|].
    cbn. by destruct (disk w).
  - apply Forall_cons in Hall as [Hn Hall]. rewrite (proj2 (Z.ltb_lt _ _)) by done.
    apply wp_bind, wp_or_fail, wp_on_files. fold (anchor_name n). wp_try (law_remove (anchor_name n)); [|done].
    intros _ w1 [_ D1]. apply wp_bind, wp_get, wp_bind, wp_put.
    eapply wp_mono; [apply (IH w1 (with_anchors i (anchors ++ [base]))); done| |done].
    intros _ [w2 i2] (E & D2). cbn [fst snd] in *. subst i2. split; [done|]. by rewrite D2, D1.
Qed.
End parts.

(** * The log over a checkpoint *)

Lemma holds_split d a b n seq :
  holds d n seq (a ++ b) [] ->
  holds d n seq a [] /\ holds d (n + blen a) (seq + blen (concat a)) b [].
Proof.
  destruct b as [|rs b]; [rewrite app_nil_r; done|]. intros H. by rewrite holds_app in H.
Qed.
Lemma states_of_length segs : blen (states_of segs) = blen (concat segs).
Proof. unfold states_of. by rewrite length_fmap. Qed.

Section rebase.
Context (d : Disk) (i : LogImpl) (anchor : option RecoveryAnchor) (before nsgs : list (list LogRecord))
  (nlg : list LogRecord) (Hok : log_ok d i anchor (before ++ nsgs) nlg).
Context (a : RecoveryAnchor) (Ha : anchor_ok a) (g : PosixFile) (Hfresh : d_data d !! g = None).

Let base := base_of anchor + blen before.
Let ps := states_of (nsgs ++ [nlg]).

Context (Hbase : ra_base_segment_number a = base).
Context (Hfirst : ra_checkpoint_first_sequence a = start_sequence anchor + blen (states_of before) + 1).
Context (Hcount : ra_checkpoint_group_count a = blen ps).
Context (Hfree : d_names d !! anchor_name base = None) (Hbefore : before <> []).

Let d1 := installed (anchor_name base) g (anchor_bytes a) d.

Lemma rebase_segments : (before ++ nsgs) ++ [nlg] = before ++ (nsgs ++ [nlg]).
Proof. by rewrite app_assoc. Qed.
Lemma rebase_last : last_number (Some a) nsgs = last_number anchor (before ++ nsgs).
Proof. unfold last_number. cbn [base_of]. rewrite Hbase, length_app. unfold base. lia. Qed.
Lemma rebase_first : first_sequence (Some a) = first_sequence anchor + blen (concat before).
Proof.
  unfold first_sequence. cbn [start_sequence]. rewrite Hfirst, states_of_length. unfold first_sequence. lia.
Qed.
Lemma rebase_last_first : last_first (Some a) nsgs = last_first anchor (before ++ nsgs).
Proof. unfold last_first. rewrite rebase_first, concat_app, length_app. lia. Qed.
Lemma rebase_range : segment_number_ok base.
Proof.
  pose proof (left_range _ _ _ _ _ (lo_left _ _ _ _ _ Hok)) as Hr. rewrite length_app in Hr.
  unfold segment_number_ok, base. lia.
Qed.
Lemma rebase_other name e : d_names d !! name = Some e -> d_names d1 !! name = Some e /\ e.2 <> g.
Proof.
  intros He. split; [|intros E; destruct (ll_files _ _ _ _ _ (lo_left _ _ _ _ _ Hok) _ _ He) as [? Hx];
    rewrite E, Hfresh in Hx; done].
  unfold d1. cbn [installed d_names]. rewrite lookup_insert_ne; [done|]. intros <-. by rewrite Hfree in He.
Qed.

Lemma rebase_directory : log_directory (d_names d1) base (S (length nsgs)) true.
Proof.
  pose proof (ll_directory _ _ _ _ _ (lo_left _ _ _ _ _ Hok)) as Hd.
  pose proof (ldir_range _ _ _ _ Hd) as Hr. rewrite length_app in Hr.
  pose proof rebase_range as Hb. pose proof (name_kind_anchor _ Hb) as Hkind. fold (anchor_name base) in Hkind.
  split.
  - destruct (ldir_lock _ _ _ _ Hd) as [l Hl]. exists l. by apply rebase_other in Hl as [? _].
  - unfold base in *. lia.
  - intros j Hj. destruct (ldir_present _ _ _ _ Hd j) as [e He].
    { rewrite length_app. unfold base in Hj. lia. }
    exists e. by apply rebase_other in He as [? _].
  - intros _. exists (kRegularFile, g). unfold d1. cbn [installed d_names]. apply lookup_insert_eq.
  - intros name e He. unfold d1 in He. cbn [installed d_names] in He.
    apply lookup_insert_Some in He as [[<- <-]|[Hne He]].
    + split; [done|]. right. rewrite Hkind. split; [done|lia].
    + destruct (ldir_known _ _ _ _ Hd _ _ He) as [Hreg Hk]. split; [done|]. destruct Hk as [|Hk]; [by left|right].
      destruct (name_kind name); try done.
      * rewrite length_app in Hk. unfold base. lia.
      * split; [done|]. unfold base. lia.
Qed.

Lemma rebase_left : log_left d1 (Some a) nsgs nlg [].
Proof.
  pose proof (lo_left _ _ _ _ _ Hok) as Hl. pose proof rebase_first as Ef.
  assert (Eb : base_of (Some a) = base) by exact Hbase.
  constructor.
  - rewrite Eb. apply rebase_directory.
  - split; [exact Ha|]. exists g. rewrite Hbase. unfold d1. cbn [installed d_names d_data d_synced].
    rewrite lookup_insert_eq. split; [done|]. split; apply lookup_insert_eq.
  - pose proof (ll_segments _ _ _ _ _ Hl) as Hs. rewrite rebase_segments in Hs.
    rewrite segments_ok_app in Hs by by destruct nsgs. rewrite Eb, Ef. apply Hs.
  - pose proof (ll_holds _ _ _ _ _ Hl) as Hs. rewrite rebase_segments in Hs. apply holds_split in Hs as [_ Hs].
    rewrite Eb, Ef. eapply holds_mono; [|exact Hs]. intros j f bs Hj Hf Hfd.
    destruct (rebase_other _ _ Hf) as [Hf' Hne]. split; [exact Hf'|]. cbn [snd] in Hne.
    unfold d1. cbn [installed d_data]. by rewrite lookup_insert_ne by congruence.
  - pose proof (ll_closed _ _ _ _ _ Hl) as Hs. apply holds_split in Hs as [_ Hs].
    rewrite Eb, Ef. eapply holds_mono; [|exact Hs]. cbn [durable_view d_names d_data]. intros j f bs Hj Hf Hfd.
    destruct (rebase_other _ _ Hf) as [Hf' Hne]. split; [exact Hf'|]. cbn [snd] in Hne.
    unfold d1. cbn [installed d_synced]. by rewrite lookup_insert_ne by congruence.
  - apply incomplete_nil.
  - cbn [checkpoint_length]. rewrite Hcount, Nat2Z.id. done.
  - unfold d1. cbn [installed d_names]. apply insert_names_differ; [apply (ll_differ _ _ _ _ _ Hl)|].
    intros name e He. by apply rebase_other in He as [_ ?].
  - intros name e He. unfold d1 in He |- *. cbn [installed d_names d_data] in He |- *.
    apply lookup_insert_Some in He as [[<- <-]|[_ He]]; [rewrite lookup_insert_eq; eauto|].
    destruct (rebase_other _ _ He) as [_ Hne]. rewrite lookup_insert_ne by congruence.
    apply (ll_files _ _ _ _ _ Hl _ _ He).
Qed.

(** All states are those before the checkpoint, then those from it on. *)
Lemma rebase_states : states_of ((before ++ nsgs) ++ [nlg]) = states_of before ++ ps.
Proof. rewrite rebase_segments. apply states_of_app. Qed.
Lemma rebase_start : start_sequence (Some a) = start_sequence anchor + blen (states_of before).
Proof. cbn [start_sequence]. lia. Qed.

Context (Hdistinct : NoDup (group_of <$> ps)) (Hknown : groups_of (states_of before) ⊆ groups_of ps).

Lemma rebase_groups : groups_of (states_of ((before ++ nsgs) ++ [nlg])) = groups_of ps.
Proof. rewrite rebase_states, groups_of_app. set_solver. Qed.

Lemma rebase_acceptable : acceptable (li_config i) (Some a) ps.
Proof.
  pose proof (lo_acceptable _ _ _ _ _ Hok) as [H1 H2 H3 H4 H5 H6]. rewrite rebase_states in H2, H3, H4.
  rewrite rebase_groups in H5. rewrite !length_app in H3, H4. pose proof rebase_start as Es.
  constructor.
  - exact Ha.
  - intros k p Hk. rewrite Es. rewrite (H2 (length (states_of before) + k)%nat); [lia|].
    rewrite lookup_app_r by lia. by replace (length (states_of before) + k - length (states_of before))%nat with k by lia.
  - lia.
  - lia.
  - exact H5.
  - eapply sublist_NoDup; [exact Hdistinct|]. apply fmap_sublist, sublist_take.
Qed.

Context (names : Names).
Context (Hkeep : forall name, kept base (S (length nsgs)) true name -> names !! name = d_names d1 !! name).
Context (Honly : forall name e, names !! name = Some e ->
  kept base (S (length nsgs)) true name /\ d_names d1 !! name = Some e).
Context (Hdur : durable_physical_sequence (li_recovered i) =
  start_sequence anchor + blen (states_of ((before ++ nsgs) ++ [nlg]))).
Context (Hsyn : d_synced d !! li_active_file i = Some (last_data anchor (before ++ nsgs) nlg)).

Definition rebased_disk : Disk :=
  {| d_names := names; d_data := d_data d1; d_synced_names := names; d_synced := d_synced d1 |}.
Definition rebased_impl : LogImpl :=
  with_reclaimed (with_anchors (with_counts i (counts_of base (nsgs ++ [nlg]))) [base]) base
    (blen before) (blen (concat before)).

Lemma rebased_ok : log_ok rebased_disk rebased_impl (Some a) nsgs nlg.
Proof.
  pose proof rebase_left as Hl. pose proof rebase_last as En. pose proof rebase_last_first as Ef.
  assert (Eb : base_of (Some a) = base) by exact Hbase.
  pose proof rebase_acceptable as Hacc. pose proof rebase_states as Est. pose proof rebase_start as Ess.
  pose proof (log_active_data _ _ _ _ _ Hok) as Hd. pose proof (lo_active _ _ _ _ _ Hok) as Hact.
  destruct (rebase_other _ _ Hact) as [Hact1 Hne]. cbn [snd] in Hne. rewrite <- En in Hact1.
  assert (Hlast : last_data anchor (before ++ nsgs) nlg = last_data (Some a) nsgs nlg)
    by (unfold last_data; by rewrite En, Ef).
  assert (Hkact : kept base (S (length nsgs)) true (log_name (last_number (Some a) nsgs))).
  { right. left. exists (last_number (Some a) nsgs). split; [|done]. unfold last_number. rewrite Eb. lia. }
  destruct (left_last _ _ _ _ _ Hl) as (_ & _ & Hseq & Hsz & _).
  destruct Hok as [Hl0 _ _ _ Hcfg Hopen _ Hpos Hsc Hrc _ Hk _ _ _].
  assert (Hst : blen (states_of ((before ++ nsgs) ++ [nlg])) = blen (states_of before) + blen ps)
    by (rewrite Est, length_app; lia).
  constructor.
  - apply (left_update d1 rebased_disk (Some a) nsgs nlg [] nlg [] (li_active_file i) Hl Hact1).
    + intros name e He. by apply Honly.
    + rewrite Eb. exact Hkeep.
    + done.
    + done.
    + cbn [rebased_disk d_data]. fold (last_data (Some a) nsgs nlg). rewrite <- Hlast, <- Hd.
      unfold d1. cbn [installed d_data]. apply lookup_insert_ne. congruence.
    + exact Hseq.
    + exact Hsz.
    + apply incomplete_nil.
    + apply (ll_covered _ _ _ _ _ Hl).
  - intros name [e He]. rewrite Eb. by apply Honly in He as [? _].
  - done.
  - exact Hacc.
  - exact Hcfg.
  - exact Hopen.
  - cbn [rebased_disk d_names]. rewrite Hkeep by exact Hkact. exact Hact1.
  - cbn. rewrite Hpos, En. f_equal. rewrite Hst. fold ps. rewrite Hfirst. lia.
  - destruct Hsc as [Hsc Hmx]. cbn [rebased_impl with_reclaimed with_recovered li_recovered segment_count with_anchors with_counts li_config].
    rewrite Hsc. rewrite length_app in *. rewrite wrap_small; [lia|].
    pose proof (left_range _ _ _ _ _ Hl0) as Hr. rewrite length_app in Hr. width_lia.
  - cbn [rebased_impl with_reclaimed with_recovered li_recovered record_count with_anchors with_counts].
    rewrite Hrc, Hst, states_of_length. fold ps. rewrite wrap_small; [lia|].
    pose proof (acc_width _ _ _ Hacc) as Hwid. rewrite Ess in Hwid.
    pose proof (acc_anchor _ _ _ Hacc) as (_ & Hf1 & _). rewrite Hfirst in Hf1. cbn in Hwid.
    rewrite states_of_length in *. split; [lia|]. change (2 ^ 64) with (max_u64 + 1). 
    assert (blen (concat before) + 0 <= blen (concat before)) by lia. lia.
  - cbn. exact (eq_sym Eb).
  - cbn [rebased_impl with_reclaimed with_recovered li_known_groups with_anchors with_counts].
    rewrite Hk, rebase_groups. done.
  - cbn [rebased_impl with_reclaimed with_recovered li_segment_record_counts with_anchors with_counts]. by rewrite Eb.
  - cbn [rebased_impl with_reclaimed with_recovered li_recovery_anchors with_anchors with_counts is_some]. by rewrite Eb.
  - exists (length nlg). split; [done|].
    cbn [rebased_impl with_reclaimed with_recovered li_recovered durable_physical_sequence with_anchors with_counts li_active_file].
    split; [|split].
    + rewrite Hdur, Hst. unfold ps. rewrite states_of_snoc, length_app, length_fmap, Ess. lia.
    + rewrite firstn_all, <- Hlast, <- Hsyn. unfold rebased_disk, d1. cbn [d_synced installed].
      apply lookup_insert_ne. congruence.
    + cbn [checkpoint_length]. rewrite Hcount, Nat2Z.id. unfold ps.
      rewrite states_of_snoc, length_app, length_fmap. lia.
Qed.
End rebase.

(** * The operation *)

(** Removing the segments and the anchor before a base leaves what is kept. *)
Lemma reclaimed_names d i anchor before nsgs nlg a g :
  log_ok d i anchor (before ++ nsgs) nlg -> before <> [] ->
  let base := base_of anchor + blen before in
  let anchors := if is_some anchor then [base_of anchor] else [] in
  let d1 := installed (anchor_name base) g (anchor_bytes a) d in
  let names := without (anchor_name <$> anchors)
                 (without (log_name <$> seqZ (base_of anchor) (blen before)) (d_names d1)) in
  (forall name, kept base (S (length nsgs)) true name -> names !! name = d_names d1 !! name) /\
  (forall name e, names !! name = Some e ->
     kept base (S (length nsgs)) true name /\ d_names d1 !! name = Some e).
Proof.
  intros Hok Hne base anchors d1 names. pose proof (lo_left _ _ _ _ _ Hok) as Hl.
  pose proof (left_range _ _ _ _ _ Hl) as Hr. rewrite length_app in Hr.
  assert (0 < blen before) by (destruct before; [done|cbn; lia]).
  assert (Hnum : forall j, base_of anchor <= j <= base + blen nsgs -> segment_number_ok j)
    by (intros j Hj; unfold segment_number_ok, base in *; lia).
  assert (Hb : segment_number_ok base) by (apply Hnum; unfold base; lia).
  assert (H0 : segment_number_ok (base_of anchor)) by (apply Hnum; unfold base; lia).
  assert (Hseg : forall j, name_kind (log_name j) = NSegment j \/ ~ segment_number_ok j).
  { intros j. destruct (decide (1 <= j <= max_u64)); [left; by apply name_kind_segment|by right]. }
  assert (Hanchors : forall name, name ∈ anchor_name <$> anchors -> name = anchor_name (base_of anchor)).
  { intros name Hin. apply list_elem_of_fmap in Hin as (x & -> & Hx). unfold anchors in Hx.
    destruct (is_some anchor); [by apply list_elem_of_singleton in Hx as ->|by apply elem_of_nil in Hx]. }
  assert (Hsegs : forall name, name ∈ log_name <$> seqZ (base_of anchor) (blen before) <->
    exists j, base_of anchor <= j < base /\ name = log_name j).
  { intros name. rewrite list_elem_of_fmap. setoid_rewrite elem_of_seqZ. unfold base. naive_solver. }
  pose proof (name_kind_anchor _ H0) as K0. fold (anchor_name (base_of anchor)) in K0.
  pose proof (name_kind_anchor _ Hb) as Kb. fold (anchor_name base) in Kb.
  unfold names. split.
  - intros name Hk. rewrite !lookup_without.
    assert (Hcases : name = kLockName \/ (exists j, base <= j <= base + blen nsgs /\ name = log_name j) \/
      name = anchor_name base) by (destruct Hk as [|[(j & Hj & ->)|[_ ->]]]; [by left|right; left; exists j; split; [lia|done]|by right; right]).
    rewrite decide_False, decide_False; [done| |].
    + rewrite Hsegs. intros (j & Hj & E). pose proof (name_kind_segment j (Hnum j ltac:(unfold base in *; lia))) as K.
      fold (log_name j) in K. rewrite <- E in K. destruct Hcases as [->|[(j' & Hj' & ->)| ->]].
      * by rewrite name_kind_lock in K.
      * destruct (Hseg j') as [K'|K']; [rewrite K' in K; injection K; lia|apply K', Hnum; lia].
      * by rewrite Kb in K.
    + intros Hin. apply Hanchors in Hin. rewrite <- Hin in K0. destruct Hcases as [->|[(j' & Hj' & ->)| ->]].
      * by rewrite name_kind_lock in K0.
      * destruct (Hseg j') as [K'|K']; [by rewrite K' in K0|apply K', Hnum; lia].
      * rewrite Kb in K0. injection K0. unfold base. lia.
  - intros name e. rewrite !lookup_without. case_decide as Ha; [done|]. case_decide as Hs; [done|].
    intros He. split; [|done]. unfold d1 in He. cbn [installed d_names] in He.
    apply lookup_insert_Some in He as [[<- _]|[_ He]]; [by right; right|].
    destruct (lo_clean _ _ _ _ _ Hok name) as [->|[(j & Hj & ->)|[Hsome ->]]]; [eauto|by left| |].
    + right. left. exists j. split; [|done]. rewrite length_app in Hj.
      destruct (decide (j < base)); [|unfold base in *; lia]. exfalso. apply Hs, Hsegs. exists j. split; [lia|done].
    + exfalso. apply Ha. unfold anchors. rewrite Hsome. by left.
Qed.

Lemma os_insert_above base l : (forall x, x ∈ l -> x < base) -> os_insert base l = l ++ [base].
Proof.
  induction l as [|x l IH]; intros H; [done|]. cbn [os_insert app].
  assert (x < base) by (apply H; by left).
  rewrite (proj2 (Z.ltb_ge _ _)), (proj2 (Z.eqb_neq _ _)) by lia. f_equal. apply IH. intros y Hy. apply H. by right.
Qed.

Lemma checkpoint_positions ps expected :
  (forall k p, ps !! k = Some p -> gp_physical_sequence p = expected + 1 + Z.of_nat k) ->
  (forall front, head ps = Some front -> gp_physical_sequence front = expected + 1) /\
  (forall back, last ps = Some back -> gp_physical_sequence back = expected + blen ps).
Proof.
  intros H. split.
  - intros front Hf. destruct ps as [|p ps]; [done|]. injection Hf as ->. rewrite (H 0%nat front eq_refl). lia.
  - intros back Hb. destruct ps as [|p ps _] using rev_ind; [done|]. rewrite last_snoc in Hb. injection Hb as ->.
    rewrite (H (length ps) back) by (by rewrite list_lookup_middle). rewrite length_app. cbn. lia.
Qed.

Section operation.
Context {W : Type} {HIO : PosixIo W} {HL : PosixLaws W}.

(** From the installation of the anchor on. *)
Definition reclaim_from (base : Z) (front back : GroupPersistentState)
  : IO (W * LogImpl) RaftPersistentLogReclamation :=
  let* i := get_log in
  do* put_log (with_anchors i (os_insert base (li_recovery_anchors i)));
  let* (segments, records) := reclaim_counts base (li_segment_record_counts i) 0 0 in
  do* or_fail (on_files directory_sync);
  let* i := get_log in
  do* reclaim_anchors base (li_recovery_anchors i);
  do* or_fail (on_files directory_sync);
  let* i := get_log in
  do* put_log (with_reclaimed i base segments records);
  io_ret {| rl_base_segment_number := base;
            checkpoint_first_physical_sequence := gp_physical_sequence front;
            checkpoint_last_physical_sequence := gp_physical_sequence back;
            reclaimed_segments := segments; reclaimed_records := records |}.

Lemma wp_reclaim_from (w : W) d i anchor before nsgs nlg a g front back :
  log_ok d i anchor (before ++ nsgs) nlg -> before <> [] ->
  let base := base_of anchor + blen before in
  anchor_ok a -> d_data d !! g = None -> ra_base_segment_number a = base ->
  ra_checkpoint_first_sequence a = start_sequence anchor + blen (states_of before) + 1 ->
  ra_checkpoint_group_count a = blen (states_of (nsgs ++ [nlg])) ->
  d_names d !! anchor_name base = None -> disk w = installed (anchor_name base) g (anchor_bytes a) d ->
  NoDup (group_of <$> states_of (nsgs ++ [nlg])) ->
  groups_of (states_of before) ⊆ groups_of (states_of (nsgs ++ [nlg])) ->
  durable_physical_sequence (li_recovered i) =
    start_sequence anchor + blen (states_of ((before ++ nsgs) ++ [nlg])) ->
  d_synced d !! li_active_file i = Some (last_data anchor (before ++ nsgs) nlg) ->
  wp (reclaim_from base front back) (w, i)
    (fun out wi => log_ok (disk wi.1) wi.2 (Some a) nsgs nlg /\ kept_members i wi.2 /\
       li_failure wi.2 = li_failure i /\ rl_base_segment_number out = base /\
       reclaimed_segments out = blen before /\ reclaimed_records out = blen (concat before)) anything.
Proof.
  intros Hok Hne base Ha Hfresh Hbase Hfirst Hcount Hfree D Hnd Hkn Hdur Hsyn.
  assert (0 < blen before) by (destruct before; [done|cbn; lia]).
  unfold reclaim_from. apply wp_bind, wp_get, wp_bind, wp_put.
  set (anchors := if is_some anchor then [base_of anchor] else []).
  assert (Hanch : li_recovery_anchors i = anchors) by apply (lo_anchors _ _ _ _ _ Hok).
  assert (Hlt : forall x, x ∈ anchors -> x < base).
  { intros x Hx. unfold anchors in Hx. destruct (is_some anchor); [|by apply elem_of_nil in Hx].
    apply list_elem_of_singleton in Hx as ->. unfold base. lia. }
  rewrite Hanch, os_insert_above by done.
  assert (Hcounts : li_segment_record_counts i = counts_of (base_of anchor) before ++ counts_of base (nsgs ++ [nlg])).
  { rewrite (lo_record_counts _ _ _ _ _ Hok), <- app_assoc. apply counts_of_app. }
  rewrite Hcounts. apply wp_bind.
  eapply wp_mono; [apply (wp_reclaim_counts base before (base_of anchor) (counts_of base (nsgs ++ [nlg])))| |done].
  { exact Hcounts. }
  { unfold base. lia. }
  { destruct nsgs; cbn; lia. }
  intros out [w1 i1] (-> & E1 & D1). cbn [fst snd] in E1, D1. subst i1. rewrite !Z.add_0_l.
  apply wp_bind, wp_or_fail, wp_on_files. wp_try law_directory_sync; [|done]. intros _ w2 D2.
  apply wp_bind, wp_get, wp_bind. cbn [with_counts with_anchors li_recovery_anchors].
  eapply wp_mono; [apply (wp_reclaim_anchors base anchors)| |done]; [reflexivity|by apply Forall_forall|].
  intros _ [w3 i3] (E3 & D3). cbn [fst snd] in E3, D3. subst i3.
  apply wp_bind, wp_or_fail, wp_on_files. wp_try law_directory_sync; [|done]. intros _ w4 D4.
  apply wp_bind, wp_get, wp_bind, wp_put, wp_ret. cbn [fst snd].
  destruct (reclaimed_names d i anchor before nsgs nlg a g Hok Hne) as [Hkeep Honly]. fold base in Hkeep, Honly.
  fold anchors in Hkeep, Honly.
  split; [|split; [split; [reflexivity|cbn; lia]|split; [reflexivity|done]]].
  pose proof (rebased_ok d i anchor before nsgs nlg Hok a Ha g Hfresh Hbase Hfirst Hcount Hfree Hne Hnd Hkn
    _ Hkeep Honly Hdur Hsyn) as Hfin.
  assert (Ed : disk w4 = rebased_disk d anchor before a g (without (anchor_name <$> anchors)
    (without (log_name <$> seqZ (base_of anchor) (blen before)) (d_names (installed (anchor_name base) g (anchor_bytes a) d))))).
  { rewrite D4, D3, D2, D1, D. reflexivity. }
  rewrite Ed. exact Hfin.
Qed.

(** All that was durable is synchronised in the active file. *)
Lemma durable_active d i anchor sgs lg :
  log_ok d i anchor sgs lg ->
  durable_physical_sequence (li_recovered i) = start_sequence anchor + blen (states_of (sgs ++ [lg])) ->
  d_synced d !! li_active_file i = Some (last_data anchor sgs lg).
Proof.
  intros Hok Hd. destruct (lo_durable _ _ _ _ _ Hok) as (k & Hk & Hdur & Hs & _).
  rewrite states_of_snoc, length_app, length_fmap in Hd. rewrite take_ge in Hs by lia. done.
Qed.

Lemma wp_checkpoint (w : W) i anchor sgs lg ps :
  log_ok (disk w) i anchor sgs lg -> Forall state_given ps ->
  wp (checkpoint_and_reclaim ps) (w, i)
    (fun out wi => exists a nsgs nlg, log_ok (disk wi.1) wi.2 (Some a) nsgs nlg /\
       states_of (nsgs ++ [nlg]) = ps /\ checkpoint_length (Some a) = length ps /\
       start_sequence (Some a) = start_sequence anchor + blen (states_of (sgs ++ [lg])) /\
       groups_of (states_of (sgs ++ [lg])) ⊆ groups_of ps /\
       (forall k p, ps !! k = Some p ->
          gp_physical_sequence p = start_sequence anchor + blen (states_of (sgs ++ [lg])) + 1 + Z.of_nat k) /\
       kept_members i wi.2 /\ li_failure wi.2 = kOk /\
       durable_physical_sequence (li_recovered wi.2) = start_sequence (Some a) + blen ps /\
       reclaimed_segments out = blen sgs + 1 /\
       reclaimed_records out = blen (states_of (sgs ++ [lg])) /\
       ra_base_segment_number a = last_number anchor sgs + 1) anything.
Proof.
  intros Hok Hall. unfold checkpoint_and_reclaim. apply wp_bind, wp_usable; [|done]. intros _ Hf.
  apply wp_bind, wp_get. cbv zeta. destruct (head ps) as [front|] eqn:Hhead; [|by apply wp_fail].
  destruct (last ps) as [back|] eqn:Hlast; [|by apply wp_fail].
  destruct ((_ <? _) || _); [by apply wp_fail|]. destruct (_ >? _); [by apply wp_fail|].
  rewrite (lo_position _ _ _ _ _ Hok). cbn [rp_physical_sequence rp_segment_number].
  apply wp_bind, wp_pure.
  destruct (validate_checkpoint _ _ _ _) as [[groups sizes]|s] eqn:Hval; cycle 1.
  { split; [|done]. by eapply validate_checkpoint_error. }
  apply validate_checkpoint_inv in Hval as (-> & Hnd & _ & Hseq & Hmax).
  destruct (checkpoint_positions _ _ Hseq) as [Hfr Hbk]. specialize (Hfr _ Hhead). specialize (Hbk _ Hlast).
  assert (Hps : ps <> []) by by destruct ps.
  destruct (bool_decide (li_known_groups i ⊆ _)) eqn:Hsub; cbn [negb]; [|by apply wp_fail].
  apply bool_decide_eq_true in Hsub. rewrite (lo_known _ _ _ _ _ Hok) in Hsub.
  assert (Hkn : groups_of (states_of (sgs ++ [lg])) ⊆ groups_of ps) by set_solver.
  destruct (_ || _) eqn:G; [by apply wp_fail|]. rewrite Z.gtb_ltb in G. bool_prop.
  pose proof (left_range _ _ _ _ _ (lo_left _ _ _ _ _ Hok)) as Hr.
  pose proof (segments_needed_ge (rc_target_segment_size (li_config i)) sizes 1 kRaftSegmentHeaderSize) as Hneed.
  destruct (lo_segment_count _ _ _ _ _ Hok) as [Hsc Hscm].
  assert (Hsegs : segment_count (li_recovered i) < rc_maximum_segments (li_config i)).
  { destruct (Z.eq_dec (rc_maximum_segments (li_config i) - segment_count (li_recovered i)) 0) as [E|]; [|lia].
    rewrite E in *. change (u64 0) with 0 in *. lia. }
  assert (Hfw : in_width 64 (gp_physical_sequence front)).
  { rewrite Forall_forall in Hall. apply (Hall front). destruct ps; [done|]. injection Hhead as ->. by left. }
  apply wp_bind. rewrite <- (with_groups_same i) at 1.
  eapply wp_mono; [apply (wp_next_segment w i anchor sgs lg (gp_physical_sequence front) (li_known_groups i) Hok Hfr)| |done];
    [unfold in_width in Hfw; lia|unfold last_number in *; lia|exact Hsegs|].
  intros _ [w1 i1] (f & E1 & Hok1). cbn [fst snd] in E1, Hok1. subst i1.
  set (i1 := with_new_segment (mark_durable i) f (last_number anchor sgs + 1)) in *.
  change (with_groups i1 (li_known_groups i)) with (with_groups i1 (li_known_groups i1)). rewrite with_groups_same.
  assert (Hf1 : li_failure i1 = kOk) by exact Hf.
  assert (Hk1 : kept_members i i1).
  { split; [done|]. cbn. rewrite (lo_position _ _ _ _ _ Hok). by eapply log_durable_le_written. }
  clearbody i1. apply wp_bind.
  eapply wp_mono; [apply (wp_append_all ps w1 i1 anchor (sgs ++ [lg]) [] []); [by rewrite app_nil_r|done|done]| |done].
  intros _ [w2 i2] (nsgs & nlg & Hok2 & Econ & Hk2 & Hf2). cbn [fst snd app concat] in *.
  assert (Eps : states_of (nsgs ++ [nlg]) = ps).
  { unfold states_of. rewrite Econ. rewrite <- list_fmap_compose. apply list_fmap_id. }
  apply wp_bind, wp_or_fail. eapply wp_mono; [apply (wp_synchronize w2 i2 _ _ _ Hok2)| |done].
  intros _ [w3 i3] (Hok3 & Hk3 & _ & Hf3 & Hd3). cbn [fst snd] in *.
  apply wp_bind, wp_or_fail, wp_on_files.
  match goal with |- wp (install_recovery_anchor _ ?x) _ _ _ => set (a := x) end.
  assert (Hst : blen (states_of (sgs ++ [lg])) = blen (concat (sgs ++ [lg]))) by apply states_of_length.
  assert (Hlen : 0 < blen ps) by (destruct ps; [done|cbn; lia]).
  assert (Ha : anchor_ok a).
  { unfold anchor_ok, a. cbn [ra_base_segment_number ra_checkpoint_first_sequence ra_checkpoint_last_sequence
      ra_checkpoint_group_count]. split; [split; unfold last_number in *; [width_lia|lia]|].
    assert (in_width 64 (gp_physical_sequence back)).
    { rewrite Forall_forall in Hall. apply (Hall back). by apply last_Some_elem_of. }
    pose proof (start_nonneg _ _ _ (lo_acceptable _ _ _ _ _ Hok)). unfold in_width in *. lia. }
  eapply wp_mono; [apply (wp_install_anchor (li_config i) a w3 Ha)| |done].
  intros _ w4 (g & Hfree & Hfresh & D4).
  change (let* i := get_log in _) with (reclaim_from (last_number anchor sgs + 1) front back).
  assert (Eb : last_number anchor sgs + 1 = base_of anchor + blen (sgs ++ [lg]))
    by (unfold last_number; rewrite length_app; cbn; lia).
  cbn [a ra_base_segment_number] in Hfree, D4. rewrite Eb in Hfree, D4 |- *.
  eapply wp_mono; [apply (wp_reclaim_from w4 (disk w3) i3 anchor (sgs ++ [lg]) nsgs nlg a g front back Hok3)| |done].
  { by destruct sgs. }
  { exact Ha. }
  { exact Hfresh. }
  { exact Eb. }
  { cbn [a ra_checkpoint_first_sequence]. exact Hfr. }
  { cbn [a ra_checkpoint_group_count]. by rewrite Eps. }
  { exact Hfree. }
  { exact D4. }
  { by rewrite Eps. }
  { by rewrite Eps. }
  { exact Hd3. }
  { by apply durable_active. }
  intros out [w5 i5] (Hok5 & [Hc5 Hd5] & Hf5 & _ & Hs5 & Hr5). cbn [fst snd] in *.
  exists a, nsgs, nlg. destruct Hk1 as [Hc1 Hdu1], Hk2 as [Hc2 Hdu2], Hk3 as [Hc3 Hdu3].
  split; [exact Hok5|]. split; [exact Eps|]. split; [cbn; by rewrite Nat2Z.id|].
  assert (Ess : start_sequence (Some a) = start_sequence anchor + blen (states_of (sgs ++ [lg])))
    by (cbn [start_sequence a ra_checkpoint_first_sequence]; lia).
  split; [exact Ess|]. split; [exact Hkn|]. split; [exact Hseq|].
  split; [split; [congruence|lia]|]. split; [congruence|]. split; [|split].
  - pose proof (log_durable_le_written _ _ _ _ _ Hok5) as Hle. rewrite Eps in Hle.
    rewrite Hd3 in Hd5. rewrite <- app_assoc, states_of_app, Eps, length_app in Hd5. lia.
  - rewrite Hs5, length_app. cbn. lia.
  - split; [by rewrite Hr5|done].
Qed.
End operation.
