(* ===== verification/RaftLogLives.v ===== *)
(** Every life of a persistent Raft log: it is created, appended to, synchronised,
    checkpointed and reclaimed, crashes and is opened again, any number of times; and
    what a failing call leaves behind. *)
From stdpp Require Import sorting.
From S2P Require Import Prelude Bytes Crc32c Reading RaftTypes RaftMembership RaftLogCodec RaftLogRecord.
From S2P Require Import OrderedMap PosixIo DiskFacts WalPaths RaftLogFiles RaftLogFileFacts RaftPersistentLog.
From S2P Require Import RaftLogHistory RaftLogSegments RaftLogDirectory RaftLogOpen RaftLogLive.
From S2P Require Import RaftLogCheckpoint.
#[local] Open Scope Z_scope.
#[local] Opaque segment_header_bytes record_bytes anchor_bytes.

(** * Lives of a log *)

(** The calls a client makes on a log, and the states they write. *)
Inductive LogCall :=
| CallAppend (persistent : GroupPersistentState)
| CallSynchronize
| CallCheckpoint (checkpoint : list GroupPersistentState).
Definition call_records (c : LogCall) : list GroupPersistentState :=
  match c with CallAppend p => [p] | CallSynchronize => [] | CallCheckpoint ps => ps end.

(** The calls that make everything written durable. *)
Definition forces (c : LogCall) : bool := match c with CallAppend _ => false | _ => true end.

Definition run_call {W} `{PosixIo W} (c : LogCall) : IO (W * LogImpl) unit :=
  match c with
  | CallAppend p => do* append p; io_ret tt
  | CallSynchronize => do* synchronize; io_ret tt
  | CallCheckpoint ps => do* checkpoint_and_reclaim ps; io_ret tt
  end.

Section lives.
Context {W : Type} {HIO : PosixIo W} {HL : PosixLaws W}.
Context (config : RaftPersistentLogConfig).

(** [lived w i H]: the log [i] in the world [w] came about by creating a log and
    then calls that returned, crashes and reopenings; [H] are the states written
    to it and not lost, in order. *)
Inductive lived : W -> LogImpl -> list GroupPersistentState -> Prop :=
| lived_created w0 w i :
    disk_ok (disk w0) -> create_new_with config w0 = (Ok i, w) -> lived w i []
| lived_called w i H c w' i' :
    lived w i H -> Forall state_given (call_records c) -> run_call c (w, i) = (Ok tt, (w', i')) ->
    lived w' i' (H ++ call_records c)
| lived_reopened w i H w1 w2 i2 :
    lived w i H -> crash (disk w) (disk w1) -> reliable w1 ->
    open_existing_with config true w1 = (Ok i2, w2) ->
    lived w2 i2 (take (Z.to_nat (rp_physical_sequence (rr_written_position (li_recovered i2)))) H).

(** The retained states and the reclaimed ones [old] before them: a checkpoint
    covers the groups of all reclaimed states. *)
Definition covers (old : list GroupPersistentState) (anchor : option RecoveryAnchor)
    (ps : list GroupPersistentState) : Prop :=
  blen old = start_sequence anchor /\ groups_of old ⊆ groups_of (take (checkpoint_length anchor) ps).

(** The states were given the positions 1, 2, and so on. *)
Definition positioned (H : list GroupPersistentState) : Prop :=
  forall k p, H !! k = Some p -> gp_physical_sequence p = 1 + Z.of_nat k.

Definition life_ok (w : W) (i : LogImpl) (H : list GroupPersistentState) (anchor : option RecoveryAnchor)
    (sgs : list (list LogRecord)) (lg : list LogRecord) (old : list GroupPersistentState) : Prop :=
  log_ok (disk w) i anchor sgs lg /\ H = old ++ states_of (sgs ++ [lg]) /\
  covers old anchor (states_of (sgs ++ [lg])) /\ positioned H /\ li_config i = config /\ li_failure i = kOk.

Lemma groups_of_take n ps : groups_of (take n ps) ⊆ groups_of ps.
Proof. rewrite <- (take_drop n ps) at 2. rewrite groups_of_app. apply union_subseteq_l. Qed.
Lemma covers_app old anchor ps more :
  (checkpoint_length anchor <= length ps)%nat -> covers old anchor ps -> covers old anchor (ps ++ more).
Proof. intros Hc [H1 H2]. split; [done|]. by rewrite take_app_le. Qed.

Lemma positioned_app H more :
  positioned H -> (forall k p, more !! k = Some p -> gp_physical_sequence p = blen H + 1 + Z.of_nat k) ->
  positioned (H ++ more).
Proof.
  intros HH Hm k p. rewrite lookup_app_Some. intros [?|[? E]]; [by apply HH|]. rewrite (Hm _ _ E). lia.
Qed.
Lemma positioned_take n H : positioned H -> positioned (take n H).
Proof. intros HH k p [E _]%lookup_take_Some. by apply HH. Qed.

Lemma life_called w i H anchor sgs lg old c w' i' :
  life_ok w i H anchor sgs lg old -> Forall state_given (call_records c) ->
  run_call c (w, i) = (Ok tt, (w', i')) ->
  exists anchor' sgs' lg' old', life_ok w' i' (H ++ call_records c) anchor' sgs' lg' old' /\
    durable_physical_sequence (li_recovered i) <= durable_physical_sequence (li_recovered i') /\
    (forces c = true -> durable_physical_sequence (li_recovered i') = blen (H ++ call_records c)).
Proof.
  intros (Hok & -> & Hcov & Hpos & Hcfg & Hf) Hgiven Hrun.
  assert (Hlen0 : blen (old ++ states_of (sgs ++ [lg])) = start_sequence anchor + blen (states_of (sgs ++ [lg])))
    by (rewrite length_app; destruct Hcov; lia).
  pose proof (ll_covered _ _ _ _ _ (lo_left _ _ _ _ _ Hok)) as Hcl.
  destruct c as [p| |ps]; cbn [run_call call_records] in *; apply io_bind_Ok in Hrun as (out & [w1 i1] & E & Hret);
    injection Hret as <- <-.
  - apply Forall_cons in Hgiven as [Hgiven _].
    destruct (wp_Ok _ _ _ _ _ _ (wp_append w i _ _ _ p Hok Hgiven) E)
      as (sgs' & lg' & Happ & Hok' & [Hc' Hd'] & Hf' & _ & Hseq). cbn [fst snd] in *.
    exists anchor, sgs', lg', old. split; [|by split]. split; [done|]. rewrite (appended_states _ _ _ _ _ Happ).
    split; [by rewrite app_assoc|]. split; [by apply covers_app|].
    split; [|split; [congruence|done]]. apply positioned_app; [done|].
    intros k q [-> <-]%list_lookup_singleton_Some. rewrite Hlen0. lia.
  - destruct (wp_Ok _ _ _ _ _ _ (wp_synchronize w i _ _ _ Hok) E) as (Hok' & [Hc' Hd'] & _ & Hf' & Hall).
    cbn [fst snd] in *. exists anchor, sgs, lg, old. rewrite app_nil_r. split; [|split; [done|intros _; lia]].
    split; [done|]. split; [done|]. split; [done|]. split; [done|]. split; [congruence|done].
  - destruct (wp_Ok _ _ _ _ _ _ (wp_checkpoint w i _ _ _ ps Hok Hgiven) E)
      as (a & nsgs & nlg & Hok' & Eps & Hlen & Hstart & Hgr & Hseq & [Hc' Hd'] & Hf' & Hall & _). cbn [fst snd] in *.
    exists (Some a), nsgs, nlg, (old ++ states_of (sgs ++ [lg])).
    split; [|split; [done|intros _; rewrite length_app; lia]]. split; [done|].
    rewrite Eps. split; [done|]. split; [split|split; [|split; [congruence|done]]].
    + by rewrite Hstart.
    + rewrite Hlen, firstn_all, groups_of_app. destruct Hcov as [_ Hco].
      apply union_subseteq. split; [|exact Hgr]. etransitivity; [exact Hco|]. etransitivity; [|exact Hgr].
      apply groups_of_take.
    + apply positioned_app; [done|]. intros k q E'. rewrite Hlen0. by apply Hseq.
Qed.

(** A crash and a reopening. *)
Lemma life_restarts w i H anchor sgs lg old w1 :
  life_ok w i H anchor sgs lg old -> crash (disk w) (disk w1) -> reliable w1 ->
  exists i2 w2 j, open_existing_with config true w1 = (Ok i2, w2) /\ (j <= length lg)%nat /\
    life_ok w2 i2 (old ++ states_of (sgs ++ [take j lg])) anchor sgs (take j lg) old /\
    old ++ states_of (sgs ++ [take j lg]) = take (length old + (length (states_of sgs) + j)) H /\
    durable_physical_sequence (li_recovered i) <= blen old + blen (states_of sgs) + Z.of_nat j /\
    latest_group_states (li_recovered i2) = (latest_of (states_of (sgs ++ [take j lg]))).*2 /\
    durable_physical_sequence (li_recovered i2) = blen old + blen (states_of sgs) + Z.of_nat j /\
    reliable w2.
Proof.
  intros (Hok & -> & [Ho Hco] & Hpos & Hcfg & Hf) Hcrash Hr.
  destruct (crash_left _ _ _ _ _ _ Hok Hcrash) as (j & tail & Hj & Hleft & Hdur & Hck).
  pose proof (lo_acceptable _ _ _ _ _ Hok) as Hacc. rewrite Hcfg in Hacc.
  pose proof (lo_config _ _ _ _ _ Hok) as Hval. rewrite Hcfg in Hval.
  destruct (lo_segment_count _ _ _ _ _ Hok) as [_ Hsc]. rewrite Hcfg in Hsc.
  pose proof (states_of_cut sgs lg j Hj) as Hcut.
  destruct (wp_never _ _ _ (wp_open_existing config anchor sgs (take j lg) tail true w1 never Hr Hleft
    ltac:(rewrite Hcut; by apply acceptable_prefix) Hval Hsc ltac:(done)))
    as (i2 & w2 & E & (Hok2 & Hc2 & Hf2 & Hl2 & _ & Hd2) & Hr2).
  assert (Hlen : blen (states_of (sgs ++ [take j lg])) = blen (states_of sgs) + Z.of_nat j)
    by (rewrite states_of_snoc, length_app, length_fmap, length_take; lia).
  assert (Htake : old ++ states_of (sgs ++ [take j lg]) =
    take (length old + (length (states_of sgs) + j)) (old ++ states_of (sgs ++ [lg])))
    by by rewrite take_app_add, Hcut.
  exists i2, w2, j. split; [exact E|]. split; [done|]. split; [|split_and!; try done].
  - split; [done|]. split; [done|]. split; [split; [done|]|split; [|split; [done|done]]].
    + rewrite Hcut, take_take, Nat.min_l by done. done.
    + rewrite Htake. by apply positioned_take.
  - lia.
  - lia.
Qed.

Lemma life_length (w : W) i H anchor sgs lg old :
  life_ok w i H anchor sgs lg old ->
  blen H = start_sequence anchor + blen (states_of (sgs ++ [lg])).
Proof. intros (_ & -> & [Ho _] & _). rewrite length_app. lia. Qed.

Lemma groups_of_elem g ps : g ∈ groups_of ps <-> g ∈ group_of <$> ps.
Proof. unfold groups_of. apply elem_of_list_to_set. Qed.

(** The latest states of a whole history are those of its retained part. *)
Lemma life_latest (w : W) i H anchor sgs lg old p :
  life_ok w i H anchor sgs lg old ->
  latest_in H p <-> latest_in (states_of (sgs ++ [lg])) p.
Proof.
  intros (_ & -> & [_ Hc] & _). apply latest_in_covered. intros g. rewrite <- !groups_of_elem.
  intros Hg. by apply (groups_of_take (checkpoint_length anchor)), Hc.
Qed.

Lemma latest_of_groups ps : group_of <$> (latest_of ps).*2 = (latest_of ps).*1.
Proof.
  rewrite <- list_fmap_compose. apply list_fmap_ext. intros k [g p] Hk%list_elem_of_lookup_2.
  apply latest_of_elem in Hk as [-> _]. done.
Qed.

(** What a crash and a reopening with repair bring back. *)
Lemma life_recovers w i H anchor sgs lg old w1 :
  life_ok w i H anchor sgs lg old -> crash (disk w) (disk w1) -> reliable w1 ->
  exists i2 w2 n, open_existing_with config true w1 = (Ok i2, w2) /\
    durable_physical_sequence (li_recovered i) <= Z.of_nat n <= blen H /\
    rp_physical_sequence (rr_written_position (li_recovered i2)) = Z.of_nat n /\
    durable_physical_sequence (li_recovered i2) = Z.of_nat n /\ reliable w2 /\
    NoDup (group_of <$> latest_group_states (li_recovered i2)) /\
    forall p, p ∈ latest_group_states (li_recovered i2) <-> latest_in (take n H) p.
Proof.
  intros Hlife Hcrash Hr. destruct (life_restarts _ _ _ _ _ _ _ _ Hlife Hcrash Hr)
    as (i2 & w2 & j & E & Hj & Hlife2 & Htake & Hdur & Hlatest & Hdur2 & Hr2).
  pose proof (life_length _ _ _ _ _ _ _ Hlife) as Hlen. pose proof (life_length _ _ _ _ _ _ _ Hlife2) as Hlen2.
  set (n := (length old + (length (states_of sgs) + j))%nat) in *.
  assert (Hn : Z.of_nat n = blen old + blen (states_of sgs) + Z.of_nat j) by lia.
  assert (Hle : Z.of_nat n <= blen H).
  { destruct Hlife as (_ & -> & _). rewrite states_of_snoc, !length_app, length_fmap. lia. }
  rewrite Htake, length_take, Nat.min_l in Hlen2 by lia.
  assert (Hpos : rp_physical_sequence (rr_written_position (li_recovered i2)) = Z.of_nat n).
  { destruct Hlife2 as (Hok2 & _). rewrite (lo_position _ _ _ _ _ Hok2). cbn [rp_physical_sequence]. lia. }
  exists i2, w2, n. split; [exact E|]. split; [lia|]. split; [exact Hpos|].
  split; [lia|]. split; [done|]. rewrite Hlatest. split.
  - rewrite latest_of_groups. apply sorted_keys_NoDup, latest_of_sorted.
  - intros p. rewrite latest_of_values, <- Htake. symmetry. by eapply life_latest.
Qed.

(** The positions of a life. *)
Lemma life_positions w i H anchor sgs lg old :
  life_ok w i H anchor sgs lg old ->
  rp_physical_sequence (rr_written_position (li_recovered i)) = blen H /\
  0 <= durable_physical_sequence (li_recovered i) <= blen H.
Proof.
  intros Hlife. pose proof (life_length _ _ _ _ _ _ _ Hlife) as Hlen.
  destruct Hlife as (Hok & EH & [Ho _] & Hpos & _).
  rewrite (lo_position _ _ _ _ _ Hok). cbn [rp_physical_sequence].
  split; [lia|]. pose proof (log_durable_le_written _ _ _ _ _ Hok).
  destruct (lo_durable _ _ _ _ _ Hok) as (k & _ & Hk & _). lia.
Qed.

(** Several calls in a row. *)
Fixpoint run_calls (cs : list LogCall) : IO (W * LogImpl) unit :=
  match cs with [] => io_ret tt | c :: cs => do* run_call c; run_calls cs end.
Lemma lived_calls cs : forall w i H w' i',
  lived w i H -> Forall state_given (concat (call_records <$> cs)) ->
  run_calls cs (w, i) = (Ok tt, (w', i')) -> lived w' i' (H ++ concat (call_records <$> cs)).
Proof.
  induction cs as [|c cs IH]; intros w i H w' i' Hl Hg; cbn [run_calls fmap list_fmap concat] in *.
  - intros [= <- <-]. by rewrite app_nil_r.
  - apply Forall_app in Hg as [Hg1 Hg2]. intros ([] & [w1 i1] & E1 & E2)%io_bind_Ok. rewrite app_assoc.
    eapply IH; [|done|exact E2]. by eapply lived_called.
Qed.

Lemma lived_ok w i H :
  config_typed config -> lived w i H -> exists anchor sgs lg old, life_ok w i H anchor sgs lg old.
Proof.
  intros Hty. induction 1 as [w0 w i Hd Hc|w i H c w' i' _ IH Hg Hr|w i H w1 w2 i2 _ IH Hcr Hr Ho].
  - destruct (wp_Ok _ _ _ _ _ _ (wp_create config w0 Hty Hd) Hc) as (Hok & Hcfg & Hf).
    exists None, [], [], []. split; [done|]. split; [done|]. split; [split; [done|set_solver]|]. split; [|done]. intros k p E. done.
  - destruct IH as (anchor & sgs & lg & old & IH).
    destruct (life_called _ _ _ _ _ _ _ _ _ _ IH Hg Hr) as (an' & sgs' & lg' & old' & Hok & _). eauto.
  - destruct IH as (anchor & sgs & lg & old & IH).
    destruct (life_restarts _ _ _ _ _ _ _ _ IH Hcr Hr) as (i3 & w3 & j & E & Hj & Hok & Ht & _).
    rewrite Ho in E. injection E as <- <-. exists anchor, sgs, (take j lg), old.
    replace (take _ H) with (old ++ states_of (sgs ++ [take j lg])); [done|]. rewrite Ht. f_equal.
    destruct Hok as (Hok & _ & [Hlo _] & _). rewrite (lo_position _ _ _ _ _ Hok). cbn [rp_physical_sequence].
    rewrite states_of_snoc, length_app, length_fmap, length_take. lia.
Qed.
End lives.

(** * Failures *)

Section failures.
Context {W : Type} {HIO : PosixIo W} {HL : PosixLaws W}.

(** A computation whose failure is recorded in the log. *)
Definition poisons {A} (c : IO (W * LogImpl) A) : Prop :=
  forall wi, wp c wi (fun _ _ => True) (fun s wi' => li_failure wi'.2 = s).
(** A computation that fails with an error. *)
Definition errs {S A} (c : IO S A) : Prop := forall w, wp c w (fun _ _ => True) anything.

Lemma errs_op {A} (c : IO W A) en post fails : implements disk reliable c en post fails -> errs c.
Proof. intros Hi w. by apply (wp_op _ _ _ _ _ _ _ _ _ Hi). Qed.
Lemma errs_bind {S A B} (c : IO S A) (k : A -> IO S B) : errs c -> (forall a, errs (k a)) -> errs (io_bind c k).
Proof. intros Hc Hk w. apply wp_bind. eapply wp_mono; [apply Hc| |done]. intros a w' _. apply Hk. Qed.
Lemma errs_pure {S A} (r : result A) : (forall s, r = Err s -> s <> kOk) -> errs (S := S) (io_pure r).
Proof. intros Hr w. apply wp_pure. destruct r; [done|]. split; [by apply Hr|done]. Qed.
Lemma errs_files {A} (c : IO W A) : errs c -> errs (on_files c).
Proof. intros Hc [w i]. apply wp_on_files. eapply wp_mono; [apply Hc|done|done]. Qed.
Lemma poisons_errs {A} (c : IO (W * LogImpl) A) : poisons c -> errs c.
Proof. intros Hc wi. by eapply wp_mono; [apply Hc| |]. Qed.

Lemma poisons_or_fail {A} (c : IO (W * LogImpl) A) : errs c -> poisons (or_fail c).
Proof. intros Hc wi. apply wp_or_fail. by eapply wp_mono; [apply Hc| |]. Qed.
Lemma poisons_bind {A B} (c : IO (W * LogImpl) A) (k : A -> IO (W * LogImpl) B) :
  poisons c -> (forall a, poisons (k a)) -> poisons (io_bind c k).
Proof. intros Hc Hk wi. apply wp_bind. eapply wp_mono; [apply Hc| |done]. intros a w' _. apply Hk. Qed.
Lemma poisons_get : poisons get_log.
Proof. intros [w i]. by apply wp_get. Qed.
Lemma poisons_put i : poisons (put_log i).
Proof. intros [w i']. by apply wp_put. Qed.
Lemma poisons_ret {A} (a : A) : poisons (io_ret a).
Proof. intros wi. by apply wp_ret. Qed.

Lemma errs_create name permissions : errs (create_exclusive_regular_file name permissions).
Proof. apply (errs_op _ _ _ _ (law_create name permissions)). Qed.
Lemma errs_write f off src : errs (write_all_at f off src).
Proof. apply (errs_op _ _ _ _ (law_write f off src)). Qed.
Lemma errs_sync_all f : errs (sync_all f).
Proof. apply (errs_op _ _ _ _ (law_sync_all f)). Qed.
Lemma errs_sync_data f : errs (sync_data f).
Proof. apply (errs_op _ _ _ _ (law_sync_data f)). Qed.
Lemma errs_rename old new : errs (rename_no_replace old new).
Proof. apply (errs_op _ _ _ _ (law_rename old new)). Qed.
Lemma errs_remove name : errs (remove_file name).
Proof. apply (errs_op _ _ _ _ (law_remove name)). Qed.
Lemma errs_directory_sync : errs directory_sync.
Proof. apply (errs_op _ _ _ _ law_directory_sync). Qed.
Lemma errs_close f : errs (close_file f).
Proof. apply (errs_op _ _ _ _ (law_close_file f)). Qed.

Lemma write_sealed_error size fields off s : write_sealed size fields off = Err s -> s <> kOk.
Proof. unfold write_sealed. apply rbind_not_ok. intros. by eapply write_part_not_ok. Qed.
Lemma errs_install_segment config n seq : errs (install_segment config n seq).
Proof.
  unfold install_segment. apply errs_bind; [|intros header; repeat (apply errs_bind; [|intros ?])].
  - apply errs_pure. intros s. unfold encode_segment_header. destruct (_ || _); [by intros [= <-]|].
    apply write_sealed_error.
  - apply errs_create.
  - apply errs_write.
  - apply errs_sync_all.
  - apply errs_rename.
  - apply errs_directory_sync.
  - intros w. by apply wp_ret.
Qed.
Lemma errs_install_anchor config a : errs (install_recovery_anchor config a).
Proof.
  unfold install_recovery_anchor. apply errs_bind; [|intros encoded; apply errs_bind; [apply errs_create|]].
  - apply errs_pure. intros s. unfold encode_recovery_anchor. destruct (_ || _); [by intros [= <-]|].
    apply write_sealed_error.
  - intros file w. apply wp_then_close.
    assert (Hc : errs (do* write_all_at file 0 encoded; do* sync_all file;
      do* rename_no_replace (recovery_anchor_name (ra_base_segment_number a) kRecoveryAnchorTemporarySuffix)
        (recovery_anchor_name (ra_base_segment_number a) kRecoveryAnchorSuffix); directory_sync)).
    { repeat (apply errs_bind; [|intros _]); [apply errs_write|apply errs_sync_all|apply errs_rename|apply errs_directory_sync]. }
    eapply wp_mono; [apply Hc| |done]. intros _ w1 _. apply errs_close.
Qed.
End failures.

Create HintDb poisons.
#[export] Hint Resolve poisons_get poisons_put poisons_ret errs_write errs_sync_data errs_remove
  errs_directory_sync errs_close errs_install_segment errs_install_anchor errs_files poisons_or_fail : poisons.
Ltac poison := repeat (apply poisons_bind; [solve [eauto with poisons]|intros ?]); eauto with poisons.

Section failing.
Context {W : Type} {HIO : PosixIo W} {HL : PosixLaws W}.

Lemma poisons_next_segment seq : poisons (W := W) (next_segment seq).
Proof. unfold next_segment. poison. Qed.

(** A call that fails changed nothing, or its failure sticks. *)
Definition fails_clean {A} (c : IO (W * LogImpl) A) : Prop :=
  forall wi, wp c wi (fun _ _ => True) (fun s wi' => wi' = wi \/ li_failure wi'.2 = s).

Lemma append_fails_clean p : fails_clean (append p).
Proof.
  intros [w i]. unfold append. apply wp_bind, wp_usable; [|by left]. intros _ _. apply wp_bind, wp_get. cbv zeta.
  destruct (_ || _); [by apply wp_fail; [|left]|]. destruct (_ >=? _); [by apply wp_fail; [|left]|].
  destruct (_ && _); [by apply wp_fail; [|left]|]. apply wp_bind, wp_pure.
  destruct (encode_multiplexed_log_record_v1 p) as [encoded|s] eqn:E;
    [|split; [by eapply encode_record_error|by left]].
  destruct (_ >? _); [by apply wp_fail; [|left]|]. destruct (_ && _); [by apply wp_fail; [|left]|].
  apply wp_bind, wp_put.
  assert (Hp : poisons (W := W) (do* (if rp_end_offset (rr_written_position (li_recovered i)) >?
      rc_target_segment_size (li_config i) - blen encoded then next_segment (gp_physical_sequence p) else io_ret tt);
    let* i := get_log in
    do* or_fail (on_files (write_all_at (li_active_file i)
                (rp_end_offset (rr_written_position (li_recovered i))) encoded));
    let i := with_record i (blen encoded) (gp_physical_sequence p) in
    do* put_log i; io_ret (rr_written_position (li_recovered i)))).
  { apply poisons_bind; [destruct (_ >? _); [apply poisons_next_segment|apply poisons_ret]|]. intros _. poison. }
  eapply wp_mono; [apply Hp|done|]. auto.
Qed.
Lemma synchronize_fails_clean : fails_clean synchronize.
Proof.
  intros [w i]. unfold synchronize. apply wp_bind, wp_usable; [|by left]. intros _ _.
  assert (Hp : poisons (W := W) (let* i := get_log in
    do* or_fail (on_files (sync_data (li_active_file i)));
    do* put_log (mark_durable i); io_ret (rr_written_position (li_recovered i)))) by poison.
  eapply wp_mono; [apply Hp|done|]. auto.
Qed.
Lemma fails_clean_errs {A} (c : IO (W * LogImpl) A) : fails_clean c -> errs c.
Proof. intros Hc wi. by eapply wp_mono; [apply Hc| |]. Qed.

Lemma poisons_append_all ps : poisons (W := W) (append_all ps).
Proof.
  induction ps as [|p ps IH]; cbn [append_all]; [apply poisons_ret|].
  apply poisons_bind; [apply poisons_or_fail, fails_clean_errs, append_fails_clean|done].
Qed.
Lemma poisons_reclaim_counts base counts : forall s r, poisons (W := W) (reclaim_counts base counts s r).
Proof.
  induction counts as [|[n c] counts IH]; intros s r; cbn [reclaim_counts]; [apply poisons_ret|].
  destruct (_ <? _); [|apply poisons_ret]. do 3 (apply poisons_bind; [solve [eauto with poisons]|intros ?]). apply IH.
Qed.
Lemma poisons_reclaim_anchors base anchors : poisons (W := W) (reclaim_anchors base anchors).
Proof.
  induction anchors as [|n anchors IH]; cbn [reclaim_anchors]; [apply poisons_ret|].
  destruct (_ <? _); [|apply poisons_ret]. do 3 (apply poisons_bind; [solve [eauto with poisons]|intros ?]). apply IH.
Qed.

Lemma checkpoint_fails_clean ps : fails_clean (checkpoint_and_reclaim ps).
Proof.
  intros [w i]. unfold checkpoint_and_reclaim. apply wp_bind, wp_usable; [|by left]. intros _ _.
  apply wp_bind, wp_get. cbv zeta. destruct (head ps) as [front|]; [|by apply wp_fail; [|left]].
  destruct (last ps) as [back|]; [|by apply wp_fail; [|left]].
  destruct (_ || _); [by apply wp_fail; [|left]|]. destruct (_ >? _); [by apply wp_fail; [|left]|].
  apply wp_bind, wp_pure. destruct (validate_checkpoint _ _ _ _) as [[groups sizes]|s] eqn:E;
    [|split; [by eapply validate_checkpoint_error|by left]].
  destruct (negb _); [by apply wp_fail; [|left]|]. destruct (_ || _); [by apply wp_fail; [|left]|].
  set (config := li_config i). set (base := rp_segment_number (rr_written_position (li_recovered i)) + 1).
  clearbody config base.
  match goal with |- wp ?c _ _ _ => assert (Hp : poisons (W := W) c) end.
  { apply poisons_bind; [apply poisons_next_segment|intros _].
    apply poisons_bind; [apply poisons_append_all|intros _].
    apply poisons_bind; [apply poisons_or_fail, fails_clean_errs, synchronize_fails_clean|intros _].
    do 3 (apply poisons_bind; [solve [eauto with poisons]|intros ?]).
    apply poisons_bind; [apply poisons_reclaim_counts|intros [segments records]].
    do 2 (apply poisons_bind; [solve [eauto with poisons]|intros ?]).
    apply poisons_bind; [apply poisons_reclaim_anchors|intros _]. poison. }
  eapply wp_mono; [apply Hp|done|]. auto.
Qed.

Lemma run_call_fails_clean (c : LogCall) : fails_clean (run_call c).
Proof.
  destruct c; intros wi; cbn [run_call]; apply wp_bind;
    (eapply wp_mono; [first [apply append_fails_clean|apply synchronize_fails_clean|apply checkpoint_fails_clean]
                     |intros ? ? _; by apply wp_ret|auto]).
Qed.

(** A log with a failure, or one that is closed, refuses every call. *)
Lemma unusable (w : W) i (c : LogCall) :
  li_open i = false \/ li_failure i <> kOk ->
  exists s, run_call c (w, i) = (Err s, (w, i)) /\
    (li_open i = true -> s = li_failure i) /\ (li_open i = false -> s = kInvalidArgument).
Proof.
  intros Hu.
  assert (Hus : exists s, usable (W := W) (w, i) = (Err s, (w, i)) /\ s <> kOk /\
    (li_open i = true -> s = li_failure i) /\ (li_open i = false -> s = kInvalidArgument)).
  { unfold usable. rewrite (io_bind_step get_log _ (w, i) i (w, i)) by done.
    destruct (li_open i) eqn:Ho; cbn [negb].
    - destruct Hu as [|Hf]; [done|]. exists (li_failure i). split; [|done].
      unfold io_check, make_unexpected. assert (E : is_ok (li_failure i) = false) by (by apply bool_decide_eq_false).
      by rewrite E.
    - by exists kInvalidArgument. }
  destruct Hus as (s & E & Hs & H1 & H2). exists s. split; [|done].
  assert (Hm : forall A, @make_unexpected A s = Err s).
  { intros A. unfold make_unexpected. assert (Eo : is_ok s = false) by (by apply bool_decide_eq_false). by rewrite Eo. }
  destruct c; cbn [run_call]; unfold append, synchronize, checkpoint_and_reclaim, io_bind at 1;
    unfold io_bind at 1; rewrite E, !Hm; reflexivity.
Qed.
End failing.
