(* ===== verification/RaftLogGuarantees.v ===== *)
(** What the persistent Raft log promises its clients: recovery after a crash,
    positions, limits, reclamation and failures. *)
From stdpp Require Import sorting.
From S2P Require Import Prelude Bytes Crc32c Reading RaftTypes RaftMembership RaftLogCodec RaftLogRecord.
From S2P Require Import OrderedMap PosixIo DiskFacts WalPaths RaftLogFiles RaftLogFileFacts RaftPersistentLog.
From S2P Require Import RaftLogHistory RaftLogSegments RaftLogDirectory RaftLogOpen RaftLogLive.
From S2P Require Import RaftLogCheckpoint RaftLogLives.
#[local] Open Scope Z_scope.
#[local] Opaque segment_header_bytes record_bytes anchor_bytes.

Section guarantees.
Context {W : Type} {HIO : PosixIo W} {HL : PosixLaws W}.
Context (config : RaftPersistentLogConfig) (Htyped : config_typed config).

(** The size of the last segment. *)
Lemma segments_ok_last lg tail : forall sgs n seq,
  segments_ok n seq (sgs ++ [lg]) tail -> 64 + blen (frames lg) + blen tail <= kMaximumRaftSegmentSize.
Proof.
  induction sgs as [|rs sgs IH]; intros n seq; cbn [app segments_ok].
  - intros (_ & _ & _ & Hs & _). rewrite length_segment_data in Hs. cbn [tail_of] in Hs. lia.
  - intros (_ & _ & _ & _ & Hs). by apply IH in Hs.
Qed.

(** The names in the directory of a live log. *)
Lemma log_names d i anchor sgs lg :
  log_ok d i anchor sgs lg -> forall name, is_Some (d_names d !! name) <->
    kept (base_of anchor) (Z.to_nat (segment_count (li_recovered i))) (is_some anchor) name.
Proof.
  intros Hok name. destruct (lo_segment_count _ _ _ _ _ Hok) as [-> _].
  replace (Z.to_nat (blen sgs + 1)) with (S (length sgs)) by lia.
  split; [by apply (lo_clean _ _ _ _ _ Hok)|].
  destruct (ll_directory _ _ _ _ _ (lo_left _ _ _ _ _ Hok)) as [[f Hf] _ Hp Ha _].
  intros [->|[(j & Hj & ->)|[Hs ->]]]; [rewrite Hf; done|by apply Hp|by apply Ha].
Qed.

(** In a list with one state per group every state is its group's latest. *)
Lemma latest_in_distinct ps p : NoDup (group_of <$> ps) -> latest_in ps p <-> p ∈ ps.
Proof.
  intros Hnd. split.
  - intros (a & b & -> & _). rewrite elem_of_app. right. by left.
  - intros (a & b & ->)%list_elem_of_split. exists a, b. split; [done|].
    rewrite fmap_app, fmap_cons in Hnd. by apply NoDup_app in Hnd as (_ & _ & [Hn _]%NoDup_cons).
Qed.

(** C7. A crash at any point of a life of the log keeps everything up to the durable
    position.  Whatever the crash left of the files, reopening with repair returns a
    log whose history is a prefix of what was written, no shorter than the durable
    position; its written and durable positions are the length of that prefix; and
    its recovered states are, one per group, the latest states of that prefix, also
    when earlier segments were reclaimed by checkpoints. *)
Theorem raft_log_survives_crash (w : W) i H w1 :
  lived config w i H -> crash (disk w) (disk w1) -> reliable w1 ->
  exists i2 w2 n, open_existing_with config true w1 = (Ok i2, w2) /\
    durable_physical_sequence (li_recovered i) <= Z.of_nat n <= blen H /\
    lived config w2 i2 (take n H) /\
    rp_physical_sequence (rr_written_position (li_recovered i2)) = Z.of_nat n /\
    durable_physical_sequence (li_recovered i2) = Z.of_nat n /\
    NoDup (group_of <$> latest_group_states (li_recovered i2)) /\
    forall p, p ∈ latest_group_states (li_recovered i2) <-> latest_in (take n H) p.
Proof.
  intros Hlived Hcrash Hr. destruct (lived_ok _ _ _ _ Htyped Hlived) as (anchor & sgs & lg & old & Hlife).
  destruct (life_recovers _ _ _ _ _ _ _ _ _ Hlife Hcrash Hr)
    as (i2 & w2 & n & E & Hn & Hpos & Hdur & _ & Hnd & Hlatest).
  pose proof (lived_reopened _ _ _ _ _ _ _ Hlived Hcrash Hr E) as Hlived2. rewrite Hpos, Nat2Z.id in Hlived2.
  exists i2, w2, n. by split_and!; try lia.
Qed.

(** Physical positions: over any life of a log the states written and not lost
    carry the sequence numbers 1, 2, 3, ... without a gap or a repetition, the written
    position is the number of the last of them and the durable position never
    exceeds it. *)
Theorem raft_log_positions (w : W) i H :
  lived config w i H ->
  (forall k p, H !! k = Some p -> gp_physical_sequence p = 1 + Z.of_nat k) /\
  rp_physical_sequence (rr_written_position (li_recovered i)) = blen H /\
  0 <= durable_physical_sequence (li_recovered i) <= blen H.
Proof.
  intros (anchor & sgs & lg & old & Hlife)%lived_ok; [|done].
  split; [|by eapply life_positions]. by destruct Hlife as (_ & _ & _ & Hpos & _).
Qed.

(** The limits of the configuration and of the format hold in every reachable
    state: the counts of records, groups and segments stay within the configured
    maxima, the active segment within the maximum segment size, and no position or
    segment number leaves 64 bits. *)
Theorem raft_log_within_limits (w : W) i H :
  lived config w i H ->
  record_count (li_recovered i) <= rc_maximum_records config /\
  Z.of_nat (size (li_known_groups i)) <= rc_maximum_groups config /\
  1 <= segment_count (li_recovered i) <= rc_maximum_segments config /\
  kRaftSegmentHeaderSize <= rp_end_offset (rr_written_position (li_recovered i)) <= kMaximumRaftSegmentSize /\
  rp_physical_sequence (rr_written_position (li_recovered i)) <= max_u64 /\
  1 <= base_segment_number (li_recovered i) <= rp_segment_number (rr_written_position (li_recovered i)) /\
  rp_segment_number (rr_written_position (li_recovered i)) <= max_u64.
Proof.
  intros (anchor & sgs & lg & old & Hlife)%lived_ok; [|done]. destruct Hlife as (Hok & EH & [Ho _] & _ & Hcfg & _).
  pose proof (lo_acceptable _ _ _ _ _ Hok) as Ha. rewrite Hcfg in Ha. destruct Ha as [_ _ Hw Hr Hg _].
  destruct (lo_segment_count _ _ _ _ _ Hok) as [Esc Hsc]. rewrite Hcfg in Hsc.
  pose proof (lo_left _ _ _ _ _ Hok) as Hl. destruct (ldir_range _ _ _ _ (ll_directory _ _ _ _ _ Hl)) as (Hb & Hm & _).
  pose proof (segments_ok_last _ _ _ _ _ (ll_segments _ _ _ _ _ Hl)) as Hsize.
  rewrite (lo_record_count _ _ _ _ _ Hok), (lo_known _ _ _ _ _ Hok), Esc, (lo_position _ _ _ _ _ Hok), (lo_base _ _ _ _ _ Hok).
  cbn [rp_end_offset rp_physical_sequence rp_segment_number]. unfold last_number, kRaftSegmentHeaderSize in *.
  split_and!; lia.
Qed.

(** C19. A checkpoint drops only what it replaces.  When [checkpoint_and_reclaim]
    returns, the given states carry the next positions, name each group once and
    every group of the log, and are durable; every older segment and record is
    reported reclaimed; the directory holds the lock, the new recovery anchor and the
    segments from the new base on and nothing else; and the latest state of every
    group is the one the checkpoint gave. *)
Theorem checkpoint_reclaims_only_covered (w w' : W) i i' H ps out :
  lived config w i H -> Forall state_given ps ->
  checkpoint_and_reclaim ps (w, i) = (Ok out, (w', i')) ->
  let base := rp_segment_number (rr_written_position (li_recovered i)) + 1 in
  groups_of H ⊆ groups_of ps /\ NoDup (group_of <$> ps) /\
  (forall k p, ps !! k = Some p -> gp_physical_sequence p = blen H + 1 + Z.of_nat k) /\
  durable_physical_sequence (li_recovered i') = blen H + blen ps /\
  reclaimed_segments out = segment_count (li_recovered i) /\
  reclaimed_records out = record_count (li_recovered i) /\
  record_count (li_recovered i') = blen ps /\ base_segment_number (li_recovered i') = base /\
  (forall name, is_Some (d_names (disk w') !! name) <->
     kept base (Z.to_nat (segment_count (li_recovered i'))) true name) /\
  (forall p, latest_in (H ++ ps) p <-> p ∈ ps).
Proof.
  intros Hlived Hgiven E base. destruct (lived_ok _ _ _ _ Htyped Hlived) as (anchor & sgs & lg & old & Hlife).
  pose proof (life_length _ _ _ _ _ _ _ _ Hlife) as Hlen. destruct Hlife as (Hok & EH & [Ho Hco] & _).
  destruct (wp_Ok _ _ _ _ _ _ (wp_checkpoint w i _ _ _ ps Hok Hgiven) E)
    as (a & nsgs & nlg & Hok' & Eps & Hcl & Hst & Hgr & Hseq & _ & _ & Hd & Hrs & Hrr & Hbase). cbn [fst snd] in *.
  assert (Hgroups : groups_of H ⊆ groups_of ps).
  { rewrite EH, groups_of_app. apply union_subseteq. split; [|exact Hgr].
    etransitivity; [exact Hco|]. etransitivity; [apply groups_of_take|exact Hgr]. }
  assert (Hnd : NoDup (group_of <$> ps)).
  { pose proof (acc_checkpoint _ _ _ (lo_acceptable _ _ _ _ _ Hok')) as Hnd. by rewrite Eps, Hcl, firstn_all in Hnd. }
  split; [exact Hgroups|]. split; [exact Hnd|]. split; [intros k p Hk; rewrite (Hseq _ _ Hk); lia|].
  split; [lia|]. split; [rewrite Hrs; symmetry; apply (lo_segment_count _ _ _ _ _ Hok)|].
  split; [rewrite Hrr; symmetry; apply (lo_record_count _ _ _ _ _ Hok)|].
  split; [by rewrite (lo_record_count _ _ _ _ _ Hok'), Eps|].
  assert (Eb : ra_base_segment_number a = base)
    by (unfold base; rewrite Hbase, (lo_position _ _ _ _ _ Hok); done).
  split; [rewrite (lo_base _ _ _ _ _ Hok'); exact Eb|]. split.
  - intros name. rewrite (log_names _ _ _ _ _ Hok' name). cbn [is_some base_of]. by rewrite Eb.
  - intros p. rewrite latest_in_covered; [by apply latest_in_distinct|]. intros g. rewrite <- !groups_of_elem. apply Hgroups.
Qed.
End guarantees.

(** A failing call leaves no half-done work in use: it changed neither the log nor
    the files, or its error is recorded in the log.  A log with a recorded error, or
    one that is closed, refuses every later call without touching anything, with that
    error or as invalid. *)
Theorem raft_log_failure_sticks {W : Type} {HIO : PosixIo W} {HL : PosixLaws W} (w w' : W) i i' c s :
  run_call c (w, i) = (Err s, (w', i')) ->
  s <> kOk /\
  ((w' = w /\ i' = i) \/
   li_failure i' = s /\ forall c2, exists s2, run_call c2 (w', i') = (Err s2, (w', i')) /\
     s2 = if li_open i' then s else kInvalidArgument).
Proof.
  intros E.
  pose proof (wp_Err _ _ _ _ _ _ (run_call_fails_clean c (w, i)) E) as Hclean. cbn [snd] in Hclean.
  destruct Hclean as [Hs [[= -> ->]|Hf]]; (split; [exact Hs|]); [by left|right].
  split; [exact Hf|]. intros c2. destruct (unusable w' i' c2) as (s2 & E2 & H1 & H2); [right; congruence|].
  exists s2. split; [exact E2|]. destruct (li_open i'); [by rewrite H1|by rewrite H2].
Qed.

(** C31. The record codec.  For a state within the widths of its C++ types, the encoder
    returns bytes exactly when the state is valid, and then the canonical record of
    format 1.1; the decoder accepts a byte string exactly when it is the canonical
    record, in format 1.1 or 1.0, of the state it returns.  So decoding what was
    encoded gives the state back. *)
Theorem log_record_codec p :
  length (gp_group_id p) = 16%nat -> in_width 64 (gp_physical_sequence p) -> state_typed (gp_state p) ->
  (forall bytes, encode_multiplexed_log_record_v1 p = Ok bytes <-> record_ok 1 p /\ bytes = record_bytes 1 p) /\
  (forall bytes d, decode_multiplexed_log_record_v1 bytes = Ok d <->
     exists minor, record_ok minor (decoded_persistent d) /\
       bytes = record_bytes minor (decoded_persistent d) /\ decoded_encoded_size d = blen bytes) /\
  (forall bytes, encode_multiplexed_log_record_v1 p = Ok bytes ->
     decode_multiplexed_log_record_v1 bytes = Ok {| decoded_persistent := p; decoded_encoded_size := blen bytes |}).
Proof.
  intros Hg Hs Ht. split_and!.
  - intros bytes. split; [by apply encode_record_inv|]. intros [Hok ->]. by apply encode_record_exact.
  - intros bytes [q size]. split; [apply decode_log_record_sound|]. cbn. intros (minor & Hok & -> & ->).
    by apply decode_log_record_complete.
  - intros bytes [Hok ->]%encode_record_inv; [|done..]. by apply decode_log_record_complete.
Qed.

(** The files of the log.  Names, segment headers and recovery anchors each have
    one form: the parser of segment names accepts exactly the names the log gives its
    segments, the decoders of segment headers and of recovery anchors accept exactly
    the bytes the encoders return, for the expected segment number. *)
Theorem log_file_formats n bs :
  header_number_ok n ->
  (forall name, parse_segment_name name = Ok n <-> name = segment_name n kSegmentSuffix) /\
  (forall first, decode_segment_header bs n = Ok {| rs_number := n; rs_first_sequence := first |} <->
     header_number_ok first /\ encode_segment_header n first = Ok bs) /\
  (forall a, decode_recovery_anchor bs n = Ok a <->
     ra_base_segment_number a = n /\ anchor_ok a /\ encode_recovery_anchor a = Ok bs).
Proof.
  intros Hn. split_and!.
  - intros name. split; [intros H; by apply parse_log_segment_sound in H as [_ ->]|].
    intros ->. apply parse_log_segment. destruct Hn as [Hw H0]. unfold segment_number_ok. width_lia.
  - intros first. split.
    + intros H. apply decode_log_header_sound in H as (_ & Hf & ->). cbn [rs_first_sequence] in *.
      split; [done|]. apply encode_segment_header_exact; [apply Hn|apply Hf].
    + intros [Hf E]. rewrite encode_segment_header_exact in E by (apply Hn || apply Hf). injection E as <-.
      by apply decode_log_header_complete.
  - intros a. split.
    + intros H. apply decode_anchor_sound in H as (E & Ha & ->). specialize (Ha (proj2 Hn)).
      split; [done|]. split; [done|]. by apply encode_anchor_exact.
    + intros (<- & Ha & E). rewrite encode_anchor_exact in E by done. injection E as <-. by apply decode_anchor_complete.
Qed.

(** * A log in memory *)

Definition sample_log_config : RaftPersistentLogConfig :=
  {| rc_directory_path := chars "raft"; rc_file_permissions := 384; rc_target_segment_size := 512;
     rc_maximum_segments := 16; rc_maximum_records := 16; rc_maximum_groups := 16 |}.
(** A state of group [g] at a position. *)
Definition sample_record (g : byte) (sequence : Z) : GroupPersistentState :=
  {| gp_group_id := replicate 16 g; gp_physical_sequence := sequence;
     gp_state := {| current_term := sequence; voted_for := Some 1; log := []; commit_index := 0;
       applied_index := 0; snapshot := {| last_included_index := 0; last_included_term := 0;
         manifest_generation := 0; part_set_checksum := replicate 32 x00; configuration_index := 0;
         snapshot_voters := [] |} |} |}.
(** Two records fit a segment: the third append starts another. *)
Definition sample_calls : list LogCall :=
  [CallAppend (sample_record x01 1); CallAppend (sample_record x02 2); CallSynchronize;
   CallAppend (sample_record x01 3)].
Definition sample_states : list GroupPersistentState := concat (call_records <$> sample_calls).
Definition sample_log : option (Memory * LogImpl) :=
  match create_new_with sample_log_config (on_memory empty_disk) with
  | (Ok i, w) =>
      match run_calls sample_calls (w, i) with (Ok _, wi) => Some wi | (Err _, _) => None end
  | (Err _, _) => None
  end.

Lemma sample_log_typed : config_typed sample_log_config.
Proof. unfold config_typed, in_width. cbn. lia. Qed.
Lemma sample_given g n : 0 <= n < 2 ^ 32 -> state_given (sample_record g n).
Proof.
  intros Hn. unfold state_given, state_typed, snapshot_typed, in_width. cbn. split_and!; try (done || lia); constructor.
Qed.
Ltac sample_states_tac :=
  repeat (apply Forall_cons; split; [apply sample_given; lia|]); apply Forall_nil; exact I.
Lemma sample_states_given : Forall state_given sample_states.
Proof. unfold sample_states. cbn [sample_calls fmap list_fmap call_records concat app]. sample_states_tac. Qed.

Lemma sample_log_lived (check : Memory -> LogImpl -> bool) :
  match sample_log with Some (w, i) => check w i | None => false end = true ->
  exists (w : Memory) i, lived sample_log_config w i sample_states /\ check w i = true.
Proof.
  unfold sample_log. destruct (create_new_with _ _) as [[i0|] w0] eqn:Hc; [|discriminate].
  destruct (run_calls _ _) as [[[]|] [w i]] eqn:Hr; [|discriminate]. intros H. exists w, i. split; [|exact H].
  apply (lived_calls _ _ _ _ [] _ _ (lived_created sample_log_config _ _ _ empty_disk_ok Hc) sample_states_given Hr).
Qed.

Lemma raft_log_survives_crash_witness :
  exists (w1 w2 : Memory) i2 n, open_existing_with sample_log_config true w1 = (Ok i2, w2) /\
    2 <= Z.of_nat n <= 3 /\ lived sample_log_config w2 i2 (take n sample_states).
Proof.
  destruct (sample_log_lived (fun w i =>
    (durable_physical_sequence (li_recovered i) =? 2) &&
    match d_synced (mem_disk w) !! li_active_file i with Some bs => blen bs <=? 100 | None => false end))
    as (w & i & Hl & H); [vm_compute; reflexivity|]. apply andb_true_iff in H as [Hd H].
  set (w1 := on_memory (truncate_disk (li_active_file i) 100 (mem_disk w))).
  destruct (@raft_log_survives_crash Memory Memory_PosixIo Memory_laws sample_log_config sample_log_typed w i _ w1 Hl)
    as (i2 & w2 & n & E & Hn & Hl2 & _).
  - apply crash_cut; [lia|]. intros synced Es. change (disk w) with (mem_disk w) in Es. rewrite Es in H.
    by apply Z.leb_le.
  - reflexivity.
  - exists w1, w2, i2, n. split; [exact E|]. apply Z.eqb_eq in Hd. rewrite Hd in Hn. split; [exact Hn|exact Hl2].
Defined.

Lemma raft_log_positions_witness :
  exists (w : Memory) i, lived sample_log_config w i sample_states /\
    rp_physical_sequence (rr_written_position (li_recovered i)) = 3.
Proof.
  destruct (sample_log_lived (fun _ _ => true)) as (w & i & Hl & _); [vm_compute; reflexivity|].
  exists w, i. split; [exact Hl|].
  destruct (raft_log_positions sample_log_config sample_log_typed w i _ Hl) as (_ & -> & _). reflexivity.
Defined.

Lemma raft_log_within_limits_witness :
  exists (w : Memory) i, lived sample_log_config w i sample_states /\
    1 <= segment_count (li_recovered i) <= 16.
Proof.
  destruct (sample_log_lived (fun _ _ => true)) as (w & i & Hl & _); [vm_compute; reflexivity|].
  exists w, i. split; [exact Hl|].
  destruct (raft_log_within_limits sample_log_config sample_log_typed w i _ Hl) as (_ & _ & Hs & _). exact Hs.
Defined.

Definition sample_checkpoint : list GroupPersistentState :=
  [sample_record x02 4; sample_record x01 5].
Lemma checkpoint_reclaims_only_covered_witness :
  exists (w w' : Memory) i i' out, checkpoint_and_reclaim sample_checkpoint (w, i) = (Ok out, (w', i')) /\
    reclaimed_segments out = 2 /\ durable_physical_sequence (li_recovered i') = 5.
Proof.
  destruct (sample_log_lived (fun w i =>
    match checkpoint_and_reclaim sample_checkpoint (w, i) with
    | (Ok _, _) => segment_count (li_recovered i) =? 2 | (Err _, _) => false end))
    as (w & i & Hl & H); [vm_compute; reflexivity|].
  destruct (checkpoint_and_reclaim _ _) as [[out|] [w' i']] eqn:E; [|discriminate].
  destruct (@checkpoint_reclaims_only_covered Memory Memory_PosixIo Memory_laws sample_log_config sample_log_typed
    w w' i i' _ sample_checkpoint out Hl) as (_ & _ & _ & Hd & Hs & _).
  - sample_states_tac.
  - exact E.
  - exists w, w', i, i', out. split; [exact E|]. split; [rewrite Hs; by apply Z.eqb_eq|exact Hd].
Defined.

Lemma raft_log_failure_sticks_witness :
  exists (w : Memory) i s, s <> kOk /\ li_failure i = s /\
    run_call CallSynchronize (w, i) = (Err s, (w, i)).
Proof.
  destruct (sample_log_lived (fun w i =>
    match run_call (CallAppend (sample_record x02 4))
            ({| mem_disk := mem_disk w; mem_faults := [Some (kIoError, 10%nat)] |}, i) with
    | (Err s, (_, i')) => negb (is_ok (li_failure i')) && is_ok (li_failure i) && li_open i'
    | (Ok _, _) => false end)) as (w & i & Hl & H); [vm_compute; reflexivity|].
  destruct (run_call _ _) as [[|s] [w' i']] eqn:E; [discriminate|].
  destruct (@raft_log_failure_sticks Memory Memory_PosixIo Memory_laws _ w' i i' _ s E) as [Hs [[_ ->]|[Hf Hall]]].
  - exfalso. destruct (is_ok (li_failure i)); discriminate.
  - exists w', i', s. split; [exact Hs|]. split; [exact Hf|].
    destruct (Hall CallSynchronize) as (s2 & E2 & Es2). destruct (li_open i'); [by rewrite <- Es2|].
    rewrite andb_false_r in H. discriminate.
Defined.

Lemma log_record_codec_witness :
  exists bytes, decode_multiplexed_log_record_v1 bytes =
    Ok {| decoded_persistent := sample_record x01 1; decoded_encoded_size := blen bytes |}.
Proof.
  destruct (sample_given x01 1) as (Hg & Hs & Ht); [lia|].
  destruct (log_record_codec (sample_record x01 1) Hg Hs Ht) as (_ & _ & Hr).
  destruct (encode_multiplexed_log_record_v1 (sample_record x01 1)) as [bytes|] eqn:E.
  - exists bytes. by apply Hr.
  - exfalso. vm_compute in E. discriminate E.
Defined.

Lemma log_file_formats_witness :
  parse_segment_name (segment_name 7 kSegmentSuffix) = Ok 7 /\
  exists bs, decode_segment_header bs 7 = Ok {| rs_number := 7; rs_first_sequence := 9 |}.
Proof.
  assert (H7 : header_number_ok 7) by (split; [unfold in_width; lia|lia]).
  split; [by apply (log_file_formats 7 [] H7)|].
  destruct (encode_segment_header 7 9) as [bs|] eqn:E; [|exfalso; vm_compute in E; discriminate E].
  exists bs. apply (log_file_formats 7 bs H7). split; [split; [unfold in_width; lia|lia]|exact E].
Defined.
