(* ===== verification/MultiRaft.v ===== *)
(** The node-local owner of many Raft groups: include/chronos/raft/multi_raft.hpp and
    src/raft/multi_raft.cpp.  It numbers the persistent states its groups return with
    one physical sequence, addresses their messages and takes full checkpoints.
    Failing allocations are not modelled. *)
From S2P Require Import Prelude Bytes RaftTypes RaftMembership RaftNode OrderedMap RaftLogCodec.
#[local] Open Scope Z_scope.

(** * multi_raft.hpp *)

Record GroupOutboundMessage := {
  go_group_id : GroupId; go_source : NodeId; go_outbound : OutboundMessage }.
Record GroupSnapshotInstall := { gs_group_id : GroupId; gs_install : PendingSnapshotInstall }.
Record GroupReadBarrier := { gb_group_id : GroupId; gb_barrier : ReadBarrier }.
Record MultiRaftTransition := {
  mt_persistence : option GroupPersistentState; mt_outbound : list GroupOutboundMessage;
  mt_advanced_commit_index : option LogIndex; mt_snapshot_install : option GroupSnapshotInstall;
  mt_read_barrier_ready : option GroupReadBarrier }.
Record MultiRaftLimits := {
  maximum_groups : Z; maximum_queued_outbound : Z; limits_raft : RaftLimits }.

(** * multi_raft.cpp *)

(** [MultiRaftRuntime::Impl]; the groups are a [std::map] from their identities. *)
Record MultiRaft := {
  local_node_id : NodeId; mr_limits : MultiRaftLimits; groups : list (GroupId * Impl);
  mr_physical_sequence : Z; failed_state : bool }.

Definition set_groups (m : MultiRaft) (gs : list (GroupId * Impl)) : MultiRaft :=
  {| local_node_id := local_node_id m; mr_limits := mr_limits m; groups := gs;
     mr_physical_sequence := mr_physical_sequence m; failed_state := failed_state m |}.
Definition set_physical_sequence (m : MultiRaft) (sequence : Z) : MultiRaft :=
  {| local_node_id := local_node_id m; mr_limits := mr_limits m; groups := groups m;
     mr_physical_sequence := sequence; failed_state := failed_state m |}.
Definition set_failed_state (m : MultiRaft) : MultiRaft :=
  {| local_node_id := local_node_id m; mr_limits := mr_limits m; groups := groups m;
     mr_physical_sequence := mr_physical_sequence m; failed_state := true |}.

Definition find_group (m : MultiRaft) (group_id : GroupId) : option Impl :=
  om_lookup uuid_compare group_id (groups m).

Definition transition_group (group_id : GroupId) (m : MultiRaft) : result Impl * MultiRaft :=
  if failed_state m then (Err kUnavailable, m)
  else
    match find_group m group_id with
    | None => (Err kNotFound, m)
    | Some node =>
        if mr_physical_sequence m =? max_u64 then (Err kOutOfRange, set_failed_state m)
        else (Ok node, m)
    end.

Definition wrap_outbound (group_id : GroupId) (source : NodeId) (o : list OutboundMessage)
  : list GroupOutboundMessage :=
  (fun message => {| go_group_id := group_id; go_source := source; go_outbound := message |}) <$> o.
(** The output of a transition, with the persistent state already numbered. *)
Definition wrap_output (group_id : GroupId) (source : NodeId) (core : Transition)
    (persistence : option GroupPersistentState) : MultiRaftTransition :=
  {| mt_persistence := persistence;
     mt_outbound := wrap_outbound group_id source (outbound core);
     mt_advanced_commit_index := advanced_commit_index core;
     mt_snapshot_install := (fun i => {| gs_group_id := group_id; gs_install := i |})
       <$> snapshot_install core;
     mt_read_barrier_ready := (fun b => {| gb_group_id := group_id; gb_barrier := b |})
       <$> read_barrier_ready core |}.

Definition wrap_transition (group_id : GroupId) (transition : result Transition) (m : MultiRaft)
  : result MultiRaftTransition * MultiRaft :=
  match transition with
  | Err s => (make_unexpected s, m)
  | Ok core =>
      if blen (outbound core) >? maximum_queued_outbound (mr_limits m)
      then (Err kResourceExhausted, set_failed_state m)
      else
        match find_group m group_id with
        | None => (Err kInternal, set_failed_state m)
        | Some _ =>
            match persistent_state core with
            | None => (Ok (wrap_output group_id (local_node_id m) core None), m)
            | Some s =>
                if mr_physical_sequence m =? max_u64 then (Err kOutOfRange, set_failed_state m)
                else
                  let m := set_physical_sequence m (u64 (mr_physical_sequence m + 1)) in
                  (Ok (wrap_output group_id (local_node_id m) core
                         (Some {| gp_group_id := group_id;
                                  gp_physical_sequence := mr_physical_sequence m;
                                  gp_state := s |})), m)
            end
        end
  end.

Definition create_runtime (node_id : NodeId) (l : MultiRaftLimits) : result MultiRaft :=
  let maximum_core_outbound :=
    if maximum_voters (limits_raft l) >? 1 then u64 (maximum_voters (limits_raft l) - 1) else 1 in
  fail_if (node_id =? 0) || (maximum_groups l =? 0) || (maximum_voters (limits_raft l) =? 0)
          || (maximum_queued_outbound l <? maximum_core_outbound) with kInvalidArgument;
  Ok {| local_node_id := node_id; mr_limits := l; groups := []; mr_physical_sequence := 0;
        failed_state := false |}.

Definition add_group (group_id : GroupId) (vs : list NodeId) (persistent : PersistentState)
    (recovered_physical_sequence : Z) (m : MultiRaft) : StatusCode * MultiRaft :=
  if failed_state m then (kUnavailable, m)
  else if is_nil group_id then (kInvalidArgument, m)
  else if bool_decide (is_Some (find_group m group_id)) then (kAlreadyExists, m)
  else if blen (groups m) >=? maximum_groups (mr_limits m) then (kResourceExhausted, m)
  else
    match create (local_node_id m) vs persistent (limits_raft (mr_limits m)) with
    | Err s => (s, m)
    | Ok node =>
        let m := set_physical_sequence m (Z.max (mr_physical_sequence m) recovered_physical_sequence) in
        (kOk, set_groups m (om_emplace uuid_compare group_id node (groups m)))
    end.

Definition remove_group (group_id : GroupId) (m : MultiRaft) : StatusCode * MultiRaft :=
  if failed_state m then (kUnavailable, m)
  else
    match find_group m group_id with
    | None => (kNotFound, m)
    | Some _ => (kOk, set_groups m (om_erase uuid_compare group_id (groups m)))
    end.

(** The call of a group's node that every transition function makes; the node is
    changed in place. *)
Definition call_group (group_id : GroupId) (call : Impl -> result Transition * Impl) (m : MultiRaft)
  : result MultiRaftTransition * MultiRaft :=
  match transition_group group_id m with
  | (Err s, m) => (make_unexpected s, m)
  | (Ok node, m) =>
      let '(transition, node) := call node in
      wrap_transition group_id transition
        (set_groups m (om_assign uuid_compare group_id node (groups m)))
  end.

Definition group_start_election (g : GroupId) := call_group g start_election.
Definition group_receive (g : GroupId) (source : NodeId) (m : Message) :=
  call_group g (fun n => receive n source m).
Definition group_propose (g : GroupId) (type : Z) (payload : list byte) :=
  call_group g (fun n => propose n type payload).
Definition group_propose_exact_retained (g : GroupId) (type : Z) (payload : list byte) :=
  call_group g (fun n => propose_exact_retained n type payload).
Definition group_commit_current_term (g : GroupId) := call_group g commit_current_term.
Definition group_begin_membership_change (g : GroupId) (new_voters : list NodeId) :=
  call_group g (fun n => begin_membership_change n new_voters).
Definition group_finalize_membership_change (g : GroupId) := call_group g finalize_membership_change.
Definition group_complete_snapshot_install (g : GroupId) (source : NodeId) (s : SnapshotMetadata)
    (installed : bool) := call_group g (fun n => complete_snapshot_install n source s installed).
Definition group_compact_snapshot (g : GroupId) (s : SnapshotMetadata) :=
  call_group g (fun n => compact_snapshot n s).
Definition group_heartbeat (g : GroupId) := call_group g heartbeat.
Definition group_begin_read_barrier (g : GroupId) := call_group g begin_read_barrier.
Definition group_mark_applied (g : GroupId) (index : LogIndex) :=
  call_group g (fun n => mark_applied n index).

(** The loop over the groups, in the order of their identities. *)
Fixpoint checkpoint_states (sequence : Z) (gs : list (GroupId * Impl)) : list GroupPersistentState :=
  match gs with
  | [] => []
  | (group_id, node) :: rest =>
      let sequence := u64 (sequence + 1) in
      {| gp_group_id := group_id; gp_physical_sequence := sequence; gp_state := state node |}
      :: checkpoint_states sequence rest
  end.
Definition create_persistence_checkpoint (m : MultiRaft)
  : result (list GroupPersistentState) * MultiRaft :=
  if failed_state m then (Err kUnavailable, m)
  else if bool_decide (groups m = []) then (Err kInvalidArgument, m)
  else if blen (groups m) >? max_u64 - mr_physical_sequence m
  then (Err kOutOfRange, set_failed_state m)
  else
    (Ok (checkpoint_states (mr_physical_sequence m) (groups m)),
     set_physical_sequence m (u64 (mr_physical_sequence m + blen (groups m)))).
