(* ===== verification/DurableRuntime.v ===== *)
(** The durable owner of a node's Raft groups: include/chronos/raft/durable_runtime.hpp,
    src/raft/durable_runtime.cpp and src/raft/durable_batch_admission.hpp.  It drives
    the groups of MultiRaft, writes the states they return to the persistent log and
    releases their messages only when the log is synchronised.  Failing allocations
    and valueless operations are not modelled. *)
From S2P Require Import Prelude Bytes RaftTypes RaftMembership RaftNode OrderedMap RaftLogCodec.
From S2P Require Import MultiRaft.
From S2P Require Import PosixIo RaftLogFiles RaftPersistentLog.
#[local] Open Scope Z_scope.

(** * durable_runtime.hpp *)

Record RaftGroupConfiguration := { cfg_group_id : GroupId; cfg_voters : list NodeId }.

Inductive DurableRaftOperation :=
| StartElectionOperation
| ReceiveOperation (source : NodeId) (message : Message)
| ProposeOperation (type : Z) (payload : list byte)
| ProposeExactRetainedOperation (type : Z) (payload : list byte)
| CommitCurrentTermOperation
| ObserveGroupOperation
| BeginMembershipChangeOperation (new_voters : list NodeId)
| FinalizeMembershipChangeOperation
| CompleteSnapshotInstallOperation (source : NodeId) (snapshot : SnapshotMetadata) (installed : bool)
| CompactSnapshotOperation (snapshot : SnapshotMetadata)
| HeartbeatOperation
| BeginReadBarrierOperation
| MarkAppliedOperation (index : LogIndex).

Record DurableRaftRequest := {
  dr_group_id : GroupId; dr_operation : DurableRaftOperation;
  dr_required_leader_term : option Term }.

Record RaftGroupObservation := {
  ob_group_id : GroupId; ob_node_id : NodeId; ob_role : Role; ob_current_term : Term;
  ob_leader_id : option NodeId; ob_last_log_index : LogIndex; ob_commit_index : LogIndex;
  ob_applied_index : LogIndex; ob_snapshot_index : LogIndex; ob_voters : list NodeId;
  ob_committed_voters : list NodeId; ob_joint_old_voters : list NodeId;
  ob_joint_new_voters : list NodeId; ob_joint_membership_active : bool;
  ob_joint_membership_can_finalize : bool; ob_final_membership_pending : bool }.

Record DurableRaftResult := {
  dres_status : StatusCode; dres_transition : option MultiRaftTransition;
  dres_observation : option RaftGroupObservation }.

Record DurableMultiRaftLimits := {
  maximum_batch_operations : Z; maximum_batch_outbound : Z; limits_runtime : MultiRaftLimits }.

Record QuorumSyncReceipt := {
  qs_group_id : GroupId; qs_leader_node_id : NodeId; qs_leader_term : Term; qs_log_index : LogIndex;
  qs_entry_term : Term; qs_local_durable_physical_sequence : Z }.

(** * durable_batch_admission.hpp *)

Definition maximum_outbound_for_operation (op : DurableRaftOperation) (voters : Z) : Z :=
  let maximum_core_outbound := if voters >? 1 then u64 (voters - 1) else 1 in
  match op with
  | ObserveGroupOperation | CompactSnapshotOperation _ | MarkAppliedOperation _ => 0
  | CompleteSnapshotInstallOperation _ _ _ => 1
  | _ => maximum_core_outbound
  end.

Fixpoint admit_requests (requests : list DurableRaftRequest) (l : DurableMultiRaftLimits)
    (reserved : Z) : StatusCode :=
  match requests with
  | [] => kOk
  | request :: rest =>
      let operation_bound := maximum_outbound_for_operation (dr_operation request)
        (maximum_voters (limits_raft (limits_runtime l))) in
      if operation_bound >? u64 (maximum_batch_outbound l - reserved) then kResourceExhausted
      else admit_requests rest l (u64 (reserved + operation_bound))
  end.
Definition admit_durable_batch_outbound (requests : list DurableRaftRequest)
    (l : DurableMultiRaftLimits) : StatusCode := admit_requests requests l 0.

(** * durable_runtime.cpp *)

Definition kPhysicalFraming : Z :=
  kRaftSegmentHeaderSize + kMultiplexedLogHeaderSize + kMultiplexedLogTrailerSize.

Definition storage_bounded_limits (log_config : RaftPersistentLogConfig) (l : DurableMultiRaftLimits)
  : result DurableMultiRaftLimits :=
  fail_if (rc_target_segment_size log_config <=? kPhysicalFraming)
          || (rc_target_segment_size log_config >? kMaximumRaftSegmentSize) with kInvalidArgument;
  let storage_payload := u64 (rc_target_segment_size log_config - kPhysicalFraming) in
  let runtime := limits_runtime l in
  let raft := limits_raft runtime in
  Ok {| maximum_batch_operations := maximum_batch_operations l;
        maximum_batch_outbound := maximum_batch_outbound l;
        limits_runtime :=
          {| maximum_groups := maximum_groups runtime;
             maximum_queued_outbound := maximum_queued_outbound runtime;
             limits_raft :=
               {| maximum_voters := maximum_voters raft;
                  maximum_log_entries := maximum_log_entries raft;
                  maximum_entry_bytes := maximum_entry_bytes raft;
                  maximum_append_entries := maximum_append_entries raft;
                  maximum_persistent_state_bytes :=
                    Z.min (maximum_persistent_state_bytes raft) storage_payload |} |} |}.

(** [PersistentState{}], the state a new group starts from. *)
Definition initial_state : PersistentState :=
  {| current_term := 0; voted_for := None; log := []; commit_index := 0; applied_index := 0;
     snapshot := {| last_included_index := 0; last_included_term := 0; manifest_generation := 0;
       part_set_checksum := replicate 32 x00; configuration_index := 0; snapshot_voters := [] |} |}.

(** The recovered states by group. *)
Fixpoint recovered_by_group (recovered : list GroupPersistentState)
    (by_group : list (GroupId * GroupPersistentState))
  : result (list (GroupId * GroupPersistentState)) :=
  match recovered with
  | [] => Ok by_group
  | persistent :: rest =>
      fail_if bool_decide (is_Some (om_lookup uuid_compare (gp_group_id persistent) by_group))
        with kCorruption;
      recovered_by_group rest
        (om_emplace uuid_compare (gp_group_id persistent) persistent by_group)
  end.

(** The loop over the configured groups; what is left of the recovered states is
    returned with the runtime. *)
Fixpoint restore_groups (groups : list RaftGroupConfiguration) (configured : gset (list byte))
    (by_group : list (GroupId * GroupPersistentState)) (m : MultiRaft)
  : result (list (GroupId * GroupPersistentState) * MultiRaft) :=
  match groups with
  | [] => Ok (by_group, m)
  | group :: rest =>
      let group_id := cfg_group_id group in
      fail_if is_nil group_id || bool_decide (group_id ∈ configured) with kInvalidArgument;
      let recovered := om_lookup uuid_compare group_id by_group in
      let '(status, m) :=
        match recovered with
        | None => add_group group_id (cfg_voters group) initial_state 0 m
        | Some persistent => add_group group_id (cfg_voters group) (gp_state persistent)
                               (gp_physical_sequence persistent) m
        end in
      check! status;
      restore_groups rest ({[ group_id ]} ∪ configured) (om_erase uuid_compare group_id by_group) m
  end.

Definition restore_runtime (node_id : NodeId) (l : DurableMultiRaftLimits)
    (groups : list RaftGroupConfiguration) (recovered : list GroupPersistentState)
  : result MultiRaft :=
  fail_if blen groups >? maximum_groups (limits_runtime l) with kInvalidArgument;
  let? by_group := recovered_by_group recovered [] in
  let? m := create_runtime node_id (limits_runtime l) in
  let? (unclaimed, m) := restore_groups groups ∅ by_group m in
  fail_if bool_decide (unclaimed <> []) with kCorruption;
  Ok m.

(** [DurableMultiRaftRuntime::Impl]. *)
Record Durable := {
  d_runtime : MultiRaft; d_log : LogImpl; d_limits : DurableMultiRaftLimits; d_failure : StatusCode }.

Definition set_runtime (d : Durable) (m : MultiRaft) : Durable :=
  {| d_runtime := m; d_log := d_log d; d_limits := d_limits d; d_failure := d_failure d |}.
Definition set_log (d : Durable) (l : LogImpl) : Durable :=
  {| d_runtime := d_runtime d; d_log := l; d_limits := d_limits d; d_failure := d_failure d |}.
Definition set_durable_failure (d : Durable) (s : StatusCode) : Durable :=
  {| d_runtime := d_runtime d; d_log := d_log d; d_limits := d_limits d; d_failure := s |}.
Definition new_durable (m : MultiRaft) (l : LogImpl) (limits : DurableMultiRaftLimits) : Durable :=
  {| d_runtime := m; d_log := l; d_limits := limits; d_failure := kOk |}.

(** [observe_group], without the failure checks. *)
Definition observation_of (group_id : GroupId) (node : Impl) : RaftGroupObservation :=
  {| ob_group_id := group_id; ob_node_id := id node; ob_role := role node;
     ob_current_term := current_term (state node); ob_leader_id := leader_id node;
     ob_last_log_index := last_index node; ob_commit_index := commit_index (state node);
     ob_applied_index := applied_index (state node);
     ob_snapshot_index := last_included_index (snapshot (state node)); ob_voters := voters node;
     ob_committed_voters := committed_voters node;
     ob_joint_old_voters := from_option joint_old_voters [] (joint node);
     ob_joint_new_voters := from_option joint_new_voters [] (joint node);
     ob_joint_membership_active := joint_membership_active node;
     ob_joint_membership_can_finalize := joint_membership_can_finalize node;
     ob_final_membership_pending := final_membership_pending node |}.
Definition observe_group (d : Durable) (group_id : GroupId) : result RaftGroupObservation :=
  check! d_failure d;
  fail_if failed_state (d_runtime d) with kUnavailable;
  match find_group (d_runtime d) group_id with
  | None => Err kNotFound
  | Some node => Ok (observation_of group_id node)
  end.

(** The [std::visit] of a batch. *)
Definition dispatch (group_id : GroupId) (op : DurableRaftOperation) (m : MultiRaft)
  : result MultiRaftTransition * MultiRaft :=
  match op with
  | StartElectionOperation => group_start_election group_id m
  | ReceiveOperation source message => group_receive group_id source message m
  | ProposeOperation type payload => group_propose group_id type payload m
  | ProposeExactRetainedOperation type payload => group_propose_exact_retained group_id type payload m
  | CommitCurrentTermOperation => group_commit_current_term group_id m
  | ObserveGroupOperation => (Err kInvalidArgument, m)
  | BeginMembershipChangeOperation new_voters => group_begin_membership_change group_id new_voters m
  | FinalizeMembershipChangeOperation => group_finalize_membership_change group_id m
  | CompleteSnapshotInstallOperation source s installed =>
      group_complete_snapshot_install group_id source s installed m
  | CompactSnapshotOperation s => group_compact_snapshot group_id s m
  | HeartbeatOperation => group_heartbeat group_id m
  | BeginReadBarrierOperation => group_begin_read_barrier group_id m
  | MarkAppliedOperation index => group_mark_applied group_id index m
  end.

(** The precondition on the leader term, when the request has one. *)
Definition leader_term_refused (m : MultiRaft) (request : DurableRaftRequest) : option StatusCode :=
  match dr_required_leader_term request with
  | None => None
  | Some term =>
      if term =? 0 then Some kInvalidArgument
      else
        match find_group m (dr_group_id request) with
        | None => Some kNotFound
        | Some node =>
            if negb (bool_decide (role node = kLeader)) || negb (current_term (state node) =? term)
            then Some kUnavailable else None
        end
  end.

Definition failed_result (s : StatusCode) : DurableRaftResult :=
  {| dres_status := s; dres_transition := None; dres_observation := None |}.

Section operations.
Context {W : Type} `{PosixIo W}.

Definition get_durable : IO (W * Durable) Durable := fun wd => (Ok wd.2, wd).
Definition put_durable (d : Durable) : IO (W * Durable) unit := fun wd => (Ok tt, (wd.1, d)).
Definition on_log {A} (c : IO (W * LogImpl) A) : IO (W * Durable) A := fun wd =>
  let '(r, (w, l)) := c (wd.1, d_log wd.2) in (r, (w, set_log wd.2 l)).
(** [Impl::fail]: the first failure sticks, and is what the caller reports. *)
Definition durable_fail {A} (status : StatusCode) : IO (W * Durable) A := fun wd =>
  let d := if is_ok (d_failure wd.2) then set_durable_failure wd.2 status else wd.2 in
  (make_unexpected (d_failure d), (wd.1, d)).
Definition or_durable_fail {A} (c : IO (W * Durable) A) : IO (W * Durable) A := fun wd =>
  match c wd with
  | (Ok a, wd) => (Ok a, wd)
  | (Err s, wd) => durable_fail s wd
  end.

Definition create_new_with (node_id : NodeId) (log_config : RaftPersistentLogConfig)
    (groups : list RaftGroupConfiguration) (limits : DurableMultiRaftLimits) : IO W Durable :=
  stop_if (maximum_batch_operations limits =? 0) || (maximum_batch_outbound limits =? 0)
    with kInvalidArgument;
  let* limits := io_pure (storage_bounded_limits log_config limits) in
  let* runtime := io_pure (restore_runtime node_id limits groups []) in
  let* log := RaftPersistentLog.create_new_with log_config in
  io_ret (new_durable runtime log limits).

Definition open_existing_with (node_id : NodeId) (log_config : RaftPersistentLogConfig)
    (repair_incomplete_final_tail : bool) (groups : list RaftGroupConfiguration)
    (limits : DurableMultiRaftLimits) : IO W Durable :=
  stop_if (maximum_batch_operations limits =? 0) || (maximum_batch_outbound limits =? 0)
    with kInvalidArgument;
  let* limits := io_pure (storage_bounded_limits log_config limits) in
  let* log := RaftPersistentLog.open_existing_with log_config repair_incomplete_final_tail in
  let* runtime := io_pure (restore_runtime node_id limits groups
                             (latest_group_states (li_recovered log))) in
  io_ret (new_durable runtime log limits).

(** The transition of a request: its result, the messages so far and whether the log
    was written. *)
Definition execute_transition (d : Durable) (request : DurableRaftRequest) (outbound_count : Z)
    (needs_sync : bool) : IO (W * Durable) (DurableRaftResult * Z * bool) :=
  let '(transition, m) := dispatch (dr_group_id request) (dr_operation request) (d_runtime d) in
  do* put_durable (set_runtime d m);
  match transition with
  | Err s =>
      if failed_state m then durable_fail s
      else io_ret (failed_result s, outbound_count, needs_sync)
  | Ok t =>
      if blen (mt_outbound t) >? u64 (maximum_batch_outbound (d_limits d) - outbound_count)
      then durable_fail kResourceExhausted
      else
        let result := {| dres_status := kOk; dres_transition := Some t; dres_observation := None |} in
        let outbound_count := u64 (outbound_count + blen (mt_outbound t)) in
        match mt_persistence t with
        | None => io_ret (result, outbound_count, needs_sync)
        | Some persistence =>
            do* or_durable_fail (on_log (append persistence));
            io_ret (result, outbound_count, true)
        end
  end.

(** One request of a batch. *)
Definition execute_request (request : DurableRaftRequest) (outbound_count : Z) (needs_sync : bool)
  : IO (W * Durable) (DurableRaftResult * Z * bool) :=
  let* d := get_durable in
  match leader_term_refused (d_runtime d) request with
  | Some s => io_ret (failed_result s, outbound_count, needs_sync)
  | None =>
      match dr_operation request with
      | ObserveGroupOperation =>
          io_ret (match observe_group d (dr_group_id request) with
                  | Err s => failed_result s
                  | Ok observation => {| dres_status := kOk; dres_transition := None;
                                         dres_observation := Some observation |}
                  end, outbound_count, needs_sync)
      | _ => execute_transition d request outbound_count needs_sync
      end
  end.

Fixpoint execute_requests (requests : list DurableRaftRequest) (outbound_count : Z) (needs_sync : bool)
  : IO (W * Durable) (list DurableRaftResult * bool) :=
  match requests with
  | [] => io_ret ([], needs_sync)
  | request :: rest =>
      let* (result, outbound_count, needs_sync) :=
        execute_request request outbound_count needs_sync in
      let* (results, needs_sync) := execute_requests rest outbound_count needs_sync in
      io_ret (result :: results, needs_sync)
  end.

Definition execute_batch (requests : list DurableRaftRequest)
  : IO (W * Durable) (list DurableRaftResult) :=
  let* d := get_durable in
  do* io_check (d_failure d);
  if failed_state (d_runtime d) then durable_fail kUnavailable
  else
    stop_if bool_decide (requests = [])
            || (blen requests >? maximum_batch_operations (d_limits d)) with kInvalidArgument;
    do* io_check (admit_durable_batch_outbound requests (d_limits d));
    let* (results, needs_sync) := execute_requests requests 0 false in
    do* (if needs_sync then do* or_durable_fail (on_log synchronize); io_ret tt else io_ret tt);
    io_ret results.

Definition durable_failed (d : Durable) : bool :=
  negb (is_ok (d_failure d)) || failed_state (d_runtime d) || negb (is_ok (li_failure (d_log d))).
Definition failure_status (d : Durable) : StatusCode :=
  if negb (is_ok (d_failure d)) then d_failure d
  else if negb (is_ok (li_failure (d_log d))) then li_failure (d_log d)
  else if failed_state (d_runtime d) then kUnavailable else kOk.

(** The term of a committed entry: of the snapshot, or of the retained log. *)
Definition committed_entry_term (s : PersistentState) (index : LogIndex) : result Term :=
  if index =? last_included_index (snapshot s) then Ok (last_included_term (snapshot s))
  else if index >? last_included_index (snapshot s) then
    let relative := u64 (index - last_included_index (snapshot s) - 1) in
    match log s !! Z.to_nat relative with
    | Some entry => fail_if negb (entry_index entry =? index) with kCorruption; Ok (entry_term entry)
    | None => Err kCorruption
    end
  else Ok 0.
Definition prove_quorum_sync (d : Durable) (group_id : GroupId) (index : LogIndex)
  : result QuorumSyncReceipt :=
  if durable_failed d then make_unexpected (failure_status d)
  else
    match find_group (d_runtime d) group_id with
    | None => Err kNotFound
    | Some node =>
        fail_if negb (bool_decide (role node = kLeader)) with kUnavailable;
        fail_if (index =? 0) || (index >? commit_index (state node)) with kUnavailable;
        let? entry_term := committed_entry_term (state node) index in
        let durable := durable_physical_sequence (li_recovered (d_log d)) in
        fail_if (entry_term =? 0) || (durable =? 0) with kCorruption;
        Ok {| qs_group_id := group_id; qs_leader_node_id := id node;
              qs_leader_term := current_term (state node); qs_log_index := index;
              qs_entry_term := entry_term; qs_local_durable_physical_sequence := durable |}
    end.

Definition checkpoint_groups : IO (W * Durable) RaftPersistentLogReclamation :=
  let* d := get_durable in
  if durable_failed d then io_pure (make_unexpected (failure_status d))
  else
    let '(checkpoint, m) := create_persistence_checkpoint (d_runtime d) in
    do* put_durable (set_runtime d m);
    let* checkpoint := io_pure checkpoint in
    or_durable_fail (on_log (checkpoint_and_reclaim checkpoint)).

Definition close_durable : W * Durable -> StatusCode * (W * Durable) := fun wd =>
  let '(s, (w, l)) := close_log (wd.1, d_log wd.2) in (s, (w, set_log wd.2 l)).
End operations.
