(* ===== verification/RaftRestart.v ===== *)
(** Restarting a Raft node: the persistent state of a node that was created with a
    list of voters is always accepted when the node is created again with that list,
    and holds values of the widths of its types.  The durable runtime and its log use
    only these facts and the node invariant. *)
From S2P Require Import Prelude Bytes RaftTypes RaftMembership RaftNode RaftFacts RaftInvariant.
From S2P Require Import RaftLogCodec.
From S2P Require Import RaftLogRecord.
#[local] Open Scope Z_scope.

(** * Values of their types *)

Definition types_typed (l : list LogEntry) : Prop := Forall (fun e => in_width 8 (entry_type e)) l.
Definition vote_typed (s : PersistentState) : Prop := from_option (in_width 64) True (voted_for s).

Definition message_typed (m : Message) : Prop :=
  match m with
  | MAppendEntries a => types_typed (ae_entries a)
  | MInstallSnapshot i => snapshot_typed (is_snapshot i)
  | _ => True
  end.
Definition operation_typed (op : Operation) : Prop :=
  match op with
  | OpReceive source m => in_width 64 source /\ message_typed m
  | OpPropose type _ | OpProposeExactRetained type _ => in_width 8 type
  | OpCompleteSnapshotInstall _ s _ | OpCompactSnapshot s => snapshot_typed s
  | _ => True
  end.

(** The voters a node starts from: those of its snapshot, or the configured ones. *)
Definition starting_voters (vs : list NodeId) (s : SnapshotMetadata) : list NodeId :=
  if last_included_index s =? 0 then sort_voters vs else snapshot_voters s.

(** The checks of [create] on the configured voters. *)
Definition voters_accepted (vs : list NodeId) (l : RaftLimits) : Prop :=
  blen vs <> 0 /\ blen vs <= maximum_voters l /\ front (sort_voters vs) <> 0 /\
  has_adjacent_equal (sort_voters vs) = false.

Record restartable (vs : list NodeId) (n : Impl) : Prop := {
  rt_voters : voters_accepted vs (limits n);
  rt_voters_typed : Forall (in_width 64) vs;
  rt_id : in_width 64 (id n);
  rt_vote : vote_typed (state n);
  rt_types : types_typed (log (state n));
  rt_snapshot : snapshot_typed (snapshot (state n));
  rt_canonical : empty_snapshot_canonical (snapshot (state n)) = true;
  rt_base : base_voters n = starting_voters vs (snapshot (state n)) }.

(** * Calls that keep the snapshot *)

Definition carries_state (s s' : PersistentState) : Prop :=
  snapshot s' = snapshot s /\ (types_typed (log s) -> types_typed (log s')) /\
  (vote_typed s -> vote_typed s').
Definition carries (n n' : Impl) : Prop :=
  base_voters n' = base_voters n /\ carries_state (state n) (state n').

Lemma carries_state_refl s : carries_state s s.
Proof. by split_and!. Qed.
Lemma carries_state_trans a b c : carries_state a b -> carries_state b c -> carries_state a c.
Proof. intros (? & ? & ?) (? & ? & ?). split_and!; [congruence|auto..]. Qed.
Lemma carries_refl n : carries n n.
Proof. by split_and!. Qed.
Lemma carries_trans a b c : carries a b -> carries b c -> carries a c.
Proof. intros [? ?] [? ?]. split; [congruence|by eapply carries_state_trans]. Qed.
Lemma carries_set_state n s : carries_state (state n) s -> carries n (set_state n s).
Proof. by split. Qed.
Lemma carries_term s term v : from_option (in_width 64) True v -> carries_state s (state_term s term v).
Proof. intros Hv. by split_and!. Qed.
Lemma carries_keep_vote s term : carries_state s (state_term s term (voted_for s)).
Proof. by split_and!. Qed.
Lemma carries_commit s c : carries_state s (state_commit s c).
Proof. by split_and!. Qed.
Lemma carries_applied s c : carries_state s (state_applied s c).
Proof. by split_and!. Qed.
Lemma carries_log s l : (types_typed (log s) -> types_typed l) -> carries_state s (state_log s l).
Proof. intros Hl. by split_and!. Qed.
Lemma carries_same n n' : state n' = state n -> base_voters n' = base_voters n -> carries n n'.
Proof. intros E1 E2. split; [done|]. rewrite E1. apply carries_state_refl. Qed.

Lemma carries_become_follower n term leader : carries n (become_follower n term leader).
Proof.
  unfold become_follower. cbv zeta. destruct (_ >? _); [|by apply carries_same].
  split; [done|]. by apply carries_term.
Qed.
Lemma carries_install n d : carries n (install_membership n d).
Proof.
  unfold install_membership. cbv zeta. destruct (bool_decide _); [|by apply carries_same].
  destruct (rebuild_progress _ _ _ _ _). by apply carries_same.
Qed.
Lemma carries_step_down n : carries n (step_down_if_removed n).
Proof. unfold step_down_if_removed. destruct (_ && _); [apply carries_become_follower|apply carries_refl]. Qed.
Lemma carries_observed n term : carries n (observed n term).
Proof. unfold observed. destruct (_ >? _); [apply carries_become_follower|apply carries_refl]. Qed.
Lemma carries_finish_barrier n t : carries n (finish_read_barrier n t).2.
Proof.
  unfold finish_read_barrier. destruct (pending_read_barrier n); [|apply carries_refl].
  destruct (read_barrier_quorum _); [by apply carries_same|apply carries_refl].
Qed.

Create HintDb carries.
#[export] Hint Resolve carries_refl carries_state_refl carries_set_state carries_term carries_keep_vote
  carries_commit carries_applied carries_become_follower carries_install carries_step_down
  carries_observed : carries.

Definition carried (n : Impl) (out : result Transition * Impl) : Prop := carries n out.2.
Lemma carried_pair n r n' : carries n n' -> carried n (r, n').
Proof. done. Qed.
#[export] Hint Resolve carried_pair : carries.

(** Walk through the guards of a call. *)
Ltac carry :=
  repeat (cbv zeta; first
    [ solve [auto with carries]
    | match goal with
      | |- carried _ (if ?b then _ else _) => destruct b
      | |- carried _ (match ?x with _ => _ end) => destruct x
      end ]).

Lemma advance_commit_carries n t r t' n' : advance_commit n t = (r, t', n') -> carries n n'.
Proof.
  unfold advance_commit. destruct (commit_candidate _ _); [|intros [= _ _ <-]; apply carries_refl].
  destruct (derive_membership _ _ _ _); intros [= _ _ <-]; [|apply carries_refl].
  eapply carries_trans; [|apply carries_install]. apply carries_set_state, carries_commit.
Qed.
Lemma push_entry_carries n type payload : in_width 8 type -> carries n (push_entry n type payload).
Proof.
  intros Ht. apply carries_set_state, carries_log. intros Hl. apply Forall_app. split; [done|].
  by apply Forall_singleton.
Qed.
(** The leader's own appends. *)
Lemma commit_carries n n1 index (k : Impl -> Impl) :
  carries n n1 -> (forall x, carries x (k x)) ->
  carried n
    match set_self_progress n1 index with
    | Err s => (make_unexpected s, n1)
    | Ok n2 =>
        match advance_commit n2 empty_transition with
        | (Err s, _, n3) => (make_unexpected s, n3)
        | (Ok _, t, n3) => (Ok (with_persistent (append_to_all n3 t) (state (k n3))), k n3)
        end
    end.
Proof.
  intros Hn Hk. destruct (set_self_progress n1 index) as [n2|s] eqn:E; [|exact Hn].
  assert (H2 : carries n n2).
  { eapply carries_trans; [exact Hn|]. unfold set_self_progress in E.
    destruct (match_index n1 !! id n1), (next_index n1 !! id n1); try done. injection E as <-. by apply carries_same. }
  destruct (advance_commit n2 empty_transition) as [[[b|s] t] n3] eqn:Ea;
    apply advance_commit_carries in Ea; [|by eapply carries_trans].
  eapply carries_trans; [exact H2|]. eapply carries_trans; [exact Ea|apply Hk].
Qed.
Lemma append_local_entry_carries n type payload : in_width 8 type -> carried n (append_local_entry n type payload).
Proof. intros Ht. apply (commit_carries n _ _ (fun x => x)); [by apply push_entry_carries|apply carries_refl]. Qed.
Lemma append_membership_entry_carries n type payload :
  in_width 8 type -> carried n (append_membership_entry n type payload).
Proof.
  intros Ht. unfold append_membership_entry. destruct (derive_membership _ _ _ _) as [d|s];
    [|apply carried_pair, push_entry_carries, Ht].
  apply (commit_carries n _ _ step_down_if_removed); [|apply carries_step_down].
  eapply carries_trans; [by apply push_entry_carries|apply carries_install].
Qed.
Lemma install_prepared_carries n out : carried n out -> carried n (install_prepared n out).
Proof. destruct out as [[t|s] n']; [done|]. intros _. apply carries_refl. Qed.
#[export] Hint Resolve install_prepared_carries append_local_entry_carries append_membership_entry_carries : carries.

Lemma start_election_carries n : in_width 64 (id n) -> carried n (start_election n).
Proof.
  intros Hi. unfold start_election. carry. apply carried_pair.
  destruct (config_quorum _ _ _); (split; [done|by apply carries_term]).
Qed.
Lemma propose_carries n type payload : in_width 8 type -> carried n (propose n type payload).
Proof. intros Ht. unfold propose. carry. Qed.
Lemma noop_typed : in_width 8 kLeaderNoopEntryType.
Proof. unfold in_width. by vm_compute. Qed.
Lemma joint_typed : in_width 8 kJointMembershipEntryType.
Proof. unfold in_width. by vm_compute. Qed.
Lemma final_typed : in_width 8 kFinalMembershipEntryType.
Proof. unfold in_width. by vm_compute. Qed.
#[export] Hint Resolve propose_carries noop_typed joint_typed final_typed : carries.
Lemma commit_current_term_carries n : carried n (commit_current_term n).
Proof. unfold commit_current_term. carry. Qed.
#[export] Hint Resolve commit_current_term_carries : carries.
Lemma propose_exact_retained_carries n type payload : in_width 8 type -> carried n (propose_exact_retained n type payload).
Proof. intros Ht. unfold propose_exact_retained. carry. Qed.
Lemma append_command_carries n type command : in_width 8 type -> carried n (append_command n type command).
Proof. intros Ht. unfold append_command. carry. Qed.
#[export] Hint Resolve append_command_carries : carries.
Lemma begin_membership_change_carries n vs : carried n (begin_membership_change n vs).
Proof. unfold begin_membership_change. carry. Qed.
Lemma finalize_membership_change_carries n : carried n (finalize_membership_change n).
Proof. unfold finalize_membership_change. carry. Qed.
Lemma heartbeat_carries n : carried n (heartbeat n).
Proof. unfold heartbeat. carry. Qed.
Lemma begin_read_barrier_carries n : carried n (begin_read_barrier n).
Proof. unfold begin_read_barrier. carry; by apply carried_pair, carries_same. Qed.
Lemma mark_applied_carries n index : carried n (mark_applied n index).
Proof. unfold mark_applied. carry. Qed.

(** ** Received messages *)

Lemma merge_entry_typed l e : types_typed l -> in_width 8 (entry_type e) -> types_typed (merge_entry l e).
Proof.
  intros Hl He. unfold merge_entry, types_typed.
  set (c := match list_find _ l with Some _ => _ | None => _ end).
  assert (Hc : types_typed c).
  { unfold c. destruct (list_find _ l) as [[i x]|]; [|done]. destruct (_ =? _); [done|]. by apply Forall_take. }
  destruct (list_find _ c); [done|]. apply Forall_app. split; [done|]. by apply Forall_singleton.
Qed.
Lemma candidate_log_typed es : forall l, types_typed l -> types_typed es -> types_typed (candidate_log l es).
Proof.
  unfold candidate_log. induction es as [|e es IH]; intros l Hl Hes; [done|]. cbn [fold_left].
  apply Forall_cons in Hes as [He Hes]. apply IH; [by apply merge_entry_typed|done].
Qed.

Lemma append_accept_carries n source active a v s :
  types_typed (ae_entries a) -> validate_append n source active a = Ok (Some v) ->
  append_accept n a v = Some s -> carries_state (state n) s.
Proof.
  intros Ht Hv Hs. apply validate_append_some in Hv as (_ & _ & _ & _ & El & _).
  unfold append_accept in Hs. cbv zeta in Hs. destruct (_ || _ || _); [|done]. injection Hs as <-.
  eapply carries_state_trans; [|apply carries_commit].
  eapply carries_state_trans; [|apply carries_log]; [destruct (_ >? _); [by apply carries_term|apply carries_keep_vote]|].
  cbn [log state_term]. intros Hl. rewrite El. by apply candidate_log_typed.
Qed.

(** The persistent states that preparation computes. *)
Definition prepared_carries (n : Impl) (p : Prepared) : Prop :=
  match p with
  | PAppend _ (Some s) | PInstall (Some s) _ => carries_state (state n) s
  | PAppendResponse (Some (_, _, Some c)) => carries_state (state n) (pc_state c)
  | _ => True
  end.
Lemma prepare_carries n source active m v t p :
  message_typed m -> validate n source active m = Ok v -> prepare n source m v = Ok (t, p) ->
  prepared_carries n p.
Proof.
  intros Hm Hv Hp. unfold validate in Hv. destruct (_ =? 0) in Hv; [done|].
  destruct m as [m|m|m|m|m|m|m|m]; cbn [prepare message_typed] in *.
  - by injection Hp as <- <-.
  - destruct (prepare_vote_response n source m) as [t0 p0] eqn:E. injection Hp as <- <-.
    unfold prepare_vote_response in E. destruct (_ && _); [|by injection E as <- <-].
    destruct (config_quorum _ _ _); by injection E as <- <-.
  - unfold prepare_append in Hp. destruct (_ <? _); [by injection Hp as <- <-|].
    destruct (negb _); [destruct (_ >? _); injection Hp as <- <-; [by apply carries_term|done]|].
    destruct v as [v|]; [|done]. injection Hp as <- <-. cbn. destruct (append_accept n m v) as [s|] eqn:Es; [|done].
    by eapply append_accept_carries.
  - apply rbind_Ok in Hp as ([t0 p0] & E & Hp). injection Hp as <- <-. unfold prepare_append_response in E.
    destruct (_ && _); [|by injection E as <- <-].
    destruct (next_index n !! source), (match_index n !! source); try done.
    destruct (aer_success m); [|by injection E as <- <-]. unfold prepare_append_success in E.
    destruct (commit_candidate _ _); [|by injection E as <- <-]. destruct (derive_membership _ _ _ _); [|done].
    destruct (rebuild_progress _ _ _ _ _). injection E as <- <-. apply carries_commit.
  - injection Hp as Hp. unfold prepare_install in Hp. destruct (_ <? _); [by injection Hp as <- <-|].
    destruct (_ <=? _); [|destruct (pending_snapshot n)]; injection Hp as <- <-; destruct (_ >? _); try done;
      by apply carries_term.
  - apply rbind_Ok in Hp as ([t0 p0] & E & Hp). injection Hp as <- <-. unfold prepare_install_response in E.
    destruct (_ && _); [|by injection E as <- <-].
    destruct (next_index n !! source), (match_index n !! source); try done.
    destruct (isr_success m); by injection E as <- <-.
  - by injection Hp as <- <-.
  - by injection Hp as <- <-.
Qed.

Lemma carried_finish n st changed t n' : carries n n' -> carried n (finish_receive (st, changed, t, n')).
Proof. intros H. unfold finish_receive. by destruct (is_ok st). Qed.

(** A prepared state replaces the one the newer term left. *)
Lemma carries_replace n n1 s term leader :
  carries n n1 -> match s with Some s => carries_state (state n) s | None => True end ->
  carries n (become_follower (match s with Some s => set_state n1 s | None => n1 end) term leader).
Proof.
  intros [Hb Hn] Hs. eapply carries_trans; [|apply carries_become_follower].
  destruct s as [s|]; split; done.
Qed.

Lemma receive_carries n source m : in_width 64 source -> message_typed m -> carried n (receive n source m).
Proof.
  intros Hsrc Hm. unfold receive. destruct (_ || _); [apply carries_refl|].
  destruct (validate n source (voter n source) m) as [v|] eqn:Ev; [|apply carries_refl].
  destruct (prepare n source m v) as [[t p]|] eqn:Ep; [|apply carries_refl].
  pose proof (prepare_carries _ _ _ _ _ _ _ Hm Ev Ep) as Hp. cbv zeta. fold (observed n (message_term m)).
  pose proof (carries_observed n (message_term m)) as Ho. set (n1 := observed n (message_term m)) in *.
  assert (Hsame : forall n2, state n2 = state n1 -> base_voters n2 = base_voters n1 -> carries n n2).
  { intros n2 E1 E2. eapply carries_trans; [exact Ho|]. by apply carries_same. }
  clearbody n1. generalize (message_term m >? current_term (state n)) as changed. intros changed.
  destruct m as [m|m|m|m|m|m|m|m], p as [?|q|? s|q|s ?|q| |]; cbn [apply]; try (by apply carried_finish);
    unfold apply_vote, apply_vote_response, apply_append, apply_append_response, apply_install,
      apply_install_response, apply_read_barrier, apply_read_barrier_response.
  - destruct granted; apply carried_finish; [|done]. eapply carries_trans; [exact Ho|]. split; [done|].
    by apply (carries_term _ _ (Some source)).
  - destruct (_ || _); [by apply carried_finish|]. destruct (rvr_granted m); [|by apply carried_finish].
    destruct q as [[vs [[next matched]|]]|]; by apply carried_finish, Hsame.
  - destruct (_ <? _); [by apply carried_finish|]. apply carried_finish. cbv zeta.
    assert (Hr := carries_replace n n1 s (ae_term m) (Some source) Ho Hp).
    destruct accepted; [|exact Hr]. eapply carries_trans; [exact Hr|apply carries_install].
  - destruct (_ || _); [by apply carried_finish|]. destruct q as [[[next matched] [c|]]|];
      [|by apply carried_finish, Hsame..]. apply carried_finish. cbv zeta.
    assert (Hc : carries n (set_membership (set_state (set_progress n1 next matched) (pc_state c)) (pc_membership c)))
      by (destruct Ho; by split).
    destruct (pc_step_down c); [|exact Hc]. eapply carries_trans; [exact Hc|apply carries_become_follower].
  - destruct (_ <? _); [by apply carried_finish|]. apply carried_finish. cbv zeta.
    assert (Hr := carries_replace n n1 s (is_term m) (Some source) Ho Hp).
    destruct fresh; [|exact Hr]. eapply carries_trans; [exact Hr|]. by apply carries_same.
  - destruct (_ || _); [by apply carried_finish|]. destruct q as [[next matched]|]; [|by apply carried_finish].
    apply carried_finish. destruct (isr_success m); [by apply Hsame|done].
  - apply carried_finish. destruct (_ =? _); [|done]. eapply carries_trans; [exact Ho|apply carries_become_follower].
  - destruct (pending_read_barrier n1) as [b|]; [|by apply carried_finish]. destruct (_ || _); [by apply carried_finish|].
    pose proof (carries_finish_barrier (set_read_barrier n1 (Some (acknowledge b source)) (next_read_context n1)) t) as Hb.
    destruct (finish_read_barrier _ _) as [t' n2]. apply carried_finish. eapply carries_trans; [|exact Hb].
    by apply Hsame.
Qed.

(** * Snapshots *)

Lemma derive_loop_typed lim commit l : forall d d',
  derive_loop lim commit d l = Ok d' -> Forall (in_width 64) (dm_committed_voters d) ->
  Forall (in_width 64) (dm_committed_voters d').
Proof.
  induction l as [|e l IH]; intros d d' H Hd; cbn in H; [by injection H as <-|].
  apply rbind_Ok in H as (d1 & H1 & H). apply (IH _ _ H). unfold derive_step in H1.
  destruct (negb _); [by injection H1 as <-|]. apply rbind_Ok in H1 as (c & Hc & H1).
  apply decode_command_sound in Hc as [(_ & _ & Hnew & _) _].
  destruct (_ =? _); destruct c as [j|f]; try done; destruct (dm_joint d) as [j0|]; try done; run_guards H1;
    by injection H1 as <-.
Qed.

Lemma last_configuration_width (P : Z -> Prop) l : forall start,
  P start -> Forall (fun e => P (entry_index e)) l -> P (last_configuration start l).
Proof.
  unfold last_configuration. induction l as [|e l IH]; intros start Hs Hl; [done|]. cbn [fold_left].
  apply Forall_cons in Hl as [He Hl]. apply IH; [|done]. by destruct (_ =? _).
Qed.
Lemma node_index_width n : node_inv n -> Forall (fun e => in_width 64 (entry_index e)) (log (state n)).
Proof.
  intros Hn. destruct (so_log _ _ (ni_state n Hn)) as [Hc H0 Hb]. apply Forall_lookup. intros i e He.
  rewrite (Hc _ _ He). apply lookup_lt_Some in He. width_lia.
Qed.

Lemma starting_voters_typed vs n : restartable vs n -> Forall (in_width 64) (base_voters n).
Proof.
  intros H. rewrite (rt_base _ _ H). unfold starting_voters. destruct (_ =? 0); [|apply (rt_snapshot _ _ H)].
  unfold sort_voters. rewrite (sorting.merge_sort_Permutation Z.le vs). apply (rt_voters_typed _ _ H).
Qed.

Lemma valid_snapshot_inv q l : valid_snapshot q (maximum_voters l) = true ->
  last_included_index q <> 0 /\ voters_ok (snapshot_voters q) (maximum_voters l).
Proof.
  unfold valid_snapshot. intros H. bool_prop. split; [done|]. by apply valid_voters_spec.
Qed.

Lemma prepared_snapshot_typed vs n s q :
  node_inv n -> restartable vs n -> snapshot_typed s -> prepare_snapshot_metadata n s = Ok q -> snapshot_typed q.
Proof.
  intros Hn Hr (T1 & T2 & T3 & T4 & _) Hq.
  destruct (prepare_snapshot_metadata_ok n s q Hn Hq) as (_ & _ & _ & Hval & _ & ck & _ & Ev & Hd).
  apply valid_snapshot_inv in Hval as [_ (_ & Hlen & _)].
  apply derive_loop_typed in Hd; [|by eapply starting_voters_typed]. rewrite <- Ev in Hd.
  destruct (ni_limits n Hn) as [Hlim _]. unfold limits_ok in Hlim. bool_prop.
  assert (H32 : in_width 32 (blen (snapshot_voters q))) by (unfold kMaximumMembershipVoters in *; width_lia).
  unfold prepare_snapshot_metadata in Hq. run_guards Hq. injection Hq as <-.
  split_and!; try done. cbn. apply (last_configuration_width (in_width 64)); [apply (rt_snapshot _ _ Hr)|].
  unfold first. by apply Forall_take, node_index_width.
Qed.

Lemma nonempty_canonical q : last_included_index q <> 0 -> empty_snapshot_canonical q = true.
Proof. intros H. unfold empty_snapshot_canonical. by rewrite (proj2 (Z.eqb_neq _ _) H). Qed.
Lemma nonempty_starting vs q : last_included_index q <> 0 -> starting_voters vs q = snapshot_voters q.
Proof. intros H. unfold starting_voters. by rewrite (proj2 (Z.eqb_neq _ _) H). Qed.

Lemma restartable_carries vs n n' :
  carries n n' -> id n' = id n -> limits n' = limits n -> restartable vs n -> restartable vs n'.
Proof.
  intros (Hb & Hs & Ht & Hv) Hi Hl [R1 R2 R3 R4 R5 R6 R7 R8].
  split; rewrite ?Hi, ?Hl, ?Hb, ?Hs; auto.
Qed.

Lemma compact_snapshot_restartable vs n s :
  node_inv n -> restartable vs n -> snapshot_typed s -> restartable vs (compact_snapshot n s).2.
Proof.
  intros Hn Hr Hs. unfold compact_snapshot. destruct (prepare_snapshot_metadata n s) as [q|] eqn:Eq; [|done].
  pose proof (prepared_snapshot_typed _ _ _ _ Hn Hr Hs Eq) as Hq.
  destruct (prepare_snapshot_metadata_ok n s q Hn Eq) as (_ & _ & _ & Hval & _).
  apply valid_snapshot_inv in Hval as [Hne _]. destruct Hr as [R1 R2 R3 R4 R5 R6 R7 R8].
  split; cbn; try done; [by apply Forall_drop|by apply nonempty_canonical|by rewrite nonempty_starting].
Qed.

Lemma complete_snapshot_install_restartable vs n source s installed :
  node_inv n -> restartable vs n -> snapshot_typed s ->
  restartable vs (complete_snapshot_install n source s installed).2.
Proof.
  intros Hn Hr Hs. unfold complete_snapshot_install. destruct (pending_snapshot n) as [p|] eqn:Ep; [|done].
  destruct (_ || _) eqn:E1; [done|]. bool_prop. subst s.
  destruct (valid_snapshot_inv _ _ (pk_valid _ _ (ni_pending n Hn p Ep))) as [Hne _].
  destruct (_ || _); [by apply (restartable_carries vs n); [apply carries_same|..]|].
  destruct (prepare_completion n (is_snapshot p)) as [[q d]|] eqn:Epc; [|done]. cbn [snd].
  unfold prepare_completion in Epc. run_guards Epc. injection Epc as <- _.
  destruct Hr as [R1 R2 R3 R4 R5 R6 R7 R8].
  split; cbn; try done; [|by apply nonempty_canonical|by rewrite nonempty_starting].
  unfold retained_after, types_typed. destruct (bool_decide _ && _); [by apply Forall_drop|constructor].
Qed.

(** Every call of a node keeps it restartable. *)
Lemma run_restartable vs op n :
  node_inv n -> operation_wf op -> operation_typed op -> restartable vs n -> restartable vs (run op n).2.
Proof.
  intros Hn Hw Ht Hr. destruct (run_ok op n Hn Hw) as (_ & _ & Hi & Hl & _).
  assert (Hgo : carried n (run op n) -> restartable vs (run op n).2) by (intros Hc; by eapply restartable_carries).
  destruct op; cbn [run operation_typed] in *.
  - by apply Hgo, start_election_carries, (rt_id vs).
  - destruct Ht. by apply Hgo, receive_carries.
  - by apply Hgo, propose_carries.
  - by apply Hgo, propose_exact_retained_carries.
  - by apply Hgo, commit_current_term_carries.
  - by apply Hgo, begin_membership_change_carries.
  - by apply Hgo, finalize_membership_change_carries.
  - by apply complete_snapshot_install_restartable.
  - by apply compact_snapshot_restartable.
  - by apply Hgo, heartbeat_carries.
  - by apply Hgo, begin_read_barrier_carries.
  - by apply Hgo, mark_applied_carries.
Qed.

(** * Restarting *)

Lemma check_log_complete lim term es : forall expected,
  contiguous expected es -> Forall (entry_ok lim term) es -> 0 <= expected -> expected + blen es < max_u64 ->
  check_log (expected + 1) term lim es = kOk.
Proof.
  induction es as [|e es IH]; intros expected Hc Hf H0 Hb; [done|]. cbn [check_log].
  apply Forall_cons in Hf as [(Ht & Hty & Hp & Hnoop) Hf]. cbn [length] in Hb.
  pose proof (Hc 0%nat e eq_refl) as Hi. replace (entry_index e) with (expected + 1) by lia.
  rewrite Z.eqb_refl, !Z.gtb_ltb, (proj2 (Z.eqb_neq (expected + 1) max_u64)) by lia.
  rewrite (proj2 (Z.eqb_neq (entry_term e) 0)), (proj2 (Z.ltb_ge _ _)), (proj2 (Z.eqb_neq (entry_type e) 0)) by lia.
  rewrite (proj2 (Z.ltb_ge _ _)) by lia. cbn [negb orb andb].
  replace ((entry_type e =? kLeaderNoopEntryType) && negb (blen (entry_payload e) =? 0)) with false.
  2: { destruct (Z.eqb_spec (entry_type e) kLeaderNoopEntryType); [|done]. by rewrite Hnoop. }
  rewrite (wrap_small 64) by width_lia. apply IH; [|done|lia|lia].
  intros i e' He'. specialize (Hc (S i) e' He'). lia.
Qed.

(** A node comes back from its own persistent state, as a follower. *)
Lemma restart_ok vs n :
  node_inv n -> restartable vs n ->
  create (id n) vs (state n) (limits n) =
    Ok (new_impl (id n) (base_voters n) (current_membership n) (state n) (limits n)).
Proof.
  intros Hn [(V1 & V2 & V3 & V4) _ _ _ _ _ Rc Rb]. destruct (ni_limits n Hn) as [Hl _].
  destruct (ni_state n Hn) as [[Lc L0 Lb] He Ht Hcap Hbud Ha Hcm Hsn Hst [Hv0 Hv1]].
  unfold create. rewrite (proj2 (Z.eqb_neq _ _) (ni_id n Hn)), (proj2 (Z.eqb_neq _ _) V1), Z.gtb_ltb.
  rewrite (proj2 (Z.ltb_ge _ _)) by lia. rewrite Hl. cbn [orb negb].
  rewrite (proj2 (Z.eqb_neq _ _) V3), V4. cbn [orb].
  replace ((current_term (state n) =? 0) && bool_decide (voted_for (state n) <> None)) with false.
  2: { destruct (Z.eqb_spec (current_term (state n)) 0) as [E|]; [|done]. symmetry. cbn [andb].
       apply bool_decide_eq_false. intros Hne. by apply Hne, Hv1. }
  rewrite Rc. cbn [negb]. rewrite (proj2 (Z.eqb_neq _ max_u64)) by lia. rewrite Z.gtb_ltb, (proj2 (Z.ltb_ge _ _)) by lia.
  rewrite (wrap_small 64), check_log_complete by (done || width_lia || lia).
  unfold check. change (is_ok kOk) with true. cbv iota. rewrite Z.gtb_ltb, (proj2 (Z.ltb_ge _ _)) by lia.
  assert (Hbc : base_configuration (state n) (sort_voters vs) = (base_voters n, state n)).
  { unfold base_configuration. unfold starting_voters in Rb.
    destruct (Z.eqb_spec (last_included_index (snapshot (state n))) 0); [by rewrite Rb|].
    destruct Hsn as [|Hval]; [done|]. apply valid_snapshot_inv in Hval as [_ (Hne & _)].
    destruct (snapshot_voters (snapshot (state n))) eqn:E; [done|]. by rewrite Rb. }
  rewrite Hbc.
  replace (negb (last_included_index (snapshot (state n)) =? 0) && negb (valid_snapshot (snapshot (state n)) (maximum_voters (limits n))))
    with false.
  2: { destruct Hsn as [->|Hval]; [done|]. by rewrite Hval, andb_false_r. }
  rewrite Hbud. change (is_ok kOk) with true. cbn [negb]. rewrite (ni_membership n Hn). cbn [rbind].
  rewrite (proj2 (Z.ltb_ge (commit_index _) _)), (Z.gtb_ltb (commit_index _)), (proj2 (Z.ltb_ge _ (commit_index _))) by lia.
  rewrite (proj2 (Z.ltb_ge (applied_index _) _)), (Z.gtb_ltb (applied_index _)), (proj2 (Z.ltb_ge _ (applied_index _))) by lia.
  rewrite bool_decide_eq_false_2 by done. done.
Qed.

(** A node that was created is restartable. *)
Lemma create_restartable node_id vs s lim n :
  in_width 64 node_id -> Forall (in_width 64) vs -> vote_typed s -> types_typed (log s) ->
  snapshot_typed (snapshot s) -> create node_id vs s lim = Ok n -> restartable vs n.
Proof.
  intros Hid Hvs Hv Hty Hsn H. unfold create in H.
  destruct (_ || _) eqn:E0 in H; [done|]. destruct (_ || _) eqn:E1 in H; [done|].
  destruct (_ && _) in H; [done|]. destruct (negb (empty_snapshot_canonical _)) eqn:E3; [done|].
  destruct (_ =? _) in H; [done|]. destruct (_ >? _) in H; [done|].
  unfold check in H. destruct (is_ok (check_log _ _ _ _)) in H; [|unfold make_unexpected in H; done].
  destruct (_ >? _) in H; [done|]. destruct (base_configuration s (sort_voters vs)) as [base s'] eqn:Eb.
  destruct (_ && _) in H; [done|]. destruct (is_ok (persistent_state_fits _ _ _)) in H; [|done]. cbn [negb] in H.
  apply rbind_Ok in H as (d & _ & H). destruct (_ || _) in H; [done|]. injection H as <-.
  bool_prop. rewrite !Z.gtb_ltb in *. bool_prop.
  assert (Hw : in_width 32 (blen (sort_voters vs)) /\ Forall (in_width 64) (sort_voters vs)).
  { unfold sort_voters. rewrite (sorting.merge_sort_Permutation Z.le vs). split; [|done].
    unfold limits_ok in *. bool_prop. unfold kMaximumMembershipVoters in *. width_lia. }
  unfold base_configuration in Eb. unfold empty_snapshot_canonical in E3.
  destruct (Z.eqb_spec (last_included_index (snapshot s)) 0) as [Ez|Ez];
    [|destruct (blen (snapshot_voters (snapshot s)) =? 0)]; injection Eb as <- <-.
  - split; cbn; try done; [unfold empty_snapshot_canonical; rewrite Ez; cbn [andb Z.eqb negb] in *; by rewrite E3|].
    unfold starting_voters. by rewrite Ez.
  - destruct Hsn as (T1 & T2 & T3 & T4 & T5 & _), Hw as [Hw1 Hw2]. split; cbn; try done;
      [by apply nonempty_canonical|by rewrite nonempty_starting].
  - split; cbn; try done; [by apply nonempty_canonical|by rewrite nonempty_starting].
Qed.

(** * States in the log *)

Lemma restartable_voter_count vs n :
  node_inv n -> restartable vs n -> blen (snapshot_voters (snapshot (state n))) <= kMaximumMembershipVoters.
Proof.
  intros Hn Hr. destruct (snapshot_voters_bound n Hn) as [Hb|Hz]; [unfold kMaximumMembershipVoters; lia|].
  pose proof (rt_canonical _ _ Hr) as Hc. unfold empty_snapshot_canonical in Hc. rewrite Hz in Hc.
  cbn [Z.eqb andb] in Hc. bool_prop.
  match goal with E : blen _ = 0 |- _ => rewrite E end. by vm_compute.
Qed.

(** The budget of the node bounds the record of its state. *)
Lemma node_state_size vs n :
  node_inv n -> restartable vs n ->
  state_size 1 (state n) <= maximum_persistent_state_bytes (limits n) /\
  maximum_persistent_state_bytes (limits n) <= kMaximumRaftPersistentStatePayloadSize.
Proof.
  intros Hn Hr. destruct (limits_bounds n Hn) as [_ Hm]. split; [|done].
  pose proof (so_budget _ _ (ni_state n Hn)) as Hb. pose proof (restartable_voter_count _ _ Hn Hr) as Hc.
  unfold kMaximumMembershipVoters in Hc.
  apply persistent_state_fits_spec in Hb; [|lia|done]. unfold state_size. cbn [Z.eqb]. lia.
Qed.

Lemma log_bytes_bound l : 32 * blen l <= log_bytes l.
Proof. induction l as [|e l IH]; cbn [log_bytes length]; lia. Qed.
Lemma log_bytes_entry l e : e ∈ l -> blen (entry_payload e) <= log_bytes l.
Proof.
  induction 1 as [e l|e x l _ IH]; cbn [log_bytes]; pose proof (log_bytes_nonneg l); lia.
Qed.

(** The state of a restartable node is within the widths of its types. *)
Lemma restartable_typed vs n : node_inv n -> restartable vs n -> state_typed (state n).
Proof.
  intros Hn Hr. destruct (node_state_size _ _ Hn Hr) as [Hsz Hmax].
  unfold kMaximumRaftPersistentStatePayloadSize, state_size in *. cbn [Z.eqb] in Hsz.
  destruct (ni_state n Hn) as [[Lc L0 Lb] He Ht _ _ Ha Hcm _ _ [Hv0 _]].
  pose proof (last_index_of_cont (state n) Lc) as Hlast. destruct Hr as [_ _ _ R1 R2 R3 _ _].
  pose proof (log_bytes_bound (log (state n))).
  split_and!; try done; try (width_lia).
  apply Forall_forall. intros e Hin. pose proof (log_bytes_entry _ _ Hin).
  rewrite Forall_forall in He. destruct (He _ Hin) as (Het & _).
  pose proof (node_index_width n Hn) as Hi. unfold types_typed in R2. rewrite Forall_forall in Hi, R2.
  split_and!; [by apply Hi| |by apply R2|]; width_lia.
Qed.
