(* ===== verification/MultiRaftFacts.v ===== *)
(** What one call of the multi-group runtime does: it moves one group by one call of
    its node, numbers the state the node returned with the next physical sequence and
    leaves every other group alone. *)
From S2P Require Import Prelude Bytes RaftTypes RaftMembership RaftNode RaftFacts RaftInvariant.
From S2P Require Import OrderedMap.
From S2P Require Import RaftLogCodec RaftRestart MultiRaft DurableRuntime.
#[local] Open Scope Z_scope.

(** * Groups by identity *)

Lemma uuid_lookup_Some {V} g (v : V) m :
  om_sorted uuid_compare m -> om_lookup uuid_compare g m = Some v <-> (g, v) ∈ m.
Proof. apply om_lookup_Some; [apply uuid_compare_Eq|intros; apply uuid_compare_flip]. Qed.
Lemma uuid_lookup_None {V} g (m : list (GroupId * V)) :
  om_sorted uuid_compare m -> om_lookup uuid_compare g m = None <-> g ∉ m.*1.
Proof. apply om_lookup_None; [apply uuid_compare_Eq|intros; apply uuid_compare_flip]. Qed.
Lemma uuid_assign_sorted {V} g (v : V) m :
  om_sorted uuid_compare m -> om_sorted uuid_compare (om_assign uuid_compare g v m).
Proof.
  apply om_assign_sorted; [apply uuid_compare_Eq|intros; apply uuid_compare_flip|apply uuid_compare_trans].
Qed.
Lemma uuid_lookup_assign {V} g (v : V) m g' :
  om_sorted uuid_compare m ->
  om_lookup uuid_compare g' (om_assign uuid_compare g v m) =
    if decide (g' = g) then Some v else om_lookup uuid_compare g' m.
Proof.
  intros Hs. rewrite om_lookup_assign; [|apply uuid_compare_Eq|intros; apply uuid_compare_flip
    |intros ???; apply uuid_compare_trans|done].
  destruct (decide (g' = g)) as [->|Hne]; [by rewrite (proj2 (uuid_compare_Eq g g) eq_refl)|].
  destruct (uuid_compare g' g) eqn:E; [|done..]. by apply uuid_compare_Eq in E.
Qed.
Lemma uuid_emplace_assign {V} g (v : V) m :
  om_lookup uuid_compare g m = None -> om_sorted uuid_compare m ->
  om_emplace uuid_compare g v m = om_assign uuid_compare g v m.
Proof. apply om_emplace_assign. Qed.
Lemma uuid_erase_sorted {V} g (m : list (GroupId * V)) :
  om_sorted uuid_compare m -> om_sorted uuid_compare (om_erase uuid_compare g m).
Proof. apply om_erase_sorted; [apply uuid_compare_Eq|intros; apply uuid_compare_flip]. Qed.
Lemma uuid_lookup_erase {V} g (m : list (GroupId * V)) g' :
  om_sorted uuid_compare m ->
  om_lookup uuid_compare g' (om_erase uuid_compare g m) =
    if decide (g' = g) then None else om_lookup uuid_compare g' m.
Proof.
  intros Hs. pose proof (uuid_erase_sorted g m Hs) as Hs'. apply option_eq. intros x.
  rewrite uuid_lookup_Some, om_erase_elem
    by first [done|apply uuid_compare_Eq|intros; apply uuid_compare_flip].
  rewrite <- (uuid_lookup_Some g' x m Hs). destruct (decide (g' = g)); naive_solver.
Qed.

(** * The runtime *)

(** The groups a runtime is configured with. *)
Definition configuration (cfgs : list RaftGroupConfiguration) : list (GroupId * list NodeId) :=
  (fun c => (cfg_group_id c, cfg_voters c)) <$> cfgs.

Section runtime.
Context (cfgs : list RaftGroupConfiguration) (node_id : NodeId) (lim : MultiRaftLimits).

Record group_ok (g : GroupId) (n : Impl) : Prop := {
  go_inv : node_inv n;
  go_restart : exists vs, (g, vs) ∈ configuration cfgs /\ restartable vs n;
  go_id : id n = node_id;
  go_limits : limits n = limits_raft lim }.

Record runtime_ok (m : MultiRaft) : Prop := {
  ro_sorted : om_sorted uuid_compare (groups m);
  ro_keys : forall g, g ∈ (groups m).*1 <-> g ∈ (configuration cfgs).*1;
  ro_groups : forall g n, find_group m g = Some n -> group_ok g n;
  ro_node : local_node_id m = node_id;
  ro_limits : mr_limits m = lim;
  ro_sequence : 0 <= mr_physical_sequence m <= max_u64 }.

Definition group_state (m : MultiRaft) (g : GroupId) : option PersistentState := state <$> find_group m g.
Definition same_states (m m' : MultiRaft) : Prop := forall g, group_state m' g = group_state m g.

Lemma failed_runtime_ok m : runtime_ok m -> runtime_ok (set_failed_state m).
Proof. by intros []; split. Qed.
Lemma numbered_runtime_ok m sequence : runtime_ok m -> 0 <= sequence <= max_u64 -> runtime_ok (set_physical_sequence m sequence).
Proof. by intros []; split. Qed.

(** One node moves. *)
Lemma moved_runtime_ok m g n n' :
  runtime_ok m -> find_group m g = Some n -> group_ok g n' ->
  runtime_ok (set_groups m (om_assign uuid_compare g n' (groups m))) /\
  forall g', find_group (set_groups m (om_assign uuid_compare g n' (groups m))) g' =
    if decide (g' = g) then Some n' else find_group m g'.
Proof.
  intros [Hs Hk Hg Hn Hl Hq] E Hok.
  assert (Hf : forall g', find_group (set_groups m (om_assign uuid_compare g n' (groups m))) g' =
    if decide (g' = g) then Some n' else find_group m g') by (intros g'; by apply uuid_lookup_assign).
  split; [|exact Hf]. split; try done.
  - by apply uuid_assign_sorted.
  - intros g'. cbn [groups set_groups]. rewrite om_assign_present by (by exists n). apply Hk.
  - intros g' x. rewrite Hf. destruct (decide (g' = g)) as [->|]; [by intros [= <-]|apply Hg].
Qed.

Lemma group_call_ok g n op :
  group_ok g n -> operation_wf op -> operation_typed op -> group_ok g (run op n).2.
Proof.
  intros [Hi (vs & Hc & Hr) Hid Hl] Hw Ht. destruct (run_ok op n Hi Hw) as (Hi' & _ & Hid' & Hl' & _).
  split; [done|exists vs; split; [done|by apply run_restartable]|congruence|congruence].
Qed.

(** What a call returns and leaves. *)
Definition call_outcome (g : GroupId) (m m' : MultiRaft) (r : result MultiRaftTransition) : Prop :=
  match r with
  | Ok t =>
      failed_state m' = failed_state m /\
      match mt_persistence t with
      | Some p =>
          gp_group_id p = g /\ gp_physical_sequence p = mr_physical_sequence m + 1 /\
          mr_physical_sequence m' = mr_physical_sequence m + 1 /\
          group_state m' g = Some (gp_state p) /\
          forall g', g' <> g -> group_state m' g' = group_state m g'
      | None => mr_physical_sequence m' = mr_physical_sequence m /\ same_states m m'
      end
  | Err s => s <> kOk /\ (failed_state m' = true \/
      mr_physical_sequence m' = mr_physical_sequence m /\ same_states m m')
  end.

Lemma wrap_ok g m n0 n (t : Transition) r m' :
  runtime_ok m -> mr_physical_sequence m <> max_u64 -> find_group m g = Some n0 -> group_ok g n ->
  match persistent_state t with Some s => s = state n | None => state n = state n0 end ->
  wrap_transition g (Ok t) (set_groups m (om_assign uuid_compare g n (groups m))) = (r, m') ->
  runtime_ok m' /\ call_outcome g m m' r.
Proof.
  intros Hm Hne E0 Hn Ht. destruct (moved_runtime_ok m g n0 n Hm E0 Hn) as [Hm1 Hf].
  pose proof (ro_sequence _ Hm) as Hq. cbn [wrap_transition].
  set (m1 := set_groups m _) in *. assert (Eg : find_group m1 g = Some n) by (rewrite Hf; by destruct (decide (g = g))).
  assert (Hst : forall g', g' <> g -> group_state m1 g' = group_state m g').
  { intros g' Hne'. unfold group_state. rewrite Hf. by destruct (decide (g' = g)). }
  destruct (_ >? _); [intros [= <- <-]; split; [by apply failed_runtime_ok|by split; [|left]]|]. rewrite Eg.
  destruct (persistent_state t) as [s|].
  - change (mr_physical_sequence m1) with (mr_physical_sequence m). rewrite (proj2 (Z.eqb_neq _ _) Hne).
    rewrite wrap_small by width_lia. intros [= <- <-]. split; [apply numbered_runtime_ok; [done|lia]|].
    split; [done|]. split_and!; try done. change (group_state m1 g = Some s). unfold group_state. rewrite Eg. by subst s.
  - intros [= <- <-]. split; [done|]. split; [done|]. split; [done|]. intros g'. destruct (decide (g' = g)) as [->|]; [|by apply Hst].
    unfold group_state. rewrite Eg, E0. cbn. by rewrite Ht.
Qed.

Lemma call_group_ok g op m r m' :
  runtime_ok m -> operation_wf op -> operation_typed op -> call_group g (run op) m = (r, m') ->
  runtime_ok m' /\ call_outcome g m m' r.
Proof.
  intros Hm Hw Ht. unfold call_group, transition_group.
  destruct (failed_state m) eqn:Ef; [intros [= <- <-]; split; [done|by split; [|left]]|].
  destruct (find_group m g) as [n|] eqn:En; [|intros [= <- <-]; split; [done|by split; [|right]]].
  destruct (Z.eqb_spec (mr_physical_sequence m) max_u64) as [|Hne].
  { intros [= <- <-]. split; [by apply failed_runtime_ok|by split; [|left]]. }
  pose proof (ro_groups _ Hm _ _ En) as Hg. pose proof (group_call_ok g n op Hg Hw Ht) as Hg'.
  destruct (run_ok op n (go_inv _ _ Hg) Hw) as (_ & _ & _ & _ & Hout).
  destruct (run op n) as [[t|s] n'] eqn:E; cbn [fst snd] in *; [by eapply wrap_ok|]. subst n'.
  cbn [wrap_transition]. intros Hr. destruct (@make_unexpected_not_ok MultiRaftTransition s) as (s' & Es & Hs').
  rewrite Es in Hr. injection Hr as <- <-. destruct (moved_runtime_ok m g n n Hm En Hg) as [Hm1 Hf].
  split; [done|]. split; [done|]. right. split; [done|]. intros g'. unfold group_state. rewrite Hf.
  destruct (decide (g' = g)) as [->|]; [by rewrite En|done].
Qed.
End runtime.

(** * Operations of a batch *)

Definition node_operation (op : DurableRaftOperation) : option Operation :=
  match op with
  | StartElectionOperation => Some OpStartElection
  | ReceiveOperation source m => Some (OpReceive source m)
  | ProposeOperation type payload => Some (OpPropose type payload)
  | ProposeExactRetainedOperation type payload => Some (OpProposeExactRetained type payload)
  | CommitCurrentTermOperation => Some OpCommitCurrentTerm
  | ObserveGroupOperation => None
  | BeginMembershipChangeOperation vs => Some (OpBeginMembershipChange vs)
  | FinalizeMembershipChangeOperation => Some OpFinalizeMembershipChange
  | CompleteSnapshotInstallOperation source s installed => Some (OpCompleteSnapshotInstall source s installed)
  | CompactSnapshotOperation s => Some (OpCompactSnapshot s)
  | HeartbeatOperation => Some OpHeartbeat
  | BeginReadBarrierOperation => Some OpBeginReadBarrier
  | MarkAppliedOperation index => Some (OpMarkApplied index)
  end.
(** The arguments of a request are values of their types. *)
Definition request_typed (request : DurableRaftRequest) : Prop :=
  match node_operation (dr_operation request) with
  | Some op => operation_wf op /\ operation_typed op
  | None => True
  end.

Lemma dispatch_run g op o m : node_operation op = Some o -> dispatch g op m = call_group g (run o) m.
Proof. by destruct op; intros [= <-]. Qed.
