(* ===== verification/DurableRestore.v ===== *)
(** Restoring the groups of a durable runtime from the states of its log. *)
From S2P Require Import Prelude Bytes RaftTypes RaftMembership RaftNode RaftFacts RaftInvariant.
From S2P Require Import OrderedMap.
From S2P Require Import RaftLogCodec RaftLogRecord RaftCluster RaftRestart MultiRaft DurableRuntime.
From S2P Require Import MultiRaftFacts.
#[local] Open Scope Z_scope.

Lemma length_emplace {V} g (v : V) m :
  om_lookup uuid_compare g m = None -> length (om_emplace uuid_compare g v m) = S (length m).
Proof.
  induction m as [|[k x] m IH]; intros Hn; [done|]. cbn [om_emplace om_lookup] in *.
  destruct (uuid_compare g k); [done|done|]. cbn [length]. by rewrite IH.
Qed.

Lemma check_not_ok {A} st (k : result A) s :
  (forall s', k = Err s' -> s' <> kOk) -> check st k = Err s -> s <> kOk.
Proof.
  intros Hk. unfold check. destruct (is_ok st); [apply Hk|].
  destruct (@make_unexpected_not_ok A st) as (s' & -> & Hs). by intros [= <-].
Qed.
Lemma create_error node_id vs s lim e : create node_id vs s lim = Err e -> e <> kOk.
Proof.
  unfold create. cbv zeta. do 6 (destruct (_ : bool); [by intros [= <-]|]). apply check_not_ok. intros e'.
  destruct (_ >? _); [by intros [= <-]|]. destruct (base_configuration _ _) as [base p].
  do 2 (destruct (_ : bool); [by intros [= <-]|]). apply rbind_not_ok. intros d e''.
  by destruct (_ || _); intros [= <-].
Qed.

(** The recovered states by group. *)
Lemma recovered_by_group_ok ps : forall by_group,
  om_sorted uuid_compare by_group -> NoDup (gp_group_id <$> ps) ->
  (forall p, p ∈ ps -> om_lookup uuid_compare (gp_group_id p) by_group = None) ->
  exists bg, recovered_by_group ps by_group = Ok bg /\ om_sorted uuid_compare bg /\
    forall g p, om_lookup uuid_compare g bg = Some p <->
      om_lookup uuid_compare g by_group = Some p \/ p ∈ ps /\ gp_group_id p = g.
Proof.
  induction ps as [|p ps IH]; intros bg0 Hs Hnd Hfree; cbn [recovered_by_group].
  - exists bg0. split_and!; [done|done|]. intros g p. rewrite elem_of_nil. naive_solver.
  - rewrite fmap_cons in Hnd. apply NoDup_cons in Hnd as [Hp Hnd].
    assert (Hnone : om_lookup uuid_compare (gp_group_id p) bg0 = None) by (apply Hfree; by left).
    rewrite Hnone, bool_decide_eq_false_2 by by intros [].
    rewrite uuid_emplace_assign by done.
    destruct (IH (om_assign uuid_compare (gp_group_id p) p bg0)) as (bg & E & Hs' & Hl).
    + by apply uuid_assign_sorted.
    + done.
    + intros q Hq. rewrite uuid_lookup_assign by done.
      destruct (decide (gp_group_id q = gp_group_id p)) as [Eq|]; [|apply Hfree; by right].
      destruct Hp. rewrite <- Eq. by apply list_elem_of_fmap_2.
    + exists bg. split_and!; [done|done|]. intros g q. rewrite Hl, uuid_lookup_assign, elem_of_cons by done.
      destruct (decide (g = gp_group_id p)) as [->|Hne]; [rewrite Hnone; naive_solver|]. naive_solver.
Qed.

Lemma uuid_lookup_empty {V} (m : list (GroupId * V)) :
  om_sorted uuid_compare m -> (forall g, om_lookup uuid_compare g m = None) -> m = [].
Proof.
  destruct m as [|[g v] m]; [done|]. intros Hs H. specialize (H g). apply uuid_lookup_None in H; [|done].
  destruct H. left.
Qed.

(** What a group starts from. *)
Definition start_state (bg : list (GroupId * GroupPersistentState)) (g : GroupId) : PersistentState :=
  from_option gp_state initial_state (om_lookup uuid_compare g bg).
Definition start_number (bg : list (GroupId * GroupPersistentState)) (g : GroupId) : Z :=
  from_option gp_physical_sequence 0 (om_lookup uuid_compare g bg).

Lemma restore_groups_cons c rest configured bg m :
  restore_groups (c :: rest) configured bg m =
    (fail_if is_nil (cfg_group_id c) || bool_decide (cfg_group_id c ∈ configured) with kInvalidArgument;
     let '(status, m) := add_group (cfg_group_id c) (cfg_voters c) (start_state bg (cfg_group_id c))
       (start_number bg (cfg_group_id c)) m in
     check! status;
     restore_groups rest ({[ cfg_group_id c ]} ∪ configured) (om_erase uuid_compare (cfg_group_id c) bg) m).
Proof.
  cbn [restore_groups]. unfold start_state, start_number.
  by destruct (om_lookup uuid_compare (cfg_group_id c) bg) as [p|].
Qed.

Section restore.
Context (node_id : NodeId) (lim : MultiRaftLimits).

(** A runtime while its groups are added. *)
Record filling (m : MultiRaft) : Prop := {
  fi_sorted : om_sorted uuid_compare (groups m);
  fi_node : local_node_id m = node_id;
  fi_limits : mr_limits m = lim;
  fi_working : failed_state m = false }.

Lemma add_group_ok g vs s q m n :
  filling m -> is_nil g = false -> find_group m g = None -> blen (groups m) < maximum_groups lim ->
  create node_id vs s (limits_raft lim) = Ok n ->
  exists m', add_group g vs s q m = (kOk, m') /\ filling m' /\
    blen (groups m') = blen (groups m) + 1 /\
    mr_physical_sequence m' = Z.max (mr_physical_sequence m) q /\
    forall g', find_group m' g' = if decide (g' = g) then Some n else find_group m g'.
Proof.
  intros [Hs Hn Hl Hf] Hnil Hnone Hroom Hc. unfold add_group. rewrite Hf, Hnil, Hnone.
  rewrite bool_decide_eq_false_2 by by intros []. rewrite Hl, Z.geb_leb, (proj2 (Z.leb_gt _ _)), Hn, Hc by done.
  eexists. split; [reflexivity|]. cbn [groups set_groups set_physical_sequence].
  split; [|split_and!; [|done|]].
  - split; try done. cbn. rewrite uuid_emplace_assign by done. by apply uuid_assign_sorted.
  - rewrite length_emplace by done. lia.
  - intros g'. unfold find_group. cbn. rewrite uuid_emplace_assign by done. by apply uuid_lookup_assign.
Qed.
Lemma add_group_inv g vs s q m m' :
  filling m -> add_group g vs s q m = (kOk, m') ->
  exists n, create node_id vs s (limits_raft lim) = Ok n /\ filling m' /\
    forall g', find_group m' g' = if decide (g' = g) then Some n else find_group m g'.
Proof.
  intros [Hs Hn Hl Hf] H. unfold add_group in H. rewrite Hf in H. destruct (is_nil g); [done|].
  destruct (bool_decide (is_Some (find_group m g))) eqn:Eg; [done|]. apply bool_decide_eq_false in Eg.
  assert (Hnone : om_lookup uuid_compare g (groups m) = None).
  { destruct (om_lookup uuid_compare g (groups m)) eqn:E; [|done]. destruct Eg. unfold find_group. by rewrite E. }
  destruct (_ >=? _); [done|]. rewrite Hn, Hl in H. destruct (create _ _ _ _) as [n|e] eqn:Ec.
  2: { injection H as -> _. exfalso. by eapply create_error. }
  injection H as <-. exists n. split; [done|]. split.
  - split; try done. cbn. rewrite uuid_emplace_assign by done. by apply uuid_assign_sorted.
  - intros g'. unfold find_group. cbn. rewrite uuid_emplace_assign by done. by apply uuid_lookup_assign.
Qed.

(** What the configuration must be for a runtime to be created. *)
Record configured_ok (cfgs : list RaftGroupConfiguration) : Prop := {
  co_count : blen cfgs <= maximum_groups lim;
  co_runtime : exists m, create_runtime node_id lim = Ok m;
  co_ids : NoDup (cfg_group_id <$> cfgs);
  co_named : Forall (fun c => is_nil (cfg_group_id c) = false) cfgs;
  co_create : forall c, c ∈ cfgs -> exists n, create node_id (cfg_voters c) initial_state (limits_raft lim) = Ok n }.

Lemma create_runtime_inv m : create_runtime node_id lim = Ok m ->
  filling m /\ groups m = [] /\ mr_physical_sequence m = 0.
Proof.
  unfold create_runtime. destruct (_ || _); [done|]. intros [= <-]. split; [|done]. split; try done. constructor.
Qed.

(** The loop, when every group can be created. *)
Lemma restore_groups_ok cfgs : forall configured bg m,
  filling m -> NoDup (cfg_group_id <$> cfgs) -> Forall (fun c => is_nil (cfg_group_id c) = false) cfgs ->
  (forall c, c ∈ cfgs -> (cfg_group_id c ∉ configured) /\ find_group m (cfg_group_id c) = None) ->
  blen (groups m) + blen cfgs <= maximum_groups lim -> om_sorted uuid_compare bg ->
  (forall c, c ∈ cfgs ->
     exists n, create node_id (cfg_voters c) (start_state bg (cfg_group_id c)) (limits_raft lim) = Ok n) ->
  exists bg' m', restore_groups cfgs configured bg m = Ok (bg', m') /\ filling m' /\
    om_sorted uuid_compare bg' /\
    (forall g, om_lookup uuid_compare g bg' =
       if decide (g ∈ (cfg_group_id <$> cfgs)) then None else om_lookup uuid_compare g bg) /\
    (forall x, mr_physical_sequence m' <= x <->
       mr_physical_sequence m <= x /\ forall c, c ∈ cfgs -> start_number bg (cfg_group_id c) <= x) /\
    (forall c, c ∈ cfgs -> exists n, find_group m' (cfg_group_id c) = Some n /\
       create node_id (cfg_voters c) (start_state bg (cfg_group_id c)) (limits_raft lim) = Ok n) /\
    (forall g, g ∉ cfg_group_id <$> cfgs -> find_group m' g = find_group m g).
Proof.
  induction cfgs as [|c cfgs IH]; intros configured bg m Hm Hnd Hnil Hfree Hroom Hbg Hcr.
  - exists bg, m. split; [done|]. split; [done|]. split; [done|]. split; [done|].
    split; [intros x; split; [intros Hx; split; [done|by intros c ?%elem_of_nil]|by intros []]|].
    split; [by intros c ?%elem_of_nil|done].
  - rewrite fmap_cons in Hnd. apply NoDup_cons in Hnd as [Hc Hnd]. apply Forall_cons in Hnil as [Hn1 Hnil].
    destruct (Hfree c ltac:(left)) as [Hnot Hnone]. destruct (Hcr c ltac:(left)) as [n Hn].
    cbn [length] in Hroom.
    destruct (add_group_ok (cfg_group_id c) (cfg_voters c) _ (start_number bg (cfg_group_id c)) m n Hm Hn1 Hnone
      ltac:(lia) Hn) as (m1 & E1 & Hm1 & Hlen & Hseq & Hf1).
    assert (Hother : forall x, x ∈ cfgs -> cfg_group_id x <> cfg_group_id c).
    { intros x Hx E. apply Hc. rewrite <- E. by apply list_elem_of_fmap_2. }
    assert (Hstart : forall x, x ∈ cfgs ->
      om_lookup uuid_compare (cfg_group_id x) (om_erase uuid_compare (cfg_group_id c) bg) =
      om_lookup uuid_compare (cfg_group_id x) bg).
    { intros x Hx. rewrite uuid_lookup_erase by done. by rewrite decide_False by by apply Hother. }
    destruct (IH ({[ cfg_group_id c ]} ∪ configured) (om_erase uuid_compare (cfg_group_id c) bg) m1 Hm1 Hnd Hnil)
      as (bg' & m' & E & Hm' & Hs' & Hbg' & Hseq' & Hin & Hout).
    + intros x Hx. destruct (Hfree x ltac:(by right)). rewrite Hf1, decide_False by by apply Hother.
      split; [|done]. rewrite elem_of_union, elem_of_singleton. intros [?|?]; [by eapply Hother|done].
    + lia.
    + by apply uuid_erase_sorted.
    + intros x Hx. unfold start_state. rewrite Hstart by done. apply Hcr. by right.
    + exists bg', m'. rewrite restore_groups_cons, Hn1, bool_decide_eq_false_2, E1 by done. cbn [orb].
      unfold check. change (is_ok kOk) with true. cbv iota. split; [exact E|]. split; [done|]. split; [done|].
      split_and!.
      * intros g. rewrite Hbg', uuid_lookup_erase by done. rewrite fmap_cons.
        destruct (decide (g ∈ cfg_group_id <$> cfgs)) as [Hg|Hg];
          [rewrite decide_True by (by right); done|].
        destruct (decide (g = cfg_group_id c)) as [->|Hne]; [by rewrite decide_True by left|].
        rewrite decide_False; [done|]. rewrite elem_of_cons. naive_solver.
      * intros x. rewrite Hseq', Hseq, Z.max_lub_iff. setoid_rewrite elem_of_cons. split.
        -- intros [[H1 H2] H3]. split; [done|]. intros y [->|Hy]; [done|]. specialize (H3 y Hy).
           unfold start_number in *. by rewrite Hstart in H3.
        -- intros [H1 H2]. split; [split; [done|apply H2; by left]|]. intros y Hy.
           unfold start_number in *. rewrite Hstart by done. apply H2. by right.
      * intros x [->|Hx]%elem_of_cons.
        -- exists n. split; [|done]. rewrite Hout, Hf1 by done. by rewrite decide_True.
        -- destruct (Hin x Hx) as (n' & Ef & Ec). exists n'. split; [done|]. unfold start_state in *. by rewrite Hstart in Ec.
      * intros g Hg. rewrite fmap_cons, not_elem_of_cons in Hg. destruct Hg as [Hg1 Hg2].
        rewrite Hout, Hf1 by done. by rewrite decide_False.
Qed.

(** A runtime that was created without recovered states. *)
Lemma restore_groups_inv cfgs : forall configured m bg' m',
  filling m -> restore_groups cfgs configured [] m = Ok (bg', m') ->
  Forall (fun c => is_nil (cfg_group_id c) = false) cfgs /\ NoDup (cfg_group_id <$> cfgs) /\
  forall c, c ∈ cfgs -> (cfg_group_id c ∉ configured) /\
    exists n, create node_id (cfg_voters c) initial_state (limits_raft lim) = Ok n.
Proof.
  induction cfgs as [|c cfgs IH]; intros configured m bg' m' Hm H.
  - split; [constructor|]. split; [constructor|]. by intros c ?%elem_of_nil.
  - rewrite restore_groups_cons in H. destruct (is_nil (cfg_group_id c)) eqn:Hn; [done|].
    destruct (bool_decide _) eqn:Hc in H; [done|]. apply bool_decide_eq_false in Hc. cbn [orb] in H.
    destruct (add_group _ _ _ _ _) as [st m1] eqn:Ea. unfold check in H.
    destruct (is_ok st) eqn:Es; [|by destruct (@make_unexpected_not_ok (list (GroupId * GroupPersistentState) * MultiRaft) st) as (? & E & _); rewrite E in H].
    apply bool_decide_eq_true in Es as ->. apply add_group_inv in Ea as (n & Hcr & Hm1 & _); [|done].
    apply IH in H as (Hnil & Hnd & Hall); [|done]. split; [by constructor|].
    assert (Hfresh : forall x, x ∈ cfgs -> cfg_group_id x <> cfg_group_id c)
      by (intros x Hx E; destruct (Hall x Hx) as [Hx' _]; set_solver).
    split.
    + rewrite fmap_cons. constructor; [|done]. intros (x & E & Hx)%list_elem_of_fmap. by eapply Hfresh.
    + intros x [->|Hx]%elem_of_cons; [by split; [|exists n]|]. destruct (Hall x Hx) as [Hx' ?]. split; [set_solver|done].
Qed.

Lemma create_runtime_configured l cfgs m :
  limits_runtime l = lim -> restore_runtime node_id l cfgs [] = Ok m -> configured_ok cfgs.
Proof.
  intros El H. unfold restore_runtime in H. rewrite El, Z.gtb_ltb in H. destruct (Z.ltb_spec (maximum_groups lim) (blen cfgs)); [done|].
  cbn [recovered_by_group rbind] in H. apply rbind_Ok in H as (m0 & Hm0 & H).
  apply rbind_Ok in H as ([bg m1] & Hr & _). destruct (create_runtime_inv _ Hm0) as [Hf _].
  apply restore_groups_inv in Hr as (H1 & H2 & H3); [|done]. split; [done|eauto|done|done|]. intros c Hc. by apply H3.
Qed.

(** ** Restored groups *)

Context (cfgs : list RaftGroupConfiguration).
Context (Hnode : in_width 64 node_id) (Hlim : limits_wf (limits_raft lim)).
Context (Hvoters : Forall (fun c => Forall (in_width 64) (cfg_voters c)) cfgs).

(** A state a node of the group has had. *)
Definition recoverable (p : GroupPersistentState) : Prop :=
  exists n, group_ok cfgs node_id lim (gp_group_id p) n /\ state n = gp_state p.

Lemma initial_typed : state_wf initial_state /\ vote_typed initial_state /\ types_typed (log initial_state) /\
  snapshot_typed (snapshot initial_state).
Proof.
  unfold state_wf, vote_typed, types_typed, snapshot_typed, in_width. cbn.
  split_and!; try done; constructor.
Qed.

Lemma configuration_elem g vs : (g, vs) ∈ configuration cfgs <-> exists c, c ∈ cfgs /\ g = cfg_group_id c /\ vs = cfg_voters c.
Proof. unfold configuration. rewrite list_elem_of_fmap. naive_solver. Qed.
Lemma configuration_ids : (configuration cfgs).*1 = cfg_group_id <$> cfgs.
Proof. unfold configuration. by rewrite <- list_fmap_compose. Qed.
Lemma configuration_voters c vs :
  NoDup (cfg_group_id <$> cfgs) -> c ∈ cfgs -> (cfg_group_id c, vs) ∈ configuration cfgs -> vs = cfg_voters c.
Proof.
  intros Hnd Hc (c' & Hc' & E & ->)%configuration_elem. f_equal.
  apply list_elem_of_lookup in Hc as [i Hi], Hc' as [j Hj].
  assert (i = j) as ->; [|congruence]. eapply NoDup_lookup; [exact Hnd| |]; rewrite list_lookup_fmap.
  - by rewrite Hi.
  - by rewrite Hj, E.
Qed.

(** A group that starts from nothing, and one that starts from a state it has had. *)
Lemma start_initial c n :
  c ∈ cfgs -> create node_id (cfg_voters c) initial_state (limits_raft lim) = Ok n ->
  group_ok cfgs node_id lim (cfg_group_id c) n /\ state n = initial_state.
Proof.
  intros Hc Hn. destruct initial_typed as (W1 & W2 & W3 & W4). rewrite Forall_forall in Hvoters.
  destruct (create_ok _ _ _ _ _ Hlim W1 Hn) as (Hinv & Hid & Hl & E1 & E2 & E3 & E4 & E5).
  pose proof (create_restartable _ _ _ _ _ Hnode (Hvoters c Hc) W2 W3 W4 Hn) as Hr.
  split.
  - split; try done. exists (cfg_voters c). split; [|done]. apply configuration_elem. by exists c.
  - clear -Hn. unfold create in Hn. run_guards Hn. injection Hn as <-. cbn. unfold base_configuration in *. cbn in *.
    congruence.
Qed.
Lemma start_recovered c p :
  NoDup (cfg_group_id <$> cfgs) -> c ∈ cfgs -> recoverable p -> gp_group_id p = cfg_group_id c ->
  exists n, create node_id (cfg_voters c) (gp_state p) (limits_raft lim) = Ok n /\
    group_ok cfgs node_id lim (cfg_group_id c) n /\ state n = gp_state p.
Proof.
  intros Hnd Hc (n & Hg & <-) Ep. rewrite Ep in Hg. pose proof Hg as [Hinv (vs & Hvs & Hr) Hid Hl].
  apply configuration_voters in Hvs as ->; [|done..]. pose proof (restart_ok _ _ Hinv Hr) as E. rewrite Hid, Hl in E.
  eexists. split; [exact E|]. split; [|done].
  destruct (create_ok _ _ _ _ _ Hlim (node_state_wf _ Hinv) E) as (Hinv' & Hid' & Hl' & _).
  split; try done. exists (cfg_voters c). split; [apply configuration_elem; by exists c|].
  apply (restartable_carries _ n); [by apply carries_same|done|done|done].
Qed.

(** Restoring every configured group from the latest states of the log. *)
Lemma restore_runtime_ok l ps :
  limits_runtime l = lim -> configured_ok cfgs -> NoDup (gp_group_id <$> ps) -> Forall recoverable ps ->
  Forall (fun p => 0 <= gp_physical_sequence p <= max_u64) ps ->
  exists m, restore_runtime node_id l cfgs ps = Ok m /\ runtime_ok cfgs node_id lim m /\
    failed_state m = false /\
    (forall x, 0 <= x -> mr_physical_sequence m <= x <-> forall p, p ∈ ps -> gp_physical_sequence p <= x) /\
    forall g n, find_group m g = Some n ->
      (forall p, p ∈ ps -> gp_group_id p = g -> state n = gp_state p) /\
      ((g ∉ (gp_group_id <$> ps)) -> state n = initial_state).
Proof.
  intros El [Hcount [m0 Hm0] Hids Hnamed Hcr] Hnd Hrec Hseq.
  destruct (recovered_by_group_ok ps []) as (bg & Ebg & Hbs & Hbg); [constructor|done|done|].
  assert (Hbg' : forall g p, om_lookup uuid_compare g bg = Some p <-> p ∈ ps /\ gp_group_id p = g)
    by (intros g p; rewrite Hbg; naive_solver). clear Hbg. rewrite Forall_forall in Hrec, Hseq.
  destruct (create_runtime_inv _ Hm0) as (Hf0 & Hg0 & Hs0).
  assert (Hstart : forall c, c ∈ cfgs -> exists n,
    create node_id (cfg_voters c) (start_state bg (cfg_group_id c)) (limits_raft lim) = Ok n /\
    group_ok cfgs node_id lim (cfg_group_id c) n /\ state n = start_state bg (cfg_group_id c)).
  { intros c Hc. unfold start_state. destruct (om_lookup uuid_compare (cfg_group_id c) bg) as [p|] eqn:E; cbn.
    - apply Hbg' in E as [Hp Eg]. by apply start_recovered; [| |apply Hrec|].
    - destruct (Hcr c Hc) as [n Hn]. exists n. split; [done|]. by apply start_initial. }
  assert (Hknown : forall p, p ∈ ps -> gp_group_id p ∈ (cfg_group_id <$> cfgs)).
  { intros p (n & Hg & _)%Hrec. destruct (go_restart _ _ _ _ _ Hg) as (vs & (c & Hc & -> & _)%configuration_elem & _).
    by apply list_elem_of_fmap_2. }
  destruct (restore_groups_ok cfgs ∅ bg m0 Hf0 Hids Hnamed) as (bg' & m & E & Hm & Hs' & Hl' & Hsq & Hin & Hout).
  { intros c _. split; [set_solver|]. unfold find_group. by rewrite Hg0. }
  { rewrite Hg0. cbn [length]. lia. }
  { done. }
  { intros c Hc. destruct (Hstart c Hc) as (n & Hn & _). eauto. }
  assert (bg' = []) as ->.
  { apply uuid_lookup_empty; [done|]. intros g. rewrite Hl'. destruct (decide _) as [|Hg]; [done|].
    destruct (om_lookup uuid_compare g bg) as [p|] eqn:Ep; [|done]. apply Hbg' in Ep as [Hp <-].
    destruct Hg. by apply Hknown. }
  assert (Hfound : forall g n, find_group m g = Some n ->
    g ∈ (cfg_group_id <$> cfgs) /\ group_ok cfgs node_id lim g n /\ state n = start_state bg g).
  { intros g n Hn. destruct (decide (g ∈ (cfg_group_id <$> cfgs))) as [Hg|Hg].
    2: { rewrite Hout in Hn by done. unfold find_group in Hn. by rewrite Hg0 in Hn. }
    split; [done|]. apply list_elem_of_fmap in Hg as (c & -> & Hc). destruct (Hin c Hc) as (n' & En & Ec).
    destruct (Hstart c Hc) as (n'' & Ec' & Hok & Hst). simplify_eq. rewrite Ec in Ec'. by injection Ec' as <-. }
  exists m. split; [|split; [|split; [apply Hm|split]]].
  - unfold restore_runtime. rewrite El, Z.gtb_ltb, (proj2 (Z.ltb_ge _ _)), Ebg by done. cbn [rbind].
    rewrite Hm0. cbn [rbind]. by rewrite E.
  - destruct Hm as [Hm1 Hm2 Hm3 Hm4]. split; try done.
    + intros g. rewrite configuration_ids. split; [|intros (c & -> & Hc)%list_elem_of_fmap].
      * intros Hg. destruct (om_lookup uuid_compare g (groups m)) as [n|] eqn:En; [by apply (Hfound g n)|].
        by apply uuid_lookup_None in En.
      * destruct (Hin c Hc) as (n & En & _). apply uuid_lookup_Some in En; [|done].
        apply list_elem_of_fmap. by exists (cfg_group_id c, n).
    + intros g n Hn. by apply Hfound.
    + split.
      * rewrite <- Hs0. by apply (Hsq (mr_physical_sequence m)).
      * apply Hsq. split; [lia|]. intros c Hc. unfold start_number.
        destruct (om_lookup uuid_compare _ bg) as [p|] eqn:Ep; [|done]. apply Hbg' in Ep as [Hp _]. by apply Hseq.
  - intros x Hx. rewrite Hsq, Hs0. unfold start_number. split.
    + intros [_ H] p Hp. apply Hknown in Hp as Hk. apply list_elem_of_fmap in Hk as (c & Ek & Hc).
      specialize (H c Hc). by rewrite (proj2 (Hbg' _ p)) in H.
    + intros H. split; [done|]. intros c Hc. destruct (om_lookup uuid_compare _ bg) as [p|] eqn:Ep; [|done].
      apply Hbg' in Ep as [Hp _]. by apply H.
  - intros g n Hn. apply Hfound in Hn as (_ & _ & ->). unfold start_state. split.
    + intros p Hp Eg. by rewrite (proj2 (Hbg' g p)).
    + intros Hg. destruct (om_lookup uuid_compare g bg) as [p|] eqn:Ep; [|done]. apply Hbg' in Ep as [Hp <-].
      destruct Hg. by apply list_elem_of_fmap_2.
Qed.
End restore.
