(* ===== verification/DurableFacts.v ===== *)
(** What the durable runtime keeps in step: the states its groups have in memory, the
    states written to the log, and the positions of both. *)
From S2P Require Import Prelude Bytes RaftTypes RaftMembership RaftNode RaftFacts RaftInvariant.
From S2P Require Import OrderedMap.
From S2P Require Import PosixIo DiskFacts RaftLogCodec RaftLogRecord RaftLogFiles RaftPersistentLog.
From S2P Require Import RaftLogHistory.
From S2P Require Import RaftLogLive RaftLogLives RaftRestart MultiRaft DurableRuntime MultiRaftFacts.
From S2P Require Import DurableRestore.
#[local] Open Scope Z_scope.

(** * The history of a runtime *)

(** The last state written for a group; a group starts from the initial state. *)
Definition recorded (H : list GroupPersistentState) (g : GroupId) : PersistentState :=
  foldl (fun s p => if decide (gp_group_id p = g) then gp_state p else s) initial_state H.
(** The states a result reports as persisted. *)
Definition written (r : DurableRaftResult) : list GroupPersistentState :=
  match dres_transition r with
  | Some t => option_list (mt_persistence t)
  | None => []
  end.

Lemma recorded_snoc H p g :
  recorded (H ++ [p]) g = if decide (gp_group_id p = g) then gp_state p else recorded H g.
Proof. unfold recorded. by rewrite foldl_app. Qed.
Lemma recorded_latest H p : latest_in H p -> recorded H (gp_group_id p) = gp_state p.
Proof.
  induction H as [|q H IH] using rev_ind; [by intros ([|] & ? & ? & _)|].
  rewrite latest_in_snoc, recorded_snoc. intros [->|[Hne Hl]]; [by rewrite decide_True|].
  rewrite decide_False by (unfold group_of in Hne; congruence). by apply IH.
Qed.
Lemma recorded_absent H g : (g ∉ (gp_group_id <$> H)) -> recorded H g = initial_state.
Proof.
  induction H as [|q H IH] using rev_ind; [done|]. rewrite fmap_app, not_elem_of_app, recorded_snoc. intros [Hn Hq].
  rewrite decide_False; [by apply IH|]. intros <-. apply Hq. left.
Qed.
Lemma latest_exists H g : g ∈ (gp_group_id <$> H) -> exists p, latest_in H p /\ gp_group_id p = g.
Proof.
  induction H as [|q H IH] using rev_ind; [by intros ?%elem_of_nil|]. rewrite fmap_app, elem_of_app.
  setoid_rewrite latest_in_snoc. destruct (decide (g = gp_group_id q)) as [->|Hne]; [naive_solver|].
  intros [Hg|Hg]; [|by apply list_elem_of_singleton in Hg]. destruct (IH Hg) as (p & Hp & <-). exists p. auto.
Qed.

(** The arguments of a runtime are values of their types. *)
Record arguments_typed (config : RaftPersistentLogConfig) (node_id : NodeId)
    (cfgs : list RaftGroupConfiguration) (limits : DurableMultiRaftLimits) : Prop := {
  at_config : config_typed config;
  at_node : in_width 64 node_id;
  at_limits : limits_wf (limits_raft (limits_runtime limits));
  at_voters : Forall (fun c => Forall (in_width 64) (cfg_voters c)) cfgs;
  at_groups : Forall (fun c => length (cfg_group_id c) = 16%nat) cfgs }.

Lemma storage_bounded_inv config l bl :
  storage_bounded_limits config l = Ok bl ->
  kPhysicalFraming < rc_target_segment_size config <= kMaximumRaftSegmentSize /\
  maximum_persistent_state_bytes (limits_raft (limits_runtime bl)) <=
    rc_target_segment_size config - kPhysicalFraming /\
  (limits_wf (limits_raft (limits_runtime l)) -> limits_wf (limits_raft (limits_runtime bl))).
Proof.
  unfold storage_bounded_limits. destruct (_ || _) eqn:E; [done|]. rewrite Z.gtb_ltb in E. bool_prop.
  assert (Hw : u64 (rc_target_segment_size config - kPhysicalFraming) = rc_target_segment_size config - kPhysicalFraming).
  { apply wrap_small. change kPhysicalFraming with 132 in *. unfold kMaximumRaftSegmentSize in *. width_lia. }
  intros [= <-]. cbn. rewrite Hw. split; [done|]. split; [lia|]. intros (? & ? & ? & ? & ?). split_and!; try done.
  cbn. lia.
Qed.

Section facts.
Context {W : Type} {HIO : PosixIo W} {HL : PosixLaws W}.
Context (config : RaftPersistentLogConfig) (node_id : NodeId) (cfgs : list RaftGroupConfiguration).
Context (limits bounded : DurableMultiRaftLimits).
Context (Hargs : arguments_typed config node_id cfgs limits).
Context (Hbounded : storage_bounded_limits config limits = Ok bounded).
#[local] Abbreviation lim := (limits_runtime bounded).

Record durable_ok (w : W) (d : Durable) (H : list GroupPersistentState) : Prop := {
  dk_log : lived config w (d_log d) H;
  dk_runtime : runtime_ok cfgs node_id lim (d_runtime d);
  dk_sequence : mr_physical_sequence (d_runtime d) = blen H;
  dk_states : forall g n, find_group (d_runtime d) g = Some n -> state n = recorded H g;
  dk_history : Forall (recoverable node_id lim cfgs) H;
  dk_limits : d_limits d = bounded;
  dk_working : failed_state (d_runtime d) = false;
  dk_no_failure : d_failure d = kOk }.

(** ** States of the groups *)

Lemma group_recoverable m g n p :
  runtime_ok cfgs node_id lim m -> find_group m g = Some n -> gp_group_id p = g -> gp_state p = state n ->
  recoverable node_id lim cfgs p.
Proof. intros Hm Hn <- Hs. exists n. split; [by apply (ro_groups _ _ _ _ Hm)|done]. Qed.

(** A state of a group may be given to the log. *)
Lemma recoverable_given p :
  recoverable node_id lim cfgs p -> in_width 64 (gp_physical_sequence p) -> state_given p.
Proof.
  intros (n & [Hi (vs & (c & Hc & Eg & _)%configuration_elem & Hr) _ _] & Es) Hw. split_and!; [|done|].
  - rewrite Eg. pose proof (at_groups _ _ _ _ Hargs) as Hg. rewrite Forall_forall in Hg. by apply Hg.
  - rewrite <- Es. by eapply restartable_typed.
Qed.

Lemma called_durable w i H c w' i' :
  lived config w i H -> Forall state_given (call_records c) -> run_call c (w, i) = (Ok tt, (w', i')) ->
  durable_physical_sequence (li_recovered i) <= durable_physical_sequence (li_recovered i') /\
  (forces c = true -> durable_physical_sequence (li_recovered i') = blen (H ++ call_records c)).
Proof.
  intros Hl Hg Hrun. destruct (lived_ok _ _ _ _ (at_config _ _ _ _ Hargs) Hl) as (an & sgs & lg & old & Hlife).
  by destruct (life_called _ _ _ _ _ _ _ _ _ _ _ Hlife Hg Hrun) as (? & ? & ? & ? & _ & Hd).
Qed.

(** One more state in the log. *)
Lemma durable_append w d H p pos w' l' m :
  durable_ok w d H -> runtime_ok cfgs node_id lim m -> failed_state m = false ->
  mr_physical_sequence m = blen H + 1 -> gp_physical_sequence p = blen H + 1 ->
  group_state m (gp_group_id p) = Some (gp_state p) ->
  (forall g, g <> gp_group_id p -> group_state m g = group_state (d_runtime d) g) ->
  append p (w, d_log d) = (Ok pos, (w', l')) ->
  durable_ok w' (set_log (set_runtime d m) l') (H ++ [p]) /\
  durable_physical_sequence (li_recovered (d_log d)) <= durable_physical_sequence (li_recovered l').
Proof.
  intros [H1 H2 H3 H4 H5 H6 H7 H8] Hm Hf Hs Hp Hg Ho Ha.
  unfold group_state in Hg. destruct (find_group m (gp_group_id p)) as [n|] eqn:En; [|done]. injection Hg as Hg.
  assert (Hrec : recoverable node_id lim cfgs p) by (by eapply group_recoverable).
  assert (Hgiven : Forall state_given (call_records (CallAppend p))).
  { constructor; [|constructor]. apply recoverable_given; [done|]. rewrite Hp, <- Hs.
    pose proof (ro_sequence _ _ _ _ Hm). width_lia. }
  assert (Hrun : run_call (CallAppend p) (w, d_log d) = (Ok tt, (w', l')))
    by (cbn [run_call]; by rewrite (io_bind_step _ _ _ _ _ Ha)).
  split; [|by apply (called_durable _ _ _ _ _ _ H1 Hgiven Hrun)].
  split; cbn [d_runtime d_log d_limits d_failure set_log set_runtime]; try done.
  - exact (lived_called _ _ _ _ _ _ _ H1 Hgiven Hrun).
  - rewrite Hs, length_app. cbn [length]. lia.
  - intros g x Hx. rewrite recorded_snoc. destruct (decide (gp_group_id p = g)) as [<-|Hne]; [congruence|].
    specialize (Ho g ltac:(congruence)). unfold group_state in Ho. rewrite Hx in Ho.
    destruct (find_group (d_runtime d) g) as [y|] eqn:Ey; [|done]. injection Ho as ->. by apply H4.
  - apply Forall_app. split; [done|by constructor].
Qed.

(** A call that wrote nothing. *)
Lemma durable_same w d H m :
  durable_ok w d H -> runtime_ok cfgs node_id lim m -> failed_state m = false ->
  mr_physical_sequence m = blen H -> same_states (d_runtime d) m -> durable_ok w (set_runtime d m) H.
Proof.
  intros [H1 H2 H3 H4 H5 H6 H7 H8] Hm Hf Hs Hsame.
  split; cbn [d_runtime d_log d_limits d_failure set_runtime]; try done.
  intros g n Hn. specialize (Hsame g). unfold group_state in Hsame. rewrite Hn in Hsame.
  destruct (find_group (d_runtime d) g) as [y|] eqn:Ey; [|done]. injection Hsame as ->. by apply H4.
Qed.

(** ** Requests *)

(** What a request that returned leaves: the new states are in the log, and the log is
    untouched when there are none. *)
Definition advanced (w : W) (d : Durable) (H : list GroupPersistentState) (results : list DurableRaftResult)
    (w' : W) (d' : Durable) : Prop :=
  durable_ok w' d' (H ++ (results ≫= written)) /\
  ((results ≫= written) = [] -> w' = w /\ d_log d' = d_log d) /\
  durable_physical_sequence (li_recovered (d_log d)) <= durable_physical_sequence (li_recovered (d_log d')).

Lemma or_durable_fail_Ok {A} (c : IO (W * Durable) A) wd a wd' :
  or_durable_fail c wd = (Ok a, wd') -> c wd = (Ok a, wd').
Proof.
  unfold or_durable_fail. destruct (c wd) as [[x|s] wd1]; [done|]. unfold durable_fail, make_unexpected.
  by destruct (is_ok _).
Qed.
Lemma on_log_Ok {A} (c : IO (W * LogImpl) A) w d a wd' :
  on_log c (w, d) = (Ok a, wd') -> exists w' l', c (w, d_log d) = (Ok a, (w', l')) /\ wd' = (w', set_log d l').
Proof. unfold on_log. cbn. destruct (c (w, d_log d)) as [r [w' l']]. intros [= -> <-]. eauto. Qed.
Lemma durable_fail_Err {A} s (wd : W * Durable) a wd' : durable_fail (A := A) s wd <> (Ok a, wd').
Proof. unfold durable_fail, make_unexpected. by destruct (is_ok (d_failure _)). Qed.

Lemma execute_transition_ok w d H r o oc ns res oc' ns' w' d' :
  durable_ok w d H -> node_operation (dr_operation r) = Some o -> operation_wf o -> operation_typed o ->
  execute_transition d r oc ns (w, d) = (Ok (res, oc', ns'), (w', d')) ->
  advanced w d H [res] w' d' /\ ns' = ns || bool_decide (written res <> []).
Proof.
  intros Hd Ho Hw Ht. unfold execute_transition. rewrite (dispatch_run _ _ _ _ Ho).
  destruct (call_group (dr_group_id r) (run o) (d_runtime d)) as [t m] eqn:Ec.
  destruct (call_group_ok _ _ _ _ _ _ _ _ (dk_runtime _ _ _ Hd) Hw Ht Ec) as [Hm Hout].
  rewrite (io_bind_step _ _ _ tt (w, set_runtime d m)) by done. destruct t as [t|s]; cbn [call_outcome] in Hout.
  - destruct (_ >? _); [by intros ?%durable_fail_Err|]. destruct Hout as [Hf Hout].
    rewrite (dk_working _ _ _ Hd) in Hf. rewrite (dk_sequence _ _ _ Hd) in Hout.
    destruct (mt_persistence t) as [p|] eqn:Ep.
    + destruct Hout as (<- & Hs & Hs' & Hg & Hother). intros (pos & [w1 d1] & E & Hret)%io_bind_Ok.
      injection Hret as <- <- <- <- <-. apply or_durable_fail_Ok, on_log_Ok in E as (w1' & l' & Ea & [= -> ->]).
      unfold advanced, written. cbn [mbind list_bind dres_transition]. rewrite Ep. cbn [option_list app].
      destruct (durable_append w d H p pos w1' l' m) as [? ?]; try done.
      split; [|by rewrite orb_true_r]. by split_and!.
    + destruct Hout as [Hs Hsame]. intros [= <- <- <- <- <-].
      unfold advanced, written. cbn [mbind list_bind dres_transition]. rewrite Ep, app_nil_r.
      split; [split_and!; [by apply durable_same|done|done]|by rewrite orb_false_r].
  - destruct (failed_state m) eqn:Ef; [by intros ?%durable_fail_Err|]. destruct Hout as [_ [Hx|[Hs Hsame]]]; [congruence|].
    rewrite (dk_sequence _ _ _ Hd) in Hs. intros [= <- <- <- <- <-]. unfold advanced. cbn. rewrite app_nil_r.
    split; [split_and!; [by apply durable_same|done|done]|by rewrite orb_false_r].
Qed.

Lemma execute_request_ok w d H r oc ns res oc' ns' w' d' :
  durable_ok w d H -> request_typed r ->
  execute_request r oc ns (w, d) = (Ok (res, oc', ns'), (w', d')) ->
  advanced w d H [res] w' d' /\ ns' = ns || bool_decide (written res <> []).
Proof.
  intros Hd Ht. unfold execute_request. rewrite (io_bind_step get_durable _ (w, d) d (w, d)) by done.
  assert (Hstay : forall res, dres_transition res = None -> advanced w d H [res] w d /\ ns = ns || bool_decide (written res <> [])).
  { intros x Hx. unfold advanced, written. cbn. rewrite Hx. cbn. rewrite app_nil_r, orb_false_r. done. }
  destruct (leader_term_refused _ _) as [s|]; [intros [= <- <- <- <- <-]; by apply Hstay|].
  unfold request_typed in Ht.
  destruct (node_operation (dr_operation r)) as [o|] eqn:Eo.
  - intros E. eapply (execute_transition_ok w d H r o); [done|done|apply Ht|apply Ht|].
    destruct (dr_operation r); first [exact E|discriminate Eo].
  - destruct (dr_operation r); try discriminate Eo. intros [= <- <- <- <- <-]. apply Hstay.
    by destruct (observe_group d (dr_group_id r)).
Qed.

Lemma execute_requests_ok rs : forall w d H oc ns results ns' w' d',
  durable_ok w d H -> Forall request_typed rs ->
  execute_requests rs oc ns (w, d) = (Ok (results, ns'), (w', d')) ->
  advanced w d H results w' d' /\ ns' = ns || bool_decide ((results ≫= written) <> []).
Proof.
  induction rs as [|r rs IH]; intros w d H oc ns results ns' w' d' Hd Ht; cbn [execute_requests].
  - intros [= <- <- <- <-]. unfold advanced. cbn. rewrite app_nil_r, orb_false_r. done.
  - apply Forall_cons in Ht as [Hr Ht]. intros ([[res oc1] ns1] & [w1 d1] & E1 & E)%io_bind_Ok.
    apply io_bind_Ok in E as ([rest ns2] & [w2 d2] & E2 & Hret). injection Hret as <- <- <- <-.
    destruct (execute_request_ok _ _ _ _ _ _ _ _ _ _ _ Hd Hr E1) as [(Hd1 & Hs1 & Hq1) ->].
    destruct (IH _ _ _ _ _ _ _ _ _ Hd1 Ht E2) as [(Hd2 & Hs2 & Hq2) ->].
    unfold advanced in *. cbn [mbind list_bind] in *. rewrite app_nil_r in *. rewrite app_assoc. split.
    + split; [done|]. split; [|lia]. intros [Ew Er]%app_nil. destruct (Hs1 Ew) as [-> <-]. by apply Hs2.
    + rewrite <- orb_assoc. f_equal. destruct (written res), (rest ≫= written); done.
Qed.

(** ** Batches and checkpoints *)

(** Nothing is in memory only. *)
Definition settled (w : W) (d : Durable) (H : list GroupPersistentState) : Prop :=
  durable_ok w d H /\ durable_physical_sequence (li_recovered (d_log d)) = blen H.

Lemma execute_batch_ok w d H rs results w' d' :
  settled w d H -> Forall request_typed rs -> execute_batch rs (w, d) = (Ok results, (w', d')) ->
  settled w' d' (H ++ (results ≫= written)).
Proof.
  intros [Hd Hs] Ht. unfold execute_batch. rewrite (io_bind_step get_durable _ (w, d) d (w, d)) by done.
  rewrite (dk_no_failure _ _ _ Hd), (dk_working _ _ _ Hd), (io_bind_step (io_check kOk) _ _ tt (w, d)) by done.
  destruct (_ || _); [done|]. intros ([] & wd0 & E0 & E)%io_bind_Ok.
  assert (wd0 = (w, d)) as -> by (revert E0; unfold io_check; destruct (is_ok _); by intros [= <-]).
  apply io_bind_Ok in E as ([out ns] & [w1 d1] & E1 & E). apply io_bind_Ok in E as ([] & [w2 d2] & E2 & Hret).
  injection Hret as <- <- <-. destruct (execute_requests_ok _ _ _ _ _ _ _ _ _ _ Hd Ht E1) as [(Hd1 & Hs1 & _) ->].
  cbn [orb] in E2. destruct (decide ((out ≫= written) = [])) as [Ew|Ew].
  - rewrite Ew in *. rewrite bool_decide_eq_false_2 in E2 by naive_solver. injection E2 as <- <-.
    rewrite app_nil_r in *. split; [done|]. by destruct (Hs1 eq_refl) as [_ ->].
  - rewrite bool_decide_eq_true_2 in E2 by done. apply io_bind_Ok in E2 as (pos & [w3 d3] & E2 & Hret).
    injection Hret as <- <-. apply or_durable_fail_Ok, on_log_Ok in E2 as (w4 & l4 & E2 & [= -> ->]).
    set (H1 := H ++ (out ≫= written)) in *. destruct Hd1 as [D1 D2 D3 D4 D5 D6 D7 D8].
    assert (Hrun : run_call CallSynchronize (w1, d_log d1) = (Ok tt, (w4, l4)))
      by (cbn [run_call]; by rewrite (io_bind_step _ _ _ _ _ E2)).
    assert (Hn : H1 ++ call_records CallSynchronize = H1) by apply app_nil_r.
    split; [split; try done|].
    + rewrite <- Hn. by eapply lived_called.
    + cbn [set_log d_log]. rewrite <- Hn. by eapply called_durable.
Qed.

(** The states of a checkpoint. *)
Lemma checkpoint_states_spec gs : forall q,
  0 <= q -> q + blen gs <= max_u64 ->
  length (checkpoint_states q gs) = length gs /\
  (gp_group_id <$> checkpoint_states q gs) = gs.*1 /\
  forall k p, checkpoint_states q gs !! k = Some p ->
    gp_physical_sequence p = q + 1 + Z.of_nat k /\ exists n, (gp_group_id p, n) ∈ gs /\ gp_state p = state n.
Proof.
  induction gs as [|[g n] gs IH]; intros q H0 Hq; cbn [checkpoint_states]; [done|]. cbn [length] in Hq.
  rewrite wrap_small by width_lia. destruct (IH (q + 1)) as (Hl & Hg & Hp); [lia..|]. cbv zeta.
  split; [cbn [length]; by rewrite Hl|]. split; [rewrite !fmap_cons; by rewrite Hg|].
  intros [|k] p Hk; cbn in Hk.
  - injection Hk as <-. cbn. split; [lia|]. exists n. split; [left|done].
  - destruct (Hp _ _ Hk) as (-> & x & Hx & ->). split; [lia|]. exists x. split; [by right|done].
Qed.

Lemma recorded_same H ps g :
  (forall p, p ∈ ps -> gp_group_id p = g -> gp_state p = recorded H g) -> recorded (H ++ ps) g = recorded H g.
Proof.
  induction ps as [|p ps IH] using rev_ind; intros Hp; [by rewrite app_nil_r|].
  rewrite app_assoc, recorded_snoc. destruct (decide (gp_group_id p = g)) as [Eg|].
  - apply Hp; [|done]. apply elem_of_app. right. left.
  - apply IH. intros q Hq. apply Hp. apply elem_of_app. by left.
Qed.

Lemma checkpoint_groups_ok w d H out w' d' :
  settled w d H -> checkpoint_groups (w, d) = (Ok out, (w', d')) ->
  settled w' d' (H ++ checkpoint_states (blen H) (groups (d_runtime d))).
Proof.
  intros [Hd Hs]. pose proof Hd as [D1 D2 D3 D4 D5 D6 D7 D8]. unfold checkpoint_groups.
  rewrite (io_bind_step get_durable _ (w, d) d (w, d)) by done.
  destruct (durable_failed d); [unfold io_pure, make_unexpected; by destruct (is_ok _)|].
  unfold create_persistence_checkpoint. rewrite D7, D3, Z.gtb_ltb. destruct (bool_decide _); [done|].
  destruct (Z.ltb_spec (max_u64 - blen H) (blen (groups (d_runtime d)))) as [|Hle]; [done|].
  rewrite (io_bind_step _ _ _ tt (w, set_runtime d (set_physical_sequence (d_runtime d)
    (u64 (blen H + blen (groups (d_runtime d))))))), io_bind_step with (a := checkpoint_states (blen H) (groups (d_runtime d)))
    (w1 := (w, set_runtime d (set_physical_sequence (d_runtime d) (u64 (blen H + blen (groups (d_runtime d)))))))
    by done.
  intros E. apply or_durable_fail_Ok, on_log_Ok in E as (w1 & l1 & E & [= -> ->]). cbn [d_log set_runtime] in E.
  rewrite wrap_small by width_lia. set (ps := checkpoint_states _ _) in *.
  destruct (checkpoint_states_spec (groups (d_runtime d)) (blen H)) as (Hlen & _ & Hps); [lia..|]. fold ps in Hlen, Hps.
  assert (Hin : forall p, p ∈ ps -> in_width 64 (gp_physical_sequence p) /\ recoverable node_id lim cfgs p /\
    gp_state p = recorded H (gp_group_id p)).
  { intros p [k Hk]%list_elem_of_lookup. destruct (Hps _ _ Hk) as (Eq & n & Hn & Es).
    apply uuid_lookup_Some in Hn; [|apply (ro_sorted _ _ _ _ D2)]. apply lookup_lt_Some in Hk.
    split; [width_lia|]. split; [by eapply group_recoverable|]. rewrite Es. by apply D4. }
  assert (Hgiven : Forall state_given ps).
  { apply Forall_forall. intros p (Hw & Hr & _)%Hin. by apply recoverable_given. }
  assert (Hrun : run_call (CallCheckpoint ps) (w, d_log d) = (Ok tt, (w1, l1)))
    by (cbn [run_call]; by rewrite (io_bind_step _ _ _ _ _ E)).
  split; [split; cbn [d_runtime d_log d_limits d_failure set_log set_runtime]; try done|].
  - by apply (lived_called _ _ _ _ (CallCheckpoint ps) _ _ D1 Hgiven).
  - apply numbered_runtime_ok; [done|lia].
  - cbn. rewrite length_app, Hlen. lia.
  - intros g n Hn. rewrite recorded_same; [by apply D4|]. intros p Hp <-. by apply Hin.
  - apply Forall_app. split; [done|]. apply Forall_forall. intros p Hp. by apply Hin.
  - by apply (called_durable w (d_log d) H (CallCheckpoint ps) w1).
Qed.

(** ** Creating and reopening *)

(** The configuration a runtime was created with is accepted again. *)
Record accepted : Prop := {
  ac_operations : maximum_batch_operations limits <> 0;
  ac_outbound : maximum_batch_outbound limits <> 0;
  ac_groups : configured_ok node_id lim cfgs }.

Let Hlim : limits_wf (limits_raft lim).
Proof. destruct (storage_bounded_inv _ _ _ Hbounded) as (_ & _ & Hl). apply Hl, Hargs. Qed.

Lemma restored_ok m ps :
  configured_ok node_id lim cfgs -> NoDup (gp_group_id <$> ps) -> Forall (recoverable node_id lim cfgs) ps ->
  Forall (fun p => 0 <= gp_physical_sequence p <= max_u64) ps ->
  restore_runtime node_id bounded cfgs ps = Ok m ->
  runtime_ok cfgs node_id lim m /\ failed_state m = false /\
  (forall x, 0 <= x -> mr_physical_sequence m <= x <-> forall p, p ∈ ps -> gp_physical_sequence p <= x) /\
  forall g n, find_group m g = Some n ->
    (forall p, p ∈ ps -> gp_group_id p = g -> state n = gp_state p) /\
    ((g ∉ (gp_group_id <$> ps)) -> state n = initial_state).
Proof.
  intros Hc Hnd Hr Hq E.
  destruct (restore_runtime_ok node_id lim cfgs (at_node _ _ _ _ Hargs) Hlim (at_voters _ _ _ _ Hargs) bounded ps
    eq_refl Hc Hnd Hr Hq) as (m' & E' & H1 & H2 & H3 & H4).
  rewrite E in E'. by injection E' as <-.
Qed.

Lemma create_durable_ok w0 d w :
  disk_ok (disk w0) -> DurableRuntime.create_new_with node_id config cfgs limits w0 = (Ok d, w) ->
  settled w d [] /\ accepted.
Proof.
  intros Hdisk. unfold DurableRuntime.create_new_with. destruct (_ || _) eqn:Eb; [done|]. bool_prop.
  rewrite Hbounded, (io_bind_step _ _ _ bounded w0) by done.
  intros (m & w1 & Em & E)%io_bind_Ok. unfold io_pure in Em. injection Em as Em <-.
  apply io_bind_Ok in E as (l & w2 & El & Hret). injection Hret as <- <-.
  pose proof (create_runtime_configured node_id lim bounded cfgs m eq_refl Em) as Hc.
  destruct (restored_ok m [] Hc) as (H1 & H2 & H3 & H4); [constructor..|done|].
  pose proof (lived_created config _ _ _ Hdisk El) as Hl. split; [|by split].
  destruct (lived_ok _ _ _ _ (at_config _ _ _ _ Hargs) Hl) as (an & sgs & lg & old & Hlife).
  destruct (life_positions _ _ _ _ _ _ _ _ Hlife) as [_ Hdur]. cbn [length] in Hdur.
  split; [|cbn; lia]. split; try done; cbn [d_runtime new_durable].
  - pose proof (ro_sequence _ _ _ _ H1). cbn [length]. apply Z.le_antisymm; [|lia]. apply H3; [done|].
    by intros p ?%elem_of_nil.
  - intros g n Hn. apply (H4 _ _ Hn). apply not_elem_of_nil.
Qed.

(** The greatest position of the recovered states is the length of the history. *)
Lemma latest_positions H (ps : list GroupPersistentState) q :
  positioned H -> (forall p, p ∈ ps <-> latest_in H p) -> 0 <= q ->
  (forall x, 0 <= x -> q <= x <-> forall p, p ∈ ps -> gp_physical_sequence p <= x) -> q = blen H.
Proof.
  intros Hpos Hps Hq0 Hq. apply Z.le_antisymm.
  - apply Hq; [lia|]. intros p (a & b & -> & _)%Hps. rewrite (Hpos (length a) p) by (by rewrite list_lookup_middle).
    rewrite length_app. cbn [length]. lia.
  - destruct H as [|p H _] using rev_ind; [done|].
    pose proof (proj1 (Hq q Hq0) (Z.le_refl q) p ltac:(apply Hps, latest_in_snoc; by left)) as Hle.
    rewrite (Hpos (length H) p) in Hle by (by rewrite list_lookup_middle). rewrite length_app. cbn [length]. lia.
Qed.

Lemma reopen_durable_ok w d H w1 :
  accepted -> durable_ok w d H -> crash (disk w) (disk w1) -> reliable w1 ->
  exists d2 w2 n,
    DurableRuntime.open_existing_with node_id config true cfgs limits w1 = (Ok d2, w2) /\
    durable_physical_sequence (li_recovered (d_log d)) <= Z.of_nat n <= blen H /\
    settled w2 d2 (take n H) /\ reliable w2.
Proof.
  intros [Ha1 Ha2 Ha3] Hd Hcrash Hr. pose proof Hd as [D1 D2 D3 D4 D5 D6 D7 D8].
  destruct (lived_ok _ _ _ _ (at_config _ _ _ _ Hargs) D1) as (an & sgs & lg & old & Hlife).
  destruct (life_recovers _ _ _ _ _ _ _ _ _ Hlife Hcrash Hr) as (i2 & w2 & n & E & Hn & Hpos & Hdur & Hr2 & Hnd & Hl).
  pose proof (lived_reopened _ _ _ _ _ _ _ D1 Hcrash Hr E) as Hlived. rewrite Hpos, Nat2Z.id in Hlived.
  assert (Hposd : positioned (take n H)) by (destruct Hlife as (_ & _ & _ & Hp & _); by apply positioned_take).
  set (ps := latest_group_states (li_recovered i2)) in *. pose proof (ro_sequence _ _ _ _ D2) as Hseq.
  assert (Hin : forall p, p ∈ ps -> recoverable node_id lim cfgs p /\ 0 <= gp_physical_sequence p <= max_u64).
  { intros p (a & b & Et & _)%Hl. assert (Hk : take n H !! length a = Some p) by (rewrite Et; by apply list_lookup_middle).
    rewrite (Hposd _ _ Hk). apply lookup_take_Some in Hk as [Hk _]. split; [by eapply Forall_lookup_1|].
    apply lookup_lt_Some in Hk. lia. }
  destruct (restore_runtime_ok node_id lim cfgs (at_node _ _ _ _ Hargs) Hlim (at_voters _ _ _ _ Hargs) bounded ps
    eq_refl Ha3 Hnd) as (m & Em & M1 & M2 & M3 & M4); [apply Forall_forall; intros p Hp; by apply Hin..|].
  exists (new_durable m i2 bounded), w2, n. split_and!; try lia; [| |exact Hr2].
  - unfold DurableRuntime.open_existing_with.
    rewrite (proj2 (Z.eqb_neq _ _) Ha1), (proj2 (Z.eqb_neq _ _) Ha2). cbn [orb].
    rewrite Hbounded, (io_bind_step _ _ _ bounded w1) by done. rewrite (io_bind_step _ _ _ _ _ E).
    fold ps. by rewrite Em.
  - assert (Hlen : blen (take n H) = Z.of_nat n) by (rewrite length_take; lia).
    split; [|cbn; lia]. split; try done; cbn [d_runtime new_durable].
    + eapply latest_positions; [done|exact Hl|apply M1|done].
    + intros g x Hx. destruct (M4 _ _ Hx) as [Hknown Hnew].
      destruct (decide (g ∈ (gp_group_id <$> take n H))) as [Hg|Hg].
      * destruct (latest_exists _ _ Hg) as (p & Hp & <-). rewrite (recorded_latest _ _ Hp).
        apply Hknown; [by apply Hl|done].
      * rewrite (recorded_absent _ _ Hg). apply Hnew. intros (p & -> & (a & b & Et & _)%Hl)%list_elem_of_fmap.
        apply Hg. rewrite Et, fmap_app, elem_of_app. right. left.
    + by apply Forall_take.
Qed.
End facts.
