(* ===== verification/DurableGuarantees.v ===== *)
(** What the durable Raft runtime promises: a runtime that is reopened after a crash is
    where its completed batches left it, what a batch releases is on disk, a state of
    a group always fits a segment, and failures stick. *)
From S2P Require Import Prelude Bytes RaftTypes RaftMembership RaftNode RaftFacts RaftInvariant.
From S2P Require Import OrderedMap.
From S2P Require Import PosixIo DiskFacts RaftLogCodec RaftLogRecord RaftLogFiles RaftPersistentLog.
From S2P Require Import RaftLogHistory.
From S2P Require Import RaftLogLive RaftLogLives RaftRestart MultiRaft DurableRuntime MultiRaftFacts.
From S2P Require Import DurableRestore.
From S2P Require Import DurableFacts.
#[local] Open Scope Z_scope.

(** * Lives of a runtime *)

Section durable_lives.
Context {W : Type} {HIO : PosixIo W} {HL : PosixLaws W}.
Context (config : RaftPersistentLogConfig) (node_id : NodeId) (cfgs : list RaftGroupConfiguration).
Context (limits : DurableMultiRaftLimits).

(** [durable_lived w d H]: the runtime [d] in the world [w] came about by creating it
    and then batches and checkpoints that returned, and crashes in which the process
    stopped between batches or between two requests of a batch; [H] are the states
    written and not lost. *)
Inductive durable_lived : W -> Durable -> list GroupPersistentState -> Prop :=
| durable_created w0 w d :
    disk_ok (disk w0) -> DurableRuntime.create_new_with node_id config cfgs limits w0 = (Ok d, w) ->
    durable_lived w d []
| durable_batch w d H rs results w' d' :
    durable_lived w d H -> Forall request_typed rs ->
    execute_batch rs (w, d) = (Ok results, (w', d')) ->
    durable_lived w' d' (H ++ (results ≫= written))
| durable_checkpoint w d H out w' d' :
    durable_lived w d H -> checkpoint_groups (w, d) = (Ok out, (w', d')) ->
    durable_lived w' d' (H ++ checkpoint_states (blen H) (groups (d_runtime d)))
| durable_restarted w d H rs results needs_sync w' d' w1 w2 d2 :
    durable_lived w d H -> Forall request_typed rs ->
    execute_requests rs 0 false (w, d) = (Ok (results, needs_sync), (w', d')) ->
    crash (disk w') (disk w1) -> reliable w1 ->
    DurableRuntime.open_existing_with node_id config true cfgs limits w1 = (Ok d2, w2) ->
    durable_lived w2 d2 (take (Z.to_nat (mr_physical_sequence (d_runtime d2))) (H ++ (results ≫= written))).

Context (Hargs : arguments_typed config node_id cfgs limits).

Lemma durable_lived_ok w d H :
  durable_lived w d H ->
  exists bounded, storage_bounded_limits config limits = Ok bounded /\
    settled config node_id cfgs bounded w d H /\ accepted node_id cfgs limits bounded.
Proof.
  induction 1 as [w0 w d Hd Hc|w d H rs results w' d' _ IH Ht E|w d H out w' d' _ IH E
                 |w d H rs results ns w' d' w1 w2 d2 _ IH Ht E Hcr Hr Ho].
  - destruct (storage_bounded_limits config limits) as [b|s] eqn:Eb.
    + exists b. split; [done|]. by eapply create_durable_ok.
    + revert Hc. unfold DurableRuntime.create_new_with. rewrite Eb. by destruct (_ || _).
  - destruct IH as (b & Eb & Hs & Ha). exists b. split; [done|]. split; [|done]. by eapply execute_batch_ok.
  - destruct IH as (b & Eb & Hs & Ha). exists b. split; [done|]. split; [|done]. by eapply checkpoint_groups_ok.
  - destruct IH as (b & Eb & [Hs _] & Ha). exists b. split; [done|]. split; [|done].
    destruct (execute_requests_ok _ _ _ _ _ Hargs rs _ _ _ _ _ _ _ _ _ Hs Ht E) as [(Hd & _) _].
    destruct (reopen_durable_ok _ _ _ _ _ Hargs Eb _ _ _ _ Ha Hd Hcr Hr) as (d3 & w3 & n & E3 & Hn & Hs3 & _).
    rewrite Ho in E3. injection E3 as <- <-. destruct Hs3 as [Hs3 Hdur]. rewrite (dk_sequence _ _ _ _ _ _ _ Hs3).
    rewrite length_take, Nat.min_l, Nat2Z.id by lia. by split.
Qed.

Lemma settled_state b w d H g :
  settled config node_id cfgs b w d H -> g ∈ (cfg_group_id <$> cfgs) ->
  group_state (d_runtime d) g = Some (recorded H g).
Proof.
  intros [Hd _] Hg. pose proof (dk_runtime _ _ _ _ _ _ _ Hd) as Hm.
  rewrite <- configuration_ids in Hg. apply (ro_keys _ _ _ _ Hm) in Hg.
  unfold group_state. destruct (find_group (d_runtime d) g) as [n|] eqn:En.
  - cbn. f_equal. by apply (dk_states _ _ _ _ _ _ _ Hd).
  - apply uuid_lookup_None in En; [done|]. apply (ro_sorted _ _ _ _ Hm).
Qed.

(** C8. A crash at any point of the life of a durable runtime, also between two
    requests of a batch, loses at most the unfinished batch.  Whatever the crash left
    of the files, reopening returns a runtime; the states it has are those of a
    prefix of what was written that contains every completed batch, and every
    configured group resumes from its last state in that prefix. *)
Theorem durable_restart w d H rs results needs_sync w' d' w1 :
  durable_lived w d H -> Forall request_typed rs ->
  execute_requests rs 0 false (w, d) = (Ok (results, needs_sync), (w', d')) ->
  crash (disk w') (disk w1) -> reliable w1 ->
  exists d2 w2 n,
    DurableRuntime.open_existing_with node_id config true cfgs limits w1 = (Ok d2, w2) /\
    (length H <= n <= length H + length (results ≫= written))%nat /\
    durable_lived w2 d2 (take n (H ++ (results ≫= written))) /\
    forall g, g ∈ (cfg_group_id <$> cfgs) ->
      group_state (d_runtime d2) g = Some (recorded (take n (H ++ (results ≫= written))) g).
Proof.
  intros Hl Ht E Hcr Hr. destruct (durable_lived_ok _ _ _ Hl) as (b & Eb & [Hs Hdur] & Ha).
  destruct (execute_requests_ok _ _ _ _ _ Hargs rs _ _ _ _ _ _ _ _ _ Hs Ht E) as [(Hd & _ & Hmono) _].
  destruct (reopen_durable_ok _ _ _ _ _ Hargs Eb _ _ _ _ Ha Hd Hcr Hr) as (d2 & w2 & n & E2 & Hn & Hs2 & _).
  exists d2, w2, n. rewrite length_app in Hn. split; [done|]. split_and!.
  - lia.
  - lia.
  - pose proof (durable_restarted _ _ _ _ _ _ _ _ _ _ _ Hl Ht E Hcr Hr E2) as Hl2.
    destruct Hs2 as [Hs2 _]. rewrite (dk_sequence _ _ _ _ _ _ _ Hs2), length_take, length_app, Nat.min_l, Nat2Z.id in Hl2 by lia.
    done.
  - intros g Hg. by eapply settled_state.
Qed.

(** Nothing is lost when no batch is under way. *)
Lemma settled_restarts b w d H w1 :
  storage_bounded_limits config limits = Ok b -> settled config node_id cfgs b w d H ->
  accepted node_id cfgs limits b -> crash (disk w) (disk w1) -> reliable w1 ->
  exists d2 w2, DurableRuntime.open_existing_with node_id config true cfgs limits w1 = (Ok d2, w2) /\
    settled config node_id cfgs b w2 d2 H.
Proof.
  intros Eb [Hd Hdur] Ha Hcr Hr.
  destruct (reopen_durable_ok _ _ _ _ _ Hargs Eb _ _ _ _ Ha Hd Hcr Hr) as (d2 & w2 & n & E2 & Hn & Hs2 & _).
  exists d2, w2. split; [done|]. by rewrite firstn_all2 in Hs2 by lia.
Qed.
Lemma settled_same_states b w d H w2 d2 :
  settled config node_id cfgs b w d H -> settled config node_id cfgs b w2 d2 H ->
  same_states (d_runtime d) (d_runtime d2).
Proof.
  intros Hs Hs2 g. destruct (decide (g ∈ (cfg_group_id <$> cfgs))) as [Hg|Hg].
  - by rewrite (settled_state _ _ _ _ _ Hs Hg), (settled_state _ _ _ _ _ Hs2 Hg).
  - rewrite <- configuration_ids in Hg.
    assert (Hnone : forall w d, settled config node_id cfgs b w d H -> group_state (d_runtime d) g = None).
    { intros w' d' [Hd _]. pose proof (dk_runtime _ _ _ _ _ _ _ Hd) as Hm. unfold group_state.
      rewrite <- (ro_keys _ _ _ _ Hm) in Hg. apply uuid_lookup_None in Hg; [|apply (ro_sorted _ _ _ _ Hm)].
      unfold find_group. by rewrite Hg. }
    by rewrite (Hnone _ _ Hs), (Hnone _ _ Hs2).
Qed.

(** C9. What a batch releases is on disk.  When a batch has returned, so that its
    messages may be sent, every state its transitions reported is durable, the
    numbers of the runtime and of the log agree, and a crash from then on changes no
    group: reopening returns a runtime in which every group has the state, and the
    runtime the sequence, it had when the messages were released. *)
Theorem durable_release w d H rs results w' d' :
  durable_lived w d H -> Forall request_typed rs -> execute_batch rs (w, d) = (Ok results, (w', d')) ->
  (forall r t p, r ∈ results -> dres_transition r = Some t -> mt_persistence t = Some p ->
     gp_physical_sequence p <= durable_physical_sequence (li_recovered (d_log d'))) /\
  rp_physical_sequence (rr_written_position (li_recovered (d_log d'))) =
    durable_physical_sequence (li_recovered (d_log d')) /\
  mr_physical_sequence (d_runtime d') = durable_physical_sequence (li_recovered (d_log d')) /\
  forall w1, crash (disk w') (disk w1) -> reliable w1 ->
    exists d2 w2, DurableRuntime.open_existing_with node_id config true cfgs limits w1 = (Ok d2, w2) /\
      same_states (d_runtime d') (d_runtime d2) /\
      mr_physical_sequence (d_runtime d2) = mr_physical_sequence (d_runtime d').
Proof.
  intros Hl Ht E. destruct (durable_lived_ok _ _ _ Hl) as (b & Eb & Hs & Ha).
  pose proof (execute_batch_ok _ _ _ _ _ Hargs _ _ _ _ _ _ _ Hs Ht E) as Hs'.
  set (H' := H ++ (results ≫= written)) in *. pose proof Hs' as [Hd Hdur].
  pose proof (dk_sequence _ _ _ _ _ _ _ Hd) as Hseq.
  destruct (lived_ok _ _ _ _ (at_config _ _ _ _ Hargs) (dk_log _ _ _ _ _ _ _ Hd)) as (an & sgs & lg & old & Hlife).
  destruct (life_positions _ _ _ _ _ _ _ _ Hlife) as [Hpos _]. split_and!; [|congruence|congruence|].
  - intros r t p Hr Hrt Hp. rewrite Hdur. destruct Hlife as (_ & _ & _ & Hposd & _).
    assert (Hin : p ∈ H').
    { unfold H'. apply elem_of_app. right. apply list_elem_of_bind. exists r. split; [|done].
      unfold written. rewrite Hrt, Hp. left. }
    apply list_elem_of_lookup in Hin as [k Hk]. rewrite (Hposd _ _ Hk). apply lookup_lt_Some in Hk. lia.
  - intros w1 Hcr Hrel. destruct (settled_restarts _ _ _ _ _ Eb Hs' Ha Hcr Hrel) as (d2 & w2 & E2 & Hs2).
    exists d2, w2. split; [done|]. split; [by eapply settled_same_states|].
    destruct Hs2 as [Hd2 _]. by rewrite (dk_sequence _ _ _ _ _ _ _ Hd2).
Qed.

(** C10. A quorum receipt survives a crash.  When a leader has proved that an entry is
    committed and synchronised, then after any crash the runtime reopens, and in it
    the group has the term of the receipt, has still committed the entry and still
    finds the entry with the term of the receipt. *)
Theorem quorum_receipt_survives w d H g index receipt w1 :
  durable_lived w d H -> prove_quorum_sync d g index = Ok receipt ->
  crash (disk w) (disk w1) -> reliable w1 ->
  exists d2 w2 n, DurableRuntime.open_existing_with node_id config true cfgs limits w1 = (Ok d2, w2) /\
    find_group (d_runtime d2) g = Some n /\ current_term (state n) = qs_leader_term receipt /\
    index <= commit_index (state n) /\ committed_entry_term (state n) index = Ok (qs_entry_term receipt) /\
    qs_local_durable_physical_sequence receipt = blen H /\ 1 <= blen H.
Proof.
  intros Hl Hq Hcr Hrel. destruct (durable_lived_ok _ _ _ Hl) as (b & Eb & Hs & Ha).
  unfold prove_quorum_sync in Hq. destruct (durable_failed d); [unfold make_unexpected in Hq; by destruct (is_ok _)|].
  destruct (find_group (d_runtime d) g) as [n|] eqn:En; [|done]. destruct (negb _); [done|].
  rewrite Z.gtb_ltb in Hq. destruct (_ || _) eqn:Ei in Hq; [done|]. bool_prop.
  apply rbind_Ok in Hq as (t & Et & Hq). destruct (_ || _) eqn:Ez in Hq; [done|]. bool_prop. injection Hq as <-. cbn.
  destruct (settled_restarts _ _ _ _ _ Eb Hs Ha Hcr Hrel) as (d2 & w2 & E2 & Hs2).
  pose proof (settled_same_states _ _ _ _ _ _ Hs Hs2 g) as Hsame. unfold group_state in Hsame. rewrite En in Hsame.
  destruct (find_group (d_runtime d2) g) as [n2|] eqn:En2; [|done]. injection Hsame as Esame.
  destruct Hs as [_ Hdur]. exists d2, w2, n2. rewrite Esame. split_and!; try done; lia.
Qed.

(** C20. A group can always persist.  The limits a durable runtime derives from the
    segment size of its log bound the state of every group, so that its record always
    encodes and fits an empty segment of the log; [append] never refuses a state for
    its size. *)
Theorem durable_state_fits w d H g n sequence :
  durable_lived w d H -> find_group (d_runtime d) g = Some n -> 1 <= sequence <= max_u64 ->
  exists bytes, encode_multiplexed_log_record_v1
      {| gp_group_id := g; gp_physical_sequence := sequence; gp_state := state n |} = Ok bytes /\
    blen bytes + kRaftSegmentHeaderSize <= rc_target_segment_size config.
Proof.
  intros Hl Hn Hseq. destruct (durable_lived_ok _ _ _ Hl) as (b & Eb & [Hd _] & Ha).
  destruct (storage_bounded_inv _ _ _ Eb) as ((_ & Hmax) & Hsize & _).
  destruct (ro_groups _ _ _ _ (dk_runtime _ _ _ _ _ _ _ Hd) _ _ Hn) as [Hi (vs & (c & Hc & -> & _)%configuration_elem & Hr) _ Hlim].
  destruct (node_state_size _ _ Hi Hr) as [Hs Hs']. rewrite Hlim in Hs, Hs'. change kPhysicalFraming with 132 in Hsize.
  pose proof (co_named _ _ _ (ac_groups _ _ _ _ Ha)) as Hnil. pose proof (at_groups _ _ _ _ Hargs) as H16.
  rewrite Forall_forall in Hnil, H16.
  assert (Hok : record_ok 1 {| gp_group_id := cfg_group_id c; gp_physical_sequence := sequence; gp_state := state n |}).
  { split_and!; cbn; [by apply H16|by apply Hnil|width_lia|lia|by eapply restartable_typed| |].
    - left. split; [done|]. by eapply restartable_voter_count.
    - unfold kMaximumRaftPersistentStatePayloadSize, kMaximumMultiplexedLogRecordSize in *. lia. }
  eexists. split; [by apply encode_record_exact|]. rewrite length_log_record_bytes by done. cbn.
  unfold kRaftSegmentHeaderSize. lia.
Qed.
End durable_lives.

(** * Failures *)

(** The calls of a runtime that write. *)
Inductive DurableCall :=
| CallBatch (requests : list DurableRaftRequest)
| CallGroupCheckpoint.

Section durable_failures.
Context {W : Type} {HIO : PosixIo W} {HL : PosixLaws W}.

Definition run_durable (c : DurableCall) : IO (W * Durable) unit :=
  match c with
  | CallBatch rs => do* execute_batch rs; io_ret tt
  | CallGroupCheckpoint => do* checkpoint_groups; io_ret tt
  end.

(** A runtime that refuses every call. *)
Definition stopped (d : Durable) : Prop := d_failure d <> kOk \/ failed_state (d_runtime d) = true.

(** A computation whose failure sticks. *)
Definition sticks {A} (c : IO (W * Durable) A) : Prop :=
  forall wd, wp c wd (fun _ _ => True) (fun s wd' => d_failure wd'.2 = s).

Lemma sticks_fail {A} s : s <> kOk -> sticks (durable_fail (A := A) s).
Proof.
  intros Hs [w d]. unfold wp, durable_fail, make_unexpected. cbn [fst snd].
  destruct (is_ok (d_failure d)) eqn:E; cbn [set_durable_failure d_failure].
  - assert (Eo : is_ok s = false) by (by apply bool_decide_eq_false). by rewrite Eo.
  - rewrite E. apply bool_decide_eq_false in E. done.
Qed.
Lemma sticks_ret {A} (a : A) : sticks (io_ret a).
Proof. intros wd. by apply wp_ret. Qed.
Lemma sticks_bind {A B} (c : IO (W * Durable) A) (k : A -> IO (W * Durable) B) :
  sticks c -> (forall a, sticks (k a)) -> sticks (io_bind c k).
Proof. intros Hc Hk wd. apply wp_bind. eapply wp_mono; [apply Hc| |done]. intros a wd' _. apply Hk. Qed.
Lemma sticks_or_fail {A} (c : IO (W * Durable) A) : errs c -> sticks (or_durable_fail c).
Proof.
  intros Hc wd. specialize (Hc wd). unfold wp, or_durable_fail in *. destruct (c wd) as [[a|s] wd']; [done|].
  apply (sticks_fail (A := A) s (proj1 Hc) wd').
Qed.
Lemma sticks_get : sticks get_durable.
Proof. by intros [w d]. Qed.
Lemma sticks_put d : sticks (put_durable d).
Proof. by intros [w d']. Qed.
Lemma errs_on_log {A} (c : IO (W * LogImpl) A) : errs c -> errs (on_log c).
Proof.
  intros Hc [w d]. specialize (Hc (w, d_log d)). unfold wp, on_log in *. cbn [fst snd].
  by destruct (c (w, d_log d)) as [[a|s] [w' l']].
Qed.

Lemma dispatch_error g op m s m' : dispatch g op m = (Err s, m') -> s <> kOk.
Proof.
  assert (Hcall : forall f, call_group g f m = (Err s, m') -> s <> kOk).
  { intros f. unfold call_group, transition_group, wrap_transition.
    assert (Hu : forall x m0, (@make_unexpected MultiRaftTransition x, m0) = (Err s, m') -> s <> kOk).
    { intros x m0. destruct (@make_unexpected_not_ok MultiRaftTransition x) as (y & -> & Hy). by intros [= <- _]. }
    destruct (failed_state m); [apply Hu|]. destruct (find_group m g) as [n|]; [|apply Hu].
    destruct (_ =? _); [apply Hu|]. destruct (f n) as [[t|x] n']; [|apply Hu].
    destruct (_ >? _); [by intros [= <- _]|]. destruct (find_group _ _); [|by intros [= <- _]].
    destruct (persistent_state t); [|done]. destruct (_ =? _); [by intros [= <- _]|done]. }
  destruct op; cbn [dispatch]; try apply Hcall. by intros [= <- _].
Qed.

Lemma execute_request_sticks r oc ns : sticks (execute_request r oc ns).
Proof.
  unfold execute_request. apply sticks_bind; [apply sticks_get|]. intros d.
  destruct (leader_term_refused _ _); [apply sticks_ret|].
  assert (Ht : sticks (execute_transition d r oc ns)).
  { unfold execute_transition. destruct (dispatch _ _ _) as [t m] eqn:E.
    apply sticks_bind; [apply sticks_put|]. intros _. destruct t as [t|s].
    - destruct (_ >? _); [by apply sticks_fail|]. destruct (mt_persistence t); [|apply sticks_ret].
      apply sticks_bind; [apply sticks_or_fail, errs_on_log, fails_clean_errs, append_fails_clean|].
      intros _. apply sticks_ret.
    - destruct (failed_state m); [|apply sticks_ret]. eapply sticks_fail, dispatch_error, E. }
  destruct (dr_operation r); first [exact Ht|apply sticks_ret].
Qed.
Lemma execute_requests_sticks rs : forall oc ns, sticks (execute_requests rs oc ns).
Proof.
  induction rs as [|r rs IH]; intros oc ns; cbn [execute_requests]; [apply sticks_ret|].
  apply sticks_bind; [apply execute_request_sticks|]. intros [[res oc'] ns'].
  apply sticks_bind; [apply IH|]. intros [results ns'']. apply sticks_ret.
Qed.

(** A call that fails changed nothing or stops the runtime. *)
Definition stops {A} (c : IO (W * Durable) A) : Prop :=
  forall wd, wp c wd (fun _ _ => True) (fun _ wd' => wd' = wd \/ stopped wd'.2).
Lemma sticks_stops {A} (c : IO (W * Durable) A) : sticks c -> stops c.
Proof.
  intros Hc wd. specialize (Hc wd). unfold wp in *. destruct (c wd) as [[a|s] wd']; [done|].
  destruct Hc as [Hs Ef]. split; [done|]. right. left. congruence.
Qed.

Lemma execute_batch_stops rs : stops (execute_batch rs).
Proof.
  intros [w d]. unfold execute_batch. apply wp_bind. change (wp get_durable (w, d) ?Q ?E) with (Q d (w, d)).
  cbv beta. apply wp_bind, wp_check; [|by left]. intros Hf.
  destruct (failed_state (d_runtime d)); [by apply sticks_stops, sticks_fail|].
  destruct (_ || _); [by apply wp_fail; [|left]|]. apply wp_bind, wp_check; [|by left]. intros _.
  apply (sticks_stops (let* (results, needs_sync) := execute_requests rs 0 false in
    do* (if needs_sync then do* or_durable_fail (on_log synchronize); io_ret tt else io_ret tt);
    io_ret results)).
  apply sticks_bind; [apply execute_requests_sticks|]. intros [results ns].
  apply sticks_bind; [|intros _; apply sticks_ret]. destruct ns; [|apply sticks_ret].
  apply sticks_bind; [|intros _; apply sticks_ret].
  apply sticks_or_fail, errs_on_log, fails_clean_errs, synchronize_fails_clean.
Qed.
Lemma set_runtime_same d : set_runtime d (d_runtime d) = d.
Proof. by destruct d. Qed.
Lemma checkpoint_groups_stops : stops checkpoint_groups.
Proof.
  intros [w d]. unfold checkpoint_groups. apply wp_bind. change (wp get_durable (w, d) ?Q ?E) with (Q d (w, d)). cbv beta.
  destruct (durable_failed d).
  { apply wp_pure. destruct (@make_unexpected_not_ok RaftPersistentLogReclamation (failure_status d)) as (s & -> & Hs).
    split; [done|by left]. }
  unfold create_persistence_checkpoint.
  destruct (failed_state (d_runtime d)) eqn:Ef; [by split; [|right; right]|].
  destruct (bool_decide _); [split; [done|left; cbn; by rewrite set_runtime_same]|].
  destruct (_ >? _); [by split; [|right; right]|].
  apply (sticks_stops (A := RaftPersistentLogReclamation)). apply sticks_bind; [apply sticks_put|]. intros _.
  apply sticks_bind; [by intros wd|]. intros ps.
  apply sticks_or_fail, errs_on_log, fails_clean_errs, checkpoint_fails_clean.
Qed.

Lemma not_ok_unexpected {A} s : s <> kOk -> @make_unexpected A s = Err s.
Proof. intros Hs. unfold make_unexpected, is_ok. by rewrite bool_decide_eq_false_2. Qed.

Lemma stopped_failed d : stopped d -> durable_failed d = true /\ failure_status d <> kOk.
Proof.
  unfold durable_failed, failure_status. destruct (is_ok (d_failure d)) eqn:E; cbn [negb orb].
  - apply bool_decide_eq_true in E. intros [Hf|Hf]; [done|rewrite Hf]. split; [done|].
    destruct (is_ok (li_failure (d_log d))) eqn:El; cbn [negb]; [done|]. by apply bool_decide_eq_false in El.
  - apply bool_decide_eq_false in E. done.
Qed.

(** A stopped runtime refuses every call and writes nothing. *)
Lemma stopped_refuses d c (w : W) :
  stopped d -> exists s d', run_durable c (w, d) = (Err s, (w, d')) /\ s <> kOk /\ d_log d' = d_log d /\ stopped d'.
Proof.
  intros Hd. destruct (stopped_failed _ Hd) as [Hf Hs]. destruct c as [rs|]; cbn [run_durable].
  - unfold execute_batch, io_bind at 1 2. cbn [get_durable snd]. unfold io_bind at 1, io_check.
    destruct (is_ok (d_failure d)) eqn:E.
    + apply bool_decide_eq_true in E. destruct Hd as [|Hm]; [done|]. rewrite Hm. unfold durable_fail. cbn [snd].
      rewrite E. exists kUnavailable, (set_durable_failure d kUnavailable). split_and!; try done. by left.
    + apply bool_decide_eq_false in E. rewrite !not_ok_unexpected by done. exists (d_failure d), d. done.
  - unfold checkpoint_groups, io_bind at 1 2. cbn [get_durable snd]. rewrite Hf. unfold io_pure.
    rewrite !not_ok_unexpected by done. exists (failure_status d), d. done.
Qed.

(** C27. Failures stick.  A batch or a checkpoint that fails changed nothing, neither in
    memory nor on disk, or it stops the runtime.  A stopped runtime refuses every
    further batch and checkpoint without touching the disk, observes no group and
    issues no quorum receipt. *)
Theorem durable_failure_sticks c (w : W) d s w' d' :
  run_durable c (w, d) = (Err s, (w', d')) ->
  s <> kOk /\ ((w', d') = (w, d) \/ stopped d') /\
  (stopped d' ->
     (forall c' w2, exists s' d2, run_durable c' (w2, d') = (Err s', (w2, d2)) /\ s' <> kOk /\
        d_log d2 = d_log d' /\ stopped d2) /\
     (forall g, exists s', observe_group d' g = Err s') /\
     (forall g index, exists s', prove_quorum_sync d' g index = Err s')).
Proof.
  intros E. assert (Hstops : stops (run_durable c)).
  { destruct c; intros wd; cbn [run_durable]; apply wp_bind;
      (eapply wp_mono; [first [apply execute_batch_stops|apply checkpoint_groups_stops]
                       |intros ? ? _; by apply wp_ret|auto]). }
  specialize (Hstops (w, d)). unfold wp in Hstops. rewrite E in Hstops. destruct Hstops as [Hs Hor].
  split; [done|]. split; [done|]. intros Hst. split_and!.
  - intros c' w2. by apply stopped_refuses.
  - intros g. unfold observe_group, check. destruct (is_ok (d_failure d')) eqn:Ef.
    + apply bool_decide_eq_true in Ef. destruct Hst as [|Hm]; [done|]. rewrite Hm. by exists kUnavailable.
    + apply bool_decide_eq_false in Ef. rewrite not_ok_unexpected by done. eauto.
  - intros g index. unfold prove_quorum_sync. destruct (stopped_failed _ Hst) as [-> Hne].
    rewrite not_ok_unexpected by done. eauto.
Qed.
End durable_failures.

(** * A runtime in memory *)

Definition sample_durable_config : RaftPersistentLogConfig :=
  {| rc_directory_path := chars "raft"; rc_file_permissions := 384; rc_target_segment_size := 512;
     rc_maximum_segments := 16; rc_maximum_records := 64; rc_maximum_groups := 16 |}.
Definition sample_limits : DurableMultiRaftLimits :=
  {| maximum_batch_operations := 8; maximum_batch_outbound := 64;
     limits_runtime := {| maximum_groups := 4; maximum_queued_outbound := 8;
       limits_raft := {| maximum_voters := 3; maximum_log_entries := 8; maximum_entry_bytes := 32;
         maximum_append_entries := 4; maximum_persistent_state_bytes := 4096 |} |} |}.
(** One group the node leads alone, and one with another voter. *)
Definition sample_groups : list RaftGroupConfiguration :=
  [{| cfg_group_id := replicate 16 x01; cfg_voters := [1] |};
   {| cfg_group_id := replicate 16 x02; cfg_voters := [1; 2] |}].
Definition sample_request (g : byte) (op : DurableRaftOperation) : DurableRaftRequest :=
  {| dr_group_id := replicate 16 g; dr_operation := op; dr_required_leader_term := None |}.
Definition sample_batch : list DurableRaftRequest :=
  [sample_request x01 StartElectionOperation; sample_request x02 StartElectionOperation;
   sample_request x01 ObserveGroupOperation; sample_request x01 CommitCurrentTermOperation].
Definition sample_proposal : list DurableRaftRequest :=
  [sample_request x01 (ProposeOperation 3 [x07]); sample_request x02 HeartbeatOperation].
Definition sample_start : option (Memory * Durable) :=
  match DurableRuntime.create_new_with 1 sample_durable_config sample_groups sample_limits
          (on_memory empty_disk) with
  | (Ok d, w) => Some (w, d)
  | (Err _, _) => None
  end.
Definition sample_durable : option (Memory * Durable) :=
  match sample_start with
  | Some (w, d) =>
      match execute_batch sample_batch (w, d) with
      | (Ok _, (w, d)) => Some (w, d)
      | (Err _, _) => None
      end
  | None => None
  end.

Lemma sample_arguments : arguments_typed sample_durable_config 1 sample_groups sample_limits.
Proof.
  split; [unfold config_typed, in_width; cbn; lia|unfold in_width; lia|unfold limits_wf; cbn; lia| |].
  - repeat constructor; unfold in_width; lia.
  - by repeat constructor.
Qed.
Lemma sample_batch_typed : Forall request_typed sample_batch /\ Forall request_typed sample_proposal.
Proof. repeat constructor; cbn; unfold in_width; lia. Qed.

Lemma sample_durable_lived (check : Memory -> Durable -> bool) :
  match sample_durable with Some (w, d) => check w d | None => false end = true ->
  exists (w : Memory) d H,
    durable_lived sample_durable_config 1 sample_groups sample_limits w d H /\ check w d = true.
Proof.
  unfold sample_durable. destruct sample_start as [[w0 d0]|] eqn:Es; [|discriminate].
  destruct (execute_batch sample_batch (w0, d0)) as [[results|] [w d]] eqn:Eb; [|discriminate].
  intros Hcheck. unfold sample_start in Es.
  destruct (DurableRuntime.create_new_with _ _ _ _ _) as [[d1|] w1] eqn:Hc; [|discriminate]. injection Es as <- <-.
  exists w, d. eexists. split; [|exact Hcheck]. eapply durable_batch; [| |exact Eb].
  - eapply durable_created; [|exact Hc]. exact empty_disk_ok.
  - apply sample_batch_typed.
Qed.
(** The crash that cuts the active segment. *)
Definition sample_crash (w : Memory) (d : Durable) (size : Z) : Memory :=
  on_memory (truncate_disk (li_active_file (d_log d)) size (mem_disk w)).
Definition sample_synced (w : Memory) (d : Durable) (size : Z) : bool :=
  match d_synced (mem_disk w) !! li_active_file (d_log d) with Some bs => blen bs <=? size | None => false end.
Lemma sample_crashes w d size :
  0 <= size -> sample_synced w d size = true -> crash (disk w) (disk (sample_crash w d size)).
Proof.
  intros H0 H. apply crash_cut; [done|]. intros synced Es. unfold sample_synced in H.
  change (disk w) with (mem_disk w) in Es. rewrite Es in H. by apply Z.leb_le.
Qed.

Lemma durable_restart_witness :
  exists (w1 w2 : Memory) d2,
    DurableRuntime.open_existing_with 1 sample_durable_config true sample_groups sample_limits w1 = (Ok d2, w2) /\
    exists s, group_state (d_runtime d2) (replicate 16 x02) = Some s.
Proof.
  destruct (sample_durable_lived (fun w d =>
    match execute_requests sample_proposal 0 false (w, d) with
    | (Ok _, (w, d)) => sample_synced w d 100 | (Err _, _) => false end))
    as (w & d & H & Hl & Hc); [vm_compute; reflexivity|].
  destruct (execute_requests _ _ _ _) as [[[results ns]|] [w' d']] eqn:E; [|discriminate].
  destruct (@durable_restart Memory Memory_PosixIo Memory_laws _ _ _ _ sample_arguments w d H sample_proposal results ns w' d'
    (sample_crash w' d' 100) Hl) as (d2 & w2 & n & E2 & _ & _ & Hs).
  - apply sample_batch_typed.
  - exact E.
  - by apply sample_crashes.
  - reflexivity.
  - eexists _, w2, d2. split; [exact E2|]. eexists. apply Hs. cbn. right. left.
Defined.

Lemma durable_release_witness :
  exists (w1 w2 : Memory) d d2,
    DurableRuntime.open_existing_with 1 sample_durable_config true sample_groups sample_limits w1 = (Ok d2, w2) /\
    same_states (d_runtime d) (d_runtime d2).
Proof.
  destruct (sample_durable_lived (fun w d =>
    match execute_batch sample_proposal (w, d) with
    | (Ok _, (w, d)) => sample_synced w d 400 | (Err _, _) => false end))
    as (w & d & H & Hl & Hc); [vm_compute; reflexivity|].
  destruct (execute_batch _ _) as [[results|] [w' d']] eqn:E; [|discriminate].
  destruct (@durable_release Memory Memory_PosixIo Memory_laws _ _ _ _ sample_arguments w d H sample_proposal
    results w' d' Hl (proj2 sample_batch_typed) E) as (_ & _ & _ & Hcrash).
  destruct (Hcrash (sample_crash w' d' 400)) as (d2 & w2 & E2 & Hs & _).
  - by apply sample_crashes.
  - reflexivity.
  - exists (sample_crash w' d' 400), w2, d', d2. by split.
Defined.

Lemma quorum_receipt_survives_witness :
  exists (w1 w2 : Memory) d2 n,
    DurableRuntime.open_existing_with 1 sample_durable_config true sample_groups sample_limits w1 = (Ok d2, w2) /\
    find_group (d_runtime d2) (replicate 16 x01) = Some n /\ 1 <= commit_index (state n).
Proof.
  destruct (sample_durable_lived (fun w d =>
    match prove_quorum_sync d (replicate 16 x01) 1 with
    | Ok _ => sample_synced w d 500 | Err _ => false end))
    as (w & d & H & Hl & Hc); [vm_compute; reflexivity|].
  destruct (prove_quorum_sync _ _ _) as [receipt|] eqn:E; [|discriminate].
  destruct (@quorum_receipt_survives Memory Memory_PosixIo Memory_laws _ _ _ _ sample_arguments w d H _ 1 receipt
    (sample_crash w d 500) Hl E) as (d2 & w2 & n & E2 & En & _ & Hi & _).
  - by apply sample_crashes.
  - reflexivity.
  - exists (sample_crash w d 500), w2, d2, n. done.
Defined.

Lemma durable_state_fits_witness :
  exists s bytes, encode_multiplexed_log_record_v1
      {| gp_group_id := replicate 16 x01; gp_physical_sequence := 9; gp_state := s |} = Ok bytes /\
    blen bytes + kRaftSegmentHeaderSize <= 512.
Proof.
  destruct (sample_durable_lived (fun w d =>
    match find_group (d_runtime d) (replicate 16 x01) with Some n => commit_index (state n) =? 1 | None => false end))
    as (w & d & H & Hl & Hc); [vm_compute; reflexivity|].
  destruct (find_group _ _) as [n|] eqn:E; [|discriminate].
  destruct (@durable_state_fits Memory Memory_PosixIo Memory_laws _ _ _ _ sample_arguments w d H _ n 9 Hl E)
    as (bytes & Eb & Hb); [lia|]. exists (state n), bytes. by split.
Defined.

Lemma durable_failure_sticks_witness :
  exists (w : Memory) d s, s <> kOk /\ stopped d /\
    exists s' d', run_durable CallGroupCheckpoint (w, d) = (Err s', (w, d')).
Proof.
  destruct (sample_durable_lived (fun w d =>
    match run_durable (CallBatch sample_proposal)
            ({| mem_disk := mem_disk w; mem_faults := [Some (kIoError, 10%nat)] |}, d) with
    | (Err s, (_, d')) => negb (is_ok (d_failure d')) | (Ok _, _) => false end))
    as (w & d & H & Hl & Hc); [vm_compute; reflexivity|].
  destruct (run_durable _ _) as [[|s] [w' d']] eqn:E; [discriminate|].
  assert (Hst : stopped d') by (left; intros Ed; rewrite Ed in Hc; discriminate).
  destruct (@durable_failure_sticks Memory Memory_PosixIo Memory_laws _ _ d s w' d' E) as (Hs & _ & Hall).
  exists w', d', s. split; [exact Hs|]. split; [exact Hst|].
  destruct (Hall Hst) as [Hrefuse _]. destruct (Hrefuse CallGroupCheckpoint w') as (s' & d2 & E2 & _). eauto.
Defined.
