(* ===== verification/Schema.v ===== *)
(** Table schemas: include/chronos/schema and src/schema, that is identities, logical
    types, UTF-8 names, columns, the schema of a table, and the lineage of its versions.

    An identity is the sixteen bytes of its UUID, which [Identifier::from_uuid] refuses
    to be zero; a string is its bytes.  A shared pointer to an immutable schema is the
    schema. *)
From S2P Require Import Prelude Bytes RaftTypes.
#[local] Open Scope Z_scope.

(** * Identities: identity.hpp and identity.cpp *)

Abbreviation TableId := (list byte) (only parsing).
Abbreviation ColumnId := (list byte) (only parsing).
Abbreviation SchemaId := (list byte) (only parsing).
Abbreviation TabletId := (list byte) (only parsing).

Definition from_uuid (value : list byte) : result (list byte) :=
  fail_if is_nil value with kInvalidArgument; Ok value.

(** A [SchemaVersion] is its value. *)
Definition version_from_value (value : Z) : result Z :=
  fail_if value =? 0 with kInvalidArgument; Ok value.
Definition initial_version : Z := 1.
Definition next_version (value : Z) : result Z :=
  fail_if value =? max_u64 with kOutOfRange; Ok (value + 1).

(** * Logical types: logical_type.hpp and logical_type.cpp *)

Inductive LogicalTypeKind :=
| kBool | kInt8 | kInt16 | kInt32 | kInt64 | kUInt8 | kUInt16 | kUInt32 | kUInt64
| kFloat32 | kFloat64 | kDecimal | kTimestampNs | kDate | kSymbol | kString | kBinary | kUuid.
#[export] Instance LogicalTypeKind_eq_dec : EqDecision LogicalTypeKind.
Proof. solve_decision. Defined.

Definition all_kinds : list LogicalTypeKind :=
  [kBool; kInt8; kInt16; kInt32; kInt64; kUInt8; kUInt16; kUInt32; kUInt64;
   kFloat32; kFloat64; kDecimal; kTimestampNs; kDate; kSymbol; kString; kBinary; kUuid].
(** The value of the enumerator. *)
Definition kind_code (kind : LogicalTypeKind) : Z :=
  match kind with
  | kBool => 1 | kInt8 => 2 | kInt16 => 3 | kInt32 => 4 | kInt64 => 5 | kUInt8 => 6 | kUInt16 => 7
  | kUInt32 => 8 | kUInt64 => 9 | kFloat32 => 10 | kFloat64 => 11 | kDecimal => 12
  | kTimestampNs => 13 | kDate => 14 | kSymbol => 15 | kString => 16 | kBinary => 17 | kUuid => 18
  end.
Definition logical_type_kind_from_code (code : Z) : result LogicalTypeKind :=
  fail_if (code <? kind_code kBool) || (code >? kind_code kUuid) with kNotSupported;
  match nth_error all_kinds (Z.to_nat (code - 1)) with
  | Some kind => Ok kind
  | None => Err kNotSupported
  end.

Record LogicalType := { type_kind : LogicalTypeKind; parameter_0 : Z; parameter_1 : Z }.
#[export] Instance LogicalType_eq_dec : EqDecision LogicalType.
Proof. solve_decision. Defined.

Definition LogicalType_create (kind : LogicalTypeKind) (p0 p1 : Z) : result LogicalType :=
  if bool_decide (kind = kDecimal) then
    fail_if (p0 =? 0) || (p0 >? 38) with kInvalidArgument;
    fail_if p1 >? p0 with kInvalidArgument;
    Ok {| type_kind := kind; parameter_0 := p0; parameter_1 := p1 |}
  else
    fail_if negb (p0 =? 0) || negb (p1 =? 0) with kInvalidArgument;
    Ok {| type_kind := kind; parameter_0 := 0; parameter_1 := 0 |}.

(** * utf8.cpp *)

Definition is_continuation (value : Z) : bool := (value >=? 128) && (value <=? 191).

(** The loop of [is_valid_utf8]: each round consumes the bytes of one character. *)
Fixpoint is_valid_utf8 (value : list byte) : bool :=
  match value with
  | [] => true
  | b0 :: rest0 =>
      let first := byte_to_Z b0 in
      if first <=? 127 then is_valid_utf8 rest0
      else if (first >=? 194) && (first <=? 223) then
        match rest0 with
        | b1 :: rest1 => if negb (is_continuation (byte_to_Z b1)) then false else is_valid_utf8 rest1
        | [] => false
        end
      else if (first >=? 224) && (first <=? 239) then
        match rest0 with
        | b1 :: b2 :: rest2 =>
            let second := byte_to_Z b1 in
            let valid_second := is_continuation second && (negb (first =? 224) || (second >=? 160))
                                && (negb (first =? 237) || (second <=? 159)) in
            if negb valid_second || negb (is_continuation (byte_to_Z b2)) then false
            else is_valid_utf8 rest2
        | _ => false
        end
      else if (first >=? 240) && (first <=? 244) then
        match rest0 with
        | b1 :: b2 :: b3 :: rest3 =>
            let second := byte_to_Z b1 in
            let valid_second := is_continuation second && (negb (first =? 240) || (second >=? 144))
                                && (negb (first =? 244) || (second <=? 143)) in
            if negb valid_second || negb (is_continuation (byte_to_Z b2))
               || negb (is_continuation (byte_to_Z b3)) then false
            else is_valid_utf8 rest3
        | _ => false
        end
      else false
  end.

Definition contains_nul (value : list byte) : bool := existsb (fun b => bool_decide (b = x00)) value.

(** * column_definition.cpp *)

Record ColumnDefinition := {
  col_id : ColumnId; col_name : list byte; col_type : LogicalType; col_nullable : bool }.
#[export] Instance ColumnDefinition_eq_dec : EqDecision ColumnDefinition.
Proof. solve_decision. Defined.

Definition ColumnDefinition_create (id : ColumnId) (name : list byte) (type : LogicalType)
    (nullable : bool) : result ColumnDefinition :=
  fail_if bool_decide (name = []) with kInvalidArgument;
  fail_if negb (is_valid_utf8 name) with kInvalidArgument;
  fail_if contains_nul name with kInvalidArgument;
  Ok {| col_id := id; col_name := name; col_type := type; col_nullable := nullable |}.

(** * table_schema.cpp *)

Definition kMaximumSchemaColumnCount : Z := 4096.

Inductive ColumnRole := kEventTime | kPhysicalOrdering | kPartition | kShardKey | kDeduplicationKey.

Record TableSchemaRoles := {
  event_time_column : ColumnId; physical_ordering_key : list ColumnId;
  partition_columns : list ColumnId; shard_key : list ColumnId; deduplication_key : list ColumnId }.
#[export] Instance TableSchemaRoles_eq_dec : EqDecision TableSchemaRoles.
Proof. solve_decision. Defined.

Record TableSchema := {
  ts_table_id : TableId; ts_schema_id : SchemaId; ts_version : Z;
  ts_parent_schema_id : option SchemaId; ts_columns : list ColumnDefinition;
  ts_roles : TableSchemaRoles }.
#[export] Instance TableSchema_eq_dec : EqDecision TableSchema.
Proof. solve_decision. Defined.

Definition find_column_by_id (columns : list ColumnDefinition) (id : ColumnId) : option ColumnDefinition :=
  List.find (fun c => bool_decide (col_id c = id)) columns.
Definition id_in (value : ColumnId) (values : list ColumnId) : bool :=
  existsb (fun v => bool_decide (v = value)) values.

(** The loop of [validate_role_list]: [previous] are the ids before the present one. *)
Fixpoint validate_role_ids (columns : list ColumnDefinition) (require_nonnull : bool)
    (previous ids : list ColumnId) : StatusCode :=
  match ids with
  | [] => kOk
  | id :: rest =>
      match find_column_by_id columns id with
      | None => kInvalidArgument
      | Some column =>
          if require_nonnull && col_nullable column then kInvalidArgument
          else if id_in id previous then kInvalidArgument
          else validate_role_ids columns require_nonnull (previous ++ [id]) rest
      end
  end.
Definition validate_role_list (columns : list ColumnDefinition) (ids : list ColumnId)
    (require_nonempty require_nonnull : bool) : StatusCode :=
  if require_nonempty && bool_decide (ids = []) then kInvalidArgument
  else validate_role_ids columns require_nonnull [] ids.

(** The double loop over the columns. *)
Fixpoint columns_distinct (previous columns : list ColumnDefinition) : bool :=
  match columns with
  | [] => true
  | c :: rest =>
      forallb (fun p => negb (bool_decide (col_id p = col_id c)) && negb (bool_decide (col_name p = col_name c)))
        previous && columns_distinct (previous ++ [c]) rest
  end.

Definition TableSchema_create (table_id : TableId) (schema_id : SchemaId) (version : Z)
    (parent : option SchemaId) (columns : list ColumnDefinition) (roles : TableSchemaRoles)
  : result TableSchema :=
  fail_if (if version =? initial_version then bool_decide (is_Some parent)
           else bool_decide (parent = None)) with kInvalidArgument;
  fail_if bool_decide (parent = Some schema_id) with kInvalidArgument;
  fail_if bool_decide (columns = []) with kInvalidArgument;
  fail_if blen columns >? kMaximumSchemaColumnCount with kInvalidArgument;
  fail_if negb (columns_distinct [] columns) with kInvalidArgument;
  match find_column_by_id columns (event_time_column roles) with
  | None => Err kInvalidArgument
  | Some event_time =>
      fail_if negb (bool_decide (type_kind (col_type event_time) = kTimestampNs)) with kInvalidArgument;
      fail_if col_nullable event_time with kInvalidArgument;
      check! validate_role_list columns (physical_ordering_key roles) true false;
      check! validate_role_list columns (partition_columns roles) true false;
      check! validate_role_list columns (shard_key roles) true true;
      check! validate_role_list columns (deduplication_key roles) false true;
      fail_if negb (id_in (event_time_column roles) (physical_ordering_key roles)) with kInvalidArgument;
      fail_if negb (id_in (event_time_column roles) (partition_columns roles)) with kInvalidArgument;
      fail_if negb (bool_decide (deduplication_key roles = []))
              && negb (forallb (fun c => id_in c (deduplication_key roles)) (shard_key roles))
        with kInvalidArgument;
      Ok {| ts_table_id := table_id; ts_schema_id := schema_id; ts_version := version;
            ts_parent_schema_id := parent; ts_columns := columns; ts_roles := roles |}
  end.

Definition find_column_by_name (s : TableSchema) (name : list byte) : option ColumnDefinition :=
  List.find (fun c => bool_decide (col_name c = name)) (ts_columns s).
Fixpoint ordinal_from (columns : list ColumnDefinition) (id : ColumnId) (index : Z) : option Z :=
  match columns with
  | [] => None
  | c :: rest => if bool_decide (col_id c = id) then Some index else ordinal_from rest id (index + 1)
  end.
Definition column_ordinal (s : TableSchema) (id : ColumnId) : option Z := ordinal_from (ts_columns s) id 0.
Definition has_role (s : TableSchema) (id : ColumnId) (role : ColumnRole) : bool :=
  let roles := ts_roles s in
  match role with
  | kEventTime => bool_decide (event_time_column roles = id)
  | kPhysicalOrdering => id_in id (physical_ordering_key roles)
  | kPartition => id_in id (partition_columns roles)
  | kShardKey => id_in id (shard_key roles)
  | kDeduplicationKey => id_in id (deduplication_key roles)
  end.

(** The loop over the columns both schemas have. *)
Fixpoint columns_kept (before after : list ColumnDefinition) : bool :=
  match before, after with
  | [], _ => true
  | _, [] => false
  | b :: before, a :: after =>
      bool_decide (col_id b = col_id a) && bool_decide (col_type b = col_type a)
      && Bool.eqb (col_nullable b) (col_nullable a) && columns_kept before after
  end.
(** Some candidate has the name of a historical column with another identity. *)
Definition name_reassigned (candidates historical : list ColumnDefinition) : bool :=
  existsb (fun c => existsb (fun h => bool_decide (col_name c = col_name h)
                                      && negb (bool_decide (col_id c = col_id h))) historical) candidates.

Definition validate_v1_successor (predecessor successor : TableSchema) : StatusCode :=
  if negb (bool_decide (ts_table_id predecessor = ts_table_id successor)) then kInvalidArgument
  else if negb (bool_decide (ts_parent_schema_id successor = Some (ts_schema_id predecessor))) then kInvalidArgument
  else match next_version (ts_version predecessor) with
  | Err s => s
  | Ok expected =>
      if negb (ts_version successor =? expected) then kInvalidArgument
      else if blen (ts_columns successor) <? blen (ts_columns predecessor) then kInvalidArgument
      else if negb (columns_kept (ts_columns predecessor) (ts_columns successor)) then kInvalidArgument
      else if name_reassigned (ts_columns successor) (ts_columns predecessor) then kInvalidArgument
      else if negb (forallb col_nullable (drop (length (ts_columns predecessor)) (ts_columns successor)))
      then kInvalidArgument
      else if negb (bool_decide (ts_roles predecessor = ts_roles successor)) then kInvalidArgument
      else kOk
  end.

(** * schema_lineage.cpp *)

(** A [SchemaLineage] is the list of its schemas, the oldest first and never empty. *)
Definition lineage_create (initial_schema : TableSchema) : result (list TableSchema) :=
  fail_if negb (ts_version initial_schema =? initial_version)
          || bool_decide (is_Some (ts_parent_schema_id initial_schema)) with kInvalidArgument;
  Ok [initial_schema].

(** The status, and the lineage it leaves. *)
Definition lineage_append (successor : TableSchema) (schemas : list TableSchema)
  : StatusCode * list TableSchema :=
  match last schemas with
  | None => (kInternal, schemas)
  | Some predecessor =>
      let compatibility := validate_v1_successor predecessor successor in
      if negb (is_ok compatibility) then (compatibility, schemas)
      else if existsb (fun s => bool_decide (ts_schema_id s = ts_schema_id successor)) schemas
      then (kInvalidArgument, schemas)
      else if existsb (fun s => name_reassigned (ts_columns successor) (ts_columns s)) schemas
      then (kInvalidArgument, schemas)
      else if existsb (fun c => existsb (fun s => bool_decide (is_Some (find_column_by_id (ts_columns s) (col_id c))))
                                  schemas)
                (drop (length (ts_columns predecessor)) (ts_columns successor))
      then (kInvalidArgument, schemas)
      else (kOk, schemas ++ [successor])
  end.

Definition lineage_find (schemas : list TableSchema) (schema_id : SchemaId) : option TableSchema :=
  List.find (fun s => bool_decide (ts_schema_id s = schema_id)) schemas.
Fixpoint historical_column_id (schemas : list TableSchema) (name : list byte) : option ColumnId :=
  match schemas with
  | [] => None
  | s :: rest =>
      match find_column_by_name s name with
      | Some column => Some (col_id column)
      | None => historical_column_id rest name
      end
  end.

Record ProjectionEntry := {
  pe_descendant_column_id : ColumnId; pe_descendant_ordinal : Z; pe_ancestor_ordinal : option Z }.

(** The last schema with the identity, as the loop without a break finds it. *)
Fixpoint index_of (schemas : list TableSchema) (schema_id : SchemaId) (index : Z) (found : option Z)
  : option Z :=
  match schemas with
  | [] => found
  | s :: rest =>
      index_of rest schema_id (index + 1)
        (if bool_decide (ts_schema_id s = schema_id) then Some index else found)
  end.
Fixpoint projection_entries (columns : list ColumnDefinition) (index ancestor_columns : Z)
  : list ProjectionEntry :=
  match columns with
  | [] => []
  | c :: rest =>
      {| pe_descendant_column_id := col_id c; pe_descendant_ordinal := index;
         pe_ancestor_ordinal := if index <? ancestor_columns then Some index else None |}
      :: projection_entries rest (index + 1) ancestor_columns
  end.
Definition projection (schemas : list TableSchema) (ancestor_schema_id descendant_schema_id : SchemaId)
  : result (list ProjectionEntry) :=
  match index_of schemas ancestor_schema_id 0 None, index_of schemas descendant_schema_id 0 None with
  | Some ancestor_index, Some descendant_index =>
      fail_if ancestor_index >? descendant_index with kInvalidArgument;
      match schemas !! Z.to_nat ancestor_index, schemas !! Z.to_nat descendant_index with
      | Some ancestor, Some descendant =>
          Ok (projection_entries (ts_columns descendant) 0 (blen (ts_columns ancestor)))
      | _, _ => Err kInternal
      end
  | _, _ => Err kNotFound
  end.
