(* ===== verification/SchemaTheorems.v ===== *)
(** What schemas promise: names are exactly the UTF-8 strings, and the versions of a table
    form a lineage in which every old column is found again. *)
From S2P Require Import Prelude Bytes RaftTypes Schema.
#[local] Open Scope Z_scope.

(** * UTF-8 *)

(** A Unicode scalar value: a code point that is not a surrogate. *)
Definition scalar (cp : Z) : Prop := 0 <= cp <= 1114111 /\ (cp < 55296 \/ 57343 < cp).
(** The encoding form of the Unicode standard. *)
Definition utf8_encode (cp : Z) : list byte :=
  byte_of_Z <$>
    if cp <? 128 then [cp]
    else if cp <? 2048 then [192 + cp / 64; 128 + cp mod 64]
    else if cp <? 65536 then [224 + cp / 4096; 128 + cp / 64 mod 64; 128 + cp mod 64]
    else [240 + cp / 262144; 128 + cp / 4096 mod 64; 128 + cp / 64 mod 64; 128 + cp mod 64].

Lemma byte_to_of_small v : 0 <= v < 256 -> byte_to_Z (byte_of_Z v) = v.
Proof. intros. rewrite byte_to_of_Z. by apply Z.mod_small. Qed.
Ltac zbool :=
  rewrite ?Z.geb_leb;
  repeat match goal with
  | |- context [?a <=? ?b] => destruct (Z.leb_spec a b); try lia
  | |- context [?a =? ?b] => destruct (Z.eqb_spec a b); try lia
  end; cbn [andb orb negb].

Lemma utf8_encode_valid cp rest :
  scalar cp -> is_valid_utf8 (utf8_encode cp ++ rest) = is_valid_utf8 rest.
Proof.
  intros [Hr Hs]. unfold utf8_encode.
  pose proof (Z.div_mod cp 64 ltac:(lia)) as E1. pose proof (Z.mod_pos_bound cp 64 ltac:(lia)) as B1.
  destruct (Z.ltb_spec cp 128); [cbn [fmap list_fmap app is_valid_utf8]; rewrite byte_to_of_small by lia; zbool; done|].
  destruct (Z.ltb_spec cp 2048).
  { cbn [fmap list_fmap app is_valid_utf8]. rewrite !byte_to_of_small by lia. unfold is_continuation. zbool; done. }
  pose proof (Z.div_mod (cp / 64) 64 ltac:(lia)) as E2. pose proof (Z.mod_pos_bound (cp / 64) 64 ltac:(lia)) as B2.
  rewrite Z.div_div in E2 by lia. change (64 * 64) with 4096 in E2.
  destruct (Z.ltb_spec cp 65536).
  { cbn [fmap list_fmap app is_valid_utf8]. rewrite !byte_to_of_small by lia. unfold is_continuation. zbool; done. }
  pose proof (Z.div_mod (cp / 4096) 64 ltac:(lia)) as E3. pose proof (Z.mod_pos_bound (cp / 4096) 64 ltac:(lia)) as B3.
  rewrite Z.div_div in E3 by lia. change (4096 * 64) with 262144 in E3.
  cbn [fmap list_fmap app is_valid_utf8]. rewrite !byte_to_of_small by lia. unfold is_continuation. zbool; done.
Qed.

(** The digits of an encoding. *)
Lemma digits a b : 0 <= b < 64 -> (64 * a + b) / 64 = a /\ (64 * a + b) mod 64 = b.
Proof. intros. split; [rewrite Z.mul_comm, Z.div_add_l, Z.div_small; lia|rewrite Z.mul_comm, Z.add_comm, Z_mod_plus_full, Z.mod_small; lia]. Qed.
Lemma utf8_encode_2 a b : 2 <= a <= 31 -> 0 <= b < 64 ->
  utf8_encode (64 * a + b) = [byte_of_Z (192 + a); byte_of_Z (128 + b)].
Proof.
  intros Ha Hb. destruct (digits a b Hb) as [E1 E2].
  unfold utf8_encode. rewrite E1, E2. zbool. by destruct (Z.ltb_spec (64 * a + b) 128), (Z.ltb_spec (64 * a + b) 2048); try lia.
Qed.
Lemma utf8_encode_3 a b c : 0 <= a <= 15 -> 0 <= b < 64 -> 0 <= c < 64 -> 2048 <= 64 * (64 * a + b) + c ->
  utf8_encode (64 * (64 * a + b) + c) = [byte_of_Z (224 + a); byte_of_Z (128 + b); byte_of_Z (128 + c)].
Proof.
  intros Ha Hb Hc Hge. set (cp := 64 * (64 * a + b) + c) in *.
  destruct (digits (64 * a + b) c Hc) as [E1 E2]. destruct (digits a b Hb) as [E3 E4]. fold cp in E1, E2.
  assert (E5 : cp / 4096 = a) by (change 4096 with (64 * 64); by rewrite <- Z.div_div, E1 by lia).
  unfold utf8_encode. rewrite E1, E2, E4, E5.
  by destruct (Z.ltb_spec cp 128), (Z.ltb_spec cp 2048), (Z.ltb_spec cp 65536); try lia.
Qed.
Lemma utf8_encode_4 a b c d : 0 <= a <= 7 -> 0 <= b < 64 -> 0 <= c < 64 -> 0 <= d < 64 ->
  65536 <= 64 * (64 * (64 * a + b) + c) + d ->
  utf8_encode (64 * (64 * (64 * a + b) + c) + d) =
    [byte_of_Z (240 + a); byte_of_Z (128 + b); byte_of_Z (128 + c); byte_of_Z (128 + d)].
Proof.
  intros Ha Hb Hc Hd Hge. set (cp := 64 * (64 * (64 * a + b) + c) + d) in *.
  destruct (digits (64 * (64 * a + b) + c) d Hd) as [E1 E2]. fold cp in E1, E2.
  destruct (digits (64 * a + b) c Hc) as [E3 E4]. destruct (digits a b Hb) as [E5 E6].
  assert (E7 : cp / 4096 = 64 * a + b) by (change 4096 with (64 * 64); by rewrite <- Z.div_div, E1, E3 by lia).
  assert (E8 : cp / 262144 = a) by (change 262144 with (4096 * 64); by rewrite <- Z.div_div, E7, E5 by lia).
  unfold utf8_encode. rewrite E1, E2, E4, E7, E6, E8.
  by destruct (Z.ltb_spec cp 128), (Z.ltb_spec cp 2048), (Z.ltb_spec cp 65536); try lia.
Qed.
Lemma byte_digit b n : b = byte_of_Z (n + (byte_to_Z b - n)).
Proof. replace (n + (byte_to_Z b - n)) with (byte_to_Z b) by lia. by rewrite byte_of_to_Z. Qed.

(** Every round of the loop has read the encoding of a scalar value. *)
Lemma utf8_round b0 rest0 :
  is_valid_utf8 (b0 :: rest0) = true ->
  exists cp rest, scalar cp /\ b0 :: rest0 = utf8_encode cp ++ rest /\ is_valid_utf8 rest = true.
Proof.
  cbn [is_valid_utf8]. pose proof (byte_to_Z_range b0) as B0.
  destruct (Z.leb_spec (byte_to_Z b0) 127).
  { intros Hv. exists (byte_to_Z b0), rest0. split; [unfold scalar; lia|]. split; [|done].
    unfold utf8_encode. destruct (Z.ltb_spec (byte_to_Z b0) 128); [|lia]. cbn. by rewrite byte_of_to_Z. }
  destruct ((byte_to_Z b0 >=? 194) && _) eqn:G2.
  { destruct rest0 as [|b1 rest]; [done|]. destruct (negb _) eqn:C1; [done|]. intros Hv.
    unfold is_continuation in C1. bool_prop. rewrite Z.geb_leb in *. bool_prop.
    exists (64 * (byte_to_Z b0 - 192) + (byte_to_Z b1 - 128)), rest. split; [unfold scalar; lia|]. split; [|done].
    rewrite utf8_encode_2 by lia. by rewrite <- !byte_digit. }
  clear G2. destruct ((byte_to_Z b0 >=? 224) && _) eqn:G3.
  { destruct rest0 as [|b1 [|b2 rest]]; [done..|]. destruct (_ || _) eqn:C; [done|]. intros Hv.
    unfold is_continuation in C. bool_prop. rewrite ?Z.geb_leb in *. bool_prop.
    set (x := byte_to_Z b0 - 224). set (y := byte_to_Z b1 - 128). set (z := byte_to_Z b2 - 128).
    exists (64 * (64 * x + y) + z), rest. split; [unfold scalar; lia|]. split; [|done].
    rewrite utf8_encode_3 by lia. unfold x, y, z. by rewrite <- !byte_digit. }
  clear G3. destruct ((byte_to_Z b0 >=? 240) && _) eqn:G4; [|done].
  destruct rest0 as [|b1 [|b2 [|b3 rest]]]; [done..|]. destruct (_ || _) eqn:C; [done|]. intros Hv.
  unfold is_continuation in C. bool_prop. rewrite ?Z.geb_leb in *. bool_prop.
  set (x := byte_to_Z b0 - 240). set (y := byte_to_Z b1 - 128). set (z := byte_to_Z b2 - 128). set (t := byte_to_Z b3 - 128).
  exists (64 * (64 * (64 * x + y) + z) + t), rest. split; [unfold scalar; lia|]. split; [|done].
  rewrite utf8_encode_4 by lia. unfold x, y, z, t. by rewrite <- !byte_digit.
Qed.

Lemma utf8_encode_nonempty cp : (0 < length (utf8_encode cp))%nat.
Proof. unfold utf8_encode. rewrite length_fmap. repeat case_match; cbn; lia. Qed.
Lemma valid_utf8_iff value :
  is_valid_utf8 value = true <-> exists cps, Forall scalar cps /\ value = concat (utf8_encode <$> cps).
Proof.
  split.
  - induction value as [value IH] using (induction_ltof1 _ length). unfold ltof in IH. destruct value as [|b0 rest0]; intros Hv.
    { by exists []. }
    apply utf8_round in Hv as (cp & rest & Hcp & E & Hv). pose proof (utf8_encode_nonempty cp).
    destruct (IH rest) as (cps & Hcps & ->); [|done|].
    + rewrite E, length_app. lia.
    + exists (cp :: cps). split; [by constructor|]. by rewrite E.
  - intros (cps & Hcps & ->). induction Hcps as [|cp cps Hcp _ IH]; [done|]. cbn [fmap list_fmap concat].
    by rewrite utf8_encode_valid.
Qed.

(** * Lineages *)

(** The schemas that [TableSchema::create] returns. *)
Definition schema_made (s : TableSchema) : Prop :=
  TableSchema_create (ts_table_id s) (ts_schema_id s) (ts_version s) (ts_parent_schema_id s)
    (ts_columns s) (ts_roles s) = Ok s.

(** The lineages a catalog can hold. *)
Inductive lineage : list TableSchema -> Prop :=
| lineage_new s l : schema_made s -> lineage_create s = Ok l -> lineage l
| lineage_more l s status l' : lineage l -> schema_made s -> lineage_append s l = (status, l') -> lineage l'.

(** [descendant] keeps the columns of [ancestor], and may add nullable ones. *)
Definition extends (ancestor descendant : list ColumnDefinition) : Prop :=
  (length ancestor <= length descendant)%nat /\
  (forall k a d, ancestor !! k = Some a -> descendant !! k = Some d ->
     col_id a = col_id d /\ col_type a = col_type d /\ col_nullable a = col_nullable d) /\
  (forall k d, descendant !! k = Some d -> (length ancestor <= k)%nat -> col_nullable d = true).
#[export] Instance extends_preorder : PreOrder extends.
Proof.
  split.
  - intros l. split; [done|]. split; [naive_solver|]. intros k d Hk Hle. apply lookup_lt_Some in Hk. lia.
  - intros a b c (L1 & S1 & N1) (L2 & S2 & N2). split; [lia|]. split.
    + intros k x z Hx Hz. assert (Hk : (k < length b)%nat) by (apply lookup_lt_Some in Hx; lia).
      destruct (lookup_lt_is_Some_2 b k Hk) as [y Hy]. destruct (S1 _ _ _ Hx Hy) as (-> & -> & ->). by apply (S2 k).
    + intros k z Hz Hle. destruct (decide (length b <= k)%nat) as [Hk|Hk]; [by apply (N2 k)|].
      destruct (lookup_lt_is_Some_2 b k ltac:(lia)) as [y Hy]. destruct (S2 _ _ _ Hy Hz) as (_ & _ & <-). by apply (N1 k).
Qed.

Lemma columns_kept_spec before : forall after, columns_kept before after = true ->
  forall k b a, before !! k = Some b -> after !! k = Some a ->
    col_id b = col_id a /\ col_type b = col_type a /\ col_nullable b = col_nullable a.
Proof.
  induction before as [|b before IH]; intros [|a after] H k x y; try done. cbn [columns_kept] in H.
  apply andb_true_iff in H as [[[H1 H2]%andb_true_iff H3]%andb_true_iff H4].
  destruct k as [|k]; cbn; [|by apply IH]. intros [= <-] [= <-].
  apply bool_decide_eq_true in H1, H2. apply Bool.eqb_prop in H3. done.
Qed.

Lemma successor_spec p s : validate_v1_successor p s = kOk ->
  ts_table_id s = ts_table_id p /\ ts_parent_schema_id s = Some (ts_schema_id p) /\
  ts_version s = ts_version p + 1 /\ extends (ts_columns p) (ts_columns s) /\ ts_roles s = ts_roles p.
Proof.
  unfold validate_v1_successor, next_version. intros H.
  destruct (negb (bool_decide (ts_table_id p = _))) eqn:G1; [done|].
  destruct (negb (bool_decide (ts_parent_schema_id s = _))) eqn:G2; [done|].
  destruct (ts_version p =? max_u64); [done|]. destruct (negb (ts_version s =? _)) eqn:G3; [done|].
  destruct (_ <? _) eqn:G4; [done|]. destruct (negb (columns_kept _ _)) eqn:G5; [done|].
  destruct (name_reassigned _ _); [done|]. destruct (negb (forallb _ _)) eqn:G6; [done|].
  destruct (negb (bool_decide (ts_roles p = _))) eqn:G7; [done|]. bool_prop.
  split; [done|]. split; [done|]. split; [lia|]. split; [|done]. split; [lia|]. split; [by apply columns_kept_spec|].
  intros k d Hk Hle. rewrite forallb_forall in G6. apply G6. apply list_elem_of_In.
  apply list_elem_of_lookup. exists (k - length (ts_columns p))%nat. rewrite lookup_drop. by replace (_ + _)%nat with k by lia.
Qed.

(** What holds of every lineage. *)
Record lineage_ok (l : list TableSchema) : Prop := {
  lo_made : Forall schema_made l;
  lo_versions : forall k s, l !! k = Some s -> ts_version s = 1 + Z.of_nat k;
  lo_table : forall s t, s ∈ l -> t ∈ l -> ts_table_id s = ts_table_id t;
  lo_distinct : NoDup (ts_schema_id <$> l);
  lo_extends : forall i j s t, (i <= j)%nat -> l !! i = Some s -> l !! j = Some t ->
    extends (ts_columns s) (ts_columns t);
  lo_names : forall s t c d, s ∈ l -> t ∈ l -> c ∈ ts_columns s -> d ∈ ts_columns t ->
    col_name c = col_name d -> col_id c = col_id d }.

Lemma columns_distinct_spec columns : forall previous,
  columns_distinct previous columns = true ->
  forall i j c d, (i < j)%nat -> (previous ++ columns) !! i = Some c -> (previous ++ columns) !! j = Some d ->
    (length previous <= j)%nat -> col_id c <> col_id d /\ col_name c <> col_name d.
Proof.
  induction columns as [|x columns IH]; intros previous H i j c d Hij Hc Hd Hj.
  { apply lookup_lt_Some in Hd. rewrite app_nil_r in Hd. lia. }
  cbn [columns_distinct] in H. apply andb_true_iff in H as [H1 H2].
  destruct (decide (j = length previous)) as [->|Hne].
  - rewrite list_lookup_middle in Hd by done. injection Hd as <-. rewrite lookup_app_l in Hc by done.
    rewrite forallb_forall in H1. specialize (H1 c). apply andb_true_iff in H1 as [E1 E2];
      [bool_prop; done|]. apply list_elem_of_In. by eapply list_elem_of_lookup_2.
  - apply (IH (previous ++ [x]) H2 i j); rewrite <- ?app_assoc; try done. rewrite length_app. cbn. lia.
Qed.
Lemma schema_made_distinct s : schema_made s -> columns_distinct [] (ts_columns s) = true.
Proof.
  unfold schema_made, TableSchema_create. intros H. destruct (if _ =? _ then _ else _); [done|].
  destruct (bool_decide _); [done|]. destruct (bool_decide (ts_columns s = [])); [done|]. destruct (_ >? _); [done|].
  destruct (negb (columns_distinct [] (ts_columns s))) eqn:G; [done|]. by apply negb_false_iff in G.
Qed.
Lemma schema_made_names s c d : schema_made s -> c ∈ ts_columns s -> d ∈ ts_columns s ->
  col_name c = col_name d -> col_id c = col_id d.
Proof.
  intros Hm [i Hi]%list_elem_of_lookup [j Hj]%list_elem_of_lookup En. apply schema_made_distinct in Hm.
  pose proof (columns_distinct_spec _ _ Hm) as Hd. cbn [app length] in Hd.
  destruct (lt_eq_lt_dec i j) as [[Hlt|<-]|Hlt].
  - destruct (Hd i j c d Hlt Hi Hj); [lia|congruence].
  - congruence.
  - destruct (Hd j i d c Hlt Hj Hi); [lia|congruence].
Qed.
Lemma name_reassigned_spec candidates historical :
  name_reassigned candidates historical = false ->
  forall c h, c ∈ candidates -> h ∈ historical -> col_name c = col_name h -> col_id c = col_id h.
Proof.
  intros H c h Hc Hh En. destruct (decide (col_id c = col_id h)) as [|Hne]; [done|]. exfalso.
  assert (name_reassigned candidates historical = true) as Ht; [|congruence].
  apply existsb_exists. exists c. split; [by apply list_elem_of_In|]. apply existsb_exists. exists h.
  split; [by apply list_elem_of_In|]. by rewrite bool_decide_eq_true_2, bool_decide_eq_false_2.
Qed.

Lemma lineage_new_ok s l : schema_made s -> lineage_create s = Ok l -> lineage_ok l.
Proof.
  unfold lineage_create. intros Hm H. destruct (_ || _) eqn:G; [done|]. injection H as <-.
  apply orb_false_iff in G as [G _]. bool_prop. split.
  - by constructor.
  - intros [|k] t; [|done]. intros [= <-]. unfold initial_version in G. lia.
  - intros x y Hx%list_elem_of_singleton Hy%list_elem_of_singleton. by subst.
  - apply NoDup_singleton.
  - intros [|i] [|j] x y _; try done. by intros [= <-] [= <-].
  - intros x y c d Hx%list_elem_of_singleton Hy%list_elem_of_singleton. subst. by apply schema_made_names.
Qed.

Lemma lineage_append_ok l s status l' :
  lineage_ok l -> schema_made s -> lineage_append s l = (status, l') ->
  lineage_ok l' /\ (status = kOk /\ l' = l ++ [s] \/ status <> kOk /\ l' = l).
Proof.
  intros Hl Hm. unfold lineage_append. destruct (last l) as [p|] eqn:El; [|intros [= <- <-]; by auto].
  destruct (negb (is_ok _)) eqn:Gv.
  { intros [= <- <-]. split; [done|]. right. split; [|done]. intros E. by rewrite E in Gv. }
  apply negb_false_iff, bool_decide_eq_true in Gv. apply successor_spec in Gv as (Et & _ & Ev & Hx & _).
  destruct (existsb _ l) eqn:G1; [intros [= <- <-]; by auto|]. destruct (existsb _ l) eqn:G2 in |- *; [intros [= <- <-]; by auto|].
  destruct (existsb _ (drop _ _)); [intros [= <- <-]; by auto|]. intros [= <- <-]. split; [|by left].
  destruct Hl as [L1 L2 L3 L4 L5 L6]. pose proof El as El'. rewrite last_lookup in El.
  assert (Hp : p ∈ l) by (by eapply list_elem_of_lookup_2). assert (Hne : (0 < length l)%nat) by (destruct l; [done|cbn; lia]).
  assert (Hnm : forall t c d, t ∈ l -> c ∈ ts_columns s -> d ∈ ts_columns t -> col_name c = col_name d -> col_id c = col_id d).
  { intros t c d Ht. apply name_reassigned_spec. destruct (name_reassigned _ _) eqn:E; [|done].
    rewrite <- G2. symmetry. apply existsb_exists. exists t. split; [by apply list_elem_of_In|done]. }
  split.
  - apply Forall_app. split; [done|by constructor].
  - intros k t [Hk|[Hk Ht]]%lookup_app_Some; [by apply L2|]. destruct (k - length l)%nat eqn:Ek; [|done]. injection Ht as <-.
    rewrite Ev, (L2 _ _ El). lia.
  - intros x y. rewrite !elem_of_app, !list_elem_of_singleton. intros [Hx'| ->] [Hy| ->]; try done; [by apply L3| |].
    + rewrite Et. by apply L3.
    + rewrite Et. by apply L3.
  - rewrite fmap_app. apply NoDup_app. split; [done|]. split; [|apply NoDup_singleton].
    intros x (t & -> & Ht)%list_elem_of_fmap E%list_elem_of_singleton.
    assert (existsb (fun s0 => bool_decide (ts_schema_id s0 = ts_schema_id s)) l = true); [|congruence].
    apply existsb_exists. exists t. split; [by apply list_elem_of_In|by rewrite bool_decide_eq_true_2].
  - intros i j x y Hij Hi [Hj|[Hj Hy]]%lookup_app_Some.
    + rewrite lookup_app_l in Hi by (apply lookup_lt_Some in Hj; lia). by apply (L5 i j).
    + destruct (j - length l)%nat eqn:Ej; [|done]. injection Hy as <-. apply lookup_app_Some in Hi as [Hi|[Hi Hx']].
      * transitivity (ts_columns p); [|done]. apply (L5 i (Nat.pred (length l))); try done. apply lookup_lt_Some in Hi. lia.
      * destruct (i - length l)%nat eqn:Ei; [|done]. injection Hx' as <-. done.
  - intros x y c d. rewrite !elem_of_app, !list_elem_of_singleton. intros [Hx'| ->] [Hy| ->] Hc Hd En.
    + by apply (L6 x y).
    + symmetry. by apply (Hnm x).
    + by apply (Hnm y).
    + by apply (schema_made_names s).
Qed.
Lemma lineage_all_ok l : lineage l -> lineage_ok l.
Proof.
  induction 1 as [s l Hm E|l s status l' _ IH Hm E]; [by eapply lineage_new_ok|].
  by apply (lineage_append_ok _ _ _ _ IH Hm) in E as [? _].
Qed.

(** ** Projections *)

Lemma index_of_spec l id : NoDup (ts_schema_id <$> l) -> forall k s found start,
  l !! k = Some s -> ts_schema_id s = id -> index_of l id start found = Some (start + Z.of_nat k).
Proof.
  induction l as [|x l IH]; intros Hd k s found start Hk Es; [done|]. rewrite fmap_cons in Hd.
  apply NoDup_cons in Hd as [Hn Hd]. cbn [index_of]. destruct k as [|k].
  - injection Hk as ->. rewrite bool_decide_eq_true_2 by done. clear IH. rewrite Es in Hn. clear Hd Es.
    replace (start + Z.of_nat 0) with start by lia. revert start. generalize (Some 0). intros _ start.
    generalize (start + 1). revert Hn. induction l as [|y l IH]; intros Hn z; [done|]. rewrite fmap_cons in Hn.
    apply not_elem_of_cons in Hn as [Hy Hn]. cbn [index_of]. rewrite bool_decide_eq_false_2 by done. by apply IH.
  - rewrite (IH Hd k s _ _ Hk Es). f_equal. lia.
Qed.
Lemma projection_entries_lookup columns m : forall start k c, columns !! k = Some c ->
  projection_entries columns start m !! k =
    Some {| pe_descendant_column_id := col_id c; pe_descendant_ordinal := start + Z.of_nat k;
            pe_ancestor_ordinal := if start + Z.of_nat k <? m then Some (start + Z.of_nat k) else None |}.
Proof.
  induction columns as [|x columns IH]; intros start k c Hk; [done|]. cbn [projection_entries]. destruct k as [|k].
  - injection Hk as ->. cbn. by rewrite Z.add_0_r.
  - cbn. rewrite (IH _ k c Hk). by replace (start + 1 + Z.of_nat k) with (start + Z.of_nat (S k)) by lia.
Qed.
Lemma projection_entries_length columns m : forall start, length (projection_entries columns start m) = length columns.
Proof. induction columns; intros; cbn [projection_entries length]; auto. Qed.

(** * Claims *)

(**  [is_valid_utf8] accepts exactly the byte strings of the Unicode standard: the
    concatenations of the encodings of scalar values.  Overlong forms, surrogates, code
    points beyond U+10FFFF and cut characters are refused, and nothing else is. *)
Theorem utf8_exact (value : list byte) :
  is_valid_utf8 value = true <-> exists cps, Forall scalar cps /\ value = concat (utf8_encode <$> cps).
Proof. apply valid_utf8_iff. Qed.

(** C18.  Rows of an old version can be read under a newer one.  In every lineage a catalog
    can hold, the projection from a schema to itself or a later one exists and lists the
    columns of the later schema in order; a column that the older schema has is taken from
    the same ordinal, where its identity, type and nullability are the same, and any other
    column is nullable, so that a null can stand for it.  Versions count from one, no
    schema identity occurs twice, and a column name never changes its identity. *)
Theorem lineage_projection (l : list TableSchema) (i j : nat) (ancestor descendant : TableSchema)
    (Hl : lineage l) (Hij : (i <= j)%nat) (Hi : l !! i = Some ancestor) (Hj : l !! j = Some descendant) :
  ts_version ancestor = 1 + Z.of_nat i /\ NoDup (ts_schema_id <$> l) /\
  (forall c d, c ∈ ts_columns ancestor -> d ∈ ts_columns descendant -> col_name c = col_name d -> col_id c = col_id d) /\
  exists entries, projection l (ts_schema_id ancestor) (ts_schema_id descendant) = Ok entries /\
    length entries = length (ts_columns descendant) /\
    forall k d, ts_columns descendant !! k = Some d -> exists e, entries !! k = Some e /\
      pe_descendant_column_id e = col_id d /\ pe_descendant_ordinal e = Z.of_nat k /\
      match ts_columns ancestor !! k with
      | Some a => pe_ancestor_ordinal e = Some (Z.of_nat k) /\
          col_id a = col_id d /\ col_type a = col_type d /\ col_nullable a = col_nullable d
      | None => pe_ancestor_ordinal e = None /\ col_nullable d = true
      end.
Proof.
  destruct (lineage_all_ok _ Hl) as [L1 L2 L3 L4 L5 L6]. split; [by apply L2|]. split; [done|].
  split; [intros c d; apply L6; by eapply list_elem_of_lookup_2|].
  unfold projection. rewrite (index_of_spec l _ L4 i ancestor None 0 Hi eq_refl), (index_of_spec l _ L4 j descendant None 0 Hj eq_refl).
  rewrite !Z.add_0_l, !Nat2Z.id, Hi, Hj. destruct (Z.gtb_spec (Z.of_nat i) (Z.of_nat j)); [lia|].
  eexists. split; [reflexivity|]. split; [apply projection_entries_length|]. intros k d Hk.
  eexists. split; [by apply projection_entries_lookup|]. cbn [pe_descendant_column_id pe_descendant_ordinal pe_ancestor_ordinal].
  destruct (L5 i j _ _ Hij Hi Hj) as (Hle & Hsame & Hnull). split; [done|]. split; [lia|].
  destruct (ts_columns ancestor !! k) as [a|] eqn:Ha.
  - apply lookup_lt_Some in Ha as Hlt. destruct (Z.ltb_spec (0 + Z.of_nat k) (blen (ts_columns ancestor))); [|lia].
    split; [f_equal; lia|]. by apply (Hsame k).
  - apply lookup_ge_None in Ha as Hge. destruct (Z.ltb_spec (0 + Z.of_nat k) (blen (ts_columns ancestor))); [lia|].
    split; [done|]. by apply (Hnull k).
Qed.

(** ** A concrete lineage *)

Definition sample_uuid (n : Z) : list byte := replicate 15 x00 ++ [byte_of_Z n].
Definition sample_column (n : Z) (name : list byte) (kind : LogicalTypeKind) (nullable : bool) : ColumnDefinition :=
  {| col_id := sample_uuid n; col_name := name; col_type := {| type_kind := kind; parameter_0 := 0; parameter_1 := 0 |};
     col_nullable := nullable |}.
Definition sample_roles : TableSchemaRoles :=
  {| event_time_column := sample_uuid 11; physical_ordering_key := [sample_uuid 11]; partition_columns := [sample_uuid 11];
     shard_key := [sample_uuid 12]; deduplication_key := [] |}.
Definition sample_schema_1 : TableSchema :=
  {| ts_table_id := sample_uuid 1; ts_schema_id := sample_uuid 2; ts_version := 1; ts_parent_schema_id := None;
     ts_columns := [sample_column 11 [x74] kTimestampNs false; sample_column 12 [x68] kInt64 false];
     ts_roles := sample_roles |}.
Definition sample_schema_2 : TableSchema :=
  {| ts_table_id := sample_uuid 1; ts_schema_id := sample_uuid 3; ts_version := 2; ts_parent_schema_id := Some (sample_uuid 2);
     ts_columns := ts_columns sample_schema_1 ++ [sample_column 13 [x76] kFloat64 true]; ts_roles := sample_roles |}.
Lemma sample_lineage : lineage [sample_schema_1; sample_schema_2].
Proof.
  apply (lineage_more [sample_schema_1] sample_schema_2 kOk); [|vm_compute; reflexivity..].
  apply (lineage_new sample_schema_1); vm_compute; reflexivity.
Qed.
Lemma lineage_projection_witness : exists entries,
  projection [sample_schema_1; sample_schema_2] (sample_uuid 2) (sample_uuid 3) = Ok entries /\ length entries = 3%nat.
Proof.
  destruct (lineage_projection [sample_schema_1; sample_schema_2] 0 1 sample_schema_1 sample_schema_2 sample_lineage
    ltac:(lia) ltac:(reflexivity) ltac:(reflexivity)) as (_ & _ & _ & entries & E & L & _).
  exists entries. split; [exact E|exact L].
Defined.
