(* ===== verification/Metadata.v ===== *)
(** The metadata state machine: include/chronos/raft/metadata.hpp, src/raft/metadata.cpp and
    include/chronos/raft/tablet_group_binding.hpp.  It is the application state of the
    metadata Raft group: cluster nodes, schemas, tablet placements, group bindings and table
    policies, changed only by committed commands in the order of the log.

    A [std::map] is the list of its entries in key order ([OrderedMap]); a definition's
    shared pointer to a schema is the schema, and null pointers are not modelled. *)
From S2P Require Import Prelude Bytes RaftTypes RaftMembership OrderedMap Schema.
#[local] Open Scope Z_scope.

(** * metadata.hpp *)

Record ClusterNodeMetadata := { cn_node_id : NodeId; cn_endpoint : list byte }.
Record SchemaMetadata := { sm_table_id : TableId; sm_schema_id : SchemaId; sm_schema_version : Z }.
Record CatalogTableDefinition := { cd_name : list byte; cd_quoted : bool; cd_schema : TableSchema }.
Record TabletPlacementMetadata := {
  tp_table_id : TableId; tp_tablet_id : TabletId; tp_placement_epoch : Z;
  tp_replicas : list NodeId; tp_leader_hint : option NodeId }.
Record RetentionMetadata := {
  rm_table_id : TableId; rm_system_history_ns : Z; rm_retry_retention_positions : Z }.
Record TablePolicyMetadata := {
  po_table_id : TableId; po_partition_interval_ns : Z; po_retention_ns : Z;
  po_system_history_ns : Z; po_allowed_lateness_ns : Z; po_retry_retention_positions : Z }.
Record TabletGroupBindingMetadata := { tb_tablet_id : TabletId; tb_group_id : GroupId }.
#[export] Instance CatalogTableDefinition_eq_dec : EqDecision CatalogTableDefinition.
Proof. solve_decision. Defined.

Inductive MetadataCommand :=
| NodeCommand (value : ClusterNodeMetadata)
| SchemaCommand (value : SchemaMetadata)
| TabletCommand (value : TabletPlacementMetadata)
| RetentionCommand (value : RetentionMetadata)
| PolicyCommand (value : TablePolicyMetadata).

Record MetadataLimits := {
  maximum_nodes : Z; maximum_schemas : Z; maximum_tablets : Z; maximum_replicas_per_tablet : Z;
  maximum_endpoint_bytes : Z; maximum_table_name_bytes : Z; maximum_column_name_bytes : Z }.

Record MetadataCatalogSnapshot := {
  cs_applied_index : LogIndex; cs_cluster_nodes : list ClusterNodeMetadata;
  cs_schema_definitions : list CatalogTableDefinition;
  cs_active_schemas : list (TableId * SchemaId);
  cs_tablet_placements : list TabletPlacementMetadata;
  cs_tablet_group_bindings : list TabletGroupBindingMetadata;
  cs_table_policies : list TablePolicyMetadata }.

(** * metadata.cpp *)

(** Maps from identities. *)
Abbreviation uget := (om_lookup uuid_compare).
Abbreviation uset := (om_assign uuid_compare).
Abbreviation uemplace := (om_emplace uuid_compare).
Definition uhas {V} (key : list byte) (m : list (list byte * V)) : bool := bool_decide (is_Some (uget key m)).

Definition lower_or_underscore (value : byte) : bool :=
  let c := byte_to_Z value in ((97 <=? c) && (c <=? 122)) || (c =? 95).
Definition valid_unquoted_name (name : list byte) : bool :=
  match name with
  | [] => false
  | c :: rest =>
      lower_or_underscore c
      && forallb (fun c => lower_or_underscore c || ((48 <=? byte_to_Z c) && (byte_to_Z c <=? 57))) rest
  end.

(** [MetadataStateMachine::Impl] *)
Record Metadata := {
  md_limits : MetadataLimits; md_applied : LogIndex;
  md_nodes : list (NodeId * ClusterNodeMetadata);
  md_schemas : list (SchemaId * SchemaMetadata);
  md_definitions : list (SchemaId * CatalogTableDefinition);
  md_active_schemas : list (TableId * SchemaId);
  md_tablets : list (TabletId * TabletPlacementMetadata);
  md_tablet_groups : list (TabletId * TabletGroupBindingMetadata);
  md_group_tablets : list (GroupId * TabletId);
  md_retention : list (TableId * RetentionMetadata);
  md_policies : list (TableId * TablePolicyMetadata) }.

Definition set_applied (m : Metadata) (index : LogIndex) : Metadata :=
  {| md_limits := md_limits m; md_applied := index; md_nodes := md_nodes m; md_schemas := md_schemas m;
     md_definitions := md_definitions m; md_active_schemas := md_active_schemas m;
     md_tablets := md_tablets m; md_tablet_groups := md_tablet_groups m;
     md_group_tablets := md_group_tablets m; md_retention := md_retention m; md_policies := md_policies m |}.
Definition set_nodes (m : Metadata) nodes : Metadata :=
  {| md_limits := md_limits m; md_applied := md_applied m; md_nodes := nodes; md_schemas := md_schemas m;
     md_definitions := md_definitions m; md_active_schemas := md_active_schemas m;
     md_tablets := md_tablets m; md_tablet_groups := md_tablet_groups m;
     md_group_tablets := md_group_tablets m; md_retention := md_retention m; md_policies := md_policies m |}.
(** The three maps of schemas. *)
Definition set_catalog (m : Metadata) schemas definitions active : Metadata :=
  {| md_limits := md_limits m; md_applied := md_applied m; md_nodes := md_nodes m; md_schemas := schemas;
     md_definitions := definitions; md_active_schemas := active;
     md_tablets := md_tablets m; md_tablet_groups := md_tablet_groups m;
     md_group_tablets := md_group_tablets m; md_retention := md_retention m; md_policies := md_policies m |}.
Definition set_tablets (m : Metadata) tablets : Metadata :=
  {| md_limits := md_limits m; md_applied := md_applied m; md_nodes := md_nodes m; md_schemas := md_schemas m;
     md_definitions := md_definitions m; md_active_schemas := md_active_schemas m;
     md_tablets := tablets; md_tablet_groups := md_tablet_groups m;
     md_group_tablets := md_group_tablets m; md_retention := md_retention m; md_policies := md_policies m |}.
Definition set_bindings (m : Metadata) tablet_groups group_tablets : Metadata :=
  {| md_limits := md_limits m; md_applied := md_applied m; md_nodes := md_nodes m; md_schemas := md_schemas m;
     md_definitions := md_definitions m; md_active_schemas := md_active_schemas m;
     md_tablets := md_tablets m; md_tablet_groups := tablet_groups;
     md_group_tablets := group_tablets; md_retention := md_retention m; md_policies := md_policies m |}.
Definition set_retention (m : Metadata) policies retention : Metadata :=
  {| md_limits := md_limits m; md_applied := md_applied m; md_nodes := md_nodes m; md_schemas := md_schemas m;
     md_definitions := md_definitions m; md_active_schemas := md_active_schemas m;
     md_tablets := md_tablets m; md_tablet_groups := md_tablet_groups m;
     md_group_tablets := md_group_tablets m; md_retention := retention; md_policies := policies |}.

Definition Metadata_create (limits : MetadataLimits) : result Metadata :=
  fail_if (maximum_nodes limits =? 0) || (maximum_schemas limits =? 0) || (maximum_tablets limits =? 0)
          || (maximum_replicas_per_tablet limits =? 0) || (maximum_endpoint_bytes limits =? 0)
          || (maximum_table_name_bytes limits =? 0) || (maximum_column_name_bytes limits =? 0)
    with kInvalidArgument;
  Ok {| md_limits := limits; md_applied := 0; md_nodes := []; md_schemas := []; md_definitions := [];
        md_active_schemas := []; md_tablets := []; md_tablet_groups := []; md_group_tablets := [];
        md_retention := []; md_policies := [] |}.

Definition out_of_order (index : LogIndex) (m : Metadata) : bool :=
  (index =? 0) || negb (index =? u64 (md_applied m + 1)).

(** Operations return the status and the state they leave. *)
Definition refuse (m : Metadata) : StatusCode * Metadata := (kInvalidArgument, m).

Definition name_taken (definition : CatalogTableDefinition) (m : Metadata) : bool :=
  existsb (fun '(_, candidate) =>
      negb (bool_decide (ts_table_id (cd_schema candidate) = ts_table_id (cd_schema definition)))
      && bool_decide (cd_name candidate = cd_name definition)
      && Bool.eqb (cd_quoted candidate) (cd_quoted definition)) (md_definitions m).
(** The part of the validation that depends on the active schema of the table. *)
Definition succeeds_active (definition : CatalogTableDefinition) (m : Metadata) : bool :=
  let value := cd_schema definition in
  match uget (ts_table_id value) (md_active_schemas m) with
  | None => ts_version value =? initial_version
  | Some active =>
      match uget active (md_definitions m) with
      | None => false
      | Some predecessor =>
          bool_decide (cd_name predecessor = cd_name definition)
          && Bool.eqb (cd_quoted predecessor) (cd_quoted definition)
          && is_ok (validate_v1_successor (cd_schema predecessor) value)
      end
  end.

Definition apply_committed_schema_definition (index : LogIndex) (definition : CatalogTableDefinition)
    (m : Metadata) : StatusCode * Metadata :=
  let limits := md_limits m in
  let value := cd_schema definition in
  let schema_id := ts_schema_id value in
  let identity := uget schema_id (md_schemas m) in
  if out_of_order index m then refuse m
  else if bool_decide (cd_name definition = []) || (blen (cd_name definition) >? maximum_table_name_bytes limits)
          || negb (is_valid_utf8 (cd_name definition)) || contains_nul (cd_name definition)
          || (negb (cd_quoted definition) && negb (valid_unquoted_name (cd_name definition)))
  then refuse m
  else if existsb (fun c => blen (col_name c) >? maximum_column_name_bytes limits) (ts_columns value) then refuse m
  else if match identity with
          | Some i => negb (bool_decide (sm_table_id i = ts_table_id value))
                      || negb (sm_schema_version i =? ts_version value)
          | None => false
          end then refuse m
  else match uget schema_id (md_definitions m) with
  | Some existing =>
      if negb (bool_decide (existing = definition)) then refuse m else (kOk, set_applied m index)
  | None =>
      if blen (md_definitions m) >=? maximum_schemas limits then refuse m
      else if bool_decide (identity = None) && (blen (md_schemas m) >=? maximum_schemas limits) then refuse m
      else if negb (succeeds_active definition m) then refuse m
      else if name_taken definition m then refuse m
      else
        let schemas := if bool_decide (identity = None)
          then uemplace schema_id {| sm_table_id := ts_table_id value; sm_schema_id := schema_id;
                                     sm_schema_version := ts_version value |} (md_schemas m)
          else md_schemas m in
        (kOk, set_applied (set_catalog m schemas (uemplace schema_id definition (md_definitions m))
                             (uset (ts_table_id value) schema_id (md_active_schemas m))) index)
  end.

Definition apply_node (value : ClusterNodeMetadata) (m : Metadata) : StatusCode * Metadata :=
  if (cn_node_id value =? 0) || bool_decide (cn_endpoint value = [])
     || (blen (cn_endpoint value) >? maximum_endpoint_bytes (md_limits m))
     || (bool_decide (om_lookup Z.compare (cn_node_id value) (md_nodes m) = None)
         && (blen (md_nodes m) >=? maximum_nodes (md_limits m))) then refuse m
  else (kOk, set_nodes m (om_assign Z.compare (cn_node_id value) value (md_nodes m))).

Definition apply_schema (value : SchemaMetadata) (m : Metadata) : StatusCode * Metadata :=
  if is_nil (sm_table_id value) || is_nil (sm_schema_id value)
     || (negb (uhas (sm_schema_id value) (md_schemas m))
         && (blen (md_schemas m) >=? maximum_schemas (md_limits m))) then refuse m
  else if match uget (sm_schema_id value) (md_schemas m) with
          | Some existing => negb (bool_decide (sm_table_id existing = sm_table_id value))
          | None => false
          end then refuse m
  else (kOk, set_catalog m (uset (sm_schema_id value) value (md_schemas m)) (md_definitions m) (md_active_schemas m)).

Definition apply_tablet (value : TabletPlacementMetadata) (m : Metadata) : StatusCode * Metadata :=
  let replicas := sort_voters (tp_replicas value) in
  let value := {| tp_table_id := tp_table_id value; tp_tablet_id := tp_tablet_id value;
                  tp_placement_epoch := tp_placement_epoch value; tp_replicas := replicas;
                  tp_leader_hint := tp_leader_hint value |} in
  if is_nil (tp_table_id value) || is_nil (tp_tablet_id value) || (tp_placement_epoch value =? 0)
     || bool_decide (replicas = []) || (blen replicas >? maximum_replicas_per_tablet (md_limits m))
     || (default 0 (head replicas) =? 0) || has_adjacent_equal replicas
     || match tp_leader_hint value with Some leader => negb (bool_decide (leader ∈ replicas)) | None => false end
     || (negb (uhas (tp_tablet_id value) (md_tablets m))
         && (blen (md_tablets m) >=? maximum_tablets (md_limits m))) then refuse m
  else if match uget (tp_tablet_id value) (md_tablets m) with
          | Some existing => negb (bool_decide (tp_table_id existing = tp_table_id value))
                             || (tp_placement_epoch value <=? tp_placement_epoch existing)
          | None => false
          end then refuse m
  else (kOk, set_tablets m (uset (tp_tablet_id value) value (md_tablets m))).

Definition apply_retention (value : RetentionMetadata) (m : Metadata) : StatusCode * Metadata :=
  if is_nil (rm_table_id value) || (rm_system_history_ns value <? 0) || (rm_retry_retention_positions value =? 0)
  then refuse m
  else if match uget (rm_table_id value) (md_policies m) with
          | Some complete => negb (po_system_history_ns complete =? rm_system_history_ns value)
                             || negb (po_retry_retention_positions complete =? rm_retry_retention_positions value)
          | None => false
          end then refuse m
  else (kOk, set_retention m (md_policies m) (uset (rm_table_id value) value (md_retention m))).

Definition apply_policy (value : TablePolicyMetadata) (m : Metadata) : StatusCode * Metadata :=
  if is_nil (po_table_id value) || (po_partition_interval_ns value <=? 0) || (po_retention_ns value <=? 0)
     || (po_system_history_ns value <=? 0) || (po_allowed_lateness_ns value <? 0)
     || (po_retry_retention_positions value =? 0) || negb (uhas (po_table_id value) (md_active_schemas m))
  then refuse m
  else (kOk, set_retention m (uset (po_table_id value) value (md_policies m))
               (uset (po_table_id value)
                  {| rm_table_id := po_table_id value; rm_system_history_ns := po_system_history_ns value;
                     rm_retry_retention_positions := po_retry_retention_positions value |} (md_retention m))).

Definition apply_committed (index : LogIndex) (command : MetadataCommand) (m : Metadata) : StatusCode * Metadata :=
  if out_of_order index m then refuse m
  else
    let '(status, m) :=
      match command with
      | NodeCommand value => apply_node value m
      | SchemaCommand value => apply_schema value m
      | TabletCommand value => apply_tablet value m
      | RetentionCommand value => apply_retention value m
      | PolicyCommand value => apply_policy value m
      end in
    (status, if is_ok status then set_applied m index else m).

Definition apply_internal_noop (index : LogIndex) (m : Metadata) : StatusCode * Metadata :=
  if out_of_order index m then refuse m else (kOk, set_applied m index).
Definition apply_internal_noops_through (index : LogIndex) (m : Metadata) : StatusCode * Metadata :=
  if index <? md_applied m then refuse m else (kOk, set_applied m index).

Definition apply_committed_tablet_group_binding (index : LogIndex) (binding : TabletGroupBindingMetadata)
    (m : Metadata) : StatusCode * Metadata :=
  if out_of_order index m then refuse m
  else if is_nil (tb_tablet_id binding) || is_nil (tb_group_id binding)
          || negb (uhas (tb_tablet_id binding) (md_tablets m)) then refuse m
  else
    let existing := uget (tb_tablet_id binding) (md_tablet_groups m) in
    if match existing with
       | Some e => negb (bool_decide (tb_group_id e = tb_group_id binding))
       | None => false
       end then refuse m
    else
      let owner := uget (tb_group_id binding) (md_group_tablets m) in
      if match owner with Some t => negb (bool_decide (t = tb_tablet_id binding)) | None => false end then refuse m
      else if bool_decide (is_Some existing) then (kOk, set_applied m index)
      else if bool_decide (is_Some owner) then refuse m
      else (kOk, set_applied (set_bindings m (uemplace (tb_tablet_id binding) binding (md_tablet_groups m))
                                (uemplace (tb_group_id binding) (tb_tablet_id binding) (md_group_tablets m))) index).

(** Lookups. *)
Definition find_node (node_id : NodeId) (m : Metadata) := om_lookup Z.compare node_id (md_nodes m).
Definition find_schema (schema_id : SchemaId) (m : Metadata) := uget schema_id (md_schemas m).
Definition find_schema_definition (schema_id : SchemaId) (m : Metadata) := uget schema_id (md_definitions m).
Definition find_active_table_definition (table_id : TableId) (m : Metadata) : option CatalogTableDefinition :=
  match uget table_id (md_active_schemas m) with
  | Some active => find_schema_definition active m
  | None => None
  end.
(** The loop over the active schemas. *)
Fixpoint find_by_name (name : list byte) (quoted : bool) (m : Metadata) (active : list (TableId * SchemaId))
  : option CatalogTableDefinition :=
  match active with
  | [] => None
  | (_, schema_id) :: rest =>
      match uget schema_id (md_definitions m) with
      | Some definition =>
          if bool_decide (cd_name definition = name) && Bool.eqb (cd_quoted definition) quoted then Some definition
          else find_by_name name quoted m rest
      | None => find_by_name name quoted m rest
      end
  end.
Definition find_active_table_definition_named (name : list byte) (quoted : bool) (m : Metadata) :=
  find_by_name name quoted m (md_active_schemas m).
Definition find_tablet (tablet_id : TabletId) (m : Metadata) := uget tablet_id (md_tablets m).
Definition find_tablet_group_binding (tablet_id : TabletId) (m : Metadata) := uget tablet_id (md_tablet_groups m).
Definition find_retention (table_id : TableId) (m : Metadata) := uget table_id (md_retention m).
Definition find_table_policy (table_id : TableId) (m : Metadata) := uget table_id (md_policies m).

Definition catalog_snapshot (m : Metadata) : MetadataCatalogSnapshot :=
  {| cs_applied_index := md_applied m; cs_cluster_nodes := (md_nodes m).*2;
     cs_schema_definitions := (md_definitions m).*2; cs_active_schemas := md_active_schemas m;
     cs_tablet_placements := (md_tablets m).*2; cs_tablet_group_bindings := (md_tablet_groups m).*2;
     cs_table_policies := (md_policies m).*2 |}.
