(* ===== verification/MetadataFacts.v ===== *)
(** The invariant of the metadata state machine, and that every operation keeps it. *)
From S2P Require Import Prelude Bytes RaftTypes RaftMembership OrderedMap Schema SchemaTheorems.
From S2P Require Import Metadata.
From Stdlib Require Import Sorted.
From stdpp Require sorting.
#[local] Open Scope Z_scope.

(** * Maps from identities *)

Abbreviation usorted := (om_sorted uuid_compare).

Section maps.
Context {V : Type}.
Implicit Types (m : list (list byte * V)) (k : list byte).

Lemma uget_uset k v m k' : usorted m -> uget k' (uset k v m) = if decide (k' = k) then Some v else uget k' m.
Proof.
  intros Hs. rewrite om_lookup_assign; [|apply uuid_compare_Eq|apply uuid_compare_flip|apply uuid_compare_trans|done].
  destruct (uuid_compare k' k) eqn:E; destruct (decide (k' = k)) as [->|Hne]; try done.
  - by apply uuid_compare_Eq in E.
  - by rewrite (proj2 (uuid_compare_Eq k k) eq_refl) in E.
  - by rewrite (proj2 (uuid_compare_Eq k k) eq_refl) in E.
Qed.
Lemma usorted_set k v m : usorted m -> usorted (uset k v m).
Proof. apply om_assign_sorted; [apply uuid_compare_Eq|apply uuid_compare_flip|apply uuid_compare_trans]. Qed.
Lemma uemplace_set k v m : usorted m -> uget k m = None -> uemplace k v m = uset k v m.
Proof. intros. by apply om_emplace_assign. Qed.
Lemma uget_elem k v m : usorted m -> uget k m = Some v <-> (k, v) ∈ m.
Proof. apply om_lookup_Some; [apply uuid_compare_Eq|apply uuid_compare_flip]. Qed.
Lemma uhas_true k m : uhas k m = true <-> is_Some (uget k m).
Proof. apply bool_decide_eq_true. Qed.
End maps.
Lemma length_assign {K V} (compare : K -> K -> comparison) k (v : V) m :
  blen (om_assign compare k v m) = blen m + match om_lookup compare k m with Some _ => 0 | None => 1 end.
Proof.
  induction m as [|[k0 v0] m IH]; cbn [om_assign om_lookup]; [done|]. destruct (compare k k0); cbn [length]; lia.
Qed.
(** An assignment that passed the check of the limit. *)
Lemma assign_limit {V} k (v : V) m limit :
  negb (uhas k m) && (blen m >=? limit) = false -> blen m <= limit -> blen (uset k v m) <= limit.
Proof.
  intros G Hle. rewrite length_assign. unfold uhas in G. destruct (uget k m) eqn:E; [lia|].
  rewrite bool_decide_eq_false_2, Z.geb_leb in G by (by intros []). cbn in G. bool_prop. lia.
Qed.

(** * Chains of versions *)

(** The schemas of a table as the machine admits them: each the direct successor of the one
    before.  A [lineage] asks for more: see [chain_append]. *)
Inductive chain : list TableSchema -> Prop :=
| chain_one s : ts_version s = 1 -> chain [s]
| chain_more l p s : chain l -> last l = Some p -> validate_v1_successor p s = kOk -> chain (l ++ [s]).

(** No column name of a history stands for two columns. *)
Definition names_kept (l : list TableSchema) : Prop :=
  forall s t c d, s ∈ l -> t ∈ l -> c ∈ ts_columns s -> d ∈ ts_columns t -> col_name c = col_name d -> col_id c = col_id d.

Lemma last_elem {A} (l : list A) x : last l = Some x -> x ∈ l.
Proof. rewrite last_lookup. apply list_elem_of_lookup_2. Qed.
Lemma chain_versions l : chain l -> forall k s, l !! k = Some s -> ts_version s = 1 + Z.of_nat k.
Proof.
  induction 1 as [s E|l p s _ IH El Hv]; intros k t.
  - intros [-> ->]%list_lookup_singleton_Some. lia.
  - intros [Hk|[Hk Ht]]%lookup_app_Some; [by apply IH|]. apply list_lookup_singleton_Some in Ht as [Ek ->].
    apply successor_spec in Hv as (_ & _ & -> & _). rewrite last_lookup in El. rewrite (IH _ _ El).
    assert (l <> []) by (by intros ->). assert (0 < length l)%nat by (destruct l; cbn; [done|lia]). lia.
Qed.
Lemma chain_extends l p : chain l -> last l = Some p -> forall s, s ∈ l -> extends (ts_columns s) (ts_columns p).
Proof.
  intros Hc. revert p. induction Hc as [s E|l q s _ IH El Hv]; intros p; rewrite ?last_snoc.
  - intros [= ->] t Ht%list_elem_of_singleton. by subst.
  - intros [= ->] t [Ht|Ht%list_elem_of_singleton]%elem_of_app; [|by subst].
    apply successor_spec in Hv as (_ & _ & _ & Hx & _). etransitivity; [by apply IH|done].
Qed.
Lemma chain_table l : chain l -> forall s t, s ∈ l -> t ∈ l -> ts_table_id s = ts_table_id t.
Proof.
  induction 1 as [s E|l p s _ IH El Hv]; intros x y.
  - intros Hx%list_elem_of_singleton Hy%list_elem_of_singleton. by subst.
  - apply successor_spec in Hv as (Et & _). apply last_elem in El.
    rewrite !elem_of_app, !list_elem_of_singleton. intros [Hx| ->] [Hy| ->]; try done; [by apply IH| |]; rewrite Et; by apply IH.
Qed.

Lemma find_column_by_id_Some columns id c :
  find_column_by_id columns id = Some c -> c ∈ columns /\ col_id c = id.
Proof. intros [H1 H2]%find_some. apply bool_decide_eq_true in H2. by rewrite list_elem_of_In. Qed.
(** A column that a successor adds was in no earlier schema. *)
Lemma chain_new_columns l p s : chain l -> last l = Some p -> schema_made s -> validate_v1_successor p s = kOk ->
  forall c t, c ∈ drop (length (ts_columns p)) (ts_columns s) -> t ∈ l -> find_column_by_id (ts_columns t) (col_id c) = None.
Proof.
  intros Hc El Hm Hv c t [i Hi]%list_elem_of_lookup Ht. destruct (find_column_by_id _ _) as [d|] eqn:Ed; [|done]. exfalso.
  apply find_column_by_id_Some in Ed as [[j Hj]%list_elem_of_lookup Eid]. rewrite lookup_drop in Hi.
  apply successor_spec in Hv as (_ & _ & _ & Hx & _).
  assert (Hts : extends (ts_columns t) (ts_columns p)) by (by eapply chain_extends). destruct Hts as (Hle & _).
  destruct (chain_extends _ _ Hc El t Ht) as (_ & Hsame & _). destruct Hx as (Hle' & Hsame' & _).
  apply lookup_lt_Some in Hj as Hjlt. destruct (lookup_lt_is_Some_2 (ts_columns p) j ltac:(lia)) as [e He].
  destruct (lookup_lt_is_Some_2 (ts_columns s) j ltac:(lia)) as [f Hf].
  destruct (Hsame _ _ _ Hj He) as (E1 & _). destruct (Hsame' _ _ _ He Hf) as (E2 & _).
  destruct (columns_distinct_spec _ _ (schema_made_distinct _ Hm) j (length (ts_columns p) + i) f c) as [Hne _]; cbn [app length]; try done; try lia.
  congruence.
Qed.

(** A chain takes its next schema into a lineage when the names are kept. *)
Lemma chain_append l p s : chain l -> last l = Some p -> validate_v1_successor p s = kOk -> schema_made s ->
  NoDup (ts_schema_id <$> l ++ [s]) -> names_kept (l ++ [s]) -> lineage_append s l = (kOk, l ++ [s]).
Proof.
  intros Hc El Hv Hms Hd Hn. rewrite fmap_app in Hd. apply NoDup_app in Hd as (_ & Hd & _).
  unfold lineage_append. rewrite El, Hv. cbn [is_ok negb].
  destruct (existsb _ l) eqn:G1.
  { apply existsb_exists in G1 as (t & Ht & Et%bool_decide_eq_true). destruct (Hd (ts_schema_id s)).
    - apply list_elem_of_fmap. exists t. by rewrite list_elem_of_In.
    - by apply list_elem_of_singleton. }
  destruct (existsb _ l) eqn:G2 in |- *.
  { apply existsb_exists in G2 as (t & Ht & G). apply existsb_exists in G as (c & Hc' & G).
    apply existsb_exists in G as (d & Hd' & G). apply andb_true_iff in G as [Gn%bool_decide_eq_true Gi].
    apply negb_true_iff, bool_decide_eq_false in Gi. apply list_elem_of_In in Ht, Hc', Hd'.
    destruct Gi. apply (Hn s t c d); try done; rewrite elem_of_app; [right; by apply list_elem_of_singleton|by left]. }
  destruct (existsb _ (drop _ _)) eqn:G3; [|done].
  apply existsb_exists in G3 as (c & Hc' & G). apply existsb_exists in G as (t & Ht & G%bool_decide_eq_true).
  apply list_elem_of_In in Ht, Hc'. rewrite (chain_new_columns l p s Hc El Hms Hv c t Hc' Ht) in G. by destruct G.
Qed.
(** The first version of a table starts a lineage. *)
Lemma first_version_lineage s : schema_made s -> ts_version s = 1 -> lineage_create s = Ok [s].
Proof.
  intros Hm E. unfold lineage_create. rewrite E. cbn. unfold schema_made, TableSchema_create in Hm.
  rewrite E in Hm. cbn in Hm. by destruct (ts_parent_schema_id s).
Qed.

(** * The invariant *)

Definition table_of (d : CatalogTableDefinition) : TableId := ts_table_id (cd_schema d).
(** [l] holds the schemas of table [t], the oldest first. *)
Definition history (m : Metadata) (t : TableId) (l : list TableSchema) : Prop :=
  chain l /\
  forall s, s ∈ l <-> ts_table_id s = t /\ exists d, uget (ts_schema_id s) (md_definitions m) = Some d /\ cd_schema d = s.

(** The definitions of the tables. *)
Record catalog_ok (m : Metadata) : Prop := {
  co_definitions : usorted (md_definitions m); co_active : usorted (md_active_schemas m);
  co_schemas : usorted (md_schemas m);
  co_keys : forall id d, uget id (md_definitions m) = Some d ->
    ts_schema_id (cd_schema d) = id /\ schema_made (cd_schema d) /\ cd_name d <> [] /\
    is_valid_utf8 (cd_name d) = true /\ contains_nul (cd_name d) = false;
  co_identities : forall id i, uget id (md_schemas m) = Some i -> sm_schema_id i = id;
  co_identified : forall id d, uget id (md_definitions m) = Some d ->
    exists i, uget id (md_schemas m) = Some i /\ sm_table_id i = table_of d;
  co_tabled : forall id d, uget id (md_definitions m) = Some d -> is_Some (uget (table_of d) (md_active_schemas m));
  co_history : forall t id, uget t (md_active_schemas m) = Some id ->
    exists l s, history m t l /\ last l = Some s /\ ts_schema_id s = id;
  co_names : forall id id' d d', uget id (md_definitions m) = Some d -> uget id' (md_definitions m) = Some d' ->
    (cd_name d = cd_name d' /\ cd_quoted d = cd_quoted d') <-> table_of d = table_of d';
  co_definition_limit : blen (md_definitions m) <= maximum_schemas (md_limits m);
  co_schema_limit : blen (md_schemas m) <= maximum_schemas (md_limits m) }.

(** Placements and their groups. *)
Record tablets_ok (m : Metadata) : Prop := {
  to_tablets : usorted (md_tablets m); to_groups : usorted (md_tablet_groups m);
  to_owners : usorted (md_group_tablets m);
  to_placement : forall t p, uget t (md_tablets m) = Some p ->
    tp_tablet_id p = t /\ tp_placement_epoch p <> 0 /\
    voters_ok (tp_replicas p) (maximum_replicas_per_tablet (md_limits m)) /\
    forall leader, tp_leader_hint p = Some leader -> leader ∈ tp_replicas p;
  to_bound : forall t b, uget t (md_tablet_groups m) = Some b ->
    tb_tablet_id b = t /\ is_Some (uget t (md_tablets m)) /\ uget (tb_group_id b) (md_group_tablets m) = Some t;
  to_owned : forall g t, uget g (md_group_tablets m) = Some t ->
    exists b, uget t (md_tablet_groups m) = Some b /\ tb_group_id b = g;
  to_tablet_limit : blen (md_tablets m) <= maximum_tablets (md_limits m) }.

(** Policies and nodes. *)
Record policies_ok (m : Metadata) : Prop := {
  po_policies : usorted (md_policies m); po_retention_map : usorted (md_retention m);
  po_complete : forall t p, uget t (md_policies m) = Some p ->
    po_table_id p = t /\ is_Some (uget t (md_active_schemas m)) /\
    exists r, uget t (md_retention m) = Some r /\ rm_table_id r = t /\
      rm_system_history_ns r = po_system_history_ns p /\
      rm_retry_retention_positions r = po_retry_retention_positions p;
  po_retained : forall t r, uget t (md_retention m) = Some r -> rm_table_id r = t;
  po_node_limit : blen (md_nodes m) <= maximum_nodes (md_limits m) }.
Record metadata_ok (m : Metadata) : Prop := {
  mo_catalog : catalog_ok m; mo_tablets : tablets_ok m; mo_policies : policies_ok m;
  mo_applied : in_width 64 (md_applied m) }.

(** What may change: histories grow at the end, definitions and bindings stay, a placement
    stays with its table and is replaced only by one of a higher epoch. *)
Record evolves (m m' : Metadata) : Prop := {
  ev_limits : md_limits m' = md_limits m;
  ev_definitions : forall id d, uget id (md_definitions m) = Some d -> uget id (md_definitions m') = Some d;
  ev_identities : forall id i, uget id (md_schemas m) = Some i ->
    exists i', uget id (md_schemas m') = Some i' /\ sm_table_id i' = sm_table_id i;
  ev_histories : forall t l, history m t l -> exists more, history m' t (l ++ more);
  ev_tablets : forall t p, uget t (md_tablets m) = Some p ->
    exists p', uget t (md_tablets m') = Some p' /\ tp_table_id p' = tp_table_id p /\
      (p' = p \/ tp_placement_epoch p < tp_placement_epoch p');
  ev_bindings : forall t b, uget t (md_tablet_groups m) = Some b -> uget t (md_tablet_groups m') = Some b;
  ev_owners : forall g t, uget g (md_group_tablets m) = Some t -> uget g (md_group_tablets m') = Some t }.
#[export] Instance evolves_preorder : PreOrder evolves.
Proof.
  split.
  - intros m. split; eauto. intros t l Hl. exists []. by rewrite app_nil_r.
  - intros a b c [A1 A2 A3 A4 A5 A6 A7] [B1 B2 B3 B4 B5 B6 B7]. split; auto.
    + congruence.
    + intros id i (j & Hj & Ej)%A3. apply B3 in Hj as (k & Hk & Ek). exists k. split; congruence.
    + intros t l (l1 & Hl1)%A4. apply B4 in Hl1 as (l2 & Hl2). exists (l1 ++ l2). by rewrite app_assoc.
    + intros t p (q & Hq & Eq & Hpq)%A5. apply B5 in Hq as (r & Hr & Er & Hqr). exists r. split; [done|]. split; [congruence|].
      destruct Hpq as [->|], Hqr as [->|]; auto. right. lia.
Qed.
(** Two machines that agree on the maps. *)
Lemma evolves_same m m' : md_limits m' = md_limits m -> md_definitions m' = md_definitions m ->
  md_schemas m' = md_schemas m -> md_tablets m' = md_tablets m -> md_tablet_groups m' = md_tablet_groups m ->
  md_group_tablets m' = md_group_tablets m -> evolves m m'.
Proof.
  intros E1 E2 E3 E4 E5 E6. split; rewrite ?E1, ?E2, ?E3, ?E4, ?E5, ?E6; eauto.
  intros t l Hl. exists []. unfold history. by rewrite app_nil_r, E2.
Qed.

(** * Definitions *)

Lemma chain_unique l l' : chain l -> chain l' -> (forall s, s ∈ l <-> s ∈ l') -> l = l'.
Proof.
  assert (Hsub : forall l l' k s, chain l -> chain l' -> (forall s, s ∈ l <-> s ∈ l') -> l !! k = Some s -> l' !! k = Some s).
  { clear. intros l l' k s Hc Hc' E Hk. pose proof (chain_versions _ Hc _ _ Hk) as V.
    apply list_elem_of_lookup_2, E, list_elem_of_lookup in Hk as [j Hj]. pose proof (chain_versions _ Hc' _ _ Hj).
    by replace k with j by lia. }
  intros Hc Hc' E. apply list_eq. intros k. apply option_eq. intros s. split; apply Hsub; try done.
Qed.
Lemma history_unique m t l l' : history m t l -> history m t l' -> l = l'.
Proof. intros [Hc Hin] [Hc' Hin']. apply chain_unique; try done. intros s. by rewrite Hin, Hin'. Qed.
Lemma history_nonempty m t l : history m t l -> exists s, s ∈ l.
Proof. intros [[s Es|l' p s _ _ _] _]; exists s; set_solver. Qed.
Lemma history_active m t id : catalog_ok m -> uget t (md_active_schemas m) = Some id ->
  exists l d, history m t l /\ last l = Some (cd_schema d) /\ uget id (md_definitions m) = Some d /\ table_of d = t.
Proof.
  intros Hm (l & s & Hh & El & Es)%(co_history m Hm). pose proof Hh as [_ Hin].
  destruct (proj1 (Hin s) (last_elem _ _ El)) as (Et & d & Ed & <-). exists l, d. by rewrite <- Es.
Qed.

(** A table's history keeps its schemas when another table gets one. *)
Lemma history_other m t l (d : CatalogTableDefinition) : usorted (md_definitions m) ->
  uget (ts_schema_id (cd_schema d)) (md_definitions m) = None -> table_of d <> t -> history m t l ->
  forall schemas active, history (set_catalog m schemas (uset (ts_schema_id (cd_schema d)) d (md_definitions m)) active) t l.
Proof.
  intros Hs Hn Hne [Hc Hin] schemas active. split; [done|]. intros s. rewrite Hin. cbn [md_definitions set_catalog].
  split; intros (Et & e & He & Ee); (split; [done|]); exists e; (split; [|done]); rewrite uget_uset in * by done; case_decide; try done.
  - congruence.
  - injection He as <-. destruct Hne. unfold table_of. by rewrite Ee.
Qed.
(** The history of the table that gets the schema grows by it. *)
Lemma history_grows m t l (d : CatalogTableDefinition) : usorted (md_definitions m) ->
  uget (ts_schema_id (cd_schema d)) (md_definitions m) = None -> table_of d = t -> chain (l ++ [cd_schema d]) ->
  (forall s, s ∈ l <-> ts_table_id s = t /\ exists d, uget (ts_schema_id s) (md_definitions m) = Some d /\ cd_schema d = s) ->
  forall schemas active, history (set_catalog m schemas (uset (ts_schema_id (cd_schema d)) d (md_definitions m)) active) t (l ++ [cd_schema d]).
Proof.
  intros Hs Hn Et Hc Hin schemas active. split; [done|]. intros s. rewrite elem_of_app, list_elem_of_singleton, Hin.
  cbn [md_definitions set_catalog]. rewrite uget_uset by done. split.
  - intros [(E & e & He & Ee)| ->].
    + split; [done|]. exists e. split; [|done]. case_decide; [congruence|done].
    + split; [done|]. exists d. by rewrite decide_True.
  - intros (E & e & He & Ee). case_decide; [|by eauto 6]. injection He as ->. by right.
Qed.

(** The list of a table's schemas that a new definition continues. *)
Lemma succeeds_history m d : catalog_ok m -> uget (ts_schema_id (cd_schema d)) (md_definitions m) = None ->
  succeeds_active d m = true ->
  exists l, chain (l ++ [cd_schema d]) /\
    forall s, s ∈ l <-> ts_table_id s = table_of d /\ exists e, uget (ts_schema_id s) (md_definitions m) = Some e /\ cd_schema e = s.
Proof.
  intros Hm Hnew Hsucc. unfold succeeds_active in Hsucc. fold (table_of d) in Hsucc.
  destruct (uget (table_of d) (md_active_schemas m)) as [a|] eqn:Ha.
  - destruct (history_active _ _ _ Hm Ha) as (l & p & [Hc Hin] & El & Hp & Ep). rewrite Hp in Hsucc.
    apply andb_true_iff in Hsucc as [_ Hv%bool_decide_eq_true]. exists l. split; [by eapply chain_more|done].
  - apply Z.eqb_eq in Hsucc. exists []. split; [by apply chain_one|].
    intros s. split; [by intros ?%elem_of_nil|]. intros (Et & e & He & <-). apply (co_tabled m Hm) in He as [x Hx].
    unfold table_of at 1 in Hx. rewrite Et in Hx. congruence.
Qed.
Lemma add_definition_evolves m d schemas active : catalog_ok m ->
  uget (ts_schema_id (cd_schema d)) (md_definitions m) = None -> succeeds_active d m = true ->
  (forall id i, uget id (md_schemas m) = Some i -> uget id schemas = Some i) ->
  evolves m (set_catalog m schemas (uset (ts_schema_id (cd_schema d)) d (md_definitions m)) active).
Proof.
  intros Hm Hnew Hsucc Hs. pose proof (co_definitions m Hm) as C1. split; try done; cbn [set_catalog md_definitions md_schemas md_tablets]; eauto.
  - intros id e He. rewrite uget_uset by done. case_decide; [congruence|done].
  - intros t l Hl. destruct (decide (table_of d = t)) as [Et|Hne]; [|exists []; rewrite app_nil_r; by apply history_other].
    destruct (succeeds_history _ _ Hm Hnew Hsucc) as (l' & Hc & Hin). rewrite Et in Hin. exists [cd_schema d].
    assert (l = l') as ->; [|by apply history_grows]. apply chain_unique; [apply Hl| |].
    + assert (l' <> []) as Hne by (intros ->; destruct (history_nonempty _ _ _ Hl) as [s Hs']; apply Hl, Hin, elem_of_nil in Hs'; done).
      inversion Hc as [s E1 E2|l0 p s Hc0 E1 E2 E3]; [|by apply app_inj_tail in E3 as [-> _]].
      destruct l' as [|x [|y l']]; [done|discriminate..].
    + intros s. destruct Hl as [_ ->]. by rewrite Hin.
Qed.

(** Adding a definition that passed the checks. *)
Lemma add_definition_ok m d schemas :
  catalog_ok m -> schema_made (cd_schema d) -> cd_name d <> [] -> is_valid_utf8 (cd_name d) = true ->
  contains_nul (cd_name d) = false -> uget (ts_schema_id (cd_schema d)) (md_definitions m) = None ->
  blen (md_definitions m) < maximum_schemas (md_limits m) -> succeeds_active d m = true -> name_taken d m = false ->
  usorted schemas -> blen schemas <= maximum_schemas (md_limits m) ->
  (forall id i, uget id schemas = Some i -> sm_schema_id i = id) ->
  (exists i, uget (ts_schema_id (cd_schema d)) schemas = Some i /\ sm_table_id i = table_of d) ->
  (forall id i, uget id (md_schemas m) = Some i -> uget id schemas = Some i) ->
  catalog_ok (set_catalog m schemas (uset (ts_schema_id (cd_schema d)) d (md_definitions m))
                (uset (table_of d) (ts_schema_id (cd_schema d)) (md_active_schemas m))).
Proof.
  intros Hm Hmade N1 N2 N3 Hnew Hlim Hsucc Hname S1 S2 S3 S4 S5. pose proof Hm as [C1 C2 C3 C4 C5 C6 C7 C8 C9 C10 C11].
  assert (Hother : forall id e, uget id (md_definitions m) = Some e ->
    (cd_name d = cd_name e /\ cd_quoted d = cd_quoted e) <-> table_of d = table_of e).
  { intros id e He. split.
    - intros [E1 E2]. destruct (decide (table_of d = table_of e)) as [|Hne]; [done|]. exfalso.
      assert (name_taken d m = true); [|congruence]. apply existsb_exists. exists (id, e). split.
      + apply list_elem_of_In. by apply uget_elem.
      + unfold table_of in Hne. rewrite bool_decide_eq_false_2, bool_decide_eq_true_2, E2, Bool.eqb_reflx by congruence. done.
    - intros Et. destruct (C7 _ _ He) as [a Ha]. rewrite <- Et in Ha.
      destruct (history_active _ _ _ Hm Ha) as (l & p & _ & _ & Hp & Ep). unfold succeeds_active in Hsucc.
      fold (table_of d) in Hsucc. rewrite Ha, Hp in Hsucc. apply andb_true_iff in Hsucc as [[Q1%bool_decide_eq_true Q2%Bool.eqb_prop]%andb_true_iff _].
      rewrite <- Q1, <- Q2. apply (C9 _ _ _ _ Hp He). congruence. }
  split; cbn [md_definitions md_active_schemas md_schemas md_limits set_catalog]; try done.
  - by apply usorted_set.
  - by apply usorted_set.
  - intros id e. rewrite uget_uset by done. case_decide as Ek; [|by apply C4]. intros [= <-]. by subst.
  - intros id e. rewrite uget_uset by done. case_decide as Ek; [intros [= <-]; by subst|].
    intros (i & Hi & Ei)%C6. exists i. by split; [apply S5|].
  - intros id e He. rewrite uget_uset by done. case_decide as Ek; [done|].
    rewrite uget_uset in He by done. case_decide; [injection He as <-; done|]. by eapply C7.
  - intros t id. rewrite uget_uset by done. case_decide as Ek.
    + intros [= <-]. subst t. destruct (succeeds_history _ _ Hm Hnew Hsucc) as (l & Hc & Hin).
      exists (l ++ [cd_schema d]), (cd_schema d). split; [by apply history_grows|by rewrite last_snoc].
    + intros (l & s & Hh & El & Es)%C8. exists l, s. split; [|done]. by apply history_other.
  - intros id id' e e'. rewrite !uget_uset by done. do 2 case_decide; intros He He'; simplify_eq; try done.
    + by eapply Hother.
    + specialize (Hother _ _ He). split; [intros [? ?]; symmetry; by apply Hother|].
      intros E. symmetry in E. apply Hother in E as [? ?]. done.
    + by eapply C9.
  - rewrite length_assign, Hnew. lia.
Qed.

(** * Operations *)

(** An operation succeeds, moves to index [applied] and keeps the invariant, or it refuses
    and changes nothing. *)
Definition settles (m : Metadata) (applied : LogIndex) (r : StatusCode * Metadata) : Prop :=
  (r.1 = kOk /\ md_applied r.2 = applied /\ metadata_ok r.2 /\ evolves m r.2) \/ r = refuse m.

Lemma settles_refuse m i : settles m i (refuse m).
Proof. by right. Qed.
#[local] Hint Resolve settles_refuse : core.
(** A check that refuses, or did not. *)
Ltac peel G := match goal with |- settles _ _ (if ?b then _ else _) => destruct b eqn:G; [apply settles_refuse|] end.
Lemma settles_ok m i m' : md_applied m' = i -> metadata_ok m' -> evolves m m' -> settles m i (kOk, m').
Proof. by left. Qed.
Lemma metadata_ok_applied m i : metadata_ok m -> in_width 64 i -> metadata_ok (set_applied m i).
Proof. intros [[] [] [] _] Hi. by split; [split..|]. Qed.
Lemma evolves_applied m m' i : evolves m m' -> evolves m (set_applied m' i).
Proof. intros [A1 A2 A3 A4 A5 A6 A7]. by split. Qed.
Lemma settles_applied m i : metadata_ok m -> in_width 64 i -> settles m i (kOk, set_applied m i).
Proof. intros. apply settles_ok; [done|by apply metadata_ok_applied|by apply evolves_applied]. Qed.
#[local] Hint Resolve settles_applied metadata_ok_applied evolves_applied : core.

Lemma apply_node_settles v m : metadata_ok m -> settles m (md_applied m) (apply_node v m).
Proof.
  intros Hm. pose proof Hm as [[] [] [P1 P2 P3 P4 P5] Ha]. unfold apply_node. destruct (_ || _) eqn:G; [done|].
  apply settles_ok; [done| |by apply evolves_same]. split; [split..|]; try done. cbn [md_nodes set_nodes md_limits].
  apply orb_false_iff in G as [_ G]. rewrite length_assign. destruct (om_lookup _ _ _) eqn:E; [lia|].
  rewrite bool_decide_eq_true_2, Z.geb_leb in G by done. cbn in G. bool_prop. lia.
Qed.

Lemma apply_schema_settles v m : metadata_ok m -> settles m (md_applied m) (apply_schema v m).
Proof.
  intros Hm. pose proof Hm as [[C1 C2 C3 C4 C5 C6 C7 C8 C9 C10 C11] [] [] Ha]. unfold apply_schema.
  destruct (_ || _ && _) eqn:G1; [done|]. destruct (match _ with Some _ => _ | None => _ end) eqn:G2; [done|].
  assert (Hid : forall id i, uget id (md_schemas m) = Some i ->
    exists i', uget id (uset (sm_schema_id v) v (md_schemas m)) = Some i' /\ sm_table_id i' = sm_table_id i).
  { intros id i Hi. rewrite uget_uset by done. case_decide as E; [|by eauto]. subst id. rewrite Hi in G2. bool_prop. eauto. }
  apply settles_ok; [done| |].
  - split; [split..|]; try done; cbn [md_schemas set_catalog md_limits].
    + by apply usorted_set.
    + intros id i. rewrite uget_uset by done. case_decide as E; [|by apply C5]. intros [= <-]. by subst.
    + intros id d (i & Hi & Ei)%C6. apply Hid in Hi as (i' & Hi' & Ei'). exists i'. split; [done|congruence].
    + apply orb_false_iff in G1 as [_ G1]. by apply assign_limit.
  - split; try done; cbn [md_definitions md_tablets md_tablet_groups md_group_tablets set_catalog]; eauto.
    intros t l Hl. exists []. by rewrite app_nil_r.
Qed.

Lemma apply_tablet_settles v m : metadata_ok m -> settles m (md_applied m) (apply_tablet v m).
Proof.
  intros Hm. pose proof Hm as [[] [T1 T2 T3 T4 T5 T6 T7] [] Ha]. unfold apply_tablet.
  cbn [tp_table_id tp_tablet_id tp_placement_epoch tp_replicas tp_leader_hint].
  peel G1. peel G2.
  apply orb_false_iff in G1 as [G1 Glim]. apply orb_false_iff in G1 as [G1 Gl]. bool_prop.
  assert (Hv : voters_ok (sort_voters (tp_replicas v)) (maximum_replicas_per_tablet (md_limits m))).
  { pose proof (sorting.merge_sort_Permutation Z.le (tp_replicas v)) as Hp%Permutation_length. fold (sort_voters (tp_replicas v)) in Hp.
    rewrite Z.gtb_ltb in *. bool_prop. apply sort_voters_ok; try done; [|lia]. rewrite <- Hp. by destruct (sort_voters _). }
  apply settles_ok; [done| |].
  - split; [split..|]; try done; cbn [md_tablets set_tablets md_limits].
    + by apply usorted_set.
    + intros t p. rewrite uget_uset by done. case_decide as E; [|by apply T4]. intros [= <-]. subst t. cbn.
      split; [done|]. split; [done|]. split; [done|]. intros leader El. rewrite El in Gl. by bool_prop.
    + intros t b (E1 & E2 & E3)%T5. split; [done|]. split; [|done]. rewrite uget_uset by done. by case_decide.
    + by apply assign_limit.
  - split; try done; cbn [md_tablets set_tablets]; eauto; [intros t l Hl; exists []; by rewrite app_nil_r|].
    intros t p Hp. rewrite uget_uset by done. case_decide as E; [|by eauto]. subst t. rewrite Hp in G2. bool_prop.
    eexists. split; [done|]. split; [done|]. right. done.
Qed.

Lemma apply_retention_settles v m : metadata_ok m -> settles m (md_applied m) (apply_retention v m).
Proof.
  intros Hm. pose proof Hm as [[] [] [P1 P2 P3 P4 P5] Ha]. unfold apply_retention. destruct (_ || _) eqn:G1; [done|].
  destruct (match _ with Some _ => _ | None => _ end) eqn:G2; [done|].
  apply settles_ok; [done| |by apply evolves_same].
  split; [split..|]; try done; cbn [md_retention md_policies set_retention].
  - by apply usorted_set.
  - intros t p Hp. destruct (P3 _ _ Hp) as (E1 & E2 & E3). split; [done|]. split; [done|].
    rewrite uget_uset by done. case_decide as E; [|done]. rewrite <- E, Hp in G2. bool_prop. eauto.
  - intros t r. rewrite uget_uset by done. case_decide as E; [|by apply P4]. intros [= <-]. by subst.
Qed.
Lemma apply_policy_settles v m : metadata_ok m -> settles m (md_applied m) (apply_policy v m).
Proof.
  intros Hm. pose proof Hm as [[] [] [P1 P2 P3 P4 P5] Ha]. unfold apply_policy. destruct (_ || _) eqn:G1; [done|].
  bool_prop. apply settles_ok; [done| |by apply evolves_same].
  split; [split..|]; try done; cbn [md_retention md_policies set_retention md_active_schemas].
  - by apply usorted_set.
  - by apply usorted_set.
  - intros t p. rewrite !uget_uset by done. case_decide as E; [|by apply P3]. intros [= <-]. subst t.
    split; [done|]. split; [by apply uhas_true|]. by eexists.
  - intros t r. rewrite uget_uset by done. case_decide as E; [|by apply P4]. intros [= <-]. by subst.
Qed.

Lemma apply_committed_settles index c m :
  metadata_ok m -> in_width 64 index -> settles m index (apply_committed index c m).
Proof.
  intros Hm Hi. unfold apply_committed. destruct (out_of_order _ _); [done|].
  assert (Hs : settles m (md_applied m) (match c with
    | NodeCommand value => apply_node value m | SchemaCommand value => apply_schema value m
    | TabletCommand value => apply_tablet value m | RetentionCommand value => apply_retention value m
    | PolicyCommand value => apply_policy value m end)).
  { destruct c; [by apply apply_node_settles|by apply apply_schema_settles|by apply apply_tablet_settles
                |by apply apply_retention_settles|by apply apply_policy_settles]. }
  destruct (match c with NodeCommand _ => _ | _ => _ end) as [status m1].
  destruct Hs as [(E & _ & Hm1 & He)|[= -> ->]]; [|done]. cbn in *. subst status.
  change (is_ok kOk) with true. apply settles_ok; [done|auto..].
Qed.
Lemma apply_internal_noop_settles index m :
  metadata_ok m -> in_width 64 index -> settles m index (apply_internal_noop index m).
Proof. intros. unfold apply_internal_noop. destruct (out_of_order _ _); auto. Qed.
Lemma apply_internal_noops_through_settles index m :
  metadata_ok m -> in_width 64 index -> settles m index (apply_internal_noops_through index m).
Proof. intros. unfold apply_internal_noops_through. destruct (_ <? _); auto. Qed.

Lemma apply_binding_settles index b m :
  metadata_ok m -> in_width 64 index -> settles m index (apply_committed_tablet_group_binding index b m).
Proof.
  intros Hm Hi. pose proof Hm as [[] [T1 T2 T3 T4 T5 T6 T7] [] Ha]. unfold apply_committed_tablet_group_binding.
  destruct (out_of_order _ _); [done|]. destruct (_ || _) eqn:G1; [done|]. bool_prop.
  destruct (uget (tb_tablet_id b) (md_tablet_groups m)) as [e|] eqn:Ee.
  { destruct (negb _); [done|]. destruct (match _ with Some _ => _ | None => _ end); [done|].
    rewrite bool_decide_eq_true_2 by done. auto. }
  destruct (uget (tb_group_id b) (md_group_tablets m)) as [t|] eqn:Eo.
  { destruct (negb _); [done|]. rewrite bool_decide_eq_false_2 by (by intros []). by rewrite bool_decide_eq_true_2. }
  rewrite !bool_decide_eq_false_2 by (by intros []). rewrite !uemplace_set by done.
  apply settles_ok; [done| |]; [apply metadata_ok_applied; [|done]|apply evolves_applied].
  - split; [split..|]; try done; cbn [md_tablet_groups md_group_tablets set_bindings md_tablets].
    + by apply usorted_set.
    + by apply usorted_set.
    + intros t c. rewrite uget_uset by done. case_decide as E.
      * intros [= <-]. subst t. split; [done|]. split; [by apply uhas_true|]. rewrite uget_uset by done. by rewrite decide_True.
      * intros (E1 & E2 & E3)%T5. split; [done|]. split; [done|]. rewrite uget_uset by done. case_decide; [congruence|done].
    + intros g t. rewrite uget_uset by done. case_decide as E.
      * intros [= <-]. exists b. rewrite uget_uset by done. by rewrite decide_True.
      * intros (c & Hc & Ec)%T6. exists c. rewrite uget_uset by done. case_decide; [congruence|done].
  - split; try done; cbn [md_tablet_groups md_group_tablets set_bindings md_tablets md_schemas]; eauto.
    + intros t l Hl. exists []. by rewrite app_nil_r.
    + intros t c Hc. rewrite uget_uset by done. case_decide; [congruence|done].
    + intros g t Ht. rewrite uget_uset by done. case_decide; [congruence|done].
Qed.

Lemma apply_definition_settles index d m : metadata_ok m -> in_width 64 index -> schema_made (cd_schema d) ->
  settles m index (apply_committed_schema_definition index d m).
Proof.
  intros Hm Hi Hmade. pose proof Hm as [Hc Ht Hp Ha]. pose proof Hc as [C1 C2 C3 C4 C5 C6 C7 C8 C9 C10 C11].
  unfold apply_committed_schema_definition. cbn zeta. peel G0. peel G1. peel Gcol. peel G2.
  destruct (uget _ (md_definitions m)) as [e|] eqn:Ee; [peel G3; auto|].
  peel G3. peel G4. peel G5. peel G6. rewrite Z.geb_leb in *. bool_prop.
  rewrite (uemplace_set _ d) by done.
  set (schemas := if bool_decide _ then _ else _).
  assert (Hs : usorted schemas /\ blen schemas <= maximum_schemas (md_limits m) /\
    (forall id i, uget id schemas = Some i -> sm_schema_id i = id) /\
    (exists i, uget (ts_schema_id (cd_schema d)) schemas = Some i /\ sm_table_id i = table_of d) /\
    (forall id i, uget id (md_schemas m) = Some i -> uget id schemas = Some i)).
  { unfold schemas. clear schemas. destruct (uget (ts_schema_id (cd_schema d)) (md_schemas m)) as [i|] eqn:Ei.
    - rewrite bool_decide_eq_false_2 by done. bool_prop. do 3 (split; [done|]). split; [by exists i|done].
    - rewrite bool_decide_eq_true_2 in * by done. cbn in G4. bool_prop. rewrite uemplace_set by done.
      split; [by apply usorted_set|]. split; [rewrite length_assign, Ei; lia|]. split.
      + intros id i. rewrite uget_uset by done. case_decide as E; [|by apply C5]. intros [= <-]. by subst.
      + split; [eexists; rewrite uget_uset, decide_True by done; by split|].
        intros id i Hid. rewrite uget_uset by done. case_decide; [congruence|done]. }
  clearbody schemas. destruct Hs as (S1 & S2 & S3 & S4 & S5).
  assert (Hcat : catalog_ok (set_catalog m schemas (uset (ts_schema_id (cd_schema d)) d (md_definitions m))
                (uset (table_of d) (ts_schema_id (cd_schema d)) (md_active_schemas m)))) by (by apply add_definition_ok).
  apply settles_ok; [done| |by apply evolves_applied, add_definition_evolves].
  apply metadata_ok_applied; [|done]. destruct Ht, Hp as [P1 P2 P3 P4 P5]. split; [done|by split| |done].
  split; try done. cbn [md_policies set_catalog md_active_schemas md_retention]. intros t p (E1 & E2 & E3)%P3.
  split; [done|]. split; [|done]. rewrite uget_uset by done. by case_decide.
Qed.
