(* ===== verification/CatalogRecovery.v ===== *)
(** Reopening a database from the metadata catalog: [find_definition] and
    [build_complete_tables] of src/service/single_node_database.cpp, and the same projection
    of a replicated database, [active_definition], [retained_schemas] and [retained_lineage]
    of src/service/replicated_ingest_database.cpp. *)
From S2P Require Import Prelude Bytes RaftTypes RaftMembership OrderedMap Schema SchemaTheorems.
From S2P Require Import Metadata MetadataFacts.
From Stdlib Require Import Sorted.
From stdpp Require sorting.
#[local] Open Scope Z_scope.

(** * single_node_database.cpp *)

Record RecoveredTable := {
  rt_name : list byte; rt_quoted : bool; rt_lineage : list TableSchema;
  rt_policy : TablePolicyMetadata; rt_tablets : list TabletId }.

Definition find_definition (catalog : MetadataCatalogSnapshot) (schema_id : SchemaId) : option CatalogTableDefinition :=
  List.find (fun d => bool_decide (ts_schema_id (cd_schema d) = schema_id)) (cs_schema_definitions catalog).

(** [std::ranges::sort] by version and by identity; the keys that are sorted here are distinct. *)
Definition version_le (a b : TableSchema) : Prop := ts_version a <= ts_version b.
#[export] Instance version_le_dec : RelDecision version_le.
Proof. intros a b. apply Z_le_dec. Defined.
Definition sort_by_version : list TableSchema -> list TableSchema := sorting.merge_sort version_le.
Definition uuid_le (a b : list byte) : Prop := uuid_compare a b <> Gt.
#[export] Instance uuid_le_dec : RelDecision uuid_le.
Proof. intros a b. unfold uuid_le. destruct (uuid_compare a b); [left|left|right]; congruence. Defined.
(** [SchemaLineage::table_id] of the table. *)
Definition rt_table_id (t : RecoveredTable) : TableId := default [] (ts_table_id <$> head (rt_lineage t)).
Definition table_le (a b : RecoveredTable) : Prop := uuid_le (rt_table_id a) (rt_table_id b).
#[export] Instance table_le_dec : RelDecision table_le.
Proof. intros a b. apply uuid_le_dec. Defined.

Definition table_schemas (catalog : MetadataCatalogSnapshot) (table_id : TableId) : list TableSchema :=
  List.filter (fun s => bool_decide (ts_table_id s = table_id)) (cd_schema <$> cs_schema_definitions catalog).

(** The loop of [SchemaLineage::append]. *)
Fixpoint append_all (schemas rest : list TableSchema) : result (list TableSchema) :=
  match rest with
  | [] => Ok schemas
  | s :: rest =>
      let '(appended, schemas) := lineage_append s schemas in
      if is_ok appended then append_all schemas rest else Err kCorruption
  end.
Definition lineage_of (schemas : list TableSchema) : result (list TableSchema) :=
  match schemas with
  | [] => Err kCorruption
  | first :: rest =>
      match lineage_create first with
      | Ok lineage => append_all lineage rest
      | Err _ => Err kCorruption
      end
  end.

(** The placement is on the local node alone. *)
Definition local_placement (local_node_id : NodeId) (p : TabletPlacementMetadata) : bool :=
  bool_decide (tp_replicas p = [local_node_id])
  && match tp_leader_hint p with Some leader => leader =? local_node_id | None => true end.

(** A round of the loop over the active schemas: no table while its creation is unfinished. *)
Definition recover_table (catalog : MetadataCatalogSnapshot) (local_node_id : NodeId)
    (table_id : TableId) (schema_id : SchemaId) : result (option RecoveredTable) :=
  match find_definition catalog schema_id with
  | None => Err kCorruption
  | Some active_definition =>
      fail_if negb (bool_decide (ts_table_id (cd_schema active_definition) = table_id)) with kCorruption;
      let placements := List.filter (fun p => bool_decide (tp_table_id p = table_id)) (cs_tablet_placements catalog) in
      match List.find (fun p => bool_decide (po_table_id p = table_id)) (cs_table_policies catalog) with
      | None => Ok None
      | Some policy =>
          if bool_decide (placements = []) then Ok None
          else
            fail_if negb (forallb (local_placement local_node_id) placements) with kInvalidArgument;
            let schemas := sort_by_version (table_schemas catalog table_id) in
            fail_if negb (bool_decide (ts_schema_id <$> last schemas = Some schema_id)) with kCorruption;
            match lineage_of schemas with
            | Err s => Err s
            | Ok lineage =>
                Ok (Some {| rt_name := cd_name active_definition; rt_quoted := cd_quoted active_definition;
                            rt_lineage := lineage; rt_policy := policy;
                            rt_tablets := sorting.merge_sort uuid_le (tp_tablet_id <$> placements) |})
            end
      end
  end.
Fixpoint recover_tables (catalog : MetadataCatalogSnapshot) (local_node_id : NodeId)
    (active : list (TableId * SchemaId)) : result (list RecoveredTable) :=
  match active with
  | [] => Ok []
  | (table_id, schema_id) :: rest =>
      match recover_table catalog local_node_id table_id schema_id with
      | Err s => Err s
      | Ok table =>
          match recover_tables catalog local_node_id rest with
          | Err s => Err s
          | Ok tables => Ok (match table with Some t => t :: tables | None => tables end)
          end
      end
  end.
Definition build_complete_tables (catalog : MetadataCatalogSnapshot) (local_node_id : NodeId)
  : result (list RecoveredTable) :=
  match recover_tables catalog local_node_id (cs_active_schemas catalog) with
  | Err s => Err s
  | Ok tables => Ok (sorting.merge_sort table_le tables)
  end.

(** * replicated_ingest_database.cpp *)

Definition active_definition (catalog : MetadataCatalogSnapshot) (table_id : TableId) : option CatalogTableDefinition :=
  match List.find (fun a => bool_decide (a.1 = table_id)) (cs_active_schemas catalog) with
  | None => None
  | Some (_, schema_id) =>
      List.find (fun d => bool_decide (ts_schema_id (cd_schema d) = schema_id)
                          && bool_decide (ts_table_id (cd_schema d) = table_id)) (cs_schema_definitions catalog)
  end.

(** The versions follow each other. *)
Fixpoint consecutive (schemas : list TableSchema) : bool :=
  match schemas with
  | a :: ((b :: _) as rest) => (ts_version b =? u64 (ts_version a + 1)) && consecutive rest
  | _ => true
  end.
Definition retained_schemas (catalog : MetadataCatalogSnapshot) (table_id : TableId) : result (list TableSchema) :=
  let schemas := sort_by_version (table_schemas catalog table_id) in
  fail_if bool_decide (schemas = []) with kCorruption;
  fail_if negb (consecutive schemas) with kCorruption;
  Ok schemas.
Definition retained_lineage (catalog : MetadataCatalogSnapshot) (table_id : TableId) : result (list TableSchema) :=
  match retained_schemas catalog table_id with
  | Err s => Err s
  | Ok schemas => lineage_of schemas
  end.

(** * The reopened catalog and the state of the metadata machine *)

(** * Searching the values of a map *)

Section values.
Context {V : Type} (key : V -> list byte).
Implicit Types m : list (list byte * V).

(** The values are found by the key they carry. *)
Lemma find_value m k : usorted m -> (forall k v, uget k m = Some v -> key v = k) ->
  List.find (fun v => bool_decide (key v = k)) m.*2 = uget k m.
Proof.
  intros Hs Hk. destruct (List.find _ _) as [v|] eqn:E.
  - apply find_some in E as [Hin%list_elem_of_In Ev%bool_decide_eq_true]. apply list_elem_of_fmap in Hin as ([k' v'] & -> & Hin).
    apply uget_elem in Hin; [|done]. cbn in *. pose proof (Hk _ _ Hin). congruence.
  - destruct (uget k m) as [v|] eqn:G; [|done]. pose proof (Hk _ _ G) as Ek. apply uget_elem in G; [|done].
    assert (Hin : In v m.*2) by (apply list_elem_of_In, list_elem_of_fmap; by exists (k, v)).
    apply (find_none _ _ E) in Hin. bool_prop. done.
Qed.
Lemma values_NoDup m : usorted m -> (forall k v, uget k m = Some v -> key v = k) -> NoDup (key <$> m.*2).
Proof.
  intros Hs Hk. assert (key <$> m.*2 = m.*1) as ->.
  { rewrite <- list_fmap_compose. apply list_fmap_ext. intros i [k v] Hi. cbn. apply Hk, uget_elem; [done|]. by eapply list_elem_of_lookup_2. }
  unfold om_sorted in Hs. induction Hs as [|a l Hs IH Hall]; constructor; [|done].
  intros Hin. rewrite Forall_forall in Hall. specialize (Hall _ Hin). by rewrite (proj2 (uuid_compare_Eq a a)) in Hall.
Qed.
End values.

(** * Histories *)

Lemma history_made m t l : catalog_ok m -> history m t l -> Forall schema_made l.
Proof.
  intros Hm [_ Hin]. apply Forall_forall. intros s (_ & d & Hd & <-)%Hin. by apply (co_keys m Hm) in Hd as (_ & ? & _).
Qed.
Lemma history_NoDup m t l : catalog_ok m -> history m t l -> NoDup (ts_schema_id <$> l).
Proof.
  intros Hm [Hc Hin]. apply NoDup_alt. intros i j id. rewrite !list_lookup_fmap.
  destruct (l !! i) as [a|] eqn:Ei; [|done]. destruct (l !! j) as [b|] eqn:Ej; [|done]. cbn. intros [= <-] [= E].
  pose proof (list_elem_of_lookup_2 _ _ _ Ei) as (_ & d & Hd & Ed)%Hin.
  pose proof (list_elem_of_lookup_2 _ _ _ Ej) as (_ & e & He & Ee)%Hin.
  assert (a = b) as -> by congruence. pose proof (chain_versions _ Hc _ _ Ei). pose proof (chain_versions _ Hc _ _ Ej). lia.
Qed.

Lemma append_all_app l rest s : append_all l (rest ++ [s]) =
  match append_all l rest with Ok l' => append_all l' [s] | Err e => Err e end.
Proof.
  revert l. induction rest as [|x rest IH]; intros l; [done|]. cbn [append_all app].
  destruct (lineage_append x l) as [status l']. destruct (is_ok status); [apply IH|done].
Qed.
Lemma lineage_of_chain l : chain l -> Forall schema_made l -> NoDup (ts_schema_id <$> l) -> names_kept l -> lineage_of l = Ok l.
Proof.
  induction 1 as [s E|l p s Hc IH El Hv]; intros Hm Hd Hn.
  - rewrite Forall_singleton in Hm. cbn. by rewrite first_version_lineage.
  - pose proof (chain_append _ _ _ Hc El Hv) as Ha. specialize (Ha ltac:(rewrite Forall_app, Forall_singleton in Hm; tauto) Hd Hn).
    apply Forall_app in Hm as [Hm _]. rewrite fmap_app in Hd. apply NoDup_app in Hd as (Hd & _ & _).
    specialize (IH Hm Hd ltac:(intros x y c d Hx Hy; apply Hn; rewrite elem_of_app; by left)).
    destruct l as [|x l]; [done|]. cbn [lineage_of app] in *. destruct (lineage_create x); [|done].
    rewrite append_all_app, IH. cbn [append_all]. by rewrite Ha.
Qed.
(** A chain that became a lineage keeps its names. *)
Lemma append_all_lineage rest : forall l l', lineage l -> Forall schema_made rest -> append_all l rest = Ok l' -> lineage l' /\ l' = l ++ rest.
Proof.
  induction rest as [|s rest IH]; intros l l' Hl Hm H; cbn in H; [injection H as <-; by rewrite app_nil_r|].
  apply Forall_cons in Hm as [Hs Hm]. destruct (lineage_append s l) as [status l1] eqn:E. destruct (is_ok status) eqn:Es; [|done].
  destruct (lineage_append_ok _ _ _ _ (lineage_all_ok _ Hl) Hs E) as [_ [[_ ->]|[Hne _]]]; [|by apply bool_decide_eq_true in Es].
  apply IH in H as [? ->]; [split; [done|by rewrite <- app_assoc]|by eapply lineage_more|done].
Qed.
Lemma lineage_of_names l l' : Forall schema_made l -> lineage_of l = Ok l' -> l' = l /\ lineage l.
Proof.
  destruct l as [|s rest]; [done|]. intros [Hs Hm]%Forall_cons. cbn. destruct (lineage_create s) as [l0|] eqn:E; [|done]. intros H.
  apply append_all_lineage in H as [Hl ->]; [|by eapply lineage_new|done]. unfold lineage_create in E.
  destruct (_ || _); [done|]. injection E as <-. by split.
Qed.

(** The schemas of a table in the snapshot, sorted, are its history. *)
Lemma table_schemas_elem m t s : catalog_ok m ->
  s ∈ table_schemas (catalog_snapshot m) t <-> ts_table_id s = t /\ exists d, uget (ts_schema_id s) (md_definitions m) = Some d /\ cd_schema d = s.
Proof.
  intros Hm. unfold table_schemas. rewrite list_elem_of_In, filter_In, bool_decide_eq_true, <- list_elem_of_In.
  cbn [catalog_snapshot cs_schema_definitions]. rewrite Logic.and_comm. apply and_iff_compat_l. rewrite list_elem_of_fmap. split.
  - intros (d & -> & ([id e] & -> & Hin)%list_elem_of_fmap). apply uget_elem in Hin; [|apply Hm]. cbn.
    exists e. split; [|done]. by rewrite (proj1 (co_keys m Hm _ _ Hin)).
  - intros (d & Hd & <-). exists d. split; [done|]. apply list_elem_of_fmap. eexists (_, d). split; [done|]. by apply uget_elem; [apply Hm|].
Qed.
Lemma table_schemas_NoDup m t : catalog_ok m -> NoDup (table_schemas (catalog_snapshot m) t).
Proof.
  intros Hm. apply NoDup_ListNoDup, List.NoDup_filter, NoDup_ListNoDup. cbn [catalog_snapshot cs_schema_definitions].
  apply (NoDup_fmap_1 ts_schema_id). rewrite <- list_fmap_compose.
  apply (values_NoDup (ts_schema_id ∘ cd_schema)); [apply Hm|]. intros k d Hd. by apply (co_keys m Hm).
Qed.
Lemma chain_sorted l : chain l -> StronglySorted version_le l.
Proof.
  intros Hc. pose proof (chain_versions l Hc) as Hv. clear Hc. revert Hv. generalize 1.
  induction l as [|s l IH]; intros n Hv; constructor.
  - apply (IH (n + 1)). intros k t Hk. rewrite (Hv (S k) t Hk). lia.
  - apply Forall_forall. intros t [k Hk]%list_elem_of_lookup. unfold version_le.
    rewrite (Hv 0%nat s eq_refl), (Hv (S k) t Hk). lia.
Qed.
Lemma sorted_schemas m t l : catalog_ok m -> history m t l -> sort_by_version (table_schemas (catalog_snapshot m) t) = l.
Proof.
  intros Hm Hh. pose proof Hh as [Hc Hin].
  assert (Hp : sort_by_version (table_schemas (catalog_snapshot m) t) ≡ₚ l).
  { unfold sort_by_version. rewrite sorting.merge_sort_Permutation. apply NoDup_Permutation; [by apply table_schemas_NoDup| |].
    - eapply (NoDup_fmap_1 ts_schema_id), history_NoDup; done.
    - intros s. by rewrite table_schemas_elem, Hin. }
  apply (sorting.StronglySorted_unique_strong version_le); [| |by apply chain_sorted|done].
  - intros a b Ha Hb H1 H2. rewrite Hp in Ha. apply list_elem_of_lookup in Ha as [i Hi], Hb as [j Hj].
    pose proof (chain_versions _ Hc _ _ Hi). pose proof (chain_versions _ Hc _ _ Hj). unfold version_le in *.
    assert (i = j) as -> by lia. congruence.
  - apply Sorted_StronglySorted; [intros ???; unfold version_le; lia|]. apply sorting.Sorted_merge_sort. intros ??; unfold version_le; lia.
Qed.

(** * Tables *)

(** The tablets of a table. *)
Definition tablet_of (m : Metadata) (t : TableId) (tablet : TabletId) : Prop :=
  exists p, find_tablet tablet m = Some p /\ tp_table_id p = t.
(** The table has a definition, a policy and a tablet, so that its creation is finished. *)
Definition ready (m : Metadata) (t : TableId) : Prop :=
  is_Some (find_active_table_definition t m) /\ is_Some (find_table_policy t m) /\ exists tablet, tablet_of m t tablet.
(** Every tablet of the table is placed on the node [n] alone. *)
Definition local_table (m : Metadata) (n : NodeId) (t : TableId) : Prop :=
  forall tablet p, find_tablet tablet m = Some p -> tp_table_id p = t -> tp_replicas p = [n].
(** Why a table whose creation is finished is not recovered: a tablet is not on the local
    node alone, or its history gave a column name to two columns. *)
Definition unrecoverable (m : Metadata) (n : NodeId) (t : TableId) (s : StatusCode) : Prop :=
  ready m t /\
  (s = kInvalidArgument /\ (exists tablet p, find_tablet tablet m = Some p /\ tp_table_id p = t /\ tp_replicas p <> [n]) \/
   s = kCorruption /\ local_table m n t /\ exists l, history m t l /\ ~ names_kept l).
(** [r] is table [t] of the machine. *)
Record recovers (m : Metadata) (t : TableId) (r : RecoveredTable) : Prop := {
  rc_definition : exists d, find_active_table_definition t m = Some d /\ rt_name r = cd_name d /\ rt_quoted r = cd_quoted d /\
    last (rt_lineage r) = Some (cd_schema d);
  rc_lineage : history m t (rt_lineage r) /\ lineage (rt_lineage r);
  rc_policy : find_table_policy t m = Some (rt_policy r);
  rc_tablets : NoDup (rt_tablets r) /\ forall tablet, tablet ∈ rt_tablets r <-> tablet_of m t tablet }.

Lemma lineage_of_Err l s : lineage_of l = Err s -> s = kCorruption.
Proof.
  destruct l as [|x rest]; [by intros [= <-]|]. cbn. destruct (lineage_create x) as [l|]; [|by intros [= <-]].
  revert l. induction rest as [|y rest IH]; intros l; [done|]. cbn. destruct (lineage_append y l) as [? ?].
  destruct (is_ok _); [apply IH|by intros [= <-]].
Qed.
Lemma placements_spec m t : tablets_ok m ->
  let placements := List.filter (fun p => bool_decide (tp_table_id p = t)) (cs_tablet_placements (catalog_snapshot m)) in
  NoDup (tp_tablet_id <$> placements) /\
  (forall tablet, tablet ∈ tp_tablet_id <$> placements <-> tablet_of m t tablet) /\
  (forall p, p ∈ placements <-> find_tablet (tp_tablet_id p) m = Some p /\ tp_table_id p = t).
Proof.
  intros Hm placements.
  assert (Hp : forall p, p ∈ placements <-> find_tablet (tp_tablet_id p) m = Some p /\ tp_table_id p = t).
  { intros p. unfold placements. rewrite list_elem_of_In, filter_In, bool_decide_eq_true, <- list_elem_of_In.
    cbn [catalog_snapshot cs_tablet_placements]. apply and_iff_compat_r. rewrite list_elem_of_fmap. unfold find_tablet. split.
    - intros ([k q] & -> & Hin). cbn. apply uget_elem in Hin; [|apply Hm]. by rewrite (proj1 (to_placement m Hm _ _ Hin)).
    - intros Hq. eexists (_, p). split; [done|]. by apply uget_elem; [apply Hm|]. }
  split; [|split].
  - apply (NoDup_ListNoDup (tp_tablet_id <$> placements)).
    assert (Hd : NoDup (tp_tablet_id <$> (md_tablets m).*2)) by (apply values_NoDup; [apply Hm|]; intros k p Hk; by apply (to_placement m Hm)).
    unfold placements. cbn [catalog_snapshot cs_tablet_placements]. apply NoDup_ListNoDup. clear -Hd.
    induction (md_tablets m).*2 as [|p l IH]; [done|]. rewrite fmap_cons in Hd. apply NoDup_cons in Hd as [Hn Hd]. cbn.
    destruct (bool_decide _); [|by apply IH]. rewrite fmap_cons. apply NoDup_cons. split; [|by apply IH].
    intros (q & Eq & Hin)%list_elem_of_fmap. destruct Hn. rewrite Eq. apply list_elem_of_In, filter_In in Hin as [Hin _].
    apply list_elem_of_fmap. exists q. by rewrite list_elem_of_In.
  - intros tablet. rewrite list_elem_of_fmap. split.
    + intros (p & -> & [H1 H2]%Hp). by exists p.
    + intros (p & H1 & H2). pose proof (to_placement m Hm _ _ H1) as (E & _). exists p. split; [done|]. apply Hp. by rewrite E.
  - done.
Qed.
Lemma forallb_refuted {A} (f : A -> bool) l : forallb f l = false -> exists x, x ∈ l /\ f x = false.
Proof.
  induction l as [|a l IH]; [done|]. cbn. destruct (f a) eqn:E; [|intros _; exists a; split; [left|done]].
  intros (x & ? & ?)%IH. exists x. split; [by right|done].
Qed.
(** What the check of the placements decides. *)
Lemma local_placement_spec m n tablet p : tablets_ok m -> find_tablet tablet m = Some p ->
  local_placement n p = true <-> tp_replicas p = [n].
Proof.
  intros Hm Hp. unfold local_placement. split; [intros H; bool_prop; tauto|]. intros Er. rewrite bool_decide_eq_true_2 by done.
  destruct (tp_leader_hint p) as [leader|] eqn:Eh; [|done]. apply (to_placement m Hm _ _ Hp) in Eh. rewrite Er in Eh.
  apply list_elem_of_singleton in Eh as ->. by rewrite Z.eqb_refl.
Qed.

(** A round of the recovery. *)
Lemma recover_table_spec m n t id : metadata_ok m -> uget t (md_active_schemas m) = Some id ->
  match recover_table (catalog_snapshot m) n t id with
  | Ok None => ~ ready m t
  | Ok (Some r) => ready m t /\ local_table m n t /\ recovers m t r
  | Err s => unrecoverable m n t s
  end.
Proof.
  intros Hm Ha. pose proof Hm as [Hc Ht Hp _]. destruct (history_active _ _ _ Hc Ha) as (l & d & Hh & El & Hd & Et).
  assert (Hfind : find_active_table_definition t m = Some d) by (unfold find_active_table_definition; by rewrite Ha).
  unfold recover_table, find_definition. cbn [catalog_snapshot cs_schema_definitions cs_table_policies].
  rewrite (find_value (ts_schema_id ∘ cd_schema)); [|apply Hc|intros k e He; by apply (co_keys m Hc)]. rewrite Hd.
  rewrite bool_decide_eq_true_2 by done. cbn [negb].
  rewrite (find_value po_table_id); [|apply Hp|intros k e He; by apply (po_complete m Hp)].
  destruct (uget t (md_policies m)) as [policy|] eqn:Epol; [|intros (_ & [? ?] & _); unfold find_table_policy in *; congruence].
  destruct (placements_spec m t Ht) as (P1 & P2 & P3). cbn [catalog_snapshot cs_tablet_placements] in P1, P2, P3. cbn zeta.
  set (placements := List.filter _ _) in *. destruct (bool_decide (placements = [])) eqn:Ep.
  { bool_prop. rewrite Ep in P2. intros (_ & _ & tb & Htb%P2%elem_of_nil). done. }
  bool_prop. assert (Hready : ready m t).
  { split; [by eauto|]. split; [by eexists|]. destruct placements as [|p ps]; [done|]. exists (tp_tablet_id p). apply P2. rewrite fmap_cons. left. }
  destruct (forallb (local_placement n) placements) eqn:Efor; cbn [negb]; cycle 1.
  { split; [done|]. left. split; [done|]. apply forallb_refuted in Efor as (p & Hin & Hl). apply P3 in Hin as [Hp1 Hp2].
    exists (tp_tablet_id p), p. split; [done|]. split; [done|]. intros Er.
    apply (local_placement_spec m n _ _ Ht Hp1) in Er. congruence. }
  assert (Hlocal : local_table m n t).
  { intros tb p Hp1 Hp2. rewrite forallb_forall in Efor. apply (local_placement_spec m n _ _ Ht Hp1), Efor, list_elem_of_In, P3.
    by rewrite (proj1 (to_placement m Ht _ _ Hp1)). }
  rewrite (sorted_schemas m t l Hc Hh), El. cbn [fmap option_fmap option_map].
  rewrite bool_decide_eq_true_2 by (f_equal; by apply (co_keys m Hc)). cbn [negb].
  pose proof (history_made _ _ _ Hc Hh) as Hmade. destruct (lineage_of l) as [l'|s] eqn:Elin.
  - apply lineage_of_names in Elin as [-> Hlin]; [|done]. split; [done|]. split; [done|]. split; cbn; try done; [by exists d|].
    split; [by rewrite sorting.merge_sort_Permutation|]. intros tb. by rewrite sorting.merge_sort_Permutation.
  - apply lineage_of_Err in Elin as Es. split; [done|]. right. split; [done|]. split; [done|]. exists l. split; [done|]. intros Hn.
    rewrite lineage_of_chain in Elin; [done|apply Hh|done|by eapply history_NoDup|done].
Qed.

Lemma recover_tables_spec m n : metadata_ok m ->
  forall active, (forall t id, (t, id) ∈ active -> uget t (md_active_schemas m) = Some id) ->
  match recover_tables (catalog_snapshot m) n active with
  | Ok tables =>
      (forall r, r ∈ tables -> exists t, t ∈ active.*1 /\ ready m t /\ recovers m t r) /\
      (forall t, t ∈ active.*1 -> ready m t -> local_table m n t /\ exists r, r ∈ tables /\ recovers m t r)
  | Err s => exists t, unrecoverable m n t s
  end.
Proof.
  intros Hm. induction active as [|[t id] active IH]; intros Hin; cbn [recover_tables].
  { split; [by intros r ?%elem_of_nil|]. intros t ?%elem_of_nil. done. }
  pose proof (recover_table_spec m n t id Hm (Hin t id ltac:(left))) as Hr.
  specialize (IH ltac:(intros; apply Hin; by right)).
  destruct (recover_table _ _ _ _) as [table|s]; [|by eexists]. destruct (recover_tables _ _ _) as [tables|s]; [|done].
  destruct IH as [I1 I2]. setoid_rewrite fmap_cons. setoid_rewrite elem_of_cons. cbn [fst].
  destruct table as [r0|].
  - destruct Hr as (Hr1 & Hloc & Hr2). split.
    + intros r [->|Hr]%elem_of_cons; [by eauto|]. destruct (I1 _ Hr) as (t' & ? & ? & ?). eauto.
    + intros t' [->|Ht] Hrd; [split; [done|]; exists r0; split; [left|done]|]. destruct (I2 _ Ht Hrd) as (? & r & Hr & ?).
      split; [done|]. exists r. split; [by right|done].
  - split; [intros r Hr'; destruct (I1 _ Hr') as (t' & ? & ? & ?); eauto|]. intros t' [->|Ht] Hrd; [done|by apply I2].
Qed.

(** * The replicated projection *)

Lemma successor_width p s : validate_v1_successor p s = kOk -> ts_version p <> max_u64.
Proof.
  unfold validate_v1_successor, next_version. intros H. destruct (negb _); [done|]. destruct (negb _); [done|].
  destruct (Z.eqb_spec (ts_version p) max_u64); done.
Qed.
Lemma chain_width l : chain l -> forall s, s ∈ l -> 1 <= ts_version s <= max_u64.
Proof.
  induction 1 as [s E|l p s _ IH El Hv]; intros t.
  - intros ->%list_elem_of_singleton. rewrite E. done.
  - intros [Ht|Ht%list_elem_of_singleton]%elem_of_app; [by apply IH|]. subst t. pose proof (IH p (last_elem _ _ El)).
    pose proof (successor_width _ _ Hv). apply successor_spec in Hv as (_ & _ & -> & _). lia.
Qed.
Lemma chain_consecutive l : chain l -> consecutive l = true.
Proof.
  intros Hc. cut (forall n, (forall k s, l !! k = Some s -> ts_version s = n + Z.of_nat k) ->
    (forall s, s ∈ l -> 1 <= ts_version s <= max_u64) -> consecutive l = true).
  { intros H. apply (H 1); [by apply chain_versions|by apply chain_width]. }
  clear Hc. induction l as [|a [|b l] IH]; intros n Hv Hw; [done..|]. cbn [consecutive]. apply andb_true_iff. split.
  - apply Z.eqb_eq. rewrite (Hv 1%nat b eq_refl), (Hv 0%nat a eq_refl). pose proof (Hw b ltac:(right; left)) as Hb.
    rewrite (Hv 1%nat b eq_refl) in Hb. unfold u64, wrap. rewrite Z.mod_small; [lia|].
    pose proof (Hw a ltac:(left)) as Ha. rewrite (Hv 0%nat a eq_refl) in Ha. lia.
  - apply (IH (n + 1)); [|intros s Hs; apply Hw; by right]. intros k s Hk. rewrite (Hv (S k) s Hk). lia.
Qed.

Lemma retained_spec m t d : metadata_ok m -> find_active_table_definition t m = Some d ->
  active_definition (catalog_snapshot m) t = Some d /\
  exists l, history m t l /\ last l = Some (cd_schema d) /\ retained_schemas (catalog_snapshot m) t = Ok l.
Proof.
  intros [Hc _ _ _] Hd. unfold find_active_table_definition in Hd. destruct (uget t _) as [id|] eqn:Ha; [|done].
  destruct (history_active _ _ _ Hc Ha) as (l & e & Hh & El & He & Et). unfold find_schema_definition in Hd.
  assert (e = d) as -> by congruence. split.
  - unfold active_definition. cbn [catalog_snapshot cs_active_schemas cs_schema_definitions].
    destruct (List.find _ (md_active_schemas m)) as [[t' id']|] eqn:Ef.
    + apply find_some in Ef as [Hin%list_elem_of_In Eb%bool_decide_eq_true]. cbn in Eb. subst t'.
      apply uget_elem in Hin; [|apply Hc]. assert (id' = id) as -> by congruence.
      rewrite <- (find_value (ts_schema_id ∘ cd_schema)) in He; [|apply Hc|intros k x Hx; by apply (co_keys m Hc)].
      clear -He Et. induction (md_definitions m).*2 as [|x xs IH]; [done|]. cbn in *. destruct (bool_decide _) eqn:Eb; [|by apply IH].
      injection He as ->. by rewrite bool_decide_eq_true_2.
    + apply uget_elem, list_elem_of_In in Ha; [|apply Hc]. apply (find_none _ _ Ef) in Ha. cbn in Ha. by bool_prop.
  - exists l. split; [done|]. split; [done|]. unfold retained_schemas. rewrite (sorted_schemas m t l Hc Hh).
    rewrite chain_consecutive by apply Hh. by rewrite bool_decide_eq_false_2 by (by intros ->).
Qed.
