(* ===== verification/MetadataTheorems.v ===== *)
(** What the metadata state machine promises: what a committed command may change, an
    invariant of every reachable state, lookups by name, and reopening from the catalog. *)
From S2P Require Import Prelude Bytes RaftTypes RaftMembership OrderedMap Schema SchemaTheorems.
From S2P Require Import Metadata MetadataFacts.
From S2P Require Import CatalogRecovery.
From Stdlib Require Import Sorted.
From stdpp Require sorting.
#[local] Open Scope Z_scope.

(** * Runs *)

(** The entries of the metadata group's log. *)
Inductive metadata_event :=
| CommandEvent (command : MetadataCommand)
| DefinitionEvent (definition : CatalogTableDefinition)
| BindingEvent (binding : TabletGroupBindingMetadata)
| NoopEvent
| NoopsThroughEvent.
Definition apply_event (index : LogIndex) (e : metadata_event) (m : Metadata) : StatusCode * Metadata :=
  match e with
  | CommandEvent command => apply_committed index command m
  | DefinitionEvent definition => apply_committed_schema_definition index definition m
  | BindingEvent binding => apply_committed_tablet_group_binding index binding m
  | NoopEvent => apply_internal_noop index m
  | NoopsThroughEvent => apply_internal_noops_through index m
  end.
(** A definition holds a schema that was constructed. *)
Definition event_made (e : metadata_event) : Prop :=
  match e with DefinitionEvent d => schema_made (cd_schema d) | _ => True end.

(** The machines that calls can lead to, in any order and with any index. *)
Inductive reachable : Metadata -> Prop :=
| reachable_new limits m :
    Forall (in_width 64) [maximum_nodes limits; maximum_schemas limits; maximum_tablets limits] ->
    Metadata_create limits = Ok m -> reachable m
| reachable_step index e m :
    reachable m -> in_width 64 index -> event_made e -> reachable (apply_event index e m).2.

Lemma metadata_create_ok limits m :
  Forall (in_width 64) [maximum_nodes limits; maximum_schemas limits; maximum_tablets limits] ->
  Metadata_create limits = Ok m -> metadata_ok m.
Proof.
  unfold Metadata_create. rewrite !Forall_cons. unfold in_width. intros Hl H. destruct (_ || _); [done|]. injection H as <-.
  split; [split..|]; cbn -[Z.pow]; try done; try (by constructor); lia.
Qed.
Lemma apply_event_settles index e m : metadata_ok m -> in_width 64 index -> event_made e -> settles m index (apply_event index e m).
Proof.
  intros Hm Hi He. destruct e; cbn [apply_event].
  - by apply apply_committed_settles.
  - by apply apply_definition_settles.
  - by apply apply_binding_settles.
  - by apply apply_internal_noop_settles.
  - by apply apply_internal_noops_through_settles.
Qed.
Lemma reachable_ok m : reachable m -> metadata_ok m.
Proof.
  induction 1 as [limits m Hl E|index e m _ IH Hi He]; [by eapply metadata_create_ok|].
  destruct (apply_event_settles index e m IH Hi He) as [(_ & _ & ? & _)|E]; [done|by rewrite E].
Qed.
(** A success moved by one index, or forward over internal entries. *)
Definition moved (e : metadata_event) (before after : LogIndex) : Prop :=
  match e with NoopsThroughEvent => before <= after | _ => after = before + 1 end.
Lemma in_order index m : metadata_ok m -> in_width 64 index -> out_of_order index m = false -> index = md_applied m + 1.
Proof.
  intros Hm Hi H. unfold out_of_order in H. bool_prop. pose proof (mo_applied m Hm) as Ha. unfold u64, wrap, in_width in *.
  destruct (decide (md_applied m + 1 = 2 ^ 64)) as [E|]; [rewrite E, Z.mod_same in * by lia; lia|]. rewrite Z.mod_small in * by lia. done.
Qed.
Lemma apply_event_moved index e m : metadata_ok m -> in_width 64 index -> (apply_event index e m).1 = kOk -> moved e (md_applied m) index.
Proof.
  intros Hm Hi. destruct e; cbn [apply_event moved]; unfold apply_committed, apply_committed_schema_definition,
    apply_committed_tablet_group_binding, apply_internal_noop, apply_internal_noops_through.
  5: { destruct (_ <? _) eqn:G; [done|]. bool_prop. done. }
  all: destruct (out_of_order index m) eqn:G; [done|]; intros _; by apply in_order.
Qed.

(** * What an entry writes *)

(** A lookup after the record [written] was put in place. *)
Definition put {K V : Type} `{EqDecision K} (written : option (K * V)) (look : K -> option V) (k : K) : option V :=
  match written with
  | Some (k', v) => if decide (k = k') then Some v else look k
  | None => look k
  end.
Definition node_written (e : metadata_event) : option (NodeId * ClusterNodeMetadata) :=
  match e with CommandEvent (NodeCommand v) => Some (cn_node_id v, v) | _ => None end.
Definition policy_written (e : metadata_event) : option (TableId * TablePolicyMetadata) :=
  match e with CommandEvent (PolicyCommand v) => Some (po_table_id v, v) | _ => None end.
(** A policy also sets the older retention record. *)
Definition retention_written (e : metadata_event) : option (TableId * RetentionMetadata) :=
  match e with
  | CommandEvent (RetentionCommand v) => Some (rm_table_id v, v)
  | CommandEvent (PolicyCommand v) =>
      Some (po_table_id v, {| rm_table_id := po_table_id v; rm_system_history_ns := po_system_history_ns v;
                              rm_retry_retention_positions := po_retry_retention_positions v |})
  | _ => None
  end.
Definition tablet_written (e : metadata_event) : option (TabletId * TabletPlacementMetadata) :=
  match e with
  | CommandEvent (TabletCommand v) =>
      Some (tp_tablet_id v, {| tp_table_id := tp_table_id v; tp_tablet_id := tp_tablet_id v;
        tp_placement_epoch := tp_placement_epoch v; tp_replicas := sort_voters (tp_replicas v);
        tp_leader_hint := tp_leader_hint v |})
  | _ => None
  end.
Definition binding_written (e : metadata_event) : option (TabletId * TabletGroupBindingMetadata) :=
  match e with BindingEvent b => Some (tb_tablet_id b, b) | _ => None end.
Definition definition_written (e : metadata_event) : option (SchemaId * CatalogTableDefinition) :=
  match e with DefinitionEvent d => Some (ts_schema_id (cd_schema d), d) | _ => None end.
(** A schema command replaces the recorded identity; a definition records one only when
    there is none. *)
Definition identity_written (e : metadata_event) (m : Metadata) : option (SchemaId * SchemaMetadata) :=
  match e with
  | CommandEvent (SchemaCommand v) => Some (sm_schema_id v, v)
  | DefinitionEvent d =>
      match find_schema (ts_schema_id (cd_schema d)) m with
      | Some _ => None
      | None => Some (ts_schema_id (cd_schema d),
          {| sm_table_id := ts_table_id (cd_schema d); sm_schema_id := ts_schema_id (cd_schema d);
             sm_schema_version := ts_version (cd_schema d) |})
      end
  | _ => None
  end.

(** Every record of [m'] is the one the entry names or the one that was there. *)
Record writes (e : metadata_event) (m m' : Metadata) : Prop := {
  wr_node : forall k, find_node k m' = put (node_written e) (fun k => find_node k m) k;
  wr_policy : forall k, find_table_policy k m' = put (policy_written e) (fun k => find_table_policy k m) k;
  wr_retention : forall k, find_retention k m' = put (retention_written e) (fun k => find_retention k m) k;
  wr_tablet : forall k, find_tablet k m' = put (tablet_written e) (fun k => find_tablet k m) k;
  wr_binding : forall k,
    find_tablet_group_binding k m' = put (binding_written e) (fun k => find_tablet_group_binding k m) k;
  wr_definition : forall k,
    find_schema_definition k m' = put (definition_written e) (fun k => find_schema_definition k m) k;
  wr_identity : forall k, find_schema k m' = put (identity_written e m) (fun k => find_schema k m) k }.

(** Lookups after an assignment. *)
Lemma nodes_put k (v : ClusterNodeMetadata) nodes k' : om_sorted Z.compare nodes ->
  om_lookup Z.compare k' (om_assign Z.compare k v nodes) = put (Some (k, v)) (fun k => om_lookup Z.compare k nodes) k'.
Proof.
  intros Hs. rewrite om_lookup_assign; [|apply Z.compare_eq_iff|apply Z.compare_antisym|intros ???; rewrite !Z.compare_lt_iff; lia|done].
  cbn [put]. destruct (Z.compare_spec k' k); case_decide; done || lia.
Qed.
Lemma uset_put {V} k (v : V) m k' : usorted m -> uget k' (uset k v m) = put (Some (k, v)) (fun k => uget k m) k'.
Proof. intros Hs. cbn [put]. by apply uget_uset. Qed.

(** The nodes a call leaves. *)
Lemma apply_event_nodes index e m : om_sorted Z.compare (md_nodes m) -> om_sorted Z.compare (md_nodes (apply_event index e m).2).
Proof.
  intros Hs. destruct e; cbn [apply_event]; unfold apply_committed, apply_committed_schema_definition,
    apply_committed_tablet_group_binding, apply_internal_noop, apply_internal_noops_through; cbn zeta;
    [|by repeat case_match..].
  destruct (out_of_order _ _); [done|]. destruct command; cbn beta iota;
    unfold apply_node, apply_schema, apply_tablet, apply_retention, apply_policy, refuse; cbn zeta; repeat case_match; simplify_eq; try done; cbn; [|done..].
  cbn. apply om_assign_sorted; [apply Z.compare_eq_iff|apply Z.compare_antisym|intros ???; rewrite !Z.compare_lt_iff; lia|done].
Qed.
Lemma reachable_nodes m : reachable m -> om_sorted Z.compare (md_nodes m).
Proof.
  induction 1 as [limits m _ E|index e m _ IH _ _]; [|by apply apply_event_nodes].
  unfold Metadata_create in E. destruct (_ || _); [done|]. injection E as <-. constructor.
Qed.

(** Each entry writes the record it names. *)
Lemma apply_command_writes index c m m' : metadata_ok m -> om_sorted Z.compare (md_nodes m) ->
  apply_committed index c m = (kOk, m') -> writes (CommandEvent c) m m'.
Proof.
  intros [[] [] [] _] Hn. unfold apply_committed. destruct (out_of_order _ _); [done|]. destruct c;
    unfold apply_node, apply_schema, apply_tablet, apply_retention, apply_policy; cbn zeta;
    repeat (match goal with |- context [if ?b then refuse _ else _] => destruct b; [done|] end); intros [= <-];
    split; intros k; try reflexivity; (by apply nodes_put) || by apply uset_put.
Qed.
Lemma apply_binding_writes index b m m' : metadata_ok m ->
  apply_committed_tablet_group_binding index b m = (kOk, m') -> writes (BindingEvent b) m m'.
Proof.
  intros [_ [] _ _]. unfold apply_committed_tablet_group_binding. destruct (out_of_order _ _); [done|]. destruct (_ || _); [done|].
  cbn zeta. destruct (uget (tb_tablet_id b) (md_tablet_groups m)) as [x|] eqn:Ex.
  - destruct (negb _) eqn:Eg; [done|]. bool_prop. destruct (match _ with Some _ => _ | None => _ end); [done|].
    rewrite bool_decide_eq_true_2 by done. intros [= <-]. split; intros k; try reflexivity.
    cbn. case_decide as Ek; [|done]. subst k. unfold find_tablet_group_binding. cbn [set_applied md_tablet_groups].
    rewrite Ex. f_equal. apply to_bound in Ex as (E & _). destruct x, b; cbn in *; congruence.
  - destruct (match _ with Some _ => _ | None => _ end); [done|]. rewrite bool_decide_eq_false_2 by (by intros []).
    destruct (bool_decide _); [done|]. intros [= <-]. split; intros k; try reflexivity.
    unfold find_tablet_group_binding. cbn [set_applied set_bindings md_tablet_groups]. rewrite uemplace_set by done. by apply uset_put.
Qed.
Lemma apply_definition_writes index d m m' : metadata_ok m ->
  apply_committed_schema_definition index d m = (kOk, m') -> writes (DefinitionEvent d) m m'.
Proof.
  intros [Hc _ _ _]. pose proof Hc as []. unfold apply_committed_schema_definition. cbn zeta.
  do 4 (match goal with |- (if ?b then refuse _ else _) = _ -> _ => destruct b; [done|] end).
  destruct (uget _ (md_definitions m)) as [x|] eqn:Ex.
  - destruct (negb _) eqn:Eg; [done|]. bool_prop. subst x. intros [= <-].
    destruct (co_identified _ _ Ex) as (i & Hi & _). split; intros k; try reflexivity.
    + cbn. case_decide as Ek; [|done]. by subst k.
    + unfold identity_written, find_schema. by rewrite Hi.
  - do 4 (match goal with |- (if ?b then refuse _ else _) = _ -> _ => destruct b; [done|] end). intros [= <-].
    split; intros k; try reflexivity.
    + unfold find_schema_definition. cbn [set_applied set_catalog md_definitions]. rewrite uemplace_set by done. by apply uset_put.
    + unfold identity_written, find_schema. cbn [set_applied set_catalog md_schemas].
      destruct (uget (ts_schema_id (cd_schema d)) (md_schemas m)) eqn:Ei; [by rewrite bool_decide_eq_false_2|].
      rewrite bool_decide_eq_true_2, uemplace_set by done. by apply uset_put.
Qed.
Lemma apply_event_writes index e m m' : metadata_ok m -> om_sorted Z.compare (md_nodes m) ->
  apply_event index e m = (kOk, m') -> writes e m m'.
Proof.
  intros Hm Hn. destruct e; cbn [apply_event]; [by apply apply_command_writes|by apply apply_definition_writes
    |by apply apply_binding_writes|..]; unfold apply_internal_noop, apply_internal_noops_through;
    match goal with |- (if ?b then _ else _) = _ -> _ => destruct b end; intros [= <-]; split; reflexivity.
Qed.

(** * By name *)

Lemma find_by_name_spec name quoted m active d :
  find_by_name name quoted m active = Some d ->
  exists t id, (t, id) ∈ active /\ uget id (md_definitions m) = Some d /\ cd_name d = name /\ cd_quoted d = quoted.
Proof.
  induction active as [|[t id] active IH]; [done|]. cbn [find_by_name]. intros H.
  assert (Hrest : find_by_name name quoted m active = Some d -> exists t' id', (t', id') ∈ (t, id) :: active /\
    uget id' (md_definitions m) = Some d /\ cd_name d = name /\ cd_quoted d = quoted).
  { intros (t' & id' & ? & ?)%IH. exists t', id'. split; [by right|done]. }
  destruct (uget id (md_definitions m)) as [e|] eqn:E; [|by apply Hrest]. destruct (_ && _) eqn:G; [|by apply Hrest].
  injection H as ->. bool_prop. exists t, id. split; [left|]. split; [done|]. split; [done|by apply Bool.eqb_prop].
Qed.
Lemma find_by_name_found name quoted m active t id d :
  (t, id) ∈ active -> uget id (md_definitions m) = Some d -> cd_name d = name -> cd_quoted d = quoted ->
  is_Some (find_by_name name quoted m active).
Proof.
  induction active as [|[t' id'] active IH]; [by intros ?%elem_of_nil|]. cbn [find_by_name]. intros [[= <- <-]|Hin]%elem_of_cons Hd En Eq.
  - rewrite Hd, bool_decide_eq_true_2, Eq, Bool.eqb_reflx by done. done.
  - destruct (uget id' _); [|by apply IH]. destruct (_ && _); [done|by apply IH].
Qed.
Lemma named_lookup m name quoted d : metadata_ok m ->
  find_active_table_definition_named name quoted m = Some d <->
  exists t, find_active_table_definition t m = Some d /\ cd_name d = name /\ cd_quoted d = quoted.
Proof.
  intros [Hc _ _ _]. unfold find_active_table_definition_named.
  assert (Hf : forall t e, find_active_table_definition t m = Some e <->
    exists id, uget t (md_active_schemas m) = Some id /\ uget id (md_definitions m) = Some e).
  { intros t e. unfold find_active_table_definition, find_schema_definition. destruct (uget t _) as [id|]; [naive_solver|]. split; [done|naive_solver]. }
  assert (Hsound : forall e, find_by_name name quoted m (md_active_schemas m) = Some e ->
    exists t, find_active_table_definition t m = Some e /\ cd_name e = name /\ cd_quoted e = quoted).
  { intros e (t & id & Hin & He & ?)%find_by_name_spec. exists t. split; [|done]. apply Hf. exists id. split; [|done].
    by apply uget_elem; [apply Hc|]. }
  split; [apply Hsound|]. intros (t & (id & Ha & Hd)%Hf & En & Eq).
  destruct (find_by_name_found name quoted m (md_active_schemas m) t id d) as [e He]; try done; [by apply uget_elem; [apply Hc|]|].
  rewrite He. f_equal. apply Hsound in He as (t' & (id' & Ha' & Hd')%Hf & En' & Eq').
  assert (Et : table_of e = table_of d) by (apply (co_names m Hc _ _ _ _ Hd' Hd); by subst).
  destruct (history_active _ _ _ Hc Ha) as (_ & x & _ & _ & Hx & Ex). destruct (history_active _ _ _ Hc Ha') as (_ & y & _ & _ & Hy & Ey).
  assert (x = d) by congruence. assert (y = e) by congruence. subst x y. assert (t = t') by congruence. subst t'. congruence.
Qed.

(** * Claims *)

(** C11.  What a committed metadata entry changes.  In every reachable machine an entry of the
    log either is refused and changes nothing, or it succeeds and the applied index becomes its
    own index: the next one, or, for a run of internal entries, any index not behind.  Then
    every node, policy, retention, placement, binding, definition and schema identity is the
    one the entry names, as the entry gives it, or the one that was there before ([writes]).
    And some of them are never replaced ([evolves]): every schema definition and every
    tablet's group stays as it was, histories of tables only grow at their end, a schema
    identity and a tablet stay with their table, and a placement is replaced only by one of a
    higher epoch. *)
Theorem metadata_never_rewritten (m m' : Metadata) (index : LogIndex) (e : metadata_event) (status : StatusCode)
    (Hm : reachable m) (Hi : in_width 64 index) (He : event_made e) (E : apply_event index e m = (status, m')) :
  (status = kInvalidArgument /\ m' = m) \/
  (status = kOk /\ md_applied m' = index /\ moved e (md_applied m) index /\ writes e m m' /\ evolves m m').
Proof.
  pose proof (reachable_nodes m Hm) as Hn. apply reachable_ok in Hm.
  destruct (apply_event_settles index e m Hm Hi He) as [(E1 & E2 & _ & E3)|E1]; rewrite E in *.
  - right. cbn in E1. subst status. split; [done|]. split; [done|]. split; [apply apply_event_moved; try done; by rewrite E|].
    split; [by eapply apply_event_writes|done].
  - injection E1 as -> ->. by left.
Qed.

(** C17.  Placements, groups and policies are coherent in every reachable machine.  A
    placement has a nonempty, sorted set of distinct replicas within the limit, and its
    leader is one of them; a bound tablet has a placement, and no Raft group serves two
    tablets; a table policy belongs to a table with an active definition, and the older
    retention record agrees with it; no map is over its limit. *)
Theorem metadata_coherent (m : Metadata) (Hm : reachable m) :
  (forall t p, find_tablet t m = Some p ->
     voters_ok (tp_replicas p) (maximum_replicas_per_tablet (md_limits m)) /\
     forall leader, tp_leader_hint p = Some leader -> leader ∈ tp_replicas p) /\
  (forall t b, find_tablet_group_binding t m = Some b ->
     is_Some (find_tablet t m) /\
     forall t' b', find_tablet_group_binding t' m = Some b' -> tb_group_id b' = tb_group_id b -> t' = t) /\
  (forall t p, find_table_policy t m = Some p ->
     is_Some (find_active_table_definition t m) /\
     exists r, find_retention t m = Some r /\ rm_system_history_ns r = po_system_history_ns p /\
       rm_retry_retention_positions r = po_retry_retention_positions p) /\
  blen (md_nodes m) <= maximum_nodes (md_limits m) /\ blen (md_definitions m) <= maximum_schemas (md_limits m) /\
  blen (md_schemas m) <= maximum_schemas (md_limits m) /\ blen (md_tablets m) <= maximum_tablets (md_limits m).
Proof.
  apply reachable_ok in Hm as [Hc Ht Hp _]. split; [|split; [|split]].
  - intros t p (_ & _ & ? & ?)%(to_placement m Ht). done.
  - intros t b (_ & Hs & Hg)%(to_bound m Ht). split; [done|]. intros t' b' (_ & _ & Hg')%(to_bound m Ht) E. congruence.
  - intros t p (_ & [id Hid] & r & Hr & _ & ?)%(po_complete m Hp). split; [|by exists r].
    destruct (history_active _ _ _ Hc Hid) as (_ & d & _ & _ & Hd & _). exists d. unfold find_active_table_definition. by rewrite Hid.
  - repeat split; apply Hc || apply Ht || apply Hp.
Qed.

(**  A table is found under its own name and no other.  In every reachable machine the
    lookup by name returns exactly the active definition of the one table with that name and
    quoting.  The projection of the catalog that a replicated database opens finds the same
    definition and, as retained schemas, the table's history: it ends with the active
    schema, its versions count from one, and every schema is extended by the active one. *)
Theorem catalog_lookup (m : Metadata) (name : list byte) (quoted : bool) (d : CatalogTableDefinition) (Hm : reachable m) :
  (find_active_table_definition_named name quoted m = Some d <->
     exists t, find_active_table_definition t m = Some d /\ cd_name d = name /\ cd_quoted d = quoted) /\
  forall t, find_active_table_definition t m = Some d ->
    active_definition (catalog_snapshot m) t = Some d /\
    exists l, retained_schemas (catalog_snapshot m) t = Ok l /\ history m t l /\ last l = Some (cd_schema d) /\
      (forall k s, l !! k = Some s -> ts_version s = 1 + Z.of_nat k /\ extends (ts_columns s) (ts_columns (cd_schema d))) /\
      (retained_lineage (catalog_snapshot m) t = Ok l <-> names_kept l).
Proof.
  apply reachable_ok in Hm. split; [by apply named_lookup|]. intros t Hd.
  destruct (retained_spec m t d Hm Hd) as (Ea & l & Hh & El & Er). pose proof (mo_catalog m Hm) as Hc. split; [done|].
  exists l. split; [done|]. split; [done|]. split; [done|]. pose proof Hh as [Hch _]. split.
  - intros k s Hk. split; [by apply (chain_versions l Hch)|]. apply (chain_extends l _ Hch El). by eapply list_elem_of_lookup_2.
  - unfold retained_lineage. rewrite Er. pose proof (history_made _ _ _ Hc Hh) as Hmade. split.
    + intros Hl. apply lineage_of_names in Hl as [_ Hl]; [|done]. apply lineage_all_ok in Hl. exact (lo_names l Hl).
    + intros Hn. apply lineage_of_chain; try done. by eapply history_NoDup.
Qed.

(** C12.  Reopening a single-node database rebuilds the catalog that was committed.  For the
    snapshot of any reachable machine, recovery either returns exactly the tables whose
    creation is finished, each with its name, policy and tablets and with its whole history
    as a lineage, and then all their tablets are placed on the local node alone; or it fails
    because of a finished table: with [kInvalidArgument] when one of its tablets is not on the
    local node alone, with [kCorruption] when its history gave a column name to two columns. *)
Theorem catalog_recovery (m : Metadata) (local_node_id : NodeId) (Hm : reachable m) :
  match build_complete_tables (catalog_snapshot m) local_node_id with
  | Ok tables =>
      (forall r, r ∈ tables -> exists t, ready m t /\ recovers m t r) /\
      (forall t, ready m t -> local_table m local_node_id t /\ exists r, r ∈ tables /\ recovers m t r)
  | Err s => exists t, unrecoverable m local_node_id t s
  end.
Proof.
  apply reachable_ok in Hm. unfold build_complete_tables. cbn [catalog_snapshot cs_active_schemas].
  assert (Ha : usorted (md_active_schemas m)) by apply Hm.
  pose proof (recover_tables_spec m local_node_id Hm (md_active_schemas m)) as Hr.
  specialize (Hr ltac:(intros t id Hin; by apply uget_elem)). cbn [catalog_snapshot] in Hr. destruct (recover_tables _ _ _) as [tables|s]; [|done].
  destruct Hr as [R1 R2]. split.
  - intros r. rewrite sorting.merge_sort_Permutation. intros (t & _ & ?)%R1. eauto.
  - intros t Ht. destruct (R2 t) as (Hl & r & Hr & ?); [|done|split; [done|]; exists r; by rewrite sorting.merge_sort_Permutation].
    destruct Ht as [[d Hd] _]. unfold find_active_table_definition in Hd. destruct (uget t _) as [id|] eqn:E; [|done].
    apply uget_elem in E; [|done]. apply list_elem_of_fmap. by exists (t, id).
Qed.

(** * A concrete machine *)

Definition run_events (m : Metadata) (events : list (LogIndex * metadata_event)) : Metadata :=
  fold_left (fun m '(index, e) => (apply_event index e m).2) events m.
Lemma run_reachable events : forall m, reachable m -> Forall (fun ie => in_width 64 ie.1 /\ event_made ie.2) events ->
  reachable (run_events m events).
Proof.
  induction events as [|[i e] events IH]; intros m Hm He; [done|]. apply Forall_cons in He as [[Hi He] Hes].
  cbn. apply IH; [|done]. by apply reachable_step.
Qed.

Definition sample_limits : MetadataLimits :=
  {| maximum_nodes := 4; maximum_schemas := 8; maximum_tablets := 8; maximum_replicas_per_tablet := 3;
     maximum_endpoint_bytes := 64; maximum_table_name_bytes := 64; maximum_column_name_bytes := 64 |}.
Definition sample_empty : Metadata :=
  match Metadata_create sample_limits with Ok m => m | Err _ => {|
    md_limits := sample_limits; md_applied := 0; md_nodes := []; md_schemas := []; md_definitions := []; md_active_schemas := [];
    md_tablets := []; md_tablet_groups := []; md_group_tablets := []; md_retention := []; md_policies := [] |} end.
Definition sample_definition (s : TableSchema) : CatalogTableDefinition := {| cd_name := [x6d]; cd_quoted := false; cd_schema := s |}.
Definition sample_placement (epoch : Z) : TabletPlacementMetadata :=
  {| tp_table_id := sample_uuid 1; tp_tablet_id := sample_uuid 21; tp_placement_epoch := epoch; tp_replicas := [7]; tp_leader_hint := Some 7 |}.
Definition sample_policy : TablePolicyMetadata :=
  {| po_table_id := sample_uuid 1; po_partition_interval_ns := 10; po_retention_ns := 100; po_system_history_ns := 50;
     po_allowed_lateness_ns := 0; po_retry_retention_positions := 5 |}.
(** A table is created and evolves once. *)
Definition sample_events : list (LogIndex * metadata_event) :=
  [(1, CommandEvent (NodeCommand {| cn_node_id := 7; cn_endpoint := [x61] |})); (2, DefinitionEvent (sample_definition sample_schema_1));
   (3, CommandEvent (PolicyCommand sample_policy)); (4, CommandEvent (TabletCommand (sample_placement 1)));
   (5, BindingEvent {| tb_tablet_id := sample_uuid 21; tb_group_id := sample_uuid 31 |}); (9, NoopsThroughEvent);
   (10, DefinitionEvent (sample_definition sample_schema_2))].
Definition sample_machine : Metadata := run_events sample_empty sample_events.
Lemma sample_empty_reachable : reachable sample_empty.
Proof. apply (reachable_new sample_limits); [|reflexivity]. repeat constructor; cbn; lia. Qed.
Lemma sample_reachable : reachable sample_machine.
Proof.
  apply run_reachable; [apply sample_empty_reachable|].
  repeat (constructor; [split; [unfold in_width; cbn [fst]; lia|first [exact I|vm_compute; reflexivity]]|]). constructor.
Qed.

Lemma metadata_never_rewritten_witness :
  apply_event 11 (CommandEvent (TabletCommand (sample_placement 1))) sample_machine = (kInvalidArgument, sample_machine) /\
  evolves sample_machine (apply_event 11 (CommandEvent (TabletCommand (sample_placement 2))) sample_machine).2.
Proof.
  split.
  - destruct (metadata_never_rewritten sample_machine (apply_event 11 (CommandEvent (TabletCommand (sample_placement 1))) sample_machine).2
      11 (CommandEvent (TabletCommand (sample_placement 1))) kInvalidArgument sample_reachable ltac:(unfold in_width; lia) I
      ltac:(vm_compute; reflexivity)) as [[_ E]|[E _]]; [vm_compute; reflexivity|discriminate E].
  - destruct (metadata_never_rewritten sample_machine (apply_event 11 (CommandEvent (TabletCommand (sample_placement 2))) sample_machine).2
      11 (CommandEvent (TabletCommand (sample_placement 2))) kOk sample_reachable ltac:(unfold in_width; lia) I
      ltac:(vm_compute; reflexivity)) as [[E _]|(_ & _ & _ & _ & E)]; [discriminate E|exact E].
Defined.
Lemma metadata_coherent_witness :
  find_tablet_group_binding (sample_uuid 21) sample_machine = Some {| tb_tablet_id := sample_uuid 21; tb_group_id := sample_uuid 31 |} /\
  is_Some (find_tablet (sample_uuid 21) sample_machine).
Proof.
  split; [vm_compute; reflexivity|]. destruct (metadata_coherent sample_machine sample_reachable) as (_ & H & _).
  apply (H (sample_uuid 21) {| tb_tablet_id := sample_uuid 21; tb_group_id := sample_uuid 31 |}). vm_compute. reflexivity.
Defined.
Lemma catalog_lookup_witness :
  exists t, find_active_table_definition t sample_machine = Some (sample_definition sample_schema_2).
Proof.
  destruct (catalog_lookup sample_machine [x6d] false (sample_definition sample_schema_2) sample_reachable) as [[H _] _].
  destruct (H ltac:(vm_compute; reflexivity)) as (t & E & _). exists t. exact E.
Defined.
Lemma catalog_recovery_witness :
  (exists r, build_complete_tables (catalog_snapshot sample_machine) 7 = Ok [r] /\
     rt_lineage r = [sample_schema_1; sample_schema_2] /\ exists t, recovers sample_machine t r) /\
  build_complete_tables (catalog_snapshot sample_machine) 8 = Err kInvalidArgument /\
  exists t, unrecoverable sample_machine 8 t kInvalidArgument.
Proof.
  split.
  - pose proof (catalog_recovery sample_machine 7 sample_reachable) as H.
    destruct (build_complete_tables (catalog_snapshot sample_machine) 7) as [tables|s] eqn:E; [|vm_compute in E; discriminate E].
    destruct H as [H _]. assert (exists r, tables = [r] /\ rt_lineage r = [sample_schema_1; sample_schema_2]) as (r & -> & El).
    { vm_compute in E. injection E as <-. eexists. split; reflexivity. }
    exists r. split; [reflexivity|]. split; [exact El|]. destruct (H r ltac:(left)) as (t & _ & Hr). exists t. exact Hr.
  - assert (E : build_complete_tables (catalog_snapshot sample_machine) 8 = Err kInvalidArgument) by (vm_compute; reflexivity).
    split; [exact E|]. pose proof (catalog_recovery sample_machine 8 sample_reachable) as H. rewrite E in H. exact H.
Defined.

(** ** A name given to two columns *)

(** Version 2 renames the column [h] to [x]; version 3 adds another column under the old
    name, which the check against the direct predecessor does not see. *)
Definition renamed_schema : TableSchema :=
  {| ts_table_id := sample_uuid 1; ts_schema_id := sample_uuid 3; ts_version := 2; ts_parent_schema_id := Some (sample_uuid 2);
     ts_columns := [sample_column 11 [x74] kTimestampNs false; sample_column 12 [x78] kInt64 false]; ts_roles := sample_roles |}.
Definition reused_schema : TableSchema :=
  {| ts_table_id := sample_uuid 1; ts_schema_id := sample_uuid 4; ts_version := 3; ts_parent_schema_id := Some (sample_uuid 3);
     ts_columns := ts_columns renamed_schema ++ [sample_column 13 [x68] kFloat64 true]; ts_roles := sample_roles |}.
Definition reused_machine : Metadata :=
  run_events sample_empty (take 6 sample_events ++ [(10, DefinitionEvent (sample_definition renamed_schema));
                                                    (11, DefinitionEvent (sample_definition reused_schema))]).

(** C39.  The machine commits a third version that gives an old column name to a new column, which
    a [SchemaLineage] refuses; the database can then not be reopened. *)
Theorem reused_name_blocks_recovery :
  reachable reused_machine /\ md_applied reused_machine = 11 /\
  find_active_table_definition (sample_uuid 1) reused_machine = Some (sample_definition reused_schema) /\
  (lineage_append reused_schema [sample_schema_1; renamed_schema]).1 = kInvalidArgument /\
  build_complete_tables (catalog_snapshot reused_machine) 7 = Err kCorruption.
Proof.
  split; [|vm_compute; done]. apply run_reachable; [apply sample_empty_reachable|]. cbn [take app sample_events].
  repeat (constructor; [split; [unfold in_width; cbn [fst]; lia|first [exact I|vm_compute; reflexivity]]|]). constructor.
Qed.
