(* ===== verification/MetadataCodec.v ===== *)
(** The log entries of the metadata group: include/chronos/raft/metadata_codec.hpp,
    src/raft/metadata_codec.cpp, include/chronos/raft/tablet_group_binding_codec.hpp and
    src/raft/tablet_group_binding_codec.cpp. *)
From S2P Require Import Prelude Bytes Crc32c Reading RaftTypes RaftMembership OrderedMap Schema.
From S2P Require Import Metadata.
#[local] Open Scope Z_scope.

(** * metadata_codec.hpp *)

Definition kMetadataCommandHeaderSize : Z := 48.
Definition kMetadataCommandTrailerSize : Z := 4.
Definition kMaximumMetadataCommandSize : Z := 64 * 1024.
Definition kRaftMetadataCommandEntryType : Z := 2.

Record MetadataCommandCodecLimits := {
  cl_maximum_command_bytes : Z; cl_maximum_endpoint_bytes : Z; cl_maximum_replicas : Z }.
Definition default_command_limits : MetadataCommandCodecLimits :=
  {| cl_maximum_command_bytes := kMaximumMetadataCommandSize; cl_maximum_endpoint_bytes := 4096; cl_maximum_replicas := 9 |}.

(** * metadata_codec.cpp *)

Definition kCommandMagic : list byte := [x43; x48; x52; x4e; x4d; x44; x43; x00].
Definition kFrameMajor : Z := 1.
Definition kFrameMinor : Z := 0.
Definition kFrameCrcOffset : Z := 36.

(** [CommandKind] as its value. *)
Definition kNode : Z := 1.
Definition kSchema : Z := 2.
Definition kTablet : Z := 3.
Definition kRetention : Z := 4.
Definition kTablePolicy : Z := 5.

Definition valid_command_limits (limits : MetadataCommandCodecLimits) : bool :=
  (cl_maximum_command_bytes limits >=? kMetadataCommandHeaderSize + kMetadataCommandTrailerSize)
  && (cl_maximum_command_bytes limits <=? kMaximumMetadataCommandSize)
  && (cl_maximum_endpoint_bytes limits >? 0)
  && (cl_maximum_endpoint_bytes limits <=?
        kMaximumMetadataCommandSize - kMetadataCommandHeaderSize - kMetadataCommandTrailerSize - 12)
  && (cl_maximum_replicas limits >? 0)
  && (cl_maximum_replicas limits <=?
        (kMaximumMetadataCommandSize - kMetadataCommandHeaderSize - kMetadataCommandTrailerSize - 56) / 8).

(** Reading an identity: sixteen bytes that are not all zero. *)
Definition read_identifier (reader : ByteReader) : result (list byte) * ByteReader :=
  match read_exact 16 reader with
  | (Ok bytes, reader) => (from_uuid bytes, reader)
  | (Err s, reader) => (Err s, reader)
  end.

(** The replicas of a placement are sorted before it is validated. *)
Definition sorted_command (command : MetadataCommand) : MetadataCommand :=
  match command with
  | TabletCommand v =>
      TabletCommand {| tp_table_id := tp_table_id v; tp_tablet_id := tp_tablet_id v;
                       tp_placement_epoch := tp_placement_epoch v; tp_replicas := sort_voters (tp_replicas v);
                       tp_leader_hint := tp_leader_hint v |}
  | command => command
  end.

(** What the visitor refuses. *)
Definition command_invalid (limits : MetadataCommandCodecLimits) (command : MetadataCommand) : bool :=
  match command with
  | NodeCommand v =>
      (cn_node_id v =? 0) || bool_decide (cn_endpoint v = [])
      || (blen (cn_endpoint v) >? cl_maximum_endpoint_bytes limits) || (blen (cn_endpoint v) >? max_u32)
  | SchemaCommand v => is_nil (sm_table_id v) || is_nil (sm_schema_id v)
  | TabletCommand v =>
      is_nil (tp_table_id v) || is_nil (tp_tablet_id v) || (tp_placement_epoch v =? 0)
      || bool_decide (tp_replicas v = []) || (blen (tp_replicas v) >? cl_maximum_replicas limits)
      || (front (tp_replicas v) =? 0) || has_adjacent_equal (tp_replicas v)
      || match tp_leader_hint v with Some leader => negb (bool_decide (leader ∈ tp_replicas v)) | None => false end
  | RetentionCommand v =>
      is_nil (rm_table_id v) || (rm_system_history_ns v <? 0) || (rm_retry_retention_positions v =? 0)
  | PolicyCommand v =>
      is_nil (po_table_id v) || (po_partition_interval_ns v <=? 0) || (po_retention_ns v <=? 0)
      || (po_system_history_ns v <=? 0) || (po_allowed_lateness_ns v <? 0) || (po_retry_retention_positions v =? 0)
  end.
Definition command_kind (command : MetadataCommand) : Z :=
  match command with
  | NodeCommand _ => kNode | SchemaCommand _ => kSchema | TabletCommand _ => kTablet
  | RetentionCommand _ => kRetention | PolicyCommand _ => kTablePolicy
  end.
Definition command_size (command : MetadataCommand) : Z :=
  match command with
  | NodeCommand v => 12 + blen (cn_endpoint v)
  | SchemaCommand _ => 40
  | TabletCommand v => 56 + blen (tp_replicas v) * 8
  | RetentionCommand _ => 32
  | PolicyCommand _ => 64
  end.
(** The writer calls of the second visitor. *)
Definition command_fields (command : MetadataCommand) : list Field :=
  match command with
  | NodeCommand v => [FU64 (cn_node_id v); FU32 (u32 (blen (cn_endpoint v))); FBytes (cn_endpoint v)]
  | SchemaCommand v => [FBytes (sm_table_id v); FBytes (sm_schema_id v); FU64 (sm_schema_version v)]
  | TabletCommand v =>
      [FBytes (tp_table_id v); FBytes (tp_tablet_id v); FU64 (tp_placement_epoch v);
       FU32 (u32 (blen (tp_replicas v))); FU8 (match tp_leader_hint v with Some _ => 1 | None => 0 end); zero_field 3;
       FU64 (default 0 (tp_leader_hint v))] ++ (FU64 <$> tp_replicas v)
  | RetentionCommand v =>
      [FBytes (rm_table_id v); FI64 (rm_system_history_ns v); FU64 (rm_retry_retention_positions v)]
  | PolicyCommand v =>
      [FBytes (po_table_id v); FI64 (po_partition_interval_ns v); FI64 (po_retention_ns v);
       FI64 (po_system_history_ns v); FI64 (po_allowed_lateness_ns v); FU64 (po_retry_retention_positions v);
       zero_field 8]
  end.

Definition encode_command_payload (command : MetadataCommand) (limits : MetadataCommandCodecLimits)
  : result (Z * list byte) :=
  let command := sorted_command command in
  fail_if command_invalid limits command with kInvalidArgument;
  let size := command_size command in
  fail_if size >? cl_maximum_command_bytes limits - kMetadataCommandHeaderSize - kMetadataCommandTrailerSize
    with kResourceExhausted;
  let '(status, writer) := write_fields (command_fields command) (ByteWriter_new (replicate (Z.to_nat size) x00)) in
  fail_if negb (is_ok status) || negb (writer_full writer) with (if is_ok status then kCorruption else status);
  Ok (command_kind command, writer_bytes writer).

(** The loop over the replicas. *)
Fixpoint read_replicas (count : nat) (reader : ByteReader) : result (list NodeId * ByteReader) :=
  match count with
  | O => Ok ([], reader)
  | S count =>
      match read_u64_le reader with
      | (Err s, _) => Err s
      | (Ok replica, reader) =>
          let? (replicas, reader) := read_replicas count reader in Ok (replica :: replicas, reader)
      end
  end.
Definition nonzero_bytes (bytes : list byte) : bool := existsb (fun b => bool_decide (b <> x00)) bytes.

Definition decode_node (reader : ByteReader) (limits : MetadataCommandCodecLimits) : result MetadataCommand :=
  let '(node_id, reader) := read_u64_le reader in
  let '(length, reader) := read_u32_le reader in
  match node_id, length with
  | Ok node_id, Ok length =>
      fail_if (node_id =? 0) || (length =? 0) || (length >? cl_maximum_endpoint_bytes limits)
              || negb (length =? reader_remaining reader) with kCorruption;
      match read_exact length reader with
      | (Err s, _) => Err s
      | (Ok endpoint, _) => Ok (NodeCommand {| cn_node_id := node_id; cn_endpoint := endpoint |})
      end
  | _, _ => Err kCorruption
  end.
Definition decode_schema (reader : ByteReader) : result MetadataCommand :=
  let '(table_id, reader) := read_identifier reader in
  let '(schema_id, reader) := read_identifier reader in
  let '(version, reader) := read_u64_le reader in
  match table_id, schema_id, version with
  | Ok table_id, Ok schema_id, Ok version =>
      fail_if negb (reader_empty reader) with kCorruption;
      match version_from_value version with
      | Err _ => Err kCorruption
      | Ok version =>
          Ok (SchemaCommand {| sm_table_id := table_id; sm_schema_id := schema_id; sm_schema_version := version |})
      end
  | _, _, _ => Err kCorruption
  end.
Definition decode_tablet (reader : ByteReader) (limits : MetadataCommandCodecLimits) : result MetadataCommand :=
  let '(table_id, reader) := read_identifier reader in
  let '(tablet_id, reader) := read_identifier reader in
  let '(epoch, reader) := read_u64_le reader in
  let '(count, reader) := read_u32_le reader in
  let '(has_leader, reader) := read_u8 reader in
  let '(reserved, reader) := read_exact 3 reader in
  let '(leader, reader) := read_u64_le reader in
  match table_id, tablet_id, epoch, count, has_leader, reserved, leader with
  | Ok table_id, Ok tablet_id, Ok epoch, Ok count, Ok has_leader, Ok reserved, Ok leader =>
      fail_if (epoch =? 0) || (count =? 0) || (count >? cl_maximum_replicas limits) || (has_leader >? 1)
              || nonzero_bytes reserved || negb (reader_remaining reader =? count * 8) with kCorruption;
      let? (replicas, reader) := read_replicas (Z.to_nat count) reader in
      fail_if (front replicas =? 0) || negb (is_sorted replicas) || has_adjacent_equal replicas
              || (if has_leader =? 0 then negb (leader =? 0) else negb (bool_decide (leader ∈ replicas)))
        with kCorruption;
      Ok (TabletCommand {| tp_table_id := table_id; tp_tablet_id := tablet_id; tp_placement_epoch := epoch;
                           tp_replicas := replicas;
                           tp_leader_hint := if has_leader =? 0 then None else Some leader |})
  | _, _, _, _, _, _, _ => Err kCorruption
  end.
Definition decode_retention (reader : ByteReader) : result MetadataCommand :=
  let '(table_id, reader) := read_identifier reader in
  let '(history, reader) := read_i64_le reader in
  let '(retries, reader) := read_u64_le reader in
  match table_id, history, retries with
  | Ok table_id, Ok history, Ok retries =>
      fail_if negb (reader_empty reader) || (history <? 0) || (retries =? 0) with kCorruption;
      Ok (RetentionCommand {| rm_table_id := table_id; rm_system_history_ns := history;
                              rm_retry_retention_positions := retries |})
  | _, _, _ => Err kCorruption
  end.
Definition decode_policy (reader : ByteReader) : result MetadataCommand :=
  let '(table_id, reader) := read_identifier reader in
  let '(partition, reader) := read_i64_le reader in
  let '(retention, reader) := read_i64_le reader in
  let '(history, reader) := read_i64_le reader in
  let '(lateness, reader) := read_i64_le reader in
  let '(retries, reader) := read_u64_le reader in
  let '(reserved, reader) := read_exact 8 reader in
  match table_id, partition, retention, history, lateness, retries, reserved with
  | Ok table_id, Ok partition, Ok retention, Ok history, Ok lateness, Ok retries, Ok reserved =>
      fail_if negb (reader_empty reader) || (partition <=? 0) || (retention <=? 0) || (history <=? 0)
              || (lateness <? 0) || (retries =? 0) || nonzero_bytes reserved with kCorruption;
      Ok (PolicyCommand {| po_table_id := table_id; po_partition_interval_ns := partition; po_retention_ns := retention;
                           po_system_history_ns := history; po_allowed_lateness_ns := lateness;
                           po_retry_retention_positions := retries |})
  | _, _, _, _, _, _, _ => Err kCorruption
  end.
Definition decode_command_payload (kind : Z) (payload : list byte) (limits : MetadataCommandCodecLimits)
  : result MetadataCommand :=
  let reader := ByteReader_new payload in
  if kind =? kNode then decode_node reader limits
  else if kind =? kSchema then decode_schema reader
  else if kind =? kTablet then decode_tablet reader limits
  else if kind =? kRetention then decode_retention reader
  else if kind =? kTablePolicy then decode_policy reader
  else Err kNotSupported.

(** The calls of [store_u32] that put the checksums of the header and of everything before
    the trailer in place. *)
Definition store_checksums (bytes : list byte) : list byte :=
  let bytes := store_le 4 bytes kFrameCrcOffset (crc32c (first bytes 48)) in
  store_le 4 bytes (blen bytes - 4) (crc32c (first bytes (blen bytes - 4))).

(** The writer calls of the frame. *)
Definition command_frame_fields (kind total_size : Z) (payload : list byte) : list Field :=
  [FBytes kCommandMagic; FU16 kFrameMajor; FU16 kFrameMinor; FU32 kMetadataCommandHeaderSize;
   FU32 (u32 total_size); FU32 (u32 (blen payload)); FU8 kind; zero_field 7; FU32 (crc32c payload); FU32 0;
   zero_field 8; FBytes payload; FU32 0].
Definition encode_metadata_command_v1 (command : MetadataCommand) (limits : MetadataCommandCodecLimits)
  : result (list byte) :=
  fail_if negb (valid_command_limits limits) with kInvalidArgument;
  let? (kind, payload) := encode_command_payload command limits in
  let total_size := kMetadataCommandHeaderSize + blen payload + kMetadataCommandTrailerSize in
  fail_if total_size >? max_u32 with kResourceExhausted;
  let '(status, writer) := write_fields (command_frame_fields kind total_size payload)
                             (ByteWriter_new (replicate (Z.to_nat total_size) x00)) in
  fail_if negb (is_ok status) with status;
  Ok (store_checksums (writer_bytes writer)).

(** The checks of the header checksum and of the trailer. *)
Definition header_checksum_matches (bytes : list byte) : bool :=
  crc32c (store_le 4 (first bytes 48) kFrameCrcOffset 0) =? load_le 4 bytes kFrameCrcOffset.
Definition trailer_matches (bytes : list byte) : bool :=
  crc32c (first bytes (blen bytes - 4)) =? load_le 4 bytes (blen bytes - 4).
(** The checks of the magic and the versions. *)
Definition known_frame (magic bytes : list byte) : bool :=
  bool_decide (first bytes 8 = magic) && (load_le 2 bytes 8 =? kFrameMajor)
  && (load_le 2 bytes 10 =? kFrameMinor) && (load_le 4 bytes 12 =? 48).

Definition decode_metadata_command_v1 (bytes : list byte) (limits : MetadataCommandCodecLimits)
  : result MetadataCommand :=
  fail_if negb (valid_command_limits limits) with kInvalidArgument;
  fail_if blen bytes <? kMetadataCommandHeaderSize + kMetadataCommandTrailerSize with kCorruption;
  fail_if negb (header_checksum_matches bytes) with kCorruption;
  fail_if negb (known_frame kCommandMagic bytes) with kNotSupported;
  let total_size := load_le 4 bytes 16 in
  let payload_size := load_le 4 bytes 20 in
  fail_if negb (total_size =? blen bytes) || (total_size >? cl_maximum_command_bytes limits)
          || negb (payload_size =? total_size - kMetadataCommandHeaderSize - kMetadataCommandTrailerSize)
          || nonzero_bytes (subspan bytes 25 7) || nonzero_bytes (subspan bytes 40 8) with kCorruption;
  let payload := subspan bytes kMetadataCommandHeaderSize payload_size in
  fail_if negb (crc32c payload =? load_le 4 bytes 32) || negb (trailer_matches bytes) with kCorruption;
  decode_command_payload (byte_to_Z (byte_at bytes 24)) payload limits.

(** * tablet_group_binding_codec *)

Definition kRaftTabletGroupBindingEntryType : Z := 4.
Definition kTabletGroupBindingHeaderSize : Z := 48.
Definition kTabletGroupBindingPayloadSize : Z := 32.
Definition kTabletGroupBindingTrailerSize : Z := 4.
Definition kTabletGroupBindingSize : Z :=
  kTabletGroupBindingHeaderSize + kTabletGroupBindingPayloadSize + kTabletGroupBindingTrailerSize.
Definition kBindingMagic : list byte := [x43; x48; x52; x4e; x54; x47; x42; x00].
Definition kPayloadCrcOffset : Z := 32.

Definition encode_tablet_group_binding_v1 (binding : TabletGroupBindingMetadata) : result (list byte) :=
  fail_if is_nil (tb_tablet_id binding) || is_nil (tb_group_id binding) with kInvalidArgument;
  let bytes := replicate (Z.to_nat kTabletGroupBindingSize) x00 in
  let bytes := copy_at bytes 0 kBindingMagic in
  let bytes := store_le 2 bytes 8 kFrameMajor in
  let bytes := store_le 2 bytes 10 kFrameMinor in
  let bytes := store_le 4 bytes 12 kTabletGroupBindingHeaderSize in
  let bytes := store_le 4 bytes 16 kTabletGroupBindingSize in
  let bytes := store_le 4 bytes 20 kTabletGroupBindingPayloadSize in
  let bytes := copy_at bytes kTabletGroupBindingHeaderSize (tb_tablet_id binding) in
  let bytes := copy_at bytes (kTabletGroupBindingHeaderSize + 16) (tb_group_id binding) in
  let payload := subspan bytes kTabletGroupBindingHeaderSize kTabletGroupBindingPayloadSize in
  let bytes := store_le 4 bytes kPayloadCrcOffset (crc32c payload) in
  Ok (store_checksums bytes).

Definition decode_tablet_group_binding_v1 (bytes : list byte) : result TabletGroupBindingMetadata :=
  fail_if blen bytes <? kTabletGroupBindingHeaderSize with kCorruption;
  fail_if negb (header_checksum_matches bytes) with kCorruption;
  fail_if negb (known_frame kBindingMagic bytes) with kNotSupported;
  fail_if negb (blen bytes =? kTabletGroupBindingSize) || negb (load_le 4 bytes 16 =? kTabletGroupBindingSize)
          || negb (load_le 4 bytes 20 =? kTabletGroupBindingPayloadSize) || nonzero_bytes (subspan bytes 24 8)
          || nonzero_bytes (subspan bytes 40 8) with kCorruption;
  let payload := subspan bytes kTabletGroupBindingHeaderSize kTabletGroupBindingPayloadSize in
  fail_if negb (crc32c payload =? load_le 4 bytes kPayloadCrcOffset) || negb (trailer_matches bytes) with kCorruption;
  match from_uuid (first payload 16) with
  | Err _ => Err kCorruption
  | Ok tablet_id =>
      let group_id := subspan payload 16 16 in
      fail_if is_nil group_id with kCorruption;
      Ok {| tb_tablet_id := tablet_id; tb_group_id := group_id |}
  end.

Example command_sample :
  (let? bytes := encode_metadata_command_v1
      (TabletCommand {| tp_table_id := replicate 16 x01; tp_tablet_id := replicate 16 x02; tp_placement_epoch := 9;
                        tp_replicas := [3; 1; 2]; tp_leader_hint := Some 2 |}) default_command_limits in
   decode_metadata_command_v1 bytes default_command_limits) =
  Ok (TabletCommand {| tp_table_id := replicate 16 x01; tp_tablet_id := replicate 16 x02; tp_placement_epoch := 9;
                       tp_replicas := [1; 2; 3]; tp_leader_hint := Some 2 |}).
Proof. vm_compute. reflexivity. Qed.
Example binding_sample :
  (let? bytes := encode_tablet_group_binding_v1 {| tb_tablet_id := replicate 16 x01; tb_group_id := replicate 16 x02 |} in
   decode_tablet_group_binding_v1 bytes) = Ok {| tb_tablet_id := replicate 16 x01; tb_group_id := replicate 16 x02 |}.
Proof. vm_compute. reflexivity. Qed.
