(* ===== verification/MetadataCodecFacts.v ===== *)
(** The frame that the entries of the metadata group share: a header of 48 bytes with its
    own checksum, the payload, and a trailer with the checksum of everything before it; the
    frames a decoder accepts are exactly the sealed ones.  The codecs of metadata commands and group bindings are exact: the encoder writes the
    canonical frame of what it accepts, and the decoder accepts the canonical frames and
    nothing else. *)
From S2P Require Import Prelude Bytes Crc32c Reading RaftTypes RaftMembership OrderedMap Schema.
From S2P Require Import Metadata MetadataCodec.
From Stdlib Require Import Sorted.
From stdpp Require sorting.
#[local] Open Scope Z_scope.

(** * Frames *)

(** The first 36 bytes: identity, sizes, and twelve bytes [mid] that each format fills. *)
Definition frame_prefix (magic mid payload : list byte) : list byte :=
  magic ++ le_bytes 2 kFrameMajor ++ le_bytes 2 kFrameMinor ++ le_bytes 4 48
  ++ le_bytes 4 (blen payload + 52) ++ le_bytes 4 (blen payload) ++ mid.
Definition frame_header_with (prefix crc : list byte) : list byte := prefix ++ crc ++ replicate 8 x00.
Definition frame_header (prefix : list byte) : list byte :=
  frame_header_with prefix (le_bytes 4 (crc32c (frame_header_with prefix (replicate 4 x00)))).
Definition frame_body (prefix payload : list byte) : list byte := frame_header prefix ++ payload.
Definition frame (prefix payload : list byte) : list byte :=
  frame_body prefix payload ++ le_bytes 4 (crc32c (frame_body prefix payload)).

Lemma length_frame_prefix magic mid payload :
  length magic = 8%nat -> length mid = 12%nat -> length (frame_prefix magic mid payload) = 36%nat.
Proof. intros H1 H2. unfold frame_prefix. rewrite !length_app, !length_le_bytes, H1, H2. done. Qed.

Section frame.
Context (prefix : list byte) (Hp : length prefix = 36%nat).
Implicit Types payload crc : list byte.

Lemma length_header_with crc : length crc = 4%nat -> length (frame_header_with prefix crc) = 48%nat.
Proof. intros H. unfold frame_header_with. rewrite !length_app, Hp, H, length_replicate. done. Qed.
Lemma length_header : length (frame_header prefix) = 48%nat.
Proof. apply length_header_with. by rewrite length_le_bytes. Qed.
Lemma length_body payload : length (frame_body prefix payload) = (48 + length payload)%nat.
Proof. unfold frame_body. by rewrite length_app, length_header. Qed.
Lemma frame_length payload : blen (frame prefix payload) = blen payload + 52.
Proof. unfold frame. rewrite length_app, length_le_bytes, length_body. lia. Qed.

(** Sealing what the writer left gives the frame. *)
Lemma store_checksums_frame payload :
  store_checksums (frame_header_with prefix (replicate 4 x00) ++ payload ++ replicate 4 x00) = frame prefix payload.
Proof.
  unfold store_checksums, kFrameCrcOffset. cbv zeta.
  rewrite first_app by (rewrite length_header_with by (by rewrite length_replicate); done).
  assert (E : store_le 4 (frame_header_with prefix (replicate 4 x00) ++ payload ++ replicate 4 x00) 36
      (crc32c (frame_header_with prefix (replicate 4 x00))) = frame_body prefix payload ++ replicate 4 x00).
  { set (c := crc32c _). unfold frame_header_with at 1. rewrite <- !app_assoc, store_middle by (rewrite ?Hp, ?length_replicate; done).
    unfold frame_body, frame_header, frame_header_with. by rewrite <- !app_assoc. }
  rewrite E. pose proof (length_body payload) as Hb.
  rewrite first_app by (rewrite length_app, length_replicate; lia). unfold frame.
  rewrite <- (app_nil_r (replicate 4 x00)). rewrite store_middle by (rewrite ?length_app, ?length_replicate; cbn; lia).
  by rewrite app_nil_r.
Qed.

(** A sealed frame passes the checks. *)
Lemma frame_header_matches payload : header_checksum_matches (frame prefix payload) = true.
Proof.
  unfold header_checksum_matches, kFrameCrcOffset, frame, frame_body. rewrite <- app_assoc.
  rewrite first_app by (by rewrite length_header). apply Z.eqb_eq.
  assert (Hz : store_le 4 (frame_header prefix) 36 0 = frame_header_with prefix (replicate 4 x00)).
  { unfold frame_header. unfold frame_header_with at 1. rewrite store_middle by (rewrite ?Hp, ?length_le_bytes; done). done. }
  rewrite Hz. symmetry. apply load_field; [lia| |apply crc32c_range|].
  - rewrite length_app, length_header, length_app. cbn [Z.of_nat]. lia.
  - unfold frame_header. unfold frame_header_with at 1. rewrite <- !app_assoc. apply subspan_app_l; [by rewrite Hp|by rewrite length_le_bytes].
Qed.
Lemma frame_trailer_matches payload : trailer_matches (frame prefix payload) = true.
Proof.
  unfold trailer_matches. rewrite frame_length. pose proof (length_body payload) as Hb. apply Z.eqb_eq. unfold frame.
  rewrite first_app by lia. symmetry. apply load_field; [lia| |apply crc32c_range|].
  - rewrite length_app, length_le_bytes. cbn [Z.of_nat]. lia.
  - rewrite <- (app_nil_r (le_bytes 4 _)) at 1. apply subspan_app_l; [lia|by rewrite length_le_bytes].
Qed.
Lemma frame_first payload n : n <= 36 -> first (frame prefix payload) n = first prefix n.
Proof.
  intros Hn. unfold frame, frame_body, frame_header, frame_header_with. rewrite <- !app_assoc. apply first_app_le. rewrite Hp. done.
Qed.
Lemma frame_prefix_load payload w off : 0 <= off -> off + Z.of_nat w <= 36 -> load_le w (frame prefix payload) off = load_le w prefix off.
Proof.
  intros Ho Hw. unfold frame, frame_body, frame_header, frame_header_with. rewrite <- !app_assoc.
  rewrite !load_le_spec by (rewrite ?length_app, ?Hp; lia). f_equal. unfold subspan. rewrite drop_app_le by lia.
  rewrite take_app_le by (rewrite length_drop; lia). done.
Qed.
Lemma frame_prefix_span payload off n : 0 <= off -> 0 <= n -> off + n <= 36 -> subspan (frame prefix payload) off n = subspan prefix off n.
Proof.
  intros Ho Hn Hw. unfold frame, frame_body, frame_header, frame_header_with. rewrite <- !app_assoc. unfold subspan.
  rewrite drop_app_le by lia. by rewrite take_app_le by (rewrite length_drop; lia).
Qed.
Lemma frame_reserved payload : subspan (frame prefix payload) 40 8 = replicate 8 x00.
Proof.
  unfold frame, frame_body, frame_header. unfold frame_header_with at 1. rewrite <- !app_assoc.
  rewrite (app_assoc prefix). apply subspan_app_l; [|by rewrite length_replicate]. rewrite length_app, Hp, length_le_bytes. done.
Qed.
Lemma frame_payload payload : subspan (frame prefix payload) 48 (blen payload) = payload.
Proof.
  unfold frame, frame_body. rewrite <- app_assoc. apply subspan_app_l; [by rewrite length_header|done].
Qed.
End frame.

(** A byte string that passes the checks is the frame of its parts. *)
Lemma frame_of_checks bytes : 52 <= blen bytes -> header_checksum_matches bytes = true -> trailer_matches bytes = true ->
  nonzero_bytes (subspan bytes 40 8) = false ->
  bytes = frame (first bytes 36) (subspan bytes 48 (blen bytes - 52)).
Proof.
  intros Hl Hh Ht Hz. set (prefix := first bytes 36). set (payload := subspan bytes 48 (blen bytes - 52)).
  assert (Hp : length prefix = 36%nat) by (unfold prefix, first; rewrite length_take_le; lia).
  assert (Hz' : subspan bytes 40 8 = replicate 8 x00) by (apply (nonzero_reserved _ 8); [rewrite length_subspan by lia; done|done]).
  assert (Hc : subspan bytes 36 4 = le_bytes 4 (load_le 4 bytes 36)) by (apply (field_of_load 4); cbn; lia).
  assert (H48 : first bytes 48 = frame_header_with prefix (le_bytes 4 (load_le 4 bytes 36))).
  { unfold frame_header_with. rewrite <- Hc, <- Hz'. unfold prefix. change (first bytes 36) with (subspan bytes 0 36).
    change (first bytes 48) with (subspan bytes 0 (36 + (4 + 8))). rewrite (subspan_split bytes 0 36) by lia.
    by rewrite (subspan_split bytes (0 + 36) 4) by lia. }
  assert (Hhead : first bytes 48 = frame_header prefix).
  { unfold header_checksum_matches, kFrameCrcOffset in Hh. apply Z.eqb_eq in Hh. rewrite H48 in Hh |- *. unfold frame_header.
    f_equal. f_equal. rewrite <- Hh. f_equal. unfold frame_header_with. rewrite store_middle by (rewrite ?Hp, ?length_le_bytes; done). done. }
  assert (Hbody : first bytes (blen bytes - 4) = frame_body prefix payload).
  { unfold frame_body. rewrite <- Hhead. unfold payload. change (first bytes 48) with (subspan bytes 0 48).
    change (first bytes (blen bytes - 4)) with (subspan bytes 0 (blen bytes - 4)).
    replace (blen bytes - 4) with (48 + (blen bytes - 52)) by lia. apply (subspan_split bytes 0 48); lia. }
  unfold frame. unfold trailer_matches in Ht. apply Z.eqb_eq in Ht. rewrite <- Hbody, Ht.
  rewrite <- (field_of_load 4) by (cbn; lia). symmetry. etransitivity; [|apply (subspan_all bytes (blen bytes - 4 + 4)); lia].
  symmetry. apply (subspan_split bytes 0 (blen bytes - 4) 4); lia.
Qed.

(** ** The identity and the sizes *)

Lemma prefix_of_checks magic bytes : length magic = 8%nat -> 52 <= blen bytes -> known_frame magic bytes = true ->
  load_le 4 bytes 16 = blen bytes -> load_le 4 bytes 20 = blen bytes - 52 ->
  first bytes 36 = frame_prefix magic (subspan bytes 24 12) (subspan bytes 48 (blen bytes - 52)).
Proof.
  intros Hm Hl Hk Ht Hs. unfold known_frame in Hk. bool_prop. unfold frame_prefix.
  assert (Hpl : blen (subspan bytes 48 (blen bytes - 52)) = blen bytes - 52) by (rewrite length_subspan; lia).
  rewrite Hpl. replace (blen bytes - 52 + 52) with (blen bytes) by lia.
  change (first bytes 8) with (subspan bytes 0 8) in *.
  repeat match goal with H : load_le ?w bytes ?off = ?v |- _ =>
    assert (subspan bytes off (Z.of_nat w) = le_bytes w v) by (rewrite <- H; apply field_of_load; cbn; lia); clear H end.
  repeat match goal with H : subspan bytes _ _ = _ |- _ => rewrite <- H; clear H end.
  change (first bytes 36) with (subspan bytes 0 (8 + (2 + (2 + (4 + (4 + (4 + 12))))))). by rewrite !subspan_split by lia.
Qed.

Lemma load_app w a v c off : off = blen a -> in_width (8 * Z.of_nat w) v -> load_le w (a ++ le_bytes w v ++ c) off = v.
Proof.
  intros -> Hv. apply load_field; [lia| |done|].
  - rewrite !length_app, length_le_bytes. lia.
  - apply subspan_app_l; [done|by rewrite length_le_bytes].
Qed.
Lemma frame_known magic mid payload : length magic = 8%nat -> length mid = 12%nat -> blen payload + 52 < 2 ^ 32 ->
  let bytes := frame (frame_prefix magic mid payload) payload in
  known_frame magic bytes = true /\ load_le 4 bytes 16 = blen bytes /\ load_le 4 bytes 20 = blen bytes - 52 /\
  subspan bytes 24 12 = mid.
Proof.
  intros Hm Hd Hl bytes. unfold bytes. pose proof (length_frame_prefix magic mid payload Hm Hd) as Hp.
  rewrite (frame_length _ Hp), (frame_prefix_load _ Hp) by (cbn; lia). rewrite (frame_prefix_load _ Hp) by (cbn; lia).
  rewrite (frame_prefix_span _ Hp) by lia. unfold known_frame. rewrite (frame_first _ Hp), !(frame_prefix_load _ Hp) by (cbn; lia).
  unfold frame_prefix, kFrameMajor, kFrameMinor. split_and!.
  - rewrite first_app by (by rewrite Hm). rewrite bool_decide_eq_true_2 by done. cbn [andb].
    rewrite (load_app 2 magic) by (rewrite ?Hm; done).
    rewrite (app_assoc magic), (load_app 2 (magic ++ _)) by (rewrite ?length_app, ?length_le_bytes, ?Hm; done).
    rewrite (app_assoc (magic ++ _)), (load_app 4 ((magic ++ _) ++ _)) by (rewrite ?length_app, ?length_le_bytes, ?Hm; done).
    done.
  - rewrite (app_assoc magic), (app_assoc (magic ++ _)), (app_assoc ((magic ++ _) ++ _)).
    apply load_app; [rewrite !length_app, !length_le_bytes, Hm; done|width_lia].
  - rewrite (app_assoc magic), (app_assoc (magic ++ _)), (app_assoc ((magic ++ _) ++ _)), (app_assoc (((magic ++ _) ++ _) ++ _)).
    etransitivity; [apply load_app; [rewrite !length_app, !length_le_bytes, Hm; done|width_lia]|lia].
  - rewrite !app_assoc. rewrite <- (app_nil_r mid) at 1. rewrite <- app_assoc, <- app_assoc.
    rewrite !app_assoc, <- (app_assoc _ mid []). apply subspan_app_l; [rewrite !length_app, !length_le_bytes, Hm; done|by rewrite Hd].
Qed.

(** * Reading identities and signed words *)

Definition uuid_ok (id : list byte) : Prop := length id = 16%nat /\ is_nil id = false.

Lemma from_uuid_Ok id v : from_uuid id = Ok v <-> v = id /\ is_nil id = false.
Proof. unfold from_uuid. destruct (is_nil id); naive_solver. Qed.
Lemma read_identifier_stands r id rest : stands r (id ++ rest) -> uuid_ok id ->
  exists r', read_identifier r = (Ok id, r') /\ stands r' rest.
Proof.
  intros Hs [Hl Hn]. unfold read_identifier. destruct (read_exact_stands 16 r id rest Hs) as (r' & -> & Hs'); [by rewrite Hl|].
  exists r'. split; [|done]. unfold from_uuid. by rewrite Hn.
Qed.
Lemma read_identifier_inv r rest id r' : stands r rest -> read_identifier r = (Ok id, r') ->
  exists rest', rest = id ++ rest' /\ uuid_ok id /\ stands r' rest'.
Proof.
  intros Hs H. unfold read_identifier in H. destruct (read_exact 16 r) as [[b|s] r1] eqn:E; [|done].
  apply (read_exact_inv 16 r rest b r1 ltac:(lia) Hs) in E as (rest' & -> & Hl & Hs').
  injection H as H ->. apply from_uuid_Ok in H as [-> Hn]. exists rest'. split; [done|]. split; [split; [lia|done]|done].
Qed.
Lemma read_i64_stands r v rest : stands r (le_bytes 8 v ++ rest) -> signed_range 64 v ->
  exists r', read_i64_le r = (Ok v, r') /\ stands r' rest.
Proof.
  intros Hs Hv. rewrite <- (le_bytes_unsigned_of 8 v) in Hs. change (8 * Z.of_nat 8) with 64 in Hs.
  assert (Hw : in_width 64 (unsigned_of 64 v)) by (unfold in_width, unsigned_of; apply Z.mod_pos_bound; lia).
  destruct (read_unsigned_stands 8 r _ rest Hs Hw) as (r' & E & Hs'). exists r'. split; [|done].
  unfold read_i64_le, read_u64_le. rewrite E. cbn [map_result]. unfold unsigned_of. by rewrite signed_unsigned by (done || lia).
Qed.
Lemma read_i64_inv r rest v r' : stands r rest -> read_i64_le r = (Ok v, r') ->
  exists rest', rest = le_bytes 8 v ++ rest' /\ signed_range 64 v /\ stands r' rest'.
Proof.
  intros Hs H. unfold read_i64_le, read_u64_le in H. destruct (read_unsigned_le 8 r) as [[u|s] r1] eqn:E; [|done].
  cbn [map_result] in H. injection H as <- <-. apply (read_unsigned_inv 8 r rest u r1 Hs) in E as (rest' & -> & Hu & Hs').
  change (8 * Z.of_nat 8) with 64 in Hu. exists rest'. unfold in_width in Hu. change (2 ^ 64) with (2 * 2 ^ 63) in Hu.
  split; [|split; [|done]].
  - f_equal. rewrite <- (le_bytes_unsigned_of 8 (signed_of 64 u)). change (8 * Z.of_nat 8) with 64. f_equal.
    unfold unsigned_of, signed_of. change (64 - 1) with 63. change (2 ^ 64) with (2 * 2 ^ 63) in *. destruct (Z.ltb_spec u (2 ^ 63)).
    + by rewrite Z.mod_small by lia.
    + rewrite <- (Z_mod_plus_full _ 1), Z.mod_small; lia.
  - unfold signed_range, signed_of. change (64 - 1) with 63. change (2 ^ 64) with (2 * 2 ^ 63). destruct (Z.ltb_spec u (2 ^ 63)); lia.
Qed.

(** [read_inv] and [read_run] with these reads. *)
Ltac entry_inv1 H :=
  match type of H with
  | match ?e with (_, _) => _ end = _ =>
      let E := fresh "E" in destruct e as [[?|?] ?] eqn:E;
      [|exfalso; clear -H; repeat case_match; discriminate]
  end;
  match goal with
  | E : read_unsigned_le _ ?r = (Ok _, _), S : stands ?r _ |- _ =>
      apply (read_unsigned_inv _ _ _ _ _ S) in E; clear S; destruct E as (? & -> & ? & ?); width_norm
  | E : read_exact ?n ?r = (Ok _, _), S : stands ?r _ |- _ =>
      apply (read_exact_inv n _ _ _ _ ltac:(width_lia) S) in E; clear S; destruct E as (? & -> & ? & ?)
  | E : read_identifier ?r = (Ok _, _), S : stands ?r _ |- _ =>
      apply (read_identifier_inv _ _ _ _ S) in E; clear S; destruct E as (? & -> & ? & ?)
  | E : read_i64_le ?r = (Ok _, _), S : stands ?r _ |- _ =>
      apply (read_i64_inv _ _ _ _ S) in E; clear S; destruct E as (? & -> & ? & ?)
  end.
Ltac entry_inv H := read_unfold; repeat entry_inv1 H.
Ltac entry_run1 :=
  match goal with
  | S : stands ?r _ |- context [read_unsigned_le ?w ?r] =>
      let r' := fresh "r" in destruct (read_unsigned_stands w r _ _ S) as (r' & -> & ?);
      [width_norm; (done || solve [eauto with chronos] || width_lia)|]; cbv beta iota
  | S : stands ?r _ |- context [read_exact ?n ?r] =>
      let r' := fresh "r" in destruct (read_exact_stands n r _ _ S) as (r' & -> & ?);
      [rewrite ?length_replicate; (done || lia)|]; cbv beta iota
  | S : stands ?r _ |- context [read_identifier ?r] =>
      let r' := fresh "r" in destruct (read_identifier_stands r _ _ S) as (r' & -> & ?); [done|]; cbv beta iota
  | S : stands ?r _ |- context [read_i64_le ?r] =>
      let r' := fresh "r" in destruct (read_i64_stands r _ _ S) as (r' & -> & ?); [done|]; cbv beta iota
  end.
Ltac entry_run := read_unfold; repeat entry_run1.

(** * Commands *)

(** The values the types of the fields admit. *)
Definition command_typed (c : MetadataCommand) : Prop :=
  match c with
  | NodeCommand v => in_width 64 (cn_node_id v)
  | SchemaCommand v => uuid_ok (sm_table_id v) /\ uuid_ok (sm_schema_id v) /\ in_width 64 (sm_schema_version v) /\ sm_schema_version v <> 0
  | TabletCommand v =>
      uuid_ok (tp_table_id v) /\ uuid_ok (tp_tablet_id v) /\ in_width 64 (tp_placement_epoch v) /\
      Forall (in_width 64) (tp_replicas v) /\ from_option (in_width 64) True (tp_leader_hint v)
  | RetentionCommand v => uuid_ok (rm_table_id v) /\ signed_range 64 (rm_system_history_ns v) /\ in_width 64 (rm_retry_retention_positions v)
  | PolicyCommand v =>
      uuid_ok (po_table_id v) /\ signed_range 64 (po_partition_interval_ns v) /\ signed_range 64 (po_retention_ns v) /\
      signed_range 64 (po_system_history_ns v) /\ signed_range 64 (po_allowed_lateness_ns v) /\ in_width 64 (po_retry_retention_positions v)
  end.
Definition payload_bytes (c : MetadataCommand) : list byte := fields_bytes (command_fields c).
(** The command fits its limits and is in canonical form. *)
Definition command_valid (limits : MetadataCommandCodecLimits) (c : MetadataCommand) : Prop :=
  command_typed c /\ command_invalid limits c = false /\ sorted_command c = c /\
  command_size c <= cl_maximum_command_bytes limits - 52.

Lemma replica_bytes_length (l : list NodeId) : blen (fields_bytes (FU64 <$> l)) = blen l * 8.
Proof. induction l as [|x l IH]; [done|]. rewrite fmap_cons, fields_bytes_cons, length_app. cbn [field_bytes length]. rewrite length_le_bytes. lia. Qed.
Lemma payload_bytes_length c : command_typed c -> blen (payload_bytes c) = command_size c.
Proof.
  unfold payload_bytes. destruct c as [v|v|v|v|v]; cbn [command_typed command_fields command_size]; intros Ht.
  - fields_normal. rewrite !length_app, !length_le_bytes. cbn [length]. lia.
  - destruct Ht as ([H1 _] & [H2 _] & _). fields_normal. rewrite !length_app, H1, H2, length_le_bytes. done.
  - destruct Ht as ([H1 _] & [H2 _] & _). rewrite fields_bytes_app, length_app. pose proof (replica_bytes_length (tp_replicas v)).
    fields_normal. rewrite !length_app, !length_le_bytes, length_replicate, H1, H2. cbn [length]. lia.
  - destruct Ht as ([H1 _] & _). fields_normal. rewrite !length_app, H1, !length_le_bytes. done.
  - destruct Ht as ([H1 _] & _). fields_normal. rewrite !length_app, H1, !length_le_bytes, length_replicate. done.
Qed.

(** ** Reading payloads *)

Definition payload_reads (limits : MetadataCommandCodecLimits) (payload : list byte) (c : MetadataCommand) : Prop :=
  payload = payload_bytes c /\ command_typed c /\ command_invalid limits c = false /\ sorted_command c = c.

Ltac at_end :=
  match goal with G : reader_empty ?r = true, S : stands ?r _ |- _ => apply (stands_empty _ _ S) in G; subst; rewrite ?app_nil_r in * end.
Ltac false_checks :=
  repeat match goal with
  | H : uuid_ok _ |- _ => let L := fresh in let N := fresh in destruct H as [L N]; rewrite ?N in *
  | H : ?a <> 0 |- context [?a =? 0] => rewrite (proj2 (Z.eqb_neq a 0) H)
  | H : ?b <= ?a |- context [?a <? ?b] => rewrite (proj2 (Z.ltb_ge a b) H)
  | H : ?b < ?a |- context [?a <=? ?b] => rewrite (proj2 (Z.leb_gt a b) H)
  end.

Ltac payload_done := split_and!; try done; first [solve [fields_normal; by rewrite app_nil_r]|by false_checks].

Lemma decode_node_inv limits payload c : decode_node (ByteReader_new payload) limits = Ok c -> payload_reads limits payload c /\ command_kind c = kNode.
Proof.
  unfold decode_node. intros H. pose proof (stands_new payload) as Hs. entry_inv H. guard_inv H.
  match goal with S : stands ?r _, G : _ = reader_remaining ?r |- _ => rewrite (stands_remaining _ _ S) in G end.
  entry_inv H. injection H as <-. split; [|done]. unfold payload_reads, payload_bytes. cbn [command_fields cn_node_id cn_endpoint command_typed command_invalid sorted_command].
  match goal with L : a0 = blen (?x ++ ?y) |- _ => rewrite length_app in L; assert (y = []) as -> by (destruct y; [done|cbn [length] in *; lia]) end.
  rewrite app_nil_r. rewrite wrap_small by (match goal with L : blen ?x = _ |- in_width _ (blen ?x) => rewrite L; done end).
  split_and!; try done.
  - fields_normal. rewrite app_nil_r. do 2 f_equal. f_equal. done.
  - rewrite (proj2 (Z.eqb_neq _ 0)) by done. rewrite bool_decide_eq_false_2 by (intros ->; cbn in *; lia).
    rewrite !gtb_false by width_lia. done.
Qed.
Lemma decode_schema_inv limits payload c : decode_schema (ByteReader_new payload) = Ok c -> payload_reads limits payload c /\ command_kind c = kSchema.
Proof.
  unfold decode_schema. intros H. pose proof (stands_new payload) as Hs. entry_inv H. guard_inv H. at_end.
  unfold version_from_value in H. destruct (Z.eqb_spec a1 0); [done|]. injection H as <-. split; [|done].
  unfold payload_reads, payload_bytes. cbn [command_fields sm_table_id sm_schema_id sm_schema_version command_typed command_invalid sorted_command].
  payload_done.
Qed.
Lemma decode_retention_inv limits payload c : decode_retention (ByteReader_new payload) = Ok c -> payload_reads limits payload c /\ command_kind c = kRetention.
Proof.
  unfold decode_retention. intros H. pose proof (stands_new payload) as Hs. entry_inv H. guard_inv H. at_end.
  injection H as <-. split; [|done].
  unfold payload_reads, payload_bytes. cbn [command_fields rm_table_id rm_system_history_ns rm_retry_retention_positions command_typed command_invalid sorted_command].
  payload_done.
Qed.
Lemma decode_policy_inv limits payload c : decode_policy (ByteReader_new payload) = Ok c -> payload_reads limits payload c /\ command_kind c = kTablePolicy.
Proof.
  unfold decode_policy. intros H. pose proof (stands_new payload) as Hs. entry_inv H. guard_inv H. at_end. unfold nonzero_bytes in *. reserved_inv.
  injection H as <-. split; [|done].
  unfold payload_reads, payload_bytes. cbn [command_fields po_table_id po_partition_interval_ns po_retention_ns po_system_history_ns
    po_allowed_lateness_ns po_retry_retention_positions command_typed command_invalid sorted_command].
  payload_done.
Qed.

Lemma read_replicas_inv count : forall r rest replicas r',
  stands r rest -> read_replicas count r = Ok (replicas, r') ->
  exists rest', rest = fields_bytes (FU64 <$> replicas) ++ rest' /\ stands r' rest' /\
    Forall (in_width 64) replicas /\ length replicas = count.
Proof.
  induction count as [|count IH]; intros r rest replicas r' Hs H; cbn [read_replicas] in H.
  { injection H as <- <-. eauto. }
  entry_inv H. apply rbind_Ok in H as ([vs r1] & Hd & [= <- <-]).
  eapply IH in Hd; [|eassumption]. destruct Hd as (rest' & -> & ? & ? & ?).
  exists rest'. rewrite fmap_cons, fields_bytes_cons, <- app_assoc. split_and!; cbn; auto.
Qed.
Lemma read_replicas_run replicas : forall r rest,
  stands r (fields_bytes (FU64 <$> replicas) ++ rest) -> Forall (in_width 64) replicas ->
  exists r', read_replicas (length replicas) r = Ok (replicas, r') /\ stands r' rest.
Proof.
  induction replicas as [|v replicas IH]; intros r rest Hs Hv; cbn [length read_replicas]; [eauto|].
  apply Forall_cons in Hv as [Hv Hvs]. rewrite fmap_cons in Hs.
  rewrite fields_bytes_cons, <- app_assoc in Hs. cbn [field_bytes] in Hs. entry_run.
  destruct (IH _ _ ltac:(eassumption) Hvs) as (r' & -> & ?). cbn. eauto.
Qed.

Lemma decode_tablet_inv limits payload c : decode_tablet (ByteReader_new payload) limits = Ok c -> payload_reads limits payload c /\ command_kind c = kTablet.
Proof.
  unfold decode_tablet. intros H. pose proof (stands_new payload) as Hs. entry_inv H. guard_inv H. unfold nonzero_bytes in *. reserved_inv.
  apply rbind_Ok in H as ([replicas r] & Hr & H). guard_inv H.
  match goal with S : stands ?r _, G : reader_remaining ?r = _ |- _ => rewrite (stands_remaining _ _ S) in G; eapply (read_replicas_inv _ _ _ _ _ S) in Hr end.
  destruct Hr as (rest' & -> & Hs' & Hw & Hl). injection H as <-. split; [|done].
  match goal with G : blen (_ ++ rest') = _ |- _ => rewrite length_app in G; pose proof (replica_bytes_length replicas);
    assert (rest' = []) as -> by (destruct rest'; [done|cbn [length] in *; width_lia]) end.
  assert (Hn : blen replicas = a2) by width_lia.
  assert (Hsort : sort_voters replicas = replicas) by (apply sort_voters_sorted, sorted_unique_spec; apply andb_true_iff; split; [done|by apply negb_true_iff]).
  assert (Hh : (match (if a3 =? 0 then None else Some a5) with Some _ => 1 | None => 0 end) = a3 /\ default 0 (if a3 =? 0 then None else Some a5) = a5).
  { destruct (Z.eqb_spec a3 0) as [->|]; cbn; [|split; [width_lia|done]].
    match goal with G : negb (a5 =? 0) = false |- _ => apply negb_false_iff, Z.eqb_eq in G; done end. }
  destruct Hh as [Hh1 Hh2]. unfold payload_reads, payload_bytes.
  cbn [command_fields tp_table_id tp_tablet_id tp_placement_epoch tp_replicas tp_leader_hint command_typed command_invalid sorted_command].
  rewrite Hh1, Hh2, Hn, Hsort, (wrap_small 32) by done. rewrite app_nil_r. split_and!; try done.
  - destruct (a3 =? 0); done.
  - false_checks. rewrite bool_decide_eq_false_2 by (intros ->; cbn in *; lia). rewrite gtb_false by lia. cbn [orb].
    match goal with G : has_adjacent_equal _ = false |- _ => rewrite G end. cbn [orb].
    destruct (a3 =? 0); done.
Qed.

Ltac ending := match goal with S : stands ?r [] |- context [reader_empty ?r] => rewrite (proj2 (stands_empty _ _ S) eq_refl) end.

Lemma command_limits_bounds limits : valid_command_limits limits = true ->
  52 <= cl_maximum_command_bytes limits <= 65536 /\ cl_maximum_replicas limits <= 65536.
Proof.
  unfold valid_command_limits, kMetadataCommandHeaderSize, kMetadataCommandTrailerSize, kMaximumMetadataCommandSize.
  intros H. rewrite !Z.geb_leb, !Z.gtb_ltb in H. bool_prop. change ((64 * 1024 - 48 - 4 - 56) / 8) with 8178 in *. lia.
Qed.

Lemma decode_node_run limits v : in_width 64 (cn_node_id v) -> command_invalid limits (NodeCommand v) = false ->
  decode_node (ByteReader_new (payload_bytes (NodeCommand v))) limits = Ok (NodeCommand v).
Proof.
  intros Ht Hi. pose proof (stands_new (payload_bytes (NodeCommand v))) as Hs. unfold payload_bytes at 2 in Hs.
  cbn [command_fields command_invalid] in *. unfold decode_node. bool_prop. rewrite Z.gtb_ltb in *. bool_prop.
  rewrite (wrap_small 32) in Hs by width_lia. fields_normal_in Hs. rewrite app_nil_r in Hs. read_unfold. entry_run1.
  destruct (read_unsigned_stands 4 r (blen (cn_endpoint v)) (cn_endpoint v)) as (r1 & -> & Hs1); [done|width_lia|]. cbv beta iota.
  rewrite (stands_remaining _ _ Hs1), Z.eqb_refl. rewrite (proj2 (Z.eqb_neq _ 0)) by done.
  rewrite (proj2 (Z.eqb_neq (blen _) 0)) by (destruct (cn_endpoint v); cbn; [done|lia]). rewrite gtb_false by done. cbn [negb orb].
  destruct (read_exact_stands (blen (cn_endpoint v)) r1 (cn_endpoint v) []) as (r2 & -> & _); [by rewrite app_nil_r|done|]. by destruct v.
Qed.
Lemma decode_tablet_run limits v : valid_command_limits limits = true -> command_typed (TabletCommand v) ->
  command_invalid limits (TabletCommand v) = false -> sort_voters (tp_replicas v) = tp_replicas v ->
  decode_tablet (ByteReader_new (payload_bytes (TabletCommand v))) limits = Ok (TabletCommand v).
Proof.
  intros Hlim (H1 & H2 & H3 & H4 & H5) Hi Hc. apply command_limits_bounds in Hlim as [_ Hmax].
  pose proof (stands_new (payload_bytes (TabletCommand v))) as Hs. unfold payload_bytes at 2 in Hs.
  destruct v as [t tb e rs lh]. cbn [command_fields command_invalid tp_table_id tp_tablet_id tp_placement_epoch tp_replicas tp_leader_hint] in *.
  bool_prop. rewrite Z.gtb_ltb in *. bool_prop.
  assert (Hrn : 1 <= blen rs) by (destruct rs; [done|cbn; lia]).
  assert (Hrw : in_width 32 (blen rs)) by width_lia.
  assert (Hst : is_sorted rs && negb (has_adjacent_equal rs) = true).
  { apply sorted_unique_spec. rewrite <- Hc. eapply voters_ok_strict, (sort_voters_ok rs (blen rs)); rewrite ?Hc; done || lia. }
  apply andb_true_iff in Hst as [Hst _].
  rewrite (wrap_small 32) in Hs by done. rewrite fields_bytes_app in Hs. fields_normal_in Hs. rewrite <- (app_nil_r (fields_bytes (FU64 <$> rs))) in Hs.
  assert (Hd : in_width 64 (default 0 lh)) by (destruct lh; cbn in *; [done|width_lia]).
  assert (Hb : in_width 8 (match lh with Some _ => 1 | None => 0 end)) by (destruct lh; width_lia).
  unfold decode_tablet. entry_run. remaining. rewrite app_nil_r, replica_bytes_length, Z.eqb_refl.
  rewrite !(proj2 (Z.eqb_neq _ 0)) by (done || lia). rewrite !gtb_false by (done || (destruct lh; lia)).
  unfold nonzero_bytes. rewrite replicate_zero_check. cbn [negb orb]. rewrite Nat2Z.id.
  destruct (read_replicas_run rs _ [] ltac:(eassumption) H4) as (rr & -> & _). cbn [rbind].
  rewrite (proj2 (Z.eqb_neq (front rs) 0)) by done. rewrite Hst. match goal with G : has_adjacent_equal _ = false |- _ => rewrite G end. cbn [negb orb].
  destruct lh as [leader|]; cbn in *; [|done]. bool_prop. by rewrite bool_decide_eq_true_2.
Qed.
Lemma decode_policy_run v : command_typed (PolicyCommand v) -> forall limits, command_invalid limits (PolicyCommand v) = false ->
  decode_policy (ByteReader_new (payload_bytes (PolicyCommand v))) = Ok (PolicyCommand v).
Proof.
  intros (H1 & H2 & H3 & H4 & H5 & H6) limits Hi. pose proof (stands_new (payload_bytes (PolicyCommand v))) as Hs. unfold payload_bytes at 2 in Hs.
  cbn [command_fields command_invalid] in *. bool_prop. fields_normal_in Hs.
  unfold decode_policy. entry_run. ending. unfold nonzero_bytes.
  rewrite replicate_zero_check. false_checks. cbn [negb orb]. by destruct v.
Qed.

(** The decoder returns the command whose payload it reads. *)
Lemma decode_command_payload_run limits c : valid_command_limits limits = true -> command_typed c -> command_invalid limits c = false ->
  sorted_command c = c -> decode_command_payload (command_kind c) (payload_bytes c) limits = Ok c.
Proof.
  intros Hl Ht Hi Hc. unfold decode_command_payload. destruct c as [v|v|v|v|v]; cbn [command_kind sorted_command] in *.
  - by apply decode_node_run.
  - change (kSchema =? kNode) with false. cbn iota. change (kSchema =? kSchema) with true. cbn iota. destruct Ht as (H1 & H2 & H3 & H4).
    pose proof (stands_new (payload_bytes (SchemaCommand v))) as Hs. unfold payload_bytes at 2 in Hs. cbn [command_fields] in Hs.
    fields_normal_in Hs. unfold decode_schema. entry_run. ending. cbn [negb]. unfold version_from_value. rewrite (proj2 (Z.eqb_neq _ 0)) by done. by destruct v.
  - injection Hc as Hc. apply decode_tablet_run; try done. by rewrite <- Hc at 2.
  - destruct Ht as (H1 & H2 & H3). pose proof (stands_new (payload_bytes (RetentionCommand v))) as Hs. unfold payload_bytes at 2 in Hs.
    cbn [command_fields command_invalid] in *. bool_prop. fields_normal_in Hs. change (decode_retention (ByteReader_new (payload_bytes (RetentionCommand v))) = Ok (RetentionCommand v)).
    unfold decode_retention. entry_run. ending. false_checks. cbn [negb orb]. by destruct v.
  - by eapply decode_policy_run.
Qed.
Lemma decode_command_payload_inv limits kind payload c : decode_command_payload kind payload limits = Ok c -> payload_reads limits payload c /\ command_kind c = kind.
Proof.
  unfold decode_command_payload. destruct (Z.eqb_spec kind kNode) as [->|]; [apply decode_node_inv|].
  destruct (Z.eqb_spec kind kSchema) as [->|]; [apply decode_schema_inv|]. destruct (Z.eqb_spec kind kTablet) as [->|]; [apply decode_tablet_inv|].
  destruct (Z.eqb_spec kind kRetention) as [->|]; [apply decode_retention_inv|]. destruct (Z.eqb_spec kind kTablePolicy) as [->|]; [apply decode_policy_inv|done].
Qed.

(** ** Frames *)

Definition command_mid (kind : Z) (payload : list byte) : list byte :=
  le_bytes 1 kind ++ replicate 7 x00 ++ le_bytes 4 (crc32c payload).
Definition command_frame (c : MetadataCommand) : list byte :=
  frame (frame_prefix kCommandMagic (command_mid (command_kind c) (payload_bytes c)) (payload_bytes c)) (payload_bytes c).

Lemma command_kind_width c : in_width 8 (command_kind c).
Proof. destruct c; by split. Qed.
Lemma length_command_mid kind payload : length (command_mid kind payload) = 12%nat.
Proof. unfold command_mid. by rewrite !length_app, !length_le_bytes, length_replicate. Qed.
Lemma sort_voters_twice vs : has_adjacent_equal (sort_voters vs) = false -> front (sort_voters vs) <> 0 -> vs <> [] ->
  sort_voters (sort_voters vs) = sort_voters vs.
Proof.
  intros Ha Hf Hn. apply sort_voters_sorted. eapply voters_ok_strict, (sort_voters_ok vs (blen vs)); try done. destruct vs; [done|cbn; lia].
Qed.
Lemma sorted_typed c : command_typed c -> command_typed (sorted_command c).
Proof.
  destruct c as [v|v|v|v|v]; cbn; try done. intros (H1 & H2 & H3 & H4 & H5). split_and!; try done. unfold sort_voters.
  by rewrite sorting.merge_sort_Permutation.
Qed.
Lemma sorted_valid limits c : command_typed c -> command_invalid limits (sorted_command c) = false ->
  command_size (sorted_command c) <= cl_maximum_command_bytes limits - 52 -> command_valid limits (sorted_command c).
Proof.
  intros Ht Hi Hs. split; [by apply sorted_typed|]. split; [done|]. split; [|done]. destruct c as [v|v|v|v|v]; cbn in *; try done.
  bool_prop. do 2 f_equal. apply sort_voters_twice; try done. intros E. match goal with H : sort_voters _ <> [] |- _ => apply H; by rewrite E end.
Qed.

Lemma encode_command_payload_exact limits c : command_valid limits (sorted_command c) ->
  encode_command_payload c limits = Ok (command_kind c, payload_bytes (sorted_command c)).
Proof.
  intros (Ht & Hi & _ & Hs). unfold encode_command_payload, kMetadataCommandHeaderSize, kMetadataCommandTrailerSize. cbv zeta. rewrite Hi.
  rewrite gtb_false by lia. pose proof (payload_bytes_length _ Ht) as Hl.
  rewrite write_fields_fit; [|unfold writer_ok; cbn; lia|unfold writer_remaining; cbn [writer_bytes writer_offset ByteWriter_new]; rewrite length_replicate; unfold payload_bytes in Hl; lia].
  fold (payload_bytes (sorted_command c)).
  rewrite writer_put_new by lia. unfold writer_full, writer_remaining. cbn [writer_bytes writer_offset]. rewrite Z.sub_diag. cbn.
  by destruct c.
Qed.
Lemma encode_command_exact limits c : valid_command_limits limits = true -> command_valid limits (sorted_command c) ->
  encode_metadata_command_v1 c limits = Ok (command_frame (sorted_command c)).
Proof.
  intros Hl Hv. pose proof (command_limits_bounds _ Hl) as [Hb _]. unfold encode_metadata_command_v1. rewrite Hl. cbn [negb].
  rewrite encode_command_payload_exact by done. cbn [rbind]. pose proof Hv as (Ht & _ & _ & Hs). pose proof (payload_bytes_length _ Ht) as Hpl.
  unfold kMetadataCommandHeaderSize, kMetadataCommandTrailerSize. set (payload := payload_bytes (sorted_command c)) in *.
  rewrite gtb_false by lia.
  assert (Hf : fields_bytes (command_frame_fields (command_kind c) (48 + blen payload + 4) payload) =
    frame_header_with (frame_prefix kCommandMagic (command_mid (command_kind (sorted_command c)) payload) payload) (replicate 4 x00)
      ++ payload ++ replicate 4 x00).
  { unfold command_frame_fields, frame_header_with, frame_prefix, command_mid. rewrite !(wrap_small 32) by width_lia.
    replace (48 + blen payload + 4) with (blen payload + 52) by lia. fields_normal.
    replace (command_kind (sorted_command c)) with (command_kind c) by (by destruct c).
    by rewrite <- ?app_assoc. }
  assert (Hlen : length (frame_prefix kCommandMagic (command_mid (command_kind (sorted_command c)) payload) payload) = 36%nat)
    by (apply length_frame_prefix; [done|apply length_command_mid]).
  assert (Hn : blen (fields_bytes (command_frame_fields (command_kind c) (48 + blen payload + 4) payload)) = 48 + blen payload + 4).
  { rewrite Hf, !length_app, length_header_with, length_replicate by done. lia. }
  rewrite write_fields_fit; [|unfold writer_ok; cbn; lia|unfold writer_remaining; cbn [writer_bytes writer_offset ByteWriter_new]; rewrite length_replicate; lia].
  rewrite writer_put_new by lia. cbn [is_ok negb writer_bytes]. change (is_ok kOk) with true. cbn [negb]. f_equal.
  rewrite Hf. by apply store_checksums_frame.
Qed.

(** The parts of [mid] in a frame. *)
Lemma mid_parts bytes mid (a b c : list byte) : 36 <= blen bytes -> subspan bytes 24 12 = mid -> mid = a ++ b ++ c -> length a = 1%nat ->
  length b = 7%nat -> length c = 4%nat ->
  subspan bytes 24 1 = a /\ subspan bytes 25 7 = b /\ subspan bytes 32 4 = c.
Proof.
  intros Hl <- E Ha Hb Hc. change 12 with (1 + (7 + 4)) in E. rewrite !subspan_split in E by lia.
  change (24 + 1 + 7) with 32 in E. change (24 + 1) with 25 in E.
  apply app_inj_1 in E as [-> E]; [|rewrite length_subspan by lia; by rewrite Ha].
  apply app_inj_1 in E as [-> ->]; [done|rewrite length_subspan by lia; by rewrite Hb].
Qed.
Lemma byte_at_span bytes k v : 0 <= k < blen bytes -> in_width 8 v -> subspan bytes k 1 = le_bytes 1 v -> byte_to_Z (byte_at bytes k) = v.
Proof.
  intros Hk Hv H. unfold subspan in H. rewrite (drop_byte_at bytes k) in H by lia. cbn in H. injection H as ->.
  rewrite byte_to_of_Z. unfold in_width in Hv. by rewrite Z.mod_small.
Qed.

Lemma decode_metadata_complete limits c : valid_command_limits limits = true -> command_valid limits c ->
  decode_metadata_command_v1 (command_frame c) limits = Ok c.
Proof.
  intros Hl (Ht & Hi & Hc & Hs). pose proof (command_limits_bounds _ Hl) as [Hb _]. pose proof (payload_bytes_length _ Ht) as Hpl.
  unfold decode_metadata_command_v1, command_frame. set (payload := payload_bytes c) in *. set (mid := command_mid (command_kind c) payload).
  assert (Hmid : length mid = 12%nat) by apply length_command_mid.
  pose proof (length_frame_prefix kCommandMagic mid payload eq_refl Hmid) as Hp.
  destruct (frame_known kCommandMagic mid payload eq_refl Hmid ltac:(lia)) as (K1 & K2 & K3 & K4).
  pose proof (frame_header_matches _ Hp payload) as Hh. pose proof (frame_trailer_matches _ Hp payload) as Htr.
  pose proof (frame_reserved _ Hp payload) as Hr. pose proof (frame_payload _ Hp payload) as Hpay. pose proof (frame_length _ Hp payload) as Hn.
  set (bytes := frame _ payload) in *. rewrite Hl, Hh, K1, Htr, K2, K3. unfold kMetadataCommandHeaderSize, kMetadataCommandTrailerSize.
  destruct (mid_parts bytes mid (le_bytes 1 (command_kind c)) (replicate 7 x00) (le_bytes 4 (crc32c payload)) ltac:(lia) K4 eq_refl
    (length_le_bytes _ _) eq_refl (length_le_bytes _ _)) as (M1 & M2 & M3).
  rewrite M2, Hr. unfold nonzero_bytes. rewrite !replicate_zero_check. rewrite (proj2 (Z.ltb_ge _ _)) by lia.
  rewrite !Z.eqb_refl. replace (blen bytes - 52 =? blen bytes - 48 - 4) with true by (symmetry; apply Z.eqb_eq; lia).
  rewrite gtb_false by lia. cbn [negb orb]. replace (blen bytes - 52) with (blen payload) by lia. rewrite Hpay.
  rewrite (load_field 4 bytes 32 (crc32c payload)) by (lia || apply crc32c_range || done). rewrite Z.eqb_refl. cbn [negb orb].
  rewrite (byte_at_span bytes 24 (command_kind c)) by (lia || apply command_kind_width || done). by apply decode_command_payload_run.
Qed.
Lemma decode_metadata_sound limits bytes c : decode_metadata_command_v1 bytes limits = Ok c ->
  valid_command_limits limits = true /\ command_valid limits c /\ bytes = command_frame c.
Proof.
  unfold decode_metadata_command_v1, kMetadataCommandHeaderSize, kMetadataCommandTrailerSize. intros H. guard_inv H.
  apply decode_command_payload_inv in H as ((Hp & Ht & Hi & Hc) & Hk). pose proof (payload_bytes_length _ Ht) as Hpl.
  assert (Hl : blen (subspan bytes 48 (load_le 4 bytes 20)) = load_le 4 bytes 20) by (rewrite length_subspan; lia).
  split; [done|]. split; [split_and!; try done; rewrite <- Hpl, <- Hp, Hl; lia|].
  rewrite (frame_of_checks bytes) by (done || lia).
  rewrite (prefix_of_checks kCommandMagic bytes) by (done || lia).
  assert (Epl : subspan bytes 48 (blen bytes - 52) = payload_bytes c) by (rewrite <- Hp; f_equal; lia).
  unfold command_frame. rewrite Epl. f_equal. f_equal. unfold command_mid.
  change 12 with (1 + (7 + 4)). rewrite !subspan_split by lia. f_equal; [|f_equal].
  - rewrite Hk. unfold subspan. rewrite (drop_byte_at bytes 24) by lia. cbn. f_equal. by rewrite byte_of_to_Z.
  - apply (nonzero_reserved _ 7); [rewrite length_subspan by lia; done|done].
  - rewrite <- Hp. match goal with G : crc32c _ = load_le 4 bytes 32 |- _ => rewrite G end. apply (field_of_load 4); cbn; lia.
Qed.

(** * Group bindings *)

Definition binding_payload (b : TabletGroupBindingMetadata) : list byte := tb_tablet_id b ++ tb_group_id b.
Definition binding_mid (b : TabletGroupBindingMetadata) : list byte := replicate 8 x00 ++ le_bytes 4 (crc32c (binding_payload b)).
Definition binding_frame (b : TabletGroupBindingMetadata) : list byte :=
  frame (frame_prefix kBindingMagic (binding_mid b) (binding_payload b)) (binding_payload b).
Definition binding_valid (b : TabletGroupBindingMetadata) : Prop := uuid_ok (tb_tablet_id b) /\ uuid_ok (tb_group_id b).

Lemma length_binding b : binding_valid b -> blen (binding_payload b) = 32 /\ length (binding_mid b) = 12%nat.
Proof. intros [[H1 _] [H2 _]]. unfold binding_payload, binding_mid. by rewrite !length_app, H1, H2, length_replicate, length_le_bytes. Qed.

(** The bytes before the checksums are stored. *)
Lemma binding_stores (t g : list byte) : length t = 16%nat -> length g = 16%nat ->
  copy_at (copy_at (store_le 4 (store_le 4 (store_le 4 (store_le 2 (store_le 2 (copy_at (replicate 84 x00) 0 kBindingMagic) 8 kFrameMajor)
    10 kFrameMinor) 12 48) 16 84) 20 32) 48 t) (48 + 16) g =
  (kBindingMagic ++ le_bytes 2 kFrameMajor ++ le_bytes 2 kFrameMinor ++ le_bytes 4 48 ++ le_bytes 4 84 ++ le_bytes 4 32 ++ replicate 8 x00)
  ++ replicate 4 x00 ++ replicate 4 x00 ++ replicate 8 x00 ++ (t ++ g) ++ replicate 4 x00.
Proof.
  intros Ht Hg. do 16 (destruct t as [|? t]; [done|]). destruct t; [|done]. do 16 (destruct g as [|? g]; [done|]). destruct g; [|done]. reflexivity.
Qed.
Lemma encode_binding_exact b : binding_valid b -> encode_tablet_group_binding_v1 b = Ok (binding_frame b).
Proof.
  intros Hb. pose proof Hb as [[Ht Hnt] [Hg Hng]]. unfold encode_tablet_group_binding_v1. rewrite Hnt, Hng. cbn [orb]. cbv zeta.
  unfold kTabletGroupBindingSize, kTabletGroupBindingHeaderSize, kTabletGroupBindingPayloadSize, kTabletGroupBindingTrailerSize, kPayloadCrcOffset.
  change (48 + 32 + 4) with 84. change (Z.to_nat 84) with 84%nat. rewrite binding_stores by done. fold (binding_payload b).
  pose proof (length_binding _ Hb) as [Hpl Hml]. set (head := kBindingMagic ++ _).
  assert (Hh : length head = 32%nat) by done.
  assert (Hspan : subspan (head ++ replicate 4 x00 ++ replicate 4 x00 ++ replicate 8 x00 ++ binding_payload b ++ replicate 4 x00) 48 32 = binding_payload b).
  { rewrite (app_assoc (replicate 4 x00)), (app_assoc (replicate 4 x00 ++ _)), (app_assoc head). apply subspan_app_l; [|by rewrite Hpl].
    rewrite length_app, Hh, !length_app, !length_replicate. done. }
  rewrite Hspan, store_middle by (rewrite ?Hh, ?length_replicate; done). f_equal.
  assert (Hp : length (frame_prefix kBindingMagic (binding_mid b) (binding_payload b)) = 36%nat) by (by apply length_frame_prefix).
  unfold binding_frame. rewrite <- (store_checksums_frame _ Hp (binding_payload b)). f_equal.
  unfold frame_header_with, frame_prefix, binding_mid, head. rewrite Hpl. change (32 + 52) with 84. by rewrite <- !app_assoc.
Qed.
Lemma encode_binding_inv b bytes : length (tb_tablet_id b) = 16%nat -> length (tb_group_id b) = 16%nat ->
  encode_tablet_group_binding_v1 b = Ok bytes -> binding_valid b.
Proof.
  intros H1 H2 H. unfold encode_tablet_group_binding_v1 in H. destruct (_ || _) eqn:G; [done|]. bool_prop. done.
Qed.

Lemma binding_mid_parts bytes b : 36 <= blen bytes -> subspan bytes 24 12 = binding_mid b ->
  subspan bytes 24 8 = replicate 8 x00 /\ subspan bytes 32 4 = le_bytes 4 (crc32c (binding_payload b)).
Proof.
  intros Hl E. change 12 with (8 + 4) in E. rewrite subspan_split in E by lia. change (24 + 8) with 32 in E.
  apply app_inj_1 in E as [-> ->]; [done|]. rewrite length_subspan by lia. done.
Qed.
Lemma decode_binding_complete b : binding_valid b -> decode_tablet_group_binding_v1 (binding_frame b) = Ok b.
Proof.
  intros Hb. pose proof (length_binding _ Hb) as [Hpl Hml]. pose proof Hb as [[Ht Hnt] [Hg Hng]].
  unfold decode_tablet_group_binding_v1, binding_frame. set (payload := binding_payload b) in *. set (mid := binding_mid b) in *.
  pose proof (length_frame_prefix kBindingMagic mid payload eq_refl Hml) as Hp.
  destruct (frame_known kBindingMagic mid payload eq_refl Hml ltac:(lia)) as (K1 & K2 & K3 & K4).
  pose proof (frame_header_matches _ Hp payload) as Hh. pose proof (frame_trailer_matches _ Hp payload) as Htr.
  pose proof (frame_reserved _ Hp payload) as Hr. pose proof (frame_payload _ Hp payload) as Hpay. pose proof (frame_length _ Hp payload) as Hn.
  set (bytes := frame _ payload) in *. rewrite Hh, K1, Htr, K2, K3. rewrite Hpl in Hn, Hpay.
  destruct (binding_mid_parts bytes b ltac:(lia) K4) as [M1 M2]. rewrite M1, Hr. unfold nonzero_bytes. rewrite !replicate_zero_check.
  unfold kTabletGroupBindingSize, kTabletGroupBindingHeaderSize, kTabletGroupBindingPayloadSize, kTabletGroupBindingTrailerSize, kPayloadCrcOffset.
  rewrite Hn, Hpay. cbn [negb orb Z.ltb Z.compare Z.add Z.sub]. change (32 + 52 <? 48) with false. change (32 + 52 =? 48 + 32 + 4) with true.
  change (32 + 52 - 52 =? 32) with true. cbn [negb orb].
  rewrite (load_field 4 bytes 32 (crc32c payload)) by (lia || apply crc32c_range || done). rewrite Z.eqb_refl. cbn [negb orb].
  assert (E1 : first payload 16 = tb_tablet_id b) by (apply first_app; by rewrite Ht).
  assert (E2 : subspan payload 16 16 = tb_group_id b).
  { unfold payload, binding_payload. rewrite <- (app_nil_r (tb_group_id b)) at 1. apply subspan_app_l; [by rewrite Ht|by rewrite Hg]. }
  rewrite E1, E2, Hng. unfold from_uuid. rewrite Hnt. by destruct b.
Qed.
Lemma decode_binding_sound bytes b : decode_tablet_group_binding_v1 bytes = Ok b -> binding_valid b /\ bytes = binding_frame b.
Proof.
  unfold decode_tablet_group_binding_v1, kTabletGroupBindingSize, kTabletGroupBindingHeaderSize, kTabletGroupBindingPayloadSize,
    kTabletGroupBindingTrailerSize, kPayloadCrcOffset. intros H. change (48 + 32 + 4) with 84 in H. guard_inv H.
  destruct (from_uuid _) as [t|] eqn:Et; [|done]. apply from_uuid_Ok in Et as [-> Hnt]. guard_inv H. injection H as <-.
  set (payload := subspan bytes 48 32) in *. assert (Hpl : length payload = 32%nat) by (unfold payload; rewrite length_subspan; lia).
  assert (Hcat : binding_payload {| tb_tablet_id := first payload 16; tb_group_id := subspan payload 16 16 |} = payload).
  { unfold binding_payload. cbn. change (first payload 16) with (subspan payload 0 16). rewrite <- subspan_split by lia.
    apply subspan_all. by rewrite Hpl. }
  split; [split; split; cbn; try done; [unfold first; rewrite length_take_le; lia|rewrite length_subspan; lia]|].
  unfold binding_frame, binding_mid. rewrite Hcat. rewrite (frame_of_checks bytes) by (done || lia).
  rewrite (prefix_of_checks kBindingMagic bytes) by (done || lia).
  assert (Epl : subspan bytes 48 (blen bytes - 52) = payload) by (unfold payload; f_equal; lia).
  rewrite Epl. f_equal. f_equal. change 12 with (8 + 4). rewrite subspan_split by lia. f_equal.
  - apply (nonzero_reserved _ 8); [rewrite length_subspan by lia; done|done].
  - match goal with G : crc32c _ = load_le 4 bytes 32 |- _ => rewrite G end. apply (field_of_load 4); cbn; lia.
Qed.
