(* ===== verification/SchemaCodec.v ===== *)
(** Complete schema definitions as log entries: include/chronos/raft/schema_definition_codec.hpp
    and src/raft/schema_definition_codec.cpp. *)
From S2P Require Import Prelude Bytes Crc32c Reading RaftTypes RaftMembership OrderedMap Schema.
From S2P Require Import Metadata MetadataCodec.
#[local] Open Scope Z_scope.

Definition kSchemaDefinitionHeaderSize : Z := 48.
Definition kSchemaDefinitionTrailerSize : Z := 4.
Definition kMaximumSchemaDefinitionSize : Z := 16 * 1024 * 1024.
Definition kRaftSchemaDefinitionEntryType : Z := 3.

Record SchemaDefinitionCodecLimits := {
  sl_maximum_definition_bytes : Z; sl_maximum_table_name_bytes : Z; sl_maximum_column_name_bytes : Z;
  sl_maximum_columns : Z; sl_maximum_role_columns : Z }.
Definition default_definition_limits : SchemaDefinitionCodecLimits :=
  {| sl_maximum_definition_bytes := kMaximumSchemaDefinitionSize; sl_maximum_table_name_bytes := 1024;
     sl_maximum_column_name_bytes := 1024; sl_maximum_columns := kMaximumSchemaColumnCount;
     sl_maximum_role_columns := kMaximumSchemaColumnCount |}.

Definition kDefinitionMagic : list byte := [x43; x48; x52; x4e; x53; x43; x48; x00].
Definition kSchemaFixedPayloadSize : Z := 92.
Definition kColumnFixedSize : Z := 32.

Definition valid_definition_limits (limits : SchemaDefinitionCodecLimits) : bool :=
  (sl_maximum_definition_bytes limits >=? kSchemaDefinitionHeaderSize + kSchemaFixedPayloadSize + kSchemaDefinitionTrailerSize)
  && (sl_maximum_definition_bytes limits <=? kMaximumSchemaDefinitionSize)
  && (sl_maximum_table_name_bytes limits >? 0) && (sl_maximum_table_name_bytes limits <=? kMaximumSchemaDefinitionSize)
  && (sl_maximum_column_name_bytes limits >? 0) && (sl_maximum_column_name_bytes limits <=? kMaximumSchemaDefinitionSize)
  && (sl_maximum_columns limits >? 0) && (sl_maximum_columns limits <=? kMaximumSchemaColumnCount)
  && (sl_maximum_role_columns limits >? 0) && (sl_maximum_role_columns limits <=? kMaximumSchemaColumnCount).

Definition add_size (left right : Z) : result Z :=
  match checked_add left right with Some total => Ok total | None => Err kResourceExhausted end.

(** * Encoding *)

(** The size of the columns, added to [size] with its checks. *)
Fixpoint column_sizes (limits : SchemaDefinitionCodecLimits) (columns : list ColumnDefinition) (size : Z) : result Z :=
  match columns with
  | [] => Ok size
  | c :: columns =>
      fail_if (blen (col_name c) >? sl_maximum_column_name_bytes limits) || (blen (col_name c) >? max_u32) with kResourceExhausted;
      let? size := add_size size (kColumnFixedSize + blen (col_name c)) in
      column_sizes limits columns size
  end.
Definition role_count (r : TableSchemaRoles) : Z :=
  1 + blen (physical_ordering_key r) + blen (partition_columns r) + blen (shard_key r) + blen (deduplication_key r).

Definition flag_field (b : bool) : Field := FU8 (if b then 1 else 0).
Definition column_fields (c : ColumnDefinition) : list Field :=
  [FBytes (col_id c); FU16 (kind_code (type_kind (col_type c))); FU16 (parameter_0 (col_type c)); FU16 (parameter_1 (col_type c));
   flag_field (col_nullable c); FU8 0; FU32 (u32 (blen (col_name c))); FU32 0; FBytes (col_name c)].
Definition key_fields (r : TableSchemaRoles) : list Field :=
  (FBytes <$> physical_ordering_key r) ++ (FBytes <$> partition_columns r) ++ (FBytes <$> shard_key r) ++ (FBytes <$> deduplication_key r).
(** The part of the payload before the columns. *)
Definition definition_fixed_fields (d : CatalogTableDefinition) : list Field :=
  let s := cd_schema d in
  let roles := ts_roles s in
  [FBytes (ts_table_id s); FBytes (ts_schema_id s); FU64 (ts_version s);
   flag_field (bool_decide (is_Some (ts_parent_schema_id s))); flag_field (cd_quoted d); zero_field 2;
   FU32 (u32 (blen (cd_name d))); FU32 (u32 (blen (ts_columns s))); FU32 (u32 (blen (physical_ordering_key roles)));
   FU32 (u32 (blen (partition_columns roles))); FU32 (u32 (blen (shard_key roles))); FU32 (u32 (blen (deduplication_key roles)));
   zero_field 8; FBytes (default (replicate 16 x00) (ts_parent_schema_id s)); FBytes (cd_name d)].
Definition definition_header_fields (total_size payload_size : Z) : list Field :=
  [FBytes kDefinitionMagic; FU16 kFrameMajor; FU16 kFrameMinor; FU32 kSchemaDefinitionHeaderSize; FU32 (u32 total_size);
   FU32 (u32 payload_size); FU32 0; FU32 0; FU32 0; FU32 0; zero_field 8].

Definition definition_name_invalid (limits : SchemaDefinitionCodecLimits) (d : CatalogTableDefinition) : bool :=
  bool_decide (cd_name d = []) || (blen (cd_name d) >? sl_maximum_table_name_bytes limits) || (blen (cd_name d) >? max_u32)
  || negb (is_valid_utf8 (cd_name d)) || contains_nul (cd_name d) || (negb (cd_quoted d) && negb (valid_unquoted_name (cd_name d))).
Definition definition_counts_exceed (limits : SchemaDefinitionCodecLimits) (s : TableSchema) : bool :=
  let roles := ts_roles s in
  (blen (ts_columns s) >? sl_maximum_columns limits) || (blen (physical_ordering_key roles) >? sl_maximum_role_columns limits)
  || (blen (partition_columns roles) >? sl_maximum_role_columns limits) || (blen (shard_key roles) >? sl_maximum_role_columns limits)
  || (blen (deduplication_key roles) >? sl_maximum_role_columns limits).

Definition encode_schema_definition_v1 (definition : CatalogTableDefinition) (limits : SchemaDefinitionCodecLimits)
  : result (list byte) :=
  let value := cd_schema definition in
  fail_if negb (valid_definition_limits limits) with kInvalidArgument;
  fail_if definition_name_invalid limits definition with kInvalidArgument;
  fail_if definition_counts_exceed limits value with kResourceExhausted;
  let? size := add_size kSchemaFixedPayloadSize (blen (cd_name definition)) in
  let? size := column_sizes limits (ts_columns value) size in
  let? payload_size := add_size size (role_count (ts_roles value) * 16) in
  match add_size (kSchemaDefinitionHeaderSize + kSchemaDefinitionTrailerSize) payload_size with
  | Err _ => Err kResourceExhausted
  | Ok total_size =>
      fail_if (total_size >? sl_maximum_definition_bytes limits) || (total_size >? max_u32) with kResourceExhausted;
      let '(status, writer) := write_fields (definition_header_fields total_size payload_size ++ definition_fixed_fields definition
                                             ++ concat (column_fields <$> ts_columns value))
                                 (ByteWriter_new (replicate (Z.to_nat total_size) x00)) in
      fail_if negb (is_ok status) with status;
      let '(status, writer) := write_fields [FBytes (event_time_column (ts_roles value))] writer in
      fail_if negb (is_ok status) with kCorruption;
      let '(status, writer) := write_fields (key_fields (ts_roles value)) writer in
      fail_if negb (is_ok status) with status;
      let '(status, writer) := write_fields [FU32 0] writer in
      fail_if negb (is_ok status) || negb (writer_full writer) with kCorruption;
      let bytes := writer_bytes writer in
      let bytes := store_le 4 bytes 24 (crc32c (subspan bytes kSchemaDefinitionHeaderSize payload_size)) in
      Ok (store_checksums bytes)
  end.

(** * Decoding *)

Definition read_identity (reader : ByteReader) : result (list byte * ByteReader) :=
  match read_exact 16 reader with
  | (Ok bytes, reader) => match from_uuid bytes with Ok id => Ok (id, reader) | Err _ => Err kCorruption end
  | (Err s, _) => Err s
  end.
Definition read_string (reader : ByteReader) (length maximum : Z) : result (list byte * ByteReader) :=
  fail_if (length =? 0) || (length >? maximum) || (length >? reader_remaining reader) with kCorruption;
  match read_exact length reader with
  | (Err s, _) => Err s
  | (Ok bytes, reader) =>
      fail_if negb (is_valid_utf8 bytes) || contains_nul bytes with kCorruption;
      Ok (bytes, reader)
  end.
Fixpoint read_identities (count : nat) (reader : ByteReader) : result (list (list byte) * ByteReader) :=
  match count with
  | O => Ok ([], reader)
  | S count =>
      let? (value, reader) := read_identity reader in
      let? (values, reader) := read_identities count reader in
      Ok (value :: values, reader)
  end.
Definition read_roles (reader : ByteReader) (count : Z) (limits : SchemaDefinitionCodecLimits)
  : result (list ColumnId * ByteReader) :=
  fail_if count >? sl_maximum_role_columns limits with kResourceExhausted;
  read_identities (Z.to_nat count) reader.

(** Failures that the caller reports as corruption. *)
Definition or_corruption {A} (r : result A) : result A :=
  match r with Ok a => Ok a | Err _ => Err kCorruption end.

(** A round of the loop over the columns. *)
Definition read_column (reader : ByteReader) (limits : SchemaDefinitionCodecLimits) : result (ColumnDefinition * ByteReader) :=
  let? (id, reader) := or_corruption (read_identity reader) in
  let '(type_code, reader) := read_u16_le reader in
  let '(parameter0, reader) := read_u16_le reader in
  let '(parameter1, reader) := read_u16_le reader in
  let '(nullable, reader) := read_u8 reader in
  let '(column_reserved, reader) := read_u8 reader in
  let '(column_name_length, reader) := read_u32_le reader in
  let '(column_reserved2, reader) := read_u32_le reader in
  match type_code, parameter0, parameter1, nullable, column_reserved, column_name_length, column_reserved2 with
  | Ok type_code, Ok parameter0, Ok parameter1, Ok nullable, Ok column_reserved, Ok column_name_length, Ok column_reserved2 =>
      fail_if (nullable >? 1) || negb (column_reserved =? 0) || negb (column_reserved2 =? 0) with kCorruption;
      match logical_type_kind_from_code type_code with
      | Err _ => Err kNotSupported
      | Ok kind =>
          match LogicalType_create kind parameter0 parameter1, read_string reader column_name_length (sl_maximum_column_name_bytes limits) with
          | Ok type, Ok (column_name, reader) =>
              let? column := or_corruption (ColumnDefinition_create id column_name type (negb (nullable =? 0))) in
              Ok (column, reader)
          | _, _ => Err kCorruption
          end
      end
  | _, _, _, _, _, _, _ => Err kCorruption
  end.
Fixpoint read_columns (count : nat) (reader : ByteReader) (limits : SchemaDefinitionCodecLimits)
  : result (list ColumnDefinition * ByteReader) :=
  match count with
  | O => Ok ([], reader)
  | S count =>
      let? (column, reader) := read_column reader limits in
      let? (columns, reader) := read_columns count reader limits in
      Ok (column :: columns, reader)
  end.
(** The parent, present when its flag is. *)
Definition read_parent (has_parent : Z) (parent_uuid : list byte) : result (option SchemaId) :=
  if has_parent =? 0 then fail_if negb (is_nil parent_uuid) with kCorruption; Ok None
  else match from_uuid parent_uuid with Ok parent => Ok (Some parent) | Err _ => Err kCorruption end.
(** The roles that follow the columns. *)
Definition read_all_roles (reader : ByteReader) (ordering partition shard dedup : Z) (limits : SchemaDefinitionCodecLimits)
  : result TableSchemaRoles :=
  or_corruption (
    let? (event_time, reader) := read_identity reader in
    let? (ordering, reader) := read_roles reader ordering limits in
    let? (partition, reader) := read_roles reader partition limits in
    let? (shard, reader) := read_roles reader shard limits in
    let? (dedup, reader) := read_roles reader dedup limits in
    fail_if negb (reader_empty reader) with kCorruption;
    Ok {| event_time_column := event_time; physical_ordering_key := ordering; partition_columns := partition;
          shard_key := shard; deduplication_key := dedup |}).

Definition decode_definition_payload (payload : list byte) (limits : SchemaDefinitionCodecLimits) : result CatalogTableDefinition :=
  let reader := ByteReader_new payload in
  let? (table_id, reader) := or_corruption (read_identity reader) in
  let? (schema_id, reader) := or_corruption (read_identity reader) in
  let '(version, reader) := read_u64_le reader in
  let '(has_parent, reader) := read_u8 reader in
  let '(quoted, reader) := read_u8 reader in
  let '(reserved, reader) := read_exact 2 reader in
  let '(table_name_length, reader) := read_u32_le reader in
  let '(column_count, reader) := read_u32_le reader in
  let '(ordering_count, reader) := read_u32_le reader in
  let '(partition_count, reader) := read_u32_le reader in
  let '(shard_count, reader) := read_u32_le reader in
  let '(dedup_count, reader) := read_u32_le reader in
  let '(reserved2, reader) := read_exact 8 reader in
  match version, has_parent, quoted, reserved, table_name_length, column_count, ordering_count, partition_count, shard_count,
        dedup_count, reserved2 with
  | Ok version, Ok has_parent, Ok quoted, Ok reserved, Ok table_name_length, Ok column_count, Ok ordering_count,
    Ok partition_count, Ok shard_count, Ok dedup_count, Ok reserved2 =>
      fail_if (has_parent >? 1) || (quoted >? 1) || (column_count =? 0) || (column_count >? sl_maximum_columns limits)
              || (ordering_count >? sl_maximum_role_columns limits) || (partition_count >? sl_maximum_role_columns limits)
              || (shard_count >? sl_maximum_role_columns limits) || (dedup_count >? sl_maximum_role_columns limits)
              || nonzero_bytes reserved || nonzero_bytes reserved2 with kCorruption;
      match read_exact 16 reader with
      | (Err s, _) => Err s
      | (Ok parent_uuid, reader) =>
          let? parent := read_parent has_parent parent_uuid in
          let? (name, reader) := read_string reader table_name_length (sl_maximum_table_name_bytes limits) in
          fail_if (quoted =? 0) && negb (valid_unquoted_name name) with kCorruption;
          let? (columns, reader) := read_columns (Z.to_nat column_count) reader limits in
          let? roles := read_all_roles reader ordering_count partition_count shard_count dedup_count limits in
          let? version := or_corruption (version_from_value version) in
          let? table_schema := or_corruption (TableSchema_create table_id schema_id version parent columns roles) in
          Ok {| cd_name := name; cd_quoted := negb (quoted =? 0); cd_schema := table_schema |}
      end
  | _, _, _, _, _, _, _, _, _, _, _ => Err kCorruption
  end.

Definition decode_schema_definition_v1 (bytes : list byte) (limits : SchemaDefinitionCodecLimits) : result CatalogTableDefinition :=
  fail_if negb (valid_definition_limits limits) with kInvalidArgument;
  fail_if blen bytes <? kSchemaDefinitionHeaderSize + kSchemaFixedPayloadSize + kSchemaDefinitionTrailerSize with kCorruption;
  fail_if negb (header_checksum_matches bytes) with kCorruption;
  fail_if negb (known_frame kDefinitionMagic bytes) with kNotSupported;
  let total_size := load_le 4 bytes 16 in
  let payload_size := load_le 4 bytes 20 in
  fail_if negb (total_size =? blen bytes) || (total_size >? sl_maximum_definition_bytes limits)
          || negb (payload_size =? total_size - kSchemaDefinitionHeaderSize - kSchemaDefinitionTrailerSize)
          || negb (load_le 4 bytes 28 =? 0) || negb (load_le 4 bytes 32 =? 0) || nonzero_bytes (subspan bytes 40 8) with kCorruption;
  let payload := subspan bytes kSchemaDefinitionHeaderSize payload_size in
  fail_if negb (crc32c payload =? load_le 4 bytes 24) || negb (trailer_matches bytes) with kCorruption;
  decode_definition_payload payload limits.
