(* ===== verification/MetadataCodecTheorems.v ===== *)
(** What the codecs of metadata log entries promise: the frames of a command, of a group
    binding and of a complete schema decode to what was encoded, and a decoder accepts
    nothing that its encoder would not have written.  First the facts about the codec of
    schema definitions. *)
From S2P Require Import Prelude Bytes Crc32c Reading RaftTypes RaftMembership OrderedMap Schema.
From S2P Require Import SchemaTheorems.
From S2P Require Import Metadata MetadataCodec MetadataCodecFacts SchemaCodec.
#[local] Open Scope Z_scope.

(** * Identities and strings *)

Lemma or_corruption_Ok {A} (r : result A) a : or_corruption r = Ok a -> r = Ok a.
Proof. by destruct r. Qed.
Lemma read_identity_run r id rest : stands r (id ++ rest) -> uuid_ok id -> exists r', read_identity r = Ok (id, r') /\ stands r' rest.
Proof.
  intros Hs [Hl Hn]. unfold read_identity. destruct (read_exact_stands 16 r id rest Hs) as (r' & -> & Hs'); [by rewrite Hl|].
  exists r'. unfold from_uuid. by rewrite Hn.
Qed.
Lemma read_identity_inv r rest id r' : stands r rest -> read_identity r = Ok (id, r') ->
  exists rest', rest = id ++ rest' /\ uuid_ok id /\ stands r' rest'.
Proof.
  intros Hs H. unfold read_identity in H. destruct (read_exact 16 r) as [[b|s] r1] eqn:E; [|done].
  apply (read_exact_inv 16 r rest b r1 ltac:(lia) Hs) in E as (rest' & -> & Hl & Hs'). unfold from_uuid in H.
  destruct (is_nil b) eqn:Hn; [done|]. injection H as <- <-. exists rest'. split; [done|]. split; [split; [lia|done]|done].
Qed.
Definition name_ok (maximum : Z) (name : list byte) : Prop :=
  name <> [] /\ blen name <= maximum /\ is_valid_utf8 name = true /\ contains_nul name = false.
Lemma read_string_run r name rest maximum : stands r (name ++ rest) -> name_ok maximum name ->
  exists r', read_string r (blen name) maximum = Ok (name, r') /\ stands r' rest.
Proof.
  intros Hs (H1 & H2 & H3 & H4). unfold read_string. rewrite (stands_remaining _ _ Hs), length_app.
  rewrite (proj2 (Z.eqb_neq _ 0)) by (destruct name; cbn; [done|lia]). rewrite !gtb_false by lia. cbn [orb].
  destruct (read_exact_stands (blen name) r name rest Hs) as (r' & -> & Hs'); [done|]. rewrite H3, H4. by exists r'.
Qed.
Lemma read_string_inv r rest len maximum name r' : stands r rest -> 0 <= len -> read_string r len maximum = Ok (name, r') ->
  exists rest', rest = name ++ rest' /\ blen name = len /\ name_ok maximum name /\ stands r' rest'.
Proof.
  intros Hs Hlen H. unfold read_string in H. guard_inv H. destruct (read_exact len r) as [[b|s] r1] eqn:E; [|done].
  apply (read_exact_inv len r rest b r1 Hlen Hs) in E as (rest' & -> & Hl & Hs'). guard_inv H. injection H as <- <-.
  exists rest'. split; [done|]. split; [done|]. split; [|done]. split_and!; try done; [intros ->; cbn in Hl; lia|lia].
Qed.
Lemma read_identities_run ids : forall r rest, stands r (fields_bytes (FBytes <$> ids) ++ rest) -> Forall uuid_ok ids ->
  exists r', read_identities (length ids) r = Ok (ids, r') /\ stands r' rest.
Proof.
  induction ids as [|id ids IH]; intros r rest Hs Hids; cbn [length read_identities]; [eauto|]. apply Forall_cons in Hids as [Hid Hids].
  rewrite fmap_cons, fields_bytes_cons, <- app_assoc in Hs. destruct (read_identity_run _ _ _ Hs Hid) as (r1 & -> & Hs1). cbn [rbind].
  destruct (IH _ _ Hs1 Hids) as (r2 & -> & Hs2). cbn. eauto.
Qed.
Lemma read_identities_inv count : forall r rest ids r', stands r rest -> read_identities count r = Ok (ids, r') ->
  exists rest', rest = fields_bytes (FBytes <$> ids) ++ rest' /\ Forall uuid_ok ids /\ length ids = count /\ stands r' rest'.
Proof.
  induction count as [|count IH]; intros r rest ids r' Hs H; cbn [read_identities] in H; [injection H as <- <-; eauto 10|].
  apply rbind_Ok in H as ([id r1] & E & H). apply (read_identity_inv _ _ _ _ Hs) in E as (rest1 & -> & Hid & Hs1).
  apply rbind_Ok in H as ([ids1 r2] & E & H). injection H as <- <-. apply (IH _ _ _ _ Hs1) in E as (rest2 & -> & Hids & Hl & Hs2).
  exists rest2. rewrite fmap_cons, fields_bytes_cons, <- app_assoc. split_and!; try done; [by constructor|cbn; lia].
Qed.

(** * Columns *)

Lemma kind_from_code kind : logical_type_kind_from_code (kind_code kind) = Ok kind.
Proof. by destruct kind. Qed.
Lemma kind_of_code code kind : logical_type_kind_from_code code = Ok kind -> code = kind_code kind.
Proof.
  unfold logical_type_kind_from_code. intros H. destruct (_ || _) eqn:G; [done|]. rewrite Z.gtb_ltb in G. bool_prop. cbn in *.
  assert (Hc : code ∈ [1; 2; 3; 4; 5; 6; 7; 8; 9; 10; 11; 12; 13; 14; 15; 16; 17; 18]) by (rewrite !elem_of_cons; lia).
  repeat (apply elem_of_cons in Hc as [->|Hc]; [by injection H as <-|]). by apply elem_of_nil in Hc.
Qed.
Lemma kind_code_width kind : in_width 16 (kind_code kind).
Proof. destruct kind; by split. Qed.
Lemma LogicalType_create_Ok kind p0 p1 t : LogicalType_create kind p0 p1 = Ok t ->
  t = {| type_kind := kind; parameter_0 := p0; parameter_1 := p1 |}.
Proof.
  unfold LogicalType_create. destruct (bool_decide _); intros H; guard_inv H; [by injection H as <-|]. subst. by injection H as <-.
Qed.

Definition column_typed (maximum : Z) (c : ColumnDefinition) : Prop :=
  uuid_ok (col_id c) /\ name_ok maximum (col_name c) /\
  in_width 16 (parameter_0 (col_type c)) /\ in_width 16 (parameter_1 (col_type c)) /\
  LogicalType_create (type_kind (col_type c)) (parameter_0 (col_type c)) (parameter_1 (col_type c)) = Ok (col_type c).

Lemma column_create c maximum : name_ok maximum (col_name c) ->
  ColumnDefinition_create (col_id c) (col_name c) (col_type c) (col_nullable c) = Ok c.
Proof.
  intros (H1 & _ & H3 & H4). unfold ColumnDefinition_create. rewrite bool_decide_eq_false_2, H3, H4 by done. by destruct c.
Qed.
Lemma read_column_run r c rest limits : sl_maximum_column_name_bytes limits <= 16777216 -> column_typed (sl_maximum_column_name_bytes limits) c ->
  stands r (fields_bytes (column_fields c) ++ rest) -> exists r', read_column r limits = Ok (c, r') /\ stands r' rest.
Proof.
  intros Hmax (Hid & Hname & H0 & H1 & Ht) Hs. pose proof Hname as (_ & Hnl & _). pose proof (kind_code_width (type_kind (col_type c))) as Hk.
  unfold column_fields, flag_field in Hs. rewrite (wrap_small 32) in Hs by width_lia. fields_normal_in Hs.
  assert (Hb : in_width 8 (if col_nullable c then 1 else 0)) by (destruct (col_nullable c); width_lia).
  assert (Hlw : in_width 32 (blen (col_name c))) by width_lia.
  unfold read_column. destruct (read_identity_run _ _ _ Hs Hid) as (r1 & -> & Hs1). cbn [or_corruption rbind]. clear Hs. entry_run.
  rewrite gtb_false by (destruct (col_nullable c); lia). cbn [Z.eqb negb orb]. rewrite kind_from_code, Ht.
  match goal with S : stands ?rr (col_name c ++ rest) |- _ => destruct (read_string_run rr (col_name c) rest _ S Hname) as (rs & -> & Hs2) end.
  replace (negb ((if col_nullable c then 1 else 0) =? 0)) with (col_nullable c) by (by destruct (col_nullable c)).
  rewrite (column_create c _ Hname). cbn. by exists rs.
Qed.
Lemma read_column_inv r rest c r' limits : stands r rest -> read_column r limits = Ok (c, r') ->
  exists rest', rest = fields_bytes (column_fields c) ++ rest' /\ column_typed (sl_maximum_column_name_bytes limits) c /\ stands r' rest'.
Proof.
  intros Hs H. unfold read_column in H. apply rbind_Ok in H as ([id r1] & E & H). apply or_corruption_Ok in E.
  apply (read_identity_inv _ _ _ _ Hs) in E as (rest1 & -> & Hid & Hs1). clear Hs. entry_inv H. guard_inv H. subst.
  destruct (logical_type_kind_from_code _) as [kind|] eqn:Ek; [|done]. apply kind_of_code in Ek.
  destruct (LogicalType_create _ _ _) as [t|] eqn:Et; [|done]. destruct (read_string _ _ _) as [[name r2]|] eqn:En; [|done].
  apply rbind_Ok in H as (c' & Ec & H). injection H as <- <-. apply or_corruption_Ok in Ec.
  match goal with S : stands ?rr _, E : read_string ?rr _ _ = _ |- _ => eapply (read_string_inv _ _ _ _ _ _ S) in E as (rest2 & -> & Hnl & Hname & Hs2); [|width_lia] end.
  unfold ColumnDefinition_create in Ec. guard_inv Ec. injection Ec as <-. pose proof (LogicalType_create_Ok _ _ _ _ Et) as ->.
  exists rest2. split; [|split; [|done]].
  - unfold column_fields, flag_field. cbn [col_id col_name col_type col_nullable type_kind parameter_0 parameter_1]. rewrite (wrap_small 32) by (rewrite Hnl; done).
    fields_normal. rewrite Hnl, <- Ek.
    match goal with |- context [le_bytes 1 (if negb (?n =? 0) then 1 else 0)] => replace (if negb (n =? 0) then 1 else 0) with n by (destruct (Z.eqb_spec n 0); cbn; width_lia) end.
    done.
  - split_and!; cbn; try done.
Qed.

Lemma read_columns_run columns limits : sl_maximum_column_name_bytes limits <= 16777216 ->
  Forall (column_typed (sl_maximum_column_name_bytes limits)) columns -> forall r rest,
  stands r (fields_bytes (concat (column_fields <$> columns)) ++ rest) ->
  exists r', read_columns (length columns) r limits = Ok (columns, r') /\ stands r' rest.
Proof.
  intros Hmax Hcs. induction Hcs as [|c columns Hc _ IH]; intros r rest Hs; cbn [length read_columns]; [eauto|].
  rewrite fmap_cons in Hs. cbn [concat] in Hs. rewrite fields_bytes_app, <- app_assoc in Hs.
  destruct (read_column_run _ _ _ _ Hmax Hc Hs) as (r1 & -> & Hs1). cbn [rbind].
  destruct (IH _ _ Hs1) as (r2 & -> & Hs2). cbn. eauto.
Qed.
Lemma read_columns_inv limits count : forall r rest columns r', stands r rest -> read_columns count r limits = Ok (columns, r') ->
  exists rest', rest = fields_bytes (concat (column_fields <$> columns)) ++ rest' /\
    Forall (column_typed (sl_maximum_column_name_bytes limits)) columns /\ length columns = count /\ stands r' rest'.
Proof.
  induction count as [|count IH]; intros r rest columns r' Hs H; cbn [read_columns] in H; [injection H as <- <-; eauto 10|].
  apply rbind_Ok in H as ([c r1] & E & H). apply (read_column_inv _ _ _ _ _ Hs) in E as (rest1 & -> & Hc & Hs1).
  apply rbind_Ok in H as ([cs r2] & E & H). injection H as <- <-. apply (IH _ _ _ _ Hs1) in E as (rest2 & -> & Hcs & Hl & Hs2).
  exists rest2. rewrite fmap_cons. cbn [concat]. rewrite fields_bytes_app, <- app_assoc. split_and!; try done; [by constructor|cbn; lia].
Qed.

(** * Roles *)

Definition roles_typed (r : TableSchemaRoles) : Prop :=
  uuid_ok (event_time_column r) /\ Forall uuid_ok (physical_ordering_key r) /\ Forall uuid_ok (partition_columns r) /\
  Forall uuid_ok (shard_key r) /\ Forall uuid_ok (deduplication_key r).
Definition roles_fit (maximum : Z) (r : TableSchemaRoles) : Prop :=
  blen (physical_ordering_key r) <= maximum /\ blen (partition_columns r) <= maximum /\
  blen (shard_key r) <= maximum /\ blen (deduplication_key r) <= maximum.

Lemma read_roles_run ids r rest limits : stands r (fields_bytes (FBytes <$> ids) ++ rest) -> Forall uuid_ok ids ->
  blen ids <= sl_maximum_role_columns limits -> exists r', read_roles r (blen ids) limits = Ok (ids, r') /\ stands r' rest.
Proof.
  intros Hs Hids Hl. unfold read_roles. rewrite gtb_false, Nat2Z.id by done. by apply read_identities_run.
Qed.
Lemma read_roles_inv r rest count limits ids r' : stands r rest -> 0 <= count -> read_roles r count limits = Ok (ids, r') ->
  exists rest', rest = fields_bytes (FBytes <$> ids) ++ rest' /\ Forall uuid_ok ids /\ blen ids = count /\ count <= sl_maximum_role_columns limits /\ stands r' rest'.
Proof.
  intros Hs Hc H. unfold read_roles in H. guard_inv H. apply (read_identities_inv _ _ _ _ _ Hs) in H as (rest' & -> & Hids & Hl & Hs').
  exists rest'. split_and!; try done; lia.
Qed.
(** The writer calls of the roles and of the whole payload. *)
Definition role_fields (r : TableSchemaRoles) : list Field := FBytes (event_time_column r) :: key_fields r.
Definition definition_fields (d : CatalogTableDefinition) : list Field :=
  definition_fixed_fields d ++ concat (column_fields <$> ts_columns (cd_schema d)) ++ role_fields (ts_roles (cd_schema d)).

Lemma read_all_roles_run r roles limits : stands r (fields_bytes (role_fields roles)) -> roles_typed roles ->
  roles_fit (sl_maximum_role_columns limits) roles ->
  read_all_roles r (blen (physical_ordering_key roles)) (blen (partition_columns roles)) (blen (shard_key roles))
    (blen (deduplication_key roles)) limits = Ok roles.
Proof.
  intros Hs (T0 & T1 & T2 & T3 & T4) (F1 & F2 & F3 & F4). unfold role_fields, key_fields in Hs. rewrite fields_bytes_cons, !fields_bytes_app in Hs.
  cbn [field_bytes] in Hs. rewrite <- (app_nil_r (fields_bytes (FBytes <$> deduplication_key roles))) in Hs. unfold read_all_roles.
  destruct (read_identity_run _ _ _ Hs T0) as (r0 & -> & Hs0). cbn [rbind]. destruct (read_roles_run _ _ _ _ Hs0 T1 F1) as (r1 & -> & Hs1). cbn [rbind].
  destruct (read_roles_run _ _ _ _ Hs1 T2 F2) as (r2 & -> & Hs2). cbn [rbind]. destruct (read_roles_run _ _ _ _ Hs2 T3 F3) as (r3 & -> & Hs3). cbn [rbind].
  destruct (read_roles_run _ _ _ _ Hs3 T4 F4) as (r4 & -> & Hs4). cbn [rbind]. rewrite (proj2 (stands_empty _ _ Hs4) eq_refl). cbn. by destruct roles.
Qed.
Lemma read_all_roles_inv r rest a b c d limits roles : stands r rest -> 0 <= a -> 0 <= b -> 0 <= c -> 0 <= d ->
  read_all_roles r a b c d limits = Ok roles ->
  rest = fields_bytes (role_fields roles) /\ roles_typed roles /\ roles_fit (sl_maximum_role_columns limits) roles /\
  blen (physical_ordering_key roles) = a /\ blen (partition_columns roles) = b /\ blen (shard_key roles) = c /\ blen (deduplication_key roles) = d.
Proof.
  intros Hs Ha Hb Hc Hd H. unfold read_all_roles in H. apply or_corruption_Ok in H.
  apply rbind_Ok in H as ([e r0] & E & H). apply (read_identity_inv _ _ _ _ Hs) in E as (rest0 & -> & T0 & Hs0).
  apply rbind_Ok in H as ([i1 r1] & E & H). apply (read_roles_inv _ _ _ _ _ _ Hs0 Ha) in E as (rest1 & -> & T1 & L1 & F1 & Hs1).
  apply rbind_Ok in H as ([i2 r2] & E & H). apply (read_roles_inv _ _ _ _ _ _ Hs1 Hb) in E as (rest2 & -> & T2 & L2 & F2 & Hs2).
  apply rbind_Ok in H as ([i3 r3] & E & H). apply (read_roles_inv _ _ _ _ _ _ Hs2 Hc) in E as (rest3 & -> & T3 & L3 & F3 & Hs3).
  apply rbind_Ok in H as ([i4 r4] & E & H). apply (read_roles_inv _ _ _ _ _ _ Hs3 Hd) in E as (rest4 & -> & T4 & L4 & F4 & Hs4).
  guard_inv H. injection H as <-. match goal with G : reader_empty _ = true |- _ => apply (stands_empty _ _ Hs4) in G as -> end.
  unfold role_fields, key_fields, roles_typed, roles_fit. cbn [event_time_column physical_ordering_key partition_columns shard_key deduplication_key].
  split_and!; try done; try lia. rewrite fields_bytes_cons, !fields_bytes_app, app_nil_r. done.
Qed.

(** * Payloads *)

(** What the types of a definition guarantee. *)
Definition definition_typed (maximum : Z) (d : CatalogTableDefinition) : Prop :=
  let s := cd_schema d in
  uuid_ok (ts_table_id s) /\ uuid_ok (ts_schema_id s) /\ in_width 64 (ts_version s) /\ ts_version s <> 0 /\
  from_option uuid_ok True (ts_parent_schema_id s) /\ Forall (column_typed maximum) (ts_columns s) /\
  roles_typed (ts_roles s) /\ schema_made s.
Definition definition_payload (d : CatalogTableDefinition) : list byte := fields_bytes (definition_fields d).
Definition columns_size (columns : list ColumnDefinition) : Z := foldr (fun c n => 32 + blen (col_name c) + n) 0 columns.
Definition definition_size (d : CatalogTableDefinition) : Z :=
  92 + blen (cd_name d) + columns_size (ts_columns (cd_schema d)) + role_count (ts_roles (cd_schema d)) * 16.

Lemma column_bytes_length c : length (col_id c) = 16%nat -> blen (fields_bytes (column_fields c)) = 32 + blen (col_name c).
Proof. intros Hc. unfold column_fields, flag_field. fields_normal. rewrite !length_app, !length_le_bytes, Hc. cbn [length]. lia. Qed.
Lemma columns_bytes_length columns : Forall (fun c => uuid_ok (col_id c)) columns ->
  blen (fields_bytes (concat (column_fields <$> columns))) = columns_size columns.
Proof.
  induction 1 as [|c columns [Hc _] _ IH]; [done|]. rewrite fmap_cons. cbn [concat columns_size foldr]. rewrite fields_bytes_app, length_app.
  unfold columns_size in IH. pose proof (column_bytes_length c Hc). lia.
Qed.
Lemma ids_bytes_length ids : Forall uuid_ok ids -> blen (fields_bytes (FBytes <$> ids)) = blen ids * 16.
Proof.
  induction 1 as [|id ids [Hid _] _ IH]; [done|]. rewrite fmap_cons, fields_bytes_cons, length_app. cbn [field_bytes length]. rewrite Hid. lia.
Qed.
Lemma roles_bytes_length r : roles_typed r -> blen (fields_bytes (role_fields r)) = role_count r * 16.
Proof.
  intros ([T0 _] & T1 & T2 & T3 & T4). unfold role_fields, key_fields, role_count. rewrite fields_bytes_cons, !fields_bytes_app, !length_app.
  cbn [field_bytes]. rewrite T0. pose proof (ids_bytes_length _ T1). pose proof (ids_bytes_length _ T2). pose proof (ids_bytes_length _ T3).
  pose proof (ids_bytes_length _ T4). lia.
Qed.
Lemma definition_payload_length maximum d : definition_typed maximum d -> blen (definition_payload d) = definition_size d.
Proof.
  intros ([H1 _] & [H2 _] & _ & _ & Hp & Hc & Hr & _). unfold definition_payload, definition_fields, definition_fixed_fields, definition_size. cbv zeta.
  rewrite !fields_bytes_app, !length_app. pose proof (roles_bytes_length _ Hr).
  assert (Hcs : Forall (fun c => uuid_ok (col_id c)) (ts_columns (cd_schema d))) by (eapply Forall_impl; [exact Hc|]; by intros c [? _]).
  pose proof (columns_bytes_length _ Hcs). unfold flag_field. fields_normal. rewrite !length_app, !length_le_bytes, !length_replicate, H1, H2.
  assert (Hpar : length (default (replicate 16 x00) (ts_parent_schema_id (cd_schema d))) = 16%nat) by (destruct (ts_parent_schema_id _); [apply Hp|done]).
  rewrite Hpar. cbn [length]. lia.
Qed.

Lemma definition_limits_bounds limits : valid_definition_limits limits = true ->
  144 <= sl_maximum_definition_bytes limits <= 16777216 /\ sl_maximum_table_name_bytes limits <= 16777216 /\
  sl_maximum_column_name_bytes limits <= 16777216 /\ sl_maximum_columns limits <= 4096 /\ sl_maximum_role_columns limits <= 4096.
Proof.
  unfold valid_definition_limits, kSchemaDefinitionHeaderSize, kSchemaFixedPayloadSize, kSchemaDefinitionTrailerSize,
    kMaximumSchemaDefinitionSize, kMaximumSchemaColumnCount.
  intros H. rewrite !Z.geb_leb, !Z.gtb_ltb in H. bool_prop. lia.
Qed.
(** A definition that fits the limits. *)
Definition definition_valid (limits : SchemaDefinitionCodecLimits) (d : CatalogTableDefinition) : Prop :=
  definition_typed (sl_maximum_column_name_bytes limits) d /\ definition_name_invalid limits d = false /\
  definition_counts_exceed limits (cd_schema d) = false /\ definition_size d <= sl_maximum_definition_bytes limits - 52.

Lemma flag_field_width (b : bool) : in_width 8 (if b then 1 else 0).
Proof. destruct b; width_lia. Qed.
Lemma flag_back (b : bool) : negb ((if b then 1 else 0) =? 0) = b.
Proof. by destruct b. Qed.
Lemma flag_of v : in_width 8 v -> v <= 1 -> (if negb (v =? 0) then 1 else 0) = v.
Proof. intros. destruct (Z.eqb_spec v 0); cbn; width_lia. Qed.
Lemma TableSchema_create_Ok t s v p columns roles schema : TableSchema_create t s v p columns roles = Ok schema ->
  schema = {| ts_table_id := t; ts_schema_id := s; ts_version := v; ts_parent_schema_id := p; ts_columns := columns; ts_roles := roles |} /\
  schema_made schema.
Proof.
  intros H. assert (E : schema = {| ts_table_id := t; ts_schema_id := s; ts_version := v; ts_parent_schema_id := p; ts_columns := columns; ts_roles := roles |}).
  { unfold TableSchema_create, check, make_unexpected in H. repeat case_match; by simplify_eq. }
  split; [done|]. unfold schema_made. by rewrite E in H |- *.
Qed.
Lemma made_nonempty s : schema_made s -> ts_columns s <> [].
Proof.
  unfold schema_made, TableSchema_create. intros H. destruct (if _ =? _ then _ else _); [done|].
  destruct (bool_decide _); [done|]. destruct (bool_decide (ts_columns s = [])) eqn:G; [done|]. by bool_prop.
Qed.
Lemma is_nil_zeros : is_nil (replicate 16 x00) = true.
Proof. done. Qed.
Lemma is_nil_zeros_inv id : length id = 16%nat -> is_nil id = true -> id = replicate 16 x00.
Proof.
  unfold is_nil. intros <- H. induction id as [|b id IH]; [done|]. cbn in *. apply andb_true_iff in H as [Hb%bool_decide_eq_true H].
  subst. f_equal. by apply IH.
Qed.
Lemma read_parent_run s : from_option uuid_ok True (ts_parent_schema_id s) ->
  read_parent (if bool_decide (is_Some (ts_parent_schema_id s)) then 1 else 0) (default (replicate 16 x00) (ts_parent_schema_id s)) = Ok (ts_parent_schema_id s).
Proof.
  intros H. destruct (ts_parent_schema_id s) as [p|]; unfold read_parent.
  - rewrite bool_decide_eq_true_2 by done. cbn. unfold from_uuid. by rewrite (proj2 H).
  - rewrite bool_decide_eq_false_2 by (by intros []). done.
Qed.
Lemma read_parent_inv h uuid parent : length uuid = 16%nat -> read_parent h uuid = Ok parent -> h <= 1 -> in_width 8 h ->
  from_option uuid_ok True parent /\ uuid = default (replicate 16 x00) parent /\ h = (if bool_decide (is_Some parent) then 1 else 0).
Proof.
  intros Hl H Hh Hw. unfold read_parent in H. destruct (Z.eqb_spec h 0) as [->|].
  - guard_inv H. injection H as <-. cbn. split; [done|]. split; [by apply is_nil_zeros_inv|done].
  - unfold from_uuid in H. destruct (is_nil uuid) eqn:E; [done|]. injection H as <-. cbn. split; [by split|]. split; [done|width_lia].
Qed.

Lemma decode_definition_payload_run limits d : valid_definition_limits limits = true -> definition_valid limits d ->
  decode_definition_payload (definition_payload d) limits = Ok d.
Proof.
  intros Hl (Ht & Hn & Hc & _). apply definition_limits_bounds in Hl as (_ & B1 & B2 & B3 & B4).
  destruct Ht as (T1 & T2 & T3 & T4 & T5 & T6 & T7 & T8). unfold definition_name_invalid in Hn. unfold definition_counts_exceed in Hc. cbv zeta in Hc.
  rewrite !Z.gtb_ltb in *. bool_prop. pose proof (made_nonempty _ T8) as Hne.
  assert (Hcn : 1 <= blen (ts_columns (cd_schema d))) by (destruct (ts_columns _); [done|cbn; lia]).
  pose proof (stands_new (definition_payload d)) as Hs. unfold definition_payload at 2 in Hs. unfold definition_fields, definition_fixed_fields, flag_field in Hs. cbv zeta in Hs.
  rewrite !(wrap_small 32) in Hs by width_lia. rewrite !fields_bytes_app in Hs. fields_normal_in Hs.
  unfold decode_definition_payload. cbv zeta.
  pose proof (flag_field_width (cd_quoted d)). pose proof (flag_field_width (bool_decide (is_Some (ts_parent_schema_id (cd_schema d))))).
  destruct (read_identity_run _ _ _ Hs T1) as (r0 & -> & Hs0). cbn [or_corruption rbind]. clear Hs.
  destruct (read_identity_run _ _ _ Hs0 T2) as (r1 & -> & Hs1). cbn [or_corruption rbind]. clear Hs0.
  read_unfold. entry_run1. entry_run1. entry_run1. entry_run1. do 6 entry_run1. entry_run1.
  rewrite !gtb_false by (lia || (destruct (cd_quoted d); lia) || (destruct (bool_decide _); lia)).
  rewrite (proj2 (Z.eqb_neq (blen (ts_columns _)) 0)) by lia. unfold nonzero_bytes. rewrite !replicate_zero_check. cbn [orb].
  assert (Hpar : length (default (replicate 16 x00) (ts_parent_schema_id (cd_schema d))) = 16%nat) by (destruct (ts_parent_schema_id _); [apply T5|done]).
  match goal with S : stands ?r (default _ _ ++ _) |- _ => destruct (read_exact_stands 16 r _ _ S) as (rp & -> & Hsp); [by rewrite Hpar|] end.
  rewrite read_parent_run by done. cbn [rbind].
  destruct (read_string_run _ _ _ (sl_maximum_table_name_bytes limits) Hsp) as (rn & -> & Hsn); [split_and!; done || lia|]. cbn [rbind].
  assert (Hq : ((if cd_quoted d then 1 else 0) =? 0) && negb (valid_unquoted_name (cd_name d)) = false).
  { destruct (cd_quoted d); [done|]. match goal with G : negb false && _ = false |- _ => exact G end. }
  rewrite Hq, Nat2Z.id.
  destruct (read_columns_run _ limits B2 T6 _ _ Hsn) as (rc & -> & Hsc). cbn [rbind].
  rewrite read_all_roles_run by (done || (split_and!; lia)). cbn [rbind]. unfold version_from_value. rewrite (proj2 (Z.eqb_neq _ 0)) by done. cbn [or_corruption rbind].
  assert (Hmk : TableSchema_create (ts_table_id (cd_schema d)) (ts_schema_id (cd_schema d)) (ts_version (cd_schema d)) (ts_parent_schema_id (cd_schema d))
    (ts_columns (cd_schema d)) (ts_roles (cd_schema d)) = Ok (cd_schema d)) by exact T8.
  rewrite Hmk. cbn [or_corruption rbind]. rewrite flag_back. by destruct d.
Qed.
Lemma decode_definition_payload_inv limits payload d : decode_definition_payload payload limits = Ok d ->
  payload = definition_payload d /\ definition_typed (sl_maximum_column_name_bytes limits) d /\
  (valid_definition_limits limits = true -> definition_name_invalid limits d = false) /\ definition_counts_exceed limits (cd_schema d) = false.
Proof.
  intros H. unfold decode_definition_payload in H. pose proof (stands_new payload) as Hs. cbv zeta in H.
  apply rbind_Ok in H as ([t r0] & E & H). apply or_corruption_Ok, (read_identity_inv _ _ _ _ Hs) in E as (rest0 & -> & T1 & Hs0). clear Hs.
  apply rbind_Ok in H as ([s r1] & E & H). apply or_corruption_Ok, (read_identity_inv _ _ _ _ Hs0) in E as (rest1 & -> & T2 & Hs1). clear Hs0.
  entry_inv H. guard_inv H. unfold nonzero_bytes in *. reserved_inv. entry_inv H.
  apply rbind_Ok in H as (parent & Epar & H). eapply read_parent_inv in Epar as (T5 & -> & ->); [|lia|done..].
  apply rbind_Ok in H as ([name r2] & En & H).
  match goal with S : stands ?r _, E : read_string ?r _ _ = _ |- _ => eapply (read_string_inv _ _ _ _ _ _ S) in E as (rest2 & -> & Hnl & Hname & Hs2); [|width_lia]; clear S end.
  guard_inv H. apply rbind_Ok in H as ([columns r3] & Ecs & H). apply (read_columns_inv _ _ _ _ _ _ Hs2) in Ecs as (rest3 & -> & T6 & Hcl & Hs3).
  apply rbind_Ok in H as (roles & Er & H). eapply (read_all_roles_inv _ _ _ _ _ _ _ _ Hs3) in Er as (-> & T7 & (F1 & F2 & F3 & F4) & L1 & L2 & L3 & L4); [|width_lia..].
  apply rbind_Ok in H as (version & Ev & H). apply or_corruption_Ok in Ev. unfold version_from_value in Ev. guard_inv Ev. injection Ev as <-.
  apply rbind_Ok in H as (schema & Es & H). apply or_corruption_Ok in Es. injection H as <-. destruct (TableSchema_create_Ok _ _ _ _ _ _ _ Es) as (-> & Hmade).
  cbn [cd_schema cd_name cd_quoted]. assert (Hcn : blen columns = a4) by (rewrite Hcl; width_lia).
  split_and!.
  - unfold definition_payload, definition_fields, definition_fixed_fields, flag_field. cbn [cd_schema cd_name cd_quoted ts_table_id ts_schema_id ts_version ts_parent_schema_id ts_columns ts_roles]. cbv zeta.
    rewrite flag_of by done. rewrite Hcn, L1, L2, L3, L4. rewrite Hnl, !(wrap_small 32) by done. cbn [app].
    rewrite !fields_bytes_cons, fields_bytes_app. cbn [field_bytes zero_field]. done.
  - unfold definition_typed. cbn [cd_schema ts_table_id ts_schema_id ts_version ts_parent_schema_id ts_columns ts_roles]. split_and!; done.
  - intros Hlim. apply definition_limits_bounds in Hlim as (_ & B1 & _). destruct Hname as (N1 & N2 & N3 & N4). unfold definition_name_invalid. cbn [cd_name cd_quoted].
    rewrite N3, N4, bool_decide_eq_false_2 by done. rewrite !gtb_false by lia. cbn [negb orb]. destruct (_ =? 0); [|done]. cbn in *. done.
  - unfold definition_counts_exceed. cbn [ts_columns ts_roles]. rewrite !gtb_false by lia. done.
Qed.

(** * Frames *)

Definition definition_mid (payload : list byte) : list byte := le_bytes 4 (crc32c payload) ++ replicate 8 x00.
Definition definition_frame (d : CatalogTableDefinition) : list byte :=
  frame (frame_prefix kDefinitionMagic (definition_mid (definition_payload d)) (definition_payload d)) (definition_payload d).

Lemma length_definition_mid payload : length (definition_mid payload) = 12%nat.
Proof. unfold definition_mid. by rewrite length_app, length_le_bytes, length_replicate. Qed.
Lemma columns_size_nonneg columns : 0 <= columns_size columns.
Proof. induction columns as [|c columns IH]; cbn; [done|]. unfold columns_size in IH. lia. Qed.
Lemma add_size_Ok a b n : 0 <= a -> 0 <= b -> add_size a b = Ok n <-> n = a + b /\ a + b < 2 ^ 64.
Proof.
  intros Ha Hb. unfold add_size, checked_add. destruct (Z.gtb_spec b (max_u64 - a)).
  - split; [done|intros [_ ?]; width_lia].
  - rewrite wrap_small by width_lia. split; [intros [= <-]; width_lia|by intros [-> _]].
Qed.
Lemma column_sizes_Ok limits columns : forall size n, 0 <= size -> column_sizes limits columns size = Ok n ->
  n = size + columns_size columns /\ Forall (fun c => blen (col_name c) <= sl_maximum_column_name_bytes limits) columns.
Proof.
  induction columns as [|c columns IH]; intros size n Hs H; cbn [column_sizes] in H.
  { injection H as <-. cbn. split; [lia|done]. }
  guard_inv H. apply rbind_Ok in H as (m & Hm & H). unfold kColumnFixedSize in Hm. apply add_size_Ok in Hm as [-> _]; [|lia..].
  apply IH in H as [-> Hf]; [|lia]. cbn. unfold columns_size. split; [lia|by constructor].
Qed.
Lemma column_sizes_run limits columns : sl_maximum_column_name_bytes limits <= 16777216 ->
  Forall (fun c => blen (col_name c) <= sl_maximum_column_name_bytes limits) columns -> forall size, 0 <= size ->
  size + columns_size columns < 2 ^ 64 -> column_sizes limits columns size = Ok (size + columns_size columns).
Proof.
  intros Hmax Hf. induction Hf as [|c columns Hc _ IH]; intros size Hs Hl; cbn [column_sizes]; [cbn; f_equal; lia|].
  pose proof (columns_size_nonneg columns). cbn in Hl. fold (columns_size columns) in Hl.
  rewrite !gtb_false by lia. cbn [orb]. unfold kColumnFixedSize. rewrite (proj2 (add_size_Ok size (32 + blen (col_name c)) (size + (32 + blen (col_name c))) ltac:(lia) ltac:(lia))) by (split; [done|lia]).
  cbn [rbind]. rewrite IH by lia. cbn. fold (columns_size columns). f_equal. lia.
Qed.

(** Writing the zero checksums and filling them in afterwards gives the frame. *)
Lemma definition_sealed d total : total = blen (definition_payload d) + 52 -> total < 2 ^ 32 ->
  let payload := definition_payload d in
  let written := fields_bytes ((definition_header_fields total (blen payload) ++ definition_fields d) ++ [FU32 0]) in
  blen written = total /\ subspan written 48 (blen payload) = payload /\
  store_checksums (store_le 4 written 24 (crc32c payload)) = definition_frame d.
Proof.
  intros -> Hmax payload written.
  set (h := kDefinitionMagic ++ le_bytes 2 kFrameMajor ++ le_bytes 2 kFrameMinor ++ le_bytes 4 48 ++ le_bytes 4 (blen payload + 52) ++ le_bytes 4 (blen payload)).
  assert (Hh : length h = 24%nat) by (unfold h; rewrite !length_app, !length_le_bytes; done).
  assert (Hf : written = h ++ replicate 4 x00 ++ replicate 8 x00 ++ replicate 4 x00 ++ replicate 8 x00 ++ payload ++ replicate 4 x00).
  { unfold written. rewrite !fields_bytes_app. fold payload. unfold definition_header_fields, h. rewrite !(wrap_small 32) by (unfold payload; width_lia).
    fields_normal. rewrite <- ?app_assoc. done. }
  rewrite Hf. split_and!.
  - rewrite !length_app, Hh, !length_replicate. unfold payload. lia.
  - rewrite !app_assoc, <- (app_assoc _ payload). apply subspan_app_l; [rewrite !length_app, Hh, !length_replicate; done|done].
  - rewrite store_middle by (rewrite ?Hh; done). unfold definition_frame. fold payload.
    rewrite <- store_checksums_frame by (apply length_frame_prefix; [done|apply length_definition_mid]).
    unfold frame_header_with, frame_prefix, definition_mid, h. by rewrite <- !app_assoc.
Qed.
Lemma writer_put_new_nil n : writer_put (ByteWriter_new (replicate n x00)) [] = ByteWriter_new (replicate n x00).
Proof. unfold writer_put, ByteWriter_new, copy_at. cbn. by rewrite drop_0. Qed.
Lemma write_next n a fs : blen a + blen (fields_bytes fs) <= Z.of_nat n ->
  write_fields fs (writer_put (ByteWriter_new (replicate n x00)) a) = (kOk, writer_put (ByteWriter_new (replicate n x00)) (a ++ fields_bytes fs)).
Proof.
  intros Hl. assert (Hw : writer_ok (ByteWriter_new (replicate n x00))) by (unfold writer_ok; cbn; lia).
  assert (Hr : writer_remaining (ByteWriter_new (replicate n x00)) = Z.of_nat n) by (unfold writer_remaining; cbn; rewrite length_replicate; lia).
  rewrite write_fields_fit; [|apply writer_put_ok; [done|rewrite Hr; lia]|rewrite writer_put_remaining by (done || rewrite Hr; lia); lia].
  rewrite writer_put_app by (done || rewrite length_app, Hr; lia). done.
Qed.
Lemma encode_definition_exact limits d : valid_definition_limits limits = true -> definition_valid limits d ->
  encode_schema_definition_v1 d limits = Ok (definition_frame d).
Proof.
  intros Hl (Ht & Hn & Hc & Hsz). pose proof (definition_payload_length _ _ Ht) as Hpl. pose proof (definition_limits_bounds _ Hl) as (B0 & B1 & B2 & B3 & B4).
  unfold encode_schema_definition_v1. rewrite Hl, Hn, Hc. cbn [negb]. unfold definition_size in *.
  pose proof (columns_size_nonneg (ts_columns (cd_schema d))). assert (Hrc : 0 <= role_count (ts_roles (cd_schema d))) by (unfold role_count; lia).
  unfold kSchemaFixedPayloadSize, kSchemaDefinitionHeaderSize, kSchemaDefinitionTrailerSize.
  rewrite (proj2 (add_size_Ok 92 (blen (cd_name d)) (92 + blen (cd_name d)) ltac:(lia) ltac:(lia))) by (split; [done|lia]). cbn [rbind].
  rewrite column_sizes_run; [|done|destruct Ht as (_ & _ & _ & _ & _ & T6 & _); eapply Forall_impl; [exact T6|]; by intros c (_ & (_ & ? & _) & _)|lia|lia]. cbn [rbind].
  rewrite (proj2 (add_size_Ok (92 + blen (cd_name d) + columns_size (ts_columns (cd_schema d))) (role_count (ts_roles (cd_schema d)) * 16)
    (92 + blen (cd_name d) + columns_size (ts_columns (cd_schema d)) + role_count (ts_roles (cd_schema d)) * 16) ltac:(lia) ltac:(lia))) by (split; [done|lia]). cbn [rbind]. rewrite <- Hpl in *.
  rewrite (proj2 (add_size_Ok (48 + 4) (blen (definition_payload d)) (blen (definition_payload d) + 52) ltac:(lia) ltac:(lia))) by (split; lia).
  rewrite !gtb_false by lia. cbn [orb].
  destruct (definition_sealed d _ eq_refl ltac:(lia)) as (Hlen & Hspan & Hseal).
  set (n := Z.to_nat (blen (definition_payload d) + 52)) in *. assert (Hnn : Z.of_nat n = blen (definition_payload d) + 52) by lia.
  unfold definition_fields, role_fields in Hlen, Hspan, Hseal.
  rewrite !fields_bytes_app, fields_bytes_cons, !app_assoc in Hlen, Hspan, Hseal. cbn [field_bytes] in Hlen, Hspan, Hseal.
  pose proof Hlen as Hlen'. rewrite fields_bytes_cons, fields_bytes_nil, !length_app in Hlen'. cbn [field_bytes length] in Hlen'.
  rewrite <- (writer_put_new_nil n), (write_next n []) by (rewrite !fields_bytes_app, !length_app; cbn [length]; lia).
  change (is_ok kOk) with true. cbn [negb app].
  do 3 (rewrite write_next by (rewrite ?fields_bytes_app, ?fields_bytes_cons, ?fields_bytes_nil, ?length_app; cbn [length field_bytes]; lia);
    change (is_ok kOk) with true; cbn [negb]).
  rewrite !fields_bytes_app, (fields_bytes_cons (FBytes _)), fields_bytes_nil, app_nil_r, !app_assoc. cbn [field_bytes].
  rewrite writer_put_new by lia. unfold writer_full, writer_remaining. cbn [writer_bytes writer_offset]. rewrite Z.sub_diag. cbn [Z.eqb negb orb].
  rewrite Hspan, Hseal. done.
Qed.

(** What the encoder accepts, of a definition some limit on column names admits, fits its limits. *)
Lemma encode_definition_inv limits maximum d bytes : definition_typed maximum d -> encode_schema_definition_v1 d limits = Ok bytes ->
  valid_definition_limits limits = true /\ definition_valid limits d.
Proof.
  intros Ht H. unfold encode_schema_definition_v1 in H. guard_inv H. cbv zeta in H.
  unfold kSchemaFixedPayloadSize, kSchemaDefinitionHeaderSize, kSchemaDefinitionTrailerSize in H.
  apply rbind_Ok in H as (s1 & E1 & H). apply add_size_Ok in E1 as [-> _]; [|lia..].
  apply rbind_Ok in H as (s2 & E2 & H). apply column_sizes_Ok in E2 as [-> Hcols]; [|lia].
  pose proof (columns_size_nonneg (ts_columns (cd_schema d))). assert (Hrc : 0 <= role_count (ts_roles (cd_schema d))) by (unfold role_count; lia).
  apply rbind_Ok in H as (s3 & E3 & H). apply add_size_Ok in E3 as [-> _]; [|lia..].
  destruct (add_size _ _) as [total|] eqn:E4; [|done]. apply add_size_Ok in E4 as [-> _]; [|lia..]. guard_inv H.
  split; [done|]. split; [|split; [done|split; [done|unfold definition_size; lia]]].
  destruct Ht as (T1 & T2 & T3 & T4 & T5 & T6 & T7 & T8). unfold definition_typed. split_and!; try done.
  apply Forall_forall. intros c Hc. pose proof (proj1 (Forall_forall _ _) T6 c Hc) as (C1 & (N1 & _ & N3 & N4) & C3).
  pose proof (proj1 (Forall_forall _ _) Hcols c Hc). split; [done|]. split; [by split|done].
Qed.

Lemma definition_mid_parts bytes payload : 36 <= blen bytes -> subspan bytes 24 12 = definition_mid payload ->
  load_le 4 bytes 24 = crc32c payload /\ load_le 4 bytes 28 = 0 /\ load_le 4 bytes 32 = 0.
Proof.
  intros Hl E. unfold definition_mid in E. change (replicate 8 x00) with (le_bytes 4 0 ++ le_bytes 4 0) in E.
  change 12 with (4 + (4 + 4)) in E. rewrite !subspan_split in E by lia. change (24 + 4 + 4) with 32 in E. change (24 + 4) with 28 in E.
  apply app_inj_1 in E as [E1 E]; [|rewrite length_subspan, length_le_bytes by lia; done].
  apply app_inj_1 in E as [E2 E3]; [|rewrite length_subspan, length_le_bytes by lia; done].
  split_and!; apply load_field; (lia || apply crc32c_range || done || width_lia).
Qed.
Lemma decode_definition_complete limits d : valid_definition_limits limits = true -> definition_valid limits d ->
  decode_schema_definition_v1 (definition_frame d) limits = Ok d.
Proof.
  intros Hl Hv. pose proof Hv as (Ht & Hi & Hc & Hs). pose proof (definition_limits_bounds _ Hl) as (Hb & _).
  pose proof (definition_payload_length _ _ Ht) as Hpl.
  assert (Hmin : 92 <= definition_size d).
  { unfold definition_size. pose proof (columns_size_nonneg (ts_columns (cd_schema d))). unfold role_count. lia. }
  unfold decode_schema_definition_v1, definition_frame. set (payload := definition_payload d) in *. set (mid := definition_mid payload).
  assert (Hmid : length mid = 12%nat) by apply length_definition_mid.
  pose proof (length_frame_prefix kDefinitionMagic mid payload eq_refl Hmid) as Hp.
  destruct (frame_known kDefinitionMagic mid payload eq_refl Hmid ltac:(lia)) as (K1 & K2 & K3 & K4).
  pose proof (frame_header_matches _ Hp payload) as Hh. pose proof (frame_trailer_matches _ Hp payload) as Htr.
  pose proof (frame_reserved _ Hp payload) as Hr. pose proof (frame_payload _ Hp payload) as Hpay. pose proof (frame_length _ Hp payload) as Hn.
  set (bytes := frame _ payload) in *. rewrite Hl, Hh, K1, Htr, K2, K3.
  unfold kSchemaDefinitionHeaderSize, kSchemaDefinitionTrailerSize, kSchemaFixedPayloadSize.
  destruct (definition_mid_parts bytes payload ltac:(lia) K4) as (M1 & M2 & M3). rewrite M1, M2, M3, Hr.
  unfold nonzero_bytes. rewrite !replicate_zero_check. rewrite (proj2 (Z.ltb_ge _ _)) by lia.
  rewrite !Z.eqb_refl. replace (blen bytes - 52 =? blen bytes - 48 - 4) with true by (symmetry; apply Z.eqb_eq; lia).
  rewrite gtb_false by lia. cbn [negb orb]. replace (blen bytes - 52) with (blen payload) by lia. rewrite Hpay, Z.eqb_refl. cbn [negb orb].
  by apply decode_definition_payload_run.
Qed.
Lemma decode_definition_sound limits bytes d : decode_schema_definition_v1 bytes limits = Ok d ->
  valid_definition_limits limits = true /\ definition_valid limits d /\ bytes = definition_frame d.
Proof.
  unfold decode_schema_definition_v1, kSchemaDefinitionHeaderSize, kSchemaDefinitionTrailerSize, kSchemaFixedPayloadSize. intros H. guard_inv H.
  apply decode_definition_payload_inv in H as (Hp & Ht & Hi & Hc). pose proof (definition_payload_length _ _ Ht) as Hpl.
  assert (Hl : blen (subspan bytes 48 (load_le 4 bytes 20)) = load_le 4 bytes 20) by (rewrite length_subspan; lia).
  split; [done|]. split; [split_and!; auto; rewrite <- Hpl, <- Hp, Hl; lia|].
  rewrite (frame_of_checks bytes) by (done || lia).
  rewrite (prefix_of_checks kDefinitionMagic bytes) by (done || lia).
  assert (Epl : subspan bytes 48 (blen bytes - 52) = definition_payload d) by (rewrite <- Hp; f_equal; lia).
  unfold definition_frame. rewrite Epl. f_equal. f_equal. unfold definition_mid. change (replicate 8 x00) with (le_bytes 4 0 ++ le_bytes 4 0).
  change 12 with (4 + (4 + 4)). rewrite !subspan_split by lia. rewrite <- Hp.
  repeat match goal with G : load_le 4 bytes ?k = 0 |- _ => apply (f_equal (le_bytes 4)) in G; rewrite <- (field_of_load 4) in G by (cbn; lia) end.
  match goal with G : crc32c _ = load_le 4 bytes 24 |- _ => rewrite G end. rewrite <- (field_of_load 4) by (cbn; lia). f_equal. f_equal; done.
Qed.

(** * What the codecs promise *)

Lemma Ok_equal {A} (a b : A) : Ok a = Ok b -> a = b.
Proof. congruence. Qed.
Lemma encode_command_inv limits c bytes : command_typed c -> encode_metadata_command_v1 c limits = Ok bytes ->
  valid_command_limits limits = true /\ command_valid limits (sorted_command c).
Proof.
  intros Ht H. unfold encode_metadata_command_v1 in H. guard_inv H. apply rbind_Ok in H as ([kind payload] & E & _).
  unfold encode_command_payload, kMetadataCommandHeaderSize, kMetadataCommandTrailerSize in E. cbv zeta in E. guard_inv E.
  split; [done|]. apply sorted_valid; [done..|lia].
Qed.

(** C32. Metadata commands: a command that encodes decodes to itself with its replicas in
    canonical order, and whatever byte string decodes to a command is the encoding of that
    command, which is already in canonical order.  Two commands share a frame only if they
    differ in the order of their replicas. *)
Theorem metadata_command_codec limits c bytes :
  command_typed c -> encode_metadata_command_v1 c limits = Ok bytes ->
  decode_metadata_command_v1 bytes limits = Ok (sorted_command c) /\
  blen bytes <= cl_maximum_command_bytes limits /\
  (forall bytes' c', decode_metadata_command_v1 bytes' limits = Ok c' ->
    encode_metadata_command_v1 c' limits = Ok bytes' /\ sorted_command c' = c') /\
  (forall c', command_typed c' -> encode_metadata_command_v1 c' limits = Ok bytes -> sorted_command c' = sorted_command c).
Proof.
  intros Ht He. destruct (encode_command_inv _ _ _ Ht He) as [Hl Hv].
  rewrite (encode_command_exact _ _ Hl Hv) in He. apply Ok_equal in He as <-. pose proof (decode_metadata_complete _ _ Hl Hv) as Hd.
  split; [done|]. split.
  { destruct Hv as (Ht' & _ & _ & Hs). unfold command_frame.
    rewrite frame_length by (apply length_frame_prefix; [done|apply length_command_mid]). rewrite (payload_bytes_length _ Ht'). lia. }
  split.
  - intros bytes' c' H. apply decode_metadata_sound in H as (_ & Hv' & ->). pose proof Hv' as (_ & _ & Hc & _).
    split; [|done]. rewrite <- Hc in Hv'. rewrite (encode_command_exact _ _ Hl Hv'). by rewrite Hc.
  - intros c' Ht' He. destruct (encode_command_inv _ _ _ Ht' He) as [_ Hv']. rewrite (encode_command_exact _ _ Hl Hv') in He.
    apply Ok_equal in He. pose proof (decode_metadata_complete _ _ Hl Hv') as Hd'. rewrite He, Hd in Hd'. by apply Ok_equal in Hd'.
Qed.
Definition sample_placement : MetadataCommand :=
  TabletCommand {| tp_table_id := sample_uuid 1; tp_tablet_id := sample_uuid 7; tp_placement_epoch := 2; tp_replicas := [3; 1; 2];
                   tp_leader_hint := Some 3 |}.
Lemma metadata_command_codec_witness : exists bytes,
  encode_metadata_command_v1 sample_placement default_command_limits = Ok bytes /\ length bytes = 132%nat /\
  decode_metadata_command_v1 bytes default_command_limits = Ok (sorted_command sample_placement).
Proof.
  assert (Ht : command_typed sample_placement) by (cbn; split_and!; try done; by repeat constructor).
  destruct (encode_metadata_command_v1 sample_placement default_command_limits) as [bytes|] eqn:E; [|vm_compute in E; discriminate].
  destruct (metadata_command_codec _ _ _ Ht E) as [Hd _]. exists bytes. split; [done|]. split; [|exact Hd].
  vm_compute in E. injection E as <-. reflexivity.
Defined.

(** C33. Complete schemas: a definition that encodes decodes to itself, whatever byte string
    decodes to a definition is the encoding of that definition, whose schema passes the
    checks of its constructor, and no two definitions share a frame. *)
Theorem schema_definition_codec limits maximum d bytes :
  definition_typed maximum d -> encode_schema_definition_v1 d limits = Ok bytes ->
  decode_schema_definition_v1 bytes limits = Ok d /\
  blen bytes <= sl_maximum_definition_bytes limits /\
  (forall bytes' d', decode_schema_definition_v1 bytes' limits = Ok d' ->
    encode_schema_definition_v1 d' limits = Ok bytes' /\ schema_made (cd_schema d')) /\
  (forall d', definition_typed maximum d' -> encode_schema_definition_v1 d' limits = Ok bytes -> d' = d).
Proof.
  intros Ht He. destruct (encode_definition_inv _ _ _ _ Ht He) as [Hl Hv].
  rewrite (encode_definition_exact _ _ Hl Hv) in He. apply Ok_equal in He as <-. pose proof (decode_definition_complete _ _ Hl Hv) as Hd.
  split; [done|]. split.
  { destruct Hv as (Ht' & _ & _ & Hs). unfold definition_frame.
    rewrite frame_length by (apply length_frame_prefix; [done|apply length_definition_mid]). rewrite (definition_payload_length _ _ Ht'). lia. }
  split.
  - intros bytes' d' H. apply decode_definition_sound in H as (_ & Hv' & ->). split; [by apply encode_definition_exact|].
    by destruct Hv' as ((_ & _ & _ & _ & _ & _ & _ & ?) & _).
  - intros d' Ht' He. destruct (encode_definition_inv _ _ _ _ Ht' He) as [_ Hv']. rewrite (encode_definition_exact _ _ Hl Hv') in He.
    apply Ok_equal in He. pose proof (decode_definition_complete _ _ Hl Hv') as Hd'. rewrite He, Hd in Hd'. by apply Ok_equal in Hd'.
Qed.
Definition sample_table : CatalogTableDefinition := {| cd_name := [x6d; x31]; cd_quoted := false; cd_schema := sample_schema_2 |}.
Lemma schema_definition_codec_witness : exists bytes,
  encode_schema_definition_v1 sample_table default_definition_limits = Ok bytes /\
  decode_schema_definition_v1 bytes default_definition_limits = Ok sample_table.
Proof.
  assert (Ht : definition_typed 1024 sample_table) by (unfold definition_typed, roles_typed; cbn; split_and!; by repeat constructor).
  destruct (encode_schema_definition_v1 sample_table default_definition_limits) as [bytes|] eqn:E; [|vm_compute in E; discriminate].
  destruct (schema_definition_codec _ _ _ _ Ht E) as [Hd _]. exists bytes. split; [done|exact Hd].
Defined.
