(* ===== verification/MetadataSnapshot.v ===== *)
(** Application snapshots of the metadata group as files:
    include/chronos/raft/metadata_snapshot.hpp and src/raft/metadata_snapshot.cpp. *)
From S2P Require Import Prelude Bytes Crc32c Reading RaftTypes RaftMembership MetadataCodec SchemaCodec.
#[local] Open Scope Z_scope.

Definition kMetadataSnapshotHeaderSize : Z := 128.
Definition kMetadataSnapshotEntryHeaderSize : Z := 32.
Definition kMetadataSnapshotTrailerSize : Z := 4.
Definition kMaximumMetadataSnapshotSize : Z := 1024 * 1024 * 1024.

Record MetadataSnapshotCodecLimits := {
  ml_maximum_snapshot_bytes : Z; ml_maximum_entries : Z; ml_maximum_entry_payload_bytes : Z; ml_maximum_voters : Z }.
Definition default_snapshot_limits : MetadataSnapshotCodecLimits :=
  {| ml_maximum_snapshot_bytes := 256 * 1024 * 1024; ml_maximum_entries := 65536;
     ml_maximum_entry_payload_bytes := 16 * 1024 * 1024; ml_maximum_voters := 9 |}.

Record MetadataSnapshotEntry := { se_index : LogIndex; se_term : Term; se_type : Z; se_payload : list byte }.
#[global] Instance MetadataSnapshotEntry_eq_dec : EqDecision MetadataSnapshotEntry.
Proof. solve_decision. Defined.
Record MetadataApplicationSnapshot := {
  as_group_id : GroupId; as_raft_snapshot : SnapshotMetadata; as_entries : list MetadataSnapshotEntry }.
#[global] Instance MetadataApplicationSnapshot_eq_dec : EqDecision MetadataApplicationSnapshot.
Proof. solve_decision. Defined.

Definition kSnapshotMagic : list byte := [x43; x48; x52; x4d; x41; x53; x4e; x00].
Definition kSnapshotMajor : Z := 1.
Definition kMinor0 : Z := 0.
Definition kMinor1 : Z := 1.
Definition kSnapshotAlignment : Z := 8.
Definition kTotalSizeOffset : Z := 16.
Definition kEntryCountOffset : Z := 24.
Definition kVoterCountOffset : Z := 28.
Definition kGroupIdOffset : Z := 32.
Definition kLastIncludedIndexOffset : Z := 48.
Definition kLastIncludedTermOffset : Z := 56.
Definition kApplicationGenerationOffset : Z := 64.
Definition kPartSetChecksumOffset : Z := 72.
Definition kConfigurationIndexOffset : Z := 104.
Definition kEntriesOffsetOffset : Z := 112.
Definition kSnapshotHeaderCrcOffset : Z := 120.
Definition kReservedOffset : Z := 124.

(** common::checked_align_up on 64-bit words. *)
Definition checked_align_up (value alignment : Z) : result Z :=
  fail_if (alignment =? 0) || negb (Z.land alignment (u64 (alignment - 1)) =? 0) with kInvalidArgument;
  let mask := u64 (alignment - 1) in
  match checked_add value mask with
  | None => Err kOutOfRange
  | Some adjusted => Ok (Z.land adjusted (u64 (Z.lnot mask)))
  end.

Definition valid_snapshot_limits (limits : MetadataSnapshotCodecLimits) : bool :=
  (ml_maximum_snapshot_bytes limits >=? kMetadataSnapshotHeaderSize + 8 + kMetadataSnapshotTrailerSize)
  && (ml_maximum_snapshot_bytes limits <=? kMaximumMetadataSnapshotSize)
  && (ml_maximum_entries limits >? 0) && (ml_maximum_entry_payload_bytes limits >? 0)
  && (ml_maximum_entry_payload_bytes limits <=? kMaximumSchemaDefinitionSize)
  && (ml_maximum_voters limits >? 0) && (ml_maximum_voters limits <=? 1024).

Definition valid_metadata (s : MetadataApplicationSnapshot) (limits : MetadataSnapshotCodecLimits) : bool :=
  let metadata := as_raft_snapshot s in
  let voters := snapshot_voters metadata in
  negb (is_nil (as_group_id s)) && negb (last_included_index metadata =? 0) && negb (last_included_term metadata =? 0)
  && (manifest_generation metadata =? last_included_index metadata)
  && (configuration_index metadata <=? last_included_index metadata)
  && negb (bool_decide (voters = [])) && (blen voters <=? ml_maximum_voters limits) && negb (front voters =? 0)
  && is_sorted voters && negb (has_adjacent_equal voters).

Definition valid_entry_type (type minor : Z) : bool :=
  (type =? kRaftMetadataCommandEntryType) || (type =? kRaftSchemaDefinitionEntryType)
  || ((minor >=? kMinor1) && (type =? kRaftTabletGroupBindingEntryType)).

(** The condition on the position and the type of an entry that both directions check. *)
Definition entry_position_invalid (metadata : SnapshotMetadata) (minor previous_index previous_term index term type : Z) : bool :=
  (index =? 0) || (index <=? previous_index) || (index >? last_included_index metadata) || (term =? 0)
  || (term <? previous_term) || (term >? last_included_term metadata)
  || ((index =? last_included_index metadata) && negb (term =? last_included_term metadata))
  || negb (valid_entry_type type minor).

(** * Encoding *)

Fixpoint entries_encoded_size (limits : MetadataSnapshotCodecLimits) (metadata : SnapshotMetadata) (minor : Z)
  (entries : list MetadataSnapshotEntry) (previous_index previous_term size : Z) : result Z :=
  match entries with
  | [] => Ok size
  | e :: entries =>
      fail_if entry_position_invalid metadata minor previous_index previous_term (se_index e) (se_term e) (se_type e)
              || bool_decide (se_payload e = []) with kInvalidArgument;
      fail_if (blen (se_payload e) >? ml_maximum_entry_payload_bytes limits) || (blen (se_payload e) >? max_u32) with kResourceExhausted;
      match checked_add kMetadataSnapshotEntryHeaderSize (blen (se_payload e)) with
      | None => Err kResourceExhausted
      | Some entry_size =>
          match checked_align_up entry_size kSnapshotAlignment with
          | Err _ => Err kResourceExhausted
          | Ok aligned =>
              match checked_add size aligned with
              | None => Err kResourceExhausted
              | Some size => entries_encoded_size limits metadata minor entries (se_index e) (se_term e) size
              end
          end
      end
  end.
Definition encoded_size (s : MetadataApplicationSnapshot) (limits : MetadataSnapshotCodecLimits) (minor : Z) : result Z :=
  fail_if (blen (as_entries s) >? ml_maximum_entries limits) || (blen (as_entries s) >? max_u32) with kResourceExhausted;
  match checked_multiply (blen (snapshot_voters (as_raft_snapshot s))) 8 with
  | None => Err kResourceExhausted
  | Some voter_bytes =>
      match checked_add kMetadataSnapshotHeaderSize voter_bytes with
      | None => Err kResourceExhausted
      | Some size =>
          let? size := entries_encoded_size limits (as_raft_snapshot s) minor (as_entries s) 0 0 size in
          match checked_add size kMetadataSnapshotTrailerSize with
          | None => Err kResourceExhausted
          | Some size =>
              fail_if size >? ml_maximum_snapshot_bytes limits with kResourceExhausted;
              Ok size
          end
      end
  end.

(** The loops that store the voters and the entries, with the cursor they move. *)
Definition store_voters (voters : list NodeId) (bytes : list byte) (cursor : Z) : list byte * Z :=
  fold_left (fun '(bytes, cursor) voter => (store_le 8 bytes cursor voter, cursor + 8)) voters (bytes, cursor).
(** [*checked_align_up(...)]: the size that was computed before rules out the error. *)
Definition aligned_cursor (value : Z) : Z :=
  match checked_align_up value kSnapshotAlignment with Ok next => next | Err _ => 0 end.
Definition store_entry (st : list byte * Z) (e : MetadataSnapshotEntry) : list byte * Z :=
  let '(bytes, cursor) := st in
  let bytes := store_le 8 bytes cursor (se_index e) in
  let bytes := store_le 8 bytes (cursor + 8) (se_term e) in
  let bytes := store_le 1 bytes (cursor + 16) (se_type e) in
  let bytes := store_le 4 bytes (cursor + 20) (u32 (blen (se_payload e))) in
  let bytes := store_le 4 bytes (cursor + 24) (crc32c (se_payload e)) in
  let bytes := copy_at bytes (cursor + kMetadataSnapshotEntryHeaderSize) (se_payload e) in
  (bytes, aligned_cursor (cursor + kMetadataSnapshotEntryHeaderSize + blen (se_payload e))).
Definition store_entries (entries : list MetadataSnapshotEntry) (bytes : list byte) (cursor : Z) : list byte * Z :=
  fold_left store_entry entries (bytes, cursor).

(** The smaller format version that can hold the entries. *)
Definition snapshot_minor (entries : list MetadataSnapshotEntry) : Z :=
  if existsb (fun e => se_type e =? kRaftTabletGroupBindingEntryType) entries then kMinor1 else kMinor0.

Definition encode_metadata_application_snapshot_v1 (s : MetadataApplicationSnapshot) (limits : MetadataSnapshotCodecLimits)
  : result (list byte) :=
  fail_if negb (valid_snapshot_limits limits) with kInvalidArgument;
  fail_if negb (valid_metadata s limits) with kInvalidArgument;
  let minor := snapshot_minor (as_entries s) in
  let? total_size := encoded_size s limits minor in
  let metadata := as_raft_snapshot s in
  let bytes := replicate (Z.to_nat total_size) x00 in
  let bytes := copy_at bytes 0 kSnapshotMagic in
  let bytes := store_le 2 bytes 8 kSnapshotMajor in
  let bytes := store_le 2 bytes 10 minor in
  let bytes := store_le 4 bytes 12 kMetadataSnapshotHeaderSize in
  let bytes := store_le 8 bytes kTotalSizeOffset total_size in
  let bytes := store_le 4 bytes kEntryCountOffset (u32 (blen (as_entries s))) in
  let bytes := store_le 4 bytes kVoterCountOffset (u32 (blen (snapshot_voters metadata))) in
  let bytes := copy_at bytes kGroupIdOffset (as_group_id s) in
  let bytes := store_le 8 bytes kLastIncludedIndexOffset (last_included_index metadata) in
  let bytes := store_le 8 bytes kLastIncludedTermOffset (last_included_term metadata) in
  let bytes := store_le 8 bytes kApplicationGenerationOffset (manifest_generation metadata) in
  let bytes := copy_at bytes kPartSetChecksumOffset (part_set_checksum metadata) in
  let bytes := store_le 8 bytes kConfigurationIndexOffset (configuration_index metadata) in
  let entries_offset := kMetadataSnapshotHeaderSize + blen (snapshot_voters metadata) * 8 in
  let bytes := store_le 8 bytes kEntriesOffsetOffset entries_offset in
  let '(bytes, cursor) := store_voters (snapshot_voters metadata) bytes kMetadataSnapshotHeaderSize in
  let '(bytes, cursor) := store_entries (as_entries s) bytes cursor in
  let bytes := store_le 4 bytes kSnapshotHeaderCrcOffset (crc32c (first bytes kMetadataSnapshotHeaderSize)) in
  let trailer := blen bytes - kMetadataSnapshotTrailerSize in
  Ok (store_le 4 bytes trailer (crc32c (first bytes trailer))).

(** * Decoding *)

Fixpoint load_voters (count : nat) (bytes : list byte) (cursor : Z) : list NodeId :=
  match count with O => [] | S count => load_le 8 bytes cursor :: load_voters count bytes (cursor + 8) end.

(** A round of the loop over the entries: the entry and the next cursor. *)
Definition load_entry (bytes : list byte) (limits : MetadataSnapshotCodecLimits) (metadata : SnapshotMetadata)
  (minor trailer_offset cursor previous_index previous_term : Z) : result (MetadataSnapshotEntry * Z) :=
  fail_if (cursor >? trailer_offset) || (kMetadataSnapshotEntryHeaderSize >? trailer_offset - cursor) with kCorruption;
  let index := load_le 8 bytes cursor in
  let term := load_le 8 bytes (cursor + 8) in
  let type := byte_to_Z (byte_at bytes (cursor + 16)) in
  let payload_size := load_le 4 bytes (cursor + 20) in
  let payload_crc := load_le 4 bytes (cursor + 24) in
  let payload_offset := cursor + kMetadataSnapshotEntryHeaderSize in
  fail_if entry_position_invalid metadata minor previous_index previous_term index term type
          || (payload_size =? 0) || nonzero_bytes (subspan bytes (cursor + 17) 3) || negb (load_le 4 bytes (cursor + 28) =? 0)
          || (payload_offset >? trailer_offset) || (payload_size >? trailer_offset - payload_offset) with kCorruption;
  fail_if payload_size >? ml_maximum_entry_payload_bytes limits with kResourceExhausted;
  let payload := subspan bytes payload_offset payload_size in
  fail_if negb (crc32c payload =? payload_crc) with kCorruption;
  match checked_align_up (payload_offset + payload_size) kSnapshotAlignment with
  | Err _ => Err kCorruption
  | Ok next =>
      fail_if (next >? trailer_offset)
              || nonzero_bytes (subspan bytes (payload_offset + payload_size) (next - payload_offset - payload_size)) with kCorruption;
      Ok ({| se_index := index; se_term := term; se_type := type; se_payload := payload |}, next)
  end.
Fixpoint load_entries (count : nat) (bytes : list byte) (limits : MetadataSnapshotCodecLimits) (metadata : SnapshotMetadata)
  (minor trailer_offset cursor previous_index previous_term : Z) : result (list MetadataSnapshotEntry * Z) :=
  match count with
  | O => Ok ([], cursor)
  | S count =>
      let? (e, next) := load_entry bytes limits metadata minor trailer_offset cursor previous_index previous_term in
      let? (entries, cursor) := load_entries count bytes limits metadata minor trailer_offset next (se_index e) (se_term e) in
      Ok (e :: entries, cursor)
  end.

Definition decode_metadata_application_snapshot_v1 (bytes : list byte) (limits : MetadataSnapshotCodecLimits)
  : result MetadataApplicationSnapshot :=
  fail_if negb (valid_snapshot_limits limits) with kInvalidArgument;
  fail_if blen bytes <? kMetadataSnapshotHeaderSize + 8 + kMetadataSnapshotTrailerSize with kCorruption;
  fail_if blen bytes >? ml_maximum_snapshot_bytes limits with kResourceExhausted;
  let header := first bytes kMetadataSnapshotHeaderSize in
  let header_crc := load_le 4 bytes kSnapshotHeaderCrcOffset in
  fail_if negb (crc32c (store_le 4 header kSnapshotHeaderCrcOffset 0) =? header_crc) with kCorruption;
  fail_if negb (bool_decide (first bytes 8 = kSnapshotMagic)) || negb (load_le 2 bytes 8 =? kSnapshotMajor) with kNotSupported;
  let minor := load_le 2 bytes 10 in
  fail_if (minor >? kMinor1) || negb (load_le 4 bytes 12 =? kMetadataSnapshotHeaderSize) with kNotSupported;
  let total_size := load_le 8 bytes kTotalSizeOffset in
  let entry_count := load_le 4 bytes kEntryCountOffset in
  let voter_count := load_le 4 bytes kVoterCountOffset in
  let entries_offset := load_le 8 bytes kEntriesOffsetOffset in
  fail_if (entry_count >? ml_maximum_entries limits) || (voter_count >? ml_maximum_voters limits) with kResourceExhausted;
  let trailer_offset := blen bytes - kMetadataSnapshotTrailerSize in
  fail_if negb (total_size =? blen bytes) || (voter_count =? 0)
          || match checked_multiply voter_count 8 with
             | None => true
             | Some voter_bytes => negb (entries_offset =? kMetadataSnapshotHeaderSize + voter_bytes)
             end
          || (entries_offset >? trailer_offset) || nonzero_bytes (subspan bytes kReservedOffset 4)
          || negb (crc32c (first bytes trailer_offset) =? load_le 4 bytes trailer_offset) with kCorruption;
  let voters := load_voters (Z.to_nat voter_count) bytes kMetadataSnapshotHeaderSize in
  let metadata := {| last_included_index := load_le 8 bytes kLastIncludedIndexOffset;
                     last_included_term := load_le 8 bytes kLastIncludedTermOffset;
                     manifest_generation := load_le 8 bytes kApplicationGenerationOffset;
                     part_set_checksum := subspan bytes kPartSetChecksumOffset 32;
                     configuration_index := load_le 8 bytes kConfigurationIndexOffset; snapshot_voters := voters |} in
  let group_id := subspan bytes kGroupIdOffset 16 in
  fail_if negb (valid_metadata {| as_group_id := group_id; as_raft_snapshot := metadata; as_entries := [] |} limits) with kCorruption;
  let? (entries, cursor) := load_entries (Z.to_nat entry_count) bytes limits metadata minor trailer_offset entries_offset 0 0 in
  fail_if negb (cursor =? trailer_offset) with kCorruption;
  Ok {| as_group_id := group_id; as_raft_snapshot := metadata; as_entries := entries |}.

Definition sample_application_snapshot : MetadataApplicationSnapshot :=
  {| as_group_id := replicate 16 x07;
     as_raft_snapshot := {| last_included_index := 9; last_included_term := 3; manifest_generation := 9;
       part_set_checksum := replicate 32 x05; configuration_index := 2; snapshot_voters := [1; 2; 3] |};
     as_entries := [ {| se_index := 4; se_term := 2; se_type := 2; se_payload := replicate 5 xff |};
                     {| se_index := 9; se_term := 3; se_type := 4; se_payload := replicate 8 xfe |} ] |}.
Example snapshot_sample :
  (let? bytes := encode_metadata_application_snapshot_v1 sample_application_snapshot default_snapshot_limits in
   let? s := decode_metadata_application_snapshot_v1 bytes default_snapshot_limits in Ok (s, blen bytes)) =
  Ok (sample_application_snapshot, 128 + 24 + 40 + 40 + 4).
Proof. vm_compute. reflexivity. Qed.
