(* ===== verification/MetadataSnapshotFacts.v ===== *)
(** The codec of metadata application snapshots is exact: an encoded snapshot is the
    concatenation of its header, its voters, its aligned entries and a checksum, and the
    decoder accepts exactly those byte strings. *)
From S2P Require Import Prelude Bytes Crc32c Reading RaftTypes RaftMembership MetadataCodec MetadataCodecFacts.
From S2P Require Import SchemaCodec MetadataSnapshot.
From Stdlib Require Import Sorted.
#[local] Open Scope Z_scope.

Lemma Ok_inj {A} (a b : A) : Ok a = Ok b -> a = b.
Proof. congruence. Qed.

(** * What a byte string holds at an offset *)

Definition holds (bytes : list byte) (off : Z) (a : list byte) : Prop := subspan bytes off (blen a) = a.

Lemma holds_bound bytes off a : 0 <= off -> holds bytes off a -> a <> [] -> off + blen a <= blen bytes.
Proof.
  unfold holds. intros Ho H Ha. apply (f_equal length) in H. unfold subspan in H. rewrite length_take, length_drop, Nat2Z.id in H.
  assert (length a <> 0%nat) by (by intros ?%nil_length_inv). lia.
Qed.
Lemma holds_append bytes off a b : 0 <= off -> holds bytes off (a ++ b) <-> holds bytes off a /\ holds bytes (off + blen a) b.
Proof.
  intros Ho. unfold holds. rewrite length_app, Nat2Z.inj_add, subspan_split by lia. split.
  - intros E. apply app_inj_1 in E; [done|]. apply (f_equal length) in E. rewrite !length_app in E.
    unfold subspan in *. rewrite !length_take, !length_drop in *. lia.
  - by intros [-> ->].
Qed.
Lemma holds_self a b c off : off = blen a -> holds (a ++ b ++ c) off b.
Proof. intros ->. by apply subspan_app_l. Qed.
Lemma holds_all bytes a : holds bytes 0 a -> blen a = blen bytes -> bytes = a.
Proof. unfold holds. intros H E. rewrite E, subspan_all in H by done. done. Qed.
Lemma holds_nil bytes off : holds bytes off [].
Proof. done. Qed.
Lemma holds_load w bytes off v : 0 <= off -> off + Z.of_nat w <= blen bytes -> in_width (8 * Z.of_nat w) v ->
  holds bytes off (le_bytes w v) <-> load_le w bytes off = v.
Proof.
  intros Ho Hl Hv. unfold holds. rewrite length_le_bytes. split.
  - intros E. by apply load_field.
  - intros <-. by apply field_of_load.
Qed.
Lemma holds_zeros bytes off n : 0 <= off -> off + Z.of_nat n <= blen bytes ->
  holds bytes off (replicate n x00) <-> nonzero_bytes (subspan bytes off (Z.of_nat n)) = false.
Proof.
  intros Ho Hl. unfold holds. rewrite length_replicate. split.
  - intros ->. apply replicate_zero_check.
  - intros H. apply (nonzero_reserved _ (Z.of_nat n)) in H; [by rewrite Nat2Z.id in H|]. rewrite length_subspan by lia. lia.
Qed.
Lemma holds_byte bytes off v : 0 <= off < blen bytes -> in_width 8 v -> holds bytes off (le_bytes 1 v) <-> byte_to_Z (byte_at bytes off) = v.
Proof.
  intros Ho Hv. unfold holds, subspan. rewrite (drop_byte_at bytes off) by lia. cbn. split.
  - intros [= ->]. rewrite byte_to_of_Z. unfold in_width in Hv. by rewrite Z.mod_small.
  - intros <-. by rewrite byte_of_to_Z.
Qed.
Lemma holds_span bytes off n : 0 <= off -> 0 <= n -> off + n <= blen bytes -> holds bytes off (subspan bytes off n).
Proof. intros. unfold holds. rewrite length_subspan by lia. by rewrite Z2Nat.id. Qed.
Lemma holds_first bytes n a : holds bytes 0 a -> blen a = n -> first bytes n = a.
Proof. unfold holds. by intros H <-. Qed.

(** ** Filling a buffer of zeros from its start *)

Definition staged (total : Z) (a : list byte) : list byte := a ++ replicate (Z.to_nat (total - blen a)) x00.
Lemma length_staged total a : blen a <= total -> blen (staged total a) = total.
Proof. intros. unfold staged. rewrite length_app, length_replicate. lia. Qed.
Lemma staged_skip total a n : blen a + Z.of_nat n <= total -> staged total a = staged total (a ++ replicate n x00).
Proof.
  intros. unfold staged. rewrite length_app, length_replicate, <- app_assoc, <- replicate_add. do 2 f_equal. lia.
Qed.
Lemma staged_copy total a b off : off = blen a -> blen a + blen b <= total -> copy_at (staged total a) off b = staged total (a ++ b).
Proof.
  intros -> Hl. unfold staged. rewrite length_app, <- app_assoc.
  replace (Z.to_nat (total - blen a)) with (length b + Z.to_nat (total - blen (a ++ b)))%nat by (rewrite length_app; lia).
  rewrite replicate_add, copy_at_middle by (rewrite ?length_replicate; done). do 3 f_equal. rewrite length_app. lia.
Qed.
Lemma staged_store w total a v off : off = blen a -> blen a + Z.of_nat w <= total ->
  store_le w (staged total a) off v = staged total (a ++ le_bytes w v).
Proof.
  intros -> Hl. rewrite store_le_spec by (rewrite ?length_staged; lia). apply staged_copy; [done|]. rewrite length_le_bytes. lia.
Qed.
Lemma staged_full total a : total = blen a -> staged total a = a.
Proof. intros ->. unfold staged. by rewrite Z.sub_diag, app_nil_r. Qed.

(** ** Alignment *)

Definition padding (n : Z) : Z := (- n) mod 8.
Lemma padding_bound n : 0 <= padding n < 8.
Proof. apply Z.mod_pos_bound. lia. Qed.
Lemma land_high x : in_width 64 x -> Z.land x (u64 (Z.lnot 7)) = x - x mod 8.
Proof.
  intros Hx. change (u64 (Z.lnot 7)) with (Z.ldiff (Z.ones 64) (Z.ones 3)).
  assert (E : Z.land x (Z.ldiff (Z.ones 64) (Z.ones 3)) = Z.ldiff (Z.land x (Z.ones 64)) (Z.ones 3)).
  { apply Z.bits_inj'. intros n Hn. rewrite Z.land_spec, !Z.ldiff_spec, Z.land_spec. by rewrite andb_assoc. }
  rewrite E, Z.land_ones, Z.mod_small by (done || lia). rewrite Z.ldiff_ones_r by lia.
  rewrite Z.shiftl_mul_pow2, Z.shiftr_div_pow2 by lia. change (2 ^ 3) with 8. pose proof (Z.div_mod x 8). lia.
Qed.
Lemma align_up v : 0 <= v -> v + 7 < 2 ^ 64 -> checked_align_up v kSnapshotAlignment = Ok (v + padding v).
Proof.
  intros Hv Hm. unfold checked_align_up, kSnapshotAlignment. change (u64 (8 - 1)) with 7. cbn [Z.eqb negb orb]. change (Z.land 8 7 =? 0) with true. cbn [negb orb].
  rewrite checked_add_spec by width_lia. rewrite (proj2 (Z.ltb_lt _ _)) by lia. f_equal. rewrite land_high by width_lia.
  unfold padding. Z.to_euclidean_division_equations. lia.
Qed.
Lemma align_up_Ok v n : in_width 64 v -> checked_align_up v kSnapshotAlignment = Ok n -> n = v + padding v.
Proof.
  intros Hv H. destruct (Z_lt_dec (v + 7) (2 ^ 64)) as [Hl|Hl].
  - rewrite align_up in H by (unfold in_width in Hv; lia). by injection H.
  - unfold checked_align_up, kSnapshotAlignment in H. change (u64 (8 - 1)) with 7 in H. cbn [Z.eqb negb orb] in H. change (Z.land 8 7 =? 0) with true in H. cbn [negb orb] in H.
    rewrite checked_add_spec in H by width_lia. rewrite (proj2 (Z.ltb_ge _ _)) in H by lia. done.
Qed.

(** * Entries *)

Definition entry_size (e : MetadataSnapshotEntry) : Z := 32 + blen (se_payload e) + padding (blen (se_payload e)).
Definition entry_header (e : MetadataSnapshotEntry) : list byte :=
  le_bytes 8 (se_index e) ++ le_bytes 8 (se_term e) ++ le_bytes 1 (se_type e) ++ replicate 3 x00
  ++ le_bytes 4 (blen (se_payload e)) ++ le_bytes 4 (crc32c (se_payload e)) ++ le_bytes 4 0.
Definition entry_bytes (e : MetadataSnapshotEntry) : list byte :=
  entry_header e ++ se_payload e ++ replicate (Z.to_nat (padding (blen (se_payload e)))) x00.
Definition entry_typed (e : MetadataSnapshotEntry) : Prop :=
  in_width 64 (se_index e) /\ in_width 64 (se_term e) /\ in_width 8 (se_type e).
Definition entry_ok (limits : MetadataSnapshotCodecLimits) (metadata : SnapshotMetadata) (minor previous_index previous_term : Z)
  (e : MetadataSnapshotEntry) : Prop :=
  entry_position_invalid metadata minor previous_index previous_term (se_index e) (se_term e) (se_type e) = false /\
  1 <= blen (se_payload e) <= ml_maximum_entry_payload_bytes limits.

Lemma length_entry_header e : length (entry_header e) = 32%nat.
Proof. unfold entry_header. by rewrite !length_app, !length_le_bytes, length_replicate. Qed.
Lemma length_entry_bytes e : blen (entry_bytes e) = entry_size e.
Proof.
  unfold entry_bytes, entry_size. rewrite !length_app, length_entry_header, length_replicate. pose proof (padding_bound (blen (se_payload e))). lia.
Qed.
Lemma padding_shift a n : a mod 8 = 0 -> padding (a + 32 + n) = padding n.
Proof. unfold padding. intros H. Z.to_euclidean_division_equations. lia. Qed.
Lemma entry_size_aligned e : entry_size e mod 8 = 0.
Proof. unfold entry_size, padding. Z.to_euclidean_division_equations. lia. Qed.

(** The fields of an entry in a byte string. *)
Lemma entry_header_holds bytes off e : 0 <= off -> off + 32 <= blen bytes -> entry_typed e -> blen (se_payload e) < 2 ^ 32 ->
  holds bytes off (entry_header e) <->
  load_le 8 bytes off = se_index e /\ load_le 8 bytes (off + 8) = se_term e /\ byte_to_Z (byte_at bytes (off + 16)) = se_type e /\
  nonzero_bytes (subspan bytes (off + 17) 3) = false /\ load_le 4 bytes (off + 20) = blen (se_payload e) /\
  load_le 4 bytes (off + 24) = crc32c (se_payload e) /\ load_le 4 bytes (off + 28) = 0.
Proof.
  intros Ho Hl (T1 & T2 & T3) Hp. unfold entry_header. rewrite !holds_append by lia. rewrite !length_le_bytes, length_replicate.
  replace (off + Z.of_nat 8) with (off + 8) by lia. replace (off + 8 + Z.of_nat 8) with (off + 16) by lia. replace (off + 16 + Z.of_nat 1) with (off + 17) by lia.
  replace (off + 17 + Z.of_nat 3) with (off + 20) by lia. replace (off + 20 + Z.of_nat 4) with (off + 24) by lia. replace (off + 24 + Z.of_nat 4) with (off + 28) by lia.
  rewrite holds_byte by (lia || done). rewrite !holds_load by (cbn [Z.of_nat]; lia || width_lia || apply crc32c_range). rewrite holds_zeros by lia. done.
Qed.

Section entry.
Context (bytes : list byte) (limits : MetadataSnapshotCodecLimits) (metadata : SnapshotMetadata) (minor trailer : Z).
Context (Htr : trailer <= blen bytes) (Hbytes : blen bytes < 2 ^ 32) (Hmax : ml_maximum_entry_payload_bytes limits <= kMaximumSchemaDefinitionSize).

Lemma load_entry_run cursor pi pt e : 0 <= cursor -> cursor mod 8 = 0 -> cursor + entry_size e <= trailer -> holds bytes cursor (entry_bytes e) ->
  entry_typed e -> entry_ok limits metadata minor pi pt e ->
  load_entry bytes limits metadata minor trailer cursor pi pt = Ok (e, cursor + entry_size e).
Proof.
  intros Hc Ha He Hb Ht [Hok [Hp1 Hp2]]. pose proof (padding_bound (blen (se_payload e))) as Hpad. unfold entry_size, kMaximumSchemaDefinitionSize in *.
  unfold entry_bytes in Hb. rewrite !holds_append, length_entry_header in Hb by lia. destruct Hb as (Hh & Hpay & Hz).
  apply entry_header_holds in Hh as (F1 & F2 & F3 & F4 & F5 & F6 & F7); [|lia|lia|done|lia].
  replace (cursor + Z.of_nat 32) with (cursor + 32) in * by lia. apply holds_zeros in Hz; [|lia|lia]. rewrite Z2Nat.id in Hz by lia.
  unfold load_entry, kMetadataSnapshotEntryHeaderSize. rewrite !gtb_false by lia. cbn [orb]. rewrite F1, F2, F3, F5, F6, Hok, F4, F7.
  rewrite (proj2 (Z.eqb_neq (blen _) 0)) by lia. cbn [negb orb Z.eqb]. rewrite ?gtb_false by lia. cbn [orb].
  unfold holds in Hpay. rewrite Hpay, Z.eqb_refl. cbn [negb]. rewrite align_up by lia. rewrite padding_shift by done. rewrite gtb_false by lia. cbn [orb].
  replace (cursor + 32 + blen (se_payload e) + padding (blen (se_payload e)) - (cursor + 32) - blen (se_payload e)) with (padding (blen (se_payload e))) by lia.
  rewrite Hz. destruct e as [i t y p]. cbn. do 2 f_equal. lia.
Qed.
Lemma load_entry_inv cursor pi pt e next : 0 <= cursor -> cursor mod 8 = 0 ->
  load_entry bytes limits metadata minor trailer cursor pi pt = Ok (e, next) ->
  holds bytes cursor (entry_bytes e) /\ next = cursor + entry_size e /\ next <= trailer /\ entry_typed e /\ entry_ok limits metadata minor pi pt e.
Proof.
  intros Hc Ha H. unfold load_entry, kMetadataSnapshotEntryHeaderSize in H. guard_inv H.
  set (n := load_le 4 bytes (cursor + 20)) in *. assert (Hn : in_width 32 n) by (apply (load_in_width 4); cbn; lia).
  unfold in_width in Hn. destruct (checked_align_up _ _) as [v|] eqn:E; [|done]. apply align_up_Ok in E as ->; [|width_lia].
  rewrite padding_shift in H by done. guard_inv H. injection H as <- <-. pose proof (padding_bound n) as Hpad.
  assert (Hlen : blen (subspan bytes (cursor + 32) n) = n) by (rewrite length_subspan; lia).
  assert (Ht : entry_typed {| se_index := load_le 8 bytes cursor; se_term := load_le 8 bytes (cursor + 8); se_type := byte_to_Z (byte_at bytes (cursor + 16));
      se_payload := subspan bytes (cursor + 32) n |}).
  { split_and!; cbn; [apply (load_in_width 8); cbn; lia|apply (load_in_width 8); cbn; lia|apply byte_to_Z_range]. }
  unfold entry_size. cbn [se_payload]. rewrite Hlen. split_and!; try done; try lia.
  - unfold entry_bytes. cbn [se_payload]. rewrite !holds_append, length_entry_header, Hlen by lia. split_and!.
    + apply entry_header_holds; cbn [se_payload se_index se_term se_type]; rewrite ?Hlen; try done; try lia.
    + apply holds_span; lia.
    + apply holds_zeros; [lia|lia|]. rewrite Z2Nat.id by lia.
      replace (cursor + Z.of_nat 32 + n) with (cursor + 32 + n) by lia.
      by replace (padding n) with (cursor + 32 + n + padding n - (cursor + 32) - n) by lia.
  - split; cbn [se_payload se_index se_term se_type]; [done|lia].
Qed.
End entry.

Fixpoint entries_ok (limits : MetadataSnapshotCodecLimits) (metadata : SnapshotMetadata) (minor previous_index previous_term : Z)
  (entries : list MetadataSnapshotEntry) : Prop :=
  match entries with
  | [] => True
  | e :: entries => entry_ok limits metadata minor previous_index previous_term e /\ entries_ok limits metadata minor (se_index e) (se_term e) entries
  end.
Definition entries_bytes (entries : list MetadataSnapshotEntry) : list byte := concat (entry_bytes <$> entries).
Definition entries_size (entries : list MetadataSnapshotEntry) : Z := foldr (fun e n => entry_size e + n) 0 entries.
Definition voters_bytes (voters : list NodeId) : list byte := concat (le_bytes 8 <$> voters).

Lemma entry_size_min e : 32 <= entry_size e.
Proof. unfold entry_size. pose proof (padding_bound (blen (se_payload e))). lia. Qed.
Lemma entries_size_cons e entries : entries_size (e :: entries) = entry_size e + entries_size entries.
Proof. done. Qed.
Lemma entries_size_min entries : 0 <= entries_size entries.
Proof. induction entries as [|e entries IH]; [done|]. rewrite entries_size_cons. pose proof (entry_size_min e). lia. Qed.
Lemma length_entries_bytes entries : blen (entries_bytes entries) = entries_size entries.
Proof.
  unfold entries_bytes. induction entries as [|e entries IH]; [done|]. rewrite entries_size_cons, fmap_cons. cbn [concat].
  rewrite length_app, Nat2Z.inj_add, IH, length_entry_bytes. done.
Qed.
Lemma length_voters_bytes voters : blen (voters_bytes voters) = blen voters * 8.
Proof.
  unfold voters_bytes. induction voters as [|v voters IH]; [done|]. rewrite fmap_cons. cbn [concat length]. rewrite length_app, length_le_bytes. lia.
Qed.

Lemma load_voters_run bytes voters : forall cursor, 0 <= cursor -> cursor + blen voters * 8 <= blen bytes -> Forall (in_width 64) voters ->
  holds bytes cursor (voters_bytes voters) -> load_voters (length voters) bytes cursor = voters.
Proof.
  induction voters as [|v voters IH]; intros cursor Hc Hl Hf Hb; cbn [load_voters length]; [done|]. apply Forall_cons in Hf as [Hv Hf]. cbn [length] in Hl.
  unfold voters_bytes in Hb. rewrite fmap_cons in Hb. cbn [concat] in Hb. rewrite holds_append, length_le_bytes in Hb by lia. destruct Hb as [Hh Ht].
  apply holds_load in Hh; [|cbn [Z.of_nat]; lia|cbn [Z.of_nat]; lia|done]. rewrite Hh. f_equal. apply IH; try done; lia.
Qed.
Lemma load_voters_holds bytes n : forall cursor, 0 <= cursor -> cursor + Z.of_nat n * 8 <= blen bytes ->
  holds bytes cursor (voters_bytes (load_voters n bytes cursor)) /\ Forall (in_width 64) (load_voters n bytes cursor) /\
  length (load_voters n bytes cursor) = n.
Proof.
  induction n as [|n IH]; intros cursor Hc Hl; cbn [load_voters]; [done|]. destruct (IH (cursor + 8)) as (H1 & H2 & H3); [lia|lia|].
  assert (Hw : in_width 64 (load_le 8 bytes cursor)) by (apply (load_in_width 8); cbn [Z.of_nat]; lia).
  split_and!; [|by constructor|cbn; lia]. unfold voters_bytes. rewrite fmap_cons. cbn [concat]. rewrite holds_append, length_le_bytes by lia.
  split; [|done]. apply holds_load; cbn [Z.of_nat]; done || lia.
Qed.

Section entries.
Context (bytes : list byte) (limits : MetadataSnapshotCodecLimits) (metadata : SnapshotMetadata) (minor trailer : Z).
Context (Htr : trailer <= blen bytes) (Hbytes : blen bytes < 2 ^ 32) (Hmax : ml_maximum_entry_payload_bytes limits <= kMaximumSchemaDefinitionSize).

Lemma load_entries_run entries : forall cursor pi pt, 0 <= cursor -> cursor mod 8 = 0 -> cursor + entries_size entries <= trailer ->
  holds bytes cursor (entries_bytes entries) -> Forall entry_typed entries -> entries_ok limits metadata minor pi pt entries ->
  load_entries (length entries) bytes limits metadata minor trailer cursor pi pt = Ok (entries, cursor + entries_size entries).
Proof.
  induction entries as [|e entries IH]; intros cursor pi pt Hc Ha Hl Hb Hf Hok; cbn [load_entries length]; [by rewrite Z.add_0_r|].
  apply Forall_cons in Hf as [He Hf]. destruct Hok as [Hoe Hok]. rewrite entries_size_cons in Hl |- *.
  pose proof (entries_size_min entries) as Hm. pose proof (entry_size_min e) as Hme. pose proof (entry_size_aligned e) as Hal.
  unfold entries_bytes in Hb. rewrite fmap_cons in Hb. cbn [concat] in Hb. rewrite holds_append, length_entry_bytes in Hb by lia. destruct Hb as [Hh Ht].
  rewrite (load_entry_run bytes limits metadata minor trailer Htr Hbytes Hmax) with (e := e) by (done || lia). cbn [rbind].
  rewrite IH; try done; [|lia|rewrite Z.add_mod, Ha, Hal by lia; done|lia]. cbn [rbind]. do 2 f_equal. lia.
Qed.
Lemma load_entries_inv n : forall cursor pi pt entries next, 0 <= cursor -> cursor mod 8 = 0 -> cursor <= trailer ->
  load_entries n bytes limits metadata minor trailer cursor pi pt = Ok (entries, next) ->
  holds bytes cursor (entries_bytes entries) /\ next = cursor + entries_size entries /\ next <= trailer /\ length entries = n /\
  Forall entry_typed entries /\ entries_ok limits metadata minor pi pt entries.
Proof.
  induction n as [|n IH]; intros cursor pi pt entries next Hc Ha Hl H; cbn [load_entries] in H.
  { injection H as <- <-. split_and!; try done. cbn. lia. }
  apply rbind_Ok in H as ([e c1] & E & H). apply (load_entry_inv bytes limits metadata minor trailer Htr Hbytes) in E as (H1 & -> & H2 & H3 & H4); try done.
  pose proof (entry_size_min e) as Hme. pose proof (entry_size_aligned e) as Hal.
  apply rbind_Ok in H as ([es c2] & E & H). injection H as <- <-.
  apply IH in E as (I1 & -> & I2 & I3 & I4 & I5); [|lia|rewrite Z.add_mod, Ha, Hal by lia; done|lia].
  rewrite entries_size_cons. split_and!; try done; try lia; [|by cbn; f_equal|by constructor].
  unfold entries_bytes. rewrite fmap_cons. cbn [concat]. rewrite holds_append, length_entry_bytes by lia. done.
Qed.
End entries.

(** * Snapshots *)

Definition snapshot_size (s : MetadataApplicationSnapshot) : Z :=
  128 + blen (snapshot_voters (as_raft_snapshot s)) * 8 + entries_size (as_entries s) + 4.
Definition snapshot_prefix (minor : Z) (s : MetadataApplicationSnapshot) : list byte :=
  let metadata := as_raft_snapshot s in
  kSnapshotMagic ++ le_bytes 2 kSnapshotMajor ++ le_bytes 2 minor ++ le_bytes 4 128 ++ le_bytes 8 (snapshot_size s)
  ++ le_bytes 4 (blen (as_entries s)) ++ le_bytes 4 (blen (snapshot_voters metadata)) ++ as_group_id s
  ++ le_bytes 8 (last_included_index metadata) ++ le_bytes 8 (last_included_term metadata) ++ le_bytes 8 (manifest_generation metadata)
  ++ part_set_checksum metadata ++ le_bytes 8 (configuration_index metadata) ++ le_bytes 8 (128 + blen (snapshot_voters metadata) * 8).
Definition snapshot_header_with (prefix crc : list byte) : list byte := prefix ++ crc ++ replicate 4 x00.
Definition snapshot_header (minor : Z) (s : MetadataApplicationSnapshot) : list byte :=
  let prefix := snapshot_prefix minor s in
  snapshot_header_with prefix (le_bytes 4 (crc32c (snapshot_header_with prefix (replicate 4 x00)))).
Definition snapshot_body (minor : Z) (s : MetadataApplicationSnapshot) : list byte :=
  snapshot_header minor s ++ voters_bytes (snapshot_voters (as_raft_snapshot s)) ++ entries_bytes (as_entries s).
Definition snapshot_frame (minor : Z) (s : MetadataApplicationSnapshot) : list byte :=
  snapshot_body minor s ++ le_bytes 4 (crc32c (snapshot_body minor s)).

(** The values the types of the fields admit. *)
Definition snapshot_typed (s : MetadataApplicationSnapshot) : Prop :=
  let metadata := as_raft_snapshot s in
  length (as_group_id s) = 16%nat /\ length (part_set_checksum metadata) = 32%nat /\ in_width 64 (last_included_index metadata) /\
  in_width 64 (last_included_term metadata) /\ in_width 64 (manifest_generation metadata) /\ in_width 64 (configuration_index metadata) /\
  Forall (in_width 64) (snapshot_voters metadata) /\ Forall entry_typed (as_entries s).
Definition snapshot_valid (limits : MetadataSnapshotCodecLimits) (minor : Z) (s : MetadataApplicationSnapshot) : Prop :=
  snapshot_typed s /\ valid_metadata s limits = true /\ entries_ok limits (as_raft_snapshot s) minor 0 0 (as_entries s) /\
  blen (as_entries s) <= ml_maximum_entries limits /\ snapshot_size s <= ml_maximum_snapshot_bytes limits.

Lemma length_snapshot_prefix minor s : snapshot_typed s -> length (snapshot_prefix minor s) = 120%nat.
Proof. intros (H1 & H2 & _). unfold snapshot_prefix. rewrite !length_app, !length_le_bytes, H1, H2. done. Qed.
Lemma length_snapshot_header_with prefix crc : length prefix = 120%nat -> length crc = 4%nat -> length (snapshot_header_with prefix crc) = 128%nat.
Proof. intros H1 H2. unfold snapshot_header_with. by rewrite !length_app, H1, H2, length_replicate. Qed.
Lemma length_snapshot_header minor s : snapshot_typed s -> length (snapshot_header minor s) = 128%nat.
Proof. intros. apply length_snapshot_header_with; [by apply length_snapshot_prefix|by rewrite length_le_bytes]. Qed.
Lemma length_snapshot_body minor s : snapshot_typed s -> blen (snapshot_body minor s) = snapshot_size s - 4.
Proof.
  intros Ht. unfold snapshot_body, snapshot_size. rewrite !length_app, length_snapshot_header by done.
  pose proof (length_voters_bytes (snapshot_voters (as_raft_snapshot s))). pose proof (length_entries_bytes (as_entries s)). lia.
Qed.
Lemma length_snapshot_frame minor s : snapshot_typed s -> blen (snapshot_frame minor s) = snapshot_size s.
Proof. intros Ht. unfold snapshot_frame. rewrite length_app, length_le_bytes. pose proof (length_snapshot_body minor s Ht). lia. Qed.
Lemma entry_count_small entries : blen entries * 32 <= entries_size entries.
Proof. induction entries as [|e entries IH]; [done|]. rewrite entries_size_cons. pose proof (entry_size_min e). cbn [length]. lia. Qed.
Lemma snapshot_limits_bounds limits : valid_snapshot_limits limits = true ->
  140 <= ml_maximum_snapshot_bytes limits <= 1073741824 /\ ml_maximum_entry_payload_bytes limits <= kMaximumSchemaDefinitionSize /\
  ml_maximum_voters limits <= 1024.
Proof.
  unfold valid_snapshot_limits, kMetadataSnapshotHeaderSize, kMetadataSnapshotTrailerSize, kMaximumMetadataSnapshotSize.
  intros H. rewrite !Z.geb_leb, !Z.gtb_ltb in H. bool_prop. lia.
Qed.

(** Evaluates the offsets of consecutive fields. *)
Ltac offsets :=
  repeat match goal with
  | |- context [blen kSnapshotMagic] => change (blen kSnapshotMagic) with 8
  | |- context [Z.of_nat (S ?n)] => let c := eval compute in (Z.of_nat (S n)) in change (Z.of_nat (S n)) with c
  | |- context [Z.add 0 (Zpos ?b)] => change (Z.add 0 (Zpos b)) with (Zpos b)
  | |- context [Z.add (Zpos ?a) (Zpos ?b)] => let c := eval compute in (Z.add (Zpos a) (Zpos b)) in change (Z.add (Zpos a) (Zpos b)) with c
  end.
(** The fields of the header in a byte string. *)
Lemma snapshot_prefix_holds bytes minor s : 128 <= blen bytes -> in_width 16 minor -> snapshot_typed s -> snapshot_size s < 2 ^ 32 ->
  holds bytes 0 (snapshot_prefix minor s) <->
  let metadata := as_raft_snapshot s in
  first bytes 8 = kSnapshotMagic /\ load_le 2 bytes 8 = kSnapshotMajor /\ load_le 2 bytes 10 = minor /\ load_le 4 bytes 12 = 128 /\
  load_le 8 bytes 16 = snapshot_size s /\ load_le 4 bytes 24 = blen (as_entries s) /\ load_le 4 bytes 28 = blen (snapshot_voters metadata) /\
  subspan bytes 32 16 = as_group_id s /\ load_le 8 bytes 48 = last_included_index metadata /\ load_le 8 bytes 56 = last_included_term metadata /\
  load_le 8 bytes 64 = manifest_generation metadata /\ subspan bytes 72 32 = part_set_checksum metadata /\
  load_le 8 bytes 104 = configuration_index metadata /\ load_le 8 bytes 112 = 128 + blen (snapshot_voters metadata) * 8.
Proof.
  intros Hl Hm (T1 & T2 & T3 & T4 & T5 & T6 & _) Hs. unfold snapshot_prefix. cbv zeta. set (metadata := as_raft_snapshot s) in *.
  assert (Hsz : 0 <= snapshot_size s /\ blen (as_entries s) <= snapshot_size s /\ 128 + blen (snapshot_voters metadata) * 8 <= snapshot_size s).
  { unfold snapshot_size, metadata. pose proof (entry_count_small (as_entries s)). lia. }
  rewrite !holds_append by lia. rewrite !length_le_bytes, T1, T2. offsets. rewrite !holds_load by (done || lia || width_lia).
  unfold holds. rewrite T1, T2. done.
Qed.

(** ** Encoding *)

Lemma entries_encoded_size_run limits metadata minor entries : ml_maximum_entry_payload_bytes limits <= kMaximumSchemaDefinitionSize ->
  forall pi pt size, 0 <= size -> size + entries_size entries < 2 ^ 63 -> entries_ok limits metadata minor pi pt entries ->
  entries_encoded_size limits metadata minor entries pi pt size = Ok (size + entries_size entries).
Proof.
  intros Hmax. unfold kMaximumSchemaDefinitionSize in Hmax.
  induction entries as [|e entries IH]; intros pi pt size Hs Hl Hok; cbn [entries_encoded_size]; [cbn; f_equal; lia|].
  destruct Hok as [[Hpos [Hp1 Hp2]] Hok]. rewrite entries_size_cons in Hl |- *. pose proof (entries_size_min entries) as Hm.
  assert (Hne : se_payload e <> []) by (destruct (se_payload e); [cbn in Hp1; lia|done]).
  rewrite Hpos, bool_decide_eq_false_2 by done. cbn [orb]. rewrite !gtb_false by lia. cbn [orb]. unfold kMetadataSnapshotEntryHeaderSize.
  rewrite checked_add_spec by width_lia. rewrite (proj2 (Z.ltb_lt _ _)) by lia. rewrite align_up by lia.
  pose proof (padding_bound (blen (se_payload e))) as Hpad. pose proof (padding_shift 0 (blen (se_payload e)) eq_refl) as Hsh. change (0 + 32) with 32 in Hsh.
  rewrite Hsh. fold (entry_size e). unfold entry_size in Hl |- *. rewrite checked_add_spec by width_lia. rewrite (proj2 (Z.ltb_lt _ _)) by lia.
  rewrite IH by (done || lia). f_equal. lia.
Qed.
Lemma entries_encoded_size_Ok limits metadata minor entries :
  forall pi pt size n, 0 <= size < 2 ^ 64 -> entries_encoded_size limits metadata minor entries pi pt size = Ok n ->
  n = size + entries_size entries /\ n < 2 ^ 64 /\ entries_ok limits metadata minor pi pt entries.
Proof.
  induction entries as [|e entries IH]; intros pi pt size n Hs H; cbn [entries_encoded_size] in H; [injection H as <-; cbn; lia|].
  guard_inv H. unfold kMetadataSnapshotEntryHeaderSize in H.
  rewrite checked_add_spec in H by width_lia. rewrite (proj2 (Z.ltb_lt _ _)) in H by lia. rewrite align_up in H by lia.
  pose proof (padding_bound (blen (se_payload e))) as Hpad. pose proof (padding_shift 0 (blen (se_payload e)) eq_refl) as Hsh. change (0 + 32) with 32 in Hsh.
  rewrite Hsh in H. fold (entry_size e) in H. rewrite checked_add_spec in H by (unfold entry_size; width_lia).
  destruct (Z.ltb_spec (size + entry_size e) (2 ^ 64)) as [Hlt|]; [|done]. pose proof (entry_size_min e).
  apply IH in H as (-> & Hn & Hok); [|lia]. rewrite entries_size_cons. split_and!; [lia|lia|].
  split; [|done]. split; [done|]. destruct (se_payload e); [done|]. cbn [length] in *. lia.
Qed.

Lemma store_voters_staged total voters : forall a cursor, cursor = blen a -> blen a + blen voters * 8 <= total ->
  store_voters voters (staged total a) cursor = (staged total (a ++ voters_bytes voters), cursor + blen voters * 8).
Proof.
  unfold store_voters, voters_bytes. induction voters as [|v voters IH]; intros a cursor Hc Hl; cbn [fold_left length].
  { rewrite app_nil_r. f_equal. cbn. lia. }
  cbn [length] in Hl. rewrite staged_store by (cbn [Z.of_nat] in *; lia). rewrite IH by (rewrite length_app, length_le_bytes; lia).
  rewrite fmap_cons. cbn [concat]. rewrite <- app_assoc. f_equal. lia.
Qed.
Lemma store_entry_staged total a cursor e : cursor = blen a -> cursor mod 8 = 0 -> blen a + entry_size e <= total -> total < 2 ^ 32 ->
  store_entry (staged total a, cursor) e = (staged total (a ++ entry_bytes e), cursor + entry_size e).
Proof.
  intros -> Ha Hl Ht. pose proof (padding_bound (blen (se_payload e))) as Hpad. unfold store_entry. unfold entry_size in *. unfold kMetadataSnapshotEntryHeaderSize.
  rewrite staged_store by (cbn [Z.of_nat]; lia).
  rewrite staged_store by (rewrite ?length_app, ?length_le_bytes; cbn [Z.of_nat]; lia).
  rewrite staged_store by (rewrite ?length_app, ?length_le_bytes; cbn [Z.of_nat]; lia).
  rewrite (staged_skip _ _ 3) by (rewrite ?length_app, ?length_le_bytes; lia).
  rewrite staged_store by (rewrite ?length_app, ?length_le_bytes, ?length_replicate; cbn [Z.of_nat]; lia).
  rewrite staged_store by (rewrite ?length_app, ?length_le_bytes, ?length_replicate; cbn [Z.of_nat]; lia).
  rewrite (staged_skip _ _ 4) by (rewrite ?length_app, ?length_le_bytes, ?length_replicate; lia).
  rewrite staged_copy by (rewrite ?length_app, ?length_le_bytes, ?length_replicate; lia).
  rewrite (staged_skip _ _ (Z.to_nat (padding (blen (se_payload e))))) by (rewrite ?length_app, ?length_le_bytes, ?length_replicate; lia).
  rewrite (wrap_small 32) by width_lia. unfold entry_bytes, entry_header. rewrite <- !app_assoc. f_equal.
  unfold aligned_cursor. rewrite align_up by lia. rewrite padding_shift by done. lia.
Qed.
Lemma store_entries_staged total entries : total < 2 ^ 32 -> forall a cursor, cursor = blen a -> cursor mod 8 = 0 -> blen a + entries_size entries <= total ->
  store_entries entries (staged total a) cursor = (staged total (a ++ entries_bytes entries), cursor + entries_size entries).
Proof.
  intros Ht. unfold store_entries, entries_bytes. induction entries as [|e entries IH]; intros a cursor Hc Ha Hl; cbn [fold_left].
  { rewrite app_nil_r. f_equal. cbn. lia. }
  rewrite entries_size_cons in Hl |- *. pose proof (entries_size_min entries). pose proof (entry_size_aligned e) as Hal.
  rewrite store_entry_staged by (done || lia).
  rewrite IH; [|rewrite length_app, Nat2Z.inj_add, length_entry_bytes; lia|rewrite Z.add_mod, Ha, Hal by lia; done|rewrite length_app, Nat2Z.inj_add, length_entry_bytes; lia].
  rewrite fmap_cons. cbn [concat]. rewrite <- app_assoc. f_equal. lia.
Qed.

Lemma checked_multiply_8 v : 0 <= v < 2 ^ 32 -> checked_multiply v 8 = Some (v * 8).
Proof.
  intros Hv. unfold checked_multiply. destruct (Z.eqb_spec v 0) as [->|Hn]; [done|]. cbn [negb andb].
  rewrite gtb_false by (apply Z.div_le_lower_bound; lia). by rewrite wrap_small by width_lia.
Qed.
Lemma encoded_size_run limits minor s : valid_snapshot_limits limits = true -> snapshot_valid limits minor s -> encoded_size s limits minor = Ok (snapshot_size s).
Proof.
  intros Hl (Ht & Hm & Hok & Hn & Hs). pose proof (snapshot_limits_bounds _ Hl) as (B1 & B2 & B3). unfold encoded_size.
  pose proof (entry_count_small (as_entries s)) as Hc. unfold snapshot_size in *. rewrite !gtb_false by lia. cbn [orb].
  rewrite checked_multiply_8 by lia. unfold kMetadataSnapshotHeaderSize, kMetadataSnapshotTrailerSize.
  rewrite checked_add_spec by width_lia. rewrite (proj2 (Z.ltb_lt _ _)) by lia. rewrite entries_encoded_size_run by (done || lia). cbn [rbind].
  rewrite checked_add_spec by width_lia. rewrite (proj2 (Z.ltb_lt _ _)) by lia. rewrite gtb_false by lia. done.
Qed.
Lemma seal_snapshot prefix rest trailer : length prefix = 120%nat -> trailer = 128 + blen rest ->
  let bytes := store_le 4 ((prefix ++ replicate 4 x00 ++ replicate 4 x00) ++ rest ++ replicate 4 x00) 120
                 (crc32c (first ((prefix ++ replicate 4 x00 ++ replicate 4 x00) ++ rest ++ replicate 4 x00) 128)) in
  let body := snapshot_header_with prefix (le_bytes 4 (crc32c (snapshot_header_with prefix (replicate 4 x00)))) ++ rest in
  store_le 4 bytes trailer (crc32c (first bytes trailer)) = body ++ le_bytes 4 (crc32c body).
Proof.
  intros Hp -> bytes body.
  assert (E : bytes = body ++ replicate 4 x00).
  { unfold bytes. rewrite first_app by (rewrite !length_app, !length_replicate, Hp; done). fold (snapshot_header_with prefix (replicate 4 x00)).
    set (c := crc32c _). unfold snapshot_header_with. rewrite <- !app_assoc. rewrite store_middle by (rewrite ?Hp; done).
    unfold body, snapshot_header_with. by rewrite <- !app_assoc. }
  assert (Hb : blen body = 128 + blen rest).
  { unfold body. rewrite length_app, length_snapshot_header_with by (done || by rewrite length_le_bytes). lia. }
  rewrite E, first_app by done. rewrite <- (app_nil_r (replicate 4 x00)), store_middle by done. by rewrite app_nil_r.
Qed.
Lemma encode_snapshot_exact limits s : valid_snapshot_limits limits = true -> snapshot_valid limits (snapshot_minor (as_entries s)) s ->
  encode_metadata_application_snapshot_v1 s limits = Ok (snapshot_frame (snapshot_minor (as_entries s)) s).
Proof.
  intros Hl Hv. pose proof Hv as (Ht & Hm & Hok & Hn & Hs). pose proof (snapshot_limits_bounds _ Hl) as (B1 & B2 & B3).
  unfold encode_metadata_application_snapshot_v1. rewrite Hl, Hm. cbn [negb]. rewrite encoded_size_run by done. cbn [rbind].
  set (minor := snapshot_minor (as_entries s)) in *. pose proof Ht as (T1 & T2 & _). pose proof (length_snapshot_prefix minor s Ht) as Hp.
  unfold kMetadataSnapshotHeaderSize, kMetadataSnapshotTrailerSize, kTotalSizeOffset, kEntryCountOffset, kVoterCountOffset, kGroupIdOffset,
    kLastIncludedIndexOffset, kLastIncludedTermOffset, kApplicationGenerationOffset, kPartSetChecksumOffset, kConfigurationIndexOffset,
    kEntriesOffsetOffset, kSnapshotHeaderCrcOffset.
  set (total := snapshot_size s) in *. set (metadata := as_raft_snapshot s) in *. set (voters := snapshot_voters metadata) in *.
  assert (Htot : total = 128 + blen voters * 8 + entries_size (as_entries s) + 4) by done.
  pose proof (entries_size_min (as_entries s)) as Hmin. pose proof (entry_count_small (as_entries s)) as Hcnt.
  rewrite !(wrap_small 32) by width_lia.
  replace (replicate (Z.to_nat total) x00) with (staged total []) by (unfold staged; cbn; do 2 f_equal; lia).
  do 14 ((rewrite staged_store || rewrite staged_copy); [|rewrite ?length_app, ?length_le_bytes, ?T1, ?T2; cbn [length Z.of_nat kSnapshotMagic Pos.of_succ_nat Pos.succ]; lia..]).
  assert (Ep : snapshot_prefix minor s = ((((((((((((([] ++ kSnapshotMagic) ++ le_bytes 2 kSnapshotMajor) ++ le_bytes 2 minor) ++ le_bytes 4 128)
    ++ le_bytes 8 total) ++ le_bytes 4 (blen (as_entries s))) ++ le_bytes 4 (blen voters)) ++ as_group_id s) ++ le_bytes 8 (last_included_index metadata))
    ++ le_bytes 8 (last_included_term metadata)) ++ le_bytes 8 (manifest_generation metadata)) ++ part_set_checksum metadata)
    ++ le_bytes 8 (configuration_index metadata)) ++ le_bytes 8 (128 + blen voters * 8)) by (unfold snapshot_prefix; rewrite <- !app_assoc; done).
  rewrite <- Ep. rewrite (staged_skip _ _ (4 + 4)) by (rewrite Hp; lia). rewrite replicate_add.
  rewrite store_voters_staged by (rewrite !length_app, !length_replicate, Hp; lia).
  rewrite store_entries_staged; [|lia|rewrite !length_app, !length_replicate, Hp; pose proof (length_voters_bytes voters); lia
    |rewrite Z.add_mod, Z_mod_mult by lia; done|rewrite !length_app, !length_replicate, Hp; pose proof (length_voters_bytes voters); lia].
  set (rest := voters_bytes voters ++ entries_bytes (as_entries s)).
  assert (Hrest : blen rest = total - 132).
  { unfold rest. rewrite length_app. pose proof (length_voters_bytes voters). pose proof (length_entries_bytes (as_entries s)). lia. }
  rewrite <- (app_assoc _ (voters_bytes voters)). fold rest.
  rewrite (staged_skip _ _ 4) by (rewrite !length_app, !length_replicate, Hp; lia).
  rewrite staged_full by (rewrite !length_app, !length_replicate, Hp; lia). rewrite <- (app_assoc _ rest).
  rewrite length_store_le by (rewrite ?length_app, ?length_replicate, ?Hp; cbn [Z.of_nat]; lia).
  rewrite (seal_snapshot _ rest); [|done|rewrite !length_app, !length_replicate, Hp; lia].
  unfold snapshot_frame, snapshot_body, snapshot_header. by fold rest.
Qed.
Lemma encode_snapshot_inv limits s bytes : snapshot_typed s -> encode_metadata_application_snapshot_v1 s limits = Ok bytes ->
  valid_snapshot_limits limits = true /\ snapshot_valid limits (snapshot_minor (as_entries s)) s.
Proof.
  intros Ht H. unfold encode_metadata_application_snapshot_v1 in H. guard_inv H. apply rbind_Ok in H as (total & E & _).
  split; [done|]. unfold encoded_size, kMetadataSnapshotHeaderSize, kMetadataSnapshotTrailerSize in E. guard_inv E.
  match goal with G : valid_metadata s limits = true |- _ => pose proof G as Hm end. pose proof (snapshot_limits_bounds _ ltac:(eassumption)) as (B1 & B2 & B3).
  assert (Hv : blen (snapshot_voters (as_raft_snapshot s)) <= 1024) by (unfold valid_metadata in Hm; bool_prop; lia).
  rewrite checked_multiply_8 in E by lia. rewrite checked_add_spec in E by width_lia. rewrite (proj2 (Z.ltb_lt _ _)) in E by lia.
  apply rbind_Ok in E as (size & E1 & E). apply entries_encoded_size_Ok in E1 as (-> & Hsz & Hok); [|lia].
  pose proof (entries_size_min (as_entries s)). rewrite checked_add_spec in E by width_lia.
  destruct (Z.ltb_spec (128 + blen (snapshot_voters (as_raft_snapshot s)) * 8 + entries_size (as_entries s) + 4) (2 ^ 64)); [|done].
  guard_inv E. split_and!; try done.
Qed.

(** ** Decoding *)

Lemma valid_metadata_entries g m es es' limits :
  valid_metadata {| as_group_id := g; as_raft_snapshot := m; as_entries := es |} limits =
  valid_metadata {| as_group_id := g; as_raft_snapshot := m; as_entries := es' |} limits.
Proof. done. Qed.
Lemma snapshot_frame_parts minor s : snapshot_typed s ->
  let bytes := snapshot_frame minor s in
  holds bytes 0 (snapshot_prefix minor s) /\
  first bytes 128 = snapshot_header minor s /\ holds bytes 120 (le_bytes 4 (crc32c (snapshot_header_with (snapshot_prefix minor s) (replicate 4 x00)))) /\
  holds bytes 124 (replicate 4 x00) /\ holds bytes 128 (voters_bytes (snapshot_voters (as_raft_snapshot s))) /\
  holds bytes (128 + blen (snapshot_voters (as_raft_snapshot s)) * 8) (entries_bytes (as_entries s)) /\
  first bytes (snapshot_size s - 4) = snapshot_body minor s /\ holds bytes (snapshot_size s - 4) (le_bytes 4 (crc32c (snapshot_body minor s))).
Proof.
  intros Ht bytes. pose proof (length_snapshot_prefix minor s Ht) as Hp. pose proof (length_snapshot_header minor s Ht) as Hh.
  pose proof (length_snapshot_body minor s Ht) as Hb. pose proof (length_voters_bytes (snapshot_voters (as_raft_snapshot s))) as Hv.
  assert (H0 : holds bytes 0 (snapshot_frame minor s)) by (unfold holds, bytes; by rewrite subspan_all).
  assert (Hbf : first bytes (snapshot_size s - 4) = snapshot_body minor s) by (apply first_app; lia).
  unfold snapshot_frame in H0. rewrite holds_append, Hb in H0 by lia. destruct H0 as [H0 Htr]. unfold snapshot_body in H0.
  rewrite holds_append, Hh in H0 by lia. destruct H0 as [H0 Hrest]. rewrite holds_append, Hv in Hrest by lia. destruct Hrest as [Hvo Hen].
  assert (Hhd : first bytes 128 = snapshot_header minor s) by (apply holds_first; [done|by rewrite Hh]).
  unfold snapshot_header, snapshot_header_with in H0. rewrite !holds_append, Hp, length_le_bytes in H0 by lia. destruct H0 as (H1 & H2 & H3). by split_and!.
Qed.
Lemma decode_snapshot_complete limits minor s : valid_snapshot_limits limits = true -> 0 <= minor <= 1 -> snapshot_valid limits minor s ->
  decode_metadata_application_snapshot_v1 (snapshot_frame minor s) limits = Ok s.
Proof.
  intros Hl Hmi (Ht & Hm & Hok & Hn & Hs). pose proof (snapshot_limits_bounds _ Hl) as (B1 & B2 & B3).
  pose proof (snapshot_frame_parts minor s Ht) as (P1 & P2 & P3 & P4 & P5 & P6 & P7 & P8). pose proof (length_snapshot_frame minor s Ht) as Hlen.
  pose proof (length_snapshot_prefix minor s Ht) as Hp. pose proof Ht as (_ & _ & _ & _ & _ & _ & T7 & T8).
  set (bytes := snapshot_frame minor s) in *. pose proof (entries_size_min (as_entries s)) as Hmin. pose proof (entry_count_small (as_entries s)) as Hcnt.
  assert (Hmeta := Hm). unfold valid_metadata in Hmeta. bool_prop.
  assert (Hvn : 1 <= blen (snapshot_voters (as_raft_snapshot s))) by (destruct (snapshot_voters _); [done|cbn; lia]).
  assert (Hsz : snapshot_size s = 128 + blen (snapshot_voters (as_raft_snapshot s)) * 8 + entries_size (as_entries s) + 4) by done.
  apply snapshot_prefix_holds in P1 as (F1 & F2 & F3 & F4 & F5 & F6 & F7 & F8 & F9 & F10 & F11 & F12 & F13 & F14); [|lia|width_lia|done|lia].
  apply holds_load in P3; [|lia|cbn [Z.of_nat]; lia|apply crc32c_range]. apply holds_zeros in P4; [|lia|lia].
  apply holds_load in P8; [|lia|cbn [Z.of_nat]; lia|apply crc32c_range].
  unfold decode_metadata_application_snapshot_v1, kMetadataSnapshotHeaderSize, kMetadataSnapshotTrailerSize, kSnapshotHeaderCrcOffset, kTotalSizeOffset,
    kEntryCountOffset, kVoterCountOffset, kEntriesOffsetOffset, kReservedOffset, kLastIncludedIndexOffset, kLastIncludedTermOffset,
    kApplicationGenerationOffset, kPartSetChecksumOffset, kConfigurationIndexOffset, kGroupIdOffset, kMinor1.
  change (Z.of_nat 4) with 4 in P4. rewrite Hl, Hlen. cbn [negb]. rewrite (proj2 (Z.ltb_ge _ _)) by lia. rewrite gtb_false by lia.
  rewrite P2, P3, P7, P8, F1, F2, F3, F4, F5, F6, F7, F8, F9, F10, F11, F12, F13, F14, P4. cbv zeta.
  assert (Hz : store_le 4 (snapshot_header minor s) 120 0 = snapshot_header_with (snapshot_prefix minor s) (replicate 4 x00)).
  { unfold snapshot_header, snapshot_header_with. rewrite store_middle by (rewrite ?Hp, ?length_le_bytes; done). done. }
  rewrite Hz, bool_decide_eq_true_2, !Z.eqb_refl by done. cbn [negb orb]. rewrite !gtb_false by lia. cbn [orb].
  rewrite checked_multiply_8 by lia. rewrite Z.eqb_refl, (proj2 (Z.eqb_neq (blen _) 0)) by lia. cbn [negb orb]. rewrite !Nat2Z.id.
  rewrite load_voters_run by (done || lia).
  assert (Es : {| last_included_index := last_included_index (as_raft_snapshot s); last_included_term := last_included_term (as_raft_snapshot s);
      manifest_generation := manifest_generation (as_raft_snapshot s); part_set_checksum := part_set_checksum (as_raft_snapshot s);
      configuration_index := configuration_index (as_raft_snapshot s); snapshot_voters := snapshot_voters (as_raft_snapshot s) |} = as_raft_snapshot s)
    by (by destruct (as_raft_snapshot s)).
  rewrite Es. replace (valid_metadata _ limits) with true by (symmetry; exact Hm). cbn [negb].
  rewrite load_entries_run; try done; try lia; [|rewrite Z.add_mod, Z_mod_mult by lia; done]. cbn [rbind].
  rewrite (proj2 (Z.eqb_eq _ _)) by lia. cbn [negb]. by destruct s.
Qed.
(** A byte string with the right prefix, reserved bytes, voters, entries and checksums is a frame. *)
Lemma snapshot_of_parts bytes minor s : snapshot_typed s -> snapshot_size s = blen bytes -> holds bytes 0 (snapshot_prefix minor s) ->
  crc32c (store_le 4 (first bytes 128) 120 0) = load_le 4 bytes 120 -> nonzero_bytes (subspan bytes 124 4) = false ->
  holds bytes 128 (voters_bytes (snapshot_voters (as_raft_snapshot s))) ->
  holds bytes (128 + blen (snapshot_voters (as_raft_snapshot s)) * 8) (entries_bytes (as_entries s)) ->
  crc32c (first bytes (blen bytes - 4)) = load_le 4 bytes (blen bytes - 4) -> bytes = snapshot_frame minor s.
Proof.
  intros Ht Hsz Hpre Hcrc Hz Hv He Htr. pose proof (length_snapshot_prefix minor s Ht) as Hp. pose proof (length_snapshot_header minor s Ht) as Hh.
  pose proof (length_snapshot_body minor s Ht) as Hb. pose proof (entries_size_min (as_entries s)) as Hmin.
  assert (Hl : 132 <= blen bytes) by (rewrite <- Hsz; unfold snapshot_size; lia).
  assert (Hraw : holds bytes 0 (snapshot_header_with (snapshot_prefix minor s) (le_bytes 4 (load_le 4 bytes 120)))).
  { unfold snapshot_header_with. rewrite !holds_append, Hp, length_le_bytes by lia. split_and!; [done| |].
    - apply holds_load; [lia|cbn [Z.of_nat]; lia|apply load_in_width; cbn [Z.of_nat]; lia|done].
    - by apply holds_zeros; [lia|lia|]. }
  assert (Hhead : holds bytes 0 (snapshot_header minor s)).
  { unfold snapshot_header. cbv zeta. rewrite (holds_first bytes 128 _ Hraw) in Hcrc by (rewrite length_snapshot_header_with; [done|done|by rewrite length_le_bytes]).
    unfold snapshot_header_with at 1 in Hcrc. rewrite store_middle in Hcrc by (rewrite ?Hp, ?length_le_bytes; done).
    change (le_bytes 4 0) with (replicate 4 x00) in Hcrc. fold (snapshot_header_with (snapshot_prefix minor s) (replicate 4 x00)) in Hcrc. by rewrite Hcrc. }
  assert (Hbody : holds bytes 0 (snapshot_body minor s)).
  { unfold snapshot_body. rewrite !holds_append, Hh, length_voters_bytes by lia. done. }
  rewrite (holds_first bytes (blen bytes - 4) _ Hbody) in Htr by lia.
  apply holds_all; [|rewrite length_snapshot_frame by done; lia]. unfold snapshot_frame. rewrite holds_append, Hb, Hsz by lia. split; [done|].
  apply holds_load; [lia|cbn [Z.of_nat]; lia|apply crc32c_range|done].
Qed.
Lemma decode_snapshot_sound limits bytes s : decode_metadata_application_snapshot_v1 bytes limits = Ok s ->
  valid_snapshot_limits limits = true /\ exists minor, 0 <= minor <= 1 /\ snapshot_valid limits minor s /\ bytes = snapshot_frame minor s.
Proof.
  unfold decode_metadata_application_snapshot_v1, kMetadataSnapshotHeaderSize, kMetadataSnapshotTrailerSize, kSnapshotHeaderCrcOffset, kTotalSizeOffset,
    kEntryCountOffset, kVoterCountOffset, kEntriesOffsetOffset, kReservedOffset, kLastIncludedIndexOffset, kLastIncludedTermOffset,
    kApplicationGenerationOffset, kPartSetChecksumOffset, kConfigurationIndexOffset, kGroupIdOffset, kMinor1.
  intros H. cbv zeta in H. guard_inv H. pose proof (snapshot_limits_bounds _ ltac:(eassumption)) as (B1 & B2 & B3).
  assert (W1 : forall w off, 0 <= off -> off + Z.of_nat w <= 128 -> in_width (8 * Z.of_nat w) (load_le w bytes off)).
  { intros w off ??. apply load_in_width; lia. }
  pose proof (W1 4%nat 28 ltac:(lia) ltac:(cbn; lia)) as Wv. pose proof (W1 4%nat 24 ltac:(lia) ltac:(cbn; lia)) as We. unfold in_width in Wv, We.
  rewrite checked_multiply_8 in * by (cbn in Wv; lia).
  set (voters := load_voters (Z.to_nat (load_le 4 bytes 28)) bytes 128) in *. change (8 * Z.of_nat 4) with 32 in Wv, We. bool_prop.
  destruct (load_voters_holds bytes (Z.to_nat (load_le 4 bytes 28)) 128 ltac:(lia) ltac:(lia)) as (V1 & V2 & V3). fold voters in V1, V2, V3.
  assert (Hvl : blen voters = load_le 4 bytes 28) by (rewrite V3; lia).
  apply rbind_Ok in H as ([entries cursor] & El & H). guard_inv H. apply Ok_inj in H.
  apply load_entries_inv in El as (E1 & E2 & E3 & E4 & E5 & E6); [|lia|lia|lia| |lia]; [|rewrite H4, Z.add_mod, Z_mod_mult by lia; done].
  set (metadata := {| last_included_index := load_le 8 bytes 48 |}) in *.
  assert (Ht : snapshot_typed s).
  { subst s. split_and!; cbn; try done; try (apply (W1 8%nat); cbn; lia); rewrite length_subspan by lia; done. }
  assert (Hsz : snapshot_size s = blen bytes) by (subst s; unfold snapshot_size, metadata; cbn [as_raft_snapshot as_entries snapshot_voters]; lia).
  split; [done|]. exists (load_le 2 bytes 10). pose proof (W1 2%nat 10 ltac:(lia) ltac:(cbn; lia)) as Wm.
  split; [unfold in_width in Wm; lia|]. split.
  { split; [done|]. subst s. split_and!; cbn [as_raft_snapshot as_entries]; try done; [rewrite E4; lia|rewrite Hsz; done]. }
  assert (Hpre : holds bytes 0 (snapshot_prefix (load_le 2 bytes 10) s)).
  { apply snapshot_prefix_holds; [lia|done|done|lia|]. rewrite Hsz. subst s. cbn. rewrite E4, Hvl. split_and!; try done; lia. }
  apply snapshot_of_parts; try done; subst s; cbn [as_raft_snapshot as_entries snapshot_voters metadata]; [done|].
  unfold metadata. cbn [snapshot_voters]. by rewrite Hvl, <- H4.
Qed.

(** The errors of the codec are errors. *)
Lemma rbind_err_not_ok {A B} (r : result A) (k : A -> result B) : (forall a, k a <> Err kOk) -> rbind r k <> Err kOk.
Proof.
  intros Hk. destruct r as [a|st]; cbn; [apply Hk|]. destruct (@make_unexpected_not_ok B st) as (st' & -> & Hs). by intros [= ->].
Qed.
Lemma load_entries_not_ok bytes limits metadata minor trailer n : forall cursor pi pt,
  load_entries n bytes limits metadata minor trailer cursor pi pt <> Err kOk.
Proof.
  induction n as [|n IH]; intros cursor pi pt; cbn [load_entries]; [done|]. apply rbind_err_not_ok. intros [e next]. by apply rbind_err_not_ok; intros [].
Qed.
Lemma decode_snapshot_not_ok bytes limits : decode_metadata_application_snapshot_v1 bytes limits <> Err kOk.
Proof.
  unfold decode_metadata_application_snapshot_v1. cbv zeta. repeat (destruct (_ : bool); [done|]).
  apply rbind_err_not_ok. intros [es c]. by destruct (negb _).
Qed.
Lemma encode_snapshot_not_ok s limits : encode_metadata_application_snapshot_v1 s limits <> Err kOk.
Proof.
  unfold encode_metadata_application_snapshot_v1. do 2 (destruct (negb _); [done|]). apply rbind_err_not_ok. intros n.
  by destruct (store_voters _ _ _), (store_entries _ _ _).
Qed.
