(* ===== verification/MetadataStorage.v ===== *)
(** The directory that keeps the application snapshots of the metadata group:
    include/chronos/raft/metadata_snapshot_storage.hpp and src/raft/metadata_snapshot_storage.cpp. *)
From S2P Require Import Prelude Bytes RaftTypes RaftMembership PosixIo WalPaths RaftLogFiles MetadataSnapshot.
#[local] Open Scope Z_scope.

Record MetadataSnapshotStorageConfig := {
  sc_directory_path : list byte; sc_group_id : GroupId; sc_codec_limits : MetadataSnapshotCodecLimits; sc_file_permissions : Z }.
Record InstalledMetadataSnapshot := {
  im_last_included_index : LogIndex; im_file_name : FileName; im_already_present : bool }.
Record LoadedMetadataSnapshot := {
  lm_file_name : FileName; lm_snapshot : MetadataApplicationSnapshot; lm_bytes : list byte }.
Record MetadataSnapshotReclamationReport := { rp_authoritative_index : option LogIndex; rp_reclaimed_files : Z }.
Record MetadataSnapshotCleanupMetrics := {
  cm_temporary_files_removed : Z; cm_temporary_directory_syncs : Z; cm_reclamation_attempts : Z; cm_reclamation_failures : Z;
  cm_reclaimed_files : Z; cm_reclamation_directory_syncs : Z }.

Definition kStorageLockName : FileName := chars "LOCK".
Definition kSnapshotFilePrefix : FileName := chars "metadata-snapshot-".
Definition kSnapshotFileSuffix : FileName := chars ".rmas".
Definition kSnapshotTemporarySuffix : FileName := chars ".tmp".
Definition kIndexDigits : nat := 20.

Definition temporary_name (final_name : FileName) : FileName := final_name ++ kSnapshotTemporarySuffix.
Definition saturating_add (target increment : Z) : Z :=
  if target >? max_u64 - increment then max_u64 else u64 (target + increment).

(** The digits of the index, right-aligned in twenty zeros. *)
Definition metadata_snapshot_file_name (last_included_index : LogIndex) : result FileName :=
  fail_if last_included_index =? 0 with kInvalidArgument;
  let digits := to_chars last_included_index in
  Ok (kSnapshotFilePrefix ++ replicate (kIndexDigits - length digits) x30 ++ digits ++ kSnapshotFileSuffix).

Definition parse_name (name : FileName) (temporary : bool) : result LogIndex :=
  let expected := (length kSnapshotFilePrefix + kIndexDigits + length kSnapshotFileSuffix
                   + (if temporary then length kSnapshotTemporarySuffix else 0))%nat in
  fail_if negb (Nat.eqb (length name) expected) || negb (starts_with name kSnapshotFilePrefix)
          || negb (starts_with (drop (length kSnapshotFilePrefix + kIndexDigits) name) kSnapshotFileSuffix)
          || (temporary && negb (ends_with name kSnapshotTemporarySuffix)) with kInvalidArgument;
  match digits_value (substr name (length kSnapshotFilePrefix) kIndexDigits) 0 with
  | None => Err kInvalidArgument
  | Some index =>
      fail_if index =? 0 with kInvalidArgument;
      match metadata_snapshot_file_name index with
      | Err _ => Err kInvalidArgument
      | Ok canonical => fail_if negb (starts_with name canonical) with kInvalidArgument; Ok index
      end
  end.
Definition parses (name : FileName) (temporary : bool) : bool :=
  match parse_name name temporary with Ok _ => true | Err _ => false end.

(** * The owner *)

Record SnapshotStorage := {
  ss_config : MetadataSnapshotStorageConfig; ss_poison : StatusCode; ss_metrics : MetadataSnapshotCleanupMetrics }.
Definition new_storage (config : MetadataSnapshotStorageConfig) : SnapshotStorage :=
  {| ss_config := config; ss_poison := kOk;
     ss_metrics := {| cm_temporary_files_removed := 0; cm_temporary_directory_syncs := 0; cm_reclamation_attempts := 0;
                      cm_reclamation_failures := 0; cm_reclaimed_files := 0; cm_reclamation_directory_syncs := 0 |} |}.
Definition set_cleanup_metrics (s : SnapshotStorage) (m : MetadataSnapshotCleanupMetrics) : SnapshotStorage :=
  {| ss_config := ss_config s; ss_poison := ss_poison s; ss_metrics := m |}.
(** [fail(status, true)]: the first such status is kept. *)
Definition poison_storage (s : SnapshotStorage) (status : StatusCode) : SnapshotStorage :=
  {| ss_config := ss_config s; ss_poison := if is_ok (ss_poison s) then status else ss_poison s; ss_metrics := ss_metrics s |}.
Definition count_temporaries (removed : Z) (m : MetadataSnapshotCleanupMetrics) : MetadataSnapshotCleanupMetrics :=
  {| cm_temporary_files_removed := saturating_add (cm_temporary_files_removed m) removed;
     cm_temporary_directory_syncs := saturating_add (cm_temporary_directory_syncs m) 1;
     cm_reclamation_attempts := cm_reclamation_attempts m; cm_reclamation_failures := cm_reclamation_failures m;
     cm_reclaimed_files := cm_reclaimed_files m; cm_reclamation_directory_syncs := cm_reclamation_directory_syncs m |}.
Definition count_reclamation (attempts failures : Z) (m : MetadataSnapshotCleanupMetrics) : MetadataSnapshotCleanupMetrics :=
  {| cm_temporary_files_removed := cm_temporary_files_removed m; cm_temporary_directory_syncs := cm_temporary_directory_syncs m;
     cm_reclamation_attempts := saturating_add (cm_reclamation_attempts m) attempts;
     cm_reclamation_failures := saturating_add (cm_reclamation_failures m) failures;
     cm_reclaimed_files := cm_reclaimed_files m; cm_reclamation_directory_syncs := cm_reclamation_directory_syncs m |}.
Definition count_reclaimed (files : Z) (m : MetadataSnapshotCleanupMetrics) : MetadataSnapshotCleanupMetrics :=
  {| cm_temporary_files_removed := cm_temporary_files_removed m; cm_temporary_directory_syncs := cm_temporary_directory_syncs m;
     cm_reclamation_attempts := cm_reclamation_attempts m; cm_reclamation_failures := cm_reclamation_failures m;
     cm_reclaimed_files := saturating_add (cm_reclaimed_files m) files;
     cm_reclamation_directory_syncs := saturating_add (cm_reclamation_directory_syncs m) 1 |}.

Definition storage_config_invalid (config : MetadataSnapshotStorageConfig) : bool :=
  bool_decide (sc_directory_path config = []) || is_nil (sc_group_id config) || (sc_file_permissions config =? 0)
  || negb (Z.land (sc_file_permissions config) (Z.lnot 511) =? 0) || negb (valid_snapshot_limits (sc_codec_limits config)).

(** Runs a computation and hands its result on, failed or not. *)
Definition io_try {W A} (c : IO W A) : IO W (result A) := fun w => let '(r, w') := c w in (Ok r, w').

Section storage.
Context {W : Type} `{PosixIo W}.
Implicit Types (s : SnapshotStorage).

Definition get_storage : IO (W * SnapshotStorage) SnapshotStorage := fun ws => (Ok ws.2, ws).
Definition put_storage s : IO (W * SnapshotStorage) unit := fun ws => (Ok tt, (ws.1, s)).
Definition in_directory {A} (c : IO W A) : IO (W * SnapshotStorage) A := fun ws =>
  let '(r, w) := c ws.1 in (r, (w, ws.2)).
Definition storage_metrics (f : MetadataSnapshotCleanupMetrics -> MetadataSnapshotCleanupMetrics) : IO (W * SnapshotStorage) unit :=
  let* s := get_storage in put_storage (set_cleanup_metrics s (f (ss_metrics s))).
Definition check_usable : IO (W * SnapshotStorage) unit :=
  let* s := get_storage in
  stop_if negb (is_ok (ss_poison s)) with kUnavailable; io_ret tt.

(** The loop of [cleanup_temporaries]: the number of files removed. *)
Fixpoint remove_temporaries (entries : list DirectoryEntry) (removed : Z) : IO W Z :=
  match entries with
  | [] => io_ret removed
  | e :: entries =>
      if negb (starts_with (entry_name e) kSnapshotFilePrefix) || negb (ends_with (entry_name e) kSnapshotTemporarySuffix)
      then remove_temporaries entries removed
      else
        stop_if negb (parses (entry_name e) true) || negb (bool_decide (entry_type e = kRegularFile)) with kCorruption;
        do* remove_file (entry_name e);
        remove_temporaries entries (saturating_add removed 1)
  end.
Definition cleanup_temporaries : IO (W * SnapshotStorage) unit :=
  let* entries := in_directory list_entries in
  let* removed := in_directory (remove_temporaries entries 0) in
  if removed =? 0 then io_ret tt
  else do* in_directory directory_sync; storage_metrics (count_temporaries removed).

Definition open_with (config : MetadataSnapshotStorageConfig) (create_lock : bool) : IO W SnapshotStorage := fun w =>
  (stop_if storage_config_invalid config with kInvalidArgument;
   do* open_directory (sc_directory_path config);
   do* (if create_lock then acquire_exclusive_lock kStorageLockName (sc_file_permissions config)
        else acquire_existing_exclusive_lock kStorageLockName);
   fun w => match cleanup_temporaries (w, new_storage config) with
            | (Ok _, (w, s)) => (Ok s, w)
            | (Err status, (w, _)) => (Err status, w)
            end) w.

Definition load_file (file_name : FileName) (expected_index : LogIndex) : IO (W * SnapshotStorage) LoadedMetadataSnapshot :=
  do* check_usable;
  let* s := get_storage in
  let config := ss_config s in
  let* file := in_directory (open_regular_file file_name kReadOnly) in
  let* size := in_directory (file_size file) in
  stop_if (size >? ml_maximum_snapshot_bytes (sc_codec_limits config)) || (size >? max_u64) with kResourceExhausted;
  let* bytes := in_directory (read_at file 0 size) in
  stop_if negb (blen bytes =? size) with kCorruption;
  let* decoded := io_pure (decode_metadata_application_snapshot_v1 bytes (sc_codec_limits config)) in
  stop_if negb (bool_decide (as_group_id decoded = sc_group_id config))
          || negb (last_included_index (as_raft_snapshot decoded) =? expected_index) with kCorruption;
  io_ret {| lm_file_name := file_name; lm_snapshot := decoded; lm_bytes := bytes |}.

(** The removal of an earlier temporary: whether there was one. *)
Definition clean_temporary (temp_name : FileName) : IO (W * SnapshotStorage) bool :=
  let* removal := io_try (in_directory (remove_file temp_name)) in
  match removal with
  | Ok _ => do* in_directory directory_sync; io_ret true
  | Err status => if bool_decide (status = kNotFound) then io_ret false else io_fail status
  end.
(** The temporary as it is written, read back and compared, synchronised and closed. *)
Definition write_temporary (temp_name : FileName) (snapshot : MetadataApplicationSnapshot) (encoded : list byte)
  (config : MetadataSnapshotStorageConfig) : IO W unit :=
  let* file := create_exclusive_regular_file temp_name (sc_file_permissions config) in
  do* write_all_at file 0 encoded;
  let* size := file_size file in
  stop_if negb (size =? blen encoded) with kCorruption;
  let* readback := read_at file 0 (blen encoded) in
  stop_if negb (blen readback =? blen encoded) with kCorruption;
  let* decoded := io_pure (decode_metadata_application_snapshot_v1 readback (sc_codec_limits config)) in
  stop_if negb (bool_decide (decoded = snapshot)) with kCorruption;
  do* sync_all file;
  close_file file.
Definition install_new (snapshot : MetadataApplicationSnapshot) (encoded : list byte) (final_name : FileName)
  : IO (W * SnapshotStorage) InstalledMetadataSnapshot :=
  let temp_name := temporary_name final_name in
  let* removed_temporary := clean_temporary temp_name in
  do* (if removed_temporary then storage_metrics (count_temporaries 1) else io_ret tt);
  let* s := get_storage in
  do* in_directory (write_temporary temp_name snapshot encoded (ss_config s));
  do* in_directory (rename_no_replace temp_name final_name);
  let* synchronized := io_try (in_directory directory_sync) in
  match synchronized with
  | Err status => do* put_storage (poison_storage s status); io_fail status
  | Ok _ => io_ret {| im_last_included_index := last_included_index (as_raft_snapshot snapshot);
                      im_file_name := final_name; im_already_present := false |}
  end.
Definition install (snapshot : MetadataApplicationSnapshot) : IO (W * SnapshotStorage) InstalledMetadataSnapshot :=
  do* check_usable;
  let* s := get_storage in
  let config := ss_config s in
  let index := last_included_index (as_raft_snapshot snapshot) in
  stop_if negb (bool_decide (as_group_id snapshot = sc_group_id config)) with kInvalidArgument;
  let* encoded := io_pure (encode_metadata_application_snapshot_v1 snapshot (sc_codec_limits config)) in
  let* final_name := io_pure (metadata_snapshot_file_name index) in
  let* existing := io_try (load_file final_name index) in
  match existing with
  | Ok loaded =>
      stop_if negb (bool_decide (lm_bytes loaded = encoded)) with kCorruption;
      io_ret {| im_last_included_index := index; im_file_name := final_name; im_already_present := true |}
  | Err status =>
      stop_if negb (bool_decide (status = kNotFound)) with status;
      install_new snapshot encoded final_name
  end.

Definition load (last_included_index : LogIndex) : IO (W * SnapshotStorage) LoadedMetadataSnapshot :=
  let* name := io_pure (metadata_snapshot_file_name last_included_index) in
  load_file name last_included_index.

(** The loop of [load_latest]. *)
Fixpoint latest_index (entries : list DirectoryEntry) (latest : option LogIndex) : result (option LogIndex) :=
  match entries with
  | [] => Ok latest
  | e :: entries =>
      if bool_decide (entry_name e = kStorageLockName) || negb (starts_with (entry_name e) kSnapshotFilePrefix)
      then latest_index entries latest
      else match parse_name (entry_name e) false with
           | Err _ => Err kCorruption
           | Ok parsed =>
               fail_if negb (bool_decide (entry_type e = kRegularFile)) with kCorruption;
               latest_index entries (match latest with
                                     | Some l => if parsed >? l then Some parsed else latest
                                     | None => Some parsed
                                     end)
           end
  end.
Definition load_latest : IO (W * SnapshotStorage) (option LoadedMetadataSnapshot) :=
  do* check_usable;
  let* entries := in_directory list_entries in
  let* latest := io_pure (latest_index entries None) in
  match latest with
  | None => io_ret None
  | Some index => let* loaded := load index in io_ret (Some loaded)
  end.

(** The names that a reclamation removes. *)
Fixpoint obsolete_names (authoritative_index : option LogIndex) (entries : list DirectoryEntry) : result (list FileName) :=
  match entries with
  | [] => Ok []
  | e :: entries =>
      if bool_decide (entry_name e = kStorageLockName) || negb (starts_with (entry_name e) kSnapshotFilePrefix)
      then obsolete_names authoritative_index entries
      else match parse_name (entry_name e) false with
           | Err _ => Err kCorruption
           | Ok parsed =>
               fail_if negb (bool_decide (entry_type e = kRegularFile)) with kCorruption;
               let? names := obsolete_names authoritative_index entries in
               Ok (if bool_decide (authoritative_index = Some parsed) then names else entry_name e :: names)
           end
  end.
Fixpoint remove_obsolete (names : list FileName) : IO W unit :=
  match names with
  | [] => io_ret tt
  | name :: names => do* remove_file name; remove_obsolete names
  end.
(** [fail_reclamation]: a failure is counted and returned. *)
Definition or_fail_reclamation {A} (c : IO (W * SnapshotStorage) A) : IO (W * SnapshotStorage) A :=
  let* r := io_try c in
  match r with
  | Ok a => io_ret a
  | Err status => do* storage_metrics (count_reclamation 0 1); io_fail status
  end.
Definition reclaim_obsolete (authoritative_index : option LogIndex) : IO (W * SnapshotStorage) MetadataSnapshotReclamationReport :=
  do* storage_metrics (count_reclamation 1 0);
  or_fail_reclamation (
    do* check_usable;
    do* (match authoritative_index with Some index => let* _ := load index in io_ret tt | None => io_ret tt end);
    let* entries := in_directory list_entries in
    let* obsolete := io_pure (obsolete_names authoritative_index entries) in
    do* in_directory (remove_obsolete obsolete);
    do* (if bool_decide (obsolete = []) then io_ret tt
         else do* in_directory directory_sync; storage_metrics (count_reclaimed (blen obsolete)));
    io_ret {| rp_authoritative_index := authoritative_index; rp_reclaimed_files := blen obsolete |}).
End storage.
