(* ===== verification/MetadataStorageFacts.v ===== *)
(** What the operations of the snapshot directory do to the disk: names, the effect of an
    installation on every file, whatever call fails, and reclamation. *)
From S2P Require Import Prelude Bytes Reading RaftTypes RaftMembership PosixIo DiskFacts WalPaths.
From S2P Require Import RaftLogFiles RaftLogFileFacts.
From S2P Require Import MetadataSnapshot MetadataSnapshotFacts MetadataStorage.
#[local] Open Scope Z_scope.

(** * Names *)

Definition snapshot_name (index : LogIndex) : FileName := numbered_name kSnapshotFilePrefix index kSnapshotFileSuffix.
Lemma file_name_exact index : segment_number_ok index -> metadata_snapshot_file_name index = Ok (snapshot_name index).
Proof.
  intros Hi. unfold metadata_snapshot_file_name, segment_number_ok in *. rewrite (proj2 (Z.eqb_neq _ _)) by lia.
  pose proof (padded_digits_loop index ltac:(lia)) as E. unfold padded_digits, kSegmentDigits in E. unfold kIndexDigits, snapshot_name, numbered_name.
  rewrite <- E, <- app_assoc. done.
Qed.
Lemma file_name_Ok index name : in_width 64 index -> metadata_snapshot_file_name index = Ok name -> name = snapshot_name index /\ segment_number_ok index.
Proof.
  intros Hw H. assert (Hi : segment_number_ok index).
  { unfold metadata_snapshot_file_name in H. destruct (Z.eqb_spec index 0); [done|]. unfold segment_number_ok. width_lia. }
  rewrite file_name_exact in H by done. injection H as <-. done.
Qed.
Lemma snapshot_name_digits index : segment_number_ok index ->
  digits_value (substr (snapshot_name index) (length kSnapshotFilePrefix) 20) 0 = Some index.
Proof.
  intros Hi. unfold snapshot_name. rewrite numbered_name_digits, digits_value_parse. unfold segment_number_ok in Hi.
  by rewrite parse_digits_loop by (cbn; lia).
Qed.
Lemma length_snapshot_name index : length (snapshot_name index) = 43%nat.
Proof. unfold snapshot_name, numbered_name. rewrite !length_app, length_digits_loop. done. Qed.
(** A final name that parses is the name of its index. *)
Lemma parse_name_sound name index : parse_name name false = Ok index -> name = snapshot_name index /\ segment_number_ok index.
Proof.
  unfold parse_name. cbn [andb]. rewrite orb_false_r.
  change (length kSnapshotFilePrefix + kIndexDigits + length kSnapshotFileSuffix + 0)%nat with 43%nat. intros H.
  destruct (Nat.eqb_spec (length name) 43) as [Hl|]; [|done].
  destruct (starts_with name kSnapshotFilePrefix); [|done]. destruct (starts_with (drop _ name) _); [|done]. cbn [negb orb] in H.
  destruct (digits_value _ 0) as [v|] eqn:Ev; [|done]. destruct (Z.eqb_spec v 0) as [|Hv]; [done|].
  assert (Hok : segment_number_ok v).
  { rewrite digits_value_parse in Ev. destruct (parse_digits _ 0) eqn:Ep; [|done]. injection Ev as ->.
    apply parse_digits_sound in Ep as [? _]. unfold segment_number_ok. lia. }
  rewrite file_name_exact in H by done. destruct (starts_with name (snapshot_name v)) eqn:Es; [|done]. injection H as <-. split; [|done].
  apply starts_with_split in Es. rewrite Es. rewrite drop_ge by (rewrite length_snapshot_name; lia). by rewrite app_nil_r.
Qed.
Lemma parse_name_complete index : segment_number_ok index -> parse_name (snapshot_name index) false = Ok index.
Proof.
  intros Hi. unfold parse_name. cbn [andb]. rewrite orb_false_r, length_snapshot_name.
  change (length kSnapshotFilePrefix + kIndexDigits + length kSnapshotFileSuffix + 0)%nat with 43%nat. change kIndexDigits with 20%nat. cbn [Nat.eqb].
  rewrite snapshot_name_digits by done. rewrite file_name_exact by done. unfold segment_number_ok in Hi. rewrite (proj2 (Z.eqb_neq index 0)) by lia.
  assert (H1 : starts_with (snapshot_name index) kSnapshotFilePrefix = true) by apply starts_with_app.
  assert (H2 : starts_with (drop (length kSnapshotFilePrefix + 20) (snapshot_name index)) kSnapshotFileSuffix = true).
  { unfold snapshot_name, numbered_name. rewrite app_assoc. rewrite drop_app_length' by (rewrite length_app, length_digits_loop; done).
    rewrite <- (app_nil_r kSnapshotFileSuffix) at 1. apply starts_with_app. }
  assert (H3 : starts_with (snapshot_name index) (snapshot_name index) = true) by (rewrite <- (app_nil_r (snapshot_name index)) at 1; apply starts_with_app).
  by rewrite H1, H2, H3.
Qed.
Lemma snapshot_name_inj i j : segment_number_ok i -> segment_number_ok j -> snapshot_name i = snapshot_name j -> i = j.
Proof. intros Hi Hj E. pose proof (parse_name_complete i Hi) as P. rewrite E, parse_name_complete in P by done. by injection P. Qed.
Lemma temporary_not_final name index : temporary_name name = snapshot_name index -> length name = 43%nat -> False.
Proof. intros E Hl. apply (f_equal length) in E. unfold temporary_name in E. rewrite length_app, length_snapshot_name, Hl in E. done. Qed.

(** * What stays *)

(** [keeps d d' n]: the binding of [n] and the contents of its file are the same, and what was synchronised still is. *)
Definition keeps (d d' : Disk) (n : FileName) : Prop :=
  d_names d' !! n = d_names d !! n /\
  (d_synced_names d !! n = d_names d !! n -> d_synced_names d' !! n = d_names d' !! n) /\
  forall ty f, d_names d !! n = Some (ty, f) ->
    d_data d' !! f = d_data d !! f /\ (d_synced d !! f = d_data d !! f -> d_synced d' !! f = d_data d' !! f).
Lemma keeps_refl d n : keeps d d n.
Proof. done. Qed.
Lemma keeps_trans d1 d2 d3 n : keeps d1 d2 n -> keeps d2 d3 n -> keeps d1 d3 n.
Proof.
  intros (A1 & A2 & A3) (B1 & B2 & B3). split; [congruence|]. split; [auto|]. intros ty f Hf. destruct (A3 _ _ Hf) as [C1 C2].
  destruct (B3 ty f) as [D1 D2]; [congruence|]. split; [congruence|auto].
Qed.

(** Everything but one name stays. *)
Definition aside (temp : FileName) (d d' : Disk) : Prop := disk_ok d' /\ forall n, n <> temp -> keeps d d' n.
(** No other name is bound to the file. *)
Definition apart (temp : FileName) (f : PosixFile) (d : Disk) : Prop := forall n e, n <> temp -> d_names d !! n = Some e -> e.2 <> f.

Lemma aside_refl temp d : disk_ok d -> aside temp d d.
Proof. done. Qed.
Lemma aside_trans temp d1 d2 d3 : aside temp d1 d2 -> aside temp d2 d3 -> aside temp d1 d3.
Proof. intros [_ A] [B1 B2]. split; [done|]. intros n Hn. eapply keeps_trans; eauto. Qed.
Lemma aside_remove temp d : disk_ok d -> aside temp d (set_names (delete temp (d_names d)) d).
Proof.
  intros Hd. split.
  - intros n e He. cbn in *. apply lookup_delete_Some in He as [_ He]. by apply Hd in He.
  - intros n Hn. split; cbn; [by rewrite lookup_delete_ne|]. split; [by rewrite lookup_delete_ne|done].
Qed.
Lemma aside_sync_names temp d : disk_ok d -> aside temp d (sync_names d).
Proof. intros Hd. by split. Qed.
Lemma aside_create temp f d d' : disk_ok d -> created temp f d d' -> aside temp d d' /\ apart temp f d'.
Proof.
  intros Hd (Hn & Hf & ->). split; [split|].
  - intros n e He. cbn in *. destruct (decide (e.2 = f)) as [->|Hne]; [by rewrite lookup_insert_eq|]. rewrite lookup_insert_ne by done.
    apply lookup_insert_Some in He as [[<- <-]|[_ He]]; [done|]. by apply Hd in He.
  - intros n Hne. split; cbn; [by rewrite lookup_insert_ne|]. split; [by rewrite lookup_insert_ne|].
    intros ty g Hg. apply Hd in Hg. cbn in Hg. assert (g <> f) by (intros ->; by rewrite Hf in Hg; destruct Hg). by rewrite lookup_insert_ne.
  - intros n e Hne He E. cbn in He. rewrite lookup_insert_ne in He by done. apply Hd in He. rewrite E, Hf in He. by destruct He.
Qed.
Lemma aside_write temp f off src d : disk_ok d -> apart temp f d -> aside temp d (write_disk f off src d) /\ apart temp f (write_disk f off src d).
Proof.
  intros Hd Ha. split; [split|done].
  - intros n e He. cbn in *. apply Hd in He. rewrite lookup_alter. case_decide as E; [|done]. rewrite E. by apply fmap_is_Some.
  - intros n Hn. split; [done|]. split; [done|]. intros ty g Hg. pose proof (Ha _ _ Hn Hg) as Hne. cbn in *. by rewrite lookup_alter_ne.
Qed.
Lemma aside_sync temp f d : disk_ok d -> apart temp f d -> aside temp d (sync_disk f d) /\ apart temp f (sync_disk f d).
Proof.
  intros Hd Ha. split; [split; [done|]|done].
  intros n Hn. split; [done|]. split; [done|]. intros ty g Hg. pose proof (Ha _ _ Hn Hg) as Hne. cbn in *.
  destruct (d_data d !! f); [|done]. by rewrite lookup_insert_ne by done.
Qed.

(** * Triples for the owner *)

Section rules.
Context {W : Type} {HIO : PosixIo W} {HL : PosixLaws W}.

Lemma wp_io_try {V A} (c : IO V A) (v : V) (Q : result A -> V -> Prop) E :
  wp c v (fun a v' => Q (Ok a) v') (fun s v' => s <> kOk -> Q (Err s) v') -> wp (io_try c) v Q E.
Proof. unfold wp, io_try. destruct (c v) as [[a|s] v']; [done|]. intros [Hs H]. by apply H. Qed.
Lemma wp_in_directory {A} (c : IO W A) (w : W) s (Q : A -> W * SnapshotStorage -> Prop) E :
  wp c w (fun a w' => Q a (w', s)) (fun st w' => E st (w', s)) -> wp (in_directory c) (w, s) Q E.
Proof. unfold wp, in_directory. cbn. by destruct (c w) as [[a|st] w']. Qed.
Lemma wp_get_storage (w : W) s (Q : SnapshotStorage -> W * SnapshotStorage -> Prop) E : Q s (w, s) -> wp get_storage (w, s) Q E.
Proof. done. Qed.
Lemma wp_put_storage (w : W) s s' (Q : unit -> W * SnapshotStorage -> Prop) E : Q tt (w, s') -> wp (put_storage s') (w, s) Q E.
Proof. done. Qed.
Lemma wp_storage_metrics f (w : W) s (Q : unit -> W * SnapshotStorage -> Prop) E :
  Q tt (w, set_cleanup_metrics s (f (ss_metrics s))) -> wp (storage_metrics f) (w, s) Q E.
Proof. done. Qed.
Lemma wp_check_usable (w : W) s (Q : unit -> W * SnapshotStorage -> Prop) (E : StatusCode -> W * SnapshotStorage -> Prop) :
  (ss_poison s = kOk -> Q tt (w, s)) -> E kUnavailable (w, s) -> wp check_usable (w, s) Q E.
Proof.
  intros HQ HE. unfold check_usable. apply wp_bind, wp_get_storage. unfold is_ok. case_bool_decide as Hp; cbn [negb]; [by apply wp_ret, HQ|by apply wp_fail].
Qed.
Lemma wp_stop {V A} (b : bool) s (k : IO V A) (v : V) (Q : A -> V -> Prop) (E : StatusCode -> V -> Prop) :
  s <> kOk -> E s v -> (b = false -> wp k v Q E) -> wp (if b then io_fail s else k) v Q E.
Proof. intros Hs HE Hk. destruct b; [by apply wp_fail|by apply Hk]. Qed.

(** ** Loading *)

Definition decodes (config : MetadataSnapshotStorageConfig) (index : LogIndex) (bytes : list byte) (snap : MetadataApplicationSnapshot) : Prop :=
  decode_metadata_application_snapshot_v1 bytes (sc_codec_limits config) = Ok snap /\ as_group_id snap = sc_group_id config /\
  last_included_index (as_raft_snapshot snap) = index.

(** Reading changes nothing, and what it returns lies under the name. *)
Lemma wp_load_file name index (w : W) s :
  wp (load_file name index) (w, s)
    (fun r ws => ss_poison s = kOk /\ ws.2 = s /\ disk ws.1 = disk w /\ exists f, d_names (disk w) !! name = Some (kRegularFile, f) /\
       d_data (disk w) !! f = Some (lm_bytes r) /\ decodes (ss_config s) index (lm_bytes r) (lm_snapshot r))
    (fun _ ws => ws.2 = s /\ disk ws.1 = disk w).
Proof.
  unfold load_file. apply wp_bind, wp_check_usable; [|done]. intros Hp. apply wp_bind, wp_get_storage. cbv zeta.
  apply wp_bind, wp_in_directory. wp_try (law_open name kReadOnly); [|intros ? w1 E1; cbn; split; congruence]. intros f w1 [D1 Hf].
  apply wp_bind, wp_in_directory. wp_try (law_size f); [|intros ? w2 E2; cbn; split; congruence]. intros n w2 [D2 (data & Hdata & ->)].
  apply wp_stop; [done|cbn; split; congruence|]. intros _.
  apply wp_bind, wp_in_directory. wp_try (law_read f 0 (blen data)); [|intros ? w3 E3; cbn; split; congruence]. intros bs w3 [D3 (data' & Hdata' & ->)].
  rewrite D1 in Hdata, D2. rewrite D2 in Hdata', D3. rewrite Hdata in Hdata'. injection Hdata' as <-. rewrite subspan_all by done.
  apply wp_stop; [done|done|]. intros _. apply wp_bind, wp_pure.
  destruct (decode_metadata_application_snapshot_v1 data _) as [snap|st] eqn:Ed.
  - apply wp_stop; [done|done|]. intros G. bool_prop. apply wp_ret. split; [done|]. split; [done|]. split; [done|]. exists f. by split_and!.
  - split; [|done]. intros ->. by apply decode_snapshot_not_ok in Ed.
Qed.

(** ** Installing *)

(** The file [bytes] under [name], complete and synchronised. *)
Definition complete (name : FileName) (bytes : list byte) (d : Disk) : Prop :=
  exists f, d_names d !! name = Some (kRegularFile, f) /\ d_data d !! f = Some bytes /\ d_synced d !! f = Some bytes.

Lemma wp_write_temporary temp snap encoded config (w : W) : disk_ok (disk w) ->
  wp (write_temporary temp snap encoded config) w
    (fun _ w' => aside temp (disk w) (disk w') /\ exists f, d_names (disk w') !! temp = Some (kRegularFile, f) /\
       d_data (disk w') !! f = Some encoded /\ d_synced (disk w') !! f = Some encoded /\ apart temp f (disk w'))
    (fun _ w' => aside temp (disk w) (disk w')).
Proof.
  intros Hd. unfold write_temporary. apply wp_bind. wp_try (law_create temp (sc_file_permissions config)).
  2: { intros _ w1 [->|[f Hc]]; [done|]. by apply aside_create in Hc as [? _]. }
  intros f w1 Hc. destruct (aside_create _ _ _ _ Hd Hc) as [A1 P1]. pose proof Hc as (_ & _ & D1).
  apply wp_bind. wp_try (law_write f 0 encoded).
  2: { intros _ w2 [->|[k ->]]; [done|]. eapply aside_trans; [done|]. by apply aside_write; [apply A1|]. }
  intros _ w2 D2. destruct (aside_write temp f 0 encoded (disk w1) (proj1 A1) P1) as [A2 P2]. rewrite <- D2 in A2, P2.
  assert (A : aside temp (disk w) (disk w2)) by (by eapply aside_trans).
  assert (Hn : d_names (disk w2) !! temp = Some (kRegularFile, f)) by (rewrite D2, D1; cbn; by rewrite lookup_insert_eq).
  assert (Hf : d_data (disk w2) !! f = Some encoded).
  { rewrite D2, D1. cbn. rewrite lookup_alter_eq, lookup_insert_eq. cbn. f_equal. apply (overlay_end [] encoded). }
  apply wp_bind. wp_try (law_size f); [|by intros _ w3 ->]. intros n w3 [D3 _]. apply wp_stop; [done|by rewrite D3|]. intros _.
  apply wp_bind. wp_try (law_read f 0 (blen encoded)); [|by intros _ w4 E4; rewrite E4, D3]. intros bs w4 [D4 _]. rewrite D3 in D4.
  apply wp_stop; [done|by rewrite D4|]. intros _. apply wp_bind, wp_pure.
  destruct (decode_metadata_application_snapshot_v1 bs _) as [x|st] eqn:Ed; [|rewrite D4; split; [|done]; intros ->; by apply decode_snapshot_not_ok in Ed].
  apply wp_stop; [done|by rewrite D4|]. intros _. apply wp_bind. wp_try (law_sync_all f); [|by intros _ w5 E5; rewrite E5, D4].
  intros _ w5 D5. rewrite D4 in D5. destruct (aside_sync temp f (disk w2) (proj1 A) P2) as [A5 P5]. rewrite <- D5 in A5, P5.
  assert (A' : aside temp (disk w) (disk w5)) by (by eapply aside_trans).
  wp_try (law_close_file f); [|by intros _ w6 ->]. intros _ w6 ->. split; [done|]. exists f. split_and!; try done; rewrite D5; cbn; [done|done|].
  rewrite Hf. by rewrite lookup_insert_eq.
Qed.
Lemma wp_clean_temporary temp (w : W) s : disk_ok (disk w) ->
  wp (clean_temporary temp) (w, s) (fun _ ws => aside temp (disk w) (disk ws.1) /\ ws.2 = s) (fun _ ws => aside temp (disk w) (disk ws.1) /\ ws.2 = s).
Proof.
  intros Hd. unfold clean_temporary. apply wp_bind, wp_io_try, wp_in_directory. wp_try (law_remove temp).
  - intros _ w1 [_ D1]. pose proof (aside_remove temp _ Hd) as A1. rewrite <- D1 in A1. apply wp_bind, wp_in_directory.
    wp_try law_directory_sync; [|intros _ w2 D2; cbn; by rewrite D2]. intros _ w2 D2. apply wp_ret. split; [|done].
    eapply aside_trans; [done|]. cbn. rewrite D2. by apply aside_sync_names, A1.
  - intros st w1 D1 Hst. case_bool_decide; [apply wp_ret|apply wp_fail; [done|]]; cbn; by rewrite D1.
Qed.

(** Everything but the temporary and the final name stays; the final name stays or, where it was free, names the complete bytes. *)
Definition installs (temp final : FileName) (encoded : list byte) (d d' : Disk) : Prop :=
  disk_ok d' /\ (forall n, n <> temp -> n <> final -> keeps d d' n) /\
  (keeps d d' final \/ (d_names d !! final = None /\ complete final encoded d')).
Lemma aside_installs temp final encoded d d' : temp <> final -> aside temp d d' -> installs temp final encoded d d'.
Proof. intros Hne [Hd Hk]. split; [done|]. split; [by intros n H1 _; apply Hk|]. by left; apply Hk. Qed.

Lemma renamed_installs temp final encoded d d2 d3 f : temp <> final -> aside temp d d2 -> d_names d2 !! temp = Some (kRegularFile, f) ->
  d_data d2 !! f = Some encoded -> d_synced d2 !! f = Some encoded -> d_names d2 !! final = None ->
  d3 = set_names (<[final := (kRegularFile, f)]> (delete temp (d_names d2))) d2 -> installs temp final encoded d d3 /\ complete final encoded d3.
Proof.
  intros Hne [Hd2 Hk] Hn Hf Hs Hfree ->.
  assert (C : complete final encoded (set_names (<[final := (kRegularFile, f)]> (delete temp (d_names d2))) d2)).
  { exists f. cbn. by rewrite lookup_insert_eq. }
  split; [|done]. split; [|split].
  - intros n e He. cbn in *. apply lookup_insert_Some in He as [[<- <-]|[_ He]]; [by exists encoded|]. apply lookup_delete_Some in He as [_ He]. by apply Hd2 in He.
  - intros n H1 H2. eapply keeps_trans; [by apply Hk|]. split; cbn; [by rewrite lookup_insert_ne, lookup_delete_ne|].
    split; [by rewrite lookup_insert_ne, lookup_delete_ne|done].
  - right. split; [|done]. destruct (Hk final) as (E & _); [done|]. congruence.
Qed.
Lemma installs_sync temp final encoded d d' : installs temp final encoded d d' -> installs temp final encoded d (sync_names d').
Proof.
  intros (H1 & H2 & H3). split; [done|]. split.
  - intros n Hn Hf. eapply keeps_trans; [by apply H2|]. by split.
  - destruct H3 as [H3|[H3 H4]]; [left|by right]. eapply keeps_trans; [done|]. by split.
Qed.

Lemma wp_install_new snap encoded final (w : W) s : disk_ok (disk w) -> temporary_name final <> final ->
  wp (install_new snap encoded final) (w, s)
    (fun r ws => installs (temporary_name final) final encoded (disk w) (disk ws.1) /\ complete final encoded (disk ws.1) /\
       d_synced_names (disk ws.1) = d_names (disk ws.1) /\ im_already_present r = false /\ ss_config ws.2 = ss_config s /\ ss_poison ws.2 = ss_poison s)
    (fun _ ws => installs (temporary_name final) final encoded (disk w) (disk ws.1) /\ ss_config ws.2 = ss_config s /\
       (keeps (disk w) (disk ws.1) final \/ ss_poison ws.2 <> kOk)).
Proof.
  intros Hd Hne. unfold install_new. cbv zeta. set (temp := temporary_name final) in *. apply wp_bind.
  eapply wp_mono; [by apply wp_clean_temporary| |intros _ [w1 s1] [A1 E1]; cbn in *; subst; split; [by apply aside_installs|split; [done|left; by apply A1]]].
  intros b [w1 s1] [A1 E1]. cbn in A1, E1. subst s1.
  assert (Hnext : forall s1, ss_config s1 = ss_config s -> ss_poison s1 = ss_poison s -> wp (let* s := get_storage in
      do* in_directory (write_temporary temp snap encoded (ss_config s)); do* in_directory (rename_no_replace temp final);
      let* synchronized := io_try (in_directory directory_sync) in
      match synchronized with
      | Ok _ => io_ret {| im_last_included_index := last_included_index (as_raft_snapshot snap); im_file_name := final; im_already_present := false |}
      | Err status => do* put_storage (poison_storage s status); io_fail status
      end) (w1, s1)
    (fun r ws => installs temp final encoded (disk w) (disk ws.1) /\ complete final encoded (disk ws.1) /\
       d_synced_names (disk ws.1) = d_names (disk ws.1) /\ im_already_present r = false /\ ss_config ws.2 = ss_config s /\ ss_poison ws.2 = ss_poison s)
    (fun _ ws => installs temp final encoded (disk w) (disk ws.1) /\ ss_config ws.2 = ss_config s /\
       (keeps (disk w) (disk ws.1) final \/ ss_poison ws.2 <> kOk))).
  2: { apply wp_bind. destruct b; [apply wp_storage_metrics|apply wp_ret]; by apply Hnext. }
  intros s1 Hc Hp. apply wp_bind, wp_get_storage, wp_bind, wp_in_directory.
  eapply wp_mono; [apply wp_write_temporary, A1| |intros ? w2 A2; assert (A : aside temp (disk w) (disk w2)) by (by eapply aside_trans);
    split; [by apply aside_installs|split; [done|left; by apply A]]].
  intros _ w2 [A2 (f & Hn & Hf & Hs & Ha)]. assert (A : aside temp (disk w) (disk w2)) by (by eapply aside_trans).
  apply wp_bind, wp_in_directory. wp_try (law_rename temp final); [|intros ? w3 D3; cbn; rewrite D3; split; [by apply aside_installs|split; [done|left; by apply A]]].
  intros _ w3 (e & He & Hfree & D3). rewrite Hn in He. injection He as <-.
  assert (I3 : installs temp final encoded (disk w) (disk w3) /\ complete final encoded (disk w3)).
  { apply renamed_installs with (f := f) (d2 := disk w2); done. }
  destruct I3 as [I3 C3]. apply wp_bind, wp_io_try, wp_in_directory. wp_try law_directory_sync.
  - intros _ w4 D4. apply wp_ret. cbn. rewrite D4. split_and!; try done; try congruence. by apply installs_sync.
  - intros st w4 D4 Hst. apply wp_bind, wp_put_storage, wp_fail; [done|]. cbn. rewrite D4. split; [done|]. split; [done|]. right.
    unfold is_ok. by case_bool_decide.
Qed.

(** The outcome of an installation, whichever call failed: nothing changed, or the encoded
    snapshot was put under its final name as a whole. *)
Lemma wp_install snap (w : W) s : disk_ok (disk w) -> in_width 64 (last_included_index (as_raft_snapshot snap)) ->
  let final := snapshot_name (last_included_index (as_raft_snapshot snap)) in
  wp (install snap) (w, s)
    (fun r ws => exists encoded, encode_metadata_application_snapshot_v1 snap (sc_codec_limits (ss_config s)) = Ok encoded /\
       segment_number_ok (last_included_index (as_raft_snapshot snap)) /\ as_group_id snap = sc_group_id (ss_config s) /\
       ss_config ws.2 = ss_config s /\ ss_poison ws.2 = kOk /\ installs (temporary_name final) final encoded (disk w) (disk ws.1) /\
       if im_already_present r then disk ws.1 = disk w /\ exists f, d_names (disk w) !! final = Some (kRegularFile, f) /\ d_data (disk w) !! f = Some encoded
       else complete final encoded (disk ws.1) /\ d_synced_names (disk ws.1) = d_names (disk ws.1))
    (fun _ ws => disk ws.1 = disk w \/ exists encoded,
       encode_metadata_application_snapshot_v1 snap (sc_codec_limits (ss_config s)) = Ok encoded /\
       segment_number_ok (last_included_index (as_raft_snapshot snap)) /\ as_group_id snap = sc_group_id (ss_config s) /\
       installs (temporary_name final) final encoded (disk w) (disk ws.1) /\ (keeps (disk w) (disk ws.1) final \/ ss_poison ws.2 <> kOk)).
Proof.
  intros Hd Hw final. unfold install. apply wp_bind, wp_check_usable; [|by left]. intros Hp. apply wp_bind, wp_get_storage. cbv zeta.
  apply wp_stop; [done|by left|]. intros G. bool_prop. apply wp_bind, wp_pure.
  destruct (encode_metadata_application_snapshot_v1 snap _) as [encoded|st] eqn:Ee; [|split; [intros ->; by apply encode_snapshot_not_ok in Ee|by left]].
  apply wp_bind, wp_pure. destruct (metadata_snapshot_file_name _) as [name|st] eqn:En.
  2: { unfold metadata_snapshot_file_name in En. destruct (_ =? 0); [|done]. injection En as <-. split; [done|by left]. }
  apply file_name_Ok in En as [-> Hi]; [|done]. fold final.
  assert (Hne : temporary_name final <> final) by (intros E; eapply temporary_not_final; [exact E|apply length_snapshot_name]).
  apply wp_bind, wp_io_try. eapply wp_mono; [apply wp_load_file| |].
  - intros r [w1 s1] (_ & E1 & D1 & f & Hn & Hf & _). cbn in E1, D1. subst s1. apply wp_stop; [done|by left|]. intros G1. bool_prop.
    rewrite G1 in Hf. apply wp_ret. exists encoded. cbn. rewrite D1. split_and!; try done; [|by exists f]. by apply aside_installs.
  - intros st [w1 s1] [E1 D1] Hst. cbn in E1, D1. subst s1. apply wp_stop; [done|by left|]. intros _.
    eapply wp_mono; [apply (wp_install_new snap encoded final w1 s); [by rewrite D1|done]| |].
    + intros r [w2 s2] (I & C & N & P & Cf & Po). rewrite D1 in I. exists encoded. rewrite P. split_and!; try done. congruence.
    + intros st' [w2 s2] (I & _ & K). rewrite D1 in I, K. right. by exists encoded.
Qed.

(** ** Loading again *)

(** The snapshot of [index] lies under its name. *)
Definition stored (config : MetadataSnapshotStorageConfig) (index : LogIndex) (snap : MetadataApplicationSnapshot) (d : Disk) : Prop :=
  exists f bytes, d_names d !! snapshot_name index = Some (kRegularFile, f) /\ d_data d !! f = Some bytes /\ decodes config index bytes snap.

Lemma wp_load_live config index snap (w : W) s : reliable w -> segment_number_ok index -> stored config index snap (disk w) ->
  ss_config s = config -> ss_poison s = kOk ->
  wp (load index) (w, s) (fun r ws => lm_snapshot r = snap /\ disk ws.1 = disk w /\ ws.2 = s) never.
Proof.
  intros Hr Hi (f & bytes & Hn & Hf & Hdec & Hg & Hx) <- Hp. unfold load. rewrite file_name_exact by done. apply wp_bind, wp_pure. unfold load_file.
  apply wp_bind. unfold check_usable. apply wp_bind, wp_get_storage. rewrite Hp. change (is_ok kOk) with true. cbn [negb]. apply wp_ret.
  apply wp_bind, wp_get_storage. cbv zeta. apply wp_bind, wp_in_directory. wp_call (law_open (snapshot_name index) kReadOnly); [done|by exists f|].
  intros g w1 [D1 Hg1] R1. rewrite Hn in Hg1. injection Hg1 as <-. apply wp_bind, wp_in_directory. wp_call (law_size f); [done|by rewrite D1, Hf|].
  intros n w2 [D2 (data & Hdata & ->)] R2. rewrite D1 in D2, Hdata. rewrite Hf in Hdata. injection Hdata as <-.
  destruct (decode_snapshot_sound _ _ _ Hdec) as (Hl & minor & _ & Hv & ->). destruct (snapshot_limits_bounds _ Hl) as (B1 & _).
  assert (Hb : blen (snapshot_frame minor snap) <= ml_maximum_snapshot_bytes (sc_codec_limits (ss_config s))).
  { rewrite length_snapshot_frame by apply Hv. apply Hv. }
  rewrite !gtb_false by lia. cbn [orb]. apply wp_bind, wp_in_directory. wp_call (law_read f 0 (blen (snapshot_frame minor snap))); [done|rewrite D2, Hf; split; [done|lia]|].
  intros bs w3 [D3 (data & Hdata & ->)] R3. rewrite D2 in D3, Hdata. rewrite Hf in Hdata. injection Hdata as <-. rewrite subspan_all by done.
  rewrite Z.eqb_refl. cbn [negb]. apply wp_bind, wp_pure. rewrite Hdec, bool_decide_eq_true_2, (proj2 (Z.eqb_eq _ _)) by done. cbn [negb orb]. by apply wp_ret.
Qed.

(** A durable snapshot: under a synchronised name, in a synchronised file. *)
Definition durable (config : MetadataSnapshotStorageConfig) (index : LogIndex) (snap : MetadataApplicationSnapshot) (d : Disk) : Prop :=
  exists f bytes, d_names d !! snapshot_name index = Some (kRegularFile, f) /\ d_synced_names d !! snapshot_name index = Some (kRegularFile, f) /\
    d_data d !! f = Some bytes /\ d_synced d !! f = Some bytes /\ decodes config index bytes snap.
Lemma durable_stored config index snap d : durable config index snap d -> stored config index snap d.
Proof. intros (f & bytes & H1 & _ & H2 & _ & H3). by exists f, bytes. Qed.
Lemma durable_crash config index snap d d' : durable config index snap d -> crash d d' -> stored config index snap d'.
Proof.
  intros (f & bytes & H1 & H2 & H3 & H4 & H5) [C1 C2 _]. exists f, bytes. split; [rewrite C1; congruence|]. split; [|done].
  destruct (C2 f bytes H3) as (m & Hm & Hle). rewrite Hm. f_equal. apply take_ge. by apply Hle.
Qed.
Lemma keeps_stored config index snap d d' : keeps d d' (snapshot_name index) -> stored config index snap d -> stored config index snap d'.
Proof. intros (K1 & _ & K3) (f & bytes & H1 & H2 & H3). exists f, bytes. split; [congruence|]. split; [|done]. destruct (K3 _ _ H1). congruence. Qed.
Lemma keeps_durable config index snap d d' : keeps d d' (snapshot_name index) -> durable config index snap d -> durable config index snap d'.
Proof.
  intros (K1 & K2 & K3) (f & bytes & H1 & H2 & H3 & H4 & H5). exists f, bytes. destruct (K3 _ _ H1) as [K4 K5].
  split; [congruence|]. split; [rewrite K2 by congruence; congruence|]. split; [congruence|]. split; [rewrite K5 by congruence; congruence|done].
Qed.

(** ** Opening *)

(** The names a process leaves alone when it opens the directory. *)
Definition not_temporary (n : FileName) : Prop := n <> kStorageLockName /\ length n <> 47%nat.
Lemma parses_temporary_length n : parses n true = true -> length n = 47%nat.
Proof.
  unfold parses, parse_name. intros H.
  change (length kSnapshotFilePrefix + kIndexDigits + length kSnapshotFileSuffix + length kSnapshotTemporarySuffix)%nat with 47%nat in H.
  by destruct (Nat.eqb_spec (length n) 47).
Qed.
Lemma snapshot_name_not_temporary index : not_temporary (snapshot_name index).
Proof. split; [|by rewrite length_snapshot_name]. intros E. apply (f_equal length) in E. by rewrite length_snapshot_name in E. Qed.

Lemma wp_remove_temporaries entries : forall removed (w : W), disk_ok (disk w) ->
  wp (remove_temporaries entries removed) w (fun _ w' => disk_ok (disk w') /\ forall n, not_temporary n -> keeps (disk w) (disk w') n) anything.
Proof.
  induction entries as [|e entries IH]; intros removed w Hd; cbn [remove_temporaries]; [by apply wp_ret|].
  destruct (_ || _); [by apply IH|]. apply wp_stop; [done|done|]. intros G. bool_prop. apply wp_bind. wp_try (law_remove (entry_name e)); [|done].
  intros _ w1 [_ D1]. pose proof (aside_remove (entry_name e) _ Hd) as [Hd1 A1]. rewrite <- D1 in Hd1, A1.
  eapply wp_mono; [by apply IH| |done]. intros _ w2 [Hd2 A2]. split; [done|]. intros n Hn. eapply keeps_trans; [|by apply A2]. apply A1.
  intros ->. apply (proj2 Hn). by apply parses_temporary_length.
Qed.
Lemma wp_open_with config create_lock (w : W) : disk_ok (disk w) ->
  wp (open_with config create_lock) w
    (fun s w' => ss_config s = config /\ ss_poison s = kOk /\ disk_ok (disk w') /\ forall n, not_temporary n -> keeps (disk w) (disk w') n) anything.
Proof.
  intros Hd. unfold open_with. match goal with |- wp (fun w => ?c w) _ _ _ => change (wp c w (fun s w' => ss_config s = config /\ ss_poison s = kOk /\ disk_ok (disk w') /\
    forall n, not_temporary n -> keeps (disk w) (disk w') n) anything) end.
  apply wp_stop; [done|done|]. intros _. apply wp_bind. wp_try (law_open_directory (sc_directory_path config)); [|done]. intros _ w1 D1. apply wp_bind.
  assert (Hlock : wp (if create_lock then acquire_exclusive_lock kStorageLockName (sc_file_permissions config) else acquire_existing_exclusive_lock kStorageLockName) w1
    (fun _ w2 => disk_ok (disk w2) /\ forall n, not_temporary n -> keeps (disk w) (disk w2) n) anything).
  { destruct create_lock.
    - wp_try (law_lock kStorageLockName (sc_file_permissions config)); [|done]. intros _ w2 [[D2 _]|[f Hc]]; rewrite D1 in *; [rewrite D2; done|].
      destruct (aside_create _ _ _ _ Hd Hc) as [[Hd2 A2] _]. split; [done|]. intros n [Hn _]. by apply A2.
    - wp_try (law_existing_lock kStorageLockName); [|done]. intros _ w2 [D2 _]. by rewrite D2, D1. }
  eapply wp_mono; [exact Hlock| |done]. intros _ w2 [Hd2 A2].
  assert (Hclean : wp cleanup_temporaries (w2, new_storage config) (fun _ ws => ss_config ws.2 = config /\ ss_poison ws.2 = kOk /\ disk_ok (disk ws.1) /\
      forall n, not_temporary n -> keeps (disk w) (disk ws.1) n) anything).
  { unfold cleanup_temporaries. apply wp_bind, wp_in_directory. wp_try law_list_entries; [|done]. intros entries w3 [D3 _]. rewrite <- D3 in Hd2, A2.
    apply wp_bind, wp_in_directory. eapply wp_mono; [by apply wp_remove_temporaries| |done]. intros removed w4 [Hd4 A4].
    assert (A : forall n, not_temporary n -> keeps (disk w) (disk w4) n) by (intros n Hn; eapply keeps_trans; [by apply A2|by apply A4]).
    destruct (_ =? 0); [by apply wp_ret|]. apply wp_bind, wp_in_directory. wp_try law_directory_sync; [|done]. intros _ w5 D5. apply wp_storage_metrics. cbn.
    rewrite D5. split_and!; try done. intros n Hn. eapply keeps_trans; [by apply A|]. by split. }
  revert Hclean. unfold wp. by destruct (cleanup_temporaries (w2, new_storage config)) as [[[]|st] [w3 s3]].
Qed.

(** ** Reclamation *)

(** Of [names] some are gone; everything else stays. *)
Definition gone (names : list FileName) (d d' : Disk) : Prop :=
  disk_ok d' /\ forall n, keeps d d' n \/ (n ∈ names /\ d_names d' !! n = None).
Lemma gone_trans names d1 d2 d3 : gone names d1 d2 -> gone names d2 d3 -> gone names d1 d3.
Proof.
  intros [_ A] [Hd B]. split; [done|]. intros n. destruct (B n) as [Kb|?]; [|by right]. destruct (A n) as [Ka|[Hn E]]; [left; by eapply keeps_trans|].
  right. split; [done|]. destruct Kb as (-> & _). done.
Qed.
Lemma gone_sync names d d' : gone names d d' -> gone names d (sync_names d').
Proof. intros [Hd A]. split; [done|]. intros n. destruct (A n) as [K|?]; [|by right]. left. eapply keeps_trans; [done|]. by split. Qed.
Lemma wp_remove_obsolete names : forall (w : W), disk_ok (disk w) ->
  wp (remove_obsolete names) w (fun _ w' => gone names (disk w) (disk w') /\ forall n, n ∈ names -> d_names (disk w') !! n = None)
    (fun _ w' => gone names (disk w) (disk w')).
Proof.
  induction names as [|name names IH]; intros w Hd; cbn [remove_obsolete].
  { apply wp_ret. split; [split; [done|by left]|]. by intros n ?%not_elem_of_nil. }
  apply wp_bind. wp_try (law_remove name); [|intros _ w1 ->; split; [done|by left]]. intros _ w1 [_ D1].
  pose proof (aside_remove name _ Hd) as [Hd1 A1]. rewrite <- D1 in Hd1, A1.
  assert (G1 : gone (name :: names) (disk w) (disk w1)).
  { split; [done|]. intros n. destruct (decide (n = name)) as [->|Hn]; [|by left; apply A1]. right. split; [by left|]. rewrite D1. cbn. by rewrite lookup_delete_eq. }
  assert (Hmore : forall w2, gone names (disk w1) (disk w2) -> gone (name :: names) (disk w) (disk w2)).
  { intros w2 [Hd2 G2]. eapply gone_trans; [done|]. split; [done|]. intros n. destruct (G2 n) as [?|[? ?]]; [by left|]. right. by split; [right|]. }
  eapply wp_mono; [by apply IH| |intros ? w2 G2; by apply Hmore]. intros _ w2 [G2 N2]. split; [by apply Hmore|].
  intros n [->|Hn]%elem_of_cons; [|by apply N2]. destruct (proj2 G2 name) as [(-> & _)|[_ ?]]; [|done]. rewrite D1. cbn. by rewrite lookup_delete_eq.
Qed.

(** The names that are collected are those of other snapshots, and nothing else carries the prefix. *)
Lemma obsolete_names_Ok authoritative entries : forall names, obsolete_names authoritative entries = Ok names ->
  (forall n, n ∈ names -> exists j, n = snapshot_name j /\ segment_number_ok j /\ authoritative <> Some j) /\
  (forall e, e ∈ entries -> starts_with (entry_name e) kSnapshotFilePrefix = true -> entry_name e <> kStorageLockName ->
     exists j, entry_name e = snapshot_name j /\ (authoritative = Some j \/ entry_name e ∈ names)).
Proof.
  induction entries as [|e entries IH]; intros names H; cbn [obsolete_names] in H.
  { injection H as <-. split; [by intros ? ?%not_elem_of_nil|by intros ? ?%not_elem_of_nil]. }
  destruct (_ || _) eqn:G.
  { destruct (IH _ H) as [I1 I2]. split; [done|]. intros x [->|Hx]%elem_of_cons Hs Hl; [|by apply I2]. rewrite Hs in G. cbn [negb] in G.
    rewrite orb_false_r in G. by apply bool_decide_eq_true in G. }
  destruct (parse_name (entry_name e) false) as [j|] eqn:Ep; [|done]. apply parse_name_sound in Ep as [En Hj]. guard_inv H.
  apply rbind_Ok in H as (ns & E & H). injection H as <-. destruct (IH _ E) as [I1 I2]. case_bool_decide as Ha; split.
  - done.
  - intros x [->|Hx]%elem_of_cons Hs Hl; [exists j; by split; [|left]|by apply I2].
  - intros n [->|Hn]%elem_of_cons; [by exists j|by apply I1].
  - intros x [->|Hx]%elem_of_cons Hs Hl; [exists j; split; [done|right; left]|]. destruct (I2 x Hx Hs Hl) as (k & ? & [?|?]); exists k; split; try done; [by left|right; by right].
Qed.

Lemma obsolete_names_not_ok authoritative entries : obsolete_names authoritative entries <> Err kOk.
Proof.
  induction entries as [|e entries IH]; cbn [obsolete_names]; [done|]. destruct (_ || _); [done|]. destruct (parse_name _ _); [|done].
  destruct (negb _); [done|]. by apply rbind_err_not_ok.
Qed.

(** A file that is not another snapshot stays. *)
Definition reclaims (authoritative : option LogIndex) (d d' : Disk) : Prop :=
  disk_ok d' /\ forall n, keeps d d' n \/ (d_names d' !! n = None /\ exists j, n = snapshot_name j /\ segment_number_ok j /\ authoritative <> Some j).
Lemma wp_reclaim authoritative (w : W) s : disk_ok (disk w) ->
  wp (reclaim_obsolete authoritative) (w, s)
    (fun _ ws => reclaims authoritative (disk w) (disk ws.1) /\ ss_config ws.2 = ss_config s /\
       forall n e, d_names (disk ws.1) !! n = Some e -> starts_with n kSnapshotFilePrefix = true -> exists j, authoritative = Some j /\ n = snapshot_name j)
    (fun _ ws => reclaims authoritative (disk w) (disk ws.1) /\ ss_poison ws.2 = ss_poison s).
Proof.
  intros Hd. unfold reclaim_obsolete. apply wp_bind, wp_storage_metrics. set (s0 := set_cleanup_metrics _ _).
  assert (R0 : reclaims authoritative (disk w) (disk w)) by (by split; [|left]).
  unfold or_fail_reclamation. apply wp_bind, wp_io_try.
  match goal with |- wp ?c _ ?Q ?E => enough (Hbody : wp c (w, s0)
    (fun _ ws => reclaims authoritative (disk w) (disk ws.1) /\ ss_config ws.2 = ss_config s /\
       forall n e, d_names (disk ws.1) !! n = Some e -> starts_with n kSnapshotFilePrefix = true -> exists j, authoritative = Some j /\ n = snapshot_name j)
    (fun _ ws => reclaims authoritative (disk w) (disk ws.1) /\ ss_poison ws.2 = ss_poison s)) end.
  { eapply wp_mono; [exact Hbody| |]; [by intros a [w1 s1] H; apply wp_ret|]. intros st [w1 s1] [R P] Hst. apply wp_bind, wp_storage_metrics, wp_fail; [done|]. by split. }
  apply wp_bind, wp_check_usable; [|done]. intros Hp. apply wp_bind.
  assert (Hload : wp (match authoritative with Some index => let* _ := load index in io_ret tt | None => io_ret tt end) (w, s0)
    (fun _ ws => disk ws.1 = disk w /\ ws.2 = s0) (fun _ ws => disk ws.1 = disk w /\ ws.2 = s0)).
  { destruct authoritative as [index|]; [|by apply wp_ret]. apply wp_bind. unfold load. apply wp_bind, wp_pure.
    destruct (metadata_snapshot_file_name index) as [name|st] eqn:En; [|unfold metadata_snapshot_file_name in En; destruct (_ =? 0); [injection En as <-|]; done].
    eapply wp_mono; [apply wp_load_file| |]; [intros r [w1 s1] (_ & E1 & D1 & _); by apply wp_ret|by intros st [w1 s1] [E1 D1]]. }
  eapply wp_mono; [exact Hload| |intros st [w1 s1] [D1 E1]; cbn in *; subst s1; by rewrite D1]. intros _ [w1 s1] [D1 E1]. cbn in D1, E1. subst s1.
  apply wp_bind, wp_in_directory. wp_try law_list_entries; [|intros ? w2 D2; cbn; by rewrite D2, D1]. intros entries w2 [D2 Hl].
  apply wp_bind, wp_pure. destruct (obsolete_names authoritative entries) as [names|st] eqn:Eo.
  2: { cbn. rewrite D2, D1. split; [|done]. intros ->. by apply obsolete_names_not_ok in Eo. }
  destruct (obsolete_names_Ok _ _ _ Eo) as [O1 O2]. apply wp_bind, wp_in_directory.
  assert (Hg : forall w3, gone names (disk w2) (disk w3) -> reclaims authoritative (disk w) (disk w3)).
  { intros w3 [Hd3 G3]. split; [done|]. intros n. rewrite <- D1, <- D2. destruct (G3 n) as [?|[Hn ?]]; [by left|]. right. split; [done|by apply O1]. }
  eapply wp_mono; [apply wp_remove_obsolete; by rewrite D2, D1| |intros ? w3 G3; by split; [apply Hg|]].
  intros _ w3 [G3 N3].
  assert (Hleft : forall n e, d_names (disk w3) !! n = Some e -> starts_with n kSnapshotFilePrefix = true -> exists j, authoritative = Some j /\ n = snapshot_name j).
  { intros n [ty f] He Hs. destruct (proj2 G3 n) as [K|[_ E]]; [|congruence]. assert (He' : d_names (disk w1) !! n = Some (ty, f)) by (destruct K as [K _]; congruence).
    destruct (O2 {| entry_name := n; entry_type := ty |}) as (j & En & [?|Hn]); [rewrite Hl; apply elem_listing; by exists f|done| |by exists j|cbn in Hn; apply N3 in Hn; congruence].
    intros E. cbn in E. rewrite E in Hs. by vm_compute in Hs. }
  apply wp_bind. case_bool_decide.
  - apply wp_ret, wp_ret. by split; [apply Hg|].
  - apply wp_bind, wp_in_directory. wp_try law_directory_sync; [|intros ? w4 D4; cbn; rewrite D4; by split; [apply Hg|]]. intros _ w4 D4. apply wp_storage_metrics, wp_ret. cbn.
    split; [apply Hg; rewrite D4; by apply gone_sync|]. rewrite D4. by split.
Qed.
End rules.
