(* ===== verification/MetadataStorageTheorems.v ===== *)
(** What the snapshot files of the metadata group promise: their format, installation as a
    whole or not at all, survival of crashes, and reclamation. *)
From S2P Require Import Prelude Bytes Crc32c Reading RaftTypes RaftMembership PosixIo DiskFacts.
From S2P Require Import WalPaths RaftLogFiles RaftLogFileFacts.
From S2P Require Import MetadataCodec SchemaCodec MetadataSnapshot MetadataSnapshotFacts MetadataStorage.
From S2P Require Import MetadataStorageFacts.
#[local] Open Scope Z_scope.

(** * The format *)

(** A format version that holds the entries and the one the encoder picks agree on what is valid. *)
Lemma entries_ok_minor limits metadata minor entries : 0 <= minor <= 1 -> forall pi pt,
  entries_ok limits metadata minor pi pt entries ->
  snapshot_minor entries <= minor /\ forall m, snapshot_minor entries <= m -> entries_ok limits metadata m pi pt entries.
Proof.
  intros Hm. induction entries as [|e entries IH]; intros pi pt Hok; [cbn; unfold snapshot_minor, kMinor0; cbn; split; [lia|done]|].
  destruct Hok as [[Hp Hl] Hok]. destruct (IH _ _ Hok) as [I1 I2]. unfold snapshot_minor in *. cbn [existsb].
  unfold entry_position_invalid in Hp. apply orb_false_iff in Hp as [Hp Ht]. apply negb_false_iff in Ht. unfold valid_entry_type, kMinor1, kMinor0 in *.
  assert (Hty : forall m, (if (se_type e =? kRaftTabletGroupBindingEntryType) then 1 else 0) <= m ->
    entry_ok limits metadata m pi pt e).
  { intros m Hmm. split; [|done]. unfold entry_position_invalid. rewrite Hp. cbn [orb]. apply negb_false_iff. unfold valid_entry_type, kMinor1.
    destruct (se_type e =? kRaftMetadataCommandEntryType); [done|]. destruct (se_type e =? kRaftSchemaDefinitionEntryType); [done|]. cbn [orb] in *.
    destruct (se_type e =? kRaftTabletGroupBindingEntryType); [|by rewrite andb_false_r in Ht]. rewrite andb_true_r, Z.geb_leb. apply Z.leb_le. lia. }
  destruct (se_type e =? kRaftTabletGroupBindingEntryType) eqn:Eb; cbn [orb].
  - split.
    + revert Ht. apply Z.eqb_eq in Eb. rewrite Eb. cbn [Z.eqb orb]. rewrite andb_true_r, Z.geb_leb. intros Ht. apply Z.leb_le in Ht. done.
    + intros m Hmm. split; [by apply Hty|]. apply I2. destruct (existsb _ entries); lia.
  - split; [done|]. intros m Hmm. split; [apply Hty; destruct (existsb _ entries); lia|]. by apply I2.
Qed.

(** C34. Snapshot files: a snapshot that encodes decodes to itself and its file is within the
    limit; whatever byte string decodes to a snapshot is the file of that snapshot in one of
    the two format versions, and encoding the snapshot again gives that file in the smallest
    version that can hold it. *)
Theorem metadata_snapshot_codec limits s bytes :
  snapshot_typed s -> encode_metadata_application_snapshot_v1 s limits = Ok bytes ->
  decode_metadata_application_snapshot_v1 bytes limits = Ok s /\
  blen bytes <= ml_maximum_snapshot_bytes limits /\
  (forall bytes' s', decode_metadata_application_snapshot_v1 bytes' limits = Ok s' ->
    exists minor, snapshot_minor (as_entries s') <= minor <= 1 /\ bytes' = snapshot_frame minor s' /\
      encode_metadata_application_snapshot_v1 s' limits = Ok (snapshot_frame (snapshot_minor (as_entries s')) s')) /\
  (forall s', snapshot_typed s' -> encode_metadata_application_snapshot_v1 s' limits = Ok bytes -> s' = s).
Proof.
  assert (Hmin : forall es, 0 <= snapshot_minor es <= 1) by (intros es; unfold snapshot_minor, kMinor0, kMinor1; destruct (existsb _ es); lia).
  intros Ht He. destruct (encode_snapshot_inv _ _ _ Ht He) as [Hl Hv]. rewrite (encode_snapshot_exact _ _ Hl Hv) in He. apply Ok_inj in He as <-.
  pose proof (decode_snapshot_complete _ _ _ Hl (Hmin (as_entries s)) Hv) as Hd. split; [done|]. split; [|split].
  - rewrite length_snapshot_frame by done. apply Hv.
  - intros bytes' s' H. apply decode_snapshot_sound in H as (_ & minor & Hm & (V1 & V2 & V3 & V4 & V5) & ->).
    destruct (entries_ok_minor _ _ _ _ Hm _ _ V3) as [Hle Hok]. exists minor. split; [lia|]. split; [done|]. apply encode_snapshot_exact; [done|].
    split_and!; try done. by apply Hok.
  - intros s' Ht' He. destruct (encode_snapshot_inv _ _ _ Ht' He) as [_ Hv']. rewrite (encode_snapshot_exact _ _ Hl Hv') in He. apply Ok_inj in He.
    pose proof (decode_snapshot_complete _ _ _ Hl (Hmin (as_entries s')) Hv') as Hd'. rewrite He, Hd in Hd'. by apply Ok_inj in Hd'.
Qed.
Lemma sample_snapshot_typed : snapshot_typed sample_application_snapshot.
Proof. unfold snapshot_typed, entry_typed. cbn. split_and!; by repeat constructor. Qed.
Lemma metadata_snapshot_codec_witness : exists bytes,
  encode_metadata_application_snapshot_v1 sample_application_snapshot default_snapshot_limits = Ok bytes /\
  decode_metadata_application_snapshot_v1 bytes default_snapshot_limits = Ok sample_application_snapshot.
Proof.
  destruct (encode_metadata_application_snapshot_v1 sample_application_snapshot default_snapshot_limits) as [bytes|] eqn:E; [|vm_compute in E; discriminate].
  destruct (metadata_snapshot_codec _ _ _ sample_snapshot_typed E) as [Hd _]. exists bytes. split; [done|exact Hd].
Defined.

(** * The directory *)

Section directory.
Context {W : Type} {HIO : PosixIo W} {HL : PosixLaws W}.

Lemma encoded_decodes config snap bytes : snapshot_typed snap -> encode_metadata_application_snapshot_v1 snap (sc_codec_limits config) = Ok bytes ->
  as_group_id snap = sc_group_id config -> decodes config (last_included_index (as_raft_snapshot snap)) bytes snap.
Proof.
  intros Ht He Hg. destruct (encode_snapshot_inv _ _ _ Ht He) as [Hl Hv]. rewrite (encode_snapshot_exact _ _ Hl Hv) in He. apply Ok_inj in He as <-.
  split; [|done]. apply decode_snapshot_complete; [done| |done]. unfold snapshot_minor, kMinor0, kMinor1. destruct (existsb _ _); lia.
Qed.
Lemma crash_all_names d d' : disk_ok d -> d_synced_names d = d_names d -> crash d d' -> disk_ok d'.
Proof.
  intros Hd Hs [C1 C2 _] n e He. rewrite C1 in He by (by rewrite Hs). apply Hd in He as [bs Hbs]. destruct (C2 _ _ Hbs) as (m & -> & _). done.
Qed.
Lemma installs_others temp final encoded config d d' j x : installs temp final encoded d d' -> temp = temporary_name final -> length final = 43%nat ->
  snapshot_name j <> final -> durable config j x d -> durable config j x d'.
Proof.
  intros (_ & Hk & _) -> Hl Hne Hdur. eapply keeps_durable; [|done]. apply Hk; [|done]. intros E. symmetry in E. by eapply temporary_not_final.
Qed.


(** C16. Reclaiming obsolete snapshots, whatever call of the file system fails: the
    authoritative snapshot is untouched and as durable as before, and so is every file that is
    not another snapshot of this directory.  A success leaves no other snapshot behind. *)
Theorem snapshot_reclamation authoritative (w : W) s r w' s' :
  disk_ok (disk w) -> reclaim_obsolete authoritative (w, s) = (r, (w', s')) ->
  (forall n, (forall j, n <> snapshot_name j) -> keeps (disk w) (disk w') n) /\
  (forall index x, authoritative = Some index -> segment_number_ok index ->
    keeps (disk w) (disk w') (snapshot_name index) /\ (durable (ss_config s) index x (disk w) -> durable (ss_config s) index x (disk w'))) /\
  (forall report, r = Ok report -> forall n e, d_names (disk w') !! n = Some e -> starts_with n kSnapshotFilePrefix = true ->
    exists index, authoritative = Some index /\ n = snapshot_name index).
Proof.
  intros Hd E. pose proof (wp_reclaim authoritative w s Hd) as Hw.
  assert (Hr : reclaims authoritative (disk w) (disk w')).
  { destruct r as [report|status]; [by apply (wp_Ok _ _ _ _ _ _ Hw) in E as [? _]|by apply (wp_Err _ _ _ _ _ _ Hw) in E as [_ [? _]]]. }
  destruct Hr as [_ Hk]. split; [|split].
  - intros n Hn. destruct (Hk n) as [?|(_ & j & -> & _)]; [done|]. by destruct (Hn j).
  - intros index x Ha Hok. assert (K : keeps (disk w) (disk w') (snapshot_name index)).
    { destruct (Hk (snapshot_name index)) as [?|(_ & j & Ej & Hj & Hna)]; [done|]. apply snapshot_name_inj in Ej as ->; done. }
    split; [done|]. intros. by eapply keeps_durable.
  - intros report ->. apply (wp_Ok _ _ _ _ _ _ Hw) in E as (_ & _ & Hl). done.
Qed.
End directory.

(** * Runs in memory *)

Definition sample_storage_config : MetadataSnapshotStorageConfig :=
  {| sc_directory_path := [x64]; sc_group_id := replicate 16 x07; sc_codec_limits := default_snapshot_limits; sc_file_permissions := 384 |}.
Definition sample_snapshot_at (index : LogIndex) : MetadataApplicationSnapshot :=
  {| as_group_id := replicate 16 x07;
     as_raft_snapshot := {| last_included_index := index; last_included_term := 3; manifest_generation := index;
       part_set_checksum := replicate 32 x05; configuration_index := 2; snapshot_voters := [1; 2; 3] |};
     as_entries := [ {| se_index := 4; se_term := 3; se_type := 2; se_payload := replicate 5 xff |} ] |}.
(** A new directory in which the snapshot of index 9 is installed. *)
Definition opened : result SnapshotStorage * Memory := open_with sample_storage_config true (on_memory empty_disk).
Definition opened_storage : SnapshotStorage := match opened.1 with Ok s => s | Err _ => new_storage sample_storage_config end.
Definition first_install := install (sample_snapshot_at 9) (opened.2, opened_storage).
(** The crash that keeps exactly the synchronised names. *)
Definition crashed (d : Disk) : Memory := on_memory (set_names (d_synced_names d) d).
Lemma crashed_crash d : crash d (disk (crashed d)).
Proof.
  split; [by cbn; intros name ->|intros f bs Hf; exists (length bs + default 0%nat (length <$> d_synced d !! f))%nat|done].
  cbn. rewrite take_ge by lia. split; [done|]. intros synced ->. cbn. lia.
Qed.
Definition reopened := open_with (ss_config opened_storage) false (crashed (mem_disk first_install.2.1)).

Lemma sample_9_typed : snapshot_typed (sample_snapshot_at 9).
Proof. unfold snapshot_typed, entry_typed. cbn. split_and!; by repeat constructor. Qed.
Lemma opened_disk_ok : disk_ok (disk opened.2).
Proof. apply (wp_Ok _ _ _ _ opened_storage _ (wp_open_with sample_storage_config true (on_memory empty_disk) empty_disk_ok)). vm_compute. reflexivity. Qed.
Lemma pair_part {A B} (p : A * B) a : p.1 = a -> p = (a, p.2).
Proof. by destruct p; cbn; intros ->. Qed.
Lemma pair_parts {A B C} (p : A * (B * C)) a : p.1 = a -> p = (a, (p.2.1, p.2.2)).
Proof. by destruct p as [x [y z]]; cbn; intros ->. Qed.
Definition first_report : InstalledMetadataSnapshot :=
  {| im_last_included_index := 9; im_file_name := snapshot_name 9; im_already_present := false |}.
Lemma first_install_runs : install (sample_snapshot_at 9) (opened.2, opened_storage) = (Ok first_report, (first_install.2.1, first_install.2.2)).
Proof. unfold first_install. apply pair_parts. vm_compute. reflexivity. Qed.
Definition reopened_storage : SnapshotStorage := new_storage sample_storage_config.
Lemma reopened_runs : open_with (ss_config opened_storage) false (crashed (mem_disk first_install.2.1)) = (Ok reopened_storage, reopened.2).
Proof. unfold reopened. apply pair_part. vm_compute. reflexivity. Qed.
Lemma reopened_reliable : reliable reopened.2.
Proof. change (mem_faults reopened.2 = []). vm_compute. reflexivity. Qed.

(** The snapshot of index 12 after that of index 9, and the reclamation of the older one. *)
Definition second_install := install (sample_snapshot_at 12) (first_install.2.1, first_install.2.2).
Definition reclaimed := reclaim_obsolete (Some 12) (second_install.2.1, second_install.2.2).
Definition disk_okb (d : Disk) : bool := forallb (fun p => bool_decide (is_Some (d_data d !! p.2.2))) (map_to_list (d_names d)).
Lemma disk_okb_spec d : disk_okb d = true -> disk_ok d.
Proof.
  intros H n e He. apply elem_of_map_to_list in He. unfold disk_okb in H. rewrite forallb_forall in H.
  apply list_elem_of_In in He. specialize (H _ He). by apply bool_decide_eq_true in H.
Qed.
Lemma second_disk_ok : disk_ok (disk second_install.2.1).
Proof. apply disk_okb_spec. vm_compute. reflexivity. Qed.
Lemma reclaimed_runs : reclaim_obsolete (Some 12) (second_install.2.1, second_install.2.2) =
  (Ok {| rp_authoritative_index := Some 12; rp_reclaimed_files := 1 |}, (reclaimed.2.1, reclaimed.2.2)).
Proof. unfold reclaimed. apply pair_parts. vm_compute. reflexivity. Qed.
Lemma snapshot_reclamation_witness :
  keeps (disk second_install.2.1) (disk reclaimed.2.1) (snapshot_name 12) /\
  forall e, d_names (disk reclaimed.2.1) !! snapshot_name 9 <> Some e.
Proof.
  destruct (snapshot_reclamation (Some 12) second_install.2.1 second_install.2.2 _ _ _ second_disk_ok reclaimed_runs) as (_ & Hk & Hl). split.
  - apply (Hk 12 (sample_snapshot_at 12)); [reflexivity|unfold segment_number_ok; lia].
  - intros e He. destruct (Hl _ eq_refl _ _ He (starts_with_app _ _)) as (j & [= <-] & E). apply snapshot_name_inj in E; unfold segment_number_ok; lia.
Defined.

(** * A snapshot that is adopted without being durable *)

(** The installation of index 12 stops at the synchronisation of the directory. *)
Definition interrupted := install (sample_snapshot_at 12)
  ({| mem_disk := mem_disk first_install.2.1; mem_faults := replicate 9 None ++ [Some (kIoError, 0%nat)] |}, first_install.2.2).
(** The process restarts, finds the file under its final name and adopts it. *)
Definition restarted := open_with sample_storage_config false (on_memory (mem_disk interrupted.2.1)).
Definition adopted := install (sample_snapshot_at 12) (restarted.2, new_storage sample_storage_config).
(** The machine crashes, and a third process opens the directory. *)
Definition powered_on := open_with sample_storage_config false (crashed (mem_disk adopted.2.1)).

(** C40. An installation that was interrupted between the rename and the synchronisation of
    the directory leaves the snapshot under its final name, without that name being durable.
    The next process adopts the file: its installation of the same snapshot returns success
    and says that the snapshot was already there, but it does not synchronise the directory.
    A crash after that success loses the snapshot. *)
Theorem adopted_snapshot_lost :
  interrupted.1 = Err kIoError /\ restarted.1 = Ok (new_storage sample_storage_config) /\
  adopted.1 = Ok {| im_last_included_index := 12; im_file_name := snapshot_name 12; im_already_present := true |} /\
  crash (disk adopted.2.1) (disk (crashed (mem_disk adopted.2.1))) /\
  powered_on.1 = Ok (new_storage sample_storage_config) /\
  (load 12 (powered_on.2, new_storage sample_storage_config)).1 = Err kNotFound /\
  (exists loaded, (load 9 (powered_on.2, new_storage sample_storage_config)).1 = Ok loaded).
Proof. split_and!; [| | |apply crashed_crash| | |eexists]; vm_compute; reflexivity. Qed.
