(* ===== verification/MetadataRuntime.v ===== *)
(** The owner that applies the committed entries of the metadata group:
    include/chronos/raft/metadata_runtime.hpp and src/raft/metadata_runtime.cpp.  It reads the
    group of a durable runtime, whose files live in one directory, and keeps application
    snapshots in another.  The SHA-256 provider is OpenSSL: the digest is a parameter.
    Failing allocations and container capacities are not modelled. *)
From S2P Require Import Prelude Bytes PosixIo RaftTypes RaftMembership RaftNode MultiRaft DurableRuntime.
From S2P Require Import Schema Metadata MetadataCodec SchemaCodec MetadataSnapshot MetadataStorage.
#[local] Open Scope Z_scope.

Record MetadataApplicationReport := {
  mr_first_applied_index : LogIndex; mr_last_applied_index : LogIndex; mr_applied_commands : Z }.
Definition empty_report : MetadataApplicationReport :=
  {| mr_first_applied_index := 0; mr_last_applied_index := 0; mr_applied_commands := 0 |}.
Record MetadataSnapshotCompactionReport := {
  cr_snapshot : SnapshotMetadata; cr_file_name : FileName; cr_application_entries : Z; cr_already_present : bool }.

(** * Digests *)

(** What [metadata_entry_digest] feeds to the digest. *)
Definition digest_domain : list byte := [x43; x48; x52; x4d; x41; x53; x4e; x01].
Definition digest_entry (e : MetadataSnapshotEntry) : list byte :=
  let header := replicate 17 x00 in
  let header := store_le 8 header 0 (se_index e) in
  let header := store_le 8 header 8 (se_term e) in
  let header := store_le 1 header 16 (se_type e) in
  header ++ le_bytes 8 (blen (se_payload e)) ++ se_payload e.
Definition digest_input (entries : list MetadataSnapshotEntry) : list byte :=
  digest_domain ++ concat (digest_entry <$> entries).

(** * Applying entries *)

Inductive Application :=
| NoApplication
| CommandApplication (command : MetadataCommand)
| DefinitionApplication (definition : CatalogTableDefinition)
| BindingApplication (binding : TabletGroupBindingMetadata).

Section applying.
Context (group_id : GroupId) (codec_limits : MetadataCommandCodecLimits) (schema_codec_limits : SchemaDefinitionCodecLimits).

Definition decode_binding_entry (payload : list byte) : result Application :=
  let? binding := decode_tablet_group_binding_v1 payload in
  fail_if bool_decide (tb_group_id binding = group_id) with kInvalidArgument;
  Ok (BindingApplication binding).
(** A round of the first loop of [apply_entries]. *)
Definition decode_log_entry (entry : LogEntry) : result Application :=
  if is_internal_raft_entry_type (entry_type entry) then Ok NoApplication
  else if entry_type entry =? kRaftSchemaDefinitionEntryType then
    let? definition := decode_schema_definition_v1 (entry_payload entry) schema_codec_limits in Ok (DefinitionApplication definition)
  else if entry_type entry =? kRaftTabletGroupBindingEntryType then decode_binding_entry (entry_payload entry)
  else if negb (entry_type entry =? kRaftMetadataCommandEntryType) then Err kNotSupported
  else let? command := decode_metadata_command_v1 (entry_payload entry) codec_limits in Ok (CommandApplication command).
Fixpoint decode_log_entries (entries : list LogEntry) : result (list Application) :=
  match entries with
  | [] => Ok []
  | entry :: entries =>
      let? application := decode_log_entry entry in
      let? applications := decode_log_entries entries in
      Ok (application :: applications)
  end.
Definition apply_application (index : LogIndex) (application : Application) (m : Metadata) : StatusCode * Metadata :=
  match application with
  | CommandApplication command => apply_committed index command m
  | DefinitionApplication definition => apply_committed_schema_definition index definition m
  | BindingApplication binding => apply_committed_tablet_group_binding index binding m
  | NoApplication => apply_internal_noop index m
  end.
Definition report_applied (index : LogIndex) (application : Application) (report : MetadataApplicationReport) : MetadataApplicationReport :=
  {| mr_first_applied_index := mr_first_applied_index report; mr_last_applied_index := index;
     mr_applied_commands := match application with
                            | NoApplication => mr_applied_commands report
                            | _ => u64 (mr_applied_commands report + 1)
                            end |}.
(** The second loop: the machine keeps what was applied before a failure. *)
Fixpoint apply_applications (entries : list LogEntry) (applications : list Application) (report : MetadataApplicationReport) (m : Metadata)
  : result MetadataApplicationReport * Metadata :=
  match entries, applications with
  | entry :: entries, application :: applications =>
      let '(status, m) := apply_application (entry_index entry) application m in
      if is_ok status then apply_applications entries applications (report_applied (entry_index entry) application report) m
      else (Err status, m)
  | _, _ => (Ok report, m)
  end.

(** ** Snapshots *)

Definition decode_snapshot_entry (e : MetadataSnapshotEntry) : result Application :=
  if se_type e =? kRaftMetadataCommandEntryType then
    let? command := decode_metadata_command_v1 (se_payload e) codec_limits in Ok (CommandApplication command)
  else if se_type e =? kRaftSchemaDefinitionEntryType then
    let? definition := decode_schema_definition_v1 (se_payload e) schema_codec_limits in Ok (DefinitionApplication definition)
  else if se_type e =? kRaftTabletGroupBindingEntryType then decode_binding_entry (se_payload e)
  else Err kCorruption.
Fixpoint decode_snapshot_entries (entries : list MetadataSnapshotEntry) : result (list Application) :=
  match entries with
  | [] => Ok []
  | e :: entries =>
      let? application := decode_snapshot_entry e in
      let? applications := decode_snapshot_entries entries in
      Ok (application :: applications)
  end.
(** Internal entries before an application entry are gaps of the snapshot. *)
Definition skip_gap (index : LogIndex) (m : Metadata) : StatusCode * Metadata :=
  if (index >? md_applied m) && (index - md_applied m >? 1) then apply_internal_noops_through (u64 (index - 1)) m else (kOk, m).
Fixpoint replay_snapshot_entries (entries : list MetadataSnapshotEntry) (applications : list Application) (m : Metadata) : StatusCode * Metadata :=
  match entries, applications with
  | e :: entries, application :: applications =>
      let '(advanced, m) := skip_gap (se_index e) m in
      if negb (is_ok advanced) then (advanced, m)
      else
        let '(applied, m) := apply_application (se_index e) application m in
        if negb (is_ok applied) then (applied, m) else replay_snapshot_entries entries applications m
  | _, _ => (kOk, m)
  end.
Definition replay_snapshot (snapshot : MetadataApplicationSnapshot) (m : Metadata) : StatusCode * Metadata :=
  match decode_snapshot_entries (as_entries snapshot) with
  | Err status => (status, m)
  | Ok applications =>
      let '(status, m) := replay_snapshot_entries (as_entries snapshot) applications m in
      if negb (is_ok status) then (status, m)
      else apply_internal_noops_through (last_included_index (as_raft_snapshot snapshot)) m
  end.

(** The loop of [compact_applied_prefix] that collects the entries of a new snapshot. *)
Fixpoint collect_entries (last_included_index : LogIndex) (log : list LogEntry) : result (list MetadataSnapshotEntry) :=
  match log with
  | [] => Ok []
  | entry :: log =>
      if entry_index entry >? last_included_index then Ok []
      else if is_internal_raft_entry_type (entry_type entry) then collect_entries last_included_index log
      else
        fail_if negb (entry_type entry =? kRaftMetadataCommandEntryType) && negb (entry_type entry =? kRaftSchemaDefinitionEntryType)
                && negb (entry_type entry =? kRaftTabletGroupBindingEntryType) with kCorruption;
        let? entries := collect_entries last_included_index log in
        Ok ({| se_index := entry_index entry; se_term := entry_term entry; se_type := entry_type entry; se_payload := entry_payload entry |} :: entries)
  end.
End applying.

(** * The owner *)

Record MetadataMachine := {
  dm_group_id : GroupId; dm_snapshot_storage : option SnapshotStorage; dm_installed_snapshot : option SnapshotMetadata;
  dm_metadata : Metadata; dm_codec_limits : MetadataCommandCodecLimits; dm_schema_codec_limits : SchemaDefinitionCodecLimits;
  dm_failure : StatusCode }.
Definition set_metadata (m : MetadataMachine) (metadata : Metadata) : MetadataMachine :=
  {| dm_group_id := dm_group_id m; dm_snapshot_storage := dm_snapshot_storage m; dm_installed_snapshot := dm_installed_snapshot m;
     dm_metadata := metadata; dm_codec_limits := dm_codec_limits m; dm_schema_codec_limits := dm_schema_codec_limits m; dm_failure := dm_failure m |}.
Definition set_snapshot_storage (m : MetadataMachine) (s : SnapshotStorage) : MetadataMachine :=
  {| dm_group_id := dm_group_id m; dm_snapshot_storage := Some s; dm_installed_snapshot := dm_installed_snapshot m;
     dm_metadata := dm_metadata m; dm_codec_limits := dm_codec_limits m; dm_schema_codec_limits := dm_schema_codec_limits m; dm_failure := dm_failure m |}.
Definition set_installed_snapshot (m : MetadataMachine) (s : SnapshotMetadata) : MetadataMachine :=
  {| dm_group_id := dm_group_id m; dm_snapshot_storage := dm_snapshot_storage m; dm_installed_snapshot := Some s;
     dm_metadata := dm_metadata m; dm_codec_limits := dm_codec_limits m; dm_schema_codec_limits := dm_schema_codec_limits m; dm_failure := dm_failure m |}.
Definition set_machine_failure (m : MetadataMachine) (status : StatusCode) : MetadataMachine :=
  {| dm_group_id := dm_group_id m; dm_snapshot_storage := dm_snapshot_storage m; dm_installed_snapshot := dm_installed_snapshot m;
     dm_metadata := dm_metadata m; dm_codec_limits := dm_codec_limits m; dm_schema_codec_limits := dm_schema_codec_limits m; dm_failure := status |}.

Section owner.
Context {W V : Type} `{PosixIo W} `{PosixIo V}.
Context (sha256 : list byte -> result (list byte)).
(** The runtime with its directory, and the machine with the directory of its snapshots. *)
Abbreviation MachineWorld := ((W * Durable) * (V * MetadataMachine))%type.

Definition metadata_entry_digest (entries : list MetadataSnapshotEntry) : result (list byte) := sha256 (digest_input entries).

Definition get_machine : IO MachineWorld MetadataMachine := fun s => (Ok s.2.2, s).
Definition put_machine (m : MetadataMachine) : IO MachineWorld unit := fun s => (Ok tt, (s.1, (s.2.1, m))).
Definition on_runtime {A} (c : IO (W * Durable) A) : IO MachineWorld A := fun s => let '(r, wd) := c s.1 in (r, (wd, s.2)).
(** The owned snapshot storage; its absence is checked by the callers. *)
Definition on_storage {A} (c : IO (V * SnapshotStorage) A) : IO MachineWorld A := fun s =>
  match dm_snapshot_storage s.2.2 with
  | Some storage => let '(r, (v, storage)) := c (s.2.1, storage) in (r, (s.1, (v, set_snapshot_storage s.2.2 storage)))
  | None => (Err kInternal, s)
  end.
Definition group_node : IO MachineWorld (option Impl) := fun s => (Ok (find_group (d_runtime s.1.2) (dm_group_id s.2.2)), s).

(** [fail]: the first failure is kept and returned. *)
Definition machine_fail {A} (status : StatusCode) : IO MachineWorld A :=
  let* m := get_machine in
  let failure := if is_ok (dm_failure m) then status else dm_failure m in
  do* put_machine (set_machine_failure m failure);
  io_pure (make_unexpected failure).
Definition or_machine_fail {A} (c : IO MachineWorld A) : IO MachineWorld A :=
  let* r := io_try c in
  match r with Ok a => io_ret a | Err status => machine_fail status end.
Definition machine_usable : IO MachineWorld unit :=
  let* m := get_machine in io_check (dm_failure m).

(** A batch with one request: its result must be there and a success. *)
Definition run_request (operation : DurableRaftOperation) : IO MachineWorld (list DurableRaftResult) :=
  let* m := get_machine in
  on_runtime (execute_batch [{| dr_group_id := dm_group_id m; dr_operation := operation; dr_required_leader_term := None |}]).
Definition refused_result (results : list DurableRaftResult) : option StatusCode :=
  match results with
  | [result] => if is_ok (dres_status result) then None else Some (dres_status result)
  | [] => Some kUnavailable
  | result :: _ => Some (dres_status result)
  end.

Definition apply_entries (entries : list LogEntry) (persist_applied : bool) : IO MachineWorld MetadataApplicationReport :=
  match entries with
  | [] => io_ret empty_report
  | first :: _ =>
      let* m := get_machine in
      let* applications :=
        or_machine_fail (io_pure (decode_log_entries (dm_group_id m) (dm_codec_limits m) (dm_schema_codec_limits m) entries)) in
      let report := {| mr_first_applied_index := entry_index first; mr_last_applied_index := 0; mr_applied_commands := 0 |} in
      let '(applied, metadata) := apply_applications entries applications report (dm_metadata m) in
      do* put_machine (set_metadata m metadata);
      let* report := or_machine_fail (io_pure applied) in
      if negb persist_applied then io_ret report
      else
        let* marked := or_machine_fail (run_request (MarkAppliedOperation (mr_last_applied_index report))) in
        match refused_result marked with
        | Some status => machine_fail status
        | None => io_ret report
        end
  end.

Definition apply_snapshot (snapshot : MetadataApplicationSnapshot) : IO MachineWorld unit :=
  let* digest := io_pure (metadata_entry_digest (as_entries snapshot)) in
  stop_if negb (bool_decide (digest = part_set_checksum (as_raft_snapshot snapshot))) with kCorruption;
  let* m := get_machine in
  let '(status, metadata) := replay_snapshot (dm_group_id m) (dm_codec_limits m) (dm_schema_codec_limits m) snapshot (dm_metadata m) in
  do* put_machine (set_metadata m metadata);
  io_check status.

(** The group's snapshot is the one this owner installed. *)
Definition owns_boundary (m : MetadataMachine) (current : SnapshotMetadata) : bool :=
  if last_included_index current =? 0 then bool_decide (dm_installed_snapshot m = None)
  else bool_decide (dm_installed_snapshot m = Some current).

(** The entries of the current snapshot, read back and checked. *)
Definition current_entries (current : SnapshotMetadata) : IO MachineWorld (list MetadataSnapshotEntry) :=
  let* m := get_machine in
  if last_included_index current =? 0 then io_ret []
  else
    let* loaded := or_machine_fail (on_storage (load (last_included_index current))) in
    let snapshot := lm_snapshot loaded in
    if negb (bool_decide (as_group_id snapshot = dm_group_id m)) || negb (bool_decide (as_raft_snapshot snapshot = current))
    then machine_fail kCorruption
    else
      let* digest := io_pure (metadata_entry_digest (as_entries snapshot)) in
      if negb (bool_decide (digest = part_set_checksum current)) then machine_fail kCorruption
      else io_ret (as_entries snapshot).

Definition with_checksum (s : SnapshotMetadata) (digest : list byte) : SnapshotMetadata :=
  {| last_included_index := last_included_index s; last_included_term := last_included_term s;
     manifest_generation := manifest_generation s; part_set_checksum := digest;
     configuration_index := configuration_index s; snapshot_voters := snapshot_voters s |}.

(** The snapshot that is installed next, up to [boundary]. *)
Definition next_snapshot (node : Impl) (boundary : LogEntry) : IO MachineWorld MetadataApplicationSnapshot :=
  let* m := get_machine in
  let current := snapshot (state node) in
  let* next := io_pure (prepare_snapshot_metadata node
    {| last_included_index := entry_index boundary; last_included_term := entry_term boundary;
       manifest_generation := entry_index boundary; part_set_checksum := replicate 32 x00;
       configuration_index := configuration_index current; snapshot_voters := [] |}) in
  let* earlier := current_entries current in
  let* added := or_machine_fail (io_pure (collect_entries (entry_index boundary) (log (state node)))) in
  let entries := earlier ++ added in
  let* digest := io_pure (metadata_entry_digest entries) in
  io_ret {| as_group_id := dm_group_id m; as_raft_snapshot := with_checksum next digest; as_entries := entries |}.

Definition compact_applied_prefix (last_included : LogIndex) : IO MachineWorld MetadataSnapshotCompactionReport :=
  do* machine_usable;
  let* m := get_machine in
  stop_if negb (bool_decide (is_Some (dm_snapshot_storage m))) with kNotSupported;
  let* node := group_node in
  match node with
  | None => machine_fail kUnavailable
  | Some node =>
      let persistent := state node in
      let current := snapshot persistent in
      if negb (owns_boundary m current) then machine_fail kCorruption
      else
        stop_if (last_included <=? last_included_index current) || (last_included >? applied_index persistent)
                || joint_membership_active node with kInvalidArgument;
        let relative_index := last_included - last_included_index current in
        if (relative_index =? 0) || (relative_index >? blen (log persistent)) then machine_fail kCorruption
        else
          match log persistent !! Z.to_nat (relative_index - 1) with
          | None => machine_fail kCorruption
          | Some boundary =>
              if negb (entry_index boundary =? last_included) || (entry_term boundary =? 0) then machine_fail kCorruption
              else if md_applied (dm_metadata m) <? last_included then machine_fail kCorruption
              else
                let* application_snapshot := next_snapshot node boundary in
                let* installed := on_storage (install application_snapshot) in
                let* compacted := or_machine_fail (run_request (CompactSnapshotOperation (as_raft_snapshot application_snapshot))) in
                match refused_result compacted with
                | Some status => io_pure (make_unexpected status)
                | None =>
                    let* node := group_node in
                    match node with
                    | Some node =>
                        if negb (bool_decide (snapshot (state node) = as_raft_snapshot application_snapshot)) then machine_fail kCorruption
                        else
                          let* m := get_machine in
                          do* put_machine (set_installed_snapshot m (as_raft_snapshot application_snapshot));
                          io_ret {| cr_snapshot := as_raft_snapshot application_snapshot; cr_file_name := im_file_name installed;
                                    cr_application_entries := blen (as_entries application_snapshot);
                                    cr_already_present := im_already_present installed |}
                    | None => machine_fail kCorruption
                    end
                end
          end
  end.

(** Applying what the group has committed since. *)
Definition apply_committed_entries : IO MachineWorld MetadataApplicationReport :=
  do* machine_usable;
  let* m := get_machine in
  let* node := group_node in
  match node with
  | None => machine_fail kUnavailable
  | Some node =>
      if negb (owns_boundary m (snapshot (state node)))
      then machine_fail (if last_included_index (snapshot (state node)) =? 0 then kCorruption else kNotSupported)
      else apply_entries (committed_unapplied node) true
  end.

Definition reclaim_obsolete_snapshots : IO MachineWorld MetadataSnapshotReclamationReport :=
  do* machine_usable;
  let* m := get_machine in
  stop_if negb (bool_decide (is_Some (dm_snapshot_storage m))) with kNotSupported;
  let* node := group_node in
  match node with
  | None => machine_fail kUnavailable
  | Some node =>
      let current := snapshot (state node) in
      if negb (owns_boundary m current) then machine_fail (if last_included_index current =? 0 then kCorruption else kNotSupported)
      else on_storage (reclaim_obsolete (if last_included_index current =? 0 then None else Some (last_included_index current)))
  end.

Definition prove_applied_quorum_sync (index : LogIndex) : IO MachineWorld QuorumSyncReceipt :=
  do* machine_usable;
  let* m := get_machine in
  stop_if (index =? 0) || (md_applied (dm_metadata m) <? index) with kUnavailable;
  fun s => (prove_quorum_sync s.1.2 (dm_group_id m) index, s).
End owner.

(** * Recovery *)

Section recovery.
Context {W V : Type} `{PosixIo W} `{PosixIo V}.
Context (sha256 : list byte -> result (list byte)).

Definition new_machine (group_id : GroupId) (storage : option SnapshotStorage) (metadata : Metadata)
  (codec_limits : MetadataCommandCodecLimits) (schema_codec_limits : SchemaDefinitionCodecLimits) : MetadataMachine :=
  {| dm_group_id := group_id; dm_snapshot_storage := storage; dm_installed_snapshot := None; dm_metadata := metadata;
     dm_codec_limits := codec_limits; dm_schema_codec_limits := schema_codec_limits; dm_failure := kOk |}.

(** Loading the snapshot of the group, if it has one. *)
Definition restore_snapshot (persistent : PersistentState) : IO ((W * Durable) * (V * MetadataMachine)) unit :=
  if last_included_index (snapshot persistent) =? 0 then io_ret tt
  else
    let* m := get_machine in
    stop_if negb (bool_decide (is_Some (dm_snapshot_storage m))) with kNotSupported;
    let* loaded := on_storage (load (last_included_index (snapshot persistent))) in
    stop_if negb (bool_decide (as_group_id (lm_snapshot loaded) = dm_group_id m))
            || negb (bool_decide (as_raft_snapshot (lm_snapshot loaded) = snapshot persistent)) with kCorruption;
    do* apply_snapshot sha256 (lm_snapshot loaded);
    let* m := get_machine in
    put_machine (set_installed_snapshot m (snapshot persistent)).

(** The machine, or the error and what it left of the two directories. *)
Definition recover_impl (group_id : GroupId) (storage : option SnapshotStorage) (state_limits : MetadataLimits)
  (codec_limits : MetadataCommandCodecLimits) (schema_codec_limits : SchemaDefinitionCodecLimits)
  (world : (W * Durable) * V) : result MetadataMachine * ((W * Durable) * V) :=
  if is_nil group_id then (Err kInvalidArgument, world)
  else
    match find_group (d_runtime world.1.2) group_id with
    | None => (Err kNotFound, world)
    | Some node =>
        match Metadata_create state_limits with
        | Err status => (Err status, world)
        | Ok metadata =>
            let persistent := state node in
            let snapshot_index := last_included_index (snapshot persistent) in
            if (applied_index persistent <? snapshot_index) || (commit_index persistent <? snapshot_index)
               || (commit_index persistent - snapshot_index >? blen (log persistent))
            then (Err kCorruption, world)
            else
              let committed_suffix := take (Z.to_nat (commit_index persistent - snapshot_index)) (log persistent) in
              let '(r, (wd, (v, m))) :=
                (do* restore_snapshot persistent;
                 apply_entries committed_suffix (applied_index persistent <? commit_index persistent))
                (world.1, (world.2, new_machine group_id storage metadata codec_limits schema_codec_limits)) in
              match r with
              | Ok _ => (Ok m, (wd, v))
              | Err status => (Err status, (wd, v))
              end
        end
    end.
End recovery.
