(* ===== verification/MetadataRuntimeFacts.v ===== *)
(** Replaying a snapshot of application entries does what applying the log it was collected
    from does. *)
From S2P Require Import Prelude Bytes PosixIo DiskFacts RaftTypes RaftMembership RaftNode RaftFacts.
From S2P Require Import MultiRaft DurableRuntime.
From S2P Require Import Schema Metadata MetadataCodec SchemaCodec MetadataSnapshot MetadataSnapshotFacts.
From S2P Require Import MetadataStorage MetadataRuntime.
#[local] Open Scope Z_scope.

(** * Positions *)

Lemma contiguous_cons k e log : contiguous k (e :: log) -> entry_index e = k + 1 /\ contiguous (k + 1) log.
Proof.
  intros H. split; [specialize (H 0%nat e eq_refl); lia|]. intros j x Hx. specialize (H (S j) x Hx). lia.
Qed.
Lemma set_applied_twice m i j : set_applied (set_applied m i) j = set_applied m j.
Proof. done. Qed.
Lemma set_applied_same m : set_applied m (md_applied m) = m.
Proof. by destruct m. Qed.
Lemma in_order_next m : 0 <= md_applied m < max_u64 -> out_of_order (md_applied m + 1) m = false.
Proof.
  intros Hm. unfold out_of_order. rewrite (proj2 (Z.eqb_neq _ 0)) by lia. unfold u64, wrap. rewrite Z.mod_small by lia.
  by rewrite Z.eqb_refl.
Qed.
Lemma noop_next m : 0 <= md_applied m < max_u64 -> apply_internal_noop (md_applied m + 1) m = (kOk, set_applied m (md_applied m + 1)).
Proof. intros Hm. unfold apply_internal_noop. by rewrite in_order_next. Qed.

(** An application that succeeds moves the machine to its index. *)
Lemma apply_application_applied i a m m' : apply_application i a m = (kOk, m') -> md_applied m' = i.
Proof.
  destruct a as [|c|d|b]; cbn.
  - unfold apply_internal_noop. by destruct (out_of_order _ _); intros [= <-].
  - unfold apply_committed. destruct (out_of_order _ _); [by intros [= <-]|]. destruct (match c with NodeCommand _ => _ | _ => _ end) as [st m1].
    destruct (is_ok st) eqn:Es; [by intros [= _ <-]|]. intros [= -> _]. done.
  - unfold apply_committed_schema_definition. repeat case_match; intros [= <-]; done.
  - unfold apply_committed_tablet_group_binding. repeat case_match; intros [= <-]; done.
Qed.

(** * Decoding *)

Section replaying.
Context (group : GroupId) (cl : MetadataCommandCodecLimits) (sl : SchemaDefinitionCodecLimits).

Definition applies (a : Application) : bool := match a with NoApplication => false | _ => true end.
Definition as_snapshot_entry (e : LogEntry) : MetadataSnapshotEntry :=
  {| se_index := entry_index e; se_term := entry_term e; se_type := entry_type e; se_payload := entry_payload e |}.
(** What a snapshot keeps of a log. *)
Definition application_entries (log : list LogEntry) : list MetadataSnapshotEntry :=
  as_snapshot_entry <$> List.filter (fun e => negb (is_internal_raft_entry_type (entry_type e))) log.
Definition known_type (e : LogEntry) : bool :=
  is_internal_raft_entry_type (entry_type e) || (entry_type e =? kRaftMetadataCommandEntryType)
  || (entry_type e =? kRaftSchemaDefinitionEntryType) || (entry_type e =? kRaftTabletGroupBindingEntryType).

(** Collecting stops behind the boundary. *)
Lemma collect_stops n log later : Forall (fun e => n < entry_index e) later -> collect_entries n (log ++ later) = collect_entries n log.
Proof.
  intros Hl. induction log as [|e log IH]; cbn [collect_entries app]; [|by rewrite IH].
  destruct Hl as [|e later He _]; [done|]. cbn [collect_entries]. by rewrite Z.gtb_ltb, (proj2 (Z.ltb_lt _ _)).
Qed.
Lemma collect_exact n log : Forall (fun e => entry_index e <= n) log ->
  collect_entries n log = if forallb known_type log then Ok (application_entries log) else Err kCorruption.
Proof.
  induction 1 as [|e log He Hl IH]; [done|]. cbn [collect_entries forallb]. unfold application_entries. cbn [List.filter].
  rewrite Z.gtb_ltb, (proj2 (Z.ltb_ge _ _)) by lia. unfold known_type at 1. destruct (is_internal_raft_entry_type _); cbn [orb andb negb]; [done|].
  destruct (entry_type e =? _); cbn [negb andb orb]; [by rewrite IH; destruct (forallb _ _)|].
  destruct (entry_type e =? _); cbn [negb andb orb]; [by rewrite IH; destruct (forallb _ _)|].
  destruct (entry_type e =? _); cbn [negb andb orb]; [by rewrite IH; destruct (forallb _ _)|done].
Qed.

Lemma decode_entry_same e : known_type e = true -> is_internal_raft_entry_type (entry_type e) = false ->
  decode_snapshot_entry group cl sl (as_snapshot_entry e) = decode_log_entry group cl sl e.
Proof.
  unfold known_type, decode_snapshot_entry, decode_log_entry. cbn [as_snapshot_entry se_type se_payload]. intros Hk Hi. rewrite Hi in *. cbn [orb] in Hk.
  destruct (Z.eqb_spec (entry_type e) kRaftMetadataCommandEntryType) as [->|]; [done|].
  destruct (entry_type e =? kRaftSchemaDefinitionEntryType); [done|]. cbn [orb] in Hk. by rewrite Hk.
Qed.
Lemma decode_entry_applies e a : is_internal_raft_entry_type (entry_type e) = false -> decode_log_entry group cl sl e = Ok a -> applies a = true.
Proof.
  unfold decode_log_entry, decode_binding_entry. intros -> H. destruct (entry_type e =? _).
  - destruct (decode_schema_definition_v1 _ _); cbn in H; [by injection H as <-|done].
  - destruct (entry_type e =? _).
    + destruct (decode_tablet_group_binding_v1 _); cbn in H; [|done]. case_bool_decide; [done|]. by injection H as <-.
    + destruct (negb _); [done|]. destruct (decode_metadata_command_v1 _ _); cbn in H; [by injection H as <-|done].
Qed.
Lemma decode_collected log : forallb known_type log = true ->
  decode_snapshot_entries group cl sl (application_entries log) =
  let? apps := decode_log_entries group cl sl log in Ok (List.filter applies apps).
Proof.
  induction log as [|e log IH]; [done|]. cbn [forallb]. intros [Hk Hl]%andb_true_iff. specialize (IH Hl). unfold application_entries in *.
  cbn [List.filter decode_log_entries]. destruct (is_internal_raft_entry_type (entry_type e)) eqn:Hi; cbn [negb].
  - unfold decode_log_entry. rewrite Hi. cbn [rbind]. rewrite IH. destruct (decode_log_entries _ _ _ _) as [apps|s]; cbn; [done|]. by destruct s.
  - rewrite fmap_cons. cbn [decode_snapshot_entries]. rewrite decode_entry_same by done. destruct (decode_log_entry _ _ _ e) as [a|s] eqn:Ea; cbn [rbind].
    + rewrite IH. pose proof (decode_entry_applies _ _ Hi Ea) as Ha. destruct (decode_log_entries _ _ _ _) as [apps|s]; cbn; [by rewrite Ha|]. by destruct s.
    + cbn. by destruct s.
Qed.

(** * Applying *)

Lemma skip_gap_exact l k : 0 <= md_applied l <= k -> k < max_u64 -> skip_gap (k + 1) l = (kOk, set_applied l k).
Proof.
  intros Hl Hk. unfold skip_gap. rewrite !Z.gtb_ltb, (proj2 (Z.ltb_lt _ _)) by lia. cbn [andb].
  replace (k + 1 - md_applied l) with (k - md_applied l + 1) by lia.
  destruct (Z.ltb_spec 1 (k - md_applied l + 1)) as [Hlt|Hge].
  - unfold apply_internal_noops_through, u64, wrap. rewrite Z.mod_small by lia. replace (k + 1 - 1) with k by lia.
    by rewrite (proj2 (Z.ltb_ge _ _)) by lia.
  - replace k with (md_applied l) by lia. by rewrite set_applied_same.
Qed.
(** Replaying snapshot entries and moving to the boundary [n]. *)
Definition replay_through (n : LogIndex) (entries : list MetadataSnapshotEntry) (apps : list Application) (m : Metadata) : StatusCode * Metadata :=
  let '(status, m) := replay_snapshot_entries entries apps m in
  if negb (is_ok status) then (status, m) else apply_internal_noops_through n m.
(** The machine [l] of the replay trails the one of the log, [set_applied l k], by internal
    entries only. *)
Lemma replay_lagging log : forall k l apps report, contiguous k log -> 0 <= md_applied l <= k -> k + blen log <= max_u64 ->
  forallb known_type log = true -> decode_log_entries group cl sl log = Ok apps ->
  let '(r, m') := apply_applications log apps report (set_applied l k) in
  (status_of r, m') = replay_through (k + blen log) (application_entries log) (List.filter applies apps) l.
Proof.
  induction log as [|e log IH]; intros k l apps report Hc Hl Hn Hk Hd.
  - injection Hd as <-. cbn. unfold replay_through, apply_internal_noops_through. cbn. rewrite Z.add_0_r. by rewrite (proj2 (Z.ltb_ge _ _)) by lia.
  - apply contiguous_cons in Hc as [He Hc]. cbn [forallb] in Hk. apply andb_true_iff in Hk as [Hk1 Hk]. cbn [length] in Hn.
    cbn [decode_log_entries] in Hd. destruct (decode_log_entry _ _ _ e) as [a|] eqn:Ea; [|done]. cbn [rbind] in Hd.
    destruct (decode_log_entries _ _ _ log) as [apps'|] eqn:Ed; [|done]. injection Hd as <-. cbn [apply_applications].
    replace (k + blen (e :: log)) with (k + 1 + blen log) by (cbn [length]; lia).
    unfold application_entries. cbn [List.filter]. destruct (is_internal_raft_entry_type (entry_type e)) eqn:Hi; cbn [negb].
    + unfold decode_log_entry in Ea. rewrite Hi in Ea. injection Ea as <-. cbn [apply_application applies].
      rewrite He. pose proof (noop_next (set_applied l k)) as E. cbn [md_applied set_applied] in E. rewrite E by lia. change (is_ok kOk) with true. cbn [negb].
      rewrite set_applied_twice. apply IH; done || lia.
    + rewrite fmap_cons. cbn [List.filter]. rewrite (decode_entry_applies _ _ Hi Ea).
      unfold replay_through. cbn [replay_snapshot_entries as_snapshot_entry se_index]. rewrite He, skip_gap_exact by lia. change (is_ok kOk) with true. cbn [negb].
      destruct (apply_application (k + 1) a (set_applied l k)) as [st m1] eqn:E1. destruct (is_ok st) eqn:Est; cbn [negb]; [|by rewrite Est].
      apply bool_decide_eq_true in Est as ->. pose proof (apply_application_applied _ _ _ _ E1) as Hm1.
      assert (Hs : set_applied m1 (k + 1) = m1) by (rewrite <- Hm1; apply set_applied_same).
      pose proof (IH (k + 1) m1 apps' (report_applied (k + 1) a report) Hc ltac:(lia) ltac:(lia) Hk eq_refl) as I. by rewrite Hs in I.
Qed.

Lemma decode_entries_not_ok log : decode_log_entries group cl sl log <> Err kOk.
Proof. destruct log as [|e log]; [done|]. apply rbind_err_not_ok. intros a. by apply rbind_err_not_ok. Qed.
(** The reference: applying every entry of a log, one after the other. *)
Definition replay_log (log : list LogEntry) (m : Metadata) : StatusCode * Metadata :=
  match decode_log_entries group cl sl log with
  | Err status => (status, m)
  | Ok apps => let '(r, m) := apply_applications log apps empty_report m in (status_of r, m)
  end.

Lemma contiguous_below k log : contiguous k log -> Forall (fun e => entry_index e <= k + blen log) log.
Proof. intros Hc. apply Forall_lookup. intros i e Hi. rewrite (Hc _ _ Hi). apply lookup_lt_Some in Hi. lia. Qed.
Lemma replay_snapshot_exact snapshot log m : contiguous (md_applied m) log -> 0 <= md_applied m ->
  last_included_index (as_raft_snapshot snapshot) = md_applied m + blen log -> md_applied m + blen log <= max_u64 ->
  collect_entries (md_applied m + blen log) log = Ok (as_entries snapshot) ->
  replay_snapshot group cl sl snapshot m = replay_log log m.
Proof.
  intros Hc Hm Hn Hw Hcol. rewrite collect_exact in Hcol by (by apply contiguous_below). destruct (forallb known_type log) eqn:Hk; [|done]. injection Hcol as Hcol.
  unfold replay_snapshot, replay_log. rewrite <- Hcol, decode_collected by done. destruct (decode_log_entries _ _ _ log) as [apps|s] eqn:Ed; cbn [rbind].
  - pose proof (replay_lagging log (md_applied m) m apps empty_report Hc ltac:(lia) Hw Hk Ed) as E. rewrite set_applied_same in E.
    destruct (apply_applications log apps empty_report m) as [r m']. rewrite E, Hn. done.
  - unfold make_unexpected. destruct (is_ok s) eqn:Es; [|done]. apply bool_decide_eq_true in Es as ->. by apply decode_entries_not_ok in Ed.
Qed.

Lemma decode_known log apps : decode_log_entries group cl sl log = Ok apps -> forallb known_type log = true.
Proof.
  revert apps. induction log as [|e log IH]; intros apps; [done|]. cbn [decode_log_entries forallb]. destruct (decode_log_entry _ _ _ e) as [a|] eqn:Ea; [|done].
  destruct (decode_log_entries _ _ _ log) as [x|]; [|done]. intros _. rewrite (IH x), andb_true_r by done. unfold decode_log_entry, known_type in *.
  destruct (is_internal_raft_entry_type _); [done|]. destruct (_ =? kRaftSchemaDefinitionEntryType); [by rewrite orb_true_r|].
  destruct (_ =? kRaftTabletGroupBindingEntryType); [by rewrite orb_true_r|]. by destruct (_ =? kRaftMetadataCommandEntryType).
Qed.
Lemma replay_known log m m' : replay_log log m = (kOk, m') -> forallb known_type log = true.
Proof.
  unfold replay_log. destruct (decode_log_entries group cl sl log) as [x|s] eqn:Ex; [by intros _; eapply decode_known|].
  intros [= ->]. by destruct (decode_entries_not_ok log).
Qed.

(** ** Appending *)

Lemma decode_app a b : decode_log_entries group cl sl (a ++ b) =
  let? x := decode_log_entries group cl sl a in let? y := decode_log_entries group cl sl b in Ok (x ++ y).
Proof.
  induction a as [|e a IH]; cbn [decode_log_entries app].
  - cbn [rbind]. pose proof (decode_entries_not_ok b) as Hb. destruct (decode_log_entries group cl sl b) as [y|s]; [done|]. cbn. by destruct s.
  - rewrite IH. destruct (decode_log_entry group cl sl e) as [x|[]]; [|done..]. cbn [rbind].
    destruct (decode_log_entries group cl sl a) as [y|[]]; [|done..]. cbn [rbind]. by destruct (decode_log_entries group cl sl b) as [z|[]].
Qed.
Lemma decode_length log apps : decode_log_entries group cl sl log = Ok apps -> length apps = length log.
Proof.
  revert apps. induction log as [|e log IH]; intros apps; cbn; [by intros [= <-]|]. destruct (decode_log_entry _ _ _ e); [|done]. cbn.
  destruct (decode_log_entries _ _ _ log) as [x|] eqn:E; [|done]. intros [= <-]. cbn. by rewrite (IH x).
Qed.
(** The report is only counted. *)
Lemma apply_report log : forall apps r1 r2 m,
  (status_of (apply_applications log apps r1 m).1, (apply_applications log apps r1 m).2) =
  (status_of (apply_applications log apps r2 m).1, (apply_applications log apps r2 m).2).
Proof.
  induction log as [|e log IH]; intros [|a apps] r1 r2 m; cbn [apply_applications]; try done.
  destruct (apply_application _ _ _) as [st m1]. destruct (is_ok st); [apply IH|done].
Qed.
Lemma apply_not_ok log : forall apps report m, (apply_applications log apps report m).1 <> Err kOk.
Proof.
  induction log as [|e log IH]; intros [|a apps] report m; cbn [apply_applications]; try done.
  destruct (apply_application _ _ _) as [[] m1]; cbn; try done. apply IH.
Qed.
Lemma apply_app log apps log' apps' : forall report m, length apps = length log ->
  apply_applications (log ++ log') (apps ++ apps') report m =
  match apply_applications log apps report m with
  | (Ok report, m) => apply_applications log' apps' report m
  | failed => failed
  end.
Proof.
  revert apps. induction log as [|e log IH]; intros [|a apps] report m Hl; try done. cbn [apply_applications app].
  destruct (apply_application _ _ _) as [st m1]. destruct (is_ok st); [|done]. apply IH. by injection Hl.
Qed.
Lemma replay_log_app log log' m m1 m2 : replay_log log m = (kOk, m1) ->
  replay_log (log ++ log') m = (kOk, m2) <-> replay_log log' m1 = (kOk, m2).
Proof.
  unfold replay_log. rewrite decode_app. destruct (decode_log_entries group cl sl log) as [x|s] eqn:Ex; [|by intros [= ->]; destruct (decode_entries_not_ok log)].
  cbn [rbind]. pose proof (decode_entries_not_ok log') as Hn.
  destruct (decode_log_entries group cl sl log') as [y|s]; cbn; [|intros _; split; intros [= ?]; by destruct s].
  rewrite apply_app by (by apply decode_length). pose proof (apply_not_ok log x empty_report m) as Hk.
  destruct (apply_applications log x empty_report m) as [[r|s] m3]; cbn in *; [|by intros [= -> ->]].
  intros [= ->]. pose proof (apply_report log' y r empty_report m1) as E.
  destruct (apply_applications log' y r m1), (apply_applications log' y empty_report m1). cbn in E. by rewrite E.
Qed.
Lemma replay_log_prefix log log' m m2 : replay_log (log ++ log') m = (kOk, m2) -> exists m1, replay_log log m = (kOk, m1).
Proof.
  unfold replay_log. rewrite decode_app.
  destruct (decode_log_entries group cl sl log) as [x|s] eqn:Ex; cbn [rbind] in *; [|intros [= E]; by destruct s].
  destruct (decode_log_entries group cl sl log') as [y|s]; cbn [rbind] in *; [|intros [= E]; by destruct s].
  rewrite apply_app by (by apply decode_length). destruct (apply_applications log x empty_report m) as [[r|s] m3]; cbn; [by exists m3|]. intros [= -> ->]. by exists m2.
Qed.

(** A log that was replayed has moved the machine to its last index. *)
Lemma apply_applied log : forall k apps report m r m', contiguous k log -> length apps = length log -> md_applied m = k ->
  apply_applications log apps report m = (Ok r, m') -> md_applied m' = k + blen log.
Proof.
  induction log as [|e log IH]; intros k [|a apps] report m r m' Hc Hl Hm E; try done; cbn [apply_applications] in E.
  - injection E as _ <-. cbn. lia.
  - apply contiguous_cons in Hc as [He Hc]. destruct (apply_application _ _ _) as [st m1] eqn:E1. destruct (is_ok st) eqn:Est; [|done].
    apply bool_decide_eq_true in Est as ->. apply apply_application_applied in E1. rewrite He in *.
    injection Hl as Hl. rewrite (IH (k + 1) apps _ m1 r m' Hc Hl E1 E). cbn [length]. lia.
Qed.
(** The report has the index of the last entry. *)
Lemma apply_reports_last log : forall k apps report m r m', contiguous k log -> length apps = length log ->
  log <> [] \/ mr_last_applied_index report = k ->
  apply_applications log apps report m = (Ok r, m') -> mr_last_applied_index r = k + blen log.
Proof.
  induction log as [|e log IH]; intros k [|a apps] report m r m' Hc Hl Hlast E; try done; cbn [apply_applications] in E.
  - injection E as <- _. destruct Hlast as [?|Hlast]; [done|]. cbn. lia.
  - apply contiguous_cons in Hc as [He Hc]. destruct (apply_application _ _ _) as [st m1]. destruct (is_ok st); [|done].
    injection Hl as Hl. apply (IH (k + 1)) in E as ->; [cbn [length]; lia|done..|by right].
Qed.
Lemma replay_log_applied log m m' : contiguous (md_applied m) log -> replay_log log m = (kOk, m') -> md_applied m' = md_applied m + blen log.
Proof.
  unfold replay_log. intros Hc. destruct (decode_log_entries group cl sl log) as [x|s] eqn:Ex; [|by intros [= ->]; destruct (decode_entries_not_ok log)].
  pose proof (apply_not_ok log x empty_report m) as Hk. destruct (apply_applications log x empty_report m) as [[r|s] m3] eqn:E; cbn in *; [|by intros [= -> ->]].
  intros [= <-]. by eapply apply_applied; [|apply decode_length| |].
Qed.
End replaying.

(** * The owner *)

Section owner.
Context {W V : Type} {HW : PosixIo W} {HV : PosixIo V}.
Context (sha256 : list byte -> result (list byte)).
Implicit Types (s : (W * Durable) * (V * MetadataMachine)).

Definition replay_machine (log : list LogEntry) (m : MetadataMachine) : StatusCode * Metadata :=
  replay_log (dm_group_id m) (dm_codec_limits m) (dm_schema_codec_limits m) log (dm_metadata m).

Lemma or_machine_fail_Ok {A} (c : IO _ A) s a s' : or_machine_fail c s = (Ok a, s') -> c s = (Ok a, s').
Proof.
  unfold or_machine_fail, io_try, io_bind, machine_fail. destruct (c s) as [[b|st] s1]; cbn; [done|].
  unfold io_bind, make_unexpected. cbn. done.
Qed.
(** The machine that applying leaves. *)
Lemma apply_entries_Ok entries persist s report s' : apply_entries entries persist s = (Ok report, s') ->
  exists metadata, replay_machine entries s.2.2 = (kOk, metadata) /\ s'.2 = (s.2.1, set_metadata s.2.2 metadata).
Proof.
  destruct s as [wd [v m]]. unfold apply_entries. destruct entries as [|e entries].
  { intros [= _ <-]. exists (dm_metadata m). split; [done|]. by destruct m. }
  intros (m0 & s1 & E1 & E)%io_bind_Ok. injection E1 as <- <-. cbn [snd] in E.
  apply io_bind_Ok in E as (apps & s1 & E1%or_machine_fail_Ok & E). injection E1 as E1 <-.
  change (decode_log_entries (dm_group_id m) (dm_codec_limits m) (dm_schema_codec_limits m) (e :: entries) = Ok apps) in E1.
  set (r0 := {| mr_first_applied_index := _; mr_last_applied_index := _; mr_applied_commands := _ |}) in E.
  destruct (apply_applications (e :: entries) apps r0 (dm_metadata m)) as [applied metadata] eqn:Ea.
  apply io_bind_Ok in E as ([] & s1 & E2 & E). injection E2 as <-.
  apply io_bind_Ok in E as (rep & s1 & E2%or_machine_fail_Ok & E). injection E2 as -> <-.
  exists metadata. split.
  - unfold replay_machine, replay_log. cbn [snd]. rewrite E1. pose proof (apply_report (e :: entries) apps r0 empty_report (dm_metadata m)) as Er.
    rewrite Ea in Er. cbn [fst snd status_of] in Er. destruct (apply_applications _ _ empty_report _). cbn in Er. by rewrite <- Er.
  - cbn [fst snd]. destruct persist; cbn [negb] in E; [|by injection E as _ <-].
    apply io_bind_Ok in E as (marked & s1 & E2%or_machine_fail_Ok & E). unfold run_request in E2. apply io_bind_Ok in E2 as (m1 & s2 & E3 & E2).
    injection E3 as <- <-. unfold on_runtime in E2. destruct (execute_batch _ _) as [r1 wd1]. injection E2 as -> <-. cbn in E.
    destruct (refused_result marked) as [st|]; [|by injection E as _ <-]. unfold machine_fail, io_bind in E. done.
Qed.
Lemma apply_entries_live entries s metadata : replay_machine entries s.2.2 = (kOk, metadata) ->
  exists report, apply_entries entries false s = (Ok report, (s.1, (s.2.1, set_metadata s.2.2 metadata))).
Proof.
  destruct s as [wd [v m]]. cbn [fst snd]. unfold apply_entries, replay_machine, replay_log. destruct entries as [|e entries].
  { intros [= <-]. exists empty_report. unfold io_ret. by destruct m. }
  unfold io_bind, get_machine at 1. cbn [snd]. destruct (decode_log_entries _ _ _ _) as [apps|st] eqn:Ed; [|by intros [= ->]; destruct (decode_entries_not_ok _ _ _ _ Ed)].
  intros E. unfold or_machine_fail at 1, io_try at 1, io_bind, io_pure, io_ret.
  set (r0 := {| mr_first_applied_index := _; mr_last_applied_index := _; mr_applied_commands := _ |}).
  pose proof (apply_report (e :: entries) apps empty_report r0 (dm_metadata m)) as Er. pose proof (apply_not_ok (e :: entries) apps r0 (dm_metadata m)) as Hn.
  destruct (apply_applications _ _ empty_report _) as [r1 m1]. destruct (apply_applications (e :: entries) apps r0 (dm_metadata m)) as [[r|st] m2];
    cbn in *.
  - exists r. injection E as _ <-. by injection Er as _ ->.
  - injection E as E _. rewrite E in Er. by injection Er as <-.
Qed.

(** ** Persisting the applied index *)

(** The batch with which the owner of [group] persists [index] succeeds, from [wd] to [wd']. *)
Definition marks (group : GroupId) (index : LogIndex) (wd wd' : W * Durable) : Prop :=
  exists result, execute_batch [{| dr_group_id := group; dr_operation := MarkAppliedOperation index; dr_required_leader_term := None |}] wd
                 = (Ok [result], wd') /\ dres_status result = kOk.
Lemma refused_None results : refused_result results = None <-> exists result, results = [result] /\ dres_status result = kOk.
Proof.
  unfold refused_result. destruct results as [|r [|r2 rs]]; [split; [done|naive_solver]| |split; [done|naive_solver]].
  destruct (is_ok _) eqn:E; [apply bool_decide_eq_true in E|apply bool_decide_eq_false in E]; naive_solver.
Qed.

(** An application that persists succeeds exactly when the persisting batch does, for the
    index of the last entry. *)
Lemma apply_entries_marks entries k s report s' : entries <> [] -> contiguous k entries ->
  apply_entries entries true s = (Ok report, s') -> marks (dm_group_id s.2.2) (k + blen entries) s.1 s'.1.
Proof.
  destruct s as [wd [v m]]. intros Hne Hc. unfold apply_entries. destruct entries as [|e entries]; [done|].
  intros (m0 & s1 & E1 & E)%io_bind_Ok. injection E1 as <- <-. cbn [snd] in E.
  apply io_bind_Ok in E as (apps & s1 & E1%or_machine_fail_Ok & E). injection E1 as E1 <-.
  apply (decode_length (dm_group_id m) (dm_codec_limits m) (dm_schema_codec_limits m) (e :: entries)) in E1.
  destruct (apply_applications _ _ _ _) as [applied md] eqn:Ea.
  apply io_bind_Ok in E as ([] & s1 & E2 & E). injection E2 as <-.
  apply io_bind_Ok in E as (rep & s1 & E2%or_machine_fail_Ok & E). injection E2 as -> <-.
  apply (apply_reports_last (e :: entries) k) in Ea; [|done|done|by left]. rewrite <- Ea. cbn [negb] in E.
  apply io_bind_Ok in E as (marked & s1 & E2%or_machine_fail_Ok & E). unfold run_request in E2. apply io_bind_Ok in E2 as (m1 & s2 & E3 & E2).
  injection E3 as <- <-. unfold on_runtime in E2. cbn [fst snd] in *. destruct (execute_batch _ _) as [r1 wd1] eqn:Ex. injection E2 as -> <-.
  destruct (refused_result marked) as [st|] eqn:Er; [by unfold machine_fail, io_bind in E|]. injection E as _ <-.
  apply refused_None in Er as (result & -> & Hr). by exists result.
Qed.
Lemma apply_entries_marked entries k s metadata wd' : replay_machine entries s.2.2 = (kOk, metadata) -> entries <> [] ->
  contiguous k entries -> marks (dm_group_id s.2.2) (k + blen entries) s.1 wd' ->
  exists report, apply_entries entries true s = (Ok report, (wd', (s.2.1, set_metadata s.2.2 metadata))).
Proof.
  intros Hr Hne Hc (result & Ex & Hst). destruct (apply_entries_live entries s metadata Hr) as [report E]. revert E.
  destruct s as [wd [v m]]. unfold apply_entries. destruct entries as [|e entries]; [done|]. cbn [negb].
  intros (m0 & s1 & E1 & E)%io_bind_Ok. injection E1 as <- <-. cbn [fst snd] in *.
  apply io_bind_Ok in E as (apps & s1 & E1 & E). unfold io_bind at 1, get_machine at 1. cbn [snd].
  unfold io_bind at 1. rewrite E1. apply or_machine_fail_Ok in E1. injection E1 as E1 <-.
  apply (decode_length (dm_group_id m) (dm_codec_limits m) (dm_schema_codec_limits m) (e :: entries)) in E1.
  destruct (apply_applications _ _ _ _) as [applied md] eqn:Ea.
  apply io_bind_Ok in E as ([] & s1 & E2 & E). injection E2 as <-.
  apply io_bind_Ok in E as (rep & s1 & E2 & E). unfold io_bind at 1, put_machine at 1. cbn [fst snd]. unfold io_bind at 1.
  unfold put_machine in *. cbn [fst snd] in *.
  rewrite E2. apply or_machine_fail_Ok in E2. injection E2 as -> <-. injection E as <- E.
  apply (apply_reports_last (e :: entries) k) in Ea; [|done|done|by left]. exists rep.
  unfold io_bind, or_machine_fail, io_try, io_bind, run_request, on_runtime, io_bind, get_machine. cbn [fst snd].
  rewrite Ea. cbn [dm_group_id set_metadata]. rewrite Ex. cbn. by rewrite Hst, E.
Qed.
(** Nothing else touches the runtime. *)
Lemma apply_entries_quiet entries s report s' : apply_entries entries false s = (Ok report, s') -> s'.1 = s.1.
Proof.
  intros E. destruct (apply_entries_Ok _ _ _ _ _ E) as (metadata & Hr & _). destruct (apply_entries_live _ _ _ Hr) as [r E'].
  rewrite E' in E. by injection E as _ <-.
Qed.

(** ** Restoring a snapshot *)

(** The snapshot that the owner reads back for [persistent]. *)
Definition loads (persistent : PersistentState) (v : V) (m : MetadataMachine) (snap : MetadataApplicationSnapshot) (v1 : V) (store1 : SnapshotStorage) : Prop :=
  exists store loaded, dm_snapshot_storage m = Some store /\
    load (last_included_index (snapshot persistent)) (v, store) = (Ok loaded, (v1, store1)) /\ lm_snapshot loaded = snap /\
    as_group_id snap = dm_group_id m /\ as_raft_snapshot snap = snapshot persistent /\
    sha256 (digest_input (as_entries snap)) = Ok (part_set_checksum (snapshot persistent)).
Definition restored_machine (persistent : PersistentState) (m : MetadataMachine) (store : SnapshotStorage) (metadata : Metadata) : MetadataMachine :=
  set_installed_snapshot (set_metadata (set_snapshot_storage m store) metadata) (snapshot persistent).
Definition replay_snapshot_machine (snap : MetadataApplicationSnapshot) (m : MetadataMachine) : StatusCode * Metadata :=
  replay_snapshot (dm_group_id m) (dm_codec_limits m) (dm_schema_codec_limits m) snap (dm_metadata m).

Lemma restore_Ok persistent s u s' : restore_snapshot sha256 persistent s = (Ok u, s') ->
  (last_included_index (snapshot persistent) = 0 /\ s' = s) \/
  exists snap v1 store1 metadata, loads persistent s.2.1 s.2.2 snap v1 store1 /\ replay_snapshot_machine snap s.2.2 = (kOk, metadata) /\
    s' = (s.1, (v1, restored_machine persistent s.2.2 store1 metadata)).
Proof.
  destruct s as [wd [v m]]. unfold restore_snapshot. destruct (Z.eqb_spec (last_included_index (snapshot persistent)) 0) as [H0|H0]; [intros [= _ <-]; by left|].
  intros (m0 & s1 & E1 & E)%io_bind_Ok. injection E1 as <- <-. cbn [snd] in E. case_bool_decide as Hs; [|done]. destruct Hs as [store Hs]. cbn [negb] in E.
  apply io_bind_Ok in E as (loaded & s1 & E1 & E). unfold on_storage in E1. cbn [snd fst] in E1. rewrite Hs in E1.
  destruct (load _ _) as [r [v1 store1]] eqn:El. injection E1 as -> <-. cbn [fst snd] in E.
  case_bool_decide as Hg; [|done]. case_bool_decide as Hr; [|done]. cbn [negb orb] in E.
  apply io_bind_Ok in E as ([] & s1 & E1 & E). unfold apply_snapshot in E1. apply io_bind_Ok in E1 as (digest & s2 & E2 & E1). injection E2 as E2 <-.
  case_bool_decide as Hd; [|done]. cbn [negb] in E1. subst digest. apply io_bind_Ok in E1 as (m1 & s2 & E3 & E1). injection E3 as <- <-. cbn [snd] in E1.
  destruct (replay_snapshot _ _ _ _ _) as [st metadata] eqn:Er. apply io_bind_Ok in E1 as ([] & s2 & E3 & E1). injection E3 as <-.
  unfold io_check in E1. destruct (is_ok st) eqn:Est; [|done]. apply bool_decide_eq_true in Est as ->. injection E1 as <-.
  apply io_bind_Ok in E as (m1 & s2 & E3 & E). injection E3 as <- <-. injection E as _ <-. right.
  exists (lm_snapshot loaded), v1, store1, metadata. split; [|split; [exact Er|done]]. exists store, loaded. rewrite <- Hr. by rewrite Hr at 1.
Qed.
Lemma restore_live persistent s snap v1 store1 metadata : last_included_index (snapshot persistent) <> 0 ->
  loads persistent s.2.1 s.2.2 snap v1 store1 -> replay_snapshot_machine snap s.2.2 = (kOk, metadata) ->
  restore_snapshot sha256 persistent s = (Ok tt, (s.1, (v1, restored_machine persistent s.2.2 store1 metadata))).
Proof.
  destruct s as [wd [v m]]. intros H0 (store & loaded & Hs & El & <- & Hg & Hr & Hd) E. cbn [fst snd] in *. unfold restore_snapshot.
  rewrite (proj2 (Z.eqb_neq _ _) H0). unfold io_bind at 1, get_machine at 1. cbn [snd]. rewrite bool_decide_eq_true_2 by (by rewrite Hs). cbn [negb].
  unfold io_bind at 1, on_storage at 1. cbn [snd fst]. rewrite Hs, El. rewrite !bool_decide_eq_true_2 by done. cbn [negb orb].
  unfold io_bind at 1, apply_snapshot. unfold io_bind at 1, io_pure, metadata_entry_digest at 1. rewrite Hd, Hr, bool_decide_eq_true_2 by done. cbn [negb].
  unfold io_bind at 1, get_machine at 1. cbn [snd fst]. unfold replay_snapshot_machine in E. cbn [dm_group_id dm_codec_limits dm_schema_codec_limits dm_metadata set_snapshot_storage].
  rewrite E. done.
Qed.
End owner.

(** * Outcomes *)

(** [ends c s Q E]: from [s] the computation returns a value with [Q], or fails with [E]. *)
Definition ends {S A} (c : IO S A) (s : S) (Q : A -> S -> Prop) (E : S -> Prop) : Prop :=
  match c s with (Ok a, s') => Q a s' | (Err _, s') => E s' end.
Lemma ends_bind {S A B} (c : IO S A) (k : A -> IO S B) s Q E : ends c s (fun a s1 => ends (k a) s1 Q E) E -> ends (io_bind c k) s Q E.
Proof. unfold ends, io_bind, make_unexpected. by destruct (c s) as [[a|st] s1]. Qed.
Lemma ends_pure {S A} (r : result A) s (Q : A -> S -> Prop) E : (forall a, r = Ok a -> Q a s) -> E s -> ends (io_pure r) s Q E.
Proof. unfold ends, io_pure. destruct r; auto. Qed.
Lemma ends_stop {S A} (b : bool) st (k : IO S A) s Q (E : S -> Prop) : E s -> (b = false -> ends k s Q E) -> ends (if b then io_fail st else k) s Q E.
Proof. destruct b; [done|]. auto. Qed.
Lemma ends_mono {S A} (c : IO S A) s (Q Q' : A -> S -> Prop) (E E' : S -> Prop) :
  ends c s Q E -> (forall a s', Q a s' -> Q' a s') -> (forall s', E s' -> E' s') -> ends c s Q' E'.
Proof. unfold ends. destruct (c s) as [[a|st] s1]; auto. Qed.
Lemma ends_wp {S A} (c : IO S A) s (Q : A -> S -> Prop) E : wp c s Q (fun _ => E) -> ends c s Q E.
Proof. unfold wp, ends. destruct (c s) as [[a|st] s1]; [done|]. by intros [_ H]. Qed.

Section outcomes.
Context {W V : Type} {HW : PosixIo W} {HV : PosixIo V}.
Abbreviation World := ((W * Durable) * (V * MetadataMachine))%type.
Implicit Types (s : World).

(** Failures of the owner leave both directories alone. *)
Definition stopped (s s' : World) : Prop := s'.1 = s.1 /\ s'.2.1 = s.2.1.
Lemma ends_get s (Q : MetadataMachine -> World -> Prop) E : Q s.2.2 s -> ends get_machine s Q E.
Proof. done. Qed.
Lemma ends_machine_fail {A} st s (Q : A -> World -> Prop) (E : World -> Prop) :
  (forall m, E (s.1, (s.2.1, m))) -> ends (machine_fail st) s Q E.
Proof. intros H. unfold ends, machine_fail, io_bind, make_unexpected. cbn. apply H. Qed.
Lemma ends_or_fail {A} (c : IO World A) s (Q : A -> World -> Prop) (E : World -> Prop) :
  ends c s Q (fun s' => forall m, E (s'.1, (s'.2.1, m))) -> ends (or_machine_fail c) s Q E.
Proof.
  unfold ends, or_machine_fail, io_try, io_bind. destruct (c s) as [[a|st] s1]; [done|]. intros H. cbn. apply (H _).
Qed.
Lemma ends_on_storage {A} (c : IO (V * SnapshotStorage) A) s store (Q : A -> World -> Prop) (E : World -> Prop) :
  dm_snapshot_storage s.2.2 = Some store ->
  ends c (s.2.1, store) (fun a vs => Q a (s.1, (vs.1, set_snapshot_storage s.2.2 vs.2))) (fun vs => E (s.1, (vs.1, set_snapshot_storage s.2.2 vs.2))) ->
  ends (on_storage c) s Q E.
Proof. unfold ends, on_storage. intros ->. by destruct (c _) as [[a|st] [v store']]. Qed.
Lemma ends_group_node s (Q : option Impl -> World -> Prop) E : Q (find_group (d_runtime s.1.2) (dm_group_id s.2.2)) s -> ends group_node s Q E.
Proof. done. Qed.
End outcomes.
