(* ===== verification/MetadataRuntimeTheorems.v ===== *)
(** What the owner of the metadata group promises: its state is a function of the committed
    log, whether the log is applied entry by entry or restored from a snapshot, and Raft is
    compacted only behind a snapshot that has been installed. *)
From S2P Require Import Prelude Bytes PosixIo DiskFacts RaftLogFiles RaftLogFileFacts RaftPersistentLog.
From S2P Require Import RaftTypes RaftMembership RaftNode RaftFacts MultiRaft DurableRuntime.
From S2P Require Import Schema SchemaTheorems Metadata MetadataTheorems MetadataCodec SchemaCodec.
From S2P Require Import MetadataSnapshot MetadataSnapshotFacts MetadataStorage MetadataStorageFacts.
From S2P Require Import MetadataStorageTheorems MetadataRuntime MetadataRuntimeFacts.
#[local] Open Scope Z_scope.

(** * Snapshots and logs *)

(** C36. Replaying the application entries that a compaction collects from a log leaves the
    machine that applying every entry of that log leaves, internal entries included: same
    status, same state.  The boundary may lie inside the retained log.  Whenever the log
    can be applied, collecting succeeds; and a later compaction that appends what it collects
    from the rest of the log to the entries of an earlier snapshot has the entries of one
    compaction of the whole log. *)
Theorem snapshot_replay group cl sl m log later :
  let n := md_applied m + blen log in
  contiguous (md_applied m) log -> contiguous n later -> 0 <= md_applied m -> n <= max_u64 ->
  (forall snap, last_included_index (as_raft_snapshot snap) = n -> collect_entries n (log ++ later) = Ok (as_entries snap) ->
    replay_snapshot group cl sl snap m = replay_log group cl sl log m) /\
  (forall m', replay_log group cl sl log m = (kOk, m') -> exists entries, collect_entries n (log ++ later) = Ok entries) /\
  (forall entries added, collect_entries n log = Ok entries -> collect_entries (n + blen later) later = Ok added ->
    collect_entries (n + blen later) (log ++ later) = Ok (entries ++ added)).
Proof.
  intros n Hc Hl Hm Hn. rewrite collect_stops; [split; [|split]|].
  - intros snap Hs Hcol. by eapply replay_snapshot_exact.
  - intros m' Hr. exists (application_entries log). rewrite collect_exact by (by apply contiguous_below). by rewrite (replay_known _ _ _ _ _ _ Hr).
  - intros entries added. rewrite !collect_exact; [|apply Forall_app; split|..]; try (by apply contiguous_below).
    + rewrite forallb_app. destruct (forallb known_type log), (forallb known_type later); try done. intros [= <-] [= <-]. cbn. f_equal.
      unfold application_entries. by rewrite List.filter_app, fmap_app.
    + eapply Forall_impl; [by apply contiguous_below|]. cbn. fold n. lia.
  - apply Forall_lookup. intros i e Hi. rewrite (Hl _ _ Hi). lia.
Qed.

(** * Recovery *)

Section recovery.
Context {W V : Type} {HW : PosixIo W} {HV : PosixIo V}.
Context (sha256 : list byte -> result (list byte)).
Context (group : GroupId) (storage : option SnapshotStorage) (limits : MetadataLimits).
Context (cl : MetadataCommandCodecLimits) (sl : SchemaDefinitionCodecLimits).

Lemma create_fresh md : Metadata_create limits = Ok md -> md_applied md = 0.
Proof. unfold Metadata_create. destruct (_ || _); [done|]. by intros [= <-]. Qed.

(** The entries of a group that has a snapshot of [history] and, behind it, its log. *)
Definition committed_log (history : list LogEntry) (p : PersistentState) : list LogEntry :=
  history ++ take (Z.to_nat (commit_index p - last_included_index (snapshot p))) (log p).
(** The snapshot that the storage holds was collected from [history]. *)
Definition describes (history : list LogEntry) (p : PersistentState) (v : V) : Prop :=
  contiguous 0 history /\ blen history = last_included_index (snapshot p) /\ blen history <= max_u64 /\
  forall store loaded vs, storage = Some store -> load (last_included_index (snapshot p)) (v, store) = (Ok loaded, vs) ->
    collect_entries (last_included_index (snapshot p)) history = Ok (as_entries (lm_snapshot loaded)).

Lemma describes_replay history p v md snap v1 store1 : describes history p v -> md_applied md = 0 ->
  loads sha256 p v (new_machine group storage md cl sl) snap v1 store1 ->
  replay_snapshot group cl sl snap md = replay_log group cl sl history md.
Proof.
  intros (Hc & Hl & Hw & Hload) Hm (store & loaded & Hs & El & <- & _ & Hr & _). specialize (Hload _ _ _ Hs El).
  apply replay_snapshot_exact; rewrite ?Hm; [done|lia| |lia|].
  - by rewrite Hr, Hl.
  - by rewrite Z.add_0_l, Hl.
Qed.

(** What recovery did to the runtime: the commit index is persisted as the applied one when
    it was not, and nothing else. *)
Definition persisted (w : W) (d : Durable) (p : PersistentState) (wd : W * Durable) : Prop :=
  if applied_index p <? commit_index p then marks group (commit_index p) (w, d) wd else wd = (w, d).

Section group.
Context (w : W) (d : Durable) (v : V) (node : Impl) (history : list LogEntry) (md : Metadata).
Context (Hf : find_group (d_runtime d) group = Some node) (Hmd : Metadata_create limits = Ok md) (Hdesc : describes history (state node) v).
#[local] Abbreviation p := (state node).
#[local] Abbreviation n := (last_included_index (snapshot (state node))).

Lemma committed_step md1 md2 : replay_log group cl sl history md = (kOk, md1) ->
  replay_log group cl sl (committed_log history p) md = (kOk, md2) <->
  replay_log group cl sl (take (Z.to_nat (commit_index p - n)) (log p)) md1 = (kOk, md2).
Proof. intros. by apply replay_log_app. Qed.
Lemma recovered_state m world : recover_impl sha256 group storage limits cl sl ((w, d), v) = (Ok m, world) ->
  replay_log group cl sl (committed_log history p) md = (kOk, dm_metadata m) /\ dm_failure m = kOk /\
  (contiguous n (log p) -> md_applied (dm_metadata m) = commit_index p /\ persisted w d p world.1).
Proof.
  pose proof (create_fresh _ Hmd) as Hfresh. pose proof Hdesc as (Hc & Hl & Hw & _).
  unfold recover_impl. cbn [fst snd]. destruct (is_nil group); [done|]. rewrite Hf, Hmd.
  destruct ((_ || _) || _) eqn:G; [done|]. bool_prop. set (entries := take _ _) in *. set (m0 := new_machine _ _ _ _ _).
  destruct (io_bind _ _ _) as [r [wd [v' m']]] eqn:E. destruct r as [report|]; [|done]. intros [= <- <-].
  apply io_bind_Ok in E as (u & [wd1 [v1 m1]] & Er & Eap). pose proof Eap as (md2 & Ea & [= _ ->])%apply_entries_Ok. cbn [snd fst] in *.
  apply restore_Ok in Er. cbn [fst snd] in Er.
  assert (Hm1 : exists md1, replay_log group cl sl history md = (kOk, md1) /\ replay_log group cl sl entries md1 = (kOk, md2) /\
    dm_failure m1 = kOk /\ dm_group_id m1 = group /\ wd1 = (w, d)).
  { destruct Er as [[Hz [= -> -> ->]]|(snap & v2 & store2 & md1 & Hload & Hrep & [= -> -> ->])].
    - exists md. split; [|done]. rewrite Hz in Hl. by destruct history; [|cbn in Hl; lia].
    - exists md1. split; [|done]. rewrite <- Hrep. symmetry. by eapply describes_replay. }
  destruct Hm1 as (md1 & R1 & R2 & F & Eg & ->). apply (committed_step _ md2) in R1 as Hall. apply Hall in R2 as Rall. cbn [dm_metadata set_metadata dm_failure]. split_and!; [done..|].
  intros Hcl. assert (Happ : md_applied md1 = n) by (rewrite (replay_log_applied group cl sl history md md1); [lia|by rewrite Hfresh|done]).
  assert (Hlen : n + blen entries = commit_index p) by (unfold entries; rewrite length_take; lia). split.
  - rewrite (replay_log_applied group cl sl entries md1 md2); [|rewrite Happ; by apply contiguous_take|done]. by rewrite Happ.
  - unfold persisted. destruct (Z.ltb_spec (applied_index p) (commit_index p)); [|by apply apply_entries_quiet in Eap].
    rewrite <- Hlen, <- Eg. eapply (apply_entries_marks entries n) in Eap; [exact Eap| |by apply contiguous_take].
    intros He. rewrite He in Hlen. cbn in Hlen. lia.
Qed.
Lemma recovers md' wd : is_nil group = false -> n <= applied_index p -> n <= commit_index p <= n + blen (log p) ->
  contiguous n (log p) -> (n <> 0 -> exists snap v1 store1, loads sha256 p v (new_machine group storage md cl sl) snap v1 store1) ->
  replay_log group cl sl (committed_log history p) md = (kOk, md') -> persisted w d p wd ->
  exists m v', recover_impl sha256 group storage limits cl sl ((w, d), v) = (Ok m, (wd, v')) /\ dm_metadata m = md'.
Proof.
  pose proof (create_fresh _ Hmd) as Hfresh. pose proof Hdesc as (Hc & Hl & Hw & _).
  intros Hnil Hna Hcn Hcl Hload Hrep Hper. unfold recover_impl. cbn [fst snd]. rewrite Hnil, Hf, Hmd.
  replace ((applied_index p <? n) || (commit_index p <? n) || (commit_index p - n >? blen (log p))) with false.
  2: { symmetry. rewrite Z.gtb_ltb, !orb_false_iff, !Z.ltb_ge. lia. }
  set (entries := take _ _) in *. set (m0 := new_machine _ _ _ _ _).
  assert (Hrest : exists v1 m1 md1, restore_snapshot sha256 p ((w, d), (v, m0)) = (Ok tt, ((w, d), (v1, m1))) /\ replay_log group cl sl history md = (kOk, md1) /\
    dm_group_id m1 = group /\ dm_codec_limits m1 = cl /\ dm_schema_codec_limits m1 = sl /\ dm_metadata m1 = md1).
  { destruct (decide (n = 0)) as [H0|H0].
    - exists v, m0, md. unfold restore_snapshot.  rewrite (proj2 (Z.eqb_eq _ _) H0). split; [done|]. rewrite H0 in Hl.
      by destruct history; [|cbn in Hl; lia].
    - destruct (Hload H0) as (snap & v1 & store1 & Hs). pose proof (describes_replay _ _ _ _ _ _ _ Hdesc Hfresh Hs) as Hrs.
      assert (Hok : exists md1, replay_log group cl sl history md = (kOk, md1)) by (by eapply replay_log_prefix).
      destruct Hok as [md1 R1]. rewrite R1 in Hrs.
      exists v1, (restored_machine p m0 store1 md1), md1. split; [|done]. by apply (restore_live sha256 p ((w, d), (v, m0)) snap). }
  destruct Hrest as (v1 & m1 & md1 & Er & R1 & Eg & Ec & Es & Em). apply (committed_step _ md') in R1 as Hall. apply Hall in Hrep.
  assert (Hm : replay_machine entries m1 = (kOk, md')) by (unfold replay_machine; by rewrite Eg, Ec, Es, Em).
  assert (Hlen : n + blen entries = commit_index p) by (unfold entries; rewrite length_take; lia).
  assert (exists report, apply_entries entries (applied_index p <? commit_index p) ((w, d), (v1, m1)) = (Ok report, (wd, (v1, set_metadata m1 md')))) as [report Ea].
  { unfold persisted in Hper. destruct (Z.ltb_spec (applied_index p) (commit_index p)).
    - apply (apply_entries_marked entries n ((w, d), (v1, m1))); [done| |by apply contiguous_take|by rewrite Hlen; cbn; rewrite Eg].
      intros He. rewrite He in Hlen. cbn in Hlen. lia.
    - subst wd. by apply (apply_entries_live entries ((w, d), (v1, m1))). }
  exists (set_metadata m1 md'), v1. split; [|done]. unfold io_bind. by rewrite Er, Ea.
Qed.
End group.

(** C13. Recovery.  Let the group's snapshot describe [history], the log that was compacted.
    A recovery that succeeds has the state that applying the whole committed log, compacted
    entries first, gives to a new machine; when the log follows the snapshot without gaps, the
    machine stands at the commit index, and the runtime has persisted that index as applied if
    it was not and is otherwise as it was.  And recovery does succeed, with these outcomes,
    when the committed log can be applied, the applied and the commit index are within the
    snapshot and the log, the log has no gaps, the snapshot reads back, and the batch that
    persists the applied index, where it is behind, succeeds. *)
Theorem recovery_replays_log (w : W) d (v : V) node history md :
  find_group (d_runtime d) group = Some node -> Metadata_create limits = Ok md -> describes history (state node) v ->
  let p := state node in
  let n := last_included_index (snapshot p) in
  (forall m world, recover_impl sha256 group storage limits cl sl ((w, d), v) = (Ok m, world) ->
    replay_log group cl sl (committed_log history p) md = (kOk, dm_metadata m) /\ dm_failure m = kOk /\
    (contiguous n (log p) -> md_applied (dm_metadata m) = commit_index p /\ persisted w d p world.1)) /\
  (forall md' wd, is_nil group = false -> n <= applied_index p -> n <= commit_index p <= n + blen (log p) -> contiguous n (log p) ->
    (n <> 0 -> exists snap v1 store1, loads sha256 p v (new_machine group storage md cl sl) snap v1 store1) ->
    replay_log group cl sl (committed_log history p) md = (kOk, md') -> persisted w d p wd ->
    exists m v', recover_impl sha256 group storage limits cl sl ((w, d), v) = (Ok m, (wd, v')) /\ dm_metadata m = md').
Proof.
  intros Hf Hmd Hdesc p n. split; [by eapply recovered_state|by eapply recovers].
Qed.
End recovery.

(** * Compaction *)

Section compaction.
Context {W V : Type} {HW : PosixIo W} {HV : PosixIo V} {HL : PosixLaws V}.
Context (sha256 : list byte -> result (list byte)).
Abbreviation World := ((W * Durable) * (V * MetadataMachine))%type.

Lemma wp_load index (v : V) store : in_width 64 index ->
  wp (load index) (v, store)
    (fun r vs => vs.2 = store /\ disk vs.1 = disk v /\ stored (ss_config store) index (lm_snapshot r) (disk v))
    (fun _ vs => vs.2 = store /\ disk vs.1 = disk v).
Proof.
  intros Hw. unfold load. apply wp_bind, wp_pure.
  destruct (metadata_snapshot_file_name index) as [name|st] eqn:En; [|unfold metadata_snapshot_file_name in En; by destruct (_ =? 0); [injection En as <-|]].
  apply file_name_Ok in En as [-> _]; [|done]. eapply wp_mono; [apply wp_load_file| |done].
  intros r [v1 s1] (_ & E & D & f & Hn & Hf & Hd). split; [done|]. split; [done|]. by exists f, (lm_bytes r).
Qed.

(** The entries of the snapshot that the group has now. *)
Definition earlier_entries (store : SnapshotStorage) (current : SnapshotMetadata) (d : Disk) (earlier : list MetadataSnapshotEntry) : Prop :=
  if last_included_index current =? 0 then earlier = []
  else exists prior, stored (ss_config store) (last_included_index current) prior d /\ as_raft_snapshot prior = current /\ as_entries prior = earlier.
Lemma ends_current_entries current (s : World) store : in_width 64 (last_included_index current) -> dm_snapshot_storage s.2.2 = Some store ->
  ends (current_entries sha256 current) s
    (fun earlier s' => s'.1 = s.1 /\ disk s'.2.1 = disk s.2.1 /\ dm_group_id s'.2.2 = dm_group_id s.2.2 /\ dm_snapshot_storage s'.2.2 = Some store /\
       earlier_entries store current (disk s.2.1) earlier)
    (fun s' => s'.1 = s.1).
Proof.
  intros Hw Hs. unfold current_entries, earlier_entries. apply ends_bind, ends_get. destruct (_ =? 0); [done|].
  apply ends_bind, ends_or_fail, (ends_on_storage _ _ store); [done|]. apply ends_wp. eapply wp_mono; [by apply wp_load| |done].
  intros r [v1 s1] (-> & D & St). cbn [fst snd] in *. destruct (_ || _) eqn:G; [by apply ends_machine_fail|]. bool_prop.
  apply ends_bind, ends_pure; [|done]. intros digest _. destruct (negb _); [by apply ends_machine_fail|].
  split_and!; try done. exists (lm_snapshot r). by split.
Qed.

(** The snapshot lies in the directory: as a new file that a crash does not lose, or in a
    file that was there. *)
Definition installed_in (config : MetadataSnapshotStorageConfig) (snap : MetadataApplicationSnapshot) (before after : Disk) : Prop :=
  exists encoded f, encode_metadata_application_snapshot_v1 snap (sc_codec_limits config) = Ok encoded /\
    d_names after !! snapshot_name (last_included_index (as_raft_snapshot snap)) = Some (kRegularFile, f) /\ d_data after !! f = Some encoded /\
    (after = before \/ (d_synced after !! f = Some encoded /\ d_synced_names after = d_names after)).
Lemma wp_install_in snap (v : V) store : disk_ok (disk v) -> in_width 64 (last_included_index (as_raft_snapshot snap)) ->
  wp (install snap) (v, store) (fun _ vs => installed_in (ss_config store) snap (disk v) (disk vs.1)) anything.
Proof.
  intros Hd Hw. eapply wp_mono; [by apply wp_install| |done]. intros r [v1 s1] (encoded & He & _ & _ & _ & _ & _ & H). cbn [fst] in *.
  destruct (im_already_present r).
  - destruct H as (-> & f & Hn & Hf). exists encoded, f. split_and!; try done. by left.
  - destruct H as ((f & H1 & H2 & H3) & Hsy). exists encoded, f. split_and!; try done. by right.
Qed.

(** The snapshot [snap] that the group of [node] may be compacted to, at [n]. *)
Record compactable (n : LogIndex) (m : MetadataMachine) (node : Impl) (before : Disk) (snap : MetadataApplicationSnapshot) (store : SnapshotStorage) : Prop := {
  co_storage : dm_snapshot_storage m = Some store;
  co_boundary : last_included_index (as_raft_snapshot snap) = n;
  co_applied : last_included_index (snapshot (state node)) < n <= applied_index (state node) /\ n <= md_applied (dm_metadata m);
  co_entries : exists earlier added, earlier_entries store (snapshot (state node)) before earlier /\
    collect_entries n (log (state node)) = Ok added /\ as_entries snap = earlier ++ added;
  co_digest : sha256 (digest_input (as_entries snap)) = Ok (part_set_checksum (as_raft_snapshot snap)) }.

Lemma prepared_boundary node s0 s1 : prepare_snapshot_metadata node s0 = Ok s1 -> last_included_index s1 = last_included_index s0.
Proof.
  unfold prepare_snapshot_metadata. case_bool_decide; [done|]. destruct (_ || _); [done|]. destruct (derive_membership _ _ _ _); cbn [rbind]; [|done].
  case_bool_decide; [done|]. destruct (negb _); [done|]. unfold check. destruct (is_ok _); [|done]. by intros [= <-].
Qed.
Lemma ends_next_snapshot node boundary (s : World) store : in_width 64 (last_included_index (snapshot (state node))) ->
  dm_snapshot_storage s.2.2 = Some store ->
  ends (next_snapshot sha256 node boundary) s
    (fun snap s' => s'.1 = s.1 /\ disk s'.2.1 = disk s.2.1 /\ dm_group_id s'.2.2 = dm_group_id s.2.2 /\ dm_snapshot_storage s'.2.2 = Some store /\
       last_included_index (as_raft_snapshot snap) = entry_index boundary /\
       (exists earlier added, earlier_entries store (snapshot (state node)) (disk s.2.1) earlier /\
          collect_entries (entry_index boundary) (log (state node)) = Ok added /\ as_entries snap = earlier ++ added) /\
       sha256 (digest_input (as_entries snap)) = Ok (part_set_checksum (as_raft_snapshot snap)))
    (fun s' => s'.1 = s.1).
Proof.
  intros Hw Hs. unfold next_snapshot. apply ends_bind, ends_get. apply ends_bind, ends_pure; [|done]. intros next Hp. apply prepared_boundary in Hp.
  apply ends_bind. eapply ends_mono; [by apply ends_current_entries| |done]. intros earlier s1 (E1 & D1 & G1 & S1 & He).
  apply ends_bind, ends_or_fail, ends_pure; [|done]. intros added Ha. apply ends_bind, ends_pure; [|done]. intros digest Hd.
  split_and!; try (done || congruence). by exists earlier, added.
Qed.

(** What a call of [compact_applied_prefix] did once it touched the runtime: the snapshot was
    in its directory, and all the runtime did was the compaction to that snapshot. *)
Definition compacted (n : LogIndex) (s s' : World) : Prop :=
  exists node snap store, find_group (d_runtime s.1.2) (dm_group_id s.2.2) = Some node /\ compactable n s.2.2 node (disk s.2.1) snap store /\
    installed_in (ss_config store) snap (disk s.2.1) (disk s'.2.1) /\
    (execute_batch [{| dr_group_id := dm_group_id s.2.2; dr_operation := CompactSnapshotOperation (as_raft_snapshot snap); dr_required_leader_term := None |}] s.1).2 = s'.1.
Lemma ends_compact n (s : World) : disk_ok (disk s.2.1) -> in_width 64 n ->
  (forall node, find_group (d_runtime s.1.2) (dm_group_id s.2.2) = Some node -> in_width 64 (last_included_index (snapshot (state node)))) ->
  ends (compact_applied_prefix sha256 n) s (fun _ s' => compacted n s s') (fun s' => s'.1 = s.1 \/ compacted n s s').
Proof.
  intros Hd Hw Hn. unfold compact_applied_prefix, machine_usable. apply ends_bind, ends_bind, ends_get.
  unfold io_check, ends at 1. destruct (is_ok _); [|by left]. apply ends_bind, ends_get. apply ends_stop; [by left|]. intros Hs.
  apply negb_false_iff, bool_decide_eq_true in Hs as [store Hs]. apply ends_bind, ends_group_node.
  destruct (find_group _ _) as [node|] eqn:Ef; [|apply ends_machine_fail; by left]. specialize (Hn _ eq_refl). cbv zeta.
  destruct (negb (owns_boundary _ _)); [apply ends_machine_fail; by left|]. apply ends_stop; [by left|]. intros G1. bool_prop.
  destruct (_ || _) eqn:G2; [apply ends_machine_fail; by left|]. destruct (log (state node) !! _) as [boundary|]; [|apply ends_machine_fail; by left].
  destruct (negb _ || _) eqn:G3; [apply ends_machine_fail; by left|]. destruct (_ <? n) eqn:G4; [apply ends_machine_fail; by left|]. bool_prop.
  apply ends_bind. eapply ends_mono; [by apply ends_next_snapshot| |by left]. intros snap s1 (E1 & D1 & I1 & S1 & B & He & Hdig). bool_prop.
  apply ends_bind, (ends_on_storage _ _ store); [done|]. apply ends_wp.
  eapply wp_mono; [apply wp_install_in; [by rewrite D1|congruence]| |by left]. intros inst [v2 s2] Hin. cbn [fst snd] in *. rewrite D1 in Hin.
  assert (Hco : compactable n s.2.2 node (disk s.2.1) snap store).
  { rewrite H2 in He, B. split; [done|done| |done|done]. rewrite Z.gtb_ltb in H1. apply Z.ltb_ge in H1. lia. }
  apply ends_bind, ends_or_fail. unfold run_request. apply ends_bind, ends_get. unfold on_runtime, ends at 1. cbn [fst snd set_snapshot_storage dm_group_id].
  rewrite E1, I1. destruct (execute_batch _ s.1) as [[results|st] wd] eqn:Eb.
  2: { intros m. right. exists node, snap, store. rewrite Eb. cbn [fst snd]. split_and!; done. }
  assert (Hall : forall m, compacted n s (wd, (v2, m))) by (intros m; exists node, snap, store; rewrite Eb; cbn [fst snd]; split_and!; done).
  destruct (refused_result results); [by right|]. apply ends_bind, ends_group_node.
  match goal with |- ends (match ?x with Some _ => _ | None => _ end) _ _ _ => destruct x as [node'|] end; [|apply ends_machine_fail; by right].
  destruct (negb _); [apply ends_machine_fail; by right|]. apply Hall.
Qed.

(** C14. Compaction, whatever call of either file system fails.  A call that touched the
    durable runtime, or reported success, had first put an application snapshot into its
    directory: a complete file, synchronised with its name, unless a file with the same bytes
    was there before.  That snapshot reaches up to the requested index, which both the group
    and the machine have applied; it holds the entries of the group's previous snapshot, read
    back from the directory, followed by the application entries of the log up to the index,
    and its checksum is their digest.  The only thing the runtime was asked to do is to
    compact the group to that snapshot. *)
Theorem compaction_behind_snapshot n (w : W) d (v : V) m r w' d' v' m' :
  disk_ok (disk v) -> in_width 64 n ->
  (forall node, find_group (d_runtime d) (dm_group_id m) = Some node -> in_width 64 (last_included_index (snapshot (state node)))) ->
  compact_applied_prefix sha256 n ((w, d), (v, m)) = (r, ((w', d'), (v', m'))) ->
  (w', d') <> (w, d) \/ (exists report, r = Ok report) ->
  exists node snap store, find_group (d_runtime d) (dm_group_id m) = Some node /\ compactable n m node (disk v) snap store /\
    installed_in (ss_config store) snap (disk v) (disk v') /\
    (execute_batch [{| dr_group_id := dm_group_id m; dr_operation := CompactSnapshotOperation (as_raft_snapshot snap);
                       dr_required_leader_term := None |}] (w, d)).2 = (w', d').
Proof.
  intros Hd Hw Hn E Ht. pose proof (ends_compact n ((w, d), (v, m)) Hd Hw Hn) as H. unfold ends in H. rewrite E in H.
  destruct r as [rep|st]; [exact H|]. destruct H as [H|H]; [|exact H]. cbn in H. by destruct Ht as [|[? ?]].
Qed.
End compaction.

(** * Runs in memory *)

(** A group with one voter commits an internal entry and two nodes; its owner applies them and
    compacts the group.  The digest is a stand-in with 32 bytes. *)
Definition run_config : RaftPersistentLogConfig :=
  {| rc_directory_path := [x72]; rc_file_permissions := 384; rc_target_segment_size := 4096;
     rc_maximum_segments := 16; rc_maximum_records := 64; rc_maximum_groups := 16 |}.
Definition run_limits : DurableMultiRaftLimits :=
  {| maximum_batch_operations := 8; maximum_batch_outbound := 64;
     limits_runtime := {| maximum_groups := 4; maximum_queued_outbound := 8;
       limits_raft := {| maximum_voters := 3; maximum_log_entries := 8; maximum_entry_bytes := 256;
         maximum_append_entries := 4; maximum_persistent_state_bytes := 4096 |} |} |}.
Definition run_group : GroupId := replicate 16 x01.
Definition run_groups : list RaftGroupConfiguration := [{| cfg_group_id := run_group; cfg_voters := [1] |}].
Definition run_storage_config : MetadataSnapshotStorageConfig :=
  {| sc_directory_path := [x64]; sc_group_id := run_group; sc_codec_limits := default_snapshot_limits; sc_file_permissions := 384 |}.
Definition run_payload (node_id : Z) : list byte :=
  match encode_metadata_command_v1 (NodeCommand {| cn_node_id := node_id; cn_endpoint := [x61] |}) default_command_limits with
  | Ok bytes => bytes | Err _ => [] end.
Definition run_sha256 (bytes : list byte) : result (list byte) := Ok (take 32 (rev bytes ++ replicate 32 x00)).
Definition run_metadata_limits : MetadataLimits :=
  {| maximum_nodes := 4; maximum_schemas := 8; maximum_tablets := 8; maximum_replicas_per_tablet := 3;
     maximum_endpoint_bytes := 64; maximum_table_name_bytes := 64; maximum_column_name_bytes := 64 |}.
Definition run_request_of (op : DurableRaftOperation) : DurableRaftRequest :=
  {| dr_group_id := run_group; dr_operation := op; dr_required_leader_term := None |}.
Definition run_batch : list DurableRaftRequest :=
  run_request_of <$> [StartElectionOperation; CommitCurrentTermOperation; ProposeOperation 2 (run_payload 7); ProposeOperation 2 (run_payload 8)].
Abbreviation RunWorld := ((Memory * Durable) * (Memory * MetadataMachine))%type.
Definition run_runtime : option (Memory * Durable) :=
  match DurableRuntime.create_new_with 1 run_config run_groups run_limits (on_memory empty_disk) with
  | (Ok d, w) => match execute_batch run_batch (w, d) with (Ok _, wd) => Some wd | _ => None end
  | _ => None
  end.
Definition run_recovered : option RunWorld :=
  match run_runtime, open_with run_storage_config true (on_memory empty_disk) with
  | Some wd, (Ok store, v) =>
      match recover_impl run_sha256 run_group (Some store) run_metadata_limits default_command_limits default_definition_limits (wd, v) with
      | (Ok m, (wd, v)) => Some (wd, (v, m))
      | _ => None
      end
  | _, _ => None
  end.
Definition run_compacted (n : LogIndex) : option RunWorld :=
  match run_recovered with
  | Some s => match compact_applied_prefix run_sha256 n s with (Ok _, s) => Some s | _ => None end
  | None => None
  end.

Lemma run_elim {A} (o : option A) (check : A -> bool) : match o with Some a => check a | None => false end = true -> exists a, o = Some a /\ check a = true.
Proof. destruct o as [a|]; [|done]. by exists a. Qed.

Definition run_entry (index type : Z) (payload : list byte) : LogEntry :=
  {| entry_index := index; entry_term := 1; entry_type := type; entry_payload := payload |}.
Definition run_history : list LogEntry := [run_entry 1 253 []; run_entry 2 2 (run_payload 7)].
Definition run_later : list LogEntry := [run_entry 3 2 (run_payload 8)].
Lemma run_contiguous : contiguous 0 run_history /\ contiguous 2 run_later.
Proof. split; intros [|[|[|i]]] e; cbn; intros [= <-] || intros ?; done. Qed.
Definition run_fresh : Metadata := match Metadata_create run_metadata_limits with Ok m => m | Err _ => sample_empty end.
Definition run_snapshot : MetadataApplicationSnapshot :=
  {| as_group_id := run_group;
     as_raft_snapshot := {| last_included_index := 2; last_included_term := 1; manifest_generation := 2; part_set_checksum := replicate 32 x00;
                            configuration_index := 0; snapshot_voters := [1] |};
     as_entries := application_entries run_history |}.
Lemma snapshot_replay_witness : exists m,
  replay_snapshot run_group default_command_limits default_definition_limits run_snapshot run_fresh = (kOk, m) /\
  replay_log run_group default_command_limits default_definition_limits run_history run_fresh = (kOk, m) /\ md_applied m = 2 /\ length (md_nodes m) = 1%nat.
Proof.
  destruct run_contiguous as [C1 C2].
  destruct (snapshot_replay run_group default_command_limits default_definition_limits run_fresh run_history run_later C1 C2 ltac:(done) ltac:(done)) as [H _].
  destruct (replay_log run_group default_command_limits default_definition_limits run_history run_fresh) as [st m] eqn:E.
  assert (Hm : match replay_log run_group default_command_limits default_definition_limits run_history run_fresh with
               (st, m) => is_ok st && (md_applied m =? 2) && (length (md_nodes m) =? 1)%nat end = true) by (vm_compute; reflexivity).
  rewrite E in Hm. apply andb_true_iff in Hm as [[Hs%bool_decide_eq_true Ha%Z.eqb_eq]%andb_true_iff Hl%Nat.eqb_eq]. subst st. exists m.
  split; [apply (H run_snapshot); [reflexivity|vm_compute; reflexivity]|split; [reflexivity|split; [exact Ha|exact Hl]]].
Defined.

(** The compacted group, opened by a new process: its snapshot was collected from
    [run_history], and the log behind it can be applied. *)
(** One more entry is committed behind the snapshot and not yet applied. *)
Definition run_proposed : option RunWorld :=
  match run_compacted 2 with
  | Some (wd, vm) =>
      match execute_batch [run_request_of (ProposeOperation 2 (run_payload 9))] wd with (Ok _, wd) => Some (wd, vm) | _ => None end
  | None => None
  end.
Definition run_reads (s : RunWorld) (node : Impl) (store : SnapshotStorage) : bool :=
  let p := state node in
  match load (last_included_index (snapshot p)) (s.2.1, store) with
  | (Ok loaded, _) =>
      let snap := lm_snapshot loaded in
      bool_decide (as_group_id snap = run_group) && bool_decide (as_raft_snapshot snap = snapshot p)
      && bool_decide (take 32 (rev (digest_input (as_entries snap)) ++ replicate 32 x00) = part_set_checksum (snapshot p))
      && bool_decide (application_entries run_history = as_entries snap)
  | _ => false
  end.
Definition run_replays (p : PersistentState) : bool :=
  match replay_log run_group default_command_limits default_definition_limits (committed_log run_history p) run_fresh with
  | (st, m) => is_ok st && (length (md_nodes m) =? 3)%nat
  end.
Definition run_marks (s : RunWorld) : bool :=
  match execute_batch [run_request_of (MarkAppliedOperation 4)] s.1 with
  | (Ok [result], _) => is_ok (dres_status result)
  | _ => false
  end.
Definition run_check (s : RunWorld) : bool :=
  match find_group (d_runtime s.1.2) run_group, dm_snapshot_storage s.2.2 with
  | Some node, Some store =>
      let p := state node in
      (last_included_index (snapshot p) =? 2) && (applied_index p =? 3) && (commit_index p =? 4)
      && bool_decide (entry_index <$> log p = [3; 4])
      && run_reads s node store && run_replays p && run_marks s
  | _, _ => false
  end.
Lemma run_collects : collect_entries 2 run_history = Ok (application_entries run_history).
Proof. vm_compute. reflexivity. Qed.
Lemma run_created : Metadata_create run_metadata_limits = Ok run_fresh.
Proof. reflexivity. Qed.
Lemma run_log_contiguous entries : entry_index <$> entries = [3; 4] -> contiguous 2 entries /\ blen entries = 2.
Proof.
  intros E. assert (Hl : length entries = 2%nat) by (by rewrite <- (length_fmap entry_index), E). split; [|lia].
  intros i e Hi. assert (Hk : (entry_index <$> entries) !! i = Some (entry_index e)) by (by rewrite list_lookup_fmap, Hi).
  rewrite E in Hk. destruct i as [|[|i]]; cbn in Hk; [injection Hk as <-; reflexivity..|discriminate Hk].
Qed.
Lemma recovery_replays_log_witness : exists s m wd v', run_proposed = Some s /\
  recover_impl run_sha256 run_group (dm_snapshot_storage s.2.2) run_metadata_limits default_command_limits default_definition_limits (s.1, s.2.1) = (Ok m, (wd, v')) /\
  length (md_nodes (dm_metadata m)) = 3%nat /\ marks run_group 4 s.1 wd.
Proof.
  destruct (run_elim run_proposed run_check ltac:(vm_compute; reflexivity)) as ([[w d] [v m0]] & Es & Hc). exists ((w, d), (v, m0)).
  unfold run_check in Hc. cbn [fst snd] in *. destruct (find_group (d_runtime d) run_group) as [node|] eqn:Ef; [|discriminate Hc].
  destruct (dm_snapshot_storage m0) as [store|] eqn:Eo; [|discriminate Hc].
  apply andb_true_iff in Hc as [[[[[[Hi%Z.eqb_eq Ha%Z.eqb_eq]%andb_true_iff Hk%Z.eqb_eq]%andb_true_iff Hl%bool_decide_eq_true]%andb_true_iff Hr]%andb_true_iff Hp]%andb_true_iff Hmk].
  apply run_log_contiguous in Hl as [Hcl Hl].
  unfold run_reads in Hr. cbn [fst snd] in Hr. destruct (load (last_included_index (snapshot (state node))) (v, store)) as [[loaded|] [v1 store1]] eqn:El; [|discriminate Hr].
  apply andb_true_iff in Hr as [[[Hg%bool_decide_eq_true Hs%bool_decide_eq_true]%andb_true_iff Hd%bool_decide_eq_true]%andb_true_iff He%bool_decide_eq_true].
  unfold run_replays in Hp. destruct (replay_log _ _ _ _ _) as [st md'] eqn:Em. apply andb_true_iff in Hp as [Hst%bool_decide_eq_true Hn%Nat.eqb_eq]. subst st.
  assert (Hmarks : exists wd, marks run_group 4 (w, d) wd).
  { unfold run_marks in Hmk. cbn [fst] in Hmk. unfold marks. change {| dr_group_id := run_group; dr_operation := MarkAppliedOperation 4; dr_required_leader_term := None |} with (run_request_of (MarkAppliedOperation 4)).
    destruct (execute_batch [run_request_of (MarkAppliedOperation 4)] (w, d)) as [[[|result [|? ?]]|] wd]; try discriminate Hmk.
    exists wd, result. split; [reflexivity|]. apply bool_decide_eq_true in Hmk. exact Hmk. }
  destruct Hmarks as [wd Hmarks].
  destruct (recovery_replays_log run_sha256 run_group (Some store) run_metadata_limits default_command_limits default_definition_limits w d v node run_history run_fresh
    Ef run_created) as [_ H].
  { split; [apply run_contiguous|]. split; [rewrite Hi; reflexivity|]. split; [intros [=]|]. intros store' loaded' vs [= <-]. rewrite El, Hi. intros [= <- _]. rewrite <- He. apply run_collects. }
  destruct (H md' wd eq_refl) as (m & v' & E & Emd); [lia|lia|rewrite Hi; exact Hcl| |exact Em| |].
  { intros _. exists (lm_snapshot loaded), v1, store1. exists store, loaded.
    split; [reflexivity|]. split; [exact El|]. split; [reflexivity|]. split; [exact Hg|]. split; [exact Hs|]. unfold run_sha256. f_equal. exact Hd. }
  { unfold persisted. rewrite Ha, Hk. exact Hmarks. }
  exists m, wd, v'. split; [exact Es|]. split; [exact E|]. split; [rewrite Emd; exact Hn|exact Hmarks].
Defined.
Definition run_compacts (s : RunWorld) : bool :=
  disk_okb (mem_disk s.2.1)
  && match find_group (d_runtime s.1.2) (dm_group_id s.2.2) with Some node => last_included_index (snapshot (state node)) =? 0 | None => true end
  && match compact_applied_prefix run_sha256 2 s with (Ok _, _) => true | _ => false end.
Lemma compaction_behind_snapshot_witness : exists s report s', run_recovered = Some s /\ compact_applied_prefix run_sha256 2 s = (Ok report, s') /\
  exists snap config, last_included_index (as_raft_snapshot snap) = 2 /\ installed_in config snap (disk s.2.1) (disk s'.2.1).
Proof.
  destruct (run_elim run_recovered run_compacts ltac:(vm_compute; reflexivity)) as ([[w d] [v m]] & Es & Hc). unfold run_compacts in Hc.
  apply andb_true_iff in Hc as [[Hd%disk_okb_spec Hf]%andb_true_iff Hr]. cbn [fst snd] in *.
  destruct (compact_applied_prefix run_sha256 2 ((w, d), (v, m))) as [[report|] [[w' d'] [v' m']]] eqn:E; [|discriminate Hr].
  exists ((w, d), (v, m)), report, ((w', d'), (v', m')). split; [exact Es|]. split; [exact E|].
  destruct (compaction_behind_snapshot run_sha256 2 w d v m (Ok report) w' d' v' m') as (node & snap & store & _ & Hco & Hin & _).
  - exact Hd.
  - unfold in_width. lia.
  - intros node Hnode. rewrite Hnode in Hf. apply Z.eqb_eq in Hf. rewrite Hf. unfold in_width. lia.
  - exact E.
  - right. by exists report.
  - exists snap, (ss_config store). split; [by destruct Hco|exact Hin].
Defined.
